(* ===== verification/_CoqProject ===== *)
-Q . S2P
Prelude.v
Bytes.v
Errno.v
OrderedQueue.v
RbArena.v
RbZipper.v
RbShape.v
RbTree.v
Address.v
FrameAllocator.v
PageTable.v
Pipe.v
RwLock.v
IdAlloc.v
Task.v
CfsRq.v
DeadlineRq.v
RtRq.v
RunQueue.v
Sched.v
Processor.v
Fairness.v
WakeProtocol.v
SleepQueue.v
Futex.v
FutexCall.v
Signal.v
Kill.v
BTree.v
Mm.v
MapArea.v
MemSet.v
Space.v
SpaceUnmap.v
SpaceProtect.v
SpaceMap.v
SpaceFault.v
SpaceFork.v
SpaceMove.v
SpaceSys.v
SpaceView.v
SpaceProps.v
UserCopy.v
SpaceCopy.v
CopyProps.v
Auth.v
MsgQueue.v
Ipc.v
IpcCopy.v
IpcProps.v
MmCall.v
MmCallProps.v
Ext4Checksum.v
Ext4Super.v
Ext4Dirent.v
Ext4Dir.v
Ext4DirInv.v
Ext4DirOps.v
Ext4DirProps.v
BlockCache.v
BlockCacheProps.v
Ext4Alloc.v
Ext4AllocInv.v
Ext4AllocLayout.v
Ext4AllocProps.v
