(* ===== verification/Prelude.v ===== *)
(** * ShellCore in Rocq

    A verification development for the ShellCore kernel (os/src): the scheduler and
    its run queues, blocking and waking, futexes, signals, physical memory, page
    tables, user address spaces and the system calls on them, copies between kernel
    and user memory, System V message queues and shared memory, the block cache, and
    the checksums, directories and allocator of ext4; pipes, locks and identifiers.
    The model is a shallow embedding of the Rust code: a struct is a record, an enum an
    inductive type, a method a function on states, a loop a fixpoint (on a list, or on
    fuel).

    ** Conventions

    A panic of the code (an [unwrap] of nothing, a failed [assert!], an index out of
    range, an arithmetic overflow) is [None]; an error the code returns is a value
    ([Errno + A], or the negative number of a system call).  [wp m Q] says that the
    computation [m] does not panic and its result satisfies [Q].  Arithmetic on
    machine integers is checked, as in a build with overflow checks (MODE=debug, the
    default of os/Makefile).  The Makefile of the repository builds MODE=release by
    default, without the checks: where a theorem shows that a function does not panic,
    no operation overflows and both builds compute the same; a run of the model that
    ends in [None] for an overflow is a wrapped number there.  Shared objects ([Arc],
    [Mutex]) that matter to a claim are entries of a heap, named by reference.  A
    section that holds a lock is one step; the theorems about races interleave such
    steps.  Sources that are not part of the repository, and the parts of it that are
    not modelled, are arguments: files are the record [FileOps] or the interface
    [ByteFile] with its laws, the clock and the interrupts are inputs.

    ** The parts and their files

    - Scheduling (os/src/process/scheduler).  [RbArena], [RbZipper], [RbShape] and
      [RbTree] verify the arena red-black tree of rbtree.rs and give the instance of
      the interface [OrderedQueue].  [Task] has the scheduling state of a task; [CfsRq],
      [DeadlineRq] and [RtRq] the three queues (cfs_rq.rs, deadline_rq.rs, rt_rq.rs),
      [RunQueue] the per-CPU queue with the stop and idle classes, [Sched] placement,
      wake-up and stealing over all CPUs (runqueue.rs, idle_rq.rs), [Processor] the
      scheduler loop, the context switch and a machine of CPUs that go online and run
      (processor.rs, wait.rs), [Fairness] the progress of fair tasks on it.
    - Blocking.  [WakeProtocol] interleaves the steps of a blocking task and its
      wakers (wait.rs); [SleepQueue] is the queue of timed sleepers (nanosleep.rs).
    - Futexes.  [Futex] has the wait queues of futex.rs with their reference counts,
      [FutexCall] the two halves of the system call, before and after the sleep
      (syscall/process.rs), and its races.
    - Signals (os/src/process/signal).  [Signal] has pending sets, masks, actions,
      delivery and return of one thread; [Kill] the task registry and the sending
      system calls.
    - Physical memory (os/src/mm).  [Address] has addresses and page numbers,
      [FrameAllocator] the frame allocator, [PageTable] the SV39 tables, [Mm] the
      interface of both towards address spaces, with frames counted by their trackers.
    - Address spaces (os/src/mm/memory_set.rs).  [BTree] has the ordered maps,
      [MapArea] one mapped area, [MemSet] the operations of an address space.  The
      proofs read an address space page by page ([Space]: [page_at] and the invariant
      [sp_ok] between areas, page table and trackers); [SpaceUnmap], [SpaceProtect],
      [SpaceMap], [SpaceFault], [SpaceFork] and [SpaceMove] give each operation its
      exact effect on the pages, [SpaceSys] runs any number of address spaces,
      [SpaceView] adds the loads and stores of programs, [SpaceProps] has the theorems.
      [MmCall] has the memory system calls with their checks of the arguments
      (syscall/mm.rs, syscall/process.rs), [MmCallProps] their theorems.
    - Copies (mm/page_table.rs, mm/user_buffer.rs).  [UserCopy] has pinning, faulting
      in, typed reads and writes, strings and buffers of segments; [SpaceCopy] their
      effect on well-formed address spaces, [CopyProps] the theorems.
    - System V communication (os/src/ipc, syscall/ipc.rs).  [Auth] has permissions,
      [MsgQueue] the queues and their manager, [Ipc] shared memory and the system calls
      over user memory; [IpcCopy] and [IpcProps] the proofs.
    - The ext4 file system (os/src/ext4fs).  [Bytes] has byte strings.  [Ext4Checksum]
      has CRC32C and the checksums of checksum.rs; [Ext4Super] the superblock, the group
      descriptors and the discarding of the journal; [Ext4Dirent] and [Ext4Dir] the
      records and operations of directories over [ByteFile], with their proofs in
      [Ext4DirInv], [Ext4DirOps] and [Ext4DirProps]; [Ext4Alloc] the allocator of blocks
      and inodes of ext4.rs, with its proofs in [Ext4AllocInv], [Ext4AllocLayout] and
      [Ext4AllocProps].
    - The block cache (drivers/block/cache.rs, block_dev.rs).  [BlockCache] has pages as
      shared objects, [BlockCacheProps] the proofs.
    - Tools.  [Pipe] has the ring buffer and the lock sections of pipes, [RwLock] the
      reader-writer spin lock as a transition system, [IdAlloc] the identifiers and
      kernel stacks, [Errno] the error numbers.

    ** What the theorems show

    - The red-black tree refines a sorted list, and no sequence of operations panics.
      The queues refine their selection rules: smallest virtual runtime, earliest
      deadline, highest priority; in a closed queue of fair tasks each is picked after
      a bounded number of turns.
    - In every interleaving of the scheduler steps a task runs on one CPU at most, no
      step panics, a wake-up is not lost, and a sleeper whose time has come is woken.
    - A futex wake is not lost; waiters are woken in order; a wait ends with the code
      that says why.
    - Signals are delivered lowest first, and the return of a handler restores the
      interrupted context.
    - Frames that are handed out are disjoint; page tables refine partial maps.
    - Address spaces: every operation has exactly its effect on the pages of its range,
      all states that operations reach are well formed, and a store to private memory
      is seen in no other place, through forks and copy-on-write faults, as long as
      [mprotect] does not give back a right that copy on write withholds.  The same
      group has runs where the code breaks these rules ([mprotect] after a fork, the
      page of the trampoline, sizes beyond the address space).
    - Copies: a read or write of user memory succeeds exactly when the range allows it
      and touches no other byte; a message arrives in the memory of its receiver as it
      was in that of the sender.
    - Directories refine finite maps from names to inodes, indexed ones included, and
      keep their checksums; CRC32C is the remainder it stands for, and every kind of
      metadata gets the checksum of its bytes in the field of its layout.
    - The allocator hands out what the layout leaves free and nothing twice, and the
      counters keep counting it.
    - The block cache behaves like the device it stands for when one call runs at a
      time, and [sync_all] ends; runs of two calls that interleave show writes lost.
    - Pipes deliver bytes in order, and a writer has the lock alone.

    ** Bounds and fuel

    Loops of the tree run on a fuel that the size of the arena bounds, and the proofs
    show that it suffices.  The loops over pages of an address space are over the lists
    of pages they visit; [ensure_loop] has fuel for every page of the user half, and the
    retries of a copy have more than the code allows (eight faults, with eight retries
    before and after each).  The division of a group number by 3, 5 or
    7 ends within the 32 bits it has.  Theorems that need memory say how many free
    frames an operation may take (a page of a table costs two more frames at most).

    ** Not modelled

    - The versions of areas, the locks of one address space against each other, TLB
      shootdowns and address-space identifiers in hardware: each operation of an address
      space is one step.
    - ELF loading, the kernel's own address space, the heap of the kernel, boot code.
    - Reclaiming page-cache pages when frames run out, and the page cache of files.
    - The extents, reads, writes and truncation of ext4 files and its mount (directories
      and allocator have what they need of them as an interface or as an array of
      blocks); tmpfs, procfs, devfs, the file tree and the file system calls.
    - Device drivers, sockets and the network, the LoongArch port, the user programs.
    - Process creation, exec and exit beyond the effects on scheduling and memory. *)

From stdpp Require Export base list gmap functions sorting numbers relations.
From Stdlib Require Export ZArith Lia.

#[export] Set Default Goal Selector "!".

#[global] Arguments Nat.div : simpl never.
#[global] Arguments Nat.modulo : simpl never.

(** ** Machine integers

    [usize] and [u64] have 64 bits on both targets.  Their values are kept as [Z] (or
    as [nat] for in-memory counts); an overflowing [+], [-] or [*] is a panic, that is
    [None], as in a build with overflow checks. *)

Definition USIZE_MAX : Z := 2 ^ 64 - 1.

Definition U64_MAX : Z := 2 ^ 64 - 1.

Definition is_u64 (z : Z) : Prop := (0 <= z <= U64_MAX)%Z.

Definition checked_add (a b : Z) : option Z :=
  if (a + b <=? USIZE_MAX)%Z then Some (a + b)%Z else None.

Definition checked_sub (a b : Z) : option Z :=
  if (b <=? a)%Z then Some (a - b)%Z else None.

Definition checked_mul (a b : Z) : option Z :=
  if (a * b <=? USIZE_MAX)%Z then Some (a * b)%Z else None.

Definition saturating_add (a b : Z) : Z := Z.min U64_MAX (a + b).

Definition saturating_sub (a b : Z) : Z := Z.max 0 (a - b).

Definition saturating_mul (a b : Z) : Z := Z.min U64_MAX (a * b).

Definition wrapping_add (a b : Z) : Z := ((a + b) mod 2 ^ 64)%Z.

(** The checked [-= 1] on a counter kept as [nat]. *)
Definition nat_dec (n : nat) : option nat :=
  match n with O => None | S m => Some m end.

(** ** Vec used as a stack: [push] and [pop] work at the end. *)

Definition vec_push {A} (l : list A) (x : A) : list A := l ++ [x].

Definition vec_pop {A} (l : list A) : option (A * list A) :=
  match last l with
  | Some x => Some (x, removelast l)
  | None => None
  end.

(** ** Rust's [Ord]

    [cmp] with the laws every [Ord] implementation owes its clients: it is
    consistent with [==], antisymmetric and transitive. *)
Class RustOrd (K : Type) := {
  cmp : K → K → comparison;
  cmp_eq_iff : ∀ a b, cmp a b = Eq ↔ a = b;
  cmp_antisym : ∀ a b, cmp b a = CompOpp (cmp a b);
  cmp_lt_trans : ∀ a b c, cmp a b = Lt → cmp b c = Lt → cmp a c = Lt;
}.

(** The [<] and [==] operators of an [Ord] type. *)
Definition ord_lt `{RustOrd K} (a b : K) : bool :=
  match cmp a b with Lt => true | _ => false end.

Definition ord_eq `{RustOrd K} (a b : K) : bool :=
  match cmp a b with Eq => true | _ => false end.

(** [a <= b], as a proposition. *)
Definition ord_le `{RustOrd K} (a b : K) : Prop := cmp a b ≠ Gt.

(** [Ordering::then_with]. *)
Definition then_with (c d : comparison) : comparison :=
  match c with Eq => d | _ => c end.

(** ** Ltac *)

(** Case analysis on the innermost [match] of the goal, keeping equations. *)
Ltac case_goal :=
  repeat match goal with
  | |- context [match ?x with _ => _ end] =>
    lazymatch x with context [match _ with _ => _ end] => fail | _ => destruct x eqn:? end
  end.

(** ** Vec lemmas *)

Lemma vec_pop_nil {A} : vec_pop (@nil A) = None.
Proof. done. Qed.

Lemma vec_pop_push {A} (l : list A) x : vec_pop (vec_push l x) = Some (x, l).
Proof. unfold vec_pop, vec_push. by rewrite last_snoc, removelast_last. Qed.

Lemma vec_pop_Some {A} (l : list A) x l' :
  vec_pop l = Some (x, l') ↔ l = l' ++ [x].
Proof.
  split.
  - unfold vec_pop. induction l as [|y l _] using rev_ind; [done|].
    rewrite last_snoc, removelast_last. congruence.
  - intros ->. apply vec_pop_push.
Qed.

Lemma vec_pop_None {A} (l : list A) : vec_pop l = None ↔ l = [].
Proof.
  split; [|by intros ->]. unfold vec_pop.
  destruct l as [|y l _] using rev_ind; [done|]. by rewrite last_snoc.
Qed.

Lemma filter_all {A} (P : A → Prop) `{∀ x, Decision (P x)} (l : list A) :
  Forall P l → filter P l = l.
Proof. induction 1; [done|]. rewrite filter_cons_True by done. by f_equal. Qed.

Lemma checked_add_Some a b : (a + b ≤ USIZE_MAX → checked_add a b = Some (a + b))%Z.
Proof. intros Hle. unfold checked_add. by rewrite (proj2 (Z.leb_le _ _)). Qed.

(** A step of a computation that has run, without unfolding the steps after it. *)
Lemma some_bind {A B} (x : A) (f : A → option B) : (Some x ≫= f) = f x.
Proof. done. Qed.

Ltac step_some := rewrite some_bind; cbv beta iota.

Lemma filter_none {A} (P : A → Prop) `{∀ x, Decision (P x)} (l : list A) :
  Forall (λ x, ¬ P x) l → filter P l = [].
Proof. induction 1; [done|]. by rewrite filter_cons_False. Qed.

(** An element is at one place only when its image under [f] is. *)
Lemma split_unique {A B} (f : A → B) (l1 l2 m1 m2 : list A) x y :
  l1 ++ x :: l2 = m1 ++ y :: m2 → f y = f x → NoDup (f <$> l1 ++ x :: l2) →
  m1 = l1 ∧ y = x ∧ m2 = l2.
Proof.
  intros Heq Hf. rewrite fmap_app. intros (_ & H1 & [H2 _]%NoDup_cons)%NoDup_app.
  revert m1 Heq H1. induction l1 as [|z l1 IH]; intros [|w m1] Heq H1; simplify_eq/=; [done|..].
  - destruct H2. rewrite <-Hf. apply (list_elem_of_fmap_2 f). set_solver.
  - destruct (H1 (f y)); [by left|]. rewrite Hf. by left.
  - destruct (IH m1) as (-> & -> & ->); [done| |done]. intros b Hb. apply H1. by right.
Qed.

(** Joining a field above [w] bits with one below: no bit is in both. *)
Lemma land_shiftl_low v h w : (0 ≤ w → 0 ≤ v < 2 ^ w → Z.land v (Z.shiftl h w) = 0)%Z.
Proof.
  intros Hw Hv. apply Z.bits_inj'. intros n Hn. rewrite Z.land_spec, Z.bits_0, Z.shiftl_spec by done.
  destruct (decide (n < w)%Z).
  - rewrite (Z.testbit_neg_r h) by lia. apply andb_false_r.
  - rewrite <-(Z.mod_small v (2 ^ w)) by done. by rewrite Z.mod_pow2_bits_high by lia.
Qed.

Lemma lor_shiftl v h w : (0 ≤ w → 0 ≤ v < 2 ^ w → Z.lor v (Z.shiftl h w) = v + h * 2 ^ w)%Z.
Proof.
  intros Hw Hv. rewrite <-Z.lxor_lor, <-Z.add_nocarry_lxor by (by apply land_shiftl_low).
  by rewrite Z.shiftl_mul_pow2.
Qed.

(** ** Laws of the order operators *)

Section ord.
Context `{RustOrd K}.
Implicit Types a b c : K.

Lemma cmp_refl a : cmp a a = Eq.
Proof. by apply cmp_eq_iff. Qed.

Lemma ord_eq_true a b : ord_eq a b = true ↔ a = b.
Proof. unfold ord_eq. rewrite <-cmp_eq_iff. destruct (cmp a b); naive_solver. Qed.

Lemma ord_eq_false a b : ord_eq a b = false ↔ a ≠ b.
Proof. rewrite <-ord_eq_true. destruct (ord_eq a b); naive_solver. Qed.

Lemma ord_lt_true a b : ord_lt a b = true ↔ cmp a b = Lt.
Proof. unfold ord_lt. destruct (cmp a b); naive_solver. Qed.

Lemma ord_lt_false a b : ord_lt a b = false ↔ ord_le b a.
Proof.
  unfold ord_lt, ord_le. rewrite (cmp_antisym a b).
  destruct (cmp a b); naive_solver.
Qed.

Lemma ord_lt_le a b : ord_lt a b = true → ord_le a b.
Proof. unfold ord_lt, ord_le. destruct (cmp a b); naive_solver. Qed.

Lemma ord_lt_irrefl a : ord_lt a a = false.
Proof. unfold ord_lt. by rewrite cmp_refl. Qed.

Lemma ord_le_cases a b : ord_le a b → ord_lt a b = true ∨ a = b.
Proof.
  unfold ord_le, ord_lt. destruct (cmp a b) eqn:E; [right|by left|done].
  by apply cmp_eq_iff.
Qed.

#[export] Instance ord_le_refl : Reflexive (@ord_le K _).
Proof. intros a. unfold ord_le. by rewrite cmp_refl. Qed.

#[export] Instance ord_le_trans : Transitive (@ord_le K _).
Proof.
  intros a b c [Hab%ord_lt_true| ->]%ord_le_cases; [|done].
  intros [Hbc%ord_lt_true| <-]%ord_le_cases; unfold ord_le; [|by rewrite Hab].
  by rewrite (cmp_lt_trans a b c).
Qed.

Lemma ord_lt_le_trans a b c : ord_lt a b = true → ord_le b c → ord_lt a c = true.
Proof.
  intros Hab [Hbc| ->]%ord_le_cases; [|done]. apply ord_lt_true.
  apply ord_lt_true in Hab, Hbc. by eapply cmp_lt_trans.
Qed.

Lemma ord_le_lt_trans a b c : ord_le a b → ord_lt b c = true → ord_lt a c = true.
Proof.
  intros [Hab| ->]%ord_le_cases Hbc; [|done]. apply ord_lt_true.
  apply ord_lt_true in Hab, Hbc. by eapply cmp_lt_trans.
Qed.

Lemma ord_lt_not_le a b : ord_lt a b = true → ¬ ord_le b a.
Proof. intros Hab Hba%ord_lt_false. congruence. Qed.
End ord.

(** [Ord] of the integers, and of a type that embeds in an ordered one. *)
#[export, program] Instance Z_rust_ord : RustOrd Z := {| cmp := Z.compare |}.
Next Obligation. apply Z.compare_eq_iff. Qed.
Next Obligation. apply Z.compare_antisym. Qed.
Next Obligation. intros a b c; rewrite !Z.compare_lt_iff; lia. Qed.

#[export, program] Instance nat_rust_ord : RustOrd nat := {| cmp := Nat.compare |}.
Next Obligation. apply Nat.compare_eq_iff. Qed.
Next Obligation. apply Nat.compare_antisym. Qed.
Next Obligation. intros a b c; rewrite !Nat.compare_lt_iff; lia. Qed.

(** [then_with] of two [Ord]s is the lexicographic [Ord] on pairs. *)
#[export, program] Instance prod_rust_ord `{RustOrd A, RustOrd B} : RustOrd (A * B) :=
  {| cmp p q := then_with (cmp p.1 q.1) (cmp p.2 q.2) |}.
Next Obligation.
  intros A HA B HB [a b] [a' b']; simpl. pose proof (cmp_eq_iff a a') as Ha.
  pose proof (cmp_eq_iff b b') as Hb. destruct (cmp a a'); simpl; [|naive_solver..].
  split; intros; f_equal; naive_solver.
Qed.
Next Obligation.
  intros A HA B HB [a b] [a' b']; simpl. rewrite (cmp_antisym a a').
  destruct (cmp a a'); simpl; [apply cmp_antisym|done..].
Qed.
Next Obligation.
  intros A HA B HB [a b] [a' b'] [a'' b'']; simpl.
  destruct (cmp a a') as [] eqn:E1, (cmp a' a'') as [] eqn:E2; simpl; try done;
    rewrite ?cmp_eq_iff in *; subst.
  - rewrite cmp_refl. simpl. apply cmp_lt_trans.
  - by rewrite E2.
  - by rewrite E1.
  - by rewrite (cmp_lt_trans a a' a'').
Qed.

(** The order of a record that compares as the tuple of its fields. *)
Program Definition ord_via {A B} `{RustOrd B} (f : A → B) `{!Inj (=) (=) f}
    (c : A → A → comparison) (Hc : ∀ a b, c a b = cmp (f a) (f b)) : RustOrd A :=
  {| cmp := c |}.
Next Obligation. intros. rewrite Hc, cmp_eq_iff. by split; [apply (inj f)|intros ->]. Qed.
Next Obligation. intros. rewrite !Hc. apply cmp_antisym. Qed.
Next Obligation. intros A B HB f Hf c Hc a b d. rewrite !Hc. apply cmp_lt_trans. Qed.

(** ** A solver for permutations of list expressions

    [solve_perm] proves [l1 ≡ₚ l2] when both sides are built from the same
    atoms by [++], [::] and [[]], by reflection into lists of atom numbers. *)

Inductive pexp := PNil | PAtom (n : nat) | PApp (e1 e2 : pexp).

Fixpoint pexp_atoms (e : pexp) : list nat :=
  match e with
  | PNil => []
  | PAtom n => [n]
  | PApp e1 e2 => pexp_atoms e1 ++ pexp_atoms e2
  end.

Definition denote_atoms {A} (env : list (list A)) (ns : list nat) : list A :=
  mjoin ((λ n, default [] (env !! n)) <$> ns).

Fixpoint pexp_denote {A} (env : list (list A)) (e : pexp) : list A :=
  match e with
  | PNil => []
  | PAtom n => default [] (env !! n)
  | PApp e1 e2 => pexp_denote env e1 ++ pexp_denote env e2
  end.

Lemma pexp_denote_atoms {A} (env : list (list A)) e :
  pexp_denote env e = denote_atoms env (pexp_atoms e).
Proof.
  unfold denote_atoms. induction e as [|n|e1 IH1 e2 IH2]; simpl; [done| |].
  - by rewrite app_nil_r.
  - by rewrite IH1, IH2, fmap_app, join_app.
Qed.

Lemma denote_atoms_perm {A} (env : list (list A)) ns ms :
  ns ≡ₚ ms → denote_atoms env ns ≡ₚ denote_atoms env ms.
Proof.
  induction 1 as [|n ns ms _ IH|n m ns|ns ms os _ IH1 _ IH2]; unfold denote_atoms in *; simpl.
  - done.
  - by rewrite IH.
  - rewrite !app_assoc. apply Permutation_app_tail, Permutation_app_comm.
  - by rewrite IH1.
Qed.

Definition pexp_eqb (e1 e2 : pexp) : bool :=
  bool_decide (merge_sort le (pexp_atoms e1) = merge_sort le (pexp_atoms e2)).

Lemma pexp_eqb_sound {A} (env : list (list A)) e1 e2 :
  pexp_eqb e1 e2 = true → pexp_denote env e1 ≡ₚ pexp_denote env e2.
Proof.
  intros Heq%bool_decide_eq_true. rewrite !pexp_denote_atoms.
  apply denote_atoms_perm.
  by rewrite <-(merge_sort_Permutation le (pexp_atoms e1)), Heq, merge_sort_Permutation.
Qed.

Ltac perm_lookup x env :=
  lazymatch env with
  | x :: _ => constr:(O)
  | _ :: ?env' => let n := perm_lookup x env' in constr:(S n)
  end.

Ltac perm_add x env :=
  match env with
  | context [x :: _] => env
  | _ => constr:(x :: env)
  end.

Ltac perm_collect l env :=
  lazymatch l with
  | [] => env
  | ?a ++ ?b => let env := perm_collect a env in perm_collect b env
  | ?x :: ?b => let env := perm_add constr:([x]) env in perm_collect b env
  | _ => perm_add l env
  end.

Ltac perm_reify l env :=
  lazymatch l with
  | [] => constr:(PNil)
  | ?a ++ ?b =>
    let e1 := perm_reify a env in let e2 := perm_reify b env in constr:(PApp e1 e2)
  | ?x :: ?b =>
    let n := perm_lookup constr:([x]) env in
    let e2 := perm_reify b env in constr:(PApp (PAtom n) e2)
  | _ => let n := perm_lookup l env in constr:(PAtom n)
  end.

Ltac solve_perm :=
  lazymatch goal with
  | |- @Permutation ?A ?l1 ?l2 =>
    let env := perm_collect l1 constr:(@nil (list A)) in
    let env := perm_collect l2 env in
    let e1 := perm_reify l1 env in
    let e2 := perm_reify l2 env in
    exact (pexp_eqb_sound env e1 e2 eq_refl)
  end.

Example solve_perm_test {A} (a b c d e : list A) (x y z : A) :
  a ++ x :: b ++ (y :: c ++ d) ++ z :: e ≡ₚ y :: (b ++ e) ++ z :: x :: d ++ a ++ c.
Proof. solve_perm. Qed.

(** ** Total correctness of a computation that may panic

    [None] is a panic, or an exhausted loop bound; [wp m Q] says that [m]
    returns and that its result satisfies [Q]. *)

Definition wp {A} (m : option A) (Q : A → Prop) : Prop :=
  match m with Some a => Q a | None => False end.

Lemma wp_bind {A B} (m : option A) (f : A → option B) Q :
  wp m (λ x, wp (f x) Q) → wp (m ≫= f) Q.
Proof. by destruct m. Qed.

Lemma wp_mono {A} (m : option A) (P Q : A → Prop) : wp m P → (∀ x, P x → Q x) → wp m Q.
Proof. destruct m; simpl; auto. Qed.

Lemma wp_ret {A} (x : A) (Q : A → Prop) : Q x → wp (Some x) Q.
Proof. done. Qed.

Lemma wp_eq {A} (m : option A) x : wp m (λ y, y = x) → m = Some x.
Proof. destruct m; simpl; [by intros ->|done]. Qed.

Lemma wp_elim {A} (m : option A) Q : wp m Q → ∃ x, m = Some x ∧ Q x.
Proof. destruct m; simpl; [eauto|done]. Qed.

#[global] Arguments wp : simpl never.
