(* ===== verification/Bytes.v ===== *)
(** * Byte strings

    Numbers as bytes in little-endian order, and parts of a byte string addressed by
    integers: reading a range, replacing a range in place.  A range that does not fit is
    a panic, as with Rust's slices.  Shared by the system calls that copy structures to
    and from user memory and by the file system. *)

From S2P Require Import Prelude.

Local Open Scope Z_scope.

(** ** Numbers as bytes *)

(** The [n] bytes of a number, least significant first, and back. *)
Definition le (n : nat) (x : Z) : list Z := (λ i, Z.land (Z.shiftr x (8 * i)) 255) <$> seqZ 0 (Z.of_nat n).

Fixpoint of_le (l : list Z) : Z :=
  match l with
  | [] => 0
  | b :: l => Z.lor b (Z.shiftl (of_le l) 8)
  end.

(** Part of a byte string. *)
Definition sub (o n : nat) (l : list Z) : list Z := take n (drop o l).

Abbreviation is_byte b := (0 ≤ b < 256).
Abbreviation all_bytes l := (Forall (λ b, is_byte b) l).

Lemma length_le n x : length (le n x) = n.
Proof. unfold le. rewrite length_fmap, length_seqZ. lia. Qed.

Lemma le_byte x : 0 ≤ Z.land x 255 < 256.
Proof. change 255 with (Z.ones 8). rewrite Z.land_ones by lia. apply Z.mod_pos_bound. lia. Qed.

Lemma le_bytes n x : Forall (λ b, 0 ≤ b < 256) (le n x).
Proof. unfold le. apply Forall_fmap, Forall_true. intros i. apply le_byte. Qed.

Lemma le_S n x : le (S n) x = Z.land x 255 :: le n (Z.shiftr x 8).
Proof.
  unfold le. rewrite seqZ_cons by lia. cbn [fmap list_fmap map]. f_equal.
  replace (Z.pred (Z.of_nat (S n))) with (Z.of_nat n) by lia. change (Z.succ 0) with (0 + 1). apply list_eq. intros i. rewrite !list_lookup_fmap.
  destruct (decide (i < n)%nat).
  - rewrite !lookup_seqZ_lt by lia. cbn [fmap option_fmap option_map]. rewrite Z.shiftr_shiftr by lia. do 3 f_equal. lia.
  - by rewrite !lookup_seqZ_ge by lia.
Qed.

Lemma of_le_le n : ∀ x, of_le (le n x) = x mod 2 ^ (8 * Z.of_nat n).
Proof.
  induction n as [|n IH]; intros x; [by rewrite Z.mod_1_r|]. rewrite le_S. cbn [of_le]. rewrite IH.
  rewrite <-!Z.land_ones by lia. apply Z.bits_inj'. intros i Hi. change 255 with (Z.ones 8).
  rewrite Z.lor_spec, Z.shiftl_spec, !Z.land_spec by lia. destruct (decide (i < 8)).
  - rewrite (Z.testbit_neg_r _ (i - 8)), (Z.ones_spec_low 8), (Z.ones_spec_low (8 * Z.of_nat (S n))) by lia. cbn [andb]. by rewrite orb_false_r.
  - rewrite (Z.ones_spec_high 8), andb_false_r, Z.shiftr_spec by lia. cbn [orb].
    replace (i - 8 + 8) with i by lia. f_equal. destruct (decide (i < 8 * Z.of_nat (S n))); [by rewrite !Z.ones_spec_low by lia|by rewrite !Z.ones_spec_high by lia].
Qed.

Lemma of_le_small n x : 0 ≤ x < 2 ^ (8 * Z.of_nat n) → of_le (le n x) = x.
Proof. intros Hx. by rewrite of_le_le, Z.mod_small. Qed.

Lemma of_le_cons b l : 0 ≤ b < 256 → of_le (b :: l) = b + 256 * of_le l.
Proof.
  intros Hb. cbn [of_le]. pose proof (land_shiftl_low b (of_le l) 8 ltac:(lia) ltac:(lia)) as H0.
  rewrite <-Z.lxor_lor, <-Z.add_nocarry_lxor by done. rewrite Z.shiftl_mul_pow2 by lia. lia.
Qed.

Lemma of_le_range l : Forall (λ b, 0 ≤ b < 256) l → 0 ≤ of_le l < 2 ^ (8 * Z.of_nat (length l)).
Proof.
  induction 1 as [|b l Hb _ IH]; [simpl; lia|]. rewrite of_le_cons by done. cbn [length]. rewrite Nat2Z.inj_succ.
  replace (8 * Z.succ (Z.of_nat (length l))) with (8 + 8 * Z.of_nat (length l)) by lia. rewrite Z.pow_add_r by lia. lia.
Qed.

Lemma le_of_le l : Forall (λ b, 0 ≤ b < 256) l → le (length l) (of_le l) = l.
Proof.
  induction 1 as [|b l Hb Hl IH]; [done|]. cbn [length]. rewrite le_S, of_le_cons by done. change 255 with (Z.ones 8). rewrite Z.land_ones, Z.shiftr_div_pow2 by lia.
  change (2 ^ 8) with 256. rewrite (Z.mul_comm 256), Z.mod_add, Z.div_add, Z.mod_small, Z.div_small by lia. f_equal. by rewrite Z.add_0_l.
Qed.

(** Taking a string of fields apart. *)
Lemma sub_here n a b : length a = n → sub 0 n (a ++ b) = a.
Proof. intros <-. unfold sub. by rewrite drop_0, take_app_length. Qed.

Lemma sub_last n a : length a = n → sub 0 n a = a.
Proof. intros <-. unfold sub. by rewrite drop_0, firstn_all. Qed.

Lemma sub_skip o n a b : (length a ≤ o)%nat → sub o n (a ++ b) = sub (o - length a) n b.
Proof. intros Ho. unfold sub. by rewrite drop_app_ge. Qed.

Ltac fields H :=
  repeat first
    [ rewrite sub_here by (rewrite ?length_le; done)
    | rewrite sub_last by (rewrite ?length_le; done)
    | rewrite sub_skip by (rewrite ?length_le; lia); rewrite ?length_le, ?H ].

Lemma le_inj n x y : 0 ≤ x < 2 ^ (8 * Z.of_nat n) → 0 ≤ y < 2 ^ (8 * Z.of_nat n) → le n x = le n y → x = y.
Proof. intros Hx Hy He. rewrite <-(of_le_small n x), <-(of_le_small n y), He by done. done. Qed.

(** ** Ranges of a byte string *)

Definition len {A} (l : list A) : Z := Z.of_nat (length l).

(** The elements from [a] up to [b]. *)
Definition seg {A} (a b : Z) (l : list A) : list A := take (Z.to_nat (b - a)) (drop (Z.to_nat a) l).

(** [l] with the elements from [a] on replaced by [bs]. *)
Definition splice {A} (a : Z) (bs l : list A) : list A := take (Z.to_nat a) l ++ bs ++ drop (Z.to_nat a + length bs) l.

(** [&l[a..b]] *)
Definition slice {A} (l : list A) (a b : Z) : option (list A) :=
  if (0 <=? a) && (a <=? b) && (b <=? len l) then Some (seg a b l) else None.

(** [l[i]] *)
Definition index {A} (l : list A) (i : Z) : option A := if 0 <=? i then l !! Z.to_nat i else None.

(** [l[a..a + bs.len()].copy_from_slice(bs)] *)
Definition put {A} (l : list A) (a : Z) (bs : list A) : option (list A) :=
  if (0 <=? a) && (a + len bs <=? len l) then Some (splice a bs l) else None.

(** [[0; n]] *)
Definition zeros (n : Z) : list Z := replicate (Z.to_nat n) 0.

Lemma len_nonneg {A} (l : list A) : 0 ≤ len l.
Proof. unfold len. lia. Qed.

Lemma len_app {A} (l k : list A) : len (l ++ k) = len l + len k.
Proof. unfold len. rewrite length_app. lia. Qed.

Lemma len_le n x : len (le n x) = Z.of_nat n.
Proof. unfold len. by rewrite length_le. Qed.

Lemma len_zeros n : 0 ≤ n → len (zeros n) = n.
Proof. intros Hn. unfold len, zeros. rewrite length_replicate. lia. Qed.

Lemma len_seg {A} a b (l : list A) : 0 ≤ a ≤ b → b ≤ len l → len (seg a b l) = b - a.
Proof. unfold len, seg. intros Ha Hb. rewrite length_take, length_drop. lia. Qed.

Lemma len_splice {A} a (bs l : list A) : 0 ≤ a → a + len bs ≤ len l → len (splice a bs l) = len l.
Proof. unfold len, splice. intros Ha Hb. rewrite !length_app, length_take, length_drop. lia. Qed.

Create Rewrite HintDb bytes.
#[export] Hint Rewrite @len_app len_le : bytes.
#[export] Hint Rewrite len_zeros using lia : bytes.
#[export] Hint Rewrite @len_seg @len_splice using lia : bytes.

Lemma slice_ok {A} (l : list A) a b : 0 ≤ a ≤ b → b ≤ len l → slice l a b = Some (seg a b l).
Proof. intros Ha Hb. unfold slice. rewrite !(proj2 (Z.leb_le _ _)) by lia. done. Qed.

Lemma slice_Some {A} (l k : list A) a b : slice l a b = Some k → 0 ≤ a ≤ b ∧ b ≤ len l ∧ k = seg a b l.
Proof. unfold slice. case_match eqn:Hc; [|done]. intros [= <-]. apply andb_true_iff in Hc as [[H1%Z.leb_le H2%Z.leb_le]%andb_true_iff H3%Z.leb_le]. done. Qed.

Lemma put_in {A} (l bs : list A) a : 0 ≤ a → a + len bs ≤ len l → put l a bs = Some (splice a bs l).
Proof. intros Ha Hb. unfold put. rewrite !(proj2 (Z.leb_le _ _)) by lia. done. Qed.

Lemma put_Some {A} (l bs k : list A) a : put l a bs = Some k → 0 ≤ a ∧ a + len bs ≤ len l ∧ k = splice a bs l.
Proof. unfold put. case_match eqn:Hc; [|done]. intros [= <-]. apply andb_true_iff in Hc as [H1%Z.leb_le H2%Z.leb_le]. done. Qed.

Lemma index_Some {A} (l : list A) i : 0 ≤ i < len l → ∃ x, index l i = Some x ∧ l !! Z.to_nat i = Some x.
Proof.
  unfold len, index. intros Hi. rewrite (proj2 (Z.leb_le 0 i)) by lia. destruct (lookup_lt_is_Some_2 l (Z.to_nat i)) as [x Hx]; [lia|]. eauto.
Qed.

Lemma lookup_seg {A} a b (l : list A) i : 0 ≤ a → seg a b l !! i = if decide (Z.of_nat i < b - a) then l !! (Z.to_nat a + i)%nat else None.
Proof. intros Ha. unfold seg. case_decide; [rewrite lookup_take_lt by lia; apply lookup_drop|apply lookup_take_ge; lia]. Qed.

Lemma lookup_splice {A} a (bs l : list A) i : 0 ≤ a → a + len bs ≤ len l →
  splice a bs l !! i = if decide (a ≤ Z.of_nat i < a + len bs) then bs !! (i - Z.to_nat a)%nat else l !! i.
Proof.
  unfold len, splice. intros Ha Hb. case_decide.
  - rewrite lookup_app_r by (rewrite length_take; lia). rewrite length_take, Nat.min_l by lia. rewrite lookup_app_l by lia. done.
  - destruct (decide (Z.of_nat i < a)).
    + rewrite lookup_app_l by (rewrite length_take; lia). rewrite lookup_take_lt by lia. done.
    + rewrite lookup_app_r by (rewrite length_take; lia). rewrite length_take, Nat.min_l by lia. rewrite lookup_app_r by lia.
      rewrite lookup_drop. f_equal. lia.
Qed.

(** Equality of strings made of ranges, element by element. *)
Ltac by_element :=
  apply list_eq; intros ?i; unfold len in *;
  repeat first
    [ rewrite lookup_seg by lia
    | rewrite lookup_splice by (unfold len in *; rewrite ?length_le, ?length_app; lia)
    | case_decide ];
  unfold len in *; try lia; try done; try (f_equal; lia).

Lemma seg_0_len {A} (l : list A) : seg 0 (len l) l = l.
Proof. unfold seg, len. rewrite Z.sub_0_r, Nat2Z.id, drop_0. by rewrite take_ge. Qed.

Lemma seg_app {A} a b c (l : list A) : 0 ≤ a ≤ b → b ≤ c → c ≤ len l → seg a b l ++ seg b c l = seg a c l.
Proof.
  unfold seg, len. intros Ha Hb Hc. replace (Z.to_nat (c - a)) with (Z.to_nat (b - a) + Z.to_nat (c - b))%nat by lia.
  rewrite <-take_take_drop. rewrite drop_drop. do 3 f_equal. lia.
Qed.

Lemma seg_nil {A} a b (l : list A) : b ≤ a → seg a b l = [].
Proof. intros H. unfold seg. replace (Z.to_nat (b - a)) with 0%nat by lia. done. Qed.

Lemma seg_seg {A} a b c d (l : list A) : 0 ≤ a → 0 ≤ c → c ≤ d → d ≤ b - a → seg c d (seg a b l) = seg (a + c) (a + d) l.
Proof. intros Ha Hc Hd Hb. by_element. Qed.

Lemma seg_splice_same {A} a (bs l : list A) : 0 ≤ a → a + len bs ≤ len l → seg a (a + len bs) (splice a bs l) = bs.
Proof.
  intros Ha Hb. apply list_eq. intros i. rewrite lookup_seg by done. case_decide.
  - rewrite lookup_splice, decide_True by lia. f_equal. lia.
  - symmetry. apply lookup_ge_None. unfold len in *. lia.
Qed.

Lemma seg_splice_within {A} a b (bs l : list A) c : 0 ≤ c → c ≤ a ≤ b → b ≤ c + len bs → c + len bs ≤ len l →
  seg a b (splice c bs l) = seg (a - c) (b - c) bs.
Proof. intros Hc Ha Hb Hl. apply list_eq. intros i. rewrite !lookup_seg, lookup_splice by lia. repeat case_decide; try lia; [f_equal; lia|done]. Qed.

Lemma seg_splice_left {A} a b c (bs l : list A) : 0 ≤ a → b ≤ c → c + len bs ≤ len l → seg a b (splice c bs l) = seg a b l.
Proof.
  intros Ha Hb Hl. destruct (decide (b ≤ a)); [by rewrite !seg_nil|]. apply list_eq. intros i. rewrite !lookup_seg, lookup_splice by lia.
  repeat case_decide; try lia; done.
Qed.

Lemma seg_splice_right {A} a b c (bs l : list A) : 0 ≤ c → c + len bs ≤ a → c + len bs ≤ len l → seg a b (splice c bs l) = seg a b l.
Proof. intros Hc Hb Hl. pose proof (len_nonneg bs). apply list_eq. intros i. rewrite !lookup_seg, lookup_splice by lia. repeat case_decide; try lia; done. Qed.

Lemma splice_parts {A} a (bs l : list A) : 0 ≤ a → a + len bs ≤ len l → splice a bs l = seg 0 a l ++ bs ++ seg (a + len bs) (len l) l.
Proof.
  intros Ha Hb. unfold splice, seg, len in *. rewrite Z.sub_0_r, drop_0. do 3 f_equal.
  replace (Z.to_nat (a + Z.of_nat (length bs))) with (Z.to_nat a + length bs)%nat by lia. rewrite take_ge; [done|]. rewrite length_drop. lia.
Qed.

Lemma splice_twice {A} a b (x y l : list A) : 0 ≤ a → a + len x ≤ b → b + len y ≤ len l →
  splice a x (splice b y l) = splice b y (splice a x l).
Proof.
  intros Ha Hb Hl. pose proof (len_nonneg x). pose proof (len_nonneg y). apply list_eq. intros i.
  rewrite !lookup_splice by (rewrite ?len_splice; lia). repeat case_decide; try lia; done.
Qed.

Lemma splice_over {A} a (x y l : list A) : len x = len y → 0 ≤ a → a + len y ≤ len l → splice a x (splice a y l) = splice a x l.
Proof.
  intros Hx Ha Hl. apply list_eq. intros i. rewrite !lookup_splice by (rewrite ?len_splice; lia). repeat case_decide; try lia; done.
Qed.

Lemma Forall_seg {A} (P : A → Prop) a b l : Forall P l → Forall P (seg a b l).
Proof. intros H. apply Forall_take, Forall_drop, H. Qed.

Lemma Forall_splice {A} (P : A → Prop) a bs l : Forall P bs → Forall P l → Forall P (splice a bs l).
Proof. intros Hb Hl. unfold splice. rewrite !Forall_app. eauto using Forall_take, Forall_drop. Qed.

Lemma Forall_zeros n : all_bytes (zeros n).
Proof. apply Forall_replicate. lia. Qed.

(** ** Strings put together from parts *)

Lemma seg_here {A} n (a b : list A) : len a = n → seg 0 n (a ++ b) = a.
Proof. intros <-. unfold seg, len. rewrite drop_0, Z.sub_0_r, Nat2Z.id. apply take_app_length. Qed.

Lemma seg_skip {A} i j n (a b : list A) : len a = n → n ≤ i → seg i j (a ++ b) = seg (i - n) (j - n) b.
Proof.
  intros <- Hi. unfold seg, len in *. rewrite drop_app_ge by lia. f_equal; [lia|]. f_equal. lia.
Qed.

Lemma splice_app_here {A} n (a b c : list A) : len c = n → len a = n → splice 0 c (a ++ b) = c ++ b.
Proof. intros Hc Ha. unfold splice, len in *. change (Z.to_nat 0) with 0%nat. cbn [take]. cbn [app Nat.add]. rewrite drop_app_ge by lia. by replace (length c - length a)%nat with 0%nat by lia. Qed.

Lemma zeros_app a b : 0 ≤ a → 0 ≤ b → zeros a ++ zeros b = zeros (a + b).
Proof. intros Ha Hb. unfold zeros. by rewrite Z2Nat.inj_add, replicate_add by done. Qed.

Lemma splice_mid {A} a (pre x post c : list A) : len pre = a → len x = len c → splice a c (pre ++ x ++ post) = pre ++ c ++ post.
Proof.
  intros <- Hx. unfold splice, len in *. rewrite Nat2Z.id, take_app_length. do 2 f_equal.
  rewrite drop_app_ge by lia. replace (length pre + length c - length pre)%nat with (length x) by lia. apply drop_app_length.
Qed.

Lemma put_mid {A} a (pre x post c : list A) : len pre = a → len x = len c → put (pre ++ x ++ post) a c = Some (pre ++ c ++ post).
Proof.
  intros Ha Hx. pose proof (len_nonneg pre). pose proof (len_nonneg post). rewrite put_in by (rewrite ?len_app; lia). f_equal. by apply splice_mid.
Qed.

Lemma put_mid_0 {A} (x post c : list A) : len x = len c → put (x ++ post) 0 c = Some (c ++ post).
Proof. intros Hx. apply (put_mid 0 []); done. Qed.

Lemma splice_app_l {A} a (bs l k : list A) : 0 ≤ a → a + len bs ≤ len l → splice a bs (l ++ k) = splice a bs l ++ k.
Proof.
  intros Ha Hl. unfold splice, len in *. rewrite take_app_le by lia. rewrite drop_app_le by lia. by rewrite <-!app_assoc.
Qed.

Lemma seg_all {A} n (l : list A) : len l = n → seg 0 n l = l.
Proof. intros <-. apply seg_0_len. Qed.

Lemma seg_app_l {A} a b (l k : list A) : 0 ≤ a → b ≤ len l → seg a b (l ++ k) = seg a b l.
Proof.
  intros Ha Hb. unfold seg, len in *. destruct (decide (b ≤ a)); [by replace (Z.to_nat (b - a)) with 0%nat by lia|].
  rewrite drop_app_le by lia. rewrite take_app_le; [done|]. rewrite length_drop. lia.
Qed.

Lemma splice_self {A} a (bs l : list A) : 0 ≤ a → a + len bs ≤ len l → seg a (a + len bs) l = bs → splice a bs l = l.
Proof.
  intros Ha Hl Hs. pose proof (len_nonneg bs). rewrite splice_parts by done. rewrite <-Hs at 1. rewrite seg_app by lia. rewrite seg_app by lia. apply seg_0_len.
Qed.

Lemma put_end {A} (pre x y : list A) : len x = len y → put (pre ++ x) (len pre) y = Some (pre ++ y).
Proof. intros Hl. pose proof (put_mid (len pre) pre x [] y eq_refl Hl) as Hp. by rewrite !app_nil_r in Hp. Qed.

Lemma slice_end {A} (pre x : list A) n : n = len (pre ++ x) → slice (pre ++ x) (len pre) n = Some x.
Proof.
  intros ->. pose proof (len_nonneg pre). pose proof (len_nonneg x). rewrite slice_ok by (rewrite ?len_app; lia). f_equal.
  rewrite (seg_skip _ _ (len pre)) by (done || lia). rewrite Z.sub_diag. apply seg_all. rewrite len_app. lia.
Qed.
