(* ===== verification/Errno.v ===== *)
(** * Error numbers (os/src/syscall/errno.rs)

    The codes system calls return negated. *)

From S2P Require Import Prelude.

Open Scope Z_scope.

Inductive Errno :=
  | EPERM | ENOENT | ESRCH | EINTR | EIO | ENXIO | E2BIG | ENOEXEC | EBADF | ECHILD | EAGAIN
  | ENOMEM | EACCES | EFAULT | ENOTBLK | EBUSY | EEXIST | EXDEV | ENODEV | ENOTDIR | EISDIR
  | EINVAL | ENFILE | EMFILE | ENOTTY | ETXTBSY | EFBIG | ENOSPC | ESPIPE | EROFS | EMLINK
  | EPIPE | EDOM | ERANGE | EDEADLK | ENAMETOOLONG | ENOLCK | ENOSYS | ENOTEMPTY | ELOOP
  | ENOMSG | EIDRM | ECHRNG | EL2NSYNC | EL3HLT | EL3RST | ELNRNG | EUNATCH | ENOCSI | EL2HLT
  | EBADE | EBADR | EXFULL | ENOANO | EBADRQC | EBADSLT | EBFONT | ENOSTR | ENODATA | ETIME
  | ENOSR | ENONET | ENOPKG | EREMOTE | ENOLINK | EADV | ESRMNT | ECOMM | EPROTO | EMULTIHOP
  | EDOTDOT | EBADMSG | EOVERFLOW | ENOTUNIQ | EBADFD | EREMCHG | ELIBACC | ELIBBAD | ELIBSCN
  | ELIBMAX | ELIBEXEC | EILSEQ | ERESTART | ESTRPIPE | EUSERS | ENOTSOCK | EDESTADDRREQ
  | EMSGSIZE | EPROTOTYPE | ENOPROTOOPT | EPROTONOSUPPORT | ESOCKTNOSUPPORT | EOPNOTSUPP
  | EPFNOSUPPORT | EAFNOSUPPORT | EADDRINUSE | EADDRNOTAVAIL | ENETDOWN | ENETUNREACH
  | ENETRESET | ECONNABORTED | ECONNRESET | ENOBUFS | EISCONN | ENOTCONN | ESHUTDOWN
  | ETOOMANYREFS | ETIMEDOUT | ECONNREFUSED | EHOSTDOWN | EHOSTUNREACH | EALREADY | EINPROGRESS
  | ESTALE | EUCLEAN | ENOTNAM | ENAVAIL | EISNAM | EREMOTEIO | EDQUOT | ENOMEDIUM
  | EMEDIUMTYPE | ECANCELED | ENOKEY | EKEYEXPIRED | EKEYREVOKED | EKEYREJECTED | EOWNERDEAD
  | ENOTRECOVERABLE | ERFKILL | EHWPOISON.

(** The discriminants. *)
Definition code (e : Errno) : Z :=
  match e with
  | EPERM => 1 | ENOENT => 2 | ESRCH => 3 | EINTR => 4 | EIO => 5 | ENXIO => 6 | E2BIG => 7
  | ENOEXEC => 8 | EBADF => 9 | ECHILD => 10 | EAGAIN => 11 | ENOMEM => 12 | EACCES => 13
  | EFAULT => 14 | ENOTBLK => 15 | EBUSY => 16 | EEXIST => 17 | EXDEV => 18 | ENODEV => 19
  | ENOTDIR => 20 | EISDIR => 21 | EINVAL => 22 | ENFILE => 23 | EMFILE => 24 | ENOTTY => 25
  | ETXTBSY => 26 | EFBIG => 27 | ENOSPC => 28 | ESPIPE => 29 | EROFS => 30 | EMLINK => 31
  | EPIPE => 32 | EDOM => 33 | ERANGE => 34 | EDEADLK => 35 | ENAMETOOLONG => 36 | ENOLCK => 37
  | ENOSYS => 38 | ENOTEMPTY => 39 | ELOOP => 40 | ENOMSG => 42 | EIDRM => 43 | ECHRNG => 44
  | EL2NSYNC => 45 | EL3HLT => 46 | EL3RST => 47 | ELNRNG => 48 | EUNATCH => 49 | ENOCSI => 50
  | EL2HLT => 51 | EBADE => 52 | EBADR => 53 | EXFULL => 54 | ENOANO => 55 | EBADRQC => 56
  | EBADSLT => 57 | EBFONT => 59 | ENOSTR => 60 | ENODATA => 61 | ETIME => 62 | ENOSR => 63
  | ENONET => 64 | ENOPKG => 65 | EREMOTE => 66 | ENOLINK => 67 | EADV => 68 | ESRMNT => 69
  | ECOMM => 70 | EPROTO => 71 | EMULTIHOP => 72 | EDOTDOT => 73 | EBADMSG => 74
  | EOVERFLOW => 75 | ENOTUNIQ => 76 | EBADFD => 77 | EREMCHG => 78 | ELIBACC => 79
  | ELIBBAD => 80 | ELIBSCN => 81 | ELIBMAX => 82 | ELIBEXEC => 83 | EILSEQ => 84
  | ERESTART => 85 | ESTRPIPE => 86 | EUSERS => 87 | ENOTSOCK => 88 | EDESTADDRREQ => 89
  | EMSGSIZE => 90 | EPROTOTYPE => 91 | ENOPROTOOPT => 92 | EPROTONOSUPPORT => 93
  | ESOCKTNOSUPPORT => 94 | EOPNOTSUPP => 95 | EPFNOSUPPORT => 96 | EAFNOSUPPORT => 97
  | EADDRINUSE => 98 | EADDRNOTAVAIL => 99 | ENETDOWN => 100 | ENETUNREACH => 101
  | ENETRESET => 102 | ECONNABORTED => 103 | ECONNRESET => 104 | ENOBUFS => 105
  | EISCONN => 106 | ENOTCONN => 107 | ESHUTDOWN => 108 | ETOOMANYREFS => 109
  | ETIMEDOUT => 110 | ECONNREFUSED => 111 | EHOSTDOWN => 112 | EHOSTUNREACH => 113
  | EALREADY => 114 | EINPROGRESS => 115 | ESTALE => 116 | EUCLEAN => 117 | ENOTNAM => 118
  | ENAVAIL => 119 | EISNAM => 120 | EREMOTEIO => 121 | EDQUOT => 122 | ENOMEDIUM => 123
  | EMEDIUMTYPE => 124 | ECANCELED => 125 | ENOKEY => 126 | EKEYEXPIRED => 127
  | EKEYREVOKED => 128 | EKEYREJECTED => 129 | EOWNERDEAD => 130 | ENOTRECOVERABLE => 131
  | ERFKILL => 132 | EHWPOISON => 133
  end.

(** [Errno::as_isize] *)
Definition as_isize (e : Errno) : Z := code e * -1.

(** All codes, in the order of the source. *)
Definition all_errnos : list Errno :=
  [EPERM; ENOENT; ESRCH; EINTR; EIO; ENXIO; E2BIG; ENOEXEC; EBADF; ECHILD; EAGAIN; ENOMEM;
  EACCES; EFAULT; ENOTBLK; EBUSY; EEXIST; EXDEV; ENODEV; ENOTDIR; EISDIR; EINVAL; ENFILE;
  EMFILE; ENOTTY; ETXTBSY; EFBIG; ENOSPC; ESPIPE; EROFS; EMLINK; EPIPE; EDOM; ERANGE; EDEADLK;
  ENAMETOOLONG; ENOLCK; ENOSYS; ENOTEMPTY; ELOOP; ENOMSG; EIDRM; ECHRNG; EL2NSYNC; EL3HLT;
  EL3RST; ELNRNG; EUNATCH; ENOCSI; EL2HLT; EBADE; EBADR; EXFULL; ENOANO; EBADRQC; EBADSLT;
  EBFONT; ENOSTR; ENODATA; ETIME; ENOSR; ENONET; ENOPKG; EREMOTE; ENOLINK; EADV; ESRMNT; ECOMM;
  EPROTO; EMULTIHOP; EDOTDOT; EBADMSG; EOVERFLOW; ENOTUNIQ; EBADFD; EREMCHG; ELIBACC; ELIBBAD;
  ELIBSCN; ELIBMAX; ELIBEXEC; EILSEQ; ERESTART; ESTRPIPE; EUSERS; ENOTSOCK; EDESTADDRREQ;
  EMSGSIZE; EPROTOTYPE; ENOPROTOOPT; EPROTONOSUPPORT; ESOCKTNOSUPPORT; EOPNOTSUPP;
  EPFNOSUPPORT; EAFNOSUPPORT; EADDRINUSE; EADDRNOTAVAIL; ENETDOWN; ENETUNREACH; ENETRESET;
  ECONNABORTED; ECONNRESET; ENOBUFS; EISCONN; ENOTCONN; ESHUTDOWN; ETOOMANYREFS; ETIMEDOUT;
  ECONNREFUSED; EHOSTDOWN; EHOSTUNREACH; EALREADY; EINPROGRESS; ESTALE; EUCLEAN; ENOTNAM;
  ENAVAIL; EISNAM; EREMOTEIO; EDQUOT; ENOMEDIUM; EMEDIUMTYPE; ECANCELED; ENOKEY; EKEYEXPIRED;
  EKEYREVOKED; EKEYREJECTED; EOWNERDEAD; ENOTRECOVERABLE; ERFKILL; EHWPOISON].

(** The error a system call result stands for. *)
Definition of_isize (r : Z) : option Errno := list_find (λ e, as_isize e = r) all_errnos ≫= λ p, Some p.2.

Lemma of_isize_as_isize e : of_isize (as_isize e) = Some e.
Proof. destruct e; vm_compute; reflexivity. Qed.

#[export] Instance as_isize_inj : Inj (=) (=) as_isize.
Proof. intros a b Heq. apply (inj Some). by rewrite <-!of_isize_as_isize, Heq. Qed.

#[export] Instance Errno_eq_dec : EqDecision Errno.
Proof. refine (λ a b, cast_if (decide (as_isize a = as_isize b))); [by apply (inj as_isize)|congruence]. Defined.

Module ErrnoProps.

(** An error result is recognised by its sign and by its code alone: it is between
    -133 and -1, never a valid result, and no two errors share it. *)
Theorem errno_decodes e : -133 ≤ as_isize e ≤ -1 ∧ of_isize (as_isize e) = Some e ∧ ∀ r, 0 ≤ r → of_isize r = None.
Proof.
  split_and!; [destruct e; vm_compute; intuition congruence..|apply of_isize_as_isize|].
  intros r Hr. unfold of_isize. destruct (list_find _ _) as [[i e']|] eqn:Hf; [|done].
  apply list_find_Some in Hf as (_ & <- & _). exfalso. revert Hr. destruct e'; vm_compute; intuition congruence.
Qed.
End ErrnoProps.
