(* ===== verification/OrderedQueue.v ===== *)
(** * The interface of an ordered queue

    What the scheduling classes rely on from [RbRootCached]: a queue of
    (key, value) entries kept in key order.  The class [OrderedQueue] bundles
    the public operations of the tree, an abstraction relation to the sorted
    list of entries, and the laws of every operation on that list.  RbTree
    provides the instance; CfsRq and DeadlineRq are developed against the
    interface alone. *)

From S2P Require Import Prelude.

Section lists.
Context {K V : Type} `{RustOrd K}.
Implicit Types (k : K) (v : V) (l : list (K * V)).

Definition key_le (e1 e2 : K * V) : Prop := ord_le e1.1 e2.1.

(** Insertion after all entries with a smaller or equal key. *)
Fixpoint sorted_insert k v l : list (K * V) :=
  match l with
  | [] => [(k, v)]
  | (k', v') :: l' =>
    if ord_lt k k' then (k, v) :: l else (k', v') :: sorted_insert k v l'
  end.

(** Taking an entry with key [k] out of [l]. *)
Inductive removed k l : option V → list (K * V) → Prop :=
  | removed_none : Forall (λ e, e.1 ≠ k) l → removed k l None l
  | removed_some l1 v l2 : l = l1 ++ (k, v) :: l2 → removed k l (Some v) (l1 ++ l2).

(** ** Sorted insertion *)

Lemma sorted_insert_app k v l1 l2 :
  Forall (λ e, ord_le e.1 k) l1 → Forall (λ e, ord_lt k e.1 = true) l2 →
  sorted_insert k v (l1 ++ l2) = l1 ++ (k, v) :: l2.
Proof.
  intros H1 H2. induction H1 as [|[k' v'] l1 Hle _ IH]; simpl in *.
  - destruct H2 as [|[k' v'] l2 Hlt _]; [done|]. simpl in *. by rewrite Hlt.
  - apply ord_lt_false in Hle. by rewrite Hle, IH.
Qed.

Lemma sorted_insert_skip k v l1 l2 :
  Forall (λ e, ord_le e.1 k) l1 → sorted_insert k v (l1 ++ l2) = l1 ++ sorted_insert k v l2.
Proof.
  induction 1 as [|[k' v'] l1 Hle _ IH]; simpl in *; [done|].
  apply ord_lt_false in Hle. by rewrite Hle, IH.
Qed.

Lemma sorted_insert_perm k v l : sorted_insert k v l ≡ₚ (k, v) :: l.
Proof.
  induction l as [|[k' v'] l IH]; simpl; [done|].
  destruct (ord_lt k k'); [done|]. rewrite IH. by constructor.
Qed.

(** Where the entry goes. *)
Lemma sorted_insert_split k v l :
  ∃ l1 l2, l = l1 ++ l2 ∧ sorted_insert k v l = l1 ++ (k, v) :: l2.
Proof.
  induction l as [|[k' v'] l (l1 & l2 & -> & Heq)]; simpl; [by exists [], []|].
  destruct (ord_lt k k').
  - by exists [], ((k', v') :: l1 ++ l2).
  - exists ((k', v') :: l1), l2. by rewrite Heq.
Qed.

Lemma length_sorted_insert k v l : length (sorted_insert k v l) = S (length l).
Proof. by rewrite (sorted_insert_perm k v l). Qed.

(** ** Removal *)

Lemma removed_Some_inv k l v l' :
  removed k l (Some v) l' → ∃ l1 l2, l = l1 ++ (k, v) :: l2 ∧ l' = l1 ++ l2.
Proof. inversion 1; subst; eauto. Qed.

Lemma removed_None_inv k l l' : removed k l None l' → l' = l ∧ k ∉ l.*1.
Proof.
  inversion 1 as [Hall|]; subst. split; [done|]. intros (e & Heq & He)%list_elem_of_fmap.
  rewrite Forall_forall in Hall. by apply (Hall e).
Qed.

Lemma removed_perm k l v l' : removed k l (Some v) l' → l ≡ₚ (k, v) :: l'.
Proof. intros (l1 & l2 & -> & ->)%removed_Some_inv. solve_perm. Qed.

Lemma removed_sublist k l r l' : removed k l r l' → sublist l' l.
Proof.
  inversion 1; subst; [done|]. apply sublist_app; [done|]. by apply sublist_cons.
Qed.

(** With distinct keys the entry of a key is determined. *)
Lemma entry_unique k v v' l :
  NoDup l.*1 → (k, v) ∈ l → (k, v') ∈ l → v = v'.
Proof.
  intros Hnd. induction l as [|[k0 v0] l IH]; simpl in *; [by intros ?%not_elem_of_nil|].
  apply NoDup_cons in Hnd as [Hni Hnd]. rewrite !elem_of_cons.
  intros [[= -> ->]|H1] [[=]|H2]; simplify_eq; [done|..|by auto].
  - destruct Hni. by apply (list_elem_of_fmap_2 fst _ (k0, v')).
  - destruct Hni. by apply (list_elem_of_fmap_2 fst _ (k0, v)).
Qed.

Lemma removed_unique k v l r l' :
  NoDup l.*1 → (k, v) ∈ l → removed k l r l' → r = Some v ∧ l ≡ₚ (k, v) :: l'.
Proof.
  intros Hnd Hin Hr. destruct r as [w|].
  - pose proof (removed_perm _ _ _ _ Hr) as Hp.
    assert (w = v) as -> by (eapply entry_unique; [done| |done]; rewrite Hp; by left). done.
  - apply removed_None_inv in Hr as [_ Hni]. destruct Hni.
    by apply (list_elem_of_fmap_2 fst _ (k, v)).
Qed.

(** Removing the head key of a list with distinct keys takes the head. *)
Lemma removed_head k v l r l' :
  NoDup ((k, v) :: l).*1 → removed k ((k, v) :: l) r l' → r = Some v ∧ l' = l.
Proof.
  intros Hnd Hr. destruct r as [w|].
  - apply removed_Some_inv in Hr as ([|e l1] & l2 & Heq & ->); simplify_eq/=; [done|].
    apply NoDup_cons in Hnd as [Hni _]. destruct Hni.
    apply (list_elem_of_fmap_2 fst _ (k, w)). set_solver.
  - apply removed_None_inv in Hr as [_ Hni]. destruct Hni. by left.
Qed.

End lists.

(** ** The interface *)

Class OrderedQueue (K V Q : Type) `{RustOrd K} := {
  oq_new : Q;
  oq_is_empty : Q → bool;
  oq_first : Q → option V;
  oq_first_key : Q → option K;
  oq_insert : Q → K → V → option Q;
  oq_remove : Q → K → option (option V * Q);
  oq_pop_first : Q → option (option V * Q);
  oq_remove_where : Q → (V → bool) → option (option V * Q);

  (** [oq_models q l]: [q] is well formed and holds the entries [l] in order. *)
  oq_models : Q → list (K * V) → Prop;

  oq_models_sorted q l : oq_models q l → StronglySorted key_le l;
  oq_new_spec : oq_models oq_new [];
  oq_is_empty_spec q l : oq_models q l → oq_is_empty q = bool_decide (l = []);
  oq_first_spec q l : oq_models q l → oq_first q = snd <$> head l;
  oq_first_key_spec q l : oq_models q l → oq_first_key q = fst <$> head l;
  oq_insert_spec q l k v :
    oq_models q l → wp (oq_insert q k v) (λ q', oq_models q' (sorted_insert k v l));
  oq_remove_spec q l k :
    oq_models q l →
    wp (oq_remove q k) (λ '(r, q'), ∃ l', oq_models q' l' ∧ removed k l r l');
  oq_pop_first_spec q l :
    oq_models q l →
    wp (oq_pop_first q) (λ '(r, q'), ∃ l', oq_models q' l' ∧
      match l with
      | [] => r = None ∧ l' = []
      | (k, _) :: _ => removed k l r l'
      end);
  oq_remove_where_spec q l p :
    oq_models q l →
    wp (oq_remove_where q p) (λ '(r, q'), ∃ l', oq_models q' l' ∧
      ((r = None ∧ l' = l ∧ Forall (λ e, p e.2 = false) l) ∨
       ∃ k v, (k, v) ∈ l ∧ p v = true ∧ removed k l r l'));
}.

(** The laws of removal for queues with distinct keys. *)
Section unique.
Context {K V Q : Type} `{OrderedQueue K V Q}.
Implicit Types (q : Q) (l : list (K * V)).

Lemma oq_pop_first_unique q l :
  oq_models q l → NoDup l.*1 →
  wp (oq_pop_first q) (λ '(r, q'), r = snd <$> head l ∧ oq_models q' (tail l)).
Proof.
  intros Hm Hnd. eapply wp_mono; [by apply oq_pop_first_spec|].
  intros [r q'] (l' & Hm' & Hl). destruct l as [|[k v] l]; [by destruct Hl as [-> ->]|].
  destruct (removed_head _ _ _ _ _ Hnd Hl) as [-> ->]. done.
Qed.

Lemma oq_remove_where_unique q l p :
  oq_models q l → NoDup l.*1 →
  wp (oq_remove_where q p) (λ '(r, q'),
    match r with
    | None => oq_models q' l ∧ Forall (λ e, p e.2 = false) l
    | Some v => p v = true ∧ ∃ k l1 l2, l = l1 ++ (k, v) :: l2 ∧ oq_models q' (l1 ++ l2)
    end).
Proof.
  intros Hm Hnd. eapply wp_mono; [by apply oq_remove_where_spec|].
  intros [r q'] (l' & Hm' & [(-> & -> & ?)|(k & v & Hin & Hp & Hr)]); [done|].
  destruct (removed_unique _ _ _ _ _ Hnd Hin Hr) as [-> _]. split; [done|].
  apply removed_Some_inv in Hr as (l1 & l2 & -> & ->). by exists k, l1, l2.
Qed.

Lemma oq_remove_unique q l k v :
  oq_models q l → NoDup l.*1 → (k, v) ∈ l →
  wp (oq_remove q k) (λ '(r, q'), r = Some v ∧
    ∃ l1 l2, l = l1 ++ (k, v) :: l2 ∧ oq_models q' (l1 ++ l2)).
Proof.
  intros Hm Hnd Hin. eapply wp_mono; [by apply oq_remove_spec|].
  intros [r q'] (l' & Hm' & Hr). destruct (removed_unique _ _ _ _ _ Hnd Hin Hr) as [-> _].
  split; [done|]. apply removed_Some_inv in Hr as (l1 & l2 & -> & ->). by exists l1, l2.
Qed.

End unique.
