(* ===== verification/RbArena.v ===== *)
(** * The arena red-black tree of the scheduler ([process/scheduler/rbtree.rs])

    The translation of [RbRootCached<K, V>]: nodes live in a [Vec] of slots and
    point to each other by index, the leftmost node is cached, and removed
    slots are kept on a free list.  Every [unwrap], [expect] and slice index of
    the source that can panic is an [option] here, with [None] the panic.  The
    [while] loops run on fuel ([loop_fuel]); RbShape proves the fuel is enough,
    so that [None] never means "out of fuel" on a well-formed tree. *)

From S2P Require Import Prelude.

Inductive RbColor := Red | Black.

#[export] Instance RbColor_eq_dec : EqDecision RbColor.
Proof. solve_decision. Defined.

(** [struct RbNode<K, V>]; the fields carry the prefix [n_]. *)
Record RbNode (K V : Type) := MkNode {
  n_key : K;
  n_value : V;
  n_parent : option nat;
  n_left : option nat;
  n_right : option nat;
  n_color : RbColor;
}.
Arguments MkNode {K V}.
Arguments n_key {K V}.
Arguments n_value {K V}.
Arguments n_parent {K V}.
Arguments n_left {K V}.
Arguments n_right {K V}.
Arguments n_color {K V}.

(** [struct RbRootCached<K, V>]. *)
Record RbRootCached (K V : Type) := MkRoot {
  root : option nat;
  leftmost : option nat;
  nodes : list (option (RbNode K V));
  free_slots : list nat;
  len : nat;
}.
Arguments MkRoot {K V}.
Arguments root {K V}.
Arguments leftmost {K V}.
Arguments nodes {K V}.
Arguments free_slots {K V}.
Arguments len {K V}.

Section arena.
Context {K V : Type}.
Implicit Types (t : RbRootCached K V) (n : RbNode K V).

(** Field assignments on a node and on the tree. *)
Definition with_parent (p : option nat) n : RbNode K V :=
  MkNode (n_key n) (n_value n) p (n_left n) (n_right n) (n_color n).

Definition with_left (l : option nat) n : RbNode K V :=
  MkNode (n_key n) (n_value n) (n_parent n) l (n_right n) (n_color n).

Definition with_right (r : option nat) n : RbNode K V :=
  MkNode (n_key n) (n_value n) (n_parent n) (n_left n) r (n_color n).

Definition with_color (c : RbColor) n : RbNode K V :=
  MkNode (n_key n) (n_value n) (n_parent n) (n_left n) (n_right n) c.

Definition with_root (r : option nat) t : RbRootCached K V :=
  MkRoot r (leftmost t) (nodes t) (free_slots t) (len t).

Definition with_leftmost (l : option nat) t : RbRootCached K V :=
  MkRoot (root t) l (nodes t) (free_slots t) (len t).

Definition with_nodes (ns : list (option (RbNode K V))) t : RbRootCached K V :=
  MkRoot (root t) (leftmost t) ns (free_slots t) (len t).

Definition with_free_slots (fs : list nat) t : RbRootCached K V :=
  MkRoot (root t) (leftmost t) (nodes t) fs (len t).

Definition with_len (m : nat) t : RbRootCached K V :=
  MkRoot (root t) (leftmost t) (nodes t) (free_slots t) m.

(** [self.nodes[index].as_ref().unwrap()] *)
Definition get_node t (index : nat) : option (RbNode K V) := mjoin (nodes t !! index).

(** [self.nodes[index].as_mut().unwrap().field = ...] *)
Definition upd t (index : nat) (f : RbNode K V → RbNode K V) : option (RbRootCached K V) :=
  n ← get_node t index;
  Some (with_nodes (<[index := Some (f n)]> (nodes t)) t).

(** An upper bound on the number of iterations of every loop below. *)
Definition loop_fuel t : nat := length (nodes t) + 3.

(** [fn new] *)
Definition new : RbRootCached K V := MkRoot None None [] [] 0.

(** [fn is_empty] *)
Definition is_empty t : bool := len t =? 0.

(** [fn first]: the value of the cached leftmost node. *)
Definition first t : option V :=
  index ← leftmost t; slot ← nodes t !! index; n ← slot; Some (n_value n).

(** [fn first_key] *)
Definition first_key t : option K :=
  index ← leftmost t; slot ← nodes t !! index; n ← slot; Some (n_key n).

(** [fn color]: an absent node counts as black. *)
Definition color t (index : option nat) : RbColor :=
  match (i ← index; slot ← nodes t !! i; slot) with
  | Some n => n_color n
  | None => Black
  end.

(** [fn parent], [fn left] and [fn right]; the outer [option] is the panic. *)
Definition parent t (index : nat) : option (option nat) := n_parent <$> get_node t index.

Definition left t (index : nat) : option (option nat) := n_left <$> get_node t index.

Definition right t (index : nat) : option (option nat) := n_right <$> get_node t index.

(** [fn set_parent] and [fn set_color]: no-ops on an absent node. *)
Definition set_parent t (index p : option nat) : option (RbRootCached K V) :=
  match index with
  | Some i => upd t i (with_parent p)
  | None => Some t
  end.

Definition set_color t (index : option nat) (c : RbColor) : option (RbRootCached K V) :=
  match index with
  | Some i => upd t i (with_color c)
  | None => Some t
  end.

(** [fn left_of] and [fn right_of] *)
Definition left_of t (index : option nat) : option (option nat) :=
  match index with Some i => left t i | None => Some None end.

Definition right_of t (index : option nat) : option (option nat) :=
  match index with Some i => right t i | None => Some None end.

(** [fn minimum]: follow left links. *)
Fixpoint minimum_loop (fuel : nat) t (node : nat) : option nat :=
  match fuel with
  | O => None
  | S fuel =>
    l ← left t node;
    match l with
    | Some i => minimum_loop fuel t i
    | None => Some node
    end
  end.

Definition minimum t (node : nat) : option nat := minimum_loop (loop_fuel t) t node.

(** The statement shared by [transplant] and the rotations: make
    [replacement] the child of [par] (or the root) in the place of [node]. *)
Definition replace_child t (par : option nat) (node : nat) (replacement : option nat)
    : option (RbRootCached K V) :=
  match par with
  | Some p =>
    l ← left t p;
    if decide (l = Some node) then upd t p (with_left replacement)
    else upd t p (with_right replacement)
  | None => Some (with_root replacement t)
  end.

(** [fn transplant] *)
Definition transplant t (node : nat) (replacement : option nat) : option (RbRootCached K V) :=
  par ← parent t node;
  t ← replace_child t par node replacement;
  set_parent t replacement par.

(** [fn rotate_left] *)
Definition rotate_left t (node : nat) : option (RbRootCached K V) :=
  r ← right t node;
  pivot ← r;
  pivot_left ← left t pivot;
  t ← upd t node (with_right pivot_left);
  t ← set_parent t pivot_left (Some node);
  par ← parent t node;
  t ← set_parent t (Some pivot) par;
  t ← replace_child t par node (Some pivot);
  t ← upd t pivot (with_left (Some node));
  set_parent t (Some node) (Some pivot).

(** [fn rotate_right] *)
Definition rotate_right t (node : nat) : option (RbRootCached K V) :=
  l ← left t node;
  pivot ← l;
  pivot_right ← right t pivot;
  t ← upd t node (with_left pivot_right);
  t ← set_parent t pivot_right (Some node);
  par ← parent t node;
  t ← set_parent t (Some pivot) par;
  t ← replace_child t par node (Some pivot);
  t ← upd t pivot (with_right (Some node));
  set_parent t (Some node) (Some pivot).

(** [fn insert_fixup]: one iteration of the loop body, for a red parent.  It
    returns the node the next iteration starts from. *)
Definition insert_fixup_step t (node : nat) : option (RbRootCached K V * nat) :=
  p ← parent t node;
  par ← p;
  g ← parent t par;
  grandparent ← g;
  gl ← left t grandparent;
  if decide (gl = Some par) then
    uncle ← right t grandparent;
    if decide (color t uncle = Red) then
      t ← upd t par (with_color Black);
      u ← uncle;
      t ← upd t u (with_color Black);
      t ← upd t grandparent (with_color Red);
      Some (t, grandparent)
    else
      pr ← right t par;
      '(t, node) ← (if decide (pr = Some node)
                    then t ← rotate_left t par; Some (t, par)
                    else Some (t, node));
      p ← parent t node;
      par ← p;
      g ← parent t par;
      grandparent ← g;
      t ← upd t par (with_color Black);
      t ← upd t grandparent (with_color Red);
      t ← rotate_right t grandparent;
      Some (t, node)
  else
    uncle ← left t grandparent;
    if decide (color t uncle = Red) then
      t ← upd t par (with_color Black);
      u ← uncle;
      t ← upd t u (with_color Black);
      t ← upd t grandparent (with_color Red);
      Some (t, grandparent)
    else
      pl ← left t par;
      '(t, node) ← (if decide (pl = Some node)
                    then t ← rotate_right t par; Some (t, par)
                    else Some (t, node));
      p ← parent t node;
      par ← p;
      g ← parent t par;
      grandparent ← g;
      t ← upd t par (with_color Black);
      t ← upd t grandparent (with_color Red);
      t ← rotate_left t grandparent;
      Some (t, node).

Fixpoint insert_fixup_loop (fuel : nat) t (node : nat) : option (RbRootCached K V) :=
  match fuel with
  | O => None
  | S fuel =>
    p ← parent t node;
    if decide (color t p = Red) then
      '(t, node) ← insert_fixup_step t node;
      insert_fixup_loop fuel t node
    else Some t
  end.

Definition insert_fixup t (node : nat) : option (RbRootCached K V) :=
  t ← insert_fixup_loop (loop_fuel t) t node;
  match root t with
  | Some r => upd t r (with_color Black)
  | None => Some t
  end.

(** [fn delete_fixup]: the part of the loop body after a red sibling has been
    rotated away, for a node that is the left (right) child.  It returns the
    new [node] and [parent] variables. *)
Definition delete_fixup_left t (parent_index : nat) (sibling : option nat)
    : option (RbRootCached K V * option nat * option nat) :=
  sl ← left_of t sibling;
  sr ← right_of t sibling;
  if decide (color t sl = Black ∧ color t sr = Black) then
    t ← set_color t sibling Red;
    pp ← parent t parent_index;
    Some (t, Some parent_index, pp)
  else
    '(t, sibling) ←
      (if decide (color t sr = Black) then
         t ← set_color t sl Black;
         t ← set_color t sibling Red;
         t ← match sibling with
             | Some sibling_index => rotate_right t sibling_index
             | None => Some t
             end;
         sibling ← right t parent_index;
         Some (t, sibling)
       else Some (t, sibling));
    t ← set_color t sibling (color t (Some parent_index));
    t ← set_color t (Some parent_index) Black;
    sr ← right_of t sibling;
    t ← set_color t sr Black;
    t ← rotate_left t parent_index;
    Some (t, root t, None).

Definition delete_fixup_right t (parent_index : nat) (sibling : option nat)
    : option (RbRootCached K V * option nat * option nat) :=
  sr ← right_of t sibling;
  sl ← left_of t sibling;
  if decide (color t sr = Black ∧ color t sl = Black) then
    t ← set_color t sibling Red;
    pp ← parent t parent_index;
    Some (t, Some parent_index, pp)
  else
    '(t, sibling) ←
      (if decide (color t sl = Black) then
         t ← set_color t sr Black;
         t ← set_color t sibling Red;
         t ← match sibling with
             | Some sibling_index => rotate_left t sibling_index
             | None => Some t
             end;
         sibling ← left t parent_index;
         Some (t, sibling)
       else Some (t, sibling));
    t ← set_color t sibling (color t (Some parent_index));
    t ← set_color t (Some parent_index) Black;
    sl ← left_of t sibling;
    t ← set_color t sl Black;
    t ← rotate_right t parent_index;
    Some (t, root t, None).

(** One iteration of the loop body of [delete_fixup]. *)
Definition delete_fixup_step t (node : option nat) (parent_index : nat)
    : option (RbRootCached K V * option nat * option nat) :=
  pl ← left t parent_index;
  if decide (node = pl) then
    sibling ← right t parent_index;
    '(t, sibling) ←
      (if decide (color t sibling = Red) then
         t ← set_color t sibling Black;
         t ← set_color t (Some parent_index) Red;
         t ← rotate_left t parent_index;
         sibling ← right t parent_index;
         Some (t, sibling)
       else Some (t, sibling));
    delete_fixup_left t parent_index sibling
  else
    sibling ← left t parent_index;
    '(t, sibling) ←
      (if decide (color t sibling = Red) then
         t ← set_color t sibling Black;
         t ← set_color t (Some parent_index) Red;
         t ← rotate_right t parent_index;
         sibling ← left t parent_index;
         Some (t, sibling)
       else Some (t, sibling));
    delete_fixup_right t parent_index sibling.

Fixpoint delete_fixup_loop (fuel : nat) t (node par : option nat)
    : option (RbRootCached K V * option nat) :=
  match fuel with
  | O => None
  | S fuel =>
    if decide (node ≠ root t ∧ color t node = Black) then
      match par with
      | None => Some (t, node)
      | Some parent_index =>
        '(t, node, par) ← delete_fixup_step t node parent_index;
        delete_fixup_loop fuel t node par
      end
    else Some (t, node)
  end.

Definition delete_fixup t (node par : option nat) : option (RbRootCached K V) :=
  '(t, node) ← delete_fixup_loop (loop_fuel t) t node par;
  set_color t node Black.

(** [fn remove], after [target] has been found: unlink the node. *)
Definition unlink t (target : nat)
    : option (RbRootCached K V * RbColor * option nat * option nat) :=
  tl ← left t target;
  tr ← right t target;
  match tl, tr with
  | None, _ =>
    let removed_color := color t (Some target) in
    replacement_parent ← parent t target;
    t ← transplant t target tr;
    Some (t, removed_color, tr, replacement_parent)
  | Some _, None =>
    let removed_color := color t (Some target) in
    replacement_parent ← parent t target;
    t ← transplant t target tl;
    Some (t, removed_color, tl, replacement_parent)
  | Some _, Some r =>
    moved ← minimum t r;
    let removed_color := color t (Some moved) in
    replacement ← right t moved;
    mp ← parent t moved;
    '(t, replacement_parent) ←
      (if decide (mp = Some target) then
         t ← set_parent t replacement (Some moved);
         Some (t, Some moved)
       else
         t ← transplant t moved replacement;
         target_right ← right t target;
         t ← upd t moved (with_right target_right);
         t ← set_parent t target_right (Some moved);
         Some (t, mp));
    t ← transplant t target (Some moved);
    target_left ← left t target;
    t ← upd t moved (with_left target_left);
    t ← set_parent t target_left (Some moved);
    t ← upd t moved (with_color (color t (Some target)));
    Some (t, removed_color, replacement, replacement_parent)
  end.

Context `{RustOrd K}.

(** [fn insert]: the descent to the insertion point. *)
Fixpoint insert_descend (fuel : nat) t (k : K) (cursor par : option nat)
    : option (option nat) :=
  match cursor with
  | None => Some par
  | Some index =>
    match fuel with
    | O => None
    | S fuel =>
      n ← get_node t index;
      insert_descend fuel t k (if ord_lt k (n_key n) then n_left n else n_right n) (Some index)
    end
  end.

(** Placing the node in a free slot, or pushing a new slot. *)
Definition place_node t n : option (RbRootCached K V * nat) :=
  match vec_pop (free_slots t) with
  | Some (index, fs) =>
    slot ← nodes t !! index;
    match slot with
    | Some _ => None  (* [debug_assert!(self.nodes[index].is_none())] *)
    | None => Some (with_nodes (<[index := Some n]> (nodes t)) (with_free_slots fs t), index)
    end
  | None => Some (with_nodes (vec_push (nodes t) (Some n)) t, length (nodes t))
  end.

(** [fn insert] *)
Definition insert t (k : K) (v : V) : option (RbRootCached K V) :=
  par ← insert_descend (loop_fuel t) t k (root t) None;
  '(t, index) ← place_node t (MkNode k v par None None Red);
  t ← match par with
      | Some p =>
        n ← get_node t p;
        if ord_lt k (n_key n) then upd t p (with_left (Some index))
        else upd t p (with_right (Some index))
      | None => Some (with_root (Some index) t)
      end;
  t ← match leftmost t with
      | None => Some (with_leftmost (Some index) t)
      | Some l =>
        n ← get_node t l;
        Some (if ord_lt k (n_key n) then with_leftmost (Some index) t else t)
      end;
  insert_fixup (with_len (S (len t)) t) index.

(** [fn remove]: the search loop.  [Some None] is the early return. *)
Fixpoint remove_search (fuel : nat) t (k : K) (cursor : option nat) : option (option nat) :=
  match fuel with
  | O => None
  | S fuel =>
    match cursor with
    | None => Some None
    | Some index =>
      n ← get_node t index;
      if ord_eq k (n_key n) then Some (Some index)
      else remove_search fuel t k (if ord_lt k (n_key n) then n_left n else n_right n)
    end
  end.

(** [fn remove] *)
Definition remove t (k : K) : option (option V * RbRootCached K V) :=
  target ← remove_search (loop_fuel t) t k (root t);
  match target with
  | None => Some (None, t)
  | Some target =>
    '(t, removed_color, replacement, replacement_parent) ← unlink t target;
    n ← get_node t target;
    let t := with_nodes (<[target := None]> (nodes t)) t in
    let t := with_free_slots (vec_push (free_slots t) target) t in
    let t := with_len (len t - 1) t in
    l ← match root t with
        | Some r => Some <$> minimum t r
        | None => Some None
        end;
    let t := with_leftmost l t in
    t ← (if decide (removed_color = Black)
         then delete_fixup t replacement replacement_parent else Some t);
    Some (Some (n_value n), t)
  end.

(** [fn pop_first] *)
Definition pop_first t : option (option V * RbRootCached K V) :=
  match first_key t with
  | None => Some (None, t)
  | Some k => remove t k
  end.

(** [fn remove_where]: the first occupied slot whose value satisfies the
    predicate names the key to remove. *)
Definition remove_where t (predicate : V → bool) : option (option V * RbRootCached K V) :=
  match head (filter (λ n, predicate (n_value n) = true) (omap id (nodes t))) with
  | None => Some (None, t)
  | Some n => remove t (n_key n)
  end.

End arena.

(** The tree with three keys, in insertion order 2, 1, 3, and its evaluation. *)
Example insert_three :
  (t ← insert new 2 20; t ← insert t 1 10; t ← insert t 3 30;
   '(v, t) ← remove t 2; Some (v, first t, root t, len t)) =
  Some (Some 20, Some 10, Some 2, 2).
Proof. vm_compute. reflexivity. Qed.
