(* ===== verification/RbZipper.v ===== *)
(** * Red-black trees as values: shapes, contexts and rebalancing

    The pointer structure of RbArena is described by inductive trees whose
    nodes carry their arena index.  A position in a tree is a context (the list
    of frames from the position up to the root).  [ins_fix] and [del_fix] are
    the rebalancing loops of [insert_fixup] and [delete_fixup] on this
    representation; here they are shown to keep the in-order sequence and to
    restore the red-black invariant.  RbShape shows that the arena operations
    implement them. *)

From S2P Require Import Prelude RbArena.

Section zipper.
Context {K V : Type}.

Inductive tree :=
  | Leaf
  | Node (c : RbColor) (l : tree) (i : nat) (k : K) (v : V) (r : tree).

Inductive dir := DL | DR.

Definition flip (d : dir) : dir := match d with DL => DR | DR => DL end.

(** A node seen from its child on side [d]; [s] is the other subtree. *)
Inductive frame := Frame (d : dir) (c : RbColor) (i : nat) (k : K) (v : V) (s : tree).

Implicit Types (t s : tree) (C : list frame) (n m : nat).

Definition ptr t : option nat :=
  match t with Leaf => None | Node _ _ i _ _ _ => Some i end.

Definition tcolor t : RbColor :=
  match t with Leaf => Black | Node c _ _ _ _ _ => c end.

Definition paint (c : RbColor) t : tree :=
  match t with Leaf => Leaf | Node _ l i k v r => Node c l i k v r end.

(** The subtree on side [d]. *)
Definition sub (d : dir) t : tree :=
  match t, d with
  | Leaf, _ => Leaf
  | Node _ l _ _ _ _, DL => l
  | Node _ _ _ _ _ r, DR => r
  end.

(** The node with [t] on side [d] and [s] on the other side. *)
Definition join (d : dir) (c : RbColor) (i : nat) (k : K) (v : V) t s : tree :=
  match d with DL => Node c t i k v s | DR => Node c s i k v t end.

Definition fill (f : frame) t : tree :=
  let 'Frame d c i k v s := f in join d c i k v t s.

Fixpoint plug C t : tree :=
  match C with [] => t | f :: C => plug C (fill f t) end.

Fixpoint tsize t : nat :=
  match t with Leaf => 0 | Node _ l _ _ _ r => S (tsize l + tsize r) end.

Fixpoint height t : nat :=
  match t with Leaf => 0 | Node _ l _ _ _ r => S (height l `max` height r) end.

(** The in-order sequence of (index, (key, value)). *)
Fixpoint entries t : list (nat * (K * V)) :=
  match t with
  | Leaf => []
  | Node _ l i k v r => entries l ++ (i, (k, v)) :: entries r
  end.

(** ** The rebalancing loops *)

Fixpoint ins_fix C t : tree :=
  match C with
  | Frame dp Red p kp vp sp :: Frame dg cg g kg vg sg :: C' =>
    match tcolor sg with
    | Red => ins_fix C' (join dg Red g kg vg (join dp Black p kp vp t sp) (paint Black sg))
    | Black =>
      match dp, dg, t with
      | DL, DL, _ | DR, DR, _ =>
        plug C' (join dg Black p kp vp t (join dg Red g kg vg sp sg))
      | _, _, Leaf => plug C t
      | _, _, Node _ _ x kx vx _ =>
        plug C' (join dg Black x kx vx (join dp Red p kp vp (sub dg t) sp)
                                       (join dg Red g kg vg (sub dp t) sg))
      end
    end
  | _ => plug C t
  end.

(** One rebalancing step at the parent [p], whose child [t] on side [d] is one
    black short and whose other child [s] is black.  [inl]: the deficit moves
    up to the returned subtree; [inr]: it is gone. *)
Definition del_black (d : dir) (c : RbColor) (p : nat) (kp : K) (vp : V) t s : tree + tree :=
  let near := sub d s in
  let far := sub (flip d) s in
  match s with
  | Leaf => inl (join d c p kp vp t Leaf)
  | Node _ _ si ks vs _ =>
    match tcolor far, tcolor near, near with
    | Red, _, _ =>
      inr (join d c si ks vs (join d Black p kp vp t near) (paint Black far))
    | Black, Red, Node _ _ ni kn vn _ =>
      inr (join d c ni kn vn (join d Black p kp vp t (sub d near))
                             (join d Black si ks vs (sub (flip d) near) far))
    | _, _, _ => inl (join d c p kp vp t (paint Red s))
    end
  end.

Fixpoint del_fix C t : tree :=
  match C with
  | [] => paint Black t
  | Frame d c p kp vp s :: C' =>
    match tcolor t with
    | Red => plug C (paint Black t)
    | Black =>
      match s with
      | Node Red _ si ks vs _ =>
        let C1 := Frame d Black si ks vs (sub (flip d) s) :: C' in
        match del_black d Red p kp vp t (sub d s) with
        | inl t' => plug C1 (paint Black t')
        | inr t' => paint Black (plug C1 t')
        end
      | _ =>
        match del_black d c p kp vp t s with
        | inl t' => del_fix C' t'
        | inr t' => paint Black (plug C' t')
        end
      end
    end
  end.

(** ** The red-black invariant *)

(** [is_rb t n]: every path of [t] has [n] black nodes and no red node has a
    red child. *)
Fixpoint is_rb t n : Prop :=
  match t with
  | Leaf => n = 0
  | Node Red l _ _ _ r => is_rb l n ∧ is_rb r n ∧ tcolor l = Black ∧ tcolor r = Black
  | Node Black l _ _ _ r =>
    match n with O => False | S m => is_rb l m ∧ is_rb r m end
  end.

Definition hd_black C : Prop :=
  match C with Frame _ Black _ _ _ _ :: _ => True | _ => False end.

(** [cok C n]: filling the hole with a black-rooted tree of black height [n]
    gives a red-black tree with a black root. *)
Fixpoint cok C n : Prop :=
  match C with
  | [] => True
  | Frame _ Black _ _ _ s :: C' => is_rb s n ∧ cok C' (S n)
  | Frame _ Red _ _ _ s :: C' => is_rb s n ∧ tcolor s = Black ∧ hd_black C' ∧ cok C' n
  end.

(** ** In-order sequence of a context *)

Fixpoint before C : list (nat * (K * V)) :=
  match C with
  | [] => []
  | Frame DL _ _ _ _ _ :: C' => before C'
  | Frame DR _ i k v s :: C' => before C' ++ entries s ++ [(i, (k, v))]
  end.

Fixpoint after C : list (nat * (K * V)) :=
  match C with
  | [] => []
  | Frame DL _ i k v s :: C' => (i, (k, v)) :: entries s ++ after C'
  | Frame DR _ _ _ _ _ :: C' => after C'
  end.

(** ** Lemmas *)

Lemma plug_app C D t : plug (C ++ D) t = plug D (plug C t).
Proof. revert t. induction C as [|f C IH]; intros t; simpl; auto. Qed.

Lemma before_app D C : before (D ++ C) = before C ++ before D.
Proof.
  induction D as [|[[] c i k v s] D IH]; simpl; [by rewrite app_nil_r|done|].
  by rewrite IH, <-app_assoc.
Qed.

Lemma after_app D C : after (D ++ C) = after D ++ after C.
Proof.
  induction D as [|[[] c i k v s] D IH]; simpl; [done| |done]. by rewrite IH, <-app_assoc.
Qed.

Lemma entries_plug C t : entries (plug C t) = before C ++ entries t ++ after C.
Proof.
  revert t. induction C as [|[[] c i k v s] C IH]; intros t; simpl.
  - by rewrite app_nil_r.
  - by rewrite IH; simpl; rewrite <-!app_assoc.
  - by rewrite IH; simpl; rewrite <-!app_assoc.
Qed.

Lemma entries_plug_congr C t s : entries t = entries s → entries (plug C t) = entries (plug C s).
Proof. intros Heq. by rewrite !entries_plug, Heq. Qed.

Lemma entries_paint c t : entries (paint c t) = entries t.
Proof. by destruct t. Qed.

Lemma length_entries t : length (entries t) = tsize t.
Proof. induction t; simpl; [done|]. rewrite length_app; simpl; lia. Qed.

Lemma tcolor_paint_black t : tcolor (paint Black t) = Black.
Proof. by destruct t. Qed.

Lemma paint_black_id t : tcolor t = Black → paint Black t = t.
Proof. destruct t as [|[]]; naive_solver. Qed.

(** Both rebalancing loops keep the in-order sequence. *)
Lemma entries_ins_fix C t : entries (ins_fix C t) = entries (plug C t).
Proof.
  remember (length C) as n eqn:Hn. assert (length C ≤ n) as Hle by lia. clear Hn.
  revert C t Hle. induction n as [n IH] using lt_wf_ind. intros C t Hle.
  destruct C as [|[dp [] p kp vp sp] [|[dg cg g kg vg sg] C]]; try done.
  simpl. destruct (tcolor sg); simpl in Hle.
  - rewrite (IH (length C)) by lia. apply entries_plug_congr.
    destruct dp, dg; simpl; by rewrite entries_paint.
  - destruct dp, dg, t; simpl; try done; apply entries_plug_congr; simpl;
      by rewrite <-?app_assoc; simpl; rewrite <-?app_assoc.
Qed.

Lemma entries_del_black d c p kp vp t s :
  entries (match del_black d c p kp vp t s with inl u => u | inr u => u end) =
  entries (join d c p kp vp t s).
Proof.
  destruct s as [|sc sl si ks vs sr]; [done|].
  destruct d; simpl.
  - destruct sr as [|[]], sl as [|[] nl ni kn vn nr]; simpl; try done;
      by rewrite <-?app_assoc; simpl; rewrite <-?app_assoc.
  - destruct sl as [|[]], sr as [|[] nl ni kn vn nr]; simpl; try done;
      by rewrite <-?app_assoc; simpl; rewrite <-?app_assoc.
Qed.

Lemma entries_red_sibling d c p kp vp t s si ks vs sl sr :
  s = Node Red sl si ks vs sr →
  entries (fill (Frame d Black si ks vs (sub (flip d) s)) (join d Red p kp vp t (sub d s))) =
  entries (join d c p kp vp t s).
Proof. intros ->. destruct d; simpl; by rewrite <-?app_assoc; simpl; rewrite <-?app_assoc. Qed.

Lemma entries_del_fix C t : entries (del_fix C t) = entries (plug C t).
Proof.
  revert t. induction C as [|[d c p kp vp s] C IH]; intros t; [apply entries_paint|].
  simpl. destruct (tcolor t).
  { simpl. apply entries_plug_congr. destruct d; simpl; by rewrite entries_paint. }
  pose proof (entries_del_black d c p kp vp t s) as Hb.
  destruct s as [|[] sl si ks vs sr].
  - destruct (del_black _ _ _ _ _ _ _); rewrite ?entries_paint, ?IH; by apply entries_plug_congr.
  - clear Hb. pose proof (entries_del_black d Red p kp vp t (sub d (Node Red sl si ks vs sr))) as Hr.
    assert (∀ u, entries u = entries (join d Red p kp vp t (sub d (Node Red sl si ks vs sr))) →
      entries (plug C (join d Black si ks vs u (sub (flip d) (Node Red sl si ks vs sr)))) =
      entries (plug C (join d c p kp vp t (Node Red sl si ks vs sr)))) as Hplug.
    { intros u Hu. apply entries_plug_congr.
      etrans; [|by apply (entries_red_sibling d c p kp vp t _ si ks vs sl sr)].
      destruct d; simpl in *; by rewrite Hu. }
    destruct (del_black _ _ _ _ _ _ _); rewrite ?entries_paint; apply Hplug;
      by rewrite ?entries_paint.
  - destruct (del_black _ _ _ _ _ _ _); rewrite ?entries_paint, ?IH; by apply entries_plug_congr.
Qed.

(** ** The red-black invariant through contexts *)

Lemma is_rb_paint_black t n : is_rb t n → ∃ m, is_rb (paint Black t) m.
Proof. destruct t as [|[] ? ? ? ? ?]; simpl; [by eauto| |by eauto]. exists (S n). naive_solver. Qed.

Lemma is_rb_paint_black_red t n : is_rb t n → tcolor t = Red → is_rb (paint Black t) (S n).
Proof. destruct t as [|[]]; naive_solver. Qed.

Lemma is_rb_join_black d i k v t s n :
  is_rb t n → is_rb s n → is_rb (join d Black i k v t s) (S n).
Proof. by destruct d. Qed.

Lemma is_rb_join_red d i k v t s n :
  is_rb t n → is_rb s n → tcolor t = Black → tcolor s = Black →
  is_rb (join d Red i k v t s) n.
Proof. destruct d; naive_solver. Qed.

Lemma tcolor_join d c i k v t s : tcolor (join d c i k v t s) = c.
Proof. by destruct d. Qed.

Lemma plug_rb C t n :
  is_rb t n → cok C n → (tcolor t = Black ∨ hd_black C ∨ C = []) → ∃ m, is_rb (plug C t) m.
Proof.
  revert t n. induction C as [|[d [] i k v s] C IH]; intros t n Ht HC Hc; [by eauto|..]; simpl in *.
  - destruct HC as (? & ? & ? & ?). destruct Hc as [Hc|[[]|[=]]].
    apply (IH _ n); [by apply is_rb_join_red|done|by eauto].
  - destruct HC as (? & ?).
    apply (IH _ (S n)); [by apply is_rb_join_black|done|]. rewrite tcolor_join. by left.
Qed.

Lemma cok_root_black C t n : cok C n → C ≠ [] → tcolor (plug C t) = Black.
Proof.
  revert t n. induction C as [|[d c i k v s] C IH]; intros t n HC Hne; [done|]. simpl in *.
  destruct C as [|f C].
  - simpl. rewrite tcolor_join. destruct c; naive_solver.
  - destruct c; [destruct HC as (_ & _ & _ & HC)|destruct HC as [_ HC]]; by eapply IH.
Qed.

Lemma plug_rb_inv C t m :
  is_rb (plug C t) m → tcolor (plug C t) = Black →
  ∃ n, is_rb t n ∧ cok C n ∧ (tcolor t = Red → hd_black C).
Proof.
  revert t. induction C as [|[d c i k v s] C IH]; intros t Hrb Hc; simpl in *.
  { exists m. rewrite Hc. done. }
  destruct (IH _ Hrb Hc) as (n & Hj & HC & Hhd). rewrite tcolor_join in Hhd.
  destruct c.
  - exists n. destruct d; simpl in Hj; destruct Hj as (? & ? & ? & ?);
      (split_and!; [done..|auto|done|congruence]).
  - destruct n as [|n]; [by destruct d|]. exists n. destruct d; simpl in Hj; naive_solver.
Qed.

(** Insertion: a red tree in a hole for a black one is repaired by [ins_fix]. *)
Lemma ins_fix_rb C t n :
  is_rb t n → tcolor t = Red → cok C n → ∃ m, is_rb (paint Black (ins_fix C t)) m.
Proof.
  remember (length C) as l eqn:Hl. assert (length C ≤ l) as Hle by lia. clear Hl.
  revert C t n Hle. induction l as [l IH] using lt_wf_ind. intros C t n Hle Ht Hred HC.
  assert (hd_black C ∨ C = [] → ∃ m, is_rb (paint Black (plug C t)) m) as Hdone.
  { intros Hhd. destruct (plug_rb C t n) as [m Hm]; [naive_solver..|].
    by eapply is_rb_paint_black. }
  destruct C as [|[dp [] p kp vp sp] C]; [apply Hdone; naive_solver| |apply Hdone; naive_solver].
  destruct C as [|[dg [] g kg vg sg] C]; [simpl in HC; naive_solver..|].
  destruct HC as (Hsp & Hspc & _ & Hsg & HC).
  assert (∀ u, is_rb u (S n) → tcolor u = Black → ∃ m, is_rb (paint Black (plug C u)) m) as Hplug.
  { intros u Hu Huc. destruct (plug_rb C u (S n)) as [m Hm]; [naive_solver..|].
    by eapply is_rb_paint_black. }
  clear Hdone. simpl. destruct (tcolor sg) eqn:Esg.
  - simpl in Hle. apply (IH (length C) ltac:(lia) _ _ (S n)); [done| |by rewrite tcolor_join|done].
    apply is_rb_join_red; [by apply is_rb_join_black|by apply is_rb_paint_black_red|
      by rewrite tcolor_join|by apply tcolor_paint_black].
  - destruct t as [|[] tl x kx vx tr]; [done| |done]. simpl in Ht.
    destruct dp, dg; apply Hplug; simpl; naive_solver.
Qed.

(** Deletion at a black sibling: the result has the black height of the
    original parent, or is one black short of it. *)
Lemma del_black_rb d c p kp vp t s n :
  is_rb t n → tcolor t = Black → is_rb s (S n) → tcolor s = Black →
  match del_black d c p kp vp t s with
  | inl u => is_rb (paint Black u) (S n) ∧ tcolor u = c ∧ (c = Black → is_rb u (S n))
  | inr u => tcolor u = c ∧ is_rb u (match c with Red => S n | Black => S (S n) end)
  end.
Proof.
  intros Ht Htc Hs Hsc. destruct s as [|[] sl si ks vs sr]; [done..|].
  destruct Hs as [Hsl Hsr], d; simpl.
  - destruct sr as [|[] ? ? ? ? ?], sl as [|[] nl ni kn vn nr], c; simpl in *; naive_solver.
  - destruct sl as [|[] ? ? ? ? ?], sr as [|[] nl ni kn vn nr], c; simpl in *; naive_solver.
Qed.

(** Deletion: [t] is one black short of what the hole expects. *)
Lemma del_fix_rb C t n :
  is_rb t n → cok C (S n) → ∃ m, is_rb (del_fix C t) m.
Proof.
  revert t n. induction C as [|[d c p kp vp s] C IH]; intros t n Ht HC.
  { by eapply is_rb_paint_black. }
  change (∃ m, is_rb (del_fix (Frame d c p kp vp s :: C) t) m). simpl.
  destruct (tcolor t) eqn:Htc.
  { apply (plug_rb (Frame d c p kp vp s :: C) (paint Black t) (S n));
      [by apply is_rb_paint_black_red|done|by left; apply tcolor_paint_black]. }
  assert (is_rb s (S n)) as Hs by (destruct c; naive_solver).
  destruct s as [|[] sl si ks vs sr]; [done|..].
  - (* red sibling: the parent is black *)
    destruct c; [naive_solver|]. destruct HC as [_ HC].
    destruct Hs as (Hsl & Hsr & Hslc & Hsrc).
    set (near := sub d (Node Red sl si ks vs sr)).
    set (far := sub (flip d) (Node Red sl si ks vs sr)).
    assert (is_rb near (S n) ∧ tcolor near = Black) as [Hn Hnc] by (by destruct d).
    assert (is_rb far (S n) ∧ tcolor far = Black) as [Hf Hfc] by (by destruct d).
    assert (cok (Frame d Black si ks vs far :: C) (S n)) as HC1 by done.
    pose proof (del_black_rb d Red p kp vp t near n Ht Htc Hn Hnc) as Hb.
    destruct (del_black d Red p kp vp t near) as [u|u].
    + destruct Hb as (Hu & _ & _).
      apply (plug_rb (Frame d Black si ks vs far :: C) _ (S n)); [done..|].
      left; apply tcolor_paint_black.
    + destruct Hb as [_ Hu].
      destruct (plug_rb (Frame d Black si ks vs far :: C) u (S n)) as [m Hm]; [done..|by right; left|].
      by eapply is_rb_paint_black.
  - pose proof (del_black_rb d c p kp vp t (Node Black sl si ks vs sr) n Ht Htc Hs eq_refl) as Hb.
    destruct (del_black _ _ _ _ _ _ _) as [u|u].
    + destruct Hb as (Hu & Huc & Hub). destruct c.
      * (* the parent was red: painting it black ends the repair *)
        destruct HC as (_ & _ & Hhd & HC). destruct C as [|[? [] ? ? ? ?] C]; [done..|].
        simpl. rewrite Huc.
        apply (plug_rb (Frame _ Black _ _ _ _ :: C) _ (S n)); [done..|].
        left; apply tcolor_paint_black.
      * destruct HC as [_ HC]. apply (IH u (S n)); naive_solver.
    + destruct Hb as [Huc Hu]. destruct c.
      * destruct HC as (_ & _ & Hhd & HC).
        destruct (plug_rb C u (S n)) as [m Hm]; [done..|by right; left|].
        by eapply is_rb_paint_black.
      * destruct HC as [_ HC].
        destruct (plug_rb C u (S (S n))) as [m Hm]; [done..|by left|].
        by eapply is_rb_paint_black.
Qed.

(** The repaired tree has a black root. *)
Lemma del_fix_black C t n : is_rb t n → cok C (S n) → tcolor (del_fix C t) = Black.
Proof.
  revert t n. induction C as [|[d c p kp vp s] C IH]; intros t n Ht HC.
  { apply tcolor_paint_black. }
  change (tcolor (del_fix (Frame d c p kp vp s :: C) t) = Black). simpl.
  destruct (tcolor t) eqn:Htc.
  { by eapply (cok_root_black (Frame d c p kp vp s :: C) _ (S n)). }
  assert (is_rb s (S n)) as Hs by (destruct c; naive_solver).
  destruct s as [|[] sl si ks vs sr]; [done|..].
  - destruct c; [naive_solver|]. destruct HC as [_ HC].
    destruct (del_black _ _ _ _ _ _ _) as [u|u]; [|apply tcolor_paint_black].
    apply (cok_root_black (Frame d Black si ks vs _ :: C) _ (S n)); [|done].
    split; [|done]. destruct d; simpl in *; naive_solver.
  - pose proof (del_black_rb d c p kp vp t (Node Black sl si ks vs sr) n Ht Htc Hs eq_refl) as Hb.
    destruct (del_black _ _ _ _ _ _ _) as [u|u]; [|apply tcolor_paint_black].
    destruct Hb as (Hu & Huc & Hub). destruct c.
    + destruct HC as (_ & _ & Hhd & HC). destruct C as [|[? [] ? ? ? ?] C]; [done..|].
      simpl. rewrite Huc. eapply (cok_root_black (Frame _ Black _ _ _ _ :: C)); done.
    + destruct HC as [_ HC]. eapply (IH u (S n)); [by apply Hub|done].
Qed.

(** ** Size and height *)

Lemma is_rb_size t n : is_rb t n → 2 ^ n ≤ S (tsize t).
Proof.
  revert n. induction t as [|[] l IHl i k v r IHr]; intros n Hrb; simpl in *.
  - by subst.
  - destruct Hrb as (Hl & _ & _). apply IHl in Hl. lia.
  - destruct n as [|n]; [done|]. destruct Hrb as [Hl%IHl Hr%IHr]. simpl. lia.
Qed.

Lemma is_rb_height t n :
  is_rb t n → height t ≤ match tcolor t with Red => S (2 * n) | Black => 2 * n end.
Proof.
  revert n. induction t as [|[] l IHl i k v r IHr]; intros n Hrb; simpl in *.
  - lia.
  - destruct Hrb as (Hl%IHl & Hr%IHr & Ec & Ec'). rewrite Ec in Hl. rewrite Ec' in Hr. lia.
  - destruct n as [|n]; [done|]. destruct Hrb as [Hl%IHl Hr%IHr].
    destruct (tcolor l), (tcolor r); lia.
Qed.

(** A red-black tree with a black root is balanced: its height is at most
    [2 * log2 (size + 1)]. *)
Lemma is_rb_balanced t n :
  is_rb t n → tcolor t = Black → height t ≤ 2 * Nat.log2 (S (tsize t)).
Proof.
  intros Hrb Hc. pose proof (is_rb_height t n Hrb) as Hh. rewrite Hc in Hh.
  enough (n ≤ Nat.log2 (S (tsize t))) by lia.
  apply Nat.log2_le_pow2; [lia|]. by apply is_rb_size.
Qed.

End zipper.

Arguments tree : clear implicits.
Arguments frame : clear implicits.
