(* ===== verification/RbShape.v ===== *)
(** * The arena implements the zipper

    The heap side of the red-black tree proof.  A tree value (RbZipper) is laid
    out in the arena as a list of cells (index, node); separation is the absence
    of duplicate indices, and reordering cells is a permutation.  Each operation
    of RbArena gets a Hoare-style rule ([wp]) over cell lists; with them the
    rotations, [insert_fixup], [unlink], [delete_fixup] and [minimum] are shown
    to implement [ins_fix], the removal of a node and [del_fix], never to panic
    and never to run out of fuel. *)

From S2P Require Import Prelude RbArena RbZipper.

Section shape.
Context {K V : Type}.
Implicit Types (t : RbRootCached K V) (n : RbNode K V) (u s : tree K V) (C : list (frame K V)).

Abbreviation cell := (nat * RbNode K V)%type.

(** ** Layout *)

(** The cells of a tree whose root has parent link [p]. *)
Fixpoint cells (p : option nat) u : list cell :=
  match u with
  | Leaf => []
  | Node c l i k v r =>
    (i, MkNode k v p (ptr l) (ptr r) c) :: cells (Some i) l ++ cells (Some i) r
  end.

(** The parent link of the hole of a context. *)
Definition ctx_ptr C : option nat :=
  match C with [] => None | Frame _ _ i _ _ _ :: _ => Some i end.

(** The cells of a context whose hole holds the link [h]. *)
Fixpoint ccells C (h : option nat) : list cell :=
  match C with
  | [] => []
  | Frame DL c i k v s :: C' =>
    (i, MkNode k v (ctx_ptr C') h (ptr s) c) :: cells (Some i) s ++ ccells C' (Some i)
  | Frame DR c i k v s :: C' =>
    (i, MkNode k v (ctx_ptr C') (ptr s) h c) :: cells (Some i) s ++ ccells C' (Some i)
  end.

(** The root link of a context whose hole holds [h]. *)
Fixpoint root_of C (h : option nat) : option nat :=
  match C with [] => h | Frame _ _ i _ _ _ :: C' => root_of C' (Some i) end.

(** The slots of the arena are exactly the cells [cs] and the free slots. *)
Record arena (ns : list (option (RbNode K V))) (free : list nat) (cs : list cell) : Prop := {
  ar_nodup : NoDup cs.*1;
  ar_free_nodup : NoDup free;
  ar_node : ∀ i n, ns !! i = Some (Some n) ↔ (i, n) ∈ cs;
  ar_none : ∀ i, ns !! i = Some None ↔ i ∈ free;
}.

(** What rebalancing leaves alone. *)
Definition aux t : option nat * list nat * nat * nat :=
  (leftmost t, free_slots t, len t, length (nodes t)).

Definition St t (r : option nat) (a : option nat * list nat * nat * nat) (cs : list cell) : Prop :=
  arena (nodes t) (free_slots t) cs ∧ root t = r ∧ aux t = a.

(** The arena of [t] holds the tree [plug C u] and the cells [rest]. *)
Definition Zip t a C u (rest : list cell) : Prop :=
  St t (root_of C (ptr u)) a (ccells C (ptr u) ++ cells (ctx_ptr C) u ++ rest).

(** ** The arena *)

Lemma arena_perm ns free cs cs' : cs ≡ₚ cs' → arena ns free cs → arena ns free cs'.
Proof.
  intros Hp [Hnd Hf Hn H0]. split; [by rewrite <-Hp|done| |done].
  intros i n. by rewrite Hn, Hp.
Qed.

Lemma arena_lookup ns free i n cs :
  arena ns free ((i, n) :: cs) → ns !! i = Some (Some n).
Proof. intros [_ _ Hn _]. apply Hn. by left. Qed.

Lemma arena_set ns free i n n' cs :
  arena ns free ((i, n) :: cs) → arena (<[i := Some n']> ns) free ((i, n') :: cs).
Proof.
  intros Har. pose proof (arena_lookup _ _ _ _ _ Har) as Hi.
  destruct Har as [Hnd Hf Hn H0]. simpl in Hnd; apply NoDup_cons in Hnd as [Hni Hnd].
  assert (i < length ns) as Hlt by (by eapply lookup_lt_Some).
  split; [by apply NoDup_cons|done|..].
  - intros j m. destruct (decide (i = j)) as [<-|Hne].
    + rewrite list_lookup_insert_eq by done. rewrite elem_of_cons. split.
      * intros [= ->]. by left.
      * intros [[= ->]|Hin]; [done|]. destruct Hni. by apply (list_elem_of_fmap_2 fst _ (i, m)).
    + rewrite list_lookup_insert_ne by done. rewrite Hn, !elem_of_cons. naive_solver.
  - intros j. destruct (decide (i = j)) as [<-|Hne].
    + rewrite list_lookup_insert_eq by done. split; [done|]. rewrite <-H0. congruence.
    + by rewrite list_lookup_insert_ne by done.
Qed.

Lemma arena_take ns free i n cs :
  arena ns free ((i, n) :: cs) → arena (<[i := None]> ns) (free ++ [i]) cs.
Proof.
  intros Har. pose proof (arena_lookup _ _ _ _ _ Har) as Hi.
  destruct Har as [Hnd Hf Hn H0]. simpl in Hnd; apply NoDup_cons in Hnd as [Hni Hnd].
  assert (i < length ns) as Hlt by (by eapply lookup_lt_Some).
  split; [done|..].
  - apply NoDup_app. split_and!; [done| |by apply NoDup_singleton].
    intros j Hj ->%list_elem_of_singleton. apply H0 in Hj. congruence.
  - intros j m. destruct (decide (i = j)) as [<-|Hne].
    + rewrite list_lookup_insert_eq by done. split; [done|]. intros Hin.
      destruct Hni. by apply (list_elem_of_fmap_2 fst _ (i, m)).
    + rewrite list_lookup_insert_ne by done. rewrite Hn, !elem_of_cons. naive_solver.
  - intros j. rewrite elem_of_app, list_elem_of_singleton. destruct (decide (i = j)) as [<-|Hne].
    + rewrite list_lookup_insert_eq by done. naive_solver.
    + rewrite list_lookup_insert_ne by done. rewrite H0. naive_solver.
Qed.

Lemma arena_reuse ns free i n cs :
  arena ns (free ++ [i]) cs → arena (<[i := Some n]> ns) free ((i, n) :: cs).
Proof.
  intros [Hnd Hf Hn H0]. apply NoDup_app in Hf as (Hf & Hd & _).
  assert (ns !! i = Some None) as Hi by (apply H0; set_solver).
  assert (i < length ns) as Hlt by (by eapply lookup_lt_Some).
  split; [|done|..].
  - simpl. apply NoDup_cons. split; [|done]. intros ([j m] & Heq & Hin)%list_elem_of_fmap.
    simpl in Heq. subst j. apply Hn in Hin. congruence.
  - intros j m. destruct (decide (i = j)) as [<-|Hne].
    + rewrite list_lookup_insert_eq by done. rewrite elem_of_cons, <-Hn. naive_solver.
    + rewrite list_lookup_insert_ne by done. rewrite Hn, elem_of_cons. naive_solver.
  - intros j. destruct (decide (i = j)) as [<-|Hne].
    + rewrite list_lookup_insert_eq by done. set_solver.
    + rewrite list_lookup_insert_ne by done. rewrite H0. set_solver.
Qed.

Lemma arena_push ns free n cs :
  arena ns free cs → arena (ns ++ [Some n]) free ((length ns, n) :: cs).
Proof.
  intros [Hnd Hf Hn H0]. split; [|done|..].
  - apply NoDup_cons. split; [|done]. intros ([j m] & Heq & Hin)%list_elem_of_fmap.
    apply Hn, lookup_lt_Some in Hin. simpl in *. lia.
  - intros j m. rewrite elem_of_cons, <-Hn, lookup_snoc_Some. split.
    + naive_solver.
    + intros [[= -> ->]|Hj]; [by right|]. left. split; [by eapply lookup_lt_Some|done].
  - intros j. rewrite <-H0, lookup_snoc_Some. split.
    + naive_solver.
    + intros Hj. left. split; [by eapply lookup_lt_Some|done].
Qed.

Lemma arena_length ns free cs : arena ns free cs → length cs ≤ length ns.
Proof.
  intros [Hnd _ Hn _]. rewrite <-(length_fmap fst cs), <-(length_seq (length ns) 0).
  apply submseteq_length, NoDup_submseteq; [done|]. intros i ([j m] & -> & Hin)%list_elem_of_fmap.
  apply Hn, lookup_lt_Some in Hin. apply elem_of_seq. simpl. lia.
Qed.

(** ** Rules for the primitive operations *)

Lemma St_perm t r a cs cs' : cs ≡ₚ cs' → St t r a cs → St t r a cs'.
Proof. intros Hp (Har & Hr & Ha). split_and!; [|done..]. by eapply arena_perm. Qed.

Lemma St_get t r a cs i n rest :
  St t r a cs → cs ≡ₚ (i, n) :: rest → get_node t i = Some n.
Proof.
  intros (Har & _) Hp. apply (arena_perm _ _ _ _ Hp) in Har.
  unfold get_node. by rewrite (arena_lookup _ _ _ _ _ Har).
Qed.

(** Reads of a known cell. *)
Lemma wp_left t r a cs i n rest Q :
  St t r a cs → cs ≡ₚ (i, n) :: rest → Q (n_left n) → wp (left t i) Q.
Proof. intros HS Hp HQ. unfold left. by rewrite (St_get _ _ _ _ _ _ _ HS Hp). Qed.

Lemma wp_right t r a cs i n rest Q :
  St t r a cs → cs ≡ₚ (i, n) :: rest → Q (n_right n) → wp (right t i) Q.
Proof. intros HS Hp HQ. unfold right. by rewrite (St_get _ _ _ _ _ _ _ HS Hp). Qed.

Lemma wp_parent t r a cs i n rest Q :
  St t r a cs → cs ≡ₚ (i, n) :: rest → Q (n_parent n) → wp (parent t i) Q.
Proof. intros HS Hp HQ. unfold parent. by rewrite (St_get _ _ _ _ _ _ _ HS Hp). Qed.

Lemma wp_node t r a cs i n rest Q :
  St t r a cs → cs ≡ₚ (i, n) :: rest → Q n → wp (get_node t i) Q.
Proof. intros HS Hp HQ. by rewrite (St_get _ _ _ _ _ _ _ HS Hp). Qed.

Lemma wp_upd t r a cs i n rest f Q :
  St t r a cs → cs ≡ₚ (i, n) :: rest →
  (∀ t', St t' r a ((i, f n) :: rest) → Q t') → wp (upd t i f) Q.
Proof.
  intros HS Hp HQ. unfold upd. rewrite (St_get _ _ _ _ _ _ _ HS Hp). apply HQ.
  destruct HS as (Har & Hr & Ha). apply (arena_perm _ _ _ _ Hp) in Har.
  split_and!; [by eapply arena_set|done|].
  rewrite <-Ha. unfold aux. simpl. by rewrite length_insert.
Qed.

Lemma wp_set_parent t r a cs p u q rest Q :
  St t r a cs → cs ≡ₚ cells p u ++ rest →
  (∀ t', St t' r a (cells q u ++ rest) → Q t') → wp (set_parent t (ptr u) q) Q.
Proof.
  intros HS Hp HQ. destruct u as [|c l i k v r']; simpl in *.
  - apply HQ. by eapply St_perm.
  - eapply wp_upd; [done..|]. intros t' HS'. by apply HQ.
Qed.

Lemma wp_set_color t r a cs p u c rest Q :
  St t r a cs → cs ≡ₚ cells p u ++ rest →
  (∀ t', St t' r a (cells p (paint c u) ++ rest) → Q t') → wp (set_color t (ptr u) c) Q.
Proof.
  intros HS Hp HQ. destruct u as [|c' l i k v r']; simpl in *.
  - apply HQ. by eapply St_perm.
  - eapply wp_upd; [done..|]. intros t' HS'. by apply HQ.
Qed.

Lemma color_get t i n : get_node t i = Some n → color t (Some i) = n_color n.
Proof. unfold get_node, color. simpl. destruct (nodes t !! i) as [[|]|]; naive_solver. Qed.

Lemma color_none t : color t None = Black.
Proof. done. Qed.

Lemma color_tree t r a cs p u rest :
  St t r a cs → cs ≡ₚ cells p u ++ rest → color t (ptr u) = tcolor u.
Proof.
  intros HS Hp. destruct u as [|c l i k v r']; simpl in *; [done|].
  by erewrite color_get by (by eapply St_get).
Qed.

(** The child link of the enclosing frame, or the root link, is redirected. *)
Lemma wp_replace_child t a cs C x n rest h Q :
  St t (root_of C (Some x)) a cs → cs ≡ₚ ccells C (Some x) ++ (x, n) :: rest →
  (∀ t', St t' (root_of C h) a (ccells C h ++ (x, n) :: rest) → Q t') →
  wp (replace_child t (ctx_ptr C) x h) Q.
Proof.
  intros HS Hp HQ. destruct C as [|[d c p k v s] C]; simpl in *.
  { apply HQ. destruct HS as (Har & Hr & Ha). split_and!; [|done..].
    by eapply arena_perm. }
  assert (ptr s ≠ Some x) as Hne.
  { destruct HS as ([Hnd _ _ _] & _). rewrite Hp, fmap_app in Hnd.
    apply NoDup_app in Hnd as (_ & Hd & _).
    destruct s as [|c' l i k' v' r']; [done|]. intros [= ->].
    eapply (Hd x); [|simpl; by left]. destruct d; simpl; set_solver. }
  apply (St_perm _ _ _ _ _ Hp) in HS.
  destruct d; simpl in *; unfold left; erewrite (St_get _ _ _ _ _ _ _ HS) by done; simpl;
    [rewrite decide_True by done|rewrite decide_False by done];
    (eapply wp_upd; [exact HS|done|exact HQ]).
Qed.

Lemma root_of_fill C d c i k v s u :
  root_of (Frame d c i k v s :: C) (ptr u) = root_of C (ptr (join d c i k v u s)).
Proof. by destruct d. Qed.

(** Moving the focus one frame up or down. *)
Lemma Zip_fill t a f C u rest : Zip t a (f :: C) u rest ↔ Zip t a C (fill f u) rest.
Proof.
  destruct f as [d c i k v s]. unfold Zip. rewrite root_of_fill. simpl fill.
  split; apply St_perm; destruct d; simpl; solve_perm.
Qed.

Lemma Zip_plug t a D C u rest : Zip t a (D ++ C) u rest ↔ Zip t a C (plug D u) rest.
Proof.
  revert u. induction D as [|f D IH]; intros u; simpl; [done|]. by rewrite Zip_fill, IH.
Qed.

Lemma Zip_rest t a C u rest rest' : rest ≡ₚ rest' → Zip t a C u rest → Zip t a C u rest'.
Proof. intros Hp. apply St_perm. by rewrite Hp. Qed.

End shape.


(** ** Tactics

    [take_cell i l] finds the cell with index [i] in the list expression [l];
    [take_cells u l] finds the cells of the subtree [u].  Both return what is
    left of [l]. *)

Ltac take_cell i l :=
  match l with
  | (i, ?n) :: ?r => constr:((n, r))
  | ?x :: ?r =>
    let p := take_cell i r in
    lazymatch p with (?n, ?r') => constr:((n, x :: r')) end
  | ?a ++ ?b =>
    let p := take_cell i a in
    lazymatch p with (?n, ?a') => constr:((n, a' ++ b)) end
  | ?a ++ ?b =>
    let p := take_cell i b in
    lazymatch p with (?n, ?b') => constr:((n, a ++ b')) end
  end.

Ltac take_cells u l :=
  match l with
  | cells ?q u => let A := type of l in constr:((q, @nil (nat * _) : A))
  | ?x :: ?r =>
    let p := take_cells u r in
    lazymatch p with (?n, ?r') => constr:((n, x :: r')) end
  | ?a ++ ?b =>
    let p := take_cells u a in
    lazymatch p with (?n, ?a') => constr:((n, a' ++ b)) end
  | ?a ++ ?b =>
    let p := take_cells u b in
    lazymatch p with (?n, ?b') => constr:((n, a ++ b')) end
  end.

Ltac take_ccells C l :=
  match l with
  | ccells C ?h => let A := type of l in constr:((h, @nil (nat * _) : A))
  | ?x :: ?r =>
    let p := take_ccells C r in
    lazymatch p with (?n, ?r') => constr:((n, x :: r')) end
  | ?a ++ ?b =>
    let p := take_ccells C a in
    lazymatch p with (?n, ?a') => constr:((n, a' ++ b)) end
  | ?a ++ ?b =>
    let p := take_ccells C b in
    lazymatch p with (?n, ?b') => constr:((n, a ++ b')) end
  end.

(** Read node [i] of [t] with the rule [rule], from the cells in [St t r a cs]. *)
Ltac st_read t i rule :=
  match goal with
  | HS : St t ?r ?a ?cs |- _ =>
    let p := take_cell i cs in
    lazymatch p with
    | (?n, ?rest) =>
      rule r a cs n rest HS;
      cbn [n_key n_value n_parent n_left n_right n_color]
    end
  end.

(** The color of a subtree in the arena. *)
Ltac st_color t u :=
  match goal with
  | HS : St t ?r ?a ?cs |- _ =>
    let p := take_cells u cs in
    lazymatch p with
    | (?q, ?rest) => rewrite (color_tree t r a cs q u rest HS ltac:(solve_perm))
    end
  end.

(** One step of symbolic execution. *)
Ltac st_step :=
  lazymatch goal with
  | |- wp (mbind _ _) _ => apply wp_bind
  | |- wp (upd ?t ?i ?f) _ =>
    match goal with
    | HS : St t ?r ?a ?cs |- _ =>
      let p := take_cell i cs in
      lazymatch p with
      | (?n, ?rest) =>
        let t' := fresh "t" in
        apply (wp_upd t r a cs i n rest f _ HS ltac:(solve_perm));
        clear HS; intros t' HS; simpl in HS; unfold with_left, with_right, with_parent, with_color in HS;
        simpl in HS; try clear t
      end
    end
  | |- wp (set_parent ?t (ptr ?u) ?q) _ =>
    match goal with
    | HS : St t ?r ?a ?cs |- _ =>
      let p := take_cells u cs in
      lazymatch p with
      | (?q', ?rest) =>
        let t' := fresh "t" in
        apply (wp_set_parent t r a cs q' u q rest _ HS ltac:(solve_perm));
        clear HS; intros t' HS; simpl in HS; try clear t
      end
    end
  | |- wp (set_color ?t (ptr ?u) ?q) _ =>
    match goal with
    | HS : St t ?r ?a ?cs |- _ =>
      let p := take_cells u cs in
      lazymatch p with
      | (?q', ?rest) =>
        let t' := fresh "t" in
        apply (wp_set_color t r a cs q' u q rest _ HS ltac:(solve_perm));
        clear HS; intros t' HS; simpl in HS; try clear t
      end
    end
  | |- wp (replace_child ?t (ctx_ptr ?C) ?x ?h) _ =>
    match goal with
    | HS : St t _ ?a ?cs |- _ =>
      let p := take_cell x cs in
      lazymatch p with
      | (?n, ?rest) =>
        let p' := take_ccells C rest in
        lazymatch p' with
        | (_, ?rest') =>
          let t' := fresh "t" in
          apply (wp_replace_child t a cs C x n rest' h _ HS ltac:(solve_perm));
          clear HS; intros t' HS; simpl in HS; try clear t
        end
      end
    end
  | |- wp (set_parent ?t (Some ?i) ?q) _ => change (set_parent t (Some i) q) with (upd t i (with_parent q))
  | |- wp (set_color ?t (Some ?i) ?q) _ => change (set_color t (Some i) q) with (upd t i (with_color q))
  | |- wp (set_parent ?t None ?q) _ => change (set_parent t None q) with (Some t)
  | |- wp (set_color ?t None ?q) _ => change (set_color t None q) with (Some t)
  | |- wp (left ?t ?i) _ => st_read t i ltac:(fun r a cs n rest HS => apply (wp_left t r a cs i n rest _ HS ltac:(solve_perm)))
  | |- wp (right ?t ?i) _ => st_read t i ltac:(fun r a cs n rest HS => apply (wp_right t r a cs i n rest _ HS ltac:(solve_perm)))
  | |- wp (parent ?t ?i) _ => st_read t i ltac:(fun r a cs n rest HS => apply (wp_parent t r a cs i n rest _ HS ltac:(solve_perm)))
  | |- wp (left_of ?t (Some ?i)) _ => change (left_of t (Some i)) with (left t i)
  | |- wp (right_of ?t (Some ?i)) _ => change (right_of t (Some i)) with (right t i)
  | |- wp (get_node ?t ?i) _ => st_read t i ltac:(fun r a cs n rest HS => apply (wp_node t r a cs i n rest _ HS ltac:(solve_perm)))
  | |- wp (Some _) _ => apply wp_ret; cbv beta
  end.

Section rotations.
Context {K V : Type}.
Implicit Types (t : RbRootCached K V) (u s : tree K V) (C : list (frame K V)).

Lemma wp_rotate_left t a C cx l x kx vx cy b y ky vy r rest Q :
  Zip t a C (Node cx l x kx vx (Node cy b y ky vy r)) rest →
  (∀ t', Zip t' a C (Node cy (Node cx l x kx vx b) y ky vy r) rest → Q t') →
  wp (rotate_left t x) Q.
Proof.
  intros HZ HQ. unfold Zip in HZ. simpl in HZ. unfold rotate_left. repeat st_step.
  apply HQ. unfold Zip. simpl. eapply St_perm; [|exact HZ]. solve_perm.
Qed.

Lemma wp_rotate_right t a C cx r x kx vx cy l y ky vy b rest Q :
  Zip t a C (Node cx (Node cy l y ky vy b) x kx vx r) rest →
  (∀ t', Zip t' a C (Node cy l y ky vy (Node cx b x kx vx r)) rest → Q t') →
  wp (rotate_right t x) Q.
Proof.
  intros HZ HQ. unfold Zip in HZ. simpl in HZ. unfold rotate_right. repeat st_step.
  apply HQ. unfold Zip. simpl. eapply St_perm; [|exact HZ]. solve_perm.
Qed.

(** A link into a subtree is not the index of a cell outside it. *)
Lemma St_ptr_ne t r a cs i n q s rest :
  St t r a cs → cs ≡ₚ (i, n) :: cells q s ++ rest → ptr s ≠ Some i.
Proof.
  intros ([Hnd _ _ _] & _) Hp. rewrite Hp in Hnd. simpl in Hnd.
  apply NoDup_cons in Hnd as [Hni _]. destruct s as [|c l j k v r']; [done|].
  intros [= ->]. apply Hni. rewrite fmap_app. simpl. set_solver.
Qed.

Lemma St_idx_ne t r a cs i n j m rest :
  St t r a cs → cs ≡ₚ (i, n) :: (j, m) :: rest → i ≠ j.
Proof.
  intros ([Hnd _ _ _] & _) Hp. rewrite Hp in Hnd. simpl in Hnd.
  apply NoDup_cons in Hnd as [Hni _]. set_solver.
Qed.
End rotations.

(** [ptr s ≠ Some i] for a subtree [s] and a cell [i] of the current state. *)
Ltac st_ptr_ne :=
  match goal with
  | HS : St ?t ?r ?a ?cs |- ptr ?s ≠ Some ?i =>
    let p := take_cell i cs in
    lazymatch p with
    | (?n, ?rest) =>
      let p' := take_cells s rest in
      lazymatch p' with
      | (?q, ?rest') => apply (St_ptr_ne t r a cs i n q s rest' HS ltac:(solve_perm))
      end
    end
  | HS : St ?t ?r ?a ?cs |- Some ?i ≠ Some ?j =>
    let p := take_cell i cs in
    lazymatch p with
    | (?n, ?rest) =>
      let p' := take_cell j rest in
      lazymatch p' with
      | (?m, ?rest') =>
        pose proof (St_idx_ne t r a cs i n j m rest' HS ltac:(solve_perm)); congruence
      end
    end
  end.

(** Decide a test on links or colors in the current state. *)
Ltac st_decide :=
  match goal with
  | |- context [decide (?x = ?x)] => rewrite (decide_True (P := x = x)) by done
  | |- context [decide (?x = Some ?i)] =>
    rewrite (decide_False (P := x = Some i)) by st_ptr_ne
  end.

(** Evaluate a color test. *)
Ltac st_col :=
  match goal with
  | |- context [color ?t (ptr ?u)] => st_color t u
  | |- context [color ?t None] => rewrite (color_none t)
  | HS : St ?t ?r ?a ?cs |- context [color ?t (Some ?i)] =>
    let p := take_cell i cs in
    lazymatch p with
    | (?n, ?rest) =>
      rewrite (color_get t i n (St_get t r a cs i n rest HS ltac:(solve_perm)));
      cbn [n_color]
    end
  end.

Ltac st_exec := repeat (st_col || st_decide || st_step).

(** Refocus the current state on the subtree [u] in the context [C]. *)
Ltac st_zip C u rest :=
  match goal with
  | HS : St ?t ?r ?a ?cs |- _ =>
    let HZ := fresh "HZ" in
    assert (Zip t a C u rest) as HZ by (unfold Zip; simpl; eapply St_perm; [|exact HS]; solve_perm);
    clear HS; rename HZ into HS
  end.

(** Execute the rotation of the goal, at the subtree [u] in the context [C]. *)
Ltac st_rotate C u rest :=
  st_zip C u rest;
  lazymatch goal with
  | HZ : Zip ?t _ _ _ _ |- wp (rotate_left ?t _) _ =>
    let t' := fresh "t" in
    eapply (wp_rotate_left t _ C); [exact HZ|];
    clear HZ; intros t' HZ; unfold Zip in HZ; simpl in HZ; try clear t
  | HZ : Zip ?t _ _ _ _ |- wp (rotate_right ?t _) _ =>
    let t' := fresh "t" in
    eapply (wp_rotate_right t _ C); [exact HZ|];
    clear HZ; intros t' HZ; unfold Zip in HZ; simpl in HZ; try clear t
  end.

(** An equation on a read of the current state. *)
Ltac st_eq := apply wp_eq; st_exec; simpl; try done.

Section fixup.
Context {K V : Type}.
Implicit Types (t : RbRootCached K V) (u s : tree K V) (C : list (frame K V)).

#[local] Abbreviation nil' := (@nil (nat * RbNode K V)).

Lemma Zip_top t a C u rest : Zip t a C u rest → Zip t a [] (plug C u) rest.
Proof. intros HZ. apply Zip_plug. by rewrite app_nil_r. Qed.

(** The loop body of [insert_fixup] with a red uncle: recolor and go up. *)
Lemma wp_insert_step_red t a C dp p kp vp sp dg g kg vg sg u x Q :
  Zip t a (Frame dp Red p kp vp sp :: Frame dg Black g kg vg sg :: C) u [] →
  ptr u = Some x → tcolor sg = Red →
  (∀ t', Zip t' a C (join dg Red g kg vg (join dp Black p kp vp u sp) (paint Black sg)) [] →
         Q (t', g)) →
  wp (insert_fixup_step t x) Q.
Proof.
  intros HZ Hx Hc HQ. destruct sg as [|[] sgl sgi sgk sgv sgr]; [done| |done].
  destruct u as [|uc ul x' kx vx ur]; [done|]. injection Hx as ->.
  unfold Zip in HZ. unfold insert_fixup_step.
  destruct dp, dg; simpl in HZ; st_exec.
  all: apply HQ; unfold Zip; simpl; (eapply St_perm; [|exact HZ]); solve_perm.
Qed.

(** With a black uncle: one or two rotations, and the parent of the node the
    loop continues with is black. *)
Lemma wp_insert_step_black t a C dp p kp vp sp dg g kg vg sg uc ul x kx vx ur Q :
  Zip t a (Frame dp Red p kp vp sp :: Frame dg Black g kg vg sg :: C)
    (Node uc ul x kx vx ur) [] →
  tcolor sg = Black →
  (∀ t' y q,
    Zip t' a [] (ins_fix (Frame dp Red p kp vp sp :: Frame dg Black g kg vg sg :: C)
                 (Node uc ul x kx vx ur)) [] →
    parent t' y = Some q → color t' q = Black → Q (t', y)) →
  wp (insert_fixup_step t x) Q.
Proof.
  intros HZ Hc HQ. unfold Zip in HZ. unfold insert_fixup_step.
  destruct dp, dg; simpl in HZ; simpl ins_fix in HQ; rewrite Hc in HQ; st_exec; rewrite Hc;
    rewrite (decide_False (P := Black = Red)) by done; st_exec.
  - st_rotate C (Node Red (Node Black (Node uc ul x kx vx ur) p kp vp sp) g kg vg sg) constr:(nil').
    st_exec. eapply HQ; [|st_eq|]; [by apply Zip_top|by st_col].
  - st_rotate (Frame DR Black g kg vg sg :: C) (Node Red (Node uc ul x kx vx ur) p kp vp sp) constr:(nil').
    st_exec.
    st_rotate C (Node Red sg g kg vg (Node Black ul x kx vx (Node Red ur p kp vp sp))) constr:(nil').
    st_exec. eapply HQ; [|st_eq|]; [by apply Zip_top|by st_col].
  - st_rotate (Frame DL Black g kg vg sg :: C) (Node Red sp p kp vp (Node uc ul x kx vx ur)) constr:(nil').
    st_exec.
    st_rotate C (Node Red (Node Black (Node Red sp p kp vp ul) x kx vx ur) g kg vg sg) constr:(nil').
    st_exec. eapply HQ; [|st_eq|]; [by apply Zip_top|by st_col].
  - st_rotate C (Node Red sg g kg vg (Node Black sp p kp vp (Node uc ul x kx vx ur))) constr:(nil').
    st_exec. eapply HQ; [|st_eq|]; [by apply Zip_top|by st_col].
Qed.

Lemma ctx_length_cells C h : length C ≤ length (ccells C h).
Proof.
  revert h. induction C as [|[[] c i k v s] C IH]; intros h; simpl; [lia|..];
    rewrite length_app; specialize (IH (Some i)); lia.
Qed.

(** The depth of a position is bounded by the number of slots. *)
Lemma Zip_depth t a C u rest : Zip t a C u rest → length C ≤ length (nodes t).
Proof.
  intros (Har%arena_length & _). rewrite !length_app in Har.
  pose proof (ctx_length_cells C (ptr u)). lia.
Qed.

Lemma tsize_cells p u : length (cells p u) = tsize u.
Proof.
  revert p. induction u as [|c l IHl i k v r IHr]; intros p; simpl; [done|].
  by rewrite length_app, IHl, IHr.
Qed.

Lemma Zip_size t a C u rest : Zip t a C u rest → length C + tsize u ≤ length (nodes t).
Proof.
  intros (Har%arena_length & _). rewrite !length_app, tsize_cells in Har.
  pose proof (ctx_length_cells C (ptr u)). lia.
Qed.

Lemma wp_insert_fixup_loop fuel t a C u x n :
  Zip t a C u [] → ptr u = Some x → cok C n → length C < fuel →
  wp (insert_fixup_loop fuel t x) (λ t', Zip t' a [] (ins_fix C u) []).
Proof.
  revert t C u x n. induction fuel as [|fuel IH]; intros t C u x n HZ Hx HC Hlen; [lia|].
  destruct u as [|uc ul x' kx vx ur]; [done|]. injection Hx as ->. simpl insert_fixup_loop.
  pose proof HZ as HZ0. unfold Zip in HZ. simpl in HZ.
  destruct C as [|[dp [] p kp vp sp] C].
  - simpl in HZ. st_exec. rewrite decide_False by done. st_exec. done.
  - destruct C as [|[dg [] g kg vg sg] C]; [by destruct HC as (_ & _ & [] & _)..|].
    destruct HC as (_ & _ & _ & _ & HC). simpl in Hlen.
    assert (wp (parent t x) (λ p', p' = Some p)) as Hp%wp_eq by (destruct dp; simpl in HZ; by st_exec).
    assert (color t (Some p) = Red) as Hcp by (destruct dp; simpl in HZ; by st_col).
    rewrite Hp. apply wp_bind, wp_ret. rewrite Hcp, decide_True by done.
    apply wp_bind. simpl ins_fix. destruct (tcolor sg) eqn:Hsg.
    + eapply wp_insert_step_red; [exact HZ0|done|done|]. intros t' HZ'.
      eapply IH; [exact HZ'|by destruct dg|exact HC|lia].
    + eapply wp_insert_step_black; [exact HZ0|done|]. intros t' y q HZ' Hq Hc.
      destruct fuel as [|fuel]; [lia|]. simpl insert_fixup_loop. rewrite Hq.
      apply wp_bind, wp_ret. rewrite Hc, decide_False by done. apply wp_ret.
      simpl in HZ'. by rewrite Hsg in HZ'.
  - assert (wp (parent t x) (λ p', p' = Some p)) as Hp%wp_eq by (destruct dp; simpl in HZ; by st_exec).
    assert (color t (Some p) = Black) as Hcp by (destruct dp; simpl in HZ; by st_col).
    rewrite Hp. apply wp_bind, wp_ret. rewrite Hcp, decide_False by done. apply wp_ret.
    by apply Zip_top in HZ0.
Qed.

Lemma wp_paint_root t a u :
  Zip t a [] u [] →
  wp (match root t with Some r => upd t r (with_color Black) | None => Some t end)
     (λ t', Zip t' a [] (paint Black u) []).
Proof.
  intros HZ. pose proof HZ as (_ & Hr & _). simpl in Hr. rewrite Hr.
  destruct u as [|uc ul x kx vx ur]; simpl; [exact HZ|].
  unfold Zip in HZ. simpl in HZ. st_exec. exact HZ.
Qed.

(** [insert_fixup] implements [ins_fix] followed by painting the root. *)
Lemma wp_insert_fixup t a C u x n :
  Zip t a C u [] → ptr u = Some x → cok C n →
  wp (insert_fixup t x) (λ t', Zip t' a [] (paint Black (ins_fix C u)) []).
Proof.
  intros HZ Hx HC. unfold insert_fixup. apply wp_bind.
  pose proof (Zip_depth _ _ _ _ _ HZ). eapply wp_mono.
  { eapply wp_insert_fixup_loop; [done..|]. unfold loop_fuel. lia. }
  intros t' HZ'. by apply wp_paint_root.
Qed.

(** What one iteration of [delete_fixup] leaves behind: either the deficit moved
    to the parent, or the tree is repaired and the loop is over. *)
Definition del_post a C (w : tree K V + tree K V)
    (res : RbRootCached K V * option nat * option nat) : Prop :=
  let '(t', node', par') := res in
  match w with
  | inl w => Zip t' a C w [] ∧ node' = ptr w ∧ par' = ctx_ptr C
  | inr w => Zip t' a [] (plug C w) [] ∧ node' = ptr (plug C w) ∧ par' = None
  end.

Lemma ptr_plug C u : ptr (plug C u) = root_of C (ptr u).
Proof.
  revert u. induction C as [|[[] c i k v s] C IH]; intros u; simpl; [done|..]; by rewrite IH.
Qed.

Lemma del_post_done a C w t :
  Zip t a C w [] → del_post a C (inr w) (t, root t, None).
Proof.
  intros HZ. split_and!; [by apply Zip_top| |done]. rewrite ptr_plug. by destruct HZ as (_ & -> & _).
Qed.

Lemma wp_delete_fixup_left t a C c p kp vp u sl si ks vs sr :
  Zip t a (Frame DL c p kp vp (Node Black sl si ks vs sr) :: C) u [] →
  wp (delete_fixup_left t p (Some si))
     (del_post a C (del_black DL c p kp vp u (Node Black sl si ks vs sr))).
Proof.
  intros HZ. unfold Zip in HZ. simpl in HZ. unfold delete_fixup_left.
  st_exec. simpl del_black. destruct (tcolor sr) eqn:Hsr.
  - rewrite (decide_False (P := _ ∧ _)) by naive_solver.
    destruct sr as [|[] srl sri srk srv srr]; [done| |done]. simpl in HZ.
    rewrite decide_False by done. st_exec.
    st_rotate C (Node Black u p kp vp (Node c sl si ks vs (Node Black srl sri srk srv srr))) constr:(nil').
    st_exec. by apply del_post_done.
  - destruct sl as [|[] nl ni kn vn nr].
    + rewrite decide_True by done. simpl in HZ. st_exec. split_and!; [|done..].
      unfold Zip. simpl. eapply St_perm; [|exact HZ]. solve_perm.
    + rewrite (decide_False (P := _ ∧ _)) by naive_solver. rewrite decide_True by done.
      simpl in HZ. simpl ptr. st_exec.
      st_rotate (Frame DR c p kp vp u :: C) (Node Red (Node Black nl ni kn vn nr) si ks vs sr) constr:(nil').
      st_exec.
      st_rotate C (Node Black u p kp vp (Node c nl ni kn vn (Node Black nr si ks vs sr))) constr:(nil').
      st_exec. by apply del_post_done.
    + rewrite decide_True by done. simpl in HZ. st_exec. split_and!; [|done..].
      unfold Zip. simpl. eapply St_perm; [|exact HZ]. solve_perm.
Qed.

Lemma wp_delete_fixup_right t a C c p kp vp u sl si ks vs sr :
  Zip t a (Frame DR c p kp vp (Node Black sl si ks vs sr) :: C) u [] →
  wp (delete_fixup_right t p (Some si))
     (del_post a C (del_black DR c p kp vp u (Node Black sl si ks vs sr))).
Proof.
  intros HZ. unfold Zip in HZ. simpl in HZ. unfold delete_fixup_right.
  st_exec. simpl del_black. destruct (tcolor sl) eqn:Hsl.
  - rewrite (decide_False (P := _ ∧ _)) by naive_solver.
    destruct sl as [|[] sll sli slk slv slr]; [done| |done]. simpl in HZ.
    rewrite decide_False by done. st_exec.
    st_rotate C (Node Black (Node c (Node Black sll sli slk slv slr) si ks vs sr) p kp vp u) constr:(nil').
    st_exec. by apply del_post_done.
  - destruct sr as [|[] nl ni kn vn nr].
    + rewrite decide_True by done. simpl in HZ. st_exec. split_and!; [|done..].
      unfold Zip. simpl. eapply St_perm; [|exact HZ]. solve_perm.
    + rewrite (decide_False (P := _ ∧ _)) by naive_solver. rewrite decide_True by done.
      simpl in HZ. simpl ptr. st_exec.
      st_rotate (Frame DL c p kp vp u :: C) (Node Red sl si ks vs (Node Black nl ni kn vn nr)) constr:(nil').
      st_exec.
      st_rotate C (Node Black (Node c (Node Black sl si ks vs nl) ni kn vn nr) p kp vp u) constr:(nil').
      st_exec. by apply del_post_done.
    + rewrite decide_True by done. simpl in HZ. st_exec. split_and!; [|done..].
      unfold Zip. simpl. eapply St_perm; [|exact HZ]. solve_perm.
Qed.

Lemma St_trees_ne t r a cs q u q' s rest :
  St t r a cs → cs ≡ₚ cells q u ++ cells q' s ++ rest → s ≠ Leaf → ptr u ≠ ptr s.
Proof.
  intros HS Hp Hs. destruct u as [|uc ul ui uk uv ur]; simpl in *; [by destruct s|].
  apply not_eq_sym. eapply (St_ptr_ne _ _ _ _ ui _ q' s (cells (Some ui) ul ++ cells (Some ui) ur ++ rest)); [exact HS|]. rewrite Hp. simpl. solve_perm.
Qed.

Lemma wp_delete_fixup_step t a d c p kp vp s C u n :
  Zip t a (Frame d c p kp vp s :: C) u [] → is_rb s (S n) →
  wp (delete_fixup_step t (ptr u) p)
     (match s with
      | Node Red _ si ks vs _ =>
        del_post a (Frame d Black si ks vs (sub (flip d) s) :: C) (del_black d Red p kp vp u (sub d s))
      | _ => del_post a C (del_black d c p kp vp u s)
      end).
Proof.
  intros HZ Hs. pose proof HZ as HZ0. unfold Zip in HZ. unfold delete_fixup_step.
  destruct s as [|sc sl si ks vs sr]; [done|]. destruct d; simpl in HZ.
  - st_exec. destruct sc.
    + rewrite decide_True by done. st_exec.
      st_rotate C (Node Red u p kp vp (Node Black sl si ks vs sr)) constr:(nil').
      st_exec. destruct sl as [|[] nl ni kn vn nr]; simpl in Hs; [naive_solver..|].
      apply (wp_delete_fixup_left _ _ (Frame DL Black si ks vs sr :: C)).
      unfold Zip. simpl. eapply St_perm; [|exact HZ]. simpl. solve_perm.
    + rewrite decide_False by done. st_exec. by apply wp_delete_fixup_left.
  - apply wp_bind. st_step. rewrite decide_False.
    2:{ intros Heq. revert Heq.
        apply (St_trees_ne _ _ _ _ (Some p) u (Some p) (Node sc sl si ks vs sr)
          ((p, MkNode kp vp (ctx_ptr C) (Some si) (ptr u) c) :: ccells C (Some p)) HZ); [|done].
        simpl. solve_perm. }
    st_exec. destruct sc.
    + rewrite decide_True by done. st_exec.
      st_rotate C (Node Red (Node Black sl si ks vs sr) p kp vp u) constr:(nil').
      st_exec. destruct sr as [|[] nl ni kn vn nr]; simpl in Hs; [naive_solver..|].
      apply (wp_delete_fixup_right _ _ (Frame DR Black si ks vs sl :: C)).
      unfold Zip. simpl. eapply St_perm; [|exact HZ]. simpl. solve_perm.
    + rewrite decide_False by done. st_exec. by apply wp_delete_fixup_right.
Qed.

Lemma Zip_not_root t a f C u rest : Zip t a (f :: C) u rest → ptr u ≠ root t.
Proof.
  intros ([Hnd _ _ _] & -> & _). rewrite !fmap_app in Hnd.
  apply NoDup_app in Hnd as (_ & Hd & _).
  assert (∃ j, root_of (f :: C) (ptr u) = Some j ∧ j ∈ (ccells (f :: C) (ptr u)).*1)
    as (j & -> & Hj).
  { clear Hd. generalize (ptr u). revert f. induction C as [|g C IH]; intros [d c i k v s] h.
    - exists i. split; [done|]. destruct d; simpl; set_solver.
    - destruct (IH g (Some i)) as (j & Hr & Hj). exists j. split; [exact Hr|].
      destruct d; simpl in *; rewrite fmap_app; set_solver. }
  intros Hu. destruct u as [|uc ul x kx vx ur]; [done|]. injection Hu as ->.
  apply (Hd j Hj). simpl. set_solver.
Qed.

Lemma delete_loop_exit_red fuel t a C u par :
  Zip t a C u [] → tcolor u = Red →
  delete_fixup_loop (S fuel) t (ptr u) par = Some (t, ptr u).
Proof.
  intros HZ Hc. simpl. rewrite decide_False; [done|]. intros [_ Hb].
  rewrite (color_tree _ _ _ _ (ctx_ptr C) u (ccells C (ptr u)) HZ) in Hb by solve_perm. congruence.
Qed.

Lemma delete_loop_exit_root fuel t par :
  delete_fixup_loop (S fuel) t (root t) par = Some (t, root t).
Proof. simpl. rewrite decide_False by naive_solver. done. Qed.

Lemma del_fix_red C u : tcolor u = Red → del_fix C u = plug C (paint Black u).
Proof. intros Hc. destruct C as [|[d c p kp vp s] C]; simpl; [done|]. by rewrite Hc. Qed.

Lemma wp_delete_fixup_loop fuel t a C u n :
  Zip t a C u [] → is_rb u n → cok C (S n) → length C + 1 < fuel →
  wp (delete_fixup_loop fuel t (ptr u) (ctx_ptr C)) (λ '(t', node'),
    ∃ D w, Zip t' a D w [] ∧ node' = ptr w ∧ del_fix C u = plug D (paint Black w)).
Proof.
  revert t C u n. induction fuel as [|fuel IH]; intros t C u n HZ Hu HC Hlen; [lia|].
  destruct fuel as [|fuel]; [lia|].
  destruct (tcolor u) eqn:Huc.
  { erewrite delete_loop_exit_red by done. exists C, u. by rewrite del_fix_red. }
  destruct C as [|[d c p kp vp s] C].
  { assert (ptr u = root t) as Hroot by (by destruct HZ as (_ & -> & _)).
    rewrite Hroot, delete_loop_exit_root. exists [], u. by rewrite <-Hroot. }
  assert (is_rb s (S n)) as Hs by (destruct c; naive_solver).
  assert (color t (ptr u) = Black) as Hcu.
  { rewrite (color_tree _ _ _ _ (ctx_ptr (Frame d c p kp vp s :: C)) u
      (ccells (Frame d c p kp vp s :: C) (ptr u)) HZ); [done|]. solve_perm. }
  change (delete_fixup_loop (S (S fuel))) with
    (λ t (node par : option nat),
      if decide (node ≠ root t ∧ color t node = Black) then
        match par with
        | None => Some (t, node)
        | Some parent_index =>
          '(t, node, par) ← delete_fixup_step t node parent_index;
          delete_fixup_loop (S fuel) t node par
        end
      else @Some (RbRootCached K V * option nat) (t, node)). cbv beta.
  rewrite decide_True by (split; [by eapply Zip_not_root|done]). simpl ctx_ptr. cbv iota.
  apply wp_bind. eapply wp_mono; [by eapply wp_delete_fixup_step|].
  intros [[t' node'] par'] Hpost. simpl in Hlen.
  simpl del_fix. rewrite Huc. destruct s as [|[] sl si ks vs sr]; [done|..].
  - assert (is_rb (sub d (Node Red sl si ks vs sr)) (S n) ∧
      tcolor (sub d (Node Red sl si ks vs sr)) = Black) as [Hn Hnc]
      by (destruct d; simpl in *; naive_solver).
    pose proof (del_black_rb d Red p kp vp u _ n Hu Huc Hn Hnc) as Hb.
    destruct (del_black d Red p kp vp u _) as [w|w]; destruct Hpost as (HZ' & -> & ->).
    + destruct Hb as (_ & Hwc & _). erewrite delete_loop_exit_red by done.
      by exists (Frame d Black si ks vs (sub (flip d) (Node Red sl si ks vs sr)) :: C), w.
    + replace (ptr (plug _ w)) with (root t') by (by destruct HZ' as (_ & -> & _)).
      rewrite delete_loop_exit_root.
      exists [], (plug (Frame d Black si ks vs (sub (flip d) (Node Red sl si ks vs sr)) :: C) w).
      split_and!; [done| |done]. by destruct HZ' as (_ & -> & _).
  - pose proof (del_black_rb d c p kp vp u (Node Black sl si ks vs sr) n Hu Huc Hs eq_refl) as Hb.
    destruct (del_black d c p kp vp u _) as [w|w]; destruct Hpost as (HZ' & -> & ->).
    + destruct Hb as (_ & Hwc & Hw). destruct c.
      * erewrite delete_loop_exit_red by done. exists C, w. by rewrite del_fix_red.
      * destruct HC as [_ HC]. eapply (IH t' C w (S n)); [done|by apply Hw|done|lia].
    + replace (ptr (plug _ w)) with (root t') by (by destruct HZ' as (_ & -> & _)).
      rewrite delete_loop_exit_root. exists [], (plug C w).
      split_and!; [done| |done]. by destruct HZ' as (_ & -> & _).
Qed.

(** [delete_fixup] implements [del_fix]. *)
Lemma wp_delete_fixup t a C u n :
  Zip t a C u [] → is_rb u n → cok C (S n) →
  wp (delete_fixup t (ptr u) (ctx_ptr C)) (λ t', Zip t' a [] (del_fix C u) []).
Proof.
  intros HZ Hu HC. unfold delete_fixup. apply wp_bind.
  pose proof (Zip_depth _ _ _ _ _ HZ). eapply wp_mono.
  { eapply wp_delete_fixup_loop; [done..|]. unfold loop_fuel. lia. }
  intros [t' node'] (D & w & HZ' & -> & ->).
  eapply (wp_set_color t' _ _ _ (ctx_ptr D) w Black (ccells D (ptr w))); [exact HZ'|solve_perm|].
  intros t'' HS. apply Zip_top. unfold Zip.
  replace (ptr (paint Black w)) with (ptr w) by (by destruct w).
  eapply St_perm; [|exact HS]. solve_perm.
Qed.

End fixup.

Section unlink.
Context {K V : Type}.
Implicit Types (t : RbRootCached K V) (u s : tree K V) (C D : list (frame K V)).

#[local] Abbreviation nil' := (@nil (nat * RbNode K V)).

(** The leftmost node of a tree. *)
Fixpoint min_idx u : option nat :=
  match u with
  | Leaf => None
  | Node _ Leaf i _ _ _ => Some i
  | Node _ l _ _ _ _ => min_idx l
  end.

Lemma head_entries_min u : fst <$> head (entries u) = min_idx u.
Proof.
  induction u as [|c l IHl i k v r _]; [done|]. destruct l as [|cl ll li kl vl lr]; [done|].
  change (min_idx (Node c (Node cl ll li kl vl lr) i k v r)) with (min_idx (Node cl ll li kl vl lr)).
  rewrite <-IHl. simpl. destruct (entries ll); done.
Qed.

(** The leftmost node sits in a context of left frames only. *)
Lemma min_split u :
  u ≠ Leaf → ∃ D cm m km vm rm,
    u = plug D (Node cm Leaf m km vm rm) ∧ min_idx u = Some m ∧ before D = [].
Proof.
  induction u as [|c l IHl i k v r _]; [done|]. intros _.
  destruct l as [|cl ll li kl vl lr].
  - by exists [], c, i, k, v, r.
  - destruct IHl as (D & cm & m & km & vm & rm & Hu & Hm & HD); [done|].
    exists (D ++ [Frame DL c i k v r]), cm, m, km, vm, rm. rewrite plug_app, <-Hu.
    split_and!; [done|done|]. by rewrite before_app.
Qed.

Lemma wp_minimum_loop fuel t a C u x rest :
  Zip t a C u rest → ptr u = Some x → tsize u < fuel →
  wp (minimum_loop fuel t x) (λ m, min_idx u = Some m).
Proof.
  revert C u x. induction fuel as [|fuel IH]; intros C u x HZ Hx Hf; [lia|].
  destruct u as [|c l x' k v r]; [done|]. injection Hx as ->. simpl minimum_loop.
  pose proof HZ as HZ0. unfold Zip in HZ. simpl in HZ. st_exec.
  destruct l as [|cl ll li kl vl lr]; simpl ptr; [by apply wp_ret|].
  apply (IH (Frame DL c x k v r :: C) (Node cl ll li kl vl lr)); [by apply Zip_fill|done|simpl in *; lia].
Qed.

Lemma wp_minimum t a C u x rest :
  Zip t a C u rest → ptr u = Some x → wp (minimum t x) (λ m, min_idx u = Some m).
Proof.
  intros HZ Hx. eapply wp_minimum_loop; [done..|].
  apply Zip_size in HZ. unfold loop_fuel. lia.
Qed.

(** What [unlink] leaves behind: the target is detached (its cell is [rest]),
    and the hole to rebalance is [w] in [D]. *)
Definition unlink_post a C (c : RbColor) l x (k : K) (v : V) r
    (res : RbRootCached K V * RbColor * option nat * option nat) : Prop :=
  let '(t', removed_color, replacement, replacement_parent) := res in
  ∃ D w n, Zip t' a D w [(x, n)] ∧ n_value n = v ∧
    replacement = ptr w ∧ replacement_parent = ctx_ptr D ∧
    entries (plug D w) = before C ++ entries l ++ entries r ++ after C ∧
    (∀ h, is_rb (Node c l x k v r) h → cok C h → (c = Red → hd_black C) →
      match removed_color with
      | Black => ∃ g, is_rb w g ∧ cok D (S g)
      | Red => ∃ g, is_rb w g ∧ cok D g ∧ tcolor w = Black
      end).

Lemma cok_reindex D d c i j k k' (v v' : V) s C n :
  cok (D ++ Frame d c i k v s :: C) n → cok (D ++ Frame d c j k' v' s :: C) n.
Proof.
  revert n. induction D as [|[d' [] i' k'' v'' s'] D IH]; intros n; simpl; [done|..].
  - intros (? & ? & Hhd & HC). split_and!; [done..| |by apply IH]. destruct D; done.
  - intros (? & HC). split; [done|by apply IH].
Qed.

Lemma ctx_ptr_app_cons f D C : ctx_ptr (f :: D ++ C) = ctx_ptr (f :: D).
Proof. by destruct f. Qed.

Lemma ccells_elem D d c x k v s C h :
  x ∈ (ccells (D ++ Frame d c x k v s :: C) h).*1.
Proof.
  revert h. induction D as [|[d' c' i k' v' s'] D IH]; intros h.
  - destruct d; simpl; by left.
  - specialize (IH (Some i)). destruct d'; simpl; rewrite fmap_app; right; apply elem_of_app; by right.
Qed.

Lemma Zip_ctx_ne t a f D d c x k v s C u rest :
  Zip t a (f :: D ++ Frame d c x k v s :: C) u rest → ctx_ptr (f :: D) ≠ Some x.
Proof.
  destruct f as [d' c' i k' v' s']. intros ([Hnd _ _ _] & _) [= ->].
  pose proof (ccells_elem D d c x k v s C (Some x)) as Hx.
  destruct d'; simpl in Hnd; apply NoDup_cons in Hnd as [Hni _]; apply Hni;
    rewrite !fmap_app; set_solver.
Qed.

Lemma wp_unlink_leaf t a C c l x k v r :
  Zip t a C (Node c l x k v r) [] → l = Leaf ∨ r = Leaf →
  wp (unlink t x) (unlink_post a C c l x k v r).
Proof.
  intros HZ Hleaf. unfold Zip in HZ. simpl in HZ. unfold unlink, transplant.
  assert (∀ w t' n, l = Leaf ∧ w = r ∨ r = Leaf ∧ w = l → Zip t' a C w [(x, n)] → n_value n = v →
    unlink_post a C c l x k v r (t', c, ptr w, ctx_ptr C)) as Hpost.
  { intros w t' n Hw HZ' Hn. exists C, w, n. split_and!; [done..| |].
    - rewrite entries_plug. destruct Hw as [[-> ->]|[-> ->]]; by rewrite ?app_nil_r.
    - intros h Hrb HC Hc. destruct c; simpl in Hrb.
      + exists h. destruct Hw as [[-> ->]|[-> ->]]; naive_solver.
      + destruct h as [|h]; [done|]. exists h. destruct Hw as [[-> ->]|[-> ->]]; naive_solver. }
  apply wp_bind. st_step. apply wp_bind. st_step.
  destruct l as [|lc ll li lk lv lr]; simpl ptr.
  - st_exec. eapply (Hpost r _ (MkNode k v (ctx_ptr C) None (ptr r) c)); [by left| |done].
    unfold Zip. eapply St_perm; [|exact HZ]. simpl. solve_perm.
  - destruct Hleaf as [Hl| ->]; [done|]. simpl ptr. simpl in HZ. st_exec.
    eapply (Hpost (Node lc ll li lk lv lr) _ (MkNode k v (ctx_ptr C) (Some li) None c)); [by right| |done].
    unfold Zip. eapply St_perm; [|exact HZ]. simpl. solve_perm.
Qed.

(** The moved node takes the place of the target: the spliced context [D] is
    unchanged, the target's frame gets the moved node's index and entry. *)
Lemma unlink_post_moved t a C c l x k v r D cm m km vm rm n :
  r = plug D (Node cm Leaf m km vm rm) → before D = [] → n_value n = v →
  Zip t a C (Node c l m km vm (plug D rm)) [(x, n)] →
  unlink_post a C c l x k v r (t, cm, ptr rm, ctx_ptr (D ++ Frame DR c m km vm l :: C)).
Proof.
  intros -> HD Hn HZ. exists (D ++ Frame DR c m km vm l :: C), rm, n. split_and!; [|done..| |].
  - rewrite Zip_plug, Zip_fill. simpl fill. exact HZ.
  - rewrite plug_app. simpl. rewrite !entries_plug. simpl. rewrite !entries_plug, HD. simpl.
    rewrite <-!app_assoc. simpl. by rewrite <-?app_assoc.
  - intros h Hrb HC Hc.
    assert (∃ g, is_rb (Node cm Leaf m km vm rm) g ∧ cok (D ++ Frame DR c m km vm l :: C) g ∧
      (cm = Red → hd_black (D ++ Frame DR c m km vm l :: C))) as (g & Hm & HD' & Hhd).
    { destruct (plug_rb C (Node c l x k v (plug D (Node cm Leaf m km vm rm))) h) as [q Hq];
        [done..|destruct c; simpl; naive_solver|].
      assert (tcolor (plug C (Node c l x k v (plug D (Node cm Leaf m km vm rm)))) = Black) as Hb.
      { destruct C as [|f C]; [destruct c; simpl; naive_solver|by eapply cok_root_black]. }
      change (Node c l x k v (plug D (Node cm Leaf m km vm rm))) with
        (fill (Frame DR c x k v l) (plug D (Node cm Leaf m km vm rm))) in Hq, Hb.
      change (plug C (fill (Frame DR c x k v l) ?u)) with (plug (Frame DR c x k v l :: C) u) in Hq, Hb.
      rewrite <-plug_app in Hq, Hb.
      destruct (plug_rb_inv _ _ _ Hq Hb) as (g & Hm & HD' & Hhd).
      exists g. split_and!; [done|by eapply cok_reindex|].
      intros ->. specialize (Hhd eq_refl). destruct D; [done|]. exact Hhd. }
    destruct cm; simpl in Hm.
    + exists g. naive_solver.
    + destruct g as [|g]; [done|]. exists g. naive_solver.
Qed.

Lemma wp_unlink_both t a C c l x k v r :
  Zip t a C (Node c l x k v r) [] → l ≠ Leaf → r ≠ Leaf →
  wp (unlink t x) (unlink_post a C c l x k v r).
Proof.
  intros HZ Hl Hr. destruct (min_split r Hr) as (D & cm & m & km & vm & rm & Heq & Hm & HD).
  destruct (ptr l) as [li|] eqn:Hpl; [|by destruct l].
  destruct (ptr r) as [ri|] eqn:Hpr; [|by destruct r].
  assert (wp (minimum t ri) (λ i, i = m)) as Hmin%wp_eq.
  { eapply wp_mono; [eapply (wp_minimum t a (Frame DR c x k v l :: C) r); [by apply Zip_fill|done]|].
    simpl. congruence. }
  assert (Zip t a (D ++ Frame DR c x k v l :: C) (Node cm Leaf m km vm rm) []) as HZm.
  { rewrite Zip_plug, Zip_fill. simpl fill. by rewrite <-Heq. }
  unfold unlink, transplant.
  assert (left t x = Some (Some li) ∧ right t x = Some (Some ri)) as [-> ->].
  { unfold Zip in HZ. simpl in HZ. rewrite Hpl, Hpr in HZ. split; st_eq. }
  do 2 (apply wp_bind, wp_ret). rewrite Hmin. apply wp_bind, wp_ret.
  destruct D as [|f D].
  - simpl in Heq. subst r. injection Hpr as <-. unfold Zip in HZ. simpl in HZ. clear HZm Hmin.
    st_exec.
    apply (unlink_post_moved _ a C c l x k v _ [] cm m km vm rm
      (MkNode k v (ctx_ptr C) (ptr l) (Some m) c)); [done..|].
    unfold Zip. eapply St_perm; [|exact HZ]. simpl. solve_perm.
  - clear HZ Hmin. assert (ctx_ptr (f :: D) ≠ Some x) as Hne by (by eapply Zip_ctx_ne).
    assert (ctx_ptr ((f :: D) ++ Frame DR c x k v l :: C) = ctx_ptr (f :: D)) as Hcp
      by apply ctx_ptr_app_cons.
    remember ((f :: D) ++ Frame DR c x k v l :: C) as F eqn:HF. rewrite <-Hcp in Hne.
    unfold Zip in HZm. simpl in HZm.
    apply wp_bind. st_step. st_col. apply wp_bind. st_step.
    rewrite decide_False by done. st_exec.
    assert (Zip t a C (Node c l x k v (plug (f :: D) rm))
      [(m, MkNode km vm (ctx_ptr F) None (ptr rm) cm)]) as HZ.
    { change (Node c l x k v (plug (f :: D) rm)) with (fill (Frame DR c x k v l) (plug (f :: D) rm)).
      rewrite <-Zip_fill, <-Zip_plug, <-HF. unfold Zip.
      eapply St_perm; [|exact HZm]. solve_perm. }
    clear HZm HF. remember (plug (f :: D) rm) as w eqn:Hw. unfold Zip in HZ. simpl in HZ. st_exec.
    rewrite Hcp. change (ctx_ptr (f :: D)) with (ctx_ptr ((f :: D) ++ Frame DR c m km vm l :: C)).
    apply (unlink_post_moved _ a C c l x k v _ (f :: D) cm m km vm rm
      (MkNode k v (ctx_ptr C) (ptr l) (ptr w) c)); [done..|].
    rewrite <-Hw. unfold Zip. eapply St_perm; [|exact HZ]. simpl. solve_perm.
Qed.

(** [unlink] detaches the target, whatever its children. *)
Lemma wp_unlink t a C c l x k v r :
  Zip t a C (Node c l x k v r) [] → wp (unlink t x) (unlink_post a C c l x k v r).
Proof.
  intros HZ. destruct l, r; try (by apply wp_unlink_leaf; auto). by apply wp_unlink_both.
Qed.


End unlink.
