(* ===== verification/RbTree.v ===== *)
(** * The red-black tree as an ordered queue

    The invariant of [RbRootCached] ([rb_inv]) and the refinement of its public
    operations to a sorted list of (key, value) pairs ([models]): [insert] puts
    the entry after all smaller or equal keys, [remove] takes out an entry with
    the key, [first]/[first_key]/[pop_first] work at the head of the list, and
    [remove_where] removes an entry satisfying the predicate.  All operations
    are total on well-formed trees: no [unwrap] fails and every loop ends. *)

From S2P Require Import Prelude OrderedQueue RbArena RbZipper RbShape.

Section rbtree.
Context {K V : Type} `{RustOrd K}.
Implicit Types (t : RbRootCached K V) (u s : tree K V) (C D : list (frame K V)) (k : K) (v : V).

Definition entry_le (e1 e2 : nat * (K * V)) : Prop := ord_le e1.2.1 e2.2.1.

(** The invariant of a tree in memory, with its shape [u]. *)
Record rb_inv t u : Prop := {
  inv_zip : Zip t (aux t) [] u [];
  inv_rb : ∃ n, is_rb u n;
  inv_black : tcolor u = Black;
  inv_sorted : StronglySorted entry_le (entries u);
  inv_leftmost : leftmost t = min_idx u;
  inv_len : len t = tsize u;
}.

(** [t] is a well-formed tree that holds the entries [l], in key order. *)
Definition models t (l : list (K * V)) : Prop := ∃ u, rb_inv t u ∧ l = (entries u).*2.

(** ** Searching *)

(** The frame above the hole agrees with the comparison made there. *)
Definition last_turn k D : Prop :=
  match D with
  | [] => True
  | Frame DL _ _ kp _ _ :: _ => ord_lt k kp = true
  | Frame DR _ _ kp _ _ :: _ => ord_lt k kp = false
  end.

Lemma wp_insert_descend fuel t a C u rest k :
  Zip t a C u rest → tsize u ≤ fuel → StronglySorted entry_le (entries u) →
  Forall (λ e, ord_le e.2.1 k) (before C) → Forall (λ e, ord_lt k e.2.1 = true) (after C) →
  last_turn k C →
  wp (insert_descend fuel t k (ptr u) (ctx_ptr C)) (λ par, ∃ D,
    par = ctx_ptr D ∧ Zip t a D Leaf rest ∧ plug D Leaf = plug C u ∧ last_turn k D ∧
    Forall (λ e, ord_le e.2.1 k) (before D) ∧ Forall (λ e, ord_lt k e.2.1 = true) (after D)).
Proof.
  revert C u. induction fuel as [|fuel IH]; intros C u HZ Hf Hs Hb Ha Hl.
  { destruct u; simpl in *; [|lia]. by exists C. }
  destruct u as [|c l x kx vx r]; simpl ptr; simpl insert_descend; [by exists C|].
  pose proof HZ as HZ0. unfold Zip in HZ. simpl in HZ. apply wp_bind. st_step.
  simpl in Hf, Hs. apply StronglySorted_app in Hs as (Hlr & Hsl & Hsr).
  apply StronglySorted_inv in Hsr as [Hsr Hxr]. destruct (ord_lt k kx) eqn:Hk.
  - change (Some x) with (ctx_ptr (Frame DL c x kx vx r :: C)).
    eapply wp_mono; [apply IH|]; [by apply Zip_fill|lia|done|done| |done|done].
    simpl. constructor; [done|]. apply Forall_app. split; [|done].
    eapply Forall_impl; [exact Hxr|]. intros e He. by eapply ord_lt_le_trans.
  - change (Some x) with (ctx_ptr (Frame DR c x kx vx l :: C)).
    eapply wp_mono; [apply IH|]; [by apply Zip_fill|lia|done| |done|done|done].
    simpl. rewrite !Forall_app. split_and!; [done| |].
    + apply ord_lt_false in Hk. apply Forall_forall. intros e He.
      etrans; [|exact Hk]. apply (Hlr e (x, (kx, vx))); set_solver.
    + constructor; [|done]. by apply ord_lt_false.
Qed.

Lemma wp_remove_search fuel t a C u rest k :
  Zip t a C u rest → tsize u < fuel → StronglySorted entry_le (entries u) →
  wp (remove_search fuel t k (ptr u)) (λ res,
    match res with
    | None => Forall (λ e, e.2.1 ≠ k) (entries u)
    | Some x => ∃ D c l v r, Zip t a D (Node c l x k v r) rest ∧
                             plug D (Node c l x k v r) = plug C u
    end).
Proof.
  revert C u. induction fuel as [|fuel IH]; intros C u HZ Hf Hs; [lia|].
  destruct u as [|c l x kx vx r]; simpl ptr; simpl remove_search; [by apply wp_ret|].
  pose proof HZ as HZ0. unfold Zip in HZ. simpl in HZ. apply wp_bind. st_step.
  simpl in Hf, Hs. apply StronglySorted_app in Hs as (Hlr & Hsl & Hsr).
  apply StronglySorted_inv in Hsr as [Hsr Hxr]. destruct (ord_eq k kx) eqn:Hk.
  { apply ord_eq_true in Hk as <-. apply wp_ret. by exists C, c, l, vx, r. }
  apply ord_eq_false in Hk. destruct (ord_lt k kx) eqn:Hlt.
  - eapply wp_mono; [apply (IH (Frame DL c x kx vx r :: C) l); [by apply Zip_fill|lia|done]|].
    intros [y|]; [done|]. intros Hl. simpl. rewrite Forall_app, Forall_cons. split_and!; [done|done|].
    eapply Forall_impl; [exact Hxr|]. intros [i [ke ve]] He; simpl in *; intros ->. by apply (ord_lt_not_le _ _ Hlt).
  - eapply wp_mono; [apply (IH (Frame DR c x kx vx l :: C) r); [by apply Zip_fill|lia|done]|].
    intros [y|]; [done|]. intros Hr. simpl. rewrite Forall_app, Forall_cons. split_and!; [|done|done].
    apply Forall_forall. intros [i [ke ve]] He; simpl; intros ->. apply ord_lt_false in Hlt.
    assert (ord_le k kx) as [Hlt'| ->]%ord_le_cases
      by (apply (Hlr (i, (k, ve)) (x, (kx, vx))); [done|by left]); [|done].
    by apply (ord_lt_not_le _ _ Hlt').
Qed.

(** ** [insert] *)

Lemma St_arena_place t r a cs n :
  St t r a cs →
  wp (place_node t n) (λ '(t', i), ∃ fs m,
    St t' r (leftmost t, fs, len t, m) ((i, n) :: cs)).
Proof.
  intros (Har & Hr & _). unfold place_node. destruct (vec_pop (free_slots t)) as [[i fs]|] eqn:Hpop.
  - apply vec_pop_Some in Hpop. rewrite Hpop in Har.
    rewrite (proj2 (ar_none _ _ _ Har i)) by set_solver. simpl.
    exists fs, (length (nodes t)). split_and!; [|done|].
    + by apply arena_reuse.
    + unfold aux. simpl. by rewrite length_insert.
  - apply vec_pop_None in Hpop. eexists _, _. split_and!; [|done|done].
    by apply arena_push.
Qed.

Lemma St_aux t r a cs : St t r a cs → aux t = a.
Proof. by intros (_ & _ & ?). Qed.

Lemma Zip_aux t a C u rest : Zip t a C u rest → aux t = a.
Proof. apply St_aux. Qed.

(** Linking the placed node below the last frame. *)
Lemma wp_link t a D i k v :
  St t (root_of D None) a ((i, MkNode k v (ctx_ptr D) None None Red) :: ccells D None) →
  last_turn k D →
  wp (match ctx_ptr D with
      | Some p =>
        n ← get_node t p;
        if ord_lt k (n_key n) then upd t p (with_left (Some i)) else upd t p (with_right (Some i))
      | None => Some (with_root (Some i) t)
      end) (λ t', Zip t' a D (Node Red Leaf i k v Leaf) []).
Proof.
  intros HS Hl. destruct D as [|[[] c p kp vp s] D]; simpl in *.
  - destruct HS as (Har & _ & Ha). by split_and!.
  - st_exec. rewrite Hl. st_exec. unfold Zip. simpl. eapply St_perm; [|exact HS]. solve_perm.
  - st_exec. rewrite Hl. st_exec. unfold Zip. simpl. eapply St_perm; [|exact HS]. solve_perm.
Qed.

Lemma Zip_leftmost t a C u rest l :
  Zip t a C u rest → Zip (with_leftmost l t) (l, a.1.1.2, a.1.2, a.2) C u rest.
Proof. intros (Har & Hr & <-). by split_and!. Qed.

Lemma Zip_len t a C u rest m :
  Zip t a C u rest → Zip (with_len m t) (a.1.1.1, a.1.1.2, m, a.2) C u rest.
Proof. intros (Har & Hr & <-). by split_and!. Qed.

(** A cell of the tree can be read through any position. *)
Lemma Zip_get t a C u rest i k v :
  Zip t a C u rest → (i, (k, v)) ∈ entries (plug C u) →
  ∃ n, get_node t i = Some n ∧ n_key n = k ∧ n_value n = v.
Proof.
  intros HZ%Zip_top Hin. destruct HZ as (Har & _).
  assert (∃ n, (i, n) ∈ cells None (plug C u) ∧ n_key n = k ∧ n_value n = v) as (n & Hn & ? & ?).
  { clear Har. revert Hin. generalize (@None nat). induction (plug C u) as [|c l IHl j kj vj r IHr]; simpl.
    { by intros ? ?%not_elem_of_nil. }
    intros p. rewrite elem_of_app, elem_of_cons. intros [Hl|[[= -> -> ->]|Hr]].
    - destruct (IHl (Some j) Hl) as (n & ? & ?). exists n. set_solver.
    - eexists. split; [by left|done].
    - destruct (IHr (Some j) Hr) as (n & ? & ?). exists n. set_solver. }
  exists n. split; [|done]. unfold get_node.
  rewrite (proj2 (ar_node _ _ _ Har i n)); [done|]. simpl. set_solver.
Qed.

(** The cached leftmost index after linking a new entry. *)
Lemma wp_update_leftmost t a D i k v :
  Zip t a D (Node Red Leaf i k v Leaf) [] → a.1.1.1 = min_idx (plug D Leaf) →
  Forall (λ e, ord_le e.2.1 k) (before D) → Forall (λ e, ord_lt k e.2.1 = true) (after D) →
  wp (match leftmost t with
      | None => Some (with_leftmost (Some i) t)
      | Some l =>
        n ← get_node t l;
        Some (if ord_lt k (n_key n) then with_leftmost (Some i) t else t)
      end)
     (λ t', Zip t' (min_idx (plug D (Node Red Leaf i k v Leaf)), a.1.1.2, a.1.2, a.2)
              D (Node Red Leaf i k v Leaf) []).
Proof.
  intros HZ Hl Hb Ha. rewrite <-head_entries_min in Hl.
  rewrite <-head_entries_min, entries_plug. rewrite entries_plug in Hl. simpl in Hl |- *.
  assert (leftmost t = a.1.1.1) as Hlm by (by rewrite <-(Zip_aux _ _ _ _ _ HZ)).
  rewrite Hlm, Hl. destruct (before D) as [|[j [kj vj]] b] eqn:Eb; simpl.
  - destruct (after D) as [|[j [kj vj]] af] eqn:Ea; simpl.
    { by apply Zip_leftmost. }
    destruct (Zip_get t a D (Node Red Leaf i k v Leaf) [] j kj vj HZ) as (n & -> & <- & _).
    { rewrite entries_plug, Ea. set_solver. }
    simpl. apply Forall_cons in Ha as [Ha _]. simpl in Ha. rewrite Ha. by apply Zip_leftmost.
  - destruct (Zip_get t a D (Node Red Leaf i k v Leaf) [] j kj vj HZ) as (n & -> & <- & _).
    { rewrite entries_plug, Eb. set_solver. }
    simpl. apply Forall_cons in Hb as [Hb _]. simpl in Hb. apply ord_lt_false in Hb. rewrite Hb.
    simpl in Hl. rewrite <-Hl. by destruct a as [[[? ?] ?] ?].
Qed.

Lemma wp_insert t u k v :
  rb_inv t u →
  wp (insert t k v) (λ t', ∃ u', rb_inv t' u' ∧
    (entries u').*2 = sorted_insert k v (entries u).*2).
Proof.
  intros [HZ [n Hrb] Hbl Hs Hlm Hln]. unfold insert. apply wp_bind.
  assert (root t = ptr u) as Hroot by (by destruct HZ as (_ & -> & _)). rewrite Hroot.
  eapply wp_mono.
  { apply (wp_insert_descend _ t (aux t) [] u [] k); [done| |done..].
    apply Zip_size in HZ. unfold loop_fuel. simpl in HZ. lia. }
  intros par (D & -> & HD & Hplug & Hlast & Hb & Ha). simpl in Hplug.
  apply wp_bind. eapply wp_mono; [by eapply St_arena_place|].
  intros [t1 i] (fs & m & HS). apply wp_bind.
  eapply wp_mono.
  { apply (wp_link t1 (leftmost t, fs, len t, m) D i k v); [|exact Hlast]. eapply St_perm; [|exact HS]. simpl. solve_perm. }
  intros t2 HZ2. apply wp_bind. eapply wp_mono.
  { eapply wp_update_leftmost; [exact HZ2| |done..]. simpl. by rewrite Hlm, <-Hplug. }
  simpl. intros t3 HZ3. pose proof (Zip_aux _ _ _ _ _ HZ3) as Haux3. apply (Zip_len _ _ _ _ _ (S (len t3))) in HZ3. simpl in HZ3.
  rewrite <-Hplug in Hrb, Hbl.
  destruct (plug_rb_inv D Leaf n Hrb Hbl) as (g & Hg & HDc & _). simpl in Hg. subst g.
  eapply wp_mono; [by eapply wp_insert_fixup|]. intros t4 HZ4.
  assert (entries (paint Black (ins_fix D (Node Red Leaf i k v Leaf))) =
    before D ++ (i, (k, v)) :: after D) as He
    by (by rewrite entries_paint, entries_ins_fix, entries_plug).
  exists (paint Black (ins_fix D (Node Red Leaf i k v Leaf))). split.
  - pose proof (Zip_aux _ _ _ _ _ HZ4) as Haux. split.
    + by rewrite Haux.
    + eapply (ins_fix_rb D _ 0); done.
    + apply tcolor_paint_black.
    + rewrite He. rewrite <-Hplug, entries_plug in Hs. simpl in Hs.
      apply StronglySorted_app in Hs as (Hba & Hsb & Hsa).
      rewrite Forall_forall in Hb, Ha.
      apply StronglySorted_app. split_and!; [|done|].
      * intros e1 e2 He1 [->|He2]%elem_of_cons; [by apply Hb|by apply Hba].
      * constructor; [done|]. apply Forall_forall. intros e2 He2. apply ord_lt_le, Ha, He2.
    + unfold aux in Haux. injection Haux as -> _ _ _.
      by rewrite <-!head_entries_min, He, entries_plug.
    + unfold aux in Haux. injection Haux as _ _ Hlen _. rewrite Hlen, <-length_entries, He.
      rewrite length_app. simpl.
      assert (len t3 = len t) as -> by (unfold aux in Haux3; simpl in Haux3; by injection Haux3).
      rewrite Hln, <-length_entries, <-Hplug, entries_plug, length_app. simpl. lia.
  - rewrite He, <-Hplug, entries_plug. simpl. rewrite !fmap_app. simpl.
    rewrite sorted_insert_app; [done|..]; by apply Forall_fmap.
Qed.

(** ** [remove] *)

(** Freeing the slot of the detached target. *)
Lemma Zip_take t a D w x n :
  Zip t a D w [(x, n)] →
  Zip (with_len (len t - 1)
        (with_free_slots (vec_push (free_slots t) x)
          (with_nodes (<[x := None]> (nodes t)) t)))
      (a.1.1.1, vec_push a.1.1.2 x, a.1.2 - 1, a.2) D w [].
Proof.
  intros (Har & Hr & <-). split_and!; [|done|].
  - simpl. apply arena_take with n. eapply arena_perm; [|exact Har]. solve_perm.
  - unfold aux. simpl. by rewrite length_insert.
Qed.

Lemma wp_root_minimum t a D w :
  Zip t a D w [] →
  wp (match root t with Some r => Some <$> minimum t r | None => Some None end)
     (λ l, l = min_idx (plug D w)).
Proof.
  intros HZ%Zip_top. pose proof HZ as (_ & Hr & _). simpl in Hr. rewrite Hr.
  destruct (ptr (plug D w)) as [x|] eqn:Hx.
  - destruct (wp_elim _ _ (wp_minimum t a [] _ x [] HZ Hx)) as (m & -> & ->). done.
  - destruct (plug D w); [done|]. done.
Qed.

Lemma wp_remove t u k :
  rb_inv t u →
  wp (remove t k) (λ '(res, t'),
    match res with
    | None => t' = t ∧ Forall (λ e, e.1 ≠ k) (entries u).*2
    | Some v => ∃ u' l1 l2, rb_inv t' u' ∧
        (entries u).*2 = l1 ++ (k, v) :: l2 ∧ (entries u').*2 = l1 ++ l2
    end).
Proof.
  intros [HZ [n Hrb] Hbl Hs Hlm Hln]. unfold remove. apply wp_bind.
  assert (root t = ptr u) as Hroot by (by destruct HZ as (_ & -> & _)). rewrite Hroot.
  eapply wp_mono.
  { apply (wp_remove_search _ t (aux t) [] u [] k); [done| |done].
    apply Zip_size in HZ. unfold loop_fuel. simpl in HZ. lia. }
  intros [x|]; [|intros Hall; split; [done|by apply Forall_fmap]].
  intros (C & c & l & v & r & HC & Hplug). simpl in Hplug. subst u.
  destruct (plug_rb_inv C _ n Hrb Hbl) as (h & Hh & HCc & Hhd).
  apply wp_bind. eapply wp_mono; [by eapply wp_unlink|].
  intros [[[t1 rc] rep] rpar] (D & w & nd & HZ1 & Hnv & -> & -> & He & Hcol).
  specialize (Hcol h Hh HCc Hhd). apply wp_bind.
  eapply (wp_node t1 _ _ _ x nd (ccells D (ptr w) ++ cells (ctx_ptr D) w)); [exact HZ1|solve_perm|].
  apply Zip_take in HZ1. simpl in HZ1.
  set (t2 := with_len _ _) in HZ1 |- *. apply wp_bind. eapply wp_mono; [by eapply wp_root_minimum|].
  intros lm ->. apply (Zip_leftmost _ _ _ _ _ (min_idx (plug D w))) in HZ1. simpl in HZ1.
  set (t3 := with_leftmost _ _) in HZ1 |- *.
  set (a3 := (min_idx (plug D w), _, _, _)) in HZ1. apply wp_bind.
  assert (∀ t4 u4 g, Zip t4 a3 [] u4 [] → is_rb u4 g → tcolor u4 = Black →
    entries u4 = entries (plug D w) → rb_inv t4 u4) as Hinv.
  { intros t4 u4 g HZ4 Hg Hc4 He4. pose proof (Zip_aux _ _ _ _ _ HZ4) as Haux. split; [|by eauto|done|..].
    - by rewrite Haux.
    - rewrite He4, He. rewrite entries_plug in Hs. simpl in Hs.
      apply StronglySorted_app in Hs as (Hb & Hsb & Hsa).
      rewrite <-app_assoc in Hb, Hsa. simpl in Hb, Hsa.
      apply StronglySorted_app in Hsa as (Hl & Hsl & Hsr). apply StronglySorted_inv in Hsr as [Hsr _].
      apply StronglySorted_app. split_and!; [set_solver|done|].
      apply StronglySorted_app. split_and!; [set_solver|done|done].
    - unfold aux in Haux. injection Haux as -> _ _ _. by rewrite <-!head_entries_min, He4.
    - unfold aux in Haux. injection Haux as _ _ -> _. rewrite Hln.
      rewrite <-!length_entries, He4, He, entries_plug. simpl. rewrite !length_app. simpl. lia. }
  assert (∀ t4 u4, rb_inv t4 u4 → entries u4 = entries (plug D w) →
    ∃ u' l1 l2, rb_inv t4 u' ∧ (entries (plug C (Node c l x k v r))).*2 = l1 ++ (k, v) :: l2 ∧
      (entries u').*2 = l1 ++ l2) as Hfin.
  { intros t4 u4 Hi4 He4. exists u4, (before C ++ entries l).*2, (entries r ++ after C).*2.
    split_and!; [done|..].
    - rewrite entries_plug. simpl entries. by rewrite !fmap_app, fmap_cons, <-!app_assoc.
    - by rewrite He4, He, !fmap_app, <-!app_assoc. }
  clear Hs Hlm Hln Hrb. destruct rc.
  - rewrite decide_False by done. destruct Hcol as (g & Hg & HD & Hw).
    apply wp_ret. rewrite Hnv.
    destruct (plug_rb D w g) as [g' Hg']; [done..|by left|].
    eapply Hfin; [|done]. eapply Hinv; [by apply Zip_top|done| |done].
    destruct D as [|f D]; [done|by eapply cok_root_black].
  - rewrite decide_True by done. destruct Hcol as (g & Hg & HD).
    eapply wp_mono; [by eapply wp_delete_fixup|]. intros t4 HZ4.
    apply wp_ret. rewrite Hnv. destruct (del_fix_rb D w g) as [g' Hg']; [done..|].
    apply (Hfin t4 (del_fix D w)); [|apply entries_del_fix].
    eapply Hinv; [exact HZ4|exact Hg'|by eapply del_fix_black|apply entries_del_fix].
Qed.

(** ** The laws of an ordered queue *)

Lemma models_new : models new [].
Proof.
  exists Leaf. split; [|done]. split; try done.
  - split_and!; [|done..]. split; simpl; [by constructor..| |]; intros; split; set_solver.
  - by exists 0.
  - constructor.
Qed.

Lemma models_sorted t l : models t l → StronglySorted key_le l.
Proof.
  intros (u & Hi & ->). pose proof (inv_sorted _ _ Hi) as Hs. clear Hi.
  induction Hs as [|e l Hs IH Hall]; simpl; constructor; [done|].
  by apply Forall_fmap.
Qed.

Lemma models_first t l :
  models t l → first t = snd <$> head l ∧ first_key t = fst <$> head l.
Proof.
  intros (u & Hi & ->). unfold first, first_key.
  rewrite (inv_leftmost _ _ Hi), <-head_entries_min.
  destruct (entries u) as [|[i [k v]] l] eqn:He; simpl; [done|].
  destruct (Zip_get t (aux t) [] u [] i k v) as (n & Hn & <- & <-);
    [by apply inv_zip|simpl; rewrite He; by left|].
  unfold get_node in Hn. destruct (nodes t !! i) as [s|]; simpl in *; [|done]. by subst s.
Qed.

Lemma models_is_empty t l : models t l → is_empty t = bool_decide (l = []).
Proof.
  intros (u & Hi & ->). unfold is_empty. rewrite (inv_len _ _ Hi), <-length_entries.
  by destruct (entries u).
Qed.

Lemma models_insert t l k v :
  models t l → wp (insert t k v) (λ t', models t' (sorted_insert k v l)).
Proof.
  intros (u & Hi & ->). eapply wp_mono; [by apply wp_insert|].
  intros t' (u' & Hi' & <-). by exists u'.
Qed.

Lemma models_remove t l k :
  models t l → wp (remove t k) (λ '(r, t'), ∃ l', models t' l' ∧ removed k l r l').
Proof.
  intros (u & Hi & ->). eapply wp_mono; [by apply wp_remove|]. intros [[v|] t'].
  - intros (u' & l1 & l2 & Hi' & He & He'). exists (l1 ++ l2). split; [by exists u'|].
    rewrite He. by constructor.
  - intros [-> Hall]. exists (entries u).*2. split; [by exists u|by constructor].
Qed.

Lemma models_pop_first t l :
  models t l →
  wp (pop_first t) (λ '(r, t'), ∃ l', models t' l' ∧
    match l with [] => r = None ∧ l' = [] | (k, _) :: _ => removed k l r l' end).
Proof.
  intros Hm. unfold pop_first. rewrite (proj2 (models_first _ _ Hm)).
  destruct l as [|[k v] l]; simpl; [by exists []|]. by apply models_remove.
Qed.

(** The occupied slots of the arena hold the entries of the tree. *)
Lemma cells_entry p u i n : (i, n) ∈ cells p u → (i, (n_key n, n_value n)) ∈ entries u.
Proof.
  revert p. induction u as [|c l IHl j k v r IHr]; intros p; simpl.
  - by intros ?%not_elem_of_nil.
  - rewrite elem_of_cons, elem_of_app. intros [[= -> ->]|[Hl|Hr]]; simpl; set_solver.
Qed.

Lemma occupied_entries t u e :
  rb_inv t u →
  e ∈ (λ n, (n_key n, n_value n)) <$> omap id (nodes t) ↔ e ∈ (entries u).*2.
Proof.
  intros Hi. pose proof (inv_zip _ _ Hi) as HZ. split.
  - intros (n & -> & (s & Hs & Hsn)%list_elem_of_omap)%list_elem_of_fmap. simpl in Hsn. subst s.
    apply list_elem_of_lookup in Hs as [i Hs]. destruct HZ as (Har & _).
    apply (ar_node _ _ _ Har) in Hs. simpl in Hs. rewrite app_nil_r in Hs.
    apply cells_entry in Hs. by apply (list_elem_of_fmap_2 snd _ (i, _)).
  - intros ([i [k v]] & -> & Hin)%list_elem_of_fmap.
    destruct (Zip_get t _ [] u [] i k v HZ Hin) as (n & Hn & <- & <-).
    apply (list_elem_of_fmap_2 (λ n, (n_key n, n_value n))), list_elem_of_omap.
    unfold get_node in Hn. destruct (nodes t !! i) as [s|] eqn:Hs; simpl in Hn; [|done].
    exists s. split; [by eapply list_elem_of_lookup_2|done].
Qed.

Lemma models_remove_where t l p :
  models t l →
  wp (remove_where t p) (λ '(r, t'), ∃ l', models t' l' ∧
    ((r = None ∧ l' = l ∧ Forall (λ e, p e.2 = false) l) ∨
     ∃ k v, (k, v) ∈ l ∧ p v = true ∧ removed k l r l')).
Proof.
  intros Hm. pose proof Hm as (u & Hi & ->). unfold remove_where.
  destruct (filter _ _) as [|n ns] eqn:Hf; simpl; last first.
  - assert (n ∈ filter (λ n, p (n_value n) = true) (omap id (nodes t))) as [Hp Hn]%list_elem_of_filter
      by (rewrite Hf; by left).
    eapply wp_mono; [by apply models_remove|]. intros [r t'] (l' & Hm' & Hr).
    exists l'. split; [done|]. right. exists (n_key n), (n_value n). split_and!; [|done..].
    apply (occupied_entries t u _ Hi). by apply (list_elem_of_fmap_2 (λ n, (n_key n, n_value n))).
  - apply wp_ret. exists (entries u).*2. split; [done|]. left. split_and!; [done..|].
    apply Forall_forall. intros e He. apply (occupied_entries t u _ Hi) in He.
    apply list_elem_of_fmap in He as (n & -> & Hn). simpl.
    apply not_true_iff_false. intros Hp.
    assert (n ∈ filter (λ n, p (n_value n) = true) (omap id (nodes t))) as Hin
      by (by apply list_elem_of_filter).
    rewrite Hf in Hin. by apply not_elem_of_nil in Hin.
Qed.

(** Every slot is either a node of the tree or on the free list. *)
Lemma models_slots t l : models t l → length (nodes t) = len t + length (free_slots t).
Proof.
  intros (u & Hi & ->). rewrite (inv_len _ _ Hi).
  destruct (inv_zip _ _ Hi) as ([Hnd Hfnd Hn H0] & _). simpl in *. rewrite app_nil_r in Hnd.
  rewrite <-(tsize_cells None u), <-(length_fmap fst), <-length_app, <-(length_seq (length (nodes t)) 0).
  apply Permutation_length, NoDup_Permutation; [apply NoDup_seq|..].
  - apply NoDup_app. split_and!; [done| |done]. intros i ([j n] & -> & Hin)%list_elem_of_fmap Hf.
    apply H0 in Hf. specialize (Hn j n). rewrite app_nil_r in Hn. apply Hn in Hin. simpl in *. congruence.
  - intros i. rewrite elem_of_seq, elem_of_app, <-H0. split.
    + intros [_ Hlt]. simpl in Hlt. destruct (lookup_lt_is_Some_2 _ _ Hlt) as [[n|] Hi']; [left|by right].
      apply Hn in Hi'. rewrite app_nil_r in Hi'. by apply (list_elem_of_fmap_2 fst _ (i, n)).
    + intros [([j n] & -> & Hin)%list_elem_of_fmap|Hi']; (split; [lia|simpl; eapply lookup_lt_Some]).
      * apply Hn. by rewrite app_nil_r.
      * exact Hi'.
Qed.

#[export] Instance RbRootCached_queue : OrderedQueue K V (RbRootCached K V) := {
  oq_new := new;
  oq_is_empty := is_empty;
  oq_first := first;
  oq_first_key := first_key;
  oq_insert := insert;
  oq_remove := remove;
  oq_pop_first := pop_first;
  oq_remove_where := remove_where;
  oq_models := models;
  oq_models_sorted := models_sorted;
  oq_new_spec := models_new;
  oq_is_empty_spec := models_is_empty;
  oq_first_spec t l Hm := proj1 (models_first t l Hm);
  oq_first_key_spec t l Hm := proj2 (models_first t l Hm);
  oq_insert_spec := models_insert;
  oq_remove_spec := models_remove;
  oq_pop_first_spec := models_pop_first;
  oq_remove_where_spec := models_remove_where;
}.

End rbtree.

(** ** Properties of the tree *)

Module RbTreeProps.
Section props.
Context {K V : Type} `{RustOrd K}.
Implicit Types (t : RbRootCached K V) (l : list (K * V)) (k : K) (v : V).

(** A mutation of the tree, as the scheduler issues them. *)
Inductive rb_op :=
  | OpInsert k v
  | OpRemove k
  | OpPopFirst
  | OpRemoveWhere (p : V → bool).

Definition run_op (o : rb_op) t : option (RbRootCached K V) :=
  match o with
  | OpInsert k v => insert t k v
  | OpRemove k => snd <$> remove t k
  | OpPopFirst => snd <$> pop_first t
  | OpRemoveWhere p => snd <$> remove_where t p
  end.

Fixpoint run_ops (os : list rb_op) t : option (RbRootCached K V) :=
  match os with [] => Some t | o :: os => t ← run_op o t; run_ops os t end.

Lemma wp_fmap {A B} (f : A → B) (m : option A) Q : wp m (λ x, Q (f x)) → wp (f <$> m) Q.
Proof. by destruct m. Qed.

Lemma run_op_models o t l : models t l → wp (run_op o t) (λ t', ∃ l', models t' l').
Proof.
  intros Hm. destruct o as [k v|k| |p]; simpl; try apply wp_fmap.
  - eapply wp_mono; [by apply models_insert|]. intros t' ?. by exists (sorted_insert k v l).
  - eapply wp_mono; [by apply models_remove|]. intros [r t'] (l' & ? & _). by exists l'.
  - eapply wp_mono; [by apply models_pop_first|]. intros [r t'] (l' & ? & _). by exists l'.
  - eapply wp_mono; [by apply models_remove_where|]. intros [r t'] (l' & ? & _). by exists l'.
Qed.

Lemma run_ops_models os t l : models t l → wp (run_ops os t) (λ t', ∃ l', models t' l').
Proof.
  revert t l. induction os as [|o os IH]; intros t l Hm; simpl; [by exists l|].
  apply wp_bind. eapply wp_mono; [by eapply run_op_models|]. intros t' [l' Hm']. by eapply IH.
Qed.

(** C10 [insert] on a well-formed tree returns (no [unwrap] fails and the
    rebalancing loop ends), the result is well formed, and its in-order sequence
    is the old one with the entry placed after all smaller or equal keys. *)
Theorem insert_refines t l k v :
  models t l → ∃ t', insert t k v = Some t' ∧ models t' (sorted_insert k v l).
Proof. intros Hm. by apply wp_elim, models_insert. Qed.

(** C11 [remove] on a well-formed tree returns and leaves a well-formed tree; it
    answers [None] and changes nothing exactly when the key is absent, and
    otherwise takes out one entry with that key and returns its value. *)
Theorem remove_refines t l k :
  models t l →
  ∃ r t', remove t k = Some (r, t') ∧
    match r with
    | None => t' = t ∧ k ∉ l.*1
    | Some v => ∃ l1 l2, l = l1 ++ (k, v) :: l2 ∧ models t' (l1 ++ l2)
    end.
Proof.
  intros (u & Hi & ->). destruct (wp_elim _ _ (wp_remove t u k Hi)) as ([r t'] & -> & Hr).
  exists r, t'. split; [done|]. destruct r as [v|].
  - destruct Hr as (u' & l1 & l2 & Hi' & -> & Heq). exists l1, l2. split; [done|]. by exists u'.
  - destruct Hr as [-> Hall]. split; [done|]. intros (e & -> & He)%list_elem_of_fmap.
    rewrite Forall_forall in Hall. by apply (Hall e).
Qed.

(** [pop_first] on a well-formed tree with distinct keys removes and returns
    the entry with the smallest key, the one [first] and [first_key] name in
    constant time; on an empty tree all three answer [None]. *)
Theorem pop_first_takes_minimum t l :
  models t l → NoDup l.*1 →
  ∃ t', pop_first t = Some (first t, t') ∧ models t' (tail l) ∧
    first_key t = fst <$> head l ∧ first t = snd <$> head l ∧
    match l with [] => True | e :: l' => Forall (λ e', ord_le e.1 e'.1) l' end.
Proof.
  intros Hm Hnd. destruct (models_first _ _ Hm) as [Hf Hk].
  pose proof (oq_pop_first_unique t l) as Hpop.
  destruct (wp_elim _ _ (Hpop Hm Hnd)) as ([r t'] & Hp & -> & Hm').
  exists t'. split_and!; [by rewrite Hf|done..|].
  apply models_sorted in Hm. destruct l; [done|]. by apply StronglySorted_inv in Hm as [_ ?].
Qed.

(** Every sequence of tree operations runs from the empty tree without a
    failing [unwrap], without an endless loop, and ends in a well-formed tree. *)
Theorem run_ops_safe (os : list rb_op) :
  ∃ t l, run_ops os new = Some t ∧ models t l.
Proof.
  destruct (wp_elim _ _ (run_ops_models os new [] models_new)) as (t & Ht & l & Hm).
  by exists t, l.
Qed.

(** A well-formed tree with [n] entries has height at most [2 log2 (n + 1)], so
    the descents of [insert] and [remove] take logarithmically many steps. *)
Theorem models_height t l :
  models t l →
  ∃ u, rb_inv t u ∧ l = (entries u).*2 ∧ height u ≤ 2 * Nat.log2 (S (length l)).
Proof.
  intros (u & Hi & ->). exists u. split_and!; [done..|].
  rewrite length_fmap, length_entries. destruct (inv_rb _ _ Hi) as [n Hn].
  eapply is_rb_balanced; [done|by apply (inv_black t)].
Qed.

(** The arena leaks no slot: every slot is a node of the tree or is on the free
    list, and [len] counts the nodes. *)
Theorem slots_conserved t l :
  models t l → len t = length l ∧ length (nodes t) = length l + length (free_slots t).
Proof.
  intros Hm. pose proof (models_slots _ _ Hm) as Hs. destruct Hm as (u & Hi & ->).
  assert (len t = length (entries u).*2) as Hl
    by (by rewrite (inv_len _ _ Hi), length_fmap, length_entries).
  split; [done|]. by rewrite <-Hl.
Qed.
End props.

(** ** Witnesses *)

(** The tree after inserting 2, 1 and 3. *)
Definition demo : RbRootCached nat nat :=
  default new (run_ops [OpInsert 2 20; OpInsert 1 10; OpInsert 3 30] new).

Lemma demo_models : models demo [(1, 10); (2, 20); (3, 30)].
Proof.
  pose proof (models_insert (V := nat) new [] 2 20 models_new) as H1.
  destruct (wp_elim _ _ H1) as (t1 & E1 & M1).
  destruct (wp_elim _ _ (models_insert _ _ 1 10 M1)) as (t2 & E2 & M2).
  destruct (wp_elim _ _ (models_insert _ _ 3 30 M2)) as (t3 & E3 & M3).
  unfold demo. cbn [run_ops run_op]. rewrite E1. cbn [mbind option_bind].
  rewrite E2. cbn [mbind option_bind]. by rewrite E3.
Qed.

Lemma insert_refines_witness :
  ∃ t', insert demo 2 21 = Some t' ∧ models t' [(1, 10); (2, 20); (2, 21); (3, 30)].
Proof. exact (insert_refines demo _ 2 21 demo_models). Defined.

Lemma remove_refines_witness :
  ∃ r t', remove demo 2 = Some (r, t') ∧
    match r with
    | None => t' = demo ∧ 2 ∉ [(1, 10); (2, 20); (3, 30)].*1
    | Some v => ∃ l1 l2, [(1, 10); (2, 20); (3, 30)] = l1 ++ (2, v) :: l2 ∧ models t' (l1 ++ l2)
    end.
Proof. exact (remove_refines demo _ 2 demo_models). Defined.

Lemma pop_first_takes_minimum_witness :
  ∃ t', pop_first demo = Some (Some 10, t') ∧ models t' [(2, 20); (3, 30)].
Proof.
  destruct (pop_first_takes_minimum demo _ demo_models) as (t' & Ht & Hm & _).
  - apply (bool_decide_unpack _). vm_compute. exact I.
  - exists t'. split; [exact Ht|exact Hm].
Defined.

Lemma models_height_witness :
  ∃ u, rb_inv demo u ∧ [(1, 10); (2, 20); (3, 30)] = (entries u).*2 ∧ height u ≤ 4.
Proof. exact (models_height demo _ demo_models). Defined.

Lemma slots_conserved_witness :
  len demo = 3 ∧ length (nodes demo) = 3 + length (free_slots demo).
Proof. exact (slots_conserved demo _ demo_models). Defined.

End RbTreeProps.
