(* ===== verification/Address.v ===== *)
(** * Addresses, page numbers and page sizes
    (os/src/mm/address.rs; [PageSize] of os/src/mm/page_table.rs; constants of
    os/src/arch/riscv/config.rs and os/src/arch/riscv/mm/mod.rs)

    The four newtypes [PhysAddr], [VirtAddr], [PhysPageNum] and [VirtPageNum] are
    kept as the [usize] they wrap, a [Z]; the conversions carry the name of the
    type they belong to.  The widths are those of the RISC-V build. *)

From S2P Require Import Prelude.
From Stdlib Require Import Zpow_facts.

Local Open Scope Z_scope.

(** ** Constants *)

Definition PAGE_SIZE : Z := 0x1000.

Definition PAGE_SIZE_BITS : Z := 0xc.

Definition PA_WIDTH : Z := 56.

Definition VA_WIDTH : Z := 39.

Definition PPN_WIDTH : Z := PA_WIDTH - PAGE_SIZE_BITS.

Definition VPN_WIDTH : Z := VA_WIDTH - PAGE_SIZE_BITS.

Definition KERNEL_WINDOW_BASE : Z := 0xffffffc000000000.

(** [CACHED_KERNEL_BASE] and [UNCACHED_KERNEL_BASE] are the same window. *)
Definition CACHED_KERNEL_BASE : Z := KERNEL_WINDOW_BASE.

(** ** Page sizes *)

Inductive PageSize := Page4K | Page2M | Page1G.

#[export] Instance PageSize_eq_dec : EqDecision PageSize.
Proof. solve_decision. Defined.

Definition size (p : PageSize) : Z :=
  match p with
  | Page4K => Z.shiftl 1 12
  | Page2M => Z.shiftl 1 (12 + 9)
  | Page1G => Z.shiftl 1 (12 + 9 + 9)
  end.

Definition num_pages (p : PageSize) : Z := size p / PAGE_SIZE.

Definition walk_level (p : PageSize) : nat :=
  match p with Page4K => 2 | Page2M => 1 | Page1G => 0 end.

(** ** Conversions *)

(** [(1 << w) - 1] *)
Definition width_mask (w : Z) : Z := Z.shiftl 1 w - 1.

(** [!x] on [usize] *)
Definition usize_not (x : Z) : Z := USIZE_MAX - x.

(** [From<usize>] of the four types *)
Definition PhysAddr_from (v : Z) : Z := Z.land v (width_mask PA_WIDTH).

Definition PhysPageNum_from (v : Z) : Z := Z.land v (width_mask PPN_WIDTH).

Definition VirtAddr_from (v : Z) : Z := Z.land v (width_mask VA_WIDTH).

Definition VirtPageNum_from (v : Z) : Z := Z.land v (width_mask VPN_WIDTH).

(** [From<VirtAddr> for usize] and [VirtAddr::full_addr]: sign extension. *)
Definition full_addr (v : Z) : Z :=
  if v >=? Z.shiftl 1 (VA_WIDTH - 1) then Z.lor v (usize_not (width_mask VA_WIDTH)) else v.

(** [VirtAddr::std_floor], [std_ceil] and the offsets; [std_ceil] subtracts
    first. *)
Definition VirtAddr_std_floor (v : Z) : Z := v / PAGE_SIZE.

Definition VirtAddr_std_ceil (v : Z) : option Z :=
  x ← checked_sub v 1; y ← checked_add x PAGE_SIZE; Some (y / PAGE_SIZE).

Definition std_page_offset (v : Z) : Z := Z.land v (PAGE_SIZE - 1).

Definition actual_page_offset (v : Z) (p : PageSize) : Z := Z.land v (size p - 1).

Definition std_aligned (v : Z) : bool := std_page_offset v =? 0.

Definition actual_aligned (v : Z) (p : PageSize) : bool := actual_page_offset v p =? 0.

(** [PhysAddr::std_floor], [std_ceil]: the sum comes first here. *)
Definition PhysAddr_std_floor (v : Z) : Z := v / PAGE_SIZE.

Definition PhysAddr_std_ceil (v : Z) : option Z :=
  x ← checked_add v PAGE_SIZE; y ← checked_sub x 1; Some (y / PAGE_SIZE).

(** [From<VirtAddr> for VirtPageNum] and [From<PhysAddr> for PhysPageNum] assert
    that the address is aligned. *)
Definition VirtPageNum_of_addr (v : Z) : option Z :=
  if std_page_offset v =? 0 then Some (VirtAddr_std_floor v) else None.

Definition PhysPageNum_of_addr (v : Z) : option Z :=
  if std_page_offset v =? 0 then Some (PhysAddr_std_floor v) else None.

(** [v.0 << PAGE_SIZE_BITS]; the shift drops the bits above 64. *)
Definition VirtAddr_of_page (v : Z) : Z := Z.land (Z.shiftl v PAGE_SIZE_BITS) USIZE_MAX.

Definition PhysAddr_of_page (v : Z) : Z := Z.land (Z.shiftl v PAGE_SIZE_BITS) USIZE_MAX.

(** [PhysAddr::get_cached_addr]; [get_uncached_addr] is the same function. *)
Definition get_cached_addr (v : Z) : Z := Z.lor v CACHED_KERNEL_BASE.

(** [VirtPageNum::start_addr] *)
Definition start_addr (v : Z) : Z := full_addr (VirtAddr_of_page v).

(** [VirtPageNum::indexes]: the loop runs from the last index to the first. *)
Definition indexes (vpn : Z) : list Z :=
  let m := Z.shiftr PAGE_SIZE 3 - 1 in
  let i2 := Z.land vpn m in
  let vpn := Z.shiftr vpn (PAGE_SIZE_BITS - 3) in
  let i1 := Z.land vpn m in
  let vpn := Z.shiftr vpn (PAGE_SIZE_BITS - 3) in
  let i0 := Z.land vpn m in
  [i0; i1; i2].

(** ** Ranges of page numbers *)

(** [SimpleRange] and its iterator *)
Record SimpleRange := MkRange { range_start : Z; range_end : Z }.

Definition SimpleRange_new (start_ end_ : Z) : option SimpleRange :=
  if start_ <=? end_ then Some (MkRange start_ end_) else None.

Definition contains (g : SimpleRange) (t : Z) : bool := (range_start g <=? t) && (t <? range_end g).

(** [StepRangeIterator::next]; a step of one is [SimpleRangeIterator::next].  The
    overflow of [step_by] is a panic. *)
Definition next (current end_ step : Z) : option (option (Z * Z)) :=
  if current =? end_ then Some None
  else c ← checked_add current step; Some (Some (current, c)).

(** What a [for] loop over the iterator visits. *)
Fixpoint visit (fuel : nat) (current end_ step : Z) : option (list Z) :=
  match fuel with
  | O => None
  | S fuel =>
    n ← next current end_ step;
    match n with
    | None => Some []
    | Some (t, c) => rest ← visit fuel c end_ step; Some (t :: rest)
    end
  end.

(** ** Bit arithmetic *)

Lemma width_mask_ones w : 0 ≤ w → width_mask w = Z.ones w.
Proof. intros Hw. unfold width_mask, Z.ones. lia. Qed.

Lemma land_width_mask v w : 0 ≤ w → Z.land v (width_mask w) = v `mod` 2 ^ w.
Proof. intros Hw. rewrite width_mask_ones by done. by apply Z.land_ones. Qed.

Lemma page_size_pow : PAGE_SIZE = 2 ^ 12.
Proof. done. Qed.

Lemma std_page_offset_mod v : std_page_offset v = v `mod` PAGE_SIZE.
Proof. apply (Z.land_ones v 12). lia. Qed.

Lemma size_pow p : size p = 2 ^ (30 - 9 * Z.of_nat (walk_level p)).
Proof. by destruct p. Qed.

Lemma size_num_pages p : size p = num_pages p * PAGE_SIZE.
Proof. by destruct p. Qed.

Lemma num_pages_pos p : 0 < num_pages p.
Proof. by destruct p. Qed.

Lemma actual_page_offset_mod v p : actual_page_offset v p = v `mod` size p.
Proof. destruct p; [apply (Z.land_ones v 12)|apply (Z.land_ones v 21)|apply (Z.land_ones v 30)]; lia. Qed.

Lemma PhysPageNum_from_id v : 0 ≤ v < 2 ^ PPN_WIDTH → PhysPageNum_from v = v.
Proof. intros Hv. unfold PhysPageNum_from. rewrite land_width_mask by done. by apply Z.mod_small. Qed.

Lemma VirtAddr_from_mod v : VirtAddr_from v = v `mod` 2 ^ VA_WIDTH.
Proof. by apply land_width_mask. Qed.

Lemma of_page_mul v : 0 ≤ v < 2 ^ 52 → Z.land (Z.shiftl v PAGE_SIZE_BITS) USIZE_MAX = v * PAGE_SIZE.
Proof.
  intros Hv. change USIZE_MAX with (Z.ones 64). rewrite Z.land_ones, Z.shiftl_mul_pow2 by done.
  apply Z.mod_small. rewrite page_size_pow in *. unfold PAGE_SIZE_BITS. lia.
Qed.

Lemma full_addr_high v :
  2 ^ (VA_WIDTH - 1) ≤ v < 2 ^ VA_WIDTH → full_addr v = v + (2 ^ 64 - 2 ^ VA_WIDTH).
Proof.
  intros Hv. unfold full_addr. rewrite (proj2 (Z.geb_le _ _)) by apply Hv.
  change (usize_not (width_mask VA_WIDTH)) with (Z.shiftl (Z.ones 25) VA_WIDTH).
  rewrite lor_shiftl; [done|done|]. unfold VA_WIDTH in *. lia.
Qed.

Lemma full_addr_low v : v < 2 ^ (VA_WIDTH - 1) → full_addr v = v.
Proof.
  intros Hv. unfold full_addr. rewrite Z.geb_leb, (proj2 (Z.leb_gt _ _)); [done|]. exact Hv.
Qed.

(** The canonical addresses: bits 38 to 63 are equal. *)
Definition canonical (a : Z) : Prop :=
  0 ≤ a < 2 ^ (VA_WIDTH - 1) ∨ 2 ^ 64 - 2 ^ (VA_WIDTH - 1) ≤ a < 2 ^ 64.

(** The three indexes are the base-512 digits of the page number. *)
Lemma indexes_digits vpn :
  indexes vpn = [(vpn / 2 ^ 18) `mod` 512; (vpn / 2 ^ 9) `mod` 512; vpn `mod` 512].
Proof.
  unfold indexes. change (Z.shiftr PAGE_SIZE 3 - 1) with (Z.ones 9).
  change (PAGE_SIZE_BITS - 3) with 9. rewrite !Z.land_ones, !Z.shiftr_div_pow2 by done.
  rewrite Z.div_div by lia. done.
Qed.

Lemma visit_arith n fuel c e step :
  (n < fuel)%nat → 0 < step → e = c + Z.of_nat n * step → e ≤ USIZE_MAX →
  visit fuel c e step = Some ((λ i, c + i * step) <$> seqZ 0 (Z.of_nat n)).
Proof.
  revert fuel c. induction n as [|n IH]; intros [|fuel] c Hf Hs -> He; try lia; cbn [visit]; unfold next.
  - by rewrite (proj2 (Z.eqb_eq _ _)) by lia.
  - rewrite (proj2 (Z.eqb_neq _ _)) by lia. unfold checked_add at 1.
    rewrite (proj2 (Z.leb_le _ _)) by nia. cbn [mbind option_bind].
    rewrite (IH fuel (c + step)) by lia. cbn [mbind option_bind].
    rewrite (seqZ_cons 0 (Z.of_nat (S n))) by lia. rewrite fmap_cons. f_equal. f_equal; [lia|].
    replace (Z.pred (Z.of_nat (S n))) with (Z.of_nat n) by lia.
    replace (Z.succ 0) with (1 + 0) by lia. rewrite <-(fmap_add_seqZ 1 0), <-list_fmap_compose.
    apply list_fmap_ext. intros i x _. simpl. lia.
Qed.

(** ** Properties *)

Module AddressProps.

(** Sign extension and truncation of virtual addresses are inverse: a 39-bit
    address extends to a canonical 64-bit one and comes back, and every canonical
    address survives the round trip. *)
Theorem virt_addr_roundtrip :
  (∀ v, 0 ≤ v < 2 ^ VA_WIDTH → canonical (full_addr v) ∧ VirtAddr_from (full_addr v) = v) ∧
  (∀ a, canonical a → full_addr (VirtAddr_from a) = a).
Proof.
  unfold canonical. split.
  - intros v Hv. rewrite VirtAddr_from_mod. destruct (decide (v < 2 ^ (VA_WIDTH - 1))).
    + rewrite full_addr_low by done. split; [lia|]. by apply Z.mod_small.
    + rewrite full_addr_high by lia. split; [unfold VA_WIDTH in *; lia|].
      replace (v + (2 ^ 64 - 2 ^ VA_WIDTH)) with (v + (2 ^ 25 - 1) * 2 ^ VA_WIDTH) by (unfold VA_WIDTH; lia).
      rewrite Z.mod_add by done. by apply Z.mod_small.
  - intros a [Ha|Ha]; rewrite VirtAddr_from_mod.
    + rewrite Z.mod_small by (unfold VA_WIDTH in *; lia). apply full_addr_low. lia.
    + assert (a `mod` 2 ^ VA_WIDTH = a - (2 ^ 64 - 2 ^ VA_WIDTH)) as ->.
      { symmetry. apply (Z.mod_unique_pos a (2 ^ VA_WIDTH) (2 ^ 25 - 1)); unfold VA_WIDTH in *; lia. }
      rewrite full_addr_high; unfold VA_WIDTH in *; lia.
Qed.

(** The three table indexes of a page number are below 512 and determine it:
    page numbers of the address space with the same indexes are equal. *)
Theorem indexes_injective :
  (∀ vpn, Forall (λ i, 0 ≤ i < 512) (indexes vpn) ∧ length (indexes vpn) = 3%nat) ∧
  (∀ a b, 0 ≤ a < 2 ^ VPN_WIDTH → 0 ≤ b < 2 ^ VPN_WIDTH → indexes a = indexes b → a = b).
Proof.
  split.
  - intros vpn. rewrite indexes_digits. split; [|done].
    repeat constructor; by apply Z.mod_pos_bound.
  - intros a b Ha Hb. rewrite !indexes_digits. intros [= H0 H1 H2].
    change (2 ^ VPN_WIDTH) with 134217728 in *. change (2 ^ 18) with 262144 in *.
    change (2 ^ 9) with 512 in *. Z.to_euclidean_division_equations. lia.
Qed.

(** A [for] loop over a range of pages visits exactly the pages from its start
    to its end, in steps, and ends, when the step divides the length. *)
Theorem range_visits c e step n :
  0 < step → e = c + Z.of_nat n * step → e ≤ USIZE_MAX →
  visit (S n) c e step = Some ((λ i, c + i * step) <$> seqZ 0 (Z.of_nat n)).
Proof. intros Hs He Hm. by apply visit_arith; [lia|..]. Qed.

Lemma range_visits_witness :
  0 < 512 ∧ visit 4 1024 2560 512 = Some [1024; 1536; 2048].
Proof. split; [lia|]. apply (range_visits 1024 2560 512 3); vm_compute; congruence. Defined.

(** A step that jumps over the end is not noticed: the loop runs on to the
    overflow check. *)
Example step_over_end : next 10 9 512 = Some (Some (10, 522)).
Proof. reflexivity. Qed.

(** The ceiling of address zero is a panic for virtual addresses only. *)
Example ceil_of_zero : VirtAddr_std_ceil 0 = None ∧ PhysAddr_std_ceil 0 = Some 0.
Proof. by vm_compute. Qed.

End AddressProps.
