(* ===== verification/FrameAllocator.v ===== *)
(** * The physical frame allocator (os/src/mm/frame_allocator.rs)

    [StackFrameAllocator]: a bump pointer over the free physical range and three
    stacks of recycled blocks of 1, 512 and 262144 frames.  The invariant says that
    the recycled blocks and the blocks handed out tile the range below the bump
    pointer, so that no frame is ever in two places and none is lost. *)

From S2P Require Import Prelude Address.

Local Open Scope Z_scope.

(** ** The allocator *)

Record StackFrameAllocator := MkAlloc {
  current : Z;
  end_ : Z;
  recycled_std : list Z;
  recycled_mega : list Z;
  recycled_giga : list Z;
}.

Definition new : StackFrameAllocator := MkAlloc 0 0 [] [] [].

Definition init (a : StackFrameAllocator) (l r : Z) : StackFrameAllocator :=
  MkAlloc l r (recycled_std a) (recycled_mega a) (recycled_giga a).

Definition with_std (l : list Z) (a : StackFrameAllocator) : StackFrameAllocator :=
  MkAlloc (current a) (end_ a) l (recycled_mega a) (recycled_giga a).

Definition with_mega (l : list Z) (a : StackFrameAllocator) : StackFrameAllocator :=
  MkAlloc (current a) (end_ a) (recycled_std a) l (recycled_giga a).

Definition with_giga (l : list Z) (a : StackFrameAllocator) : StackFrameAllocator :=
  MkAlloc (current a) (end_ a) (recycled_std a) (recycled_mega a) l.

Definition with_current (c : Z) (a : StackFrameAllocator) : StackFrameAllocator :=
  MkAlloc c (end_ a) (recycled_std a) (recycled_mega a) (recycled_giga a).

(** The [while] loop of [recycle_range]. *)
Fixpoint recycle_loop (fuel : nat) (a : StackFrameAllocator) (pos end' : Z)
    : option StackFrameAllocator :=
  match fuel with
  | O => None
  | S fuel =>
    let mega := num_pages Page2M in
    let giga := num_pages Page1G in
    if pos <? end' then
      if (pos mod giga =? 0) && (end' - pos >=? giga) then
        p ← checked_add pos giga;
        recycle_loop fuel (with_giga (vec_push (recycled_giga a) pos) a) p end'
      else if (pos mod mega =? 0) && (end' - pos >=? mega) then
        p ← checked_add pos mega;
        recycle_loop fuel (with_mega (vec_push (recycled_mega a) pos) a) p end'
      else
        p ← checked_add pos 1;
        recycle_loop fuel (with_std (vec_push (recycled_std a) pos) a) p end'
    else Some a
  end.

(** The loop advances by at least one frame each time. *)
Definition recycle_range (a : StackFrameAllocator) (pos end' : Z) : option StackFrameAllocator :=
  recycle_loop (S (Z.to_nat (end' - pos))) a pos end'.

(** [split_into]: the blocks [1..total] go to the recycler, block 0 is returned. *)
Fixpoint split_loop (n : nat) (i base unit : Z) (recycler : list Z) : option (list Z) :=
  match n with
  | O => Some recycler
  | S n =>
    x ← checked_mul i unit;
    y ← checked_add base x;
    split_loop n (i + 1) base unit (vec_push recycler y)
  end.

Definition split_into (base total unit : Z) (recycler : list Z) : option (Z * list Z) :=
  recycler ← split_loop (Z.to_nat (total - 1)) 1 base unit recycler;
  Some (base, recycler).

Definition free_frames (a : StackFrameAllocator) : option Z :=
  fresh ← checked_sub (end_ a) (current a);
  std ← checked_mul (Z.of_nat (length (recycled_std a))) (num_pages Page4K);
  mega ← checked_mul (Z.of_nat (length (recycled_mega a))) (num_pages Page2M);
  giga ← checked_mul (Z.of_nat (length (recycled_giga a))) (num_pages Page1G);
  x ← checked_add fresh std;
  x ← checked_add x mega;
  checked_add x giga.

Definition alloc_std (a : StackFrameAllocator) : option (option Z * StackFrameAllocator) :=
  match vec_pop (recycled_std a) with
  | Some (ppn, l) => Some (Some (PhysPageNum_from ppn), with_std l a)
  | None =>
    match vec_pop (recycled_mega a) with
    | Some (mega_ppn, l) =>
      '(base, std) ← split_into mega_ppn (num_pages Page2M) 1 (recycled_std a);
      Some (Some (PhysPageNum_from base), with_std std (with_mega l a))
    | None =>
      if current a <? end_ a then
        c ← checked_add (current a) 1;
        Some (Some (PhysPageNum_from (c - 1)), with_current c a)
      else
        match vec_pop (recycled_giga a) with
        | Some (giga_ppn, l) =>
          let mega_pages := num_pages Page2M in
          let mega_in_giga := num_pages Page1G / mega_pages in
          '(first_mega, megas) ← split_into giga_ppn mega_in_giga mega_pages (recycled_mega a);
          '(base, std) ← split_into first_mega mega_pages 1 (recycled_std a);
          Some (Some (PhysPageNum_from base), with_std std (with_mega megas (with_giga l a)))
        | None => Some (None, a)
        end
    end
  end.

(** The aligned fresh block at the end of [alloc_mega] and [alloc_giga]. *)
Definition alloc_fresh (a : StackFrameAllocator) (pages : Z)
    : option (option Z * StackFrameAllocator) :=
  x ← checked_add (current a) pages;
  x ← checked_sub x 1;
  aligned_current ← checked_mul (x / pages) pages;
  top ← checked_add aligned_current pages;
  if top >? end_ a then Some (None, a)
  else
    a ← recycle_range a (current a) aligned_current;
    Some (Some (PhysPageNum_from aligned_current), with_current top a).

Definition alloc_mega (a : StackFrameAllocator) : option (option Z * StackFrameAllocator) :=
  let mega_pages := num_pages Page2M in
  match vec_pop (recycled_mega a) with
  | Some (ppn, l) => Some (Some (PhysPageNum_from ppn), with_mega l a)
  | None =>
    match vec_pop (recycled_giga a) with
    | Some (giga_ppn, l) =>
      let mega_in_giga := num_pages Page1G / mega_pages in
      '(base, megas) ← split_into giga_ppn mega_in_giga mega_pages (recycled_mega a);
      Some (Some (PhysPageNum_from base), with_mega megas (with_giga l a))
    | None => alloc_fresh a mega_pages
    end
  end.

Definition alloc_giga (a : StackFrameAllocator) : option (option Z * StackFrameAllocator) :=
  match vec_pop (recycled_giga a) with
  | Some (ppn, l) => Some (Some (PhysPageNum_from ppn), with_giga l a)
  | None => alloc_fresh a (num_pages Page1G)
  end.

Definition alloc (a : StackFrameAllocator) (p : PageSize) : option (option Z * StackFrameAllocator) :=
  match p with
  | Page4K => alloc_std a
  | Page2M => alloc_mega a
  | Page1G => alloc_giga a
  end.

(** The stack of recycled blocks of a size. *)
Definition recycled (p : PageSize) (a : StackFrameAllocator) : list Z :=
  match p with
  | Page4K => recycled_std a
  | Page2M => recycled_mega a
  | Page1G => recycled_giga a
  end.

Definition with_recycled (p : PageSize) (l : list Z) (a : StackFrameAllocator) : StackFrameAllocator :=
  match p with
  | Page4K => with_std l a
  | Page2M => with_mega l a
  | Page1G => with_giga l a
  end.

Definition dealloc (a : StackFrameAllocator) (ppn : Z) (p : PageSize) : option StackFrameAllocator :=
  let already_freed := bool_decide (ppn ∈ recycled p a) in
  if (ppn >=? end_ a) || already_freed then None
  else Some (with_recycled p (vec_push (recycled p a) ppn) a).

(** ** The invariant *)

(** A block is its first frame and its size. *)
Definition block : Type := Z * PageSize.

Definition frames_of (b : block) : list Z := seqZ b.1 (num_pages b.2).

Definition aligned (b : block) : Prop := (num_pages b.2 | b.1).

Definition cover (bs : list block) : list Z := bs ≫= frames_of.

Definition blocks (a : StackFrameAllocator) : list block :=
  ((., Page4K) <$> recycled_std a) ++ ((., Page2M) <$> recycled_mega a) ++
  ((., Page1G) <$> recycled_giga a).

(** The recycled blocks and the blocks [owned] by clients tile the frames from
    [lo], where the physical range starts, to the bump pointer. *)
Record fa_inv (lo : Z) (a : StackFrameAllocator) (owned : list block) : Prop := {
  fi_range : 0 ≤ lo ≤ current a ∧ current a ≤ end_ a ≤ 2 ^ PPN_WIDTH;
  fi_aligned : Forall aligned (blocks a ++ owned);
  fi_cover : cover (blocks a ++ owned) ≡ₚ seqZ lo (current a - lo);
}.

(** ** Tilings *)

Lemma cover_app bs1 bs2 : cover (bs1 ++ bs2) = cover bs1 ++ cover bs2.
Proof. apply bind_app. Qed.

Lemma cover_cons b bs : cover (b :: bs) = frames_of b ++ cover bs.
Proof. done. Qed.

#[export] Instance cover_perm : Proper ((≡ₚ) ==> (≡ₚ)) cover.
Proof. intros l1 l2 Hl. unfold cover. by rewrite Hl. Qed.

Lemma seqZ_split b n m : 0 ≤ n → 0 ≤ m → seqZ b (n + m) = seqZ b n ++ seqZ (b + n) m.
Proof. intros Hn Hm. by apply seqZ_app. Qed.

(** [n] blocks of size [p] in a row. *)
Definition row (p : PageSize) (b : Z) (n : nat) : list block :=
  (λ i, (b + Z.of_nat i * num_pages p, p)) <$> seq 0 n.

Lemma row_S p b n : row p b (S n) = (b, p) :: row p (b + num_pages p) n.
Proof.
  unfold row. cbn [seq]. rewrite fmap_cons. f_equal; [f_equal; lia|].
  rewrite <-fmap_S_seq, <-list_fmap_compose. apply list_fmap_ext. intros i x _. simpl. f_equal. lia.
Qed.

Lemma cover_row p b n : cover (row p b n) = seqZ b (Z.of_nat n * num_pages p).
Proof.
  pose proof (num_pages_pos p). revert b. induction n as [|n IH]; intros b; [done|].
  rewrite row_S, cover_cons, IH. unfold frames_of. simpl. rewrite <-seqZ_split by lia. f_equal. lia.
Qed.

Lemma row_aligned p b n : aligned (b, p) → Forall aligned (row p b n).
Proof.
  intros Hb. apply Forall_fmap, Forall_true. intros i. unfold aligned. simpl.
  apply Z.divide_add_r; [exact Hb|]. apply Z.divide_factor_r.
Qed.

Lemma split_loop_ok n i base unit l :
  0 ≤ i → 0 ≤ unit → 0 ≤ base → base + (i + Z.of_nat n) * unit ≤ USIZE_MAX →
  split_loop n i base unit l = Some (l ++ ((λ k, base + (i + Z.of_nat k) * unit) <$> seq 0 n)).
Proof.
  revert i l. induction n as [|n IH]; intros i l Hi Hu Hb Hm; cbn [split_loop].
  { by rewrite app_nil_r. }
  unfold checked_mul, checked_add. rewrite (proj2 (Z.leb_le _ _)) by nia. cbn [mbind option_bind].
  rewrite (proj2 (Z.leb_le _ _)) by nia. cbn [mbind option_bind].
  rewrite IH by lia. unfold vec_push. cbn [seq]. rewrite fmap_cons, <-app_assoc. simpl. f_equal. f_equal.
  f_equal; [lia|]. rewrite <-fmap_S_seq, <-list_fmap_compose. apply list_fmap_ext. intros k x _. simpl. lia.
Qed.

(** Splitting a big block keeps its first part and recycles the others. *)
Lemma split_into_ok big small base l :
  0 ≤ base → base + num_pages big ≤ 2 ^ PPN_WIDTH → (walk_level big < walk_level small)%nat →
  ∃ rest, split_into base (num_pages big / num_pages small) (num_pages small) l = Some (base, l ++ rest) ∧
    frames_of (base, small) ++ cover ((., small) <$> rest) = frames_of (base, big) ∧
    (aligned (base, big) → aligned (base, small) ∧ Forall aligned ((., small) <$> rest)).
Proof.
  intros Hb Hm Hl. set (u := num_pages small). set (t := Z.to_nat (num_pages big / u)).
  assert (num_pages big = num_pages big / u * u ∧ 0 < num_pages big / u) as [Hd Hd']
    by (subst u; clear t; destruct big, small; simpl in Hl; lia || done).
  assert (num_pages big = Z.of_nat t * u ∧ (0 < t)%nat) as [Ht Hp] by (subst t; lia).
  assert (Z.to_nat (num_pages big / u - 1) = (t - 1)%nat) as Hn by (subst t; lia). clearbody t.
  assert (0 < u) as Hu by apply num_pages_pos.
  exists ((λ k, base + (1 + Z.of_nat k) * u) <$> seq 0 (t - 1)).
  unfold split_into. fold u. rewrite Hn, split_loop_ok; [|lia..|change (2 ^ PPN_WIDTH) with (2 ^ 44) in Hm; unfold USIZE_MAX; nia].
  cbn [mbind option_bind].
  assert ((base, small) :: ((., small) <$> ((λ k, base + (1 + Z.of_nat k) * u) <$> seq 0 (t - 1))) =
    row small base t) as Hrow.
  { destruct t as [|t]; [lia|]. rewrite row_S. f_equal. unfold row. rewrite <-list_fmap_compose.
    replace (S t - 1)%nat with t by lia. apply list_fmap_ext. intros k x _. simpl. f_equal. fold u. lia. }
  split_and!.
  - done.
  - trans (cover (row small base t)); [by rewrite <-Hrow|]. rewrite cover_row. unfold frames_of. simpl. fold u. by rewrite Ht.
  - intros Ha. assert (aligned (base, small)) as Hs.
    { unfold aligned in *. simpl in *. etrans; [|exact Ha]. fold u. rewrite Ht. apply Z.divide_factor_r. }
    split; [done|]. pose proof (row_aligned small base t Hs) as Hr. rewrite <-Hrow in Hr.
    by apply Forall_cons in Hr as [_ Hr].
Qed.

(** Blocks added to and taken from one of the stacks. *)
Lemma blocks_push p l a :
  blocks (with_recycled p (recycled p a ++ l) a) ≡ₚ ((., p) <$> l) ++ blocks a.
Proof. unfold blocks. destruct p; simpl; rewrite fmap_app; solve_perm. Qed.

Lemma blocks_pop p l x a :
  recycled p a = l ++ [x] → blocks a ≡ₚ (x, p) :: blocks (with_recycled p l a).
Proof. unfold blocks. destruct p; simpl; intros ->; rewrite fmap_app; simpl; solve_perm. Qed.

Lemma aligned_iff b p : aligned (b, p) ↔ b mod num_pages p = 0.
Proof. unfold aligned. simpl. rewrite <-Z.mod_divide; [done|]. pose proof (num_pages_pos p). lia. Qed.

(** What [recycle_range] did: new recycled blocks that tile the range. *)
Definition recycled_over (a a' : StackFrameAllocator) (pos e : Z) : Prop :=
  current a' = current a ∧ end_ a' = end_ a ∧
  ∃ bs, blocks a' ≡ₚ bs ++ blocks a ∧ cover bs = seqZ pos (e - pos) ∧ Forall aligned bs.

Lemma recycled_over_cons a a1 a' pos e p :
  current a1 = current a → end_ a1 = end_ a → blocks a1 ≡ₚ (pos, p) :: blocks a →
  aligned (pos, p) → pos + num_pages p ≤ e →
  recycled_over a1 a' (pos + num_pages p) e → recycled_over a a' pos e.
Proof.
  intros Hc He Hb Ha Hle (Hc' & He' & bs & Hbs & Hcov & Hal). pose proof (num_pages_pos p).
  split_and!; [congruence..|]. exists ((pos, p) :: bs). split_and!.
  - rewrite Hbs, Hb. solve_perm.
  - rewrite cover_cons, Hcov. unfold frames_of. simpl. rewrite <-seqZ_split by lia. f_equal. lia.
  - by constructor.
Qed.

Lemma recycle_loop_ok fuel a pos e :
  0 ≤ pos ≤ e → e ≤ 2 ^ PPN_WIDTH → (Z.to_nat (e - pos) < fuel)%nat →
  wp (recycle_loop fuel a pos e) (λ a', recycled_over a a' pos e).
Proof.
  revert a pos. induction fuel as [|fuel IH]; intros a pos Hp He Hf; [lia|]. cbn [recycle_loop]. cbv zeta.
  assert (∀ p, pos mod num_pages p = 0 → pos + num_pages p ≤ e →
    wp (q ← checked_add pos (num_pages p);
        recycle_loop fuel (with_recycled p (vec_push (recycled p a) pos) a) q e)
       (λ a', recycled_over a a' pos e)) as Hstep.
  { intros p Hal Hle. pose proof (num_pages_pos p) as Hn. apply wp_bind. unfold checked_add.
    change (2 ^ PPN_WIDTH) with (2 ^ 44) in He.
    rewrite (proj2 (Z.leb_le _ _)) by (unfold USIZE_MAX; lia). apply wp_ret.
    eapply wp_mono; [apply IH; [lia|done|lia]|]. intros a' Ha'.
    eapply recycled_over_cons; [| | | |exact Hle|exact Ha']; [by destruct p..| |by apply aligned_iff].
    apply (blocks_push p [pos] a). }
  destruct (Z.ltb_spec pos e); last first.
  { assert (pos = e) as -> by lia. apply wp_ret. split_and!; [done..|]. exists []. rewrite Z.sub_diag. done. }
  destruct (Z.eqb_spec (pos mod num_pages Page1G) 0), (Z.geb_spec (e - pos) (num_pages Page1G)); simpl;
    try (apply (Hstep Page1G); [done|lia]);
    destruct (Z.eqb_spec (pos mod num_pages Page2M) 0), (Z.geb_spec (e - pos) (num_pages Page2M)); simpl;
    try (apply (Hstep Page2M); [done|lia]);
    (apply (Hstep Page4K); [apply Z.mod_1_r|change (num_pages Page4K) with 1; lia]).
Qed.

(** ** Preservation *)

(** A step of the allocator that hands out, takes back or recycles blocks. *)
Lemma fa_inv_step lo a a' owned owned' fresh :
  fa_inv lo a owned → current a ≤ current a' ≤ end_ a → end_ a' = end_ a →
  Forall aligned (blocks a' ++ owned') →
  cover fresh = seqZ (current a) (current a' - current a) →
  cover (blocks a' ++ owned') ≡ₚ cover (fresh ++ blocks a ++ owned) →
  fa_inv lo a' owned'.
Proof.
  intros [Hr Ha Hc] Hcur He Ha' Hfresh Hcov. split; [lia|done|].
  rewrite Hcov, cover_app, Hc, Hfresh, (Permutation_app_comm (seqZ (current a) _)).
  replace (current a' - lo) with ((current a - lo) + (current a' - current a)) by lia.
  rewrite seqZ_split by lia. by replace (lo + (current a - lo)) with (current a) by lia.
Qed.

(** A block of the tiling lies in the range. *)
Lemma fa_inv_block lo a owned b p :
  fa_inv lo a owned → (b, p) ∈ blocks a ++ owned → lo ≤ b ∧ b + num_pages p ≤ current a.
Proof.
  intros [Hr _ Hc] Hin. pose proof (num_pages_pos p).
  assert (∀ x, b ≤ x < b + num_pages p → lo ≤ x < current a) as Hx.
  { intros x Hx. assert (x ∈ seqZ lo (current a - lo)) as Hel; [|apply elem_of_seqZ in Hel; lia].
    rewrite <-Hc. apply list_elem_of_bind. exists (b, p). split; [|done]. apply elem_of_seqZ. simpl. lia. }
  pose proof (Hx b). pose proof (Hx (b + num_pages p - 1)). lia.
Qed.

Lemma ppn_from_owned lo a owned b p :
  fa_inv lo a owned → (b, p) ∈ blocks a ++ owned → PhysPageNum_from b = b.
Proof.
  intros Hi Hin. pose proof (fi_range _ _ _ Hi). pose proof (num_pages_pos p).
  apply (fa_inv_block _ _ _ _ _ Hi) in Hin. apply PhysPageNum_from_id. lia.
Qed.

(** Taking the top of a stack. *)
Lemma take_ok lo a owned p l x :
  fa_inv lo a owned → vec_pop (recycled p a) = Some (x, l) →
  fa_inv lo (with_recycled p l a) ((x, p) :: owned).
Proof.
  intros Hi Hl%vec_pop_Some. pose proof (blocks_pop p l x a Hl) as Hb. pose proof (fi_range _ _ _ Hi).
  assert (blocks (with_recycled p l a) ++ (x, p) :: owned ≡ₚ blocks a ++ owned) as Hp
    by (rewrite Hb; solve_perm).
  assert (current (with_recycled p l a) = current a) as Hc by (by destruct p).
  apply (fa_inv_step lo a _ owned _ []); [done|rewrite Hc; lia|by destruct p| |by rewrite Hc, Z.sub_diag|].
  - rewrite Hp. apply (fi_aligned _ _ _ Hi).
  - by rewrite Hp.
Qed.

(** Splitting a block that has been taken. *)
Lemma split_ok lo a owned x big small :
  fa_inv lo a ((x, big) :: owned) → (walk_level big < walk_level small)%nat →
  ∃ l, split_into x (num_pages big / num_pages small) (num_pages small) (recycled small a) = Some (x, l) ∧
    fa_inv lo (with_recycled small l a) ((x, small) :: owned).
Proof.
  intros Hi Hw. pose proof (fi_range _ _ _ Hi) as Hr.
  destruct (fa_inv_block lo a _ x big Hi) as [Hlo Hhi]; [apply elem_of_app; right; by left|].
  destruct (split_into_ok big small x (recycled small a)) as (rest & Heq & Hcov & Hal); [lia|lia|done|].
  eexists. split; [exact Heq|]. pose proof (blocks_push small rest a) as Hb.
  set (a' := with_recycled small _ a) in *.
  assert (current a' = current a ∧ end_ a' = end_ a) as [Hc He] by (subst a'; by destruct small).
  pose proof (fi_aligned _ _ _ Hi) as Ha. apply Forall_app in Ha as [Ha1 [Hax Ha2]%Forall_cons].
  destruct (Hal Hax) as [Hs Hrest].
  apply (fa_inv_step lo a _ _ _ [] Hi); [lia|done| |by rewrite Hc, Z.sub_diag|].
  - rewrite Hb. apply Forall_app. split; [by apply Forall_app|by constructor].
  - rewrite Hb. simpl. rewrite !cover_app, !cover_cons, <-Hcov. rewrite !app_assoc.
    rewrite (Permutation_app_comm _ (frames_of (x, small))). solve_perm.
Qed.

(** No block of the size can be allocated. *)
Definition exhausted (p : PageSize) (a : StackFrameAllocator) : Prop :=
  (∀ b q, (b, q) ∈ blocks a → num_pages q < num_pages p) ∧
  ∀ b, current a ≤ b → aligned (b, p) → end_ a < b + num_pages p.

(** What an allocation of size [p] does. *)
Definition allocated lo owned p a (res : option Z) (a' : StackFrameAllocator) : Prop :=
  end_ a' = end_ a ∧
  match res with
  | Some b => fa_inv lo a' ((b, p) :: owned)
  | None => a' = a ∧ ∀ b, current a ≤ b → aligned (b, p) → end_ a < b + num_pages p
  end.

Lemma alloc_fresh_ok lo a owned p :
  fa_inv lo a owned →
  wp (alloc_fresh a (num_pages p)) (λ '(res, a'), allocated lo owned p a res a').
Proof.
  intros Hi. pose proof (fi_range _ _ _ Hi) as Hr. change (2 ^ PPN_WIDTH) with (2 ^ 44) in Hr.
  assert (num_pages p ≤ 2 ^ 18) as Hp by (by destruct p). pose proof (num_pages_pos p) as Hp0.
  set (n := num_pages p) in *. unfold alloc_fresh. set (al := (current a + n - 1) / n * n).
  assert (current a ≤ al < current a + n) as Hal.
  { pose proof (Z.div_mod (current a + n - 1) n). pose proof (Z.mod_pos_bound (current a + n - 1) n). subst al. lia. }
  assert ((n | al)) as Hdiv by apply Z.divide_factor_r.
  unfold checked_add at 1, checked_sub at 1, checked_mul at 1, checked_add at 1.
  rewrite (proj2 (Z.leb_le _ _)) by (unfold USIZE_MAX; lia). cbn [mbind option_bind].
  rewrite (proj2 (Z.leb_le _ _)) by lia. cbn [mbind option_bind]. fold al.
  rewrite (proj2 (Z.leb_le _ _)) by (unfold USIZE_MAX; lia). cbn [mbind option_bind].
  rewrite (proj2 (Z.leb_le _ _)) by (unfold USIZE_MAX; lia). cbn [mbind option_bind].
  rewrite Z.gtb_ltb. destruct (Z.ltb_spec (end_ a) (al + n)) as [Hgt|Hle].
  - apply wp_ret. split_and!; [done..|]. intros b Hb Hab. fold n. unfold aligned in Hab. simpl in Hab. fold n in Hab.
    destruct Hab as [k ->], Hdiv as [k' Hk']. rewrite Hk' in *. assert (k' ≤ k) by nia. nia.
  - apply wp_bind. eapply wp_mono; [apply recycle_loop_ok; [lia|change (2 ^ PPN_WIDTH) with (2 ^ 44); lia|lia]|].
    intros a1 (Hc1 & He1 & bs & Hb1 & Hcov & Halb). apply wp_ret. split; [done|].
    rewrite PhysPageNum_from_id by (change (2 ^ PPN_WIDTH) with (2 ^ 44); lia).
    apply (fa_inv_step lo a _ owned _ (bs ++ [(al, p)])); [done|simpl; lia|done| | |].
    + change (blocks (with_current (al + n) a1)) with (blocks a1). rewrite Hb1.
      pose proof (fi_aligned _ _ _ Hi) as Ha. apply Forall_app in Ha as [Ha1 Ha2].
      apply Forall_app. split; [by apply Forall_app|by constructor].
    + rewrite cover_app, Hcov, cover_cons. unfold frames_of. simpl. fold n. rewrite app_nil_r.
      replace al with (current a + (al - current a)) at 2 by lia. rewrite <-seqZ_split by lia. f_equal. lia.
    + change (blocks (with_current (al + n) a1)) with (blocks a1). apply cover_perm. rewrite Hb1. solve_perm.
Qed.

Lemma exhausted_if a p :
  (∀ q, num_pages p ≤ num_pages q → recycled q a = []) →
  (∀ b, current a ≤ b → aligned (b, p) → end_ a < b + num_pages p) → exhausted p a.
Proof.
  intros Hq Hf. split; [|done]. intros b q Hin. destruct (decide (num_pages p ≤ num_pages q)) as [Hle|]; [|lia].
  exfalso. specialize (Hq q Hle). unfold blocks in Hin.
  rewrite !elem_of_app, !list_elem_of_fmap in Hin.
  destruct Hin as [(x & [= <- ->] & Hx)|[(x & [= <- ->] & Hx)|(x & [= <- ->] & Hx)]]; simpl in Hq;
    rewrite Hq in Hx; by apply not_elem_of_nil in Hx.
Qed.

(** The outcome of an allocation of size [p]. *)
Definition alloc_post lo owned p a (x : option Z * StackFrameAllocator) : Prop :=
  end_ x.2 = end_ a ∧
  match x.1 with
  | Some b => fa_inv lo x.2 ((b, p) :: owned)
  | None => x.2 = a ∧ exhausted p a
  end.

Lemma alloc_post_ret lo owned p a a' b :
  end_ a' = end_ a → fa_inv lo a' ((b, p) :: owned) →
  alloc_post lo owned p a (Some (PhysPageNum_from b), a').
Proof.
  intros He Hi. split; [done|]. simpl. erewrite ppn_from_owned; [done|exact Hi|].
  apply elem_of_app. right. by left.
Qed.

Lemma wp_alloc_fresh lo a owned p :
  fa_inv lo a owned → (∀ q, num_pages p ≤ num_pages q → recycled q a = []) →
  wp (alloc_fresh a (num_pages p)) (alloc_post lo owned p a).
Proof.
  intros Hi Hq. eapply wp_mono; [by apply alloc_fresh_ok|]. intros [[b|] a'] [He Hres]; [done|].
  split; [done|]. destruct Hres as [-> Hf]. split; [done|]. by apply exhausted_if.
Qed.

Lemma alloc_one_fresh lo a owned :
  fa_inv lo a owned → current a < end_ a →
  fa_inv lo (with_current (current a + 1) a) ((current a, Page4K) :: owned).
Proof.
  intros Hi Hlt. pose proof (fi_range _ _ _ Hi).
  apply (fa_inv_step lo a _ owned _ [(current a, Page4K)]); [done|simpl; lia|done| | |].
  - change (blocks (with_current _ a)) with (blocks a). pose proof (fi_aligned _ _ _ Hi) as Ha.
    apply Forall_app in Ha as [Ha1 Ha2]. apply Forall_app. split; [done|]. constructor; [|done].
    apply aligned_iff, Z.mod_1_r.
  - simpl. by replace (current a + 1 - current a) with 1 by lia.
  - change (blocks (with_current _ a)) with (blocks a). apply cover_perm. solve_perm.
Qed.

Lemma wp_alloc_giga lo a owned :
  fa_inv lo a owned → wp (alloc_giga a) (alloc_post lo owned Page1G a).
Proof.
  intros Hi. unfold alloc_giga. destruct (vec_pop (recycled_giga a)) as [[x l]|] eqn:Hg.
  - apply wp_ret, alloc_post_ret; [done|]. by apply (take_ok lo a owned Page1G).
  - apply vec_pop_None in Hg. apply wp_alloc_fresh; [done|]. by intros [].
Qed.

Lemma wp_alloc_mega lo a owned :
  fa_inv lo a owned → wp (alloc_mega a) (alloc_post lo owned Page2M a).
Proof.
  intros Hi. unfold alloc_mega. destruct (vec_pop (recycled_mega a)) as [[x l]|] eqn:Hm.
  { apply wp_ret, alloc_post_ret; [done|]. by apply (take_ok lo a owned Page2M). }
  destruct (vec_pop (recycled_giga a)) as [[x l]|] eqn:Hg.
  - pose proof (take_ok lo a owned Page1G l x Hi Hg) as Hi'.
    destruct (split_ok _ _ _ _ _ Page2M Hi') as (l1 & Heq1 & Hi1); [simpl; lia|].
    change (split_into x (num_pages Page1G / num_pages Page2M) (num_pages Page2M) (recycled_mega a) = Some (x, l1)) in Heq1.
    cbv zeta. rewrite Heq1. by apply wp_ret, alloc_post_ret.
  - apply vec_pop_None in Hm, Hg. apply wp_alloc_fresh; [done|]. by intros [].
Qed.

Lemma wp_alloc_std lo a owned :
  fa_inv lo a owned → wp (alloc_std a) (alloc_post lo owned Page4K a).
Proof.
  intros Hi. unfold alloc_std. destruct (vec_pop (recycled_std a)) as [[x l]|] eqn:Hs.
  { apply wp_ret, alloc_post_ret; [done|]. by apply (take_ok lo a owned Page4K). }
  destruct (vec_pop (recycled_mega a)) as [[x l]|] eqn:Hm.
  { pose proof (take_ok lo a owned Page2M l x Hi Hm) as Hi'.
    destruct (split_ok _ _ _ _ _ Page4K Hi') as (l' & Heq & Hi''); [simpl; lia|].
    change (split_into x (num_pages Page2M) 1 (recycled_std a) = Some (x, l')) in Heq.
    rewrite Heq. by apply wp_ret, alloc_post_ret. }
  destruct (Z.ltb_spec (current a) (end_ a)) as [Hlt|Hge].
  { pose proof (fi_range _ _ _ Hi) as Hr. unfold checked_add. change (2 ^ PPN_WIDTH) with (2 ^ 44) in Hr.
    rewrite (proj2 (Z.leb_le _ _)) by (unfold USIZE_MAX; lia). apply wp_ret.
    rewrite Z.add_simpl_r. apply alloc_post_ret; [done|]. by apply alloc_one_fresh. }
  destruct (vec_pop (recycled_giga a)) as [[x l]|] eqn:Hg.
  { pose proof (take_ok lo a owned Page1G l x Hi Hg) as Hi'.
    destruct (split_ok _ _ _ _ _ Page2M Hi') as (l1 & Heq1 & Hi1); [simpl; lia|].
    destruct (split_ok _ _ _ _ _ Page4K Hi1) as (l2 & Heq2 & Hi2); [simpl; lia|].
    change (split_into x (num_pages Page1G / num_pages Page2M) (num_pages Page2M) (recycled_mega a) = Some (x, l1)) in Heq1.
    change (split_into x (num_pages Page2M) 1 (recycled_std a) = Some (x, l2)) in Heq2.
    cbv zeta. rewrite Heq1. cbn [mbind option_bind]. rewrite Heq2. by apply wp_ret, alloc_post_ret. }
  apply vec_pop_None in Hs, Hm, Hg. apply wp_ret. split; [done|]. split; [done|].
  apply exhausted_if; [by intros []|]. intros b Hb _. change (num_pages Page4K) with 1. lia.
Qed.

Lemma wp_alloc lo a owned p :
  fa_inv lo a owned → wp (alloc a p) (alloc_post lo owned p a).
Proof. destruct p; [apply wp_alloc_std|apply wp_alloc_mega|apply wp_alloc_giga]. Qed.

(** ** Disjointness and accounting *)

Lemma fa_inv_disjoint lo a owned b1 p1 b2 p2 x :
  fa_inv lo a ((b1, p1) :: owned) → (b2, p2) ∈ blocks a ++ owned →
  b1 ≤ x < b1 + num_pages p1 → ¬ (b2 ≤ x < b2 + num_pages p2).
Proof.
  intros [_ _ Hc] Hin Hx1 Hx2. assert (NoDup (cover (blocks a ++ (b1, p1) :: owned))) as Hnd
    by (rewrite Hc; apply NoDup_seqZ).
  rewrite <-Permutation_middle, cover_cons in Hnd. apply NoDup_app in Hnd as (_ & Hd & _).
  apply (Hd x); [apply elem_of_seqZ; simpl; lia|]. apply list_elem_of_bind. exists (b2, p2).
  split; [|done]. apply elem_of_seqZ. simpl. lia.
Qed.

(** The frames of a list of blocks. *)
Definition frames_in (bs : list block) : Z := Z.of_nat (length (cover bs)).

Lemma frames_in_app bs1 bs2 : frames_in (bs1 ++ bs2) = frames_in bs1 + frames_in bs2.
Proof. unfold frames_in. rewrite cover_app, length_app. lia. Qed.

Lemma frames_in_size p l : frames_in ((., p) <$> l) = Z.of_nat (length l) * num_pages p.
Proof.
  pose proof (num_pages_pos p). unfold frames_in. induction l as [|x l IH]; [done|].
  rewrite fmap_cons, cover_cons, length_app. unfold frames_of at 1. rewrite length_seqZ.
  cbn [snd length]. lia.
Qed.

Lemma fa_inv_frames lo a owned :
  fa_inv lo a owned → frames_in (blocks a) + frames_in owned = current a - lo.
Proof.
  intros [Hr _ Hc]. rewrite <-frames_in_app. unfold frames_in. rewrite Hc, length_seqZ. lia.
Qed.

Lemma free_frames_ok lo a owned :
  fa_inv lo a owned → free_frames a = Some (end_ a - lo - frames_in owned).
Proof.
  intros Hi. pose proof (fi_range _ _ _ Hi) as Hr. change (2 ^ PPN_WIDTH) with (2 ^ 44) in Hr.
  pose proof (fa_inv_frames _ _ _ Hi) as Hf. unfold blocks in Hf. rewrite !frames_in_app, !frames_in_size in Hf.
  assert (0 ≤ frames_in owned) by (unfold frames_in; lia).
  unfold free_frames, checked_sub, checked_mul, checked_add.
  set (s := Z.of_nat (length (recycled_std a)) * num_pages Page4K) in *.
  set (m := Z.of_nat (length (recycled_mega a)) * num_pages Page2M) in *.
  set (g := Z.of_nat (length (recycled_giga a)) * num_pages Page1G) in *.
  assert (0 ≤ s ∧ 0 ≤ m ∧ 0 ≤ g) by (split_and!; (apply Z.mul_nonneg_nonneg; [lia|done])).
  clearbody s m g. repeat (rewrite (proj2 (Z.leb_le _ _)) by (unfold USIZE_MAX; lia); cbn [mbind option_bind]).
  f_equal. lia.
Qed.

Lemma dealloc_ok lo a owned b p :
  fa_inv lo a ((b, p) :: owned) →
  ∃ a', dealloc a b p = Some a' ∧ end_ a' = end_ a ∧ fa_inv lo a' owned.
Proof.
  intros Hi. pose proof (fi_range _ _ _ Hi) as Hr. pose proof (num_pages_pos p) as Hp.
  destruct (fa_inv_block lo a _ b p Hi) as [_ Hb]; [apply elem_of_app; right; by left|].
  unfold dealloc. rewrite Z.geb_leb, (proj2 (Z.leb_gt _ _)) by lia.
  rewrite bool_decide_false; last first.
  { intros Hin. apply (fa_inv_disjoint lo a owned b p b p b Hi); [|lia..].
    apply elem_of_app. left. unfold blocks. destruct p; set_solver. }
  eexists. split; [done|]. pose proof (blocks_push p [b] a) as Hbl. simpl in Hbl. unfold vec_push.
  set (a' := with_recycled p _ a) in *.
  assert (current a' = current a ∧ end_ a' = end_ a) as [Hc He] by (subst a'; by destruct p).
  split; [done|]. apply (fa_inv_step lo a _ _ _ [] Hi); [lia|done| |by rewrite Hc, Z.sub_diag|].
  - rewrite Hbl. pose proof (fi_aligned _ _ _ Hi) as Ha. rewrite <-Permutation_middle in Ha. exact Ha.
  - apply cover_perm. rewrite Hbl. solve_perm.
Qed.

Lemma init_inv l r : 0 ≤ l ≤ r → r ≤ 2 ^ PPN_WIDTH → fa_inv l (init new l r) [].
Proof. intros Hl Hr. split; simpl; [lia|constructor|]. by rewrite Z.sub_diag. Qed.

(** ** What page tables ask of their source of frames *)

(** Single frames that are in nobody else's hands; [fs_owns w own] says that the
    clients hold the frames [own], and [fs_free w] counts the frames that are left. *)
Class FrameSource (W : Type) := {
  fs_alloc : W → option (option Z * W);
  fs_owns : W → list Z → Prop;
  fs_free : W → Z;
  fs_alloc_spec w own : fs_owns w own →
    wp (fs_alloc w) (λ '(res, w'),
      fs_owns w' (option_list res ++ own) ∧ fs_free w' = fs_free w - Z.of_nat (length (option_list res)) ∧
      (0 < fs_free w → is_Some res));
  fs_owns_ok w own : fs_owns w own → NoDup own ∧ Forall (λ p, 0 ≤ p < 2 ^ PPN_WIDTH) own;
}.

Lemma exhausted_std lo a owned : fa_inv lo a owned → exhausted Page4K a → free_frames a = Some 0.
Proof.
  intros Hi [Hb Hf]. rewrite (free_frames_ok lo a owned Hi). f_equal.
  pose proof (fa_inv_frames _ _ _ Hi) as Hfr. pose proof (fi_range _ _ _ Hi) as Hr.
  assert (blocks a = []) as Hn.
  { destruct (blocks a) as [|[b q] bs] eqn:E; [done|]. specialize (Hb b q ltac:(by left)).
    pose proof (num_pages_pos q). change (num_pages Page4K) with 1 in Hb. lia. }
  rewrite Hn in Hfr. change (frames_in []) with 0 in Hfr.
  specialize (Hf (current a) ltac:(lia) ltac:(apply aligned_iff, Z.mod_1_r)).
  change (num_pages Page4K) with 1 in Hf. lia.
Qed.

#[export, program] Instance StackFrameAllocator_source : FrameSource StackFrameAllocator := {|
  fs_alloc a := alloc a Page4K;
  fs_owns a own := ∃ lo others, fa_inv lo a (((., Page4K) <$> own) ++ others);
  fs_free a := default 0 (free_frames a);
|}.
Next Obligation.
  intros a own (lo & others & Hi). eapply wp_mono; [by apply wp_alloc|].
  intros [[b|] a'] [He Hres]; simpl in *.
  - split; [by exists lo, others|]. split; [|by eexists].
    rewrite (free_frames_ok _ _ _ Hres), (free_frames_ok _ _ _ Hi), He. simpl.
    change ((b, Page4K) :: ?l) with ([(b, Page4K)] ++ l). rewrite frames_in_app.
    change (frames_in [(b, Page4K)]) with 1. lia.
  - destruct Hres as [-> Hex]. split; [by exists lo, others|]. split; [lia|].
    rewrite (exhausted_std _ _ _ Hi Hex). simpl. lia.
Qed.
Next Obligation.
  intros a own (lo & others & Hi). pose proof (fi_range _ _ _ Hi) as Hr. split.
  - assert (NoDup (cover ((., Page4K) <$> own))) as Hnd.
    { pose proof (NoDup_seqZ lo (current a - lo)) as Hs. rewrite <-(fi_cover _ _ _ Hi), !cover_app in Hs.
      apply NoDup_app in Hs as (_ & _ & Hs). by apply NoDup_app in Hs as (Hs & _). }
    assert (cover ((., Page4K) <$> own) = own) as <-; [|done]. clear. induction own as [|x l IH]; [done|].
    rewrite fmap_cons, cover_cons, IH. done.
  - apply Forall_forall. intros p Hp. destruct (fa_inv_block lo a _ p Page4K Hi).
    { apply elem_of_app. right. apply elem_of_app. left. by apply (list_elem_of_fmap_2 (., Page4K)). }
    change (num_pages Page4K) with 1 in *. lia.
Qed.

(** ** Properties *)

Module FrameProps.

(** C23 An allocation never panics.  It hands out a block that is aligned to its
    size, lies in the physical range and shares no frame with any block that is
    still in use; it fails only when no recycled block is large enough and no
    aligned block is left above the bump pointer. *)
Theorem alloc_exclusive lo a owned p :
  fa_inv lo a owned →
  ∃ res a', alloc a p = Some (res, a') ∧
    match res with
    | Some b => fa_inv lo a' ((b, p) :: owned) ∧ aligned (b, p) ∧ lo ≤ b ∧ b + num_pages p ≤ end_ a ∧
        ∀ b' p' x, (b', p') ∈ owned → b ≤ x < b + num_pages p → ¬ (b' ≤ x < b' + num_pages p')
    | None => a' = a ∧ exhausted p a
    end.
Proof.
  intros Hi. destruct (wp_elim _ _ (wp_alloc lo a owned p Hi)) as ([[b|] a'] & Heq & He & Hres); simpl in *.
  - exists (Some b), a'. split; [done|]. assert ((b, p) ∈ blocks a' ++ (b, p) :: owned) as Hin
      by (apply elem_of_app; right; by left).
    pose proof (fa_inv_block _ _ _ _ _ Hres Hin). pose proof (fi_range _ _ _ Hres).
    pose proof (fi_aligned _ _ _ Hres) as Ha. rewrite Forall_forall in Ha.
    split_and!; [done|by apply Ha|lia|lia|]. intros b' p' x Hb'. apply (fa_inv_disjoint _ _ _ _ _ _ _ _ Hres).
    apply elem_of_app. by right.
  - exists None, a'. done.
Qed.

(** Frames are conserved: [free_frames] is the size of the range less the
    frames in use, whatever the mix of block sizes. *)
Theorem free_frames_conserved lo a owned :
  fa_inv lo a owned → free_frames a = Some (end_ a - lo - frames_in owned).
Proof. apply free_frames_ok. Qed.

(** Giving back a block in use succeeds and makes its frames free again; giving
    it back twice is caught. *)
Theorem dealloc_once lo a owned b p :
  fa_inv lo a ((b, p) :: owned) →
  ∃ a', dealloc a b p = Some a' ∧ fa_inv lo a' owned ∧ dealloc a' b p = None.
Proof.
  intros Hi. destruct (dealloc_ok lo a owned b p Hi) as (a' & Heq & _ & Hi'). exists a'. split_and!; [done..|].
  unfold dealloc in Heq |- *. destruct (_ || _); [done|]. injection Heq as <-.
  rewrite bool_decide_true; [by rewrite orb_true_r|]. unfold vec_push. destruct p; simpl; set_solver.
Qed.

(** A range of frames that starts off alignment: 24 frames are recycled when the
    first large page is allocated. *)
Definition demo_frames : StackFrameAllocator := init new 1000 3000.

Lemma demo_frames_inv : fa_inv 1000 demo_frames [].
Proof. by apply init_inv. Qed.

Lemma alloc_exclusive_witness :
  fa_inv 1000 demo_frames [] ∧ ∃ a', alloc demo_frames Page2M = Some (Some 1024, a') ∧ aligned (1024, Page2M).
Proof.
  destruct (alloc_exclusive 1000 demo_frames [] Page2M demo_frames_inv) as (res & a' & Heq & Hres).
  split; [apply demo_frames_inv|]. exists a'.
  assert (res = Some 1024) as -> by (vm_compute in Heq; congruence).
  split; [exact Heq|]. apply Hres.
Defined.

Lemma free_frames_conserved_witness : free_frames demo_frames = Some 2000.
Proof. apply (free_frames_conserved 1000 demo_frames [] demo_frames_inv). Defined.

Lemma dealloc_once_witness :
  ∃ a a', alloc demo_frames Page4K = Some (Some 1000, a) ∧ dealloc a 1000 Page4K = Some a' ∧ dealloc a' 1000 Page4K = None.
Proof.
  destruct (wp_elim _ _ (wp_alloc 1000 demo_frames [] Page4K demo_frames_inv)) as ([res a] & Heq & _ & Hres).
  assert (res = Some 1000) as -> by (vm_compute in Heq; congruence). simpl in Hres.
  destruct (dealloc_once 1000 a [] 1000 Page4K Hres) as (a' & Hd & _ & Hd2).
  exists a, a'. split; [exact Heq|]. split; [exact Hd|exact Hd2].
Defined.

(** The check for a double free looks only at the stack of the same size: a frame
    of a recycled large page, or one above the bump pointer, is accepted. *)
Example dealloc_accepts_free_frames :
  is_Some (a ← dealloc demo_frames 1024 Page2M; dealloc a 1024 Page4K) ∧
  is_Some (dealloc demo_frames 2999 Page4K).
Proof. split; vm_compute; by eexists. Qed.

End FrameProps.
