(* ===== verification/PageTable.v ===== *)
(** * Page-table entries and SV39 page tables
    (os/src/arch/riscv/mm/pte.rs, os/src/mm/flags.rs, the [PageTable] of
    os/src/mm/page_table.rs)

    The page-table pages live in physical memory, a function from frame and index
    to the 64-bit entry.  A table takes its frames from a [FrameSource].  The
    theorems read a page table as a partial map from virtual page numbers to
    entries and page sizes. *)

From S2P Require Import Prelude Address FrameAllocator.

Local Open Scope Z_scope.

(** ** Entries *)

(** The bits of [PTEFlags]; all eight are named, so [from_bits] accepts every
    byte. *)
Definition V : Z := Z.shiftl 1 0.

Definition R : Z := Z.shiftl 1 1.

Definition W : Z := Z.shiftl 1 2.

Definition X : Z := Z.shiftl 1 3.

Definition U : Z := Z.shiftl 1 4.

Definition G : Z := Z.shiftl 1 5.

Definition A : Z := Z.shiftl 1 6.

Definition D : Z := Z.shiftl 1 7.

(** A [PageTableEntry] is its [bits]. *)
Definition PageTableEntry : Type := Z.

Definition PTE_new (ppn flags : Z) : PageTableEntry :=
  Z.lor (Z.land (Z.shiftl ppn 10) USIZE_MAX) flags.

Definition PTE_empty : PageTableEntry := 0.

Definition PTE_ppn (e : PageTableEntry) : Z :=
  PhysPageNum_from (Z.land (Z.shiftr e 10) (width_mask 44)).

(** [bits as u8] *)
Definition PTE_flags (e : PageTableEntry) : Z := Z.land e 0xff.

(** [(self.flags() & f) != PTEFlags::empty()] *)
Definition has_flag (f : Z) (e : PageTableEntry) : bool := negb (Z.land (PTE_flags e) f =? 0).

Definition is_valid : PageTableEntry → bool := has_flag V.

Definition user_accessible : PageTableEntry → bool := has_flag U.

Definition readable : PageTableEntry → bool := has_flag R.

Definition writable : PageTableEntry → bool := has_flag W.

Definition executable : PageTableEntry → bool := has_flag X.

Definition set_dirty (e : PageTableEntry) : PageTableEntry := Z.lor e D.

(** [PTEFlags::contains] *)
Definition flags_contain (flags f : Z) : bool := Z.land flags f =? f.

(** The flags that [map] and [set_entry] write. *)
Definition final_flags (flags : Z) : Z :=
  let f := Z.lor (Z.lor flags V) A in
  if flags_contain flags W && negb (flags_contain flags U) then Z.lor f D else f.

(** ** Tables *)

Definition pmem : Type := Z → Z → PageTableEntry.

Definition write (m : pmem) (p i : Z) (e : PageTableEntry) : pmem :=
  λ p' i', if decide (p' = p ∧ i' = i) then e else m p' i'.

(** [Frame::new] clears the page. *)
Definition clear (m : pmem) (p : Z) : pmem := λ p' i', if decide (p' = p) then 0 else m p' i'.

Record PageTable := MkPageTable { root_ppn : Z; frames : list Z }.

(** A leaf at index level [i]: a valid entry at the last one, any of the access
    bits above. *)
Definition is_leaf (i : nat) (e : PageTableEntry) : bool :=
  ((i =? 2)%nat && is_valid e) ||
  ((i <? 2)%nat && (readable e || writable e || executable e)).

Definition page_size_at (i : nat) : option PageSize :=
  match i with
  | 0%nat => Some Page1G
  | 1%nat => Some Page2M
  | 2%nat => Some Page4K
  | _ => None
  end.

(** The loop of [find_pte] and [find_pte_mut], which returns the slot; a virtual
    page number has three indexes, so the [unreachable!] of the size is. *)
Fixpoint find_loop (m : pmem) (i : nat) (ppn : Z) (idxs : list Z) : option (Z * Z * PageSize) :=
  match idxs with
  | [] => None
  | idx :: rest =>
    let pte := m ppn idx in
    if is_leaf i pte then sz ← page_size_at i; Some (ppn, idx, sz)
    else if negb (is_valid pte) then None
    else find_loop m (S i) (PTE_ppn pte) rest
  end.

Definition find_pte_mut (m : pmem) (pt : PageTable) (vpn : Z) : option (Z * Z * PageSize) :=
  find_loop m 0 (root_ppn pt) (indexes vpn).

Definition find_pte (m : pmem) (pt : PageTable) (vpn : Z) : option (PageTableEntry * PageSize) :=
  '(p, i, sz) ← find_pte_mut m pt vpn; Some (m p i, sz).

Definition translate (m : pmem) (pt : PageTable) (vpn : Z) : option PageTableEntry :=
  fst <$> find_pte m pt vpn.

Definition translate_and_get_size (m : pmem) (pt : PageTable) (vpn : Z)
    : option (PageTableEntry * PageSize) := find_pte m pt vpn.

(** [translate_va]: the assertion on the alignment of the frame is a panic. *)
Definition translate_va (m : pmem) (pt : PageTable) (va : Z) : option (option Z) :=
  match find_pte m pt (VirtAddr_std_floor va) with
  | None => Some None
  | Some (pte, sz) =>
    let aligned_pa := PhysAddr_of_page (PTE_ppn pte) in
    if actual_aligned aligned_pa sz then
      x ← checked_add aligned_pa (actual_page_offset va sz);
      Some (Some (PhysAddr_from x))
    else None
  end.

Definition token (pt : PageTable) (asid : Z) : Z :=
  Z.lor (Z.lor (Z.shiftl 8 60) (Z.shiftl (Z.land asid 0xffff) 44)) (root_ppn pt).

Definition take_frames (pt : PageTable) : list Z * PageTable :=
  (frames pt, MkPageTable (root_ppn pt) []).

(** [share_kernel_half]: the entries from 256 on are copied. *)
Definition share_kernel_half (m : pmem) (pt kernel : PageTable) : pmem :=
  λ p i, if decide (p = root_ppn pt ∧ 256 ≤ i < 512) then m (root_ppn kernel) i else m p i.

Section tables.
Context {S_ : Type} `{!FrameSource S_}.

(** Memory, the frame source and one table. *)
Record state := MkState { mem : pmem; source : S_; table : PageTable }.

Implicit Types (s : state) (vpn : Z).

(** [frame_alloc(PageSize::Page4K).unwrap()]; the frame is cleared. *)
Definition frame_alloc (m : pmem) (w : S_) : option (Z * pmem * S_) :=
  '(res, w) ← fs_alloc w;
  p ← res;
  Some (p, clear m p, w).

(** [PageTable::new] *)
Definition new (m : pmem) (w : S_) : option state :=
  '(p, m, w) ← frame_alloc m w;
  Some (MkState m w (MkPageTable p [p])).

(** The missing table of an invalid entry in [find_pte_create]. *)
Definition add_table s (p i : Z) : option state :=
  '(f, m, w) ← frame_alloc (mem s) (source s);
  Some (MkState (write m p i (PTE_new f V)) w
    (MkPageTable (root_ppn (table s)) (vec_push (frames (table s)) f))).

Fixpoint create_loop s (i level : nat) (ppn : Z) (idxs : list Z) : option (option (Z * Z) * state) :=
  match idxs with
  | [] => Some (None, s)
  | idx :: rest =>
    if (i =? level)%nat then Some (Some (ppn, idx), s)
    else
      s ← (if is_valid (mem s ppn idx) then Some s else add_table s ppn idx);
      create_loop s (S i) level (PTE_ppn (mem s ppn idx)) rest
  end.

Definition find_pte_create s vpn (sz : PageSize) : option (option (Z * Z) * state) :=
  create_loop s 0 (walk_level sz) (root_ppn (table s)) (indexes vpn).

Definition set_slot s (p i : Z) (e : PageTableEntry) : state :=
  MkState (write (mem s) p i e) (source s) (table s).

Definition map s vpn (ppn flags : Z) (sz : PageSize) : option state :=
  '(slot, s) ← find_pte_create s vpn sz;
  '(p, i) ← slot;
  if is_valid (mem s p i) then None
  else Some (set_slot s p i (PTE_new ppn (final_flags flags))).

Definition unmap s vpn : option state :=
  '(p, i, _) ← find_pte_mut (mem s) (table s) vpn;
  if is_valid (mem s p i) then Some (set_slot s p i PTE_empty) else None.

Definition set_entry s vpn (ppn flags : Z) : option state :=
  '(p, i, _) ← find_pte_mut (mem s) (table s) vpn;
  Some (set_slot s p i (PTE_new ppn (final_flags flags))).

Definition set_flags s vpn (flags : Z) : option state :=
  pte ← translate (mem s) (table s) vpn;
  set_entry s vpn (PTE_ppn pte) flags.

Definition translate_create s vpn (sz : PageSize) : option (option PageTableEntry * state) :=
  '(slot, s) ← find_pte_create s vpn sz;
  Some (option_map (λ '(p, i), mem s p i) slot, s).

(** [move_entry]; a source entry that disappears is the [unreachable!]. *)
Definition move_entry s (src dst : Z) (sz : PageSize) : option (bool * state) :=
  if decide (src = dst) then Some (true, s)
  else
    match find_pte (mem s) (table s) src with
    | None => Some (false, s)
    | Some (entry, src_page_size) =>
      if negb (is_valid entry) || negb (bool_decide (src_page_size = sz)) then Some (false, s)
      else if from_option is_valid false (translate (mem s) (table s) dst) then Some (false, s)
      else
        '(slot, s) ← find_pte_create s dst sz;
        match slot with
        | None => Some (false, s)
        | Some (p, i) =>
          if is_valid (mem s p i) then Some (false, s)
          else
            let s := set_slot s p i entry in
            '(p, i, src_page_size) ← find_pte_mut (mem s) (table s) src;
            if bool_decide (src_page_size = sz) then Some (true, set_slot s p i PTE_empty) else None
        end
    end.

End tables.

#[global] Arguments state S_ : clear implicits.

(** ** Bits of entries *)

Lemma has_flag_bit k e : 0 ≤ k < 8 → has_flag (Z.shiftl 1 k) e = Z.testbit e k.
Proof.
  intros Hk. unfold has_flag, PTE_flags. change 0xff with (Z.ones 8).
  assert (Z.land (Z.land e (Z.ones 8)) (Z.shiftl 1 k) = if Z.testbit e k then Z.shiftl 1 k else 0) as ->.
  { apply Z.bits_inj'. intros n Hn. rewrite !Z.land_spec, Z.shiftl_spec by done.
    destruct (decide (n = k)) as [->|Hne].
    - rewrite Z.sub_diag, Z.ones_spec_low by lia.
      destruct (Z.testbit e k); simpl; [by rewrite Z.shiftl_spec, Z.sub_diag by lia|by rewrite Z.bits_0].
    - assert (Z.testbit 1 (n - k) = false) as Hz.
      { destruct (decide (n < k)); [by apply Z.testbit_neg_r; lia|]. apply (Z.bits_above_log2 1); simpl; lia. }
      rewrite Hz, andb_false_r. destruct (Z.testbit e k); [by rewrite Z.shiftl_spec, Hz|by rewrite Z.bits_0]. }
  destruct (Z.testbit e k); [|done]. apply negb_true_iff, Z.eqb_neq.
  rewrite Z.shiftl_1_l. pose proof (Z.pow_pos_nonneg 2 k). lia.
Qed.

Lemma is_valid_bit e : is_valid e = Z.testbit e 0.
Proof. by apply (has_flag_bit 0). Qed.

(** Some access bit is set. *)
Definition access (e : Z) : bool := Z.testbit e 1 || Z.testbit e 2 || Z.testbit e 3.

Lemma is_leaf_bits i e :
  is_leaf i e = ((i =? 2)%nat && Z.testbit e 0) || ((i <? 2)%nat && access e).
Proof.
  unfold is_leaf, readable, writable, executable, access.
  by rewrite is_valid_bit, (has_flag_bit 1), (has_flag_bit 2), (has_flag_bit 3).
Qed.

Lemma PTE_new_bit ppn f k : 0 ≤ k < 10 → Z.testbit (PTE_new ppn f) k = Z.testbit f k.
Proof.
  intros Hk. unfold PTE_new. rewrite Z.lor_spec, Z.land_spec, Z.shiftl_spec by lia.
  by rewrite (Z.testbit_neg_r ppn) by lia.
Qed.

Lemma PTE_new_sum ppn f : 0 ≤ ppn < 2 ^ 44 → 0 ≤ f < 2 ^ 8 → PTE_new ppn f = f + ppn * 2 ^ 10.
Proof.
  intros Hp Hf. unfold PTE_new. change USIZE_MAX with (Z.ones 64).
  rewrite Z.land_ones, Z.mod_small by (rewrite ?Z.shiftl_mul_pow2; lia).
  rewrite Z.lor_comm. apply lor_shiftl; lia.
Qed.

Lemma PTE_ppn_new ppn f : 0 ≤ ppn < 2 ^ 44 → 0 ≤ f < 2 ^ 8 → PTE_ppn (PTE_new ppn f) = ppn.
Proof.
  intros Hp Hf. unfold PTE_ppn. rewrite PTE_new_sum by done.
  rewrite Z.shiftr_div_pow2, Z.div_add, (Z.div_small f), Z.add_0_l by lia.
  rewrite land_width_mask, Z.mod_small by lia. by apply PhysPageNum_from_id.
Qed.

Lemma PTE_flags_new ppn f : 0 ≤ ppn < 2 ^ 44 → 0 ≤ f < 2 ^ 8 → PTE_flags (PTE_new ppn f) = f.
Proof.
  intros Hp Hf. unfold PTE_flags. rewrite PTE_new_sum by done. change 0xff with (Z.ones 8).
  rewrite Z.land_ones by done. replace (ppn * 2 ^ 10) with (ppn * 4 * 2 ^ 8) by lia.
  rewrite Z.mod_add by done. by apply Z.mod_small.
Qed.

Lemma final_flags_bit f k : 0 ≤ k < 6 → Z.testbit (final_flags f) k = (k =? 0) || Z.testbit f k.
Proof.
  intros Hk. unfold final_flags.
  assert (∀ x, Z.testbit (Z.lor (Z.lor f V) A) k = (k =? 0) || Z.testbit f k ∧
    Z.testbit (Z.lor x D) k = Z.testbit x k) as Hb.
  { intros x. rewrite !Z.lor_spec. unfold V, A, D. rewrite !Z.shiftl_spec by lia.
    rewrite (Z.testbit_neg_r 1 (k - 6)), (Z.testbit_neg_r 1 (k - 7)), !orb_false_r by lia.
    split; [|done]. rewrite Z.sub_0_r, orb_comm. done. }
  destruct (_ && _); [rewrite (proj2 (Hb _))|]; apply (Hb 0).
Qed.

Lemma final_flags_access ppn f : access (PTE_new ppn (final_flags f)) = access f.
Proof. unfold access. by rewrite !PTE_new_bit, !final_flags_bit by lia. Qed.

Lemma final_flags_valid ppn f : Z.testbit (PTE_new ppn (final_flags f)) 0 = true.
Proof. by rewrite PTE_new_bit, final_flags_bit by lia. Qed.

Lemma final_flags_byte f : 0 ≤ f < 2 ^ 8 → 0 ≤ final_flags f < 2 ^ 8.
Proof.
  intros Hf. assert (∀ x y, 0 ≤ x < 2 ^ 8 → 0 ≤ y < 2 ^ 8 → 0 ≤ Z.lor x y < 2 ^ 8) as Hlor.
  { intros x y Hx Hy. split; [apply Z.lor_nonneg; lia|].
    destruct (decide (Z.lor x y = 0)) as [->|]; [done|]. apply Z.log2_lt_pow2.
    - assert (0 ≤ Z.lor x y) by (apply Z.lor_nonneg; lia). lia.
    - rewrite Z.log2_lor by lia. apply Z.max_lub_lt.
      + destruct (decide (x = 0)) as [->|]; [done|]. apply Z.log2_lt_pow2; lia.
      + destruct (decide (y = 0)) as [->|]; [done|]. apply Z.log2_lt_pow2; lia. }
  unfold final_flags. destruct (_ && _); repeat apply Hlor; done.
Qed.

(** ** The invariant

    [pos] gives every frame of the table its place: the list of indexes that lead
    to it.  [dom] are the root indexes the table owns: all of them for the kernel's
    table, the lower half for a user table that shares the kernel's upper half. *)

Definition in_dom (dom : Z → Prop) (path : list Z) : Prop :=
  match path with [] => True | i :: _ => dom i end.

(** An entry that points to the next table. *)
Definition is_link (lvl : nat) (e : PageTableEntry) : Prop :=
  Z.testbit e 0 = true ∧ is_leaf lvl e = false.

Record pt_inv (dom : Z → Prop) (m : pmem) (pt : PageTable) (pos : gmap Z (list Z)) : Prop := {
  pi_root p : pos !! p = Some [] ↔ p = root_ppn pt;
  pi_frames p : is_Some (pos !! p) ↔ p ∈ frames pt;
  pi_child p pre i : pos !! p = Some pre → in_dom dom (pre ++ [i]) → is_link (length pre) (m p i) →
    pos !! PTE_ppn (m p i) = Some (pre ++ [i]);
  pi_linked p pre i : pos !! p = Some (pre ++ [i]) →
    in_dom dom (pre ++ [i]) ∧ (length pre < 2)%nat ∧
    ∃ q, pos !! q = Some pre ∧ is_link (length pre) (m q i) ∧ PTE_ppn (m q i) = p;
  pi_leaf p pre i : pos !! p = Some pre → in_dom dom (pre ++ [i]) →
    is_leaf (length pre) (m p i) = true → Z.testbit (m p i) 0 = true;
}.

Lemma in_dom_prefix dom pre path : in_dom dom path → pre `prefix_of` path → in_dom dom pre.
Proof. intros Hd [rest ->]. by destruct pre. Qed.

Lemma is_link_level lvl e : is_link lvl e → lvl ≠ 2%nat.
Proof.
  intros [Hv Hl] ->. rewrite is_leaf_bits, Hv in Hl. done.
Qed.

Lemma find_loop_step m i ppn idx rest :
  find_loop m i ppn (idx :: rest) =
  if is_leaf i (m ppn idx) then sz ← page_size_at i; Some (ppn, idx, sz)
  else if Z.testbit (m ppn idx) 0 then find_loop m (S i) (PTE_ppn (m ppn idx)) rest else None.
Proof. cbn [find_loop]. rewrite is_valid_bit. destruct (is_leaf _ _); [done|]. by destruct (Z.testbit (m ppn idx) 0). Qed.

Lemma find_loop_link m i ppn idx rest :
  is_link i (m ppn idx) → find_loop m i ppn (idx :: rest) = find_loop m (S i) (PTE_ppn (m ppn idx)) rest.
Proof. intros [Hv Hl]. by rewrite find_loop_step, Hl, Hv. Qed.

Section walk.
Context (dom : Z → Prop) (m : pmem) (pt : PageTable) (pos : gmap Z (list Z)).
Context (Hi : pt_inv dom m pt pos).

(** The walk from the root gets to a frame at its place. *)
Lemma walk_to p pre rest :
  pos !! p = Some pre →
  find_loop m 0 (root_ppn pt) (pre ++ rest) = find_loop m (length pre) p rest.
Proof using Hi.
  revert p rest. induction pre as [|i pre IH] using rev_ind; intros p rest Hp.
  { apply (pi_root _ _ _ _ Hi) in Hp as ->. done. }
  destruct (pi_linked _ _ _ _ Hi _ _ _ Hp) as (_ & _ & q & Hq & Hlk & <-).
  rewrite <-app_assoc. simpl. rewrite (IH q) by done. rewrite find_loop_link by done.
  f_equal. rewrite length_app. simpl. lia.
Qed.

Lemma pos_inj p q pre : pos !! p = Some pre → pos !! q = Some pre → p = q.
Proof using Hi.
  revert p q. induction pre as [|i pre IH] using rev_ind; intros p q Hp Hq.
  { apply (pi_root _ _ _ _ Hi) in Hp, Hq. congruence. }
  destruct (pi_linked _ _ _ _ Hi _ _ _ Hp) as (_ & _ & p' & Hp' & _ & <-).
  destruct (pi_linked _ _ _ _ Hi _ _ _ Hq) as (_ & _ & q' & Hq' & _ & <-).
  by rewrite (IH p' q').
Qed.

(** Where a walk ends: at a leaf of a frame of the table that lies on the path. *)
Lemma find_slot p pre idxs q j sz :
  pos !! p = Some pre → in_dom dom (pre ++ idxs) →
  find_loop m (length pre) p idxs = Some (q, j, sz) →
  ∃ pre', pos !! q = Some pre' ∧ pre' ++ [j] `prefix_of` pre ++ idxs ∧
    page_size_at (length pre') = Some sz ∧ is_leaf (length pre') (m q j) = true.
Proof using Hi.
  revert p pre. induction idxs as [|i idxs IH]; intros p pre Hp Hd; [done|].
  rewrite find_loop_step. destruct (is_leaf _ _) eqn:Hl.
  - destruct (page_size_at (length pre)) as [sz'|] eqn:Hsz; [|done]. intros [= <- <- <-].
    exists pre. split_and!; try done. exists idxs. by rewrite <-app_assoc.
  - destruct (Z.testbit _ _) eqn:Hv; [|done]. intros Hf.
    assert (pre ++ [i] ++ idxs = (pre ++ [i]) ++ idxs) as Heq by (by rewrite app_assoc).
    simpl in Heq. rewrite Heq in Hd |- *. assert (in_dom dom (pre ++ [i])) as Hd'
      by (eapply in_dom_prefix; [exact Hd|by eexists]).
    eapply IH; [by eapply (pi_child _ _ _ _ Hi)|done|]. rewrite length_app. simpl. by rewrite Nat.add_comm.
Qed.

(** A walk does not notice a change off its path. *)
Lemma find_ext m' p pre idxs :
  pos !! p = Some pre → in_dom dom (pre ++ idxs) →
  (∀ q pre' j, pos !! q = Some pre' → pre' ++ [j] `prefix_of` pre ++ idxs → m' q j = m q j) →
  find_loop m' (length pre) p idxs = find_loop m (length pre) p idxs.
Proof using Hi.
  revert p pre. induction idxs as [|i idxs IH]; intros p pre Hp Hd Hm; [done|].
  assert (pre ++ i :: idxs = (pre ++ [i]) ++ idxs) as Heq by (by rewrite <-app_assoc).
  assert (in_dom dom (pre ++ [i])) as Hd'
    by (eapply in_dom_prefix; [exact Hd|rewrite Heq; by eexists]).
  rewrite !find_loop_step, (Hm p pre i Hp) by (rewrite Heq; by eexists).
  destruct (is_leaf _ _) eqn:Hl; [done|]. destruct (Z.testbit _ _) eqn:Hv; [|done].
  assert (pos !! PTE_ppn (m p i) = Some (pre ++ [i])) as Hc by (by eapply (pi_child _ _ _ _ Hi)).
  rewrite Heq in Hd, Hm. specialize (IH _ _ Hc Hd Hm). rewrite length_app in IH. simpl in IH.
  by rewrite Nat.add_comm in IH.
Qed.
End walk.

(** ** The map that a table implements *)

Definition view (m : pmem) (root : Z) (path : list Z) : option (PageTableEntry * PageSize) :=
  '(p, j, sz) ← find_loop m 0 root path; Some (m p j, sz).

Lemma find_pte_view m pt vpn : find_pte m pt vpn = view m (root_ppn pt) (indexes vpn).
Proof. done. Qed.

Lemma view_ext dom m m' pt pos path :
  pt_inv dom m pt pos → in_dom dom path →
  (∀ q pre j, pos !! q = Some pre → pre ++ [j] `prefix_of` path → m' q j = m q j) →
  view m' (root_ppn pt) path = view m (root_ppn pt) path.
Proof.
  intros Hi Hd Hm. assert (pos !! root_ppn pt = Some []) as Hr by (by apply (pi_root _ _ _ _ Hi)).
  pose proof (find_ext dom m pt pos Hi m' _ [] path Hr Hd Hm) as Heq. cbn [length] in Heq.
  unfold view. rewrite Heq.
  destruct (find_loop m 0 (root_ppn pt) path) as [[[q j] sz]|] eqn:Hf; [|done]. simpl.
  destruct (find_slot dom m pt pos Hi _ [] path q j sz Hr Hd Hf) as (pre & Hq & Hpre & _).
  by rewrite (Hm q pre j).
Qed.

Lemma write_eq m p i e : write m p i e p i = e.
Proof. unfold write. by rewrite decide_True. Qed.

Lemma write_ne m p i e q j : ¬ (q = p ∧ j = i) → write m p i e q j = m q j.
Proof. intros Hne. unfold write. by rewrite decide_False. Qed.

(** Writing an entry that is not a link over one that is not a link: the walks
    through it end there, the others do not change. *)
Lemma write_slot dom m pt pos p pre i e sz :
  pt_inv dom m pt pos → pos !! p = Some pre → in_dom dom (pre ++ [i]) →
  page_size_at (length pre) = Some sz → ¬ is_link (length pre) (m p i) →
  (is_leaf (length pre) e = Z.testbit e 0) →
  pt_inv dom (write m p i e) pt pos ∧
  ∀ path, in_dom dom path → view (write m p i e) (root_ppn pt) path =
    if decide (pre ++ [i] `prefix_of` path) then (if Z.testbit e 0 then Some (e, sz) else None)
    else view m (root_ppn pt) path.
Proof.
  intros Hi Hp Hd Hsz Hnl He.
  assert (¬ is_link (length pre) e) as Hne by (unfold is_link; rewrite He; intros [? ?]; congruence).
  assert (pt_inv dom (write m p i e) pt pos) as Hi'.
  { split; try apply Hi.
    - intros q pre' j Hq Hdj Hl. destruct (decide (q = p ∧ j = i)) as [[-> ->]|Hqj].
      + rewrite write_eq in Hl. rewrite Hq in Hp. by injection Hp as ->.
      + rewrite write_ne in Hl |- * by done. by apply (pi_child _ _ _ _ Hi).
    - intros q pre' j Hq. destruct (pi_linked _ _ _ _ Hi _ _ _ Hq) as (? & ? & q' & Hq' & Hl & <-).
      split_and!; [done..|]. exists q'. rewrite write_ne; [done|]. intros [-> ->].
      rewrite Hq' in Hp. injection Hp as ->. done.
    - intros q pre' j Hq Hdj Hl. destruct (decide (q = p ∧ j = i)) as [[-> ->]|Hqj].
      + rewrite write_eq in *. rewrite Hq in Hp. injection Hp as ->. by rewrite <-He.
      + rewrite write_ne in * by done. by apply (pi_leaf _ _ _ _ Hi _ pre'). }
  split; [done|]. intros path Hpath. destruct (decide _) as [[rest ->]|Hnp].
  - rewrite <-app_assoc. unfold view. rewrite (walk_to dom _ _ _ Hi' p pre) by done. simpl app.
    rewrite find_loop_step, write_eq, He. destruct (Z.testbit e 0); [|done].
    rewrite Hsz. simpl. by rewrite write_eq.
  - eapply view_ext; [done..|]. intros q pre' j Hq Hpre. apply write_ne. intros [-> ->].
    rewrite Hq in Hp. by injection Hp as ->.
Qed.

Lemma empty_entry lvl : ¬ is_link lvl 0 ∧ is_leaf lvl 0 = false.
Proof.
  split; [by intros [? _]|]. rewrite is_leaf_bits. unfold access. rewrite !Z.bits_0. simpl. by rewrite !andb_false_r.
Qed.

(** Adding an empty table [f] under an invalid entry changes no walk. *)
Section link.
Context (dom : Z → Prop) (m : pmem) (pt : PageTable) (pos : gmap Z (list Z)) (p i f : Z) (pre : list Z).
Context (Hi : pt_inv dom m pt pos) (Hp : pos !! p = Some pre) (Hd : in_dom dom (pre ++ [i])).
Context (Hlen : (length pre < 2)%nat) (Hv : Z.testbit (m p i) 0 = false) (Hf : pos !! f = None).
Context (Hfr : 0 ≤ f < 2 ^ 44).

Let m' := write (clear m f) p i (PTE_new f V).

Let pt' := MkPageTable (root_ppn pt) (vec_push (frames pt) f).

Lemma link_entry : is_link (length pre) (m' p i) ∧ PTE_ppn (m' p i) = f.
Proof using Hlen Hfr.
  unfold m'. rewrite write_eq. split; [|by apply PTE_ppn_new]. split; [by rewrite PTE_new_bit|].
  rewrite is_leaf_bits. unfold access. rewrite !PTE_new_bit by lia. destruct (length pre) as [|[|]]; [done|done|lia].
Qed.

Lemma link_old q j : q ≠ f → ¬ (q = p ∧ j = i) → m' q j = m q j.
Proof. intros Hq Hqj. unfold m'. rewrite write_ne by done. unfold clear. by rewrite decide_False. Qed.

Lemma link_new j : m' f j = 0.
Proof using Hp Hf.
  unfold m'. rewrite write_ne by (intros [? _]; congruence). unfold clear. by rewrite decide_True.
Qed.

Lemma link_inv : pt_inv dom m' pt' (<[f := pre ++ [i]]> pos).
Proof using Hi Hp Hd Hlen Hv Hf Hfr.
  pose proof link_entry as [Hlk Hpp]. split.
  - intros q. destruct (decide (q = f)) as [->|Hq]; [|rewrite lookup_insert_ne by done; apply (pi_root _ _ _ _ Hi)].
    rewrite lookup_insert_eq. split; [by destruct pre|]. simpl. intros Hr.
    apply (pi_root _ _ _ _ Hi) in Hr. congruence.
  - intros q. simpl. unfold vec_push. rewrite elem_of_app, list_elem_of_singleton, <-(pi_frames _ _ _ _ Hi).
    destruct (decide (q = f)) as [->|Hq]; [rewrite lookup_insert_eq|rewrite lookup_insert_ne by done]; naive_solver.
  - intros q pre' j Hq Hdj Hl. destruct (decide (q = f)) as [->|Hqf].
    { rewrite link_new in Hl. by apply empty_entry in Hl. }
    rewrite lookup_insert_ne in Hq by done. destruct (decide (q = p ∧ j = i)) as [[-> ->]|Hqj].
    { rewrite Hpp, lookup_insert_eq. rewrite Hq in Hp. by injection Hp as ->. }
    rewrite link_old in Hl |- * by done. pose proof (pi_child _ _ _ _ Hi _ _ _ Hq Hdj Hl) as Hc.
    rewrite lookup_insert_ne; [done|]. congruence.
  - intros q pre' j Hq. destruct (decide (q = f)) as [->|Hqf].
    { rewrite lookup_insert_eq in Hq. injection Hq as Hq. apply app_inj_tail in Hq as [<- <-].
      split_and!; [done..|]. exists p. rewrite lookup_insert_ne by congruence. done. }
    rewrite lookup_insert_ne in Hq by done.
    destruct (pi_linked _ _ _ _ Hi _ _ _ Hq) as (? & ? & q' & Hq' & Hl & Hqp). split_and!; [done..|].
    exists q'. rewrite lookup_insert_ne by congruence. rewrite link_old; [done|congruence|].
    intros [-> ->]. destruct Hl as [Hl _]. congruence.
  - intros q pre' j Hq Hdj Hl. destruct (decide (q = f)) as [->|Hqf].
    { rewrite link_new in Hl. by rewrite (proj2 (empty_entry _)) in Hl. }
    rewrite lookup_insert_ne in Hq by done. destruct (decide (q = p ∧ j = i)) as [[-> ->]|Hqj]; [by apply Hlk|].
    rewrite link_old in * by done. by apply (pi_leaf _ _ _ _ Hi _ pre').
Qed.

Lemma link_view path : in_dom dom path → view m' (root_ppn pt) path = view m (root_ppn pt) path.
Proof using Hi Hp Hd Hlen Hv Hf Hfr.
  intros Hpath. destruct (decide (pre ++ [i] `prefix_of` path)) as [[rest ->]|Hnp].
  - rewrite <-app_assoc. unfold view. pose proof (walk_to dom _ _ _ link_inv p pre (i :: rest)) as Hw.
    change (root_ppn pt') with (root_ppn pt) in Hw. simpl app. rewrite Hw by (rewrite lookup_insert_ne; [done|congruence]).
    rewrite (walk_to dom _ _ _ Hi p pre) by done. pose proof link_entry as [Hlk Hpp].
    rewrite find_loop_link, Hpp by done. rewrite (find_loop_step m), Hv. destruct (is_leaf _ (m p i)) eqn:Hlf.
    { apply (pi_leaf _ _ _ _ Hi _ _ _ Hp Hd) in Hlf. congruence. }
    destruct rest as [|j rest]; [done|]. by rewrite find_loop_step, link_new, (proj2 (empty_entry _)).
  - eapply view_ext; [done..|]. intros q pre' j Hq Hpre. apply link_old; [congruence|]. intros [-> ->].
    rewrite Hq in Hp. by injection Hp as ->.
Qed.
End link.

(** ** Operations on tables *)

Section operations.
Context {S_ : Type} `{!FrameSource S_}.
Context (dom : Z → Prop) (own : list Z).
Implicit Types (s : state S_) (pos : gmap Z (list Z)) (pre idxs path : list Z).

(** The table is well formed, and its frames are in its hands alone: [own] are the
    other frames in use. *)
Definition st_ok s pos : Prop :=
  pt_inv dom (mem s) (table s) pos ∧ ∃ l, fs_owns (source s) l ∧ l ≡ₚ frames (table s) ++ own.

Definition root s : Z := root_ppn (table s).

Definition sview s path : option (PageTableEntry * PageSize) := view (mem s) (root s) path.

(** Memory changes only in the frames of the table, and not in the part of the root
    that the table does not own. *)
Definition outside s s' : Prop :=
  root s' = root s ∧ (∀ p, p ∈ frames (table s) → p ∈ frames (table s')) ∧
  ∀ q j, (q ∉ frames (table s') ∨ q = root s ∧ ¬ dom j) → mem s' q j = mem s q j.

(** The same map, read from another state. *)
Definition same_map s s' : Prop :=
  outside s s' ∧ ∀ path, in_dom dom path → sview s' path = sview s path.

Lemma outside_refl s : outside s s.
Proof. done. Qed.

Lemma outside_trans s1 s2 s3 : outside s1 s2 → outside s2 s3 → outside s1 s3.
Proof.
  intros (Hr & Hs & Hm) (Hr' & Hs' & Hm'). split_and!; [congruence|naive_solver|].
  intros q j Hq. rewrite Hm' by (rewrite Hr; naive_solver). apply Hm. naive_solver.
Qed.

Lemma same_map_trans s1 s2 s3 : same_map s1 s2 → same_map s2 s3 → same_map s1 s3.
Proof.
  intros [H1 H2] [H3 H4]. split; [by eapply outside_trans|]. intros path Hd. by rewrite H4, H2.
Qed.

Lemma add_table_ok s pos p pre i :
  st_ok s pos → pos !! p = Some pre → in_dom dom (pre ++ [i]) → (length pre < 2)%nat →
  Z.testbit (mem s p i) 0 = false →
  match add_table s p i with
  | None => fs_free (source s) ≤ 0
  | Some s' => ∃ f, st_ok s' (<[f := pre ++ [i]]> pos) ∧ fs_free (source s') = fs_free (source s) - 1 ∧
      PTE_ppn (mem s' p i) = f ∧ (∀ j, mem s' f j = 0) ∧ same_map s s'
  end.
Proof.
  intros [Hi (l & Hl & Hp)] Hpos Hd Hlen Hv. unfold add_table, frame_alloc.
  destruct (wp_elim _ _ (fs_alloc_spec _ _ Hl)) as ([[f|] w] & -> & Hw & Hfree & Hsome);
    cbn [mbind option_bind option_list app length] in *; last first.
  { destruct (decide (0 < fs_free (source s))) as [Hf|]; [|lia]. by destruct (Hsome Hf). }
  destruct (fs_owns_ok _ _ Hw) as [[Hnd _]%NoDup_cons [Hfr _]%Forall_cons].
  change (2 ^ PPN_WIDTH) with (2 ^ 44) in Hfr.
  assert (pos !! f = None) as Hf.
  { apply eq_None_not_Some. intros Hin. apply Hnd. rewrite Hp. apply elem_of_app. left.
    by apply (pi_frames _ _ _ _ Hi). }
  exists f. pose proof (link_entry (mem s) p i f pre Hlen Hfr) as [Hlk Hpp]. split_and!.
  - split; [by apply link_inv|]. exists (f :: l). split; [done|]. simpl. unfold vec_push. rewrite Hp. solve_perm.
  - cbn [source]. rewrite Hfree. done.
  - done.
  - intros j. by apply (link_new (mem s) pos p i f pre).
  - split; [split_and!|].
    + done.
    + intros q Hq. simpl. unfold vec_push. apply elem_of_app. by left.
    + intros q j Hq. simpl in Hq |- *. unfold vec_push in Hq. assert (p ∈ frames (table s)) as Hpf
        by (apply (pi_frames _ _ _ _ Hi); by eexists).
      assert (root s ≠ f) as Hrf.
      { intros <-. pose proof (proj2 (pi_root _ _ _ _ Hi (root s)) eq_refl). congruence. }
      apply link_old; [set_solver|]. intros [-> ->]. destruct Hq as [Hq|[-> Hnd']]; [set_solver|].
      apply Hnd'. pose proof (proj2 (pi_root _ _ _ _ Hi (root s)) eq_refl) as Hr. rewrite Hpos in Hr.
      injection Hr as ->. exact Hd.
    + intros path Hpath. by apply (link_view dom (mem s) (table s) pos p i f pre).
Qed.

(** What [find_pte_create] finds: the slot of the level on the path, which is free
    of leaves. *)
Definition created s s' (level : nat) path (q j : Z) : Prop :=
  ∃ pos' rest, st_ok s' pos' ∧ pos' !! q = Some (take level path) ∧ drop level path = j :: rest ∧
    find_loop (mem s') level q (j :: rest) = None ∧ same_map s s'.

Lemma find_none_leaf (m : pmem) i p j rest :
  (i ≤ 2)%nat → find_loop m i p (j :: rest) = None → is_leaf i (m p j) = false.
Proof.
  intros Hi. rewrite find_loop_step. destruct (is_leaf _ _); [|done].
  destruct i as [|[|[|]]]; [done..|lia].
Qed.

Lemma create_ok idxs s pos i level ppn pre :
  st_ok s pos → pos !! ppn = Some pre → i = length pre → (i ≤ level ≤ 2)%nat →
  (level < i + length idxs)%nat → in_dom dom (pre ++ idxs) → find_loop (mem s) i ppn idxs = None →
  match create_loop s i level ppn idxs with
  | None => fs_free (source s) < Z.of_nat (level - i)
  | Some (slot, s') => ∃ q j, slot = Some (q, j) ∧ created s s' level (pre ++ idxs) q j
  end.
Proof.
  revert s pos i ppn pre. induction idxs as [|idx rest IH]; intros s pos i ppn pre Hs Hp -> Hlv Hlen Hd Hf;
    [simpl in Hlen; lia|]. cbn [create_loop]. destruct (Nat.eqb_spec (length pre) level) as [<-|Hne].
  { exists ppn, idx. split; [done|]. exists pos, rest. rewrite take_app_length, drop_app_length.
    by split_and!; [..|split]. }
  assert (pre ++ idx :: rest = (pre ++ [idx]) ++ rest) as Heq by (by rewrite <-app_assoc).
  assert (in_dom dom (pre ++ [idx])) as Hd'
    by (eapply in_dom_prefix; [exact Hd|rewrite Heq; by eexists]).
  assert (length (pre ++ [idx]) = S (length pre)) as Hl1 by (rewrite length_app; simpl; lia).
  pose proof (find_none_leaf (mem s) (length pre) ppn idx rest ltac:(lia) Hf) as Hnl. simpl in Hlen.
  rewrite is_valid_bit. destruct (Z.testbit (mem s ppn idx) 0) eqn:Hv; cbn [mbind option_bind].
  - rewrite find_loop_link in Hf by done.
    assert (pos !! PTE_ppn (mem s ppn idx) = Some (pre ++ [idx])) as Hc
      by (by apply (pi_child _ _ _ _ (proj1 Hs))).
    specialize (IH s pos (S (length pre)) _ _ Hs Hc (eq_sym Hl1) ltac:(lia) ltac:(lia)).
    rewrite <-Heq in IH. specialize (IH Hd Hf). destruct (create_loop s _ _ _ _) as [[slot s']|]; [done|cbn in IH; lia].
  - pose proof (add_table_ok s pos ppn pre idx Hs Hp Hd' ltac:(lia) Hv) as Ha.
    destruct (add_table s ppn idx) as [s1|]; cbn [mbind option_bind]; [|cbn in Ha; lia].
    destruct Ha as (f & Hs1 & Hfree & Hpp & Hz & Hsame).
    rewrite Hpp. specialize (IH s1 _ (S (length pre)) f _ Hs1 (lookup_insert_eq _ _ _) (eq_sym Hl1) ltac:(lia) ltac:(lia)).
    rewrite <-Heq in IH. specialize (IH Hd). assert (find_loop (mem s1) (S (length pre)) f rest = None) as Hf1.
    { destruct rest as [|j rest]; [done|]. by rewrite find_loop_step, Hz, (proj2 (empty_entry _)). }
    specialize (IH Hf1). destruct (create_loop s1 _ _ _ _) as [[slot s']|]; [|cbn in IH; lia].
    destruct IH as (q & j & -> & pos' & rest' & ? & ? & ? & ? & ?). exists q, j. split; [done|].
    exists pos', rest'. split_and!; [done..|]. by eapply same_map_trans.
Qed.

(** The pages that share the leaf of [path] at the level of [sz]. *)
Definition covers (sz : PageSize) path path' : Prop :=
  take (S (walk_level sz)) path `prefix_of` path'.

#[local] Instance covers_dec sz path path' : Decision (covers sz path path').
Proof. unfold covers. apply _. Defined.

(** [s'] maps the pages of [path] to [x], and all others as [s]. *)
Definition updated s s' path (sz : PageSize) (x : option (PageTableEntry * PageSize)) : Prop :=
  outside s s' ∧ ∀ path', in_dom dom path' →
    sview s' path' = if decide (covers sz path path') then x else sview s path'.

Lemma page_size_level i sz : page_size_at i = Some sz ↔ i = walk_level sz.
Proof. destruct i as [|[|[|]]], sz; simpl; split; congruence || lia. Qed.

Lemma set_slot_ok s pos p pre i path e sz :
  st_ok s pos → pos !! p = Some pre → in_dom dom path → pre ++ [i] `prefix_of` path →
  length pre = walk_level sz → ¬ is_link (length pre) (mem s p i) →
  is_leaf (length pre) e = Z.testbit e 0 →
  st_ok (set_slot s p i e) pos ∧
  updated s (set_slot s p i e) path sz (if Z.testbit e 0 then Some (e, sz) else None).
Proof.
  intros [Hi Hown] Hp Hd Hpre Hl Hnl He. assert (in_dom dom (pre ++ [i])) as Hd'
    by (by eapply in_dom_prefix).
  destruct (write_slot dom (mem s) (table s) pos p pre i e sz) as [Hi' Hv]; try done.
  { by apply page_size_level. }
  split; [done|]. split.
  - split_and!; [done..|]. intros q j Hq. apply write_ne. intros [-> ->]. destruct Hq as [Hq|[-> Hnd]].
    + apply Hq. apply (pi_frames _ _ _ _ Hi). by eexists.
    + pose proof (proj2 (pi_root _ _ _ _ Hi (root s)) eq_refl) as Hr. rewrite Hp in Hr. by injection Hr as ->.
  - intros path' Hd2. unfold sview, root. cbn [mem set_slot table]. rewrite Hv by done.
    assert (take (S (walk_level sz)) path = pre ++ [i]) as Ht.
    { destruct Hpre as [rest ->]. rewrite <-Hl. replace (S (length pre)) with (length (pre ++ [i])).
      - apply take_app_length.
      - rewrite length_app. simpl. lia. }
    assert (covers sz path path' ↔ pre ++ [i] `prefix_of` path') as Hc by (unfold covers; by rewrite Ht).
    destruct (decide (covers _ _ _)), (decide (_ `prefix_of` _)); tauto.
Qed.

(** The slot of a mapped page. *)
Lemma mapped_slot s pos path e sz :
  st_ok s pos → in_dom dom path → sview s path = Some (e, sz) →
  ∃ q j pre, find_loop (mem s) 0 (root s) path = Some (q, j, sz) ∧ mem s q j = e ∧ pos !! q = Some pre ∧
    pre ++ [j] `prefix_of` path ∧ length pre = walk_level sz ∧ Z.testbit e 0 = true ∧
    ¬ is_link (length pre) e ∧ is_leaf (length pre) e = true.
Proof.
  intros [Hi _] Hd Hv. unfold sview, view in Hv.
  destruct (find_loop (mem s) 0 (root s) path) as [[[q j] sz']|] eqn:Hf; [|done]. simpl in Hv.
  injection Hv as He ->. assert (pos !! root s = Some []) as Hr by (by apply (pi_root _ _ _ _ Hi)).
  destruct (find_slot dom _ _ _ Hi _ [] path q j sz Hr Hd Hf) as (pre & Hq & Hpre & Hsz & Hlf).
  exists q, j, pre. simpl in Hpre. rewrite He in Hlf. split_and!; try done.
  - by apply page_size_level.
  - rewrite <-He in Hlf |- *. eapply (pi_leaf _ _ _ _ Hi); [exact Hq| |exact Hlf]. by eapply in_dom_prefix.
  - intros [_ Hn]. congruence.
Qed.

(** The entry that [map] and [set_entry] write is a leaf. *)
Lemma new_entry_leaf sz ppn flags :
  sz = Page4K ∨ access flags = true →
  is_leaf (walk_level sz) (PTE_new ppn (final_flags flags)) = Z.testbit (PTE_new ppn (final_flags flags)) 0.
Proof.
  intros Hsz. rewrite is_leaf_bits, final_flags_access, final_flags_valid.
  destruct Hsz as [->| ->]; [done|]. by destruct sz.
Qed.

Lemma map_ok s pos vpn ppn flags sz :
  st_ok s pos → in_dom dom (indexes vpn) → sview s (indexes vpn) = None →
  (sz = Page4K ∨ access flags = true) →
  match map s vpn ppn flags sz with
  | None => sz ≠ Page4K ∨ fs_free (source s) < 2
  | Some s' => ∃ pos', st_ok s' pos' ∧
      updated s s' (indexes vpn) sz (Some (PTE_new ppn (final_flags flags), sz))
  end.
Proof.
  intros Hs Hd Hv Hsz. assert (find_loop (mem s) 0 (root s) (indexes vpn) = None) as Hf.
  { unfold sview, view in Hv. by destruct (find_loop _ _ _ _) as [[[??]?]|]. }
  assert (pos !! root s = Some []) as Hr by (by apply (pi_root _ _ _ _ (proj1 Hs))).
  pose proof (create_ok (indexes vpn) s pos 0 (walk_level sz) (root s) [] Hs Hr eq_refl) as Hc.
  specialize (Hc ltac:(destruct sz; simpl; lia) ltac:(destruct sz; simpl; lia) Hd Hf).
  unfold map, find_pte_create. fold (root s). destruct (create_loop s _ _ _ _) as [[slot s1]|];
    cbn [mbind option_bind]; last (right; destruct sz; simpl in Hc; lia).
  destruct Hc as (q & j & -> & pos1 & rest & Hs1 & Hq & Hdr & Hnone & Hout & Hsame). cbn [mbind option_bind].
  rewrite is_valid_bit. destruct (Z.testbit (mem s1 q j) 0) eqn:Hvb.
  { left. intros ->. apply find_none_leaf in Hnone; [|simpl; lia]. rewrite is_leaf_bits, Hvb in Hnone. done. }
  simpl app in Hq, Hdr. assert (length (take (walk_level sz) (indexes vpn)) = walk_level sz) as Hlen
    by (rewrite length_take; destruct sz; simpl; lia).
  exists pos1. destruct (set_slot_ok s1 pos1 q _ j (indexes vpn) (PTE_new ppn (final_flags flags)) sz Hs1 Hq Hd)
    as [Hs2 [Hout2 Hup]].
  - exists rest. rewrite <-app_assoc. simpl. rewrite <-Hdr. by rewrite take_drop.
  - done.
  - intros [? _]. congruence.
  - rewrite Hlen. by apply new_entry_leaf.
  - split; [done|]. split; [by eapply outside_trans|]. intros path' Hd'. rewrite Hup by done.
    rewrite final_flags_valid. by destruct (decide _); [|apply Hsame].
Qed.

Lemma unmap_ok s pos vpn e sz :
  st_ok s pos → in_dom dom (indexes vpn) → sview s (indexes vpn) = Some (e, sz) →
  ∃ s', unmap s vpn = Some s' ∧ st_ok s' pos ∧ updated s s' (indexes vpn) sz None.
Proof.
  intros Hs Hd Hv. destruct (mapped_slot _ _ _ _ _ Hs Hd Hv) as (q & j & pre & Hf & He & Hq & Hpre & Hl & Hb & Hnl & _).
  unfold unmap, find_pte_mut. fold (root s). rewrite Hf. cbn [mbind option_bind].
  rewrite is_valid_bit, He, Hb. eexists. split; [done|].
  apply (set_slot_ok s pos q pre j (indexes vpn) PTE_empty sz); try done; [by rewrite He|].
  apply empty_entry.
Qed.

Lemma set_entry_ok s pos vpn ppn flags e sz :
  st_ok s pos → in_dom dom (indexes vpn) → sview s (indexes vpn) = Some (e, sz) →
  (sz = Page4K ∨ access flags = true) →
  ∃ s', set_entry s vpn ppn flags = Some s' ∧ st_ok s' pos ∧
    updated s s' (indexes vpn) sz (Some (PTE_new ppn (final_flags flags), sz)).
Proof.
  intros Hs Hd Hv Hsz. destruct (mapped_slot _ _ _ _ _ Hs Hd Hv) as (q & j & pre & Hf & He & Hq & Hpre & Hl & Hb & Hnl & _).
  unfold set_entry, find_pte_mut. fold (root s). rewrite Hf. cbn [mbind option_bind]. eexists. split; [done|].
  destruct (set_slot_ok s pos q pre j (indexes vpn) (PTE_new ppn (final_flags flags)) sz) as [Hs' Hu]; try done.
  - by rewrite He.
  - rewrite Hl. by apply new_entry_leaf.
  - rewrite final_flags_valid in Hu. done.
Qed.

(** ** Moving an entry *)

(** [s'] maps the page of [a] nowhere, the page of [b] to [x], and all others as
    [s]. *)
Definition moved s s' a b (sz : PageSize) (x : PageTableEntry * PageSize) : Prop :=
  outside s s' ∧ ∀ path', in_dom dom path' →
    sview s' path' = if decide (covers sz a path') then None
      else if decide (covers sz b path') then Some x else sview s path'.

Lemma put_then_clear s1 pos1 p pre i src dst e sz :
  st_ok s1 pos1 → in_dom dom (indexes src) → in_dom dom (indexes dst) →
  pos1 !! p = Some pre → pre ++ [i] `prefix_of` indexes dst → length pre = walk_level sz →
  Z.testbit (mem s1 p i) 0 = false → sview s1 (indexes src) = Some (e, sz) → sview s1 (indexes dst) = None →
  let s2 := set_slot s1 p i e in
  ∃ q j, find_pte_mut (mem s2) (table s2) src = Some (q, j, sz) ∧
    st_ok (set_slot s2 q j PTE_empty) pos1 ∧
    moved s1 (set_slot s2 q j PTE_empty) (indexes src) (indexes dst) sz (e, sz).
Proof.
  intros Hs1 Hds Hdd Hp Hpre Hlen Hvb Hsrc Hdst s2.
  destruct (mapped_slot _ _ _ _ _ Hs1 Hds Hsrc) as (_ & _ & pre0 & _ & _ & _ & _ & Hl0 & Hb & _ & Hlf).
  destruct (set_slot_ok s1 pos1 p pre i (indexes dst) e sz Hs1 Hp Hdd Hpre Hlen) as [Hs2 [Hout2 Hup2]].
  { intros [? _]. congruence. }
  { rewrite Hlen, <-Hl0. congruence. }
  rewrite Hb in Hup2. fold s2 in Hs2, Hout2, Hup2.
  assert (sview s2 (indexes src) = Some (e, sz)) as Hsrc2.
  { rewrite Hup2 by done. by destruct (decide _). }
  destruct (mapped_slot _ _ _ _ _ Hs2 Hds Hsrc2) as (q & j & pre' & Hf & He & Hq & Hpre' & Hl & _ & Hnl & _).
  exists q, j. split; [done|].
  destruct (set_slot_ok s2 pos1 q pre' j (indexes src) PTE_empty sz) as [Hs3 [Hout3 Hup3]]; try done.
  { by rewrite He. }
  { apply empty_entry. }
  split; [done|]. split; [by eapply outside_trans|]. intros path' Hd'. rewrite Hup3 by done.
  destruct (decide (covers sz (indexes src) path')); [done|]. by rewrite Hup2.
Qed.

Lemma move_ok s pos src dst sz :
  st_ok s pos → in_dom dom (indexes src) → in_dom dom (indexes dst) →
  match move_entry s src dst sz with
  | None => fs_free (source s) < 2
  | Some (false, s') => ∃ pos', st_ok s' pos' ∧ same_map s s'
  | Some (true, s') => ∃ pos', st_ok s' pos' ∧
      (src = dst ∧ s' = s ∨ ∃ e, sview s (indexes src) = Some (e, sz) ∧ sview s (indexes dst) = None ∧
        moved s s' (indexes src) (indexes dst) sz (e, sz))
  end.
Proof.
  intros Hs Hds Hdd. assert (∃ pos', st_ok s pos' ∧ same_map s s) as Hrefl by (by exists pos).
  unfold move_entry. destruct (decide (src = dst)) as [->|Hne]; [exists pos; split; [done|by left]|].
  rewrite find_pte_view. change (view (mem s) (root_ppn (table s)) (indexes src)) with (sview s (indexes src)).
  destruct (sview s (indexes src)) as [[e sz']|] eqn:Hsrc; [|done].
  destruct (_ || _) eqn:Hb; [done|]. apply orb_false_iff in Hb as [_ Hsz].
  apply negb_false_iff, bool_decide_eq_true in Hsz as ->.
  unfold translate. rewrite find_pte_view.
  change (view (mem s) (root_ppn (table s)) (indexes dst)) with (sview s (indexes dst)).
  destruct (sview s (indexes dst)) as [[e' sz']|] eqn:Hdst.
  { destruct (mapped_slot _ _ _ _ _ Hs Hdd Hdst) as (?&?&?&_&_&_&_&_& Hv & _). simpl. by rewrite is_valid_bit, Hv. }
  cbn [fmap option_fmap option_map from_option]. assert (find_loop (mem s) 0 (root s) (indexes dst) = None) as Hf.
  { unfold sview, view in Hdst. by destruct (find_loop _ _ _ (indexes dst)) as [[[??]?]|]. }
  assert (pos !! root s = Some []) as Hr by (by apply (pi_root _ _ _ _ (proj1 Hs))).
  pose proof (create_ok (indexes dst) s pos 0 (walk_level sz) (root s) [] Hs Hr eq_refl) as Hc.
  specialize (Hc ltac:(destruct sz; simpl; lia) ltac:(destruct sz; simpl; lia) Hdd Hf).
  unfold find_pte_create. fold (root s). destruct (create_loop s _ _ _ _) as [[slot s1]|];
    cbn [mbind option_bind]; last (destruct sz; simpl in Hc; lia).
  destruct Hc as (p & i & -> & pos1 & rest & Hs1 & Hp & Hdr & _ & Hout & Hsame).
  rewrite is_valid_bit. destruct (Z.testbit (mem s1 p i) 0) eqn:Hvb; [by exists pos1|].
  simpl app in Hp, Hdr.
  destruct (put_then_clear s1 pos1 p _ i src dst e sz Hs1 Hds Hdd Hp) as (q & j & Hfm & Hs3 & Hout3 & Hmv).
  - exists rest. rewrite <-app_assoc. simpl. rewrite <-Hdr. by rewrite take_drop.
  - rewrite length_take. destruct sz; simpl; lia.
  - done.
  - by rewrite Hsame.
  - by rewrite Hsame.
  - cbv zeta. rewrite Hfm. cbn [mbind option_bind]. rewrite bool_decide_true by done.
    exists pos1. split; [done|]. right. exists e. split_and!; [done..|]. split; [by eapply outside_trans|].
    intros path' Hd'. rewrite Hmv by done. repeat (destruct (decide _); [done|]). by apply Hsame.
Qed.
End operations.

(** ** Page numbers and paths *)

(** Two page numbers lie in the same page of size [sz]. *)
Lemma covers_page sz a b :
  0 ≤ a < 2 ^ VPN_WIDTH → 0 ≤ b < 2 ^ VPN_WIDTH →
  covers sz (indexes a) (indexes b) ↔ a / num_pages sz = b / num_pages sz.
Proof.
  intros Ha Hb. unfold covers. rewrite !indexes_digits. change (2 ^ VPN_WIDTH) with 134217728 in *.
  change (2 ^ 18) with 262144. change (2 ^ 9) with 512.
  destruct sz; cbn [walk_level take].
  - change (num_pages Page4K) with 1. rewrite !Z.div_1_r. split.
    + intros [rest [= H0 H1 H2]]. Z.to_euclidean_division_equations. lia.
    + intros ->. done.
  - change (num_pages Page2M) with 512. split.
    + intros [rest [= H0 H1 _]]. Z.to_euclidean_division_equations. lia.
    + intros Heq. rewrite Heq. exists [b mod 512]. simpl. f_equal.
      assert (a / 262144 = b / 262144) as ->; [|done].
      replace 262144 with (512 * 512) by lia. by rewrite <-!Z.div_div, Heq by lia.
  - change (num_pages Page1G) with 262144. split.
    + intros [rest [= H0 _]]. Z.to_euclidean_division_equations. lia.
    + intros Heq. rewrite Heq. by eexists.
Qed.

(** The index in the root table. *)
Definition root_index (vpn : Z) : Z := (vpn / 2 ^ 18) mod 512.

Lemma in_dom_index dom vpn : in_dom dom (indexes vpn) ↔ dom (root_index vpn).
Proof. by rewrite indexes_digits. Qed.

(** ** The shared kernel half *)

(** The lower half of the root. *)
Definition user_half (i : Z) : Prop := i < 256.

Lemma share_user_half m pt kernel pos :
  pt_inv user_half m pt pos →
  pt_inv user_half (share_kernel_half m pt kernel) pt pos ∧
  ∀ path, in_dom user_half path →
    view (share_kernel_half m pt kernel) (root_ppn pt) path = view m (root_ppn pt) path.
Proof.
  intros Hi. assert (∀ q pre j, pos !! q = Some pre → in_dom user_half (pre ++ [j]) →
    share_kernel_half m pt kernel q j = m q j) as Hm.
  { intros q pre j Hq Hd. unfold share_kernel_half. rewrite decide_False; [done|]. intros [-> Hj].
    assert (pre = []) as ->.
    { pose proof (proj2 (pi_root _ _ _ _ Hi (root_ppn pt)) eq_refl). congruence. }
    simpl in Hd. unfold user_half in Hd. lia. }
  split.
  - split; try apply Hi.
    + intros q pre j Hq Hd. rewrite (Hm q pre j) by done. by apply (pi_child _ _ _ _ Hi).
    + intros q pre j Hq. destruct (pi_linked _ _ _ _ Hi _ _ _ Hq) as (? & ? & q' & Hq' & Hl & Hp).
      split_and!; [done..|]. exists q'. by rewrite (Hm q' pre j).
    + intros q pre j Hq Hd. rewrite (Hm q pre j) by done. by apply (pi_leaf _ _ _ _ Hi _ pre).
  - intros path Hpath. eapply view_ext; [done..|]. intros q pre j Hq Hpre. apply (Hm q pre); [done|].
    by eapply in_dom_prefix.
Qed.

(** A root whose entry [i] is the kernel's, in a memory that has the kernel's other
    tables, translates the paths through [i] as the kernel does. *)
Lemma kernel_view dom m m' kernel posk root i path :
  pt_inv dom m kernel posk → dom i → m' root i = m (root_ppn kernel) i →
  (∀ q pre j, posk !! q = Some pre → pre ≠ [] → m' q j = m q j) →
  view m' root (i :: path) = view m (root_ppn kernel) (i :: path).
Proof.
  intros Hi Hd Hroot Hm. assert (posk !! root_ppn kernel = Some []) as Hr by (by apply (pi_root _ _ _ _ Hi)).
  unfold view. rewrite !find_loop_step, Hroot. destruct (is_leaf 0 _) eqn:Hl; [simpl; by rewrite Hroot|].
  destruct (Z.testbit _ 0) eqn:Hv; [|done].
  assert (posk !! PTE_ppn (m (root_ppn kernel) i) = Some [i]) as Hc by (by apply (pi_child _ _ _ _ Hi _ [] i)).
  assert (∀ path pre c, pre ≠ [] → posk !! c = Some pre → in_dom dom pre →
    ('(p, j, sz) ← find_loop m' (length pre) c path; Some (m' p j, sz)) =
    ('(p, j, sz) ← find_loop m (length pre) c path; Some (m p j, sz))) as Hwalk; last first.
  { by apply (Hwalk path [i]). }
  clear -Hi Hm. intros path. induction path as [|j path IH]; intros pre c Hne Hc Hd; [done|].
  rewrite !find_loop_step, (Hm c pre j) by done. destruct (is_leaf _ _) eqn:Hl.
  { destruct (page_size_at _); [|done]. simpl. by rewrite (Hm c pre j). }
  destruct (Z.testbit _ 0) eqn:Hv; [|done]. assert (in_dom dom (pre ++ [j])) as Hd'
    by (destruct pre; [done|exact Hd]).
  pose proof (pi_child _ _ _ _ Hi _ _ _ Hc Hd' (conj Hv Hl)) as Hc'.
  specialize (IH (pre ++ [j]) _ ltac:(by destruct pre) Hc' Hd'). rewrite length_app in IH. simpl in IH.
  by rewrite Nat.add_comm in IH.
Qed.

Lemma pt_inv_ext dom m m' pt pos :
  (∀ q j, is_Some (pos !! q) → m' q j = m q j) → pt_inv dom m pt pos → pt_inv dom m' pt pos.
Proof.
  intros Hm [H1 H2 H3 H4 H5]. split; [done|done| | |].
  - intros p pre i Hp. rewrite Hm by (by eexists). by apply H3.
  - intros p pre i Hp. destruct (H4 _ _ _ Hp) as (? & ? & q & Hq & ?). split_and!; [done..|].
    exists q. by rewrite Hm.
  - intros p pre i Hp. rewrite Hm by (by eexists). by apply H5.
Qed.

(** ** New tables *)

Lemma new_ok {S_} `{!FrameSource S_} dom own m (w : S_) l :
  fs_owns w l → l ≡ₚ own →
  match new m w with
  | None => fs_free w ≤ 0
  | Some s => ∃ pos, st_ok dom own s pos ∧ fs_free (source s) = fs_free w - 1 ∧
      (∀ path, sview s path = None) ∧ (∀ q j, q ∉ frames (table s) → mem s q j = m q j)
  end.
Proof.
  intros Hl Hp. unfold new, frame_alloc.
  destruct (wp_elim _ _ (fs_alloc_spec _ _ Hl)) as ([[f|] w'] & -> & Hw & Hfree & Hsome);
    cbn [mbind option_bind option_list app length] in *; last first.
  { destruct (decide (0 < fs_free w)) as [Hf|]; [|lia]. by destruct (Hsome Hf). }
  assert (∀ j, clear m f f j = 0) as Hz by (intros j; unfold clear; by rewrite decide_True).
  exists {[f := []]}. split_and!.
  - split; [|exists (f :: l); split; [done|]; simpl; by rewrite Hp]. split; simpl.
    + intros p. rewrite lookup_singleton_Some. naive_solver.
    + intros p. rewrite list_elem_of_singleton. split; [by intros [? [<- _]%lookup_singleton_Some]|].
      intros ->. rewrite lookup_singleton_eq. by eexists.
    + intros p pre i [<- <-]%lookup_singleton_Some _. rewrite Hz. by intros ?%empty_entry.
    + intros p pre i [_ Hx]%lookup_singleton_Some. by destruct pre.
    + intros p pre i [<- <-]%lookup_singleton_Some _. rewrite Hz. by rewrite (proj2 (empty_entry _)).
  - cbn [source]. rewrite Hfree. done.
  - intros [|i path]; [done|]. unfold sview, view. rewrite find_loop_step. unfold root. cbn [mem table root_ppn].
    by rewrite Hz, (proj2 (empty_entry _)).
  - simpl. intros q j Hq. unfold clear. rewrite decide_False; [done|]. set_solver.
Qed.

(** ** Properties *)

Module PageTableProps.
Section props.
Context {S_ : Type} `{!FrameSource S_} (dom : Z → Prop) (own : list Z).
Implicit Types (s : state S_) (vpn : Z).

(** What a table maps, on the part of the address space it owns: the entry and size
    [x] on the page of [vpn], the map of [s] elsewhere. *)
Definition maps_as s s' vpn (sz : PageSize) (x : option (PageTableEntry * PageSize)) : Prop :=
  ∀ vpn', 0 ≤ vpn' < 2 ^ VPN_WIDTH → dom (root_index vpn') →
    find_pte (mem s') (table s') vpn' =
    if decide (vpn / num_pages sz = vpn' / num_pages sz) then x else find_pte (mem s) (table s) vpn'.

Lemma updated_maps s s' vpn sz x :
  0 ≤ vpn < 2 ^ VPN_WIDTH → updated dom s s' (indexes vpn) sz x → maps_as s s' vpn sz x.
Proof using.
  intros Hv [_ Hu] vpn' Hv' Hd. rewrite !find_pte_view. fold (root s) (root s').
  specialize (Hu (indexes vpn') (proj2 (in_dom_index _ _) Hd)). unfold sview in Hu. rewrite Hu.
  pose proof (covers_page sz vpn vpn' Hv Hv'). destruct (decide _), (decide _); tauto.
Qed.

(** [map] of an unmapped page adds exactly that mapping: the pages it covers
    translate to the new entry, with the given frame and flags, and every other
    translation stays.  It panics only when frames run out, or when a large page is
    mapped over a table. *)
Theorem map_adds s pos vpn ppn flags sz :
  st_ok dom own s pos → 0 ≤ vpn < 2 ^ VPN_WIDTH → dom (root_index vpn) →
  find_pte (mem s) (table s) vpn = None → sz = Page4K ∨ access flags = true →
  0 ≤ ppn < 2 ^ PPN_WIDTH → 0 ≤ flags < 2 ^ 8 →
  match map s vpn ppn flags sz with
  | None => sz ≠ Page4K ∨ fs_free (source s) < 2
  | Some s' => (∃ pos', st_ok dom own s' pos') ∧ outside dom s s' ∧
      ∃ e, maps_as s s' vpn sz (Some (e, sz)) ∧ PTE_ppn e = ppn ∧ PTE_flags e = final_flags flags
  end.
Proof using.
  intros Hs Hv Hd Hf Hsz Hppn Hfl. rewrite find_pte_view in Hf. apply in_dom_index in Hd.
  pose proof (map_ok dom own s pos vpn ppn flags sz Hs Hd Hf Hsz) as Hm.
  destruct (map s vpn ppn flags sz) as [s'|]; [|done]. destruct Hm as (pos' & Hs' & Hu).
  split; [by exists pos'|]. split; [apply Hu|]. eexists. split; [by apply updated_maps|].
  split; [apply PTE_ppn_new|apply PTE_flags_new]; try done; by apply final_flags_byte.
Qed.

(** [unmap] of a mapped page never panics and removes exactly that mapping, the
    whole page when it is a large one. *)
Theorem unmap_removes s pos vpn e sz :
  st_ok dom own s pos → 0 ≤ vpn < 2 ^ VPN_WIDTH → dom (root_index vpn) →
  find_pte (mem s) (table s) vpn = Some (e, sz) →
  ∃ s', unmap s vpn = Some s' ∧ st_ok dom own s' pos ∧ maps_as s s' vpn sz None.
Proof using.
  intros Hs Hv Hd Hf. apply in_dom_index in Hd.
  destruct (unmap_ok dom own s pos vpn e sz Hs Hd Hf) as (s' & Heq & Hs' & Hu).
  exists s'. split_and!; [done..|]. by apply updated_maps.
Qed.

(** [move_entry] moves a mapping or changes nothing: when it returns true for
    different pages, the source page is unmapped, the destination page, which was
    not mapped, has the source's entry, and no other translation changes; when it
    returns false no translation changes at all. *)
Theorem move_entry_moves s pos src dst sz :
  st_ok dom own s pos → 0 ≤ src < 2 ^ VPN_WIDTH → 0 ≤ dst < 2 ^ VPN_WIDTH → src ≠ dst →
  dom (root_index src) → dom (root_index dst) →
  match move_entry s src dst sz with
  | None => fs_free (source s) < 2
  | Some (moved_, s') => (∃ pos', st_ok dom own s' pos') ∧
      ∀ vpn', 0 ≤ vpn' < 2 ^ VPN_WIDTH → dom (root_index vpn') →
        find_pte (mem s') (table s') vpn' =
        if moved_ then
          if decide (src / num_pages sz = vpn' / num_pages sz) then None
          else if decide (dst / num_pages sz = vpn' / num_pages sz) then find_pte (mem s) (table s) src
          else find_pte (mem s) (table s) vpn'
        else find_pte (mem s) (table s) vpn'
  end.
Proof using.
  intros Hs Hsr Hdr Hne Hds Hdd. apply in_dom_index in Hds, Hdd.
  pose proof (move_ok dom own s pos src dst sz Hs Hds Hdd) as Hm.
  destruct (move_entry s src dst sz) as [[[] s']|]; [| |done].
  - destruct Hm as (pos' & Hs' & [[? _]|(e & He & _ & _ & Hmv)]); [done|]. split; [by exists pos'|].
    intros vpn' Hv' Hd'. apply in_dom_index in Hd'. specialize (Hmv _ Hd').
    rewrite !find_pte_view. unfold sview in *. fold (root s) (root s'). rewrite Hmv, He.
    pose proof (covers_page sz src vpn' Hsr Hv'). pose proof (covers_page sz dst vpn' Hdr Hv').
    repeat destruct (decide _); tauto.
  - destruct Hm as (pos' & Hs' & _ & Hsame). split; [by exists pos'|]. intros vpn' Hv' Hd'.
    apply in_dom_index in Hd'. by apply Hsame.
Qed.

(** A user table that has the kernel's upper half keeps it: whatever a table
    operation changes in the lower half, the kernel's pages translate in the user
    table as they do in the kernel's own. *)
Theorem kernel_half_stable kernel posk s s' pos' :
  pt_inv (λ _, True) (mem s) kernel posk → (∀ q, is_Some (posk !! q) → q ∈ own) →
  (∀ i, 256 ≤ i < 512 → mem s (root s) i = mem s (root_ppn kernel) i) →
  st_ok user_half own s' pos' → outside user_half s s' →
  ∀ vpn, 0 ≤ vpn < 2 ^ VPN_WIDTH → 256 ≤ root_index vpn →
    find_pte (mem s') (table s') vpn = find_pte (mem s) kernel vpn.
Proof using.
  intros Hk Hown Hshare [_ (l & Hl & Hp)] (Hr & _ & Hout) vpn Hv Hi.
  assert (∀ q j, is_Some (posk !! q) → mem s' q j = mem s q j) as Hm.
  { intros q j Hq%Hown. apply Hout. left. intros Hq'. destruct (fs_owns_ok _ _ Hl) as [Hnd _].
    rewrite Hp in Hnd. apply NoDup_app in Hnd as (_ & Hd & _). by eapply Hd. }
  rewrite !find_pte_view. fold (root s'). unfold root_index in Hi. rewrite indexes_digits.
  pose proof (Z.mod_pos_bound (vpn / 2 ^ 18) 512 ltac:(lia)).
  apply (kernel_view (λ _, True) _ _ _ posk); [done|done| |].
  - rewrite Hr, Hout by (right; split; [done|]; unfold user_half; lia). apply Hshare. lia.
  - intros q pre j Hq _. apply Hm. by eexists.
Qed.
End props.

(** Translating an address: the frame's address plus the offset in its page, for
    every page size, when the entry's frame is aligned. *)
Theorem translate_va_offset m pt va e sz :
  0 ≤ va → find_pte m pt (va / PAGE_SIZE) = Some (e, sz) →
  (num_pages sz | PTE_ppn e) →
  translate_va m pt va = Some (Some (PTE_ppn e * PAGE_SIZE + va mod size sz)).
Proof.
  intros Hva Hf [k Hk]. unfold translate_va, VirtAddr_std_floor. rewrite Hf.
  assert (0 ≤ PTE_ppn e < 2 ^ 44) as Hp.
  { unfold PTE_ppn, PhysPageNum_from. rewrite land_width_mask by done. by apply Z.mod_pos_bound. }
  assert (0 < size sz ≤ 2 ^ 30) as Hsz by (by destruct sz).
  pose proof (Z.mod_pos_bound va (size sz) ltac:(lia)) as Hm. pose proof (size_num_pages sz) as Hn.
  unfold PhysAddr_of_page. rewrite of_page_mul by lia. cbv zeta.
  unfold actual_aligned. rewrite !actual_page_offset_mod.
  assert ((PTE_ppn e * PAGE_SIZE) mod size sz = 0) as ->.
  { rewrite Hk, Hn, <-Z.mul_assoc. apply Z.mod_mul. lia. }
  assert (PTE_ppn e * 2 ^ 12 + size sz ≤ 2 ^ 56) as Hmax.
  { destruct sz; [change (num_pages Page4K) with 1 in Hk; change (size Page4K) with (2 ^ 12)
      |change (num_pages Page2M) with 512 in Hk; change (size Page2M) with (2 ^ 21)
      |change (num_pages Page1G) with 262144 in Hk; change (size Page1G) with (2 ^ 30)]; lia. }
  change (0 =? 0) with true. cbv iota. rewrite page_size_pow in *.
  unfold checked_add. rewrite (proj2 (Z.leb_le _ _)) by (unfold USIZE_MAX; lia). cbn [mbind option_bind].
  unfold PhysAddr_from. rewrite land_width_mask, Z.mod_small by (done || unfold PA_WIDTH; lia).
  done.
Qed.

(** ** Witnesses: a kernel table with one page in the upper half, and a user table
    that shares it and maps one page of its own *)

Definition St := state StackFrameAllocator.

Definition demo_source : StackFrameAllocator := init FrameAllocator.new 16 64.

Definition demo_state : St := MkState (λ _ _, 0) demo_source (MkPageTable 0 []).

Definition kernel0 : St := default demo_state (new (λ _ _, 0) demo_source).

Definition kernel_vpn : Z := 256 * 2 ^ 18.

Definition kernel1 : St := default kernel0 (map kernel0 kernel_vpn 100 (Z.lor R W) Page4K).

Definition user0 : St := default kernel1 (new (mem kernel1) (source kernel1)).

Definition user1 : St :=
  MkState (share_kernel_half (mem user0) (table user0) (table kernel1)) (source user0) (table user0).

Definition user2 : St := default user1 (map user1 7 200 (Z.lor (Z.lor R W) U) Page4K).

Lemma demo_range : 0 ≤ kernel_vpn < 2 ^ VPN_WIDTH ∧ 0 ≤ 5 < 2 ^ VPN_WIDTH ∧ kernel_vpn ≠ 5.
Proof. by vm_compute. Qed.

Lemma kernel0_ok : ∃ pos, st_ok (λ _, True) [] kernel0 pos ∧ ∀ path, sview kernel0 path = None.
Proof.
  assert (fs_owns demo_source []) as Ho by (exists 16, []; by apply init_inv).
  pose proof (new_ok (λ _, True) [] (λ _ _, 0) demo_source [] Ho (Permutation_refl _)) as Hn.
  unfold kernel0. destruct (new (λ _ _, 0) demo_source) as [s|] eqn:Hs.
  - destruct Hn as (pos & Hok & _ & Hnone & _). by exists pos.
  - exfalso. vm_compute in Hn. by apply Hn.
Qed.

Lemma map_adds_witness :
  (∃ pos', st_ok (λ _, True) [] kernel1 pos') ∧
  ∃ e, find_pte (mem kernel1) (table kernel1) kernel_vpn = Some (e, Page4K) ∧ PTE_ppn e = 100.
Proof.
  destruct kernel0_ok as (pos & Hok & Hnone).
  pose proof (map_adds (λ _, True) [] kernel0 pos kernel_vpn 100 (Z.lor R W) Page4K Hok ltac:(done) I (Hnone (indexes kernel_vpn))
    ltac:(by left) ltac:(done) ltac:(done)) as Hm.
  unfold kernel1. destruct (map kernel0 kernel_vpn 100 (Z.lor R W) Page4K) as [s'|] eqn:Hs.
  - destruct Hm as (Hok' & _ & e & Hmaps & Hp & _). split; [exact Hok'|]. exists e. split; [|exact Hp].
    specialize (Hmaps kernel_vpn ltac:(done) I). rewrite decide_True in Hmaps by reflexivity. exact Hmaps.
  - exfalso. destruct Hm as [Hm|Hm]; [by apply Hm|]. vm_compute in Hm. discriminate.
Defined.

Lemma kernel1_ok : ∃ pos e, st_ok (λ _, True) [] kernel1 pos ∧
  find_pte (mem kernel1) (table kernel1) kernel_vpn = Some (e, Page4K).
Proof.
  destruct kernel0_ok as (pos & Hok & Hnone).
  pose proof (map_ok (λ _, True) [] kernel0 pos kernel_vpn 100 (Z.lor R W) Page4K Hok I (Hnone _) ltac:(by left)) as Hm.
  unfold kernel1. destruct (map kernel0 kernel_vpn 100 (Z.lor R W) Page4K) as [s'|] eqn:Hs.
  - destruct Hm as (pos' & Hok' & _ & Hu). exists pos'. eexists. split; [exact Hok'|].
    specialize (Hu (indexes kernel_vpn) I). rewrite decide_True in Hu by (by exists []). exact Hu.
  - exfalso. destruct Hm as [Hm|Hm]; [by apply Hm|]. vm_compute in Hm. discriminate.
Qed.

Lemma unmap_removes_witness :
  ∃ s', unmap kernel1 kernel_vpn = Some s' ∧ find_pte (mem s') (table s') kernel_vpn = None.
Proof.
  destruct kernel1_ok as (pos & e & Hok & He).
  destruct (unmap_removes (λ _, True) [] kernel1 pos kernel_vpn e Page4K Hok (proj1 demo_range) I He)
    as (s' & Heq & _ & Hm).
  exists s'. split; [exact Heq|]. rewrite (Hm kernel_vpn (proj1 demo_range) I). apply decide_True. reflexivity.
Defined.

Lemma move_entry_moves_witness :
  ∃ s', move_entry kernel1 kernel_vpn 5 Page4K = Some (true, s') ∧
    find_pte (mem s') (table s') 5 = find_pte (mem kernel1) (table kernel1) kernel_vpn.
Proof.
  destruct kernel1_ok as (pos & e & Hok & He).
  pose proof (move_entry_moves (λ _, True) [] kernel1 pos kernel_vpn 5 Page4K Hok
    (proj1 demo_range) (proj1 (proj2 demo_range)) (proj2 (proj2 demo_range)) I I) as Hm.
  destruct (move_entry kernel1 kernel_vpn 5 Page4K) as [[b s']|] eqn:Hs.
  - assert (b = true) as ->.
    { assert (fst <$> move_entry kernel1 kernel_vpn 5 Page4K = Some true) as Hb by (vm_compute; reflexivity).
      rewrite Hs in Hb. by injection Hb. }
    exists s'. split; [reflexivity|]. destruct Hm as [_ Hm]. rewrite (Hm 5 (proj1 (proj2 demo_range)) I).
    rewrite decide_False by (vm_compute; congruence). apply decide_True. reflexivity.
  - exfalso. vm_compute in Hm. discriminate.
Defined.

(** The user table starts on frames the kernel's table does not use. *)
Lemma user0_ok : ∃ pos, st_ok user_half (frames (table kernel1)) user0 pos ∧
  (∀ path, sview user0 path = None) ∧
  (∀ q j, q ∉ frames (table user0) → mem user0 q j = mem kernel1 q j).
Proof.
  destruct kernel1_ok as (posk & e & [_ (l & Hl & Hp)] & _). rewrite app_nil_r in Hp.
  pose proof (new_ok user_half (frames (table kernel1)) (mem kernel1) (source kernel1) l Hl Hp) as Hn.
  unfold user0. destruct (new (mem kernel1) (source kernel1)) as [s|] eqn:Hs; simpl.
  - destruct Hn as (pos & Hok & _ & Hnone & Hm). exists pos. split_and!; [exact Hok|exact Hnone|exact Hm].
  - exfalso. vm_compute in Hn. by apply Hn.
Qed.

Lemma user1_ok : ∃ pos, st_ok user_half (frames (table kernel1)) user1 pos ∧ sview user1 (indexes 7) = None.
Proof.
  destruct user0_ok as (pos & [Hi Ho] & Hnone & _). exists pos.
  destruct (share_user_half (mem user0) (table user0) (table kernel1) pos Hi) as [Hi' Hv].
  split; [by split|]. unfold sview, user1, root. cbn [mem table]. rewrite Hv by (by vm_compute). exact (Hnone (indexes 7)).
Qed.

Lemma user2_ok : ∃ pos, st_ok user_half (frames (table kernel1)) user2 pos ∧ outside user_half user1 user2.
Proof.
  destruct user1_ok as (pos & Hok & Hnone).
  pose proof (map_ok user_half _ user1 pos 7 200 (Z.lor (Z.lor R W) U) Page4K Hok ltac:(by vm_compute) Hnone
    ltac:(by left)) as Hm.
  unfold user2. destruct (map user1 7 200 (Z.lor (Z.lor R W) U) Page4K) as [s'|] eqn:Hs; simpl.
  - destruct Hm as (pos' & Hok' & Hout & _). exists pos'. split; [exact Hok'|exact Hout].
  - exfalso. destruct Hm as [Hm|Hm]; [by apply Hm|]. vm_compute in Hm. discriminate.
Qed.

Lemma kernel_in_user1 : ∃ posk, pt_inv (λ _, True) (mem user1) (table kernel1) posk ∧
  (∀ q, is_Some (posk !! q) → q ∈ frames (table kernel1)) ∧
  (∀ i, 256 ≤ i < 512 → mem user1 (root user1) i = mem user1 (root_ppn (table kernel1)) i).
Proof.
  destruct kernel1_ok as (posk & e & [Hk _] & _). destruct user0_ok as (pos & [Hi (l & Hl & Hp)] & _ & Hm).
  exists posk. destruct (fs_owns_ok _ _ Hl) as [Hnd _]. rewrite Hp in Hnd. apply NoDup_app in Hnd as (_ & Hd & _).
  assert (root_ppn (table user0) ∈ frames (table user0)) as Hroot.
  { apply (pi_frames _ _ _ _ Hi). rewrite (proj2 (pi_root _ _ _ _ Hi _) eq_refl). by eexists. }
  assert (∀ q, is_Some (posk !! q) → q ≠ root_ppn (table user0)) as Hne.
  { intros q Hq%(pi_frames _ _ _ _ Hk) ->. by eapply Hd. }
  assert (∀ q j, q ≠ root_ppn (table user0) → mem user1 q j = mem user0 q j) as Hsh.
  { intros q j Hq. unfold user1, share_kernel_half. cbn [mem]. rewrite decide_False; [done|]. by intros [? _]. }
  split_and!.
  - eapply pt_inv_ext; [|exact Hk]. intros q j Hq. rewrite Hsh by (by apply Hne). apply Hm.
    intros Hin. apply (Hd q Hin). by apply (pi_frames _ _ _ _ Hk).
  - intros q. by apply (pi_frames _ _ _ _ Hk).
  - intros i Hr. assert (is_Some (posk !! root_ppn (table kernel1))) as Hrk
      by (rewrite (proj2 (pi_root _ _ _ _ Hk _) eq_refl); by eexists).
    rewrite (Hsh (root_ppn (table kernel1))) by (by apply Hne).
    unfold user1, root, share_kernel_half. cbn [mem table]. by rewrite decide_True.
Qed.

Lemma kernel_half_stable_witness :
  find_pte (mem user2) (table user2) kernel_vpn = find_pte (mem user1) (table kernel1) kernel_vpn.
Proof.
  destruct kernel_in_user1 as (posk & Hk & Hown & Hsh). destruct user2_ok as (pos & Hok & Hout).
  apply (kernel_half_stable (frames (table kernel1)) (table kernel1) posk user1 user2 pos Hk Hown Hsh Hok Hout
    kernel_vpn (proj1 demo_range)).
  vm_compute. congruence.
Defined.

Lemma translate_va_offset_witness :
  translate_va (mem kernel1) (table kernel1) (kernel_vpn * PAGE_SIZE + 42) = Some (Some (100 * PAGE_SIZE + 42)).
Proof.
  assert (find_pte (mem kernel1) (table kernel1) ((kernel_vpn * PAGE_SIZE + 42) / PAGE_SIZE) =
    Some (PTE_new 100 (final_flags (Z.lor R W)), Page4K)) as Hf by (vm_compute; reflexivity).
  apply (translate_va_offset _ _ (kernel_vpn * PAGE_SIZE + 42) _ Page4K ltac:(done) Hf). exists 100. reflexivity.
Defined.
End PageTableProps.
