(* ===== verification/Pipe.v ===== *)
(** * Pipes (os/src/fs/pipe.rs)

    [PipeRingBuffer]: a ring of 65536 bytes over sixteen frames of physical memory,
    with a status that tells a full ring from an empty one; and the lock sections
    of reading and writing a pipe.  A pipe refines a bounded queue of bytes. *)

From S2P Require Import Prelude Errno.

Local Open Scope Z_scope.

(** ** The ring buffer *)

Definition PIPE_BUF_PAGE_SIZE : Z := 4096.

Definition PIPE_BUF_PAGES : Z := 16.

Definition RING_BUFFER_SIZE : Z := PIPE_BUF_PAGE_SIZE * PIPE_BUF_PAGES.

Inductive RingBufferStatus := Full | Empty | Normal.

#[export] Instance RingBufferStatus_eq_dec : EqDecision RingBufferStatus.
Proof. solve_decision. Defined.

(** The frames by their physical page numbers. *)
Record PipeRingBuffer := MkRing {
  frames : list Z;
  head : Z;
  tail : Z;
  status : RingBufferStatus;
}.

(** The bytes of physical memory, by frame and offset. *)
Definition bmem : Type := Z → Z → Z.

Definition store (m : bmem) (p o b : Z) : bmem :=
  λ p' o', if decide (p' = p ∧ o' = o) then b else m p' o'.

(** [PipeRingBuffer::new] with the sixteen frames it allocates. *)
Definition new (fs : list Z) : PipeRingBuffer := MkRing fs 0 0 Empty.

(** [get_byte_mut]: the frame and the offset of an index; a frame index out of
    range is a panic. *)
Definition get_byte_mut (r : PipeRingBuffer) (index : Z) : option (Z * Z) :=
  ppn ← frames r !! Z.to_nat (index / PIPE_BUF_PAGE_SIZE);
  Some (ppn, index mod PIPE_BUF_PAGE_SIZE).

Definition write_byte (m : bmem) (r : PipeRingBuffer) (byte : Z) : option (bmem * PipeRingBuffer) :=
  '(p, o) ← get_byte_mut r (tail r);
  t ← checked_add (tail r) 1;
  let t := t mod RING_BUFFER_SIZE in
  Some (store m p o byte, MkRing (frames r) (head r) t (if t =? head r then Full else Normal)).

Definition read_byte (m : bmem) (r : PipeRingBuffer) : option (Z * PipeRingBuffer) :=
  '(p, o) ← get_byte_mut r (head r);
  h ← checked_add (head r) 1;
  let h := h mod RING_BUFFER_SIZE in
  Some (m p o, MkRing (frames r) h (tail r) (if h =? tail r then Empty else Normal)).

Definition available_read (r : PipeRingBuffer) : Z :=
  if decide (status r = Empty) then 0
  else if tail r >? head r then tail r - head r
  else tail r + RING_BUFFER_SIZE - head r.

Definition available_write (r : PipeRingBuffer) : Z :=
  if decide (status r = Full) then 0 else RING_BUFFER_SIZE - available_read r.

(** ** Reading and writing *)

(** How the [for] loop of a write ends: the readers are gone, the buffer is used
    up or completely written, or the space is. *)
Inductive WriteEnd := Broken | Done | NoSpace.

(** The [for] loop of [write] and [write_nonblock]: at most [n] bytes of [buf]
    under the buffer lock; [closed k] is [all_read_ends_closed] before the [k]-th
    byte.  Result: the end, the rest of the buffer and the number written so far. *)
Fixpoint write_loop (n : nat) (m : bmem) (r : PipeRingBuffer) (buf : list Z) (already want : Z)
    (closed : Z → bool) : option (WriteEnd * bmem * PipeRingBuffer * list Z * Z) :=
  match n with
  | O => Some (NoSpace, m, r, buf, already)
  | S n =>
    match buf with
    | [] => Some (Done, m, r, [], already)
    | b :: rest =>
      if closed already then Some (Broken, m, r, rest, already)
      else
        '(m, r) ← write_byte m r b;
        if already + 1 =? want then Some (Done, m, r, rest, already + 1)
        else write_loop n m r rest (already + 1) want closed
    end
  end.

(** [write_nonblock]; the loop of the source is left in its first iteration. *)
Definition write_nonblock (m : bmem) (r : PipeRingBuffer) (writable : bool) (buf : list Z)
    (closed : Z → bool) : option (Errno + Z) * bmem * PipeRingBuffer :=
  if negb writable then (Some (inl EBADF), m, r)
  else
    let loop_write := available_write r in
    if loop_write =? 0 then (Some (inl (if closed 0 then EPIPE else EAGAIN)), m, r)
    else
      match write_loop (Z.to_nat loop_write) m r buf 0 (Z.of_nat (length buf)) closed with
      | None => (None, m, r)
      | Some (Broken, m, r, _, already) => (Some (if already =? 0 then inl EPIPE else inr already), m, r)
      | Some (Done, m, r, _, already) => (Some (inr already), m, r)
      | Some (NoSpace, m, r, _, already) => (Some (inr already), m, r)
      end.

(** One iteration of the loop of [write] under the buffer lock.  [WReturn] leaves
    the call; [WWait] is the full pipe, where the caller wakes readers, looks at its
    signals and blocks; [WAgain] takes the lock again. *)
Inductive WriteTurn := WReturn (n : Z) | WWait | WAgain.

Definition write_turn (m : bmem) (r : PipeRingBuffer) (buf : list Z) (already want : Z)
    (closed : Z → bool) : option (WriteTurn * bmem * PipeRingBuffer * list Z * Z) :=
  let loop_write := available_write r in
  if loop_write =? 0 then
    Some (if closed already then WReturn already else WWait, m, r, buf, already)
  else
    '(e, m, r, rest, already) ← write_loop (Z.to_nat loop_write) m r buf already want closed;
    Some (match e with NoSpace => WAgain | _ => WReturn already end, m, r, rest, already).

(** The [for] loop of [read_for_syscall]: at most [n] bytes into a buffer of [want]
    bytes, the first [already] of which are filled. *)
Fixpoint read_loop (n : nat) (m : bmem) (r : PipeRingBuffer) (already want : Z)
    : option (list Z * PipeRingBuffer) :=
  match n with
  | O => Some ([], r)
  | S n =>
    if already >=? want then Some ([], r)
    else
      '(b, r) ← read_byte m r;
      if already + 1 =? want then Some ([b], r)
      else
        '(bs, r) ← read_loop n m r (already + 1) want;
        Some (b :: bs, r)
  end.

(** One iteration of the loop of [read_for_syscall] under the buffer lock: the
    bytes that are returned, or the wait for data. *)
Definition read_turn (m : bmem) (r : PipeRingBuffer) (want : Z) (write_closed : bool)
    : option (option (list Z) * PipeRingBuffer) :=
  let loop_read := available_read r in
  if loop_read =? 0 then Some (if write_closed then Some [] else None, r)
  else
    '(bs, r) ← read_loop (Z.to_nat loop_read) m r 0 want;
    Some (Some bs, r).

(** [ready_to_read] and [ready_to_write] *)
Definition ready_to_read (r : PipeRingBuffer) (readable write_closed : bool) : bool :=
  readable && ((available_read r >? 0) || write_closed).

Definition ready_to_write (r : PipeRingBuffer) (writable read_closed : bool) : bool :=
  writable && ((available_write r >? 0) || read_closed).

(** ** The queue of bytes *)

(** The place of an index that is in the ring. *)
Definition place (r : PipeRingBuffer) (index : Z) : Z * Z :=
  (default 0 (frames r !! Z.to_nat (index / PIPE_BUF_PAGE_SIZE)), index mod PIPE_BUF_PAGE_SIZE).

Definition byte_at (m : bmem) (r : PipeRingBuffer) (index : Z) : Z :=
  let '(p, o) := place r (index mod RING_BUFFER_SIZE) in m p o.

(** The ring holds the bytes [q], oldest first. *)
Record ring_inv (m : bmem) (r : PipeRingBuffer) (q : list Z) : Prop := {
  ri_frames : NoDup (frames r) ∧ length (frames r) = 16%nat;
  ri_head : 0 ≤ head r < RING_BUFFER_SIZE;
  ri_tail : tail r = (head r + Z.of_nat (length q)) mod RING_BUFFER_SIZE;
  ri_status : Z.of_nat (length q) ≤ RING_BUFFER_SIZE ∧
    (status r = Empty ↔ length q = 0%nat) ∧ (status r = Full ↔ Z.of_nat (length q) = RING_BUFFER_SIZE);
  ri_bytes : q = (λ k, byte_at m r (head r + k)) <$> seqZ 0 (Z.of_nat (length q));
}.

Lemma ring_size : RING_BUFFER_SIZE = 65536.
Proof. done. Qed.

Lemma wrap_bound i : 0 ≤ i mod RING_BUFFER_SIZE < RING_BUFFER_SIZE.
Proof. by apply Z.mod_pos_bound. Qed.

Lemma get_byte_place r i :
  length (frames r) = 16%nat → 0 ≤ i < RING_BUFFER_SIZE → get_byte_mut r i = Some (place r i).
Proof.
  intros Hl Hi. unfold get_byte_mut, place. rewrite ring_size in Hi.
  destruct (lookup_lt_is_Some_2 (frames r) (Z.to_nat (i / PIPE_BUF_PAGE_SIZE))) as [p Hp].
  { rewrite Hl. unfold PIPE_BUF_PAGE_SIZE. Z.to_euclidean_division_equations. lia. }
  by rewrite Hp.
Qed.

Lemma place_inj r i j :
  NoDup (frames r) → length (frames r) = 16%nat → 0 ≤ i < RING_BUFFER_SIZE → 0 ≤ j < RING_BUFFER_SIZE →
  place r i = place r j → i = j.
Proof.
  intros Hnd Hl Hi Hj. rewrite ring_size in *. unfold place. intros [= Hp Ho].
  unfold PIPE_BUF_PAGE_SIZE in *.
  destruct (lookup_lt_is_Some_2 (frames r) (Z.to_nat (i / 4096))) as [p Hp1].
  { rewrite Hl. Z.to_euclidean_division_equations. lia. }
  destruct (lookup_lt_is_Some_2 (frames r) (Z.to_nat (j / 4096))) as [p' Hp2].
  { rewrite Hl. Z.to_euclidean_division_equations. lia. }
  rewrite Hp1, Hp2 in Hp. simpl in Hp. subst p'.
  pose proof (NoDup_lookup _ _ _ _ Hnd Hp1 Hp2). Z.to_euclidean_division_equations. lia.
Qed.

Section ring.
Context (m : bmem) (r : PipeRingBuffer) (q : list Z) (Hr : ring_inv m r q).

Lemma ring_available_read : available_read r = Z.of_nat (length q).
Proof using Hr.
  destruct Hr as [_ Hh Ht (Hle & He & _) _]. unfold available_read. rewrite ring_size in *.
  destruct (decide (status r = Empty)) as [Hs|Hs]; [rewrite (proj1 He Hs); done|].
  assert (length q ≠ 0%nat) by tauto. rewrite Z.gtb_ltb.
  destruct (Z.ltb_spec (head r) (tail r)); Z.to_euclidean_division_equations; lia.
Qed.

Lemma ring_available_write : available_write r = RING_BUFFER_SIZE - Z.of_nat (length q).
Proof using Hr.
  unfold available_write. rewrite ring_available_read. destruct Hr as [_ _ _ (_ & _ & Hf) _].
  destruct (decide (status r = Full)) as [Hs|Hs]; [|done]. apply Hf in Hs. lia.
Qed.

Lemma ring_tail_bound : 0 ≤ tail r < RING_BUFFER_SIZE.
Proof using Hr. rewrite (ri_tail _ _ _ Hr). apply wrap_bound. Qed.

(** Writing a byte into a ring that is not full appends it. *)
Lemma write_byte_ok b :
  Z.of_nat (length q) < RING_BUFFER_SIZE →
  ∃ m' r', write_byte m r b = Some (m', r') ∧ ring_inv m' r' (q ++ [b]) ∧ frames r' = frames r ∧
    ∀ p o, p ∉ frames r → m' p o = m p o.
Proof using Hr.
  intros Hlt. pose proof ring_tail_bound as Htb. destruct Hr as [[Hnd Hl] Hh Ht (Hle & He & Hf) Hb].
  unfold write_byte. rewrite get_byte_place by done. cbn [mbind option_bind].
  destruct (place r (tail r)) as [p o] eqn:Hpl. rewrite ring_size in *.
  unfold checked_add. rewrite (proj2 (Z.leb_le _ _)) by (unfold USIZE_MAX; lia). cbn [mbind option_bind].
  eexists _, _. split; [done|]. set (m' := store m p o b).
  assert (∀ k, 0 ≤ k < Z.of_nat (length q) → byte_at m' r (head r + k) = byte_at m r (head r + k)) as Hold.
  { intros k Hk. unfold byte_at, m', store. rewrite ring_size.
    destruct (place r ((head r + k) mod 65536)) as [p' o'] eqn:Hpl'.
    rewrite decide_False; [done|]. intros [-> ->]. rewrite <-Hpl' in Hpl.
    assert (tail r = (head r + k) mod 65536) as Heq.
    { apply (place_inj r); [done|done|rewrite ring_size; lia|rewrite ring_size; by apply Z.mod_pos_bound|done]. }
    rewrite Ht in Heq. clear -Heq Hk Hlt. Z.to_euclidean_division_equations. lia. }
  assert (byte_at m' r (head r + Z.of_nat (length q)) = b) as Hnew.
  { unfold byte_at. rewrite ring_size, <-Ht, Hpl. unfold m', store. by rewrite decide_True. }
  split; [|split; [done|]].
  - split; simpl.
    + done.
    + by rewrite ring_size.
    + rewrite length_app, ring_size, Ht. simpl. Z.to_euclidean_division_equations. lia.
    + rewrite length_app, ring_size. simpl.
      destruct (Z.eqb_spec ((tail r + 1) mod 65536) (head r)) as [Heq|Hne]; split_and!; try lia;
        split; intros; try done; first [Z.to_euclidean_division_equations; lia|exfalso; Z.to_euclidean_division_equations; lia].
    + rewrite length_app. simpl. rewrite Nat2Z.inj_add, seqZ_app, fmap_app by lia. f_equal.
      * rewrite Hb at 1. apply list_fmap_ext. intros i k [-> Hk]%lookup_seqZ. by rewrite <-Hold by lia.
      * simpl. rewrite <-Hnew at 1. done.
  - intros p' o' Hp'. unfold m', store. rewrite decide_False; [done|]. intros [-> _]. apply Hp'.
    injection Hpl as <- _. destruct (lookup_lt_is_Some_2 (frames r) (Z.to_nat (tail r / PIPE_BUF_PAGE_SIZE))) as [x Hx].
    { rewrite Hl. unfold PIPE_BUF_PAGE_SIZE. Z.to_euclidean_division_equations. lia. }
    rewrite Hx. by eapply list_elem_of_lookup_2.
Qed.
End ring.

(** Reading takes the oldest byte. *)
Lemma read_byte_ok m r b q :
  ring_inv m r (b :: q) →
  ∃ r', read_byte m r = Some (b, r') ∧ ring_inv m r' q ∧ frames r' = frames r.
Proof.
  intros Hr. pose proof (ring_tail_bound _ _ _ Hr) as Htb. destruct Hr as [[Hnd Hl] Hh Ht (Hle & He & Hf) Hb].
  unfold read_byte. rewrite get_byte_place by done. cbn [mbind option_bind].
  destruct (place r (head r)) as [p o] eqn:Hpl. rewrite ring_size in *. cbn [length] in *.
  unfold checked_add. rewrite (proj2 (Z.leb_le _ _)) by (unfold USIZE_MAX; lia). cbn [mbind option_bind].
  rewrite seqZ_cons, fmap_cons in Hb by lia. injection Hb as Hb Hq.
  assert (m p o = b) as Hbyte.
  { rewrite Hb. unfold byte_at. rewrite ring_size, Z.add_0_r, Z.mod_small, Hpl by lia. done. }
  rewrite Hbyte. eexists. split; [done|]. split; [|done]. split; simpl.
  - done.
  - apply wrap_bound.
  - rewrite Ht, ring_size. Z.to_euclidean_division_equations. lia.
  - rewrite ring_size. destruct (Z.eqb_spec ((head r + 1) mod 65536) (tail r)) as [Heq|Hne]; split_and!; try lia;
      split; intros; try done; first [Z.to_euclidean_division_equations; lia|exfalso; Z.to_euclidean_division_equations; lia].
  - rewrite Hq at 1. replace (Z.pred (Z.of_nat (S (length q)))) with (Z.of_nat (length q)) by lia.
    replace (Z.succ 0) with (1 + 0) by lia. rewrite <-fmap_add_seqZ, <-list_fmap_compose.
    apply list_fmap_ext. intros i k _. simpl. unfold byte_at.
    rewrite ring_size, Z.add_mod_idemp_l by lia.
    replace (head r + (1 + k)) with (head r + 1 + k) by lia. done.
Qed.

(** ** The loops *)

Lemma write_loop_ok n m r q buf already want closed :
  ring_inv m r q → Z.of_nat n ≤ RING_BUFFER_SIZE - Z.of_nat (length q) → already + Z.of_nat (length buf) = want →
  wp (write_loop n m r buf already want closed) (λ '(e, m', r', rest, already'), ∃ w,
    ring_inv m' r' (q ++ w) ∧ already' = already + Z.of_nat (length w) ∧ (length w ≤ n)%nat ∧
    (∀ k, already ≤ k < already' → closed k = false) ∧
    match e with
    | Done => buf = w ∧ rest = []
    | NoSpace => buf = w ++ rest ∧ length w = n
    | Broken => closed already' = true ∧ ∃ b, buf = w ++ b :: rest
    end).
Proof.
  revert m r q buf already. induction n as [|n IH]; intros m r q buf already Hr Hn Hw; cbn [write_loop].
  { exists []. rewrite app_nil_r. split_and!; [done|simpl; lia|done|lia|done|done]. }
  destruct buf as [|b buf].
  { exists []. rewrite app_nil_r. split_and!; [done|simpl; lia|simpl; lia|lia|done|done]. }
  destruct (closed already) eqn:Hc.
  { exists []. rewrite app_nil_r. split_and!; [done|simpl; lia|simpl; lia|lia|done|by exists b]. }
  destruct (write_byte_ok m r q Hr b) as (m1 & r1 & Heq & Hr1 & _); [lia|].
  rewrite Heq. cbn [mbind option_bind length] in *. destruct (Z.eqb_spec (already + 1) want) as [He|Hne].
  { assert (buf = []) as -> by (destruct buf; [done|simpl in Hw; lia]).
    exists [b]. split_and!; [done|done|simpl; lia| |done|done]. intros k Hk. by replace k with already by lia. }
  eapply wp_mono; [apply (IH m1 r1 (q ++ [b])); [done|rewrite length_app; simpl; lia|lia]|].
  intros [[[[e m'] r'] rest] already'] (w & Hr' & -> & Hl & Hcl & Hend). exists (b :: w).
  rewrite <-app_assoc in Hr'. split_and!; [done|simpl; lia|simpl; lia| |].
  - intros k Hk. destruct (decide (k = already)) as [->|]; [done|]. apply Hcl. lia.
  - destruct e; simpl; naive_solver.
Qed.

Lemma read_loop_ok n m r q already want :
  ring_inv m r q → (n ≤ length q)%nat → 0 ≤ already →
  wp (read_loop n m r already want) (λ '(bs, r'), let k := Nat.min n (Z.to_nat (want - already)) in
    bs = take k q ∧ ring_inv m r' (drop k q) ∧ frames r' = frames r).
Proof.
  revert r q already. induction n as [|n IH]; intros r q already Hr Hn Ha; cbn [read_loop]; [done|].
  rewrite Z.geb_leb. destruct (Z.leb_spec want already) as [Hle|Hgt].
  { replace (Z.to_nat (want - already)) with 0%nat by lia. by rewrite Nat.min_0_r. }
  destruct q as [|b q]; [simpl in Hn; lia|]. destruct (read_byte_ok m r b q Hr) as (r1 & Heq & Hr1 & Hf).
  rewrite Heq. cbn [mbind option_bind]. destruct (Z.eqb_spec (already + 1) want) as [He|Hne].
  { apply wp_ret. replace (Z.to_nat (want - already)) with 1%nat by lia.
    replace (Nat.min (S n) 1) with 1%nat by lia. by rewrite <-Hf. }
  apply wp_bind. eapply wp_mono; [apply (IH r1 q); [done|simpl in Hn; lia|lia]|].
  intros [bs r'] (-> & Hr' & Hf'). apply wp_ret.
  replace (Nat.min (S n) (Z.to_nat (want - already)))
    with (S (Nat.min n (Z.to_nat (want - (already + 1))))) by lia.
  simpl. split_and!; [done..|congruence].
Qed.

(** ** Sections of the calls *)

(** The space that is left. *)
Definition space (q : list Z) : nat := Z.to_nat (RING_BUFFER_SIZE - Z.of_nat (length q)).

Lemma read_turn_ok m r q want wc :
  ring_inv m r q → 0 ≤ want →
  wp (read_turn m r want wc) (λ '(res, r'),
    match q with
    | [] => res = (if wc then Some [] else None) ∧ r' = r
    | _ => res = Some (take (Z.to_nat want) q) ∧ ring_inv m r' (drop (Z.to_nat want) q)
    end).
Proof.
  intros Hr Hw. unfold read_turn. rewrite (ring_available_read m r q) by done.
  destruct (Z.eqb_spec (Z.of_nat (length q)) 0) as [Hz|Hz].
  { destruct q; [done|simpl in Hz; lia]. }
  apply wp_bind. rewrite Nat2Z.id. eapply wp_mono; [by apply (read_loop_ok _ m r q 0 want)|].
  intros [bs r'] (-> & Hr' & _). apply wp_ret. rewrite Z.sub_0_r in *.
  assert (take (Nat.min (length q) (Z.to_nat want)) q = take (Z.to_nat want) q ∧
          drop (Nat.min (length q) (Z.to_nat want)) q = drop (Z.to_nat want) q) as [Ht Hd].
  { destruct (decide (length q ≤ Z.to_nat want)%nat).
    - rewrite Nat.min_l by done. by rewrite !take_ge, !drop_ge by lia.
    - by rewrite Nat.min_r by lia. }
  rewrite Ht. rewrite Hd in Hr'. by destruct q.
Qed.

Lemma write_turn_ok m r q buf already want closed :
  ring_inv m r q → already + Z.of_nat (length buf) = want →
  wp (write_turn m r buf already want closed) (λ '(t, m', r', rest, already'), ∃ w,
    ring_inv m' r' (q ++ w) ∧ already' = already + Z.of_nat (length w) ∧ w `prefix_of` buf ∧
    match t with
    | WWait => space q = 0%nat ∧ w = [] ∧ rest = buf
    | WAgain => buf = w ++ rest ∧ length w = space q
    | WReturn n => n = already' ∧ (w = buf ∨ closed already' = true)
    end).
Proof.
  intros Hr Hw. unfold write_turn, space. rewrite (ring_available_write m r q) by done.
  pose proof (proj1 (ri_status _ _ _ Hr)) as Hle.
  destruct (Z.eqb_spec (RING_BUFFER_SIZE - Z.of_nat (length q)) 0) as [Hz|Hz].
  { apply wp_ret. exists []. rewrite app_nil_r.
    split_and!; [done|simpl; lia|apply prefix_nil|]. destruct (closed already) eqn:Hc; [|split_and!; [lia|done..]].
    split; [done|]. by right. }
  apply wp_bind. eapply wp_mono; [apply (write_loop_ok _ m r q); [done|lia|done]|].
  intros [[[[e m'] r'] rest] already'] (w & Hr' & -> & Hl & _ & He). apply wp_ret. exists w.
  destruct e.
  - destruct He as [Hc [b ->]]. split_and!; [done|done|by eexists|done|by right].
  - destruct He as [-> ->]. split_and!; [done..|by left].
  - destruct He as [-> Hlen]. split_and!; [done|done|by eexists|done|done].
Qed.

Lemma write_nonblock_ok m r q buf closed :
  ring_inv m r q →
  ∃ res m' r' w, write_nonblock m r true buf closed = (Some res, m', r') ∧
    ring_inv m' r' (q ++ w) ∧ w `prefix_of` buf ∧
    match res with
    | inl e => w = [] ∧ (e = EPIPE ∧ closed 0 = true ∨ e = EAGAIN ∧ closed 0 = false ∧ space q = 0%nat)
    | inr n => n = Z.of_nat (length w) ∧ space q ≠ 0%nat ∧
        (w = take (space q) buf ∨ closed n = true ∧ w ≠ [])
    end.
Proof.
  intros Hr. unfold write_nonblock, space. rewrite (ring_available_write m r q) by done. simpl negb. cbv iota zeta.
  pose proof (proj1 (ri_status _ _ _ Hr)) as Hle.
  destruct (Z.eqb_spec (RING_BUFFER_SIZE - Z.of_nat (length q)) 0) as [Hz|Hz].
  { eexists _, m, r, []. rewrite app_nil_r. split; [done|]. split_and!; [done|apply prefix_nil|done|].
    destruct (closed 0); [by left|]. right. split_and!; [done..|]. lia. }
  destruct (wp_elim _ _ (write_loop_ok (Z.to_nat (RING_BUFFER_SIZE - Z.of_nat (length q))) m r q buf 0
    (Z.of_nat (length buf)) closed Hr ltac:(lia) ltac:(lia)))
    as ([[[[e m'] r'] rest] already'] & -> & w & Hr' & Ha & Hl & _ & He).
  rewrite Z.add_0_l in Ha. subst already'. destruct e.
  - destruct He as [Hc [b ->]]. destruct (Z.eqb_spec (Z.of_nat (length w)) 0) as [Hw|Hw].
    + assert (w = []) as -> by (destruct w; [done|simpl in Hw; lia]).
      eexists _, m', r', []. split; [done|]. split_and!; [done|apply prefix_nil|done|by left].
    + eexists _, m', r', w. split; [done|]. split_and!; [done|by eexists|done|lia|]. right. split; [done|].
      by intros ->.
  - destruct He as [-> ->]. eexists _, m', r', w. split; [done|]. split_and!; [done..|lia|]. left.
    by rewrite take_ge.
  - destruct He as [-> Hlen]. eexists _, m', r', w. split; [done|]. split_and!; [done|by eexists|done|lia|].
    left. by rewrite <-Hlen, take_app_length.
Qed.

(** ** Histories *)

(** A pipe with the bytes that its writers have written and those that its readers
    have read. *)
Record history := MkHistory { hm : bmem; hr : PipeRingBuffer; wrote : list Z; got : list Z }.

(** Lock sections of any readers and writers, in any order. *)
Inductive pstep : history → history → Prop :=
  | ps_write m r w g buf already want closed t m' r' rest already' :
      already + Z.of_nat (length buf) = want →
      write_turn m r buf already want closed = Some (t, m', r', rest, already') →
      pstep (MkHistory m r w g) (MkHistory m' r' (w ++ take (Z.to_nat (already' - already)) buf) g)
  | ps_write_nonblock m r w g buf closed res m' r' :
      write_nonblock m r true buf closed = (Some res, m', r') →
      pstep (MkHistory m r w g)
        (MkHistory m' r' (w ++ take (Z.to_nat (if res is inr n then n else 0)) buf) g)
  | ps_read m r w g want wc bs r' :
      0 ≤ want → read_turn m r want wc = Some (Some bs, r') →
      pstep (MkHistory m r w g) (MkHistory m r' w (g ++ bs)).

Definition hist_inv (h : history) : Prop := ∃ q, ring_inv (hm h) (hr h) q ∧ wrote h = got h ++ q.

Lemma prefix_take {A} (w buf : list A) n :
  w `prefix_of` buf → n = length w → take n buf = w.
Proof. intros [rest ->] ->. apply take_app_length. Qed.

Lemma hist_inv_step h h' : hist_inv h → pstep h h' → hist_inv h'.
Proof.
  intros (q & Hr & Hw) Hs. destruct Hs as [m r w g buf already want closed t m' r' rest already' Hl Heq
    |m r w g buf closed res m' r' Heq|m r w g want wc bs r' Hwant Heq]; simpl in *; subst w.
  - pose proof (write_turn_ok m r q buf already want closed Hr Hl) as Ht. rewrite Heq in Ht.
    destruct Ht as (w & Hr' & -> & Hp & _). exists (q ++ w). split; [done|].
    rewrite (prefix_take w buf) by (done || lia). by rewrite <-app_assoc.
  - destruct (write_nonblock_ok m r q buf closed Hr) as (res' & m1 & r1 & w & Heq' & Hr' & Hp & Hres).
    rewrite Heq in Heq'. injection Heq' as <- <- <-. exists (q ++ w). split; [done|].
    rewrite (prefix_take w buf), <-app_assoc; [done|done|].
    destruct res as [e|n]; [by destruct Hres as [-> _]|]. destruct Hres as [-> _]. lia.
  - pose proof (read_turn_ok m r q want wc Hr Hwant) as Ht. rewrite Heq in Ht. destruct q as [|b q].
    + destruct Ht as [Hres ->]. destruct wc; [|done]. injection Hres as ->. exists []. simpl. by rewrite !app_nil_r.
    + destruct Ht as [[= ->] Hr']. eexists. split; [exact Hr'|]. simpl. by rewrite <-app_assoc, take_drop.
Qed.

Lemma hist_inv_steps h h' : rtc pstep h h' → hist_inv h → hist_inv h'.
Proof. induction 1; eauto using hist_inv_step. Qed.

Lemma new_inv m fs : NoDup fs → length fs = 16%nat → ring_inv m (new fs) [].
Proof. intros Hnd Hl. by split. Qed.

(** ** Properties *)

Module PipeProps.

(** C24 A pipe is a first-in first-out stream: in any history of reads and writes, by
    any number of readers and writers, the bytes read, in order, followed by the at
    most 65536 bytes still in the ring are exactly the bytes written, in order. *)
Theorem pipe_is_fifo m fs h :
  NoDup fs → length fs = 16%nat → rtc pstep (MkHistory m (new fs) [] []) h →
  ∃ q, ring_inv (hm h) (hr h) q ∧ Z.of_nat (length q) ≤ RING_BUFFER_SIZE ∧ wrote h = got h ++ q.
Proof.
  intros Hnd Hl Hs. destruct (hist_inv_steps _ _ Hs) as (q & Hr & Hw).
  { exists []. split; [by apply new_inv|done]. }
  exists q. split_and!; [done| |done]. apply (ri_status _ _ _ Hr).
Qed.

(** A read section takes exactly what is there, up to the size of the buffer: it
    never returns nothing while there is data, and on an empty pipe it reports the
    end of file exactly when the writers are gone, and waits otherwise. *)
Theorem read_takes_available m r q want wc :
  ring_inv m r q → 0 ≤ want →
  ∃ res r', read_turn m r want wc = Some (res, r') ∧
    match q with
    | [] => res = (if wc then Some [] else None) ∧ r' = r
    | _ => res = Some (take (Z.to_nat want) q) ∧ ring_inv m r' (drop (Z.to_nat want) q)
    end.
Proof.
  intros Hr Hw. destruct (wp_elim _ _ (read_turn_ok m r q want wc Hr Hw)) as ([res r'] & Heq & Hres).
  by exists res, r'.
Qed.

(** A non-blocking write never panics and writes a prefix of its buffer.  While
    there are readers, it writes as much as fits, and fails with [EAGAIN] exactly on
    a full pipe; a failed write writes nothing. *)
Theorem write_nonblock_fills m r q buf :
  ring_inv m r q →
  ∃ res m' r' w, write_nonblock m r true buf (λ _, false) = (Some res, m', r') ∧
    ring_inv m' r' (q ++ w) ∧ w = take (space q) buf ∧
    res = if decide (space q = 0%nat) then inl EAGAIN else inr (Z.of_nat (length w)).
Proof.
  intros Hr. destruct (write_nonblock_ok m r q buf (λ _, false) Hr) as (res & m' & r' & w & Heq & Hr' & _ & Hres).
  exists res, m', r', w. split_and!; [done..| |]; destruct res as [e|n].
  - destruct Hres as [-> [[_ ?]|(_ & _ & ->)]]; done.
  - by destruct Hres as (_ & _ & [->|[? _]]).
  - destruct Hres as [-> [[_ ?]|(-> & _ & Hs)]]; [done|]. by rewrite decide_True.
  - destruct Hres as (-> & Hs & _). by rewrite decide_False.
Qed.

(** Sixteen frames, three bytes written, two read. *)
Definition demo_ring : PipeRingBuffer := new (seqZ 100 16).

Definition demo_mem : bmem := λ _ _, 0.

Lemma demo_ring_inv : ring_inv demo_mem demo_ring [].
Proof. by apply new_inv; [apply NoDup_seqZ|]. Qed.

Lemma pipe_is_fifo_witness :
  ∃ h, rtc pstep (MkHistory demo_mem demo_ring [] []) h ∧ got h = [7; 8] ∧ wrote h = [7; 8; 9].
Proof.
  destruct (write_nonblock_ok demo_mem demo_ring [] [7; 8; 9] (λ _, false) demo_ring_inv)
    as (res & m1 & r1 & w & Heq & Hr1 & _).
  assert (res = inr 3) as -> by (vm_compute in Heq; congruence).
  destruct (read_turn m1 r1 2 false) as [[[bs|] r2]|] eqn:Hrd.
  - pose proof (ps_write_nonblock demo_mem demo_ring [] [] [7; 8; 9] _ _ _ _ Heq) as H1.
    pose proof (ps_read m1 r1 [7; 8; 9] [] 2 false bs r2 ltac:(lia) Hrd) as H2.
    assert (rtc pstep (MkHistory demo_mem demo_ring [] []) (MkHistory m1 r2 [7; 8; 9] bs)) as Hs
      by (eapply rtc_l; [exact H1|apply rtc_once; exact H2]).
    exists (MkHistory m1 r2 [7; 8; 9] bs). split; [exact Hs|].
    destruct (pipe_is_fifo demo_mem (seqZ 100 16) _ ltac:(apply NoDup_seqZ) eq_refl Hs) as (q & _ & _ & Hq).
    simpl in Hq |- *. split; [|reflexivity]. vm_compute in Heq. injection Heq as <- <-. vm_compute in Hrd. congruence.
  - exfalso. vm_compute in Heq. injection Heq as <- <-. vm_compute in Hrd. discriminate.
  - exfalso. vm_compute in Heq. injection Heq as <- <-. vm_compute in Hrd. discriminate.
Defined.

Lemma read_takes_available_witness : read_turn demo_mem demo_ring 5 true = Some (Some [], demo_ring).
Proof.
  destruct (read_takes_available demo_mem demo_ring [] 5 true demo_ring_inv) as (res & r' & Heq & -> & ->); [lia|].
  exact Heq.
Defined.

Lemma write_nonblock_fills_witness :
  ∃ m' r', write_nonblock demo_mem demo_ring true [7; 8; 9] (λ _, false) = (Some (inr 3), m', r') ∧
    ring_inv m' r' [7; 8; 9].
Proof.
  destruct (write_nonblock_fills demo_mem demo_ring [] [7; 8; 9] demo_ring_inv) as (res & m' & r' & w & Heq & Hr & Hw & Hres).
  assert (w = [7; 8; 9]) as -> by (rewrite Hw; apply take_ge; unfold space; rewrite ring_size; cbn [length]; lia).
  rewrite decide_False in Hres by (unfold space; rewrite ring_size; cbn [length]; lia). subst res.
  exists m', r'. split; [exact Heq|exact Hr].
Defined.
End PipeProps.
