(* ===== verification/RwLock.v ===== *)
(** * The writer-preferring spin lock (os/src/sync/rw.rs)

    Every atomic access of [RwLock::read], [RwLock::write], [downgrade] and the
    drops of the guards is one step of a thread; all interleavings are explored.
    The spinning loops are cycles of the step relation. *)

From S2P Require Import Prelude.

Local Open Scope Z_scope.

(** ** Threads and the lock *)

(** Where a thread is.  [read]: about to load [state] ([RState]), to load
    [asked_write] having seen [s] ([RAsked s]), to compare and exchange ([RCas s]),
    to confirm ([RConfirm]), to withdraw ([RWithdraw]); [write]: about to register
    ([WAsk]), to load [state] ([WState]), to compare and exchange ([WCas]), to
    deregister ([WLeave]); holding a guard ([Reading], [Writing]). *)
Inductive pc :=
  | Idle | RState | RAsked (s : Z) | RCas (s : Z) | RConfirm | RWithdraw | Reading
  | WAsk | WState | WCas | WLeave | Writing.

(** [state], [asked_write] and the threads. *)
Record RwLock := MkLock { state : Z; asked_write : Z; threads : list pc }.

Definition new (n : nat) : RwLock := MkLock 0 0 (replicate n Idle).

Definition move (l : RwLock) (i : nat) (c : pc) : RwLock :=
  MkLock (state l) (asked_write l) (<[i := c]> (threads l)).

Definition add_state (d : Z) (l : RwLock) : RwLock := MkLock (state l + d) (asked_write l) (threads l).

Definition set_state (x : Z) (l : RwLock) : RwLock := MkLock x (asked_write l) (threads l).

Definition add_asked (d : Z) (l : RwLock) : RwLock := MkLock (state l) (asked_write l + d) (threads l).

(** What a thread at [c] does next; a thread that holds a guard may release it, and
    a writer may downgrade.  [None] is the failed [debug_assert] of [downgrade]. *)
Inductive action := Proceed | Release | Downgrade | StartRead | StartWrite.

Definition step_thread (l : RwLock) (i : nat) (c : pc) (a : action) : option RwLock :=
  match c, a with
  | Idle, StartRead => Some (move l i RState)
  | Idle, StartWrite => Some (move l i WAsk)
  | RState, Proceed => Some (move l i (if state l >=? 0 then RAsked (state l) else RState))
  | RAsked s, Proceed => Some (move l i (if asked_write l =? 0 then RCas s else RState))
  | RCas s, Proceed =>
    Some (if state l =? s then move (set_state (s + 1) l) i RConfirm else move l i RState)
  | RConfirm, Proceed => Some (move l i (if asked_write l =? 0 then Reading else RWithdraw))
  | RWithdraw, Proceed => Some (move (add_state (-1) l) i RState)
  | Reading, Release => Some (move (add_state (-1) l) i Idle)
  | WAsk, Proceed => Some (move (add_asked 1 l) i WState)
  | WState, Proceed => Some (move l i (if state l =? 0 then WCas else WState))
  | WCas, Proceed =>
    Some (if state l =? 0 then move (set_state (-1) l) i WLeave else move l i WState)
  | WLeave, Proceed => Some (move (add_asked (-1) l) i Writing)
  | Writing, Release => Some (move (set_state 0 l) i Idle)
  | Writing, Downgrade => if state l =? -1 then Some (move (set_state 1 l) i Reading) else None
  | _, _ => Some l
  end.

Definition step (l l' : RwLock) : Prop :=
  ∃ i c a, threads l !! i = Some c ∧ step_thread l i c a = Some l'.

(** ** Counting threads *)

Definition count (P : pc → bool) (ts : list pc) : Z := Z.of_nat (length (filter (λ c, P c = true) ts)).

Definition b2z (b : bool) : Z := if b then 1 else 0.

Lemma count_cons P c ts : count P (c :: ts) = b2z (P c) + count P ts.
Proof. unfold count, b2z. rewrite filter_cons. destruct (P c) eqn:HP; case_decide; try done; simpl; lia. Qed.

Lemma count_nonneg P ts : 0 ≤ count P ts.
Proof. unfold count. lia. Qed.

Lemma count_insert P ts i c c' :
  ts !! i = Some c → count P (<[i := c']> ts) = count P ts - b2z (P c) + b2z (P c').
Proof.
  revert i. induction ts as [|d ts IH]; intros [|i] Hi; [done..| |].
  - injection Hi as ->. cbn [insert list_insert]. rewrite !count_cons. lia.
  - cbn [insert list_insert]. rewrite !count_cons, IH by done. lia.
Qed.

Lemma count_in P ts i c : ts !! i = Some c → P c = true → 1 ≤ count P ts.
Proof.
  revert i. induction ts as [|d ts IH]; intros [|i] Hi HP; [done..| |]; rewrite count_cons.
  - injection Hi as ->. rewrite HP. pose proof (count_nonneg P ts). simpl. lia.
  - specialize (IH i Hi HP). unfold b2z. destruct (P d); lia.
Qed.

Lemma count_two P ts i j c d :
  P Idle = false → i ≠ j → ts !! i = Some c → ts !! j = Some d → P c = true → P d = true → 2 ≤ count P ts.
Proof.
  intros HI Hij Hi Hj Hc Hd. pose proof (count_insert P ts i c Idle Hi) as Hins.
  assert (<[i:=Idle]> ts !! j = Some d) as Hj' by (by rewrite list_lookup_insert_ne).
  pose proof (count_in P _ _ _ Hj' Hd). rewrite HI, Hc in Hins. simpl in Hins. lia.
Qed.

Lemma count_replicate P n : P Idle = false → count P (replicate n Idle) = 0.
Proof. intros HI. induction n as [|n IH]; [done|]. simpl replicate. by rewrite count_cons, HI, IH. Qed.

(** ** The invariant *)

(** Threads counted in [state] as readers: those that hold the guard and those that
    are about to confirm or to withdraw. *)
Definition is_reader (c : pc) : bool :=
  match c with RConfirm | RWithdraw | Reading => true | _ => false end.

Definition is_writer (c : pc) : bool := match c with WLeave | Writing => true | _ => false end.

(** Threads counted in [asked_write]. *)
Definition is_asking (c : pc) : bool := match c with WState | WCas | WLeave => true | _ => false end.

(** A reader compares and exchanges only from a non-negative state. *)
Definition seen_ok (c : pc) : Prop := match c with RAsked s | RCas s => 0 ≤ s | _ => True end.

Record lock_inv (l : RwLock) : Prop := {
  li_asked : asked_write l = count is_asking (threads l);
  li_state :
    (count is_writer (threads l) = 0 ∧ state l = count is_reader (threads l)) ∨
    (count is_writer (threads l) = 1 ∧ count is_reader (threads l) = 0 ∧ state l = -1);
  li_seen : Forall seen_ok (threads l);
}.

Lemma lock_inv_new n : lock_inv (new n).
Proof.
  split; simpl.
  - by rewrite count_replicate.
  - left. by rewrite !count_replicate.
  - by apply Forall_replicate.
Qed.

(** The guards are exclusive in the count. *)
Lemma reader_no_writer l i c :
  lock_inv l → threads l !! i = Some c → is_reader c = true →
  count is_writer (threads l) = 0 ∧ state l = count is_reader (threads l) ∧ 1 ≤ state l.
Proof.
  intros [_ [[Hw Hs]|(_ & Hr & _)] _] Hi Hc; pose proof (count_in is_reader _ _ _ Hi Hc); [|lia].
  split_and!; [done..|lia].
Qed.

Lemma writer_no_reader l i c :
  lock_inv l → threads l !! i = Some c → is_writer c = true →
  count is_writer (threads l) = 1 ∧ count is_reader (threads l) = 0 ∧ state l = -1.
Proof.
  intros [_ [[Hw _]|?] _] Hi Hc; pose proof (count_in is_writer _ _ _ Hi Hc); [lia|done].
Qed.

(** A move of thread [i] from [c] to [d], with the counters adjusted. *)
Lemma lock_inv_move l i c d s' a' :
  lock_inv l → threads l !! i = Some c → seen_ok d →
  a' = asked_write l - b2z (is_asking c) + b2z (is_asking d) →
  (count is_writer (threads l) - b2z (is_writer c) + b2z (is_writer d) = 0 ∧
   s' = count is_reader (threads l) - b2z (is_reader c) + b2z (is_reader d) ∨
   count is_writer (threads l) - b2z (is_writer c) + b2z (is_writer d) = 1 ∧
   count is_reader (threads l) - b2z (is_reader c) + b2z (is_reader d) = 0 ∧ s' = -1) →
  lock_inv (MkLock s' a' (<[i := d]> (threads l))).
Proof.
  intros [Ha Hs Hok] Hi Hd -> Hst. split; cbn [asked_write state threads].
  - by rewrite (count_insert _ _ _ _ _ Hi), Ha.
  - by rewrite !(count_insert _ _ _ _ _ Hi).
  - by apply Forall_insert.
Qed.

Lemma lock_inv_step l i c a :
  lock_inv l → threads l !! i = Some c → ∃ l', step_thread l i c a = Some l' ∧ lock_inv l'.
Proof.
  intros Hl Hi. pose proof (li_state _ Hl) as Hs. pose proof (li_asked _ Hl) as Ha.
  assert (seen_ok c) as Hok by (eapply Forall_lookup_1; [apply (li_seen _ Hl)|exact Hi]).
  pose proof (count_nonneg is_reader (threads l)). pose proof (count_nonneg is_writer (threads l)).
  destruct c, a; simpl in Hok; simpl step_thread; try (by eexists);
    repeat match goal with
    | |- context [if ?b then _ else _] => destruct b eqn:?
    end;
    try (eexists; split; [reflexivity|]; eapply (lock_inv_move l i _ _ _ _ Hl Hi); simpl;
      [lia || done|lia|first [lia|pose proof (reader_no_writer _ _ _ Hl Hi eq_refl); lia
        |pose proof (writer_no_reader _ _ _ Hl Hi eq_refl); lia]]).
  pose proof (writer_no_reader _ _ _ Hl Hi eq_refl). lia.
Qed.

Lemma lock_inv_steps l l' : rtc step l l' → lock_inv l → lock_inv l'.
Proof.
  induction 1 as [|l l1 l2 (i & c & a & Hi & Hs) _ IH]; intros Hl; [done|]. apply IH.
  destruct (lock_inv_step l i c a Hl Hi) as (l1' & Heq & Hl1). congruence.
Qed.

(** A schedule: which thread does what. *)
Fixpoint run (l : RwLock) (sched : list (nat * action)) : option RwLock :=
  match sched with
  | [] => Some l
  | (i, a) :: sched =>
    c ← threads l !! i;
    l ← step_thread l i c a;
    run l sched
  end.

Lemma run_steps l sched l' : run l sched = Some l' → rtc step l l'.
Proof.
  revert l. induction sched as [|[i a] sched IH]; intros l; simpl; [by intros [= ->]|].
  destruct (threads l !! i) as [c|] eqn:Hi; [|done]. simpl.
  destruct (step_thread l i c a) as [l1|] eqn:Hs; [|done]. simpl. intros Hr.
  eapply rtc_l; [by exists i, c, a|by apply IH].
Qed.

(** ** Properties *)

Module RwLockProps.

(** C25 The lock excludes: in every reachable state of any number of threads, while
    one holds the write guard no other thread holds a guard of either kind, and the
    counter is what the guards in use say. *)
Theorem writer_excludes n l i j c :
  rtc step (new n) l → threads l !! i = Some Writing → i ≠ j → threads l !! j = Some c →
  c ≠ Writing ∧ c ≠ Reading ∧ state l = -1.
Proof.
  intros Hs Hi Hij Hj. pose proof (lock_inv_steps _ _ Hs (lock_inv_new n)) as Hl.
  destruct (writer_no_reader _ _ _ Hl Hi eq_refl) as (Hw & Hr & Hst). split_and!; [|intros ->|done].
  - intros ->. pose proof (count_two is_writer _ _ _ _ _ eq_refl Hij Hi Hj eq_refl eq_refl). lia.
  - pose proof (count_in is_reader _ _ _ Hj eq_refl). lia.
Qed.

(** Writers go first: once a writer has registered and until it has the lock, no
    thread becomes a reader, except the writer in place when it downgrades; and no
    step fails the assertion of [downgrade]. *)
Theorem writers_go_first n l i c a :
  rtc step (new n) l → threads l !! i = Some c →
  ∃ l', step_thread l i c a = Some l' ∧
    (∀ j d, threads l !! j = Some d → is_asking d = true →
      c ≠ Reading → threads l' !! i = Some Reading → c = Writing ∧ a = Downgrade).
Proof.
  intros Hs Hi. pose proof (lock_inv_steps _ _ Hs (lock_inv_new n)) as Hl.
  destruct (lock_inv_step l i c a Hl Hi) as (l' & Heq & _). exists l'. split; [done|].
  intros j d Hj Hd Hc Hi'. pose proof (count_in is_asking _ _ _ Hj Hd) as Hcnt.
  rewrite <-(li_asked _ Hl) in Hcnt.
  assert (∀ l0 x, threads l0 = threads l → threads (move l0 i x) !! i = Some x) as Hmv.
  { intros l0 x Ht. simpl. rewrite Ht. apply list_lookup_insert_eq. by eapply lookup_lt_Some. }
  destruct c, a; simpl in Heq; simplify_eq; try done; exfalso;
    repeat match goal with
    | H : threads (if ?b then _ else _) !! _ = _ |- _ => destruct b
    end;
    try (rewrite Hmv in Hi' by done); try congruence;
    repeat match goal with
    | H : Some (if ?b then _ else _) = _ |- _ => destruct b eqn:?
    end; try congruence; lia.
Qed.

(** Thread 0 takes the write lock; thread 1 tries to read. *)
Definition demo_schedule : list (nat * action) :=
  [(0, StartWrite); (1, StartRead); (0, Proceed); (1, Proceed); (0, Proceed); (0, Proceed);
   (1, Proceed); (0, Proceed)]%nat.

Definition demo_lock : RwLock := MkLock (-1) 0 [Writing; RState].

Lemma demo_lock_reachable : rtc step (new 2) demo_lock.
Proof. apply (run_steps _ demo_schedule). vm_compute. reflexivity. Qed.

Lemma writer_excludes_witness : threads demo_lock !! 1%nat = Some RState ∧ state demo_lock = -1.
Proof.
  split; [reflexivity|].
  apply (writer_excludes 2 demo_lock 0 1 RState demo_lock_reachable eq_refl); [lia|reflexivity].
Defined.

Lemma writers_go_first_witness : ∃ l', step_thread demo_lock 0 Writing Downgrade = Some l'.
Proof.
  destruct (writers_go_first 2 demo_lock 0 Writing Downgrade demo_lock_reachable eq_refl) as (l' & Heq & _).
  exists l'. exact Heq.
Defined.
End RwLockProps.
