(* ===== verification/IdAlloc.v ===== *)
(** * Identifiers and kernel stacks (os/src/process/id.rs, os/src/mm/id.rs)

    [RecycleAllocator], from which process ids, address-space ids and kernel-stack
    ids come, the position of a kernel stack in the address space, and the cache of
    mapped stacks.  The constants are those of the RISC-V build. *)

From S2P Require Import Prelude Address.

Local Open Scope Z_scope.

(** ** The allocator *)

Record RecycleAllocator := MkRecycle { current : Z; recycled : list Z }.

Definition new : RecycleAllocator := MkRecycle 0 [].

Definition new_with_start (start : Z) : RecycleAllocator := MkRecycle start [].

Definition alloc (a : RecycleAllocator) : option (Z * RecycleAllocator) :=
  match vec_pop (recycled a) with
  | Some (id, l) => Some (id, MkRecycle (current a) l)
  | None =>
    c ← checked_add (current a) 1;
    Some (c - 1, MkRecycle c (recycled a))
  end.

Definition dealloc (a : RecycleAllocator) (id : Z) : option RecycleAllocator :=
  if negb (id <? current a) then None
  else if bool_decide (id ∈ recycled a) then None
  else Some (MkRecycle (current a) (vec_push (recycled a) id)).

(** ** Process and thread ids *)

(** [TIdHandle]: the id, and whether dropping the handle gives it back.  The main
    thread of a process has its pid as tid, which the [PidHandle] gives back. *)
Record TIdHandle := MkTId { tid_id : Z; tid_owned : bool }.

Definition pid_alloc (a : RecycleAllocator) : option (Z * RecycleAllocator) := alloc a.

Definition pid_drop (a : RecycleAllocator) (pid : Z) : option RecycleAllocator := dealloc a pid.

Definition tid_alloc (a : RecycleAllocator) : option (TIdHandle * RecycleAllocator) :=
  '(id, a) ← alloc a; Some (MkTId id true, a).

Definition tid_from_pid (pid : Z) : TIdHandle := MkTId pid false.

Definition tid_drop (a : RecycleAllocator) (t : TIdHandle) : option RecycleAllocator :=
  if tid_owned t then dealloc a (tid_id t) else Some a.

(** ** Address-space ids *)

Definition ASID_COUNT : Z := Z.shiftl 1 16.

(** [asid_alloc]: an id that does not fit the register is a panic.  On RISC-V ids
    are never given back. *)
Definition asid_alloc (a : RecycleAllocator) : option (Z * RecycleAllocator) :=
  '(asid, a) ← alloc a;
  if asid <? ASID_COUNT then Some (asid, a) else None.

(** ** Kernel stacks *)

Definition KERNEL_STACK_SIZE : Z := PAGE_SIZE * 32.

Definition TRAMPOLINE : Z := USIZE_MAX - PAGE_SIZE + 1.

Definition KSTACK_LOWEST : Z := 0xffffffffc0000000.

Definition KSTACK_CACHE_LIMIT : nat := 64.

(** [kernel_stack_position]: bottom and top. *)
Definition kernel_stack_position (app_id : Z) : option (Z * Z) :=
  let stride := KERNEL_STACK_SIZE + PAGE_SIZE in
  offset ← checked_mul app_id stride;
  top ← checked_sub TRAMPOLINE offset;
  bottom ← checked_sub top KERNEL_STACK_SIZE;
  if bottom <? KSTACK_LOWEST then None else Some (bottom, top).

(** [KSTACK_ALLOCATOR], [KSTACK_CACHE], and the stacks that have their area in the
    kernel's address space. *)
Record kstacks := MkKstacks {
  ks_alloc : RecycleAllocator;
  ks_cache : list Z;
  ks_mapped : list Z;
}.

(** [kstack_alloc]: a cached stack keeps its mapping; a new one is mapped, which is
    a panic when it is mapped already. *)
Definition kstack_alloc (k : kstacks) : option (Z * kstacks) :=
  match vec_pop (ks_cache k) with
  | Some (id, cache) =>
    _ ← kernel_stack_position id;
    Some (id, MkKstacks (ks_alloc k) cache (ks_mapped k))
  | None =>
    '(id, a) ← alloc (ks_alloc k);
    _ ← kernel_stack_position id;
    if bool_decide (id ∈ ks_mapped k) then None
    else Some (id, MkKstacks a (ks_cache k) (id :: ks_mapped k))
  end.

(** The [Drop] of [KernelStack]. *)
Definition kstack_drop (k : kstacks) (id : Z) : option kstacks :=
  if decide (length (ks_cache k) < KSTACK_CACHE_LIMIT)%nat then
    Some (MkKstacks (ks_alloc k) (vec_push (ks_cache k) id) (ks_mapped k))
  else
    _ ← kernel_stack_position id;
    a ← dealloc (ks_alloc k) id;
    Some (MkKstacks a (ks_cache k) (filter (λ x, x ≠ id) (ks_mapped k))).

(** [KernelStack::position_for] an object of a size and a power-of-two alignment. *)
Definition position_for (id obj_size align : Z) : option Z :=
  '(_, top) ← kernel_stack_position id;
  x ← checked_sub top obj_size;
  Some (Z.land x (usize_not (align - 1))).

(** ** The invariant *)

(** The ids in use and the recycled ones are the ids below the counter, each once. *)
Definition id_inv (start : Z) (a : RecycleAllocator) (used : list Z) : Prop :=
  0 ≤ start ≤ current a ∧ recycled a ++ used ≡ₚ seqZ start (current a - start).

#[export] Instance id_inv_proper start a : Proper (Permutation ==> iff) (id_inv start a).
Proof. intros u u' Hu. unfold id_inv. by rewrite Hu. Qed.

Lemma id_inv_new start : 0 ≤ start → id_inv start (new_with_start start) [].
Proof. intros Hs. split; simpl; [lia|]. by rewrite Z.sub_diag. Qed.

Lemma id_inv_used start a used id : id_inv start a used → id ∈ recycled a ++ used → start ≤ id < current a.
Proof. intros [_ Hp] Hin. rewrite Hp in Hin. apply elem_of_seqZ in Hin. lia. Qed.

Lemma id_inv_nodup start a used : id_inv start a used → NoDup (recycled a ++ used).
Proof. intros [_ Hp]. rewrite Hp. apply NoDup_seqZ. Qed.

Lemma wp_id_alloc start a used :
  id_inv start a used → current a < USIZE_MAX →
  wp (alloc a) (λ '(id, a'), id_inv start a' (id :: used) ∧ (id ∉ used) ∧ start ≤ id ∧
    (current a' = current a ∧ id < current a ∨ recycled a = [] ∧ id = current a ∧ current a' = current a + 1)).
Proof.
  intros Hi Hc. assert (∀ a' id, id_inv start a' (id :: used) → (id ∉ used) ∧ start ≤ id) as Hfresh.
  { intros a' id Hi'. pose proof (id_inv_nodup _ _ _ Hi') as Hnd.
    rewrite <-Permutation_middle in Hnd. apply NoDup_cons in Hnd as [Hnd _].
    destruct (id_inv_used _ _ _ id Hi'); [apply elem_of_app; right; by left|]. set_solver. }
  unfold alloc. destruct (vec_pop (recycled a)) as [[id l]|] eqn:Hl.
  - apply vec_pop_Some in Hl. apply wp_ret. assert (id_inv start (MkRecycle (current a) l) (id :: used)) as Hi'.
    { destruct Hi as [Hs Hp]. split; [done|]. simpl. rewrite <-Hp, Hl. solve_perm. }
    destruct (Hfresh _ _ Hi'). destruct (id_inv_used _ _ _ id Hi); [rewrite Hl; set_solver|].
    split_and!; [done..|]. by left.
  - apply vec_pop_None in Hl. unfold checked_add. rewrite (proj2 (Z.leb_le _ _)) by lia. apply wp_ret.
    rewrite Z.add_simpl_r.
    assert (id_inv start (MkRecycle (current a + 1) (recycled a)) (current a :: used)) as Hi'.
    { destruct Hi as [Hs Hp]. split; simpl; [lia|].
      replace (current a + 1 - start) with ((current a - start) + 1) by lia.
      rewrite seqZ_app by lia. replace (start + (current a - start)) with (current a) by lia.
      rewrite <-Hp. change (seqZ (current a) 1) with [current a]. solve_perm. }
    destruct (Hfresh _ _ Hi'). split_and!; [done..|]. by right.
Qed.

Lemma id_dealloc_ok start a used id :
  id_inv start a (id :: used) → ∃ a', dealloc a id = Some a' ∧ id_inv start a' used ∧ dealloc a' id = None.
Proof.
  intros Hi. pose proof (id_inv_nodup _ _ _ Hi) as Hnd. rewrite <-Permutation_middle in Hnd.
  apply NoDup_cons in Hnd as [Hnd _]. destruct (id_inv_used _ _ _ id Hi); [apply elem_of_app; right; by left|].
  unfold dealloc. rewrite (proj2 (Z.ltb_lt _ _)) by lia. simpl. rewrite bool_decide_false by set_solver.
  eexists. split; [done|]. simpl. rewrite (proj2 (Z.ltb_lt _ _)) by lia. simpl.
  rewrite (bool_decide_true (_ ∈ vec_push _ _)) by (unfold vec_push; set_solver). split; [|done].
  destruct Hi as [Hs Hp]. split; [done|]. simpl. unfold vec_push. rewrite <-Hp. solve_perm.
Qed.

(** ** Positions *)

(** The number of stacks that fit. *)
Definition KSTACK_COUNT : Z := (TRAMPOLINE - KERNEL_STACK_SIZE - KSTACK_LOWEST) / (KERNEL_STACK_SIZE + PAGE_SIZE) + 1.

Lemma kernel_stack_position_ok id :
  0 ≤ id → kernel_stack_position id =
    if id <? KSTACK_COUNT
    then Some (TRAMPOLINE - id * (KERNEL_STACK_SIZE + PAGE_SIZE) - KERNEL_STACK_SIZE,
               TRAMPOLINE - id * (KERNEL_STACK_SIZE + PAGE_SIZE))
    else None.
Proof.
  intros Hid. unfold kernel_stack_position, checked_mul, checked_sub.
  change (KERNEL_STACK_SIZE + PAGE_SIZE) with 135168. change KERNEL_STACK_SIZE with 131072.
  change TRAMPOLINE with 18446744073709547520. change KSTACK_COUNT with 7943.
  change KSTACK_LOWEST with 18446744072635809792. unfold USIZE_MAX.
  repeat (case_match; cbn [mbind option_bind]); try done; exfalso; lia.
Qed.

(** ** Stacks in use *)

(** The mapped stacks are those in use and those in the cache. *)
Definition ks_inv (k : kstacks) (used : list Z) : Prop :=
  id_inv 0 (ks_alloc k) (ks_cache k ++ used) ∧ ks_mapped k ≡ₚ ks_cache k ++ used ∧
  current (ks_alloc k) ≤ KSTACK_COUNT.

Lemma position_some id : 0 ≤ id < KSTACK_COUNT → is_Some (kernel_stack_position id).
Proof. intros Hid. rewrite kernel_stack_position_ok, (proj2 (Z.ltb_lt _ _)) by lia. by eexists. Qed.

Lemma wp_kstack_alloc k used :
  ks_inv k used → Z.of_nat (length used) < KSTACK_COUNT →
  wp (kstack_alloc k) (λ '(id, k'), ks_inv k' (id :: used)).
Proof.
  intros (Hi & Hm & Hc) Hlen. unfold kstack_alloc. destruct (vec_pop (ks_cache k)) as [[id cache]|] eqn:Hl.
  - apply vec_pop_Some in Hl. destruct (id_inv_used _ _ _ id Hi); [rewrite Hl; set_solver|].
    destruct (position_some id) as [x ->]; [lia|]. apply wp_ret. split_and!; simpl; [|by rewrite Hm, Hl; solve_perm|done].
    destruct Hi as [Hs Hp]. split; [done|]. rewrite <-Hp, Hl. solve_perm.
  - apply vec_pop_None in Hl. rewrite Hl in *. simpl app in *. apply wp_bind.
    eapply wp_mono; [apply (wp_id_alloc 0 _ _ Hi); change KSTACK_COUNT with 7943 in Hc; unfold USIZE_MAX; lia|].
    intros [id a'] (Hi' & Hid & Hge & Hcur).
    assert (id < KSTACK_COUNT ∧ current a' ≤ KSTACK_COUNT) as [Hb Hb'].
    { destruct Hcur as [?|(Hr & -> & ->)]; [lia|]. destruct Hi as [Hs Hp]. apply Permutation_length in Hp.
      rewrite Hr, length_seqZ in Hp. simpl in Hp. lia. }
    destruct (position_some id) as [x ->]; [lia|]. cbn [mbind option_bind].
    rewrite bool_decide_false by (by rewrite Hm). apply wp_ret. split_and!; simpl; [done|by rewrite Hm|done].
Qed.

Lemma kstack_drop_ok k used id :
  ks_inv k (id :: used) → ∃ k', kstack_drop k id = Some k' ∧ ks_inv k' used.
Proof.
  intros (Hi & Hm & Hc). unfold kstack_drop. destruct (decide _) as [Hlt|Hge].
  - eexists. split; [done|]. unfold vec_push. split_and!; simpl; [|by rewrite Hm; solve_perm|done].
    destruct Hi as [Hs Hp]. split; [done|]. rewrite <-Hp. solve_perm.
  - destruct (id_inv_used _ _ _ id Hi); [set_solver|]. destruct (position_some id) as [x ->]; [lia|].
    cbn [mbind option_bind]. assert (id_inv 0 (ks_alloc k) (id :: ks_cache k ++ used)) as Hi'.
    { destruct Hi as [Hs Hp]. split; [done|]. rewrite <-Hp. solve_perm. }
    destruct (id_dealloc_ok _ _ _ _ Hi') as (a' & Heq & Hi2 & _). rewrite Heq. eexists. split; [done|].
    assert (ks_mapped k ≡ₚ id :: ks_cache k ++ used) as Hm' by (rewrite Hm; solve_perm).
    split_and!; simpl; [done| |].
    + rewrite Hm', filter_cons_False by auto. apply reflexive_eq, filter_all.
      pose proof (id_inv_nodup _ _ _ Hi') as Hnd. apply NoDup_app in Hnd as (_ & _ & [Hnd _]%NoDup_cons).
      apply Forall_forall. intros y Hy ->. done.
    + unfold dealloc in Heq. repeat case_match; try done. by injection Heq as <-.
Qed.

(** ** Properties *)

Module IdProps.

(** An identifier is handed to one holder at a time: [alloc] returns an id that
    is not in use, never below the first one, and giving it back works once. *)
Theorem ids_unique start a used :
  id_inv start a used → current a < USIZE_MAX →
  ∃ id a', alloc a = Some (id, a') ∧ id_inv start a' (id :: used) ∧ (id ∉ used) ∧ start ≤ id ∧
    ∃ a'', dealloc a' id = Some a'' ∧ id_inv start a'' used ∧ dealloc a'' id = None.
Proof.
  intros Hi Hc. destruct (wp_elim _ _ (wp_id_alloc start a used Hi Hc)) as ([id a'] & Heq & Hi' & Hn & Hs & _).
  destruct (id_dealloc_ok start a' used id Hi') as (a'' & ?).
  exists id, a'. split_and!; [done..|]. by exists a''.
Qed.

(** The ids of a process: its main thread shares the pid, another thread gets one
    of its own, and the handles can be dropped in this order or the other, giving
    back each id once. *)
Theorem thread_ids_returned a used :
  id_inv 1 a used → current a + 1 < USIZE_MAX →
  ∃ pid a1 t a2, pid_alloc a = Some (pid, a1) ∧ tid_alloc a1 = Some (t, a2) ∧
    tid_id t ≠ pid ∧ (tid_id t ∉ used) ∧ (pid ∉ used) ∧
    ∃ a3, (b ← tid_drop a2 (tid_from_pid pid); c ← tid_drop b t; pid_drop c pid) = Some a3 ∧ id_inv 1 a3 used ∧
    ∃ a4, (b ← pid_drop a2 pid; c ← tid_drop b (tid_from_pid pid); tid_drop c t) = Some a4 ∧ id_inv 1 a4 used.
Proof.
  intros Hi Hc. destruct (wp_elim _ _ (wp_id_alloc 1 a used Hi ltac:(lia))) as ([pid a1] & Hp & Hi1 & Hn & _ & Hc1).
  destruct (wp_elim _ _ (wp_id_alloc 1 a1 _ Hi1 ltac:(lia))) as ([t a2] & Ht & Hi2 & Hn2 & _).
  assert (id_inv 1 a2 (pid :: t :: used)) as Hi2'.
  { destruct Hi2 as [Hs Hperm]. split; [done|]. rewrite <-Hperm. solve_perm. }
  destruct (id_dealloc_ok _ _ _ _ Hi2) as (a3 & H3 & Hi3 & _).
  destruct (id_dealloc_ok _ _ _ _ Hi3) as (a3' & H3' & Hi3' & _).
  destruct (id_dealloc_ok _ _ _ _ Hi2') as (a4 & H4 & Hi4 & _).
  destruct (id_dealloc_ok _ _ _ _ Hi4) as (a4' & H4' & Hi4' & _).
  exists pid, a1, (MkTId t true), a2. unfold tid_alloc, tid_drop, pid_drop. simpl. rewrite Ht.
  split_and!; [done..|set_solver|set_solver|done|]. exists a3'. rewrite H3. simpl. split_and!; [done..|].
  exists a4'. rewrite H4. simpl. done.
Qed.

(** Kernel stacks: while fewer than 7943 are in use, [kstack_alloc] returns one
    that nobody uses and that is mapped, from the cache or new; dropping it never
    panics, and leaves it mapped exactly when it goes to the cache. *)
Theorem kstacks_exclusive k used :
  ks_inv k used → Z.of_nat (length used) < KSTACK_COUNT →
  ∃ id k', kstack_alloc k = Some (id, k') ∧ ks_inv k' (id :: used) ∧ (id ∉ used) ∧ (id ∈ ks_mapped k') ∧
    ∃ k'', kstack_drop k' id = Some k'' ∧ ks_inv k'' used ∧ (id ∈ ks_mapped k'' ↔ id ∈ ks_cache k'').
Proof.
  intros Hk Hl. destruct (wp_elim _ _ (wp_kstack_alloc k used Hk Hl)) as ([id k'] & Heq & Hk').
  destruct (kstack_drop_ok k' used id Hk') as (k'' & Hd & Hk''). exists id, k'.
  assert (id ∉ used) as Hn.
  { destruct Hk' as (Hi & _). pose proof (id_inv_nodup _ _ _ Hi) as Hnd.
    apply NoDup_app in Hnd as (_ & _ & Hnd). apply NoDup_app in Hnd as (_ & _ & [? _]%NoDup_cons). done. }
  split_and!; [done..| |].
  - destruct Hk' as (_ & -> & _). set_solver.
  - exists k''. split_and!; [done..|]. destruct Hk'' as (_ & -> & _). set_solver.
Qed.

(** Kernel stacks do not touch: the stacks of two different ids are at least a
    guard page apart, inside the region of root entry 511, and page aligned; an id
    beyond the region is a panic. *)
Theorem kernel_stacks_apart i j :
  0 ≤ i < j →
  match kernel_stack_position i, kernel_stack_position j with
  | Some (bi, ti), Some (bj, tj) =>
    KSTACK_LOWEST ≤ bj ∧ bj + KERNEL_STACK_SIZE = tj ∧ tj + PAGE_SIZE ≤ bi ∧
    bi + KERNEL_STACK_SIZE = ti ∧ ti ≤ TRAMPOLINE ∧ (PAGE_SIZE | bi) ∧ (PAGE_SIZE | bj)
  | None, Some _ => False
  | _, None => KSTACK_COUNT ≤ j
  end.
Proof.
  intros Hij. rewrite !kernel_stack_position_ok by lia.
  change (KERNEL_STACK_SIZE + PAGE_SIZE) with 135168. change KERNEL_STACK_SIZE with 131072.
  change TRAMPOLINE with 18446744073709547520. change KSTACK_COUNT with 7943.
  change KSTACK_LOWEST with 18446744072635809792. change PAGE_SIZE with 4096.
  destruct (Z.ltb_spec i 7943), (Z.ltb_spec j 7943); try lia.
  split_and!; try lia; [exists (4503599627370495 - i * 33 - 32)|exists (4503599627370495 - j * 33 - 32)]; lia.
Qed.

Lemma ids_unique_witness : ∃ a', alloc (new_with_start 1) = Some (1, a') ∧ id_inv 1 a' [1].
Proof.
  destruct (ids_unique 1 (new_with_start 1) [] ltac:(by apply id_inv_new) ltac:(done)) as (id & a' & Heq & Hi & _).
  assert (id = 1) as -> by (vm_compute in Heq; congruence). exists a'. split; [exact Heq|exact Hi].
Defined.

Lemma thread_ids_returned_witness :
  ∃ a1 t a2, pid_alloc (new_with_start 1) = Some (1, a1) ∧ tid_alloc a1 = Some (t, a2) ∧ tid_id t ≠ 1.
Proof.
  destruct (thread_ids_returned (new_with_start 1) [] ltac:(by apply id_inv_new) ltac:(done))
    as (pid & a1 & t & a2 & Hp & Ht & Hne & _).
  assert (pid = 1) as -> by (vm_compute in Hp; congruence). exists a1, t, a2.
  split; [exact Hp|]. split; [exact Ht|exact Hne].
Defined.

Lemma kstacks_exclusive_witness :
  ∃ k', kstack_alloc (MkKstacks new [] []) = Some (0, k') ∧ 0 ∈ ks_mapped k'.
Proof.
  destruct (kstacks_exclusive (MkKstacks new [] []) []) as (id & k' & Heq & _ & _ & Hin & _).
  - split; [by apply (id_inv_new 0)|by vm_compute].
  - done.
  - assert (id = 0) as -> by (vm_compute in Heq; congruence). exists k'. split; [exact Heq|exact Hin].
Defined.

Lemma kernel_stacks_apart_witness :
  ∃ b0 t0 b1 t1, kernel_stack_position 0 = Some (b0, t0) ∧ kernel_stack_position 1 = Some (b1, t1) ∧ t1 + PAGE_SIZE ≤ b0.
Proof.
  pose proof (kernel_stacks_apart 0 1 ltac:(lia)) as Hp.
  destruct (kernel_stack_position 0) as [[b0 t0]|] eqn:H0; [|vm_compute in H0; discriminate].
  destruct (kernel_stack_position 1) as [[b1 t1]|] eqn:H1; [|vm_compute in H1; discriminate].
  exists b0, t0, b1, t1. split; [reflexivity|]. split; [reflexivity|]. apply Hp.
Defined.
End IdProps.
