(* ===== verification/Task.v ===== *)
(** * Tasks as the scheduler sees them

    The scheduling part of [TaskStruct]: the status, the CFS, real-time and
    deadline entities and the placement fields.  Tasks are shared by reference
    ([Arc<TaskControlBlock>]): a task is a reference into a heap, and every
    queue that holds the task holds the same reference, so a write through one
    of them is seen through all. *)

From S2P Require Import Prelude.

(** [enum TaskStatus] *)
Inductive TaskStatus := UnInit | Ready | Running | Blocked | Zombie | BlockSaving.

#[export] Instance TaskStatus_eq_dec : EqDecision TaskStatus.
Proof. solve_decision. Defined.

(** [struct SchedEntity] *)
Record SchedEntity := MkSe {
  vruntime : Z;
  exec_start : Z;
  sum_exec_runtime : Z;
  prev_sum_exec_runtime : Z;
  load_weight : Z;
}.

(** [SchedEntity::new]: nice 0, never run. *)
Definition SchedEntity_new : SchedEntity := MkSe 0 0 0 0 1024.

(** [struct SchedRtEntity] *)
Record SchedRtEntity := MkRt { time_slice : Z; migratable : bool }.

Definition SchedRtEntity_new : SchedRtEntity := MkRt 0 true.

(** [struct SchedDlEntity] *)
Record SchedDlEntity := MkDl {
  dl_runtime : Z;
  dl_deadline : Z;
  dl_period : Z;
  remaining_runtime : Z;
  absolute_deadline : Z;
  dl_throttled : bool;
}.

Definition SchedDlEntity_new : SchedDlEntity := MkDl 0 0 0 0 U64_MAX false.

(** The scheduling fields of [struct TaskStruct] and [struct TaskStructInner];
    [tid] is [pid.0], which [gettid] returns and nothing changes. *)
Record TaskStruct := MkTask {
  tid : nat;
  on_main_hart : bool;
  state : TaskStatus;
  wake_pending : bool;
  wake_source_cpu : option nat;
  sched_policy : Z;
  prio : Z;
  se : SchedEntity;
  rt : SchedRtEntity;
  dl : SchedDlEntity;
  on_cpu : bool;
  on_rq : bool;
  cpu : nat;
  cpus_allowed : Z;
  need_resched : bool;
}.

(** An [Arc<TaskControlBlock>], and the memory behind all of them. *)
Definition TaskRef := nat.

Definition heap := TaskRef → TaskStruct.

(** A critical section on the task's inner lock that updates the task. *)
Definition upd_task (h : heap) (r : TaskRef) (f : TaskStruct → TaskStruct) : heap :=
  λ r', if decide (r' = r) then f (h r) else h r'.

(** ** Field updates *)

Definition se_with_vruntime (v : Z) (s : SchedEntity) : SchedEntity :=
  MkSe v (exec_start s) (sum_exec_runtime s) (prev_sum_exec_runtime s) (load_weight s).

Definition with_se (f : SchedEntity → SchedEntity) (t : TaskStruct) : TaskStruct :=
  MkTask (tid t) (on_main_hart t) (state t) (wake_pending t) (wake_source_cpu t)
    (sched_policy t) (prio t) (f (se t)) (rt t) (dl t) (on_cpu t) (on_rq t) (cpu t)
    (cpus_allowed t) (need_resched t).

Definition with_state (s : TaskStatus) (t : TaskStruct) : TaskStruct :=
  MkTask (tid t) (on_main_hart t) s (wake_pending t) (wake_source_cpu t)
    (sched_policy t) (prio t) (se t) (rt t) (dl t) (on_cpu t) (on_rq t) (cpu t)
    (cpus_allowed t) (need_resched t).

Definition with_wake (p : bool) (c : option nat) (t : TaskStruct) : TaskStruct :=
  MkTask (tid t) (on_main_hart t) (state t) p c
    (sched_policy t) (prio t) (se t) (rt t) (dl t) (on_cpu t) (on_rq t) (cpu t)
    (cpus_allowed t) (need_resched t).

Definition with_on_rq (b : bool) (t : TaskStruct) : TaskStruct :=
  MkTask (tid t) (on_main_hart t) (state t) (wake_pending t) (wake_source_cpu t)
    (sched_policy t) (prio t) (se t) (rt t) (dl t) (on_cpu t) b (cpu t)
    (cpus_allowed t) (need_resched t).

Definition with_on_cpu (b : bool) (t : TaskStruct) : TaskStruct :=
  MkTask (tid t) (on_main_hart t) (state t) (wake_pending t) (wake_source_cpu t)
    (sched_policy t) (prio t) (se t) (rt t) (dl t) b (on_rq t) (cpu t)
    (cpus_allowed t) (need_resched t).

Definition with_cpu (c : nat) (t : TaskStruct) : TaskStruct :=
  MkTask (tid t) (on_main_hart t) (state t) (wake_pending t) (wake_source_cpu t)
    (sched_policy t) (prio t) (se t) (rt t) (dl t) (on_cpu t) (on_rq t) c
    (cpus_allowed t) (need_resched t).

Definition with_need_resched (b : bool) (t : TaskStruct) : TaskStruct :=
  MkTask (tid t) (on_main_hart t) (state t) (wake_pending t) (wake_source_cpu t)
    (sched_policy t) (prio t) (se t) (rt t) (dl t) (on_cpu t) (on_rq t) (cpu t)
    (cpus_allowed t) b.

(** A fresh task with thread id [i] and policy [pol], allowed on the first eight
    CPUs, and one with the normal policy. *)
Definition policy_task (pol : Z) (i : nat) : TaskStruct :=
  MkTask i false Ready false None pol 50 SchedEntity_new SchedRtEntity_new SchedDlEntity_new
    false false 0 255 false.

Definition normal_task (i : nat) : TaskStruct := policy_task 0 i.

(** ** The heap *)

Lemma upd_task_eq h r f : upd_task h r f r = f (h r).
Proof. unfold upd_task. by rewrite decide_True. Qed.

Lemma upd_task_ne h r r' f : r ≠ r' → upd_task h r f r' = h r'.
Proof. intros Hne. unfold upd_task. by rewrite decide_False. Qed.

(** A field the update keeps is the same in every task. *)
Lemma upd_task_proj {A} (p : TaskStruct → A) h r f r' :
  (∀ t, p (f t) = p t) → p (upd_task h r f r') = p (h r').
Proof.
  intros Hp. destruct (decide (r = r')) as [<-|Hne].
  - by rewrite upd_task_eq.
  - by rewrite upd_task_ne.
Qed.
