(* ===== verification/CfsRq.v ===== *)
(** * The CFS run queue (os/src/process/scheduler/cfs_rq.rs)

    The timeline is an ordered queue keyed by (vruntime, enqueue order, tid);
    the component is developed against the interface [OrderedQueue] and used at
    the cached red-black tree. *)

From S2P Require Import Prelude OrderedQueue RbArena RbTree Task.

(** [struct CfsKey] *)
Record CfsKey := MkCfsKey {
  k_vruntime : Z;
  k_enqueue_order : Z;
  k_tid : nat;
}.

(** [impl Ord for CfsKey] *)
Definition CfsKey_cmp (a b : CfsKey) : comparison :=
  then_with (then_with (Z.compare (k_vruntime a) (k_vruntime b))
                       (Z.compare (k_enqueue_order a) (k_enqueue_order b)))
            (Nat.compare (k_tid a) (k_tid b)).

Definition CfsKey_tuple (k : CfsKey) : Z * Z * nat := (k_vruntime k, k_enqueue_order k, k_tid k).

#[export] Instance CfsKey_tuple_inj : Inj (=) (=) CfsKey_tuple.
Proof. by intros [] [] [= -> -> ->]. Qed.

#[export] Instance CfsKey_ord : RustOrd CfsKey :=
  ord_via CfsKey_tuple CfsKey_cmp (λ a b, eq_refl).

(** [struct LoadWeight] *)
Record LoadWeight := MkLoadWeight { weight : Z; inv_weight : Z }.

Section cfs.
Context {Q : Type} `{!OrderedQueue CfsKey TaskRef Q}.

(** [struct CfsRq] *)
Record CfsRq := MkCfsRq {
  load : LoadWeight;
  nr_queued : nat;
  h_nr_queued : nat;
  min_vruntime : Z;
  tasks_timeline : Q;
  exec_clock : Z;
  enqueue_order : Z;
}.

Implicit Types (h : heap) (rq : CfsRq) (r : TaskRef) (l : list (CfsKey * TaskRef)).

(** [CfsRq::new] *)
Definition new : CfsRq := MkCfsRq (MkLoadWeight 0 0) 0 0 0 oq_new 0 0.

Definition with_min_vruntime (v : Z) rq : CfsRq :=
  MkCfsRq (load rq) (nr_queued rq) (h_nr_queued rq) v (tasks_timeline rq)
    (exec_clock rq) (enqueue_order rq).

(** [CfsRq::enqueue] *)
Definition enqueue h rq (task : TaskRef) (vr w : Z) : option (heap * CfsRq) :=
  let vr := Z.max vr (min_vruntime rq) in
  let h := upd_task h task (with_se (se_with_vruntime vr)) in
  let key := MkCfsKey vr (enqueue_order rq) (tid (h task)) in
  timeline ← oq_insert (tasks_timeline rq) key task;
  let leftmost_vruntime := from_option k_vruntime vr (oq_first_key timeline) in
  Some (h, MkCfsRq
    (MkLoadWeight (saturating_add (weight (load rq)) w) (inv_weight (load rq)))
    (S (nr_queued rq)) (S (h_nr_queued rq))
    (Z.max (min_vruntime rq) leftmost_vruntime)
    timeline (exec_clock rq) (wrapping_add (enqueue_order rq) 1)).

(** [CfsRq::dequeue] *)
Definition dequeue h rq (i : nat) (vr w : Z) : option (option TaskRef * CfsRq) :=
  '(task, timeline) ← oq_remove_where (tasks_timeline rq)
    (λ r, (tid (h r) =? i) && (vruntime (se (h r)) =? vr)%Z);
  match task with
  | Some task =>
    n ← nat_dec (nr_queued rq);
    hn ← nat_dec (h_nr_queued rq);
    Some (Some task, MkCfsRq
      (MkLoadWeight (saturating_sub (weight (load rq)) w) (inv_weight (load rq)))
      n hn (min_vruntime rq) timeline (exec_clock rq) (enqueue_order rq))
  | None =>
    Some (None, MkCfsRq (load rq) (nr_queued rq) (h_nr_queued rq) (min_vruntime rq)
      timeline (exec_clock rq) (enqueue_order rq))
  end.

(** [CfsRq::pick_next] *)
Definition pick_next rq : option TaskRef := oq_first (tasks_timeline rq).

(** [CfsRq::pop_next] *)
Definition pop_next h rq : option (option TaskRef * CfsRq) :=
  '(task, timeline) ← oq_pop_first (tasks_timeline rq);
  match task with
  | None =>
    Some (None, MkCfsRq (load rq) (nr_queued rq) (h_nr_queued rq) (min_vruntime rq)
      timeline (exec_clock rq) (enqueue_order rq))
  | Some task =>
    let current_vruntime := vruntime (se (h task)) in
    let candidate := from_option (λ key, Z.min (k_vruntime key) current_vruntime)
      current_vruntime (oq_first_key timeline) in
    Some (Some task, MkCfsRq
      (MkLoadWeight (saturating_sub (weight (load rq)) (load_weight (se (h task))))
        (inv_weight (load rq)))
      (nr_queued rq - 1) (h_nr_queued rq - 1)
      (Z.max (min_vruntime rq) candidate)
      timeline (exec_clock rq) (enqueue_order rq))
  end.

(** [CfsRq::remove_task] *)
Definition remove_task h rq (i : nat) : option (option TaskRef * CfsRq) :=
  '(task, timeline) ← oq_remove_where (tasks_timeline rq) (λ r, tid (h r) =? i);
  match task with
  | None =>
    Some (None, MkCfsRq (load rq) (nr_queued rq) (h_nr_queued rq) (min_vruntime rq)
      timeline (exec_clock rq) (enqueue_order rq))
  | Some task =>
    Some (Some task, MkCfsRq
      (MkLoadWeight (saturating_sub (weight (load rq)) (load_weight (se (h task))))
        (inv_weight (load rq)))
      (nr_queued rq - 1) (h_nr_queued rq - 1) (min_vruntime rq)
      timeline (exec_clock rq) (enqueue_order rq))
  end.

(** [CfsRq::advance_min_vruntime] *)
Definition advance_min_vruntime rq : CfsRq :=
  match oq_first_key (tasks_timeline rq) with
  | Some key => with_min_vruntime (Z.max (min_vruntime rq) (k_vruntime key)) rq
  | None => rq
  end.

(** ** Invariant *)

(** The threads of a list of entries. *)
Definition tids h l : list nat := (λ e, tid (h e.2)) <$> l.

(** The sum of the load weights of the queued tasks. *)
Definition total_weight h l : Z :=
  foldr (λ e acc, load_weight (se (h e.2)) + acc)%Z 0%Z l.

(** What the queue relies on in a queued task. *)
Definition cfs_view (t : TaskStruct) : nat * Z := (tid t, vruntime (se t)).

(** A timeline entry agrees with its task and is not behind the queue's clock. *)
Definition entry_ok h rq (e : CfsKey * TaskRef) : Prop :=
  k_tid e.1 = tid (h e.2) ∧ k_vruntime e.1 = vruntime (se (h e.2)) ∧
  (min_vruntime rq ≤ k_vruntime e.1)%Z.

(** The queue [rq] holds exactly the entries [l]: no thread twice, counters in
    step with the content. *)
Record cfs_inv h rq l : Prop := {
  ci_models : oq_models (tasks_timeline rq) l;
  ci_tids : NoDup (tids h l);
  ci_entries : Forall (entry_ok h rq) l;
  ci_nr : nr_queued rq = length l;
  ci_h_nr : h_nr_queued rq = length l;
}.

(** The load is the sum of the queued weights, and that sum fits the counter. *)
Definition load_ok h rq l : Prop :=
  weight (load rq) = total_weight h l ∧ (total_weight h l ≤ U64_MAX)%Z ∧
  Forall (λ e, 0 ≤ load_weight (se (h e.2)))%Z l.

(** The abstract queue: tasks by vruntime, first come first served among equals. *)
Definition fair l : list (Z * TaskRef) := (λ e, (k_vruntime e.1, e.2)) <$> l.

(** Enqueue numbers have not wrapped around. *)
Definition in_order rq l : Prop :=
  Forall (λ e, k_enqueue_order e.1 < enqueue_order rq)%Z l.

(** ** Lemmas *)

Lemma total_weight_perm h l l' : l ≡ₚ l' → total_weight h l = total_weight h l'.
Proof. unfold total_weight. induction 1; simpl; lia. Qed.

Lemma total_weight_nonneg h l :
  Forall (λ e, 0 ≤ load_weight (se (h e.2)))%Z l → (0 ≤ total_weight h l)%Z.
Proof. induction 1; simpl; lia. Qed.

Lemma total_weight_ext h h' l :
  Forall (λ e, load_weight (se (h' e.2)) = load_weight (se (h e.2))) l →
  total_weight h' l = total_weight h l.
Proof. induction 1; simpl; lia. Qed.

Lemma ord_le_vruntime (a b : CfsKey) : ord_le a b → (k_vruntime a ≤ k_vruntime b)%Z.
Proof.
  unfold ord_le. simpl. unfold CfsKey_cmp, then_with.
  destruct (Z.compare_spec (k_vruntime a) (k_vruntime b)); [lia..|done].
Qed.

Lemma models_head_vruntime q e l :
  oq_models q (e :: l) → Forall (λ e', k_vruntime e.1 ≤ k_vruntime e'.1)%Z l.
Proof.
  intros [_ Hall]%oq_models_sorted%StronglySorted_inv.
  eapply Forall_impl; [exact Hall|]. intros e' He. by apply ord_le_vruntime.
Qed.

Lemma cfs_inv_keys h rq l : cfs_inv h rq l → NoDup l.*1.
Proof.
  intros [_ Hnd He _ _]. apply (NoDup_fmap_1 k_tid). rewrite <-list_fmap_compose.
  erewrite (Forall_fmap_ext_1 (compose k_tid fst)); [exact Hnd|].
  eapply Forall_impl; [exact He|]. by intros e (? & _).
Qed.

(** Writes to other tasks, and to other fields, do not matter. *)
Lemma cfs_inv_heap h h' rq l :
  Forall (λ e, cfs_view (h' e.2) = cfs_view (h e.2)) l → cfs_inv h rq l → cfs_inv h' rq l.
Proof.
  intros Hv [Hm Hnd He Hn Hhn]. split; try done.
  - unfold tids. erewrite (Forall_fmap_ext_1 (λ e, tid (h' e.2)) (λ e, tid (h e.2))); [done|].
    eapply Forall_impl; [exact Hv|]. by intros e [= -> _].
  - rewrite Forall_forall in *. intros e Hin. specialize (Hv e Hin). specialize (He e Hin).
    injection Hv as H1 H2. unfold entry_ok. by rewrite H1, H2.
Qed.

(** Taking one entry out, with the clock moved no further than the rest. *)
Lemma cfs_inv_drop h rq l1 e l2 ld n hn m q :
  cfs_inv h rq (l1 ++ e :: l2) → oq_models q (l1 ++ l2) →
  n = length (l1 ++ l2) → hn = length (l1 ++ l2) →
  Forall (λ e', m ≤ k_vruntime e'.1)%Z (l1 ++ l2) →
  cfs_inv h (MkCfsRq ld n hn m q (exec_clock rq) (enqueue_order rq)) (l1 ++ l2).
Proof.
  intros [Hm Hnd He Hn Hhn] Hm' -> -> Hmin.
  assert (l1 ++ e :: l2 ≡ₚ e :: l1 ++ l2) as Hp by solve_perm.
  unfold tids in Hnd. rewrite Hp in Hnd, He. apply Forall_cons in He as [_ He].
  apply NoDup_cons in Hnd as [_ Hnd]. split; simpl; try done.
  rewrite Forall_forall in *. intros e' Hin. destruct (He e' Hin) as (? & ? & _).
  by split_and!; [..|apply Hmin].
Qed.

(** The load after an entry has left. *)
Lemma load_ok_drop h rq rq' l1 e l2 :
  load_ok h rq (l1 ++ e :: l2) →
  weight (load rq') = saturating_sub (weight (load rq)) (load_weight (se (h e.2))) →
  load_ok h rq' (l1 ++ l2).
Proof.
  intros (Hl & Hf & Hnn) Heq. assert (l1 ++ e :: l2 ≡ₚ e :: l1 ++ l2) as Hp by solve_perm.
  rewrite (total_weight_perm _ _ _ Hp) in Hl, Hf. rewrite Hp in Hnn. simpl in Hl, Hf.
  apply Forall_cons in Hnn as [He Hnn]. pose proof (total_weight_nonneg _ _ Hnn).
  split_and!; [|lia|done]. rewrite Heq. unfold saturating_sub. lia.
Qed.

(** ** Operations *)

Lemma cfs_inv_new h : cfs_inv h new [].
Proof. split; simpl; try done; [apply oq_new_spec|constructor]. Qed.

(** The head of a non-empty timeline bounds all of it from below. *)
Lemma clock_le_head rq q l m :
  oq_models q l → Forall (λ e, m ≤ k_vruntime e.1)%Z l →
  Forall (λ e, Z.max m (from_option k_vruntime m (fst <$> head l)) ≤ k_vruntime e.1)%Z l.
Proof.
  intros Hm Hall. destruct l as [|e l]; [done|]. simpl.
  pose proof (models_head_vruntime _ _ _ Hm) as Hh.
  apply Forall_cons in Hall as [He Hall]. constructor; [lia|].
  rewrite Forall_forall in *. intros e' Hin. specialize (Hall e' Hin). specialize (Hh e' Hin). lia.
Qed.

Lemma wp_cfs_enqueue h rq l r vr w :
  cfs_inv h rq l → tid (h r) ∉ tids h l →
  let v := Z.max vr (min_vruntime rq) in
  wp (enqueue h rq r vr w) (λ '(h', rq'),
    h' = upd_task h r (with_se (se_with_vruntime v)) ∧
    cfs_inv h' rq' (sorted_insert (MkCfsKey v (enqueue_order rq) (tid (h r))) r l) ∧
    (min_vruntime rq ≤ min_vruntime rq')%Z ∧
    enqueue_order rq' = wrapping_add (enqueue_order rq) 1 ∧
    weight (load rq') = saturating_add (weight (load rq)) w).
Proof.
  intros Hi Hnew v. unfold enqueue. fold v. cbv zeta.
  set (h' := upd_task h r (with_se (se_with_vruntime v))).
  assert (tid (h' r) = tid (h r)) as Htid by (by apply (upd_task_proj tid)).
  rewrite Htid. set (key := MkCfsKey _ _ _).
  assert (Forall (λ e, cfs_view (h' e.2) = cfs_view (h e.2)) l) as Hview.
  { apply Forall_forall. intros e He. unfold h'. rewrite upd_task_ne; [done|]. intros ->.
    destruct Hnew. by apply (list_elem_of_fmap_2 (λ e, tid (h e.2))). }
  destruct (cfs_inv_heap _ h' _ _ Hview Hi) as [Hm Hnd He Hn Hhn].
  assert (h' r = with_se (se_with_vruntime v) (h r)) as Hr by apply upd_task_eq.
  apply wp_bind. eapply wp_mono; [by apply oq_insert_spec|]. intros q Hq.
  apply wp_ret. rewrite (oq_first_key_spec _ _ Hq).
  pose proof (sorted_insert_perm key r l) as Hp.
  assert (Forall (λ e, min_vruntime rq ≤ k_vruntime e.1)%Z (sorted_insert key r l)) as Hmin.
  { rewrite Hp. constructor; [simpl; lia|]. eapply Forall_impl; [exact He|]. by intros e (_ & _ & ?). }
  split_and!; [done| |simpl; lia|done..].
  split; simpl; rewrite ?length_sorted_insert; try done; try lia.
  - unfold tids. rewrite Hp. simpl. apply NoDup_cons. split; [|done]. rewrite Htid.
    erewrite (Forall_fmap_ext_1 _ (λ e, tid (h e.2))); [exact Hnew|].
    eapply Forall_impl; [exact Hview|]. by intros e [= -> _].
  - pose proof (clock_le_head rq _ _ _ Hq Hmin) as Hc.
    assert (Forall (λ e, k_tid e.1 = tid (h' e.2) ∧ k_vruntime e.1 = vruntime (se (h' e.2)))
      (sorted_insert key r l)) as Hok.
    { rewrite Hp. constructor; [simpl; by rewrite Hr|].
      eapply Forall_impl; [exact He|]. by intros e (? & ? & _). }
    destruct (sorted_insert key r l) as [|e0 l0] eqn:Hsi; [constructor|].
    rewrite Forall_forall in *. intros e Hin. destruct (Hok e Hin) as (? & ?).
    split_and!; [done..|]. by apply Hc.
Qed.

(** The load after an entry has joined. *)
Lemma load_ok_insert h rq rq' l r v k :
  load_ok h rq l → r ∉ l.*2 → (0 ≤ load_weight (se (h r)))%Z →
  (total_weight h l + load_weight (se (h r)) ≤ U64_MAX)%Z →
  weight (load rq') = saturating_add (weight (load rq)) (load_weight (se (h r))) →
  load_ok (upd_task h r (with_se (se_with_vruntime v))) rq' (sorted_insert k r l).
Proof.
  intros (Hl & Hf & Hnn) Hni Hw Hfit Heq. set (h' := upd_task _ _ _).
  assert (∀ r', load_weight (se (h' r')) = load_weight (se (h r'))) as Hpw
    by (intros; by apply (upd_task_proj (λ t, load_weight (se t)))).
  assert (total_weight h' (sorted_insert k r l) = total_weight h l + load_weight (se (h r)))%Z as Ht.
  { rewrite (total_weight_perm _ _ _ (sorted_insert_perm k r l)). simpl.
    rewrite Hpw, (total_weight_ext h h'); [lia|]. by apply Forall_forall. }
  pose proof (total_weight_nonneg _ _ Hnn). unfold load_ok. rewrite Ht, Heq, Hl.
  split_and!; [unfold saturating_add; lia|done|]. rewrite sorted_insert_perm. constructor.
  - simpl. by rewrite Hpw.
  - eapply Forall_impl; [exact Hnn|]. intros e He. simpl. by rewrite Hpw.
Qed.

Lemma wp_cfs_pop_next h rq l :
  cfs_inv h rq l →
  wp (pop_next h rq) (λ '(res, rq'),
    res = snd <$> head l ∧ cfs_inv h rq' (tail l) ∧
    enqueue_order rq' = enqueue_order rq ∧
    min_vruntime rq' = from_option (λ e, k_vruntime e.1) (min_vruntime rq) (head l) ∧
    (load_ok h rq l → load_ok h rq' (tail l))).
Proof.
  intros Hi. pose proof (cfs_inv_keys _ _ _ Hi) as Hnd. pose proof (ci_models _ _ _ Hi) as Hm.
  unfold pop_next. apply wp_bind. eapply wp_mono; [by apply oq_pop_first_unique|].
  intros [res q] [-> Hq]. destruct l as [|[k r] l]; simpl.
  { split_and!; [done| |done..]. destruct Hi. by split. }
  pose proof (ci_entries _ _ _ Hi) as [(_ & Hv & Hmn) Hall]%Forall_cons. simpl in *.
  pose proof (models_head_vruntime _ _ _ Hm) as Hh. rewrite (oq_first_key_spec _ _ Hq).
  assert (from_option (λ key, Z.min (k_vruntime key) (vruntime (se (h r)))) (vruntime (se (h r)))
            (fst <$> head l) = k_vruntime k) as ->.
  { destruct l as [|e l]; simpl; [done|]. apply Forall_cons in Hh as [Hh _]. simpl in Hh. lia. }
  rewrite Z.max_r by done. split_and!; [done| |done..|].
  - apply (cfs_inv_drop h rq [] (k, r) l); simpl; [done..| | |done].
    + rewrite (ci_nr _ _ _ Hi). simpl. lia.
    + rewrite (ci_h_nr _ _ _ Hi). simpl. lia.
  - intros Hl. by apply (load_ok_drop h rq _ [] (k, r) l).
Qed.

Lemma cfs_inv_min h rq l :
  cfs_inv h rq l → Forall (λ e, min_vruntime rq ≤ k_vruntime e.1)%Z l.
Proof. intros Hi. eapply Forall_impl; [by apply (ci_entries h)|]. by intros e (_ & _ & ?). Qed.

Lemma wp_cfs_remove_task h rq l i :
  cfs_inv h rq l →
  wp (remove_task h rq i) (λ '(res, rq'),
    enqueue_order rq' = enqueue_order rq ∧ min_vruntime rq' = min_vruntime rq ∧
    match res with
    | None => (i ∉ tids h l) ∧ cfs_inv h rq' l
    | Some r => tid (h r) = i ∧ ∃ k l1 l2, l = l1 ++ (k, r) :: l2 ∧ cfs_inv h rq' (l1 ++ l2) ∧
        (load_ok h rq l → load_ok h rq' (l1 ++ l2))
    end).
Proof.
  intros Hi. pose proof (cfs_inv_keys _ _ _ Hi) as Hnd. pose proof (ci_models _ _ _ Hi) as Hm.
  unfold remove_task. apply wp_bind. eapply wp_mono; [by apply oq_remove_where_unique|].
  intros [[r|] q]; simpl.
  - intros (Htid%Nat.eqb_eq & k & l1 & l2 & -> & Hq). split_and!; [done..|].
    exists k, l1, l2. pose proof (cfs_inv_min _ _ _ Hi) as Hmin. split_and!; [done| |].
    + apply (cfs_inv_drop h rq l1 (k, r) l2); [done..| | |].
      * rewrite (ci_nr _ _ _ Hi), !length_app. simpl. lia.
      * rewrite (ci_h_nr _ _ _ Hi), !length_app. simpl. lia.
      * rewrite Forall_app, Forall_cons in Hmin. rewrite Forall_app. naive_solver.
    + intros Hl. by apply (load_ok_drop h rq _ l1 (k, r) l2).
  - intros [Hq Hall]. split_and!; [done..| |].
    + intros (e & -> & He)%list_elem_of_fmap. rewrite Forall_forall in Hall.
      specialize (Hall e He). by apply Nat.eqb_neq in Hall.
    + destruct Hi. by split.
Qed.

Lemma wp_cfs_dequeue h rq l i vr w :
  cfs_inv h rq l →
  wp (dequeue h rq i vr w) (λ '(res, rq'),
    match res with
    | None => Forall (λ e, ¬ (tid (h e.2) = i ∧ vruntime (se (h e.2)) = vr)) l ∧ cfs_inv h rq' l
    | Some r => tid (h r) = i ∧ vruntime (se (h r)) = vr ∧
        ∃ k l1 l2, l = l1 ++ (k, r) :: l2 ∧ cfs_inv h rq' (l1 ++ l2)
    end).
Proof.
  intros Hi. pose proof (cfs_inv_keys _ _ _ Hi) as Hnd. pose proof (ci_models _ _ _ Hi) as Hm.
  unfold dequeue. apply wp_bind. eapply wp_mono; [by apply oq_remove_where_unique|].
  intros [[r|] q]; simpl.
  - intros ([Htid%Nat.eqb_eq Hvr%Z.eqb_eq]%andb_true_iff & k & l1 & l2 & -> & Hq).
    rewrite (ci_nr _ _ _ Hi), (ci_h_nr _ _ _ Hi), length_app. simpl.
    rewrite Nat.add_succ_r. simpl. apply wp_ret. split_and!; [done..|]. exists k, l1, l2. split; [done|].
    pose proof (cfs_inv_min _ _ _ Hi) as Hmin.
    apply (cfs_inv_drop h rq l1 (k, r) l2); [done..|by rewrite length_app|by rewrite length_app|].
    rewrite Forall_app, Forall_cons in Hmin. rewrite Forall_app. naive_solver.
  - intros [Hq Hall]. apply wp_ret. split; [|destruct Hi; by split].
    eapply Forall_impl; [exact Hall|]. intros e He%andb_false_iff [H1 H2].
    by destruct He as [?%Nat.eqb_neq|?%Z.eqb_neq].
Qed.

Lemma cfs_inv_advance h rq l : cfs_inv h rq l → cfs_inv h (advance_min_vruntime rq) l.
Proof.
  intros Hi. unfold advance_min_vruntime. pose proof (ci_models _ _ _ Hi) as Hm.
  rewrite (oq_first_key_spec _ _ Hm). destruct l as [|e l]; simpl; [done|].
  pose proof (models_head_vruntime _ _ _ Hm) as Hh. destruct Hi as [? ? He ? ?].
  split; try done. rewrite Forall_forall in *. intros e' Hin.
  destruct (He e' Hin) as (? & ? & ?). split_and!; [done..|]. simpl.
  apply elem_of_cons in Hin as [->|Hin]; [lia|]. specialize (Hh e' Hin). lia.
Qed.

(** ** Refinement to the fair queue *)

(** A fresh key goes behind every entry with the same vruntime. *)
Lemma fair_insert rq l v i r :
  in_order rq l →
  fair (sorted_insert (MkCfsKey v (enqueue_order rq) i) r l) = sorted_insert v r (fair l).
Proof.
  induction 1 as [|[k r'] l Hk _ IH]; simpl in *; [done|].
  assert (ord_lt (MkCfsKey v (enqueue_order rq) i) k = ord_lt v (k_vruntime k)) as ->.
  { unfold ord_lt. simpl. unfold CfsKey_cmp, then_with. simpl.
    destruct (Z.compare_spec v (k_vruntime k)); [|done..].
    by rewrite (proj2 (Z.compare_gt_iff _ _)). }
  destruct (ord_lt v (k_vruntime k)); simpl; [done|]. by rewrite <-IH.
Qed.

Lemma in_order_insert rq rq' l v i r :
  in_order rq l → (0 ≤ enqueue_order rq < U64_MAX)%Z →
  enqueue_order rq' = wrapping_add (enqueue_order rq) 1 →
  in_order rq' (sorted_insert (MkCfsKey v (enqueue_order rq) i) r l).
Proof.
  intros Ho Hb Heq. unfold in_order.
  assert (enqueue_order rq' = enqueue_order rq + 1)%Z as ->.
  { rewrite Heq. unfold wrapping_add. apply Z.mod_small. unfold U64_MAX in Hb. lia. }
  rewrite sorted_insert_perm. constructor; [simpl; lia|].
  eapply Forall_impl; [exact Ho|]. simpl. lia.
Qed.

Lemma in_order_sublist rq rq' l l' :
  enqueue_order rq' = enqueue_order rq → sublist l' l → in_order rq l → in_order rq' l'.
Proof.
  intros Heq Hs Ho. unfold in_order. rewrite Heq.
  unfold in_order in Ho. rewrite Forall_forall in *. intros e He. by eapply Ho, elem_of_sublist.
Qed.

End cfs.

(** ** Properties *)

Module CfsProps.
Section props.
Context {Q : Type} `{!OrderedQueue CfsKey TaskRef Q}.
Implicit Types (h : heap) (rq : CfsRq (Q := Q)) (r : TaskRef) (l : list (CfsKey * TaskRef)).

(** Enqueueing a thread that is not queued succeeds; it raises the thread's
    vruntime to the queue's [min_vruntime] if it lags behind, stores it in the
    task, and inserts the thread into the fair queue behind every thread with the
    same or a smaller vruntime; the counters and the invariant are kept and
    [min_vruntime] does not decrease. *)
Theorem enqueue_fair h rq l r vr w :
  cfs_inv h rq l → in_order rq l → tid (h r) ∉ tids h l →
  (0 ≤ enqueue_order rq < U64_MAX)%Z →
  ∃ rq' l',
    let v := Z.max vr (min_vruntime rq) in
    let h' := upd_task h r (with_se (se_with_vruntime v)) in
    enqueue h rq r vr w = Some (h', rq') ∧
    cfs_inv h' rq' l' ∧ in_order rq' l' ∧
    fair l' = sorted_insert v r (fair l) ∧ (min_vruntime rq ≤ min_vruntime rq')%Z.
Proof.
  intros Hi Ho Hnew Hb.
  destruct (wp_elim _ _ (wp_cfs_enqueue h rq l r vr w Hi Hnew))
    as ([h' rq'] & Heq & -> & Hi' & Hmin & Hord & _).
  eexists rq', _. split_and!; [done..| | |done].
  - by eapply in_order_insert.
  - by apply fair_insert.
Qed.

(** [pop_next] takes the front of the fair queue, the task [pick_next] names:
    one with the least vruntime and, among those, the one that waited longest;
    it keeps the invariant, and [min_vruntime] does not decrease. *)
Theorem pop_next_fair h rq l :
  cfs_inv h rq l → in_order rq l →
  ∃ rq', pop_next h rq = Some (pick_next rq, rq') ∧
    pick_next rq = snd <$> head (fair l) ∧ cfs_inv h rq' (tail l) ∧ in_order rq' (tail l) ∧
    (min_vruntime rq ≤ min_vruntime rq')%Z ∧
    match fair l with [] => True | e :: l' => Forall (λ e', e.1 ≤ e'.1)%Z l' end.
Proof.
  intros Hi Ho. destruct (wp_elim _ _ (wp_cfs_pop_next h rq l Hi)) as ([res rq'] & Heq & -> & Hi' & Hord & Hmin & _).
  pose proof (ci_models _ _ _ Hi) as Hm. pose proof (cfs_inv_min _ _ _ Hi) as Hlow.
  assert (pick_next rq = snd <$> head l) as Hpick by (by apply oq_first_spec).
  exists rq'. rewrite Hpick. split_and!; [done| |done| | |].
  - by destruct l.
  - eapply in_order_sublist; [done| |exact Ho]. destruct l; simpl; [done|by apply sublist_cons].
  - rewrite Hmin. destruct l as [|e l]; simpl; [lia|]. by apply Forall_cons in Hlow as [? _].
  - destruct l as [|e l]; simpl; [done|]. apply Forall_fmap. by eapply models_head_vruntime.
Qed.

(** [remove_task] takes the thread out when it is queued, and only then; the
    other threads keep their order and the invariant holds. *)
Theorem remove_task_exact h rq l i :
  cfs_inv h rq l →
  ∃ res rq', remove_task h rq i = Some (res, rq') ∧
    match res with
    | None => i ∉ tids h l
    | Some r => tid (h r) = i ∧ r ∈ l.*2
    end ∧
    ∃ l', cfs_inv h rq' l' ∧ sublist l' l ∧ tids h l' = filter (λ j, j ≠ i) (tids h l).
Proof.
  intros Hi. destruct (wp_elim _ _ (wp_cfs_remove_task h rq l i Hi)) as ([res rq'] & Heq & _ & _ & Hr).
  exists res, rq'. split; [done|]. pose proof (ci_tids _ _ _ Hi) as Hnd. destruct res as [r|].
  - destruct Hr as (Htid & k & l1 & l2 & -> & Hi' & _). split.
    { split; [done|]. apply (list_elem_of_fmap_2 snd _ (k, r)). set_solver. }
    exists (l1 ++ l2). split_and!; [done|apply sublist_app; [done|by apply sublist_cons]|].
    unfold tids in *. rewrite !fmap_app in *. simpl in *. subst i.
    apply NoDup_app in Hnd as (_ & H1 & [H2 _]%NoDup_cons).
    rewrite filter_app, filter_cons_False by naive_solver.
    rewrite !filter_all; [done|..]; apply Forall_forall; intros j Hj ->; [done|].
    apply (H1 _ Hj). by left.
  - destruct Hr as [Hni Hi']. split; [done|]. exists l. split_and!; [done..|].
    rewrite filter_all; [done|]. apply Forall_forall. by intros j Hj ->.
Qed.
(** As long as the sum of the weights fits in 64 bits, the published load is
    exactly the sum of the load weights of the queued tasks: enqueueing a task
    with its own weight and taking the next task both keep it so. *)
Theorem load_tracks_weights h rq l r vr :
  cfs_inv h rq l → load_ok h rq l → tid (h r) ∉ tids h l →
  (0 ≤ load_weight (se (h r)))%Z → (total_weight h l + load_weight (se (h r)) ≤ U64_MAX)%Z →
  (∃ h' rq' l', enqueue h rq r vr (load_weight (se (h r))) = Some (h', rq') ∧
     cfs_inv h' rq' l' ∧ load_ok h' rq' l' ∧ length l' = S (length l)) ∧
  (∃ res rq', pop_next h rq = Some (res, rq') ∧ load_ok h rq' (tail l)).
Proof.
  intros Hi Hl Hnew Hw Hfit. split.
  - destruct (wp_elim _ _ (wp_cfs_enqueue h rq l r vr (load_weight (se (h r))) Hi Hnew))
      as ([h' rq'] & Heq & -> & Hi' & _ & _ & Hload).
    eexists _, rq', _. split_and!; [done..| |apply length_sorted_insert].
    eapply load_ok_insert; [done| |done..]. intros (e & -> & He)%list_elem_of_fmap.
    destruct Hnew. by apply (list_elem_of_fmap_2 (λ e, tid (h e.2))).
  - destruct (wp_elim _ _ (wp_cfs_pop_next h rq l Hi)) as ([res rq'] & Heq & _ & _ & _ & _ & Hl').
    exists res, rq'. split; [done|]. by apply Hl'.
Qed.
End props.

(** ** Witnesses: the queue after enqueueing threads 1 and 2 at vruntime 5 *)

Definition CfsTree := CfsRq (Q := RbRootCached CfsKey TaskRef).

Definition demo_enqueue (h : heap) (rq : CfsTree) (r : TaskRef) : heap * CfsTree :=
  default (h, rq) (enqueue h rq r 5 1024).

Definition demo1 : heap * CfsTree := demo_enqueue normal_task new 1.

Definition demo2 : heap * CfsTree := demo_enqueue demo1.1 demo1.2 2.

Definition demo_entries : list (CfsKey * TaskRef) := [(MkCfsKey 5 0 1, 1); (MkCfsKey 5 1 2, 2)].

Lemma demo2_inv : cfs_inv demo2.1 demo2.2 demo_entries ∧ in_order demo2.2 demo_entries.
Proof.
  assert (cfs_inv demo1.1 demo1.2 [(MkCfsKey 5 0 1, 1)]) as H1.
  { pose proof (wp_cfs_enqueue normal_task (new : CfsTree) [] 1 5 1024 (cfs_inv_new _)) as Hw.
    destruct (wp_elim _ _ (Hw ltac:(set_solver))) as ([h rq] & Heq & _ & Hi & _).
    unfold demo1, demo_enqueue. rewrite Heq. exact Hi. }
  split.
  - pose proof (wp_cfs_enqueue _ _ _ 2 5 1024 H1) as Hw.
    destruct (wp_elim _ _ (Hw ltac:(by apply (bool_decide_unpack _); vm_compute)))
      as ([h rq] & Heq & _ & Hi & _).
    unfold demo2, demo_enqueue. rewrite Heq. exact Hi.
  - by repeat constructor.
Qed.

Lemma enqueue_fair_witness :
  ∃ rq' l',
    enqueue demo2.1 demo2.2 3 7 1024 =
      Some (upd_task demo2.1 3 (with_se (se_with_vruntime 7)), rq') ∧
    fair l' = [(5%Z, 1); (5%Z, 2); (7%Z, 3)].
Proof.
  destruct (enqueue_fair demo2.1 demo2.2 demo_entries 3 7 1024) as (rq' & l' & Heq & _ & _ & Hf & _).
  - apply demo2_inv.
  - apply demo2_inv.
  - apply (bool_decide_unpack _). vm_compute. exact I.
  - done.
  - exists rq', l'. split; [exact Heq|exact Hf].
Defined.

Lemma load_tracks_weights_witness :
  (∃ h' rq' l', enqueue demo2.1 demo2.2 3 7 1024 = Some (h', rq') ∧
     cfs_inv h' rq' l' ∧ load_ok h' rq' l' ∧ length l' = 3) ∧
  (∃ res rq', pop_next demo2.1 demo2.2 = Some (res, rq') ∧ load_ok demo2.1 rq' (tail demo_entries)).
Proof.
  apply (load_tracks_weights demo2.1 demo2.2 demo_entries 3 7).
  - apply demo2_inv.
  - split; [reflexivity|split; [vm_compute; discriminate|]]. repeat constructor; vm_compute; discriminate.
  - apply (bool_decide_unpack _). vm_compute. exact I.
  - vm_compute. discriminate.
  - vm_compute. discriminate.
Defined.

Lemma pop_next_fair_witness :
  ∃ rq', pop_next demo2.1 demo2.2 = Some (Some 1, rq') ∧ cfs_inv demo2.1 rq' [(MkCfsKey 5 1 2, 2)].
Proof.
  destruct (pop_next_fair demo2.1 demo2.2 demo_entries) as (rq' & Heq & Hp & Hi & _).
  - apply demo2_inv.
  - apply demo2_inv.
  - exists rq'. split; [rewrite Heq, Hp; reflexivity|exact Hi].
Defined.

Lemma remove_task_exact_witness :
  ∃ res rq', remove_task demo2.1 demo2.2 2 = Some (res, rq') ∧
    ∃ l', cfs_inv demo2.1 rq' l' ∧ tids demo2.1 l' = [1].
Proof.
  destruct (remove_task_exact demo2.1 demo2.2 demo_entries 2) as (res & rq' & Heq & _ & l' & Hi & _ & Ht).
  - apply demo2_inv.
  - exists res, rq'. split; [exact Heq|]. exists l'. split; [exact Hi|]. rewrite Ht. reflexivity.
Defined.

End CfsProps.
