(* ===== verification/DeadlineRq.v ===== *)
(** * The deadline run queue (os/src/process/scheduler/deadline_rq.rs)

    Two ordered queues keyed by (absolute deadline, tid): the runnable deadline
    tasks, and the subset that may be pushed to other CPUs. *)

From S2P Require Import Prelude OrderedQueue RbArena RbTree Task.

(** [struct DeadlineKey]; its derived [Ord] compares the fields in turn. *)
Record DeadlineKey := MkDeadlineKey { k_deadline : Z; k_tid : nat }.

Definition DeadlineKey_cmp (a b : DeadlineKey) : comparison :=
  then_with (Z.compare (k_deadline a) (k_deadline b)) (Nat.compare (k_tid a) (k_tid b)).

Definition DeadlineKey_tuple (k : DeadlineKey) : Z * nat := (k_deadline k, k_tid k).

#[export] Instance DeadlineKey_tuple_inj : Inj (=) (=) DeadlineKey_tuple.
Proof. by intros [] [] [= -> ->]. Qed.

#[export] Instance DeadlineKey_ord : RustOrd DeadlineKey :=
  ord_via DeadlineKey_tuple DeadlineKey_cmp (λ a b, eq_refl).

Section deadline.
Context {Q : Type} `{!OrderedQueue DeadlineKey TaskRef Q}.

(** [struct DeadlineRq] *)
Record DeadlineRq := MkDeadlineRq {
  root : Q;
  pushable_dl_tasks_root : Q;
  dl_nr_running : nat;
  running_bw : Z;
  this_bw : Z;
  earliest_dl_curr : Z;
  earliest_dl_next : Z;
  overloaded : bool;
}.

Implicit Types (h : heap) (rq : DeadlineRq) (r : TaskRef) (l : list (DeadlineKey * TaskRef)).

(** [DeadlineRq::new] *)
Definition new : DeadlineRq := MkDeadlineRq oq_new oq_new 0 0 0 U64_MAX U64_MAX false.

(** The queue with a new root, count and next deadline. *)
Definition with_root (q : Q) (n : nat) (next : Z) rq : DeadlineRq :=
  MkDeadlineRq q (pushable_dl_tasks_root rq) n (running_bw rq) (this_bw rq)
    (earliest_dl_curr rq) next (overloaded rq).

(** The queue with a new pushable tree; [overloaded] follows it. *)
Definition with_pushable (q : Q) rq : DeadlineRq :=
  MkDeadlineRq (root rq) q (dl_nr_running rq) (running_bw rq) (this_bw rq)
    (earliest_dl_curr rq) (earliest_dl_next rq) (negb (oq_is_empty q)).

(** [DeadlineRq::enqueue] *)
Definition enqueue h rq (task : TaskRef) (deadline : Z) : option DeadlineRq :=
  q ← oq_insert (root rq) (MkDeadlineKey deadline (tid (h task))) task;
  Some (with_root q (S (dl_nr_running rq)) (earliest_dl_next rq) rq).

(** [DeadlineRq::dequeue] *)
Definition dequeue rq (i : nat) (deadline : Z) : option (option TaskRef * DeadlineRq) :=
  '(task, q) ← oq_remove (root rq) (MkDeadlineKey deadline i);
  n ← match task with Some _ => nat_dec (dl_nr_running rq) | None => Some (dl_nr_running rq) end;
  Some (task, with_root q n (earliest_dl_next rq) rq).

(** [DeadlineRq::pick_next] *)
Definition pick_next rq : option TaskRef := oq_first (root rq).

(** [DeadlineRq::pop_next] *)
Definition pop_next rq : option (option TaskRef * DeadlineRq) :=
  '(task, q) ← oq_pop_first (root rq);
  match task with
  | None => Some (None, with_root q (dl_nr_running rq) (earliest_dl_next rq) rq)
  | Some task =>
    Some (Some task,
      with_root q (dl_nr_running rq - 1) (from_option k_deadline U64_MAX (oq_first_key q)) rq)
  end.

(** [DeadlineRq::remove_task] *)
Definition remove_task h rq (i : nat) : option (option TaskRef * DeadlineRq) :=
  '(task, q) ← oq_remove_where (root rq) (λ r, tid (h r) =? i);
  match task with
  | None => Some (None, with_root q (dl_nr_running rq) (earliest_dl_next rq) rq)
  | Some task => Some (Some task, with_root q (dl_nr_running rq - 1) (earliest_dl_next rq) rq)
  end.

(** [DeadlineRq::enqueue_pushable] *)
Definition enqueue_pushable h rq (task : TaskRef) (deadline : Z) : option DeadlineRq :=
  q ← oq_insert (pushable_dl_tasks_root rq) (MkDeadlineKey deadline (tid (h task))) task;
  Some (with_pushable q rq).

(** [DeadlineRq::dequeue_pushable] *)
Definition dequeue_pushable rq (i : nat) (deadline : Z) : option (option TaskRef * DeadlineRq) :=
  '(task, q) ← oq_remove (pushable_dl_tasks_root rq) (MkDeadlineKey deadline i);
  Some (task, with_pushable q rq).

(** ** Invariant *)

Definition tids h l : list nat := (λ e, tid (h e.2)) <$> l.

(** The queue holds exactly the entries [l], and the pushable tree exactly [lp]:
    no thread twice, keys carry the tids of their tasks, counter and overload
    flag in step. *)
Record dl_inv h rq l lp : Prop := {
  di_models : oq_models (root rq) l;
  di_tids : NoDup (tids h l);
  di_keys : Forall (λ e, k_tid e.1 = tid (h e.2)) l;
  di_nr : dl_nr_running rq = length l;
  di_pushable : oq_models (pushable_dl_tasks_root rq) lp;
  di_overloaded : overloaded rq = negb (bool_decide (lp = []));
}.

Lemma dl_inv_new h : dl_inv h new [] [].
Proof. split; simpl; try done; [apply oq_new_spec|constructor|apply oq_new_spec]. Qed.

Lemma dl_inv_heap h h' rq l lp :
  Forall (λ e, tid (h' e.2) = tid (h e.2)) l → dl_inv h rq l lp → dl_inv h' rq l lp.
Proof.
  intros Hv [? Hnd Hk ? ? ?]. split; try done.
  - unfold tids. by erewrite (Forall_fmap_ext_1 (λ e, tid (h' e.2)) (λ e, tid (h e.2))).
  - rewrite Forall_forall in *. intros e He. rewrite (Hv e He). by apply Hk.
Qed.

Lemma dl_inv_keys h rq l lp : dl_inv h rq l lp → NoDup l.*1.
Proof.
  intros [_ Hnd Hk _ _ _]. apply (NoDup_fmap_1 k_tid). rewrite <-list_fmap_compose.
  by erewrite (Forall_fmap_ext_1 (compose k_tid fst)).
Qed.

Lemma ord_le_deadline (a b : DeadlineKey) : ord_le a b → (k_deadline a ≤ k_deadline b)%Z.
Proof.
  unfold ord_le. simpl. unfold DeadlineKey_cmp, then_with.
  destruct (Z.compare_spec (k_deadline a) (k_deadline b)); [lia..|done].
Qed.

Lemma dl_inv_drop h rq l1 e l2 lp q n next :
  dl_inv h rq (l1 ++ e :: l2) lp → oq_models q (l1 ++ l2) → n = length (l1 ++ l2) →
  dl_inv h (with_root q n next rq) (l1 ++ l2) lp.
Proof.
  intros [_ Hnd Hk _ Hp Ho] Hq ->. assert (l1 ++ e :: l2 ≡ₚ e :: l1 ++ l2) as Hperm by solve_perm.
  unfold tids in Hnd. rewrite Hperm in Hnd, Hk.
  apply NoDup_cons in Hnd as [_ Hnd]. apply Forall_cons in Hk as [_ Hk]. by split.
Qed.

Lemma wp_dl_enqueue h rq l lp r d :
  dl_inv h rq l lp → tid (h r) ∉ tids h l →
  wp (enqueue h rq r d) (λ rq', dl_inv h rq' (sorted_insert (MkDeadlineKey d (tid (h r))) r l) lp).
Proof.
  intros [Hm Hnd Hk Hn Hp Ho] Hnew. unfold enqueue. apply wp_bind.
  eapply wp_mono; [by apply oq_insert_spec|]. intros q Hq. apply wp_ret.
  split; simpl; rewrite ?length_sorted_insert; try done.
  - unfold tids. rewrite sorted_insert_perm. by apply NoDup_cons.
  - rewrite sorted_insert_perm. by constructor.
  - by rewrite Hn.
Qed.

Lemma wp_dl_pop_next h rq l lp :
  dl_inv h rq l lp →
  wp (pop_next rq) (λ '(res, rq'),
    res = snd <$> head l ∧ dl_inv h rq' (tail l) lp ∧
    (l ≠ [] → earliest_dl_next rq' = from_option (λ e, k_deadline e.1) U64_MAX (head (tail l)))).
Proof.
  intros Hi. unfold pop_next. apply wp_bind.
  eapply wp_mono; [apply oq_pop_first_unique; [by apply (di_models h rq l lp)|by eapply dl_inv_keys]|].
  intros [res q] [-> Hq]. destruct l as [|e l]; simpl.
  - split_and!; [done| |done]. destruct Hi. by split.
  - split_and!; [done| |].
    + apply (dl_inv_drop h rq [] e l); [done..|]. rewrite (di_nr _ _ _ _ Hi). simpl. lia.
    + intros _. rewrite (oq_first_key_spec _ _ Hq). by destruct l.
Qed.

Lemma wp_dl_remove_task h rq l lp i :
  dl_inv h rq l lp →
  wp (remove_task h rq i) (λ '(res, rq'),
    match res with
    | None => (i ∉ tids h l) ∧ dl_inv h rq' l lp
    | Some r => tid (h r) = i ∧ ∃ k l1 l2, l = l1 ++ (k, r) :: l2 ∧ dl_inv h rq' (l1 ++ l2) lp
    end).
Proof.
  intros Hi. unfold remove_task. apply wp_bind.
  eapply wp_mono; [apply oq_remove_where_unique; [by apply (di_models h rq l lp)|by eapply dl_inv_keys]|].
  intros [[r|] q]; simpl.
  - intros (Htid%Nat.eqb_eq & k & l1 & l2 & -> & Hq). split; [done|]. exists k, l1, l2. split; [done|].
    apply (dl_inv_drop h rq l1 (k, r) l2); [done..|].
    rewrite (di_nr _ _ _ _ Hi), !length_app. simpl. lia.
  - intros [Hq Hall]. split.
    + intros (e & -> & He)%list_elem_of_fmap. rewrite Forall_forall in Hall.
      specialize (Hall e He). by apply Nat.eqb_neq in Hall.
    + destruct Hi. by split.
Qed.

Lemma wp_dl_dequeue h rq l lp k r :
  dl_inv h rq l lp → (k, r) ∈ l →
  wp (dequeue rq (k_tid k) (k_deadline k)) (λ '(res, rq'),
    res = Some r ∧ ∃ l1 l2, l = l1 ++ (k, r) :: l2 ∧ dl_inv h rq' (l1 ++ l2) lp).
Proof.
  intros Hi Hin. unfold dequeue. replace (MkDeadlineKey (k_deadline k) (k_tid k)) with k by (by destruct k).
  apply wp_bind. eapply wp_mono; [apply oq_remove_unique; [by apply (di_models h rq l lp)|by eapply dl_inv_keys|done]|].
  intros [res q] (-> & l1 & l2 & -> & Hq). rewrite (di_nr _ _ _ _ Hi), length_app. simpl.
  rewrite Nat.add_succ_r. simpl. apply wp_ret. split; [done|]. exists l1, l2. split; [done|].
  apply (dl_inv_drop h rq l1 (k, r) l2); [done..|]. by rewrite length_app.
Qed.

Lemma wp_dl_enqueue_pushable h rq l lp r d :
  dl_inv h rq l lp →
  wp (enqueue_pushable h rq r d) (λ rq',
    dl_inv h rq' l (sorted_insert (MkDeadlineKey d (tid (h r))) r lp)).
Proof.
  intros [Hm Hnd Hk Hn Hp Ho]. unfold enqueue_pushable. apply wp_bind.
  eapply wp_mono; [by apply oq_insert_spec|]. intros q Hq. apply wp_ret. split; try done.
  simpl. by rewrite (oq_is_empty_spec _ _ Hq).
Qed.

Lemma wp_dl_dequeue_pushable h rq l lp i d :
  dl_inv h rq l lp →
  wp (dequeue_pushable rq i d) (λ '(res, rq'), ∃ lp',
    dl_inv h rq' l lp' ∧ removed (MkDeadlineKey d i) lp res lp').
Proof.
  intros [Hm Hnd Hk Hn Hp Ho]. unfold dequeue_pushable. apply wp_bind.
  eapply wp_mono; [by apply oq_remove_spec|]. intros [res q] (lp' & Hq & Hr). apply wp_ret.
  exists lp'. split; [|done]. split; try done. simpl. by rewrite (oq_is_empty_spec _ _ Hq).
Qed.

End deadline.

(** ** Properties *)

Module DeadlineProps.
Section props.
Context {Q : Type} `{!OrderedQueue DeadlineKey TaskRef Q}.
Implicit Types (h : heap) (rq : DeadlineRq (Q := Q)) (r : TaskRef) (l : list (DeadlineKey * TaskRef)).

(** Earliest deadline first: [pop_next] takes the task [pick_next] names, one
    with the earliest absolute deadline of the queue; it keeps the invariant and
    records the deadline of the next task, or infinity when none is left. *)
Theorem pop_next_edf h rq l lp :
  dl_inv h rq l lp →
  ∃ rq', pop_next rq = Some (pick_next rq, rq') ∧ dl_inv h rq' (tail l) lp ∧
    match l with
    | [] => pick_next rq = None
    | e :: l' =>
      pick_next rq = Some e.2 ∧ Forall (λ e', k_deadline e.1 ≤ k_deadline e'.1)%Z l' ∧
      earliest_dl_next rq' = from_option (λ e, k_deadline e.1) U64_MAX (head l')
    end.
Proof.
  intros Hi. destruct (wp_elim _ _ (wp_dl_pop_next h rq l lp Hi)) as ([res rq'] & Heq & -> & Hi' & Hn).
  pose proof (di_models _ _ _ _ Hi) as Hm.
  assert (pick_next rq = snd <$> head l) as Hp by (by apply oq_first_spec).
  exists rq'. rewrite Hp. split_and!; [done..|]. destruct l as [|e l]; [done|].
  split_and!; [done| |by apply Hn].
  apply oq_models_sorted, StronglySorted_inv in Hm as [_ Hall].
  eapply Forall_impl; [exact Hall|]. intros e' He. by apply ord_le_deadline.
Qed.

(** Enqueueing and removing keep the deadline queue well formed: a thread that
    is not queued is inserted in deadline order, and removing it by its thread id
    afterwards gives it back and restores the queue's content. *)
Theorem enqueue_remove_roundtrip h rq l lp r d :
  dl_inv h rq l lp → tid (h r) ∉ tids h l →
  ∃ rq' rq'', enqueue h rq r d = Some rq' ∧
    dl_inv h rq' (sorted_insert (MkDeadlineKey d (tid (h r))) r l) lp ∧
    remove_task h rq' (tid (h r)) = Some (Some r, rq'') ∧ dl_inv h rq'' l lp.
Proof.
  intros Hi Hnew. destruct (wp_elim _ _ (wp_dl_enqueue h rq l lp r d Hi Hnew)) as (rq' & He & Hi').
  set (key := MkDeadlineKey d (tid (h r))) in *.
  destruct (wp_elim _ _ (wp_dl_remove_task h rq' _ lp (tid (h r)) Hi')) as ([res rq''] & Hr & Hres).
  destruct (sorted_insert_split key r l) as (l1 & l2 & -> & Hsi). rewrite Hsi in *.
  destruct res as [r'|]; last first.
  { destruct Hres as [Hni _]. destruct Hni. apply (list_elem_of_fmap_2 (λ e, tid (h e.2)) _ (key, r)).
    set_solver. }
  destruct Hres as (Htid & k' & m1 & m2 & Heq & Hi'').
  destruct (split_unique (λ e, tid (h e.2)) l1 l2 m1 m2 (key, r) (k', r')) as (-> & He' & ->);
    [done|done|by apply (di_tids _ _ _ _ Hi')|].
  injection He' as -> ->. by exists rq', rq''.
Qed.
End props.

(** [earliest_dl_next] is only refreshed by [pop_next]: after an enqueue into an
    empty queue it still says that no task is waiting. *)
Example enqueue_leaves_next_stale :
  (rq ← enqueue (Q := RbRootCached DeadlineKey TaskRef) normal_task new 1 10;
   Some (pick_next rq, earliest_dl_next rq)) = Some (Some 1, U64_MAX).
Proof. vm_compute. reflexivity. Qed.

(** ** Witnesses: threads 1 and 2 with deadlines 20 and 10 *)

Definition DlTree := DeadlineRq (Q := RbRootCached DeadlineKey TaskRef).

Definition demo : DlTree :=
  default new (rq ← enqueue normal_task new 1 20; enqueue normal_task rq 2 10).

Lemma dl_demo_inv :
  dl_inv normal_task demo [(MkDeadlineKey 10 2, 2); (MkDeadlineKey 20 1, 1)] [].
Proof.
  pose proof (wp_dl_enqueue normal_task (new : DlTree) [] [] 1 20 (dl_inv_new _)) as H1.
  destruct (wp_elim _ _ (H1 ltac:(set_solver))) as (rq & Hrq & Hi).
  destruct (wp_elim _ _ (wp_dl_enqueue _ _ _ _ 2 10 Hi
    ltac:(by apply (bool_decide_unpack _); vm_compute))) as (rq' & Hrq' & Hi').
  unfold demo. rewrite Hrq. cbn [mbind option_bind]. by rewrite Hrq'.
Qed.

Lemma pop_next_edf_witness :
  ∃ rq', pop_next demo = Some (Some 2, rq') ∧ earliest_dl_next rq' = 20%Z.
Proof.
  destruct (pop_next_edf normal_task demo _ _ dl_demo_inv) as (rq' & Heq & _ & Hp & _ & Hn).
  exists rq'. rewrite Hp in Heq. split; [exact Heq|exact Hn].
Defined.

Lemma enqueue_remove_roundtrip_witness :
  ∃ rq' rq'', enqueue normal_task demo 3 15 = Some rq' ∧
    remove_task normal_task rq' 3 = Some (Some 3, rq'') ∧
    dl_inv normal_task rq'' [(MkDeadlineKey 10 2, 2); (MkDeadlineKey 20 1, 1)] [].
Proof.
  destruct (enqueue_remove_roundtrip normal_task demo _ _ 3 15 dl_demo_inv) as (rq' & rq'' & H1 & _ & H2 & H3).
  - apply (bool_decide_unpack _). vm_compute. exact I.
  - exists rq', rq''. split; [exact H1|split; [exact H2|exact H3]].
Defined.

End DeadlineProps.
