(* ===== verification/RtRq.v ===== *)
(** * The real-time run queue (os/src/process/scheduler/rt_rq.rs)

    A priority bitmap of two 64-bit words over one hundred FIFO queues.  The
    bitmap names exactly the non-empty queues, so the queue refines one list of
    (priority, task) pairs sorted by priority, first come first served within a
    priority. *)

From S2P Require Import Prelude OrderedQueue Task.

(** [MAX_RT_PRIO], [RT_BITMAP_WORDS] and the policy [SCHED_RR]. *)
Definition MAX_RT_PRIO : nat := 100.

Definition RT_BITMAP_WORDS : nat := (MAX_RT_PRIO + 63) / 64.

Definition SCHED_RR : Z := 2.

(** [struct RtPrioArray] *)
Record RtPrioArray := MkPrioArray {
  bitmap : list Z;
  queue : list (list TaskRef);
}.

(** [RtPrioArray::new] *)
Definition RtPrioArray_new : RtPrioArray :=
  MkPrioArray (replicate RT_BITMAP_WORDS 0%Z) (replicate MAX_RT_PRIO []).

(** [u64::trailing_zeros] *)
Fixpoint ctz (fuel : nat) (w : Z) : nat :=
  match fuel with
  | O => 0
  | S fuel => if Z.odd w then 0 else S (ctz fuel (Z.div2 w))
  end.

Definition trailing_zeros (w : Z) : nat := ctz 64 w.

(** The mask [1u64 << (priority % 64)]. *)
Definition bit_mask (priority : nat) : Z := Z.shiftl 1 (Z.of_nat (priority mod 64)).

(** [RtPrioArray::set_bit] *)
Definition set_bit (a : RtPrioArray) (priority : nat) : option RtPrioArray :=
  w ← bitmap a !! (priority / 64);
  Some (MkPrioArray (<[priority / 64 := Z.lor w (bit_mask priority)]> (bitmap a)) (queue a)).

(** [RtPrioArray::clear_bit] *)
Definition clear_bit (a : RtPrioArray) (priority : nat) : option RtPrioArray :=
  w ← bitmap a !! (priority / 64);
  Some (MkPrioArray
    (<[priority / 64 := Z.land w (Z.lxor U64_MAX (bit_mask priority))]> (bitmap a)) (queue a)).

(** The [find_map] of [RtPrioArray::highest_priority] from word [word_index] on. *)
Fixpoint scan (word_index : nat) (words : list Z) : option nat :=
  match words with
  | [] => None
  | word :: words =>
    if (word =? 0)%Z then scan (S word_index) words
    else Some (word_index * 64 + trailing_zeros word)
  end.

(** [RtPrioArray::highest_priority] *)
Definition highest_priority (a : RtPrioArray) : option nat := scan 0 (bitmap a).

Definition with_queue (a : RtPrioArray) (p : nat) (q : list TaskRef) : RtPrioArray :=
  MkPrioArray (bitmap a) (<[p := q]> (queue a)).

(** [struct RtPushableTask] and its order: a [BinaryHeap] pops the entry with the
    numerically least priority first. *)
Record RtPushableTask := MkPushable { p_priority : nat; p_task : TaskRef }.

Definition RtPushableTask_cmp (h : heap) (a b : RtPushableTask) : comparison :=
  then_with (Nat.compare (p_priority b) (p_priority a))
            (Nat.compare (tid (h (p_task a))) (tid (h (p_task b)))).

(** [struct RtRq]; the pushable heap is only pushed to and filtered, so it is
    kept as the list of its entries. *)
Record RtRq := MkRtRq {
  active : RtPrioArray;
  pushable_tasks : list RtPushableTask;
  rt_nr_running : nat;
  rr_nr_running : nat;
  rt_time : Z;
  rt_runtime : Z;
  rt_throttled : bool;
}.

(** [RtRq::new] *)
Definition new : RtRq := MkRtRq RtPrioArray_new [] 0 0 0 U64_MAX false.

Definition with_active (a : RtPrioArray) (n rr : nat) (rq : RtRq) : RtRq :=
  MkRtRq a (pushable_tasks rq) n rr (rt_time rq) (rt_runtime rq) (rt_throttled rq).

(** [RtRq::enqueue] *)
Definition enqueue (rq : RtRq) (task : TaskRef) (priority : nat) (round_robin : bool) : option RtRq :=
  if decide (priority < MAX_RT_PRIO) then
    q ← queue (active rq) !! priority;
    a ← set_bit (with_queue (active rq) priority (q ++ [task])) priority;
    Some (with_active a (S (rt_nr_running rq))
      (if round_robin then S (rr_nr_running rq) else rr_nr_running rq) rq)
  else None.

(** Clearing the bit of a queue that has become empty. *)
Definition settle (a : RtPrioArray) (priority : nat) : option RtPrioArray :=
  q ← queue a !! priority;
  match q with [] => clear_bit a priority | _ => Some a end.

(** [RtRq::dequeue] *)
Definition dequeue (h : heap) (rq : RtRq) (i priority : nat) (round_robin : bool)
    : option (option TaskRef * RtRq) :=
  if decide (MAX_RT_PRIO ≤ priority) then Some (None, rq) else
  q ← queue (active rq) !! priority;
  match list_find (λ r, tid (h r) = i) q with
  | None => Some (None, rq)
  | Some (position, task) =>
    a ← settle (with_queue (active rq) priority (delete position q)) priority;
    n ← nat_dec (rt_nr_running rq);
    rr ← (if round_robin then nat_dec (rr_nr_running rq) else Some (rr_nr_running rq));
    Some (Some task, with_active a n rr rq)
  end.

(** [RtRq::rotate_rr] *)
Definition rotate_rr (rq : RtRq) (priority : nat) : option RtRq :=
  if decide (priority < MAX_RT_PRIO) then
    q ← queue (active rq) !! priority;
    if decide (1 < length q) then
      Some (with_active (with_queue (active rq) priority (drop 1 q ++ take 1 q))
        (rt_nr_running rq) (rr_nr_running rq) rq)
    else Some rq
  else Some rq.

(** [RtRq::pick_next] *)
Definition pick_next (rq : RtRq) : option (option TaskRef) :=
  if rt_throttled rq then Some None else
  match highest_priority (active rq) with
  | None => Some None
  | Some priority => q ← queue (active rq) !! priority; Some (head q)
  end.

(** The bookkeeping of [pop_next] and [remove_task] once a task is taken out. *)
Definition taken (h : heap) (rq : RtRq) (a : RtPrioArray) (task : TaskRef) : RtRq :=
  with_active a (rt_nr_running rq - 1)
    (if (sched_policy (h task) =? SCHED_RR)%Z then rr_nr_running rq - 1 else rr_nr_running rq) rq.

(** [RtRq::pop_next] *)
Definition pop_next (h : heap) (rq : RtRq) : option (option TaskRef * RtRq) :=
  if rt_throttled rq then Some (None, rq) else
  match highest_priority (active rq) with
  | None => Some (None, rq)
  | Some priority =>
    q ← queue (active rq) !! priority;
    match q with
    | [] => Some (None, rq)
    | task :: q' =>
      a ← settle (with_queue (active rq) priority q') priority;
      Some (Some task, taken h rq a task)
    end
  end.

(** [RtRq::enqueue_pushable] *)
Definition enqueue_pushable (rq : RtRq) (task : TaskRef) (priority : nat) : RtRq :=
  MkRtRq (active rq) (MkPushable priority task :: pushable_tasks rq) (rt_nr_running rq)
    (rr_nr_running rq) (rt_time rq) (rt_runtime rq) (rt_throttled rq).

(** [RtRq::dequeue_pushable] *)
Definition dequeue_pushable (h : heap) (rq : RtRq) (i : nat) : RtRq :=
  MkRtRq (active rq) (filter (λ e, tid (h (p_task e)) ≠ i) (pushable_tasks rq)) (rt_nr_running rq)
    (rr_nr_running rq) (rt_time rq) (rt_runtime rq) (rt_throttled rq).

(** The loop of [RtRq::remove_task], [n] priorities to go from [priority] on. *)
Fixpoint remove_loop (h : heap) (rq : RtRq) (i priority n : nat) : option (option TaskRef * RtRq) :=
  match n with
  | O => Some (None, rq)
  | S n =>
    q ← queue (active rq) !! priority;
    match list_find (λ r, tid (h r) = i) q with
    | None => remove_loop h rq i (S priority) n
    | Some (position, task) =>
      a ← settle (with_queue (active rq) priority (delete position q)) priority;
      Some (Some task, taken h rq a task)
    end
  end.

(** [RtRq::remove_task] *)
Definition remove_task (h : heap) (rq : RtRq) (i : nat) : option (option TaskRef * RtRq) :=
  remove_loop h rq i 0 MAX_RT_PRIO.

(** ** Bits *)

(** Bit [p] of the bitmap. *)
Definition bit_of (ws : list Z) (p : nat) : bool :=
  match ws !! (p / 64) with Some w => Z.testbit w (Z.of_nat (p mod 64)) | None => false end.

(** A 64-bit word. *)
Definition word_ok (w : Z) : Prop := (0 ≤ w < 2 ^ 64)%Z.

Lemma word_ok_bits w : (0 ≤ w)%Z → (∀ n, 64 ≤ n → Z.testbit w n = false)%Z → word_ok w.
Proof.
  intros H0 Hb. assert (w = w mod 2 ^ 64)%Z as ->; [|by apply Z.mod_pos_bound].
  apply Z.bits_inj'. intros n Hn. destruct (Z.lt_ge_cases n 64).
  - by rewrite Z.mod_pow2_bits_low.
  - rewrite Z.mod_pow2_bits_high by lia. by apply Hb.
Qed.

Lemma word_ok_high w n : word_ok w → (64 ≤ n)%Z → Z.testbit w n = false.
Proof.
  intros [H0 H1] Hn. rewrite <-(Z.mod_small w (2 ^ 64)) by done. apply Z.mod_pow2_bits_high. lia.
Qed.

Lemma bit_mask_spec p n : (0 ≤ n)%Z → Z.testbit (bit_mask p) n = (Z.of_nat (p mod 64) =? n)%Z.
Proof. intros. unfold bit_mask. rewrite Z.shiftl_1_l. apply Z.pow2_bits_eqb. lia. Qed.

Lemma mod64_lt p : (Z.of_nat (p mod 64) < 64)%Z.
Proof. pose proof (Nat.mod_upper_bound p 64). lia. Qed.

Lemma word_ok_set w p : word_ok w → word_ok (Z.lor w (bit_mask p)).
Proof.
  intros Hw. apply word_ok_bits.
  - apply Z.lor_nonneg. split; [apply Hw|]. unfold bit_mask. apply Z.shiftl_nonneg. lia.
  - intros n Hn. rewrite Z.lor_spec, (word_ok_high w), bit_mask_spec by (done || lia).
    pose proof (mod64_lt p). apply Z.eqb_neq. lia.
Qed.

Lemma word_ok_clear w m : word_ok w → word_ok (Z.land w m).
Proof.
  intros Hw. apply word_ok_bits.
  - apply Z.land_nonneg. left. apply Hw.
  - intros n Hn. by rewrite Z.land_spec, (word_ok_high w).
Qed.

(** Two priorities with the same word and the same bit are equal. *)
Lemma div_mod_64_inj p p' : p / 64 = p' / 64 → p mod 64 = p' mod 64 → p = p'.
Proof. intros Hd Hm. pose proof (Nat.div_mod_eq p 64). pose proof (Nat.div_mod_eq p' 64). lia. Qed.

Lemma bit_of_upd ws p w w' p' :
  ws !! (p / 64) = Some w →
  (∀ n, 0 ≤ n < 64 → n ≠ Z.of_nat (p mod 64) → Z.testbit w' n = Z.testbit w n)%Z →
  bit_of (<[p / 64 := w']> ws) p' =
    if decide (p' = p) then Z.testbit w' (Z.of_nat (p mod 64)) else bit_of ws p'.
Proof.
  intros Hw Hb. unfold bit_of. assert (p / 64 < length ws) by (by eapply lookup_lt_Some).
  destruct (decide (p' / 64 = p / 64)) as [Hd|Hd].
  - rewrite Hd, list_lookup_insert_eq by done. case_decide as Hp; [by rewrite Hp|].
    rewrite Hw. apply Hb; [pose proof (mod64_lt p'); lia|].
    intros Hm%Nat2Z.inj. destruct Hp. by apply div_mod_64_inj.
  - rewrite list_lookup_insert_ne by done. rewrite decide_False by congruence. done.
Qed.

(** [trailing_zeros] finds the lowest set bit. *)
Lemma ctz_spec fuel w :
  (0 < w < 2 ^ Z.of_nat fuel)%Z →
  ctz fuel w < fuel ∧ Z.testbit w (Z.of_nat (ctz fuel w)) = true ∧
  ∀ j, j < ctz fuel w → Z.testbit w (Z.of_nat j) = false.
Proof.
  revert w. induction fuel as [|fuel IH]; intros w Hw; [simpl in Hw; lia|].
  rewrite Nat2Z.inj_succ, Z.pow_succ_r in Hw by lia. cbn [ctz].
  pose proof (Z.div2_odd w) as Hdo. destruct (Z.odd w) eqn:Hodd.
  - split_and!; [lia| |lia]. exact Hodd.
  - simpl in Hdo. destruct (IH (Z.div2 w)) as (H1 & H2 & H3); [lia|]. split_and!; [lia|..].
    + rewrite Nat2Z.inj_succ, <-Z.div2_bits, <-Z.div2_div by lia. done.
    + intros [|j] Hj; [exact Hodd|].
      rewrite Nat2Z.inj_succ, <-Z.div2_bits, <-Z.div2_div by lia. apply H3. lia.
Qed.

Lemma trailing_zeros_spec w :
  word_ok w → w ≠ 0%Z →
  trailing_zeros w < 64 ∧ Z.testbit w (Z.of_nat (trailing_zeros w)) = true ∧
  ∀ j, j < trailing_zeros w → Z.testbit w (Z.of_nat j) = false.
Proof. intros [H0 H1] Hne. apply ctz_spec. change (2 ^ Z.of_nat 64)%Z with (2 ^ 64)%Z. lia. Qed.

(** [highest_priority] finds the least priority whose bit is set. *)
Lemma scan_spec i ws :
  Forall word_ok ws →
  match scan i ws with
  | Some p => ∃ q, p = i * 64 + q ∧ bit_of ws q = true ∧ ∀ j, j < q → bit_of ws j = false
  | None => ∀ j, bit_of ws j = false
  end.
Proof.
  revert i. induction ws as [|w ws IH]; intros i Hok; simpl; [done|].
  apply Forall_cons in Hok as [Hw Hok].
  assert (∀ j, 64 ≤ j → bit_of (w :: ws) j = bit_of ws (j - 64)) as Hshift.
  { intros j Hj. destruct (Nat.le_exists_sub 64 j Hj) as (m & -> & _).
    replace (m + 64 - 64) with m by lia. unfold bit_of. replace (m + 64) with (m + 1 * 64) by lia.
    rewrite Nat.div_add, Nat.Div0.mod_add by lia. by rewrite Nat.add_1_r. }
  assert (∀ j, j < 64 → bit_of (w :: ws) j = Z.testbit w (Z.of_nat j)) as Hlow.
  { intros j Hj. unfold bit_of. by rewrite Nat.div_small, Nat.mod_small. }
  destruct (Z.eqb_spec w 0) as [->|Hne].
  - assert (∀ j, j < 64 → bit_of (0%Z :: ws) j = false) as H0
      by (intros j Hj; rewrite Hlow by done; apply Z.testbit_0_l).
    specialize (IH (S i) Hok). destruct (scan (S i) ws) as [p|].
    + destruct IH as (q & -> & Hq & Hlt). exists (64 + q). split_and!; [lia|..].
      * rewrite Hshift by lia. by replace (64 + q - 64) with q by lia.
      * intros j Hj. destruct (Nat.lt_ge_cases j 64); [by apply H0|].
        rewrite Hshift by done. apply Hlt. lia.
    + intros j. destruct (Nat.lt_ge_cases j 64); [by apply H0|]. by rewrite Hshift.
  - destruct (trailing_zeros_spec w Hw Hne) as (H1 & H2 & H3).
    exists (trailing_zeros w). split_and!; [done|by rewrite Hlow|].
    intros j Hj. rewrite Hlow by lia. by apply H3.
Qed.

(** ** The queues as one list sorted by priority *)

Fixpoint flat (i : nat) (qs : list (list TaskRef)) : list (nat * TaskRef) :=
  match qs with
  | [] => []
  | q :: qs => ((λ r, (i, r)) <$> q) ++ flat (S i) qs
  end.

Lemma flat_lower i qs : Forall (λ e, i ≤ e.1) (flat i qs).
Proof.
  revert i. induction qs as [|q qs IH]; intros i; simpl; [constructor|].
  apply Forall_app. split; [apply Forall_fmap, Forall_forall; simpl; lia|].
  eapply Forall_impl; [apply IH|]. simpl. lia.
Qed.

Lemma flat_push i qs p q r :
  qs !! p = Some q → flat i (<[p := q ++ [r]]> qs) = sorted_insert (i + p) r (flat i qs).
Proof.
  revert i p. induction qs as [|q0 qs IH]; intros i [|p] Hq; simplify_eq/=.
  - rewrite Nat.add_0_r, fmap_app, <-app_assoc. simpl. symmetry. apply sorted_insert_app.
    + apply Forall_fmap, Forall_forall. intros r' _. simpl. reflexivity.
    + eapply Forall_impl; [apply flat_lower|]. intros e He. simpl in He. apply ord_lt_true. simpl.
      apply Nat.compare_lt_iff. lia.
  - rewrite (IH (S i) p) by done. rewrite Nat.add_succ_r. simpl. symmetry. apply sorted_insert_skip.
    apply Forall_fmap, Forall_forall. intros r' _. unfold ord_le. simpl.
    rewrite Nat.compare_gt_iff. lia.
Qed.

Lemma flat_sorted i qs : StronglySorted (λ e1 e2, e1.1 ≤ e2.1) (flat i qs).
Proof.
  revert i. induction qs as [|q qs IH]; intros i; simpl; [constructor|].
  apply StronglySorted_app. split_and!; [| |apply IH].
  - intros e1 e2 (r & -> & _)%list_elem_of_fmap He2. simpl.
    pose proof (flat_lower (S i) qs) as Hl. rewrite Forall_forall in Hl. specialize (Hl e2 He2). simpl in Hl. lia.
  - induction q as [|r q IHq]; simpl; constructor; [done|].
    apply Forall_fmap, Forall_forall. intros r' _. simpl. reflexivity.
Qed.

Lemma flat_take i qs p q1 r q2 :
  qs !! p = Some (q1 ++ r :: q2) →
  ∃ l1 l2, flat i qs = l1 ++ (i + p, r) :: l2 ∧ flat i (<[p := q1 ++ q2]> qs) = l1 ++ l2 ∧
    ((∀ j, j < p → qs !! j = Some []) → q1 = [] → l1 = []).
Proof.
  revert i p. induction qs as [|q0 qs IH]; intros i [|p] Hq; simplify_eq/=.
  - exists ((λ r, (i, r)) <$> q1), (((λ r, (i, r)) <$> q2) ++ flat (S i) qs).
    rewrite Nat.add_0_r, !fmap_app. simpl. rewrite <-!app_assoc. split_and!; [done..|]. by intros _ ->.
  - destruct (IH (S i) p Hq) as (l1 & l2 & H1 & H2 & H3).
    exists (((λ r, (i, r)) <$> q0) ++ l1), l2. rewrite H1, H2, <-!app_assoc, Nat.add_succ_r.
    split_and!; [done..|]. intros He Hq1. assert (q0 = []) as -> by (specialize (He 0); naive_solver lia).
    simpl. apply H3; [|done]. intros j Hj. apply (He (S j)). lia.
Qed.

Lemma flat_elem i qs p r :
  (p, r) ∈ flat i qs ↔ ∃ j q, p = i + j ∧ qs !! j = Some q ∧ r ∈ q.
Proof.
  revert i. induction qs as [|q0 qs IH]; intros i; simpl.
  - split; [by intros ?%not_elem_of_nil|]. by intros (j & q & _ & Hq & _).
  - rewrite elem_of_app, list_elem_of_fmap, IH. split.
    + intros [(r' & [= -> ->] & Hr)|(j & q & -> & Hq & Hr)].
      * by exists 0, q0.
      * exists (S j), q. split_and!; [lia|done..].
    + intros ([|j] & q & -> & Hq & Hr); simpl in Hq.
      * left. injection Hq as ->. exists r. by rewrite Nat.add_0_r.
      * right. exists j, q. split_and!; [lia|done..].
Qed.

Lemma flat_nil qs : (∀ j q, qs !! j = Some q → q = []) ↔ flat 0 qs = [].
Proof.
  split.
  - intros Hall. destruct (flat 0 qs) as [|[p r] l] eqn:Hf; [done|].
    assert ((p, r) ∈ flat 0 qs) as (j & q & _ & Hq & Hr)%flat_elem by (rewrite Hf; by left).
    rewrite (Hall j q Hq) in Hr. by apply not_elem_of_nil in Hr.
  - intros Hf j q Hq. destruct q as [|r q]; [done|].
    assert ((j, r) ∈ flat 0 qs) as Hin by (apply flat_elem; exists j, (r :: q); set_solver).
    rewrite Hf in Hin. by apply not_elem_of_nil in Hin.
Qed.

(** ** Invariant *)

Definition tids (h : heap) (l : list (nat * TaskRef)) : list nat := (λ e, tid (h e.2)) <$> l.

Definition is_rr (h : heap) (e : nat * TaskRef) : Prop := sched_policy (h e.2) = SCHED_RR.

#[export] Instance is_rr_dec h e : Decision (is_rr h e).
Proof. unfold is_rr. apply _. Defined.

(** The priority array is well formed: a bit is set exactly when its queue is
    not empty. *)
Record prio_ok (a : RtPrioArray) : Prop := {
  po_words : length (bitmap a) = RT_BITMAP_WORDS;
  po_u64 : Forall word_ok (bitmap a);
  po_queues : length (queue a) = MAX_RT_PRIO;
  po_bits p : bit_of (bitmap a) p = true ↔ ∃ r q, queue a !! p = Some (r :: q);
}.

(** The queue [rq] holds exactly the entries [l], in order; no thread twice and
    the counters in step. *)
Record rt_inv (h : heap) (rq : RtRq) (l : list (nat * TaskRef)) : Prop := {
  ri_prio : prio_ok (active rq);
  ri_list : l = flat 0 (queue (active rq));
  ri_tids : NoDup (tids h l);
  ri_nr : rt_nr_running rq = length l;
  ri_rr : rr_nr_running rq = length (filter (is_rr h) l);
}.

Lemma prio_ok_word a p :
  prio_ok a → p < MAX_RT_PRIO →
  ∃ w, bitmap a !! (p / 64) = Some w ∧ word_ok w.
Proof.
  intros Hok Hp. assert (p / 64 < length (bitmap a)) as Hlt.
  { rewrite (po_words _ Hok). change RT_BITMAP_WORDS with 2. apply Nat.Div0.div_lt_upper_bound.
    unfold MAX_RT_PRIO in Hp. lia. }
  destruct (lookup_lt_is_Some_2 _ _ Hlt) as [w Hw]. exists w. split; [done|].
  by eapply (Forall_lookup_1 word_ok); [apply po_u64|].
Qed.

(** Replacing a queue by a non-empty one, or by an empty one, and setting the
    bit accordingly. *)
Lemma prio_ok_push a p r q :
  prio_ok a → p < MAX_RT_PRIO →
  wp (set_bit (with_queue a p (r :: q)) p) (λ a',
    prio_ok a' ∧ queue a' = <[p := r :: q]> (queue a)).
Proof.
  intros Hok Hp. destruct (prio_ok_word a p Hok Hp) as (w & Hw & Hwok).
  unfold set_bit. simpl. rewrite Hw. simpl. apply wp_ret. split; [|done]. split; simpl.
  - rewrite length_insert. apply Hok.
  - apply Forall_insert; [apply Hok|by apply word_ok_set].
  - rewrite length_insert. apply Hok.
  - intros p'. rewrite (bit_of_upd _ _ w); [|done|].
    + case_decide as Hpp; [subst p'|].
      * rewrite Z.lor_spec, bit_mask_spec, Z.eqb_refl, orb_true_r by lia. split; [|done]. intros _.
        exists r, q. apply list_lookup_insert_eq. by rewrite (po_queues _ Hok).
      * rewrite list_lookup_insert_ne by done. by apply po_bits.
    + intros n Hn Hne. rewrite Z.lor_spec, bit_mask_spec by lia.
      rewrite (proj2 (Z.eqb_neq _ _)) by done. by rewrite orb_false_r.
Qed.

Lemma wp_rt_settle a p r0 q0 q :
  prio_ok a → queue a !! p = Some (r0 :: q0) →
  wp (settle (with_queue a p q) p) (λ a', prio_ok a' ∧ queue a' = <[p := q]> (queue a)).
Proof.
  intros Hok Hq. assert (p < length (queue a)) as Hlt by (by eapply lookup_lt_Some).
  assert (p < MAX_RT_PRIO) as Hp by (by rewrite <-(po_queues _ Hok)).
  unfold settle. simpl. rewrite list_lookup_insert_eq by done. simpl. destruct q as [|r q].
  - destruct (prio_ok_word a p Hok Hp) as (w & Hw & Hwok).
    unfold clear_bit. simpl. rewrite Hw. simpl. apply wp_ret. split; [|done]. split; simpl.
    + rewrite length_insert. apply Hok.
    + apply Forall_insert; [apply Hok|by apply word_ok_clear].
    + rewrite length_insert. apply Hok.
    + intros p'. rewrite (bit_of_upd _ _ w); [|done|].
      * case_decide as Hpp; [subst p'|].
        -- rewrite Z.land_spec, Z.lxor_spec, bit_mask_spec, Z.eqb_refl by lia.
           change U64_MAX with (Z.ones 64). rewrite Z.ones_spec_low by (pose proof (mod64_lt p); lia).
           rewrite andb_false_r. rewrite list_lookup_insert_eq by done. naive_solver.
        -- rewrite list_lookup_insert_ne by done. by apply po_bits.
      * intros n Hn Hne. rewrite Z.land_spec, Z.lxor_spec, bit_mask_spec by lia.
        rewrite (proj2 (Z.eqb_neq _ _)) by done.
        change U64_MAX with (Z.ones 64). rewrite Z.ones_spec_low by lia. by rewrite andb_true_r.
  - apply wp_ret. split; [|done]. split; simpl; try apply Hok.
    + rewrite length_insert. apply Hok.
    + intros p'. rewrite (po_bits _ Hok). destruct (decide (p' = p)) as [->|Hne].
      * rewrite Hq, list_lookup_insert_eq by done. naive_solver.
      * by rewrite list_lookup_insert_ne by done.
Qed.

(** Taking a task out of the middle of its queue. *)
Lemma wp_rt_take h rq l p q1 r q2 :
  rt_inv h rq l → queue (active rq) !! p = Some (q1 ++ r :: q2) →
  wp (settle (with_queue (active rq) p (q1 ++ q2)) p) (λ a', ∃ l1 l2,
    l = l1 ++ (p, r) :: l2 ∧ rt_inv h (taken h rq a' r) (l1 ++ l2) ∧
    ((∀ j, j < p → queue (active rq) !! j = Some []) → q1 = [] → l1 = [])).
Proof.
  intros [Hok -> Hnd Hn Hrr] Hq.
  assert (∃ r0 q0, q1 ++ r :: q2 = r0 :: q0) as (r0 & q0 & Hq0) by (destruct q1; eauto).
  eapply wp_mono; [by eapply wp_rt_settle; [done|rewrite Hq, Hq0]|]. intros a' [Ha' Hqa].
  destruct (flat_take 0 _ _ _ _ _ Hq) as (l1 & l2 & H1 & H2 & H3). simpl in H1.
  exists l1, l2. split_and!; [done| |done].
  assert (l1 ++ (p, r) :: l2 ≡ₚ (p, r) :: l1 ++ l2) as Hp by solve_perm.
  rewrite H1 in Hnd, Hn, Hrr. unfold tids in Hnd. rewrite Hp in Hnd, Hn, Hrr.
  apply NoDup_cons in Hnd as [_ Hnd]. split; simpl; [done|by rewrite Hqa|done|simpl in Hn; lia|].
  rewrite filter_cons in Hrr. unfold is_rr at 1 in Hrr. simpl in Hrr.
  destruct (Z.eqb_spec (sched_policy (h r)) SCHED_RR); case_decide; simpl in Hrr; [lia|done|done|done].
Qed.

Lemma list_find_split {A} (P : A → Prop) `{∀ x, Decision (P x)} l i x :
  list_find P l = Some (i, x) →
  P x ∧ l = take i l ++ x :: drop (S i) l ∧ delete i l = take i l ++ drop (S i) l.
Proof.
  intros (Hi & Hx & _)%list_find_Some. split_and!; [done| |apply delete_take_drop].
  by rewrite take_drop_middle.
Qed.

(** ** Operations *)

Lemma rt_inv_heap h h' rq l :
  Forall (λ e, tid (h' e.2) = tid (h e.2) ∧ sched_policy (h' e.2) = sched_policy (h e.2)) l →
  rt_inv h rq l → rt_inv h' rq l.
Proof.
  intros Hv [? ? Hnd ? Hrr]. split; try done.
  - unfold tids. erewrite (Forall_fmap_ext_1 (λ e, tid (h' e.2)) (λ e, tid (h e.2))); [done|].
    eapply Forall_impl; [exact Hv|]. by intros e [? _].
  - rewrite Hrr. clear -Hv. induction Hv as [|e l [_ He] _ IH]; [done|].
    assert (is_rr h' e ↔ is_rr h e) as Hrr by (unfold is_rr; by rewrite He).
    rewrite !filter_cons. do 2 case_decide; simpl; [by rewrite IH|tauto|tauto|done].
Qed.

Lemma lookup_replicate_nil p q : replicate MAX_RT_PRIO ([] : list TaskRef) !! p = Some q → q = [].
Proof. by intros [-> _]%lookup_replicate. Qed.

Lemma rt_inv_new h : rt_inv h new [].
Proof.
  assert (flat 0 (queue RtPrioArray_new) = []) as Hf by (apply flat_nil; apply lookup_replicate_nil).
  split; simpl; try done; [|by constructor]. split; try done.
  - by repeat constructor.
  - intros p. split.
    + unfold bit_of. destruct (bitmap RtPrioArray_new !! (p / 64)) as [w|] eqn:Hw; [|done].
      apply lookup_replicate in Hw as [-> _]. by rewrite Z.testbit_0_l.
    + intros (r & q & Hq). by apply lookup_replicate_nil in Hq.
Qed.

Lemma wp_rt_enqueue h rq l r p rr :
  rt_inv h rq l → p < MAX_RT_PRIO → tid (h r) ∉ tids h l →
  rr = bool_decide (sched_policy (h r) = SCHED_RR) →
  wp (enqueue rq r p rr) (λ rq', rt_inv h rq' (sorted_insert p r l) ∧
    rt_throttled rq' = rt_throttled rq).
Proof.
  intros [Hok -> Hnd Hn Hrr] Hp Hnew ->. unfold enqueue. rewrite decide_True by done.
  assert (p < length (queue (active rq))) as Hlt by (by rewrite (po_queues _ Hok)).
  destruct (lookup_lt_is_Some_2 _ _ Hlt) as [q Hq]. rewrite Hq. cbn [mbind option_bind].
  assert (∃ r0 q0, q ++ [r] = r0 :: q0) as (r0 & q0 & Hq0) by (destruct q; eauto).
  apply wp_bind. rewrite Hq0. eapply wp_mono; [by apply prio_ok_push|]. intros a [Ha Hqa].
  apply wp_ret. split; [|done]. rewrite <-Hq0 in Hqa.
  pose proof (sorted_insert_perm p r (flat 0 (queue (active rq)))) as Hperm.
  split; simpl; [done|by rewrite Hqa, (flat_push 0 _ _ _ _ Hq)|..].
  - unfold tids. rewrite Hperm. by apply NoDup_cons.
  - by rewrite length_sorted_insert, Hn.
  - rewrite Hperm, filter_cons. unfold is_rr at 1. simpl. rewrite Hrr.
    case_bool_decide; case_decide; done.
Qed.

(** [highest_priority] names the first non-empty queue. *)
Lemma highest_priority_spec a :
  prio_ok a →
  match highest_priority a with
  | Some p => ∃ r q, queue a !! p = Some (r :: q) ∧ ∀ j, j < p → queue a !! j = Some []
  | None => ∀ j q, queue a !! j = Some q → q = []
  end.
Proof.
  intros Hok. pose proof (scan_spec 0 (bitmap a) (po_u64 _ Hok)) as Hs.
  unfold highest_priority. destruct (scan 0 (bitmap a)) as [p|].
  - destruct Hs as (q & -> & (r & q' & Hq)%(po_bits _ Hok) & Hlt). exists r, q'. split; [done|].
    intros j Hj. simpl in Hj. assert (j < length (queue a)) as Hjl
      by (apply lookup_lt_Some in Hq; simpl in Hq; lia).
    destruct (lookup_lt_is_Some_2 _ _ Hjl) as [[|r' qj] Hqj]; [done|].
    specialize (Hlt j Hj). apply not_true_iff_false in Hlt. destruct Hlt. apply (po_bits _ Hok). eauto.
  - intros j [|r q] Hq; [done|]. specialize (Hs j). apply not_true_iff_false in Hs.
    destruct Hs. apply (po_bits _ Hok). eauto.
Qed.

Lemma wp_rt_pop_next h rq l :
  rt_inv h rq l → rt_throttled rq = false →
  wp (pop_next h rq) (λ '(res, rq'),
    res = snd <$> head l ∧ rt_inv h rq' (tail l) ∧ rt_throttled rq' = false).
Proof.
  intros Hi Ht. unfold pop_next. rewrite Ht.
  pose proof (highest_priority_spec _ (ri_prio _ _ _ Hi)) as Hh.
  destruct (highest_priority (active rq)) as [p|].
  - destruct Hh as (r & q & Hq & Hlt). rewrite Hq. cbn [mbind option_bind]. apply wp_bind.
    eapply wp_mono; [by apply (wp_rt_take h rq l p [] r q)|].
    intros a (l1 & l2 & -> & Hi' & Hl1). rewrite (Hl1 Hlt eq_refl) in *. by apply wp_ret.
  - apply flat_nil in Hh. apply wp_ret. pose proof (ri_list _ _ _ Hi) as ->.
    rewrite Hh in *. by split_and!.
Qed.

Lemma wp_rt_remove_loop h rq l i p n :
  rt_inv h rq l → p + n = MAX_RT_PRIO →
  (∀ j r, (j, r) ∈ l → j < p → tid (h r) ≠ i) →
  wp (remove_loop h rq i p n) (λ '(res, rq'),
    match res with
    | None => (i ∉ tids h l) ∧ rq' = rq
    | Some r => tid (h r) = i ∧ ∃ k l1 l2, l = l1 ++ (k, r) :: l2 ∧ rt_inv h rq' (l1 ++ l2)
    end ∧ rt_throttled rq' = rt_throttled rq).
Proof.
  revert p. induction n as [|n IH]; intros p Hi Hp Hbefore; simpl.
  - apply wp_ret. split_and!; [|done..]. intros ([k r] & -> & Hin)%list_elem_of_fmap.
    apply (Hbefore k r); [done| |done]. pose proof (ri_list _ _ _ Hi) as Hl. rewrite Hl in Hin.
    apply flat_elem in Hin as (j & q & -> & Hq%lookup_lt_Some & _).
    rewrite (po_queues _ (ri_prio _ _ _ Hi)) in Hq. simpl. lia.
  - assert (p < length (queue (active rq))) as Hlt
      by (rewrite (po_queues _ (ri_prio _ _ _ Hi)); lia).
    destruct (lookup_lt_is_Some_2 _ _ Hlt) as [q Hq]. rewrite Hq. cbn [mbind option_bind].
    destruct (list_find _ q) as [[pos r]|] eqn:Hf.
    + apply list_find_split in Hf as (Htid & Hspl & ->). apply wp_bind.
      rewrite Hspl in Hq. eapply wp_mono; [by apply (wp_rt_take h rq l p _ r _)|].
      intros a (l1 & l2 & -> & Hi' & _). apply wp_ret. split; [|done]. split; [done|]. by exists p, l1, l2.
    + apply (IH (S p)); [done|lia|]. intros j r Hin Hj. destruct (decide (j = p)) as [->|];
        [|apply (Hbefore j r Hin); lia].
      rewrite (ri_list _ _ _ Hi) in Hin. apply flat_elem in Hin as (j & q' & -> & Hq' & Hr).
      simpl in *. rewrite Hq in Hq'. injection Hq' as <-. apply list_find_None in Hf.
      rewrite Forall_forall in Hf. by apply Hf.
Qed.

Lemma wp_rt_remove_task h rq l i :
  rt_inv h rq l →
  wp (remove_task h rq i) (λ '(res, rq'),
    match res with
    | None => (i ∉ tids h l) ∧ rq' = rq
    | Some r => tid (h r) = i ∧ ∃ k l1 l2, l = l1 ++ (k, r) :: l2 ∧ rt_inv h rq' (l1 ++ l2)
    end ∧ rt_throttled rq' = rt_throttled rq).
Proof. intros Hi. apply wp_rt_remove_loop; [done..|]. lia. Qed.

(** [dequeue] with the priority and policy the task was queued with. *)
Lemma wp_rt_dequeue h rq l p r :
  rt_inv h rq l → (p, r) ∈ l →
  wp (dequeue h rq (tid (h r)) p (bool_decide (sched_policy (h r) = SCHED_RR))) (λ '(res, rq'),
    res = Some r ∧ ∃ l1 l2, l = l1 ++ (p, r) :: l2 ∧ rt_inv h rq' (l1 ++ l2)).
Proof.
  intros Hi Hin. pose proof Hin as Hin'. rewrite (ri_list _ _ _ Hi) in Hin'.
  apply flat_elem in Hin' as (j & q & Hj & Hq & Hr). simpl in Hj. subst j.
  assert (p < MAX_RT_PRIO) as Hp
    by (rewrite <-(po_queues _ (ri_prio _ _ _ Hi)); by eapply lookup_lt_Some).
  unfold dequeue. rewrite decide_False by lia. rewrite Hq. cbn [mbind option_bind].
  destruct (list_find _ q) as [[pos r']|] eqn:Hf; last first.
  { apply list_find_None in Hf. rewrite Forall_forall in Hf. by destruct (Hf r Hr). }
  apply list_find_split in Hf as (Htid & Hspl & ->). rewrite Hspl in Hq. apply wp_bind.
  eapply wp_mono; [by apply (wp_rt_take h rq l p _ r' _)|]. intros a (l1 & l2 & -> & Hi' & _).
  assert (r' = r) as ->.
  { destruct (list_elem_of_split _ _ Hin) as (m1 & m2 & Hm).
    destruct (split_unique (λ e, tid (h e.2)) l1 l2 m1 m2 (p, r') (p, r)) as (_ & He & _);
      [done|done|by apply (ri_tids _ _ _ Hi)|]. by injection He. }
  pose proof (ri_nr _ _ _ Hi) as Hn. rewrite length_app in Hn. simpl in Hn.
  rewrite Hn, Nat.add_succ_r. simpl. apply wp_bind.
  assert (is_rr h (p, r) → rr_nr_running rq = S (rr_nr_running rq - 1)) as Hrr.
  { intros Hrr. rewrite (ri_rr _ _ _ Hi), filter_app, length_app, filter_cons_True by done. simpl. lia. }
  unfold taken in Hi'. rewrite Hn, Nat.add_succ_r in Hi'. simpl in Hi'. rewrite Nat.sub_0_r in Hi'.
  case_bool_decide as Hb.
  - rewrite Hrr by done. apply wp_ret. apply wp_ret. split; [done|]. exists l1, l2. split; [done|].
    by rewrite (proj2 (Z.eqb_eq _ _)) in Hi'.
  - apply wp_ret. apply wp_ret. split; [done|]. exists l1, l2. split; [done|].
    by rewrite (proj2 (Z.eqb_neq _ _)) in Hi'.
Qed.

Lemma flat_segment i qs p q :
  qs !! p = Some q →
  ∃ l1 l2, ∀ q', flat i (<[p := q']> qs) = l1 ++ ((λ r, (i + p, r)) <$> q') ++ l2.
Proof.
  revert i p. induction qs as [|q0 qs IH]; intros i [|p] Hq; simplify_eq/=.
  - exists [], (flat (S i) qs). intros q'. by rewrite Nat.add_0_r.
  - destruct (IH (S i) p Hq) as (l1 & l2 & Hl). exists (((λ r, (i, r)) <$> q0) ++ l1), l2.
    intros q'. by rewrite Hl, <-!app_assoc, Nat.add_succ_r.
Qed.

Lemma wp_rt_rotate_rr h rq l p r q :
  rt_inv h rq l → queue (active rq) !! p = Some (r :: q) →
  wp (rotate_rr rq p) (λ rq', ∃ l1 l2,
    l = l1 ++ ((λ r, (p, r)) <$> r :: q) ++ l2 ∧
    rt_inv h rq' (l1 ++ ((λ r, (p, r)) <$> q ++ [r]) ++ l2)).
Proof.
  intros Hi Hq. assert (p < length (queue (active rq))) as Hlt by (by eapply lookup_lt_Some).
  assert (p < MAX_RT_PRIO) as Hp by (by rewrite <-(po_queues _ (ri_prio _ _ _ Hi))).
  destruct (flat_segment 0 _ _ _ Hq) as (l1 & l2 & Hl). simpl in Hl.
  pose proof (Hl (r :: q)) as Hl0. rewrite list_insert_id in Hl0 by done.
  rewrite <-(ri_list _ _ _ Hi) in Hl0.
  unfold rotate_rr. rewrite decide_True, Hq by done. cbn [mbind option_bind]. case_decide as Hlen.
  - apply wp_ret. exists l1, l2. split; [done|]. simpl drop. simpl take.
    destruct Hi as [Hok _ Hnd Hn Hrr].
    assert (l ≡ₚ l1 ++ ((λ r, (p, r)) <$> q ++ [r]) ++ l2) as Hperm.
    { rewrite Hl0, fmap_app, !fmap_cons, fmap_nil. solve_perm. }
    split; simpl; [|by rewrite Hl|by unfold tids in *; rewrite <-Hperm|by rewrite <-Hperm|by rewrite <-Hperm].
    split; simpl; [apply Hok|apply Hok|rewrite length_insert; apply Hok|].
    intros p'. rewrite (po_bits _ Hok). destruct (decide (p' = p)) as [->|Hne].
    + rewrite Hq, list_lookup_insert_eq by done. destruct q; naive_solver.
    + by rewrite list_lookup_insert_ne.
  - assert (q = []) as -> by (destruct q; [done|simpl in Hlen; lia]).
    apply wp_ret. exists l1, l2. split; [done|].
    change ([] ++ [r]) with [r]. by rewrite <-Hl0.
Qed.

(** ** Properties *)

Module RtProps.
Implicit Types (h : heap) (rq : RtRq) (l : list (nat * TaskRef)) (r : TaskRef).

(** Enqueueing a thread that is not queued puts it behind all threads of its
    own and of more urgent priorities and before all less urgent ones; the bitmap
    and the counters follow.  A priority outside the range is the only panic. *)
Theorem enqueue_sorted h rq l r p :
  rt_inv h rq l → tid (h r) ∉ tids h l →
  match enqueue rq r p (bool_decide (sched_policy (h r) = SCHED_RR)) with
  | Some rq' => p < MAX_RT_PRIO ∧ rt_inv h rq' (sorted_insert p r l)
  | None => MAX_RT_PRIO ≤ p
  end.
Proof.
  intros Hi Hnew. destruct (decide (p < MAX_RT_PRIO)) as [Hp|Hp].
  - destruct (wp_elim _ _ (wp_rt_enqueue h rq l r p _ Hi Hp Hnew eq_refl)) as (rq' & -> & Hi' & _). done.
  - unfold enqueue. rewrite decide_False by done. lia.
Qed.

(** Strict priority with FIFO order inside a priority: unless the queue is
    throttled, [pop_next] takes the front of the most urgent non-empty queue, the
    task [pick_next] names, and keeps bitmap and counters in step. *)
Theorem pop_next_highest h rq l :
  rt_inv h rq l →
  ∃ res rq', pick_next rq = Some res ∧ pop_next h rq = Some (res, rq') ∧
    if rt_throttled rq then res = None ∧ rq' = rq
    else rt_inv h rq' (tail l) ∧
      match l with
      | [] => res = None
      | (p, r) :: l' => res = Some r ∧ Forall (λ e, p ≤ e.1) l'
      end.
Proof.
  intros Hi. destruct (rt_throttled rq) eqn:Ht.
  { exists None, rq. unfold pick_next, pop_next. by rewrite Ht. }
  destruct (wp_elim _ _ (wp_rt_pop_next h rq l Hi Ht)) as ([res rq'] & Heq & -> & Hi' & _).
  pose proof (highest_priority_spec _ (ri_prio _ _ _ Hi)) as Hh.
  exists (snd <$> head l), rq'. split_and!; [|done|done|].
  - unfold pick_next. rewrite Ht. pose proof (ri_list _ _ _ Hi) as Hl.
    destruct (highest_priority (active rq)) as [p|].
    + destruct Hh as (r & q & Hq & Hlt). rewrite Hq. simpl.
      destruct (flat_take 0 _ p [] r q Hq) as (l1 & l2 & H1 & _ & H3).
      rewrite (H3 Hlt eq_refl) in H1. by rewrite Hl, H1.
    + apply flat_nil in Hh. by rewrite Hl, Hh.
  - destruct l as [|[p r] l]; [done|]. split; [done|].
    pose proof (flat_sorted 0 (queue (active rq))) as Hs. rewrite <-(ri_list _ _ _ Hi) in Hs.
    by apply StronglySorted_inv in Hs as [_ Hall].
Qed.

(** [remove_task] finds the thread in whichever priority queue holds it, takes
    exactly it out, and answers [None] without a change when it is not queued. *)
Theorem remove_task_any_priority h rq l i :
  rt_inv h rq l →
  ∃ res rq', remove_task h rq i = Some (res, rq') ∧
    match res with
    | None => (i ∉ tids h l) ∧ rq' = rq
    | Some r => tid (h r) = i ∧ ∃ p l1 l2, l = l1 ++ (p, r) :: l2 ∧ rt_inv h rq' (l1 ++ l2)
    end.
Proof.
  intros Hi. destruct (wp_elim _ _ (wp_rt_remove_task h rq l i Hi)) as ([res rq'] & Heq & Hres & _).
  by exists res, rq'.
Qed.

(** [rotate_rr] moves the front thread of one priority behind its peers and
    leaves every other thread where it is. *)
Theorem rotate_rr_one_priority h rq l p r q :
  rt_inv h rq l → queue (active rq) !! p = Some (r :: q) →
  ∃ rq' l1 l2, rotate_rr rq p = Some rq' ∧
    l = l1 ++ ((λ r, (p, r)) <$> r :: q) ++ l2 ∧
    rt_inv h rq' (l1 ++ ((λ r, (p, r)) <$> q ++ [r]) ++ l2).
Proof.
  intros Hi Hq. destruct (wp_elim _ _ (wp_rt_rotate_rr h rq l p r q Hi Hq)) as (rq' & Heq & l1 & l2 & Hl & Hi').
  by exists rq', l1, l2.
Qed.

(** ** Witnesses: round-robin threads 1 and 2 at priority 50, thread 3 at 10 *)

Definition rr_task : heap := policy_task SCHED_RR.

Definition demo : RtRq :=
  default new (rq ← enqueue new 1 50 true; rq ← enqueue rq 2 50 true; enqueue rq 3 10 true).

Lemma rt_demo_inv : rt_inv rr_task demo [(10, 3); (50, 1); (50, 2)].
Proof.
  pose proof (wp_rt_enqueue rr_task new [] 1 50 true (rt_inv_new _)) as H1.
  destruct (wp_elim _ _ (H1 ltac:(unfold MAX_RT_PRIO; lia) ltac:(by apply (bool_decide_unpack _); vm_compute) eq_refl))
    as (rq1 & E1 & I1 & _).
  destruct (wp_elim _ _ (wp_rt_enqueue _ _ _ 2 50 true I1 ltac:(unfold MAX_RT_PRIO; lia)
    ltac:(by apply (bool_decide_unpack _); vm_compute) eq_refl)) as (rq2 & E2 & I2 & _).
  destruct (wp_elim _ _ (wp_rt_enqueue _ _ _ 3 10 true I2 ltac:(unfold MAX_RT_PRIO; lia)
    ltac:(by apply (bool_decide_unpack _); vm_compute) eq_refl)) as (rq3 & E3 & I3 & _).
  unfold demo. rewrite E1. cbn [mbind option_bind]. rewrite E2. cbn [mbind option_bind]. by rewrite E3.
Qed.

Lemma enqueue_sorted_witness :
  match enqueue demo 4 10 true with
  | Some rq' => 10 < MAX_RT_PRIO ∧ rt_inv rr_task rq' [(10, 3); (10, 4); (50, 1); (50, 2)]
  | None => MAX_RT_PRIO ≤ 10
  end.
Proof.
  apply (enqueue_sorted rr_task demo _ 4 10 rt_demo_inv).
  apply (bool_decide_unpack _). vm_compute. exact I.
Defined.

Lemma pop_next_highest_witness :
  ∃ rq', pop_next rr_task demo = Some (Some 3, rq') ∧ rt_inv rr_task rq' [(50, 1); (50, 2)].
Proof.
  destruct (pop_next_highest rr_task demo _ rt_demo_inv) as (res & rq' & _ & Hp & Hres).
  change (rt_throttled demo) with false in Hres. destruct Hres as [Hi [-> _]].
  exists rq'. split; [exact Hp|exact Hi].
Defined.

Lemma remove_task_any_priority_witness :
  ∃ res rq', remove_task rr_task demo 2 = Some (res, rq') ∧
    match res with
    | None => (2 ∉ tids rr_task [(10, 3); (50, 1); (50, 2)]) ∧ rq' = demo
    | Some r => tid (rr_task r) = 2 ∧ ∃ p l1 l2,
        [(10, 3); (50, 1); (50, 2)] = l1 ++ (p, r) :: l2 ∧ rt_inv rr_task rq' (l1 ++ l2)
    end.
Proof. exact (remove_task_any_priority rr_task demo _ 2 rt_demo_inv). Defined.

Lemma rotate_rr_one_priority_witness :
  ∃ rq' l1 l2, rotate_rr demo 50 = Some rq' ∧
    [(10, 3); (50, 1); (50, 2)] = l1 ++ [(50, 1); (50, 2)] ++ l2 ∧
    rt_inv rr_task rq' (l1 ++ [(50, 2); (50, 1)] ++ l2).
Proof.
  apply (rotate_rr_one_priority rr_task demo _ 50 1 [2] rt_demo_inv). vm_compute. reflexivity.
Defined.

End RtProps.
