(* ===== verification/RunQueue.v ===== *)
(** * The per-CPU run queue (os/src/process/scheduler/runqueue.rs, stop_rq.rs, idle_rq.rs)

    [Rqinner] aggregates the five scheduling classes behind one lock.  Its
    content is one list of tasks in service order (deadline, then real-time, then
    fair), and every operation is specified on that list. *)

From S2P Require Import Prelude OrderedQueue RbArena RbTree Task CfsRq DeadlineRq RtRq.

(** The scheduling policies. *)
Definition SCHED_OTHER : Z := 0.

Definition SCHED_FIFO : Z := 1.

Definition SCHED_BATCH : Z := 3.

Definition SCHED_IDLE : Z := 5.

Definition SCHED_DEADLINE : Z := 6.

(** [struct StopRq] *)
Record StopRq := MkStopRq { stop_task : option TaskRef; stop_runnable : bool }.

Definition StopRq_new : StopRq := MkStopRq None false.

Definition set_stop_task (s : StopRq) (task : TaskRef) : StopRq :=
  MkStopRq (Some task) (stop_runnable s).

Definition set_runnable (s : StopRq) (b : bool) : StopRq := MkStopRq (stop_task s) b.

Definition StopRq_pick_next (s : StopRq) : option TaskRef :=
  if stop_runnable s then stop_task s else None.

(** [struct IdleRq] *)
Record IdleRq := MkIdleRq { idle_task : option TaskRef }.

Definition IdleRq_new : IdleRq := MkIdleRq None.

Definition set_idle_task (s : IdleRq) (task : TaskRef) : IdleRq := MkIdleRq (Some task).

Definition IdleRq_pick_next (s : IdleRq) : option TaskRef := idle_task s.

(** [task_weight_from_value] *)
Definition task_weight_from_value (w : Z) : Z := Z.min (Z.max w 1) USIZE_MAX.

(** [cpu_allowed] *)
Definition cpu_allowed (mask : Z) (cpu_id : nat) : bool :=
  (cpu_id <? 64) && negb (Z.land mask (Z.shiftl 1 (Z.of_nat cpu_id)) =? 0)%Z.

(** [Option::or_else] on results of operations that also change the state. *)
Definition or_else {A S} (m : option (option A * S)) (f : S → option (option A * S))
    : option (option A * S) :=
  '(x, s) ← m;
  match x with Some _ => Some (x, s) | None => f s end.

Section runqueue.
Context {Qc Qd : Type} `{!OrderedQueue CfsKey TaskRef Qc} `{!OrderedQueue DeadlineKey TaskRef Qd}.

(** [struct Rqinner] *)
Record Rqinner := MkRqinner {
  rq_stop : StopRq;
  rq_deadline : DeadlineRq (Q := Qd);
  rq_cfs : CfsRq (Q := Qc);
  rq_rt : RtRq;
  rq_idle : IdleRq;
  nr_running : nat;
}.

Implicit Types (h : heap) (rq : Rqinner) (r : TaskRef).

(** [Rqinner::new] *)
Definition new : Rqinner :=
  MkRqinner StopRq_new DeadlineRq.new CfsRq.new RtRq.new IdleRq_new 0.

Definition with_deadline (d : DeadlineRq) rq : Rqinner :=
  MkRqinner (rq_stop rq) d (rq_cfs rq) (rq_rt rq) (rq_idle rq) (nr_running rq).

Definition with_cfs (c : CfsRq) rq : Rqinner :=
  MkRqinner (rq_stop rq) (rq_deadline rq) c (rq_rt rq) (rq_idle rq) (nr_running rq).

Definition with_rt (q : RtRq) rq : Rqinner :=
  MkRqinner (rq_stop rq) (rq_deadline rq) (rq_cfs rq) q (rq_idle rq) (nr_running rq).

Definition with_nr_running (n : nat) rq : Rqinner :=
  MkRqinner (rq_stop rq) (rq_deadline rq) (rq_cfs rq) (rq_rt rq) (rq_idle rq) n.

(** [Rqinner::pick_next_task] *)
Definition pick_next_task rq : option (option TaskRef) :=
  rt_next ← RtRq.pick_next (rq_rt rq);
  Some (match StopRq_pick_next (rq_stop rq) with
  | Some r => Some r
  | None =>
    match DeadlineRq.pick_next (rq_deadline rq) with
    | Some r => Some r
    | None =>
      match rt_next with
      | Some r => Some r
      | None =>
        match CfsRq.pick_next (rq_cfs rq) with
        | Some r => Some r
        | None => IdleRq_pick_next (rq_idle rq)
        end
      end
    end
  end).

(** The dispatch of [Rqinner::enqueue_task] on the policy; any other policy is
    the panic. *)
Definition enqueue_class h rq r : option (heap * Rqinner) :=
  let t := h r in
  let p := sched_policy t in
  if (p =? SCHED_OTHER)%Z || (p =? SCHED_BATCH)%Z || (p =? SCHED_IDLE)%Z then
    '(h, c) ← CfsRq.enqueue h (rq_cfs rq) r (vruntime (se t)) (load_weight (se t));
    Some (h, with_cfs c rq)
  else if (p =? SCHED_FIFO)%Z || (p =? SCHED_RR)%Z then
    q ← RtRq.enqueue (rq_rt rq) r (Nat.min (Z.to_nat (Z.max (prio t) 0)) 99) (p =? SCHED_RR)%Z;
    Some (h, with_rt q rq)
  else if (p =? SCHED_DEADLINE)%Z then
    d ← DeadlineRq.enqueue h (rq_deadline rq) r (absolute_deadline (dl t));
    Some (h, with_deadline d rq)
  else None.

(** [Rqinner::enqueue_task]: the weight of the enqueued task, or [None] when
    the task is already queued or has exited. *)
Definition enqueue_task h rq r : option (option Z * (heap * Rqinner)) :=
  if on_rq (h r) then Some (None, (h, rq))
  else if decide (state (h r) = Zombie) then
    Some (None, (upd_task h r (with_on_rq false), rq))
  else
    let h := upd_task h r (λ t, with_on_cpu false (with_on_rq true t)) in
    let w := load_weight (se (h r)) in
    '(h, rq) ← enqueue_class h (with_nr_running (S (nr_running rq)) rq) r;
    Some (Some (task_weight_from_value w), (h, rq)).

(** [Rqinner::pop_next_task] *)
Definition pop_next_task h rq : option (option TaskRef * Rqinner) :=
  '(task, rq) ←
    or_else ('(t, d) ← DeadlineRq.pop_next (rq_deadline rq); Some (t, with_deadline d rq)) (λ rq,
    or_else ('(t, q) ← RtRq.pop_next h (rq_rt rq); Some (t, with_rt q rq)) (λ rq,
    '(t, c) ← CfsRq.pop_next h (rq_cfs rq); Some (t, with_cfs c rq)));
  match task with
  | Some task => Some (Some task, with_nr_running (nr_running rq - 1) rq)
  | None => Some (None, rq)
  end.

(** [enum StealResult] *)
Inductive StealResult :=
  | Stolen (task : TaskRef) (weight : Z)
  | Dropped (weight : Z)
  | NoneStolen.

(** [Rqinner::steal_task] *)
Definition steal_task h rq (target_cpu : nat) : option (StealResult * (heap * Rqinner)) :=
  '(task, rq) ← pop_next_task h rq;
  match task with
  | None => Some (NoneStolen, (h, rq))
  | Some r =>
    let h := upd_task h r (with_on_rq false) in
    let w := task_weight_from_value (load_weight (se (h r))) in
    if decide (state (h r) = Zombie) then Some (Dropped w, (h, rq))
    else if negb (on_main_hart (h r)) && cpu_allowed (cpus_allowed (h r)) target_cpu &&
            migratable (rt (h r)) then
      Some (Stolen r w, (upd_task h r (with_cpu target_cpu), rq))
    else
      '(_, s) ← enqueue_task h rq r;
      Some (NoneStolen, s)
  end.

(** [Rqinner::remove_task]: the weight of the removed task. *)
Definition remove_task h rq (i : nat) : option (option Z * (heap * Rqinner)) :=
  '(task, rq) ←
    or_else ('(t, d) ← DeadlineRq.remove_task h (rq_deadline rq) i; Some (t, with_deadline d rq)) (λ rq,
    or_else ('(t, q) ← RtRq.remove_task h (rq_rt rq) i; Some (t, with_rt q rq)) (λ rq,
    '(t, c) ← CfsRq.remove_task h (rq_cfs rq) i; Some (t, with_cfs c rq)));
  match task with
  | Some r =>
    Some (Some (task_weight_from_value (load_weight (se (h r)))),
      (upd_task h r (with_on_rq false), with_nr_running (nr_running rq - 1) rq))
  | None => Some (None, (h, rq))
  end.

(** ** Invariant *)

(** The class queues hold the tasks [l], in service order, and the counter
    counts them; real-time throttling is never engaged. *)
Definition rq_inv h rq (l : list TaskRef) : Prop :=
  ∃ ld lp lr lc,
    dl_inv h (rq_deadline rq) ld lp ∧ rt_inv h (rq_rt rq) lr ∧ cfs_inv h (rq_cfs rq) lc ∧
    l = ld.*2 ++ lr.*2 ++ lc.*2 ∧ nr_running rq = length l ∧ rt_throttled (rq_rt rq) = false.

(** The fields of a queued task that the queues rely on. *)
Definition rq_view (t : TaskStruct) : nat * Z * Z := (tid t, vruntime (se t), sched_policy t).

(** The policies [enqueue_task] accepts. *)
Definition policy_ok (p : Z) : bool :=
  (p =? SCHED_OTHER)%Z || (p =? SCHED_BATCH)%Z || (p =? SCHED_IDLE)%Z ||
  (p =? SCHED_FIFO)%Z || (p =? SCHED_RR)%Z || (p =? SCHED_DEADLINE)%Z.

(** ** Lemmas *)

Lemma wp_or_else {A S} (m : option (option A * S)) f (P : option A * S → Prop) :
  wp m (λ '(x, s), match x with Some _ => P (x, s) | None => wp (f s) P end) →
  wp (or_else m f) P.
Proof.
  intros Hm. unfold or_else. apply wp_bind. eapply wp_mono; [exact Hm|].
  by intros [[x|] s].
Qed.

Lemma rq_inv_new h : rq_inv h new [].
Proof.
  exists [], [], [], []. split_and!; try done; [apply dl_inv_new|apply rt_inv_new|apply cfs_inv_new].
Qed.

Lemma Forall_snd {A} (P : TaskRef → Prop) (l : list (A * TaskRef)) (l' : list TaskRef) :
  (∀ r, r ∈ l' → P r) → l.*2 ⊆ l' → Forall (λ e, P e.2) l.
Proof.
  intros HP Hsub. apply Forall_forall. intros e He. apply HP, Hsub.
  by apply list_elem_of_fmap_2.
Qed.

(** Writes that keep thread id, vruntime and policy of the queued tasks. *)
Lemma rq_inv_heap h h' rq l :
  (∀ r, r ∈ l → rq_view (h' r) = rq_view (h r)) → rq_inv h rq l → rq_inv h' rq l.
Proof.
  intros Hv (ld & lp & lr & lc & Hd & Hr & Hc & -> & Hn & Ht). exists ld, lp, lr, lc.
  split_and!; [..|done|done|done].
  - eapply dl_inv_heap; [|done]. eapply (Forall_snd (λ r, tid (h' r) = tid (h r)) _ (ld.*2 ++ lr.*2 ++ lc.*2)); [|set_solver].
    intros r Hin. by injection (Hv r Hin).
  - eapply rt_inv_heap; [|done].
    eapply (Forall_snd (λ r, tid (h' r) = tid (h r) ∧ sched_policy (h' r) = sched_policy (h r)) _ (ld.*2 ++ lr.*2 ++ lc.*2)); [|set_solver].
    intros r Hin. by injection (Hv r Hin).
  - eapply cfs_inv_heap; [|done]. eapply (Forall_snd (λ r, cfs_view (h' r) = cfs_view (h r)) _ (ld.*2 ++ lr.*2 ++ lc.*2)); [|set_solver].
    intros r Hin. injection (Hv r Hin) as H1 H2 _. unfold cfs_view. by rewrite H1, H2.
Qed.

Lemma wp_pop_next_task h rq l :
  rq_inv h rq l →
  wp (pop_next_task h rq) (λ '(res, rq'), res = head l ∧ rq_inv h rq' (tail l)).
Proof.
  intros (ld & lp & lr & lc & Hd & Hr & Hc & -> & Hn & Ht). unfold pop_next_task.
  apply wp_bind, wp_or_else, wp_bind. eapply wp_mono; [by apply wp_dl_pop_next|].
  intros [res d] (-> & Hd' & _). apply wp_ret.
  destruct ld as [|[kd rd] ld]; simpl in *; last first.
  { split; [done|]. exists ld, lp, lr, lc. split_and!; [done..| |done]. simpl. rewrite Hn. lia. }
  apply wp_or_else, wp_bind. simpl. eapply wp_mono; [by apply wp_rt_pop_next|].
  intros [res q] (-> & Hr' & Ht'). apply wp_ret.
  destruct lr as [|[kr rr] lr]; simpl in *; last first.
  { split; [done|]. exists [], lp, lr, lc. split_and!; [done..| |done]. simpl. rewrite Hn. lia. }
  apply wp_bind. eapply wp_mono; [by apply wp_cfs_pop_next|].
  intros [res c] (-> & Hc' & _). apply wp_ret.
  destruct lc as [|[kc rc] lc]; simpl in *.
  - split; [done|]. by exists [], lp, [], [].
  - split; [done|]. exists [], lp, [], lc. split_and!; [done..| |done]. simpl. rewrite Hn. lia.
Qed.

(** ** Enqueueing *)

Lemma not_in_class h (l : list TaskRef) {A} (lk : list (A * TaskRef)) i :
  i ∉ (λ r, tid (h r)) <$> l → lk.*2 ⊆ l → i ∉ (λ e, tid (h e.2)) <$> lk.
Proof.
  intros Hni Hsub (e & -> & He)%list_elem_of_fmap. apply Hni.
  apply (list_elem_of_fmap_2 (λ r, tid (h r))), Hsub. by apply list_elem_of_fmap_2.
Qed.

Lemma with_se_id t : with_se id t = t.
Proof. by destruct t. Qed.

Lemma upd_task_id h r r' : upd_task h r (with_se id) r' = h r'.
Proof.
  destruct (decide (r' = r)) as [->|Hne]; [by rewrite upd_task_eq, with_se_id|by rewrite upd_task_ne].
Qed.

Lemma wp_enqueue_class h rq l r :
  rq_inv h rq l → tid (h r) ∉ ((λ r, tid (h r)) <$> l) → policy_ok (sched_policy (h r)) = true →
  wp (enqueue_class h (with_nr_running (S (nr_running rq)) rq) r) (λ '(h', rq'), ∃ l' f,
    rq_inv h' rq' l' ∧ l' ≡ₚ r :: l ∧ ∀ r', h' r' = upd_task h r (with_se f) r').
Proof.
  intros (ld & lp & lr & lc & Hd & Hr & Hc & -> & Hn & Ht) Hnew Hpol. unfold enqueue_class. cbv zeta.
  assert (tid (h r) ∉ DeadlineRq.tids h ld) as Hnd by (eapply not_in_class; [exact Hnew|set_solver]).
  assert (tid (h r) ∉ RtRq.tids h lr) as Hnr by (eapply not_in_class; [exact Hnew|set_solver]).
  assert (tid (h r) ∉ CfsRq.tids h lc) as Hnc by (eapply not_in_class; [exact Hnew|set_solver]).
  destruct ((sched_policy (h r) =? SCHED_OTHER)%Z || _ || _) eqn:Hcfs.
  - apply wp_bind. eapply wp_mono; [by apply wp_cfs_enqueue|].
    intros [h' c] (-> & Hc' & _). apply wp_ret. set (v := Z.max _ _) in *. set (key := MkCfsKey _ _ _) in *.
    eexists (ld.*2 ++ lr.*2 ++ (sorted_insert key r lc).*2), (se_with_vruntime v).
    assert ((sorted_insert key r lc).*2 ≡ₚ r :: lc.*2) as Hp by (by rewrite sorted_insert_perm).
    split_and!; [|by rewrite Hp; solve_perm|done].
    assert (∀ r', r' ∈ ld.*2 ++ lr.*2 ++ lc.*2 → r' ≠ r) as Hne.
    { intros r' Hin ->. apply Hnew. by apply (list_elem_of_fmap_2 (λ r, tid (h r))). }
    exists ld, lp, lr, (sorted_insert key r lc). split_and!; simpl; [| |done|done| |done].
    + eapply dl_inv_heap; [|done]. eapply (Forall_snd (λ r', tid (upd_task _ r _ r') = tid (h r')) _ ld.*2); [|done].
      intros r' _. by apply (upd_task_proj tid).
    + eapply rt_inv_heap; [|done]. eapply (Forall_snd (λ r', tid (upd_task _ r _ r') = tid (h r') ∧
        sched_policy (upd_task _ r _ r') = sched_policy (h r')) _ lr.*2); [|done].
      intros r' _. split; [by apply (upd_task_proj tid)|by apply (upd_task_proj sched_policy)].
    + rewrite Hn, !length_app, Hp. simpl. lia.
  - destruct ((sched_policy (h r) =? SCHED_FIFO)%Z || _) eqn:Hrt.
    + apply wp_bind. eapply wp_mono.
      { eapply wp_rt_enqueue; [done| |done|].
        - unfold MAX_RT_PRIO. lia.
        - apply eq_bool_prop_intro. by rewrite Is_true_true, Z.eqb_eq, bool_decide_spec. }
      intros q [Hq Hthr]. apply wp_ret. set (p := Nat.min _ _) in *.
      assert ((sorted_insert p r lr).*2 ≡ₚ r :: lr.*2) as Hp by (by rewrite sorted_insert_perm).
      exists (ld.*2 ++ (sorted_insert p r lr).*2 ++ lc.*2), id.
      split_and!; [|by rewrite Hp; solve_perm|by intros; rewrite upd_task_id].
      exists ld, lp, (sorted_insert p r lr), lc. split_and!; simpl; try done.
      * rewrite Hn, !length_app, Hp. simpl. lia.
      * by rewrite Hthr.
    + unfold policy_ok in Hpol. rewrite Hcfs in Hpol. cbn [orb] in Hpol. rewrite Hrt in Hpol.
      cbn [orb] in Hpol. rewrite Hpol.
      apply wp_bind. eapply wp_mono; [by eapply wp_dl_enqueue|].
      intros d Hd'. apply wp_ret. set (key := MkDeadlineKey _ _) in *.
      assert ((sorted_insert key r ld).*2 ≡ₚ r :: ld.*2) as Hp by (by rewrite sorted_insert_perm).
      exists ((sorted_insert key r ld).*2 ++ lr.*2 ++ lc.*2), id.
      split_and!; [|by rewrite Hp; solve_perm|by intros; rewrite upd_task_id].
      exists (sorted_insert key r ld), lp, lr, lc. split_and!; simpl; try done.
      rewrite Hn, !length_app, Hp. simpl. lia.
Qed.

(** The update of [enqueue_task] on the task it enqueues. *)
Definition enqueued (f : SchedEntity → SchedEntity) (t : TaskStruct) : TaskStruct :=
  with_se f (with_on_cpu false (with_on_rq true t)).

Lemma wp_enqueue_task h rq l r :
  rq_inv h rq l → (on_rq (h r) = false → tid (h r) ∉ ((λ r, tid (h r)) <$> l)) →
  policy_ok (sched_policy (h r)) = true →
  wp (enqueue_task h rq r) (λ '(res, (h', rq')),
    match res with
    | None => rq' = rq ∧ (on_rq (h r) = true ∧ h' = h ∨
        on_rq (h r) = false ∧ state (h r) = Zombie ∧ h' = upd_task h r (with_on_rq false))
    | Some w => on_rq (h r) = false ∧ state (h r) ≠ Zombie ∧
        w = task_weight_from_value (load_weight (se (h r))) ∧
        ∃ l' f, rq_inv h' rq' l' ∧ l' ≡ₚ r :: l ∧ ∀ r', h' r' = upd_task h r (enqueued f) r'
    end).
Proof.
  intros Hi Hnew Hpol. unfold enqueue_task. destruct (on_rq (h r)) eqn:Hq.
  { apply wp_ret. split; [done|]. by left. }
  specialize (Hnew eq_refl). case_decide as Hz; [apply wp_ret; split; [done|]; by right|].
  set (h1 := upd_task h r (λ t, with_on_cpu false (with_on_rq true t))). cbv zeta.
  assert (∀ r', rq_view (h1 r') = rq_view (h r')) as Hv by (intros; by apply (upd_task_proj rq_view)).
  assert (∀ r', tid (h1 r') = tid (h r')) as Htid by (intros; by apply (upd_task_proj tid)).
  assert (load_weight (se (h1 r)) = load_weight (se (h r))) as ->
    by (by apply (upd_task_proj (λ t, load_weight (se t)))).
  apply wp_bind. eapply wp_mono.
  { apply (wp_enqueue_class h1 rq l r); [by eapply rq_inv_heap; [intros; apply Hv|]| |].
    - rewrite Htid. by rewrite (list_fmap_ext _ (λ r, tid (h r))) by (intros; apply Htid).
    - rewrite <-Hpol. f_equal. by apply (upd_task_proj sched_policy). }
  intros [h' rq'] (l' & f & Hi' & Hp & Hh). apply wp_ret. split_and!; [done..|].
  exists l', f. split_and!; [done..|]. intros r'. rewrite Hh. unfold upd_task, h1.
  destruct (decide (r' = r)) as [->|]; [by rewrite upd_task_eq|by rewrite upd_task_ne].
Qed.

Lemma wp_rq_remove_task h rq l i :
  rq_inv h rq l →
  wp (remove_task h rq i) (λ '(res, (h', rq')),
    match res with
    | None => (i ∉ ((λ r, tid (h r)) <$> l)) ∧ h' = h ∧ rq_inv h rq' l
    | Some w => ∃ r l1 l2, tid (h r) = i ∧ l = l1 ++ r :: l2 ∧
        w = task_weight_from_value (load_weight (se (h r))) ∧
        h' = upd_task h r (with_on_rq false) ∧ rq_inv h' rq' (l1 ++ l2)
    end).
Proof.
  intros (ld & lp & lr & lc & Hd & Hr & Hc & -> & Hn & Ht). unfold remove_task.
  assert (∀ r q l', rq_inv h q l' → rq_inv (upd_task h r (with_on_rq false)) q l') as Hclr.
  { intros r q l'. apply rq_inv_heap. intros. by apply (upd_task_proj rq_view). }
  rewrite !length_app in Hn.
  apply wp_bind, wp_or_else, wp_bind. eapply wp_mono; [by apply wp_dl_remove_task|].
  intros [[r|] d] Hdr; apply wp_ret.
  { destruct Hdr as (Htid & k & l1 & l2 & -> & Hd'). apply wp_ret.
    exists r, l1.*2, (l2.*2 ++ lr.*2 ++ lc.*2). split_and!; [done| |done..|].
    { by rewrite fmap_app, <-!app_assoc. }
    apply Hclr. exists (l1 ++ l2), lp, lr, lc. split_and!; simpl; [done..| | |done].
    - by rewrite fmap_app, <-!app_assoc.
    - rewrite Hn, !fmap_app, fmap_cons, !length_app. cbn [length]. lia. }
  destruct Hdr as [Hnd Hd']. apply wp_or_else, wp_bind. simpl.
  eapply wp_mono; [by apply wp_rt_remove_task|]. intros [[r|] q] [Hrr Hthr]; apply wp_ret.
  { destruct Hrr as (Htid & k & l1 & l2 & -> & Hr'). apply wp_ret.
    exists r, (ld.*2 ++ l1.*2), (l2.*2 ++ lc.*2). split_and!; [done| |done..|].
    { by rewrite fmap_app, <-!app_assoc. }
    apply Hclr. exists ld, lp, (l1 ++ l2), lc. split_and!; simpl; [done..| | |by rewrite Hthr].
    - by rewrite fmap_app, <-!app_assoc.
    - rewrite Hn, !fmap_app, fmap_cons, !length_app. cbn [length]. lia. }
  destruct Hrr as [Hnr ->]. apply wp_bind. simpl.
  eapply wp_mono; [by apply wp_cfs_remove_task|]. intros [[r|] c] (_ & _ & Hcr); apply wp_ret.
  - destruct Hcr as (Htid & k & l1 & l2 & -> & Hc' & _). apply wp_ret.
    exists r, (ld.*2 ++ lr.*2 ++ l1.*2), l2.*2. split_and!; [done| |done..|].
    { by rewrite fmap_app, <-!app_assoc. }
    apply Hclr. exists ld, lp, lr, (l1 ++ l2). split_and!; simpl; [done..| | |done].
    + by rewrite fmap_app, <-!app_assoc.
    + rewrite Hn, !fmap_app, fmap_cons, !length_app. cbn [length]. lia.
  - destruct Hcr as [Hnc Hc']. apply wp_ret. split_and!; [|done|].
    + rewrite !fmap_app, !elem_of_app. intros Hin.
      destruct Hin as [Hin|[Hin|Hin]]; rewrite <-list_fmap_compose in Hin; done.
    + exists ld, lp, lr, lc. by rewrite !length_app.
Qed.

Lemma wp_steal_task h rq l target :
  rq_inv h rq l → NoDup ((λ r, tid (h r)) <$> l) → (∀ r, policy_ok (sched_policy (h r)) = true) →
  wp (steal_task h rq target) (λ '(res, (h', rq')),
    match l with
    | [] => res = NoneStolen ∧ h' = h ∧ rq_inv h rq' []
    | r :: l0 =>
      let w := task_weight_from_value (load_weight (se (h r))) in
      if decide (state (h r) = Zombie) then
        res = Dropped w ∧ h' = upd_task h r (with_on_rq false) ∧ rq_inv h' rq' l0
      else if negb (on_main_hart (h r)) && cpu_allowed (cpus_allowed (h r)) target && migratable (rt (h r))
      then res = Stolen r w ∧ rq_inv h' rq' l0 ∧
        ∀ r', h' r' = upd_task h r (λ t, with_cpu target (with_on_rq false t)) r'
      else res = NoneStolen ∧ ∃ l' f, rq_inv h' rq' l' ∧ l' ≡ₚ l ∧
        ∀ r', h' r' = upd_task h r (enqueued f) r'
    end).
Proof.
  intros Hi Hnd Hpol. unfold steal_task. apply wp_bind.
  eapply wp_mono; [by apply wp_pop_next_task|]. intros [res q] [-> Hq].
  destruct l as [|r l0]; simpl in *; [by apply wp_ret|]. apply NoDup_cons in Hnd as [Hni Hnd].
  set (h1 := upd_task h r (with_on_rq false)).
  assert (∀ r', tid (h1 r') = tid (h r')) as Htid by (intros; by apply (upd_task_proj tid)).
  assert (rq_inv h1 q l0) as Hq1.
  { eapply rq_inv_heap; [|done]. intros. by apply (upd_task_proj rq_view). }
  assert (h1 r = with_on_rq false (h r)) as Hr1 by apply upd_task_eq. rewrite Hr1. simpl.
  case_decide as Hz; [by apply wp_ret|]. case_match eqn:Hm.
  - apply wp_ret. split_and!; [done| |].
    + eapply rq_inv_heap; [|exact Hq1]. intros. by apply (upd_task_proj rq_view).
    + intros r'. unfold h1. destruct (decide (r' = r)) as [->|];
        [by rewrite !upd_task_eq|by rewrite !upd_task_ne].
  - apply wp_bind. eapply wp_mono.
    { apply (wp_enqueue_task h1 q l0 r); [done| |rewrite <-(Hpol r); f_equal; by apply (upd_task_proj sched_policy)].
      intros _. rewrite Htid. by rewrite (list_fmap_ext _ (λ r, tid (h r))) by (intros; apply Htid). }
    intros [[w|] [h' rq']]; rewrite Hr1; simpl.
    + intros (_ & _ & _ & l' & f & Hi' & Hp & Hh). apply wp_ret. split; [done|]. exists l', f.
      split_and!; [done..|]. intros r'. rewrite Hh. unfold h1. destruct (decide (r' = r)) as [->|];
        [by rewrite !upd_task_eq|by rewrite !upd_task_ne].
    + intros (_ & [[? _]|(_ & ? & _)]); done.
Qed.

End runqueue.

(** ** Properties *)

Module RunQueueProps.
Section props.
Context {Qc Qd : Type} `{!OrderedQueue CfsKey TaskRef Qc} `{!OrderedQueue DeadlineKey TaskRef Qd}.
Implicit Types (h : heap) (rq : Rqinner (Qc := Qc) (Qd := Qd)) (r : TaskRef) (l : list TaskRef).

(** The classes are served in the fixed order deadline, real-time, fair:
    [pop_next_task] takes the head of the deadline queue if there is one, else of
    the real-time queue, else of the fair queue; it leaves the rest in order and
    [nr_running] keeps counting the queued tasks. *)
Theorem pop_next_task_class_order h rq ld lp lr lc :
  dl_inv h (rq_deadline rq) ld lp → rt_inv h (rq_rt rq) lr → cfs_inv h (rq_cfs rq) lc →
  nr_running rq = length ld + length lr + length lc → rt_throttled (rq_rt rq) = false →
  ∃ rq', pop_next_task h rq = Some (head (ld.*2 ++ lr.*2 ++ lc.*2), rq') ∧
    rq_inv h rq' (tail (ld.*2 ++ lr.*2 ++ lc.*2)) ∧ nr_running rq' = nr_running rq - 1.
Proof.
  intros Hd Hr Hc Hn Ht. assert (rq_inv h rq (ld.*2 ++ lr.*2 ++ lc.*2)) as Hi.
  { exists ld, lp, lr, lc. split_and!; [done..| |done]. rewrite Hn, !length_app, !length_fmap. lia. }
  destruct (wp_elim _ _ (wp_pop_next_task h rq _ Hi)) as ([res rq'] & Heq & -> & Hi').
  exists rq'. split_and!; [done..|]. destruct Hi' as (? & ? & ? & ? & _ & _ & _ & _ & -> & _).
  rewrite length_tl, !length_app, !length_fmap, Hn. lia.
Qed.

(** [enqueue_task] queues a live task that is on no queue exactly once, in the
    class of its policy, marks it [on_rq], and reports its weight; a task that is
    already queued or has exited is refused and the queues are not touched. *)
Theorem enqueue_task_once h rq l r :
  rq_inv h rq l → (on_rq (h r) = false → tid (h r) ∉ ((λ r, tid (h r)) <$> l)) →
  policy_ok (sched_policy (h r)) = true →
  ∃ res h' rq', enqueue_task h rq r = Some (res, (h', rq')) ∧
    match res with
    | None => rq' = rq ∧ (on_rq (h r) = true ∨ state (h r) = Zombie)
    | Some w => on_rq (h r) = false ∧ state (h r) ≠ Zombie ∧
        w = task_weight_from_value (load_weight (se (h r))) ∧ on_rq (h' r) = true ∧
        ∃ l', rq_inv h' rq' l' ∧ l' ≡ₚ r :: l
    end.
Proof.
  intros Hi Hnew Hp. destruct (wp_elim _ _ (wp_enqueue_task h rq l r Hi Hnew Hp)) as ([res [h' rq']] & Heq & Hres).
  exists res, h', rq'. split; [done|]. destruct res as [w|].
  - destruct Hres as (H1 & H2 & H3 & l' & f & Hi' & Hl' & Hh). split_and!; [done..| |by exists l'].
    by rewrite Hh, upd_task_eq.
  - destruct Hres as (-> & [[? _]|(_ & ? & _)]); auto.
Qed.
End props.

(** ** Witnesses: thread 7 is real-time, every other thread is fair *)

Definition RqTree := Rqinner (Qc := RbRootCached CfsKey TaskRef) (Qd := RbRootCached DeadlineKey TaskRef).

Definition mixed (r : TaskRef) : TaskStruct :=
  if decide (r = 7) then policy_task SCHED_RR r else normal_task r.

Lemma pop_next_task_class_order_witness :
  ∃ rq', pop_next_task mixed (new : RqTree) = Some (None, rq') ∧ rq_inv mixed rq' [].
Proof.
  destruct (pop_next_task_class_order mixed (new : RqTree) [] [] [] []) as (rq' & Heq & Hi & _).
  - apply dl_inv_new.
  - apply rt_inv_new.
  - apply cfs_inv_new.
  - reflexivity.
  - reflexivity.
  - exists rq'. split; [exact Heq|exact Hi].
Defined.

Lemma enqueue_task_once_witness :
  ∃ res h' rq', enqueue_task mixed (new : RqTree) 7 = Some (res, (h', rq')) ∧
    match res with
    | None => rq' = new ∧ (on_rq (mixed 7) = true ∨ state (mixed 7) = Zombie)
    | Some w => on_rq (mixed 7) = false ∧ state (mixed 7) ≠ Zombie ∧
        w = 1024%Z ∧ on_rq (h' 7) = true ∧ ∃ l', rq_inv h' rq' l' ∧ l' ≡ₚ [7]
    end.
Proof.
  apply (enqueue_task_once mixed (new : RqTree) [] 7).
  - apply rq_inv_new.
  - intros _. apply (bool_decide_unpack _). vm_compute. exact I.
  - reflexivity.
Defined.

(** A run queue with a real-time and a fair thread serves the real-time one. *)
Example class_order_example :
  ('(_, (h, rq)) ← enqueue_task mixed (new : RqTree) 1;
   '(_, (h, rq)) ← enqueue_task h rq 7;
   '(a, rq) ← pop_next_task h rq; '(b, rq) ← pop_next_task h rq;
   Some (a, b, nr_running rq)) = Some (Some 7, Some 1, 0).
Proof. vm_compute. reflexivity. Qed.

End RunQueueProps.
