(* ===== verification/Sched.v ===== *)
(** * The scheduler across CPUs (os/src/process/scheduler/runqueue.rs, idle_rq.rs)

    The array of run queues with their published views, and the operations that
    move tasks between them: placement, enqueueing, fetching, stealing, waking and
    the idle notification.  The state threads the task heap, the run queues and
    the log of scheduler interrupts sent to other CPUs. *)

From S2P Require Import Prelude OrderedQueue RbArena RbTree Task CfsRq DeadlineRq RtRq RunQueue.

(** [enum IdleState]; the published state is its raw number. *)
Inductive IdleState := IdleRunning | IdlePolling | IdleWfi.

#[export] Instance IdleState_eq_dec : EqDecision IdleState.
Proof. solve_decision. Defined.

Definition idle_raw (s : IdleState) : Z :=
  match s with IdleRunning => 0 | IdlePolling => 1 | IdleWfi => 2 end.

(** [IdleState::from_raw] *)
Definition from_raw (raw : Z) : IdleState :=
  if (raw =? 1)%Z then IdlePolling else if (raw =? 2)%Z then IdleWfi else IdleRunning.

(** [struct RqView] *)
Record RqView := MkView {
  runnable_count : Z;
  runnable_weight : Z;
  wake_reservations : Z;
  idle_state : Z;
  online : bool;
  ipi_pending : bool;
}.

Definition RqView_new : RqView := MkView 0 0 0 (idle_raw IdleRunning) false false.

(** [struct RqSnapshot] and [RqView::snapshot] *)
Record RqSnapshot := MkSnapshot {
  s_runnable_count : Z;
  s_runnable_weight : Z;
  s_wake_reservations : Z;
  s_idle_state : IdleState;
  s_online : bool;
}.

Definition snapshot (v : RqView) : RqSnapshot :=
  MkSnapshot (runnable_count v) (runnable_weight v) (wake_reservations v)
    (from_raw (idle_state v)) (online v).

(** [RqView::add_runnable]: [fetch_add] wraps around. *)
Definition add_runnable (w : Z) (v : RqView) : RqView :=
  MkView (wrapping_add (runnable_count v) 1) (wrapping_add (runnable_weight v) w)
    (wake_reservations v) (idle_state v) (online v) (ipi_pending v).

(** [RqView::remove_runnable] *)
Definition remove_runnable (w : Z) (v : RqView) : RqView :=
  MkView (saturating_sub (runnable_count v) 1) (saturating_sub (runnable_weight v) w)
    (wake_reservations v) (idle_state v) (online v) (ipi_pending v).

(** [RqView::consume_wakeup_reservation] *)
Definition consume_wakeup_reservation (v : RqView) : RqView :=
  MkView (runnable_count v) (runnable_weight v) (saturating_sub (wake_reservations v) 1)
    (idle_state v) (online v) (ipi_pending v).

(** [RqView::try_reserve_wakeup] *)
Definition try_reserve_wakeup (v : RqView) (expected : Z) : bool * RqView :=
  if (wake_reservations v =? expected)%Z then
    (true, MkView (runnable_count v) (runnable_weight v) (saturating_add expected 1)
             (idle_state v) (online v) (ipi_pending v))
  else (false, v).

Definition with_idle_state (s : IdleState) (v : RqView) : RqView :=
  MkView (runnable_count v) (runnable_weight v) (wake_reservations v) (idle_raw s) (online v)
    (ipi_pending v).

Definition with_online (b : bool) (v : RqView) : RqView :=
  MkView (runnable_count v) (runnable_weight v) (wake_reservations v) (idle_state v) b
    (ipi_pending v).

Definition with_ipi_pending (b : bool) (v : RqView) : RqView :=
  MkView (runnable_count v) (runnable_weight v) (wake_reservations v) (idle_state v) (online v) b.

(** The gated section of [mark_resched_and_kick]: whether an interrupt is sent. *)
Definition kick_view (v : RqView) : bool * RqView :=
  if (idle_state v =? idle_raw IdleWfi)%Z
  then (negb (ipi_pending v), with_ipi_pending true v)
  else (false, v).

(** The gated section of [scheduler_idle_arm] on a queue with [n] tasks. *)
Definition arm_view (n : nat) (v : RqView) : bool * RqView :=
  if n =? 0 then (true, with_idle_state IdleWfi v) else (false, with_idle_state IdleRunning v).

(** The gated section of [scheduler_idle_exit], the interrupt acknowledgement
    apart. *)
Definition exit_view (v : RqView) : RqView :=
  with_ipi_pending false (with_idle_state IdleRunning v).

(** [struct CpuSelection] *)
Record CpuSelection := MkSelection { sel_cpu : nat; sel_reserved : bool }.

(** A candidate of the placement scan: (score, affinity penalty, CPU, observed
    reservations), compared lexicographically. *)
Definition candidate : Type := Z * Z * nat * Z.

(** [allowed_fallback] with [n] CPUs *)
Definition allowed_fallback (n : nat) (allowed : Z) (fallback_cpu : nat) : nat :=
  if cpu_allowed allowed fallback_cpu && (fallback_cpu <? n) then fallback_cpu
  else
    match list_find (λ c, cpu_allowed allowed c = true) (seq 0 n) with
    | Some (_, c) => c
    | None => Nat.min fallback_cpu (n - 1)
    end.

(** [best.map_or(true, |current| candidate < current)] and the assignment. *)
Definition better (c : candidate) (best : option candidate) : option candidate :=
  match best with
  | None => Some c
  | Some cur => if ord_lt c cur then Some c else best
  end.

(** One iteration of the scan of [select_task_rq]; [snap] reads the view of a CPU, and
    there is none at an index out of range, which panics. *)
Definition scan_cpu (allowed : Z) (preferred : nat) (task_weight : Z) (snap : nat → option RqSnapshot)
    (best : option candidate * option candidate) (cpu_id : nat)
    : option (option candidate * option candidate) :=
  let '(best_idle, best_loaded) := best in
  if negb (cpu_allowed allowed cpu_id) then Some best
  else
    s ← snap cpu_id;
    if negb (s_online s) then Some best
    else
      let score := saturating_add (s_runnable_weight s)
                     (saturating_mul (s_wake_reservations s) task_weight) in
      let idle := negb (bool_decide (s_idle_state s = IdleRunning)) &&
                  (s_runnable_count s =? 0)%Z in
      let penalty := if decide (cpu_id = preferred) then 0%Z else 1%Z in
      let c := (score, penalty, cpu_id, s_wake_reservations s) in
      Some (if idle then (better c best_idle, best_loaded) else (best_idle, better c best_loaded)).

Fixpoint scan_loop (allowed : Z) (preferred : nat) (task_weight : Z) (snap : nat → option RqSnapshot)
    (best : option candidate * option candidate) (cpus : list nat)
    : option (option candidate * option candidate) :=
  match cpus with
  | [] => Some best
  | cpu_id :: cpus =>
    best ← scan_cpu allowed preferred task_weight snap best cpu_id;
    scan_loop allowed preferred task_weight snap best cpus
  end.

(** [best_idle.or(best_loaded)] after scanning all [n] CPUs. *)
Definition scan_cpus (n : nat) (allowed : Z) (preferred : nat) (task_weight : Z)
    (snap : nat → option RqSnapshot) : option (option candidate) :=
  '(best_idle, best_loaded) ← scan_loop allowed preferred task_weight snap (None, None) (seq 0 n);
  Some (match best_idle with Some c => Some c | None => best_loaded end).

(** The retry loop of [select_task_rq]; [obs k] is what retry [k] reads from the
    published views, and whether its compare-and-exchange then succeeds. *)
Fixpoint select_loop (fuel n : nat) (allowed : Z) (preferred fallback : nat) (task_weight : Z)
    (obs : nat → (nat → option RqSnapshot) * bool) (retries : nat) : option CpuSelection :=
  match fuel with
  | O => None
  | S fuel =>
    best ← scan_cpus n allowed preferred task_weight (obs retries).1;
    match best with
    | None => Some (MkSelection fallback false)
    | Some (_, _, selected_cpu, _) =>
      if (obs retries).2 then Some (MkSelection selected_cpu true)
      else if decide (Nat.max (n * 2) 1 ≤ S retries) then Some (MkSelection fallback false)
      else select_loop fuel n allowed preferred fallback task_weight obs (S retries)
    end
  end.

(** [select_task_rq] with [n] CPUs. *)
Definition select_task_rq (n : nat) (t : TaskStruct) (source_cpu prefer_cpu : nat)
    (obs : nat → (nat → option RqSnapshot) * bool) : option CpuSelection :=
  let allowed := cpus_allowed t in
  let task_weight := task_weight_from_value (load_weight (se t)) in
  let preferred :=
    if cpu_allowed allowed prefer_cpu && (prefer_cpu <? n) then prefer_cpu
    else allowed_fallback n allowed source_cpu in
  let fallback := allowed_fallback n allowed preferred in
  if on_main_hart t || (n <=? 1) then Some (MkSelection fallback false)
  else select_loop (Nat.max (n * 2) 1) n allowed preferred fallback task_weight obs 0.

Section sched.
Context {Qc Qd : Type} `{!OrderedQueue CfsKey TaskRef Qc} `{!OrderedQueue DeadlineKey TaskRef Qd}.

(** [struct Rq]: the queues behind the lock and the published view. *)
Record Rq := MkRq { inner : Rqinner (Qc := Qc) (Qd := Qd); view : RqView }.

(** The scheduler state; [ipis] logs the CPUs interrupted by
    [send_scheduler_ipi], most recent first. *)
Record sys := MkSys { tasks : heap; rqs : list Rq; ipis : list nat }.

Implicit Types (s : sys) (r : TaskRef) (hart cpu_id : nat).

Definition ncpu s : nat := length (rqs s).

Definition with_tasks (h : heap) s : sys := MkSys h (rqs s) (ipis s).

Definition with_inner (cpu_id : nat) (q : Rqinner) s : sys :=
  MkSys (tasks s) (alter (λ rq, MkRq q (view rq)) cpu_id (rqs s)) (ipis s).

(** A change of the view of a queue that the code holds a reference to. *)
Definition upd_view (cpu_id : nat) (f : RqView → RqView) s : sys :=
  MkSys (tasks s) (alter (λ rq, MkRq (inner rq) (f (view rq))) cpu_id (rqs s)) (ipis s).

(** A change of the view of [RQ_ARRAY[cpu_id]]: an index out of range panics. *)
Definition index_view (cpu_id : nat) (f : RqView → RqView) s : option sys :=
  if decide (cpu_id < ncpu s) then Some (upd_view cpu_id f s) else None.

Definition on_task r (f : TaskStruct → TaskStruct) s : sys := with_tasks (upd_task (tasks s) r f) s.

(** [normalize_cpu] and [local_cpu] *)
Definition normalize_cpu s cpu_id : option nat :=
  if decide (cpu_id < ncpu s) then Some cpu_id else None.

Definition local_cpu s hart : nat := Nat.min hart (ncpu s - 1).

(** A change of a view behind [normalize_cpu]: nothing happens out of range. *)
Definition normalized_view (cpu_id : nat) (f : RqView → RqView) s : sys :=
  match normalize_cpu s cpu_id with
  | Some cpu_id => upd_view cpu_id f s
  | None => s
  end.

(** The snapshot a selector reads from [RQ_ARRAY[c]] in state [s]. *)
Definition snapshots s (c : nat) : option RqSnapshot :=
  rq ← rqs s !! c; Some (snapshot (view rq)).

(** [mark_resched_and_kick] *)
Definition mark_resched_and_kick s cpu_id (source_cpu : nat) : sys :=
  match rqs s !! cpu_id with
  | None => s
  | Some rq =>
    if decide (cpu_id = source_cpu) then s
    else
      let s' := upd_view cpu_id (λ v, (kick_view v).2) s in
      if (kick_view (view rq)).1 then MkSys (tasks s') (rqs s') (cpu_id :: ipis s') else s'
  end.

(** [select_task_rq] when no other CPU runs in between: every snapshot is the
    current one, and the compare-and-exchange finds the value it read. *)
Definition select_and_reserve s r (source_cpu prefer_cpu : nat) : option (CpuSelection * sys) :=
  sel ← select_task_rq (ncpu s) (tasks s r) source_cpu prefer_cpu (λ _, (snapshots s, true));
  if sel_reserved sel then
    s ← index_view (sel_cpu sel) (λ v, (try_reserve_wakeup v (wake_reservations v)).2) s;
    Some (sel, s)
  else Some (sel, s).

(** The reservation of a selection is used up. *)
Definition consume_selection (sel : CpuSelection) s : option sys :=
  if sel_reserved sel then index_view (sel_cpu sel) consume_wakeup_reservation s else Some s.

(** [enqueue_task_on_cpu] *)
Definition enqueue_task_on_cpu s r cpu_id (is_new_runnable : bool) : option (bool * sys) :=
  match rqs s !! cpu_id with
  | None => Some (false, s)
  | Some rq =>
    if decide (state (tasks s r) = Zombie) then
      Some (false, on_task r (λ t, with_on_cpu false (with_on_rq false t)) s)
    else
      let s := on_task r (λ t, with_on_cpu false (with_state Ready (with_cpu cpu_id t))) s in
      let enqueue := if is_new_runnable
        then Some (task_weight_from_value (load_weight (se (tasks s r)))) else None in
      '(enqueued, (h, q)) ← enqueue_task (tasks s) (inner rq) r;
      let s := with_inner cpu_id q (with_tasks h s) in
      match enqueued, enqueue with
      | Some w, Some weight =>
        if decide (weight = w) then s ← index_view cpu_id (add_runnable w) s; Some (true, s) else None
      | Some w, None => Some (true, s)
      | None, _ => Some (false, s)
      end
  end.

(** [enqueue_selected_task] *)
Definition enqueue_selected_task s r (sel : CpuSelection) (source_cpu : nat) (is_new : bool)
    : option (bool * sys) :=
  '(enqueued, s) ← enqueue_task_on_cpu s r (sel_cpu sel) is_new;
  s ← consume_selection sel s;
  Some (enqueued, if (enqueued : bool) then mark_resched_and_kick s (sel_cpu sel) source_cpu else s).

(** [enqueue_new_task] on CPU [hart] *)
Definition enqueue_new_task hart s r (parent_cpu : nat) : option sys :=
  let source_cpu := local_cpu s hart in
  '(sel, s) ← select_and_reserve s r source_cpu parent_cpu;
  '(_, s) ← enqueue_selected_task s r sel source_cpu true;
  Some s.

(** [enqueue_woken_task] *)
Definition enqueue_woken_task hart s r (wake_source_cpu : nat) : option (bool * sys) :=
  let prefer_cpu := cpu (tasks s r) in
  '(sel, s') ← select_and_reserve s r wake_source_cpu prefer_cpu;
  enqueue_selected_task s' r sel (local_cpu s hart) true.

(** [enqueue_resumed_task] *)
Definition enqueue_resumed_task hart s r (wake_source : nat) : option (bool * sys) :=
  let old_cpu := cpu (tasks s r) in
  let weight := task_weight_from_value (load_weight (se (tasks s r))) in
  '(sel, s) ← select_and_reserve s r wake_source old_cpu;
  let target_cpu := sel_cpu sel in
  '(enqueued, s) ← enqueue_task_on_cpu s r target_cpu false;
  s ← consume_selection sel s;
  if negb enqueued then Some (false, s)
  else
    s ← (if decide (old_cpu = target_cpu) then Some s
         else index_view target_cpu (add_runnable weight) (normalized_view old_cpu (remove_runnable weight) s));
    Some (true, mark_resched_and_kick s target_cpu (local_cpu s hart)).

(** [add_task_into_pool] *)
Definition add_task_into_pool hart s r : option sys :=
  let cpu_id := default (local_cpu s hart) (normalize_cpu s (cpu (tasks s r))) in
  '(_, s) ← enqueue_task_on_cpu s r cpu_id false;
  Some s.

(** The loop of [remove_task_from_all_local_queues_unlocked] from CPU [c] on. *)
Fixpoint remove_from_queues s (i : nat) (c n : nat) : option sys :=
  match n with
  | O => Some s
  | S n =>
    rq ← rqs s !! c;
    '(removed, (h, q)) ← remove_task (tasks s) (inner rq) i;
    let s := with_inner c q (with_tasks h s) in
    match removed with
    | Some w => Some (upd_view c (remove_runnable w) s)
    | None => remove_from_queues s i (S c) n
    end
  end.

Definition remove_task_from_all_local_queues_unlocked s (i : nat) : option sys :=
  remove_from_queues s i 0 (ncpu s).

(** [advance_cfs_min_vruntime] *)
Definition advance_cfs_min_vruntime s cpu_id : sys :=
  match rqs s !! cpu_id with
  | None => s
  | Some rq => with_inner cpu_id (with_cfs (advance_min_vruntime (rq_cfs (inner rq))) (inner rq)) s
  end.

(** [wake_up_task] on CPU [hart]; the first section runs under the task lock. *)
Definition wake_up_task hart s r : option (bool * sys) :=
  if decide (state (tasks s r) = Blocked) then
    enqueue_woken_task hart (on_task r (with_state Ready) s) r hart
  else if decide (state (tasks s r) = BlockSaving) then
    Some (false, on_task r (with_wake true (Some hart)) s)
  else Some (false, s).

(** The loop of [fetch_task]. *)
Fixpoint fetch_loop (fuel : nat) hart s : option (option TaskRef * sys) :=
  match fuel with
  | O => None
  | S fuel =>
    rq ← rqs s !! hart;
    '(task, q) ← pop_next_task (tasks s) (inner rq);
    let s := with_inner hart q s in
    match task with
    | None => Some (None, s)
    | Some r =>
      let s := on_task r (with_on_rq false) s in
      if decide (state (tasks s r) = Zombie) then
        let s := on_task r (with_on_cpu false) s in
        let w := task_weight_from_value (load_weight (se (tasks s r))) in
        fetch_loop fuel hart (upd_view hart (remove_runnable w) s)
      else
        Some (Some r, on_task r (λ t,
          with_need_resched false (with_state Running (with_on_cpu true (with_cpu hart t)))) s)
    end
  end.

(** [fetch_task] on CPU [hart] *)
Definition fetch_task hart s : option (option TaskRef * sys) :=
  match rqs s !! hart with
  | None => Some (None, s)
  | Some rq => fetch_loop (S (nr_running (inner rq))) hart s
  end.

(** [steal_task_from_cpu] on CPU [hart] *)
Definition steal_task_from_cpu hart s (source_cpu target_cpu : nat) : option (StealResult * sys) :=
  if decide (ncpu s ≤ target_cpu) then Some (NoneStolen, s)
  else
    match rqs s !! source_cpu with
    | None => Some (NoneStolen, s)
    | Some rq =>
      '(result, (h, q)) ← steal_task (tasks s) (inner rq) target_cpu;
      let s := with_inner source_cpu q (with_tasks h s) in
      match result with
      | Stolen r w =>
        s ← (if decide (source_cpu = target_cpu) then Some s
             else index_view target_cpu (add_runnable w) (upd_view source_cpu (remove_runnable w) s));
        Some (Stolen r w, mark_resched_and_kick s target_cpu (local_cpu s hart))
      | Dropped w => Some (Dropped w, upd_view source_cpu (remove_runnable w) s)
      | NoneStolen => Some (NoneStolen, s)
      end
    end.

(** The scan of [idle_tasks]: the first CPU with the largest positive load. *)
Fixpoint busiest_loop s cpu_id (best : option (nat * Z)) (cpus : list nat) : option (option (nat * Z)) :=
  match cpus with
  | [] => Some best
  | c :: cpus =>
    if decide (c = cpu_id) then busiest_loop s cpu_id best cpus
    else
      snap ← snapshots s c;
      let load := s_runnable_count snap in
      busiest_loop s cpu_id (if (from_option snd 0 best <? load)%Z then Some (c, load) else best) cpus
  end.

Definition busiest s cpu_id : option (option (nat * Z)) := busiest_loop s cpu_id None (seq 0 (ncpu s)).

(** [idle_tasks] *)
Definition idle_tasks hart s cpu_id : option (option TaskRef * sys) :=
  if decide (ncpu s ≤ cpu_id) then Some (None, s)
  else
    best ← busiest s cpu_id;
    match best with
    | None => Some (None, s)
    | Some (remote_cpu, _) =>
      '(result, s) ← steal_task_from_cpu hart s remote_cpu cpu_id;
      Some (match result with Stolen r _ => Some r | _ => None end, s)
    end.

(** [scheduler_cpu_online], [scheduler_cpu_running], [scheduler_idle_prepare] *)
Definition scheduler_cpu_online s cpu_id : sys := normalized_view cpu_id (with_online true) s.

Definition scheduler_cpu_running s cpu_id : sys := normalized_view cpu_id (with_idle_state IdleRunning) s.

Definition scheduler_idle_prepare s cpu_id : sys := normalized_view cpu_id (with_idle_state IdlePolling) s.

(** [scheduler_idle_arm] *)
Definition scheduler_idle_arm s cpu_id : bool * sys :=
  match rqs s !! cpu_id with
  | None => (false, s)
  | Some rq =>
    ((arm_view (nr_running (inner rq)) (view rq)).1,
     upd_view cpu_id (λ v, (arm_view (nr_running (inner rq)) v).2) s)
  end.

(** [scheduler_idle_exit] *)
Definition scheduler_idle_exit s cpu_id : sys :=
  normalized_view cpu_id exit_view s.

(** [scheduler_task_stopped] *)
Definition scheduler_task_stopped s cpu_id (w : Z) : sys :=
  normalized_view cpu_id (remove_runnable (task_weight_from_value w)) s.

End sched.

(** ** Placement *)

Section placement.
Context (allowed : Z) (preferred : nat) (w : Z) (read : nat → option RqSnapshot) (snap : nat → RqSnapshot).

(** What the scan sees of a CPU. *)
Definition eligible (c : nat) : Prop := cpu_allowed allowed c = true ∧ s_online (snap c) = true.

Definition idle_cpu (c : nat) : Prop :=
  s_idle_state (snap c) ≠ IdleRunning ∧ s_runnable_count (snap c) = 0%Z.

Definition cand (c : nat) : candidate :=
  (saturating_add (s_runnable_weight (snap c)) (saturating_mul (s_wake_reservations (snap c)) w),
   if decide (c = preferred) then 0%Z else 1%Z, c, s_wake_reservations (snap c)).

(** [best] is the least candidate of the CPUs in [l] that satisfy [P]. *)
Definition least (P : nat → Prop) (l : list nat) (best : option candidate) : Prop :=
  match best with
  | None => ∀ c, c ∈ l → ¬ P c
  | Some k => ∃ c, c ∈ l ∧ P c ∧ k = cand c ∧ ∀ c', c' ∈ l → P c' → ord_le k (cand c')
  end.

Lemma least_skip P l c best : least P l best → ¬ P c → least P (l ++ [c]) best.
Proof.
  intros Hl Hc. destruct best as [k|]; simpl in *.
  - destruct Hl as (c0 & Hin & Hp & -> & Hmin). exists c0. split_and!; [set_solver|done..|].
    intros c' [Hc'|Hc'%list_elem_of_singleton]%elem_of_app; [by apply Hmin|by subst].
  - intros c' [Hc'|Hc'%list_elem_of_singleton]%elem_of_app; [by apply Hl|by subst].
Qed.

Lemma least_better P l c best : least P l best → P c → least P (l ++ [c]) (better (cand c) best).
Proof.
  intros Hl Hc. destruct best as [k|]; simpl in *.
  - destruct Hl as (c0 & Hin & Hp & -> & Hmin). destruct (ord_lt (cand c) (cand c0)) eqn:Hlt.
    + exists c. split_and!; [set_solver|done..|].
      intros c' [Hc'|Hc'%list_elem_of_singleton]%elem_of_app Hp'; [|by subst].
      etrans; [by apply ord_lt_le|by apply Hmin].
    + apply ord_lt_false in Hlt. exists c0. split_and!; [set_solver|done..|].
      intros c' [Hc'|Hc'%list_elem_of_singleton]%elem_of_app Hp'; [by apply Hmin|by subst].
  - exists c. split_and!; [set_solver|done..|].
    intros c' [Hc'|Hc'%list_elem_of_singleton]%elem_of_app Hp'; [by destruct (Hl c' Hc')|by subst].
Qed.

Lemma scan_cpu_least l c bi bl :
  read c = Some (snap c) →
  least (λ c, eligible c ∧ idle_cpu c) l bi → least (λ c, eligible c ∧ ¬ idle_cpu c) l bl →
  wp (scan_cpu allowed preferred w read (bi, bl) c) (λ '(bi', bl'),
    least (λ c, eligible c ∧ idle_cpu c) (l ++ [c]) bi' ∧
    least (λ c, eligible c ∧ ¬ idle_cpu c) (l ++ [c]) bl').
Proof.
  intros Hr Hi Hl. unfold scan_cpu. rewrite Hr.
  destruct (cpu_allowed allowed c) eqn:Ha; simpl; last first.
  { split; apply least_skip; unfold eligible; naive_solver congruence. }
  destruct (s_online (snap c)) eqn:Ho; simpl; last first.
  { split; apply least_skip; unfold eligible; naive_solver congruence. }
  assert (eligible c) as He by done.
  destruct (negb (bool_decide (s_idle_state (snap c) = IdleRunning)) &&
    (s_runnable_count (snap c) =? 0)%Z) eqn:Hidle.
  - apply andb_true_iff in Hidle as [Hs%negb_true_iff%bool_decide_eq_false Hc%Z.eqb_eq].
    split; [by apply least_better|]. apply least_skip; [done|]. unfold idle_cpu. naive_solver.
  - assert (¬ idle_cpu c) as Hni.
    { intros [Hs Hc]. apply andb_false_iff in Hidle as [Hf|Hf].
      - apply negb_false_iff, bool_decide_eq_true in Hf. done.
      - by apply Z.eqb_neq in Hf. }
    split; [apply least_skip; [done|naive_solver]|by apply least_better].
Qed.

Lemma scan_loop_least l done_ bi bl :
  Forall (λ c, read c = Some (snap c)) l →
  least (λ c, eligible c ∧ idle_cpu c) done_ bi → least (λ c, eligible c ∧ ¬ idle_cpu c) done_ bl →
  wp (scan_loop allowed preferred w read (bi, bl) l) (λ '(bi', bl'),
    least (λ c, eligible c ∧ idle_cpu c) (done_ ++ l) bi' ∧
    least (λ c, eligible c ∧ ¬ idle_cpu c) (done_ ++ l) bl').
Proof.
  revert done_ bi bl. induction l as [|c l IH]; intros done_ bi bl Hr Hi Hl; cbn [scan_loop].
  { apply wp_ret. by rewrite app_nil_r. }
  apply Forall_cons in Hr as [Hc Hr]. apply wp_bind. eapply wp_mono; [by apply scan_cpu_least|].
  intros [bi1 bl1] [Hi1 Hl1]. rewrite (cons_middle c done_ l), (assoc_L (++)). by apply IH.
Qed.

(** The scan finds the least-loaded idle CPU, or else the least-loaded one. *)
Lemma scan_cpus_spec n : (∀ c, c < n → read c = Some (snap c)) →
  wp (scan_cpus n allowed preferred w read) (λ best,
    match best with
    | None => ∀ c, c < n → ¬ eligible c
    | Some k => ∃ c, c < n ∧ eligible c ∧ k = cand c ∧
        (idle_cpu c ∨ ∀ c', c' < n → eligible c' → ¬ idle_cpu c') ∧
        ∀ c', c' < n → eligible c' → (idle_cpu c' ↔ idle_cpu c) → ord_le k (cand c')
    end).
Proof.
  intros Hread. assert (∀ c, c ∈ seq 0 n ↔ c < n) as Hseq by (intros c; rewrite elem_of_seq; lia).
  unfold scan_cpus. apply wp_bind. eapply wp_mono.
  { apply (scan_loop_least (seq 0 n) [] None None); [apply Forall_forall; intros c Hc%Hseq; by apply Hread|by intros c ?%not_elem_of_nil..]. }
  intros [bi bl] [Hi Hl]. apply wp_ret. simpl in Hi, Hl.
  destruct bi as [k|]; simpl in Hi.
  - destruct Hi as (c & Hin & [He Hid] & -> & Hmin). exists c. apply Hseq in Hin.
    split_and!; [done..|by left|]. intros c' Hc' He' Hiff. apply Hmin; [by apply Hseq|]. split; [done|by apply Hiff].
  - destruct bl as [k|]; simpl in Hl.
    + destruct Hl as (c & Hin & [He Hid] & -> & Hmin). exists c. apply Hseq in Hin. split_and!; [done..| |].
      * right. intros c' Hc' He' Hi'. apply (Hi c'); [by apply Hseq|done].
      * intros c' Hc' He' Hiff. apply Hmin; [by apply Hseq|]. split; [done|by rewrite Hiff].
    + intros c Hc He. assert (¬ idle_cpu c) by (intros Hi'; apply (Hi c); [by apply Hseq|done]).
      by apply (Hl c); [apply Hseq|].
Qed.

End placement.

Lemma allowed_fallback_spec n allowed c :
  0 < n →
  allowed_fallback n allowed c < n ∧
  ((∃ c', c' < n ∧ cpu_allowed allowed c' = true) →
   cpu_allowed allowed (allowed_fallback n allowed c) = true).
Proof.
  intros Hn. unfold allowed_fallback.
  destruct (cpu_allowed allowed c && (c <? n)) eqn:Hc.
  { apply andb_true_iff in Hc as [Ha Hlt%Nat.ltb_lt]. done. }
  destruct (list_find _ _) as [[j c']|] eqn:Hf.
  - apply list_find_Some in Hf as (Hj & Ha & _). apply list_elem_of_lookup_2, elem_of_seq in Hj.
    split; [lia|done].
  - apply list_find_None in Hf. rewrite Forall_forall in Hf. split; [lia|].
    intros (c' & Hc' & Ha). destruct (Hf c'); [apply elem_of_seq; lia|done].
Qed.

(** Every iteration either selects, gives up, or uses up one retry. *)
Lemma select_loop_spec fuel n allowed preferred fallback w obs snap k :
  (∀ k c, c < n → (obs k).1 c = Some (snap k c)) → k + fuel = Nat.max (n * 2) 1 → 0 < fuel →
  ∃ sel, select_loop fuel n allowed preferred fallback w obs k = Some sel ∧
    match sel with
    | MkSelection c false => c = fallback
    | MkSelection c true => ∃ k', k ≤ k' < k + fuel ∧ (obs k').2 = true ∧ ∃ sc,
        scan_cpus n allowed preferred w (obs k').1 = Some (Some sc) ∧ sc.1.2 = c
    end.
Proof.
  intros Hobs. revert k. induction fuel as [|fuel IH]; intros k Hk Hf; [lia|]. cbn [select_loop].
  destruct (wp_elim _ _ (scan_cpus_spec allowed preferred w (obs k).1 (snap k) n (Hobs k))) as (best & Hs & _).
  rewrite Hs. cbn [mbind option_bind]. destruct best as [[[[sc pe] c] re]|]; [|by eexists].
  destruct (obs k).2 eqn:Hcas.
  { eexists. split; [done|]. exists k. split_and!; [lia|lia|done|]. by eexists. }
  case_decide as Hr; [by eexists|].
  destruct (IH (S k)) as ([c' []] & Hsel & Hres); [lia|lia| |].
  - exists (MkSelection c' true). split; [done|]. destruct Hres as (k' & Hk' & Hres). exists k'. split; [lia|done].
  - exists (MkSelection c' false). done.
Qed.

(** Whatever the views look like while the selector runs, it returns, after at
    most twice as many retries as there are CPUs, a CPU that exists, is allowed
    for the task when any CPU is, and was online when it was reserved. *)
Lemma select_task_rq_spec n t source prefer obs snap :
  0 < n → (∀ k c, c < n → (obs k).1 c = Some (snap k c)) →
  ∃ sel, select_task_rq n t source prefer obs = Some sel ∧ sel_cpu sel < n ∧
    ((∃ c, c < n ∧ cpu_allowed (cpus_allowed t) c = true) →
     cpu_allowed (cpus_allowed t) (sel_cpu sel) = true) ∧
    (sel_reserved sel = true → ∃ k, k < Nat.max (n * 2) 1 ∧ (obs k).2 = true ∧
       s_online (snap k (sel_cpu sel)) = true).
Proof.
  intros Hn Hobs. unfold select_task_rq. cbv zeta.
  set (pref := if cpu_allowed (cpus_allowed t) prefer && (prefer <? n) then prefer
    else allowed_fallback n (cpus_allowed t) source).
  destruct (allowed_fallback_spec n (cpus_allowed t) pref Hn) as [Hlt Hall].
  destruct (on_main_hart t || (n <=? 1)); [by eexists|].
  edestruct (select_loop_spec (Nat.max (n * 2) 1) n (cpus_allowed t) pref
    (allowed_fallback n (cpus_allowed t) pref) (task_weight_from_value (load_weight (se t))) obs snap 0)
    as ([c b] & Hsel & Hres); [done|lia|lia|].
  exists (MkSelection c b). split; [exact Hsel|]. simpl. destruct b; [|by subst c].
  destruct Hres as (k & Hk & Hcas & sc & Hsc & <-).
  pose proof (scan_cpus_spec (cpus_allowed t) pref
    (task_weight_from_value (load_weight (se t))) (obs k).1 (snap k) n (Hobs k)) as Hs.
  rewrite Hsc in Hs. destruct Hs as (c & Hc & [Ha Ho] & -> & _). simpl. split_and!; [done|done|].
  intros _. exists k. split_and!; [lia|done..].
Qed.

(** ** The invariant of the whole scheduler *)

Section invariant.
Context {Qc Qd : Type} `{!OrderedQueue CfsKey TaskRef Qc} `{!OrderedQueue DeadlineKey TaskRef Qd}.
Implicit Types (s : sys (Qc := Qc) (Qd := Qd)) (r : TaskRef) (c : nat) (L : nat → list TaskRef).

(** Thread ids identify tasks and policies are valid. *)
Definition tasks_ok (h : heap) : Prop :=
  (∀ r r', tid (h r) = tid (h r') → r = r') ∧ ∀ r, policy_ok (sched_policy (h r)) = true.

(** [L c] lists the tasks queued on CPU [c]: every queue is well formed, no task
    is on two queues or twice on one, and [on_rq] says exactly whether a task
    that has not exited is queued. *)
Record sys_inv s L : Prop := {
  si_tasks : tasks_ok (tasks s);
  si_queues c q : inner <$> rqs s !! c = Some q → rq_inv (tasks s) q (L c);
  si_range c : ncpu s ≤ c → L c = [];
  si_nodup c : NoDup (L c);
  si_disjoint c c' r : r ∈ L c → r ∈ L c' → c = c';
  si_on_rq r : state (tasks s r) ≠ Zombie → (on_rq (tasks s r) = true ↔ ∃ c, r ∈ L c);
}.

(** The queue lists with the one of [c] replaced. *)
Definition set_list c (l : list TaskRef) L : nat → list TaskRef :=
  λ c', if decide (c' = c) then l else L c'.

Lemma ncpu_upd_view s c f : ncpu (upd_view c f s) = ncpu s.
Proof. unfold ncpu, upd_view. simpl. apply length_alter. Qed.

Lemma index_view_Some s c f : c < ncpu s → index_view c f s = Some (upd_view c f s).
Proof. intros Hc. unfold index_view. by rewrite decide_True. Qed.

Lemma snapshots_read s c : c < ncpu s → snapshots s c = Some (snapshot (from_option view RqView_new (rqs s !! c))).
Proof. intros [rq Hrq]%lookup_lt_is_Some_2. unfold snapshots. by rewrite Hrq. Qed.

(** Out of range the change is one of nothing. *)
Lemma normalized_view_eq s c f : normalized_view c f s = upd_view c f s.
Proof.
  unfold normalized_view, normalize_cpu. case_decide as Hc; [done|]. destruct s as [h rs l]. unfold upd_view. simpl. f_equal.
  apply list_eq. intros i. rewrite list_lookup_alter. case_decide as Hi; [|done]. subst i.
  rewrite (lookup_ge_None_2 rs c); [done|]. unfold ncpu in Hc. simpl in Hc. lia.
Qed.

Lemma ncpu_with_inner s c q : ncpu (with_inner c q s) = ncpu s.
Proof. unfold ncpu, with_inner. simpl. apply length_alter. Qed.

(** Views are advisory: updating one does not touch the invariant. *)
Lemma sys_inv_view s L c f : sys_inv s L → sys_inv (upd_view c f s) L.
Proof.
  intros [Ht Hq Hr Hnd Hd Ho]. split; try done.
  - intros c' q. simpl. rewrite list_lookup_alter. destruct (decide (c = c')) as [->|].
    + intros Hc. apply Hq. by destruct (rqs s !! c').
    + apply Hq.
  - intros c'. rewrite ncpu_upd_view. apply Hr.
Qed.

Lemma sys_inv_kick s L c src : sys_inv s L → sys_inv (mark_resched_and_kick s c src) L.
Proof.
  intros Hi. unfold mark_resched_and_kick. destruct (rqs s !! c) as [rq|]; [|done].
  case_decide; [done|]. pose proof (sys_inv_view s L c (λ v, (kick_view v).2) Hi) as Hv.
  destruct (kick_view (view rq)).1; [|done]. destruct Hv. by split.
Qed.

(** Writing a queue back unchanged. *)
Lemma sys_inv_same s L c rq :
  sys_inv s L → rqs s !! c = Some rq → sys_inv (with_inner c (inner rq) (with_tasks (tasks s) s)) L.
Proof.
  intros [Ht Hq Hr Hnd Hd Ho] Hc. split; try done.
  - intros c' q. simpl. rewrite list_lookup_alter. destruct (decide (c = c')) as [<-|]; [|apply Hq].
    rewrite Hc. intros [= <-]. apply Hq. by rewrite Hc.
  - intros c'. rewrite ncpu_with_inner. apply Hr.
Qed.

(** Writes to fields the queues do not rely on. *)
Lemma sys_inv_task s L r f :
  let t := tasks s r in
  rq_view (f t) = rq_view t → (state (f t) ≠ Zombie → state t ≠ Zombie ∧ on_rq (f t) = on_rq t) →
  sys_inv s L → sys_inv (on_task r f s) L.
Proof.
  intros t Hv Hrq [[Hinj Hpol] Hq Hr Hnd Hd Ho]. subst t.
  assert (∀ r', rq_view (upd_task (tasks s) r f r') = rq_view (tasks s r')) as Hvs.
  { intros r'. destruct (decide (r' = r)) as [->|]; [by rewrite upd_task_eq|by rewrite upd_task_ne]. }
  split; try done; simpl.
  - split.
    + intros r1 r2 Heq. apply Hinj. injection (Hvs r1) as <- _ _. injection (Hvs r2) as <- _ _. done.
    + intros r1. rewrite <-(Hpol r1). f_equal. by injection (Hvs r1).
  - intros c q Hc. eapply rq_inv_heap; [|by apply Hq]. intros r1 _. apply Hvs.
  - intros r'. destruct (decide (r' = r)) as [->|]; [|by rewrite upd_task_ne; [apply Ho|]].
    rewrite upd_task_eq. intros [Hz Heq]%Hrq. rewrite Heq. by apply Ho.
Qed.

(** Writes to a task that is on no queue. *)
Lemma sys_inv_free s L r f :
  let t := tasks s r in
  (∀ c, r ∉ L c) → tid (f t) = tid t → sched_policy (f t) = sched_policy t →
  (state (f t) ≠ Zombie → on_rq (f t) = false) →
  sys_inv s L → sys_inv (on_task r f s) L.
Proof.
  intros t Hfree Htid Hp Hrq [[Hinj Hpol] Hq Hr Hnd Hd Ho]. subst t.
  assert (∀ r', r' ≠ r → upd_task (tasks s) r f r' = tasks s r') as Hfr by (intros; by apply upd_task_ne).
  split; try done; simpl.
  - split.
    + assert (∀ r', tid (upd_task (tasks s) r f r') = tid (tasks s r')) as Ht; [|intros r1 r2; rewrite !Ht; apply Hinj].
      intros r'. destruct (decide (r' = r)) as [->|]; [by rewrite upd_task_eq|by rewrite Hfr].
    + intros r'. destruct (decide (r' = r)) as [->|]; [by rewrite upd_task_eq, Hp|by rewrite Hfr].
  - intros c q Hc. eapply rq_inv_heap; [|by apply Hq]. intros r' Hin. rewrite Hfr; [done|].
    intros ->. by apply (Hfree c).
  - intros r'. destruct (decide (r' = r)) as [->|]; [|by rewrite Hfr; [apply Ho|]].
    rewrite upd_task_eq. intros Hz. rewrite (Hrq Hz). split; [done|]. intros [c Hin]. by destruct (Hfree c).
Qed.

(** A transaction on the queue of CPU [c] that rewrites task [r] only. *)
Lemma sys_inv_queue s L c rq h q l r :
  sys_inv s L → rqs s !! c = Some rq →
  (∀ r', r' ≠ r → h r' = tasks s r') →
  tid (h r) = tid (tasks s r) → sched_policy (h r) = sched_policy (tasks s r) →
  rq_inv h q l → NoDup l →
  (∀ r', r' ≠ r → r' ∈ l ↔ r' ∈ L c) →
  (state (h r) ≠ Zombie → (on_rq (h r) = true ↔ r ∈ l)) → (∀ c', c' ≠ c → r ∉ L c') →
  sys_inv (with_inner c q (with_tasks h s)) (set_list c l L).
Proof.
  intros [[Hinj Hpol] Hq Hr Hnd Hd Ho] Hc Hfr Htid Hp Hl Hndl Hmem Hon Hoth.
  assert (∀ r', tid (h r') = tid (tasks s r')) as Htids.
  { intros r'. destruct (decide (r' = r)) as [->|]; [done|by rewrite Hfr]. }
  assert (∀ r', sched_policy (h r') = sched_policy (tasks s r')) as Hps.
  { intros r'. destruct (decide (r' = r)) as [->|]; [done|by rewrite Hfr]. }
  assert (∀ c' r', c' ≠ c → r' ∈ L c' → r' ∉ l) as Hdisj.
  { intros c' r' Hne Hin Hinl. destruct (decide (r' = r)) as [->|Hr']; [by apply (Hoth c')|].
    apply Hmem in Hinl; [|done]. apply Hne. by eapply Hd. }
  split; simpl.
  - split; [intros r1 r2; rewrite !Htids; apply Hinj|intros r1; by rewrite Hps].
  - intros c' q'. rewrite list_lookup_alter. unfold set_list. destruct (decide (c = c')) as [<-|Hne].
    + rewrite Hc, decide_True by done. by intros [= <-].
    + rewrite decide_False by done. intros Hc'. eapply rq_inv_heap; [|by apply Hq].
      intros r' Hin. rewrite Hfr; [done|]. intros ->. by apply (Hoth c').
  - intros c'. rewrite ncpu_with_inner. unfold set_list. case_decide as Hcc; [|apply Hr].
    subst c'. intros Hge. apply lookup_lt_Some in Hc. unfold ncpu in Hge. simpl in Hge. lia.
  - intros c'. unfold set_list. case_decide; [done|apply Hnd].
  - intros c1 c2 r'. unfold set_list. repeat case_decide; subst; try done.
    + intros H1 H2. exfalso. by eapply Hdisj.
    + intros H1 H2. exfalso. by eapply Hdisj.
    + apply Hd.
  - intros r'. destruct (decide (r' = r)) as [->|Hne].
    + intros Hz. rewrite (Hon Hz). split.
      * intros Hin. exists c. unfold set_list. by rewrite decide_True.
      * intros (c' & Hin). unfold set_list in Hin. case_decide; [done|]. by destruct (Hoth c').
    + rewrite Hfr by done. intros Hz. rewrite (Ho r' Hz). unfold set_list. split.
      * intros (c' & Hin). destruct (decide (c' = c)) as [->|Hcc].
        -- exists c. rewrite decide_True by done. by apply Hmem.
        -- exists c'. by rewrite decide_False.
      * intros (c' & Hin). case_decide; [subst; exists c; by apply Hmem|by exists c'].
Qed.

(** [n] CPUs with empty queues. *)
Definition boot_sys (n : nat) (h : heap) : sys (Qc := Qc) (Qd := Qd) :=
  MkSys h (replicate n (MkRq RunQueue.new RqView_new)) [].

Lemma sys_inv_boot n h :
  tasks_ok h → (∀ r, on_rq (h r) = false) → sys_inv (boot_sys n h) (λ _, []).
Proof.
  intros Ht Hrq. split; simpl; try done.
  - intros c q Hc. apply fmap_Some in Hc as (rq & [-> _]%lookup_replicate & ->). apply rq_inv_new.
  - constructor.
  - intros c c' r Hin. by apply not_elem_of_nil in Hin.
  - intros r _. rewrite Hrq. split; [done|]. by intros [c ?%not_elem_of_nil].
Qed.

(** A task that is not queued has a thread id that is not queued. *)
Lemma tid_not_queued h (l : list TaskRef) r :
  tasks_ok h → r ∉ l → tid (h r) ∉ ((λ r, tid (h r)) <$> l).
Proof. intros [Hinj _] Hni (r' & Heq & Hin)%list_elem_of_fmap. apply Hinj in Heq. by subst. Qed.

Lemma not_queued s L r :
  sys_inv s L → state (tasks s r) ≠ Zombie → on_rq (tasks s r) = false → ∀ c, r ∉ L c.
Proof.
  intros Hi Hz Hf c Hin. assert (on_rq (tasks s r) = true); [|congruence].
  apply (si_on_rq _ _ Hi r Hz). by exists c.
Qed.

(** What enqueueing on CPU [c] does: other tasks are not touched, and either the
    queues stay the same or the task joins the queue of [c]. *)
Definition joined s s' L L' r c (b : bool) : Prop :=
  (∀ r', r' ≠ r → tasks s' r' = tasks s r') ∧
  (state (tasks s' r) = state (tasks s r) ∨ state (tasks s' r) = Ready) ∧
  if b then
    state (tasks s r) ≠ Zombie ∧ on_rq (tasks s r) = false ∧
    state (tasks s' r) = Ready ∧ cpu (tasks s' r) = c ∧ on_rq (tasks s' r) = true ∧
    L' c ≡ₚ r :: L c ∧ ∀ c', c' ≠ c → L' c' = L c'
  else ∀ c', L' c' = L c'.

Lemma wp_enqueue_task_on_cpu s L r c b :
  sys_inv s L →
  wp (enqueue_task_on_cpu s r c b) (λ '(res, s'), ∃ L',
    sys_inv s' L' ∧ ncpu s' = ncpu s ∧ joined s s' L L' r c res ∧
    (res = bool_decide (c < ncpu s ∧ state (tasks s r) ≠ Zombie ∧ on_rq (tasks s r) = false))).
Proof.
  intros Hi. unfold enqueue_task_on_cpu. destruct (rqs s !! c) as [rq|] eqn:Hc; last first.
  { apply lookup_ge_None in Hc. exists L. rewrite bool_decide_false by (unfold ncpu; lia).
    split_and!; [done|done| |done]. split_and!; [done|by left|done]. }
  assert (c < ncpu s) as Hlt by (by eapply lookup_lt_Some).
  case_decide as Hz.
  { exists L. rewrite bool_decide_false by naive_solver. split_and!; [|done| |done].
    - apply sys_inv_task; [done| |done]. by rewrite Hz.
    - split; [|split; [|done]]; [intros r' Hne; by apply upd_task_ne|]. left. simpl. by rewrite upd_task_eq. }
  set (f := λ t, with_on_cpu false (with_state Ready (with_cpu c t))). cbv zeta.
  assert (sys_inv (on_task r f s) L) as Hi1 by (by apply sys_inv_task).
  set (s1 := on_task r f s) in *.
  assert (tasks s1 r = f (tasks s r)) as Hr1 by apply upd_task_eq.
  assert (rqs s1 !! c = Some rq) as Hc1 by done.
  assert (rq_inv (tasks s1) (inner rq) (L c)) as Hq.
  { apply (si_queues _ _ Hi1). by rewrite Hc1. }
  apply wp_bind. eapply wp_mono.
  { apply wp_enqueue_task; [exact Hq| |by apply (si_tasks _ _ Hi1)]. intros Hf.
    apply tid_not_queued; [by apply (si_tasks _ _ Hi1)|]. eapply not_queued; [done| |done]. by rewrite Hr1. }
  intros [[w|] [h q]]; rewrite Hr1; simpl.
  - intros (Hf & _ & -> & l' & g & Hl' & Hp & Hh).
    change (on_rq (tasks s r) = false) in Hf.
    assert (∀ c, r ∉ L c) as Hni by exact (not_queued s L r Hi Hz Hf).
    assert (sys_inv (with_inner c q (with_tasks h s1)) (set_list c l' L)) as Hi2.
    { apply (sys_inv_queue s1 L c rq h q l' r); [done|done| | | |done| | | |].
      - intros r' Hne. rewrite Hh. by apply upd_task_ne.
      - by rewrite Hh, upd_task_eq.
      - by rewrite Hh, upd_task_eq.
      - rewrite Hp. apply NoDup_cons. split; [done|by apply (si_nodup _ _ Hi)].
      - intros r' Hne. rewrite Hp. set_solver.
      - intros _. rewrite Hh, upd_task_eq, Hp. simpl. set_solver.
      - done. }
    assert (joined s (with_inner c q (with_tasks h s1)) L (set_list c l' L) r c true) as Hj.
    { assert (h r = enqueued g (f (tasks s r))) as Hhr by (rewrite Hh, upd_task_eq; f_equal; exact Hr1).
      unfold joined. cbn [with_inner with_tasks tasks]. rewrite Hhr. split_and!; try done.
      - intros r' Hne. rewrite Hh, upd_task_ne by done. by apply upd_task_ne.
      - by right.
      - unfold set_list. by rewrite decide_True.
      - intros c' Hne. unfold set_list. by rewrite decide_False. }
    rewrite bool_decide_true by done. destruct b.
    + rewrite decide_True, index_view_Some by (done || by rewrite ncpu_with_inner). apply wp_ret. eexists. split_and!; [by apply sys_inv_view| |done..].
      by rewrite ncpu_upd_view, ncpu_with_inner.
    + apply wp_ret. eexists. split_and!; [done| |done..]. by rewrite ncpu_with_inner.
  - intros (-> & [[Hf ->]|(_ & ? & _)]); [|done]. apply wp_ret. exists L.
    change (on_rq (tasks s r) = true) in Hf.
    rewrite bool_decide_false by (rewrite Hf; naive_solver).
    split_and!; [|by rewrite ncpu_with_inner| |done].
    + exact (sys_inv_same s1 L c rq Hi1 Hc1).
    + split; [|split; [|done]]; [intros r' Hne; by apply upd_task_ne|]. right.
      change (state (tasks s1 r) = Ready). by rewrite Hr1.
Qed.

(** Taking the front of the queue of CPU [c]. *)
Lemma wp_pop_front s L c rq :
  sys_inv s L → rqs s !! c = Some rq →
  wp (pop_next_task (tasks s) (inner rq)) (λ '(res, q), res = head (L c) ∧
    match L c with
    | [] => sys_inv (with_inner c q s) L
    | r :: l => ∀ f, rq_view (f (tasks s r)) = rq_view (tasks s r) →
        (state (f (tasks s r)) ≠ Zombie → on_rq (f (tasks s r)) = false) →
        sys_inv (on_task r f (with_inner c q s)) (set_list c l L)
    end).
Proof.
  intros Hi Hc. assert (rq_inv (tasks s) (inner rq) (L c)) as Hq by (apply (si_queues _ _ Hi); by rewrite Hc).
  eapply wp_mono; [by apply wp_pop_next_task|]. intros [res q] [-> Hq']. split; [done|].
  pose proof (si_nodup _ _ Hi c) as Hnd. destruct (L c) as [|r l] eqn:HL; simpl in Hq'.
  - destruct Hi as [Ht Hqs Hr Hnds Hd Ho]. split; try done.
    + intros c' q'. simpl. rewrite list_lookup_alter. destruct (decide (c = c')) as [<-|]; [|apply Hqs].
      rewrite Hc. intros [= <-]. by rewrite HL.
    + intros c'. rewrite ncpu_with_inner. apply Hr.
  - intros f Hv Hon. apply NoDup_cons in Hnd as [Hni Hnd].
    assert (∀ r', r' ≠ r → upd_task (tasks s) r f r' = tasks s r') as Hfr by (intros; by apply upd_task_ne).
    apply (sys_inv_queue s L c rq (upd_task (tasks s) r f) q l r); [done|done|done| | | |done| | |].
    + rewrite upd_task_eq. by injection Hv.
    + rewrite upd_task_eq. by injection Hv.
    + eapply rq_inv_heap; [|exact Hq']. intros r' Hin. rewrite Hfr; [done|]. by intros ->.
    + intros r' Hne. rewrite HL. set_solver.
    + rewrite upd_task_eq. intros Hz. rewrite (Hon Hz). split; [done|]. by intros.
    + intros c' Hne Hin. apply Hne. eapply (si_disjoint _ _ Hi); [exact Hin|]. rewrite HL. by left.
Qed.

(** [fetch_task] skips exited tasks at the front and starts the first other one. *)
Lemma wp_fetch_loop fuel s L c :
  sys_inv s L → c < ncpu s → length (L c) < fuel →
  wp (fetch_loop fuel c s) (λ '(res, s'), ∃ L', sys_inv s' L' ∧ ncpu s' = ncpu s ∧
    (∀ c', c' ≠ c → L' c' = L c') ∧ (∀ r', r' ∉ L c → tasks s' r' = tasks s r') ∧
    match res with
    | None => L' c = [] ∧ Forall (λ r, state (tasks s r) = Zombie) (L c)
    | Some r => ∃ z, L c = z ++ r :: L' c ∧ Forall (λ r, state (tasks s r) = Zombie) z ∧
        state (tasks s r) ≠ Zombie ∧ state (tasks s' r) = Running ∧
        on_cpu (tasks s' r) = true ∧ on_rq (tasks s' r) = false ∧ cpu (tasks s' r) = c
    end).
Proof.
  revert s L. induction fuel as [|fuel IH]; intros s L Hi Hlt Hf; [lia|]. cbn [fetch_loop].
  destruct (lookup_lt_is_Some_2 (rqs s) c Hlt) as [rq Hc]. rewrite Hc. cbn [mbind option_bind].
  apply wp_bind. eapply wp_mono; [by apply wp_pop_front|]. intros [res q] [-> Hpop].
  destruct (L c) as [|r l] eqn:HL; cbn [head].
  { apply wp_ret. exists L. by split_and!; [|rewrite ncpu_with_inner|..]. }
  cbv zeta. assert (tasks (on_task r (with_on_rq false) (with_inner c q s)) r =
    with_on_rq false (tasks s r)) as Hr by apply upd_task_eq. rewrite Hr.
  case_decide as Hz; simpl in Hz.
  - set (s1 := upd_view _ _ _). assert (∀ r', r' ≠ r → tasks s1 r' = tasks s r') as Hfr.
    { intros r' Hne. unfold s1. simpl. by rewrite !upd_task_ne. }
    assert (sys_inv s1 (set_list c l L)) as Hi1.
    { apply sys_inv_view, sys_inv_task; [done| |apply Hpop; [done|]]; rewrite ?Hr; simpl; congruence. }
    assert (set_list c l L c = l) as Hset by (unfold set_list; by rewrite decide_True).
    eapply wp_mono; [apply (IH s1 (set_list c l L)); [done| |]|].
    + unfold s1. by rewrite ncpu_upd_view; unfold on_task, ncpu, with_tasks; simpl; rewrite length_alter.
    + rewrite Hset. simpl in Hf. lia.
    + pose proof (si_nodup _ _ Hi c) as Hnd. rewrite HL in Hnd. apply NoDup_cons in Hnd as [Hni _].
      intros [res s'] (L' & Hi' & Hn' & Hoth & Hfr' & Hres). rewrite Hset in Hfr', Hres. exists L'.
      split_and!; [done| | | |].
      * rewrite Hn'. unfold s1. by rewrite ncpu_upd_view; unfold on_task, ncpu, with_tasks; simpl; rewrite length_alter.
      * intros c' Hne. rewrite Hoth by done. unfold set_list. by rewrite decide_False.
      * intros r' [Hne Hnl]%not_elem_of_cons. by rewrite Hfr', Hfr.
      * destruct res as [r'|].
        -- destruct Hres as (z & Hz1 & Hz2 & Hz3 & Hrest). exists (r :: z). rewrite Hz1.
           split; [done|]. split; [|split; [|exact Hrest]].
           ++ constructor; [done|]. rewrite Forall_forall in *. intros r1 Hr1.
              rewrite <-Hfr; [by apply Hz2|]. intros ->. apply Hni. set_solver.
           ++ rewrite <-Hfr; [done|]. intros ->. apply Hni. set_solver.
        -- destruct Hres as [H1 H2]. split; [done|]. constructor; [done|].
           rewrite Forall_forall in *. intros r1 Hr1. rewrite <-Hfr; [by apply H2|]. by intros ->.
  - apply wp_ret.
    set (f := λ t, with_need_resched false (with_state Running (with_on_cpu true (with_cpu c t)))). exists (set_list c l L). split_and!.
    + apply sys_inv_task; [done| |apply Hpop; done]. rewrite Hr. done.
    + unfold ncpu, on_task, with_tasks. simpl. by rewrite length_alter.
    + intros c' Hne. unfold set_list. by rewrite decide_False.
    + intros r' [Hne _]%not_elem_of_cons. simpl. by rewrite !upd_task_ne.
    + exists []. unfold set_list. rewrite decide_True by done.
      assert (tasks (on_task r f (on_task r (with_on_rq false) (with_inner c q s))) r =
        f (with_on_rq false (tasks s r))) as Hrr by (simpl; by rewrite !upd_task_eq).
      rewrite Hrr. by split_and!.
Qed.

(** ** Waking and placing *)

(** Placement does not touch tasks or queues and names an existing CPU, an
    allowed one when there is one. *)
Lemma wp_select_and_reserve s L r src pref :
  sys_inv s L → 0 < ncpu s →
  wp (select_and_reserve s r src pref) (λ '(sel, s'),
    sys_inv s' L ∧ tasks s' = tasks s ∧ ncpu s' = ncpu s ∧ sel_cpu sel < ncpu s ∧
    ((∃ c, c < ncpu s ∧ cpu_allowed (cpus_allowed (tasks s r)) c = true) →
     cpu_allowed (cpus_allowed (tasks s r)) (sel_cpu sel) = true)).
Proof.
  intros Hi Hn. unfold select_and_reserve.
  destruct (select_task_rq_spec (ncpu s) (tasks s r) src pref (λ _, (snapshots s, true)) _ Hn (λ _, snapshots_read s))
    as (sel & Heq & Hlt & Hal & _).
  rewrite Heq. cbn [mbind option_bind]. destruct (sel_reserved sel).
  - rewrite index_view_Some by done. apply wp_ret. split_and!; [by apply sys_inv_view|done|apply ncpu_upd_view|done..].
  - by apply wp_ret.
Qed.

Lemma ncpu_kick s c src : ncpu (mark_resched_and_kick s c src) = ncpu s.
Proof.
  unfold mark_resched_and_kick. destruct (rqs s !! c); [|done]. case_decide; [done|].
  unfold ncpu, upd_view. case_match; simpl; apply length_alter.
Qed.

Lemma tasks_kick s c src : tasks (mark_resched_and_kick s c src) = tasks s.
Proof.
  unfold mark_resched_and_kick. destruct (rqs s !! c); [|done]. case_decide; [done|].
  by case_match.
Qed.

(** The reservation touches no task and no queue. *)
Lemma wp_consume s L sel : sys_inv s L → sel_cpu sel < ncpu s →
  wp (consume_selection sel s) (λ s', sys_inv s' L ∧ ncpu s' = ncpu s ∧ tasks s' = tasks s).
Proof.
  intros Hi Hlt. unfold consume_selection. destruct (sel_reserved sel); [|done].
  rewrite index_view_Some by done. apply wp_ret. split_and!; [by apply sys_inv_view|by rewrite ncpu_upd_view|done].
Qed.

Lemma wp_enqueue_selected_task s L r sel src b :
  sys_inv s L → sel_cpu sel < ncpu s →
  wp (enqueue_selected_task s r sel src b) (λ '(res, s'), ∃ L',
    sys_inv s' L' ∧ ncpu s' = ncpu s ∧ joined s s' L L' r (sel_cpu sel) res ∧
    res = bool_decide (sel_cpu sel < ncpu s ∧ state (tasks s r) ≠ Zombie ∧ on_rq (tasks s r) = false)).
Proof.
  intros Hi Hlt. unfold enqueue_selected_task. apply wp_bind.
  eapply wp_mono; [by apply wp_enqueue_task_on_cpu|]. intros [res s1] (L' & Hi1 & Hn1 & Hj & Hres).
  apply wp_bind. eapply wp_mono; [apply (wp_consume s1 L'); [done|by rewrite Hn1]|]. intros s2 (Hi2 & Hn2 & Ht2).
  rewrite Hn1 in Hn2. apply wp_ret. exists L'.
  destruct res; (split_and!; [| | |done]).
  - by apply sys_inv_kick.
  - by rewrite ncpu_kick.
  - unfold joined in *. by rewrite tasks_kick, Ht2.
  - done.
  - done.
  - unfold joined in *. by rewrite Ht2.
Qed.

(** A wakeup: a blocked task that is not queued becomes ready and joins the queue
    of one CPU, an allowed one; a task that is still saving its context is marked;
    any other task is left alone. *)
Lemma wp_wake_up_task hart s L r :
  sys_inv s L → 0 < ncpu s →
  wp (wake_up_task hart s r) (λ '(res, s'), ∃ L', sys_inv s' L' ∧ ncpu s' = ncpu s ∧
    match state (tasks s r) with
    | Blocked => ∃ c, c < ncpu s ∧
        ((∃ c, c < ncpu s ∧ cpu_allowed (cpus_allowed (tasks s r)) c = true) →
         cpu_allowed (cpus_allowed (tasks s r)) c = true) ∧
        joined (on_task r (with_state Ready) s) s' L L' r c res ∧
        res = negb (on_rq (tasks s r))
    | BlockSaving => res = false ∧ L' = L ∧ s' = on_task r (with_wake true (Some hart)) s
    | _ => res = false ∧ L' = L ∧ s' = s
    end).
Proof.
  intros Hi Hn. unfold wake_up_task.
  destruct (state (tasks s r)) eqn:Hs; simpl;
    try (apply wp_ret; by exists L).
  - set (s1 := on_task r (with_state Ready) s).
    assert (tasks s1 r = with_state Ready (tasks s r)) as Hr1 by apply upd_task_eq.
    assert (sys_inv s1 L) as Hi1 by (apply sys_inv_task; [done|rewrite Hs; done|done]).
    unfold enqueue_woken_task. apply wp_bind.
    eapply wp_mono; [by apply wp_select_and_reserve|].
    intros [sel s2] (Hi2 & Ht2 & Hn2 & Hlt & Hal). eapply wp_mono; [apply wp_enqueue_selected_task; [done|by rewrite Hn2]|].
    intros [res s'] (L' & Hi' & Hn' & Hj & Hres). exists L'. rewrite Ht2, Hr1 in Hres.
    split_and!; [done|by rewrite Hn', Hn2|]. exists (sel_cpu sel). split_and!; [done| | |].
    + rewrite Hr1 in Hal. exact Hal.
    + unfold joined in *. by rewrite Ht2 in Hj.
    + rewrite Hres. simpl. rewrite Hn2. destruct (on_rq (tasks s r)); simpl.
      * by rewrite bool_decide_false by naive_solver.
      * by rewrite bool_decide_true.
  - apply wp_ret. exists L. split_and!; [|done..]. apply sys_inv_task; [done|rewrite Hs; done|done].
Qed.

Lemma wp_enqueue_new_task hart s L r parent :
  sys_inv s L → 0 < ncpu s →
  wp (enqueue_new_task hart s r parent) (λ s', ∃ L' c, sys_inv s' L' ∧ ncpu s' = ncpu s ∧
    c < ncpu s ∧
    ((∃ c, c < ncpu s ∧ cpu_allowed (cpus_allowed (tasks s r)) c = true) →
     cpu_allowed (cpus_allowed (tasks s r)) c = true) ∧
    joined s s' L L' r c (bool_decide (state (tasks s r) ≠ Zombie ∧ on_rq (tasks s r) = false))).
Proof.
  intros Hi Hn. unfold enqueue_new_task. apply wp_bind. eapply wp_mono; [by apply wp_select_and_reserve|].
  intros [sel s2] (Hi2 & Ht2 & Hn2 & Hlt & Hal). apply wp_bind.
  eapply wp_mono; [apply wp_enqueue_selected_task; [done|by rewrite Hn2]|]. intros [res s'] (L' & Hi' & Hn' & Hj & Hres).
  apply wp_ret. exists L', (sel_cpu sel). split_and!; [done|by rewrite Hn', Hn2|done..|].
  rewrite Ht2 in Hres. unfold joined in Hj. rewrite Ht2 in Hj. unfold joined.
  assert (res = bool_decide (state (tasks s r) ≠ Zombie ∧ on_rq (tasks s r) = false)) as <-; [|done].
  rewrite Hres. apply bool_decide_ext. rewrite Hn2. naive_solver.
Qed.

Lemma wp_add_task_into_pool hart s L r :
  sys_inv s L →
  wp (add_task_into_pool hart s r) (λ s', ∃ L' c res, sys_inv s' L' ∧ ncpu s' = ncpu s ∧
    joined s s' L L' r c res).
Proof.
  intros Hi. unfold add_task_into_pool. apply wp_bind.
  eapply wp_mono; [by apply wp_enqueue_task_on_cpu|]. intros [res s'] (L' & Hi' & Hn' & Hj & _).
  apply wp_ret. eexists L', _, res. split_and!; [done..|]. apply Hj.
Qed.

Lemma wp_enqueue_resumed_task hart s L r src :
  sys_inv s L → 0 < ncpu s →
  wp (enqueue_resumed_task hart s r src) (λ '(res, s'), ∃ L' c, sys_inv s' L' ∧ ncpu s' = ncpu s ∧
    c < ncpu s ∧ joined s s' L L' r c res ∧
    res = bool_decide (state (tasks s r) ≠ Zombie ∧ on_rq (tasks s r) = false)).
Proof.
  intros Hi Hn. unfold enqueue_resumed_task. apply wp_bind.
  eapply wp_mono; [by apply wp_select_and_reserve|].
  intros [sel s1] (Hi1 & Ht1 & Hn1 & Hlt & _). apply wp_bind.
  eapply wp_mono; [by apply wp_enqueue_task_on_cpu|]. intros [res s2] (L' & Hi2 & Hn2 & Hj & Hres).
  apply wp_bind. eapply wp_mono; [apply (wp_consume s2 L'); [done|by rewrite Hn2, Hn1]|]. intros s3 (Hi3 & Hn3 & Ht3).
  rewrite Hn2, Hn1 in Hn3.
  assert (res = bool_decide (state (tasks s r) ≠ Zombie ∧ on_rq (tasks s r) = false)) as Hres'.
  { rewrite Hres, Ht1. apply bool_decide_ext. rewrite Hn1. naive_solver. }
  assert (joined s s3 L L' r (sel_cpu sel) res) as Hj3.
  { unfold joined in *. by rewrite Ht3, <-Ht1. }
  destruct res; simpl; [|apply wp_ret; by exists L', (sel_cpu sel)]. apply wp_bind.
  eapply (wp_mono _ (λ s4, sys_inv s4 L' ∧ ncpu s4 = ncpu s ∧ tasks s4 = tasks s3)).
  { destruct (decide (_ = sel_cpu sel)); [done|]. rewrite normalized_view_eq, index_view_Some by (by rewrite ncpu_upd_view, Hn3).
    apply wp_ret. cbv beta. split_and!; [by do 2 apply sys_inv_view|by rewrite !ncpu_upd_view|reflexivity]. }
  intros s4 (Hi4 & Hn4 & Ht4). apply wp_ret. exists L', (sel_cpu sel). split_and!; [by apply sys_inv_kick|by rewrite ncpu_kick|done| |done].
  unfold joined in *. by rewrite tasks_kick, Ht4.
Qed.

(** ** Removing and stealing *)

Lemma tid_queued_iff h (l : list TaskRef) i :
  (i ∉ ((λ r, tid (h r)) <$> l)) ↔ ∀ r, r ∈ l → tid (h r) ≠ i.
Proof.
  split.
  - intros Hni r Hin Heq. apply Hni. rewrite <-Heq. by apply (list_elem_of_fmap_2 (λ r, tid (h r))).
  - intros Hall (r & -> & Hin)%list_elem_of_fmap. by apply (Hall r).
Qed.

Lemma wp_remove_from_queues s L i c n :
  sys_inv s L → c + n = ncpu s → (∀ c' r, c' < c → r ∈ L c' → tid (tasks s r) ≠ i) →
  wp (remove_from_queues s i c n) (λ s', ∃ L', sys_inv s' L' ∧ ncpu s' = ncpu s ∧
    (∀ r, tid (tasks s r) ≠ i → tasks s' r = tasks s r) ∧
    (∀ r, state (tasks s' r) = state (tasks s r)) ∧
    ∀ c' r, r ∈ L' c' ↔ r ∈ L c' ∧ tid (tasks s r) ≠ i).
Proof.
  revert s L c. induction n as [|n IH]; intros s L c Hi Hcn Hbefore; cbn [remove_from_queues].
  { apply wp_ret. exists L. split_and!; [done..|]. intros c' r. split; [|naive_solver]. intros Hin.
    split; [done|]. destruct (decide (c' < c)); [by eapply Hbefore|].
    rewrite (si_range _ _ Hi c') in Hin by lia. by apply not_elem_of_nil in Hin. }
  assert (c < ncpu s) as Hlt by lia. destruct (lookup_lt_is_Some_2 (rqs s) c Hlt) as [rq Hc].
  rewrite Hc. cbn [mbind option_bind].
  assert (rq_inv (tasks s) (inner rq) (L c)) as Hq by (apply (si_queues _ _ Hi); by rewrite Hc).
  apply wp_bind. eapply wp_mono; [by apply wp_rq_remove_task|]. intros [[w|] [h q]].
  - intros (r & l1 & l2 & Htid & HL & _ & -> & Hq'). apply wp_ret.
    pose proof (si_nodup _ _ Hi c) as Hnd. rewrite HL in Hnd.
    assert ((r ∉ l1 ++ l2) ∧ NoDup (l1 ++ l2)) as [Hni Hnd'].
    { apply NoDup_cons. by rewrite (Permutation_middle l1 l2 r). }
    assert (∀ r', r' ∈ L c ↔ r' = r ∨ r' ∈ l1 ++ l2) as HLm.
    { intros r'. by rewrite HL, <-(Permutation_middle l1 l2 r), elem_of_cons. }
    assert (∀ c', r ∈ L c' → c' = c) as Hone.
    { intros c' Hin. eapply (si_disjoint _ _ Hi); [exact Hin|]. apply HLm. by left. }
    assert (sys_inv (with_inner c q (with_tasks (upd_task (tasks s) r (with_on_rq false)) s))
      (set_list c (l1 ++ l2) L)) as Hi'.
    { apply (sys_inv_queue s L c rq _ q (l1 ++ l2) r); [done|done| | | |done|done| | |].
      - intros r' Hne. by apply upd_task_ne.
      - by rewrite upd_task_eq.
      - by rewrite upd_task_eq.
      - intros r' Hne. rewrite HLm. tauto.
      - intros _. rewrite upd_task_eq. simpl. by split.
      - intros c' Hne Hin. by apply Hne, Hone. }
    eexists. split_and!; [by apply sys_inv_view|by rewrite ncpu_upd_view, ncpu_with_inner|..].
    { intros r' Hne. apply upd_task_ne. by intros ->. }
    { intros r'. by apply (upd_task_proj state). }
    intros c' r'. assert (tid (tasks s r') = i ↔ r' = r) as Hti.
    { rewrite <-Htid. split; [apply (si_tasks _ _ Hi)|by intros ->]. }
    rewrite Hti. unfold set_list. case_decide as Hcc.
    + subst c'. rewrite HLm. split; [|tauto]. intros Hin. split; [by right|]. by intros ->.
    + split; [|tauto]. intros Hin. split; [done|]. intros ->. by apply Hcc, Hone.
  - rewrite tid_queued_iff. intros (Hno & -> & Hq').
    assert (sys_inv (with_inner c q (with_tasks (tasks s) s)) L) as Hi'.
    { destruct Hi as [Ht Hqs Hr Hnds Hd Ho]. split; try done.
      - intros c' q'. simpl. rewrite list_lookup_alter. destruct (decide (c = c')) as [<-|]; [|apply Hqs].
        rewrite Hc. by intros [= <-].
      - intros c'. rewrite ncpu_with_inner. apply Hr. }
    eapply wp_mono; [apply (IH _ L (S c)); [done| |]|].
    + rewrite ncpu_with_inner. unfold ncpu in *. simpl. lia.
    + intros c' r Hc' Hin. simpl. destruct (decide (c' = c)) as [->|]; [by apply Hno|].
      eapply Hbefore; [|done]. lia.
    + intros s' (L' & HI & Hn & Hfr & Hst & Hmem). exists L'. split_and!; [done| |done..].
      rewrite Hn. by rewrite ncpu_with_inner.
Qed.

Lemma nodup_tids s L c : sys_inv s L → NoDup ((λ r, tid (tasks s r)) <$> L c).
Proof.
  intros Hi. apply NoDup_fmap_2_strong; [|by apply (si_nodup _ _ Hi)].
  intros r1 r2 _ _. apply (si_tasks _ _ Hi).
Qed.

(** Stealing takes the front task of the source queue when it may move; an exited
    one is dropped; one that may not move goes back. *)
Definition stole s s' L L' (src target : nat) (res : StealResult) : Prop :=
  (∀ c, c ≠ src → L' c = L c) ∧ (∀ r', r' ∉ L src → tasks s' r' = tasks s r') ∧
  match res with
  | Stolen r w => L src = r :: L' src ∧ state (tasks s r) ≠ Zombie ∧
      cpu_allowed (cpus_allowed (tasks s r)) target = true ∧ on_main_hart (tasks s r) = false ∧
      cpu (tasks s' r) = target ∧ on_rq (tasks s' r) = false ∧
      state (tasks s' r) = state (tasks s r)
  | Dropped w => ∃ r, L src = r :: L' src ∧ state (tasks s r) = Zombie
  | NoneStolen => L' src ≡ₚ L src
  end.

Lemma wp_steal_task_from_cpu hart s L src target :
  sys_inv s L →
  wp (steal_task_from_cpu hart s src target) (λ '(res, s'), ∃ L',
    sys_inv s' L' ∧ ncpu s' = ncpu s ∧ stole s s' L L' src target res).
Proof.
  intros Hi. unfold steal_task_from_cpu. case_decide as Htg; [by exists L|].
  destruct (rqs s !! src) as [rq|] eqn:Hc; [|by exists L].
  assert (rq_inv (tasks s) (inner rq) (L src)) as Hq by (apply (si_queues _ _ Hi); by rewrite Hc).
  assert (∀ l c, c ≠ src → set_list src l L c = L c) as Hset.
  { intros l c Hne. unfold set_list. by rewrite decide_False. }
  assert (∀ l, set_list src l L src = l) as Hset' by (intros; unfold set_list; by rewrite decide_True).
  apply wp_bind. eapply wp_mono.
  { apply (wp_steal_task _ _ _ target Hq); [by apply nodup_tids|by apply (si_tasks _ _ Hi)]. }
  intros [res [h q]] Hres. pose proof (si_nodup _ _ Hi src) as Hnd.
  destruct (L src) as [|r l] eqn:HL.
  { destruct Hres as (-> & -> & Hq'). apply wp_ret. exists L.
    split_and!; [|by rewrite ncpu_with_inner|]; [|split_and!; [done|done|by rewrite HL]].
    destruct Hi as [Ht Hqs Hr Hnds Hd Ho]. split; try done.
    - intros c' q'. simpl. rewrite list_lookup_alter. destruct (decide (src = c')) as [<-|]; [|apply Hqs].
      rewrite Hc, HL. by intros [= <-].
    - intros c'. rewrite ncpu_with_inner. apply Hr. }
  apply NoDup_cons in Hnd as [Hni Hnd].
  assert (∀ c', c' ≠ src → r ∉ L c') as Hoth.
  { intros c' Hne Hin. apply Hne. eapply (si_disjoint _ _ Hi); [exact Hin|]. rewrite HL. by left. }
  assert (∀ f l', (∀ r', h r' = upd_task (tasks s) r f r') → rq_view (f (tasks s r)) = rq_view (tasks s r) ∨
      (tid (f (tasks s r)) = tid (tasks s r) ∧ sched_policy (f (tasks s r)) = sched_policy (tasks s r)) →
    rq_inv h q l' → NoDup l' → (∀ r', r' ≠ r → r' ∈ l' ↔ r' ∈ L src) →
    (state (f (tasks s r)) ≠ Zombie → (on_rq (f (tasks s r)) = true ↔ r ∈ l')) →
    sys_inv (with_inner src q (with_tasks h s)) (set_list src l' L)) as Hgen.
  { intros f l' Hh Hv Hq' Hnd' Hmem Hon.
    apply (sys_inv_queue s L src rq h q l' r); [done|done| | | |done|done|done| |done].
    - intros r' Hne. rewrite Hh. by apply upd_task_ne.
    - rewrite Hh, upd_task_eq. destruct Hv as [Hv|[? ?]]; [by injection Hv|done].
    - rewrite Hh, upd_task_eq. destruct Hv as [Hv|[? ?]]; [by injection Hv|done].
    - rewrite Hh, upd_task_eq. done. }
  cbv zeta in Hres. case_decide as Hz; [|case_match eqn:Hm].
  - destruct Hres as (-> & Hh & Hq'). apply wp_ret. exists (set_list src l L). split_and!.
    + apply sys_inv_view. apply (Hgen (with_on_rq false)); [by intros; rewrite Hh|by left|done|done|rewrite HL; set_solver|done].
    + by rewrite ncpu_upd_view, ncpu_with_inner.
    + split_and!; [by apply Hset| |exists r; by rewrite Hset', HL].
      intros r' Hr'. simpl. rewrite Hh. apply upd_task_ne. intros ->. apply Hr'. rewrite HL. by left.
  - destruct Hres as (-> & Hq' & Hh). apply andb_true_iff in Hm as [[Hmh%negb_true_iff Hal]%andb_true_iff _].
    assert (sys_inv (with_inner src q (with_tasks h s)) (set_list src l L)) as Hi'.
    { apply (Hgen (λ t, with_cpu target (with_on_rq false t))); [done|by left|done|done|rewrite HL; set_solver|].
      intros _. simpl. by split. }
    apply wp_bind. eapply (wp_mono _ (λ s4, sys_inv s4 (set_list src l L) ∧ ncpu s4 = ncpu s ∧ tasks s4 = h)).
    { destruct (decide (src = target)); [by apply wp_ret; cbv beta; split_and!; [|rewrite ncpu_with_inner|]|].
      rewrite index_view_Some by (rewrite ncpu_upd_view, ncpu_with_inner; unfold ncpu in *; simpl; lia).
      apply wp_ret. cbv beta. split_and!; [by do 2 apply sys_inv_view|by rewrite !ncpu_upd_view, ncpu_with_inner|done]. }
    intros s4 (Hi4 & Hn4 & Ht4). apply wp_ret. exists (set_list src l L). split_and!.
    + by apply sys_inv_kick.
    + by rewrite ncpu_kick.
    + assert (h r = with_cpu target (with_on_rq false (tasks s r))) as Hr by (by rewrite Hh, upd_task_eq).
      assert (∀ r', r' ∉ L src → h r' = tasks s r') as Hfr.
      { intros r' Hr'. rewrite Hh. apply upd_task_ne. intros ->. apply Hr'. rewrite HL. by left. }
      unfold stole. rewrite Hset', tasks_kick, Ht4, Hr. split_and!; try done; by apply Hset.
  - destruct Hres as (-> & l' & f & Hq' & Hp & Hh). apply wp_ret. exists (set_list src l' L). split_and!.
    + apply (Hgen (enqueued f)); [done|by right|done|rewrite Hp; by apply NoDup_cons|intros; rewrite Hp, HL; set_solver|].
      intros _. simpl. rewrite Hp. set_solver.
    + by rewrite ncpu_with_inner.
    + split_and!; [by apply Hset| |by rewrite Hset', HL].
      intros r' Hr'. simpl. rewrite Hh. apply upd_task_ne. intros ->. apply Hr'. rewrite HL. by left.
Qed.

(** The scan reads only CPUs that exist, and does not choose its own. *)
Lemma wp_busiest s c : wp (busiest s c) (λ best, from_option (λ p, p.1 ≠ c) True best).
Proof.
  unfold busiest. assert (∀ l best, Forall (λ c, c < ncpu s) l → from_option (λ p : nat * Z, p.1 ≠ c) True best →
    wp (busiest_loop s c best l) (λ best, from_option (λ p, p.1 ≠ c) True best)) as Hl.
  { induction l as [|c0 l IH]; intros best Hl Hbest; cbn [busiest_loop]; [by apply wp_ret|]. apply Forall_cons in Hl as [Hc0 Hl].
    case_decide; [by apply IH|]. rewrite snapshots_read by done. cbn [mbind option_bind]. apply IH; [done|]. by case_match. }
  apply Hl; [|done]. apply Forall_forall. intros c0 Hc0%elem_of_seq. lia.
Qed.

Lemma wp_idle_tasks hart s L c :
  sys_inv s L →
  wp (idle_tasks hart s c) (λ '(res, s'), ∃ L', sys_inv s' L' ∧ ncpu s' = ncpu s ∧
    (∀ r', (∀ c', r' ∉ L c') → tasks s' r' = tasks s r') ∧
    match res with
    | None => ∀ r, (∃ c', r ∈ L' c') → ∃ c', r ∈ L c'
    | Some r => ∃ src w, src ≠ c ∧ stole s s' L L' src c (Stolen r w)
    end).
Proof.
  intros Hi. unfold idle_tasks. case_decide; [by exists L|].
  apply wp_bind. eapply wp_mono; [apply wp_busiest|]. intros [[src load]|] Hne; [|by exists L]. simpl in Hne.
  apply wp_bind. eapply wp_mono; [by apply wp_steal_task_from_cpu|].
  intros [res s'] (L' & Hi' & Hn' & Hst). apply wp_ret. exists L'. split_and!; [done..| |].
  { intros r' Hr'. destruct Hst as (_ & Hfr & _). by apply Hfr. }
  destruct res as [r w|w|]; [by exists src, w|..].
  - destruct Hst as (Hoth & _ & (r0 & HL & _)). intros r (c' & Hin). exists c'.
    destruct (decide (c' = src)) as [->|]; [rewrite HL; by right|by rewrite <-Hoth].
  - destruct Hst as (Hoth & _ & HL). intros r (c' & Hin). exists c'.
    destruct (decide (c' = src)) as [->|]; [by rewrite <-HL|by rewrite <-Hoth].
Qed.

Lemma sys_inv_advance s L c : sys_inv s L → sys_inv (advance_cfs_min_vruntime s c) L.
Proof.
  intros Hi. unfold advance_cfs_min_vruntime. destruct (rqs s !! c) as [rq|] eqn:Hc; [|done].
  assert (rq_inv (tasks s) (inner rq) (L c)) as Hq by (apply (si_queues _ _ Hi); by rewrite Hc).
  destruct Hi as [Ht Hqs Hr Hnds Hd Ho]. split; try done.
  - intros c' q'. simpl. rewrite list_lookup_alter. destruct (decide (c = c')) as [<-|]; [|apply Hqs].
    rewrite Hc. intros [= <-]. destruct Hq as (ld & lp & lr & lc & H1 & H2 & H3 & H4 & H5 & H6).
    exists ld, lp, lr, lc. split_and!; try done. by apply cfs_inv_advance.
  - intros c'. rewrite ncpu_with_inner. apply Hr.
Qed.

End invariant.

(** ** Properties *)

Module SchedProps.

(** Placement, whatever the views of the other CPUs look like while the
    selector runs: it returns after at most twice as many retries as there are
    CPUs; the CPU exists, is in the task's affinity mask when any CPU is, and if it
    was reserved then it was online when it was chosen. *)
Theorem select_task_rq_allowed n t source prefer (obs : nat → (nat → option RqSnapshot) * bool) (snap : nat → nat → RqSnapshot) :
  0 < n → (∀ k c, c < n → (obs k).1 c = Some (snap k c)) →
  ∃ sel, select_task_rq n t source prefer obs = Some sel ∧ sel_cpu sel < n ∧
    ((∃ c, c < n ∧ cpu_allowed (cpus_allowed t) c = true) →
     cpu_allowed (cpus_allowed t) (sel_cpu sel) = true) ∧
    (sel_reserved sel = true → ∃ k, k < Nat.max (n * 2) 1 ∧ (obs k).2 = true ∧
       s_online (snap k (sel_cpu sel)) = true).
Proof. apply select_task_rq_spec. Qed.

(** The scan prefers idle CPUs and then the least loaded: the chosen CPU is
    allowed and online; it is idle unless no eligible CPU is; and no eligible CPU of
    the same kind has a smaller (score, affinity penalty, number) key. *)
Theorem scan_cpus_optimal n allowed preferred w (snap : nat → RqSnapshot) :
  ∃ best, scan_cpus n allowed preferred w (λ c, Some (snap c)) = Some best ∧
    match best with
    | None => ∀ c, c < n → ¬ eligible allowed snap c
    | Some k => ∃ c, c < n ∧ eligible allowed snap c ∧ k = cand preferred w snap c ∧
        (idle_cpu snap c ∨ ∀ c', c' < n → eligible allowed snap c' → ¬ idle_cpu snap c') ∧
        ∀ c', c' < n → eligible allowed snap c' → (idle_cpu snap c' ↔ idle_cpu snap c) →
          ord_le k (cand preferred w snap c')
    end.
Proof. apply wp_elim. by apply scan_cpus_spec. Qed.

Section props.
Context {Qc Qd : Type} `{!OrderedQueue CfsKey TaskRef Qc} `{!OrderedQueue DeadlineKey TaskRef Qd}.
Implicit Types (s : sys (Qc := Qc) (Qd := Qd)) (r : TaskRef) (L : nat → list TaskRef).

(** [fetch_task] always returns: it discards the exited tasks at the front of
    the CPU's own queue and starts the first live one (running, on this CPU, off
    the queue), or finds only exited tasks; other CPUs' queues are not touched. *)
Theorem fetch_task_first_live s L c :
  sys_inv s L → c < ncpu s →
  ∃ res s' L', fetch_task c s = Some (res, s') ∧ sys_inv s' L' ∧ (∀ c', c' ≠ c → L' c' = L c') ∧
    match res with
    | None => L' c = [] ∧ Forall (λ r, state (tasks s r) = Zombie) (L c)
    | Some r => ∃ z, L c = z ++ r :: L' c ∧ Forall (λ r, state (tasks s r) = Zombie) z ∧
        state (tasks s r) ≠ Zombie ∧ state (tasks s' r) = Running ∧
        on_cpu (tasks s' r) = true ∧ on_rq (tasks s' r) = false ∧ cpu (tasks s' r) = c
    end.
Proof.
  intros Hi Hc. unfold fetch_task. destruct (lookup_lt_is_Some_2 (rqs s) c Hc) as [rq Hrq]. rewrite Hrq.
  destruct (wp_elim _ _ (wp_fetch_loop (S (nr_running (inner rq))) s L c Hi Hc
    ltac:(destruct (si_queues _ _ Hi c (inner rq)) as (? & ? & ? & ? & _ & _ & _ & _ & -> & _);
          [by rewrite Hrq|lia]))) as ([res s'] & Heq & L' & Hi' & _ & Hoth & _ & Hres).
  by exists res, s', L'.
Qed.

(** Waking a blocked task makes it ready and puts it on exactly one queue, of a
    CPU its affinity mask allows when there is one; a task still saving its context
    is only marked, and every other task is left as it is.  No wakeup panics. *)
Theorem wake_up_task_once hart s L r :
  sys_inv s L → 0 < ncpu s →
  ∃ res s' L', wake_up_task hart s r = Some (res, s') ∧ sys_inv s' L' ∧
    match state (tasks s r) with
    | Blocked =>
      res = negb (on_rq (tasks s r)) ∧
      (res = true → ∃ c, L' c ≡ₚ r :: L c ∧ (∀ c', c' ≠ c → L' c' = L c') ∧
         state (tasks s' r) = Ready ∧ cpu (tasks s' r) = c ∧ on_rq (tasks s' r) = true ∧
         ((∃ c, c < ncpu s ∧ cpu_allowed (cpus_allowed (tasks s r)) c = true) →
          cpu_allowed (cpus_allowed (tasks s r)) c = true))
    | BlockSaving => res = false ∧ L' = L ∧ wake_pending (tasks s' r) = true
    | _ => res = false ∧ L' = L ∧ s' = s
    end.
Proof.
  intros Hi Hn. destruct (wp_elim _ _ (wp_wake_up_task hart s L r Hi Hn)) as ([res s'] & Heq & L' & Hi' & _ & Hst).
  exists res, s', L'. split_and!; [done..|]. destruct (state (tasks s r)); try done.
  - destruct Hst as (c & _ & Hal & (_ & _ & Hj) & Hres). split; [done|]. intros ->. exists c.
    destruct Hj as (_ & _ & H1 & H2 & H3 & H4 & H5). by split_and!.
  - destruct Hst as (-> & -> & ->). split_and!; [done..|]. simpl. by rewrite upd_task_eq.
Qed.

(** After a thread is removed from the local queues it is on none of them, and
    no other thread has moved. *)
Theorem remove_from_all_queues s L i :
  sys_inv s L →
  ∃ s' L', remove_task_from_all_local_queues_unlocked s i = Some s' ∧ sys_inv s' L' ∧
    ∀ c r, r ∈ L' c ↔ r ∈ L c ∧ tid (tasks s r) ≠ i.
Proof.
  intros Hi. destruct (wp_elim _ _ (wp_remove_from_queues s L i 0 (ncpu s) Hi eq_refl ltac:(lia)))
    as (s' & Heq & L' & Hi' & _ & _ & _ & Hmem). by exists s', L'.
Qed.

(** Stealing takes the front task of the source queue only if it is live,
    movable and allowed on the target, and hands it over with its CPU updated and
    off every queue; an exited front task is dropped, and a task that may not move
    stays queued at the source.  Other queues are not touched. *)
Theorem steal_task_from_cpu_sound hart s L src target :
  sys_inv s L →
  ∃ res s' L', steal_task_from_cpu hart s src target = Some (res, s') ∧ sys_inv s' L' ∧
    stole s s' L L' src target res.
Proof.
  intros Hi. destruct (wp_elim _ _ (wp_steal_task_from_cpu hart s L src target Hi))
    as ([res s'] & Heq & L' & Hi' & _ & Hst). by exists res, s', L'.
Qed.
End props.

(** ** Witnesses: two CPUs, thread 1 blocked, then queued on CPU 0 *)

Definition SysTree := sys (Qc := RbRootCached CfsKey TaskRef) (Qd := RbRootCached DeadlineKey TaskRef).

Definition demo_heap : heap := upd_task normal_task 1 (with_state Blocked).

Definition demo_sys : SysTree := boot_sys 2 demo_heap.

Definition demo_busy : SysTree :=
  from_option snd demo_sys (enqueue_task_on_cpu demo_sys 1 0 true).

Lemma demo_heap_ok : tasks_ok demo_heap ∧ ∀ r, on_rq (demo_heap r) = false.
Proof.
  unfold demo_heap.
  assert (∀ r, tid (upd_task normal_task 1 (with_state Blocked) r) = r) as Htid
    by (intros r; by rewrite (upd_task_proj tid)).
  split; [split|].
  - intros r r'. by rewrite !Htid.
  - intros r. by rewrite (upd_task_proj sched_policy).
  - intros r. by rewrite (upd_task_proj on_rq).
Qed.

Lemma demo_sys_inv : sys_inv demo_sys (λ _, []).
Proof. apply sys_inv_boot; apply demo_heap_ok. Qed.

Lemma demo_busy_inv : ∃ L, sys_inv demo_busy L ∧ L 0 = [1].
Proof.
  destruct (wp_elim _ _ (wp_enqueue_task_on_cpu demo_sys _ 1 0 true demo_sys_inv))
    as ([res s] & Heq & L & Hi & _ & Hj & Hres).
  assert (res = true) as -> by (rewrite Hres; vm_compute; reflexivity).
  exists L. destruct Hj as (_ & _ & _ & _ & _ & _ & _ & Hp & _). simpl in Hp.
  split; [unfold demo_busy; by rewrite Heq|by apply Permutation_singleton_r].
Qed.

Lemma select_task_rq_allowed_witness :
  ∃ sel, select_task_rq 2 (demo_heap 1) 0 1 (λ _, (snapshots demo_sys, true)) = Some sel ∧
    cpu_allowed (cpus_allowed (demo_heap 1)) (sel_cpu sel) = true.
Proof.
  destruct (select_task_rq_allowed 2 (demo_heap 1) 0 1 (λ _, (snapshots demo_sys, true))
    (λ _ c, snapshot (from_option view RqView_new (rqs demo_sys !! c)))) as (sel & Heq & _ & Hal & _).
  - lia.
  - intros _. exact (snapshots_read demo_sys).
  - exists sel. split; [exact Heq|]. apply Hal. exists 0. split; [lia|reflexivity].
Defined.

Lemma fetch_task_first_live_witness :
  ∃ r s', fetch_task 0 demo_busy = Some (Some r, s') ∧ state (tasks s' r) = Running.
Proof.
  destruct demo_busy_inv as (L & Hi & HL).
  destruct (fetch_task_first_live demo_busy L 0) as (res & s' & L' & Heq & _ & _ & Hres).
  - exact Hi.
  - vm_compute. lia.
  - destruct res as [r|].
    + exists r, s'. destruct Hres as (z & _ & _ & _ & Hrun & _). split; [exact Heq|exact Hrun].
    + rewrite HL in Hres. destruct Hres as [_ Hz]. apply Forall_cons in Hz as [Hz _].
      vm_compute in Hz. discriminate.
Defined.

Lemma wake_up_task_once_witness :
  ∃ s' L', wake_up_task 1 demo_sys 1 = Some (true, s') ∧ sys_inv s' L' ∧ on_rq (tasks s' 1) = true.
Proof.
  destruct (wake_up_task_once 1 demo_sys (λ _, []) 1) as (res & s' & L' & Heq & Hi & Hst).
  - apply demo_sys_inv.
  - vm_compute. lia.
  - change (state (tasks demo_sys 1)) with Blocked in Hst. destruct Hst as [Hres Hj].
    change (on_rq (tasks demo_sys 1)) with false in Hres. simpl in Hres. subst res.
    destruct (Hj eq_refl) as (c & _ & _ & _ & _ & Hon & _).
    exists s', L'. split; [exact Heq|]. split; [exact Hi|exact Hon].
Defined.

Lemma remove_from_all_queues_witness :
  ∃ s' L', remove_task_from_all_local_queues_unlocked demo_busy 1 = Some s' ∧ sys_inv s' L' ∧ L' 0 = [].
Proof.
  destruct demo_busy_inv as (L & Hi & HL).
  destruct (remove_from_all_queues demo_busy L 1 Hi) as (s' & L' & Heq & Hi' & Hmem).
  exists s', L'. split; [exact Heq|]. split; [exact Hi'|].
  destruct (L' 0) as [|r l] eqn:HL'; [reflexivity|].
  destruct (proj1 (Hmem 0 r)) as [Hin Hne]; [rewrite HL'; by left|].
  rewrite HL in Hin. apply list_elem_of_singleton in Hin as ->. by destruct Hne.
Defined.

Lemma steal_task_from_cpu_sound_witness :
  ∃ res s' L L', steal_task_from_cpu 1 demo_busy 0 1 = Some (res, s') ∧ stole demo_busy s' L L' 0 1 res ∧
    L 0 = [1].
Proof.
  destruct demo_busy_inv as (L & Hi & HL).
  destruct (steal_task_from_cpu_sound 1 demo_busy L 0 1 Hi) as (res & s' & L' & Heq & _ & Hst).
  exists res, s', L, L'. split; [exact Heq|]. split; [exact Hst|exact HL].
Defined.

End SchedProps.
