(* ===== verification/Processor.v ===== *)
(** * Context switches, blocking and the idle handshake
    (os/src/process/scheduler/processor.rs, wait.rs)

    What a CPU does around a context switch: starting the task it picked,
    accounting its run time, committing a block, and requeueing it; the sections of
    the blocking and waking primitives; and the scheduler loop. *)

From S2P Require Import Prelude OrderedQueue RbArena RbTree Task CfsRq DeadlineRq RtRq RunQueue Sched.

(** Accounting of a time slice that ends at [now] (the first half of the switch
    back in [run_tasks]). *)
Definition account (now : Z) (t : TaskStruct) : TaskStruct :=
  let e := se t in
  let delta_exec := Z.max (saturating_sub now (exec_start e)) 1 in
  let weight := Z.max (load_weight e) 1 in
  let delta_vruntime := (saturating_mul delta_exec 1024 / weight)%Z in
  with_on_cpu false (with_se (λ _, MkSe
    (saturating_add (vruntime e) (Z.max delta_vruntime 1)) 0
    (saturating_add (sum_exec_runtime e) delta_exec) (sum_exec_runtime e) (load_weight e)) t).

(** Committing a block under the task lock: a wakeup that arrived while the
    context was being saved turns the block into a requeue, and names the CPU it
    came from. *)
Definition commit (t : TaskStruct) : TaskStruct * option nat :=
  if decide (state t = BlockSaving) then
    if wake_pending t then (with_wake false None (with_state Ready t), wake_source_cpu t)
    else (with_wake (wake_pending t) None (with_state Blocked t), None)
  else (t, None).

(** The lock section of the blocking primitives in wait.rs. *)
Definition block_section (t : TaskStruct) : TaskStruct :=
  with_state BlockSaving (with_wake false None t).

(** The task-lock section of [wake_up_task]: the task, and whether the caller must
    enqueue it. *)
Definition wake_section (hart : nat) (t : TaskStruct) : TaskStruct * bool :=
  if decide (state t = Blocked) then (with_state Ready t, true)
  else if decide (state t = BlockSaving) then (with_wake true (Some hart) t, false)
  else (t, false).

(** The policies whose clock [advance_cfs_min_vruntime] drives. *)
Definition is_fair_policy (p : Z) : bool :=
  (p =? SCHED_OTHER)%Z || (p =? SCHED_BATCH)%Z || (p =? SCHED_IDLE)%Z.

Section processor.
Context {Qc Qd : Type} `{!OrderedQueue CfsKey TaskRef Qc} `{!OrderedQueue DeadlineKey TaskRef Qd}.
Implicit Types (s : sys (Qc := Qc) (Qd := Qd)) (r : TaskRef).

(** The state of the scheduler and of [PROCESSORS]. *)
Record machine := MkMachine { sched : sys (Qc := Qc) (Qd := Qd); current : nat → option TaskRef }.

Definition set_current (c : nat) (t : option TaskRef) (m : machine) : machine :=
  MkMachine (sched m) (λ c', if decide (c' = c) then t else current m c').

Definition with_sched s (m : machine) : machine := MkMachine s (current m).

(** Starting the picked task at time [now]. *)
Definition start_task (hart : nat) (now : Z) s r : sys :=
  on_task r (λ t, with_se (λ e, MkSe (vruntime e) now (sum_exec_runtime e) (prev_sum_exec_runtime e) (load_weight e))
    (with_need_resched false (with_state Running (with_on_cpu true (with_on_rq false (with_cpu hart t))))))
    (scheduler_cpu_running s hart).

(** The switch back from task [r] at time [now]. *)
Definition finish_switch (hart : nat) (now : Z) s r : option sys :=
  let t := account now (tasks s r) in
  let '(t', wake_source) := commit t in
  let s := on_task r (λ _, t') s in
  if decide (state t' = Ready) then
    match wake_source with
    | Some src => snd <$> enqueue_resumed_task hart s r src
    | None => add_task_into_pool hart s r
    end
  else
    let s := scheduler_task_stopped s (cpu t') (load_weight (se t')) in
    Some (if is_fair_policy (sched_policy t') then advance_cfs_min_vruntime s (cpu t') else s).

(** One turn of the [run_tasks] loop up to the switch to the picked task; with
    nothing to run, the CPU publishes that it is idle, sleeps and wakes up. *)
Definition run_pick (hart : nat) (now : Z) (m : machine) : option machine :=
  '(next, s) ← fetch_task hart (sched m);
  '(next, s) ← match next with
               | Some r => Some (Some r, s)
               | None => idle_tasks hart s hart
               end;
  match next with
  | Some r => Some (set_current hart (Some r) (with_sched (start_task hart now s r) m))
  | None =>
    let '(armed, s) := scheduler_idle_arm (scheduler_idle_prepare s hart) hart in
    Some (with_sched (if (armed : bool) then scheduler_idle_exit s hart else s) m)
  end.

(** The rest of the turn, after the task has switched back to the scheduler. *)
Definition run_switch_back (hart : nat) (now : Z) (m : machine) : option machine :=
  match current m hart with
  | None => Some m
  | Some r =>
    s ← finish_switch hart now (sched m) r;
    Some (with_sched s (set_current hart None m))
  end.

(** [suspend_current_and_run_next] up to the switch. *)
Definition suspend_current (hart : nat) (m : machine) : option machine :=
  r ← current m hart;
  Some (with_sched (on_task r (with_state Ready) (sched m)) m).

(** [block_current_and_run_next_if] (and the [_mp] variant) up to the switch:
    under the queue lock, the condition is checked and the task is marked and
    queued. *)
Definition block_current_if (hart : nat) (m : machine) (queue : list TaskRef) (should_block : bool)
    : option (bool * machine * list TaskRef) :=
  if negb should_block then Some (false, m, queue)
  else
    r ← current m hart;
    Some (true, with_sched (on_task r block_section (sched m)) m, queue ++ [r]).

(** [block_current_and_run_next_if_task] up to the switch. *)
Definition block_current_if_task (hart : nat) (m : machine) (should_block : TaskStruct → bool)
    : option (bool * machine) :=
  r ← current m hart;
  if negb (should_block (tasks (sched m) r)) then Some (false, m)
  else Some (true, with_sched (on_task r block_section (sched m)) m).

(** [wake_up_one]: stale entries are dropped until a sleeping task is found. *)
Fixpoint wake_up_one (hart : nat) s (queue : list TaskRef) : option (bool * sys * list TaskRef) :=
  match queue with
  | [] => Some (false, s, [])
  | r :: queue =>
    if decide (state (tasks s r) = BlockSaving) then
      Some (true, on_task r (with_wake true (Some hart)) s, queue)
    else if decide (state (tasks s r) = Blocked) then
      '(_, s) ← wake_up_task hart s r;
      Some (true, s, queue)
    else wake_up_one hart s queue
  end.

(** [wake_up_all]: the number of tasks woken. *)
Fixpoint wake_up_all (fuel hart : nat) s (queue : list TaskRef) (count : nat)
    : option (nat * sys * list TaskRef) :=
  match fuel with
  | O => None
  | S fuel =>
    '(woken, s, queue) ← wake_up_one hart s queue;
    if (woken : bool) then wake_up_all fuel hart s queue (S count) else Some (count, s, queue)
  end.

(** [wake_up_all_mp]: the queue is drained under its lock, then every task is
    woken. *)
Fixpoint wake_each (hart : nat) s (ts : list TaskRef) (count : nat) : option (nat * sys) :=
  match ts with
  | [] => Some (count, s)
  | r :: ts =>
    '(woken, s) ← wake_up_task hart s r;
    wake_each hart s ts (if (woken : bool) then S count else count)
  end.

Definition wake_up_all_mp (hart : nat) s (queue : list TaskRef) : option (nat * sys * list TaskRef) :=
  '(count, s) ← wake_each hart s queue 0;
  Some (count, s, []).

(** ** The invariant of the machine *)

(** The scheduler is consistent; a task that runs on a CPU is on no queue, runs
    on no other CPU, and is not blocked. *)
Record mach_inv (m : machine) (L : nat → list TaskRef) : Prop := {
  mi_sys : sys_inv (sched m) L;
  mi_cpus : 0 < ncpu (sched m);
  mi_free c r : current m c = Some r → ∀ c', r ∉ L c';
  mi_one c c' r : current m c = Some r → current m c' = Some r → c = c';
  mi_awake c r : current m c = Some r → state (tasks (sched m) r) ≠ Blocked;
}.

(** The task of CPU [hart] has not exited: only then does it execute. *)
Definition running (hart : nat) (m : machine) : Prop :=
  ∀ r, current m hart = Some r → state (tasks (sched m) r) ≠ Zombie.

(** The events of the machine: a CPU enters [run_tasks], which puts it online for
    placement, picks a task, switches back, its task suspends, blocks or exits; any CPU
    wakes a task, starts a new one, or removes a thread from the queues.  A turn of the
    loop starts with the wakeups of [wake_expired_sleep_tasks], which are steps of their
    own. *)
Inductive mstep : machine → machine → Prop :=
  | ms_online hart m : mstep m (with_sched (scheduler_cpu_online (sched m) hart) m)
  | ms_pick hart now m m' :
      hart < ncpu (sched m) → current m hart = None →
      run_pick hart now m = Some m' → mstep m m'
  | ms_back hart now m m' : run_switch_back hart now m = Some m' → mstep m m'
  | ms_suspend hart m m' : running hart m → suspend_current hart m = Some m' → mstep m m'
  | ms_block hart m m' q q' :
      running hart m → block_current_if hart m q true = Some (true, m', q') → mstep m m'
  | ms_exit hart m r :
      current m hart = Some r → mstep m (with_sched (on_task r (with_state Zombie) (sched m)) m)
  | ms_wake hart m r b s : wake_up_task hart (sched m) r = Some (b, s) → mstep m (with_sched s m)
  | ms_new hart m r parent s :
      (∀ c, current m c ≠ Some r) → enqueue_new_task hart (sched m) r parent = Some s →
      mstep m (with_sched s m)
  | ms_remove m i s :
      remove_task_from_all_local_queues_unlocked (sched m) i = Some s → mstep m (with_sched s m).

(** [n] CPUs with empty queues and nothing running. *)
Definition boot (n : nat) (h : heap) : machine := MkMachine (boot_sys n h) (λ _, None).

Lemma boot_inv n h :
  0 < n → tasks_ok h → (∀ r, on_rq (h r) = false) → mach_inv (boot n h) (λ _, []).
Proof.
  intros Hn Ht Hrq. split; [by apply sys_inv_boot| |done|done|done].
  unfold ncpu. simpl. by rewrite length_replicate.
Qed.

(** A step of the scheduler that only moves [r], which runs nowhere. *)
Lemma mach_inv_joined m L L' s r c b :
  mach_inv m L → sys_inv s L' → ncpu s = ncpu (sched m) → joined (sched m) s L L' r c b →
  (∀ c, current m c ≠ Some r) → mach_inv (with_sched s m) L'.
Proof.
  intros [Hs Hn Hf Ho Ha] Hs' Hn' (Hfr & _ & Hj) Hno. split; simpl; [done|by rewrite Hn'| |done|].
  - intros c1 r1 Hc1 c2 Hin. assert (r1 ≠ r) as Hne by (intros ->; by apply (Hno c1)).
    apply (Hf c1 r1 Hc1 c2). destruct b; [|by rewrite <-Hj].
    destruct Hj as (_ & _ & _ & _ & _ & Hp & Hoth). destruct (decide (c2 = c)) as [->|Hcc].
    + rewrite Hp in Hin. by apply elem_of_cons in Hin as [?|?].
    + by rewrite <-Hoth.
  - intros c1 r1 Hc1. rewrite Hfr by (intros ->; by apply (Hno c1)). by eapply Ha.
Qed.

(** A write to a running task that leaves it off the queues. *)
Lemma mach_inv_current m L hart r f :
  let t := tasks (sched m) r in
  mach_inv m L → current m hart = Some r →
  tid (f t) = tid t → sched_policy (f t) = sched_policy t → on_rq (f t) = on_rq t →
  (state (f t) ≠ Zombie → state t ≠ Zombie) → state (f t) ≠ Blocked →
  mach_inv (with_sched (on_task r f (sched m)) m) L.
Proof.
  intros t Hi Hc Htid Hp Hrq Hz Hb. pose proof Hi as [Hs Hn Hf Ho Ha]. subst t.
  split; simpl; [|done|done|done|].
  - apply sys_inv_free; [by eapply Hf|done|done| |done]. rewrite Hrq. intros Hz'%Hz.
    apply not_true_iff_false. intros [c' Hin]%(si_on_rq _ _ Hs r Hz'). by eapply Hf.
  - intros c1 r1 Hc1. destruct (decide (r1 = r)) as [->|]; [by rewrite upd_task_eq|].
    rewrite upd_task_ne by done. by eapply Ha.
Qed.

Lemma wp_wake hart m L r :
  mach_inv m L →
  wp (wake_up_task hart (sched m) r) (λ '(b, s), ∃ L', mach_inv (with_sched s m) L').
Proof.
  intros Hi. pose proof Hi as [Hs Hn Hf Ho Ha]. eapply wp_mono; [by apply wp_wake_up_task|].
  intros [b s] (L' & Hs' & Hn' & Hst). exists L'.
  destruct (state (tasks (sched m) r)) eqn:Hr; simpl in Hst.
  1-3, 5: destruct Hst as (_ & -> & ->); by destruct m.
  - destruct Hst as (c & _ & _ & Hj & _).
    assert (∀ c, current m c ≠ Some r) as Hno by (intros c1 Hc1; by apply (Ha c1 r Hc1)).
    set (m1 := with_sched (on_task r (with_state Ready) (sched m)) m).
    assert (mach_inv m1 L) as Hi1.
    { split; simpl; [|done|done|done|].
      - apply sys_inv_task; [done|by rewrite Hr|done].
      - intros c1 r1 Hc1. rewrite upd_task_ne by (intros ->; by apply (Hno c1)). by eapply Ha. }
    by apply (mach_inv_joined m1 L L' s r c b).
  - destruct Hst as (_ & -> & ->). split; simpl; [done..|]. intros c1 r1 Hc1.
    rewrite (upd_task_proj state) by done. by eapply Ha.
Qed.

(** Starting a task that has just left the queues. *)
Lemma start_inv m L L' s hart now r :
  mach_inv m L → sys_inv s L' → ncpu s = ncpu (sched m) →
  (∃ c, r ∈ L c) → (∀ c, r ∉ L' c) → (∀ r' c, r' ∈ L' c → ∃ c', r' ∈ L c') →
  (∀ r', (∀ c, r' ∉ L c) → tasks s r' = tasks (sched m) r') →
  state (tasks s r) ≠ Zombie → on_rq (tasks s r) = false → current m hart = None →
  mach_inv (set_current hart (Some r) (with_sched (start_task hart now s r) m)) L'.
Proof.
  intros [Hs Hn Hf Ho Ha] Hs' Hn' [c0 Hin0] Hout Hsub Hfr Hz Hrq Hcur.
  assert (∀ c r', current m c = Some r' → r' ≠ r) as Hne.
  { intros c r' Hc ->. by apply (Hf c r Hc c0). }
  split; simpl.
  - unfold start_task, scheduler_cpu_running. rewrite normalized_view_eq.
    apply sys_inv_task; [done| |by apply sys_inv_view]. intros _. split; [done|]. by rewrite <-Hrq.
  - unfold start_task, scheduler_cpu_running. rewrite normalized_view_eq. unfold on_task, ncpu. simpl. rewrite length_alter.
    unfold ncpu in Hn, Hn'. lia.
  - intros c r'. case_decide; [intros [= <-]; apply Hout|]. intros Hc c' Hin.
    apply Hsub in Hin as [c'' Hin]. by apply (Hf c r' Hc c'').
  - intros c c' r'. repeat case_decide; subst; try done.
    + intros [= <-] Hc'. by apply Hne in Hc'.
    + intros Hc [= <-]. by apply Hne in Hc.
    + apply Ho.
  - intros c r'. case_decide as Hcc; [intros [= <-]; by rewrite upd_task_eq|].
    intros Hc. rewrite upd_task_ne by (by apply not_eq_sym, (Hne c)). unfold scheduler_cpu_running. rewrite normalized_view_eq. simpl.
    rewrite Hfr by (by eapply Hf). by eapply Ha.
Qed.

(** An idle turn changes no task and no queue. *)
Lemma idle_turn_inv m L L' s hart :
  mach_inv m L → sys_inv s L' → ncpu s = ncpu (sched m) →
  (∀ r' c, r' ∈ L' c → ∃ c', r' ∈ L c') →
  (∀ r', (∀ c, r' ∉ L c) → tasks s r' = tasks (sched m) r') →
  mach_inv (with_sched (let '(armed, s) := scheduler_idle_arm (scheduler_idle_prepare s hart) hart in
    if (armed : bool) then scheduler_idle_exit s hart else s) m) L'.
Proof.
  intros [Hs Hn Hf Ho Ha] Hs' Hn' Hsub Hfr. set (s1 := scheduler_idle_prepare s hart).
  assert (sys_inv s1 L' ∧ ncpu s1 = ncpu s ∧ tasks s1 = tasks s) as (Hs1 & Hn1 & Ht1)
    by (unfold s1, scheduler_idle_prepare; rewrite normalized_view_eq; split_and!; [by apply sys_inv_view|apply ncpu_upd_view|done]).
  assert (∀ s2, sys_inv s2 L' ∧ ncpu s2 = ncpu s ∧ tasks s2 = tasks s → mach_inv (with_sched s2 m) L') as Hgen.
  { intros s2 (Hs2 & Hn2 & Ht2). split; simpl; [done|by rewrite Hn2, Hn'| |done|].
    { intros c r Hc c' Hin. apply Hsub in Hin as [c'' Hin]. by eapply Hf. }
    intros c r Hc. rewrite Ht2, Hfr by (by eapply Hf). by eapply Ha. }
  unfold scheduler_idle_arm. destruct (rqs s1 !! hart) as [rq|]; [|by apply Hgen].
  destruct (arm_view _ _).1; apply Hgen; unfold scheduler_idle_exit; rewrite ?normalized_view_eq;
    (split_and!; [by repeat apply sys_inv_view|by rewrite ?ncpu_upd_view|done]).
Qed.

Lemma wp_run_pick hart now m L :
  mach_inv m L → hart < ncpu (sched m) → current m hart = None →
  wp (run_pick hart now m) (λ m', ∃ L', mach_inv m' L').
Proof.
  intros Hi Hh Hcur. pose proof Hi as [Hs Hn Hf Ho Ha]. unfold run_pick. apply wp_bind.
  unfold fetch_task. destruct (lookup_lt_is_Some_2 (rqs (sched m)) hart Hh) as [rq Hrq]. rewrite Hrq.
  eapply wp_mono.
  { apply (wp_fetch_loop _ (sched m) L hart Hs Hh).
    destruct (si_queues _ _ Hs hart (inner rq)) as (? & ? & ? & ? & _ & _ & _ & _ & -> & _); [by rewrite Hrq|lia]. }
  intros [[r|] s1] (L1 & Hs1 & Hn1 & Hoth1 & Hfr1 & Hres).
  - destruct Hres as (z & HL & _ & Hz & Hrun & Honcpu & Honrq & _). apply wp_bind, wp_ret, wp_ret.
    exists L1. eapply start_inv; [done..| | | | | |done|done].
    + exists hart. rewrite HL. set_solver.
    + eapply not_queued; [done|by rewrite Hrun|done].
    + intros r' c Hin. exists c. destruct (decide (c = hart)) as [->|]; [rewrite HL; set_solver|by rewrite <-Hoth1].
    + intros r' Hr'. by apply Hfr1.
    + by rewrite Hrun.
  - destruct Hres as [HL1 _]. apply wp_bind. eapply wp_mono; [by apply wp_idle_tasks|].
    assert (∀ r' c, r' ∈ L1 c → r' ∈ L c) as Hsub1.
    { intros r' c Hin. destruct (decide (c = hart)) as [->|]; [rewrite HL1 in Hin; by apply not_elem_of_nil in Hin|].
      by rewrite <-Hoth1. }
    intros [[r|] s2] (L2 & Hs2 & Hn2 & Hfr2 & Hres);
      (assert (∀ r', (∀ c, r' ∉ L c) → tasks s2 r' = tasks (sched m) r') as Hfr
        by (intros r' Hr'; rewrite Hfr2; [apply Hfr1, Hr'|intros c' Hin; by apply (Hr' c'), Hsub1])).
    + destruct Hres as (src & w & Hne & Hoth2 & Hfr2' & HL & Hz & _ & _ & Hcpu & Honrq & Hst). apply wp_ret. exists L2.
      rewrite <-Hst in Hz. eapply start_inv; [done|done|by rewrite Hn2, Hn1| | | |done..].
      * exists src. apply Hsub1. rewrite HL. by left.
      * eapply not_queued; done.
      * intros r' c Hin. exists c. apply Hsub1.
        destruct (decide (c = src)) as [->|]; [rewrite HL; by right|by rewrite <-Hoth2].
    + pose proof (idle_turn_inv m L L2 s2 hart Hi Hs2) as Hidle.
      destruct (scheduler_idle_arm _ _) as [armed s3]. apply wp_ret. exists L2.
      apply Hidle; [by rewrite Hn2, Hn1| |done]. intros r' c Hin.
      destruct (Hres r') as [c' Hin']; [by exists c|]. exists c'. by apply Hsub1.
Qed.

(** ** Switching back *)

Lemma commit_spec t :
  let '(t', src) := commit t in
  tid t' = tid t ∧ sched_policy t' = sched_policy t ∧ on_rq t' = on_rq t ∧
  (state t' = Zombie ↔ state t = Zombie) ∧
  (state t = BlockSaving → state t' = if wake_pending t then Ready else Blocked) ∧
  (state t ≠ BlockSaving → t' = t ∧ src = None).
Proof.
  unfold commit. case_decide as Hs.
  - destruct (wake_pending t); split_and!; simpl; try done; by rewrite Hs.
  - by split_and!.
Qed.

Lemma wp_run_switch_back hart now m L :
  mach_inv m L → wp (run_switch_back hart now m) (λ m', ∃ L', mach_inv m' L' ∧ current m' hart = None).
Proof.
  intros Hi. pose proof Hi as [Hs Hn Hf Ho Ha]. unfold run_switch_back.
  destruct (current m hart) as [r|] eqn:Hc; [|by exists L].
  unfold finish_switch. pose proof (commit_spec (account now (tasks (sched m) r))) as Hcm.
  destruct (commit _) as [t' src]. destruct Hcm as (Htid & Hpol & Hrq & Hz & _).
  set (s1 := on_task r (λ _, t') (sched m)). set (m1 := set_current hart None (with_sched s1 m)).
  assert (∀ c, current m1 c ≠ Some r) as Hno.
  { intros c. simpl. case_decide as Hcc; [done|]. intros Hc'. apply Hcc. by apply (Ho c hart r). }
  assert (mach_inv m1 L) as Hi1.
  { split; simpl.
    - apply sys_inv_free; [by eapply Hf|done|done| |done]. intros Hz'. rewrite Hrq. simpl.
      apply not_true_iff_false. intros [c' Hin]%(si_on_rq _ _ Hs r).
      + by eapply Hf.
      + intros Hz2. by apply Hz', Hz.
    - done.
    - intros c r'. case_decide; [done|]. apply Hf.
    - intros c c' r'. repeat case_decide; try done. apply Ho.
    - intros c r'. case_decide as Hcc; [done|]. intros Hc'. destruct (decide (r = r')) as [<-|].
      + destruct Hcc. by apply (Ho c hart r).
      + rewrite upd_task_ne by done. by eapply Ha. }
  assert (sys_inv s1 L) as Hs1 by apply (mi_sys _ _ Hi1).
  apply wp_bind. destruct (decide (state t' = Ready)).
  - destruct src as [src|].
    + destruct (wp_elim _ _ (wp_enqueue_resumed_task hart s1 L r src Hs1 Hn))
        as ([b s2] & -> & L' & c & Hs2 & Hn2 & _ & Hj & _). simpl. apply wp_ret. apply wp_ret.
      exists L'. split; [|simpl; by rewrite decide_True]. by apply (mach_inv_joined m1 L L' s2 r c b).
    + eapply wp_mono; [by apply wp_add_task_into_pool|]. intros s2 (L' & c & b & Hs2 & Hn2 & Hj). apply wp_ret.
      exists L'. split; [|simpl; by rewrite decide_True]. by apply (mach_inv_joined m1 L L' s2 r c b).
  - apply wp_ret. apply wp_ret. exists L. split; [|simpl; by rewrite decide_True].
    unfold scheduler_task_stopped. rewrite normalized_view_eq. set (s2 := upd_view _ _ _).
    assert (∀ s3, sys_inv s3 L → ncpu s3 = ncpu s1 → tasks s3 = tasks s1 →
      mach_inv (with_sched s3 (set_current hart None m)) L) as Hgen.
    { intros s3 H3 Hn3 Ht3. destruct Hi1 as [_ Hn1 Hf1 Ho1 Ha1]. split; simpl; [done|by rewrite Hn3|done|done|].
      rewrite Ht3. exact Ha1. }
    assert (sys_inv s2 L) as Hs2 by (by apply sys_inv_view).
    destruct (is_fair_policy _); apply Hgen; try done; try (by apply ncpu_upd_view).
    + by apply sys_inv_advance.
    + unfold advance_cfs_min_vruntime. destruct (rqs s2 !! _); [|by apply ncpu_upd_view].
      rewrite ncpu_with_inner. by apply ncpu_upd_view.
    + unfold advance_cfs_min_vruntime. by destruct (rqs s2 !! _).
Qed.

Lemma wp_machine_remove m L i :
  mach_inv m L →
  wp (remove_task_from_all_local_queues_unlocked (sched m) i) (λ s, ∃ L', mach_inv (with_sched s m) L').
Proof.
  intros [Hs Hn Hf Ho Ha]. eapply wp_mono; [apply (wp_remove_from_queues _ L i 0); [done|done|lia]|].
  intros s (L' & Hs' & Hn' & _ & Hst & Hmem). exists L'. split; simpl; [done|by rewrite Hn'| |done|].
  - intros c r Hc c' [Hin _]%Hmem. by eapply Hf.
  - intros c r Hc. rewrite Hst. by eapply Ha.
Qed.

Lemma wp_new hart m L r parent :
  mach_inv m L → (∀ c, current m c ≠ Some r) →
  wp (enqueue_new_task hart (sched m) r parent) (λ s, ∃ L', mach_inv (with_sched s m) L').
Proof.
  intros Hi Hno. pose proof Hi as [Hs Hn _ _ _].
  eapply wp_mono; [by apply wp_enqueue_new_task|].
  intros s (L' & c & Hs' & Hn' & _ & _ & Hj). exists L'. by eapply mach_inv_joined.
Qed.

Lemma suspend_inv hart m m' L :
  mach_inv m L → suspend_current hart m = Some m' → (∀ r, current m hart = Some r → state (tasks (sched m) r) ≠ Zombie) →
  mach_inv m' L.
Proof.
  intros Hi Hsp Hz. unfold suspend_current in Hsp. destruct (current m hart) as [r|] eqn:Hc; [|done].
  injection Hsp as <-. eapply mach_inv_current; try done. intros _. by apply Hz.
Qed.

Lemma block_inv hart m m' q q' L :
  mach_inv m L → block_current_if hart m q true = Some (true, m', q') →
  (∀ r, current m hart = Some r → state (tasks (sched m) r) ≠ Zombie) → mach_inv m' L.
Proof.
  intros Hi Hb Hz. unfold block_current_if in Hb. simpl in Hb.
  destruct (current m hart) as [r|] eqn:Hc; [|done]. injection Hb as <- <-.
  eapply mach_inv_current; try done. intros _. by apply Hz.
Qed.

Lemma exit_inv hart m r L :
  mach_inv m L → current m hart = Some r →
  mach_inv (with_sched (on_task r (with_state Zombie) (sched m)) m) L.
Proof. intros Hi Hc. by eapply mach_inv_current. Qed.

Lemma online_inv hart m L : mach_inv m L → mach_inv (with_sched (scheduler_cpu_online (sched m) hart) m) L.
Proof.
  intros [Hs Hn Hf Ho Ha]. unfold scheduler_cpu_online. rewrite normalized_view_eq.
  split; simpl; [by apply sys_inv_view|by rewrite ncpu_upd_view|done..].
Qed.

Lemma mach_inv_step m m' L : mach_inv m L → mstep m m' → ∃ L', mach_inv m' L'.
Proof.
  intros Hi Hs. destruct Hs as [hart m|hart now m m' Hlt Hc Hp|hart now m m' Hb|hart m m' Hr Hsp
    |hart m m' q q' Hr Hb|hart m r Hc|hart m r b s Hw|hart m r parent s Hno Hw|m i s Hw].
  - exists L. by apply online_inv.
  - pose proof (wp_run_pick hart now m L Hi Hlt Hc) as H. by rewrite Hp in H.
  - pose proof (wp_run_switch_back hart now m L Hi) as H. rewrite Hb in H. destruct H as (L' & ? & _). by exists L'.
  - exists L. by eapply suspend_inv.
  - exists L. by eapply block_inv.
  - exists L. by eapply exit_inv.
  - pose proof (wp_wake hart m L r Hi) as H. by rewrite Hw in H.
  - pose proof (wp_new hart m L r parent Hi Hno) as H. by rewrite Hw in H.
  - pose proof (wp_machine_remove m L i Hi) as H. by rewrite Hw in H.
Qed.

Lemma mach_inv_steps m m' L : mach_inv m L → rtc mstep m m' → ∃ L', mach_inv m' L'.
Proof.
  intros Hi Hs. revert L Hi. induction Hs as [|m1 m2 m3 H12 _ IH]; intros L Hi; [by exists L|].
  destruct (mach_inv_step _ _ _ Hi H12) as [L2 Hi2]. by eapply IH.
Qed.

End processor.

(** ** Properties *)

Module ProcessorProps.
Section props.
Context {Qc Qd : Type} `{!OrderedQueue CfsKey TaskRef Qc} `{!OrderedQueue DeadlineKey TaskRef Qd}.

(** C12 The machine starts with any number of CPUs, no CPU online and no task queued or
    running, and any policies that the scheduler knows.  Its steps, of any CPUs in any
    order, are: a CPU goes online, picks a task (its own, or a stolen one), switches
    back, its task suspends, blocks or exits, a task is woken or started, with the
    placement over the CPUs that are online, or a thread is taken off the queues; each
    is one step under the locks it holds.  In every state reached a task runs on at most
    one CPU, is on no run queue while it runs, and is on at most one run queue
    otherwise, once; a live task is on a queue exactly when its [on_rq] flag says so,
    and every queue satisfies the invariants of its classes. *)
Theorem tasks_run_exclusively n h (m : machine (Qc := Qc) (Qd := Qd)) :
  0 < n → tasks_ok h → (∀ r, on_rq (h r) = false) → rtc mstep (boot n h) m →
  ∃ L, sys_inv (sched m) L ∧
    (∀ c c' r, current m c = Some r → current m c' = Some r → c = c') ∧
    (∀ c c' r, current m c = Some r → r ∉ L c').
Proof.
  intros Hn Ht Hrq Hs. destruct (mach_inv_steps _ _ _ (boot_inv n h Hn Ht Hrq) Hs) as [L [Hsys _ Hf Ho _]].
  exists L. split_and!; [done|done|]. intros c c' r Hc. by apply (Hf c).
Qed.

(** C13 No scheduler event panics, on an index out of range of the array of queues, a
    failed assertion, or in the trees of the queues: in every state of that machine a
    CPU without a task can pick its next one, any CPU can switch back, wake any task,
    start a task that is not running, and remove any thread. *)
Theorem scheduler_never_panics n h (m : machine (Qc := Qc) (Qd := Qd)) :
  0 < n → tasks_ok h → (∀ r, on_rq (h r) = false) → rtc mstep (boot n h) m →
  ∀ hart now r parent i, hart < ncpu (sched m) →
    (current m hart = None → is_Some (run_pick hart now m)) ∧
    is_Some (run_switch_back hart now m) ∧
    is_Some (wake_up_task hart (sched m) r) ∧
    ((∀ c, current m c ≠ Some r) → is_Some (enqueue_new_task hart (sched m) r parent)) ∧
    is_Some (remove_task_from_all_local_queues_unlocked (sched m) i).
Proof.
  intros Hn Ht Hrq Hs hart now r parent i Hlt.
  destruct (mach_inv_steps _ _ _ (boot_inv n h Hn Ht Hrq) Hs) as [L Hi].
  assert (∀ A (x : option A) Q, wp x Q → is_Some x) as Hwp by (intros A [a|] Q Hq; [by exists a|done]).
  split_and!.
  - intros Hc. by eapply Hwp, wp_run_pick.
  - by eapply Hwp, wp_run_switch_back.
  - by eapply Hwp, wp_wake.
  - intros Hno. by eapply Hwp, wp_new.
  - by eapply Hwp, wp_machine_remove.
Qed.
End props.

(** ** Witnesses: two CPUs go online, thread 1 is placed and picked by CPU 0 *)

Definition MachTree :=
  machine (Qc := RbRootCached CfsKey TaskRef) (Qd := RbRootCached DeadlineKey TaskRef).

Definition demo_boot : MachTree := boot 2 normal_task.

Definition demo_online : MachTree :=
  with_sched (scheduler_cpu_online (scheduler_cpu_online (sched demo_boot) 0) 1) demo_boot.

Definition demo_running : MachTree :=
  default demo_online (s ← enqueue_new_task 0 (sched demo_online) 1 0; run_pick 0 5 (with_sched s demo_online)).

Lemma normal_tasks_ok : tasks_ok normal_task ∧ ∀ r, on_rq (normal_task r) = false.
Proof. by repeat split. Qed.

Lemma demo_online_reachable : rtc mstep demo_boot demo_online.
Proof.
  eapply rtc_l; [exact (ms_online 0 demo_boot)|]. apply rtc_once.
  exact (ms_online 1 (with_sched (scheduler_cpu_online (sched demo_boot) 0) demo_boot)).
Qed.

(** The placement finds a CPU that is online and reserves it. *)
Lemma demo_placed : (λ x, x.1) <$> select_and_reserve (sched demo_online) 1 0 0 = Some (MkSelection 0 true).
Proof. vm_compute. reflexivity. Qed.

Lemma demo_running_reachable : rtc mstep demo_boot demo_running.
Proof.
  etrans; [apply demo_online_reachable|].
  destruct (enqueue_new_task 0 (sched demo_online) 1 0) as [s|] eqn:Hn; [|by vm_compute in Hn].
  assert (demo_running = default demo_online (run_pick 0 5 (with_sched s demo_online))) as Heq
    by (unfold demo_running; by rewrite Hn).
  pose proof (boot_inv (Qc := RbRootCached CfsKey TaskRef) (Qd := RbRootCached DeadlineKey TaskRef)
    2 normal_task ltac:(lia) (proj1 normal_tasks_ok) (proj2 normal_tasks_ok)) as Hi0.
  destruct (mach_inv_steps _ _ _ Hi0 demo_online_reachable) as [L0 Hi].
  assert (mstep demo_online (with_sched s demo_online)) as Hs1 by (by apply (ms_new 0 demo_online 1 0)).
  destruct (mach_inv_step _ _ _ Hi Hs1) as [L1 Hi1].
  assert (0 < ncpu (sched (with_sched s demo_online))) as Hlt by apply (mi_cpus _ _ Hi1).
  destruct (wp_elim _ _ (wp_run_pick 0 5 _ L1 Hi1 Hlt eq_refl)) as (m' & Hm' & _).
  rewrite Heq, Hm'. eapply rtc_l; [exact Hs1|]. apply rtc_once. by eapply ms_pick.
Qed.

Lemma tasks_run_exclusively_witness :
  ∃ L, sys_inv (sched demo_running) L ∧ current demo_running 0 = Some 1 ∧ 1 ∉ L 0.
Proof.
  destruct (tasks_run_exclusively 2 normal_task demo_running) as (L & Hi & _ & Hout).
  - lia.
  - apply normal_tasks_ok.
  - apply normal_tasks_ok.
  - apply demo_running_reachable.
  - exists L. assert (current demo_running 0 = Some 1) as Hc by (vm_compute; reflexivity).
    split; [exact Hi|]. split; [exact Hc|exact (Hout 0 0 1 Hc)].
Defined.

Lemma scheduler_never_panics_witness :
  is_Some (run_switch_back 0 9 demo_running) ∧ is_Some (wake_up_task 0 (sched demo_running) 1).
Proof.
  destruct (scheduler_never_panics 2 normal_task demo_running) with (hart := 0) (now := 9%Z) (r := 1) (parent := 0) (i := 1)
    as (_ & H1 & H2 & _).
  - lia.
  - apply normal_tasks_ok.
  - apply normal_tasks_ok.
  - apply demo_running_reachable.
  - vm_compute. lia.
  - split; [exact H1|exact H2].
Defined.

End ProcessorProps.
