(* ===== verification/Fairness.v ===== *)
(** * No fair task starves in a queue that nobody joins

    The turns of the scheduler loop of one CPU whose run queue holds fair tasks only:
    pick, run, suspend or block, account and requeue.  As long as no other task joins
    the queue, every task in it is picked after a number of turns bounded by how far the
    other tasks' clocks lag behind its own. *)

From S2P Require Import Prelude OrderedQueue RbArena RbTree Task CfsRq DeadlineRq RtRq RunQueue Sched Processor.

Section fairness.
Context {Qc Qd : Type} `{!OrderedQueue CfsKey TaskRef Qc} `{!OrderedQueue DeadlineKey TaskRef Qd}.
Implicit Types (s : sys (Qc := Qc) (Qd := Qd)) (m : machine (Qc := Qc) (Qd := Qd)) (l : list (CfsKey * TaskRef)) (r : TaskRef) (hart : nat).

(** One turn of the loop of [run_tasks] with the time slice of the task it picks, which
    starts at [t0] and ends at [t1]: the task suspends, or it blocks. *)
Definition turn hart (t0 t1 : Z) (blocks : bool) m : option (option TaskRef * machine) :=
  m ← run_pick hart t0 m;
  match current m hart with
  | None => Some (None, m)
  | Some r =>
    m ← (if blocks then '(_, m, _) ← block_current_if hart m [] true; Some m else suspend_current hart m);
    m ← run_switch_back hart t1 m;
    Some (Some r, m)
  end.

(** Turns until [r0] is picked: whether it is. *)
Fixpoint turns_until hart r0 (ts : list (Z * Z * bool)) m : option bool :=
  match ts with
  | [] => Some false
  | (t0, t1, blocks) :: ts =>
    '(task, m) ← turn hart t0 t1 blocks m;
    if decide (task = Some r0) then Some true else turns_until hart r0 ts m
  end.

(** ** A run queue of fair tasks *)

Definition fair_rq (h : heap) (q : Rqinner (Qc := Qc) (Qd := Qd)) l : Prop :=
  ∃ lp, dl_inv h (rq_deadline q) [] lp ∧ rt_inv h (rq_rt q) [] ∧ cfs_inv h (rq_cfs q) l ∧ rt_throttled (rq_rt q) = false.

Definition fair_live (h : heap) r : Prop := state (h r) ≠ Zombie ∧ is_fair_policy (sched_policy (h r)) = true.

(** The queue of CPU [hart] holds the entries [l]: live tasks of the fair class, and
    none of the other classes. *)
Definition fair_at hart s l : Prop :=
  ∃ rq, rqs s !! hart = Some rq ∧ fair_rq (tasks s) (inner rq) l ∧ Forall (λ e, fair_live (tasks s) e.2) l.

Lemma fair_rq_heap h h' q l : Forall (λ e, h' e.2 = h e.2) l → fair_rq h q l → fair_rq h' q l.
Proof.
  intros Hh (lp & Hd & Hr & Hc & Ht). exists lp. split_and!; [by eapply dl_inv_heap|by eapply rt_inv_heap| |done].
  eapply cfs_inv_heap; [|done]. eapply Forall_impl; [exact Hh|]. by intros e ->.
Qed.

(** A write to a task that is not queued. *)
Lemma fair_at_task hart s l r f : r ∉ l.*2 → fair_at hart s l → fair_at hart (on_task r f s) l.
Proof.
  intros Hr (rq & Hrq & Hf & Hl).
  assert (Forall (λ e, upd_task (tasks s) r f e.2 = tasks s e.2) l) as Hh.
  { apply Forall_forall. intros e He. apply upd_task_ne. intros Heq. apply Hr. rewrite Heq. by apply list_elem_of_fmap_2. }
  exists rq. split_and!; [done|by eapply fair_rq_heap|]. simpl. rewrite Forall_forall in *. intros e He.
  unfold fair_live. rewrite (Hh e He). by apply Hl.
Qed.

Lemma fair_at_view hart s l c f : fair_at hart s l → fair_at hart (upd_view c f s) l.
Proof.
  intros (rq & Hrq & Hf & Hl). unfold fair_at, upd_view. simpl. rewrite list_lookup_alter.
  destruct (decide (c = hart)) as [->|]; [|by exists rq]. rewrite Hrq. by exists (MkRq (inner rq) (f (view rq))).
Qed.

Lemma fair_at_advance hart s l c : fair_at hart s l → fair_at hart (advance_cfs_min_vruntime s c) l.
Proof.
  intros (rq & Hrq & Hf & Hl). unfold advance_cfs_min_vruntime. destruct (rqs s !! c) as [rq'|] eqn:Hc; [|by exists rq].
  unfold fair_at, with_inner. simpl. rewrite list_lookup_alter. destruct (decide (c = hart)) as [->|]; [|by exists rq].
  rewrite Hrq in Hc |- *. injection Hc as <-. eexists. split; [reflexivity|]. split; [|done].
  destruct Hf as (lp & Hd & Hrt & Hcf & Ht). exists lp. split_and!; [done|done|by apply cfs_inv_advance|done].
Qed.

Lemma fair_at_front hart s k r l : fair_at hart s ((k, r) :: l) →
  r ∉ l.*2 ∧ tid (tasks s r) ∉ CfsRq.tids (tasks s) l ∧ k_vruntime k = vruntime (se (tasks s r)) ∧ fair_live (tasks s) r ∧
  Forall (λ e, (k_vruntime k ≤ k_vruntime e.1)%Z) l.
Proof.
  intros (rq & _ & (lp & _ & _ & Hc & _) & Hl). pose proof (ci_tids _ _ _ Hc) as [Hni _]%NoDup_cons.
  apply Forall_cons in Hl as [Hl _]. pose proof (ci_entries _ _ _ Hc) as [(_ & Hv & _) _]%Forall_cons.
  split_and!; [|exact Hni|done|done|exact (models_head_vruntime _ _ _ (ci_models _ _ _ Hc))].
  intros (e & He & Hin)%list_elem_of_fmap. apply Hni. simpl. rewrite He. exact (list_elem_of_fmap_2 (λ e, tid (tasks s e.2)) l e Hin).
Qed.

Lemma wp_pop_fair h q k r l : fair_rq h q ((k, r) :: l) →
  wp (pop_next_task h q) (λ '(res, q'), res = Some r ∧ fair_rq h q' l).
Proof.
  intros (lp & Hd & Hr & Hc & Ht). unfold pop_next_task.
  apply wp_bind, wp_or_else, wp_bind. eapply wp_mono; [by apply wp_dl_pop_next|].
  intros [res d] (-> & Hd' & _). apply wp_ret. simpl in *.
  apply wp_or_else, wp_bind. simpl. eapply wp_mono; [by apply wp_rt_pop_next|].
  intros [res rt] (-> & Hr' & Ht'). apply wp_ret. simpl in *.
  apply wp_bind. eapply wp_mono; [by apply wp_cfs_pop_next|].
  intros [res c] (-> & Hc' & _). apply wp_ret. simpl. split; [done|]. exists lp. by split_and!.
Qed.

(** ** The parts of a turn *)

(** The task that runs: what the rest of the turn needs of it. *)
Record picked hart s l r (t : TaskStruct) : Prop := {
  pk_fair : fair_at hart s l;
  pk_out : r ∉ l.*2;
  pk_tid : tid (tasks s r) ∉ CfsRq.tids (tasks s) l;
  pk_rq : on_rq (tasks s r) = false;
  pk_cpu : cpu (tasks s r) = hart;
  pk_policy : is_fair_policy (sched_policy (tasks s r)) = true;
  pk_vruntime : vruntime (se (tasks s r)) = vruntime (se t);
}.

Lemma fair_tids_upd h r f l : r ∉ l.*2 → CfsRq.tids (upd_task h r f) l = CfsRq.tids h l.
Proof.
  intros Hr. unfold CfsRq.tids. apply Forall_fmap_ext_1, Forall_forall. intros e He. rewrite upd_task_ne; [done|].
  intros Heq. apply Hr. rewrite Heq. by apply list_elem_of_fmap_2.
Qed.

(** Writes that keep the fields of the record. *)
Lemma picked_task hart s l r t f :
  picked hart s l r t → tid (f (tasks s r)) = tid (tasks s r) → on_rq (f (tasks s r)) = on_rq (tasks s r) → cpu (f (tasks s r)) = cpu (tasks s r) →
  sched_policy (f (tasks s r)) = sched_policy (tasks s r) → vruntime (se (f (tasks s r))) = vruntime (se (tasks s r)) →
  picked hart (on_task r f s) l r t.
Proof.
  intros [H1 H2 H3 H4 H5 H6 H7] Ht Hq Hc Hp Hv.
  assert (tasks (on_task r f s) r = f (tasks s r)) as Heq by apply upd_task_eq.
  split; rewrite ?Heq, ?Hq, ?Hc, ?Hp, ?Hv; try done; [by apply fair_at_task|]. simpl. by rewrite fair_tids_upd, Ht.
Qed.

Lemma wp_pick_fair hart t0 m k r l : fair_at hart (sched m) ((k, r) :: l) →
  wp (run_pick hart t0 m) (λ m', current m' hart = Some r ∧ state (tasks (sched m') r) = Running ∧
    picked hart (sched m') l r (tasks (sched m) r)).
Proof.
  intros Hf. destruct (fair_at_front _ _ _ _ _ Hf) as (Hout & Htid & _ & [Hz Hp] & _). destruct Hf as (rq & Hrq & Hrf & Hl).
  unfold run_pick. apply wp_bind. unfold fetch_task. rewrite Hrq. cbn [fetch_loop]. rewrite Hrq. cbn [mbind option_bind].
  apply wp_bind. eapply wp_mono; [by apply (wp_pop_fair _ _ k r l)|]. intros [res q] [-> Hq]. cbv zeta.
  set (s1 := on_task r (with_on_rq false) (with_inner hart q (sched m))).
  assert (tasks s1 r = with_on_rq false (tasks (sched m) r)) as Hr1 by apply upd_task_eq. rewrite decide_False by (by rewrite Hr1).
  apply wp_ret, wp_bind, wp_ret, wp_ret.
  assert (fair_at hart s1 l) as Hf1.
  { apply fair_at_task; [done|]. exists (MkRq q (view rq)). apply Forall_cons in Hl as [_ Hl]. split_and!; [|done|done].
    simpl. rewrite list_lookup_alter_eq. by rewrite Hrq. }
  assert (picked hart (on_task r (λ t, with_need_resched false (with_state Running (with_on_cpu true (with_cpu hart t)))) s1) l r (tasks (sched m) r)) as Hpk.
  { set (f := λ t, _). assert (tasks (on_task r f s1) r = f (with_on_rq false (tasks (sched m) r))) as Heq by (rewrite <-Hr1; apply upd_task_eq).
    split; rewrite ?Heq; try done; [by apply fair_at_task|]. simpl. by rewrite !fair_tids_upd. }
  simpl. split_and!; [by rewrite decide_True|unfold start_task; simpl; by rewrite upd_task_eq|].
  unfold start_task, scheduler_cpu_running. rewrite normalized_view_eq.
  assert (∀ s v, picked hart s l r (tasks (sched m) r) → picked hart (upd_view hart v s) l r (tasks (sched m) r)) as Hv
    by (intros s v [? ? ? ? ? ? ?]; split; try done; by apply fair_at_view).
  apply picked_task; [by apply Hv|done|exact (eq_sym (pk_rq _ _ _ _ _ Hpk))|exact (eq_sym (pk_cpu _ _ _ _ _ Hpk))|done|done].
Qed.

(** The requeueing of the task that ran. *)
Lemma wp_enqueue_fair hart s l r t : picked hart s l r t → state (tasks s r) ≠ Zombie →
  wp (enqueue_task_on_cpu s r hart false) (λ '(_, s'), ∃ key, fair_at hart s' (sorted_insert key r l) ∧ (vruntime (se t) ≤ k_vruntime key)%Z).
Proof.
  intros Hpk Hz. unfold enqueue_task_on_cpu. destruct (pk_fair _ _ _ _ _ Hpk) as (rq & Hrq & _). rewrite Hrq, decide_False by done.
  set (f := λ t, with_on_cpu false (with_state Ready (with_cpu hart t))). cbv zeta.
  assert (picked hart (on_task r f s) l r t) as Hpk1 by (apply picked_task; try done; by rewrite (pk_cpu _ _ _ _ _ Hpk)).
  assert (tasks (on_task r f s) r = f (tasks s r)) as Hr1 by apply upd_task_eq. set (s1 := on_task r f s) in *.
  apply wp_bind. unfold enqueue_task. rewrite (pk_rq _ _ _ _ _ Hpk1), decide_False by (by rewrite Hr1). cbv zeta.
  set (g := λ t, with_on_cpu false (with_on_rq true t)). set (h := upd_task (tasks s1) r g).
  assert (h r = g (tasks s1 r)) as Hr by apply upd_task_eq.
  destruct (fair_at_task hart s1 l r g (pk_out _ _ _ _ _ Hpk) (pk_fair _ _ _ _ _ Hpk1)) as (rq' & Hrq' & (lp & Hd & Hrt & Hc & Ht) & Hl).
  assert (rq' = rq) as -> by (simpl in Hrq'; congruence). cbn [on_task with_tasks tasks] in Hd, Hrt, Hc, Hl. fold h in Hd, Hrt, Hc, Hl.
  apply wp_bind. unfold enqueue_class. cbv zeta. pose proof (pk_policy _ _ _ _ _ Hpk1) as Hp. unfold is_fair_policy in Hp.
  replace (sched_policy (h r)) with (sched_policy (tasks s1 r)) by (by rewrite Hr). rewrite Hp. apply wp_bind.
  assert (tid (h r) ∉ CfsRq.tids h l) as Htid.
  { unfold h at 2. rewrite fair_tids_upd by apply Hpk. rewrite Hr. apply (pk_tid _ _ _ _ _ Hpk1). }
  eapply wp_mono; [by apply wp_cfs_enqueue|]. intros [h' c] (-> & Hc' & _). apply wp_ret, wp_ret, wp_ret.
  set (key := MkCfsKey _ _ _) in *. exists key. split; last first.
  { pose proof (pk_vruntime _ _ _ _ _ Hpk) as Hv. simpl. rewrite Hr, Hr1. simpl. lia. }
  eexists. simpl. rewrite list_lookup_alter_eq, Hrq. split; [reflexivity|]. split.
  - exists lp. split_and!; [by eapply dl_inv_heap|by eapply rt_inv_heap|done|done].
  - rewrite sorted_insert_perm. constructor.
    + unfold fair_live. simpl. rewrite upd_task_eq, Hr, Hr1. split; [done|]. exact (pk_policy _ _ _ _ _ Hpk).
    + rewrite Forall_forall in *. intros e He. unfold fair_live. rewrite upd_task_ne; [by apply Hl|].
      intros Heq. apply (pk_out _ _ _ _ _ Hpk). rewrite Heq. by apply list_elem_of_fmap_2.
Qed.

Lemma account_vruntime now t :
  (vruntime (se t) < U64_MAX)%Z → (vruntime (se t) + 1 ≤ vruntime (se (account now t)))%Z.
Proof. unfold account. simpl. unfold saturating_add. lia. Qed.

(** What is left of the turn: the queue without the task, or with it later. *)
Definition turned l l' r (v : Z) : Prop :=
  l' = l ∨ ∃ key, l' = sorted_insert key r l ∧ ((v < U64_MAX)%Z → (v + 1 ≤ k_vruntime key)%Z).

Lemma wp_back_fair hart now m l r t : picked hart (sched m) l r t → current m hart = Some r →
  state (tasks (sched m) r) = Ready ∨ state (tasks (sched m) r) = BlockSaving ∧ wake_pending (tasks (sched m) r) = false →
  wp (run_switch_back hart now m) (λ m', ∃ l', fair_at hart (sched m') l' ∧ turned l l' r (vruntime (se t))).
Proof.
  intros Hpk Hc Hst. unfold run_switch_back. rewrite Hc. apply wp_bind. unfold finish_switch.
  set (t1 := account now (tasks (sched m) r)). assert (state t1 = state (tasks (sched m) r)) as Hs1 by done.
  assert (∀ f, tasks (on_task r f (sched m)) r = f (tasks (sched m) r)) as Hon by (intros; apply upd_task_eq).
  pose proof (account_vruntime now (tasks (sched m) r)) as Hacc. fold t1 in Hacc. rewrite (pk_vruntime _ _ _ _ _ Hpk) in Hacc.
  unfold commit. destruct Hst as [Hst|[Hst Hw]]; rewrite Hs1, Hst.
  - rewrite decide_False by done. rewrite Hs1, Hst, decide_True by done. unfold add_task_into_pool. rewrite Hon.
    assert (cpu t1 = hart) as -> by apply Hpk. unfold normalize_cpu.
    destruct (pk_fair _ _ _ _ _ Hpk) as (rq & Hrq & _). rewrite decide_True by (by eapply lookup_lt_Some). cbn [default].
    apply wp_bind. assert (picked hart (on_task r (λ _, t1) (sched m)) l r t1) as Hpk1.
    { destruct Hpk as [H1 H2 H3 H4 H5 H6 H7]. split; rewrite ?Hon; try done; [by apply fair_at_task|]. simpl. by rewrite fair_tids_upd. }
    eapply wp_mono; [apply (wp_enqueue_fair hart _ l r t1 Hpk1)|]; [by rewrite Hon, Hs1, Hst|].
    intros [b s'] (key & Hf & Hv). apply wp_ret, wp_ret. exists (sorted_insert key r l). split; [done|]. right. exists key. split; [done|]. lia.
  - rewrite decide_True by done. change (wake_pending t1) with (wake_pending (tasks (sched m) r)). rewrite Hw. simpl. apply wp_ret, wp_ret.
    exists l. split; [|by left]. unfold scheduler_task_stopped. rewrite normalized_view_eq. simpl.
    assert (fair_at hart (upd_view (cpu t1) (remove_runnable (task_weight_from_value (load_weight (se t1)))) (on_task r (λ _, with_wake false None (with_state Blocked t1)) (sched m))) l) as Hf
      by (apply fair_at_view, fair_at_task; apply Hpk).
    case_match; [by apply fair_at_advance|exact Hf].
Qed.

Lemma wp_turn hart t0 t1 blocks m k r l : fair_at hart (sched m) ((k, r) :: l) →
  wp (turn hart t0 t1 blocks m) (λ '(res, m'), res = Some r ∧ ∃ l', fair_at hart (sched m') l' ∧ turned l l' r (k_vruntime k)).
Proof.
  intros Hf. destruct (fair_at_front _ _ _ _ _ Hf) as (_ & _ & -> & _). unfold turn. apply wp_bind.
  eapply wp_mono; [by apply (wp_pick_fair hart t0 m k r l)|]. intros m1 (Hc & Hrun & Hpk). rewrite Hc. apply wp_bind.
  eapply (wp_mono _ (λ m2, current m2 hart = Some r ∧ picked hart (sched m2) l r (tasks (sched m) r) ∧
    (state (tasks (sched m2) r) = Ready ∨ state (tasks (sched m2) r) = BlockSaving ∧ wake_pending (tasks (sched m2) r) = false))).
  { assert (∀ f, tasks (sched (with_sched (on_task r f (sched m1)) m1)) r = f (tasks (sched m1) r)) as Hon by (intros; apply upd_task_eq).
    destruct blocks; [unfold block_current_if; cbn [negb]|unfold suspend_current]; rewrite Hc; apply wp_ret;
      (split; [done|]; split; [by apply picked_task|]; rewrite Hon; first [by right|by left]). }
  intros m2 (Hc2 & Hpk2 & Hst). apply wp_bind. eapply wp_mono; [by eapply wp_back_fair|]. intros m3 Hl. by apply wp_ret.
Qed.

(** ** The bound *)

(** How many vruntime units the tasks other than [r0] can run before their clocks
    pass [v]. *)
Definition lag (v : Z) (r0 : TaskRef) l : nat :=
  sum_list_with (λ e, if decide (e.2 = r0) then 0 else Z.to_nat (v + 1 - k_vruntime e.1)) l.

Lemma lag_perm v r0 l l' : l ≡ₚ l' → lag v r0 l = lag v r0 l'.
Proof. unfold lag. induction 1; simpl; lia. Qed.

(** A turn that does not pick [r0] brings it closer. *)
Lemma lag_decreases v r0 k r l l' :
  r ≠ r0 → (k_vruntime k ≤ v < U64_MAX)%Z → turned l l' r (k_vruntime k) → lag v r0 l' < lag v r0 ((k, r) :: l).
Proof.
  intros Hne Hle [->|(key & -> & Hlt)]; [|rewrite (lag_perm _ _ _ _ (sorted_insert_perm key r l))]; unfold lag; simpl; rewrite !decide_False by done; lia.
Qed.

Lemma wp_turns_until hart ts m l k0 r0 :
  fair_at hart (sched m) l → (k0, r0) ∈ l → (k_vruntime k0 < U64_MAX)%Z →
  lag (k_vruntime k0) r0 l < length ts →
  wp (turns_until hart r0 ts m) (λ b, b = true).
Proof.
  revert m l. induction ts as [|[[t0 t1] blocks] ts IH]; intros m l Hf Hin Hk0 Hlag; simpl in Hlag; [lia|].
  destruct l as [|[k r] l]; [by apply not_elem_of_nil in Hin|]. cbn [turns_until].
  destruct (fair_at_front _ _ _ _ _ Hf) as (_ & _ & _ & _ & Hh).
  apply wp_bind. eapply wp_mono; [by apply wp_turn|]. intros [res m'] (-> & l' & Hf' & Ht).
  destruct (decide (Some r = Some r0)) as [|Hne]; [done|]. assert (r ≠ r0) as Hne' by congruence.
  assert ((k0, r0) ∈ l) as Hin' by (apply elem_of_cons in Hin as [[=]|]; [by subst|done]).
  rewrite Forall_forall in Hh. pose proof (Hh _ Hin') as Hle. simpl in Hle.
  apply (IH m' l' Hf'); [|done|].
  - destruct Ht as [->|(key & -> & _)]; [done|]. rewrite sorted_insert_perm. by right.
  - pose proof (lag_decreases (k_vruntime k0) r0 k r l l' Hne' ltac:(lia) Ht). lia.
Qed.

End fairness.

(** ** Properties *)

Module FairnessProps.
Section props.
Context {Qc Qd : Type} `{!OrderedQueue CfsKey TaskRef Qc} `{!OrderedQueue DeadlineKey TaskRef Qd}.

(** C34 No starvation in a closed queue of the fair class: on a CPU whose run queue holds
    live tasks of the fair class only, while no other task joins it, a queued task whose
    vruntime has not reached the end of the clock is picked within [lag + 1] turns of the
    scheduler loop, however long the other tasks run in their turns and whether they
    suspend or block; none of the turns panics. *)
Theorem cfs_no_starvation hart ts (m : machine (Qc := Qc) (Qd := Qd)) l k0 r0 :
  fair_at hart (sched m) l → (k0, r0) ∈ l → (k_vruntime k0 < U64_MAX)%Z →
  lag (k_vruntime k0) r0 l < length ts →
  turns_until hart r0 ts m = Some true.
Proof. intros Hf Hin Hk Hlag. apply wp_eq. by apply (wp_turns_until hart ts m l k0). Qed.
End props.

(** Threads 1 and 2 are queued on CPU 0 with the same vruntime; the lag of thread 2 is
    one unit, so two turns are enough. *)
Definition demo_machine : ProcessorProps.MachTree :=
  MkMachine (MkSys CfsProps.demo2.1 [MkRq (with_cfs CfsProps.demo2.2 RunQueue.new) RqView_new; MkRq RunQueue.new RqView_new] []) (λ _, None).

Lemma demo_fair : fair_at 0 (sched demo_machine) CfsProps.demo_entries.
Proof.
  eexists. split; [reflexivity|]. split.
  - exists []. split_and!; [apply dl_inv_new|apply rt_inv_new|apply CfsProps.demo2_inv|done].
  - repeat constructor; by vm_compute.
Qed.

Lemma cfs_no_starvation_witness : turns_until 0 2 [(10, 20, false); (20, 30, true)]%Z demo_machine = Some true.
Proof.
  apply (cfs_no_starvation 0 [(10, 20, false); (20, 30, true)]%Z demo_machine CfsProps.demo_entries (MkCfsKey 5 1 2) 2).
  - apply demo_fair.
  - right. left.
  - reflexivity.
  - vm_compute. lia.
Defined.

End FairnessProps.
