(* ===== verification/WakeProtocol.v ===== *)
(** * Two concurrent protocols of the scheduler

    The wait-queue handshake of wait.rs with the commit of [run_tasks], and the
    idle handshake between [scheduler_idle_arm], [scheduler_idle_exit] and
    [mark_resched_and_kick].  Each lock section of the code is one atomic step;
    all interleavings of the sections are explored. *)

From S2P Require Import Prelude OrderedQueue RbArena RbTree Task CfsRq DeadlineRq RtRq RunQueue Sched Processor.

(** ** Blocking on a wait queue *)

Module WaitQueue.

(** [cond] is the condition the sleepers wait for; [pend] holds the tasks that the
    waker has drained from the queue and not yet woken. *)
Record wait_state := MkWait {
  tasks : heap;
  queue : list TaskRef;
  cond : bool;
  pend : option (list TaskRef);
}.

(** The sections: a running task finds the condition false and blocks, under the
    queue lock; the scheduler commits a block, under the task lock, or runs a ready
    task; the waker makes the condition true, drains the queue under its lock, and
    wakes the drained tasks one by one; anybody else may wake any task meanwhile. *)
Inductive wait_step : wait_state → wait_state → Prop :=
  | step_block h q r :
      Task.state (h r) = Running →
      wait_step (MkWait h q false None) (MkWait (upd_task h r block_section) (q ++ [r]) false None)
  | step_commit h q c p r :
      Task.state (h r) = BlockSaving →
      wait_step (MkWait h q c p) (MkWait (upd_task h r (λ t, (commit t).1)) q c p)
  | step_run h q c p r :
      Task.state (h r) = Ready →
      wait_step (MkWait h q c p) (MkWait (upd_task h r (with_state Running)) q c p)
  | step_set h q c p : wait_step (MkWait h q c p) (MkWait h q true p)
  | step_drain h q : wait_step (MkWait h q true None) (MkWait h [] true (Some q))
  | step_wake hart h q c r p :
      wait_step (MkWait h q c (Some (r :: p)))
           (MkWait (upd_task h r (λ t, (wake_section hart t).1)) q c (Some p))
  | step_other hart h q c p r :
      wait_step (MkWait h q c p) (MkWait (upd_task h r (λ t, (wake_section hart t).1)) q c p).

(** Nothing is going to run the task again unless somebody wakes it. *)
Definition asleep (t : TaskStruct) : Prop :=
  Task.state t = Blocked ∨ Task.state t = BlockSaving ∧ wake_pending t = false.

(** A sleeper is still to be found by the waker, who has made the condition true
    before it drains the queue. *)
Definition wait_inv (s : wait_state) : Prop :=
  (pend s ≠ None → cond s = true) ∧
  ∀ r, asleep (tasks s r) → r ∈ default (queue s) (pend s).

Lemma wake_not_asleep hart t : ¬ asleep (wake_section hart t).1.
Proof.
  unfold asleep, wake_section. repeat case_decide; simpl; naive_solver.
Qed.

Lemma commit_asleep t : asleep (commit t).1 → asleep t.
Proof.
  unfold asleep, commit. case_decide as Hs; [|done].
  destruct (wake_pending t) eqn:Hw; simpl; naive_solver.
Qed.

(** A step that can only put tasks other than sleepers to a different state. *)
Lemma asleep_upd h r f r' :
  (asleep (f (h r)) → asleep (h r)) → asleep (upd_task h r f r') → asleep (h r').
Proof.
  intros Hf. destruct (decide (r' = r)) as [->|]; [by rewrite upd_task_eq|by rewrite upd_task_ne].
Qed.

Lemma wait_inv_step s s' : wait_inv s → wait_step s s' → wait_inv s'.
Proof.
  intros [Hc Hin] Hs. destruct Hs; simpl in *; (split; simpl; [done || naive_solver|]).
  - intros r'. destruct (decide (r' = r)) as [->|]; [set_solver|]. rewrite upd_task_ne by done. set_solver.
  - intros r' Ha. apply Hin. eapply asleep_upd; [|exact Ha]. apply commit_asleep.
  - intros r' Ha. apply Hin. eapply asleep_upd; [|exact Ha]. unfold asleep. simpl. naive_solver.
  - done.
  - done.
  - intros r'. destruct (decide (r' = r)) as [->|].
    + rewrite upd_task_eq. intros Ha. by apply wake_not_asleep in Ha.
    + rewrite upd_task_ne by done. intros Ha%Hin. by apply elem_of_cons in Ha as [?|?].
  - intros r' Ha. apply Hin. eapply asleep_upd; [|exact Ha]. intros Hw. by apply wake_not_asleep in Hw.
Qed.

Lemma wait_inv_steps s s' : rtc wait_step s s' → wait_inv s → wait_inv s'.
Proof. induction 1; eauto using wait_inv_step. Qed.

End WaitQueue.

(** ** Sleeping idle CPUs *)

Module IdleGate.

(** Where the idle CPU is in its loop: running or fetching, idle but not armed,
    stopped in the wait-for-interrupt instruction, or resumed from it. *)
Inductive pc := Busy | Polling | Asleep | Awake.

(** One CPU's published view, its queue length, the pending interrupt, and the
    number of remote CPUs that have enqueued a task and not yet kicked. *)
Record gate_state := MkGate { vw : RqView; nr : nat; hw : bool; at_ : pc; kicks : nat }.

Inductive gate_step : gate_state → gate_state → Prop :=
  | step_enqueue v n b p k : gate_step (MkGate v n b p k) (MkGate v (S n) b p (S k))
  | step_kick v n b p k :
      gate_step (MkGate v n b p (S k)) (MkGate (kick_view v).2 n (b || (kick_view v).1) p k)
  | step_fetch v n b k : gate_step (MkGate v (S n) b Busy k) (MkGate v n b Busy k)
  | step_running v n b k :
      gate_step (MkGate v n b Busy k) (MkGate (with_idle_state IdleRunning v) n b Busy k)
  | step_prepare v n b k :
      gate_step (MkGate v n b Busy k) (MkGate (with_idle_state IdlePolling v) n b Polling k)
  | step_arm v n b k :
      gate_step (MkGate v n b Polling k)
           (MkGate (arm_view n v).2 n b (if (arm_view n v).1 then Asleep else Busy) k)
  | step_resume v n b k : gate_step (MkGate v n b Asleep k) (MkGate v n b Awake k)
  | step_exit v n b k : gate_step (MkGate v n b Awake k) (MkGate (exit_view v) n false Busy k).

(** Asleep with work means that an interrupt is pending or about to be sent; a
    CPU that is not in the idle section has no interrupt pending. *)
Definition gate_inv (s : gate_state) : Prop :=
  match at_ s with
  | Busy | Polling =>
    idle_state (vw s) ≠ idle_raw IdleWfi ∧ ipi_pending (vw s) = false ∧ hw s = false
  | Asleep | Awake =>
    idle_state (vw s) = idle_raw IdleWfi ∧ ipi_pending (vw s) = hw s ∧
    (0 < nr s → 0 < kicks s ∨ hw s = true)
  end.

Definition gate_boot : gate_state := MkGate RqView_new 0 false Busy 0.

Lemma gate_inv_step s s' : gate_inv s → gate_step s s' → gate_inv s'.
Proof.
  intros Hi Hs. destruct Hs; unfold gate_inv in *; simpl in *.
  - destruct p; naive_solver lia.
  - unfold kick_view. destruct p; destruct Hi as (Hid & Hp & Hw).
    1,2: rewrite (proj2 (Z.eqb_neq _ _)) by done; simpl; by rewrite orb_false_r.
    all: rewrite (proj2 (Z.eqb_eq _ _)) by done; simpl; rewrite Hp; split_and!; [done|by destruct b|];
      intros _; right; by destruct b.
  - done.
  - naive_solver.
  - naive_solver.
  - unfold arm_view. destruct (Nat.eqb_spec n 0) as [->|]; simpl; [|naive_solver].
    destruct Hi as (_ & -> & ->). split_and!; [done..|lia].
  - done.
  - done.
Qed.

Lemma gate_inv_steps s s' : rtc gate_step s s' → gate_inv s → gate_inv s'.
Proof. induction 1; eauto using gate_inv_step. Qed.

Lemma gate_inv_boot : gate_inv gate_boot.
Proof. done. Qed.

End IdleGate.

(** ** Draining a wait queue *)

Section drain.
Context {Qc Qd : Type} `{!OrderedQueue CfsKey TaskRef Qc} `{!OrderedQueue DeadlineKey TaskRef Qd}.
Implicit Types (s : sys (Qc := Qc) (Qd := Qd)) (q : list TaskRef).

(** Waking puts nobody to sleep. *)
Definition no_new_sleeper s s' : Prop :=
  ∀ r, WaitQueue.asleep (tasks s' r) → WaitQueue.asleep (tasks s r).

Lemma wp_wake_awake hart s L r :
  sys_inv s L → 0 < ncpu s →
  wp (wake_up_task hart s r) (λ '(_, s'), ∃ L', sys_inv s' L' ∧ ncpu s' = ncpu s ∧
    no_new_sleeper s s' ∧ ¬ WaitQueue.asleep (tasks s' r)).
Proof.
  intros Hi Hn. eapply wp_mono; [by apply wp_wake_up_task|]. intros [res s'] (L' & Hi' & Hn' & Hst).
  exists L'. unfold no_new_sleeper, WaitQueue.asleep. destruct (state (tasks s r)) eqn:Hs;
    try (destruct Hst as (_ & _ & ->); split_and!; [done..|]; rewrite Hs; naive_solver).
  - destruct Hst as (c & _ & _ & (Hfr & Hrdy & _) & _). simpl in Hrdy, Hfr. rewrite upd_task_eq in Hrdy.
    assert (state (tasks s' r) = Ready) as Hr by (by destruct Hrdy).
    split_and!; [done|done| |rewrite Hr; naive_solver]. intros r'. destruct (decide (r' = r)) as [->|Hne].
    + rewrite Hr. naive_solver.
    + by rewrite (Hfr r' Hne), upd_task_ne.
  - destruct Hst as (_ & _ & ->). simpl. split_and!; [done|done| |].
    + intros r'. destruct (decide (r' = r)) as [->|Hne]; [|by rewrite upd_task_ne].
      rewrite upd_task_eq. simpl. rewrite Hs. naive_solver.
    + rewrite upd_task_eq. simpl. rewrite Hs. naive_solver.
Qed.

Lemma wp_wake_up_one hart s L q :
  sys_inv s L → 0 < ncpu s →
  wp (wake_up_one hart s q) (λ '(woken, s', q'), ∃ L' z, sys_inv s' L' ∧ ncpu s' = ncpu s ∧
    no_new_sleeper s s' ∧ q = z ++ q' ∧ (∀ r, r ∈ z → ¬ WaitQueue.asleep (tasks s' r)) ∧
    if woken : bool then z ≠ [] else q' = []).
Proof.
  intros Hi Hn. induction q as [|r q IH]; simpl.
  { exists L, []. split_and!; try done; [by intros r|by intros r ?%not_elem_of_nil]. }
  destruct (decide (state (tasks s r) = BlockSaving)) as [Hb|Hnb].
  { apply wp_ret. exists L, [r]. unfold no_new_sleeper, WaitQueue.asleep. split_and!; try done.
    - by apply sys_inv_task.
    - intros r'. simpl. destruct (decide (r' = r)) as [->|Hne]; [|by rewrite upd_task_ne].
      rewrite upd_task_eq. simpl. rewrite Hb. by intros [?|[_ ?]].
    - intros r' ->%list_elem_of_singleton. simpl. rewrite upd_task_eq. simpl. rewrite Hb. by intros [?|[_ ?]]. }
  destruct (decide (state (tasks s r) = Blocked)) as [Hb|Hnb'].
  { apply wp_bind. eapply wp_mono; [by apply (wp_wake_awake hart s L)|]. intros [b s'] (L' & Hi' & Hn' & Hs & Ha).
    apply wp_ret. exists L', [r]. split_and!; try done. by intros r' ->%list_elem_of_singleton. }
  eapply wp_mono; [exact IH|]. intros [[woken s'] q'] (L' & z & Hi' & Hn' & Hs & -> & Hz & Hw).
  exists L', (r :: z). split_and!; try done.
  - intros r' [->|Hin]%elem_of_cons; [|by apply Hz]. intros Ha%Hs. destruct Ha as [?|[? _]]; done.
  - by destruct woken.
Qed.

Lemma wp_wake_up_all fuel hart s L q n :
  sys_inv s L → 0 < ncpu s → length q < fuel →
  wp (wake_up_all fuel hart s q n) (λ '(_, s', q'), ∃ L', sys_inv s' L' ∧ q' = [] ∧
    no_new_sleeper s s' ∧ ∀ r, r ∈ q → ¬ WaitQueue.asleep (tasks s' r)).
Proof.
  revert s L q n. induction fuel as [|fuel IH]; intros s L q n Hi Hn Hf; [lia|]. cbn [wake_up_all].
  apply wp_bind. eapply wp_mono; [by apply (wp_wake_up_one hart s L)|].
  intros [[woken s1] q1] (L1 & z & Hi1 & Hn1 & Hs1 & -> & Hz & Hw). destruct woken; last first.
  { subst q1. apply wp_ret. exists L1. rewrite app_nil_r. by split_and!. }
  rewrite length_app in Hf. assert (length z ≠ 0) by (by destruct z).
  eapply wp_mono; [apply (IH s1 L1 q1); [done|by rewrite Hn1|lia]|].
  intros [[m s'] q'] (L' & Hi' & -> & Hs' & Hq). exists L'. split_and!; [done|done| |].
  - intros r Ha. by apply Hs1, Hs'.
  - intros r [Hin|Hin]%elem_of_app; [|by apply Hq]. intros Ha%Hs'. by eapply Hz.
Qed.
End drain.

(** ** Properties *)

Module ProtocolProps.

(** C22 No wakeup is lost: when the waker has made the condition true, drained the
    wait queue and woken every drained task, no task is left blocked, and none is
    about to block, however the sections of the sleepers, of the scheduler and of
    other wakers were interleaved. *)
Theorem no_lost_wakeup h s :
  (∀ r, ¬ WaitQueue.asleep (h r)) →
  rtc WaitQueue.wait_step (WaitQueue.MkWait h [] false None) s →
  WaitQueue.pend s = Some [] → ∀ r, ¬ WaitQueue.asleep (WaitQueue.tasks s r).
Proof.
  intros Hh Hs Hp r Ha. assert (WaitQueue.wait_inv s) as [_ Hin].
  { eapply WaitQueue.wait_inv_steps; [exact Hs|]. split; [done|]. intros r' Hr'. by destruct (Hh r'). }
  apply Hin in Ha. rewrite Hp in Ha. by apply not_elem_of_nil in Ha.
Qed.

(** [wake_up_all] terminates with an empty queue, stale entries included, and no
    task that was on the queue is left asleep; it puts nobody else to sleep. *)
Theorem wake_up_all_drains {Qc Qd} `{!OrderedQueue CfsKey TaskRef Qc} `{!OrderedQueue DeadlineKey TaskRef Qd}
    hart (s : sys (Qc := Qc) (Qd := Qd)) L (q : list TaskRef) :
  sys_inv s L → 0 < ncpu s →
  ∃ n s' L', wake_up_all (S (length q)) hart s q 0 = Some (n, s', []) ∧ sys_inv s' L' ∧
    (∀ r, r ∈ q → ¬ WaitQueue.asleep (tasks s' r)) ∧
    ∀ r, WaitQueue.asleep (tasks s' r) → WaitQueue.asleep (tasks s r).
Proof.
  intros Hi Hn. destruct (wp_elim _ _ (wp_wake_up_all (S (length q)) hart s L q 0 Hi Hn ltac:(lia)))
    as ([[n s'] q'] & Heq & L' & Hi' & -> & Hs & Hq). by exists n, s', L'.
Qed.

(** An idle CPU does not sleep on work: whenever the CPU has stopped in its
    wait instruction while its queue is not empty, and every CPU that enqueued there
    has finished its kick, a scheduler interrupt is pending. *)
Theorem idle_cpu_is_interrupted s :
  rtc IdleGate.gate_step IdleGate.gate_boot s → IdleGate.at_ s = IdleGate.Asleep →
  0 < IdleGate.nr s → IdleGate.kicks s = 0 → IdleGate.hw s = true.
Proof.
  intros Hs Hat Hnr Hk. assert (IdleGate.gate_inv s) as Hi.
  { eapply IdleGate.gate_inv_steps; [exact Hs|apply IdleGate.gate_inv_boot]. }
  unfold IdleGate.gate_inv in Hi. rewrite Hat in Hi. destruct Hi as (_ & _ & Hw).
  destruct (Hw Hnr) as [?|?]; [lia|done].
Qed.

(** No scheduler interrupt survives the idle section: once the CPU is back in
    its loop no interrupt is pending, and none is sent until it arms again. *)
Theorem no_stale_interrupt s :
  rtc IdleGate.gate_step IdleGate.gate_boot s → IdleGate.at_ s = IdleGate.Busy → IdleGate.hw s = false.
Proof.
  intros Hs Hat. assert (IdleGate.gate_inv s) as Hi.
  { eapply IdleGate.gate_inv_steps; [exact Hs|apply IdleGate.gate_inv_boot]. }
  unfold IdleGate.gate_inv in Hi. rewrite Hat in Hi. by destruct Hi as (_ & _ & ?).
Qed.

(** ** Witnesses *)

(** Thread 1 blocks and commits while the waker drains and wakes it. *)
Lemma no_lost_wakeup_witness :
  let h := upd_task normal_task 1 (with_state Running) in
  ∃ s, rtc WaitQueue.wait_step (WaitQueue.MkWait h [] false None) s ∧
    WaitQueue.pend s = Some [] ∧ ∀ r, ¬ WaitQueue.asleep (WaitQueue.tasks s r).
Proof.
  intros h. set (h1 := upd_task h 1 block_section).
  set (h2 := upd_task h1 1 (λ t, (wake_section 0 t).1)).
  exists (WaitQueue.MkWait h2 [] true (Some [])).
  assert (rtc WaitQueue.wait_step (WaitQueue.MkWait h [] false None)
    (WaitQueue.MkWait h2 [] true (Some []))) as Hs.
  { apply (rtc_l _ _ (WaitQueue.MkWait h1 [1] false None)).
    { apply (WaitQueue.step_block h [] 1). reflexivity. }
    apply (rtc_l _ _ (WaitQueue.MkWait h1 [1] true None)); [apply WaitQueue.step_set|].
    apply (rtc_l _ _ (WaitQueue.MkWait h1 [] true (Some [1]))); [apply WaitQueue.step_drain|].
    apply rtc_once, (WaitQueue.step_wake 0). }
  split; [exact Hs|]. split; [reflexivity|]. apply (no_lost_wakeup h); [|exact Hs|reflexivity].
  intros r. unfold WaitQueue.asleep, h, upd_task. destruct (decide (r = 1)); simpl; intros [?|[? ?]]; discriminate.
Defined.

(** Thread 1 is blocked, thread 2 is a stale entry. *)
Lemma wake_up_all_drains_witness :
  ∃ n s', wake_up_all 3 0 SchedProps.demo_sys [2; 1] 0 = Some (n, s', []) ∧
    ¬ WaitQueue.asleep (tasks s' 1) ∧ WaitQueue.asleep (tasks SchedProps.demo_sys 1).
Proof.
  destruct (wake_up_all_drains 0 SchedProps.demo_sys (λ _, []) [2; 1]) as (n & s' & L' & Heq & _ & Hq & _).
  - apply SchedProps.demo_sys_inv.
  - vm_compute. lia.
  - exists n, s'. split; [exact Heq|]. split; [apply Hq; right; left|]. left. reflexivity.
Defined.

(** The CPU arms; another one enqueues and kicks. *)
Lemma idle_cpu_is_interrupted_witness :
  ∃ s, rtc IdleGate.gate_step IdleGate.gate_boot s ∧ IdleGate.at_ s = IdleGate.Asleep ∧ IdleGate.hw s = true.
Proof.
  set (v := (kick_view (with_idle_state IdleWfi RqView_new)).2).
  exists (IdleGate.MkGate v 1 true IdleGate.Asleep 0).
  assert (rtc IdleGate.gate_step IdleGate.gate_boot (IdleGate.MkGate v 1 true IdleGate.Asleep 0)) as Hs.
  { eapply rtc_l; [apply IdleGate.step_prepare|]. eapply rtc_l; [apply IdleGate.step_arm|].
    eapply rtc_l; [apply IdleGate.step_enqueue|]. apply rtc_once, IdleGate.step_kick. }
  split; [exact Hs|]. split; [reflexivity|].
  apply (idle_cpu_is_interrupted _ Hs); [reflexivity|simpl; lia|reflexivity].
Defined.

Lemma no_stale_interrupt_witness :
  ∃ s, rtc IdleGate.gate_step IdleGate.gate_boot s ∧ IdleGate.at_ s = IdleGate.Busy ∧ IdleGate.hw s = false.
Proof.
  set (v := exit_view (kick_view (with_idle_state IdleWfi RqView_new)).2).
  exists (IdleGate.MkGate v 1 false IdleGate.Busy 0).
  assert (rtc IdleGate.gate_step IdleGate.gate_boot (IdleGate.MkGate v 1 false IdleGate.Busy 0)) as Hs.
  { eapply rtc_l; [apply IdleGate.step_prepare|]. eapply rtc_l; [apply IdleGate.step_arm|].
    eapply rtc_l; [apply IdleGate.step_enqueue|]. eapply rtc_l; [apply IdleGate.step_kick|].
    eapply rtc_l; [apply IdleGate.step_resume|]. apply rtc_once, IdleGate.step_exit. }
  split; [exact Hs|]. split; [reflexivity|]. apply (no_stale_interrupt _ Hs). reflexivity.
Defined.

End ProtocolProps.
