(* ===== verification/SleepQueue.v ===== *)
(** * Timed sleep (process/scheduler/nanosleep.rs)

    The queue of sleeping tasks ordered by deadline, the two ways of blocking until
    a deadline, and the scan that every scheduler loop makes for expired ones. *)

From S2P Require Import Prelude OrderedQueue RbArena RbTree Task CfsRq DeadlineRq RtRq RunQueue Sched Processor WakeProtocol.

Open Scope Z_scope.

(** ** BinaryHeap

    The heap as the collection of its elements; [peek] and [pop] give a greatest
    one. *)

Section binary_heap.
Context `{RustOrd K, EqDecision K}.
Implicit Types (l : list K) (x y : K).

Fixpoint heap_peek l : option K :=
  match l with
  | [] => None
  | x :: l =>
    match heap_peek l with
    | Some y => Some (if ord_lt x y then y else x)
    | None => Some x
    end
  end.

Fixpoint remove_first x l : list K :=
  match l with
  | [] => []
  | y :: l => if decide (y = x) then l else y :: remove_first x l
  end.

Definition heap_pop l : option (K * list K) :=
  x ← heap_peek l; Some (x, remove_first x l).

Lemma heap_peek_None l : heap_peek l = None ↔ l = [].
Proof. destruct l as [|x l]; [done|]. simpl. by destruct (heap_peek l). Qed.

Lemma heap_peek_Some l x : heap_peek l = Some x → x ∈ l ∧ ∀ y, y ∈ l → ord_le y x.
Proof.
  revert x. induction l as [|z l IH]; intros x; simpl; [done|]. destruct (heap_peek l) as [y|] eqn:Hl.
  - destruct (IH y eq_refl) as [Hy Hmax]. intros [= <-]. destruct (ord_lt z y) eqn:Hlt.
    + split; [by right|]. intros w [->|Hw]%elem_of_cons; [by apply ord_lt_le|by apply Hmax].
    + apply ord_lt_false in Hlt. split; [by left|].
      intros w [->|Hw]%elem_of_cons; [done|]. etrans; [by apply Hmax|done].
  - intros [= <-]. apply heap_peek_None in Hl as ->. split; [by left|].
    by intros w ->%list_elem_of_singleton.
Qed.

Lemma remove_first_perm x l : x ∈ l → x :: remove_first x l ≡ₚ l.
Proof.
  induction l as [|y l IH]; [by intros ?%not_elem_of_nil|]. simpl. case_decide as Hd; [by subst|].
  intros [?|Hin]%elem_of_cons; [congruence|]. rewrite <-(IH Hin) at 2. apply Permutation_swap.
Qed.

Lemma heap_pop_spec l x l' :
  heap_pop l = Some (x, l') → heap_peek l = Some x ∧ x :: l' ≡ₚ l ∧ ∀ y, y ∈ l → ord_le y x.
Proof.
  unfold heap_pop. destruct (heap_peek l) as [y|] eqn:Hl; [|done]. simpl. intros [= <- <-].
  destruct (heap_peek_Some l y Hl) as [Hin Hmax]. by split_and!; [|apply remove_first_perm|].
Qed.
End binary_heap.

(** ** The sleep queue *)

Record SleepEntry := MkSleep { deadline_ns : Z; order : Z; entry_task : TaskRef }.

#[export] Instance SleepEntry_eq_dec : EqDecision SleepEntry.
Proof. solve_decision. Defined.

(** The [Ord] of [SleepEntry]: reversed, so that the heap gives the least deadline,
    then the oldest; the last key is the address of the task. *)
Definition SleepEntry_cmp (a b : SleepEntry) : comparison :=
  then_with (cmp (deadline_ns b) (deadline_ns a))
    (then_with (cmp (order b) (order a)) (cmp (entry_task a) (entry_task b))).

Definition sleep_key (e : SleepEntry) : Z * (Z * nat) := (- deadline_ns e, (- order e, entry_task e)).

#[export] Instance sleep_key_inj : Inj (=) (=) sleep_key.
Proof. intros [d o t] [d' o' t'] Heq. unfold sleep_key in Heq. simpl in Heq. simplify_eq. f_equal; lia. Qed.

#[export] Instance SleepEntry_ord : RustOrd SleepEntry.
Proof.
  refine (ord_via sleep_key SleepEntry_cmp _). intros a b. unfold SleepEntry_cmp, sleep_key. simpl.
  by rewrite !Z.compare_opp.
Defined.

Record SleepQueue := MkSleepQueue { entries : list SleepEntry; enqueue_order : Z }.

Definition new : SleepQueue := MkSleepQueue [] 0.

(** [remove_task], also [cancel_sleep_task]; [h] holds the tasks' ids. *)
Definition remove_task (h : heap) (q : SleepQueue) (t : nat) : SleepQueue :=
  MkSleepQueue (filter (λ e, tid (h (entry_task e)) ≠ t) (entries q)) (enqueue_order q).

(** [push], also [register_sleep_task]. *)
Definition push (h : heap) (q : SleepQueue) (deadline : Z) (r : TaskRef) : SleepQueue :=
  MkSleepQueue
    (MkSleep deadline (enqueue_order q) r :: filter (λ e, tid (h (entry_task e)) ≠ tid (h r)) (entries q))
    (wrapping_add (enqueue_order q) 1).

(** The test of the two loops below. *)
Definition front_expired (q : SleepQueue) (now_ns : Z) : bool :=
  match heap_peek (entries q) with Some e => deadline_ns e <=? now_ns | None => false end.

Definition pop_expired (q : SleepQueue) (now_ns : Z) : option TaskRef * SleepQueue :=
  if front_expired q now_ns then
    match heap_pop (entries q) with
    | Some (e, l) => (Some (entry_task e), MkSleepQueue l (enqueue_order q))
    | None => (None, q)
    end
  else (None, q).

(** [pop_all_expired]; [None] when the fuel runs out. *)
Fixpoint pop_all_expired (fuel : nat) (q : SleepQueue) (now_ns : Z) (tasks : list TaskRef)
    : option (list TaskRef * SleepQueue) :=
  match fuel with
  | O => None
  | S fuel =>
    if front_expired q now_ns then
      match heap_pop (entries q) with
      | Some (e, l) => pop_all_expired fuel (MkSleepQueue l (enqueue_order q)) now_ns (vec_push tasks (entry_task e))
      | None => pop_all_expired fuel q now_ns tasks
      end
    else Some (tasks, q)
  end.

(** The number of passes the loop needs: one per entry and the last test. *)
Definition pop_fuel (q : SleepQueue) : nat := S (length (entries q)).

(** [monotonic_now_ns] *)
Definition monotonic_now_ns (time_us : Z) : Z := saturating_mul time_us 1000.

(** ** With the scheduler *)

Section sched.
Context {Qc Qd : Type} `{!OrderedQueue CfsKey TaskRef Qc} `{!OrderedQueue DeadlineKey TaskRef Qd}.
Implicit Types (s : sys (Qc := Qc) (Qd := Qd)).

(** [sleep_current_until] up to [schedule]: the task section, then the queue's. *)
Definition sleep_current_until s (q : SleepQueue) (r : TaskRef) (deadline : Z) : sys * SleepQueue :=
  let s := on_task r block_section s in (s, push (tasks s) q deadline r).

(** The loop of [wake_expired_sleep_tasks] over the collected tasks. *)
Fixpoint wake_tasks (hart : nat) s (l : list TaskRef) : option sys :=
  match l with
  | [] => Some s
  | r :: l => '(_, s) ← wake_up_task hart s r; wake_tasks hart s l
  end.

Definition wake_expired_sleep_tasks (hart : nat) s (q : SleepQueue) (time_us : Z) : option (sys * SleepQueue) :=
  '(l, q) ← pop_all_expired (pop_fuel q) q (monotonic_now_ns time_us) [];
  s ← wake_tasks hart s l;
  Some (s, q).
End sched.

(** ** Collecting *)

(** The order in which tasks are woken: by deadline, then in the order they came. *)
Definition wakes_before (a b : SleepEntry) : Prop :=
  deadline_ns a < deadline_ns b ∨ deadline_ns a = deadline_ns b ∧ order a ≤ order b.

Lemma ord_le_wakes (a b : SleepEntry) : ord_le b a → wakes_before a b.
Proof.
  unfold ord_le, wakes_before. simpl. unfold SleepEntry_cmp. simpl.
  destruct (Z.compare_spec (deadline_ns a) (deadline_ns b)); simpl; [|by left|done].
  destruct (Z.compare_spec (order a) (order b)); simpl; [right; lia..|done].
Qed.

(** [es] are the entries due at [now], in order, and [rest] the others. *)
Definition due_split (now : Z) (l es rest : list SleepEntry) : Prop :=
  es ++ rest ≡ₚ l ∧ Forall (λ e, deadline_ns e ≤ now) es ∧ Forall (λ e, now < deadline_ns e) rest ∧
  StronglySorted wakes_before es.

Lemma front_expired_false q now :
  front_expired q now = false → Forall (λ e, now < deadline_ns e) (entries q).
Proof.
  unfold front_expired. destruct (heap_peek (entries q)) as [e|] eqn:Hp.
  - intros He%Z.leb_gt. apply heap_peek_Some in Hp as [_ Hmax]. apply Forall_forall.
    intros y Hy. destruct (ord_le_wakes _ _ (Hmax y Hy)); lia.
  - intros _. by apply heap_peek_None in Hp as ->.
Qed.

Lemma wp_pop_all fuel q now acc :
  (length (entries q) < fuel)%nat →
  wp (pop_all_expired fuel q now acc) (λ '(l, q'), ∃ es,
    l = acc ++ (entry_task <$> es) ∧ due_split now (entries q) es (entries q') ∧
    enqueue_order q' = enqueue_order q).
Proof.
  revert q acc. induction fuel as [|fuel IH]; intros q acc Hf; [lia|]. simpl.
  destruct (front_expired q now) eqn:Hx; last first.
  { apply wp_ret. exists []. rewrite app_nil_r. split_and!; [done| |done].
    split_and!; [done|constructor|by apply front_expired_false|constructor]. }
  destruct (heap_pop (entries q)) as [[e l]|] eqn:Hp; last first.
  { unfold front_expired in Hx. unfold heap_pop in Hp. by destruct (heap_peek (entries q)). }
  apply heap_pop_spec in Hp as (Hpk & Hperm & Hmax). unfold front_expired in Hx.
  rewrite Hpk in Hx. apply Z.leb_le in Hx.
  assert (length l < fuel)%nat as Hl by (apply Permutation_length in Hperm; simpl in Hperm; lia).
  eapply wp_mono; [apply (IH (MkSleepQueue l (enqueue_order q)) _ Hl)|].
  intros [l' q'] (es & -> & (Hes & Hdue & Hrest & Hsort) & Ho). exists (e :: es). simpl in *.
  split_and!; [unfold vec_push; by rewrite <-app_assoc| |done].
  split_and!; [by rewrite <-Hperm, <-Hes|by constructor|done|].
  constructor; [done|]. apply Forall_forall. intros y Hy. apply ord_le_wakes, Hmax.
  rewrite <-Hperm, <-Hes. set_solver.
Qed.

(** The call made by [wake_expired_sleep_tasks]. *)
Lemma pop_all_total q now :
  ∃ es q', pop_all_expired (pop_fuel q) q now [] = Some (entry_task <$> es, q') ∧
    due_split now (entries q) es (entries q').
Proof.
  assert (length (entries q) < pop_fuel q)%nat as Hf by (unfold pop_fuel; lia).
  destruct (wp_elim _ _ (wp_pop_all _ q now [] Hf)) as ([l q'] & Heq & es & -> & Hd & _). by exists es, q'.
Qed.

Lemma pop_all_Some q now l q' :
  pop_all_expired (pop_fuel q) q now [] = Some (l, q') →
  ∃ es, l = entry_task <$> es ∧ due_split now (entries q) es (entries q').
Proof. destruct (pop_all_total q now) as (es & q1 & -> & Hd). intros [= <- <-]. by exists es. Qed.

(** Which tasks are collected. *)
Lemma due_split_in now l es rest e :
  due_split now l es rest → e ∈ l → (e ∈ es ∧ deadline_ns e ≤ now) ∨ (e ∈ rest ∧ now < deadline_ns e).
Proof.
  intros (Hp & He & Hr & _). rewrite <-Hp, elem_of_app. rewrite Forall_forall in He, Hr. naive_solver.
Qed.

(** ** One entry per thread *)

Definition entry_tids (h : heap) (q : SleepQueue) : list nat := (λ e, tid (h (entry_task e))) <$> entries q.

Definition sleep_inv (h : heap) (q : SleepQueue) : Prop := NoDup (entry_tids h q).

Lemma filter_tid_nodup h (l : list SleepEntry) t :
  NoDup ((λ e, tid (h (entry_task e))) <$> l) →
  NoDup ((λ e, tid (h (entry_task e))) <$> filter (λ e, tid (h (entry_task e)) ≠ t) l).
Proof.
  intros Hn. eapply sublist_NoDup; [exact Hn|]. apply fmap_sublist, sublist_filter.
Qed.

Lemma sleep_inv_push h q d r : sleep_inv h q → sleep_inv h (push h q d r).
Proof.
  intros Hi. unfold sleep_inv, entry_tids, push. simpl. constructor; [|by apply filter_tid_nodup].
  intros (e & Heq & [Hne _]%list_elem_of_filter)%list_elem_of_fmap. done.
Qed.

Lemma sleep_inv_remove h q t : sleep_inv h q → sleep_inv h (remove_task h q t).
Proof. apply filter_tid_nodup. Qed.

(** ** Waking the collected tasks *)

Section wake.
Context {Qc Qd : Type} `{!OrderedQueue CfsKey TaskRef Qc} `{!OrderedQueue DeadlineKey TaskRef Qd}.
Implicit Types (s : sys (Qc := Qc) (Qd := Qd)) (l : list TaskRef).

Lemma wp_wake_tasks hart s L l :
  sys_inv s L → (0 < ncpu s)%nat →
  wp (wake_tasks hart s l) (λ s', ∃ L', sys_inv s' L' ∧ ncpu s' = ncpu s ∧ no_new_sleeper s s' ∧
    ∀ r, r ∈ l → ¬ WaitQueue.asleep (tasks s' r)).
Proof.
  revert s L. induction l as [|r l IH]; intros s L Hi Hn; simpl.
  { apply wp_ret. exists L. split_and!; [done|done|by intros r|by intros r ?%not_elem_of_nil]. }
  apply wp_bind. eapply wp_mono; [by apply (wp_wake_awake hart s L)|].
  intros [b s1] (L1 & Hi1 & Hn1 & Hs1 & Ha). eapply wp_mono; [apply (IH s1 L1 Hi1); lia|].
  intros s' (L' & Hi' & Hn' & Hs' & Hl). exists L'. split_and!; [done|congruence| |].
  - intros r' Hr'. by apply Hs1, Hs'.
  - intros r' [->|Hin]%elem_of_cons; [|by apply Hl]. intros Hr'%Hs'. done.
Qed.

Lemma wp_wake_expired hart s L q time_us :
  sys_inv s L → (0 < ncpu s)%nat →
  wp (wake_expired_sleep_tasks hart s q time_us) (λ '(s', q'), ∃ L' es, sys_inv s' L' ∧
    due_split (monotonic_now_ns time_us) (entries q) es (entries q') ∧ no_new_sleeper s s' ∧
    ∀ e, e ∈ es → ¬ WaitQueue.asleep (tasks s' (entry_task e))).
Proof.
  intros Hi Hn. unfold wake_expired_sleep_tasks. apply wp_bind.
  eapply wp_mono; [apply wp_pop_all; unfold pop_fuel; lia|]. intros [l q'] (es & -> & Hd & _). simpl.
  apply wp_bind. eapply wp_mono; [by apply (wp_wake_tasks hart s L)|].
  intros s' (L' & Hi' & _ & Hs & Ha). apply wp_ret. exists L', es. split_and!; [done..|].
  intros e He. apply Ha. by apply (list_elem_of_fmap_2 entry_task).
Qed.
End wake.

(** ** The sections interleaved *)

Module SleepProtocol.

(** [registering] are the tasks that have run the task section of
    [sleep_current_until] and not yet the queue's; [pend] the tasks that a
    scheduler loop has collected and not yet woken; [due] the deadline each task
    last asked for. *)
Record sleep_state := MkState {
  tasks : heap;
  queue : SleepQueue;
  registering : list TaskRef;
  pend : list TaskRef;
  due : TaskRef → Z;
}.

Inductive sleep_step : sleep_state → sleep_state → Prop :=
  | step_block h q g p d r x :
      Task.state (h r) = Running → r ∉ g →
      sleep_step (MkState h q g p d) (MkState (upd_task h r block_section) q (r :: g) p (<[r := x]> d))
  | step_register h q g p d r :
      r ∈ g → sleep_step (MkState h q g p d) (MkState h (push h q (d r) r) (filter (λ y, y ≠ r) g) p d)
  | step_commit h q g p d r :
      Task.state (h r) = BlockSaving → r ∉ g →
      sleep_step (MkState h q g p d) (MkState (upd_task h r (λ t, (commit t).1)) q g p d)
  | step_run h q g p d r :
      Task.state (h r) = Ready →
      sleep_step (MkState h q g p d) (MkState (upd_task h r (with_state Running)) q g p d)
  | step_cancel h q g p d r :
      Task.state (h r) = Running →
      sleep_step (MkState h q g p d) (MkState h (remove_task h q (tid (h r))) g p d)
  | step_collect h q g p d now l q' :
      pop_all_expired (pop_fuel q) q now [] = Some (l, q') →
      sleep_step (MkState h q g p d) (MkState h q' g (p ++ l) d)
  | step_wake hart h q g p d r :
      sleep_step (MkState h q g (r :: p) d)
        (MkState (upd_task h r (λ t, (wake_section hart t).1)) q g p d)
  | step_other hart h q g p d r :
      sleep_step (MkState h q g p d) (MkState (upd_task h r (λ t, (wake_section hart t).1)) q g p d).

(** Every sleeper is about to register, has an entry with its own deadline, or is
    about to be woken. *)
Definition findable (s : sleep_state) (r : TaskRef) : Prop :=
  r ∈ registering s ∨ (∃ o, MkSleep (due s r) o r ∈ entries (queue s)) ∨ r ∈ pend s.

Definition proto_inv (s : sleep_state) : Prop :=
  (∀ r r', tid (tasks s r) = tid (tasks s r') → r = r') ∧
  ∀ r, WaitQueue.asleep (tasks s r) → findable s r.

Lemma tids_upd h r f :
  (∀ t, tid (f t) = tid t) → (∀ r r', tid (h r) = tid (h r') → r = r') →
  ∀ r1 r2, tid (upd_task h r f r1) = tid (upd_task h r f r2) → r1 = r2.
Proof. intros Hf Hi r1 r2. rewrite !(upd_task_proj tid) by done. apply Hi. Qed.

Lemma commit_tid t : tid (commit t).1 = tid t.
Proof. unfold commit. repeat (case_match; simpl); done. Qed.

Lemma wake_section_tid hart t : tid (wake_section hart t).1 = tid t.
Proof. unfold wake_section. repeat case_decide; done. Qed.

Lemma findable_other h h' q g g' p d d' r :
  findable (MkState h q g p d) r → (r ∈ g → r ∈ g') → d' r = d r → findable (MkState h' q g' p d') r.
Proof. unfold findable. simpl. intros [?|[[o ?]|?]] Hg ->; eauto. Qed.

Lemma proto_inv_step s s' : proto_inv s → sleep_step s s' → proto_inv s'.
Proof.
  intros [Ht Ha] Hs. destruct Hs as [h q g p d r x Hr Hg|h q g p d r Hg|h q g p d r Hr Hg|h q g p d r Hr
    |h q g p d r Hr|h q g p d now l q' Hpop|hart h q g p d r|hart h q g p d r]; try apply pop_all_Some in Hpop as (es & -> & Hd); simpl in *.
  - split; [by apply tids_upd|]. intros r' Hr'. simpl in *. destruct (decide (r' = r)) as [->|Hne].
    { left. simpl. by left. }
    rewrite upd_task_ne in Hr' by done. eapply findable_other; [by apply Ha|by right|by rewrite fn_lookup_insert_ne].
  - split; [done|]. intros r' Hr'. destruct (decide (r' = r)) as [->|Hne].
    { right. left. exists (enqueue_order q). simpl. by left. }
    destruct (Ha r' Hr') as [Hin|[[o Hin]|Hin]]; simpl in *; [left|right; left|right; by right]; simpl.
    + by apply list_elem_of_filter.
    + exists o. right. apply list_elem_of_filter. split; [|done]. simpl. intros Heq. by apply Hne, Ht.
  - split; [apply tids_upd; [apply commit_tid|done]|]. intros r' Hr'. simpl in *.
    eapply findable_other; [apply Ha; eapply WaitQueue.asleep_upd; [|exact Hr']; apply WaitQueue.commit_asleep|done..].
  - split; [by apply tids_upd|]. intros r' Hr'. simpl in *. eapply findable_other; [|done..]. apply Ha.
    eapply WaitQueue.asleep_upd; [|exact Hr']. unfold WaitQueue.asleep. simpl. naive_solver.
  - split; [done|]. intros r' Hr'. simpl in *. destruct (Ha r' Hr') as [Hin|[[o Hin]|Hin]]; simpl in *;
      [by left|right; left|right; by right]. exists o. simpl. apply list_elem_of_filter. split; [|done]. simpl.
    intros Heq%Ht. subst r'. unfold WaitQueue.asleep in Hr'. rewrite Hr in Hr'. naive_solver.
  - split; [done|]. intros r' Hr'. simpl in *.
    destruct (Ha r' Hr') as [Hin|[[o Hin]|Hin]]; simpl in *; [by left| |right; right; set_solver].
    destruct (due_split_in _ _ _ _ _ Hd Hin) as [[He _]|[He _]]; right; [right|left; by exists o].
    apply elem_of_app. right. by apply (list_elem_of_fmap_2 entry_task) in He.
  - split; [apply tids_upd; [apply wake_section_tid|done]|]. intros r' Hr'. simpl in *.
    destruct (decide (r' = r)) as [->|Hne].
    { rewrite upd_task_eq in Hr'. by apply WaitQueue.wake_not_asleep in Hr'. }
    rewrite upd_task_ne in Hr' by done. destruct (Ha r' Hr') as [?|[?|Hin]]; [by left|right; by left|].
    right. right. simpl in *. by apply elem_of_cons in Hin as [?|?].
  - split; [apply tids_upd; [apply wake_section_tid|done]|]. intros r' Hr'. simpl in *.
    eapply findable_other; [|done..]. apply Ha. eapply WaitQueue.asleep_upd; [|exact Hr'].
    intros Hw. by apply WaitQueue.wake_not_asleep in Hw.
Qed.

Lemma proto_inv_steps s s' : rtc sleep_step s s' → proto_inv s → proto_inv s'.
Proof. induction 1; eauto using proto_inv_step. Qed.
End SleepProtocol.

(** ** Properties *)

Module SleepProps.

(** [pop_all_expired] terminates and collects exactly the tasks whose deadline is
    not after [now], earliest deadline first and in the order they came among equal
    ones; all the other entries stay. *)
Theorem pop_all_expired_exact q now :
  ∃ es q', pop_all_expired (pop_fuel q) q now [] = Some (entry_task <$> es, q') ∧
    es ++ entries q' ≡ₚ entries q ∧ StronglySorted wakes_before es ∧
    ∀ e, e ∈ entries q → (e ∈ es ↔ deadline_ns e ≤ now) ∧ (e ∈ entries q' ↔ now < deadline_ns e).
Proof.
  destruct (pop_all_total q now) as (es & q' & Heq & Hd). exists es, q'. pose proof Hd as (Hp & He & Hr & Hs). split_and!; [done..|]. intros e Hin.
  rewrite Forall_forall in He, Hr. pose proof (He e). pose proof (Hr e).
  destruct (due_split_in _ _ _ _ e Hd Hin); naive_solver lia.
Qed.

(** A thread has at most one pending deadline: registering replaces the previous
    one, cancelling removes it, and neither touches another thread's. *)
Theorem one_deadline_per_thread h q d r :
  sleep_inv h q →
  sleep_inv h (push h q d r) ∧ sleep_inv h (remove_task h q (tid (h r))) ∧
  (∀ e, e ∈ entries (push h q d r) → tid (h (entry_task e)) = tid (h r) → deadline_ns e = d) ∧
  (∀ e, e ∈ entries (remove_task h q (tid (h r))) → tid (h (entry_task e)) ≠ tid (h r)) ∧
  ∀ e, tid (h (entry_task e)) ≠ tid (h r) →
    (e ∈ entries q ↔ e ∈ entries (push h q d r)) ∧ (e ∈ entries q ↔ e ∈ entries (remove_task h q (tid (h r)))).
Proof.
  intros Hi. split_and!; [by apply sleep_inv_push|by apply sleep_inv_remove|..]; simpl.
  - intros e [->|[? _]%list_elem_of_filter]%elem_of_cons ?; done.
  - by intros e [? _]%list_elem_of_filter.
  - intros e Hne. rewrite elem_of_cons, list_elem_of_filter. split; [|naive_solver].
    split; [by right|]. intros [->|[_ ?]]; [done|done].
Qed.

(** The scan of a scheduler loop never panics, keeps the scheduler's invariant,
    leaves no task asleep whose deadline has passed, and leaves every entry with a
    later deadline in the queue. *)
Theorem expired_sleepers_wake {Qc Qd} `{!OrderedQueue CfsKey TaskRef Qc} `{!OrderedQueue DeadlineKey TaskRef Qd}
    hart (s : sys (Qc := Qc) (Qd := Qd)) L q time_us :
  sys_inv s L → (0 < ncpu s)%nat →
  ∃ s' q' L', wake_expired_sleep_tasks hart s q time_us = Some (s', q') ∧ sys_inv s' L' ∧
    (∀ r, WaitQueue.asleep (tasks s' r) → WaitQueue.asleep (tasks s r)) ∧
    ∀ e, e ∈ entries q →
      if deadline_ns e <=? monotonic_now_ns time_us
      then ¬ WaitQueue.asleep (tasks s' (entry_task e)) else e ∈ entries q'.
Proof.
  intros Hi Hn. destruct (wp_elim _ _ (wp_wake_expired hart s L q time_us Hi Hn))
    as ([s' q'] & Heq & L' & es & Hi' & Hd & Hs & Ha).
  exists s', q', L'. split_and!; [done..|]. intros e He.
  destruct (due_split_in _ _ _ _ e Hd He) as [[? ?%Z.leb_le]|[? ?%Z.leb_gt]]; case_match; try congruence; auto.
Qed.

(** No sleeper is forgotten: however the sections of the sleepers, of the
    scheduler loops and of other wakers are interleaved, a task that is asleep and
    has registered is already collected, or is collected by the next scan at or
    after the deadline it asked for. *)
Theorem sleepers_are_found h s r now :
  (∀ r r', tid (h r) = tid (h r') → r = r') → (∀ r, ¬ WaitQueue.asleep (h r)) →
  rtc SleepProtocol.sleep_step (SleepProtocol.MkState h new [] [] (λ _, 0)) s →
  WaitQueue.asleep (SleepProtocol.tasks s r) → r ∉ SleepProtocol.registering s →
  SleepProtocol.due s r ≤ now →
  ∃ l q', pop_all_expired (pop_fuel (SleepProtocol.queue s)) (SleepProtocol.queue s) now [] = Some (l, q') ∧
    r ∈ SleepProtocol.pend s ++ l.
Proof.
  intros Ht Hh Hs Ha Hg Hd. assert (SleepProtocol.proto_inv s) as [_ Hf].
  { eapply SleepProtocol.proto_inv_steps; [exact Hs|]. split; [done|]. intros r' Hr'. by destruct (Hh r'). }
  destruct (pop_all_total (SleepProtocol.queue s) now) as (es & q' & Heq & Hsplit).
  exists (entry_task <$> es), q'. split; [done|]. apply elem_of_app.
  destruct (Hf r Ha) as [?|[[o Hin]|?]]; [done| |by left]. right.
  destruct (due_split_in _ _ _ _ _ Hsplit Hin) as [[He _]|[_ ?]]; [|simpl in *; lia].
  by apply (list_elem_of_fmap_2 entry_task) in He.
Qed.

(** ** Witnesses *)

Definition demo_queue : SleepQueue := push normal_task (push normal_task new 9000 2%nat) 5000 1%nat.

Lemma one_deadline_per_thread_witness :
  sleep_inv normal_task demo_queue ∧
  ∀ e, e ∈ entries (push normal_task demo_queue 7000 1%nat) → tid (normal_task (entry_task e)) = 1%nat → deadline_ns e = 7000.
Proof.
  assert (sleep_inv normal_task demo_queue) as Hi by (apply sleep_inv_push, sleep_inv_push; constructor).
  split; [exact Hi|]. apply (one_deadline_per_thread normal_task demo_queue 7000 1%nat Hi).
Defined.

(** Thread 1 is blocked until 5000 ns, thread 2 until 9000 ns, and it is 6 us. *)
Lemma expired_sleepers_wake_witness :
  ∃ s' q', wake_expired_sleep_tasks 0%nat SchedProps.demo_sys demo_queue 6 = Some (s', q') ∧
    WaitQueue.asleep (tasks SchedProps.demo_sys 1%nat) ∧ ¬ WaitQueue.asleep (tasks s' 1%nat) ∧ MkSleep 9000 0 2%nat ∈ entries q'.
Proof.
  destruct (expired_sleepers_wake 0%nat SchedProps.demo_sys (λ _, []) demo_queue 6) as (s' & q' & L' & Heq & _ & _ & Hq).
  - apply SchedProps.demo_sys_inv.
  - vm_compute. lia.
  - exists s', q'. split; [exact Heq|]. split; [left; reflexivity|]. split.
    + apply (Hq (MkSleep 5000 1 1%nat)). left.
    + apply (Hq (MkSleep 9000 0 2%nat)). right. left.
Defined.

(** Thread 1 blocks until 5000, registers and is committed. *)
Lemma sleepers_are_found_witness :
  let h := upd_task normal_task 1%nat (with_state Running) in
  ∃ s l q', rtc SleepProtocol.sleep_step (SleepProtocol.MkState h new [] [] (λ _, 0)) s ∧
    WaitQueue.asleep (SleepProtocol.tasks s 1%nat) ∧
    pop_all_expired (pop_fuel (SleepProtocol.queue s)) (SleepProtocol.queue s) 6000 [] = Some (l, q') ∧
    (1%nat ∈ SleepProtocol.pend s ++ l).
Proof.
  intros h. set (h1 := upd_task h 1%nat block_section). set (d := <[1%nat := 5000]> (λ _ : TaskRef, 0)).
  set (h2 := upd_task h1 1%nat (λ t, (commit t).1)).
  set (s := SleepProtocol.MkState h2 (push h1 new 5000 1%nat) [] [] d).
  assert (rtc SleepProtocol.sleep_step (SleepProtocol.MkState h new [] [] (λ _, 0)) s) as Hs.
  { apply (rtc_l _ _ (SleepProtocol.MkState h1 new [1%nat] [] d)).
    { apply SleepProtocol.step_block; [reflexivity|apply not_elem_of_nil]. }
    apply (rtc_l _ _ (SleepProtocol.MkState h1 (push h1 new 5000 1%nat) [] [] d)).
    { apply (SleepProtocol.step_register h1 new [1%nat] [] d 1%nat). left. }
    apply rtc_once, SleepProtocol.step_commit; [reflexivity|apply not_elem_of_nil]. }
  assert (WaitQueue.asleep (SleepProtocol.tasks s 1%nat)) as Ha by (left; reflexivity).
  destruct (sleepers_are_found h s 1%nat 6000) as (l & q' & Heq & Hin).
  - intros r r'. unfold h. rewrite !(upd_task_proj tid) by reflexivity. intros Heq. exact Heq.
  - intros r. unfold WaitQueue.asleep, h, upd_task. destruct (decide (r = 1%nat)); simpl; intros [?|[? ?]]; discriminate.
  - exact Hs.
  - exact Ha.
  - apply not_elem_of_nil.
  - vm_compute. discriminate.
  - exists s, l, q'. split; [exact Hs|]. split; [exact Ha|]. split; [exact Heq|exact Hin].
Defined.
End SleepProps.
