(* ===== verification/Futex.v ===== *)
(** * Futexes (process/scheduler/futex.rs and sys_futex in syscall/process.rs)

    The map from futex keys to wait queues, blocking on a queue with the check of
    the user word under the queue lock, waking, requeueing and leaving a queue; and
    the system call.  Queues and waiters are shared by reference ([Arc]): both are
    objects of a heap, never reused, and the number of references to a queue that
    are held outside the map is part of the state. *)

From S2P Require Import Prelude Errno OrderedQueue RbArena RbTree Task CfsRq DeadlineRq RtRq RunQueue Sched Processor WakeProtocol SleepQueue.

Open Scope Z_scope.

(** ** Keys *)

Inductive FutexSharedObject := Mm (id : Z) | AnonymousMapping (id : Z) | File (ino : Z).

Inductive FutexKey := Private (mm address : Z) | Shared (object : FutexSharedObject) (offset : Z).

#[export] Instance FutexSharedObject_eq_dec : EqDecision FutexSharedObject.
Proof. solve_decision. Defined.

#[export] Instance FutexKey_eq_dec : EqDecision FutexKey.
Proof. solve_decision. Defined.

#[export] Instance FutexSharedObject_countable : Countable FutexSharedObject.
Proof.
  refine (inj_countable' (λ o, match o with Mm i => (0%nat, i) | AnonymousMapping i => (1%nat, i) | File i => (2%nat, i) end)
    (λ p, match p.1 with 0%nat => Mm p.2 | 1%nat => AnonymousMapping p.2 | _ => File p.2 end) _).
  by intros [].
Defined.

#[export] Instance FutexKey_countable : Countable FutexKey.
Proof.
  refine (inj_countable' (λ k, match k with Private m a => inl (m, a) | Shared o f => inr (o, f) end)
    (λ p, match p with inl (m, a) => Private m a | inr (o, f) => Shared o f end) _).
  by intros [].
Defined.

(** ** State *)

(** References to queues and to waiters. *)
Abbreviation qref := nat (only parsing).

Abbreviation wref := nat (only parsing).

(** [struct FutexWaiter], with its [FutexWaiterLocation]. *)
Record FutexWaiter := MkWaiter { w_task : TaskRef; w_bitset : Z; w_loc : option (FutexKey * qref) }.

(** [struct FutexWaitQueue], and the [Arc]s to it held by running code. *)
Record FutexWaitQueue := MkQueue { q_waiters : list wref; q_arcs : nat }.

(** [FUTEX_WAIT_QUEUES] and the objects. *)
Record futex := MkFutex {
  fx_map : gmap FutexKey qref;
  fx_queues : list FutexWaitQueue;
  fx_waiters : list FutexWaiter;
}.

Implicit Types (fx : futex) (q w : nat) (key : FutexKey).

Definition queue_of fx q : list wref := from_option q_waiters [] (fx_queues fx !! q).

Definition arcs_of fx q : nat := from_option q_arcs 0%nat (fx_queues fx !! q).

(** [Arc::strong_count]: the handles held by running code and the one of the map. *)
Definition strong_count fx q : nat :=
  (arcs_of fx q + length (filter (λ p, p.2 = q) (map_to_list (fx_map fx))))%nat.

Definition bitset_of fx w : Z := from_option w_bitset 0 (fx_waiters fx !! w).

Definition location fx w : option (FutexKey * qref) := fx_waiters fx !! w ≫= w_loc.

Definition task_of fx w : option TaskRef := w_task <$> fx_waiters fx !! w.

(** Writes through a reference. *)
Definition with_map (m : gmap FutexKey qref) fx : futex := MkFutex m (fx_queues fx) (fx_waiters fx).

Definition set_queue q (l : list wref) fx : futex :=
  MkFutex (fx_map fx) (alter (λ o, MkQueue l (q_arcs o)) q (fx_queues fx)) (fx_waiters fx).

Definition upd_arcs q (f : nat → nat) fx : futex :=
  MkFutex (fx_map fx) (alter (λ o, MkQueue (q_waiters o) (f (q_arcs o))) q (fx_queues fx)) (fx_waiters fx).

(** [set_location_while_queued] and [clear_location_while_queued]. *)
Definition set_location w (l : option (FutexKey * qref)) fx : futex :=
  MkFutex (fx_map fx) (fx_queues fx) (alter (λ v, MkWaiter (w_task v) (w_bitset v) l) w (fx_waiters fx)).

(** [entry(key).or_insert_with(new)]: the queue of a key, created when absent. *)
Definition entry fx key : qref * futex :=
  match fx_map fx !! key with
  | Some q => (q, fx)
  | None =>
    let q := length (fx_queues fx) in
    (q, MkFutex (<[key := q]> (fx_map fx)) (fx_queues fx ++ [MkQueue [] 0]) (fx_waiters fx))
  end.

(** [FutexWaiter::new] *)
Definition new_waiter fx (r : TaskRef) (bitset : Z) : wref * futex :=
  (length (fx_waiters fx), MkFutex (fx_map fx) (fx_queues fx) (fx_waiters fx ++ [MkWaiter r bitset None])).

(** ** Queue operations *)

(** [pop_matching]: the first waiter whose bit set meets [bitset]. *)
Fixpoint pop_matching fx (bitset : Z) (l : list wref) : option (wref * list wref) :=
  match l with
  | [] => None
  | w :: l =>
    if Z.land (bitset_of fx w) bitset =? 0
    then '(w', l') ← pop_matching fx bitset l; Some (w', w :: l')
    else Some (w, l)
  end.

(** [remove_waiter]: [None] when the waiter is not in the queue. *)
Fixpoint remove_waiter w (l : list wref) : option (list wref) :=
  match l with
  | [] => None
  | w' :: l => if decide (w' = w) then Some l else l' ← remove_waiter w l; Some (w' :: l')
  end.

(** ** Retiring empty queues *)

(** [retire_futex_wait_queue_if_unused], called with a handle to [q]. *)
Definition retire_if_unused fx key q : futex :=
  match fx_map fx !! key with
  | None => fx
  | Some current =>
    if bool_decide (current = q) && bool_decide (strong_count fx current = 2%nat) then
      if decide (queue_of fx current = []) then with_map (delete key (fx_map fx)) fx else fx
    else fx
  end.

(** [retire_futex_wait_queue_by_key_if_unused], which takes a handle itself. *)
Definition retire_by_key fx key : futex :=
  match fx_map fx !! key with
  | None => fx
  | Some current =>
    let held := upd_arcs current S fx in
    if bool_decide (strong_count held current = 2%nat) && bool_decide (queue_of fx current = [])
    then with_map (delete key (fx_map fx)) fx else fx
  end.

(** ** Sections under the queue locks *)

(** The part of [block_current_on_futex_if] after the check, without the task. *)
Definition enqueue_section fx (r : TaskRef) key (bitset : Z) : wref * qref * futex :=
  let '(q, fx) := entry fx key in
  let '(w, fx) := new_waiter fx r bitset in
  let fx := set_location w (Some (key, q)) fx in
  (w, q, upd_arcs q S (set_queue q (queue_of fx q ++ [w]) fx)).

(** The check has failed: a queue left empty is removed at once. *)
Definition refuse_section fx key : futex :=
  let '(q, fx) := entry fx key in
  if decide (queue_of fx q = []) then with_map (delete key (fx_map fx)) fx else fx.

(** Taking a waiter out of a queue. *)
Definition take_out q w (rest : list wref) fx : futex := set_location w None (set_queue q rest fx).

(** The loop of [wake_futex_waiters]; [None] when the fuel runs out. *)
Fixpoint detach_loop (fuel : nat) fx q (count : nat) (bitset : Z) (waiters : list wref)
    : option (list wref * futex) :=
  match fuel with
  | O => None
  | S fuel =>
    if (length waiters <? count)%nat then
      match pop_matching fx bitset (queue_of fx q) with
      | None => Some (waiters, fx)
      | Some (w, l) => detach_loop fuel (take_out q w l fx) q count bitset (vec_push waiters w)
      end
    else Some (waiters, fx)
  end.

(** Each pass takes a waiter out of the queue. *)
Definition detach fx q (count : nat) (bitset : Z) : option (list wref * futex) :=
  detach_loop (S (length (queue_of fx q))) fx q count bitset [].

(** The two [for] loops of [requeue_futex_waiters]. *)
Fixpoint wake_front (n : nat) fx q (waiters : list wref) : list wref * futex :=
  match n with
  | O => (waiters, fx)
  | S n =>
    match queue_of fx q with
    | [] => (waiters, fx)
    | w :: l => wake_front n (take_out q w l fx) q (vec_push waiters w)
    end
  end.

Fixpoint move_front (n : nat) fx src dst dst_key (moved : nat) : nat * futex :=
  match n with
  | O => (moved, fx)
  | S n =>
    match queue_of fx src with
    | [] => (moved, fx)
    | w :: l =>
      let fx := set_location w (Some (dst_key, dst)) (set_queue src l fx) in
      move_front n (set_queue dst (queue_of fx dst ++ [w]) fx) src dst dst_key (S moved)
    end
  end.

(** The part of [requeue_futex_waiters] under the locks: the waiters to wake and the
    number moved, or [None] when the check fails.  The two branches of the source for
    different queues differ in the order in which they take the locks. *)
Definition requeue_section fx src_key dst_key (wake_count requeue_count : nat) (should_requeue : bool)
    : option (list wref * nat) * futex :=
  match fx_map fx !! src_key with
  | None => (if should_requeue then Some ([], 0%nat) else None, fx)
  | Some src =>
    if (0 <? requeue_count)%nat then
      let '(dst, fx) := entry fx dst_key in
      if negb should_requeue then (None, fx)
      else
        let '(ws, fx) := wake_front wake_count fx src [] in
        if decide (src = dst) then
          (Some (ws, Nat.min requeue_count (length (queue_of fx src))), fx)
        else
          let '(moved, fx) := move_front requeue_count fx src dst dst_key 0 in
          (Some (ws, moved), fx)
    else if negb should_requeue then (None, fx)
    else let '(ws, fx) := wake_front wake_count fx src [] in (Some (ws, 0%nat), fx)
  end.

(** [remove_futex_waiter] with nothing running in between: the waiter's last queue
    when it was still in it; [None] is the failed assertion.  The handle to the queue
    goes to the caller. *)
Definition remove_futex_waiter fx w : option (option (FutexKey * qref) * futex) :=
  match location fx w with
  | None => Some (None, fx)
  | Some (key, q) =>
    if decide (strong_count fx q = 0%nat) then Some (None, fx)
    else
      match remove_waiter w (queue_of fx q) with
      | Some l => Some (Some (key, q), take_out q w l (upd_arcs q S fx))
      | None => None
      end
  end.

(** ** With the scheduler *)

Section sched.
Context {Qc Qd : Type} `{!OrderedQueue CfsKey TaskRef Qc} `{!OrderedQueue DeadlineKey TaskRef Qd}.
Implicit Types (s : sys (Qc := Qc) (Qd := Qd)) (sq : SleepQueue) (r : TaskRef).

(** [block_current_on_futex_if] up to [schedule], for the current task [r];
    [should_block] is what the check says under the locks. *)
Definition block_current_on_futex_if s sq fx r key (bitset : Z) (deadline_ns : option Z) (should_block : bool)
    : option (wref * qref) * sys * SleepQueue * futex :=
  if negb should_block then (None, s, sq, refuse_section fx key)
  else
    let s := on_task r block_section s in
    let sq := match deadline_ns with Some d => push (tasks s) sq d r | None => sq end in
    let '(w, q, fx) := enqueue_section fx r key bitset in
    (Some (w, q), s, sq, fx).

Definition wake_waiters (hart : nat) s fx (ws : list wref) : option sys :=
  wake_tasks hart s (omap (task_of fx) ws).

Definition wake_futex_waiters (hart : nat) s fx q (count : nat) (bitset : Z) : option (nat * sys * futex) :=
  '(ws, fx) ← detach fx q count bitset;
  s ← wake_waiters hart s fx ws;
  Some (length ws, s, fx).

Definition requeue_futex_waiters (hart : nat) s fx src_key dst_key (wake_count requeue_count : nat)
    (should_requeue : bool) : option (option nat * sys * futex) :=
  match requeue_section fx src_key dst_key wake_count requeue_count should_requeue with
  | (None, fx) => Some (None, s, fx)
  | (Some (ws, moved), fx) =>
    s ← wake_waiters hart s fx ws;
    Some (Some (length ws + moved)%nat, s, fx)
  end.
End sched.

(** ** The invariant *)

(** A waiter's location names the queue it is in, and a queue with waiters is the
    one the map has for their key. *)
Record futex_inv fx : Prop := {
  fi_inj k1 k2 q : fx_map fx !! k1 = Some q → fx_map fx !! k2 = Some q → k1 = k2;
  fi_map k q : fx_map fx !! k = Some q → (q < length (fx_queues fx))%nat;
  fi_nodup q : NoDup (queue_of fx q);
  fi_queued q w : w ∈ queue_of fx q → ∃ k, location fx w = Some (k, q) ∧ fx_map fx !! k = Some q;
  fi_loc w k q : location fx w = Some (k, q) → w ∈ queue_of fx q;
}.

Lemma futex_inv_empty : futex_inv (MkFutex ∅ [] []).
Proof. split; try done. - intros q. apply NoDup_nil_2. - intros q w ?%not_elem_of_nil. done. Qed.

Lemma queue_set_eq fx q l : (q < length (fx_queues fx))%nat → queue_of (set_queue q l fx) q = l.
Proof.
  intros Hq. unfold queue_of, set_queue. simpl. rewrite list_lookup_alter_eq.
  by destruct (lookup_lt_is_Some_2 _ _ Hq) as [o ->].
Qed.

Lemma queue_set_ne fx q q' l : q ≠ q' → queue_of (set_queue q l fx) q' = queue_of fx q'.
Proof. intros Hne. unfold queue_of, set_queue. simpl. by rewrite list_lookup_alter_ne. Qed.

Lemma queue_arcs fx q f q' : queue_of (upd_arcs q f fx) q' = queue_of fx q'.
Proof.
  unfold queue_of, upd_arcs. simpl. destruct (decide (q = q')) as [->|].
  - rewrite list_lookup_alter_eq. by destruct (fx_queues fx !! q').
  - by rewrite list_lookup_alter_ne.
Qed.

Lemma queue_nonempty fx q w : w ∈ queue_of fx q → (q < length (fx_queues fx))%nat.
Proof.
  unfold queue_of. destruct (fx_queues fx !! q) eqn:Hq; [|by intros ?%not_elem_of_nil].
  intros _. by eapply lookup_lt_Some.
Qed.

Lemma location_set_eq fx w l : (w < length (fx_waiters fx))%nat → location (set_location w l fx) w = l.
Proof.
  intros Hw. unfold location, set_location. simpl. rewrite list_lookup_alter_eq.
  by destruct (lookup_lt_is_Some_2 _ _ Hw) as [o ->].
Qed.

Lemma location_set_ne fx w w' l : w ≠ w' → location (set_location w l fx) w' = location fx w'.
Proof. intros Hne. unfold location, set_location. simpl. by rewrite list_lookup_alter_ne. Qed.

Lemma location_some fx w x : location fx w = Some x → (w < length (fx_waiters fx))%nat.
Proof. unfold location. destruct (fx_waiters fx !! w) eqn:Hw; [|done]. intros _. by eapply lookup_lt_Some. Qed.

Lemma bitset_set fx w l w' : bitset_of (set_location w l fx) w' = bitset_of fx w'.
Proof.
  unfold bitset_of, set_location. simpl. destruct (decide (w = w')) as [->|].
  - rewrite list_lookup_alter_eq. by destruct (fx_waiters fx !! w').
  - by rewrite list_lookup_alter_ne.
Qed.

Lemma task_set fx w l w' : task_of (set_location w l fx) w' = task_of fx w'.
Proof.
  unfold task_of, set_location. simpl. destruct (decide (w = w')) as [->|].
  - rewrite list_lookup_alter_eq. by destruct (fx_waiters fx !! w').
  - by rewrite list_lookup_alter_ne.
Qed.

Lemma length_set_queue fx q l : length (fx_queues (set_queue q l fx)) = length (fx_queues fx).
Proof. apply length_alter. Qed.

(** Where waiters are depends on the map, the queues and the locations only. *)
Lemma futex_inv_ext fx fx' :
  fx_map fx' = fx_map fx → length (fx_queues fx') = length (fx_queues fx) →
  (∀ q, queue_of fx' q = queue_of fx q) → (∀ w, location fx' w = location fx w) →
  futex_inv fx → futex_inv fx'.
Proof.
  intros Hm Hl Hq Hw [H1 H2 H3 H4 H5].
  split; intros *; rewrite ?Hm, ?Hl, ?Hq, ?Hw; try setoid_rewrite Hw; try setoid_rewrite Hm; eauto.
Qed.

Lemma inv_arcs fx q f : futex_inv fx → futex_inv (upd_arcs q f fx).
Proof. apply futex_inv_ext; [done|apply length_alter|intros; apply queue_arcs|done]. Qed.

(** Taking a waiter out of the queue it is in. *)
Lemma inv_take_out fx q w rest :
  futex_inv fx → queue_of fx q ≡ₚ w :: rest → futex_inv (take_out q w rest fx).
Proof.
  intros Hi Hp. assert (w ∈ queue_of fx q) as Hw by (rewrite Hp; by left).
  pose proof (queue_nonempty _ _ _ Hw) as Hlt. destruct (fi_queued _ Hi q w Hw) as (k & Hloc & Hk).
  pose proof (location_some _ _ _ Hloc) as Hwl. pose proof (fi_nodup _ Hi q) as Hnd.
  rewrite Hp in Hnd. apply NoDup_cons in Hnd as [Hnin Hnd]. destruct Hi as [H1 H2 H3 H4 H5].
  assert (∀ q', queue_of (take_out q w rest fx) q' = if decide (q' = q) then rest else queue_of fx q') as Hq.
  { intros q'. unfold take_out. change (queue_of (set_location w None ?f) q') with (queue_of f q').
    case_decide as Hd; [subst; by apply queue_set_eq|by apply queue_set_ne]. }
  assert (∀ w', location (take_out q w rest fx) w' = if decide (w' = w) then None else location fx w') as Hl.
  { intros w'. unfold take_out. case_decide as Hd; [subst; by apply location_set_eq|by rewrite location_set_ne]. }
  split; intros *; rewrite ?Hq, ?Hl; try setoid_rewrite Hl; simpl; [eauto| | | |].
  - rewrite length_alter. eauto.
  - case_decide; [done|eauto].
  - case_decide as Hd; intros Hin.
    + subst q0. rewrite decide_False by (by intros ->). apply H4. rewrite Hp. by right.
    + rewrite decide_False; [by apply H4|]. intros ->. destruct (H4 _ _ Hin) as (k' & ? & _). congruence.
  - case_decide as Hd; [done|]. intros Hin%H5. case_decide as Hdq; [|done]. subst q0.
    rewrite Hp in Hin. by apply elem_of_cons in Hin as [?|?].
Qed.

(** Putting a waiter that is nowhere at the end of the queue of a key. *)
Lemma inv_put fx q key w :
  futex_inv fx → fx_map fx !! key = Some q → location fx w = None → (w < length (fx_waiters fx))%nat →
  futex_inv (set_queue q (queue_of fx q ++ [w]) (set_location w (Some (key, q)) fx)).
Proof.
  intros [H1 H2 H3 H4 H5] Hk Hw Hlt. set (fx' := set_queue _ _ _).
  assert (∀ q', queue_of fx' q' = if decide (q' = q) then queue_of fx q ++ [w] else queue_of fx q') as Hq.
  { intros q'. unfold fx'. case_decide as Hd.
    - subst. apply queue_set_eq. by apply (H2 key).
    - rewrite queue_set_ne by done. done. }
  assert (∀ w', location fx' w' = if decide (w' = w) then Some (key, q) else location fx w') as Hl.
  { intros w'. change (location fx' w') with (location (set_location w (Some (key, q)) fx) w').
    case_decide as Hd; [subst; by apply location_set_eq|by rewrite location_set_ne]. }
  assert (∀ q', w ∉ queue_of fx q') as Hnin.
  { intros q' Hin. destruct (H4 _ _ Hin) as (k' & ? & _). congruence. }
  split; intros *; rewrite ?Hq, ?Hl; try setoid_rewrite Hl; [apply H1| | | |].
  - unfold fx'. rewrite length_set_queue. apply H2.
  - case_decide; [|eauto]. apply NoDup_app. split_and!; [apply H3| |apply NoDup_singleton].
    intros x Hx ->%list_elem_of_singleton. by eapply Hnin.
  - case_decide as Hd; intros Hin.
    + subst q0. apply elem_of_app in Hin as [Hin|Heq%list_elem_of_singleton]; [|subst w0].
      * rewrite decide_False by (intros ->; by eapply Hnin). by apply H4.
      * rewrite decide_True by done. by exists key.
    + rewrite decide_False by (intros ->; by eapply Hnin). by apply H4.
  - case_decide as Hd; [intros [= <- <-]; rewrite decide_True by done; subst; set_solver|].
    intros Hin%H5. case_decide; [subst; set_solver|done].
Qed.

Lemma inv_delete fx key q :
  futex_inv fx → fx_map fx !! key = Some q → queue_of fx q = [] →
  futex_inv (with_map (delete key (fx_map fx)) fx).
Proof.
  intros [H1 H2 H3 H4 H5] Hk He. split; simpl; [| |done| |done].
  - intros k1 k2 q' [_ Hk1]%lookup_delete_Some [_ Hk2]%lookup_delete_Some. by eapply H1.
  - intros k q' [_ Hk']%lookup_delete_Some. by eapply H2.
  - intros q' w Hin. destruct (H4 q' w Hin) as (k & Hl & Hm). exists k. split; [done|].
    rewrite lookup_delete_ne; [done|]. intros ->. change (w ∈ queue_of fx q') in Hin.
    assert (q' = q) as -> by congruence. rewrite He in Hin. by apply not_elem_of_nil in Hin.
Qed.

(** ** The waiters of a key *)

(** What the operations promise is about the waiters of each key, in order; whether
    an empty queue has an entry is not visible. *)
Definition waiting fx key : list wref := from_option (queue_of fx) [] (fx_map fx !! key).

Lemma entry_spec fx key q fx' :
  futex_inv fx → entry fx key = (q, fx') →
  futex_inv fx' ∧ fx_map fx' !! key = Some q ∧ (∀ q', queue_of fx' q' = queue_of fx q') ∧
  fx_waiters fx' = fx_waiters fx ∧ (∀ k, waiting fx' k = waiting fx k) ∧
  (∀ k, k ≠ key → fx_map fx' !! k = fx_map fx !! k).
Proof.
  intros Hi. unfold entry. destruct (fx_map fx !! key) as [q0|] eqn:Hk; intros [= <- <-].
  { by split_and!. }
  set (n := length (fx_queues fx)). set (fx' := MkFutex _ _ _).
  assert (∀ q', queue_of fx' q' = queue_of fx q') as Hq.
  { intros q'. unfold queue_of, fx'. simpl. destruct (decide (q' < n)%nat).
    - by rewrite lookup_app_l.
    - rewrite lookup_app_r by lia. rewrite (lookup_ge_None_2 (fx_queues fx)) by lia. fold n.
      by destruct (q' - n)%nat as [|[|?]]. }
  assert (fx_map fx' !! key = Some n) as Hm by (unfold fx'; simpl; apply lookup_insert_eq).
  assert (∀ k, k ≠ key → fx_map fx' !! k = fx_map fx !! k) as Hne by (intros k ?; by apply lookup_insert_ne).
  assert (queue_of fx n = []) as Hn by (unfold queue_of; by rewrite lookup_ge_None_2).
  destruct Hi as [H1 H2 H3 H4 H5]. split_and!; [|done..| |done].
  - split; intros *; rewrite ?Hq; [| |apply H3| |apply H5].
    + destruct (decide (k1 = key)) as [->|?], (decide (k2 = key)) as [->|?]; [done|..];
        rewrite ?Hm, ?Hne by done; [intros [= <-] ?%H2; unfold n in *; lia|intros ?%H2 [= <-]; unfold n in *; lia|apply H1].
    + assert (length (fx_queues fx') = S n) as -> by (unfold fx'; simpl; rewrite length_app; simpl; unfold n; lia).
      destruct (decide (k = key)) as [->|?].
      * rewrite Hm. intros [= <-]. unfold n. lia.
      * rewrite Hne by done. intros ?%H2. lia.
    + intros Hin. destruct (H4 _ _ Hin) as (k & ? & Hk'). exists k. split; [done|].
      rewrite Hne; [done|]. intros ->. congruence.
  - intros k. unfold waiting. destruct (decide (k = key)) as [->|?]; [rewrite Hm, Hk; simpl; by rewrite Hq|].
    rewrite Hne by done. destruct (fx_map fx !! k); [apply Hq|done].
Qed.

Lemma new_waiter_location fx r b w' : location (new_waiter fx r b).2 w' = location fx w'.
Proof.
  unfold location, new_waiter. simpl. destruct (decide (w' < length (fx_waiters fx))%nat).
  - by rewrite lookup_app_l.
  - rewrite lookup_app_r by lia. rewrite (lookup_ge_None_2 (fx_waiters fx)) by lia.
    by destruct (w' - length (fx_waiters fx))%nat as [|[|?]].
Qed.

(** The waiters of a key are seen by every section through the map. *)
Lemma waiting_queue fx key q : fx_map fx !! key = Some q → waiting fx key = queue_of fx q.
Proof. unfold waiting. by intros ->. Qed.

Lemma waiting_other fx fx' q k :
  futex_inv fx → fx_map fx' = fx_map fx → (∀ q', q' ≠ q → queue_of fx' q' = queue_of fx q') →
  fx_map fx !! k ≠ Some q → waiting fx' k = waiting fx k.
Proof.
  intros Hi Hm Hq Hk. unfold waiting. rewrite Hm. destruct (fx_map fx !! k) as [q'|] eqn:Hk'; [|done].
  simpl. apply Hq. congruence.
Qed.

(** Other keys have other queues. *)
Lemma key_ne fx k key q : futex_inv fx → fx_map fx !! key = Some q → k ≠ key → fx_map fx !! k ≠ Some q.
Proof. intros Hi Hk Hne Hk'. by apply Hne, (fi_inj _ Hi k key q). Qed.

Lemma enqueue_section_spec fx r key b w q fx' :
  futex_inv fx → enqueue_section fx r key b = (w, q, fx') →
  futex_inv fx' ∧ w = length (fx_waiters fx) ∧ fx_map fx' !! key = Some q ∧ waiting fx' key = waiting fx key ++ [w] ∧
  (∀ k, k ≠ key → waiting fx' k = waiting fx k) ∧ location fx' w = Some (key, q) ∧
  (∀ w', w' ≠ w → location fx' w' = location fx w') ∧
  fx_waiters fx' !! w = Some (MkWaiter r b (Some (key, q))) ∧
  (∀ w', w' ≠ w → fx_waiters fx' !! w' = fx_waiters fx !! w').
Proof.
  intros Hi. unfold enqueue_section. destruct (entry fx key) as [q0 fx1] eqn:He.
  destruct (entry_spec _ _ _ _ Hi He) as (Hi1 & Hm & Hq & Hws & Hwt & Hmne).
  set (w0 := length (fx_waiters fx1)). set (fx2 := (new_waiter fx1 r b).2).
  intros [= <- <- <-].
  assert (futex_inv fx2) as Hi2.
  { apply (futex_inv_ext fx1); [done|done|done|apply new_waiter_location|done]. }
  assert (location fx1 w0 = None) as Hw0.
  { unfold location. by rewrite (lookup_ge_None_2 (fx_waiters fx1)). }
  assert (w0 < length (fx_waiters fx2))%nat as Hlt.
  { unfold fx2, new_waiter. simpl. rewrite length_app. simpl. unfold w0. lia. }
  set (fx3 := set_location w0 (Some (key, q0)) fx2).
  assert (∀ q', queue_of fx3 q' = queue_of fx q') as Hq3 by (intros q'; exact (Hq q')).
  assert (q0 < length (fx_queues fx3))%nat as Hql by (by apply (fi_map _ Hi1 key)).
  assert (futex_inv (set_queue q0 (queue_of fx3 q0 ++ [w0]) fx3)) as Hi3.
  { apply (inv_put fx2); [done|done| |done]. by rewrite <-Hw0, <-(new_waiter_location fx1 r b). }
  set (fx4 := set_queue q0 (queue_of fx3 q0 ++ [w0]) fx3).
  assert (∀ w', w' ≠ w0 → fx_waiters fx3 !! w' = fx_waiters fx !! w') as Hwne.
  { intros w' Hne. unfold fx3, set_location. simpl. rewrite list_lookup_alter_ne by done.
    unfold fx2, new_waiter. simpl. rewrite Hws. fold w0. destruct (decide (w' < w0)%nat).
    - rewrite lookup_app_l; [done|]. unfold w0 in *. by rewrite <-Hws.
    - rewrite !lookup_ge_None_2; [done|..]; rewrite ?length_app; simpl; unfold w0 in *; rewrite Hws in *; lia. }
  assert (fx_waiters fx3 !! w0 = Some (MkWaiter r b (Some (key, q0)))) as Hw3.
  { unfold fx3, set_location. simpl. rewrite list_lookup_alter_eq. unfold fx2, new_waiter. simpl.
    rewrite lookup_app_r by (unfold w0; lia). unfold w0. by rewrite Nat.sub_diag. }
  split_and!.
  - by apply inv_arcs.
  - unfold w0. by rewrite Hws.
  - done.
  - rewrite <-Hwt, (waiting_queue fx1 key q0) by done. change (waiting (upd_arcs q0 S fx4) key = queue_of fx1 q0 ++ [w0]).
    unfold waiting. change (fx_map (upd_arcs q0 S fx4)) with (fx_map fx1). rewrite Hm. simpl.
    rewrite queue_arcs. unfold fx4. rewrite queue_set_eq by done. done.
  - intros k Hne. rewrite <-Hwt. apply (waiting_other fx1 _ q0); [done|done| |by apply (key_ne _ _ key)].
    intros q' Hq'. rewrite queue_arcs. unfold fx4. by rewrite queue_set_ne.
  - change (fx_waiters fx3 !! w0 ≫= w_loc = Some (key, q0)). by rewrite Hw3.
  - intros w' Hne. change (fx_waiters fx3 !! w' ≫= w_loc = location fx w'). by rewrite Hwne.
  - exact Hw3.
  - exact Hwne.
Qed.

(** ** Waking *)

(** The waiters [ws] have been taken out of queue [q], which leaves [rest]. *)
Record took fx fx' q (ws rest : list wref) : Prop := {
  tk_inv : futex_inv fx';
  tk_map : fx_map fx' = fx_map fx;
  tk_queue : queue_of fx' q = rest;
  tk_other q' : q' ≠ q → queue_of fx' q' = queue_of fx q';
  tk_out w : w ∈ ws → location fx' w = None;
  tk_loc w : w ∉ ws → location fx' w = location fx w;
  tk_task w : task_of fx' w = task_of fx w;
  tk_bits w : bitset_of fx' w = bitset_of fx w;
}.

Lemma took_nil fx q : futex_inv fx → took fx fx q [] (queue_of fx q).
Proof. intros Hi. split; try done. by intros w ?%not_elem_of_nil. Qed.

Lemma took_one fx q w rest :
  futex_inv fx → queue_of fx q ≡ₚ w :: rest → took fx (take_out q w rest fx) q [w] rest.
Proof.
  intros Hi Hp. assert (w ∈ queue_of fx q) as Hw by (rewrite Hp; by left).
  destruct (fi_queued _ Hi q w Hw) as (k & Hloc & _).
  split; unfold take_out; [by apply inv_take_out|done| | | | | |].
  - apply queue_set_eq. by eapply queue_nonempty.
  - intros q' Hne. by apply queue_set_ne.
  - intros w' ->%list_elem_of_singleton. apply location_set_eq. by eapply location_some.
  - intros w' Hne. apply (location_set_ne (set_queue q rest fx)). set_solver.
  - intros w'. apply (task_set (set_queue q rest fx)).
  - intros w'. apply (bitset_set (set_queue q rest fx)).
Qed.

Lemma took_trans fx fx1 fx2 q w l ws rest :
  took fx fx1 q [w] l → took fx1 fx2 q ws rest → took fx fx2 q (w :: ws) rest.
Proof.
  intros [_ Hm _ Ho Hout Hloc Ht Hb] [Hi' Hm' Hq' Ho' Hout' Hloc' Ht' Hb'].
  split; [done|congruence|done|..].
  - intros q' Hne. rewrite Ho' by done. by apply Ho.
  - intros w' Hin. destruct (decide (w' ∈ ws)); [by apply Hout'|]. rewrite Hloc' by done. apply Hout. set_solver.
  - intros w' Hin. rewrite Hloc' by set_solver. apply Hloc. set_solver.
  - intros w'. by rewrite Ht'.
  - intros w'. by rewrite Hb'.
Qed.

(** The waiters of the other keys stay. *)
Lemma took_waiting fx fx' key q ws rest :
  futex_inv fx → fx_map fx !! key = Some q → took fx fx' q ws rest →
  waiting fx' key = rest ∧ ∀ k, k ≠ key → waiting fx' k = waiting fx k.
Proof.
  intros Hi Hk Ht. split.
  - unfold waiting. rewrite (tk_map _ _ _ _ _ Ht), Hk. apply (tk_queue _ _ _ _ _ Ht).
  - intros k Hne. apply (waiting_other fx fx' q); [done|apply (tk_map _ _ _ _ _ Ht)| |by apply (key_ne _ _ key)].
    apply (tk_other _ _ _ _ _ Ht).
Qed.

(** The reference: one pass over the queue that takes the first [n] matching
    waiters. *)
Fixpoint take_matching (P : wref → bool) (n : nat) (l : list wref) : list wref * list wref :=
  match l with
  | [] => ([], [])
  | w :: l =>
    if P w && (0 <? n)%nat
    then let '(a, r) := take_matching P (pred n) l in (w :: a, r)
    else let '(a, r) := take_matching P n l in (a, w :: r)
  end.

Lemma take_matching_0 P l : take_matching P 0 l = ([], l).
Proof. induction l as [|w l IH]; [done|]. simpl. by rewrite andb_false_r, IH. Qed.

Lemma take_matching_ext P P' n l : (∀ w, P w = P' w) → take_matching P n l = take_matching P' n l.
Proof. intros HP. revert n. induction l as [|w l IH]; intros n; simpl; [done|]. by rewrite HP, !IH. Qed.

Lemma take_matching_none P n l1 l :
  Forall (λ w, P w = false) l1 →
  take_matching P n (l1 ++ l) = let '(a, r) := take_matching P n l in (a, l1 ++ r).
Proof.
  induction 1 as [|w l1 Hw _ IH]; simpl; [by destruct (take_matching P n l)|].
  rewrite Hw, IH. simpl. by destruct (take_matching P n l).
Qed.

Lemma take_matching_first P n l1 w l2 :
  Forall (λ w, P w = false) l1 → P w = true →
  take_matching P (S n) (l1 ++ w :: l2) = let '(a, r) := take_matching P n (l1 ++ l2) in (w :: a, r).
Proof.
  intros Hl Hw. rewrite !take_matching_none by done. simpl. rewrite Hw. simpl.
  by destruct (take_matching P n l2).
Qed.

(** What the pass takes and what it leaves. *)
Lemma take_matching_spec P n l :
  let '(a, r) := take_matching P n l in
  a = take n (filter (λ w, P w = true) l) ∧ a ++ r ≡ₚ l ∧ r `sublist_of` l.
Proof.
  revert n. induction l as [|w l IH]; intros n; simpl; [by rewrite filter_nil, take_nil|].
  destruct (P w) eqn:Hw; simpl.
  - rewrite filter_cons_True by done. destruct n as [|n]; simpl.
    + rewrite take_matching_0. simpl. done.
    + specialize (IH n). destruct (take_matching P n l) as [a r]. destruct IH as (-> & Hp & Hs).
      split_and!; [done|simpl; by rewrite Hp|by apply sublist_cons].
  - rewrite filter_cons_False by congruence. specialize (IH n). destruct (take_matching P n l) as [a r].
    destruct IH as (-> & Hp & Hs). split_and!; [done| |by apply sublist_skip].
    by rewrite <-Permutation_middle, Hp.
Qed.

(** [pop_matching] finds the first match. *)
Lemma pop_matching_spec fx b l :
  match pop_matching fx b l with
  | None => Forall (λ w, negb (Z.land (bitset_of fx w) b =? 0) = false) l
  | Some (w, l') => ∃ l1 l2, l = l1 ++ w :: l2 ∧ l' = l1 ++ l2 ∧
      Forall (λ w, negb (Z.land (bitset_of fx w) b =? 0) = false) l1 ∧ negb (Z.land (bitset_of fx w) b =? 0) = true
  end.
Proof.
  induction l as [|w l IH]; simpl; [constructor|]. destruct (Z.land (bitset_of fx w) b =? 0) eqn:Hw.
  - destruct (pop_matching fx b l) as [[w' l']|]; simpl.
    + destruct IH as (l1 & l2 & -> & -> & Hl & Hw'). exists (w :: l1), l2. split_and!; [done..| |done].
      constructor; [by rewrite Hw|done].
    + constructor; [by rewrite Hw|done].
  - exists [], l. split_and!; [done..|constructor|by rewrite Hw].
Qed.

Lemma wp_detach_loop fuel fx q count b acc :
  futex_inv fx → (length (queue_of fx q) < fuel)%nat →
  let '(a, r) := take_matching (λ w, negb (Z.land (bitset_of fx w) b =? 0)) (count - length acc) (queue_of fx q) in
  wp (detach_loop fuel fx q count b acc) (λ '(ws, fx'), ws = acc ++ a ∧ took fx fx' q a r).
Proof.
  revert fx acc. induction fuel as [|fuel IH]; intros fx acc Hi Hf; [lia|]. cbn [detach_loop].
  set (P := λ w, negb (Z.land (bitset_of fx w) b =? 0)). destruct (Nat.ltb_spec (length acc) count) as [Hlt|Hge]; last first.
  { replace (count - length acc)%nat with 0%nat by lia. rewrite take_matching_0. apply wp_ret.
    split; [by rewrite app_nil_r|by apply took_nil]. }
  pose proof (pop_matching_spec fx b (queue_of fx q)) as Hp. destruct (pop_matching fx b (queue_of fx q)) as [[w l]|].
  - destruct Hp as (l1 & l2 & Hq & -> & Hl & Hw).
    destruct (count - length acc)%nat as [|n] eqn:Hn; [lia|]. rewrite Hq.
    rewrite (take_matching_first P n l1 w l2) by done.
    assert (queue_of fx q ≡ₚ w :: (l1 ++ l2)) as Hperm by (rewrite Hq; solve_perm).
    pose proof (took_one fx q w _ Hi Hperm) as Ht.
    assert (length (queue_of (take_out q w (l1 ++ l2) fx) q) < fuel)%nat as Hf'.
    { rewrite (tk_queue _ _ _ _ _ Ht). apply Permutation_length in Hperm. simpl in Hperm. lia. }
    specialize (IH (take_out q w (l1 ++ l2) fx) (vec_push acc w) (tk_inv _ _ _ _ _ Ht) Hf').
    rewrite (tk_queue _ _ _ _ _ Ht) in IH. unfold vec_push in *. rewrite length_app in IH. simpl in IH.
    replace (count - (length acc + 1))%nat with n in IH by lia.
    assert (take_matching (λ w0, negb (Z.land (bitset_of (take_out q w (l1 ++ l2) fx) w0) b =? 0)) n (l1 ++ l2) =
      take_matching P n (l1 ++ l2)) as Heq.
    { apply take_matching_ext. intros x. unfold P. by rewrite (tk_bits _ _ _ _ _ Ht). }
    rewrite Heq in IH. destruct (take_matching P n (l1 ++ l2)) as [a r]. eapply wp_mono; [exact IH|].
    intros [ws fx'] (-> & Htk). split; [by rewrite <-app_assoc|]. by eapply took_trans.
  - pose proof (take_matching_none P (count - length acc) (queue_of fx q) [] Hp) as Hn.
    rewrite app_nil_r in Hn. rewrite Hn. simpl. rewrite !app_nil_r. apply wp_ret.
    split; [done|by apply took_nil].
Qed.

Lemma detach_spec fx q count b :
  futex_inv fx →
  let '(a, r) := take_matching (λ w, negb (Z.land (bitset_of fx w) b =? 0)) count (queue_of fx q) in
  ∃ fx', detach fx q count b = Some (a, fx') ∧ took fx fx' q a r.
Proof.
  intros Hi. pose proof (wp_detach_loop (S (length (queue_of fx q))) fx q count b [] Hi ltac:(lia)) as Hw.
  simpl in Hw. rewrite Nat.sub_0_r in Hw. destruct (take_matching _ _ _) as [a r].
  destruct (wp_elim _ _ Hw) as ([ws fx'] & Heq & -> & Ht). by exists fx'.
Qed.

Lemma wake_front_spec n fx q acc :
  futex_inv fx → ∃ fx', wake_front n fx q acc = (acc ++ take n (queue_of fx q), fx') ∧
    took fx fx' q (take n (queue_of fx q)) (drop n (queue_of fx q)).
Proof.
  revert fx acc. induction n as [|n IH]; intros fx acc Hi; simpl.
  { exists fx. rewrite take_0, drop_0, app_nil_r. split; [done|by apply took_nil]. }
  destruct (queue_of fx q) as [|w l] eqn:Hq.
  { exists fx. simpl. rewrite app_nil_r. split; [done|]. pose proof (took_nil fx q Hi) as Ht. by rewrite Hq in Ht. }
  assert (queue_of fx q ≡ₚ w :: l) as Hp by (by rewrite Hq). pose proof (took_one _ _ _ _ Hi Hp) as Ht.
  destruct (IH (take_out q w l fx) (vec_push acc w) (tk_inv _ _ _ _ _ Ht)) as (fx' & -> & Ht').
  rewrite (tk_queue _ _ _ _ _ Ht) in *. exists fx'. simpl. split; [|by eapply took_trans].
  unfold vec_push. by rewrite <-app_assoc.
Qed.

(** ** Requeueing *)

(** The waiters [ws] have moved from [src], which keeps [rest], to the end of the
    queue [dst] of [key]. *)
Record moved_to fx fx' src dst key (ws rest : list wref) : Prop := {
  mv_inv : futex_inv fx';
  mv_map : fx_map fx' = fx_map fx;
  mv_src : queue_of fx' src = rest;
  mv_dst : queue_of fx' dst = queue_of fx dst ++ ws;
  mv_other q' : q' ≠ src → q' ≠ dst → queue_of fx' q' = queue_of fx q';
  mv_in w : w ∈ ws → location fx' w = Some (key, dst);
  mv_loc w : w ∉ ws → location fx' w = location fx w;
  mv_task w : task_of fx' w = task_of fx w;
}.

Lemma moved_one fx src dst key w l :
  futex_inv fx → src ≠ dst → fx_map fx !! key = Some dst → queue_of fx src = w :: l →
  let fx1 := set_location w (Some (key, dst)) (set_queue src l fx) in
  moved_to fx (set_queue dst (queue_of fx1 dst ++ [w]) fx1) src dst key [w] l.
Proof.
  intros Hi Hne Hk Hq fx1. assert (queue_of fx src ≡ₚ w :: l) as Hp by (by rewrite Hq).
  pose proof (took_one fx src w l Hi Hp) as Ht. assert (w ∈ queue_of fx src) as Hw by (rewrite Hp; by left).
  destruct (fi_queued _ Hi src w Hw) as (k & Hloc & _). pose proof (location_some _ _ _ Hloc) as Hwl.
  assert (fx1 = set_location w (Some (key, dst)) (take_out src w l fx)) as Hfx1.
  { unfold fx1, take_out, set_location. simpl. f_equal. by rewrite list_alter_alter_eq. }
  assert (queue_of fx1 dst = queue_of fx dst) as Hd.
  { change (queue_of (set_queue src l fx) dst = queue_of fx dst). by apply queue_set_ne. }
  assert (dst < length (fx_queues fx1))%nat as Hdl.
  { unfold fx1, set_location. simpl. rewrite length_alter. by apply (fi_map _ Hi key). }
  split.
  - rewrite Hfx1. apply (inv_put (take_out src w l fx)); [apply Ht|done|apply Ht; by left|].
    unfold take_out, set_location. simpl. by rewrite length_alter.
  - done.
  - rewrite queue_set_ne by done. change (queue_of (set_queue src l fx) src = l). apply queue_set_eq.
    by eapply queue_nonempty.
  - rewrite queue_set_eq by done. by rewrite Hd.
  - intros q' H1 H2. rewrite queue_set_ne by done. change (queue_of (set_queue src l fx) q' = queue_of fx q').
    by apply queue_set_ne.
  - intros w' ->%list_elem_of_singleton. by apply (location_set_eq (set_queue src l fx)).
  - intros w' Hn. apply (location_set_ne (set_queue src l fx)). set_solver.
  - intros w'. apply (task_set (set_queue src l fx)).
Qed.

Lemma moved_trans fx fx1 fx2 src dst key w l ws rest :
  moved_to fx fx1 src dst key [w] l → moved_to fx1 fx2 src dst key ws rest →
  moved_to fx fx2 src dst key (w :: ws) rest.
Proof.
  intros [_ Hm _ Hd Ho Hin Hloc Ht] [Hi' Hm' Hs' Hd' Ho' Hin' Hloc' Ht'].
  split; [done|congruence|done|rewrite Hd', Hd; by rewrite <-app_assoc|..].
  - intros q' H1 H2. rewrite Ho' by done. by apply Ho.
  - intros w' Hw. destruct (decide (w' ∈ ws)); [by apply Hin'|]. rewrite Hloc' by done. apply Hin. set_solver.
  - intros w' Hw. rewrite Hloc' by set_solver. apply Hloc. set_solver.
  - intros w'. by rewrite Ht'.
Qed.

Lemma move_front_spec n fx src dst key m :
  futex_inv fx → src ≠ dst → fx_map fx !! key = Some dst →
  ∃ fx', move_front n fx src dst key m = ((m + length (take n (queue_of fx src)))%nat, fx') ∧
    moved_to fx fx' src dst key (take n (queue_of fx src)) (drop n (queue_of fx src)).
Proof.
  intros Hi Hne Hk. revert fx m Hi Hk. induction n as [|n IH]; intros fx m Hi Hk.
  { exists fx. rewrite take_0, drop_0. split; [simpl; f_equal; lia|].
    split; try done; [by rewrite app_nil_r|by intros w ?%not_elem_of_nil]. }
  cbn [move_front]. destruct (queue_of fx src) as [|w l] eqn:Hq.
  { exists fx. simpl. split; [f_equal; lia|]. split; try done; [by rewrite app_nil_r|by intros w ?%not_elem_of_nil]. }
  pose proof (moved_one fx src dst key w l Hi Hne Hk Hq) as Hm.
  cbv zeta in Hm |- *. set (fx1 := set_queue dst _ _) in *.
  destruct (IH fx1 (S m) (mv_inv _ _ _ _ _ _ _ Hm)) as (fx' & -> & Hm').
  { by rewrite (mv_map _ _ _ _ _ _ _ Hm). }
  rewrite (mv_src _ _ _ _ _ _ _ Hm) in *. exists fx'. simpl. split; [f_equal; lia|].
  by eapply moved_trans.
Qed.

(** ** Entries without waiters *)

Lemma waiting_delete fx key q k :
  fx_map fx !! key = Some q → queue_of fx q = [] →
  waiting (with_map (delete key (fx_map fx)) fx) k = waiting fx k.
Proof.
  intros Hk Hq. unfold waiting. simpl. destruct (decide (k = key)) as [->|Hne].
  - by rewrite lookup_delete_eq, Hk; simpl; rewrite Hq.
  - by rewrite lookup_delete_ne.
Qed.

(** Sections that create or remove empty queues leave all waiters where they are. *)
Definition same_waiters fx fx' : Prop :=
  futex_inv fx' ∧ (∀ k, waiting fx' k = waiting fx k) ∧ fx_waiters fx' = fx_waiters fx.

Lemma same_waiters_delete fx key q :
  futex_inv fx → fx_map fx !! key = Some q → queue_of fx q = [] →
  same_waiters fx (with_map (delete key (fx_map fx)) fx).
Proof. intros. split_and!; [by eapply inv_delete|intros; by eapply waiting_delete|done]. Qed.

Lemma same_waiters_refl fx : futex_inv fx → same_waiters fx fx.
Proof. intros. by split_and!. Qed.

Lemma refuse_section_spec fx key : futex_inv fx → same_waiters fx (refuse_section fx key).
Proof.
  intros Hi. unfold refuse_section. destruct (entry fx key) as [q fx1] eqn:He.
  destruct (entry_spec _ _ _ _ Hi He) as (Hi1 & Hm & Hq & Hws & Hwt & _). case_decide as Hd; [|done].
  destruct (same_waiters_delete fx1 key q Hi1 Hm Hd) as (? & Hw & Hf).
  split_and!; [done|intros k; by rewrite Hw|by rewrite Hf].
Qed.

Lemma retire_if_unused_spec fx key q : futex_inv fx → same_waiters fx (retire_if_unused fx key q).
Proof.
  intros Hi. unfold retire_if_unused. destruct (fx_map fx !! key) as [c|] eqn:Hk; [|by apply same_waiters_refl].
  destruct (_ && _); [|by apply same_waiters_refl]. case_decide; [by eapply same_waiters_delete|by apply same_waiters_refl].
Qed.

Lemma retire_by_key_spec fx key : futex_inv fx → same_waiters fx (retire_by_key fx key).
Proof.
  intros Hi. unfold retire_by_key. destruct (fx_map fx !! key) as [c|] eqn:Hk; [|by apply same_waiters_refl].
  case_match eqn:Hc; [|by apply same_waiters_refl]. apply andb_true_iff in Hc as [_ Hc%bool_decide_eq_true].
  by eapply same_waiters_delete.
Qed.

(** ** The sections by key *)

(** Waiting lists after a requeue from [sk] to [dk]. *)
Definition requeued (sk dk : FutexKey) (wc rc : nat) (W : FutexKey → list wref) (k : FutexKey) : list wref :=
  let A := drop wc (W sk) in
  if decide (k = sk) then if decide (sk = dk) then A else drop rc A
  else if decide (k = dk) then W k ++ take rc A else W k.

Lemma requeue_section_spec fx sk dk wc rc :
  futex_inv fx →
  (∃ fx', requeue_section fx sk dk wc rc false = (None, fx') ∧ same_waiters fx fx') ∧
  ∃ fx', requeue_section fx sk dk wc rc true =
      (Some (take wc (waiting fx sk), length (take rc (drop wc (waiting fx sk)))), fx') ∧
    futex_inv fx' ∧ (∀ w, w ∈ take wc (waiting fx sk) → location fx' w = None) ∧
    (∀ w, task_of fx' w = task_of fx w) ∧ ∀ k, waiting fx' k = requeued sk dk wc rc (waiting fx) k.
Proof.
  intros Hi. unfold requeue_section, requeued. destruct (fx_map fx !! sk) as [src|] eqn:Hs; last first.
  { assert (waiting fx sk = []) as HW by (unfold waiting; by rewrite Hs).
    split; [exists fx; split; [done|by apply same_waiters_refl]|]. exists fx. rewrite HW, !drop_nil, !take_nil. split_and!; [done|done|by intros w ?%not_elem_of_nil|done|].
    intros k. rewrite app_nil_r. repeat case_decide; subst; done. }
  rewrite (waiting_queue fx sk src Hs). destruct (Nat.ltb_spec 0 rc) as [Hrc|Hrc]; last first.
  { assert (rc = 0%nat) as -> by lia. split; [exists fx; split; [done|by apply same_waiters_refl]|].
    destruct (wake_front_spec wc fx src [] Hi) as (fx' & Hw & Ht). simpl in Hw. rewrite Hw. exists fx'.
    destruct (took_waiting _ _ _ _ _ _ Hi Hs Ht) as [Hwk Hwo].
    split_and!; [done|apply Ht|apply Ht|apply Ht|]. intros k. rewrite take_0, app_nil_r, drop_0.
    destruct (decide (k = sk)) as [->|Hne]; [by repeat case_decide|]. rewrite Hwo by done. by case_decide. }
  destruct (entry fx dk) as [dst fx1] eqn:He.
  destruct (entry_spec _ _ _ _ Hi He) as (Hi1 & Hm & Hq & Hws & Hwt & Hmne). split; [by exists fx1; split_and!|]. simpl.
  assert (fx_map fx1 !! sk = Some src) as Hs1.
  { destruct (decide (sk = dk)) as [<-|?]; [|by rewrite Hmne]. unfold entry in He. rewrite Hs in He. congruence. }
  destruct (wake_front_spec wc fx1 src [] Hi1) as (fx2 & Hw & Ht). simpl in Hw. rewrite Hw, Hq in *.
  destruct (took_waiting _ _ _ _ _ _ Hi1 Hs1 Ht) as [Hwk Hwo]. assert (∀ w, task_of fx1 w = task_of fx w) as Htk.
  { intros w. unfold task_of. by rewrite Hws. }
  destruct (decide (src = dst)) as [->|Hne].
  - assert (sk = dk) as -> by (by eapply (fi_inj _ Hi1)). exists fx2. rewrite (tk_queue _ _ _ _ _ Ht).
    split_and!; [by rewrite length_take|apply Ht|apply Ht|intros w; by rewrite (tk_task _ _ _ _ _ Ht)|].
    intros k. rewrite (decide_True (P := dk = dk)) by done. case_decide as Hk; [by subst|]. by rewrite Hwo, Hwt.
  - assert (sk ≠ dk) as Hsd by (intros ->; congruence).
    assert (fx_map fx2 !! dk = Some dst) as Hm2 by (by rewrite (tk_map _ _ _ _ _ Ht)).
    destruct (move_front_spec rc fx2 src dst dk 0 (tk_inv _ _ _ _ _ Ht) Hne Hm2) as (fx3 & Hmv & Hto).
    rewrite (tk_queue _ _ _ _ _ Ht) in *. rewrite Hmv. exists fx3. pose proof (mv_map _ _ _ _ _ _ _ Hto) as Hm3.
    split_and!; [done|apply Hto| |intros w; by rewrite (mv_task _ _ _ _ _ _ _ Hto), (tk_task _ _ _ _ _ Ht)|].
    + intros w Hin. rewrite (mv_loc _ _ _ _ _ _ _ Hto); [by apply (tk_out _ _ _ _ _ Ht)|].
      intros Hin'. pose proof (fi_nodup _ Hi src) as Hnd. rewrite <-(take_drop wc (queue_of fx src)) in Hnd.
      apply NoDup_app in Hnd as (_ & Hnd & _). apply (Hnd w Hin). eapply subseteq_take; exact Hin'.
    + intros k. rewrite (decide_False (P := sk = dk)) by done.
      assert (waiting fx3 k = from_option (queue_of fx3) [] (fx_map fx1 !! k)) as ->.
      { unfold waiting. by rewrite Hm3, (tk_map _ _ _ _ _ Ht). }
      case_decide as Hk; [subst; rewrite Hs1; apply Hto|]. rewrite <-Hwt. case_decide as Hkd.
      * subst. rewrite Hm. simpl. rewrite (mv_dst _ _ _ _ _ _ _ Hto), (tk_other _ _ _ _ _ Ht) by done.
        by rewrite (waiting_queue fx1 dk dst).
      * unfold waiting. destruct (fx_map fx1 !! k) as [q|] eqn:Hkq; [|done]. simpl.
        rewrite (mv_other _ _ _ _ _ _ _ Hto), (tk_other _ _ _ _ _ Ht); [done|..].
        { intros ->. by apply Hk, (fi_inj _ Hi1 k sk src). }
        { intros ->. by apply Hk, (fi_inj _ Hi1 k sk src). }
        { intros ->. by apply Hkd, (fi_inj _ Hi1 k dk dst). }
Qed.

(** ** Leaving a queue *)

Lemma remove_waiter_in w l : w ∈ l → NoDup l → remove_waiter w l = Some (filter (λ x, x ≠ w) l).
Proof.
  intros Hin. induction 1 as [|x l Hx Hnd IH]; [by apply not_elem_of_nil in Hin|]. simpl. case_decide as Hd.
  - subst. rewrite filter_cons_False by auto. f_equal. symmetry. apply filter_all, Forall_forall. by intros y Hy ->.
  - rewrite IH by set_solver. simpl. by rewrite filter_cons_True.
Qed.

Lemma strong_count_mapped fx key q : fx_map fx !! key = Some q → strong_count fx q ≠ 0%nat.
Proof.
  intros Hk. unfold strong_count. assert ((key, q) ∈ filter (λ p, p.2 = q) (map_to_list (fx_map fx))) as Hin.
  { apply list_elem_of_filter. split; [done|by apply elem_of_map_to_list]. }
  destruct (filter _ _); [by apply not_elem_of_nil in Hin|]. simpl. lia.
Qed.

Lemma took_arcs fx fx' q ws rest f : took (upd_arcs q f fx) fx' q ws rest → took fx fx' q ws rest.
Proof. intros [? ? ? Ho ? ? ? ?]. split; try done. intros q' Hne. rewrite Ho by done. apply queue_arcs. Qed.

Lemma remove_futex_waiter_spec fx w :
  futex_inv fx →
  match location fx w with
  | None => remove_futex_waiter fx w = Some (None, fx)
  | Some (key, q) => fx_map fx !! key = Some q ∧
      ∃ fx', remove_futex_waiter fx w = Some (Some (key, q), fx') ∧
        took fx fx' q [w] (filter (λ x, x ≠ w) (queue_of fx q))
  end.
Proof.
  intros Hi. unfold remove_futex_waiter. destruct (location fx w) as [[key q]|] eqn:Hl; [|done].
  pose proof (fi_loc _ Hi w key q Hl) as Hin. destruct (fi_queued _ Hi q w Hin) as (k & Hl' & Hk).
  assert (k = key) as -> by congruence. split; [done|]. rewrite decide_False by (by eapply strong_count_mapped).
  rewrite remove_waiter_in; [|done|apply Hi]. eexists. split; [done|]. apply (took_arcs _ _ _ _ _ S).
  apply took_one; [by apply inv_arcs|]. rewrite queue_arcs. clear -Hin Hi. pose proof (fi_nodup _ Hi q) as Hnd.
  induction Hnd as [|x l Hx Hnd IH]; [by apply not_elem_of_nil in Hin|]. destruct (decide (x = w)) as [->|Hne].
  - rewrite filter_cons_False by auto. f_equiv. apply reflexive_eq. symmetry. apply filter_all, Forall_forall.
    by intros y Hy ->.
  - rewrite filter_cons_True by done. rewrite IH at 1 by set_solver. apply Permutation_swap.
Qed.

(** ** Waking the detached tasks *)

Section wake.
Context {Qc Qd : Type} `{!OrderedQueue CfsKey TaskRef Qc} `{!OrderedQueue DeadlineKey TaskRef Qd}.
Implicit Types (s : sys (Qc := Qc) (Qd := Qd)).

(** [s'] is [s] after the tasks of the waiters [ws] have been woken. *)
Definition woke s s' L' fx (ws : list wref) : Prop :=
  sys_inv s' L' ∧ ncpu s' = ncpu s ∧ no_new_sleeper s s' ∧
  ∀ w r, w ∈ ws → task_of fx w = Some r → ¬ WaitQueue.asleep (tasks s' r).

Lemma wp_wake_waiters hart s L fx ws :
  sys_inv s L → (0 < ncpu s)%nat → wp (wake_waiters hart s fx ws) (λ s', ∃ L', woke s s' L' fx ws).
Proof.
  intros Hi Hn. eapply wp_mono; [by apply (wp_wake_tasks hart s L)|]. intros s' (L' & ? & ? & ? & Hr).
  exists L'. split_and!; [done..|]. intros w r Hw Ht. apply Hr, list_elem_of_omap. by exists w.
Qed.

Lemma wake_futex_waiters_spec hart s L fx q count b :
  sys_inv s L → (0 < ncpu s)%nat → futex_inv fx →
  let '(a, r) := take_matching (λ w, negb (Z.land (bitset_of fx w) b =? 0)) count (queue_of fx q) in
  ∃ s' L' fx', wake_futex_waiters hart s fx q count b = Some (length a, s', fx') ∧
    woke s s' L' fx' a ∧ took fx fx' q a r.
Proof.
  intros Hs Hn Hi. pose proof (detach_spec fx q count b Hi) as Hd. destruct (take_matching _ _ _) as [a r].
  destruct Hd as (fx' & Heq & Ht). unfold wake_futex_waiters. rewrite Heq. simpl.
  destruct (wp_elim _ _ (wp_wake_waiters hart s L fx' a Hs Hn)) as (s' & -> & L' & Hw). by exists s', L', fx'.
Qed.

Lemma requeue_futex_waiters_spec hart s L fx sk dk wc rc :
  sys_inv s L → (0 < ncpu s)%nat → futex_inv fx →
  ∃ s' L' fx', requeue_futex_waiters hart s fx sk dk wc rc true =
      Some (Some (length (take wc (waiting fx sk)) + length (take rc (drop wc (waiting fx sk))))%nat, s', fx') ∧
    woke s s' L' fx' (take wc (waiting fx sk)) ∧ futex_inv fx' ∧
    ∀ k, waiting fx' k = requeued sk dk wc rc (waiting fx) k.
Proof.
  intros Hs Hn Hi. destruct (requeue_section_spec fx sk dk wc rc Hi) as [_ (fx' & Heq & Hi' & _ & _ & Hw)].
  unfold requeue_futex_waiters. rewrite Heq.
  destruct (wp_elim _ _ (wp_wake_waiters hart s L fx' (take wc (waiting fx sk)) Hs Hn)) as (s' & -> & L' & Hwk).
  by exists s', L', fx'.
Qed.
End wake.
