(* ===== verification/FutexCall.v ===== *)
(** * The futex system call, and its races

    [sys_futex] (syscall/process.rs) on top of the wait queues; the interleavings of
    waiters and wakers of one futex; and those of [remove_futex_waiter] with
    requeueing. *)

From S2P Require Import Prelude Errno OrderedQueue RbArena RbTree Task CfsRq DeadlineRq RtRq RunQueue Sched Processor WakeProtocol SleepQueue Futex.

Open Scope Z_scope.

(** ** Commands *)

Definition FUTEX_WAIT : Z := 0.

Definition FUTEX_WAKE : Z := 1.

Definition FUTEX_REQUEUE : Z := 3.

Definition FUTEX_CMP_REQUEUE : Z := 4.

Definition FUTEX_WAKE_OP : Z := 5.

Definition FUTEX_WAIT_BITSET : Z := 9.

Definition FUTEX_WAKE_BITSET : Z := 10.

Definition FUTEX_PRIVATE_FLAG : Z := 128.

Definition FUTEX_CLOCK_REALTIME : Z := 256.

Definition FUTEX_CMD_MASK : Z := Z.lnot (Z.lor FUTEX_PRIVATE_FLAG FUTEX_CLOCK_REALTIME).

Definition U32_MAX : Z := 2 ^ 32 - 1.

(** [as u32] of an [i32], and [as isize] of an address. *)
Definition as_u32 (x : Z) : Z := x mod 2 ^ 32.

Definition as_signed (x : Z) : Z := if x <? 2 ^ 63 then x else x - 2 ^ 64.

(** What the call finds outside: user memory at the entry and under the queue lock,
    the address space's keys, the clocks, and whether a signal is pending. *)
Record futex_env := MkEnv {
  read_word : Z → option Z;
  reread_word : Z → option Z;
  read_timespec : Z → option (Z * Z);
  key_of : Z → bool → option FutexKey;
  time_us : Z;
  wall_ns : Z;
  pending_signal : bool;
}.

(** The call returns, or the task sleeps as waiter [w] and goes on with
    [futex_wait_return]. *)
Inductive outcome := Return (r : Z) | Sleeps (w q : nat) (key : FutexKey) (deadline_us : option Z).

Definition fail (e : Errno) : outcome := Return (as_isize e).

(** ** Waiting *)

(** The deadline in microseconds of the monotonic clock. *)
Definition futex_deadline (env : futex_env) (cmd op timeout : Z) : Errno + option Z :=
  if timeout =? 0 then inr None
  else
    match read_timespec env timeout with
    | None => inl EFAULT
    | Some (tv_sec, tv_nsec) =>
      if 1000000000 <=? tv_nsec then inl EINVAL
      else
        let timeout_us := saturating_add (saturating_mul tv_sec 1000000) ((tv_nsec + 999) / 1000) in
        inr (Some
          (if cmd =? FUTEX_WAIT_BITSET then
             if negb (Z.land op FUTEX_CLOCK_REALTIME =? 0) then
               let now_us := (Z.quot (wall_ns env) 1000) mod 2 ^ 64 in
               saturating_add (time_us env) (saturating_sub timeout_us now_us)
             else timeout_us
           else saturating_add (time_us env) timeout_us))
    end.

(** The checks before the queue is touched: the error, or the key, the bit set and
    the deadline. *)
Definition futex_wait_prepare (env : futex_env) (uaddr cmd op val timeout val3 : Z)
    : Errno + FutexKey * Z * option Z :=
  if (cmd =? FUTEX_WAIT) && negb (Z.land op FUTEX_CLOCK_REALTIME =? 0) then inl EINVAL
  else if (cmd =? FUTEX_WAIT_BITSET) && (val3 =? 0) then inl EINVAL
  else
    match read_word env uaddr with
    | None => inl EFAULT
    | Some current =>
      if negb (current =? val) then inl EAGAIN
      else
        match futex_deadline env cmd op timeout with
        | inl e => inl e
        | inr deadline_us =>
          if pending_signal env then inl EINTR
          else
            match key_of env uaddr (negb (Z.land op FUTEX_PRIVATE_FLAG =? 0)) with
            | None => inl EFAULT
            | Some key => inr (key, if cmd =? FUTEX_WAIT_BITSET then as_u32 val3 else U32_MAX, deadline_us)
            end
        end
    end.

Section call.
Context {Qc Qd : Type} `{!OrderedQueue CfsKey TaskRef Qc} `{!OrderedQueue DeadlineKey TaskRef Qd}.
Implicit Types (s : sys (Qc := Qc) (Qd := Qd)) (sq : SleepQueue) (fx : futex) (r : TaskRef).

Definition futex_wait (env : futex_env) s sq fx r (uaddr cmd op val timeout val3 : Z)
    : outcome * sys * SleepQueue * futex :=
  match futex_wait_prepare env uaddr cmd op val timeout val3 with
  | inl e => (fail e, s, sq, fx)
  | inr (key, bitset, deadline_us) =>
    let deadline_ns := (λ d, saturating_mul d 1000) <$> deadline_us in
    let rechecked := reread_word env uaddr in
    match block_current_on_futex_if s sq fx r key bitset deadline_ns (bool_decide (rechecked = Some val)) with
    | (Some (w, q), s, sq, fx) => (Sleeps w q key deadline_us, s, sq, fx)
    | (None, s, sq, fx) => (fail (match rechecked with Some _ => EAGAIN | None => EFAULT end), s, sq, fx)
    end
  end.

(** ** Waking *)

(** [queues.get(&key).cloned()], waking through the handle, and retiring. *)
Definition wake_key (hart : nat) s fx key (count : nat) (bitset : Z) : option (nat * sys * futex) :=
  match fx_map fx !! key with
  | None => Some (0%nat, s, fx)
  | Some q =>
    '(woken, s, fx) ← wake_futex_waiters hart s (upd_arcs q S fx) q count bitset;
    Some (woken, s, upd_arcs q pred (retire_if_unused fx key q))
  end.

Definition futex_wake (env : futex_env) (hart : nat) s fx (uaddr cmd op val val3 : Z) : option (Z * sys * futex) :=
  if (cmd =? FUTEX_WAKE_BITSET) && (val3 =? 0) then Some (as_isize EINVAL, s, fx)
  else if val <=? 0 then Some (0, s, fx)
  else
    match key_of env uaddr (negb (Z.land op FUTEX_PRIVATE_FLAG =? 0)) with
    | None => Some (as_isize EFAULT, s, fx)
    | Some key =>
      '(woken, s, fx) ← wake_key hart s fx key (Z.to_nat val)
        (if cmd =? FUTEX_WAKE_BITSET then as_u32 val3 else U32_MAX);
      Some (Z.of_nat woken, s, fx)
    end.

Definition futex_requeue (env : futex_env) (hart : nat) s fx (uaddr cmd op val timeout uaddr2 val3 : Z)
    : option (Z * sys * futex) :=
  let private := negb (Z.land op FUTEX_PRIVATE_FLAG =? 0) in
  let requeue_count := as_signed timeout in
  if (val <? 0) || (requeue_count <? 0) then Some (as_isize EINVAL, s, fx)
  else if uaddr2 =? 0 then Some (as_isize EFAULT, s, fx)
  else if negb (Z.land uaddr2 3 =? 0) then Some (as_isize EINVAL, s, fx)
  else if (cmd =? FUTEX_CMP_REQUEUE) && bool_decide (read_word env uaddr = None) then Some (as_isize EFAULT, s, fx)
  else
    let same := negb (cmd =? FUTEX_CMP_REQUEUE) || bool_decide (read_word env uaddr = Some val3) in
    match key_of env uaddr private, key_of env uaddr2 private with
    | Some src_key, Some dst_key =>
      '(affected, s, fx) ← requeue_futex_waiters hart s fx src_key dst_key (Z.to_nat (Z.max val 0))
        (Z.to_nat requeue_count) same;
      let fx := retire_by_key fx src_key in
      let fx := if 0 <? requeue_count then retire_by_key fx dst_key else fx in
      Some (match affected with Some n => Z.of_nat n | None => as_isize EAGAIN end, s, fx)
    | _, _ => Some (as_isize EFAULT, s, fx)
    end.

(** One target of [FUTEX_WAKE_OP]. *)
Definition wake_target (env : futex_env) (hart : nat) s fx (private : bool) (target count : Z)
    : option (Z * sys * futex) :=
  if (target =? 0) || (count =? 0) || negb (Z.land target 3 =? 0) then Some (0, s, fx)
  else
    match key_of env target private with
    | None => Some (0, s, fx)
    | Some key =>
      '(woken, s, fx) ← wake_key hart s fx key (Z.to_nat count) U32_MAX;
      Some (Z.of_nat woken, s, fx)
    end.

Definition futex_wake_op (env : futex_env) (hart : nat) s fx (uaddr op val timeout uaddr2 : Z)
    : option (Z * sys * futex) :=
  let private := negb (Z.land op FUTEX_PRIVATE_FLAG =? 0) in
  '(n1, s, fx) ← wake_target env hart s fx private uaddr (Z.max val 0);
  '(n2, s, fx) ← wake_target env hart s fx private uaddr2 (Z.min timeout (2 ^ 63 - 1));
  Some (n1 + n2, s, fx).

(** [sys_futex] for the current task [r], up to the sleep of a task that waits. *)
Definition sys_futex (env : futex_env) (hart : nat) s sq fx r (uaddr op val timeout uaddr2 val3 : Z)
    : option (outcome * sys * SleepQueue * futex) :=
  if uaddr =? 0 then Some (fail EFAULT, s, sq, fx)
  else if negb (Z.land uaddr 3 =? 0) then Some (fail EINVAL, s, sq, fx)
  else
    let cmd := Z.land op FUTEX_CMD_MASK in
    if (cmd =? FUTEX_WAIT) || (cmd =? FUTEX_WAIT_BITSET) then
      Some (futex_wait env s sq fx r uaddr cmd op val timeout val3)
    else
      '(res, s, fx) ←
        (if (cmd =? FUTEX_WAKE) || (cmd =? FUTEX_WAKE_BITSET) then futex_wake env hart s fx uaddr cmd op val val3
         else if (cmd =? FUTEX_REQUEUE) || (cmd =? FUTEX_CMP_REQUEUE) then
           futex_requeue env hart s fx uaddr cmd op val timeout uaddr2 val3
         else if cmd =? FUTEX_WAKE_OP then futex_wake_op env hart s fx uaddr op val timeout uaddr2
         else Some (as_isize ENOSYS, s, fx));
      Some (Return res, s, sq, fx).
End call.

(** [SIGKILL | SIGSTOP] *)
Definition UNMASKABLE : Z := Z.lor (Z.shiftl 1 8) (Z.shiftl 1 18).

(** The rest of a wait, when the task runs again: it leaves the queue it may still
    be in, cancels its deadline, retires the queues, and says why it woke up. *)
Definition futex_wait_return (h : heap) (sq : SleepQueue) (fx : futex) (r : TaskRef) (w q : nat) (key : FutexKey)
    (deadline_us : option Z) (signal_interrupted : bool) (pending_signals blocked : Z)
    : option (Z * SleepQueue * futex) :=
  '(removed, fx) ← remove_futex_waiter fx w;
  let sq := match deadline_us with Some _ => remove_task h sq (tid (h r)) | None => sq end in
  let fx := match removed with
            | Some (k', q') => upd_arcs q' pred (if decide (q' = q) then fx else retire_if_unused fx k' q')
            | None => fx
            end in
  let fx := upd_arcs q pred (retire_if_unused fx key q) in
  let pending := Z.land pending_signals (Z.lnot blocked) in
  let unmaskable := Z.land pending_signals UNMASKABLE in
  Some (if signal_interrupted then as_isize EINTR
        else if negb (Z.lor pending unmaskable =? 0) then as_isize EINTR
        else match deadline_us, removed with Some _, Some _ => as_isize ETIMEDOUT | _, _ => 0 end, sq, fx).

(** The two halves of the call: up to the return or the sleep, and from the sleep to the
    return.  Other tasks run in between. *)
Inductive futex_half :=
  | Enter (env : futex_env) (hart : nat) (uaddr op val timeout uaddr2 val3 : Z)
  | Resume (w q : nat) (key : FutexKey) (deadline_us : option Z) (signal_interrupted : bool) (pending_signals blocked : Z).

Definition sys_futex_half {Qc Qd} `{!OrderedQueue CfsKey TaskRef Qc} `{!OrderedQueue DeadlineKey TaskRef Qd}
    (s : sys (Qc := Qc) (Qd := Qd)) (sq : SleepQueue) (fx : futex) (r : TaskRef) (half : futex_half)
    : option (outcome * sys (Qc := Qc) (Qd := Qd) * SleepQueue * futex) :=
  match half with
  | Enter env hart uaddr op val timeout uaddr2 val3 => sys_futex env hart s sq fx r uaddr op val timeout uaddr2 val3
  | Resume w q key deadline_us signal_interrupted pending_signals blocked =>
    '(x, sq, fx) ← futex_wait_return (tasks s) sq fx r w q key deadline_us signal_interrupted pending_signals blocked;
    Some (Return x, s, sq, fx)
  end.

(** ** Waiters and wakers of one futex *)

Module FutexProtocol.

(** The futex is the one of key [fkey].  [changed]: its word no longer has the value
    the waiters expect; [waker]: how far the call that wakes them has come; [pend]:
    tasks that have been detached from a queue and not yet woken. *)
Inductive stage := Waiting | Looked (q : option nat) | Detached.

Record fstate := MkF { heap_ : heap; fx_ : futex; changed : bool; waker : stage; pend : list TaskRef }.

Section protocol.
Variable fkey : FutexKey.

(** A task blocks, after the check under the locks, or finds the value changed; the
    scheduler commits a block or runs a task; the word is changed; the waker looks
    up the queue, detaches all its waiters, and wakes them; meanwhile other wakers
    detach waiters of any queue, anybody wakes any task, a task that runs leaves its
    queue, and queues are retired. *)
Inductive fstep : fstate → fstate → Prop :=
  | f_block h fx c u p r key b w q fx' :
      Task.state (h r) = Running → (key = fkey → c = false) → 0 < b ≤ U32_MAX →
      enqueue_section fx r key b = (w, q, fx') →
      fstep (MkF h fx c u p) (MkF (upd_task h r block_section) fx' c u p)
  | f_refuse h fx c u p key : fstep (MkF h fx c u p) (MkF h (refuse_section fx key) c u p)
  | f_commit h fx c u p r :
      Task.state (h r) = BlockSaving →
      fstep (MkF h fx c u p) (MkF (upd_task h r (λ t, (commit t).1)) fx c u p)
  | f_run h fx c u p r :
      Task.state (h r) = Ready → fstep (MkF h fx c u p) (MkF (upd_task h r (with_state Running)) fx c u p)
  | f_change h fx c u p : fstep (MkF h fx c u p) (MkF h fx true u p)
  | f_look h fx p :
      fstep (MkF h fx true Waiting p)
        (MkF h (match fx_map fx !! fkey with Some q => upd_arcs q S fx | None => fx end) true
           (Looked (fx_map fx !! fkey)) p)
  | f_absent h fx c p : fstep (MkF h fx c (Looked None) p) (MkF h fx c Detached p)
  | f_detach h fx c q n ws fx' p :
      (length (queue_of fx q) ≤ n)%nat → detach fx q n U32_MAX = Some (ws, fx') →
      fstep (MkF h fx c (Looked (Some q)) p) (MkF h fx' c Detached (p ++ omap (task_of fx') ws))
  | f_other h fx c u p q n b ws fx' :
      detach fx q n b = Some (ws, fx') → fstep (MkF h fx c u p) (MkF h fx' c u (p ++ omap (task_of fx') ws))
  | f_wake hart h fx c u r p :
      fstep (MkF h fx c u (r :: p)) (MkF (upd_task h r (λ t, (wake_section hart t).1)) fx c u p)
  | f_signal hart h fx c u p r :
      fstep (MkF h fx c u p) (MkF (upd_task h r (λ t, (wake_section hart t).1)) fx c u p)
  | f_leave h fx c u p w r res fx' :
      task_of fx w = Some r → Task.state (h r) = Running → remove_futex_waiter fx w = Some (res, fx') →
      fstep (MkF h fx c u p) (MkF h fx' c u p)
  | f_retire h fx c u p key q : fstep (MkF h fx c u p) (MkF h (retire_if_unused fx key q) c u p)
  | f_drop h fx c u p q : fstep (MkF h fx c u p) (MkF h (upd_arcs q pred fx) c u p).

(** A sleeper is queued or about to be woken; once the waker has looked up the
    queue, the waiters of the futex are in it, and after it has detached them there
    are none. *)
Record finv (s : fstate) : Prop := {
  f_inv : futex_inv (fx_ s);
  f_bits w v : fx_waiters (fx_ s) !! w = Some v → 0 < w_bitset v ≤ U32_MAX;
  f_found r : WaitQueue.asleep (heap_ s r) →
    r ∈ pend s ∨ ∃ w, task_of (fx_ s) w = Some r ∧ location (fx_ s) w ≠ None;
  f_changed : waker s ≠ Waiting → changed s = true;
  f_looked q w q' : waker s = Looked q → location (fx_ s) w = Some (fkey, q') → q = Some q';
  f_done w q' : waker s = Detached → location (fx_ s) w ≠ Some (fkey, q');
}.

Lemma finv_heap h h' fx c u p p' :
  (∀ r, WaitQueue.asleep (h' r) → WaitQueue.asleep (h r)) → (∀ r, WaitQueue.asleep (h' r) → r ∈ p → r ∈ p') →
  finv (MkF h fx c u p) → finv (MkF h' fx c u p').
Proof.
  intros Ha Hp [H1 H2 H3 H4 H5 H6]. split; try done. simpl in *. intros r Hr.
  destruct (H3 r (Ha r Hr)) as [?|?]; [left; by apply Hp|by right].
Qed.

(** Only the references to queues and the map have changed. *)
Lemma finv_same h fx fx' c u p :
  futex_inv fx' → fx_waiters fx' = fx_waiters fx → finv (MkF h fx c u p) → finv (MkF h fx' c u p).
Proof.
  intros Hi Hw [H1 H2 H3 H4 H5 H6]. assert (∀ w, location fx' w = location fx w) as Hl.
  { intros w. unfold location. by rewrite Hw. }
  assert (∀ w, task_of fx' w = task_of fx w) as Ht by (intros w; unfold task_of; by rewrite Hw).
  split; simpl in *; [done|by rewrite Hw| |done|intros *; rewrite Hl; apply H5|intros *; rewrite Hl; apply H6].
  intros r Hr. destruct (H3 r Hr) as [?|(w & ? & ?)]; [by left|right]. exists w. by rewrite Hl, Ht.
Qed.

(** Waiters have been taken out, and their tasks are going to be woken or awake. *)
Lemma finv_took h fx fx' c u p p' q ws rest :
  took fx fx' q ws rest → (∀ r, r ∈ p → r ∈ p') →
  (∀ w r, w ∈ ws → task_of fx w = Some r → WaitQueue.asleep (h r) → r ∈ p') →
  finv (MkF h fx c u p) → finv (MkF h fx' c u p').
Proof.
  intros Ht Hp Hws [H1 H2 H3 H4 H5 H6].
  assert (∀ w k q', location fx' w = Some (k, q') → location fx w = Some (k, q')) as Hl.
  { intros w k q' Hl. destruct (decide (w ∈ ws)) as [Hin|Hn]; [by rewrite (tk_out _ _ _ _ _ Ht) in Hl|].
    by rewrite (tk_loc _ _ _ _ _ Ht) in Hl. }
  split; simpl in *; [apply Ht| | |done|naive_solver|naive_solver].
  - intros w v Hv. pose proof (tk_bits _ _ _ _ _ Ht w) as Hb. unfold bitset_of in Hb. rewrite Hv in Hb. simpl in Hb.
    pose proof (tk_task _ _ _ _ _ Ht w) as Htk. unfold task_of in Htk. rewrite Hv in Htk. simpl in Htk.
    destruct (fx_waiters fx !! w) as [v'|] eqn:Hv'; [|done]. simpl in Hb. rewrite Hb. by apply (H2 w).
  - intros r Hr. destruct (H3 r Hr) as [?|(w & Htw & Hlw)]; [left; by apply Hp|].
    destruct (decide (w ∈ ws)) as [Hin|Hn]; [left; by eapply Hws|right]. exists w.
    by rewrite (tk_task _ _ _ _ _ Ht), (tk_loc _ _ _ _ _ Ht).
Qed.

Lemma detach_took fx q n b ws fx' :
  futex_inv fx → detach fx q n b = Some (ws, fx') → ∃ rest, took fx fx' q ws rest ∧
    (ws, rest) = take_matching (λ w, negb (Z.land (bitset_of fx w) b =? 0)) n (queue_of fx q).
Proof.
  intros Hi Hd. pose proof (detach_spec fx q n b Hi) as Hs. destruct (take_matching _ _ _) as [a r].
  destruct Hs as (fx1 & Heq & Ht). assert (a = ws ∧ fx1 = fx') as [-> ->] by (split; congruence). by exists r.
Qed.

(** A bit set that was accepted meets the set of all bits. *)
Lemma bits_meet b : 0 < b ≤ U32_MAX → Z.land b U32_MAX ≠ 0.
Proof. intros Hb. change U32_MAX with (Z.ones 32). rewrite Z.land_ones by lia. unfold U32_MAX in Hb. rewrite Z.mod_small; lia. Qed.

(** With room for all of them, the waker takes every waiter. *)
Lemma detach_all h fx c u p q n ws fx' :
  finv (MkF h fx c u p) → (length (queue_of fx q) ≤ n)%nat → detach fx q n U32_MAX = Some (ws, fx') →
  took fx fx' q ws [].
Proof.
  intros Hf Hn Hd. assert (futex_inv fx) as Hi by apply (f_inv _ Hf). destruct (detach_took _ _ _ _ _ _ Hi Hd) as (rest & Ht & Heq).
  pose proof (take_matching_spec (λ w, negb (Z.land (bitset_of fx w) U32_MAX =? 0)) n (queue_of fx q)) as Hs.
  rewrite <-Heq in Hs. destruct Hs as (Hws & Hp & _). rewrite filter_all, take_ge in Hws; [|done|].
  - subst ws. apply Permutation_length in Hp. rewrite length_app in Hp. destruct rest; [done|simpl in Hp; lia].
  - apply Forall_forall. intros w Hw. destruct (fi_queued _ Hi q w Hw) as (k & Hl & _).
    unfold location in Hl. destruct (fx_waiters fx !! w) as [v|] eqn:Hv; [|done]. unfold bitset_of. rewrite Hv.
    apply negb_true_iff, Z.eqb_neq, bits_meet. by apply (f_bits _ Hf w).
Qed.

(** The waker detaches the queue it has looked up. *)
Lemma finv_detach h fx c q n ws fx' p :
  finv (MkF h fx c (Looked (Some q)) p) → (length (queue_of fx q) ≤ n)%nat → detach fx q n U32_MAX = Some (ws, fx') →
  finv (MkF h fx' c Detached (p ++ omap (task_of fx') ws)).
Proof.
  intros Hf Hn Hd. pose proof (detach_all _ _ _ _ _ _ _ _ _ Hf Hn Hd) as Ht.
  assert (finv (MkF h fx' c (Looked (Some q)) (p ++ omap (task_of fx') ws))) as [H1 H2 H3 H4 H5 _].
  { eapply (finv_took h fx fx' c _ p); [exact Ht|set_solver| |exact Hf]. intros w r Hw Htw _. apply elem_of_app. right.
    apply list_elem_of_omap. exists w. by rewrite (tk_task _ _ _ _ _ Ht). }
  split; simpl in *; [done|done|done|by intros _; apply H4|done|].
  intros w q' _ Hl. assert (q' = q) as -> by (specialize (H5 (Some q) w q' eq_refl Hl); congruence).
  apply (fi_loc _ H1) in Hl. rewrite (tk_queue _ _ _ _ _ Ht) in Hl. by apply not_elem_of_nil in Hl.
Qed.

Lemma finv_block h fx c u p r key b w q fx' :
  (key = fkey → c = false) → 0 < b ≤ U32_MAX → enqueue_section fx r key b = (w, q, fx') →
  finv (MkF h fx c u p) → finv (MkF (upd_task h r block_section) fx' c u p).
Proof.
  intros Hk Hb He [H1 H2 H3 H4 H5 H6]. simpl in *.
  destruct (enqueue_section_spec _ _ _ _ _ _ _ H1 He) as (Hi & Hw & _ & _ & _ & Hl & Hlo & Hv & Hvo).
  assert (∀ w' q', u ≠ Waiting → location fx' w' = Some (fkey, q') → location fx w' = Some (fkey, q')) as Hold.
  { intros w' q' Hu Hl'. destruct (decide (w' = w)) as [->|Hne]; [|by rewrite Hlo in Hl'].
    assert (key = fkey) as Heq by congruence. specialize (Hk Heq). specialize (H4 Hu). congruence. }
  split; simpl; [done| | |done| |].
  - intros w' v' Hv'. destruct (decide (w' = w)) as [->|Hne]; [|rewrite Hvo in Hv' by done; by eapply H2].
    rewrite Hv in Hv'. by injection Hv' as <-.
  - intros r' Hr'. destruct (decide (r' = r)) as [->|Hne].
    { right. exists w. unfold task_of. by rewrite Hv, Hl. }
    rewrite upd_task_ne in Hr' by done. destruct (H3 r' Hr') as [?|(w' & Htw & Hlw)]; [by left|right].
    exists w'. assert (w' ≠ w) as Hww.
    { intros ->. unfold task_of in Htw. by rewrite Hw, (lookup_ge_None_2 (fx_waiters fx)) in Htw. }
    unfold task_of. rewrite Hvo, Hlo by done. done.
  - intros q0 w' q' -> Hl'. eapply H5; [done|]. by apply Hold.
  - intros w' q' -> Hl'. eapply H6; [done|]. by apply Hold.
Qed.

Lemma finv_step s s' : finv s → fstep s s' → finv s'.
Proof.
  intros Hf Hs. destruct Hs as [h fx c u p r key b w q fx' Hr Hk Hb He|h fx c u p key|h fx c u p r Hr|h fx c u p r Hr
    |h fx c u p|h fx p|h fx c p|h fx c q n ws fx' p Hn Hd|h fx c u p q n b ws fx' Hd|hart h fx c u r p|hart h fx c u p r
    |h fx c u p w r res fx' Htw Hr Hrm|h fx c u p key q|h fx c u p q]; pose proof (f_inv _ Hf) as Hi; simpl in Hi.
  - by eapply finv_block.
  - destruct (refuse_section_spec fx key Hi) as (? & _ & ?). by eapply finv_same.
  - eapply finv_heap; [|done|exact Hf]. intros r' Hr'. eapply WaitQueue.asleep_upd; [|exact Hr'].
    apply WaitQueue.commit_asleep.
  - eapply finv_heap; [|done|exact Hf]. intros r' Hr'. eapply WaitQueue.asleep_upd; [|exact Hr'].
    unfold WaitQueue.asleep. simpl. naive_solver.
  - destruct Hf as [H1 H2 H3 H4 H5 H6]. by split.
  - assert (finv (MkF h (match fx_map fx !! fkey with Some q => upd_arcs q S fx | None => fx end) true Waiting p))
      as [H1 H2 H3 H4 H5 H6].
    { destruct (fx_map fx !! fkey); [|done]. apply (finv_same h fx); [by apply inv_arcs|done|done]. }
    split; simpl in *; [done|done|done|done| |done]. intros q w q' [= <-] Hl.
    assert (location fx w = Some (fkey, q')) as Hl' by (by destruct (fx_map fx !! fkey)).
    destruct (fi_queued _ Hi q' w (fi_loc _ Hi _ _ _ Hl')) as (k & Hlk & Hm). congruence.
  - destruct Hf as [H1 H2 H3 H4 H5 H6]. split; simpl in *; [done|done|done|by intros _; apply H4|done|].
    intros w q' _ Hl. by specialize (H5 None w q' eq_refl Hl).
  - by eapply finv_detach.
  - destruct (detach_took _ _ _ _ _ _ Hi Hd) as (rest & Ht & _). eapply (finv_took h fx fx' c u p); [exact Ht|set_solver| |exact Hf].
    intros w r Hw Htw _. apply elem_of_app. right. apply list_elem_of_omap. exists w. by rewrite (tk_task _ _ _ _ _ Ht).
  - eapply finv_heap; [| |exact Hf]; intros r' Hr'.
    + eapply WaitQueue.asleep_upd; [|exact Hr']. intros Hw. by apply WaitQueue.wake_not_asleep in Hw.
    + intros [->|?]%elem_of_cons; [|done]. rewrite upd_task_eq in Hr'. by apply WaitQueue.wake_not_asleep in Hr'.
  - eapply finv_heap; [|done|exact Hf]. intros r' Hr'. eapply WaitQueue.asleep_upd; [|exact Hr'].
    intros Hw. by apply WaitQueue.wake_not_asleep in Hw.
  - pose proof (remove_futex_waiter_spec fx w Hi) as Hrs. destruct (location fx w) as [[k q]|].
    + destruct Hrs as (_ & fx1 & Heq & Ht). assert (fx1 = fx') as -> by congruence.
      eapply (finv_took h fx fx' c u p); [exact Ht|done| |exact Hf]. intros w' r' ->%list_elem_of_singleton Htw' Ha.
      assert (r' = r) as -> by congruence. unfold WaitQueue.asleep in Ha. rewrite Hr in Ha. naive_solver.
    + by assert (fx' = fx) as -> by congruence.
  - destruct (retire_if_unused_spec fx key q Hi) as (? & _ & ?). by eapply finv_same.
  - apply (finv_same h fx); [by apply inv_arcs|done|done].
Qed.

Lemma finv_steps s s' : rtc fstep s s' → finv s → finv s'.
Proof. induction 1; eauto using finv_step. Qed.
End protocol.
End FutexProtocol.

(** ** Leaving a queue while others move the waiter *)

Module RemoveRace.

(** Where [remove_futex_waiter] is in its loop: before the first read of the
    location, before taking the lock of the queue it read, before the second read, at
    its end, or at the failed assertion. *)
Inductive rpc := Start | Read (l : FutexKey * nat) | Missed (l : FutexKey * nat) | Over (res : option (FutexKey * nat)) | Panicked.

(** The lock section: the queue may be gone, or may or may not hold the waiter. *)
Definition try_section (fx : futex) (w : nat) (l : FutexKey * nat) : rpc * futex :=
  if decide (strong_count fx l.2 = 0%nat) then (Over None, fx)
  else
    match remove_waiter w (queue_of fx l.2) with
    | Some rest => (Over (Some l), take_out l.2 w rest fx)
    | None => (Missed l, fx)
    end.

(** The second read. *)
Definition recheck (fx : futex) (w : nat) (l : FutexKey * nat) : rpc :=
  match location fx w with
  | None => Over None
  | Some l' => if decide (l' = l) then Panicked else Start
  end.

(** Leaving waiter [w] interleaved with wakers and, if [rq], requeueing. *)
Inductive rstep (rq : bool) (w : nat) : rpc * futex → rpc * futex → Prop :=
  | r_read fx : rstep rq w (Start, fx) (match location fx w with Some l => Read l | None => Over None end, fx)
  | r_try fx l : rstep rq w (Read l, fx) (try_section fx w l)
  | r_recheck fx l : rstep rq w (Missed l, fx) (recheck fx w l, fx)
  | r_wake fx c q n b ws fx' : detach fx q n b = Some (ws, fx') → rstep rq w (c, fx) (c, fx')
  | r_requeue fx c sk dk wc rc : rq = true → rstep rq w (c, fx) (c, (requeue_section fx sk dk wc rc true).2).

(** Without requeueing a location that has been read can only be cleared. *)
Definition race_inv (w : nat) (p : rpc * futex) : Prop :=
  futex_inv p.2 ∧
  match p.1 with
  | Read l => location p.2 w = Some l ∨ location p.2 w = None
  | Missed _ => location p.2 w = None
  | Panicked => False
  | _ => True
  end.

Lemma race_inv_step w p p' : race_inv w p → rstep false w p p' → race_inv w p'.
Proof.
  intros [Hi Hc] Hs. destruct Hs as [fx|fx l|fx l|fx c q n b ws fx' Hd|]; simpl in *; [..|done].
  - split; [done|]. simpl. destruct (location fx w); simpl; auto.
  - unfold try_section. case_decide; [done|]. destruct (remove_waiter w (queue_of fx l.2)) as [rest|] eqn:Hr.
    + split; [|done]. simpl. apply inv_take_out; [done|]. clear -Hr. revert rest Hr.
      induction (queue_of fx l.2) as [|x xs IH]; intros rest; simpl; [done|]. case_decide as Hd; [by intros [= <-]; subst|].
      destruct (remove_waiter w xs) as [r|]; [|done]. intros [= <-]. rewrite (IH r eq_refl). apply Permutation_swap.
    + split; [done|]. simpl. destruct Hc as [Hl|]; [exfalso|done]. destruct l as [k q]. simpl in *.
      rewrite remove_waiter_in in Hr; [done|by eapply fi_loc|apply Hi].
  - unfold recheck. rewrite Hc. done.
  - destruct (FutexProtocol.detach_took _ _ _ _ _ _ Hi Hd) as (rest & Ht & _). split; [apply Ht|]. simpl.
    assert (∀ x, location fx w = x ∨ location fx w = None → location fx' w = x ∨ location fx' w = None) as Hmv.
    { intros x Hx. destruct (decide (w ∈ ws)); [right; by apply (tk_out _ _ _ _ _ Ht)|].
      by rewrite (tk_loc _ _ _ _ _ Ht). }
    destruct c as [|l|l| |]; [done|by apply Hmv| |done..]. destruct (Hmv None (or_introl Hc)); done.
Qed.

Lemma race_inv_steps w p p' : rtc (rstep false w) p p' → race_inv w p → race_inv w p'.
Proof. induction 1; eauto using race_inv_step. Qed.
End RemoveRace.

(** ** Whole calls *)

Lemma waiting_arcs fx q f k : waiting (upd_arcs q f fx) k = waiting fx k.
Proof. unfold waiting. simpl. destruct (fx_map fx !! k); [apply queue_arcs|done]. Qed.

(** Dropping a handle and retiring leave the waiters where they are. *)
Lemma retire_drop_spec fx key q q' :
  futex_inv fx → same_waiters fx (upd_arcs q' pred (retire_if_unused fx key q)).
Proof.
  intros Hi. destruct (retire_if_unused_spec fx key q Hi) as (? & Hw & Hf).
  split_and!; [by apply inv_arcs|intros k; by rewrite waiting_arcs|done].
Qed.

Lemma same_waiters_trans fx1 fx2 fx3 : same_waiters fx1 fx2 → same_waiters fx2 fx3 → same_waiters fx1 fx3.
Proof. intros (_ & Hw & Hf) (Hi & Hw' & Hf'). split_and!; [done|intros k; by rewrite Hw'|congruence]. Qed.

Definition matches fx (b : Z) (w : nat) : bool := negb (Z.land (bitset_of fx w) b =? 0).

(** [ws] are the first [n] waiters of [key] that match, woken and gone. *)
Definition woken_from fx fx' key (n : nat) (b : Z) (ws : list nat) : Prop :=
  futex_inv fx' ∧ ws = take n (filter (λ w, matches fx b w = true) (waiting fx key)) ∧
  ws ++ waiting fx' key ≡ₚ waiting fx key ∧ waiting fx' key `sublist_of` waiting fx key ∧
  (∀ k, k ≠ key → waiting fx' k = waiting fx k) ∧ ∀ w, w ∈ ws → location fx' w = None.

Section calls.
Context {Qc Qd : Type} `{!OrderedQueue CfsKey TaskRef Qc} `{!OrderedQueue DeadlineKey TaskRef Qd}.
Implicit Types (s : sys (Qc := Qc) (Qd := Qd)).

Lemma wake_key_spec hart s L fx key n b :
  sys_inv s L → (0 < ncpu s)%nat → futex_inv fx →
  ∃ ws s' L' fx', wake_key hart s fx key n b = Some (length ws, s', fx') ∧
    woken_from fx fx' key n b ws ∧ woke s s' L' fx ws.
Proof.
  intros Hs Hn Hi. unfold wake_key. destruct (fx_map fx !! key) as [q|] eqn:Hk; last first.
  { assert (waiting fx key = []) as HW by (unfold waiting; by rewrite Hk).
    exists [], s, L, fx. unfold woken_from, woke. rewrite HW, filter_nil, take_nil.
    split_and!; [done..| |done|done|by intros r|]; [by intros w ?%not_elem_of_nil|by intros w r ?%not_elem_of_nil]. }
  pose proof (wake_futex_waiters_spec hart s L (upd_arcs q S fx) q n b Hs Hn (inv_arcs _ _ _ Hi)) as Hw.
  rewrite queue_arcs in Hw. change (λ w, negb (Z.land (bitset_of (upd_arcs q S fx) w) b =? 0)) with (matches fx b) in Hw.
  pose proof (take_matching_spec (matches fx b) n (queue_of fx q)) as Hspec.
  destruct (take_matching (matches fx b) n (queue_of fx q)) as [a rest]. destruct Hspec as (Ha & Hp & Hsub).
  destruct Hw as (s' & L' & fx1 & -> & (Hi' & Hn' & Hns & Hr) & Ht%took_arcs). simpl.
  destruct (took_waiting _ _ _ _ _ _ Hi Hk Ht) as [Hwk Hwo]. rewrite <-(waiting_queue fx key q Hk) in *.
  destruct (retire_drop_spec fx1 key q q (tk_inv _ _ _ _ _ Ht)) as (Hi2 & Hw2 & Hf2).
  exists a, s', L'. eexists. split; [done|]. split.
  - split_and!; [done|done|by rewrite Hw2, Hwk|by rewrite Hw2, Hwk|intros k Hne; by rewrite Hw2, Hwo|].
    intros w Hin. unfold location. rewrite Hf2. by apply (tk_out _ _ _ _ _ Ht).
  - split_and!; [done..|]. intros w r Hin Htw. apply (Hr w); [done|]. by rewrite (tk_task _ _ _ _ _ Ht).
Qed.

(** Whether the waiter is still queued decides between a timeout and a wakeup. *)
Lemma futex_wait_return_spec h sq fx r w q key dl interrupted pending blocked :
  futex_inv fx →
  ∃ sq' fx', futex_wait_return h sq fx r w q key dl interrupted pending blocked =
      Some (if interrupted || negb (Z.lor (Z.land pending (Z.lnot blocked)) (Z.land pending UNMASKABLE) =? 0)
            then as_isize EINTR
            else if bool_decide (is_Some dl) && bool_decide (is_Some (location fx w)) then as_isize ETIMEDOUT else 0,
            sq', fx') ∧
    futex_inv fx' ∧ location fx' w = None ∧
    (∀ k, waiting fx' k = filter (λ x, x ≠ w) (waiting fx k)) ∧
    (is_Some dl → sq' = remove_task h sq (tid (h r))).
Proof.
  intros Hi. unfold futex_wait_return. pose proof (remove_futex_waiter_spec fx w Hi) as Hr.
  assert (∀ fx1 removed, futex_inv fx1 → same_waiters fx1
    (upd_arcs q pred (retire_if_unused (match removed with
       | Some (k', q') => upd_arcs q' pred (if decide (q' = q) then fx1 else retire_if_unused fx1 k' q')
       | None => fx1 end) key q))) as Htail.
  { intros fx1 [[k' q']|] Hi1; [|by apply retire_drop_spec].
    assert (same_waiters fx1 (upd_arcs q' pred (if decide (q' = q) then fx1 else retire_if_unused fx1 k' q'))) as Hs.
    { case_decide; [|by apply retire_drop_spec]. split_and!; [by apply inv_arcs|intros k; apply waiting_arcs|done]. }
    eapply same_waiters_trans; [exact Hs|]. by apply retire_drop_spec, Hs. }
  assert (∀ k, w ∈ waiting fx k → ∃ q', location fx w = Some (k, q') ∧ fx_map fx !! k = Some q') as Hin.
  { intros k. unfold waiting. destruct (fx_map fx !! k) as [q'|] eqn:Hk; [|by intros ?%not_elem_of_nil].
    intros Hw. destruct (fi_queued _ Hi q' w Hw) as (k' & Hl & Hk'). exists q'. split; [|done].
    by rewrite (fi_inj _ Hi k k' q'). }
  destruct (location fx w) as [[k0 q0]|] eqn:Hl.
  - destruct Hr as (Hk & fx1 & -> & Ht). simpl. destruct (took_waiting _ _ _ _ _ _ Hi Hk Ht) as [Hwk Hwo].
    destruct (Htail fx1 (Some (k0, q0)) (tk_inv _ _ _ _ _ Ht)) as (Hi' & Hw' & Hf'). do 2 eexists. split_and!; [|done| | |].
    + destruct interrupted, (Z.lor _ _ =? 0); [done..|by destruct dl|done].
    + unfold location. rewrite Hf'. apply (tk_out _ _ _ _ _ Ht). by left.
    + intros k. rewrite Hw'. destruct (decide (k = k0)) as [->|Hne]; [by rewrite Hwk, (waiting_queue fx k0 q0)|].
      rewrite Hwo by done. symmetry. apply filter_all, Forall_forall. intros x Hx ->.
      destruct (Hin k Hx) as (? & [= ? ?] & _). done.
    + by intros [d ->].
  - rewrite Hr. simpl. destruct (Htail fx None Hi) as (Hi' & Hw' & Hf'). do 2 eexists. split_and!; [|done| | |].
    + destruct interrupted, (Z.lor _ _ =? 0); [done..|by destruct dl|done].
    + unfold location in *. by rewrite Hf'.
    + intros k. rewrite Hw'. symmetry. apply filter_all, Forall_forall. intros x Hx ->.
      by destruct (Hin k Hx) as (? & ? & _).
    + by intros [d ->].
Qed.
End calls.

(** What every branch of the call keeps: both invariants, and on an error all
    queues. *)
Section safe.
Context {Qc Qd : Type} `{!OrderedQueue CfsKey TaskRef Qc} `{!OrderedQueue DeadlineKey TaskRef Qd}.
Implicit Types (s : sys (Qc := Qc) (Qd := Qd)) (fx : futex).

Definition branch_ok s fx (x : Z) s' L' fx' : Prop :=
  sys_inv s' L' ∧ ncpu s' = ncpu s ∧ futex_inv fx' ∧ (x < 0 → s' = s ∧ same_waiters fx fx').

Lemma branch_err s L fx x : sys_inv s L → futex_inv fx → branch_ok s fx x s L fx.
Proof. intros. split_and!; [done..|]. intros _. split; [done|by apply same_waiters_refl]. Qed.

Lemma branch_return s L fx x :
  sys_inv s L → futex_inv fx → ∃ y s' L' fx', Some (x, s, fx) = Some (y, s', fx') ∧ branch_ok s fx y s' L' fx'.
Proof. intros. exists x, s, L, fx. split; [done|by apply branch_err]. Qed.

Lemma wake_key_safe hart s L fx key n b :
  sys_inv s L → (0 < ncpu s)%nat → futex_inv fx →
  ∃ m s' L' fx', wake_key hart s fx key n b = Some (m, s', fx') ∧ branch_ok s fx (Z.of_nat m) s' L' fx'.
Proof.
  intros Hs Hn Hi. destruct (wake_key_spec hart s L fx key n b Hs Hn Hi)
    as (ws & s' & L' & fx' & Heq & (Hi' & _) & (Hs' & Hn' & _)).
  exists (length ws), s', L', fx'. split; [done|]. split_and!; [done..|lia].
Qed.

Lemma futex_wake_safe env hart s L fx uaddr cmd op val val3 :
  sys_inv s L → (0 < ncpu s)%nat → futex_inv fx →
  ∃ x s' L' fx', futex_wake env hart s fx uaddr cmd op val val3 = Some (x, s', fx') ∧ branch_ok s fx x s' L' fx'.
Proof.
  intros Hs Hn Hi. unfold futex_wake. destruct (_ && _); [by eapply branch_return|].
  destruct (val <=? 0); [by eapply branch_return|].
  destruct (key_of _ _ _) as [key|]; [|by eapply branch_return].
  destruct (wake_key_safe hart s L fx key (Z.to_nat val) (if cmd =? FUTEX_WAKE_BITSET then as_u32 val3 else U32_MAX) Hs Hn Hi)
    as (m & s' & L' & fx' & -> & Hb). simpl. eauto 6.
Qed.

Lemma wake_target_safe env hart s L fx private target count :
  sys_inv s L → (0 < ncpu s)%nat → futex_inv fx →
  ∃ x s' L' fx', wake_target env hart s fx private target count = Some (x, s', fx') ∧ 0 ≤ x ∧ branch_ok s fx x s' L' fx'.
Proof.
  intros Hs Hn Hi. unfold wake_target. 
  assert (∃ x s' L' fx', Some (0, s, fx) = Some (x, s', fx') ∧ 0 ≤ x ∧ branch_ok s fx x s' L' fx') as Hz.
  { exists 0, s, L, fx. split_and!; [done|lia|by apply branch_err..]. }
  destruct (_ || _); [exact Hz|].
  destruct (key_of _ _ _) as [key|]; [|exact Hz].
  destruct (wake_key_safe hart s L fx key (Z.to_nat count) U32_MAX Hs Hn Hi) as (m & s' & L' & fx' & -> & Hb). simpl.
  exists (Z.of_nat m), s', L', fx'. split_and!; [done|lia|done].
Qed.

Lemma futex_wake_op_safe env hart s L fx uaddr op val timeout uaddr2 :
  sys_inv s L → (0 < ncpu s)%nat → futex_inv fx →
  ∃ x s' L' fx', futex_wake_op env hart s fx uaddr op val timeout uaddr2 = Some (x, s', fx') ∧ branch_ok s fx x s' L' fx'.
Proof.
  intros Hs Hn Hi. unfold futex_wake_op. set (private := negb _).
  destruct (wake_target_safe env hart s L fx private uaddr (Z.max val 0) Hs Hn Hi)
    as (n1 & s1 & L1 & fx1 & -> & H1 & (Hs1 & Hn1 & Hi1 & _)). simpl.
  destruct (wake_target_safe env hart s1 L1 fx1 private uaddr2 (Z.min timeout (2 ^ 63 - 1)) Hs1 ltac:(lia) Hi1)
    as (n2 & s2 & L2 & fx2 & -> & H2 & (Hs2 & Hn2 & Hi2 & _)). simpl.
  exists (n1 + n2), s2, L2, fx2. split; [done|]. split_and!; [done|congruence|done|lia].
Qed.

Lemma futex_requeue_safe env hart s L fx uaddr cmd op val timeout uaddr2 val3 :
  sys_inv s L → (0 < ncpu s)%nat → futex_inv fx →
  ∃ x s' L' fx', futex_requeue env hart s fx uaddr cmd op val timeout uaddr2 val3 = Some (x, s', fx') ∧
    branch_ok s fx x s' L' fx'.
Proof.
  intros Hs Hn Hi. unfold futex_requeue. set (private := negb (Z.land op _ =? 0)).
  destruct (_ || _); [by eapply branch_return|]. destruct (uaddr2 =? 0); [by eapply branch_return|].
  destruct (negb (Z.land uaddr2 3 =? 0)); [by eapply branch_return|]. destruct (_ && _); [by eapply branch_return|].
  destruct (key_of env uaddr private) as [sk|]; [|by eapply branch_return].
  destruct (key_of env uaddr2 private) as [dk|]; [|by eapply branch_return].
  set (wc := Z.to_nat (Z.max val 0)). set (rc := Z.to_nat (as_signed timeout)). set (same := _ || _).
  assert (∀ fx1 (c : bool), futex_inv fx1 → same_waiters fx1
    (let f := retire_by_key fx1 sk in if c then retire_by_key f dk else f)) as Htail.
  { intros fx1 c Hi1. pose proof (retire_by_key_spec fx1 sk Hi1) as H1. destruct c; [|done].
    eapply same_waiters_trans; [exact H1|]. by apply retire_by_key_spec, H1. }
  destruct same.
  - destruct (requeue_futex_waiters_spec hart s L fx sk dk wc rc Hs Hn Hi) as (s' & L' & fx1 & -> & (Hs' & Hn' & _) & Hi1 & _).
    simpl. destruct (Htail fx1 (0 <? as_signed timeout) Hi1) as (Hi2 & _). do 4 eexists. split; [done|].
    split_and!; [done|done|done|lia].
  - destruct (requeue_section_spec fx sk dk wc rc Hi) as [(fx1 & Heq & Hsw) _]. unfold requeue_futex_waiters. rewrite Heq.
    simpl. pose proof (Htail fx1 (0 <? as_signed timeout) (proj1 Hsw)) as Hsw2. do 4 eexists. split; [done|].
    split_and!; [done|done|apply Hsw2|]. intros _. split; [done|]. by eapply same_waiters_trans.
Qed.
(** The half up to the sleep. *)
Lemma sys_futex_enter env hart s L sq fx r uaddr op val timeout uaddr2 val3 :
  sys_inv s L → (0 < ncpu s)%nat → futex_inv fx → state (tasks s r) = Running →
  ∃ o s' sq' fx' L', sys_futex env hart s sq fx r uaddr op val timeout uaddr2 val3 = Some (o, s', sq', fx') ∧
    sys_inv s' L' ∧ futex_inv fx' ∧
    ∀ x, o = Return x → x < 0 → s' = s ∧ sq' = sq ∧ same_waiters fx fx'.
Proof.
  intros Hs Hn Hi Hr. pose proof (same_waiters_refl fx Hi) as Hsame. unfold sys_futex.
  destruct (uaddr =? 0); [by exists (fail EFAULT), s, sq, fx, L|].
  destruct (negb _); [by exists (fail EINVAL), s, sq, fx, L|]. set (cmd := Z.land op FUTEX_CMD_MASK).
  destruct (_ || _).
  { unfold futex_wait. destruct (futex_wait_prepare _ _ _ _ _ _ _) as [e|[[key b] dl]]; [by exists (fail e), s, sq, fx, L|].
    unfold block_current_on_futex_if. destruct (bool_decide _); simpl.
    - destruct (enqueue_section fx r key b) as [[w q] fx'] eqn:He.
      destruct (enqueue_section_spec _ _ _ _ _ _ _ Hi He) as (Hi' & _).
      eexists (Sleeps w q key dl), _, _, fx', L. split; [reflexivity|]. split_and!; [|done|done].
      apply sys_inv_task; [done| |done]. intros _. by rewrite Hr.
    - destruct (refuse_section_spec fx key Hi) as (Hi' & Hw). eexists _, s, sq, _, L. split; [reflexivity|]. by split_and!. }
  assert (∀ m : option (Z * sys * futex), (∃ x s' L' fx', m = Some (x, s', fx') ∧ branch_ok s fx x s' L' fx') →
    ∃ o s' sq' fx' L', ('(res, s, fx) ← m; Some (Return res, s, sq, fx)) = Some (o, s', sq', fx') ∧
      sys_inv s' L' ∧ futex_inv fx' ∧ ∀ x, o = Return x → x < 0 → s' = s ∧ sq' = sq ∧ same_waiters fx fx') as Hm.
  { intros m (x & s' & L' & fx' & -> & (Hs' & _ & Hi' & Herr)). exists (Return x), s', sq, fx', L'. split; [done|].
    split_and!; [done..|]. intros y [= <-] Hx. destruct (Herr Hx). done. }
  apply Hm. destruct (_ || _); [by apply (futex_wake_safe env hart s L)|].
  destruct (_ || _); [by apply (futex_requeue_safe env hart s L)|].
  destruct (_ =? _); [by apply (futex_wake_op_safe env hart s L)|]. by eapply branch_return.
Qed.
End safe.

(** ** Properties *)

Module FutexProps.

(** Blocking on a futex: if the check under the locks holds, the task goes to the
    end of the waiters of its key and is marked, and nobody else moves; if it does
    not hold, no queue, no task and no deadline changes. *)
Theorem futex_block_or_refuse {Qc Qd} `{!OrderedQueue CfsKey TaskRef Qc} `{!OrderedQueue DeadlineKey TaskRef Qd}
    (s : sys (Qc := Qc) (Qd := Qd)) sq fx r key b dl (ok : bool) :
  futex_inv fx →
  let '(res, s', sq', fx') := block_current_on_futex_if s sq fx r key b dl ok in
  futex_inv fx' ∧ (∀ k, k ≠ key → waiting fx' k = waiting fx k) ∧
  if ok then ∃ w q, res = Some (w, q) ∧ waiting fx' key = waiting fx key ++ [w] ∧ location fx' w = Some (key, q) ∧
    task_of fx' w = Some r ∧ bitset_of fx' w = b ∧ state (tasks s' r) = BlockSaving ∧
    ∀ d, dl = Some d → ∃ o, MkSleep d o r ∈ entries sq'
  else res = None ∧ s' = s ∧ sq' = sq ∧ waiting fx' key = waiting fx key.
Proof.
  intros Hi. unfold block_current_on_futex_if. destruct ok; simpl.
  - destruct (enqueue_section fx r key b) as [[w q] fx'] eqn:He.
    destruct (enqueue_section_spec _ _ _ _ _ _ _ Hi He) as (Hi' & _ & _ & Hw & Ho & Hl & _ & Hv & _).
    split_and!; [done|done|]. exists w, q. split_and!; [done|done|done|by unfold task_of; rewrite Hv
      |by unfold bitset_of; rewrite Hv|by unfold on_task; simpl; rewrite upd_task_eq|].
    intros d ->. exists (enqueue_order sq). simpl. by left.
  - destruct (refuse_section_spec fx key Hi) as (Hi' & Hw & _). by split_and!.
Qed.

(** Waking is first in, first out among the waiters whose bit set matches: exactly
    the first [n] of them are taken out and are not asleep afterwards, the number
    returned is theirs, and the others keep their order. *)
Theorem futex_wake_fifo {Qc Qd} `{!OrderedQueue CfsKey TaskRef Qc} `{!OrderedQueue DeadlineKey TaskRef Qd}
    hart (s : sys (Qc := Qc) (Qd := Qd)) L fx key n b :
  sys_inv s L → (0 < ncpu s)%nat → futex_inv fx →
  ∃ ws s' L' fx', wake_key hart s fx key n b = Some (length ws, s', fx') ∧
    woken_from fx fx' key n b ws ∧ woke s s' L' fx ws.
Proof. apply wake_key_spec. Qed.

(** The detach loop, which searches the queue from its front for every waiter,
    computes what one pass over the queue does. *)
Theorem detach_is_one_pass fx q n b :
  futex_inv fx → ∃ fx', detach fx q n b = Some ((take_matching (matches fx b) n (queue_of fx q)).1, fx') ∧
    queue_of fx' q = (take_matching (matches fx b) n (queue_of fx q)).2.
Proof.
  intros Hi. pose proof (detach_spec fx q n b Hi) as Hd.
  change (λ w, negb (Z.land (bitset_of fx w) b =? 0)) with (matches fx b) in Hd.
  destruct (take_matching (matches fx b) n (queue_of fx q)) as [a r]. destruct Hd as (fx' & Heq & Ht).
  exists fx'. split; [done|apply Ht].
Qed.

(** Requeueing wakes the first waiters of one key and moves the next ones, in
    order, to the end of another; the result counts both; on the same key the moved
    ones stay.  If the check fails no waiter moves. *)
Theorem futex_requeue_moves {Qc Qd} `{!OrderedQueue CfsKey TaskRef Qc} `{!OrderedQueue DeadlineKey TaskRef Qd}
    hart (s : sys (Qc := Qc) (Qd := Qd)) L fx sk dk wc rc :
  sys_inv s L → (0 < ncpu s)%nat → futex_inv fx →
  (∃ fx', requeue_futex_waiters hart s fx sk dk wc rc false = Some (None, s, fx') ∧ same_waiters fx fx') ∧
  ∃ s' L' fx', requeue_futex_waiters hart s fx sk dk wc rc true =
      Some (Some (length (take wc (waiting fx sk)) + length (take rc (drop wc (waiting fx sk))))%nat, s', fx') ∧
    woke s s' L' fx' (take wc (waiting fx sk)) ∧ futex_inv fx' ∧
    ∀ k, waiting fx' k = requeued sk dk wc rc (waiting fx) k.
Proof.
  intros Hs Hn Hi. split; [|by apply (requeue_futex_waiters_spec hart s L)].
  destruct (requeue_section_spec fx sk dk wc rc Hi) as [(fx' & Heq & Hw) _]. exists fx'.
  unfold requeue_futex_waiters. by rewrite Heq.
Qed.

(** A wait that ends tells why: interrupted by a signal, timed out exactly when the
    waiter was still queued, or woken; in every case the waiter is in no queue
    afterwards, its deadline is cancelled, and no other waiter moved. *)
Theorem futex_wait_outcome h sq fx r w q key dl interrupted pending blocked :
  futex_inv fx →
  ∃ sq' fx', futex_wait_return h sq fx r w q key dl interrupted pending blocked =
      Some (if interrupted || negb (Z.lor (Z.land pending (Z.lnot blocked)) (Z.land pending UNMASKABLE) =? 0)
            then as_isize EINTR
            else if bool_decide (is_Some dl) && bool_decide (is_Some (location fx w)) then as_isize ETIMEDOUT else 0,
            sq', fx') ∧
    futex_inv fx' ∧ location fx' w = None ∧
    (∀ k, waiting fx' k = filter (λ x, x ≠ w) (waiting fx k)) ∧
    (is_Some dl → sq' = remove_task h sq (tid (h r))).
Proof. apply futex_wait_return_spec. Qed.


(** C26 No futex wakeup is lost: once the word has changed and the call that wakes all
    waiters has detached the queue it looked up and woken them, no task is asleep on
    that futex, however blocking, refused blocking, other wakers, timeouts, and the
    creation and removal of queues were interleaved. *)
Theorem futex_no_lost_wakeup key h s :
  (∀ r, ¬ WaitQueue.asleep (h r)) →
  rtc (FutexProtocol.fstep key) (FutexProtocol.MkF h (MkFutex ∅ [] []) false FutexProtocol.Waiting []) s →
  FutexProtocol.waker s = FutexProtocol.Detached → FutexProtocol.pend s = [] →
  ∀ r, WaitQueue.asleep (FutexProtocol.heap_ s r) →
    ∃ w k q, task_of (FutexProtocol.fx_ s) w = Some r ∧ location (FutexProtocol.fx_ s) w = Some (k, q) ∧ k ≠ key.
Proof.
  intros Hh Hs Hd Hp r Ha. assert (FutexProtocol.finv key s) as Hf.
  { eapply FutexProtocol.finv_steps; [exact Hs|]. split; simpl; try done; [apply futex_inv_empty|]. intros r' Hr'. by destruct (Hh r'). }
  destruct (FutexProtocol.f_found _ _ Hf r Ha) as [Hin|(w & Ht & Hl)]; [rewrite Hp in Hin; by apply not_elem_of_nil in Hin|].
  destruct (location (FutexProtocol.fx_ s) w) as [[k q]|] eqn:Hlw; [|done]. exists w, k, q. split_and!; [done..|].
  intros ->. by eapply (FutexProtocol.f_done _ _ Hf).
Qed.

(** [remove_futex_waiter] against the other operations: whatever wakers do, its
    assertion holds; but a waiter that is requeued away and back between its lock
    section and its second read makes the assertion fail. *)
Theorem removal_races_with_requeue :
  (∀ w fx p, futex_inv fx → rtc (RemoveRace.rstep false w) (RemoveRace.Start, fx) p → p.1 ≠ RemoveRace.Panicked) ∧
  ∃ w fx p, futex_inv fx ∧ rtc (RemoveRace.rstep true w) (RemoveRace.Start, fx) p ∧ p.1 = RemoveRace.Panicked.
Proof.
  split.
  - intros w fx p Hi Hs Hp. assert (RemoveRace.race_inv w p) as [_ Hc].
    { eapply RemoveRace.race_inv_steps; [exact Hs|by split]. }
    by rewrite Hp in Hc.
  - set (A := Private 7 4096). set (B := Private 7 4100).
    set (fx := (enqueue_section (MkFutex ∅ [] []) 1%nat A 1).2).
    set (fx1 := (requeue_section fx A B 0 1 true).2). set (fx2 := (requeue_section fx1 B A 0 1 true).2).
    exists 0%nat, fx, (RemoveRace.Panicked, fx2). split_and!; [|..|done].
    { unfold fx. destruct (enqueue_section (MkFutex ∅ [] []) 1%nat A 1) as [[w q] fx'] eqn:He.
      by destruct (enqueue_section_spec _ _ _ _ _ _ _ futex_inv_empty He) as (Hi & _). }
    eapply rtc_l; [apply RemoveRace.r_read|]. eapply rtc_l; [apply (RemoveRace.r_requeue true 0 fx _ A B 0 1); done|].
    eapply rtc_l; [apply (RemoveRace.r_try true 0 fx1 (A, 0%nat))|].
    eapply rtc_l; [apply (RemoveRace.r_requeue true 0 fx1 _ B A 0 1); done|].
    apply rtc_once, (RemoveRace.r_recheck true 0 fx2 (A, 0%nat)).
Qed.

(** ** Witnesses *)

Definition demo_key : FutexKey := Private 7 4096.

(** Tasks 1 and 2 wait with different bit sets. *)
Definition demo_fx : futex :=
  (enqueue_section (enqueue_section (MkFutex ∅ [] []) 1%nat demo_key 1).2 2%nat demo_key 2).2.

Lemma demo_fx_inv : futex_inv demo_fx.
Proof.
  unfold demo_fx. destruct (enqueue_section (MkFutex ∅ [] []) 1%nat demo_key 1) as [[w1 q1] fx1] eqn:H1.
  destruct (enqueue_section_spec _ _ _ _ _ _ _ futex_inv_empty H1) as (Hi1 & _). simpl.
  destruct (enqueue_section fx1 2%nat demo_key 2) as [[w2 q2] fx2] eqn:H2.
  by destruct (enqueue_section_spec _ _ _ _ _ _ _ Hi1 H2) as (Hi2 & _).
Qed.

Lemma futex_block_or_refuse_witness :
  futex_inv (block_current_on_futex_if SchedProps.demo_sys new demo_fx 3%nat demo_key 1 None true).2.
Proof. apply (futex_block_or_refuse SchedProps.demo_sys new demo_fx 3%nat demo_key 1 None true demo_fx_inv). Defined.

(** Only task 2 matches. *)
Lemma futex_wake_fifo_witness :
  ∃ s' fx', wake_key 0%nat SchedProps.demo_sys demo_fx demo_key 5 2 = Some (1%nat, s', fx') ∧ futex_inv fx'.
Proof.
  destruct (futex_wake_fifo 0%nat SchedProps.demo_sys (λ _, []) demo_fx demo_key 5 2)
    as (ws & s' & L' & fx' & Heq & (Hi & Hws & _) & _).
  - apply SchedProps.demo_sys_inv.
  - vm_compute. lia.
  - apply demo_fx_inv.
  - exists s', fx'. split; [|exact Hi]. rewrite Heq, Hws. reflexivity.
Defined.

Lemma detach_is_one_pass_witness : ∃ fx', detach demo_fx 0 1 3 = Some ([0%nat], fx') ∧ queue_of fx' 0 = [1%nat].
Proof. apply (detach_is_one_pass demo_fx 0 1 3 demo_fx_inv). Defined.

Lemma futex_requeue_moves_witness :
  ∃ s' fx', requeue_futex_waiters 0%nat SchedProps.demo_sys demo_fx demo_key (Private 7 8) 1 1 true = Some (Some 2%nat, s', fx') ∧
    waiting fx' (Private 7 8) = [1%nat].
Proof.
  destruct (futex_requeue_moves 0%nat SchedProps.demo_sys (λ _, []) demo_fx demo_key (Private 7 8) 1 1)
    as [_ (s' & L' & fx' & Heq & _ & _ & Hw)].
  - apply SchedProps.demo_sys_inv.
  - vm_compute. lia.
  - apply demo_fx_inv.
  - exists s', fx'. split; [exact Heq|]. rewrite Hw. reflexivity.
Defined.

Lemma futex_wait_outcome_witness :
  ∃ sq' fx', futex_wait_return normal_task new demo_fx 1%nat 0 0 demo_key (Some 5) false 0 0 = Some (-110, sq', fx') ∧
    waiting fx' demo_key = [1%nat].
Proof.
  destruct (futex_wait_outcome normal_task new demo_fx 1%nat 0 0 demo_key (Some 5) false 0 0 demo_fx_inv)
    as (sq' & fx' & Heq & _ & _ & Hw & _).
  exists sq', fx'. split; [exact Heq|]. rewrite Hw. reflexivity.
Defined.

Definition demo_env : futex_env :=
  MkEnv (λ _, Some 5) (λ _, Some 5) (λ _, None) (λ a _, Some (Private 7 a)) 0 0 false.


(** Task 1 blocks, the word changes, and the waker finds and wakes it. *)
Lemma futex_no_lost_wakeup_witness :
  let h := upd_task normal_task 1%nat (with_state Running) in
  ∃ s, rtc (FutexProtocol.fstep demo_key) (FutexProtocol.MkF h (MkFutex ∅ [] []) false FutexProtocol.Waiting []) s ∧
    FutexProtocol.waker s = FutexProtocol.Detached ∧ FutexProtocol.pend s = [] ∧
    ∀ r, WaitQueue.asleep (FutexProtocol.heap_ s r) →
      ∃ w k q, task_of (FutexProtocol.fx_ s) w = Some r ∧ location (FutexProtocol.fx_ s) w = Some (k, q) ∧ k ≠ demo_key.
Proof.
  intros h. set (h1 := upd_task h 1%nat block_section). set (h2 := upd_task h1 1%nat (λ t, (wake_section 0 t).1)).
  set (fx1 := (enqueue_section (MkFutex ∅ [] []) 1%nat demo_key 1).2). set (fx2 := upd_arcs 0 S fx1).
  set (fx3 := take_out 0 0 [] fx2). set (s := FutexProtocol.MkF h2 fx3 true FutexProtocol.Detached []).
  assert (rtc (FutexProtocol.fstep demo_key) (FutexProtocol.MkF h (MkFutex ∅ [] []) false FutexProtocol.Waiting []) s) as Hs.
  { apply (rtc_l _ _ (FutexProtocol.MkF h1 fx1 false FutexProtocol.Waiting [])).
    { apply (FutexProtocol.f_block demo_key h _ false _ [] 1%nat demo_key 1 0 0); [reflexivity|reflexivity|unfold U32_MAX; lia|reflexivity]. }
    apply (rtc_l _ _ (FutexProtocol.MkF h1 fx1 true FutexProtocol.Waiting [])); [apply FutexProtocol.f_change|].
    apply (rtc_l _ _ (FutexProtocol.MkF h1 fx2 true (FutexProtocol.Looked (Some 0%nat)) [])).
    { apply (FutexProtocol.f_look demo_key h1 fx1 []). }
    apply (rtc_l _ _ (FutexProtocol.MkF h1 fx3 true FutexProtocol.Detached [1%nat])).
    { apply (FutexProtocol.f_detach demo_key h1 fx2 true 0 1 [0%nat] fx3 []); [vm_compute; lia|reflexivity]. }
    apply rtc_once, (FutexProtocol.f_wake demo_key 0). }
  exists s. split; [exact Hs|]. split; [reflexivity|]. split; [reflexivity|].
  apply (futex_no_lost_wakeup demo_key h s); [|exact Hs|reflexivity|reflexivity].
  intros r. unfold WaitQueue.asleep, h, upd_task. destruct (decide (r = 1%nat)); simpl; intros [?|[? ?]]; discriminate.
Defined.
End FutexProps.
