(* ===== verification/Signal.v ===== *)
(** * Signals (process/signal/ and the mask system calls)

    Pending sets, masks and actions; the delivery of one signal on the way back to
    user mode, with the frame it builds and the return from the handler; and the
    system calls a thread uses on its own signal state. *)

From S2P Require Import Prelude Errno.

Open Scope Z_scope.

(** ** Signal sets

    A set of signals is its 64-bit mask; signal [n] of the user is bit [n - 1]. *)

Definition MAX_SIG : nat := 64.

Definition SIGKILL : Z := Z.shiftl 1 8.

Definition SIGCHLD : Z := Z.shiftl 1 16.

Definition SIGCONT : Z := Z.shiftl 1 17.

Definition SIGSTOP : Z := Z.shiftl 1 18.

Definition SIGURG : Z := Z.shiftl 1 22.

Definition SIGWINCH : Z := Z.shiftl 1 27.

Definition unmaskable : Z := Z.lor SIGKILL SIGSTOP.

Definition is_set (z : Z) : Prop := 0 ≤ z < 2 ^ 64.

(** The operations of [bitflags]. *)
Definition contains (a b : Z) : bool := Z.land a b =? b.

Definition insert (a b : Z) : Z := Z.lor a b.

Definition remove (a b : Z) : Z := Z.ldiff a b.

(** [u64::trailing_zeros] *)
Definition trailing_zeros (z : Z) : nat :=
  match list_find (λ i, Z.testbit z (Z.of_nat i) = true) (seq 0 64) with
  | Some (_, i) => i
  | None => 64%nat
  end.

(** The loop of [SignalFlags::number] from index [i]; the shift by 64 in its last
    pass overflows. *)
Fixpoint number_loop (fuel : nat) (flags : Z) (i : nat) : option (option nat) :=
  match fuel with
  | O => Some None
  | S fuel =>
    if (i <? 64)%nat then
      if contains flags (Z.shiftl 1 (Z.of_nat i)) then Some (Some (S i)) else number_loop fuel flags (S i)
    else None
  end.

(** [SignalFlags::number]: the passes [0..=MAX_SIG]. *)
Definition number (flags : Z) : option (option nat) := number_loop (S MAX_SIG) flags 0.

(** [struct Sigpending] *)
Record Sigpending := MkPending { pqueue : list nat; signals : Z; wait_chldexit : bool }.

Definition Sigpending_new : Sigpending := MkPending [] 0 false.

Definition Sigpending_insert (p : Sigpending) (signal : Z) : option Sigpending :=
  n ← number signal;
  Some (MkPending (match n with Some n => vec_push (pqueue p) n | None => pqueue p end)
          (insert (signals p) signal) (wait_chldexit p)).

Definition Sigpending_remove (p : Sigpending) (signal : Z) : option Sigpending :=
  n ← number signal;
  Some (MkPending (match n with Some n => filter (λ q, q ≠ n) (pqueue p) | None => pqueue p end)
          (remove (signals p) signal) (wait_chldexit p)).

(** ** Actions, stacks and contexts *)

(** [struct SignalAction] *)
Record SignalAction := MkAction { handler : Z; flags : Z; mask : Z }.

Definition SignalAction_default : SignalAction := MkAction 0 0 0.

Definition SignalActions_new : list SignalAction := replicate MAX_SIG SignalAction_default.

Definition SIG_DFL : Z := 0.

Definition SIG_IGN : Z := 1.

Definition SA_NODEFER : Z := 0x40000000.

Definition SA_ONSTACK : Z := 0x08000000.

Definition SA_RESTART : Z := 0x10000000.

(** [struct SignalAltStack], without its padding. *)
Record SignalAltStack := MkStack { ss_sp : Z; ss_flags : Z; ss_size : Z }.

Definition SS_ONSTACK : Z := 1.

Definition SS_DISABLE : Z := 2.

Definition SS_AUTODISARM : Z := - 2 ^ 31.

Definition SignalAltStack_default : SignalAltStack := MkStack 0 SS_DISABLE 0.

Definition is_enabled (s : SignalAltStack) : bool := Z.land (ss_flags s) SS_DISABLE =? 0.

Definition is_autodisarm (s : SignalAltStack) : bool := negb (Z.land (ss_flags s) SS_AUTODISARM =? 0).

Definition stack_contains (s : SignalAltStack) (sp : Z) : bool :=
  is_enabled s &&
  match checked_add (ss_sp s) (ss_size s) with
  | Some e => (ss_sp s <=? sp) && (sp <? e)
  | None => false
  end.

Definition status_for_sp (s : SignalAltStack) (sp : Z) : SignalAltStack :=
  MkStack (ss_sp s)
    (if stack_contains s sp then SS_ONSTACK else if is_enabled s then 0 else SS_DISABLE) (ss_size s).

(** [struct TrapContext] (RISC-V); [tc_x] is the array [x] of 32 registers. *)
Record TrapContext := MkTrap {
  tc_x : list Z;
  sstatus : Z;
  sepc : Z;
  kernel_satp : Z;
  kernel_sp : Z;
  trap_handler : Z;
  hart_id : Z;
}.

Definition set_x (i : nat) (v : Z) (c : TrapContext) : TrapContext :=
  MkTrap (<[i := v]> (tc_x c)) (sstatus c) (sepc c) (kernel_satp c) (kernel_sp c) (trap_handler c) (hart_id c).

Definition set_rt (pc : Z) (c : TrapContext) : TrapContext :=
  MkTrap (tc_x c) (sstatus c) pc (kernel_satp c) (kernel_sp c) (trap_handler c) (hart_id c).

Definition get_x (i : nat) (c : TrapContext) : Z := default 0 (tc_x c !! i).

(** [struct SignalUserContext]: the fields the kernel reads or writes.  The general
    registers hold the program counter in place of [x0]. *)
Record SignalUserContext := MkUctx { uc_stack : SignalAltStack; uc_sigmask0 : Z; gregs : list Z }.

Definition from_trap_ctx (c : TrapContext) (sigmask : Z) (alt : SignalAltStack) : SignalUserContext :=
  MkUctx alt sigmask (<[0%nat := sepc c]> (tc_x c)).

Definition apply_to_trap_ctx (u : SignalUserContext) (c : TrapContext) : TrapContext :=
  let pc := default 0 (gregs u !! 0%nat) in
  set_rt pc (MkTrap (<[0%nat := 0]> (gregs u)) (sstatus c) (sepc c) (kernel_satp c) (kernel_sp c)
               (trap_handler c) (hart_id c)).

(** Sizes of [SigInfo] and [SignalUserContext] in bytes. *)
Definition SIGINFO_SIZE : Z := 128.

Definition UCONTEXT_SIZE : Z := 960.

Definition FRAME_SIZE : Z := SIGINFO_SIZE + UCONTEXT_SIZE.

(** ** The state of a thread *)

(** The signal fields of [TaskStructInner], with the thread's trap context. *)
Record thread := MkThread {
  pending : Sigpending;
  blocked : Z;
  sigsuspend_saved_mask : option Z;
  signal_mask_backup : list Z;
  trap_ctx_backup : list TrapContext;
  signal_user_context_backup : list Z;
  signal_alt_stack : SignalAltStack;
  signal_interrupted : bool;
  term_signal : option Z;
  frozen : bool;
  trap_cx : TrapContext;
}.

Definition with_pending (p : Sigpending) (t : thread) : thread :=
  MkThread p (blocked t) (sigsuspend_saved_mask t) (signal_mask_backup t) (trap_ctx_backup t)
    (signal_user_context_backup t) (signal_alt_stack t) (signal_interrupted t) (term_signal t) (frozen t) (trap_cx t).

Definition with_blocked (b : Z) (t : thread) : thread :=
  MkThread (pending t) b (sigsuspend_saved_mask t) (signal_mask_backup t) (trap_ctx_backup t)
    (signal_user_context_backup t) (signal_alt_stack t) (signal_interrupted t) (term_signal t) (frozen t) (trap_cx t).

Definition with_saved (m : option Z) (t : thread) : thread :=
  MkThread (pending t) (blocked t) m (signal_mask_backup t) (trap_ctx_backup t)
    (signal_user_context_backup t) (signal_alt_stack t) (signal_interrupted t) (term_signal t) (frozen t) (trap_cx t).

Definition with_backups (m : list Z) (c : list TrapContext) (u : list Z) (t : thread) : thread :=
  MkThread (pending t) (blocked t) (sigsuspend_saved_mask t) m c u
    (signal_alt_stack t) (signal_interrupted t) (term_signal t) (frozen t) (trap_cx t).

Definition with_alt_stack (s : SignalAltStack) (t : thread) : thread :=
  MkThread (pending t) (blocked t) (sigsuspend_saved_mask t) (signal_mask_backup t) (trap_ctx_backup t)
    (signal_user_context_backup t) s (signal_interrupted t) (term_signal t) (frozen t) (trap_cx t).

Definition with_interrupted (b : bool) (t : thread) : thread :=
  MkThread (pending t) (blocked t) (sigsuspend_saved_mask t) (signal_mask_backup t) (trap_ctx_backup t)
    (signal_user_context_backup t) (signal_alt_stack t) b (term_signal t) (frozen t) (trap_cx t).

Definition with_term (s : option Z) (t : thread) : thread :=
  MkThread (pending t) (blocked t) (sigsuspend_saved_mask t) (signal_mask_backup t) (trap_ctx_backup t)
    (signal_user_context_backup t) (signal_alt_stack t) (signal_interrupted t) s (frozen t) (trap_cx t).

Definition with_frozen (b : bool) (t : thread) : thread :=
  MkThread (pending t) (blocked t) (sigsuspend_saved_mask t) (signal_mask_backup t) (trap_ctx_backup t)
    (signal_user_context_backup t) (signal_alt_stack t) (signal_interrupted t) (term_signal t) b (trap_cx t).

Definition with_trap (c : TrapContext) (t : thread) : thread :=
  MkThread (pending t) (blocked t) (sigsuspend_saved_mask t) (signal_mask_backup t) (trap_ctx_backup t)
    (signal_user_context_backup t) (signal_alt_stack t) (signal_interrupted t) (term_signal t) (frozen t) c.

(** The contexts user memory holds, by address.  A write to another address is taken
    not to overlap them. *)
Definition umem : Type := Z → option SignalUserContext.

(** ** Delivery *)

(** The private and shared signals, and those that the mask lets through
    ([get_pending_signals]). *)
Definition raw_signals (t : thread) (shared : Sigpending) : Z := Z.lor (signals (pending t)) (signals shared).

Definition get_pending_signals (t : thread) (shared : Sigpending) : Z :=
  Z.ldiff (raw_signals t shared) (Z.ldiff (blocked t) unmaskable).

(** Signals that the kernel ignores by default. *)
Definition default_ignored (flag : Z) : bool := (flag =? SIGCHLD) || (flag =? SIGURG) || (flag =? SIGWINCH).

(** [push_signal_frame]: the registers are saved in a frame on the user's stack or on
    the alternate one; [writable] says whether the range can be written.  [None] is a
    failure; the results are the addresses of the info and of the context. *)
Definition push_signal_frame (t : thread) (um : umem) (writable : Z → Z → bool) (saved_mask : Z) (use_alt_stack : bool)
    : option (Z * Z * thread * umem) :=
  let c := trap_cx t in
  let interrupted_sp := get_x 2 c in
  let alt := signal_alt_stack t in
  let switching := use_alt_stack && is_enabled alt && negb (stack_contains alt interrupted_sp) in
  user_sp ← (if switching then checked_add (ss_sp alt) (ss_size alt) else Some interrupted_sp);
  base ← checked_sub user_sp FRAME_SIZE;
  let frame_sp := Z.ldiff base 15 in
  let u := from_trap_ctx c saved_mask (status_for_sp alt interrupted_sp) in
  if negb (writable frame_sp FRAME_SIZE) then None
  else
    let ucontext_ptr := frame_sp + SIGINFO_SIZE in
    let t := with_backups (signal_mask_backup t) (trap_ctx_backup t)
               (vec_push (signal_user_context_backup t) ucontext_ptr) t in
    let t := if switching && is_autodisarm alt then with_alt_stack SignalAltStack_default t else t in
    Some (frame_sp, ucontext_ptr, t, λ a, if decide (a = ucontext_ptr) then Some u else um a).

(** The registers a handler starts with. *)
Definition enter_handler (handler sig info_ptr ucontext_ptr sig_rt_addr : Z) (c : TrapContext) : TrapContext :=
  set_x 1 sig_rt_addr (set_x 2 info_ptr (set_x 12 ucontext_ptr (set_x 11 info_ptr
    (set_x 10 (sig + 1) (set_rt handler c))))).

(** [call_signal_handler] for bit [sig] of the mask. *)
Definition call_signal_handler (t : thread) (acts : list SignalAction) (um : umem) (writable : Z → Z → bool)
    (sig_rt_addr : Z) (sig : nat) (signal : Z) : option (thread * umem) :=
  action ← acts !! sig;
  let '(saved_mask, restore) := match sigsuspend_saved_mask t with
                                | Some m => (m, true)
                                | None => (blocked t, false)
                                end in
  let t := with_saved None t in
  if handler action =? SIG_IGN then Some (if restore : bool then with_blocked saved_mask t else t, um)
  else if negb (handler action =? SIG_DFL) then
    let t := with_backups (vec_push (signal_mask_backup t) saved_mask) (trap_ctx_backup t)
               (signal_user_context_backup t) t in
    let t := with_blocked (Z.lor (blocked t) (mask action)) t in
    let t := if Z.land (flags action) SA_NODEFER =? 0 then with_blocked (insert (blocked t) signal) t else t in
    let t := with_backups (signal_mask_backup t) (vec_push (trap_ctx_backup t) (trap_cx t))
               (signal_user_context_backup t) t in
    match push_signal_frame t um writable saved_mask (negb (Z.land (flags action) SA_ONSTACK =? 0)) with
    | None => Some (with_term (Some (Z.of_nat sig + 1)) t, um)
    | Some (info_ptr, ucontext_ptr, t, um) =>
      Some (with_trap (enter_handler (handler action) (Z.of_nat sig) info_ptr ucontext_ptr sig_rt_addr (trap_cx t)) t, um)
    end
  else
    let t := if default_ignored signal then t
             else if signal =? SIGSTOP then with_frozen true t
             else if signal =? SIGCONT then with_frozen false t
             else with_term (Some (Z.of_nat sig + 1)) t in
    Some (if restore then with_blocked saved_mask t else t, um).

(** [handle_signals]: the lowest deliverable signal is consumed, from the private set
    if it is there, and its action taken; with nothing to deliver a mask saved by
    [sigsuspend] comes back. *)
Definition handle_signals (t : thread) (shared : Sigpending) (acts : list SignalAction) (um : umem)
    (writable : Z → Z → bool) (sig_rt_addr : Z) : option (thread * Sigpending * umem) :=
  let t := with_blocked (remove (blocked t) unmaskable) t in
  let thread_signals := signals (pending t) in
  let pend := remove (raw_signals t shared) (blocked t) in
  if negb (pend =? 0) then
    let sig := trailing_zeros pend in
    let flag := Z.shiftl 1 (Z.of_nat sig) in
    '(t, shared) ← (if contains thread_signals flag
                    then p ← Sigpending_remove (pending t) flag; Some (with_pending p t, shared)
                    else sh ← Sigpending_remove shared flag; Some (t, sh));
    '(t, um) ← call_signal_handler t acts um writable sig_rt_addr sig flag;
    Some (t, shared, um)
  else
    Some (match sigsuspend_saved_mask t with
          | Some m => with_blocked m (with_saved None t)
          | None => t
          end, shared, um).

(** ** Returning from a handler *)

(** [restore_signal_context]; [None] is the failure of the source, after which what
    has been popped stays popped. *)
Definition restore_signal_context (t : thread) (um : umem) : option Z * thread :=
  match vec_pop (signal_user_context_backup t) with
  | None => (None, t)
  | Some (ucontext_ptr, us) =>
    let t := with_backups (signal_mask_backup t) (trap_ctx_backup t) us t in
    match vec_pop (signal_mask_backup t) with
    | None => (None, t)
    | Some (_, ms) =>
      let t := with_backups ms (trap_ctx_backup t) us t in
      match vec_pop (trap_ctx_backup t) with
      | None => (None, t)
      | Some (c, cs) =>
        let t := with_backups ms cs us t in
        match um ucontext_ptr with
        | None => (None, t)
        | Some u =>
          let c := apply_to_trap_ctx u c in
          let t := with_trap c (with_alt_stack (uc_stack u) (with_blocked (uc_sigmask0 u mod 2 ^ 64) t)) in
          (Some (get_x 10 c), t)
        end
      end
    end
  end.

(** [sys_sigreturn]; [None] is a failed assertion. *)
Definition sys_sigreturn (t : thread) (um : umem) : option (Z * thread) :=
  if decide (length (trap_ctx_backup t) ≠ length (signal_mask_backup t)) then None
  else if decide (length (trap_ctx_backup t) ≠ length (signal_user_context_backup t)) then None
  else
    match restore_signal_context t um with
    | (Some ret, t) => Some (ret, t)
    | (None, t) => Some (as_isize EPERM, t)
    end.

(** ** Will a signal interrupt *)

(** The loops of [check_pending_signal] and [pending_signal_should_restart] over the
    pending bits: the first signal that is not ignored, with its action. *)
Fixpoint first_effective (fuel : nat) (acts : list SignalAction) (bits : Z) : option (option (nat * SignalAction)) :=
  match fuel with
  | O => Some None
  | S fuel =>
    if bits =? 0 then Some None
    else
      let sig := trailing_zeros bits in
      let rest := Z.ldiff bits (Z.shiftl 1 (Z.of_nat sig)) in
      action ← acts !! sig;
      if handler action =? SIG_IGN then first_effective fuel acts rest
      else if (handler action =? SIG_DFL) && default_ignored (Z.shiftl 1 (Z.of_nat sig))
      then first_effective fuel acts rest
      else Some (Some (sig, action))
  end.

(** Each pass clears a bit. *)
Definition effective (acts : list SignalAction) (bits : Z) : option (option (nat * SignalAction)) :=
  first_effective (S MAX_SIG) acts bits.

Definition check_pending_signal (t : thread) (shared : Sigpending) (acts : list SignalAction) : option bool :=
  r ← effective acts (get_pending_signals t shared);
  Some (match r with Some _ => true | None => false end).

Definition pending_signal_should_restart (t : thread) (shared : Sigpending) (acts : list SignalAction) : option bool :=
  r ← effective acts (get_pending_signals t shared);
  Some (match r with
        | Some (_, a) => if handler a =? SIG_DFL then false else negb (Z.land (flags a) SA_RESTART =? 0)
        | None => false
        end).

(** ** System calls on the own state

    A user pointer argument is [None] when it is null; a value to be read is what the
    read gives, a value to be written whether the write succeeds. *)

Definition MINSIGSTKSZ : Z := 2048.

Definition sys_sigaltstack (t : thread) (new_stack : option (option SignalAltStack)) (old_stack : option bool)
    : Z * thread :=
  match new_stack with
  | Some None => (as_isize EFAULT, t)
  | _ =>
    let sp := get_x 2 (trap_cx t) in
    if bool_decide (old_stack = Some false) then (as_isize EFAULT, t)
    else
      match new_stack with
      | Some (Some s) =>
        if stack_contains (signal_alt_stack t) sp then (as_isize EPERM, t)
        else if ss_flags s =? SS_DISABLE then (0, with_alt_stack SignalAltStack_default t)
        else if negb (ss_flags s =? 0) && negb (ss_flags s =? SS_AUTODISARM) then (as_isize EINVAL, t)
        else if ss_size s <? MINSIGSTKSZ then (as_isize ENOMEM, t)
        else if (ss_sp s =? 0) || bool_decide (checked_add (ss_sp s) (ss_size s) = None) then (as_isize EINVAL, t)
        else (0, with_alt_stack s t)
      | _ => (0, t)
      end
  end.

Definition SIG_BLOCK : Z := 0.

Definition SIG_UNBLOCK : Z := 1.

Definition SIG_SETMASK : Z := 2.

Definition sys_sigprocmask (t : thread) (how : Z) (set : option (option Z)) (oldset : option bool) : Z * thread :=
  match set with
  | Some None => (as_isize EFAULT, t)
  | _ =>
    if bool_decide (oldset = Some false) then (as_isize EFAULT, t)
    else
      match set with
      | Some (Some v) =>
        let s := remove (v mod 2 ^ 64) unmaskable in
        if how =? SIG_BLOCK then (0, with_blocked (insert (blocked t) s) t)
        else if how =? SIG_UNBLOCK then (0, with_blocked (remove (blocked t) s) t)
        else if how =? SIG_SETMASK then (0, with_blocked s t)
        else (as_isize EINVAL, t)
      | _ => (0, t)
      end
  end.

(** [sys_rt_sigsuspend] up to its loop: an error, or the mask to come back to. *)
Definition sigsuspend_enter (t : thread) (mask_ptr : option (option Z)) (sigsetsize : Z) : Errno + Z * thread :=
  if negb (sigsetsize =? 8) then inl EINVAL
  else
    match mask_ptr with
    | Some (Some v) => inr (blocked t, with_blocked (remove (v mod 2 ^ 64) unmaskable) t)
    | _ => inl EFAULT
    end.

(** One pass of its loop: [None] is blocking; otherwise the call returns [EINTR]. *)
Definition sigsuspend_turn (t : thread) (shared : Sigpending) (original_mask : Z) : option (Z * thread) :=
  if remove (raw_signals t shared) (blocked t) =? 0 then None
  else Some (as_isize EINTR, with_saved (Some original_mask) t).

Definition check_sigaction_error (signal : Z) : bool := (signal =? SIGKILL) || (signal =? SIGSTOP).

Definition sys_rt_sigaction (acts : list SignalAction) (signum : Z) (action : option (option SignalAction))
    (old_action : option bool) (sigsetsize : Z) : Z * list SignalAction :=
  if sigsetsize <? 4 then (as_isize EINVAL, acts)
  else if (signum <=? 0) || (Z.of_nat MAX_SIG <? signum) then (as_isize EINVAL, acts)
  else if check_sigaction_error (Z.shiftl 1 (signum - 1)) then (as_isize EINVAL, acts)
  else if bool_decide (old_action = Some false) then (as_isize EFAULT, acts)
  else
    match action with
    | None => (0, acts)
    | Some None => (as_isize EFAULT, acts)
    | Some (Some a) => (0, <[Z.to_nat (signum - 1) := a]> acts)
    end.

(** One pass of the loop of [sys_rt_sigtimedwait]: it returns, or looks at the clock
    and yields. *)
Definition sigtimedwait_turn (t : thread) (shared : Sigpending) (target_set : Z) (info : option bool)
    : option (option Z * thread * Sigpending) :=
  let pend := raw_signals t shared in
  let intersection := Z.land pend target_set in
  if negb (intersection =? 0) then
    let sig := trailing_zeros intersection in
    let flag := Z.shiftl 1 (Z.of_nat sig) in
    '(t, shared) ← (if contains (signals (pending t)) flag
                    then p ← Sigpending_remove (pending t) flag; Some (with_pending p t, shared)
                    else sh ← Sigpending_remove shared flag; Some (t, sh));
    Some (Some (if bool_decide (info = Some false) then as_isize EFAULT else Z.of_nat sig + 1), t, shared)
  else if negb (Z.lor (remove pend (blocked t)) (Z.land pend unmaskable) =? 0) then
    Some (Some (as_isize EINTR), t, shared)
  else Some (None, t, shared).

(** The deadline of [sys_rt_sigtimedwait]; its arithmetic is not saturating. *)
Definition sigtimedwait_deadline (now_us tv_sec tv_nsec : Z) : option Z :=
  if (tv_sec =? 0) && (tv_nsec =? 0) then Some 0
  else
    us ← checked_mul tv_sec 1000000;
    wait_us ← checked_add us (tv_nsec / 1000);
    checked_add now_us wait_us.

(** The result, and the set written to user memory. *)
Definition sys_rt_sigpending (t : thread) (shared : Sigpending) (sigsetsize : Z) (writes : bool) : Z * option Z :=
  if negb (sigsetsize =? 8) then (as_isize EINVAL, None)
  else if writes then (0, Some (raw_signals t shared)) else (as_isize EFAULT, None).

(** [take_current_signal_interrupted] *)
Definition take_signal_interrupted (t : thread) : bool * thread := (signal_interrupted t, with_interrupted false t).

(** ** Sets as bits *)

Lemma bit_of_shift i j : Z.testbit (Z.shiftl 1 (Z.of_nat i)) (Z.of_nat j) = bool_decide (i = j).
Proof.
  rewrite Z.shiftl_1_l, Z.pow2_bits_eqb by lia. destruct (Z.eqb_spec (Z.of_nat i) (Z.of_nat j)) as [Heq|Hne].
  - rewrite bool_decide_true; [done|lia].
  - rewrite bool_decide_false; [done|]. by intros ->.
Qed.

Lemma contains_bit a i : contains a (Z.shiftl 1 (Z.of_nat i)) = Z.testbit a (Z.of_nat i).
Proof.
  unfold contains. rewrite Z.shiftl_1_l. assert (Z.land a (2 ^ Z.of_nat i) = if Z.testbit a (Z.of_nat i) then 2 ^ Z.of_nat i else 0) as ->.
  { apply Z.bits_inj'. intros n Hn. rewrite Z.land_spec, Z.pow2_bits_eqb by lia.
    destruct (Z.eqb_spec (Z.of_nat i) n) as [<-|Hne].
    - destruct (Z.testbit a (Z.of_nat i)); [by rewrite Z.pow2_bits_true by lia|by rewrite Z.bits_0].
    - rewrite andb_false_r. destruct (Z.testbit a (Z.of_nat i)); [by rewrite Z.pow2_bits_false|by rewrite Z.bits_0]. }
  assert (0 < 2 ^ Z.of_nat i) by (apply Z.pow_pos_nonneg; lia). destruct (Z.testbit a _); [apply Z.eqb_refl|]. apply Z.eqb_neq. lia.
Qed.

Lemma number_loop_bit fuel i j :
  (i < 64)%nat → (j ≤ i < j + fuel)%nat → number_loop fuel (Z.shiftl 1 (Z.of_nat i)) j = Some (Some (S i)).
Proof.
  revert j. induction fuel as [|fuel IH]; intros j Hi Hj; [lia|]. cbn [number_loop].
  rewrite (proj2 (Nat.ltb_lt _ _)) by lia. rewrite contains_bit, bit_of_shift. case_bool_decide as Hd; [by subst|].
  apply IH; lia.
Qed.

(** A single signal has its number. *)
Lemma number_bit i : (i < 64)%nat → number (Z.shiftl 1 (Z.of_nat i)) = Some (Some (S i)).
Proof. intros Hi. apply number_loop_bit; [done|]. unfold MAX_SIG. lia. Qed.

Lemma lowest_bit_spec z :
  is_set z → z ≠ 0 →
  (trailing_zeros z < 64)%nat ∧ Z.testbit z (Z.of_nat (trailing_zeros z)) = true ∧
  ∀ j, (j < trailing_zeros z)%nat → Z.testbit z (Z.of_nat j) = false.
Proof.
  intros Hz Hnz. unfold trailing_zeros. destruct (list_find _ _) as [[k i]|] eqn:Hf.
  - apply list_find_Some in Hf as (Hk & Hi & Hlt). apply lookup_seq in Hk as [-> Hk]. rewrite Nat.add_0_l in *.
    split_and!; [done|done|]. intros j Hj. apply not_true_is_false. apply (Hlt j j); [|done].
    apply lookup_seq. lia.
  - apply list_find_None in Hf. destruct Hnz. apply Z.bits_inj'. intros n Hn. rewrite Z.bits_0.
    destruct (decide (n < 64)) as [Hlt|Hge].
    + rewrite Forall_forall in Hf. specialize (Hf (Z.to_nat n)). rewrite Z2Nat.id in Hf by lia.
      apply not_true_is_false, Hf, elem_of_seq. lia.
    + rewrite <-(Z.mod_small z (2 ^ 64)) by done. by rewrite Z.mod_pow2_bits_high by lia.
Qed.

Lemma is_set_lor a b : is_set a → is_set b → is_set (Z.lor a b).
Proof.
  unfold is_set. intros Ha Hb. split; [apply Z.lor_nonneg; lia|].
  destruct (decide (Z.lor a b = 0)) as [->|Hne]; [lia|]. assert (0 ≤ Z.lor a b) by (apply Z.lor_nonneg; lia).
  apply Z.log2_lt_pow2; [lia|]. rewrite Z.log2_lor by lia. apply Z.max_lub_lt.
  - destruct (decide (a = 0)) as [->|]; [by simpl|]. apply Z.log2_lt_pow2; lia.
  - destruct (decide (b = 0)) as [->|]; [by simpl|]. apply Z.log2_lt_pow2; lia.
Qed.

Lemma is_set_ldiff a b : is_set a → is_set (Z.ldiff a b).
Proof.
  unfold is_set. intros Ha. assert (0 ≤ Z.ldiff a b) by (apply Z.ldiff_nonneg; lia). split; [done|].
  assert (Z.ldiff a b ≤ a); [|lia]. apply Z.ldiff_le; [lia|]. apply Z.bits_inj'. intros n Hn.
  rewrite !Z.ldiff_spec, Z.bits_0. destruct (Z.testbit a n), (Z.testbit b n); done.
Qed.

Lemma is_set_bit i : (i < 64)%nat → is_set (Z.shiftl 1 (Z.of_nat i)).
Proof.
  intros Hi. unfold is_set. rewrite Z.shiftl_1_l. split; [apply Z.pow_nonneg; lia|].
  apply Z.pow_lt_mono_r; lia.
Qed.

(** The queue names the signals of the mask. *)
Definition pending_inv (p : Sigpending) : Prop :=
  is_set (signals p) ∧ ∀ n, n ∈ pqueue p ↔ ∃ i, n = S i ∧ Z.testbit (signals p) (Z.of_nat i) = true.

Lemma pending_inv_new : pending_inv Sigpending_new.
Proof. split; [done|]. intros n. split; [by intros ?%not_elem_of_nil|]. intros (i & _ & Hi). simpl in Hi. by rewrite Z.bits_0 in Hi. Qed.

Lemma pending_insert_spec p i :
  (i < 64)%nat → pending_inv p →
  ∃ p', Sigpending_insert p (Z.shiftl 1 (Z.of_nat i)) = Some p' ∧ pending_inv p' ∧
    signals p' = Z.lor (signals p) (Z.shiftl 1 (Z.of_nat i)).
Proof.
  intros Hi [Hs Hq]. unfold Sigpending_insert. rewrite number_bit by done. simpl. eexists. split_and!; [done| |done].
  split; [by apply is_set_lor, is_set_bit|]. intros n. unfold vec_push, insert. simpl. rewrite elem_of_app, Hq, list_elem_of_singleton.
  split.
  - intros [(j & -> & Hj)| ->]; [exists j; by rewrite Z.lor_spec, Hj|]. exists i.
    rewrite Z.lor_spec, bit_of_shift, bool_decide_true, orb_true_r by done. done.
  - intros (j & -> & Hj). rewrite Z.lor_spec, bit_of_shift in Hj. case_bool_decide as Hd; [right; by subst|].
    left. exists j. by rewrite orb_false_r in Hj.
Qed.

Lemma pending_remove_spec p i :
  (i < 64)%nat → pending_inv p →
  ∃ p', Sigpending_remove p (Z.shiftl 1 (Z.of_nat i)) = Some p' ∧ pending_inv p' ∧
    signals p' = Z.ldiff (signals p) (Z.shiftl 1 (Z.of_nat i)).
Proof.
  intros Hi [Hs Hq]. unfold Sigpending_remove. rewrite number_bit by done. simpl. eexists. split_and!; [done| |done].
  split; [by apply is_set_ldiff|]. intros n. unfold remove. simpl. rewrite list_elem_of_filter, Hq. split.
  - intros (Hne & j & -> & Hj). exists j. rewrite Z.ldiff_spec, bit_of_shift, bool_decide_false by congruence. by rewrite Hj.
  - intros (j & -> & Hj). rewrite Z.ldiff_spec, bit_of_shift in Hj. case_bool_decide as Hd; [by rewrite andb_false_r in Hj|].
    rewrite andb_true_r in Hj. split; [congruence|by exists j].
Qed.

(** ** Delivery *)

(** The backups a handler's return needs. *)
Definition backups (t : thread) : list Z * list TrapContext * list Z :=
  (signal_mask_backup t, trap_ctx_backup t, signal_user_context_backup t).

Definition saved_mask_of (t : thread) : Z := default (blocked t) (sigsuspend_saved_mask t).

(** What [call_signal_handler] leaves behind: a frame that returns to where the
    thread was, a mask that is back already, or a thread that is about to exit. *)
Inductive called (t : thread) (t' : thread) (um um' : umem) : Prop :=
  | called_frame ptr :
      backups t' = (vec_push (signal_mask_backup t) (saved_mask_of t), vec_push (trap_ctx_backup t) (trap_cx t),
                    vec_push (signal_user_context_backup t) ptr) →
      um' ptr = Some (from_trap_ctx (trap_cx t) (saved_mask_of t)
                        (status_for_sp (signal_alt_stack t) (get_x 2 (trap_cx t)))) →
      term_signal t' = term_signal t → called t t' um um'
  | called_kernel : backups t' = backups t → blocked t' = saved_mask_of t → um' = um → called t t' um um'
  | called_exit : is_Some (term_signal t') → um' = um → called t t' um um'.

Lemma push_signal_frame_spec t um wr m alt :
  match push_signal_frame t um wr m alt with
  | None => True
  | Some (info, ptr, t', um') =>
    pending t' = pending t ∧ term_signal t' = term_signal t ∧ sigsuspend_saved_mask t' = sigsuspend_saved_mask t ∧
    backups t' = (signal_mask_backup t, trap_ctx_backup t, vec_push (signal_user_context_backup t) ptr) ∧
    um' ptr = Some (from_trap_ctx (trap_cx t) m (status_for_sp (signal_alt_stack t) (get_x 2 (trap_cx t)))) ∧
    (∀ a, a ≠ ptr → um' a = um a) ∧ trap_cx t' = trap_cx t ∧ blocked t' = blocked t
  end.
Proof.
  unfold push_signal_frame. set (sw := _ && negb _). destruct (if sw then _ else _) as [u|]; [|done]. simpl.
  destruct (checked_sub u FRAME_SIZE) as [b|]; [|done]. simpl. destruct (wr _ _); simpl; [|done].
  destruct (sw && _); split_and!; try done; try (by rewrite decide_True); intros a Ha; by rewrite decide_False.
Qed.

Lemma call_signal_handler_spec t acts um wr rt sig signal :
  (sig < length acts)%nat →
  ∃ t' um', call_signal_handler t acts um wr rt sig signal = Some (t', um') ∧
    pending t' = pending t ∧ sigsuspend_saved_mask t' = None ∧ called t t' um um'.
Proof.
  intros Hs. unfold call_signal_handler. destruct (lookup_lt_is_Some_2 _ _ Hs) as [a ->]. simpl.
  assert (match sigsuspend_saved_mask t with Some m => (m, true) | None => (blocked t, false) end =
    (saved_mask_of t, bool_decide (is_Some (sigsuspend_saved_mask t)))) as ->.
  { unfold saved_mask_of. by destruct (sigsuspend_saved_mask t). }
  assert (bool_decide (is_Some (sigsuspend_saved_mask t)) = false → blocked t = saved_mask_of t) as Hno.
  { unfold saved_mask_of. by destruct (sigsuspend_saved_mask t). }
  destruct (handler a =? SIG_IGN).
  { do 2 eexists. split; [done|]. destruct (bool_decide _); split_and!; try done; (apply called_kernel; [done|auto|done]). }
  destruct (negb (handler a =? SIG_DFL)).
  - match goal with |- context [push_signal_frame ?u _ _ _ _] => set (t1 := u) end.
    assert (pending t1 = pending t ∧ sigsuspend_saved_mask t1 = None ∧ term_signal t1 = term_signal t ∧
      trap_cx t1 = trap_cx t ∧ signal_alt_stack t1 = signal_alt_stack t ∧
      backups t1 = (vec_push (signal_mask_backup t) (saved_mask_of t), vec_push (trap_ctx_backup t) (trap_cx t),
        signal_user_context_backup t)) as (Hp & Hsv & Htm & Htc & Has & Hb).
    { unfold t1. by destruct (Z.land (flags a) SA_NODEFER =? 0). }
    clearbody t1.
    pose proof (push_signal_frame_spec t1 um wr (saved_mask_of t) (negb (Z.land (flags a) SA_ONSTACK =? 0))) as Hf.
    destruct (push_signal_frame t1 um wr _ _) as [[[[info ptr] t2] um2]|].
    + destruct Hf as (Hp2 & Htm2 & Hsv2 & Hb2 & Hu & _ & Htc2 & _). do 2 eexists. split; [done|]. simpl.
      split_and!; [congruence|congruence|]. apply (called_frame _ _ _ _ ptr); simpl; [|by rewrite Hu, Htc, Has|congruence].
      change (backups (with_trap ?c t2)) with (backups t2). unfold backups in Hb. injection Hb as Hb1 Hb1' Hb1''. by rewrite Hb2, Hb1, Hb1', Hb1''.
    + do 2 eexists. split; [done|]. simpl. split_and!; [done|done|]. by apply called_exit.
  - do 2 eexists. split; [done|]. split_and!; [repeat case_match; done..|].
    destruct (default_ignored signal || (signal =? SIGSTOP) || (signal =? SIGCONT)) eqn:Hk.
    + apply called_kernel; [repeat case_match; done| |done]. destruct (bool_decide _) eqn:Hr; [repeat case_match; done|].
      rewrite <-Hno by done. repeat case_match; done.
    + apply orb_false_iff in Hk as [[-> ->]%orb_false_iff ->]. apply called_exit; [|done]. by destruct (bool_decide _).
Qed.

(** The lengths of the backups agree, unless the thread is about to exit. *)
Definition backups_ok (t : thread) : Prop :=
  (length (trap_ctx_backup t) = length (signal_mask_backup t) ∧
   length (trap_ctx_backup t) = length (signal_user_context_backup t)) ∨ is_Some (term_signal t).

Lemma called_backups_ok t t' um um' : called t t' um um' → term_signal t = None → backups_ok t → backups_ok t'.
Proof.
  intros [ptr Hb _ Htm|Hb _ _|Htm _] Hn [[H1 H2]|Hd]; try (rewrite Hn in Hd; by destruct Hd); [left|left|by right].
  - unfold backups in Hb. injection Hb as -> -> ->. unfold vec_push. rewrite !length_app. simpl. lia.
  - unfold backups in Hb. injection Hb as -> -> ->. done.
Qed.

Lemma restore_in_sync t um :
  length (trap_ctx_backup t) = length (signal_mask_backup t) ∧
  length (trap_ctx_backup t) = length (signal_user_context_backup t) →
  let t' := (restore_signal_context t um).2 in
  length (trap_ctx_backup t') = length (signal_mask_backup t') ∧
  length (trap_ctx_backup t') = length (signal_user_context_backup t').
Proof.
  intros [H1 H2]. unfold restore_signal_context.
  destruct (vec_pop (signal_user_context_backup t)) as [[ptr us]|] eqn:Hu; [|done].
  apply vec_pop_Some in Hu. simpl. rewrite Hu, length_app in H2. simpl in H2.
  destruct (vec_pop (signal_mask_backup t)) as [[m ms]|] eqn:Hm; [|apply vec_pop_None in Hm; rewrite Hm in H1; simpl in *; lia].
  apply vec_pop_Some in Hm. simpl. rewrite Hm, length_app in H1. simpl in H1.
  destruct (vec_pop (trap_ctx_backup t)) as [[c cs]|] eqn:Hcx; [|apply vec_pop_None in Hcx; rewrite Hcx in H1; simpl in *; lia].
  apply vec_pop_Some in Hcx. simpl. rewrite Hcx, length_app in H1, H2. simpl in H1, H2.
  destruct (um ptr); simpl; lia.
Qed.

(** The return from a frame that is still as it was written. *)
Lemma sigreturn_spec t0 t um c m alt ptr ms cs us :
  backups t = (vec_push ms t0, vec_push cs c, vec_push us ptr) →
  length cs = length ms → length cs = length us →
  um ptr = Some (from_trap_ctx c m alt) → length (tc_x c) = 32%nat → get_x 0 c = 0 → is_set m →
  ∃ t', sys_sigreturn t um = Some (get_x 10 c, t') ∧
    trap_cx t' = c ∧ blocked t' = m ∧ signal_alt_stack t' = alt ∧ backups t' = (ms, cs, us) ∧ pending t' = pending t.
Proof.
  intros Hb Hl1 Hl2 Hu Hx H0 Hm. unfold backups in Hb. injection Hb as Hms Hcs Hus. unfold sys_sigreturn.
  rewrite !decide_False; [|rewrite Hcs, Hus; unfold vec_push; rewrite !length_app; simpl; lia
    |rewrite Hcs, Hms; unfold vec_push; rewrite !length_app; simpl; lia].
  unfold restore_signal_context. rewrite Hus, vec_pop_push. simpl. rewrite Hms, vec_pop_push. simpl. rewrite Hcs, vec_pop_push. simpl.
  rewrite Hu. assert (apply_to_trap_ctx (from_trap_ctx c m alt) c = c) as ->.
  { unfold apply_to_trap_ctx, from_trap_ctx, set_rt, get_x in *. simpl.
    rewrite list_lookup_insert_eq by lia. rewrite list_insert_insert_eq. rewrite list_insert_id; [by destruct c|].
    destruct (tc_x c !! 0%nat) as [v|] eqn:Hv; [by simpl in H0; subst|]. apply lookup_ge_None in Hv. lia. }
  eexists. split; [done|]. simpl. split_and!; [done| |done|done|done]. by rewrite Z.mod_small.
Qed.

(** What [handle_signals] does with the lowest deliverable signal. *)
Lemma handle_signals_spec t shared acts um wr rt :
  pending_inv (pending t) → pending_inv shared → length acts = MAX_SIG →
  let P := get_pending_signals t shared in
  let t1 := with_blocked (remove (blocked t) unmaskable) t in
  ∃ t' sh' um', handle_signals t shared acts um wr rt = Some (t', sh', um') ∧
    pending_inv (pending t') ∧ pending_inv sh' ∧ sigsuspend_saved_mask t' = None ∧
    if decide (P = 0)
    then pending t' = pending t ∧ sh' = shared ∧ um' = um ∧ called t1 t' um um'
    else
      let sig := trailing_zeros P in
      let flag := Z.shiftl 1 (Z.of_nat sig) in
      (if Z.testbit (signals (pending t)) (Z.of_nat sig)
       then signals (pending t') = Z.ldiff (signals (pending t)) flag ∧ sh' = shared
       else signals sh' = Z.ldiff (signals shared) flag ∧ pending t' = pending t) ∧
      called t1 t' um um'.
Proof.
  intros Hp Hsh Hl P t1. unfold handle_signals. change (remove (raw_signals _ shared) _) with P. cbv zeta.
  assert (is_set P) as HP by (apply is_set_ldiff, is_set_lor; [apply Hp|apply Hsh]).
  case_decide as Hz.
  { rewrite Hz. simpl. do 3 eexists. split; [done|].
    destruct (sigsuspend_saved_mask t) as [m|] eqn:Hm; split_and!; try done; apply called_kernel; try done;
      unfold saved_mask_of; simpl; by rewrite Hm. }
  rewrite (proj2 (Z.eqb_neq _ _)) by done. cbn [negb]. set (sig := trailing_zeros P).
  destruct (lowest_bit_spec P HP Hz) as (Hlt & _ & _). fold sig in Hlt.
  rewrite contains_bit. change (pending (with_blocked ?b t)) with (pending t).
  destruct (Z.testbit (signals (pending t)) (Z.of_nat sig)).
  - destruct (pending_remove_spec _ sig Hlt Hp) as (p' & -> & Hp' & Hs'). cbn [mbind option_bind].
    destruct (call_signal_handler_spec (with_pending p' t1) acts um wr rt sig (Z.shiftl 1 (Z.of_nat sig)))
      as (t' & um' & Heq & Hpt & Hsv & Hc); [by rewrite Hl|]. fold t1. rewrite Heq. exists t', shared, um'. simpl.
    split_and!; [done|by rewrite Hpt|done|done|by rewrite Hpt|done|].
    by destruct Hc; [eapply called_frame|apply called_kernel|apply called_exit].
  - destruct (pending_remove_spec _ sig Hlt Hsh) as (p' & -> & Hp' & Hs'). cbn [mbind option_bind].
    destruct (call_signal_handler_spec t1 acts um wr rt sig (Z.shiftl 1 (Z.of_nat sig)))
      as (t' & um' & Heq & Hpt & Hsv & Hc); [by rewrite Hl|]. fold t1. rewrite Heq. exists t', p', um'. simpl.
    split_and!; [done|by rewrite Hpt|done|done|done|by rewrite Hpt|done].
Qed.

(** ** Which signal takes effect *)

Definition ignored (acts : list SignalAction) (i : nat) : Prop :=
  ∃ a, acts !! i = Some a ∧ (handler a = SIG_IGN ∨ handler a = SIG_DFL ∧ default_ignored (Z.shiftl 1 (Z.of_nat i)) = true).

Lemma first_effective_spec fuel acts bits k :
  length acts = MAX_SIG → is_set bits → (∀ j, (j < k)%nat → Z.testbit bits (Z.of_nat j) = false) →
  (k ≤ 64 < k + fuel)%nat →
  ∃ r, first_effective fuel acts bits = Some r ∧
    match r with
    | Some (i, a) => acts !! i = Some a ∧ Z.testbit bits (Z.of_nat i) = true ∧ ¬ ignored acts i ∧
        ∀ j, (j < i)%nat → Z.testbit bits (Z.of_nat j) = true → ignored acts j
    | None => ∀ j, Z.testbit bits (Z.of_nat j) = true → ignored acts j
    end.
Proof.
  intros Hl. revert bits k. induction fuel as [|fuel IH]; intros bits k Hb Hlow Hk; [lia|]. cbn [first_effective].
  destruct (Z.eqb_spec bits 0) as [->|Hz].
  { exists None. split; [done|]. intros j. by rewrite Z.bits_0. }
  destruct (lowest_bit_spec bits Hb Hz) as (Hlt & Hbit & Hbelow). set (i := trailing_zeros bits) in *.
  destruct (lookup_lt_is_Some_2 acts i) as [a Ha]; [by rewrite Hl|]. rewrite Ha. cbn [mbind option_bind].
  set (rest := Z.ldiff bits (Z.shiftl 1 (Z.of_nat i))).
  assert (∀ j, Z.testbit rest (Z.of_nat j) = Z.testbit bits (Z.of_nat j) && negb (bool_decide (i = j))) as Hrest.
  { intros j. unfold rest. by rewrite Z.ldiff_spec, bit_of_shift. }
  assert (ignored acts i → ∃ r, first_effective fuel acts rest = Some r ∧
    match r with
    | Some (i, a) => acts !! i = Some a ∧ Z.testbit bits (Z.of_nat i) = true ∧ ¬ ignored acts i ∧
        ∀ j, (j < i)%nat → Z.testbit bits (Z.of_nat j) = true → ignored acts j
    | None => ∀ j, Z.testbit bits (Z.of_nat j) = true → ignored acts j
    end) as Hnext.
  { intros Hig. destruct (IH rest (S i)) as (r & -> & Hr); [by apply is_set_ldiff| | |].
    - intros j Hj. rewrite Hrest. case_bool_decide; [apply andb_false_r|]. by rewrite Hbelow by lia.
    - assert (k ≤ i)%nat; [|lia]. apply Nat.nlt_ge. intros Hki. specialize (Hlow i Hki). congruence.
    - exists r. split; [done|]. destruct r as [[i' a']|].
      + destruct Hr as (? & Hi' & ? & Hj). rewrite Hrest in Hi'. apply andb_true_iff in Hi' as [? _]. split_and!; [done..|].
        intros j Hji Hjb. destruct (decide (i = j)) as [<-|Hne]; [done|]. apply Hj; [done|].
        by rewrite Hrest, Hjb, bool_decide_false.
      + intros j Hjb. destruct (decide (i = j)) as [<-|Hne]; [done|]. apply Hr. by rewrite Hrest, Hjb, bool_decide_false. }
  destruct (Z.eqb_spec (handler a) SIG_IGN) as [Hi|Hi]; [apply Hnext; exists a; auto|].
  destruct ((handler a =? SIG_DFL) && default_ignored _) eqn:Hd.
  { apply Hnext. apply andb_true_iff in Hd as [Hd%Z.eqb_eq ?]. exists a. auto. }
  exists (Some (i, a)). split; [done|]. split_and!; [done|done| |].
  - intros (a' & Ha' & [?|[Hdf Hdi]]); assert (a' = a) as -> by congruence; [done|].
    rewrite Hdf, Hdi in Hd. done.
  - intros j Hj Hjb. rewrite Hbelow in Hjb; [done|lia].
Qed.

(** ** Properties *)

Module SignalProps.

(** A blocking call is interrupted exactly when a signal that takes effect is
    pending: one that the mask lets through and whose action is not to ignore it. *)
Theorem check_pending_exact t shared acts :
  pending_inv (pending t) → pending_inv shared → length acts = MAX_SIG →
  ∃ b, check_pending_signal t shared acts = Some b ∧
    (b = true ↔ ∃ i, Z.testbit (get_pending_signals t shared) (Z.of_nat i) = true ∧ ¬ ignored acts i).
Proof.
  intros Hp Hsh Hl. assert (is_set (get_pending_signals t shared)) as HP.
  { apply is_set_ldiff, is_set_lor; [apply Hp|apply Hsh]. }
  destruct (first_effective_spec (S MAX_SIG) acts _ 0 Hl HP) as (r & Heq & Hr); [lia|unfold MAX_SIG; lia|].
  unfold check_pending_signal, effective. rewrite Heq. eexists. split; [done|]. destruct r as [[i a]|].
  - split; [|done]. intros _. exists i. destruct Hr as (_ & ? & ? & _). by split.
  - split; [done|]. intros (i & Hi & Hn). by destruct (Hn (Hr i Hi)).
Qed.

(** On the way to user mode exactly one signal is consumed, the lowest one that is
    pending and not blocked, from the thread's own set before the shared one; if
    there is none both sets stay.  [SIGKILL] and [SIGSTOP] are deliverable whatever
    the mask says. *)
Theorem handle_signals_lowest t shared acts um wr rt :
  pending_inv (pending t) → pending_inv shared → length acts = MAX_SIG →
  ∃ t' sh' um', handle_signals t shared acts um wr rt = Some (t', sh', um') ∧
    pending_inv (pending t') ∧ pending_inv sh' ∧
    (∀ i, (i = 8 ∨ i = 18) → Z.testbit (raw_signals t shared) i = true →
       Z.testbit (get_pending_signals t shared) i = true) ∧
    ((get_pending_signals t shared = 0 ∧ pending t' = pending t ∧ sh' = shared) ∨
     ∃ sig, (sig < 64)%nat ∧ Z.testbit (get_pending_signals t shared) (Z.of_nat sig) = true ∧
       (∀ j, (j < sig)%nat → Z.testbit (get_pending_signals t shared) (Z.of_nat j) = false) ∧
       if Z.testbit (signals (pending t)) (Z.of_nat sig)
       then signals (pending t') = Z.ldiff (signals (pending t)) (Z.shiftl 1 (Z.of_nat sig)) ∧ sh' = shared
       else signals sh' = Z.ldiff (signals shared) (Z.shiftl 1 (Z.of_nat sig)) ∧ pending t' = pending t).
Proof.
  intros Hp Hsh Hl. destruct (handle_signals_spec t shared acts um wr rt Hp Hsh Hl) as (t' & sh' & um' & Heq & H1 & H2 & _ & Hc).
  exists t', sh', um'. split_and!; [done..| |].
  - intros i Hi Hr. unfold get_pending_signals. rewrite !Z.ldiff_spec, Hr. by destruct Hi as [-> | ->]; rewrite andb_false_r.
  - case_decide as Hz; [left; naive_solver|right]. assert (is_set (get_pending_signals t shared)) as HP.
    { apply is_set_ldiff, is_set_lor; [apply Hp|apply Hsh]. }
    destruct (lowest_bit_spec _ HP Hz) as (Hlt & Hb & Hlow). eexists. split_and!; [done..|]. apply Hc.
Qed.


(** The assertions of [sigreturn] hold: along any deliveries and returns the three
    stacks of saved contexts have the same height, except in a thread that is about
    to exit because its frame could not be written. *)
Theorem sigreturn_assertions t shared acts um wr rt :
  pending_inv (pending t) → pending_inv shared → length acts = MAX_SIG → term_signal t = None → backups_ok t →
  (∃ t' sh' um', handle_signals t shared acts um wr rt = Some (t', sh', um') ∧ backups_ok t') ∧
  ∃ r t', sys_sigreturn t um = Some (r, t') ∧ backups_ok t'.
Proof.
  intros Hp Hsh Hl Hn Hok. split.
  - destruct (handle_signals_spec t shared acts um wr rt Hp Hsh Hl) as (t' & sh' & um' & Heq & _ & _ & _ & Hc).
    exists t', sh', um'. split; [done|].
    assert (called (with_blocked (remove (blocked t) unmaskable) t) t' um um') as Hcall.
    { case_decide; [apply Hc|apply Hc]. }
    by apply (called_backups_ok _ _ _ _ Hcall).
  - destruct Hok as [[H1 H2]|[? Hd]]; [|congruence]. unfold sys_sigreturn. rewrite !decide_False by (by intros ?).
    destruct (restore_in_sync t um (conj H1 H2)) as [H1' H2'].
    destruct (restore_signal_context t um) as [[v|] t']; do 2 eexists; (split; [done|by left]).
Qed.

(** [sigprocmask] is the set operation it is asked for, on signals other than
    [SIGKILL] and [SIGSTOP], which it never blocks; a call that fails changes
    nothing. *)
Theorem sigprocmask_sets t how v old :
  let '(r, t') := sys_sigprocmask t how (Some v) old in
  (r < 0 → t' = t) ∧ (r = 0 → ∃ s, v = Some s ∧ ∀ i, 0 ≤ i < 64 →
    Z.testbit (blocked t') i =
      let b := Z.testbit (blocked t) i in
      let n := Z.testbit s i && negb (bool_decide (i = 8 ∨ i = 18)) in
      if how =? SIG_BLOCK then b || n else if how =? SIG_UNBLOCK then b && negb n else n).
Proof.
  unfold sys_sigprocmask. destruct v as [s|]; [|by split]. case_bool_decide; [by split|].
  assert (∀ i, 0 ≤ i < 64 → Z.testbit (remove (s mod 2 ^ 64) unmaskable) i =
    Z.testbit s i && negb (bool_decide (i = 8 ∨ i = 18))) as Hbit.
  { intros i Hi. unfold remove. rewrite Z.ldiff_spec, Z.mod_pow2_bits_low by lia. f_equal. f_equal.
    change unmaskable with (Z.lor (2 ^ 8) (2 ^ 18)). rewrite Z.lor_spec, !Z.pow2_bits_eqb by lia.
    case_bool_decide as Hd; [destruct Hd as [-> | ->]; done|]. apply orb_false_iff. split; apply Z.eqb_neq; lia. }
  destruct (how =? SIG_BLOCK).
  { split; [done|]. intros _. exists s. split; [done|]. intros i Hi. simpl. unfold insert. by rewrite Z.lor_spec, Hbit. }
  destruct (how =? SIG_UNBLOCK).
  { split; [done|]. intros _. exists s. split; [done|]. intros i Hi. simpl. unfold remove at 1. by rewrite Z.ldiff_spec, Hbit. }
  destruct (how =? SIG_SETMASK); [|by split].
  split; [done|]. intros _. exists s. split; [done|]. intros i Hi. by apply Hbit.
Qed.

(** [sigsuspend] is undone: once it has been interrupted and the signal handled,
    the mask is the original one at once, or when the handler returns through its
    frame, unless the thread is about to exit. *)
Theorem sigsuspend_restores_mask t v t1 orig shared acts um wr rt r t2 :
  sigsuspend_enter t (Some (Some v)) 8 = inr (orig, t1) → sigsuspend_turn t1 shared orig = Some (r, t2) →
  pending_inv (pending t) → pending_inv shared → length acts = MAX_SIG → term_signal t = None → backups_ok t →
  is_set (blocked t) → length (tc_x (trap_cx t)) = 32%nat → get_x 0 (trap_cx t) = 0 →
  r = as_isize EINTR ∧
  ∃ t3 sh3 um3, handle_signals t2 shared acts um wr rt = Some (t3, sh3, um3) ∧ sigsuspend_saved_mask t3 = None ∧
    (blocked t3 = blocked t ∨ is_Some (term_signal t3) ∨
     ∀ t4, backups t4 = backups t3 → ∃ ret t5, sys_sigreturn t4 um3 = Some (ret, t5) ∧ blocked t5 = blocked t).
Proof.
  intros He Ht Hp Hsh Hl Hn Hok Hb Hx H0. unfold sigsuspend_enter in He. simpl in He. injection He as <- <-.
  unfold sigsuspend_turn in Ht. destruct (_ =? 0); [done|]. injection Ht as <- <-. split; [done|].
  set (t2 := with_saved _ _).
  destruct (handle_signals_spec t2 shared acts um wr rt Hp Hsh Hl) as (t3 & sh3 & um3 & Heq & _ & _ & Hsv & Hc).
  exists t3, sh3, um3. split_and!; [done..|].
  assert (called (with_blocked (remove (blocked t2) unmaskable) t2) t3 um um3) as Hcall by (case_decide; apply Hc).
  destruct Hcall as [ptr Hbk Hu Htm|_ Hbl _|Htm _]; [|by left|right; by left]. right. right. intros t4 Hb4.
  destruct Hok as [[Hl1 Hl2]|[? Hd]]; [|congruence]. rewrite Hbk in Hb4.
  destruct (sigreturn_spec _ t4 um3 _ _ _ ptr _ _ _ Hb4 Hl1 Hl2 Hu Hx H0 Hb) as (t5 & Hr & _ & Hbl & _).
  by exists (get_x 10 (trap_cx t)), t5.
Qed.

(** ** Witnesses *)

Definition demo_trap : TrapContext := MkTrap (0 :: replicate 31 4096) 0 65536 0 0 0 0.

(** A thread with signals 2 and 9 pending, 2 blocked. *)
Definition demo_thread : thread :=
  MkThread (MkPending [2; 9]%nat (2 + SIGKILL) false) (2 + SIGKILL) None [] [] [] (MkStack 8192 SS_AUTODISARM 8192)
    false None false demo_trap.

Definition demo_acts : list SignalAction := replicate MAX_SIG (MkAction 77 0 0).

Lemma demo_pending : pending_inv (pending demo_thread).
Proof.
  destruct (pending_insert_spec Sigpending_new 1 ltac:(lia) pending_inv_new) as (p1 & H1 & Hi1 & _).
  destruct (pending_insert_spec p1 8 ltac:(lia) Hi1) as (p2 & H2 & Hi2 & _).
  assert (pending demo_thread = p2) as -> by (vm_compute in H1; injection H1 as <-; vm_compute in H2; by injection H2 as <-). done.
Qed.

Lemma check_pending_exact_witness : check_pending_signal demo_thread Sigpending_new demo_acts = Some true.
Proof.
  destruct (check_pending_exact demo_thread Sigpending_new demo_acts demo_pending pending_inv_new ltac:(reflexivity))
    as (b & Heq & Hb).
  rewrite Heq. f_equal. apply Hb. exists 8%nat. split; [reflexivity|].
  intros (a & Ha & [Hh|[Hh _]]); vm_compute in Ha; injection Ha as <-; discriminate.
Defined.

(** Signal 2 is blocked, signal 9 cannot be. *)
Lemma handle_signals_lowest_witness :
  ∃ t' sh' um', handle_signals demo_thread Sigpending_new demo_acts (λ _, None) (λ _ _, true) 0 = Some (t', sh', um') ∧
    pending_inv (pending t').
Proof.
  destruct (handle_signals_lowest demo_thread Sigpending_new demo_acts (λ _, None) (λ _ _, true) 0
    demo_pending pending_inv_new ltac:(reflexivity)) as (t' & sh' & um' & Heq & Hp & _).
  exists t', sh', um'. split; [exact Heq|exact Hp].
Defined.


Lemma sigreturn_assertions_witness : ∃ r t', sys_sigreturn demo_thread (λ _, None) = Some (r, t') ∧ backups_ok t'.
Proof.
  apply (sigreturn_assertions demo_thread Sigpending_new demo_acts (λ _, None) (λ _ _, true) 0
    demo_pending pending_inv_new ltac:(reflexivity) ltac:(reflexivity) ltac:(left; split; reflexivity)).
Defined.

Lemma sigsuspend_restores_mask_witness :
  ∃ t3 sh3 um3, handle_signals (with_saved (Some (2 + SIGKILL)) (with_blocked 0 demo_thread)) Sigpending_new demo_acts
    (λ _, None) (λ _ _, true) 0 = Some (t3, sh3, um3) ∧ sigsuspend_saved_mask t3 = None.
Proof.
  destruct (sigsuspend_restores_mask demo_thread 0 (with_blocked 0 demo_thread) (2 + SIGKILL) Sigpending_new demo_acts
    (λ _, None) (λ _ _, true) 0 (-4) (with_saved (Some (2 + SIGKILL)) (with_blocked 0 demo_thread)))
    as (_ & t3 & sh3 & um3 & Heq & Hs & _).
  - reflexivity.
  - reflexivity.
  - apply demo_pending.
  - apply pending_inv_new.
  - reflexivity.
  - reflexivity.
  - left. split; reflexivity.
  - vm_compute. split; congruence.
  - reflexivity.
  - reflexivity.
  - exists t3, sh3, um3. split; [exact Heq|exact Hs].
Defined.

(** The number of the empty set overflows its shift. *)
Example number_of_empty_set : number 0 = None.
Proof. reflexivity. Qed.
End SignalProps.
