(* ===== verification/Kill.v ===== *)
(** * The task registry and sending signals

    [TID2TCB] (process/registry.rs), and [sys_kill], [sys_tkill] and [sys_tgkill]
    (syscall/process.rs).  The pending set and the actions of a process are shared by
    its threads: a task holds references to them. *)

From S2P Require Import Prelude Errno Task Signal.

Open Scope Z_scope.

(** ** State *)

(** The fields of a task that the calls use; [k_signal] and [k_hand] are the [Arc]s
    to its [Signal] and [SigHand]. *)
Record ktask := MkKtask {
  k_tgid : nat;
  k_pgid : Z;
  k_signal : nat;
  k_hand : nat;
  k_state : TaskStatus;
  k_thread : thread;
}.

Definition with_thread (f : thread → thread) (t : ktask) : ktask :=
  MkKtask (k_tgid t) (k_pgid t) (k_signal t) (k_hand t) (k_state t) (f (k_thread t)).

(** [TID2TCB], in the order of the thread ids, and the shared objects. *)
Record kstate := MkKstate {
  registry : list (nat * ktask);
  shared_pending : list Sigpending;
  hands : list (list SignalAction);
}.

Implicit Types (k : kstate) (tid tgid : nat).

(** ** The registry *)

Definition tid2task k tid : option ktask := snd <$> (snd <$> list_find (λ p, p.1 = tid) (registry k)).

(** Insertion into the ordered map. *)
Fixpoint reg_insert tid (t : ktask) (l : list (nat * ktask)) : list (nat * ktask) :=
  match l with
  | [] => [(tid, t)]
  | (i, u) :: l => if (tid <? i)%nat then (tid, t) :: (i, u) :: l
                   else if (tid =? i)%nat then (tid, t) :: l else (i, u) :: reg_insert tid t l
  end.

Definition add_process k tid (t : ktask) : kstate :=
  MkKstate (reg_insert tid t (registry k)) (shared_pending k) (hands k).

Definition remove_from_tid2task k tid : kstate :=
  MkKstate (filter (λ p, p.1 ≠ tid) (registry k)) (shared_pending k) (hands k).

(** [get_process]: the thread with the process's id if it is its leader, or the first
    thread of the group. *)
Definition get_process k (pid : nat) : option (nat * ktask) :=
  match list_find (λ p, p.1 = pid ∧ k_tgid p.2 = pid) (registry k) with
  | Some (_, p) => Some p
  | None => snd <$> list_find (λ p, k_tgid p.2 = pid) (registry k)
  end.

(** The threads of a group, in the order of their ids. *)
Definition group k tgid : list nat := (filter (λ p, k_tgid p.2 = tgid) (registry k)).*1.

(** The table part of [remove_process]. *)
Definition remove_process k (pid : nat) : kstate := foldl remove_from_tid2task k (group k pid).

(** [list_pids]: sorted, without duplicates. *)
Definition list_pids k : list nat :=
  remove_dups (merge_sort le ((λ p, k_tgid p.2) <$> registry k)).

(** Writes under a task's lock and under the lock of a shared set. *)
Definition upd_thread tid (f : thread → thread) k : kstate :=
  MkKstate ((λ p, if decide (p.1 = tid) then (p.1, with_thread f p.2) else p) <$> registry k)
    (shared_pending k) (hands k).

Definition insert_pending (sref : nat) (flag : Z) k : option kstate :=
  p ← shared_pending k !! sref;
  p ← Sigpending_insert p flag;
  Some (MkKstate (registry k) (<[sref := p]> (shared_pending k)) (hands k)).

(** ** One thread *)

(** The signal of a number between 1 and 64. *)
Definition flag_of (signum : Z) : Z := Z.shiftl 1 (signum - 1).

Definition bad_signum (signum : Z) : bool := (signum <? 0) || (Z.of_nat MAX_SIG <? signum).

(** [sys_tkill]: the result, and the threads it wakes. *)
Definition sys_tkill k tid (signum : Z) : option (Z * kstate * list nat) :=
  if bad_signum signum then Some (as_isize EINVAL, k, [])
  else
    match tid2task k tid with
    | None => Some (as_isize ESRCH, k, [])
    | Some task =>
      if signum =? 0 then Some (0, k, [])
      else
        let flag := flag_of signum in
        let is_unmaskable := contains flag SIGKILL || contains flag SIGSTOP in
        p ← Sigpending_insert (pending (k_thread task)) flag;
        let reaches := negb (contains (blocked (k_thread task)) flag) || is_unmaskable in
        let f := λ t, if reaches && bool_decide (k_state task = Blocked)
                      then with_interrupted true (with_pending p t) else with_pending p t in
        Some (0, upd_thread tid f k, if reaches then [tid] else [])
    end.

Definition sys_tgkill k tgid tid (signum : Z) : option (Z * kstate * list nat) :=
  match tid2task k tid with
  | None => Some (as_isize ESRCH, k, [])
  | Some task => if decide (k_tgid task ≠ tgid) then Some (as_isize ESRCH, k, []) else sys_tkill k tid signum
  end.

(** ** Processes *)

Definition default_signal_terminates (signal : Z) : bool :=
  negb (default_ignored signal || (signal =? SIGSTOP) || (signal =? SIGCONT)).

(** [should_force_default_signal_exit], also the test of the loop over a group. *)
Definition should_force_default_signal_exit k (task : ktask) (signal : Z) : option bool :=
  if contains signal SIGKILL then Some true
  else
    n ← number signal;
    match n with
    | None => Some false
    | Some n =>
      acts ← hands k !! k_hand task;
      a ← acts !! pred n;
      Some ((handler a =? SIG_DFL) && default_signal_terminates signal)
    end.

(** Marking the collected threads. *)
Definition mark_threads (flag : Z) (l : list (nat * bool)) k : kstate :=
  foldl (λ k p, if p.2 : bool then upd_thread p.1 (with_term (Some (Z.of_nat (trailing_zeros flag) + 1))) k else k) k l.

(** A process-directed signal: into the shared set, and the threads to wake. *)
Definition send_process k (task : ktask) (flag : Z) : option (kstate * list (nat * bool)) :=
  force ← should_force_default_signal_exit k task flag;
  k ← insert_pending (k_signal task) flag k;
  Some (k, (λ t, (t, force)) <$> group k (k_tgid task)).

(** The loop over the process ids of a group. *)
Fixpoint send_group k (pids : list nat) (target_pgid : Z) (flag : Z) (matched : list (nat * bool))
    : option (kstate * list (nat * bool)) :=
  match pids with
  | [] => Some (k, matched)
  | i :: pids =>
    match get_process k i with
    | Some (_, task) =>
      if k_pgid task =? target_pgid then
        '(k, l) ← send_process k task flag;
        send_group k pids target_pgid flag (matched ++ l)
      else send_group k pids target_pgid flag matched
    | None => send_group k pids target_pgid flag matched
    end
  end.

(** The probe of a group: process 1 is included. *)
Definition probe_group k (target_pgid : Z) : bool :=
  existsb (λ i, match get_process k i with Some (_, t) => k_pgid t =? target_pgid | None => false end) (seq 1 4095).

(** [sys_kill] by a task of process group [current_pgid].  The negation of the least
    [isize] overflows. *)
Definition sys_kill k (current_pgid pid signum : Z) : option (Z * kstate * list nat) :=
  if bad_signum signum then Some (as_isize EINVAL, k, [])
  else if 0 <? pid then
    match get_process k (Z.to_nat pid) with
    | None => Some (as_isize ESRCH, k, [])
    | Some (_, task) =>
      if signum =? 0 then Some (0, k, [])
      else
        '(k, l) ← send_process k task (flag_of signum);
        Some (0, mark_threads (flag_of signum) l k, l.*1)
    end
  else
    target_pgid ← (if pid =? 0 then Some current_pgid else if pid =? - 2 ^ 63 then None else Some (- pid));
    if signum =? 0 then Some (if probe_group k target_pgid then 0 else as_isize ESRCH, k, [])
    else
      '(k', l) ← send_group k (seq 2 4094) target_pgid (flag_of signum) [];
      if decide (l = []) then Some (as_isize ESRCH, k', [])
      else Some (0, mark_threads (flag_of signum) l k', l.*1).

(** ** Lookups *)

Lemma tid2task_cons i t l sp hs j :
  tid2task (MkKstate ((i, t) :: l) sp hs) j = if decide (i = j) then Some t else tid2task (MkKstate l sp hs) j.
Proof.
  unfold tid2task. simpl. case_decide; [done|]. by destruct (list_find _ l) as [[? ?]|].
Qed.

Lemma tid2task_upd tid f k j :
  tid2task (upd_thread tid f k) j = if decide (j = tid) then with_thread f <$> tid2task k j else tid2task k j.
Proof.
  destruct k as [l sp hs]. unfold upd_thread. cbn [registry shared_pending hands]. induction l as [|[i t] l IH].
  { unfold tid2task. simpl. by case_decide. }
  rewrite fmap_cons. cbn [fst snd]. destruct (decide (i = tid)) as [->|Hne]; rewrite !tid2task_cons, IH;
    repeat case_decide; subst; done.
Qed.

Lemma tid2task_elem k tid t : NoDup (registry k).*1 → tid2task k tid = Some t ↔ (tid, t) ∈ registry k.
Proof.
  destruct k as [l sp hs]. simpl. induction l as [|[i u] l IH]; intros Hnd.
  { unfold tid2task. simpl. split; [done|by intros ?%not_elem_of_nil]. }
  rewrite tid2task_cons. simpl in Hnd. apply NoDup_cons in Hnd as [Hi Hnd]. rewrite elem_of_cons. case_decide as Hd.
  - subst. split; [intros [= <-]; by left|]. intros [[= <-]|Hin]; [done|]. destruct Hi.
    by apply (list_elem_of_fmap_2 fst) in Hin.
  - rewrite IH by done. split; [by right|]. intros [[= -> ->]|?]; done.
Qed.

(** Thread ids are unique, references are valid, and the sets are well formed. *)
Record k_ok k : Prop := {
  ko_nodup : NoDup (registry k).*1;
  ko_refs tid t : (tid, t) ∈ registry k →
    (k_signal t < length (shared_pending k))%nat ∧ ∃ acts, hands k !! k_hand t = Some acts ∧ length acts = MAX_SIG;
  ko_own tid t : (tid, t) ∈ registry k → pending_inv (pending (k_thread t));
  ko_shared i p : shared_pending k !! i = Some p → pending_inv p;
}.

Lemma upd_thread_registry tid f k i t :
  (i, t) ∈ registry (upd_thread tid f k) →
  ∃ u, (i, u) ∈ registry k ∧ t = if decide (i = tid) then with_thread f u else u.
Proof.
  unfold upd_thread. simpl. intros ([i' u] & Heq & Hin)%list_elem_of_fmap. simpl in Heq. case_decide as Hd; simplify_eq.
  - exists u. by rewrite decide_True.
  - exists u. by rewrite decide_False.
Qed.

Lemma upd_thread_ids tid f k : (registry (upd_thread tid f k)).*1 = (registry k).*1.
Proof.
  unfold upd_thread. simpl. rewrite <-list_fmap_compose. apply list_fmap_ext. intros i [j u] _. simpl. by case_decide.
Qed.

Lemma upd_thread_group tid f k g : group (upd_thread tid f k) g = group k g.
Proof.
  unfold group, upd_thread. cbn [registry]. induction (registry k) as [|[i u] l IH]; [done|].
  rewrite fmap_cons, !filter_cons. cbn [fst snd]. destruct (decide (i = tid)); cbn [fst snd];
    change (k_tgid (with_thread f u)) with (k_tgid u); destruct (decide (k_tgid u = g)); rewrite ?fmap_cons, IH; done.
Qed.

Lemma k_ok_upd tid f k :
  k_ok k → (∀ t, (tid, t) ∈ registry k → pending_inv (pending (f (k_thread t)))) → k_ok (upd_thread tid f k).
Proof.
  intros [H1 H2 H3 H4] Hf. split; [by rewrite upd_thread_ids| | |done].
  - intros i t (u & Hin & ->)%upd_thread_registry. case_decide; exact (H2 i u Hin).
  - intros i t (u & Hin & ->)%upd_thread_registry. case_decide; [subst; by apply Hf|by apply (H3 i)].
Qed.

(** A signal number that was accepted. *)
Lemma flag_of_bit signum : 0 < signum ≤ 64 → ∃ i, (i < 64)%nat ∧ signum = Z.of_nat i + 1 ∧ flag_of signum = Z.shiftl 1 (Z.of_nat i).
Proof.
  intros Hs. exists (Z.to_nat (signum - 1)). unfold flag_of. rewrite Z2Nat.id by lia. split_and!; [lia|lia|done].
Qed.

Lemma trailing_zeros_bit i : (i < 64)%nat → trailing_zeros (Z.shiftl 1 (Z.of_nat i)) = i.
Proof.
  intros Hi. assert (Z.shiftl 1 (Z.of_nat i) ≠ 0) as Hne.
  { rewrite Z.shiftl_1_l. apply Z.pow_nonzero; lia. }
  destruct (lowest_bit_spec _ (is_set_bit i Hi) Hne) as (_ & Hb & _). rewrite bit_of_shift in Hb.
  by apply bool_decide_eq_true in Hb.
Qed.

Lemma insert_pending_spec k sref i :
  k_ok k → (sref < length (shared_pending k))%nat → (i < 64)%nat →
  ∃ k' p p', insert_pending sref (Z.shiftl 1 (Z.of_nat i)) k = Some k' ∧ k_ok k' ∧ registry k' = registry k ∧
    hands k' = hands k ∧ shared_pending k !! sref = Some p ∧ shared_pending k' = <[sref := p']> (shared_pending k) ∧
    signals p' = Z.lor (signals p) (Z.shiftl 1 (Z.of_nat i)).
Proof.
  intros Hk Hs Hi. unfold insert_pending. destruct (lookup_lt_is_Some_2 _ _ Hs) as [p Hp]. rewrite Hp. simpl.
  destruct (pending_insert_spec p i Hi (ko_shared _ Hk _ _ Hp)) as (p' & -> & Hp' & Hsig). simpl.
  eexists _, p, p'. split; [done|]. split_and!; [|done..]. destruct Hk as [H1 H2 H3 H4]. split; [done| |done|]; simpl.
  - rewrite length_insert. apply H2.
  - intros j q Hj. destruct (decide (sref = j)) as [<-|Hne].
    + rewrite list_lookup_insert_eq in Hj by done. by injection Hj as <-.
    + rewrite list_lookup_insert_ne in Hj by done. by eapply H4.
Qed.

(** Forcing the exit: [SIGKILL], or a default action that terminates. *)
Lemma should_force_spec k task tid i :
  k_ok k → (tid, task) ∈ registry k → (i < 64)%nat →
  ∃ b a acts, hands k !! k_hand task = Some acts ∧ acts !! i = Some a ∧
    should_force_default_signal_exit k task (Z.shiftl 1 (Z.of_nat i)) = Some b ∧
    (b = true ↔ i = 8%nat ∨ handler a = SIG_DFL ∧ default_signal_terminates (Z.shiftl 1 (Z.of_nat i)) = true).
Proof.
  intros Hk Hin Hi. destruct (ko_refs _ Hk _ _ Hin) as (_ & acts & Ha & Hl).
  destruct (lookup_lt_is_Some_2 acts i) as [a Hai]; [by rewrite Hl|]. unfold should_force_default_signal_exit.
  change SIGKILL with (Z.shiftl 1 (Z.of_nat 8)). rewrite contains_bit, bit_of_shift. case_bool_decide as H8.
  - exists true, a, acts. by split_and!; [..|split; auto].
  - rewrite number_bit by done. cbn [mbind option_bind]. rewrite Ha. cbn [mbind option_bind pred]. rewrite Hai. cbn [mbind option_bind].
    eexists _, a, acts. split_and!; [done..|]. rewrite andb_true_iff, Z.eqb_eq. naive_solver.
Qed.

Lemma mark_threads_spec flag l k tid :
  tid2task (mark_threads flag l k) tid =
    if decide ((tid, true) ∈ l)
    then with_thread (with_term (Some (Z.of_nat (trailing_zeros flag) + 1))) <$> tid2task k tid else tid2task k tid.
Proof.
  unfold mark_threads. revert k. induction l as [|[i b] l IH]; intros k; [done|]. cbn [foldl]. rewrite IH. simpl.
  assert (tid2task (if b then upd_thread i (with_term (Some (Z.of_nat (trailing_zeros flag) + 1))) k else k) tid =
    if decide (i = tid ∧ b = true) then with_thread (with_term (Some (Z.of_nat (trailing_zeros flag) + 1))) <$> tid2task k tid
    else tid2task k tid) as ->.
  { destruct b; [|by rewrite decide_False by naive_solver]. rewrite tid2task_upd.
    destruct (decide (tid = i)); [by rewrite decide_True|by rewrite decide_False by naive_solver]. }
  destruct (decide ((tid, true) ∈ l)) as [Hin|Hn], (decide (i = tid ∧ b = true)) as [[-> ->]|Hd].
  - rewrite decide_True by set_solver. rewrite <-option_fmap_compose. by destruct (tid2task k tid).
  - by rewrite decide_True by set_solver.
  - by rewrite decide_True by set_solver.
  - rewrite decide_False; [done|]. intros [[= <- <-]|?]%elem_of_cons; naive_solver.
Qed.

Lemma get_process_in k pid tid task : get_process k pid = Some (tid, task) → (tid, task) ∈ registry k ∧ k_tgid task = pid.
Proof.
  unfold get_process. destruct (list_find (λ p, p.1 = pid ∧ k_tgid p.2 = pid) (registry k)) as [[i p]|] eqn:H1.
  - intros [= ->]. apply list_find_Some in H1 as (Hl & [_ Hg] & _). split; [by eapply list_elem_of_lookup_2|done].
  - destruct (list_find (λ p, k_tgid p.2 = pid) (registry k)) as [[i p]|] eqn:H2; [|done]. intros [= ->].
    apply list_find_Some in H2 as (Hl & Hg & _). split; [by eapply list_elem_of_lookup_2|done].
Qed.

Lemma group_elem k tgid tid : tid ∈ group k tgid ↔ ∃ t, (tid, t) ∈ registry k ∧ k_tgid t = tgid.
Proof.
  unfold group. rewrite list_elem_of_fmap. split.
  - intros ([i t] & -> & [Hg Hin]%list_elem_of_filter). by exists t.
  - intros (t & Hin & Hg). exists (tid, t). split; [done|]. by apply list_elem_of_filter.
Qed.

(** Sending to a process. *)
Lemma send_process_spec k tid task i :
  k_ok k → (tid, task) ∈ registry k → (i < 64)%nat →
  ∃ k' force p p', send_process k task (Z.shiftl 1 (Z.of_nat i)) = Some (k', (λ t, (t, force)) <$> group k (k_tgid task)) ∧
    k_ok k' ∧ registry k' = registry k ∧ hands k' = hands k ∧ shared_pending k !! k_signal task = Some p ∧
    shared_pending k' = <[k_signal task := p']> (shared_pending k) ∧ signals p' = Z.lor (signals p) (Z.shiftl 1 (Z.of_nat i)) ∧
    should_force_default_signal_exit k task (Z.shiftl 1 (Z.of_nat i)) = Some force.
Proof.
  intros Hk Hin Hi. destruct (should_force_spec k task tid i Hk Hin Hi) as (b & _ & _ & _ & _ & Hf & _).
  destruct (ko_refs _ Hk _ _ Hin) as [Hs _]. unfold send_process. rewrite Hf. cbn [mbind option_bind].
  destruct (insert_pending_spec k _ i Hk Hs Hi) as (k' & p & p' & -> & Hk' & Hr & Hh & Hp & Hsp & Hsig). cbn [mbind option_bind].
  exists k', b, p, p'. split_and!; [|done..]. unfold group. by rewrite Hr.
Qed.

Lemma mark_threads_ok flag l k : k_ok k → k_ok (mark_threads flag l k).
Proof.
  unfold mark_threads. revert k. induction l as [|[i b] l IH]; intros k Hk; [done|]. simpl. apply IH. destruct b; [|done].
  apply k_ok_upd; [done|]. intros t Hin. by apply (ko_own _ Hk i).
Qed.

(** ** Properties *)

Module KillProps.

(** [tkill] adds the signal to the pending set of that thread alone and wakes it
    exactly when the signal is not blocked or cannot be; every error leaves the
    state. *)
Theorem tkill_one_thread k tid signum :
  k_ok k →
  ∃ r k' woken, sys_tkill k tid signum = Some (r, k', woken) ∧ k_ok k' ∧ (r ≠ 0 ∨ signum = 0 → k' = k ∧ woken = []) ∧
    (r = 0 → 0 < signum → signum ≤ 64 ∧ ∃ t t', tid2task k tid = Some t ∧ tid2task k' tid = Some t' ∧
       signals (pending (k_thread t')) = Z.lor (signals (pending (k_thread t))) (flag_of signum) ∧
       blocked (k_thread t') = blocked (k_thread t) ∧ (∀ j, j ≠ tid → tid2task k' j = tid2task k j) ∧
       (tid ∈ woken ↔ Z.testbit (blocked (k_thread t)) (signum - 1) = false ∨ signum = 9 ∨ signum = 19)).
Proof.
  intros Hk. unfold sys_tkill, bad_signum, MAX_SIG.
  destruct ((signum <? 0) || (Z.of_nat 64 <? signum)) eqn:Hb; [by exists (as_isize EINVAL), k, []|].
  apply orb_false_iff in Hb as [H1%Z.ltb_ge H2%Z.ltb_ge].
  destruct (tid2task k tid) as [t|] eqn:Ht; [|by exists (as_isize ESRCH), k, []].
  destruct (Z.eqb_spec signum 0) as [->|Hnz]; [exists 0, k, []; split_and!; [done..|lia]|].
  destruct (flag_of_bit signum) as (i & Hi & Hsn & Hfl); [lia|]. rewrite Hfl.
  pose proof (proj1 (tid2task_elem k tid t (ko_nodup _ Hk)) Ht) as Hin.
  destruct (pending_insert_spec _ i Hi (ko_own _ Hk _ _ Hin)) as (p & -> & Hp & Hsig). cbn [mbind option_bind].
  set (reaches := _ || _). set (f := λ t0, if reaches && bool_decide (k_state t = Blocked)
    then with_interrupted true (with_pending p t0) else with_pending p t0). exists 0, (upd_thread tid f k), (if reaches then [tid] else []).
  assert (∀ u, pending (f u) = p ∧ blocked (f u) = blocked u) as Hfp by (intros u; unfold f; by case_match).
  split_and!; [done|by apply k_ok_upd; [|intros u _; rewrite (proj1 (Hfp _))]|by intros [?|?]|].
  intros _ _. split; [lia|]. exists t, (with_thread f t). split_and!.
  - done.
  - rewrite tid2task_upd, decide_True, Ht by done. done.
  - simpl. rewrite (proj1 (Hfp _)). exact Hsig.
  - simpl. apply Hfp.
  - intros j Hj. by rewrite tid2task_upd, decide_False.
  - assert (reaches = true ↔ Z.testbit (blocked (k_thread t)) (signum - 1) = false ∨ signum = 9 ∨ signum = 19) as <-.
    { unfold reaches. rewrite contains_bit. change SIGKILL with (Z.shiftl 1 (Z.of_nat 8)). change SIGSTOP with (Z.shiftl 1 (Z.of_nat 18)).
      rewrite !contains_bit, !bit_of_shift. replace (signum - 1) with (Z.of_nat i) by lia.
      rewrite !orb_true_iff, negb_true_iff, !bool_decide_eq_true. naive_solver lia. }
    destruct reaches; [set_solver|]. split; [by intros ?%not_elem_of_nil|done].
Qed.

(** [kill] of a process adds the signal to the set its threads share, wakes all of
    its threads and no other, and marks exactly them for exit when the signal is
    [SIGKILL] or its action is a default that terminates; nothing else changes. *)
Theorem kill_process k cur pid signum tid task :
  k_ok k → 0 < pid → 0 < signum ≤ 64 → get_process k (Z.to_nat pid) = Some (tid, task) →
  ∃ k' p p' (force : bool) a acts, sys_kill k cur pid signum = Some (0, k', group k (Z.to_nat pid)) ∧ k_ok k' ∧
    shared_pending k !! k_signal task = Some p ∧ shared_pending k' = <[k_signal task := p']> (shared_pending k) ∧
    signals p' = Z.lor (signals p) (flag_of signum) ∧
    hands k !! k_hand task = Some acts ∧ acts !! Z.to_nat (signum - 1) = Some a ∧
    (force = true ↔ signum = 9 ∨ handler a = SIG_DFL ∧ default_signal_terminates (flag_of signum) = true) ∧
    ∀ j, tid2task k' j = if force && bool_decide (j ∈ group k (Z.to_nat pid))
                         then with_thread (with_term (Some signum)) <$> tid2task k j else tid2task k j.
Proof.
  intros Hk Hpid Hsn Hg. destruct (get_process_in _ _ _ _ Hg) as [Hin Htg].
  destruct (flag_of_bit signum Hsn) as (i & Hi & Hsi & Hfl). unfold sys_kill, bad_signum, MAX_SIG.
  rewrite (proj2 (orb_false_iff _ _)) by (split; apply Z.ltb_ge; lia). rewrite (proj2 (Z.ltb_lt 0 pid)) by done.
  rewrite Hg, (proj2 (Z.eqb_neq signum 0)) by lia. rewrite Hfl.
  destruct (send_process_spec k tid task i Hk Hin Hi) as (k1 & b & p & p' & -> & Hk1 & Hr & Hh & Hp & Hsp & Hsig & Hfo).
  destruct (should_force_spec k task tid i Hk Hin Hi) as (b' & a & acts & Ha & Hai & Hf & Hb). cbn [mbind option_bind].
  assert (b' = b) as -> by congruence. rewrite Htg.
  eexists _, p, p', b, a, acts. split_and!; [..|intros j].
  - do 2 f_equal. by rewrite <-list_fmap_compose, list_fmap_id.
  - by apply mark_threads_ok.
  - done.
  - rewrite <-Hsp. clear. generalize ((λ t : nat, (t, b)) <$> group k (Z.to_nat pid)). intros l. revert k1.
    unfold mark_threads. induction l as [|[j c] l IH]; intros k1; [done|]. simpl. rewrite IH. by destruct c.
  - done.
  - done.
  - by replace (Z.to_nat (signum - 1)) with i by lia.
  - rewrite Hb. naive_solver lia.
  - rewrite mark_threads_spec, trailing_zeros_bit by done. replace (Z.of_nat i + 1) with signum by lia.
    assert (tid2task k1 j = tid2task k j) as -> by (unfold tid2task; by rewrite Hr).
    assert ((j, true) ∈ (λ t : nat, (t, b)) <$> group k (Z.to_nat pid) ↔ b = true ∧ j ∈ group k (Z.to_nat pid)) as Hiff.
    { rewrite list_elem_of_fmap. split; [intros (x & [= <- <-] & ?); done|]. intros [-> ?]. by exists j. }
    destruct b; simpl; [|rewrite decide_False; [done|]; rewrite Hiff; naive_solver].
    case_bool_decide; [rewrite decide_True; [done|]; naive_solver|rewrite decide_False; [done|]; naive_solver].
Qed.

(** ** Witnesses *)

(** Process 5 with the threads 5 and 6, and process 5000 alone in group 9; thread 5
    blocks [SIGTERM]. *)
Definition demo_t (m : Z) : thread :=
  MkThread Sigpending_new m None [] [] [] SignalAltStack_default false None false (MkTrap (replicate 32 0) 0 0 0 0 0 0).

Definition demo_k : kstate :=
  MkKstate [(5, MkKtask 5 7 0 0 Blocked (demo_t (flag_of 15))); (6, MkKtask 5 7 0 0 Ready (demo_t 0));
            (5000, MkKtask 5000 9 1 1 Blocked (demo_t 0))]%nat
    [Sigpending_new; Sigpending_new] [SignalActions_new; SignalActions_new].

Lemma demo_k_ok : k_ok demo_k.
Proof.
  split.
  - apply (bool_decide_unpack _). by vm_compute.
  - intros tid t. simpl. rewrite !elem_of_cons. intros [[= -> ->]|[[= -> ->]|[[= -> ->]|?%not_elem_of_nil]]]; try done;
      (split; [simpl; lia|]; by exists SignalActions_new).
  - intros tid t. simpl. rewrite !elem_of_cons. intros [[= -> ->]|[[= -> ->]|[[= -> ->]|?%not_elem_of_nil]]]; try done;
      apply pending_inv_new.
  - intros [|[|i]] p; simpl; intros Hp; try done; injection Hp as <-; apply pending_inv_new.
Qed.

Lemma tkill_one_thread_witness : ∃ k' woken, sys_tkill demo_k 5 9 = Some (0, k', woken) ∧ (5%nat ∈ woken).
Proof.
  destruct (tkill_one_thread demo_k 5 9 demo_k_ok) as (r & k' & woken & Heq & _ & _ & H0).
  assert (r = 0) as -> by (vm_compute in Heq; congruence).
  destruct (H0 eq_refl ltac:(lia)) as (_ & t & t' & _ & _ & _ & _ & _ & Hw).
  exists k', woken. split; [exact Heq|]. apply Hw. right. left. reflexivity.
Defined.

Lemma kill_process_witness : ∃ k', sys_kill demo_k 0 5 15 = Some (0, k', [5; 6]%nat) ∧ k_ok k'.
Proof.
  destruct (kill_process demo_k 0 5 15 5 (MkKtask 5 7 0 0 Blocked (demo_t (flag_of 15))) demo_k_ok)
    as (k' & p & p' & force & a & acts & Heq & Hk & _).
  - lia.
  - lia.
  - reflexivity.
  - exists k'. split; [exact Heq|exact Hk].
Defined.

(** A thread that blocks [SIGTERM] is marked for exit by [kill] all the same. *)
Example kill_ignores_mask :
  ∃ k' woken t, sys_kill demo_k 0 5 15 = Some (0, k', woken) ∧ tid2task k' 5 = Some t ∧
    contains (blocked (k_thread t)) (flag_of 15) = true ∧ term_signal (k_thread t) = Some 15.
Proof. by do 3 eexists; vm_compute. Qed.

(** A process whose id is 4096 or more is not reached through its group. *)
Example kill_group_misses : ∃ k', sys_kill demo_k 0 (-9) 15 = Some (as_isize ESRCH, k', []) ∧ k' = demo_k.
Proof. eexists. by vm_compute. Qed.

(** The negated group id overflows. *)
Example kill_least_pid : sys_kill demo_k 0 (- 2 ^ 63) 15 = None.
Proof. by vm_compute. Qed.
End KillProps.
