(* ===== verification/BTree.v ===== *)
(** * Ordered maps

    [BTreeMap] with page numbers as keys: a finite map that is read in key order,
    searched for the last entry at or below a key, and split at a key. *)

From S2P Require Import Prelude.

Local Open Scope Z_scope.

Section btree.
Context {A : Type}.
Implicit Types (m : gmap Z A) (k : Z).

Definition key_le (x y : Z * A) : Prop := x.1 ≤ y.1.

#[local] Instance key_le_dec : RelDecision key_le.
Proof. intros x y. unfold key_le. apply _. Defined.

#[local] Instance key_le_total : Total key_le.
Proof. intros x y. unfold key_le. lia. Qed.

#[local] Instance key_le_trans : Transitive key_le.
Proof. intros x y z. unfold key_le. lia. Qed.

(** [iter] *)
Definition bt_entries m : list (Z * A) := merge_sort key_le (map_to_list m).

(** [keys] *)
Definition bt_keys m : list Z := (bt_entries m).*1.

(** [range(lo..hi)] *)
Definition bt_range m (lo hi : Z) : list (Z * A) := filter (λ e, lo ≤ e.1 < hi) (bt_entries m).

(** [range(..=k).next_back()] *)
Definition bt_before m k : option (Z * A) := last (filter (λ e, e.1 ≤ k) (bt_entries m)).

(** What [split_off] leaves and what it returns. *)
Definition bt_below m k : gmap Z A := filter (λ e, e.1 < k) m.

Definition bt_from m k : gmap Z A := filter (λ e, k ≤ e.1) m.

Lemma bt_entries_perm m : bt_entries m ≡ₚ map_to_list m.
Proof. apply merge_sort_Permutation. Qed.

Lemma elem_of_entries m k x : (k, x) ∈ bt_entries m ↔ m !! k = Some x.
Proof. rewrite bt_entries_perm. apply elem_of_map_to_list. Qed.

Lemma elem_of_bt_keys m k : k ∈ bt_keys m ↔ is_Some (m !! k).
Proof.
  unfold bt_keys. rewrite list_elem_of_fmap. split.
  - intros ([k' x] & -> & Hin%elem_of_entries). by eexists.
  - intros [x Hx]. exists (k, x). by rewrite elem_of_entries.
Qed.

Lemma bt_keys_nodup m : NoDup (bt_keys m).
Proof. unfold bt_keys. rewrite bt_entries_perm. apply NoDup_fst_map_to_list. Qed.

Definition ascending (l : list (Z * A)) : Prop := StronglySorted (λ x y : Z * A, x.1 < y.1) l.

Lemma bt_entries_ascending m : ascending (bt_entries m).
Proof.
  assert (StronglySorted key_le (bt_entries m)) as Hs by (apply Sorted_StronglySorted, Sorted_merge_sort; apply _).
  pose proof (bt_keys_nodup m) as Hn. unfold bt_keys in Hn. unfold ascending. revert Hs Hn.
  generalize (bt_entries m). intros l Hs. induction Hs as [|x l Hs IH Hx]; intros Hn; [constructor|].
  rewrite fmap_cons in Hn. apply NoDup_cons in Hn as [Hnin Hn]. constructor; [by apply IH|].
  rewrite Forall_forall in Hx |- *. intros y Hy. specialize (Hx y Hy). unfold key_le in Hx.
  assert (x.1 ≠ y.1) by (intros Heq; apply Hnin; rewrite Heq; by apply list_elem_of_fmap_2). lia.
Qed.

Lemma ascending_app l1 l2 e : ascending (l1 ++ e :: l2) →
  ascending (l1 ++ l2) ∧ (∀ y, y ∈ l1 → y.1 < e.1) ∧ (∀ y, y ∈ l2 → e.1 < y.1).
Proof.
  unfold ascending. induction l1 as [|x l1 IH]; simpl; intros Hs.
  - apply StronglySorted_inv in Hs as [Hs Hx]. rewrite Forall_forall in Hx.
    split_and!; [done|by intros y ?%not_elem_of_nil|done].
  - apply StronglySorted_inv in Hs as [Hs Hx]. destruct (IH Hs) as (H1 & H2 & H3). rewrite Forall_forall in Hx.
    split_and!; [|set_solver|done]. constructor; [done|]. rewrite Forall_forall. intros y Hy. apply Hx. set_solver.
Qed.

Lemma last_greatest (l : list (Z * A)) e : ascending l → last l = Some e → e ∈ l ∧ ∀ y, y ∈ l → y.1 ≤ e.1.
Proof.
  intros Hs Hl. rewrite last_Some in Hl. destruct Hl as [l' ->].
  apply ascending_app in Hs as (_ & Hl & _). split; [set_solver|]. intros y [Hy|Hy]%elem_of_app.
  - specialize (Hl y Hy). lia.
  - apply list_elem_of_singleton in Hy as ->. lia.
Qed.

Lemma ascending_filter (P : Z * A → Prop) `{!∀ x, Decision (P x)} l : ascending l → ascending (filter P l).
Proof.
  unfold ascending. induction 1 as [|x l Hs IH Hx]; [constructor|]. rewrite filter_cons. destruct (decide _); [|done].
  constructor; [done|]. rewrite Forall_forall in Hx |- *. intros y [_ Hy]%list_elem_of_filter. by apply Hx.
Qed.

(** The entry found is the last one at or below the key. *)
Lemma bt_before_Some m k k' x :
  bt_before m k = Some (k', x) ↔ m !! k' = Some x ∧ k' ≤ k ∧ ∀ j, is_Some (m !! j) → j ≤ k → j ≤ k'.
Proof.
  unfold bt_before. pose proof (ascending_filter (λ e, e.1 ≤ k) _ (bt_entries_ascending m)) as Hs. split.
  - intros Hl. destruct (last_greatest _ _ Hs Hl) as [[Hk Hin]%list_elem_of_filter Hmax]. simpl in *.
    split_and!; [by apply elem_of_entries|done|]. intros j [y Hy] Hj. apply (Hmax (j, y)), list_elem_of_filter.
    by rewrite elem_of_entries.
  - intros (Hx & Hk & Hmax). assert ((k', x) ∈ filter (λ e, e.1 ≤ k) (bt_entries m)) as Hin
      by (apply list_elem_of_filter; by rewrite elem_of_entries).
    destruct (last (filter _ _)) as [[j y]|] eqn:Hl; [|apply last_None in Hl; rewrite Hl in Hin; by apply not_elem_of_nil in Hin].
    destruct (last_greatest _ _ Hs Hl) as [[Hj Hy%elem_of_entries]%list_elem_of_filter Hgr]. simpl in *.
    specialize (Hgr _ Hin). specialize (Hmax j ltac:(by eexists) Hj). simpl in Hgr. assert (j = k') as -> by lia. congruence.
Qed.

Lemma bt_before_None m k : bt_before m k = None ↔ ∀ j, is_Some (m !! j) → k < j.
Proof.
  unfold bt_before. rewrite last_None. split.
  - intros Hn j [x Hx]. destruct (decide (k < j)); [done|]. exfalso. apply (not_elem_of_nil (j, x)). rewrite <-Hn.
    apply list_elem_of_filter. rewrite elem_of_entries. split; [simpl; lia|done].
  - intros Hn. apply elem_of_nil_inv. intros [j x] [Hj Hx%elem_of_entries]%list_elem_of_filter. simpl in Hj.
    specialize (Hn j ltac:(by eexists)). lia.
Qed.

Lemma lookup_bt_below m k j : bt_below m k !! j = if decide (j < k) then m !! j else None.
Proof.
  unfold bt_below. destruct (decide _) as [Hj|Hj].
  - destruct (m !! j) as [x|] eqn:Hx; [by rewrite map_lookup_filter_Some|]. apply map_lookup_filter_None. by left.
  - apply map_lookup_filter_None. right. simpl. intros; lia.
Qed.

Lemma lookup_bt_from m k j : bt_from m k !! j = if decide (k ≤ j) then m !! j else None.
Proof.
  unfold bt_from. destruct (decide _) as [Hj|Hj].
  - destruct (m !! j) as [x|] eqn:Hx; [by rewrite map_lookup_filter_Some|]. apply map_lookup_filter_None. by left.
  - apply map_lookup_filter_None. right. simpl. intros; lia.
Qed.

Lemma bt_split m k : bt_below m k ∪ bt_from m k = m ∧ bt_below m k ##ₘ bt_from m k.
Proof.
  split.
  - apply map_eq. intros j. rewrite lookup_union, lookup_bt_below, lookup_bt_from.
    destruct (decide (j < k)), (decide (k ≤ j)); try lia; by destruct (m !! j).
  - apply map_disjoint_spec. intros j x y. rewrite lookup_bt_below, lookup_bt_from.
    destruct (decide (j < k)), (decide (k ≤ j)); try lia; done.
Qed.

Lemma elem_of_bt_range m lo hi k x : (k, x) ∈ bt_range m lo hi ↔ m !! k = Some x ∧ lo ≤ k < hi.
Proof. unfold bt_range. rewrite list_elem_of_filter, elem_of_entries. simpl. tauto. Qed.
End btree.
