(* ===== verification/Mm.v ===== *)
(** * What address spaces need from physical memory
    (os/src/mm/frame_allocator.rs, os/src/mm/page_table.rs)

    [Mm] is the interface between the address spaces and the layers below them: the
    page tables, the frames behind [FrameTracker] and their contents.  A frame is
    held by any number of trackers ([Arc<Frame>]); the list of trackers in
    existence is what the interface keeps account of.  The instance puts the SV39
    page tables and the frame allocator behind it. *)

From S2P Require Import Prelude Address FrameAllocator PageTable.

Local Open Scope Z_scope.

(** The page numbers of the lower half of the address space. *)
Definition uvpn (v : Z) : Prop := 0 ≤ v < 2 ^ 26.

(** Two states that differ in one table at one page. *)
Definition find_update (f f' : nat → Z → option (PageTableEntry * PageSize)) (t : nat) (v : Z)
    (x : option (PageTableEntry * PageSize)) : Prop :=
  ∀ t' v', uvpn v' → f' t' v' = if decide (t' = t ∧ v' = v) then x else f t' v'.

Definition find_same (f f' : nat → Z → option (PageTableEntry * PageSize)) : Prop :=
  ∀ t v, uvpn v → f' t v = f t v.

(** The contents of the frames that have a tracker. *)
Definition mem_same (L : list Z) (m m' : pmem) : Prop := ∀ p i, p ∈ L → m' p i = m p i.

Class Mm (W : Type) := {
  mm_find : W → nat → Z → option (PageTableEntry * PageSize);
  mm_map : W → nat → Z → Z → Z → PageSize → option W;
  mm_unmap : W → nat → Z → option W;
  mm_set_entry : W → nat → Z → Z → Z → option W;
  mm_move_entry : W → nat → Z → Z → PageSize → option (bool * W);
  mm_new_table : W → option (nat * W);
  mm_frame_alloc : W → PageSize → option (option Z * W);
  mm_clone : W → Z → W;
  mm_drop : W → Z → PageSize → option W;
  mm_mem : W → pmem;
  mm_store : W → Z → (Z → Z) → W;
  mm_free : W → Z;
  mm_table : W → nat → Prop;
  mm_ok : W → list Z → Prop;

  mm_ok_perm w L L' : mm_ok w L → L ≡ₚ L' → mm_ok w L';
  mm_ok_range w L p : mm_ok w L → p ∈ L → 0 ≤ p < 2 ^ PPN_WIDTH;
  mm_map_spec w L t v p f : mm_ok w L → mm_table w t → uvpn v → mm_find w t v = None →
    match mm_map w t v p f Page4K with
    | None => mm_free w < 2
    | Some w' => mm_ok w' L ∧ mem_same L (mm_mem w) (mm_mem w') ∧ (∀ t', mm_table w t' → mm_table w' t') ∧
        find_update (mm_find w) (mm_find w') t v (Some (PTE_new p (final_flags f), Page4K))
    end;
  mm_unmap_spec w L t v e : mm_ok w L → mm_table w t → uvpn v → mm_find w t v = Some (e, Page4K) →
    ∃ w', mm_unmap w t v = Some w' ∧ mm_ok w' L ∧ mem_same L (mm_mem w) (mm_mem w') ∧
      (∀ t', mm_table w t' → mm_table w' t') ∧ mm_free w' = mm_free w ∧
      find_update (mm_find w) (mm_find w') t v None;
  mm_set_entry_spec w L t v p f e : mm_ok w L → mm_table w t → uvpn v → mm_find w t v = Some (e, Page4K) →
    ∃ w', mm_set_entry w t v p f = Some w' ∧ mm_ok w' L ∧ mem_same L (mm_mem w) (mm_mem w') ∧
      (∀ t', mm_table w t' → mm_table w' t') ∧ mm_free w' = mm_free w ∧
      find_update (mm_find w) (mm_find w') t v (Some (PTE_new p (final_flags f), Page4K));
  mm_move_entry_spec w L t a b e : mm_ok w L → mm_table w t → uvpn a → uvpn b → a ≠ b →
    mm_find w t a = Some (e, Page4K) → is_valid e = true → mm_find w t b = None →
    match mm_move_entry w t a b Page4K with
    | None => mm_free w < 2
    | Some (r, w') => r = true ∧ mm_ok w' L ∧ mem_same L (mm_mem w) (mm_mem w') ∧
        (∀ t', mm_table w t' → mm_table w' t') ∧
        ∀ t' v, uvpn v → mm_find w' t' v = if decide (t' = t ∧ v = a) then None
          else if decide (t' = t ∧ v = b) then Some (e, Page4K) else mm_find w t' v
    end;
  mm_new_table_spec w L : mm_ok w L →
    match mm_new_table w with
    | None => mm_free w ≤ 0
    | Some (t, w') => mm_ok w' L ∧ mem_same L (mm_mem w) (mm_mem w') ∧ ¬ mm_table w t ∧ mm_table w' t ∧
        (∀ t', mm_table w t' → mm_table w' t') ∧ (∀ v, uvpn v → mm_find w' t v = None) ∧
        ∀ t' v, uvpn v → mm_table w t' → mm_find w' t' v = mm_find w t' v
    end;
  mm_frame_alloc_spec w L : mm_ok w L →
    wp (mm_frame_alloc w Page4K) (λ '(r, w'),
      mm_ok w' (option_list r ++ L) ∧ mem_same L (mm_mem w) (mm_mem w') ∧ find_same (mm_find w) (mm_find w') ∧
      (∀ t', mm_table w t' → mm_table w' t') ∧ (0 < mm_free w → is_Some r) ∧
      ∀ p, r = Some p → (p ∉ L) ∧ ∀ i, mm_mem w' p i = 0);
  mm_clone_spec w L p : mm_ok w L → p ∈ L →
    mm_ok (mm_clone w p) (p :: L) ∧ mm_mem (mm_clone w p) = mm_mem w ∧ mm_free (mm_clone w p) = mm_free w ∧
    (∀ t', mm_table w t' → mm_table (mm_clone w p) t') ∧ mm_find (mm_clone w p) = mm_find w;
  mm_drop_spec w L p : mm_ok w (p :: L) →
    ∃ w', mm_drop w p Page4K = Some w' ∧ mm_ok w' L ∧ mm_mem w' = mm_mem w ∧ mm_find w' = mm_find w ∧
      (∀ t', mm_table w t' → mm_table w' t');
  mm_store_spec w L p c : mm_ok w L → p ∈ L →
    mm_ok (mm_store w p c) L ∧ mm_mem (mm_store w p c) p = c ∧ mm_free (mm_store w p c) = mm_free w ∧
    (∀ q, q ≠ p → mm_mem (mm_store w p c) q = mm_mem w q) ∧
    (∀ t', mm_table w t' → mm_table (mm_store w p c) t') ∧ find_same (mm_find w) (mm_find (mm_store w p c));
  mm_map_free w L t v p f w' : mm_ok w L → mm_map w t v p f Page4K = Some w' → mm_free w ≤ mm_free w' + 2;
  mm_move_free w L t a b r w' : mm_ok w L → mm_move_entry w t a b Page4K = Some (r, w') → mm_free w ≤ mm_free w' + 2;
  mm_new_free w L t w' : mm_ok w L → mm_new_table w = Some (t, w') → mm_free w ≤ mm_free w' + 1;
  mm_alloc_free w L r w' : mm_ok w L → mm_frame_alloc w Page4K = Some (r, w') → mm_free w ≤ mm_free w' + 1;
  mm_drop_free w L p w' : mm_ok w (p :: L) → mm_drop w p Page4K = Some w' → mm_free w ≤ mm_free w';
}.

(** ** The instance *)

Record world := MkWorld {
  wm : pmem;                 (** physical memory *)
  ws : StackFrameAllocator;  (** [FRAME_ALLOCATOR] *)
  wt : list PageTable;       (** the page tables of the address spaces *)
  wr : gmap Z nat;           (** the reference counts of the frames *)
  wk : PageTable;            (** the kernel's page table *)
}.

Definition world_state (w : world) (pt : PageTable) : PageTable.state StackFrameAllocator :=
  PageTable.MkState (wm w) (ws w) pt.

(** An operation on table [t]. *)
Definition put_state (w : world) (t : nat) (s : PageTable.state StackFrameAllocator) : world :=
  MkWorld (PageTable.mem s) (PageTable.source s) (<[t := PageTable.table s]> (wt w)) (wr w) (wk w).

Definition on_table (w : world) (t : nat)
    (f : PageTable.state StackFrameAllocator → option (PageTable.state StackFrameAllocator)) : option world :=
  pt ← wt w !! t; s ← f (world_state w pt); Some (put_state w t s).

Definition world_find (w : world) (t : nat) (v : Z) : option (PageTableEntry * PageSize) :=
  pt ← wt w !! t; find_pte (wm w) pt v.

(** [PageTable::new] and [install_kernel_space] *)
Definition world_new_table (w : world) : option (nat * world) :=
  s ← PageTable.new (wm w) (ws w);
  Some (length (wt w), MkWorld (share_kernel_half (PageTable.mem s) (PageTable.table s) (wk w)) (PageTable.source s)
    (wt w ++ [PageTable.table s]) (wr w) (wk w)).

(** [Frame::new] clears the whole page. *)
Definition clear_pages (m : pmem) (p n : Z) : pmem := λ q i, if decide (p ≤ q < p + n) then 0 else m q i.

Definition world_frame_alloc (w : world) (sz : PageSize) : option (option Z * world) :=
  '(r, a) ← FrameAllocator.alloc (ws w) sz;
  match r with
  | None => Some (None, MkWorld (wm w) a (wt w) (wr w) (wk w))
  | Some p => Some (Some p, MkWorld (clear_pages (wm w) p (num_pages sz)) a (wt w) (<[p := 1%nat]> (wr w)) (wk w))
  end.

Definition world_clone (w : world) (p : Z) : world :=
  MkWorld (wm w) (ws w) (wt w) (alter S p (wr w)) (wk w).

(** The last tracker gives the frame back. *)
Definition world_drop (w : world) (p : Z) (sz : PageSize) : option world :=
  n ← wr w !! p;
  match n with
  | O => None
  | S O => a ← FrameAllocator.dealloc (ws w) p sz; Some (MkWorld (wm w) a (wt w) (delete p (wr w)) (wk w))
  | S n => Some (MkWorld (wm w) (ws w) (wt w) (<[p := n]> (wr w)) (wk w))
  end.

Definition world_store (w : world) (p : Z) (c : Z → Z) : world :=
  MkWorld (λ q, if decide (q = p) then c else wm w q) (ws w) (wt w) (wr w) (wk w).

Definition table_frames (l : list PageTable) : list Z := l ≫= frames.

Definition trackers (p : Z) (L : list Z) : nat := length (filter (λ q, q = p) L).

(** Every frame of the allocator is a page of some table or has a tracker, and the
    counts are the numbers of trackers. *)
Record world_inv (w : world) (L : list Z) : Prop := {
  wi_tables pt : pt ∈ wt w → ∃ pos, pt_inv user_half (wm w) pt pos;
  wi_own : ∃ l D rest, fs_owns (ws w) l ∧ l ≡ₚ table_frames (wt w) ++ D ++ rest ∧ ∀ p, p ∈ D ↔ p ∈ L;
  wi_refs p : wr w !! p = if decide (p ∈ L) then Some (trackers p L) else None;
}.

Lemma uvpn_user v : uvpn v → (0 ≤ v < 2 ^ VPN_WIDTH) ∧ in_dom user_half (indexes v).
Proof.
  unfold uvpn, VPN_WIDTH, VA_WIDTH, PAGE_SIZE_BITS. intros Hv. split; [lia|]. apply in_dom_index.
  unfold user_half, root_index. rewrite Z.mod_small; [apply Z.div_lt_upper_bound; lia|].
  split; [apply Z.div_pos; lia|apply Z.div_lt_upper_bound; lia].
Qed.

Lemma table_frames_split l t pt : l !! t = Some pt →
  ∃ others, table_frames l ≡ₚ frames pt ++ others ∧
    (∀ pt', table_frames (<[t := pt']> l) ≡ₚ frames pt' ++ others) ∧
    ∀ t' pt' p, t' ≠ t → l !! t' = Some pt' → p ∈ frames pt' → p ∈ others.
Proof.
  intros Ht. exists (table_frames (take t l) ++ table_frames (drop (S t) l)). unfold table_frames.
  assert (∀ l1 l2 x, (l1 ++ x :: l2) ≫= frames ≡ₚ frames x ++ (l1 ≫= frames) ++ (l2 ≫= frames)) as Hc.
  { intros l1 l2 x. rewrite bind_app, bind_cons. solve_perm. }
  split_and!.
  - rewrite <-(take_drop_middle _ _ _ Ht) at 1. apply Hc.
  - intros pt'. rewrite insert_take_drop by (by eapply lookup_lt_Some). apply Hc.
  - intros t' pt' p Hne Ht' Hp. rewrite <-bind_app. apply list_elem_of_bind.
    exists pt'. split; [done|]. apply list_elem_of_lookup.
    destruct (decide (t' < t)%nat).
    + exists t'. rewrite lookup_app_l; [by rewrite lookup_take_lt|]. rewrite length_take.
      apply lookup_lt_Some in Ht. lia.
    + exists (t' - 1)%nat. apply lookup_lt_Some in Ht as Hlt. rewrite lookup_app_r by (rewrite length_take; lia).
      rewrite length_take, lookup_drop. replace (S t + (t' - 1 - t `min` length l))%nat with t' by lia. done.
Qed.

Lemma find_view w t pt v : wt w !! t = Some pt → world_find w t v = view (wm w) (root_ppn pt) (indexes v).
Proof. intros Ht. unfold world_find. by rewrite Ht. Qed.

(** The other tables and the frames with trackers do not notice an operation that
    stays inside the frames of one table. *)
Section table_step.
Context (w : world) (L : list Z) (t : nat) (pt : PageTable).
Context (Hw : world_inv w L) (Ht : wt w !! t = Some pt).

Lemma table_state : ∃ own pos, st_ok user_half own (world_state w pt) pos ∧
  ∀ s pos', st_ok user_half own s pos' → outside user_half (world_state w pt) s →
    world_inv (put_state w t s) L ∧ mem_same L (wm w) (PageTable.mem s) ∧
    ∀ t' v, uvpn v → t' ≠ t → world_find (put_state w t s) t' v = world_find w t' v.
Proof using Hw Ht.
  destruct (wi_own _ _ Hw) as (l0 & D & rest & Hown & Hl0 & HD).
  destruct (table_frames_split _ _ _ Ht) as (others & Hsp & Hsp' & Hoth).
  destruct (wi_tables _ _ Hw pt ltac:(by eapply list_elem_of_lookup_2)) as [pos Hpos].
  exists (others ++ D ++ rest), pos. split.
  { split; [done|]. exists l0. split; [done|]. simpl. rewrite Hl0, Hsp. solve_perm. }
  intros s pos' [Hi (l & Hl & Hp)] (Hr & Hs & Hm).
  destruct (fs_owns_ok _ _ Hl) as [Hnd _]. rewrite Hp in Hnd. apply NoDup_app in Hnd as (_ & Hdis & _).
  assert (∀ t' pt' posn q j, t' ≠ t → wt w !! t' = Some pt' → pt_inv user_half (wm w) pt' posn → is_Some (posn !! q) →
    PageTable.mem s q j = wm w q j) as Hfar.
  { intros t' pt' posn q j Hne Ht' Hposn Hq. apply Hm. left. intros Hin. apply (Hdis q Hin).
    apply (pi_frames _ _ _ _ Hposn) in Hq. specialize (Hoth _ _ _ Hne Ht' Hq). set_solver. }
  split_and!.
  - split.
    + intros pt' Hin. simpl in Hin. apply list_elem_of_lookup in Hin as [t' Ht'].
      destruct (decide (t' = t)) as [->|Hne].
      { rewrite list_lookup_insert_eq in Ht' by (by eapply lookup_lt_Some). injection Ht' as <-. by exists pos'. }
      rewrite list_lookup_insert_ne in Ht' by done.
      destruct (wi_tables _ _ Hw pt' ltac:(by eapply list_elem_of_lookup_2)) as [posn Hposn]. exists posn.
      eapply pt_inv_ext; [|done]. intros q j Hq. simpl. by eapply Hfar.
    + exists l, D, rest. split_and!; [done| |done]. simpl. rewrite Hsp', Hp. solve_perm.
    + apply Hw.
  - intros p i Hpin. apply Hm. left. intros Hin. apply (Hdis p Hin). apply HD in Hpin. set_solver.
  - intros t' v Hv Hne. unfold world_find. simpl. rewrite list_lookup_insert_ne by done.
    destruct (wt w !! t') as [pt'|] eqn:Ht'; [|done]. simpl. rewrite !find_pte_view.
    destruct (wi_tables _ _ Hw pt' ltac:(by eapply list_elem_of_lookup_2)) as [posn Hposn].
    eapply view_ext; [done|by apply uvpn_user|]. intros q pre j Hq _. eapply Hfar; [done..|by eexists].
Qed.
End table_step.

Definition world_table (w : world) (t : nat) : Prop := is_Some (wt w !! t).

Lemma put_state_table w t s t' : world_table w t' → world_table (put_state w t s) t'.
Proof. unfold world_table. simpl. rewrite !lookup_lt_is_Some, length_insert. done. Qed.

(** An operation on a table that changes the page [v] alone. *)
Lemma table_update w L t v f x :
  world_inv w L → world_table w t → uvpn v →
  (∀ pt own pos, wt w !! t = Some pt → st_ok user_half own (world_state w pt) pos →
     match f (world_state w pt) with
     | None => default 0 (free_frames (ws w)) < 2
     | Some s => (∃ pos', st_ok user_half own s pos') ∧ updated user_half (world_state w pt) s (indexes v) Page4K x
     end) →
  match on_table w t f with
  | None => default 0 (free_frames (ws w)) < 2
  | Some w' => world_inv w' L ∧ mem_same L (wm w) (wm w') ∧ (∀ t', world_table w t' → world_table w' t') ∧
      find_update (world_find w) (world_find w') t v x
  end.
Proof.
  intros Hw [pt Ht] Hv Hf. destruct (table_state w L t pt Hw Ht) as (own & pos & Hs & Hstep).
  specialize (Hf pt own pos Ht Hs). unfold on_table. rewrite Ht. cbn [mbind option_bind].
  destruct (f (world_state w pt)) as [s|]; [|done]. cbn [mbind option_bind].
  destruct Hf as [[pos' Hs'] Hu]. destruct (Hstep s pos' Hs' (proj1 Hu)) as (Hw' & Hmem & Hoth).
  split_and!; [done|done|intros t'; apply put_state_table|]. intros t' v' Hv'. destruct (decide (t' = t)) as [->|Hne].
  - unfold world_find. simpl. rewrite Ht, list_lookup_insert_eq by (by eapply lookup_lt_Some). simpl. rewrite !find_pte_view.
    destruct (uvpn_user _ Hv), (uvpn_user _ Hv'). destruct Hu as [Ho Hu]. specialize (Hu (indexes v') ltac:(done)).
    unfold sview, root in Hu. rewrite Hu. pose proof (covers_page Page4K v v' ltac:(done) ltac:(done)) as Hc.
    change (num_pages Page4K) with 1 in Hc. rewrite !Z.div_1_r in Hc.
    destruct (decide (covers _ _ _)) as [Hx|Hx], (decide (t = t ∧ v' = v)) as [[_ Hy]|Hy]; [done| | |done].
    + naive_solver.
    + subst. exfalso. by apply Hx, Hc.
  - rewrite decide_False by naive_solver. by apply Hoth.
Qed.

Lemma world_map_spec w L t v p f :
  world_inv w L → world_table w t → uvpn v → world_find w t v = None →
  match on_table w t (λ s, PageTable.map s v p f Page4K) with
  | None => default 0 (free_frames (ws w)) < 2
  | Some w' => world_inv w' L ∧ mem_same L (wm w) (wm w') ∧ (∀ t', world_table w t' → world_table w' t') ∧
      find_update (world_find w) (world_find w') t v (Some (PTE_new p (final_flags f), Page4K))
  end.
Proof.
  intros Hw Ht Hv Hf. apply table_update; [done..|]. intros pt own pos Hpt Hs.
  pose proof (map_ok user_half own (world_state w pt) pos v p f Page4K Hs) as Hm.
  rewrite (find_view w t pt v Hpt) in Hf.
  specialize (Hm (proj2 (uvpn_user v Hv)) Hf (or_introl eq_refl)).
  destruct (PageTable.map _ _ _ _ _) as [s|]; [destruct Hm as (pos' & ? & ?); split; [by eexists|done]|].
  destruct Hm as [?|Hm]; [done|exact Hm].
Qed.

(** The entry of a mapped page is replaced; the allocator is not touched. *)
Lemma world_entry_spec w L t v e f x :
  world_inv w L → world_table w t → uvpn v → world_find w t v = Some (e, Page4K) →
  (∀ pt own pos, wt w !! t = Some pt → st_ok user_half own (world_state w pt) pos →
     sview (world_state w pt) (indexes v) = Some (e, Page4K) →
     ∃ s, f (world_state w pt) = Some s ∧ PageTable.source s = ws w ∧ st_ok user_half own s pos ∧
       updated user_half (world_state w pt) s (indexes v) Page4K x) →
  ∃ w', on_table w t f = Some w' ∧ world_inv w' L ∧ mem_same L (wm w) (wm w') ∧
    (∀ t', world_table w t' → world_table w' t') ∧ ws w' = ws w ∧ find_update (world_find w) (world_find w') t v x.
Proof.
  intros Hw [pt Hpt] Hv Hf Hop. destruct (table_state w L t pt Hw Hpt) as (own & pos & Hs & _).
  rewrite (find_view w t pt v Hpt) in Hf. destruct (Hop pt own pos Hpt Hs Hf) as (s & Hfs & Hsrc & _).
  pose proof (table_update w L t v f x Hw ltac:(by eexists) Hv) as Hu. unfold on_table in *. rewrite Hpt in *.
  cbn [mbind option_bind] in *. rewrite Hfs in *. cbn [mbind option_bind] in *. eexists. split; [done|].
  destruct Hu as (? & ? & ? & ?); [|by split_and!].
  intros pt' own' pos' [= <-] Hs'. rewrite Hfs. destruct (Hop pt own' pos' eq_refl Hs' Hf) as (s' & Hfs' & _ & ? & ?).
  rewrite Hfs in Hfs'. injection Hfs' as <-. split; [by eexists|done].
Qed.

Lemma world_unmap_spec w L t v e :
  world_inv w L → world_table w t → uvpn v → world_find w t v = Some (e, Page4K) →
  ∃ w', on_table w t (λ s, PageTable.unmap s v) = Some w' ∧ world_inv w' L ∧ mem_same L (wm w) (wm w') ∧
    (∀ t', world_table w t' → world_table w' t') ∧ ws w' = ws w ∧ find_update (world_find w) (world_find w') t v None.
Proof.
  intros Hw Ht Hv Hf. eapply world_entry_spec; [done..|]. intros pt own pos Hpt Hs Hview.
  destruct (unmap_ok user_half own _ pos v e Page4K Hs (proj2 (uvpn_user v Hv)) Hview) as (s & Heq & ? & ?).
  exists s. split_and!; [done| |done|done]. unfold PageTable.unmap in Heq.
  destruct (find_pte_mut _ _ _) as [[[q i] sz]|]; [|done]. simpl in Heq. case_match; [|done]. by injection Heq as <-.
Qed.

Lemma world_set_entry_spec w L t v p f e :
  world_inv w L → world_table w t → uvpn v → world_find w t v = Some (e, Page4K) →
  ∃ w', on_table w t (λ s, PageTable.set_entry s v p f) = Some w' ∧ world_inv w' L ∧ mem_same L (wm w) (wm w') ∧
    (∀ t', world_table w t' → world_table w' t') ∧ ws w' = ws w ∧
    find_update (world_find w) (world_find w') t v (Some (PTE_new p (final_flags f), Page4K)).
Proof.
  intros Hw Ht Hv Hf. eapply world_entry_spec; [done..|]. intros pt own pos Hpt Hs Hview.
  destruct (set_entry_ok user_half own _ pos v p f e Page4K Hs (proj2 (uvpn_user v Hv)) Hview (or_introl eq_refl)) as (s & Heq & ? & ?).
  exists s. split_and!; [done| |done|done]. unfold PageTable.set_entry in Heq.
  destruct (find_pte_mut _ _ _) as [[[q i] sz]|]; [|done]. simpl in Heq. by injection Heq as <-.
Qed.

(** A valid entry moves to a page that is not mapped, unless frames run out. *)
Lemma move_not_refused dom own (s : PageTable.state StackFrameAllocator) pos a b e s' :
  st_ok dom own s pos → in_dom dom (indexes b) → a ≠ b →
  sview s (indexes a) = Some (e, Page4K) → is_valid e = true → sview s (indexes b) = None →
  PageTable.move_entry s a b Page4K ≠ Some (false, s').
Proof.
  intros Hs Hdb Hab Hfa Hval Hfb Hme. unfold PageTable.move_entry in Hme. rewrite decide_False in Hme by done.
  assert (∀ v, find_pte (PageTable.mem s) (PageTable.table s) v = sview s (indexes v)) as Hfv by done.
  rewrite Hfv, Hfa, Hval in Hme. cbn [negb orb] in Hme. rewrite bool_decide_true in Hme by done. cbn [negb orb] in Hme.
  unfold translate in Hme. rewrite Hfv, Hfb in Hme. cbn [fmap option_fmap option_map from_option] in Hme.
  pose proof (create_ok dom own (indexes b) s pos 0 2 (root s) [] Hs) as Hc.
  specialize (Hc (proj2 (pi_root _ _ _ _ (proj1 Hs) _) eq_refl) eq_refl ltac:(lia) ltac:(simpl; lia) Hdb).
  assert (find_loop (PageTable.mem s) 0 (root s) (indexes b) = None) as Hfl
    by (unfold sview, view in Hfb; by destruct (find_loop _ _ (root s) (indexes b)) as [[[? ?] ?]|]).
  specialize (Hc Hfl). unfold find_pte_create in Hme. cbn [walk_level] in Hme. fold (root s) in Hme.
  destruct (create_loop s _ _ _ _) as [[slot s1]|]; [|done]. destruct Hc as (q & j & -> & pos1 & rest & Hs1 & Hq & Hdr & Hnone & _).
  cbn [mbind option_bind] in Hme. pose proof (find_none_leaf _ 2 q j rest ltac:(lia) Hnone) as Hlf. rewrite is_leaf_bits in Hlf.
  apply orb_false_iff in Hlf as [[?|Hlf]%andb_false_iff _]; [done|]. rewrite is_valid_bit, Hlf in Hme.
  destruct (find_pte_mut _ _ _) as [[[? ?] ?]|]; cbn [mbind option_bind] in Hme; [|done]. by case_bool_decide.
Qed.

Definition world_move (w : world) (t : nat) (a b : Z) (sz : PageSize) : option (bool * world) :=
  pt ← wt w !! t; '(r, s) ← PageTable.move_entry (world_state w pt) a b sz; Some (r, put_state w t s).

Lemma world_move_spec w L t a b e :
  world_inv w L → world_table w t → uvpn a → uvpn b → a ≠ b →
  world_find w t a = Some (e, Page4K) → is_valid e = true → world_find w t b = None →
  match world_move w t a b Page4K with
  | None => default 0 (free_frames (ws w)) < 2
  | Some (r, w') => r = true ∧ world_inv w' L ∧ mem_same L (wm w) (wm w') ∧
      (∀ t', world_table w t' → world_table w' t') ∧
      ∀ t' v, uvpn v → world_find w' t' v = if decide (t' = t ∧ v = a) then None
        else if decide (t' = t ∧ v = b) then Some (e, Page4K) else world_find w t' v
  end.
Proof.
  intros Hw [pt Hpt] Ha Hb Hab Hfa Hval Hfb. destruct (table_state w L t pt Hw Hpt) as (own & pos & Hs & Hstep).
  rewrite (find_view w t pt) in Hfa, Hfb by done. unfold world_move. rewrite Hpt. cbn [mbind option_bind].
  destruct (uvpn_user _ Ha) as [Hra Hda], (uvpn_user _ Hb) as [Hrb Hdb].
  pose proof (move_ok user_half own _ pos a b Page4K Hs Hda Hdb) as Hm.
  destruct (PageTable.move_entry _ _ _ _) as [[[|] s]|] eqn:Hme; [| |exact Hm]; cbn [mbind option_bind].
  - destruct Hm as (pos' & Hs' & [[-> _]|(e' & Hv & Hn & Hmv)]); [done|].
    unfold sview, root in Hv. simpl in Hv. rewrite Hfa in Hv. injection Hv as <-.
    destruct (Hstep s pos' Hs' (proj1 Hmv)) as (? & ? & Hoth).
    split_and!; [done..|intros t'; apply put_state_table|]. intros t' v Hv.
    destruct (decide (t' = t)) as [->|Hne].
    + unfold world_find. simpl. rewrite Hpt, list_lookup_insert_eq by (by eapply lookup_lt_Some). simpl. rewrite !find_pte_view.
      destruct (uvpn_user _ Hv) as [Hrv Hdv]. destruct Hmv as [_ Hmv]. specialize (Hmv (indexes v) Hdv).
      unfold sview, root in Hmv. rewrite Hmv.
      pose proof (covers_page Page4K a v Hra Hrv) as Hca. pose proof (covers_page Page4K b v Hrb Hrv) as Hcb.
      change (num_pages Page4K) with 1 in *. rewrite !Z.div_1_r in *.
      repeat (destruct (decide (covers _ _ _)) || destruct (decide (_ ∧ _))); naive_solver.
    + rewrite !decide_False by naive_solver. by apply Hoth.
  - exfalso. by eapply (move_not_refused user_half own (world_state w pt) pos a b e).
Qed.

Lemma world_new_table_spec w L :
  world_inv w L →
  match world_new_table w with
  | None => default 0 (free_frames (ws w)) ≤ 0
  | Some (t, w') => world_inv w' L ∧ mem_same L (wm w) (wm w') ∧ ¬ world_table w t ∧ world_table w' t ∧
      (∀ t', world_table w t' → world_table w' t') ∧ (∀ v, uvpn v → world_find w' t v = None) ∧
      ∀ t' v, uvpn v → world_table w t' → world_find w' t' v = world_find w t' v
  end.
Proof.
  intros Hw. destruct (wi_own _ _ Hw) as (l & D & rest & Hown & Hl & HD). unfold world_new_table.
  pose proof (new_ok user_half _ (wm w) (ws w) l Hown Hl) as Hn. destruct (PageTable.new _ _) as [s|]; [|exact Hn].
  cbn [mbind option_bind]. destruct Hn as (pos & [Hi (l' & Hl' & Hp')] & _ & Hnone & Hmem).
  destruct (share_user_half _ _ (wk w) _ Hi) as [Hi' Hview].
  destruct (fs_owns_ok _ _ Hl') as [Hnd _]. rewrite Hp' in Hnd. apply NoDup_app in Hnd as (_ & Hdis & _).
  assert (∀ q j, q ∈ table_frames (wt w) ++ D ++ rest →
    share_kernel_half (PageTable.mem s) (PageTable.table s) (wk w) q j = wm w q j) as Hfar.
  { intros q j Hq. unfold share_kernel_half. rewrite decide_False; [apply Hmem; intros Hin; by apply (Hdis q)|].
    intros [-> _]. apply (Hdis (root_ppn (PageTable.table s))); [|done].
    apply (pi_frames _ _ _ _ Hi). exists []. by apply (pi_root _ _ _ _ Hi). }
  assert (∀ pt posn q, pt ∈ wt w → pt_inv user_half (wm w) pt posn → is_Some (posn !! q) → q ∈ table_frames (wt w)) as Hin.
  { intros pt posn q Hpt Hposn Hq. apply list_elem_of_bind. exists pt. split; [by apply (pi_frames _ _ _ _ Hposn)|done]. }
  assert (∀ t', world_table w t' → (wt w ++ [PageTable.table s]) !! t' = wt w !! t') as Hold
    by (intros t' [pt Hpt]; by rewrite lookup_app_l by (by eapply lookup_lt_Some)).
  split_and!.
  - split.
    + intros pt. simpl. rewrite elem_of_app, list_elem_of_singleton. intros [Hpt| ->]; [|by exists pos].
      destruct (wi_tables _ _ Hw pt Hpt) as [posn Hposn]. exists posn. eapply pt_inv_ext; [|done].
      intros q j Hq. apply Hfar. apply elem_of_app. left. by eapply Hin.
    + exists l', D, rest. split_and!; [done| |done]. simpl. unfold table_frames. rewrite bind_app. simpl.
      rewrite Hp'. unfold table_frames. solve_perm.
    + apply Hw.
  - intros p i Hp. apply Hfar. apply HD in Hp. set_solver.
  - unfold world_table. rewrite lookup_ge_None_2 by done. by intros [? ?].
  - unfold world_table. simpl. rewrite lookup_app_r, Nat.sub_diag by done. by eexists.
  - intros t' Ht'. unfold world_table. simpl. by rewrite Hold.
  - intros v Hv. unfold world_find. simpl. rewrite lookup_app_r, Nat.sub_diag by done. simpl. rewrite find_pte_view.
    rewrite Hview by (by apply uvpn_user). apply Hnone.
  - intros t' v Hv Ht'. unfold world_find. simpl. rewrite (Hold t' Ht'). destruct Ht' as [pt Hpt]. rewrite Hpt. simpl.
    rewrite !find_pte_view. apply list_elem_of_lookup_2 in Hpt. destruct (wi_tables _ _ Hw pt Hpt) as [posn Hposn].
    eapply view_ext; [done|by apply uvpn_user|]. intros q pre j Hq _. apply Hfar, elem_of_app. left. eapply Hin; [done..|by eexists].
Qed.

(** A change that leaves the pages of the tables alone. *)
Lemma tables_same w w' L :
  world_inv w L → wt w' = wt w → (∀ q j, q ∈ table_frames (wt w) → wm w' q j = wm w q j) →
  (∀ pt, pt ∈ wt w' → ∃ pos, pt_inv user_half (wm w') pt pos) ∧
  (∀ t, world_table w t → world_table w' t) ∧ find_same (world_find w) (world_find w').
Proof.
  intros Hw Ht Hm.
  assert (∀ pt posn q, pt ∈ wt w → pt_inv user_half (wm w) pt posn → is_Some (posn !! q) → q ∈ table_frames (wt w)) as Hin.
  { intros pt posn q Hpt Hposn Hq. apply list_elem_of_bind. exists pt. split; [by apply (pi_frames _ _ _ _ Hposn)|done]. }
  split_and!.
  - intros pt Hpt. rewrite Ht in Hpt. destruct (wi_tables _ _ Hw pt Hpt) as [pos Hpos]. exists pos.
    eapply pt_inv_ext; [|done]. intros q j Hq. apply Hm. by eapply Hin.
  - intros t. unfold world_table. by rewrite Ht.
  - intros t v Hv. unfold world_find. rewrite Ht. destruct (wt w !! t) as [pt|] eqn:Hpt; [|done]. simpl.
    rewrite !find_pte_view. apply list_elem_of_lookup_2 in Hpt. destruct (wi_tables _ _ Hw pt Hpt) as [pos Hpos].
    eapply view_ext; [done|by apply uvpn_user|]. intros q pre j Hq _. apply Hm. eapply Hin; [done..|by eexists].
Qed.

Lemma trackers_cons p q L : trackers p (q :: L) = if decide (q = p) then S (trackers p L) else trackers p L.
Proof. unfold trackers. rewrite filter_cons. by destruct (decide (q = p)). Qed.

Lemma trackers_in p L : p ∈ L → (0 < trackers p L)%nat.
Proof.
  intros Hp. unfold trackers. assert (p ∈ filter (λ q, q = p) L) as Hin by (by apply list_elem_of_filter).
  destruct (filter _ L); [by apply not_elem_of_nil in Hin|simpl; lia].
Qed.

Lemma trackers_notin p L : p ∉ L → trackers p L = 0%nat.
Proof.
  intros Hp. unfold trackers. destruct (filter (λ q, q = p) L) as [|x l] eqn:Hf; [done|]. exfalso.
  assert (x ∈ filter (λ q, q = p) L) as [-> Hx]%list_elem_of_filter by (rewrite Hf; by left). done.
Qed.

(** A tracker more: the counts of the other frames stay. *)
Lemma refs_cons w L p (r : gmap Z nat) :
  (∀ q, wr w !! q = if decide (q ∈ L) then Some (trackers q L) else None) →
  r !! p = Some (S (trackers p L)) → (∀ q, q ≠ p → r !! q = wr w !! q) →
  ∀ q, r !! q = if decide (q ∈ p :: L) then Some (trackers q (p :: L)) else None.
Proof.
  intros Hw Hp Hr q. rewrite trackers_cons. destruct (decide (p = q)) as [->|Hne].
  - rewrite Hp, decide_True by (by left). done.
  - rewrite (Hr q), Hw by done. destruct (decide (q ∈ L)); [by rewrite decide_True by (by right)|].
    rewrite decide_False; [done|]. set_solver.
Qed.

Lemma world_frame_alloc_spec w L :
  world_inv w L →
  wp (world_frame_alloc w Page4K) (λ '(r, w'),
    world_inv w' (option_list r ++ L) ∧ mem_same L (wm w) (wm w') ∧ find_same (world_find w) (world_find w') ∧
    (∀ t', world_table w t' → world_table w' t') ∧ (0 < default 0 (free_frames (ws w)) → is_Some r) ∧
    ∀ p, r = Some p → (p ∉ L) ∧ ∀ i, wm w' p i = 0).
Proof.
  intros Hw. destruct (wi_own _ _ Hw) as (l & D & rest & Hown & Hl & HD). unfold world_frame_alloc.
  destruct (wp_elim _ _ (fs_alloc_spec _ _ Hown)) as ([r a] & Heq & Ho & _ & Hsome). cbn [fs_alloc] in Heq.
  change (FrameAllocator.alloc (ws w) Page4K = Some (r, a)) in Heq. rewrite Heq. cbn [mbind option_bind].
  destruct r as [p|]; cbn [option_list app] in *.
  - destruct (fs_owns_ok _ _ Ho) as [[Hnin _]%NoDup_cons _]. rewrite Hl in Hnin.
    assert (p ∉ L) as HpL by (intros Hp; apply Hnin; apply HD in Hp; set_solver).
    assert (∀ q j, q ≠ p → clear_pages (wm w) p (num_pages Page4K) q j = wm w q j) as Hcl.
    { intros q j Hq. unfold clear_pages. change (num_pages Page4K) with 1. rewrite decide_False; [done|]. lia. }
    edestruct (tables_same w (MkWorld (clear_pages (wm w) p (num_pages Page4K)) a (wt w) (<[p:=1%nat]> (wr w)) (wk w)) L Hw eq_refl)
      as (Htab & Htt & Hfs); [intros q j Hq; apply Hcl; intros ->; apply Hnin; set_solver|].
    apply wp_ret. split_and!; [|intros q i Hq; apply Hcl; intros ->; done|done|done|done|].
    + split; [done| |].
      * exists (p :: l), (p :: D), rest. split_and!; [done|simpl; rewrite Hl; solve_perm|set_solver].
      * apply refs_cons with w; [apply Hw|simpl; by rewrite lookup_insert_eq, trackers_notin|].
        intros q Hq. simpl. by rewrite lookup_insert_ne.
    + intros p' [= <-]. split; [done|]. intros i. simpl. unfold clear_pages. change (num_pages Page4K) with 1.
      rewrite decide_True; [done|]. lia.
  - edestruct (tables_same w (MkWorld (wm w) a (wt w) (wr w) (wk w)) L Hw eq_refl) as (Htab & Htt & Hfs); [done|].
    apply wp_ret. split_and!; [|done..]. split; [done| |apply Hw]. by exists l, D, rest.
Qed.

Lemma world_clone_spec w L p :
  world_inv w L → p ∈ L →
  world_inv (world_clone w p) (p :: L) ∧ (∀ t', world_table w t' → world_table (world_clone w p) t') ∧
  world_find (world_clone w p) = world_find w.
Proof.
  intros Hw Hp. split_and!; [|done|done]. destruct (wi_own _ _ Hw) as (l & D & rest & Hown & Hl & HD). split.
  - apply Hw.
  - exists l, D, rest. split_and!; [done|done|set_solver].
  - apply refs_cons with w; [apply Hw| |].
    + simpl. rewrite lookup_alter_eq, (wi_refs _ _ Hw), decide_True by done. done.
    + intros q Hq. simpl. by rewrite lookup_alter_ne.
Qed.

Lemma world_store_spec w L p c :
  world_inv w L → p ∈ L →
  world_inv (world_store w p c) L ∧ wm (world_store w p c) p = c ∧
  (∀ q, q ≠ p → wm (world_store w p c) q = wm w q) ∧
  (∀ t', world_table w t' → world_table (world_store w p c) t') ∧ find_same (world_find w) (world_find (world_store w p c)).
Proof.
  intros Hw Hp. destruct (wi_own _ _ Hw) as (l & D & rest & Hown & Hl & HD).
  destruct (fs_owns_ok _ _ Hown) as [Hnd _]. rewrite Hl in Hnd. apply NoDup_app in Hnd as (_ & Hdis & _).
  edestruct (tables_same w (world_store w p c) L Hw eq_refl) as (Htab & Htt & Hfs).
  { intros q j Hq. simpl. rewrite decide_False; [done|]. intros ->. apply (Hdis p Hq). apply HD in Hp. set_solver. }
  split_and!; [|simpl; by rewrite decide_True|intros q Hq; simpl; by rewrite decide_False|done|done].
  split; [done| |apply Hw]. by exists l, D, rest.
Qed.

Lemma fa_inv_perm lo a l l' : fa_inv lo a l → l ≡ₚ l' → fa_inv lo a l'.
Proof.
  intros [H1 H2 H3] Hp. split; [done|by rewrite <-Hp|]. by rewrite <-Hp.
Qed.

Lemma fs_owns_dealloc (a : StackFrameAllocator) l p l' :
  fs_owns a l → l ≡ₚ p :: l' → ∃ a', FrameAllocator.dealloc a p Page4K = Some a' ∧ fs_owns a' l' ∧ fs_free a ≤ fs_free a'.
Proof.
  intros (lo & others & Hi) Hp. assert (fa_inv lo a ((p, Page4K) :: ((., Page4K) <$> l') ++ others)) as Hi0.
  { eapply fa_inv_perm; [exact Hi|]. rewrite Hp. done. }
  destruct (dealloc_ok lo a _ p Page4K Hi0) as (a' & Hd & He & Hi'). exists a'. split_and!; [done|by exists lo, others|].
  change (default 0 (free_frames a) ≤ default 0 (free_frames a')). rewrite (free_frames_ok _ _ _ Hi0), (free_frames_ok _ _ _ Hi'), He. cbn [default from_option id].
  pose proof (frames_in_app [(p, Page4K)] (((., Page4K) <$> l') ++ others)). cbn [app] in *.
  assert (0 ≤ frames_in [(p, Page4K)]) by (unfold frames_in; lia). unfold default, id, block in *. lia.
Qed.

Lemma world_drop_spec w L p :
  world_inv w (p :: L) →
  ∃ w', world_drop w p Page4K = Some w' ∧ world_inv w' L ∧ wm w' = wm w ∧ world_find w' = world_find w ∧
    (∀ t', world_table w t' → world_table w' t') ∧ default 0 (free_frames (ws w)) ≤ default 0 (free_frames (ws w')).
Proof.
  intros Hw. destruct (wi_own _ _ Hw) as (l & D & rest & Hown & Hl & HD). unfold world_drop.
  pose proof (wi_refs _ _ Hw) as Hr. rewrite (Hr p), decide_True, trackers_cons, decide_True by (done || by left).
  cbn [mbind option_bind]. destruct (trackers p L) as [|k] eqn:Hc.
  - assert (p ∉ L) as HpL by (intros Hin%trackers_in; lia).
    assert (∃ D', D ≡ₚ p :: D' ∧ (p ∉ D')) as (D' & HD' & Hnin).
    { assert (p ∈ D) as Hin by (apply HD; by left). apply list_elem_of_split in Hin as (D1 & D2 & ->).
      exists (D1 ++ D2). split; [solve_perm|]. destruct (fs_owns_ok _ _ Hown) as [Hnd _]. rewrite Hl in Hnd.
      apply NoDup_app in Hnd as (_ & _ & Hnd). apply NoDup_app in Hnd as (Hnd & _).
      rewrite <-Permutation_middle in Hnd. by apply NoDup_cons in Hnd as [? _]. }
    destruct (fs_owns_dealloc (ws w) l p (table_frames (wt w) ++ D' ++ rest) Hown) as (a' & -> & Ho & Hfree); [rewrite Hl, HD'; solve_perm|].
    eexists. split; [done|]. split_and!; [|done..]. split; [apply Hw| |].
    + exists (table_frames (wt w) ++ D' ++ rest), D', rest. split_and!; [done|done|]. intros q.
      specialize (HD q). rewrite HD', !elem_of_cons in HD. destruct (decide (q = p)) as [->|]; naive_solver.
    + intros q. simpl. destruct (decide (q = p)) as [->|Hq]; [by rewrite lookup_delete_eq, decide_False|].
      rewrite lookup_delete_ne, Hr, trackers_cons, (decide_False (P := p = q)) by done.
      destruct (decide (q ∈ L)); [by rewrite decide_True by (by right)|]. rewrite decide_False; [done|set_solver].
  - assert (p ∈ L) as HpL by (destruct (decide (p ∈ L)); [done|]; rewrite trackers_notin in Hc by done; done).
    eexists. split; [done|]. split_and!; [|done..]. split; [apply Hw|exists l, D, rest; split_and!; [done|done|set_solver]|].
    intros q. simpl. destruct (decide (q = p)) as [->|Hq]; [by rewrite lookup_insert_eq, decide_True, Hc|].
    rewrite lookup_insert_ne, Hr, trackers_cons, (decide_False (P := p = q)) by done.
    destruct (decide (q ∈ L)); [by rewrite decide_True by (by right)|]. rewrite decide_False; [done|set_solver].
Qed.

(** The frames that the tables take. *)
Lemma alloc_free `{FrameSource S_} (s : S_) own r s' :
  fs_owns s own → fs_alloc s = Some (r, s') → (∃ own', fs_owns s' own') ∧ fs_free s ≤ fs_free s' + 1.
Proof.
  intros Ho Ha. destruct (wp_elim _ _ (fs_alloc_spec s own Ho)) as ([r' s1] & Heq & Ho' & Hf & _). rewrite Ha in Heq.
  injection Heq as <- <-. split; [by eexists|]. destruct r; simpl in Hf; lia.
Qed.

Lemma create_free `{FrameSource S_} idxs : ∀ (s : PageTable.state S_) own i level ppn slot s',
  fs_owns (PageTable.source s) own → (i ≤ level)%nat → create_loop s i level ppn idxs = Some (slot, s') →
  fs_free (PageTable.source s) ≤ fs_free (PageTable.source s') + Z.of_nat (level - i).
Proof.
  induction idxs as [|idx rest IH]; intros s own i level ppn slot s' Ho Hi Hc; cbn [create_loop] in Hc.
  { injection Hc as _ <-. lia. }
  destruct (Nat.eqb_spec i level) as [->|Hne]; [injection Hc as _ <-; lia|].
  destruct (is_valid _); cbn [mbind option_bind] in Hc.
  { specialize (IH s own (S i) level _ _ _ Ho ltac:(lia) Hc). lia. }
  unfold add_table, frame_alloc in Hc. destruct (fs_alloc (PageTable.source s)) as [[[p|] s1]|] eqn:Ha; [|done|done].
  cbn [mbind option_bind] in Hc. destruct (alloc_free _ _ _ _ Ho Ha) as [[own' Ho'] Hf].
  apply (IH _ own') in Hc; [|done|lia]. simpl in Hc. lia.
Qed.

Lemma world_map_free w L t v p f w' :
  world_inv w L → on_table w t (λ s, PageTable.map s v p f Page4K) = Some w' →
  default 0 (free_frames (ws w)) ≤ default 0 (free_frames (ws w')) + 2.
Proof.
  intros Hw Hm. destruct (wi_own _ _ Hw) as (l & D & rest & Ho & _). unfold on_table in Hm.
  destruct (wt w !! t) as [pt|]; [|done]. cbn [mbind option_bind] in Hm. unfold PageTable.map, find_pte_create in Hm.
  destruct (create_loop _ _ _ _ _) as [[[[q i]|] s]|] eqn:Hc; cbn [mbind option_bind] in Hm; [|done|done].
  destruct (is_valid _); [done|]. injection Hm as <-.
  apply (create_free _ _ l) in Hc; [exact Hc|done|simpl; lia].
Qed.

Lemma world_move_free w L t a b r w' :
  world_inv w L → world_move w t a b Page4K = Some (r, w') →
  default 0 (free_frames (ws w)) ≤ default 0 (free_frames (ws w')) + 2.
Proof.
  intros Hw Hm. destruct (wi_own _ _ Hw) as (l & D & rest & Ho & _). unfold world_move in Hm.
  destruct (wt w !! t) as [pt|]; [|done]. cbn [mbind option_bind] in Hm. unfold PageTable.move_entry, find_pte_create in Hm.
  destruct (decide (a = b)); [injection Hm as _ <-; simpl; lia|].
  destruct (find_pte _ _ a) as [[e sz]|]; [|injection Hm as _ <-; simpl; lia].
  destruct (_ || _); [injection Hm as _ <-; simpl; lia|]. destruct (from_option _ _ _); [injection Hm as _ <-; simpl; lia|].
  destruct (create_loop _ _ _ _ _) as [[slot s]|] eqn:Hc; cbn [mbind option_bind] in Hm; [|done].
  apply (create_free _ _ l) in Hc; [|done|simpl; lia].
  change (default 0 (free_frames (ws w)) ≤ default 0 (free_frames (PageTable.source s)) + 2) in Hc.
  destruct slot as [[q i]|]; [|injection Hm as _ <-; exact Hc]. destruct (is_valid _); [injection Hm as _ <-; exact Hc|].
  destruct (find_pte_mut _ _ _) as [[[q' i'] sz']|]; cbn [mbind option_bind] in Hm; [|done].
  case_bool_decide; [|done]. injection Hm as _ <-. exact Hc.
Qed.

Lemma world_new_free w L t w' :
  world_inv w L → world_new_table w = Some (t, w') →
  default 0 (free_frames (ws w)) ≤ default 0 (free_frames (ws w')) + 1.
Proof.
  intros Hw Hn. destruct (wi_own _ _ Hw) as (l & D & rest & Ho & _). unfold world_new_table, PageTable.new, frame_alloc in Hn.
  destruct (fs_alloc (ws w)) as [[[p|] s1]|] eqn:Ha; [|done|done]. cbn [mbind option_bind] in Hn. injection Hn as _ <-.
  by destruct (alloc_free _ _ _ _ Ho Ha) as [_ Hf].
Qed.

Lemma world_alloc_free w L r w' :
  world_inv w L → world_frame_alloc w Page4K = Some (r, w') →
  default 0 (free_frames (ws w)) ≤ default 0 (free_frames (ws w')) + 1.
Proof.
  intros Hw Hn. destruct (wi_own _ _ Hw) as (l & D & rest & Ho & _). unfold world_frame_alloc in Hn.
  change (FrameAllocator.alloc (ws w) Page4K) with (fs_alloc (ws w)) in Hn.
  destruct (fs_alloc (ws w)) as [[res s1]|] eqn:Ha; [|done]. destruct (alloc_free _ _ _ _ Ho Ha) as [_ Hf].
  cbn [mbind option_bind] in Hn. destruct res; injection Hn as _ <-; exact Hf.
Qed.

#[export, program] Instance world_mm : Mm world := {|
  mm_find := world_find;
  mm_map w t v p f sz := on_table w t (λ s, PageTable.map s v p f sz);
  mm_unmap w t v := on_table w t (λ s, PageTable.unmap s v);
  mm_set_entry w t v p f := on_table w t (λ s, PageTable.set_entry s v p f);
  mm_move_entry := world_move;
  mm_new_table := world_new_table;
  mm_frame_alloc := world_frame_alloc;
  mm_clone := world_clone;
  mm_drop := world_drop;
  mm_mem := wm;
  mm_store := world_store;
  mm_free w := default 0 (free_frames (ws w));
  mm_table := world_table;
  mm_ok := world_inv;
|}.
Next Obligation.
  intros w L L' [H1 (l & D & rest & Ho & Hl & HD) H3] Hp. split; [done| |].
  - exists l, D, rest. split_and!; [done|done|]. intros q. by rewrite HD, Hp.
  - intros q. rewrite H3. unfold trackers. destruct (decide (q ∈ L)) as [Hq|Hq]; rewrite Hp in Hq; [|by rewrite decide_False].
    rewrite decide_True by done. by rewrite Hp.
Qed.
Next Obligation.
  intros w L p Hw Hp. destruct (wi_own _ _ Hw) as (l & D & rest & Ho & Hl & HD). destruct (fs_owns_ok _ _ Ho) as [_ Hf].
  rewrite Forall_forall in Hf. apply Hf. rewrite Hl. apply HD in Hp. set_solver.
Qed.
Next Obligation. intros. by apply world_map_spec. Qed.
Next Obligation.
  intros w L t v e Hw Ht Hv Hf. destruct (world_unmap_spec w L t v e Hw Ht Hv Hf) as (w' & ? & ? & ? & ? & Hws & ?).
  exists w'. by rewrite Hws.
Qed.
Next Obligation.
  intros w L t v p f e Hw Ht Hv Hf. destruct (world_set_entry_spec w L t v p f e Hw Ht Hv Hf) as (w' & ? & ? & ? & ? & Hws & ?).
  exists w'. by rewrite Hws.
Qed.
Next Obligation. intros. by apply world_move_spec. Qed.
Next Obligation. intros w L Hw. apply (world_new_table_spec w L Hw). Qed.
Next Obligation. intros. by apply world_frame_alloc_spec. Qed.
Next Obligation. intros w L p Hw Hp. by destruct (world_clone_spec w L p Hw Hp) as (? & ? & ?). Qed.
Next Obligation. intros w L p Hw. destruct (world_drop_spec w L p Hw) as (w' & ? & ? & ? & ? & ? & _). by exists w'. Qed.
Next Obligation. intros w L p c Hw Hp. by destruct (world_store_spec w L p c Hw Hp) as (? & ? & ? & ? & ?). Qed.
Next Obligation. intros w L t v p f w' Hw Hm. eapply world_map_free; [exact Hw|exact Hm]. Qed.
Next Obligation. intros w L t a b r w' Hw Hm. by eapply world_move_free. Qed.
Next Obligation. intros w L t w' Hw Hm. by eapply world_new_free. Qed.
Next Obligation. intros w L r w' Hw Hm. by eapply world_alloc_free. Qed.
Next Obligation.
  intros w L p w' Hw Hm. destruct (world_drop_spec w L p Hw) as (w1 & Hd & _ & _ & _ & _ & Hf).
  rewrite Hm in Hd. by injection Hd as <-.
Qed.
