(* ===== verification/MapArea.v ===== *)
(** * Mapped areas (the [MapArea] of os/src/mm/memory_set.rs)

    One contiguous range of pages with its attributes, its resident frames and the
    operations on it: mapping and unmapping pages, filling pages on a fault, and
    changing the range. *)

From S2P Require Import Prelude Address PageTable Mm BTree.

Local Open Scope Z_scope.

(** ** Data *)

(** [Frame]; a [FrameTracker] is a reference to it. *)
Record Frame := MkFrame { f_ppn : Z; f_size : PageSize }.

Inductive MapType := Identical | Framed | File | BorrowedKernel | Windowed | Guard.

#[export] Instance MapType_eq_dec : EqDecision MapType.
Proof. solve_decision. Defined.

(** [backing_file] is a file and the page of it at the start of the area;
    [anonymous_shared_frames] is a reference to a table that forks share.
    [MapPermission] has the bits of the page-table entry. *)
Record MapArea := MkArea {
  vpn_range : SimpleRange;
  data_frames : gmap Z Frame;
  map_type : MapType;
  map_perm : Z;
  is_shared : bool;
  is_locked : bool;
  backing_file : option (nat * Z);
  page_cache_cow : bool;
  file_zero_from : option Z;
  anonymous_shared_frames : option nat;
  futex_mapping_id : Z;
  futex_mapping_start : Z;
  page_size : PageSize;
}.

Definition get_start (a : MapArea) : Z := range_start (vpn_range a).

Definition get_end (a : MapArea) : Z := range_end (vpn_range a).

Definition with_range (g : SimpleRange) (a : MapArea) : MapArea :=
  MkArea g (data_frames a) (map_type a) (map_perm a) (is_shared a) (is_locked a) (backing_file a)
    (page_cache_cow a) (file_zero_from a) (anonymous_shared_frames a) (futex_mapping_id a)
    (futex_mapping_start a) (page_size a).

Definition with_data_frames (d : gmap Z Frame) (a : MapArea) : MapArea :=
  MkArea (vpn_range a) d (map_type a) (map_perm a) (is_shared a) (is_locked a) (backing_file a)
    (page_cache_cow a) (file_zero_from a) (anonymous_shared_frames a) (futex_mapping_id a)
    (futex_mapping_start a) (page_size a).

Definition with_perm (p : Z) (a : MapArea) : MapArea :=
  MkArea (vpn_range a) (data_frames a) (map_type a) p (is_shared a) (is_locked a) (backing_file a)
    (page_cache_cow a) (file_zero_from a) (anonymous_shared_frames a) (futex_mapping_id a)
    (futex_mapping_start a) (page_size a).

Definition with_locked (a : MapArea) : MapArea :=
  MkArea (vpn_range a) (data_frames a) (map_type a) (map_perm a) (is_shared a) true (backing_file a)
    (page_cache_cow a) (file_zero_from a) (anonymous_shared_frames a) (futex_mapping_id a)
    (futex_mapping_start a) (page_size a).

Definition with_backing (b : option (nat * Z)) (a : MapArea) : MapArea :=
  MkArea (vpn_range a) (data_frames a) (map_type a) (map_perm a) (is_shared a) (is_locked a) b
    (page_cache_cow a) (file_zero_from a) (anonymous_shared_frames a) (futex_mapping_id a)
    (futex_mapping_start a) (page_size a).

Definition with_shared (b : bool) (r : option nat) (a : MapArea) : MapArea :=
  MkArea (vpn_range a) (data_frames a) (map_type a) (map_perm a) b (is_locked a) (backing_file a)
    (page_cache_cow a) (file_zero_from a) r (futex_mapping_id a) (futex_mapping_start a) (page_size a).

(** [MapArea::contains] *)
Definition area_contains (a : MapArea) (vpn : Z) : bool := contains (vpn_range a) vpn.

(** [MapArea::new], with the id it takes *)
Definition area_new (start_va end_va : Z) (mt : MapType) (perm : Z) (sz : PageSize) (id : Z) : option MapArea :=
  let start_vpn := VirtAddr_std_floor start_va in
  end_vpn ← VirtAddr_std_ceil end_va;
  g ← SimpleRange_new start_vpn end_vpn;
  Some (MkArea g ∅ mt perm false false None false None None id start_vpn sz).

Definition is_frame_backed_mapping (a : MapArea) : bool :=
  bool_decide (map_type a = Framed) || bool_decide (map_type a = File).

(** [from_another]: the same metadata, nothing resident. *)
Definition from_another (a : MapArea) : MapArea := with_data_frames ∅ a.

(** [clone_meta_with_new_range]: the page of the file moves with the start.  The sum
    is a page number of a file plus one of the address space, far below [2 ^ 64]. *)
Definition clone_meta_with_new_range (a : MapArea) (s e : Z) : option MapArea :=
  g ← SimpleRange_new s e;
  Some (with_backing ((λ '(f, off), (f, off + s - get_start a)) <$> backing_file a)
    (with_range g (with_data_frames ∅ a))).

Definition frame_for_vpn (a : MapArea) (vpn : Z) : option Frame :=
  if (vpn <? get_start a) || (get_end a <=? vpn) then None
  else
    let step := Z.max (num_pages (page_size a)) 1 in
    let base := get_start a + (vpn - get_start a) / step * step in
    match data_frames a !! base with Some f => Some f | None => data_frames a !! vpn end.

Definition initial_pte_permission (a : MapArea) : Z :=
  if page_cache_cow a && flags_contain (map_perm a) W then Z.ldiff (map_perm a) W else map_perm a.

(** [resize] only moves the borders. *)
Definition resize (a : MapArea) (s e : Z) : option MapArea :=
  let old := get_start a in
  g ← SimpleRange_new s e;
  Some (with_range g
    (if old <? s then with_backing ((λ '(f, off), (f, off + (s - old))) <$> backing_file a) a else a)).

(** A frame for a page that has none: a debug assertion checks that. *)
Definition add_frame (a : MapArea) (vpn : Z) (f : Frame) : option MapArea :=
  match data_frames a !! vpn with
  | Some _ => None
  | None => Some (with_data_frames (<[vpn := f]> (data_frames a)) a)
  end.

(** The pages of a [while] loop from [lo] to [hi]. *)
Definition pages (lo hi step : Z) : list Z := (λ i, lo + i * step) <$> seqZ 0 ((hi - lo + step - 1) / step).

(** ** Operations *)

(** What address spaces need from files: the inode number, the permission and the
    size, the frame of a page of the page cache (a tracker of it), and the words a
    read of a page returns, zero beyond the end of the file. *)
Record FileOps (W : Type) := MkFileOps {
  ino : nat → Z;
  file_writable : nat → bool;
  file_size : nat → Z;
  get_shared_page : W → nat → Z → option Z * W;
  get_file_page : W → nat → Z → option Z * W;
  read_page : nat → Z → Z → Z;
}.

#[global] Arguments ino {W} _.
#[global] Arguments file_writable {W} _.
#[global] Arguments file_size {W} _.
#[global] Arguments get_shared_page {W} _.
#[global] Arguments get_file_page {W} _.
#[global] Arguments read_page {W} _.

Section area.
Context {W_ : Type} `{!Mm W_} (F : FileOps W_).

(** The memory below, the frame tables of shared anonymous mappings, the pages
    written back to files, and the two id counters. *)
Record kmm := MkK {
  k_w : W_;
  k_anon : list (gmap Z Frame);
  k_log : list (Z * Z);
  k_next_map : Z;
  k_next_mm : Z;
}.

Implicit Types (k : kmm) (w : W_) (t : nat) (a : MapArea) (vpn : Z).

Definition with_w w k : kmm := MkK w (k_anon k) (k_log k) (k_next_map k) (k_next_mm k).

Definition with_log (e : Z * Z) k : kmm := MkK (k_w k) (k_anon k) (k_log k ++ [e]) (k_next_map k) (k_next_mm k).

Definition with_anon (l : list (gmap Z Frame)) k : kmm := MkK (k_w k) l (k_log k) (k_next_map k) (k_next_mm k).

(** [page_table.translate] *)
Definition pt_translate w t vpn : option PageTableEntry := fst <$> mm_find w t vpn.

Definition pt_valid w t vpn : bool := from_option is_valid false (pt_translate w t vpn).

(** [page_table.set_flags] *)
Definition pt_set_flags w t vpn (flags : Z) : option W_ :=
  e ← pt_translate w t vpn; mm_set_entry w t vpn (PTE_ppn e) flags.

Definition unmap_one k t a vpn : option (option Frame * MapArea * kmm) :=
  match map_type a with
  | Framed | File =>
    match data_frames a !! vpn with
    | None => Some (None, a, k)
    | Some frame =>
      let k :=
        match is_shared a, backing_file a with
        | true, Some (f, base_offset) => with_log (ino F f, base_offset + (vpn - get_start a)) k
        | _, _ => k
        end in
      w ← mm_unmap (k_w k) t vpn;
      Some (Some frame, with_data_frames (delete vpn (data_frames a)) a, with_w w k)
    end
  | Identical | Windowed => w ← mm_unmap (k_w k) t vpn; Some (None, a, with_w w k)
  | BorrowedKernel =>
    match pt_translate (k_w k) t vpn with
    | Some _ => w ← mm_unmap (k_w k) t vpn; Some (None, a, with_w w k)
    | None => Some (None, a, k)
    end
  | Guard => Some (None, a, k)
  end.

(** The loops around [unmap_one], with the frames they collect. *)
Fixpoint unmap_list k t a (vpns : list Z) (frames : list Frame) : option (list Frame * MapArea * kmm) :=
  match vpns with
  | [] => Some (frames, a, k)
  | vpn :: rest => '(f, a, k) ← unmap_one k t a vpn; unmap_list k t a rest (frames ++ option_list f)
  end.

Definition area_unmap k t a : option (list Frame * MapArea * kmm) :=
  unmap_list k t a
    (if is_frame_backed_mapping a then bt_keys (data_frames a)
     else pages (get_start a) (get_end a) (num_pages (page_size a))) [].

Definition area_shrink_to k t a (new_end : Z) : option (list Frame * MapArea * kmm) :=
  '(frames, a, k) ← unmap_list k t a (pages new_end (get_end a) (num_pages (page_size a))) [];
  g ← SimpleRange_new (get_start a) new_end;
  Some (frames, with_range g a, k).

(** Bytes from [off] on are cleared. *)
Definition zero_tail (off : Z) (c : Z → Z) : Z → Z :=
  λ i, if off <=? 8 * i then 0 else if 8 * (i + 1) <=? off then c i else Z.land (c i) (Z.ones (8 * (off - 8 * i))).

Definition READ_AHEAD_PAGES : Z := 64.

(** The frames that [try_map_private_file_pages] collects. *)
Fixpoint collect_frames (n : nat) w t vpn (sz : PageSize) : option (list (Z * Frame) * W_) :=
  match n with
  | O => Some ([], w)
  | S n =>
    let v := VirtPageNum_from vpn in
    if pt_valid w t v then Some ([], w)
    else
      '(r, w) ← mm_frame_alloc w sz;
      match r with
      | None => Some ([], w)
      | Some p => '(l, w) ← collect_frames n w t (vpn + 1) sz; Some ((v, MkFrame p sz) :: l, w)
      end
  end.

(** The reading: page [n + i] of the file into frame [i], then the tail. *)
Fixpoint fill_frames w a (f : nat) (n : Z) (l : list (Z * Frame)) : W_ :=
  match l with
  | [] => w
  | (vpn, frame) :: rest =>
    let c := read_page F f n in
    let page_start := vpn * PAGE_SIZE in
    let c :=
      match file_zero_from a with
      | Some z => if z <? page_start + PAGE_SIZE then zero_tail (saturating_sub z page_start) c else c
      | None => c
      end in
    fill_frames (mm_store w (f_ppn frame) c) a f (n + 1) rest
  end.

Fixpoint map_frames w t a (flags : Z) (sz : PageSize) (l : list (Z * Frame)) : option (MapArea * W_) :=
  match l with
  | [] => Some (a, w)
  | (vpn, frame) :: rest =>
    w ← mm_map w t vpn (f_ppn frame) flags sz;
    a ← add_frame a vpn frame;
    map_frames w t a flags sz rest
  end.

Definition try_map_private_file_pages k t a vpn (sz : PageSize) : option (bool * MapArea * kmm) :=
  match backing_file a with
  | None => Some (false, a, k)
  | Some (f, base) =>
    let relative_page := vpn - get_start a in
    match (n ← checked_add base relative_page; checked_mul n PAGE_SIZE) with
    | None => Some (false, a, k)
    | Some _ =>
      '(l, w) ← collect_frames (Z.to_nat (Z.min READ_AHEAD_PAGES (get_end a - vpn))) (k_w k) t vpn sz;
      match l with
      | [] => Some (false, a, with_w w k)
      | _ =>
        '(a', w) ← map_frames (fill_frames w a f (base + relative_page) l) t a (map_perm a) sz l;
        Some (true, a', with_w w k)
      end
    end
  end.

Definition try_map_shared_file_page k t a vpn (sz : PageSize) : option (bool * MapArea * kmm) :=
  if negb (bool_decide (sz = Page4K)) then Some (false, a, k)
  else
    match backing_file a with
    | None => Some (false, a, k)
    | Some (f, base) =>
      match (r ← checked_sub vpn (get_start a); checked_add base r) with
      | None => Some (false, a, k)
      | Some n =>
        let file_end_page_offset := from_option (λ e, e / PAGE_SIZE) USIZE_MAX (checked_add (file_size F f) (PAGE_SIZE - 1)) in
        if file_end_page_offset <=? n then Some (false, a, k)
        else
          '(r, w) ←
            (if page_cache_cow a then
               match get_file_page F (k_w k) f n with
               | (Some p, w) => Some (Some p, w)
               | (None, w) => mm_frame_alloc w Page4K
               end
             else Some (get_shared_page F (k_w k) f n));
          match r with
          | None => Some (false, a, with_w w k)
          | Some p =>
            w ← mm_map w t vpn p (initial_pte_permission a) sz;
            a ← add_frame a vpn (MkFrame p Page4K);
            Some (true, a, with_w w k)
          end
      end
    end.

(** [frame_alloc] *)
Definition frame_alloc w (sz : PageSize) : option (option Frame * W_) :=
  '(p, w) ← mm_frame_alloc w sz; Some (option_map (λ p, MkFrame p sz) p, w).

(** The frame of a page of a [Framed] area; shared anonymous areas look into their
    table first. *)
Definition framed_frame k a vpn (sz : PageSize) : option (option Frame * kmm) :=
  match anonymous_shared_frames a with
  | Some r =>
    match k_anon k !! r with
    | None => None
    | Some d =>
      match d !! vpn with
      | Some f => Some (Some f, with_w (mm_clone (k_w k) (f_ppn f)) k)
      | None =>
        '(f, w) ← frame_alloc (k_w k) sz;
        match f with
        | None => Some (None, with_w w k)
        | Some f => Some (Some f, with_anon (<[r := <[vpn := f]> d]> (k_anon k)) (with_w (mm_clone w (f_ppn f)) k))
        end
      end
    end
  | None => '(f, w) ← frame_alloc (k_w k) sz; Some (f, with_w w k)
  end.

Definition try_map_one k t a vpn (sz : PageSize) : option (bool * MapArea * kmm) :=
  match map_type a with
  | Identical => w ← mm_map (k_w k) t vpn vpn (initial_pte_permission a) sz; Some (true, a, with_w w k)
  | Windowed =>
    let va := full_addr (VirtAddr_of_page vpn) in
    let ppn := PhysAddr_std_floor (PhysAddr_from (Z.land va (usize_not CACHED_KERNEL_BASE))) in
    w ← mm_map (k_w k) t vpn ppn (initial_pte_permission a) sz; Some (true, a, with_w w k)
  | Framed =>
    '(f, k) ← framed_frame k a vpn sz;
    match f with
    | None => Some (false, a, k)
    | Some f =>
      w ← mm_map (k_w k) t vpn (f_ppn f) (initial_pte_permission a) sz;
      a ← add_frame a vpn f;
      Some (true, a, with_w w k)
    end
  | File =>
    if is_shared a || page_cache_cow a then try_map_shared_file_page k t a vpn sz
    else try_map_private_file_pages k t a vpn sz
  | BorrowedKernel | Guard => Some (false, a, k)
  end.

(** [map_one] asserts that a frame was found. *)
Definition map_one k t a vpn : option (MapArea * kmm) :=
  if bool_decide (map_type a = BorrowedKernel) || bool_decide (map_type a = Guard) then Some (a, k)
  else '(ok, a, k) ← try_map_one k t a vpn (page_size a); if (ok : bool) then Some (a, k) else None.

Fixpoint map_list k t a (vpns : list Z) : option (MapArea * kmm) :=
  match vpns with
  | [] => Some (a, k)
  | vpn :: rest => '(a, k) ← map_one k t a vpn; map_list k t a rest
  end.

Definition area_map k t a : option (MapArea * kmm) :=
  map_list k t a (pages (get_start a) (get_end a) (num_pages (page_size a))).

Definition area_append_to k t a (new_end : Z) : option (MapArea * kmm) :=
  '(a, k) ← map_list k t a (pages (get_end a) new_end (num_pages (page_size a)));
  g ← SimpleRange_new (get_start a) new_end;
  Some (with_range g a, k).

(** [sync_back_to_file] *)
Definition sync_back_to_file k a : kmm :=
  match is_shared a, backing_file a with
  | true, Some (f, offset) =>
    foldl (λ k vpn, with_log (ino F f, offset + (vpn - get_start a)) k) k (pages (get_start a) (get_end a) 1)
  | _, _ => k
  end.

(** Dropping trackers. *)
Fixpoint drop_frames w (l : list Frame) : option W_ :=
  match l with
  | [] => Some w
  | f :: rest => w ← mm_drop w (f_ppn f) (f_size f); drop_frames w rest
  end.
End area.

#[global] Arguments kmm W_ : clear implicits.
