(* ===== verification/MemSet.v ===== *)
(** * Address spaces (the [MemorySet] of os/src/mm/memory_set.rs)

    The tree of mapped areas over a page table, and the operations behind the
    memory system calls: mapping, unmapping, protecting, locking, moving and
    growing areas, page faults, copy on write and fork.  The operations run under
    the write lock of the tree.  TLB flushes are not part of the state. *)

From S2P Require Import Prelude Errno Address PageTable Mm BTree MapArea.

Local Open Scope Z_scope.

Definition USER_APP_BASE : Z := 0x40000000.

Definition USER_APP_MAX_SIZE : Z := Z.shiftl 1 38.

Definition USER_TRAMPOLINE : Z := USER_APP_MAX_SIZE - PAGE_SIZE.

(** [MMapProt] and [MMapFlags] *)
Definition PROT_READ : Z := Z.shiftl 1 0.

Definition PROT_WRITE : Z := Z.shiftl 1 1.

Definition PROT_EXEC : Z := Z.shiftl 1 2.

Definition MAP_SHARED : Z := 0x01.

Definition MAP_FIXED : Z := 0x10.

Definition MAP_ANONYMOUS : Z := 0x20.

(** [MapPermission] of a protection *)
Definition permission_of (prot : Z) : Z :=
  let p := if flags_contain prot PROT_READ then R else 0 in
  let p := if flags_contain prot PROT_WRITE then Z.lor p W else p in
  let p := if flags_contain prot PROT_EXEC then Z.lor p X else p in
  if prot =? 0 then p else Z.lor p U.

(** [VirtAddr::from(a).std_floor()] and [std_ceil()] *)
Definition floor_of (a : Z) : Z := VirtAddr_std_floor (VirtAddr_from a).

Definition ceil_of (a : Z) : option Z := VirtAddr_std_ceil (VirtAddr_from a).

Section memory_set.
Context {W_ : Type} `{!Mm W_} (F : FileOps W_).

Abbreviation kmm := (kmm W_) (only parsing).

Record MemorySet := MkMs {
  ms_table : nat;
  mm_id : Z;
  areas : gmap Z MapArea;
  brk : Z;
  start_brk : Z;
}.

Implicit Types (k : kmm) (ms : MemorySet) (m : gmap Z MapArea) (a : MapArea) (vpn : Z).

Definition with_areas m ms : MemorySet := MkMs (ms_table ms) (mm_id ms) m (brk ms) (start_brk ms).

Definition with_brk (b : Z) ms : MemorySet := MkMs (ms_table ms) (mm_id ms) (areas ms) b (start_brk ms).

(** [futex_mapping_id_alloc]; the counter wraps to the value its assertion refuses. *)
Definition futex_mapping_id_alloc k : option (Z * kmm) :=
  if k_next_map k =? 0 then None
  else Some (k_next_map k, MkK (k_w k) (k_anon k) (k_log k) ((k_next_map k + 1) mod 2 ^ 64) (k_next_mm k)).

(** The area of a page: the last one that starts at or below it, if it reaches it. *)
Definition area_at m vpn : option (Z * MapArea) :=
  '(key, a) ← bt_before m vpn;
  if area_contains a vpn then Some (key, a) else None.

(** ** Placement *)

Fixpoint find_free_loop (l : list (Z * MapArea)) (length_ current_addr : Z) : option (Z + Z) :=
  match l with
  | [] => Some (inr current_addr)
  | (_, a) :: rest =>
    e ← checked_add current_addr length_;
    if e <=? get_start a * PAGE_SIZE then Some (inl current_addr)
    else
      let area_end := get_end a * PAGE_SIZE in
      find_free_loop rest length_ (if current_addr <? area_end then area_end else current_addr)
  end.

Definition find_free_area_locked (length_ : Z) m : option (option Z) :=
  r ← find_free_loop (bt_entries m) length_ (USER_APP_BASE + (USER_APP_MAX_SIZE - USER_APP_BASE) / 2);
  match r with
  | inl addr => Some (Some addr)
  | inr addr => e ← checked_add addr length_; Some (if e <? USER_APP_MAX_SIZE then Some addr else None)
  end.

Definition has_conflict_locked m (start_ len : Z) : option bool :=
  let target_start := floor_of start_ in
  e ← checked_add start_ len;
  target_end ← ceil_of e;
  Some (existsb (λ '(_, a), (get_start a <? target_end) && (target_start <? get_end a)) (bt_entries m)).

(** ** Unmapping *)

Record munmap_acc := MkAcc {
  acc_k : kmm;
  acc_areas : gmap Z MapArea;
  acc_released : list Frame;
  acc_empty : list Z;
  acc_rekey : list (Z * Z);
  acc_new : list MapArea;
}.

(** One turn of the loop over the areas. *)
Definition munmap_step (t : nat) (start_vpn end_vpn : Z) (acc : munmap_acc) (e : Z * MapArea) : option munmap_acc :=
  let '(key, a) := e in
  let k := acc_k acc in
  let a_start := get_start a in
  let a_end := get_end a in
  if (a_start <? end_vpn) && (start_vpn <? a_end) then
    let delete_left := start_vpn <=? a_start in
    let delete_right := a_end <=? end_vpn in
    let step := num_pages (page_size a) in
    if delete_left && delete_right then
      '(frames, a, k) ← unmap_list F k t a (pages a_start a_end step) [];
      a ← resize a a_start a_start;
      Some (MkAcc k (<[key := a]> (acc_areas acc)) (acc_released acc ++ frames) (acc_empty acc ++ [key])
        (acc_rekey acc) (acc_new acc))
    else if negb delete_left && negb delete_right then
      _ ← SimpleRange_new start_vpn end_vpn;
      '(frames, a, k) ← unmap_list F k t a (pages start_vpn end_vpn 1) [];
      let right_frames := bt_from (data_frames a) end_vpn in
      let a := with_data_frames (bt_below (data_frames a) end_vpn) a in
      a ← resize a a_start start_vpn;
      right_area ← clone_meta_with_new_range a end_vpn a_end;
      Some (MkAcc k (<[key := a]> (acc_areas acc)) (acc_released acc ++ frames) (acc_empty acc)
        (acc_rekey acc) (acc_new acc ++ [with_data_frames right_frames right_area]))
    else if delete_left then
      '(frames, a, k) ← unmap_list F k t a (pages a_start end_vpn step) [];
      a ← resize a end_vpn a_end;
      Some (MkAcc k (<[key := a]> (acc_areas acc)) (acc_released acc ++ frames) (acc_empty acc)
        (acc_rekey acc ++ [(key, end_vpn)]) (acc_new acc))
    else
      '(frames, a, k) ← unmap_list F k t a (pages start_vpn a_end step) [];
      a ← resize a a_start start_vpn;
      Some (MkAcc k (<[key := a]> (acc_areas acc)) (acc_released acc ++ frames) (acc_empty acc)
        (acc_rekey acc) (acc_new acc))
  else Some acc.

Fixpoint munmap_loop (t : nat) (start_vpn end_vpn : Z) (acc : munmap_acc) (l : list (Z * MapArea)) : option munmap_acc :=
  match l with
  | [] => Some acc
  | e :: rest => acc ← munmap_step t start_vpn end_vpn acc e; munmap_loop t start_vpn end_vpn acc rest
  end.

Definition rekey_area m (p : Z * Z) : gmap Z MapArea :=
  match m !! p.1 with Some a => <[p.2 := a]> (delete p.1 m) | None => m end.

(** The tree after the loop: empty areas go, moved ones get their new key, right
    halves come in. *)
Definition munmap_finish (acc : munmap_acc) : gmap Z MapArea :=
  foldl (λ m a, <[get_start a := a]> m)
    (foldl rekey_area (foldl (λ m key, delete key m) (acc_areas acc) (acc_empty acc)) (acc_rekey acc)) (acc_new acc).

Definition munmap_locked k ms (start_ length_ : Z) : option (list Frame * kmm * MemorySet) :=
  e ← checked_add start_ length_;
  let start_vpn := floor_of start_ in
  end_vpn ← ceil_of e;
  acc ← munmap_loop (ms_table ms) start_vpn end_vpn (MkAcc k (areas ms) [] [] [] []) (bt_entries (areas ms));
  Some (acc_released acc, acc_k acc, with_areas (munmap_finish acc) ms).

Definition munmap k ms (start_ length_ : Z) : option (kmm * MemorySet) :=
  '(released, k, ms) ← munmap_locked k ms start_ length_;
  w ← drop_frames (k_w k) released;
  Some (with_w w k, ms).

(** ** Mapping *)

Definition insert_area a ms : MemorySet := with_areas (<[get_start a := a]> (areas ms)) ms.

(** The area that [mmap] inserts, and the table of a shared anonymous one. *)
Definition mmap_area k (start_va length_ perm : Z) (shared : bool) (file : option (nat * Z)) : option (MapArea * kmm) :=
  '(id, k) ← futex_mapping_id_alloc k;
  e ← checked_add start_va length_;
  match file with
  | None =>
    a ← area_new (VirtAddr_from start_va) (VirtAddr_from e) Framed perm Page4K id;
    if shared then Some (with_shared true (Some (length (k_anon k))) a, with_anon (k_anon k ++ [∅]) k)
    else Some (a, k)
  | Some b =>
    a ← area_new (VirtAddr_from start_va) (VirtAddr_from e) File perm Page4K id;
    Some (with_shared shared None (with_backing (Some b) a), k)
  end.

(** The count of needed pages is only logged, but computed. *)
Definition mmap k ms (addr length_ prot flags : Z) (file_inner : option nat) (offset : Z)
    : option ((Errno + Z) * kmm * MemorySet) :=
  let page_offset := offset / PAGE_SIZE in
  e ← checked_add addr length_;
  c ← ceil_of e;
  _ ← checked_sub c (floor_of addr);
  let is_anonymous := flags_contain flags MAP_ANONYMOUS in
  let shared := flags_contain flags MAP_SHARED in
  let perm := permission_of prot in
  if negb is_anonymous && bool_decide (file_inner = None) then Some (inl EBADF, k, ms)
  else
    let file := if is_anonymous then None else (λ f, (f, page_offset)) <$> file_inner in
    let place k ms start_va released :=
      '(a, k) ← mmap_area k start_va length_ perm shared file;
      w ← drop_frames (k_w k) released;
      Some (inr start_va, with_w w k, insert_area a ms) in
    if addr =? 0 then
      r ← find_free_area_locked length_ (areas ms);
      match r with
      | Some start_va => place k ms start_va []
      | None => Some (inl EEXIST, k, ms)
      end
    else
      conflict ← has_conflict_locked (areas ms) addr length_;
      if (conflict : bool) then
        if flags_contain flags MAP_FIXED then
          '(released, k, ms) ← munmap_locked k ms addr length_;
          place k ms addr released
        else Some (inl EEXIST, k, ms)
      else place k ms addr [].

(** [insert_file_area], [push_guard_area] and [push] *)
Definition insert_file_area k ms (start_va end_va perm : Z) (sz : PageSize) (file : nat) (page_offset : Z) (shared : bool)
    : option (kmm * MemorySet) :=
  '(id, k) ← futex_mapping_id_alloc k;
  a ← area_new start_va end_va File perm sz id;
  Some (k, insert_area (with_shared shared None (with_backing (Some (file, page_offset)) a)) ms).

Definition push_guard_area k ms (guard_start guard_pages : Z) : option (kmm * MemorySet) :=
  '(id, k) ← futex_mapping_id_alloc k;
  n ← checked_mul guard_pages PAGE_SIZE;
  e ← checked_add guard_start n;
  a ← area_new (VirtAddr_from guard_start) (VirtAddr_from e) Guard 0 Page4K id;
  Some (k, insert_area a ms).

(** [push] without data *)
Definition push k ms a : option (kmm * MemorySet) :=
  '(a, k) ← area_map F k (ms_table ms) a;
  Some (k, insert_area a ms).

Definition insert_framed_area k ms (start_va end_va perm : Z) (sz : PageSize) : option (kmm * MemorySet) :=
  '(id, k) ← futex_mapping_id_alloc k;
  a ← area_new start_va end_va Framed perm sz id;
  push k ms a.

Definition remove_area_with_start_vpn k ms (start_vpn : Z) : option (list Frame * kmm * MemorySet) :=
  match areas ms !! start_vpn with
  | Some a =>
    '(frames, _, k) ← area_unmap F k (ms_table ms) a;
    Some (frames, k, with_areas (delete start_vpn (areas ms)) ms)
  | None => Some ([], k, ms)
  end.

(** ** Splitting, protecting and locking *)

Definition split_area_at m (key split_vpn : Z) : option ((Errno + unit) * gmap Z MapArea) :=
  match m !! key with
  | None => Some (inr (), m)
  | Some a =>
    let area_start := get_start a in
    let area_end := get_end a in
    if (split_vpn <=? area_start) || (area_end <=? split_vpn) then Some (inr (), m)
    else if negb (split_vpn mod num_pages (page_size a) =? 0) then Some (inl EINVAL, m)
    else
      let right_frames := bt_from (data_frames a) split_vpn in
      let a := with_data_frames (bt_below (data_frames a) split_vpn) a in
      right_area ← clone_meta_with_new_range a split_vpn area_end;
      a ← resize a area_start split_vpn;
      Some (inr (), <[split_vpn := with_data_frames right_frames right_area]> (<[key := a]> m))
  end.

(** The areas that meet the range, found from the end. *)
Fixpoint affected_loop (start_vpn : Z) (l : list (Z * MapArea)) (acc : list (Z * MapArea)) : list (Z * MapArea) :=
  match l with
  | [] => acc
  | (key, a) :: rest => if get_end a <=? start_vpn then acc else affected_loop start_vpn rest ((key, a) :: acc)
  end.

Definition affected_areas m (start_vpn end_vpn : Z) : list (Z * MapArea) :=
  affected_loop start_vpn (reverse (filter (λ e, e.1 < end_vpn) (bt_entries m))) [].

(** The checks of [mprotect] and, with [None], of [mlock_range]. *)
Fixpoint check_loop (perm : option Z) (start_vpn end_vpn covered_until : Z) (l : list (Z * MapArea)) : Errno + Z :=
  match l with
  | [] => inr covered_until
  | (_, a) :: rest =>
    if bool_decide (map_type a = Guard) || (covered_until <? get_start a) then inl ENOMEM
    else if match perm, backing_file a with
            | Some p, Some (f, _) => flags_contain p W && is_shared a && negb (file_writable F f)
            | _, _ => false
            end then inl EACCES
    else if negb (bool_decide (page_size a = Page4K)) &&
            (negb (start_vpn mod num_pages (page_size a) =? 0) || negb (end_vpn mod num_pages (page_size a) =? 0)) then inl EINVAL
    else check_loop perm start_vpn end_vpn (if covered_until <? get_end a then get_end a else covered_until) rest
  end.

(** The part that [mprotect] and [mlock_range] share: the checks and the splits. *)
Definition isolate_range m (perm : option Z) (start_vpn end_vpn : Z) : option ((Errno + unit) * gmap Z MapArea) :=
  let affected := affected_areas m start_vpn end_vpn in
  match check_loop perm start_vpn end_vpn start_vpn affected with
  | inl e => Some (inl e, m)
  | inr covered_until =>
    match head affected, last affected with
    | Some (first_key, _), Some (last_key, _) =>
      if covered_until <? end_vpn then Some (inl ENOMEM, m)
      else
        '(r, m) ← split_area_at m last_key end_vpn;
        match r with
        | inl e => Some (inl e, m)
        | inr _ => split_area_at m first_key start_vpn
        end
    | _, _ => Some (inl ENOMEM, m)
    end
  end.

(** The entries of one area get their new flags. *)
Fixpoint set_flags_list (w : W_) (t : nat) (flags : Z) (vpns : list Z) : option W_ :=
  match vpns with
  | [] => Some w
  | vpn :: rest =>
    w ← (if pt_valid w t vpn then pt_set_flags w t vpn flags else Some w);
    set_flags_list w t flags rest
  end.

Fixpoint protect_loop (w : W_) (t : nat) (perm start_vpn end_vpn : Z) m (l : list (Z * MapArea))
    : option (W_ * gmap Z MapArea) :=
  match l with
  | [] => Some (w, m)
  | (key, a) :: rest =>
    if (start_vpn <=? get_start a) && (get_end a <=? end_vpn) then
      let a := with_perm perm a in
      w ← set_flags_list w t (initial_pte_permission a) (pages (get_start a) (get_end a) (num_pages (page_size a)));
      protect_loop w t perm start_vpn end_vpn (<[key := a]> m) rest
    else protect_loop w t perm start_vpn end_vpn m rest
  end.

Definition mprotect k ms (start_ length_ prot : Z) : option ((Errno + unit) * kmm * MemorySet) :=
  if length_ =? 0 then Some (inr (), k, ms)
  else
    match checked_add start_ length_ with
    | None => Some (inl EINVAL, k, ms)
    | Some e =>
      let start_vpn := floor_of start_ in
      end_vpn ← ceil_of e;
      let perm := permission_of prot in
      '(r, m) ← isolate_range (areas ms) (Some perm) start_vpn end_vpn;
      match r with
      | inl e => Some (inl e, k, with_areas m ms)
      | inr _ =>
        '(w, m) ← protect_loop (k_w k) (ms_table ms) perm start_vpn end_vpn m (bt_range m start_vpn end_vpn);
        Some (inr (), with_w w k, with_areas m ms)
      end
    end.

Definition lock_loop (start_vpn end_vpn : Z) m (l : list (Z * MapArea)) : gmap Z MapArea :=
  foldl (λ m '(key, a),
    if (start_vpn <=? get_start a) && (get_end a <=? end_vpn) then <[key := with_locked a]> m else m) m l.

Definition mlock_range ms (start_ length_ : Z) : option ((Errno + unit) * MemorySet) :=
  if length_ =? 0 then Some (inr (), ms)
  else
    match checked_add start_ length_ with
    | None => Some (inl EINVAL, ms)
    | Some e =>
      let start_vpn := floor_of start_ in
      end_vpn ← ceil_of e;
      '(r, m) ← isolate_range (areas ms) None start_vpn end_vpn;
      match r with
      | inl e => Some (inl e, with_areas m ms)
      | inr _ => Some (inr (), with_areas (lock_loop start_vpn end_vpn m (bt_range m start_vpn end_vpn)) ms)
      end
    end.

(** ** Moving and growing *)

Definition mremap_inplace ms (old_addr old_size new_size : Z) : option ((Errno + Z) * MemorySet) :=
  let old_start_vpn := floor_of old_addr in
  match checked_add old_addr old_size, checked_add old_addr new_size with
  | None, _ => Some (inl EINVAL, ms)
  | _, None => Some (inl ENOMEM, ms)
  | Some old_end, Some new_end =>
    old_end_vpn ← ceil_of old_end;
    new_end_vpn ← ceil_of new_end;
    match areas ms !! old_start_vpn with
    | None => Some (inl ENOMEM, ms)
    | Some a =>
      if negb (get_start a =? old_start_vpn) || negb (get_end a =? old_end_vpn) || negb (bool_decide (map_type a = Framed))
      then Some (inl ENOMEM, ms)
      else
        n ← checked_sub new_size old_size;
        conflict ← has_conflict_locked (areas ms) old_end n;
        if (conflict : bool) then Some (inl ENOMEM, ms)
        else
          a ← resize a old_start_vpn new_end_vpn;
          Some (inr old_addr, with_areas (<[old_start_vpn := a]> (areas ms)) ms)
    end
  end.

(** The closure [translate_vpn] of the move. *)
Definition translate_vpn (old_start old_end new_start new_end vpn : Z) : Errno + Z :=
  match checked_sub vpn old_start with
  | None => inl EINVAL
  | Some offset =>
    match checked_add new_start offset with
    | None => inl ENOMEM
    | Some moved =>
      if (vpn <? old_start) || (old_end <=? vpn) || (new_end <=? moved) then inl EINVAL else inr moved
    end
  end.

Fixpoint validate_loop (w : W_) (t : nat) (tr : Z → Errno + Z) (l : list (Z * Frame)) : Errno + unit :=
  match l with
  | [] => inr ()
  | (old_vpn, f) :: rest =>
    match tr old_vpn with
    | inl e => inl e
    | inr new_vpn =>
      match mm_find w t old_vpn with
      | None => inl EINVAL
      | Some (pte, sz) =>
        if negb (is_valid pte) || negb (bool_decide (sz = Page4K)) || negb (PTE_ppn pte =? f_ppn f) || pt_valid w t new_vpn
        then inl EINVAL
        else validate_loop w t tr rest
      end
    end
  end.

(** A refused move is the failing assertion. *)
Fixpoint move_loop (w : W_) (t : nat) (tr : Z → Errno + Z) (l : list (Z * Frame)) : option ((Errno + unit) * W_) :=
  match l with
  | [] => Some (inr (), w)
  | (old_vpn, _) :: rest =>
    match tr old_vpn with
    | inl e => Some (inl e, w)
    | inr new_vpn =>
      '(ok, w) ← mm_move_entry w t old_vpn new_vpn Page4K;
      if (ok : bool) then move_loop w t tr rest else None
    end
  end.

(** The frame table at the new place; a frame that is there already is the failing
    assertion. *)
Fixpoint move_frames (tr : Z → Errno + Z) (l : list (Z * Frame)) (d : gmap Z Frame) : option (Errno + gmap Z Frame) :=
  match l with
  | [] => Some (inr d)
  | (old_vpn, f) :: rest =>
    match tr old_vpn with
    | inl e => Some (inl e)
    | inr new_vpn =>
      match d !! new_vpn with
      | Some _ => None
      | None => move_frames tr rest (<[new_vpn := f]> d)
      end
    end
  end.

Definition mremap_move_private_anon k ms (old_addr old_size new_size : Z) : option ((Errno + Z) * kmm * MemorySet) :=
  if (old_size =? 0) || (new_size <? old_size) then Some (inl EINVAL, k, ms)
  else
    let old_start_vpn := floor_of old_addr in
    match checked_add old_addr old_size with
    | None => Some (inl EINVAL, k, ms)
    | Some old_end =>
      old_end_vpn ← ceil_of old_end;
      match areas ms !! old_start_vpn with
      | None => Some (inl EINVAL, k, ms)
      | Some a =>
        place ← find_free_area_locked new_size (areas ms);
        match place with
        | None => Some (inl ENOMEM, k, ms)
        | Some new_addr =>
          let new_start_vpn := floor_of new_addr in
          match checked_add new_addr new_size with
          | None => Some (inl ENOMEM, k, ms)
          | Some new_end =>
            new_end_vpn ← ceil_of new_end;
            if negb (get_start a =? old_start_vpn) || negb (get_end a =? old_end_vpn) ||
               negb (bool_decide (map_type a = Framed)) || negb (bool_decide (page_size a = Page4K)) || is_shared a ||
               negb (bool_decide (backing_file a = None)) || negb (bool_decide (anonymous_shared_frames a = None))
            then Some (inl EINVAL, k, ms)
            else
              let tr := translate_vpn old_start_vpn old_end_vpn new_start_vpn new_end_vpn in
              let resident := bt_entries (data_frames a) in
              match validate_loop (k_w k) (ms_table ms) tr resident with
              | inl e => Some (inl e, k, ms)
              | inr _ =>
                '(r, w) ← move_loop (k_w k) (ms_table ms) tr resident;
                match r with
                | inl e => Some (inl e, with_w w k, ms)
                | inr _ =>
                  d ← move_frames tr resident ∅;
                  match d with
                  | inl e =>
                    w ← drop_frames w resident.*2;
                    Some (inl e, with_w w k, with_areas (<[old_start_vpn := with_data_frames ∅ a]> (areas ms)) ms)
                  | inr d =>
                    g ← SimpleRange_new new_start_vpn new_end_vpn;
                    let m := delete old_start_vpn (areas ms) in
                    match m !! new_start_vpn with
                    | Some _ => None
                    | None =>
                      Some (inr new_addr, with_w w k,
                        with_areas (<[new_start_vpn := with_range g (with_data_frames d a)]> m) ms)
                    end
                  end
                end
              end
          end
        end
      end
    end.

(** [madvise_dontneed] *)
Fixpoint dontneed_loop k (t : nat) (start_vpn end_vpn : Z) m (l : list (Z * MapArea)) (released : list Frame)
    : option (list Frame * kmm * gmap Z MapArea) :=
  match l with
  | [] => Some (released, k, m)
  | (key, a) :: rest =>
    let discard_start := Z.max start_vpn (get_start a) in
    let discard_end := Z.min end_vpn (get_end a) in
    if (discard_end <=? discard_start) || bool_decide (map_type a = Guard)
    then dontneed_loop k t start_vpn end_vpn m rest released
    else
      '(frames, a, k) ← unmap_list F k t a (pages discard_start discard_end (num_pages (page_size a))) [];
      dontneed_loop k t start_vpn end_vpn (<[key := a]> m) rest (released ++ frames)
  end.

Definition madvise_dontneed k ms (start_ length_ : Z) : option ((Errno + unit) * kmm * MemorySet) :=
  match checked_add start_ length_ with
  | None => Some (inl EINVAL, k, ms)
  | Some e =>
    end_vpn ← ceil_of e;
    '(released, k, m) ← dontneed_loop k (ms_table ms) (floor_of start_) end_vpn (areas ms) (bt_entries (areas ms)) [];
    w ← drop_frames (k_w k) released;
    Some (inr (), with_w w k, with_areas m ms)
  end.

(** ** The heap *)

Fixpoint heap_scan (heap_start_vpn from_vpn to_vpn : Z) (l : list (Z * MapArea)) (target : option (Z * MapArea)) (conflict : bool)
    : option (Z * MapArea) * bool :=
  match l with
  | [] => (target, conflict)
  | (key, a) :: rest =>
    if get_start a <? heap_start_vpn then heap_scan heap_start_vpn from_vpn to_vpn rest target conflict
    else
      let is_target := ((get_start a <=? from_vpn) && (from_vpn <? get_end a)) ||
        ((get_end a =? from_vpn) && (heap_start_vpn <=? get_start a)) in
      if is_target then heap_scan heap_start_vpn from_vpn to_vpn rest (Some (key, a)) conflict
      else heap_scan heap_start_vpn from_vpn to_vpn rest target
        (conflict || ((get_start a <? to_vpn) && (from_vpn <? get_end a)))
  end.

Definition grow_heap_locked k ms (from to : Z) : option ((Errno + unit) * kmm * MemorySet) :=
  from_vpn ← VirtAddr_std_ceil from;
  to_vpn ← VirtAddr_std_ceil to;
  if to_vpn <=? from_vpn then Some (inr (), k, ms)
  else
    heap_start_vpn ← ceil_of (start_brk ms);
    let '(target, conflict) := heap_scan heap_start_vpn from_vpn to_vpn (bt_entries (areas ms)) None false in
    if (conflict : bool) then Some (inl ENOMEM, k, ms)
    else
      match target with
      | Some (key, a) =>
        if to_vpn <=? get_end a then Some (inr (), k, ms)
        else
          '(a, k) ← area_append_to F k (ms_table ms) a to_vpn;
          Some (inr (), k, with_areas (<[key := a]> (areas ms)) ms)
      | None =>
        '(id, k) ← futex_mapping_id_alloc k;
        a ← area_new from to Framed (Z.lor (Z.lor R W) U) Page4K id;
        '(a, k) ← area_map F k (ms_table ms) a;
        Some (inr (), k, insert_area a ms)
      end.

Fixpoint shrink_loop k (t : nat) (from_vpn to_vpn heap_start_vpn : Z) m (l : list (Z * MapArea))
    (frames : list Frame) (empty_keys : list Z) (found : bool) : option (list Frame * list Z * bool * kmm * gmap Z MapArea) :=
  match l with
  | [] => Some (frames, empty_keys, found, k, m)
  | (key, a) :: rest =>
    let a_start := get_start a in
    if (from_vpn <=? a_start) || (get_end a <=? to_vpn) || (a_start <? heap_start_vpn)
    then shrink_loop k t from_vpn to_vpn heap_start_vpn m rest frames empty_keys found
    else
      '(fs, a, k) ←
        (if a_start <? to_vpn then area_shrink_to F k t a to_vpn
         else '(fs, a, k) ← area_unmap F k t a; a ← resize a a_start a_start; Some (fs, a, k));
      shrink_loop k t from_vpn to_vpn heap_start_vpn (<[key := a]> m) rest (frames ++ fs)
        (if get_end a <=? get_start a then empty_keys ++ [key] else empty_keys) true
  end.

(** An empty search is an error, after the changes. *)
Definition shrink_heap_locked k ms (from to : Z) : option ((Errno + unit) * kmm * MemorySet) :=
  from_vpn ← VirtAddr_std_ceil from;
  to_vpn ← VirtAddr_std_ceil to;
  if from_vpn <=? to_vpn then Some (inr (), k, ms)
  else
    heap_start_vpn ← ceil_of (start_brk ms);
    '(frames, empty_keys, found, k, m) ←
      shrink_loop k (ms_table ms) from_vpn to_vpn heap_start_vpn (areas ms) (bt_entries (areas ms)) [] [] false;
    let ms := with_areas (foldl (λ m key, delete key m) m empty_keys) ms in
    w ← drop_frames (k_w k) frames;
    Some ((if (found : bool) then inr () else inl ENOMEM), with_w w k, ms).

(** [change_program_brk]; the number of pages it compares with the free frames is
    divided by the page size a second time. *)
Definition change_program_brk k ms (addr : Z) : option ((Errno + Z) * kmm * MemorySet) :=
  let old_brk := brk ms in
  if addr =? 0 then Some (inr old_brk, k, ms)
  else if addr <? start_brk ms then Some (inl ENOMEM, k, ms)
  else
    old_top ← ceil_of old_brk;
    new_top ← ceil_of addr;
    if old_top =? new_top then Some (inr addr, k, with_brk addr ms)
    else
      let from := VirtAddr_of_page old_top in
      let to := VirtAddr_of_page new_top in
      '(r, k, ms) ←
        (if old_brk <? addr then
           d ← checked_sub new_top old_top;
           if mm_free (k_w k) <? d / PAGE_SIZE then Some (inl ENOMEM, k, ms)
           else grow_heap_locked k ms from to
         else shrink_heap_locked k ms from to);
      match r with
      | inl e => Some (inl e, k, ms)
      | inr _ => Some (inr addr, k, with_brk addr ms)
      end.

(** ** Faults *)

(** [MemorySet::translate] *)
Definition ms_translate k ms vpn : option PageTableEntry :=
  _ ← area_at (areas ms) vpn; pt_translate (k_w k) (ms_table ms) vpn.

Definition handle_page_fault k ms (bad_addr : Z) : option (bool * kmm * MemorySet) :=
  let vpn := floor_of bad_addr in
  match area_at (areas ms) vpn with
  | None => Some (false, k, ms)
  | Some (key, a) =>
    if bool_decide (map_type a = Guard) || negb (flags_contain (map_perm a) U) ||
       (Z.land (map_perm a) (Z.lor (Z.lor R W) X) =? 0) then Some (false, k, ms)
    else if pt_valid (k_w k) (ms_table ms) vpn then Some (false, k, ms)
    else
      '(mapped, a, k) ← try_map_one F k (ms_table ms) a vpn (page_size a);
      Some (mapped, k, with_areas (<[key := a]> (areas ms)) ms)
  end.

(** The copy of a page of [n] base pages. *)
Definition copy_pages (w : W_) (src dst n : Z) : W_ :=
  foldl (λ w i, mm_store w (dst + i) (mm_mem w (src + i))) w (seqZ 0 n).

Definition handle_cow_fault k ms (bad_addr : Z) : option (bool * kmm * MemorySet) :=
  let vpn := floor_of bad_addr in
  match area_at (areas ms) vpn with
  | None => Some (false, k, ms)
  | Some (key, a) =>
    if bool_decide (map_type a = Guard) || is_shared a || negb (flags_contain (map_perm a) W) then Some (false, k, ms)
    else
      let page_count := num_pages (page_size a) in
      let base_vpn := get_start a + (vpn - get_start a) / page_count * page_count in
      match pt_translate (k_w k) (ms_table ms) vpn, frame_for_vpn a vpn with
      | Some pte, Some tracked =>
        if negb (is_valid pte) || writable pte then Some (false, k, ms)
        else if negb (bool_decide (f_size tracked = page_size a)) || negb (f_ppn tracked =? PTE_ppn pte) then Some (false, k, ms)
        else
          '(r, w) ← frame_alloc (k_w k) (page_size a);
          match r with
          | None => Some (false, with_w w k, ms)
          | Some new_frame =>
            let w := copy_pages w (PTE_ppn pte) (f_ppn new_frame) page_count in
            let old_frame := data_frames a !! base_vpn in
            let a := with_data_frames (<[base_vpn := new_frame]> (data_frames a)) a in
            w ← mm_set_entry w (ms_table ms) vpn (f_ppn new_frame) (map_perm a);
            w ← drop_frames w (option_list old_frame);
            Some (true, with_w w k, with_areas (<[key := a]> (areas ms)) ms)
          end
      | _, _ => Some (false, k, ms)
      end
  end.

Definition resolve_cow_or_observe_writable k ms (bad_addr : Z) : option (bool * kmm * MemorySet) :=
  '(ok, k, ms) ← handle_cow_fault k ms bad_addr;
  Some (ok || from_option (λ e, is_valid e && writable e) false (pt_translate (k_w k) (ms_table ms) (floor_of bad_addr)), k, ms).

(** One page of [ensure_writable_user_range] and [ensure_readable_user_range] *)
Definition ensure_writable_page k ms vpn : option (bool * kmm * MemorySet) :=
  let ready e := is_valid e && writable e in
  let page_start := vpn * PAGE_SIZE in
  let entry k ms := pt_translate (k_w k) (ms_table ms) vpn in
  if from_option ready false (entry k ms) then Some (true, k, ms)
  else if from_option is_valid false (entry k ms) then resolve_cow_or_observe_writable k ms page_start
  else
    '(ok, k, ms) ← handle_page_fault k ms page_start;
    if negb ok then Some (false, k, ms)
    else if from_option ready false (entry k ms) then Some (true, k, ms)
    else resolve_cow_or_observe_writable k ms page_start.

Definition ensure_readable_page k ms vpn : option (bool * kmm * MemorySet) :=
  let ready e := is_valid e && readable e in
  let entry k ms := pt_translate (k_w k) (ms_table ms) vpn in
  if from_option ready false (entry k ms) then Some (true, k, ms)
  else if from_option is_valid false (entry k ms) then Some (false, k, ms)
  else
    '(ok, k, ms) ← handle_page_fault k ms (vpn * PAGE_SIZE);
    Some (ok && from_option ready false (entry k ms), k, ms).

(** The loop ends at the page [end_vpn] alone. *)
Fixpoint ensure_loop (fuel : nat) (page : kmm → MemorySet → Z → option (bool * kmm * MemorySet))
    k ms vpn (end_vpn step : Z) : option (bool * kmm * MemorySet) :=
  match fuel with
  | O => None
  | S fuel =>
    '(ok, k, ms) ← page k ms vpn;
    if negb ok then Some (false, k, ms)
    else if vpn =? end_vpn then Some (true, k, ms)
    else v ← checked_add vpn step; ensure_loop fuel page k ms v end_vpn step
  end.

Definition ensure_fuel (vpn end_vpn : Z) : nat :=
  Z.to_nat (if vpn <=? end_vpn then end_vpn - vpn + 1 else 2 ^ VPN_WIDTH - vpn + 1).

Definition ensure_user_range (page : kmm → MemorySet → Z → option (bool * kmm * MemorySet)) k ms (start_ len : Z)
    : option (bool * kmm * MemorySet) :=
  if len =? 0 then Some (true, k, ms)
  else
    let s := VirtAddr_from start_ in
    match list_find (λ '(_, a), VirtAddr_of_page (get_start a) ≤ s < VirtAddr_of_page (get_end a)) (bt_entries (areas ms)) with
    | None => Some (false, k, ms)
    | Some (_, (_, a)) =>
      x ← checked_add start_ len;
      e ← checked_sub x 1;
      let vpn := floor_of start_ in
      let end_vpn := floor_of e in
      ensure_loop (ensure_fuel vpn end_vpn) page k ms vpn end_vpn (num_pages (page_size a))
    end.

Definition ensure_writable_user_range := ensure_user_range ensure_writable_page.

Definition ensure_readable_user_range := ensure_user_range ensure_readable_page.

(** [pte_satisfies] and [check_mmap_page_fault] *)
Definition pte_satisfies k ms vpn (need_read need_write need_exec : bool) : bool :=
  from_option (λ pte, is_valid pte && user_accessible pte && (negb need_read || readable pte) &&
    (negb need_write || writable pte) && (negb need_exec || executable pte)) false (ms_translate k ms vpn).

Definition check_mmap_page_fault k ms (bad_addr : Z) : bool :=
  let vpn := floor_of bad_addr in
  match area_at (areas ms) vpn with
  | None => false
  | Some (_, a) =>
    bool_decide (map_type a = File) && is_shared a && bool_decide (is_Some (backing_file a)) &&
    negb (pt_valid (k_w k) (ms_table ms) vpn)
  end.

(** ** Fork and teardown *)

(** [new_bare] with the kernel half *)
Definition new_bare k : option (kmm * MemorySet) :=
  '(t, w) ← mm_new_table (k_w k);
  if k_next_mm k =? 0 then None
  else Some (MkK w (k_anon k) (k_log k) (k_next_map k) ((k_next_mm k + 1) mod 2 ^ 64), MkMs t (k_next_mm k) ∅ 0 0).

Definition map_user_trampoline k ms (strampoline : Z) : option kmm :=
  v ← VirtPageNum_of_addr (VirtAddr_from USER_TRAMPOLINE);
  p ← PhysPageNum_of_addr (PhysAddr_from (Z.land strampoline (usize_not CACHED_KERNEL_BASE)));
  w ← mm_map (k_w k) (ms_table ms) v p (Z.lor (Z.lor R X) U) Page4K;
  Some (with_w w k).

(** One resident page of an area in a fork: the child shares the frame, and both
    sides lose the right to write when the mapping is private and writable. *)
Definition fork_page (w : W_) (parent child : nat) a (child_area : MapArea) vpn : option (W_ * MapArea) :=
  match pt_translate w parent vpn, data_frames a !! vpn with
  | Some src_pte, Some f =>
    if negb (is_valid src_pte) || negb (PTE_ppn src_pte =? f_ppn f) then Some (w, child_area)
    else
      let writable_cow := flags_contain (map_perm a) W && negb (is_shared a) in
      let perm := if writable_cow then Z.ldiff (map_perm a) W else map_perm a in
      w ← mm_map (mm_clone w (f_ppn f)) child vpn (PTE_ppn src_pte) perm (page_size a);
      let child_area := with_data_frames (<[vpn := f]> (data_frames child_area)) child_area in
      w ← (if writable_cow then pt_set_flags w parent vpn perm else Some w);
      Some (w, child_area)
  | _, _ => Some (w, child_area)
  end.

Fixpoint fork_pages (w : W_) (parent child : nat) a (child_area : MapArea) (vpns : list Z) : option (W_ * MapArea) :=
  match vpns with
  | [] => Some (w, child_area)
  | vpn :: rest => '(w, child_area) ← fork_page w parent child a child_area vpn; fork_pages w parent child a child_area rest
  end.

(** The areas that are copied page by page. *)
Fixpoint fork_copy (w : W_) (parent child : nat) (sz : PageSize) (vpns : list Z) : option W_ :=
  match vpns with
  | [] => Some w
  | vpn :: rest =>
    w ← match pt_translate w parent vpn with
        | Some src_pte =>
          if is_valid src_pte then
            dst ← pt_translate w child vpn;
            Some (copy_pages w (PTE_ppn src_pte) (PTE_ppn dst) (num_pages sz))
          else Some w
        | None => Some w
        end;
    fork_copy w parent child sz rest
  end.

Definition fork_area k ms (child : MemorySet) a : option (kmm * MemorySet) :=
  match map_type a with
  | BorrowedKernel => Some (k, child)
  | Guard => Some (k, insert_area (from_another a) child)
  | _ =>
    if (negb (flags_contain (map_perm a) U) || (Z.land (map_perm a) (Z.lor (Z.lor R W) X) =? 0)) &&
       bool_decide (data_frames a = ∅)
    then Some (k, insert_area (from_another a) child)
    else if is_frame_backed_mapping a then
      let mapped_vpns := filter (λ v, get_start a ≤ v < get_end a) (bt_keys (data_frames a)) in
      '(w, child_area) ← fork_pages (k_w k) (ms_table ms) (ms_table child) a (from_another a) mapped_vpns;
      Some (with_w w k, insert_area child_area child)
    else
      '(k, child) ← push k child (from_another a);
      w ← fork_copy (k_w k) (ms_table ms) (ms_table child) (page_size a)
            (pages (get_start a) (get_end a) (num_pages (page_size a)));
      Some (with_w w k, child)
  end.

Fixpoint fork_areas k ms (child : MemorySet) (l : list (Z * MapArea)) : option (kmm * MemorySet) :=
  match l with
  | [] => Some (k, child)
  | (_, a) :: rest => '(k, child) ← fork_area k ms child a; fork_areas k ms child rest
  end.

(** [from_existed_user] *)
Definition from_existed_user k ms (strampoline : Z) : option (kmm * MemorySet) :=
  '(k, child) ← new_bare k;
  k ← map_user_trampoline k child strampoline;
  '(k, child) ← fork_areas k ms child (bt_entries (areas ms));
  Some (k, MkMs (ms_table child) (mm_id child) (areas child) (brk ms) (start_brk ms)).

(** [recycle_data_pages] *)
Fixpoint recycle_loop k (t : nat) (l : list (Z * MapArea)) (frames : list Frame) : option (list Frame * kmm) :=
  match l with
  | [] => Some (frames, k)
  | (_, a) :: rest => '(fs, _, k) ← area_unmap F k t a; recycle_loop k t rest (frames ++ fs)
  end.

Definition recycle_data_pages k ms : option (kmm * MemorySet) :=
  '(frames, k) ← recycle_loop k (ms_table ms) (bt_entries (areas ms)) [];
  w ← drop_frames (k_w k) frames;
  Some (with_w w k, with_areas ∅ ms).

Definition sync_shared_pages k ms : kmm := foldl (λ k e, sync_back_to_file F k e.2) k (bt_entries (areas ms)).
End memory_set.
