(* ===== verification/Space.v ===== *)
(** * Well-formed address spaces

    What an address space shows of each page, whatever the areas it is cut into
    ([page_at]), the invariant that ties the tree of areas, the page table and the
    trackers of the frames together ([sp_ok]), and the lemmas for the two changes
    all operations are made of: an area leaves the tree, an area comes in. *)

From S2P Require Import Prelude Address PageTable Mm BTree MapArea MemSet.

Local Open Scope Z_scope.

(** The page of the signal trampoline, above all areas. *)
Definition user_top : Z := 2 ^ 26 - 1.

(** ** Pages *)

(** The attributes of one page: those of its area, its page of the file, and the
    frame that is resident. *)
Record page := MkPage {
  pg_type : MapType;
  pg_perm : Z;
  pg_shared : bool;
  pg_locked : bool;
  pg_back : option (nat * Z);
  pg_cow : bool;
  pg_zero : option Z;
  pg_anon : option nat;
  pg_id : Z;
  pg_base : Z;
  pg_frame : option Frame;
}.

Definition page_of (a : MapArea) (vpn : Z) : page :=
  MkPage (map_type a) (map_perm a) (is_shared a) (is_locked a)
    ((λ '(f, off), (f, off + (vpn - get_start a))) <$> backing_file a) (page_cache_cow a) (file_zero_from a)
    (anonymous_shared_frames a) (futex_mapping_id a) (futex_mapping_start a) (data_frames a !! vpn).

Definition page_at (m : gmap Z MapArea) (vpn : Z) : option page := (λ e, page_of e.2 vpn) <$> area_at m vpn.

Definition with_frame (f : option Frame) (p : page) : page :=
  MkPage (pg_type p) (pg_perm p) (pg_shared p) (pg_locked p) (pg_back p) (pg_cow p) (pg_zero p) (pg_anon p)
    (pg_id p) (pg_base p) f.

Definition page_perm (perm : Z) (p : page) : page :=
  MkPage (pg_type p) perm (pg_shared p) (pg_locked p) (pg_back p) (pg_cow p) (pg_zero p) (pg_anon p)
    (pg_id p) (pg_base p) (pg_frame p).

Definition page_locked (p : page) : page :=
  MkPage (pg_type p) (pg_perm p) (pg_shared p) true (pg_back p) (pg_cow p) (pg_zero p) (pg_anon p)
    (pg_id p) (pg_base p) (pg_frame p).

(** ** Trees of areas *)

Definition inside (a : MapArea) (vpn : Z) : Prop := get_start a ≤ vpn < get_end a.

#[export] Instance inside_dec a vpn : Decision (inside a vpn).
Proof. unfold inside. apply _. Defined.

(** An area of a user address space. *)
Record area_ok (a : MapArea) : Prop := {
  ao_range : 0 ≤ get_start a < get_end a;
  ao_top : get_end a ≤ user_top;
  ao_type : map_type a = Framed ∨ map_type a = File ∨ map_type a = Guard;
  ao_size : page_size a = Page4K;
  ao_perm : 0 ≤ map_perm a < 2 ^ 5;
  ao_frames vpn f : data_frames a !! vpn = Some f → inside a vpn ∧ f_size f = Page4K;
  ao_guard : map_type a = Guard → data_frames a = ∅;
}.

Record tree_ok (m : gmap Z MapArea) : Prop := {
  to_area key a : m !! key = Some a → key = get_start a ∧ area_ok a;
  to_disjoint key key' a a' vpn :
    m !! key = Some a → m !! key' = Some a' → inside a vpn → inside a' vpn → key = key';
}.

Lemma area_contains_inside a vpn : area_contains a vpn = true ↔ inside a vpn.
Proof. unfold area_contains, contains, inside, get_start, get_end. rewrite andb_true_iff, Z.leb_le, Z.ltb_lt. done. Qed.

(** The look-up by the last start at or below the page finds the area of the page. *)
Lemma area_at_Some m vpn key a : tree_ok m → area_at m vpn = Some (key, a) ↔ m !! key = Some a ∧ inside a vpn.
Proof.
  intros Hm. unfold area_at. split.
  - destruct (bt_before m vpn) as [[k x]|] eqn:Hb; [|done]. simpl. destruct (area_contains x vpn) eqn:Hc; [|done].
    intros [= -> ->]. apply bt_before_Some in Hb as (? & _). by apply area_contains_inside in Hc.
  - intros [Hk Hin]. destruct (to_area _ Hm _ _ Hk) as [-> Ha].
    destruct (bt_before m vpn) as [[k x]|] eqn:Hb; simpl.
    + apply bt_before_Some in Hb as (Hx & Hle & Hmax). specialize (Hmax (get_start a) ltac:(by eexists) (proj1 Hin)).
      destruct (to_area _ Hm _ _ Hx) as [-> Hxo]. pose proof (ao_range _ Hxo).
      assert (get_start a = get_start x) as Heq.
      { apply (to_disjoint _ Hm _ _ a x (get_start x)); [done|done| |]; unfold inside in *; lia. }
      rewrite Heq, Hx in Hk. injection Hk as ->. by rewrite (proj2 (area_contains_inside _ _)).
    + rewrite bt_before_None in Hb. specialize (Hb (get_start a) ltac:(by eexists)). unfold inside in Hin. lia.
Qed.

Lemma page_at_Some m vpn p :
  tree_ok m → page_at m vpn = Some p ↔ ∃ key a, m !! key = Some a ∧ inside a vpn ∧ p = page_of a vpn.
Proof.
  intros Hm. unfold page_at. rewrite fmap_Some. split.
  - intros ([key a] & Ha & ->). apply area_at_Some in Ha as [? ?]; [|done]. by exists key, a.
  - intros (key & a & Hk & Hin & ->). exists (key, a). split; [|done]. by apply area_at_Some.
Qed.

Lemma page_at_area m key a vpn : tree_ok m → m !! key = Some a → inside a vpn → page_at m vpn = Some (page_of a vpn).
Proof. intros Hm Hk Hin. apply page_at_Some; [done|]. by exists key, a. Qed.

Lemma page_at_None m vpn :
  tree_ok m → page_at m vpn = None ↔ ∀ key a, m !! key = Some a → ¬ inside a vpn.
Proof.
  intros Hm. split.
  - intros Hn key a Hk Hin. by rewrite (page_at_area m key a) in Hn.
  - intros Hn. destruct (page_at m vpn) as [p|] eqn:Hp; [|done]. apply page_at_Some in Hp as (? & ? & ? & ? & ?); [|done].
    naive_solver.
Qed.

Lemma page_at_range m vpn p : tree_ok m → page_at m vpn = Some p → 0 ≤ vpn < user_top.
Proof.
  intros Hm (key & a & Hk & Hin & ->)%page_at_Some; [|done]. destruct (to_area _ Hm _ _ Hk) as [_ Ha].
  pose proof (ao_range _ Ha). pose proof (ao_top _ Ha). unfold inside in Hin. lia.
Qed.

Lemma page_perm_range m vpn p : tree_ok m → page_at m vpn = Some p → 0 ≤ pg_perm p < 2 ^ 5.
Proof. intros Hm (key & a & Hk & Hin & ->)%page_at_Some; [|done]. destruct (to_area _ Hm _ _ Hk) as [_ Ha]. apply Ha. Qed.

(** An area leaves. *)
Lemma tree_delete m key a :
  tree_ok m → m !! key = Some a →
  tree_ok (delete key m) ∧ ∀ vpn, page_at (delete key m) vpn = if decide (inside a vpn) then None else page_at m vpn.
Proof.
  intros Hm Hk. assert (tree_ok (delete key m)) as Hd.
  { split.
    - intros k b [_ Hb]%lookup_delete_Some. by apply (to_area _ Hm).
    - intros k k' b b' v [_ Hb]%lookup_delete_Some [_ Hb']%lookup_delete_Some. by apply (to_disjoint _ Hm). }
  split; [done|]. intros vpn. destruct (decide (inside a vpn)) as [Hin|Hin].
  - apply page_at_None; [done|]. intros k b [Hne Hb]%lookup_delete_Some Hb'. apply Hne. by eapply (to_disjoint _ Hm).
  - destruct (page_at m vpn) as [p|] eqn:Hp.
    + apply page_at_Some in Hp as (k & b & Hb & Hbin & ->); [|done]. apply page_at_area with k; [done| |done].
      rewrite lookup_delete_ne; [done|]. intros ->. naive_solver.
    + rewrite page_at_None in Hp |- * by done. intros k b [_ Hb]%lookup_delete_Some. by eapply Hp.
Qed.

(** An area comes in where there are no pages. *)
Lemma tree_insert m a :
  tree_ok m → area_ok a → (∀ vpn, inside a vpn → page_at m vpn = None) →
  m !! get_start a = None ∧ tree_ok (<[get_start a := a]> m) ∧
  ∀ vpn, page_at (<[get_start a := a]> m) vpn = if decide (inside a vpn) then Some (page_of a vpn) else page_at m vpn.
Proof.
  intros Hm Ha Hfree.
  assert (∀ k b v, m !! k = Some b → inside b v → inside a v → False) as Hno.
  { intros k b v Hb Hbv Hav. specialize (Hfree v Hav). rewrite page_at_None in Hfree by done. by eapply Hfree. }
  assert (m !! get_start a = None) as Hn.
  { destruct (m !! get_start a) as [b|] eqn:Hb; [|done]. destruct (to_area _ Hm _ _ Hb) as [Heq Hbo].
    pose proof (ao_range _ Ha). pose proof (ao_range _ Hbo).
    exfalso. apply (Hno _ b (get_start a) Hb); unfold inside; lia. }
  assert (tree_ok (<[get_start a := a]> m)) as Hi.
  { split.
    - intros k b [[<- <-]|[_ Hb]]%lookup_insert_Some; [done|]. by apply (to_area _ Hm).
    - intros k k' b b' v [[<- <-]|[_ Hb]]%lookup_insert_Some [[<- <-]|[_ Hb']]%lookup_insert_Some Hbv Hbv'; [done| | |].
      + exfalso. by eapply Hno.
      + exfalso. by eapply Hno.
      + by eapply (to_disjoint _ Hm). }
  split_and!; [done|done|]. intros vpn. destruct (decide (inside a vpn)) as [Hin|Hin].
  - apply page_at_area with (get_start a); [done|apply lookup_insert_eq|done].
  - destruct (page_at m vpn) as [p|] eqn:Hp.
    + apply page_at_Some in Hp as (k & b & Hb & Hbin & ->); [|done]. apply page_at_area with k; [done| |done].
      rewrite lookup_insert_ne; [done|]. intros <-. congruence.
    + rewrite page_at_None in Hp |- * by done. intros k b [[<- <-]|[_ Hb]]%lookup_insert_Some; [done|]. by eapply Hp.
Qed.

(** An area is replaced by one over some of its pages. *)
Lemma tree_replace m key a a' :
  tree_ok m → m !! key = Some a → area_ok a' → get_start a' = key → (∀ v, inside a' v → inside a v) →
  tree_ok (<[key := a']> m) ∧
  ∀ vpn, page_at (<[key := a']> m) vpn =
    if decide (inside a' vpn) then Some (page_of a' vpn) else if decide (inside a vpn) then None else page_at m vpn.
Proof.
  intros Hm Hk Ha' <- Hsub. destruct (tree_delete m _ a Hm Hk) as [Hd Hpd].
  destruct (tree_insert (delete (get_start a') m) a' Hd Ha') as (_ & Hi & Hpi).
  { intros v Hv. rewrite Hpd. by rewrite decide_True by auto. }
  rewrite insert_delete_eq in Hi, Hpi. split; [done|]. intros vpn. rewrite Hpi. by destruct (decide _); [|rewrite Hpd].
Qed.

(** New frames for an area. *)
Lemma area_frames_ok a d :
  area_ok a → (∀ v f, d !! v = Some f → inside a v ∧ f_size f = Page4K) → (map_type a = Guard → d = ∅) →
  area_ok (with_data_frames d a).
Proof. intros [] Hd Hg. by split. Qed.

Lemma tree_frames m key a d :
  tree_ok m → m !! key = Some a → (∀ v f, d !! v = Some f → inside a v ∧ f_size f = Page4K) → (map_type a = Guard → d = ∅) →
  tree_ok (<[key := with_data_frames d a]> m) ∧
  ∀ v, page_at (<[key := with_data_frames d a]> m) v =
    if decide (inside a v) then Some (with_frame (d !! v) (page_of a v)) else page_at m v.
Proof.
  intros Hm Hk Hd Hg. destruct (to_area _ Hm _ _ Hk) as [-> Ha].
  destruct (tree_replace m (get_start a) a (with_data_frames d a) Hm Hk) as [Ht Hp]; [by apply area_frames_ok|done|done|].
  split; [done|]. intros v. rewrite Hp. change (inside (with_data_frames d a) v) with (inside a v). by destruct (decide _).
Qed.

(** ** The trackers an address space holds *)

Definition frames_of (a : MapArea) : list Z := (λ e, f_ppn e.2) <$> map_to_list (data_frames a).

Definition held (m : gmap Z MapArea) : list Z := map_to_list m ≫= λ e, frames_of e.2.

Lemma held_insert m key a : m !! key = None → held (<[key := a]> m) ≡ₚ frames_of a ++ held m.
Proof. intros Hk. unfold held. by rewrite (map_to_list_insert m key a Hk). Qed.

Lemma held_delete m key a : m !! key = Some a → held m ≡ₚ frames_of a ++ held (delete key m).
Proof. intros Hk. rewrite <-held_insert by apply lookup_delete_eq. by rewrite insert_delete_id. Qed.

Lemma held_replace m key a a' : m !! key = Some a → held (<[key := a']> m) ++ frames_of a ≡ₚ held m ++ frames_of a'.
Proof.
  intros Hk. rewrite <-(insert_delete_eq m key a'), held_insert by apply lookup_delete_eq.
  rewrite (held_delete m key a Hk). solve_perm.
Qed.

Lemma frames_of_insert a vpn f :
  data_frames a !! vpn = None → frames_of (with_data_frames (<[vpn := f]> (data_frames a)) a) ≡ₚ f_ppn f :: frames_of a.
Proof. intros Hn. unfold frames_of. simpl. by rewrite (map_to_list_insert (data_frames a) vpn f Hn). Qed.

Lemma frames_of_delete a vpn f :
  data_frames a !! vpn = Some f → frames_of a ≡ₚ f_ppn f :: frames_of (with_data_frames (delete vpn (data_frames a)) a).
Proof. intros Hf. unfold frames_of. simpl. by rewrite <-(map_to_list_delete (data_frames a) vpn f Hf). Qed.

Lemma elem_of_frames a p : p ∈ frames_of a ↔ ∃ vpn f, data_frames a !! vpn = Some f ∧ f_ppn f = p.
Proof.
  unfold frames_of. rewrite list_elem_of_fmap. split.
  - intros ([v f] & -> & Hin%elem_of_map_to_list). by exists v, f.
  - intros (v & f & Hf & <-). exists (v, f). by rewrite elem_of_map_to_list.
Qed.

Lemma elem_of_held m p : tree_ok m → p ∈ held m ↔ ∃ vpn pg f, page_at m vpn = Some pg ∧ pg_frame pg = Some f ∧ f_ppn f = p.
Proof.
  intros Hm. unfold held. rewrite list_elem_of_bind. split.
  - intros ([k a] & (v & f & Hf & <-)%elem_of_frames & Hk%elem_of_map_to_list). simpl in *.
    destruct (to_area _ Hm _ _ Hk) as [_ Ha]. destruct (ao_frames _ Ha _ _ Hf) as [Hin _].
    exists v, (page_of a v), f. split_and!; [by apply page_at_area with k|done|done].
  - intros (v & pg & f & Hp & Hf & <-). apply page_at_Some in Hp as (k & a & Hk & Hin & ->); [|done].
    exists (k, a). rewrite elem_of_map_to_list. split; [|done]. apply elem_of_frames. by exists v, f.
Qed.

(** ** The invariant *)

(** The entry of a resident page: the frame, and the rights of the page, except
    that the right to write may be withheld until the page is copied. *)
Record pte_for (perm : Z) (f : Frame) (e : PageTableEntry) : Prop := {
  pf_valid : is_valid e = true;
  pf_ppn : PTE_ppn e = f_ppn f;
  pf_read : readable e = Z.testbit perm 1;
  pf_exec : executable e = Z.testbit perm 3;
  pf_user : user_accessible e = Z.testbit perm 4;
  pf_write : writable e = true → Z.testbit perm 2 = true;
}.

Definition pte_ok (p : option page) (x : option (PageTableEntry * PageSize)) : Prop :=
  match p ≫= pg_frame with
  | None => x = None
  | Some f => ∃ e, x = Some (e, Page4K) ∧ pte_for (default 0 (pg_perm <$> p)) f e
  end.

Lemma has_flag_new k ppn fl : 0 ≤ k < 6 → has_flag (Z.shiftl 1 k) (PTE_new ppn (final_flags fl)) = (k =? 0) || Z.testbit fl k.
Proof. intros Hk. rewrite has_flag_bit, PTE_new_bit, final_flags_bit by lia. done. Qed.

Lemma ldiff_W_bit perm k : 0 ≤ k → Z.testbit (Z.ldiff perm W) k = Z.testbit perm k && negb (k =? 2).
Proof.
  intros Hk. rewrite Z.ldiff_spec. f_equal. f_equal. unfold W. rewrite Z.shiftl_1_l, Z.pow2_bits_eqb by lia.
  apply Z.eqb_sym.
Qed.

Lemma testbit_small x n k : 0 ≤ x → 0 ≤ n ≤ k → x < 2 ^ n → Z.testbit x k = false.
Proof.
  intros Hx Hn Hlt. destruct (decide (x = 0)) as [->|]; [apply Z.bits_0|]. apply Z.bits_above_log2; [done|].
  apply Z.log2_lt_pow2; [lia|]. apply Z.lt_le_trans with (2 ^ n); [done|]. apply Z.pow_le_mono_r; lia.
Qed.

Lemma ldiff_W_range perm : 0 ≤ perm < 2 ^ 5 → 0 ≤ Z.ldiff perm W < 2 ^ 5.
Proof.
  intros Hp. assert (0 ≤ Z.ldiff perm W) by (apply Z.ldiff_nonneg; lia). split; [done|].
  destruct (decide (Z.ldiff perm W = 0)) as [->|]; [lia|].
  apply Z.log2_lt_pow2; [lia|]. destruct (Z.lt_ge_cases (Z.log2 (Z.ldiff perm W)) 5) as [|Hge]; [done|].
  exfalso. pose proof (Z.bit_log2 (Z.ldiff perm W) ltac:(lia)) as Hb. rewrite ldiff_W_bit in Hb by lia.
  by rewrite (testbit_small perm 5) in Hb by lia.
Qed.

(** The entries that [map], [set_entry] and [set_flags] write. *)
Lemma pte_for_new perm fl f :
  0 ≤ f_ppn f < 2 ^ 44 → 0 ≤ perm < 2 ^ 5 → fl = perm ∨ fl = Z.ldiff perm W →
  pte_for perm f (PTE_new (f_ppn f) (final_flags fl)) ∧ writable (PTE_new (f_ppn f) (final_flags fl)) = Z.testbit fl 2.
Proof.
  intros Hf Hp Hfl. assert (0 ≤ fl < 2 ^ 5) as Hr by (destruct Hfl as [->| ->]; [done|by apply ldiff_W_range]).
  assert (∀ k, 0 ≤ k → k ≠ 2 → Z.testbit fl k = Z.testbit perm k) as Hb.
  { intros k Hk Hk2. destruct Hfl as [->| ->]; [done|]. rewrite ldiff_W_bit by done.
    rewrite (proj2 (Z.eqb_neq k 2)) by done. apply andb_true_r. }
  assert (writable (PTE_new (f_ppn f) (final_flags fl)) = Z.testbit fl 2) as Hw by (by apply (has_flag_new 2)).
  split; [split|done].
  - by apply (has_flag_new 0).
  - apply PTE_ppn_new; [done|]. apply final_flags_byte. lia.
  - rewrite <-Hb by lia. by apply (has_flag_new 1).
  - rewrite <-Hb by lia. by apply (has_flag_new 3).
  - rewrite <-Hb by lia. by apply (has_flag_new 4).
  - rewrite Hw. destruct Hfl as [->| ->]; [done|]. rewrite ldiff_W_bit by lia. by rewrite andb_false_r.
Qed.

Section space.
Context {W_ : Type} `{!Mm W_} (F : FileOps W_).
Implicit Types (k : kmm W_) (w : W_) (t : nat) (m : gmap Z MapArea) (a : MapArea) (L : list Z).

(** The tree [m] over the table [t]; [L] are the trackers that others hold. *)
Record sp_ok w t m L : Prop := {
  sp_tree : tree_ok m;
  sp_mm : mm_ok w (held m ++ L);
  sp_table : mm_table w t;
  sp_pte vpn : 0 ≤ vpn < user_top → pte_ok (page_at m vpn) (mm_find w t vpn);
}.

(** A private page that can be written has a frame of its own. *)
Definition isolated w t m L : Prop :=
  ∀ vpn p f e, page_at m vpn = Some p → pg_frame p = Some f → pg_shared p = false →
    mm_find w t vpn = Some (e, Page4K) → writable e = true → trackers (f_ppn f) (held m ++ L) = 1%nat.

(** What an operation on the table [t] leaves alone: other tables, the pages outside
    [T], the contents of the frames with trackers in [H]. *)
Record stable (t : nat) (T : Z → Prop) (H : list Z) (w w' : W_) : Prop := {
  st_mem : mem_same H (mm_mem w) (mm_mem w');
  st_table t' : mm_table w t' → mm_table w' t';
  st_find t' v : uvpn v → t' ≠ t ∨ ¬ T v → mm_find w' t' v = mm_find w t' v;
}.

Lemma stable_refl t T H w : stable t T H w w.
Proof. split; [by intros ???|done|done]. Qed.

Lemma stable_trans t (T1 T2 T : Z → Prop) H1 H2 H w1 w2 w3 :
  (∀ v, T1 v → T v) → (∀ v, T2 v → T v) → H ⊆ H1 → H ⊆ H2 →
  stable t T1 H1 w1 w2 → stable t T2 H2 w2 w3 → stable t T H w1 w3.
Proof.
  intros HT1 HT2 HH1 HH2 S1 S2. split.
  - intros p i Hp. rewrite (st_mem _ _ _ _ _ S2) by auto. by apply (st_mem _ _ _ _ _ S1); auto.
  - intros t' Ht'. by apply (st_table _ _ _ _ _ S2), (st_table _ _ _ _ _ S1).
  - intros t' v Hv Hn. rewrite (st_find _ _ _ _ _ S2), (st_find _ _ _ _ _ S1); [done|done| |done|]; naive_solver.
Qed.

Lemma stable_mono t (T T' : Z → Prop) H H' w w' :
  (∀ v, T v → T' v) → H' ⊆ H → stable t T H w w' → stable t T' H' w w'.
Proof.
  intros HT HH S. split.
  - intros p i Hp. apply (st_mem _ _ _ _ _ S). auto.
  - apply S.
  - intros t' v Hv Hn. apply (st_find _ _ _ _ _ S); [done|]. naive_solver.
Qed.

(** Another address space is not disturbed. *)
Lemma sp_ok_other w w' t T t' m' H L L' :
  stable t T H w w' → t' ≠ t → sp_ok w t' m' L → mm_ok w' (held m' ++ L') → sp_ok w' t' m' L'.
Proof.
  intros S Hne Hs Hok. split; [apply Hs|done|apply S, Hs|]. intros vpn Hv.
  rewrite (st_find _ _ _ _ _ S); [by apply Hs| |by left]. unfold uvpn, user_top in *. lia.
Qed.

Lemma sp_ok_perm w t m L L' : sp_ok w t m L → L ≡ₚ L' → sp_ok w t m L'.
Proof. intros [] Hp. split; [done| |done|done]. eapply mm_ok_perm; [done|]. by rewrite Hp. Qed.

Lemma uvpn_top vpn : 0 ≤ vpn < user_top → uvpn vpn.
Proof. unfold uvpn, user_top. lia. Qed.

(** One frame of an area goes, with its entry. *)
Lemma sp_remove w w' t m L key a vpn f T H :
  sp_ok w t m L → m !! key = Some a → data_frames a !! vpn = Some f →
  mm_ok w' (held m ++ L) → stable t T H w w' → (∀ v, T v ↔ v = vpn) → mm_find w' t vpn = None →
  let m' := <[key := with_data_frames (delete vpn (data_frames a)) a]> m in
  sp_ok w' t m' (f_ppn f :: L) ∧ f_ppn f :: held m' ≡ₚ held m ∧
  ∀ v, page_at m' v = if decide (v = vpn) then with_frame None <$> page_at m v else page_at m v.
Proof.
  intros Hs Hk Hf Hok S HT Hnone m'. pose proof (sp_tree _ _ _ _ Hs) as Hm.
  destruct (to_area _ Hm _ _ Hk) as [_ Ha]. destruct (ao_frames _ Ha _ _ Hf) as [Hin _].
  destruct (tree_frames m key a (delete vpn (data_frames a)) Hm Hk) as [Hm' Hp].
  { intros v g [_ Hg]%lookup_delete_Some. by apply (ao_frames _ Ha). }
  { intros ->%(ao_guard _ Ha). apply delete_empty. }
  assert (∀ v, page_at m' v = if decide (v = vpn) then with_frame None <$> page_at m v else page_at m v) as Hview.
  { intros v. unfold m'. rewrite Hp. destruct (decide (v = vpn)) as [->|Hne].
    - rewrite decide_True, lookup_delete_eq, (page_at_area m key a) by done. done.
    - destruct (decide (inside a v)); [|done]. rewrite lookup_delete_ne, (page_at_area m key a) by done. done. }
  assert (f_ppn f :: held m' ≡ₚ held m) as Hheld.
  { pose proof (held_replace m key a (with_data_frames (delete vpn (data_frames a)) a) Hk) as Hr. fold m' in Hr.
    rewrite (frames_of_delete a vpn f Hf) in Hr. apply (Permutation_app_inv_r (frames_of (with_data_frames (delete vpn (data_frames a)) a))).
    rewrite <-Hr. solve_perm. }
  split_and!; [|done|done]. split; [done| |by apply S, Hs|].
  - eapply mm_ok_perm; [done|]. rewrite <-Hheld. solve_perm.
  - intros v Hv. rewrite Hview. destruct (decide (v = vpn)) as [->|Hne].
    + rewrite Hnone. by destruct (page_at m vpn).
    + rewrite (st_find _ _ _ _ _ S); [by apply Hs|by apply uvpn_top|]. right. by rewrite HT.
Qed.

Lemma inside_range a vpn : area_ok a → inside a vpn → 0 ≤ vpn < user_top.
Proof. intros Ha Hin. pose proof (ao_range _ Ha). pose proof (ao_top _ Ha). unfold inside in Hin. lia. Qed.

(** ** Unmapping pages of an area *)

(** The page of a file that is written back when a page is unmapped. *)
Definition written_back (p : page) : option (Z * Z) :=
  match pg_frame p, pg_shared p, pg_back p with
  | Some _, true, Some (f, off) => Some (ino F f, off)
  | _, _, _ => None
  end.

(** Only the memory and the log change. *)
Definition logged (k k' : kmm W_) (P : Z * Z → Prop) : Prop :=
  k_anon k' = k_anon k ∧ k_next_map k' = k_next_map k ∧ k_next_mm k' = k_next_mm k ∧
  ∃ extra, k_log k' = k_log k ++ extra ∧ ∀ e, e ∈ extra ↔ P e.

Lemma logged_refl k : logged k k (λ _, False).
Proof. split_and!; [done..|]. exists []. split; [by rewrite app_nil_r|]. intros e. rewrite elem_of_nil. done. Qed.

Lemma logged_trans k1 k2 k3 (P Q R : Z * Z → Prop) :
  logged k1 k2 P → logged k2 k3 Q → (∀ e, R e ↔ P e ∨ Q e) → logged k1 k3 R.
Proof.
  intros (Ha1 & Hb1 & Hc1 & x1 & Hl1 & Hx1) (Ha2 & Hb2 & Hc2 & x2 & Hl2 & Hx2) HR.
  split_and!; [congruence..|]. exists (x1 ++ x2). split; [by rewrite Hl2, Hl1, app_assoc|].
  intros e. rewrite elem_of_app, Hx1, Hx2. by rewrite HR.
Qed.

Lemma logged_ext k k' (P Q : Z * Z → Prop) : logged k k' P → (∀ e, P e ↔ Q e) → logged k k' Q.
Proof. intros (?&?&?& x & Hl & Hx) HPQ. split_and!; [done..|]. exists x. split; [done|]. intros e. by rewrite Hx. Qed.

Lemma unmap_one_ok k t m L key a vpn :
  sp_ok (k_w k) t m L → m !! key = Some a → inside a vpn →
  ∃ k', let a' := with_data_frames (delete vpn (data_frames a)) a in let m' := <[key := a']> m in
    let gone := f_ppn <$> option_list (data_frames a !! vpn) in
    unmap_one F k t a vpn = Some (data_frames a !! vpn, a', k') ∧
    sp_ok (k_w k') t m' (gone ++ L) ∧ gone ++ held m' ≡ₚ held m ∧
    stable t (λ v, v = vpn) (held m ++ L) (k_w k) (k_w k') ∧
    logged k k' (λ e, written_back (page_of a vpn) = Some e) ∧
    (∀ v, page_at m' v = if decide (v = vpn) then with_frame None <$> page_at m v else page_at m v).
Proof.
  intros Hs Hk Hin. pose proof (sp_tree _ _ _ _ Hs) as Hm. destruct (to_area _ Hm _ _ Hk) as [_ Ha].
  destruct (data_frames a !! vpn) as [f|] eqn:Hf.
  - pose proof (sp_pte _ _ _ _ Hs vpn (inside_range a vpn Ha Hin)) as Hpte.
    rewrite (page_at_area m key a) in Hpte by done. unfold pte_ok in Hpte. simpl in Hpte. rewrite Hf in Hpte.
    destruct Hpte as (e & He & _).
    destruct (mm_unmap_spec (k_w k) _ t vpn e (sp_mm _ _ _ _ Hs) (sp_table _ _ _ _ Hs)) as (w' & Hw' & Hok & Hmem & Htab & _ & Hfind);
      [by apply uvpn_top, inside_range with a|done|].
    assert (stable t (λ v, v = vpn) (held m ++ L) (k_w k) w') as S.
    { split; [done|done|]. intros t' v Hv Hn. rewrite Hfind by done. rewrite decide_False; naive_solver. }
    assert (mm_find w' t vpn = None) as Hnone.
    { rewrite Hfind by (by apply uvpn_top, inside_range with a). by rewrite decide_True. }
    destruct (sp_remove (k_w k) w' t m L key a vpn f _ _ Hs Hk Hf Hok S ltac:(done) Hnone) as (Hs' & Hheld & Hview).
    set (k1 := match is_shared a, backing_file a with
               | true, Some (g, base) => with_log (ino F g, base + (vpn - get_start a)) k | _, _ => k end).
    assert (k_w k1 = k_w k) as Hk1 by (unfold k1; by repeat case_match).
    exists (with_w w' k1). cbn zeta. split_and!; [|done|done|done| |done].
    + unfold unmap_one. rewrite Hf. fold k1. rewrite Hk1, Hw'.
      destruct (ao_type _ Ha) as [Ht|[Ht|Ht]]; rewrite Ht; [done|done|].
      rewrite (ao_guard _ Ha Ht), lookup_empty in Hf. done.
    + unfold k1, written_back, page_of. simpl. rewrite Hf. split_and!; [by repeat case_match..|].
      destruct (is_shared a); [|exists []; rewrite app_nil_r; split; [done|set_solver]].
      destruct (backing_file a) as [[g base]|]; simpl; [|exists []; rewrite app_nil_r; split; [done|set_solver]].
      exists [(ino F g, base + (vpn - get_start a))]. split; [done|]. intros e'. rewrite list_elem_of_singleton. naive_solver.
  - exists k. cbn zeta. rewrite delete_id by done. assert (with_data_frames (data_frames a) a = a) as -> by (by destruct a).
    rewrite insert_id by done. split_and!; [|done|done|apply stable_refl| |].
    + unfold unmap_one. rewrite Hf. by destruct (ao_type _ Ha) as [Ht|[Ht|Ht]]; rewrite Ht.
    + eapply logged_ext; [apply logged_refl|]. intros e. unfold written_back, page_of. simpl. by rewrite Hf.
    + intros v. destruct (decide (v = vpn)) as [->|]; [|done]. rewrite (page_at_area m key a) by done. simpl. f_equal.
      unfold page_of, with_frame. simpl. by rewrite Hf.
Qed.

Definition drop_keys (d : gmap Z Frame) (vpns : list Z) : gmap Z Frame := foldl (λ d v, delete v d) d vpns.

Lemma lookup_drop_keys d vpns v : drop_keys d vpns !! v = if decide (v ∈ vpns) then None else d !! v.
Proof.
  unfold drop_keys. revert d. induction vpns as [|x vpns IH]; intros d; cbn [foldl]; [by rewrite decide_False by apply not_elem_of_nil|].
  rewrite IH. destruct (decide (v ∈ vpns)); [by rewrite decide_True by (by right)|].
  destruct (decide (v = x)) as [->|]; [by rewrite lookup_delete_eq, decide_True by (by left)|].
  rewrite lookup_delete_ne, decide_False; [done| |done]. by rewrite elem_of_cons; intros [|].
Qed.

Lemma unmap_list_ok t vpns : ∀ k m L key a frames,
  sp_ok (k_w k) t m L → m !! key = Some a → (∀ v, v ∈ vpns → inside a v) →
  ∃ fs k', let a' := with_data_frames (drop_keys (data_frames a) vpns) a in let m' := <[key := a']> m in
    unmap_list F k t a vpns frames = Some (frames ++ fs, a', k') ∧
    sp_ok (k_w k') t m' ((f_ppn <$> fs) ++ L) ∧ (f_ppn <$> fs) ++ held m' ≡ₚ held m ∧
    Forall (λ f, f_size f = Page4K) fs ∧
    stable t (λ v, v ∈ vpns) (held m ++ L) (k_w k) (k_w k') ∧
    logged k k' (λ e, ∃ v, v ∈ vpns ∧ page_at m v ≫= written_back = Some e) ∧
    (∀ v, page_at m' v = if decide (v ∈ vpns) then with_frame None <$> page_at m v else page_at m v).
Proof.
  induction vpns as [|vpn vpns IH]; intros k m L key a frames Hs Hk Hin; cbn zeta.
  - exists [], k. assert (with_data_frames (drop_keys (data_frames a) []) a = a) as -> by (by destruct a).
    cbn [unmap_list fmap list_fmap]. rewrite app_nil_r.
    rewrite insert_id by done. split_and!; [done|done|done|done|apply stable_refl| |].
    + eapply logged_ext; [apply logged_refl|]. intros e. split; [done|]. by intros (v & ?%not_elem_of_nil & _).
    + intros v. by rewrite decide_False by apply not_elem_of_nil.
  - destruct (unmap_one_ok k t m L key a vpn Hs Hk ltac:(apply Hin; by left)) as (k1 & Hone & Hs1 & Hh1 & S1 & Hl1 & Hv1).
    pose proof (sp_tree _ _ _ _ Hs) as Hm. destruct (to_area _ Hm _ _ Hk) as [_ Ha].
    set (a1 := with_data_frames (delete vpn (data_frames a)) a) in *. set (m1 := <[key := a1]> m) in *.
    set (g := data_frames a !! vpn) in *.
    destruct (IH k1 m1 ((f_ppn <$> option_list g) ++ L) key a1 (frames ++ option_list g) Hs1) as (fs & k' & Hl & Hs' & Hh & Hsz & S & Hlog & Hv);
      [apply lookup_insert_eq|by intros v Hv; apply (Hin v); right|]. cbn zeta in *.
    assert (with_data_frames (drop_keys (data_frames a1) vpns) a1 = with_data_frames (drop_keys (data_frames a) (vpn :: vpns)) a) as Heq
      by done. unfold m1 in Hs', Hh, Hv. rewrite Heq, insert_insert_eq in Hs', Hh, Hv. fold m1 in Hh, Hv.
    exists (option_list g ++ fs), k'. split_and!.
    + cbn [unmap_list]. rewrite Hone. cbn [mbind option_bind]. rewrite Hl, Heq. by rewrite app_assoc.
    + eapply sp_ok_perm; [done|]. rewrite fmap_app. solve_perm.
    + rewrite fmap_app, <-Hh1, <-Hh. solve_perm.
    + apply Forall_app. split; [|done]. unfold g. destruct (data_frames a !! vpn) as [f|] eqn:Hf; [|done].
      constructor; [|done]. by destruct (ao_frames _ Ha _ _ Hf).
    + eapply stable_trans; [| | | |exact S1|exact S].
      * intros v ->. by left.
      * intros v ?. by right.
      * done.
      * intros p. rewrite <-Hh1, !elem_of_app. tauto.
    + eapply logged_trans; [exact Hl1|exact Hlog|]. intros e. split.
      * intros (v & Hvin & Hw). destruct (decide (v = vpn)) as [->|Hne].
        { left. by rewrite (page_at_area m key a) in Hw by (try done; apply Hin; by left). }
        right. exists v. apply elem_of_cons in Hvin as [|Hvin]; [done|]. split; [done|]. by rewrite Hv1, decide_False.
      * intros [Hw|(v & Hvin & Hw)].
        { exists vpn. split; [by left|]. rewrite (page_at_area m key a); [done..|apply Hin; by left]. }
        rewrite Hv1 in Hw. destruct (decide (v = vpn)) as [->|Hne]; [by destruct (page_at m vpn)|].
        exists v. split; [by right|done].
    + intros v. rewrite Hv, Hv1. destruct (decide (v ∈ vpns)), (decide (v = vpn)) as [->|].
      * rewrite decide_True by (by left). by destruct (page_at m vpn).
      * by rewrite decide_True by (by right).
      * by rewrite decide_True by (by left).
      * rewrite decide_False; [done|]. by rewrite elem_of_cons; intros [|].
Qed.

Lemma drop_frames_ok fs : ∀ w L,
  mm_ok w ((f_ppn <$> fs) ++ L) → Forall (λ f, f_size f = Page4K) fs →
  ∃ w', drop_frames w fs = Some w' ∧ mm_ok w' L ∧ mm_mem w' = mm_mem w ∧ mm_find w' = mm_find w ∧
    (∀ t', mm_table w t' → mm_table w' t') ∧ mm_free w ≤ mm_free w'.
Proof.
  induction fs as [|f fs IH]; intros w L Hok Hsz; simpl.
  - by exists w.
  - apply Forall_cons in Hsz as [Hf Hsz]. destruct (mm_drop_spec w _ (f_ppn f) Hok) as (w1 & Hd & Hok1 & Hmem & Hfind & Htab).
    pose proof (mm_drop_free _ _ _ _ Hok Hd). destruct (IH w1 L Hok1 Hsz) as (w' & Hd' & ? & Hm' & Hf' & Ht' & ?). exists w'. rewrite Hf, Hd. simpl.
    split_and!; [done|done|congruence|congruence|auto|lia].
Qed.

(** Dropping the trackers that an operation has released. *)
Lemma sp_drop t w m L fs :
  sp_ok w t m ((f_ppn <$> fs) ++ L) → Forall (λ f, f_size f = Page4K) fs →
  ∃ w', drop_frames w fs = Some w' ∧ sp_ok w' t m L ∧ (∀ T H, stable t T H w w') ∧ mm_find w' = mm_find w ∧ mm_free w ≤ mm_free w'.
Proof.
  intros Hs Hsz. destruct (drop_frames_ok fs w (held m ++ L)) as (w' & Hd & Hok & Hmem & Hfind & Htab & Hfree); [|done|].
  { eapply mm_ok_perm; [apply Hs|]. solve_perm. }
  exists w'. split_and!; [done| | |done|done].
  - split; [apply Hs|done|apply Htab, Hs|]. rewrite Hfind. apply Hs.
  - intros T H. split; [by rewrite Hmem|done|by rewrite Hfind].
Qed.

(** ** Changing the tree under the same pages *)

Lemma sp_retree w t m m' L :
  sp_ok w t m L → tree_ok m' → held m' ≡ₚ held m →
  (∀ v, page_at m' v = page_at m v ∨ page_at m' v ≫= pg_frame = None ∧ page_at m v ≫= pg_frame = None) → sp_ok w t m' L.
Proof.
  intros Hs Hm' Hh Hv. split; [done| |apply Hs|].
  - eapply mm_ok_perm; [apply Hs|]. by rewrite Hh.
  - intros v Hr. pose proof (sp_pte _ _ _ _ Hs v Hr) as Hp. destruct (Hv v) as [->|[Hn' Hn]]; [done|].
    unfold pte_ok in *. rewrite Hn in Hp. by rewrite Hn'.
Qed.
End space.

(** ** Cutting an area *)

Definition put (o : option MapArea) (m : gmap Z MapArea) : gmap Z MapArea :=
  match o with Some a => <[get_start a := a]> m | None => m end.

(** What is left of an area on either side of a gap. *)
Definition carve (m : gmap Z MapArea) (key : Z) (l r : option MapArea) : gmap Z MapArea := put r (put l (delete key m)).

Definition in_piece (o : option MapArea) (v : Z) : Prop := match o with Some a => inside a v | None => False end.

#[export] Instance in_piece_dec o v : Decision (in_piece o v).
Proof. destruct o; apply _. Defined.

Definition piece_frames (o : option MapArea) : list Z := match o with Some a => frames_of a | None => [] end.

(** A piece shows the pages as the area does. *)
Definition piece_of (a : MapArea) (o : option MapArea) : Prop :=
  match o with
  | Some b => area_ok b ∧ (∀ v, inside b v → inside a v ∧ page_of b v = page_of a v)
  | None => True
  end.

Lemma put_ok m o : tree_ok m → match o with Some b => area_ok b | None => True end →
  (∀ v, in_piece o v → page_at m v = None) →
  tree_ok (put o m) ∧ held (put o m) ≡ₚ piece_frames o ++ held m ∧
  ∀ v, page_at (put o m) v = match o with Some b => if decide (inside b v) then Some (page_of b v) else page_at m v | None => page_at m v end.
Proof.
  intros Hm Ho Hfree. destruct o as [b|]; simpl; [|done]. destruct (tree_insert m b Hm Ho Hfree) as (Hn & Ht & Hp).
  split_and!; [done|by apply held_insert|done].
Qed.

Lemma carve_ok m key a l r :
  tree_ok m → m !! key = Some a → piece_of a l → piece_of a r → (∀ v, in_piece l v → ¬ in_piece r v) →
  piece_frames l ++ piece_frames r ≡ₚ frames_of a →
  tree_ok (carve m key l r) ∧ held (carve m key l r) ≡ₚ held m ∧
  ∀ v, page_at (carve m key l r) v = if decide (inside a v ∧ ¬ in_piece l v ∧ ¬ in_piece r v) then None else page_at m v.
Proof.
  intros Hm Hk Hl Hr Hdis Hfr. destruct (tree_delete m key a Hm Hk) as [Hd Hpd]. unfold carve.
  destruct (put_ok (delete key m) l Hd) as (Hml & Hhl & Hpl).
  { by destruct l; [destruct Hl|]. }
  { intros v Hv. rewrite Hpd, decide_True; [done|]. destruct l; [|done]. by apply Hl. }
  destruct (put_ok (put l (delete key m)) r Hml) as (Hmr & Hhr & Hpr).
  { by destruct r; [destruct Hr|]. }
  { intros v Hv. rewrite Hpl. assert (page_at (delete key m) v = None).
    { rewrite Hpd, decide_True; [done|]. destruct r; [|done]. by apply Hr. }
    destruct l as [b|]; [|done]. rewrite decide_False; [done|]. intros Hb. by apply (Hdis v). }
  split_and!; [done| |].
  - rewrite Hhr, Hhl, (held_delete m key a Hk), <-Hfr. solve_perm.
  - intros v. rewrite Hpr, Hpl, Hpd.
    assert (∀ o b, piece_of a o → o = Some b → inside b v → Some (page_of b v) = page_at m v ∧ inside a v) as Hpiece.
    { intros o b Ho -> Hb. destruct Ho as [_ Ho]. destruct (Ho v Hb) as [Hin ->]. by rewrite (page_at_area m key a). }
    destruct (decide (inside a v ∧ _)) as [(Hin & Hnl & Hnr)|Hno].
    + assert ((if decide (inside a v) then None else page_at m v) = None) as -> by (by rewrite decide_True).
      destruct l, r; simpl in *; by rewrite ?decide_False.
    + destruct r as [b|]; simpl in *.
      * destruct (decide (inside b v)) as [Hb|Hb]; [by destruct (Hpiece (Some b) b Hr eq_refl Hb)|].
        destruct l as [c|]; simpl in *; [destruct (decide (inside c v)) as [Hc|Hc]; [by destruct (Hpiece (Some c) c Hl eq_refl Hc)|]|];
          rewrite decide_False; tauto.
      * destruct l as [c|]; simpl in *; [destruct (decide (inside c v)) as [Hc|Hc]; [by destruct (Hpiece (Some c) c Hl eq_refl Hc)|]|];
          rewrite decide_False; tauto.
Qed.
