(* ===== verification/SpaceUnmap.v ===== *)
(** * Unmapping

    [munmap] removes exactly the pages of its range: the pages outside it, other
    address spaces and the contents of the remaining frames do not change, the
    removed frames are released, and dirty shared pages are written back.
    [madvise_dontneed] and the tear-down of an address space follow the same way. *)

From S2P Require Import Prelude Errno Address PageTable Mm BTree MapArea MemSet Space.

Local Open Scope Z_scope.

(** ** Pages of a byte range *)

Definition first_page (start_ : Z) : Z := start_ / PAGE_SIZE.

Definition last_page (end_ : Z) : Z := (end_ + PAGE_SIZE - 1) / PAGE_SIZE.

(** A byte range below the trampoline. *)
Definition user_range (start_ len : Z) : Prop := 0 ≤ start_ ∧ 0 < len ∧ start_ + len ≤ user_top * PAGE_SIZE.

Lemma VirtAddr_from_id v : 0 ≤ v < 2 ^ 39 → VirtAddr_from v = v.
Proof. intros Hv. rewrite VirtAddr_from_mod. by apply Z.mod_small. Qed.

Lemma floor_of_id a : 0 ≤ a < 2 ^ 39 → floor_of a = first_page a.
Proof. intros Ha. unfold floor_of. by rewrite VirtAddr_from_id. Qed.

Lemma ceil_of_id a : 0 < a < 2 ^ 39 → ceil_of a = Some (last_page a).
Proof.
  intros Ha. unfold ceil_of, VirtAddr_std_ceil, checked_sub, checked_add, last_page, USIZE_MAX, PAGE_SIZE.
  rewrite VirtAddr_from_id by lia. rewrite (proj2 (Z.leb_le 1 a)) by lia. cbn [mbind option_bind].
  rewrite (proj2 (Z.leb_le _ _)) by lia. cbn [mbind option_bind]. do 2 f_equal. lia.
Qed.

Lemma user_range_pages s n : user_range s n → 0 ≤ first_page s < last_page (s + n) ∧ last_page (s + n) ≤ user_top.
Proof.
  unfold user_range, first_page, last_page, user_top, PAGE_SIZE. intros (H1 & H2 & H3).
  split; [split; [apply Z.div_pos; lia|]|].
  - apply Z.lt_le_trans with ((s + 0x1000) / 0x1000); [|apply Z.div_le_mono; lia].
    replace (s + 0x1000) with (s + 1 * 0x1000) by lia. rewrite Z.div_add by lia. lia.
  - apply Z.lt_succ_r, Z.div_lt_upper_bound; lia.
Qed.

(** The borders that the operations compute. *)
Lemma user_range_ok s n :
  user_range s n →
  checked_add s n = Some (s + n) ∧ floor_of s = first_page s ∧ ceil_of (s + n) = Some (last_page (s + n)).
Proof.
  intros Hr. destruct Hr as (H1 & H2 & H3). unfold user_top, PAGE_SIZE in H3.
  split_and!; [apply checked_add_Some; unfold USIZE_MAX; lia|apply floor_of_id; lia|apply ceil_of_id; lia].
Qed.

Lemma elem_of_pages lo hi v : v ∈ pages lo hi 1 ↔ lo ≤ v < hi.
Proof.
  unfold pages. rewrite list_elem_of_fmap. replace (hi - lo + 1 - 1) with (hi - lo) by lia. rewrite Z.div_1_r. split.
  - intros (i & -> & Hi%elem_of_seqZ). lia.
  - intros Hv. exists (v - lo). rewrite elem_of_seqZ. lia.
Qed.

(** ** Moving the borders of an area *)

Lemma resize_piece a s e :
  area_ok a → get_start a ≤ s → s < e → e ≤ get_end a →
  (∀ v f, data_frames a !! v = Some f → s ≤ v < e) →
  ∃ a', resize a s e = Some a' ∧ get_start a' = s ∧ get_end a' = e ∧ frames_of a' = frames_of a ∧
    data_frames a' = data_frames a ∧ piece_of a (Some a').
Proof.
  intros Ha Hs Hse He Hf. unfold resize, SimpleRange_new. rewrite (proj2 (Z.leb_le s e)) by lia. simpl. eexists.
  split; [done|].
  do 2 (split; [done|]). do 2 (split; [by destruct (_ <? _)|]). split.
  - destruct Ha as [Hr Ht Hty Hsz Hp Hfr Hg']. destruct (_ <? _); split; try done; unfold inside, get_start, get_end in *; simpl; try lia;
      intros v f Hvf; (split; [by eapply Hf|by eapply Hfr]).
  - intros v Hv. unfold inside, get_start, get_end in Hv. simpl in Hv. unfold inside. split; [lia|].
    destruct (get_start a <? s) eqn:Hlt; unfold page_of, get_start in *; simpl; f_equal.
    + destruct (backing_file a) as [[g off]|]; [|done]. simpl. do 2 f_equal. lia.
    + apply Z.ltb_ge in Hlt. by replace (range_start (vpn_range a)) with s by lia.
Qed.

Lemma resize_empty a : ∃ a', resize a (get_start a) (get_start a) = Some a'.
Proof. unfold resize, SimpleRange_new. rewrite Z.leb_refl. by eexists. Qed.

Lemma clone_piece a s e d :
  area_ok a → get_start a ≤ s → s < e → e ≤ get_end a →
  (∀ v, s ≤ v < e → d !! v = data_frames a !! v) → (∀ v f, d !! v = Some f → s ≤ v < e) →
  ∃ b, clone_meta_with_new_range a s e = Some b ∧ get_start (with_data_frames d b) = s ∧
    get_end (with_data_frames d b) = e ∧ piece_of a (Some (with_data_frames d b)).
Proof.
  intros Ha Hs Hse He Hd Hdr. unfold clone_meta_with_new_range, SimpleRange_new. rewrite (proj2 (Z.leb_le s e)) by lia.
  simpl. eexists. do 3 (split; [done|]). split.
  - destruct Ha as [Hr Ht Hty Hsz Hp Hfr Hg]. split; try done; unfold inside, get_start, get_end in *; simpl; try lia.
    + intros v f Hvf. pose proof (Hdr _ _ Hvf). split; [done|]. rewrite Hd in Hvf by done. by eapply Hfr.
    + intros Hgu%Hg. apply map_eq. intros v. rewrite lookup_empty. destruct (d !! v) as [f|] eqn:Hv; [|done].
      pose proof (Hdr _ _ Hv). rewrite Hd in Hv by done. by rewrite Hgu, lookup_empty in Hv.
  - unfold inside, get_start, get_end. simpl. intros v Hv. split; [unfold get_start, get_end in *; lia|].
    unfold page_of, get_start. simpl. f_equal; [|by apply Hd].
    destruct (backing_file a) as [[g off]|]; [|done]. simpl. do 2 f_equal. unfold get_start. lia.
Qed.

(** The frames on the two sides of a cut. *)
Lemma frames_split a b c x :
  data_frames b = bt_below (data_frames a) x → data_frames c = bt_from (data_frames a) x →
  frames_of b ++ frames_of c ≡ₚ frames_of a.
Proof.
  intros Hb Hc. unfold frames_of. rewrite Hb, Hc, <-fmap_app. apply Permutation_map'.
  destruct (bt_split (data_frames a) x) as [Hu Hd]. rewrite <-Hu at 3. symmetry.
  revert Hd. generalize (bt_below (data_frames a) x), (bt_from (data_frames a) x). clear.
  intros m1 m2. revert m1. induction m1 as [|i f m1 Hi IH] using map_ind; intros Hd.
  - by rewrite map_empty_union, map_to_list_empty.
  - apply map_disjoint_insert_l in Hd as [Hi2 Hd]. rewrite <-insert_union_l, !map_to_list_insert; [|done|].
    + simpl. by rewrite IH.
    + apply lookup_union_None. done.
Qed.

(** ** The tree that the loop of [munmap_locked] prepares *)

Definition fin (E : list Z) (R : list (Z * Z)) (N : list MapArea) (m : gmap Z MapArea) : gmap Z MapArea :=
  foldl (λ m a, <[get_start a := a]> m) (foldl rekey_area (foldl (λ m key, delete key m) m E) R) N.

Definition keys_new (R : list (Z * Z)) (N : list MapArea) : list Z := R.*1 ++ R.*2 ++ (get_start <$> N).

(** Changes at a key that is not touched later. *)
Lemma fold_del_alter E key (f : gmap Z MapArea → gmap Z MapArea) :
  (∀ k m, k ≠ key → delete k (f m) = f (delete k m)) → key ∉ E →
  ∀ m, foldl (λ m key, delete key m) (f m) E = f (foldl (λ m key, delete key m) m E).
Proof.
  intros Hf. induction E as [|k E IH]; intros Hk m; [done|]. apply not_elem_of_cons in Hk as [Hne Hk]. simpl.
  rewrite Hf by done. by apply IH.
Qed.

Lemma fold_rest_alter R N key (f : gmap Z MapArea → gmap Z MapArea) :
  (∀ k m, k ≠ key → f m !! k = m !! k) → (∀ k m, k ≠ key → delete k (f m) = f (delete k m)) →
  (∀ k b m, k ≠ key → <[k := b]> (f m) = f (<[k := b]> m)) → key ∉ keys_new R N →
  ∀ m, foldl (λ m a, <[get_start a := a]> m) (foldl rekey_area (f m) R) N =
    f (foldl (λ m a, <[get_start a := a]> m) (foldl rekey_area m R) N).
Proof.
  intros Hl Hd Hi. induction R as [|[x y] R IH]; intros Hk m; simpl.
  - revert m. induction N as [|b N IH]; intros m; [done|]. unfold keys_new in Hk. simpl in Hk.
    apply not_elem_of_cons in Hk as [Hne Hk]. simpl. rewrite Hi by done. by apply IH.
  - unfold keys_new in Hk. simpl in Hk. apply not_elem_of_cons in Hk as [Hx Hk].
    assert (key ≠ y ∧ key ∉ keys_new R N) as [Hy Hk'].
    { unfold keys_new. rewrite !elem_of_app, elem_of_cons, elem_of_app in *. naive_solver. }
    rewrite <-(IH Hk'). f_equal. f_equal. unfold rekey_area. simpl. rewrite Hl by done.
    destruct (m !! x); [|done]. by rewrite Hd, Hi.
Qed.

Lemma fin_put E R N m key a :
  key ∉ E → key ∉ keys_new R N → fin E R N (<[key := a]> m) = <[key := a]> (fin E R N m).
Proof.
  intros HE HR. unfold fin.
  rewrite (fold_del_alter E key (λ m, <[key := a]> m)); [|by intros k m' Hne; apply delete_insert_ne|done].
  apply (fold_rest_alter R N key (λ m, <[key := a]> m)); [..|done].
  - intros k m' Hne. by apply lookup_insert_ne.
  - intros k m' Hne. by apply delete_insert_ne.
  - intros k b m' Hne. by apply insert_insert_ne.
Qed.

Lemma fin_drop E R N m key : key ∉ keys_new R N → fin (E ++ [key]) R N m = delete key (fin E R N m).
Proof.
  intros HR. unfold fin. rewrite foldl_app. simpl. apply (fold_rest_alter R N key (λ m, delete key m)); [..|done].
  - intros k m' Hne. by apply lookup_delete_ne.
  - intros k m' Hne. apply delete_delete.
  - intros k b m' Hne. by rewrite delete_insert_ne.
Qed.

Lemma fold_new_alter N key (f : gmap Z MapArea → gmap Z MapArea) :
  (∀ k b m, k ≠ key → <[k := b]> (f m) = f (<[k := b]> m)) → key ∉ get_start <$> N →
  ∀ m, foldl (λ m a, <[get_start a := a]> m) (f m) N = f (foldl (λ m a, <[get_start a := a]> m) m N).
Proof.
  intros Hi. induction N as [|b N IH]; intros Hk m; [done|]. simpl in *. apply not_elem_of_cons in Hk as [Hne Hk].
  rewrite Hi by done. by apply IH.
Qed.

Lemma fin_rekey E R N m key hi a :
  key ∉ get_start <$> N → hi ∉ get_start <$> N → fin E R N m !! key = Some a →
  fin E (R ++ [(key, hi)]) N m = <[hi := a]> (delete key (fin E R N m)).
Proof.
  intros Hk Hh Ha. unfold fin in *. rewrite foldl_app. cbn [foldl].
  set (m1 := foldl rekey_area _ R) in *.
  assert (m1 !! key = Some a) as Hm1.
  { clearbody m1. clear -Ha Hk. revert m1 Ha. induction N as [|b N IH]; intros m1 Ha; [done|]. simpl in *.
    apply not_elem_of_cons in Hk as [Hne Hk]. specialize (IH Hk _ Ha). by rewrite lookup_insert_ne in IH. }
  unfold rekey_area. cbn [fst snd]. rewrite Hm1.
  rewrite (fold_new_alter N hi (λ m, <[hi := a]> m)); [|by intros k b m' Hne; apply insert_insert_ne|done].
  f_equal. apply (fold_new_alter N key (λ m, delete key m)); [|done].
  intros k b m' Hne. by rewrite delete_insert_ne.
Qed.

Lemma fin_new E R N m b : fin E R (N ++ [b]) m = <[get_start b := b]> (fin E R N m).
Proof. unfold fin. by rewrite foldl_app. Qed.

(** ** [munmap] *)

Section unmap.
Context {W_ : Type} `{!Mm W_} (F : FileOps W_).
Implicit Types (k : kmm W_) (ms : MemorySet) (m : gmap Z MapArea) (a : MapArea) (L : list Z).

Definition acc_tree (acc : @munmap_acc W_) : gmap Z MapArea := fin (acc_empty acc) (acc_rekey acc) (acc_new acc) (acc_areas acc).

Section loop.
Context (k0 : kmm W_) (t : nat) (m0 : gmap Z MapArea) (L : list Z) (lo hi : Z).
Implicit Types (acc : @munmap_acc W_) (rest : list (Z * MapArea)).

Definition done_page rest v : Prop := lo ≤ v < hi ∧ Forall (λ x, ¬ inside x.2 v) rest.

#[local] Instance done_page_dec rest v : Decision (done_page rest v).
Proof. unfold done_page. apply _. Defined.

(** The areas [rest] are still to be visited. *)
Record cut_inv acc rest : Prop := {
  ci_sp : sp_ok (k_w (acc_k acc)) t (acc_tree acc) ((f_ppn <$> acc_released acc) ++ L);
  ci_held : (f_ppn <$> acc_released acc) ++ held (acc_tree acc) ≡ₚ held m0;
  ci_sizes : Forall (λ f, f_size f = Page4K) (acc_released acc);
  ci_stable : stable t (λ v, lo ≤ v < hi) (held m0 ++ L) (k_w k0) (k_w (acc_k acc));
  ci_log : logged k0 (acc_k acc) (λ e, ∃ v, done_page rest v ∧ page_at m0 v ≫= written_back F = Some e);
  ci_view v : page_at (acc_tree acc) v = if decide (done_page rest v) then None else page_at m0 v;
  ci_rest key a : (key, a) ∈ rest → acc_tree acc !! key = Some a ∧ (key ∉ acc_empty acc) ∧ key ∉ (acc_rekey acc).*1;
  ci_keys : NoDup rest.*1;
  ci_hi : ∀ x, x ∈ (acc_rekey acc).*2 ++ (get_start <$> acc_new acc) → x = hi;
  ci_new : acc_new acc ≠ [] → is_Some (acc_tree acc !! hi);
}.

(** What is left of an area when the pages from [lo] to [hi] are gone. *)
Record cut_pieces a (l r : option MapArea) : Prop := {
  cp_left : piece_of a l;
  cp_right : piece_of a r;
  cp_in_left v : in_piece l v ↔ inside a v ∧ v < lo;
  cp_in_right v : in_piece r v ↔ inside a v ∧ hi ≤ v;
  cp_frames : piece_frames l ++ piece_frames r ≡ₚ frames_of a;
  cp_key : ∀ b, l = Some b → get_start b = get_start a;
  cp_hi : ∀ b, r = Some b → get_start b = hi;
}.

Lemma inside_rest acc key a rest v :
  cut_inv acc ((key, a) :: rest) → inside a v → Forall (λ x, ¬ inside x.2 v) rest.
Proof.
  intros Hi Hv. apply Forall_forall. intros [k b] Hin Hb. simpl in Hb. pose proof (ci_keys _ _ Hi) as Hn.
  apply NoDup_cons in Hn as [Hnin _]. apply Hnin. apply list_elem_of_fmap. exists (k, b). split; [|done]. simpl.
  apply (to_disjoint _ (sp_tree _ _ _ _ (ci_sp _ _ Hi)) _ _ a b v); [| |done|done].
  - eapply (ci_rest _ _ Hi). by left.
  - eapply (ci_rest _ _ Hi). by right.
Qed.

(** One area is cut. *)
Lemma munmap_cut acc acc' key a rest vpns fs k1 l r :
  lo < hi → cut_inv acc ((key, a) :: rest) →
  let a1 := with_data_frames (drop_keys (data_frames a) vpns) a in
  (∀ v, v ∈ vpns ↔ inside a v ∧ lo ≤ v < hi) →
  unmap_list F (acc_k acc) t a vpns [] = Some (fs, a1, k1) →
  cut_pieces a1 l r →
  acc_tree acc' = carve (acc_tree acc) key l r → acc_k acc' = k1 → acc_released acc' = acc_released acc ++ fs →
  acc_empty acc' ⊆ acc_empty acc ++ [key] → (acc_rekey acc').*1 ⊆ (acc_rekey acc).*1 ++ [key] →
  (acc_rekey acc').*2 ⊆ (acc_rekey acc).*2 ++ [hi] →
  acc_new acc' = acc_new acc ∨ (∃ b, r = Some b ∧ acc_new acc' = acc_new acc ++ [b]) → get_start a < hi →
  cut_inv acc' rest.
Proof.
  intros Hlt Hi a1 Hvp Hul Hcp Htree <- Hrel HE HR1 HR2 HN Hsa.
  destruct (ci_rest _ _ Hi key a ltac:(by left)) as (Hk & HkE & HkR).
  pose proof (sp_tree _ _ _ _ (ci_sp _ _ Hi)) as Hm. destruct (to_area _ Hm _ _ Hk) as [-> Ha].
  destruct (unmap_list_ok F t vpns (acc_k acc) (acc_tree acc) _ (get_start a) a [] (ci_sp _ _ Hi) Hk) as
    (fs' & k' & Hul' & Hs1 & Hh1 & Hsz & S1 & Hl1 & Hv1); [by intros v [? _]%Hvp|]. cbn zeta in *.
  rewrite Hul in Hul'. injection Hul' as Hfs Hk1. simpl in Hfs. subst fs' k'. fold a1 in Hs1, Hh1, Hv1.
  set (m1 := <[get_start a := a1]> (acc_tree acc)) in *.
  destruct (carve_ok m1 (get_start a) a1 l r (sp_tree _ _ _ _ Hs1)) as (Hmc & Hhc & Hvc).
  { apply lookup_insert_eq. }
  { apply Hcp. }
  { apply Hcp. }
  { intros v [_ Hl]%(cp_in_left _ _ _ Hcp) [_ Hr]%(cp_in_right _ _ _ Hcp). lia. }
  { apply Hcp. }
  assert (carve m1 (get_start a) l r = acc_tree acc') as Hc1.
  { rewrite Htree. unfold carve, m1. by rewrite delete_insert_eq. }
  rewrite Hc1 in Hmc, Hhc, Hvc.
  assert (∀ v, page_at (acc_tree acc') v = if decide (inside a v ∧ lo ≤ v < hi) then None else page_at (acc_tree acc) v) as Hview.
  { intros v. rewrite Hvc. change (inside a1 v) with (inside a v). destruct (decide (inside a v ∧ lo ≤ v < hi)) as [[Hin Hr]|Hno].
    - rewrite decide_True; [done|]. rewrite (cp_in_left _ _ _ Hcp), (cp_in_right _ _ _ Hcp). split_and!; [done|lia|lia].
    - rewrite decide_False.
      + rewrite Hv1, decide_False; [done|]. by rewrite Hvp.
      + rewrite (cp_in_left _ _ _ Hcp), (cp_in_right _ _ _ Hcp). change (inside a1 v) with (inside a v).
        intros (Hin & Hnl & Hnr). apply Hno. split; [done|]. destruct (decide (v < lo)), (decide (hi ≤ v)); [tauto..|lia]. }
  assert (∀ v, inside a v → page_at (acc_tree acc) v = page_at m0 v) as Hold.
  { intros v Hin. rewrite (ci_view _ _ Hi), decide_False; [done|]. intros [_ Hf%Forall_cons]. by destruct Hf. }
  split.
  - rewrite Hrel, fmap_app. apply sp_retree with m1; [|done|done|].
    + eapply sp_ok_perm; [exact Hs1|]. solve_perm.
    + intros v. rewrite Hvc. destruct (decide _) as [(Hin & Hnl & Hnr)|]; [right|by left]. split; [done|].
      rewrite Hv1, decide_True; [by destruct (page_at (acc_tree acc) v)|]. apply Hvp.
      rewrite (cp_in_left _ _ _ Hcp) in Hnl. rewrite (cp_in_right _ _ _ Hcp) in Hnr.
      change (inside a1 v) with (inside a v) in *. split; [done|].
      destruct (decide (v < lo)), (decide (hi ≤ v)); [tauto..|lia].
  - rewrite Hrel, fmap_app, Hhc, <-(ci_held _ _ Hi), <-Hh1. solve_perm.
  - rewrite Hrel. apply Forall_app. split; [apply Hi|done].
  - eapply stable_trans; [| | | |apply Hi|exact S1]; [done| |done|].
    + by intros v [_ ?]%Hvp.
    + intros p. rewrite <-(ci_held _ _ Hi), !elem_of_app. tauto.
  - eapply logged_trans; [apply Hi|exact Hl1|]. intros e. split.
    + intros (v & [Hr Hf] & Hw). destruct (decide (inside a v)) as [Hin|Hin].
      * right. exists v. split; [by apply Hvp|]. by rewrite Hold.
      * left. exists v. split; [|done]. split; [done|]. by constructor.
    + intros [(v & [Hr Hf%Forall_cons] & Hw)|(v & [Hin Hr]%Hvp & Hw)]; exists v; (split; [split; [done|]|]);
        [apply Hf|done|by eapply inside_rest|by rewrite <-Hold].
  - intros v. rewrite Hview. destruct (decide (done_page rest v)) as [[Hr Hf]|Hno].
    + destruct (decide (inside a v ∧ _)) as [|Hn]; [done|]. rewrite (ci_view _ _ Hi), decide_True; [done|].
      split; [done|]. constructor; [simpl; tauto|done].
    + rewrite decide_False.
      * rewrite (ci_view _ _ Hi), decide_False; [done|]. intros [Hr Hf%Forall_cons]. apply Hno. split; [done|apply Hf].
      * intros [Hin Hr]. apply Hno. split; [done|]. by eapply inside_rest.
  - intros key' a' Hin. destruct (ci_rest _ _ Hi key' a' ltac:(by right)) as (Hk' & HkE' & HkR').
    assert (key' ≠ get_start a) as Hne.
    { pose proof (ci_keys _ _ Hi) as Hn. apply NoDup_cons in Hn as [Hnin _]. intros ->. apply Hnin.
      apply list_elem_of_fmap. by exists (get_start a, a'). }
    destruct (to_area _ Hm _ _ Hk') as [-> Ha'].
    split_and!; [|by intros [?|?%list_elem_of_singleton]%HE%elem_of_app|by intros [?|?%list_elem_of_singleton]%HR1%elem_of_app].
    rewrite Htree. unfold carve.
    assert (put l (delete (get_start a) (acc_tree acc)) !! get_start a' = Some a') as Hp.
    { destruct l as [b|]; simpl; [|by rewrite lookup_delete_ne].
      rewrite (cp_key _ _ _ Hcp b eq_refl). change (get_start a1) with (get_start a).
      by rewrite lookup_insert_ne, lookup_delete_ne by done. }
    destruct r as [b|]; simpl; [|done]. rewrite lookup_insert_ne; [done|]. intros Heq.
    destruct (cp_right _ _ _ Hcp) as [Hbo Hb]. pose proof (ao_range _ Hbo). pose proof (ao_range _ Ha').
    destruct (Hb (get_start b)) as [Hbin _]; [unfold inside; lia|].
    pose proof (inside_rest _ _ _ _ _ Hi Hbin) as Hf. rewrite Forall_forall in Hf. apply (Hf _ Hin). unfold inside. simpl. lia.
  - pose proof (ci_keys _ _ Hi) as Hn. by apply NoDup_cons in Hn as [_ ?].
  - intros x. rewrite elem_of_app. intros [[Hx|Hx%list_elem_of_singleton]%HR2%elem_of_app|Hx]; [|done|].
    + apply (ci_hi _ _ Hi). apply elem_of_app. by left.
    + destruct HN as [HN|(b & Hb & HN)]; rewrite HN in Hx.
      * apply (ci_hi _ _ Hi). apply elem_of_app. by right.
      * rewrite fmap_app in Hx. apply elem_of_app in Hx as [Hx|Hx%list_elem_of_singleton].
        { apply (ci_hi _ _ Hi). apply elem_of_app. by right. }
        rewrite Hx. by apply (cp_hi _ _ _ Hcp).
  - intros Hne. rewrite Htree. unfold carve. destruct r as [b|]; simpl.
    + rewrite (cp_hi _ _ _ Hcp b eq_refl). rewrite lookup_insert_eq. by eexists.
    + destruct HN as [HN|(b & Hb & HN)]; [|done]. rewrite HN in Hne. destruct (ci_new _ _ Hi Hne) as [c Hc].
      exists c. destruct l as [b|]; simpl; [rewrite (cp_key _ _ _ Hcp b eq_refl); change (get_start a1) with (get_start a);
        rewrite lookup_insert_ne by lia|]; by rewrite lookup_delete_ne by lia.
Qed.

Lemma dropped_ok a vpns : area_ok a → area_ok (with_data_frames (drop_keys (data_frames a) vpns) a).
Proof.
  intros Ha. apply area_frames_ok; [done| |].
  - intros v f. rewrite lookup_drop_keys. destruct (decide _); [done|]. by apply (ao_frames _ Ha).
  - intros Hg. rewrite (ao_guard _ Ha Hg). apply map_eq. intros v. rewrite lookup_drop_keys. by destruct (decide _).
Qed.

(** The frames of an area whose pages in the range have been unmapped. *)
Lemma dropped_frames a vpns v f :
  area_ok a → (∀ x, x ∈ vpns ↔ inside a x ∧ lo ≤ x < hi) → drop_keys (data_frames a) vpns !! v = Some f →
  inside a v ∧ (v < lo ∨ hi ≤ v).
Proof.
  intros Ha Hvp. rewrite lookup_drop_keys. destruct (decide (v ∈ vpns)) as [|Hn]; [done|].
  intros [Hin _]%(ao_frames _ Ha). split; [done|]. rewrite Hvp in Hn. destruct (decide (v < lo)); [by left|].
  right. destruct (decide (hi ≤ v)); [done|]. exfalso. apply Hn. split; [done|lia].
Qed.

(** The four ways the range can meet the area [a], whose frames in the range are gone. *)
Section pieces.
Context (a : MapArea) (Ha : area_ok a) (Hlt : lo < hi) (Hmeet : get_start a < hi ∧ lo < get_end a).
Context (Hgone : ∀ v f, data_frames a !! v = Some f → v < lo ∨ hi ≤ v).

Lemma pieces_all : lo ≤ get_start a → get_end a ≤ hi → cut_pieces a None None.
Proof using Ha Hgone.
  intros Hl Hr. split; [done|done| | | |done|done].
  - intros v. simpl. unfold inside. lia.
  - intros v. simpl. unfold inside. lia.
  - assert (data_frames a = ∅) as Hem.
    { apply map_eq. intros v. rewrite lookup_empty. destruct (data_frames a !! v) as [f|] eqn:Hf; [|done].
      pose proof (Hgone _ _ Hf). apply (ao_frames _ Ha) in Hf as [Hin _]. unfold inside in Hin. lia. }
    unfold frames_of. by rewrite Hem, map_to_list_empty.
Qed.

Lemma pieces_left : lo ≤ get_start a → hi < get_end a →
  ∃ b, resize a hi (get_end a) = Some b ∧ get_start b = hi ∧ cut_pieces a None (Some b).
Proof using Ha Hgone Hmeet.
  intros Hl Hr. destruct (resize_piece a hi (get_end a)) as (b & Hb & Hs & He & Hf & _ & Hp); [done|lia|done|done| |].
  { intros v f Hf. pose proof (Hgone _ _ Hf). apply (ao_frames _ Ha) in Hf as [Hin _]. unfold inside in Hin. lia. }
  exists b. split_and!; [done|done|]. split; [done|done| | |by simpl; rewrite Hf|done|by intros ? [= <-]].
  - intros v. simpl. unfold inside. lia.
  - intros v. simpl. unfold inside. rewrite Hs, He. lia.
Qed.

Lemma pieces_right : get_start a < lo → get_end a ≤ hi →
  ∃ b, resize a (get_start a) lo = Some b ∧ get_start b = get_start a ∧ cut_pieces a (Some b) None.
Proof using Ha Hgone Hmeet.
  intros Hl Hr. destruct (resize_piece a (get_start a) lo) as (b & Hb & Hs & He & Hf & _ & Hp); [done|done|done|lia| |].
  { intros v f Hf. pose proof (Hgone _ _ Hf). apply (ao_frames _ Ha) in Hf as [Hin _]. unfold inside in Hin. lia. }
  exists b. split_and!; [done|done|]. split; [done|done| | |by simpl; rewrite Hf, app_nil_r|by intros ? [= <-]|done].
  - intros v. simpl. unfold inside. rewrite Hs, He. lia.
  - intros v. simpl. unfold inside. lia.
Qed.

Lemma pieces_middle : get_start a < lo → hi < get_end a →
  ∃ b c, let a' := with_data_frames (bt_below (data_frames a) hi) a in
    resize a' (get_start a) lo = Some b ∧ clone_meta_with_new_range b hi (get_end a) = Some c ∧ get_start b = get_start a ∧
    cut_pieces a (Some b) (Some (with_data_frames (bt_from (data_frames a) hi) c)).
Proof using Ha Hgone Hlt Hmeet.
  intros Hl Hr. set (a' := with_data_frames (bt_below (data_frames a) hi) a).
  assert (area_ok a') as Ha'.
  { apply area_frames_ok; [done| |].
    - intros v f. rewrite lookup_bt_below. destruct (decide _); [|done]. apply (ao_frames _ Ha).
    - intros Hg. rewrite (ao_guard _ Ha Hg). apply map_eq. intros v. rewrite lookup_bt_below. by destruct (decide _). }
  destruct (resize_piece a' (get_start a) lo) as (b & Hb & Hs & He & Hf & Hd & Hp);
    [done|by change (get_start a') with (get_start a)|done|change (get_end a') with (get_end a); lia| |].
  { intros v f. unfold a'. simpl. rewrite lookup_bt_below. destruct (decide (v < hi)); [|done].
    intros Hf. pose proof (Hgone _ _ Hf). apply (ao_frames _ Ha) in Hf as [Hin _]. unfold inside in Hin. lia. }
  destruct (clone_piece a hi (get_end a) (bt_from (data_frames a) hi)) as (c & Hc & Hcs & Hce & Hcp); [done|lia|done|done| | |].
  { intros v Hv. by rewrite lookup_bt_from, decide_True by lia. }
  { intros v f. rewrite lookup_bt_from. destruct (decide _); [|done]. intros [Hin _]%(ao_frames _ Ha). unfold inside in Hin. lia. }
  exists b, c. cbn zeta. split_and!; [done| |done|].
  - rewrite <-Hc. unfold resize in Hb. change (get_start a') with (get_start a) in Hb. rewrite Z.ltb_irrefl in Hb.
    destruct (SimpleRange_new (get_start a) lo) as [g|] eqn:Hg; [|done]. injection Hb as <-.
    unfold SimpleRange_new in Hg. destruct (_ <=? _); [|done]. injection Hg as <-. done.
  - assert (∀ v, inside b v → page_of a' v = page_of a v) as Hpo.
    { intros v Hv. unfold page_of, a'. simpl. f_equal. rewrite lookup_bt_below, decide_True; [done|].
      unfold inside in Hv. lia. }
    split; [|done| | |by apply frames_split with hi|by intros ? [= <-]|by intros ? [= <-]].
    + destruct Hp as [Hbo Hp]. split; [done|]. intros v Hv. destruct (Hp v Hv) as [Hin Hpv].
      split; [done|]. by rewrite Hpv, Hpo.
    + intros v. unfold in_piece, inside. rewrite Hs, He. lia.
    + intros v. unfold in_piece, inside. rewrite Hcs, Hce. lia.
Qed.
End pieces.

(** An area that the range does not meet. *)
Lemma munmap_skip acc key a rest :
  cut_inv acc ((key, a) :: rest) → get_end a ≤ lo ∨ hi ≤ get_start a → cut_inv acc rest.
Proof.
  intros Hi Hm'. assert (∀ v, inside a v → ¬ lo ≤ v < hi) as Hout by (unfold inside; lia). clear Hm'.
  assert (∀ v, done_page ((key, a) :: rest) v ↔ done_page rest v) as Hd.
  { intros v. unfold done_page. rewrite Forall_cons. simpl. split; [tauto|]. intros [Hr Hf]. split; [done|]. split; [|done].
    intros Hin. by apply (Hout v). }
  destruct Hi as [? ? ? ? Hlog Hview Hrest Hkeys ? ?]. split; [done..| | | | |done|done].
  - eapply logged_ext; [done|]. intros e. by setoid_rewrite Hd.
  - intros v. rewrite Hview. destruct (decide _) as [Hx|Hx]; [rewrite decide_True; [done|]|rewrite decide_False; [done|]]; by rewrite <-Hd.
  - intros key' a' Hin. apply Hrest. by right.
  - by apply NoDup_cons in Hkeys as [_ ?].
Qed.

(** No right half has been cut off when an area reaches over the end of the range. *)
Lemma munmap_no_new acc key a rest :
  cut_inv acc ((key, a) :: rest) → get_start a < hi → hi < get_end a → hi ∉ get_start <$> acc_new acc.
Proof.
  intros Hi Hs He. destruct (ci_rest _ _ Hi key a ltac:(by left)) as (Hk & _).
  pose proof (sp_tree _ _ _ _ (ci_sp _ _ Hi)) as Hm. destruct (to_area _ Hm _ _ Hk) as [-> Ha].
  destruct (decide (acc_new acc = [])) as [->|Hne]; [apply not_elem_of_nil|]. destruct (ci_new _ _ Hi Hne) as [b Hb].
  destruct (to_area _ Hm _ _ Hb) as [Hbs Hbo]. pose proof (ao_range _ Hbo). exfalso.
  enough (get_start a = hi) by lia. eapply (to_disjoint _ Hm _ _ a b hi Hk Hb); unfold inside; lia.
Qed.

Lemma munmap_step_ok acc key a rest :
  lo < hi → cut_inv acc ((key, a) :: rest) → ∃ acc', munmap_step F t lo hi acc (key, a) = Some acc' ∧ cut_inv acc' rest.
Proof.
  intros Hlt Hi. destruct (ci_rest _ _ Hi key a ltac:(by left)) as (Hk & HkE & HkR).
  pose proof (sp_tree _ _ _ _ (ci_sp _ _ Hi)) as Hm. destruct (to_area _ Hm _ _ Hk) as [-> Ha].
  unfold munmap_step. destruct ((get_start a <? hi) && (lo <? get_end a)) eqn:Hmeet.
  2: { exists acc. split; [done|]. eapply munmap_skip; [done|]. apply andb_false_iff in Hmeet. rewrite !Z.ltb_ge in Hmeet. lia. }
  apply andb_true_iff in Hmeet as [Hm1 Hm2]. apply Z.ltb_lt in Hm1, Hm2. pose proof (conj Hm1 Hm2) as Hmeet.
  rewrite (ao_size _ Ha). change (num_pages Page4K) with 1.
  assert (get_start a ∉ keys_new (acc_rekey acc) (acc_new acc)) as Hkn.
  { unfold keys_new. rewrite elem_of_app. intros [?|Hx%(ci_hi _ _ Hi)]; [done|lia]. }
  assert (get_start a ∉ get_start <$> acc_new acc) as HkN by (unfold keys_new in Hkn; rewrite !elem_of_app in Hkn; tauto).
  assert (∀ x y, (∀ v, x ≤ v < y ↔ inside a v ∧ lo ≤ v < hi) → ∃ fs k1,
    let vpns := pages x y 1 in let a1 := with_data_frames (drop_keys (data_frames a) vpns) a in
    unmap_list F (acc_k acc) t a vpns [] = Some (fs, a1, k1) ∧ (∀ v, v ∈ vpns ↔ inside a v ∧ lo ≤ v < hi) ∧ area_ok a1 ∧
    (∀ v f, data_frames a1 !! v = Some f → v < lo ∨ hi ≤ v)) as Hul.
  { intros x y Hxy. assert (∀ v, v ∈ pages x y 1 ↔ inside a v ∧ lo ≤ v < hi) as Hvp by (intros v; by rewrite elem_of_pages).
    destruct (unmap_list_ok F t (pages x y 1) (acc_k acc) (acc_tree acc) _ (get_start a) a [] (ci_sp _ _ Hi) Hk)
      as (fs & k' & Hul & _); [by intros v [? _]%Hvp|]. exists fs, k'. split_and!; [done|done|by apply dropped_ok|].
    intros v f Hf. by apply (dropped_frames a (pages x y 1) v f) in Hf as [_ ?]. }
  destruct (lo <=? get_start a) eqn:Hdl, (get_end a <=? hi) eqn:Hdr; cbn [negb andb];
    rewrite ?Z.leb_le, ?Z.leb_gt in Hdl; rewrite ?Z.leb_le, ?Z.leb_gt in Hdr.
  - destruct (Hul (get_start a) (get_end a) ltac:(unfold inside; lia)) as (fs & k1 & Hul1 & Hvp & Ha1 & Hg1). cbn zeta in *.
    rewrite Hul1. cbn [mbind option_bind]. set (a1 := with_data_frames _ a) in *. destruct (resize_empty a1) as [a2 Ha2].
    change (get_start a1) with (get_start a) in Ha2. rewrite Ha2. cbn [mbind option_bind]. eexists. split; [done|].
    eapply (munmap_cut acc _ _ a rest _ fs k1 None None Hlt Hi Hvp Hul1); simpl;
      [by apply pieces_all| |done|done|set_solver|set_solver|set_solver|by left|done].
    unfold acc_tree. simpl. rewrite fin_drop, fin_put by done. unfold carve. simpl. by rewrite delete_insert_eq.
  - destruct (Hul (get_start a) hi ltac:(unfold inside; lia)) as (fs & k1 & Hul1 & Hvp & Ha1 & Hg1). cbn zeta in *.
    rewrite Hul1. cbn [mbind option_bind]. set (a1 := with_data_frames _ a) in *.
    destruct (pieces_left a1 Ha1 Hmeet Hg1 Hdl Hdr) as (a2 & Ha2 & Hs2 & Hp2). change (get_end a1) with (get_end a) in Ha2.
    rewrite Ha2. cbn [mbind option_bind]. eexists. split; [done|].
    eapply (munmap_cut acc _ _ a rest _ fs k1 None (Some a2) Hlt Hi Hvp Hul1); simpl;
      [done| |done|done|set_solver|by rewrite fmap_app|by rewrite fmap_app|by left|done].
    unfold acc_tree. simpl. rewrite (fin_rekey _ _ _ _ _ hi a2);
      [|done|by eapply munmap_no_new|rewrite fin_put by done; apply lookup_insert_eq].
    rewrite fin_put by done. unfold carve. simpl. by rewrite delete_insert_eq, Hs2.
  - destruct (Hul lo (get_end a) ltac:(unfold inside; lia)) as (fs & k1 & Hul1 & Hvp & Ha1 & Hg1). cbn zeta in *.
    rewrite Hul1. cbn [mbind option_bind]. set (a1 := with_data_frames _ a) in *.
    destruct (pieces_right a1 Ha1 Hmeet Hg1 Hdl Hdr) as (a2 & Ha2 & Hs2 & Hp2). change (get_start a1) with (get_start a) in Ha2, Hs2.
    rewrite Ha2. cbn [mbind option_bind]. eexists. split; [done|].
    eapply (munmap_cut acc _ _ a rest _ fs k1 (Some a2) None Hlt Hi Hvp Hul1); simpl;
      [done| |done|done|set_solver|set_solver|set_solver|by left|done].
    unfold acc_tree. simpl. rewrite fin_put by done. unfold carve. simpl. by rewrite Hs2, insert_delete_eq.
  - unfold SimpleRange_new at 1. rewrite (proj2 (Z.leb_le lo hi)) by lia. cbn [mbind option_bind].
    destruct (Hul lo hi ltac:(unfold inside; lia)) as (fs & k1 & Hul1 & Hvp & Ha1 & Hg1). cbn zeta in *.
    rewrite Hul1. cbn [mbind option_bind]. set (a1 := with_data_frames _ a) in *.
    destruct (pieces_middle a1 Ha1 Hlt Hmeet Hg1 Hdl Hdr) as (b & c & Hb & Hc & Hs & Hp). cbn zeta in *.
    change (get_start a1) with (get_start a) in Hb, Hs. change (get_end a1) with (get_end a) in Hc.
    rewrite Hb. cbn [mbind option_bind]. rewrite Hc. cbn [mbind option_bind]. eexists. split; [done|].
    eapply (munmap_cut acc _ _ a rest _ fs k1 (Some b) _ Hlt Hi Hvp Hul1 Hp); simpl;
      [|done|done|set_solver|set_solver|set_solver|right; by eexists|done].
    unfold acc_tree. simpl. rewrite fin_new, fin_put by done. unfold carve. simpl. by rewrite Hs, insert_delete_eq.
Qed.

Lemma munmap_loop_ok rest : ∀ acc,
  lo < hi → cut_inv acc rest → ∃ acc', munmap_loop F t lo hi acc rest = Some acc' ∧ cut_inv acc' [].
Proof.
  induction rest as [|[key a] rest IH]; intros acc Hlt Hi; cbn [munmap_loop]; [by exists acc|].
  destruct (munmap_step_ok acc key a rest Hlt Hi) as (acc1 & Hstep & Hi1). rewrite Hstep. by apply IH.
Qed.

Lemma munmap_init :
  sp_ok (k_w k0) t m0 L → lo < hi → cut_inv (MkAcc k0 m0 [] [] [] []) (bt_entries m0).
Proof.
  intros Hs Hlt. assert (∀ v, done_page (bt_entries m0) v → page_at m0 v = None) as Hn.
  { intros v [_ Hf]. apply page_at_None; [apply Hs|]. intros key a Hk Hin. rewrite Forall_forall in Hf.
    by apply (Hf (key, a)), Hin; apply elem_of_entries. }
  split; simpl; [done|done|done|apply stable_refl| | | |apply bt_keys_nodup|set_solver|done].
  - eapply logged_ext; [apply logged_refl|]. intros e. split; [done|]. intros (v & Hd & Hw). by rewrite (Hn v Hd) in Hw.
  - intros v. change (acc_tree _) with m0. destruct (decide _) as [Hd|]; [|done]. by apply Hn.
  - intros key a Hin%elem_of_entries. split_and!; [done|apply not_elem_of_nil|apply not_elem_of_nil].
Qed.
End loop.

(** Exactly the pages of the range are gone. *)
Record unmapped k ms k' ms' L (lo hi : Z) : Prop := {
  un_ms : ms' = with_areas (areas ms') ms;
  un_view v : page_at (areas ms') v = if decide (lo ≤ v < hi) then None else page_at (areas ms) v;
  un_held : held (areas ms') ⊆+ held (areas ms);
  un_stable : stable (ms_table ms) (λ v, lo ≤ v < hi) (held (areas ms) ++ L) (k_w k) (k_w k');
  un_log : logged k k' (λ e, ∃ v, lo ≤ v < hi ∧ page_at (areas ms) v ≫= written_back F = Some e);
}.

Lemma munmap_locked_ok k ms L start_ len :
  sp_ok (k_w k) (ms_table ms) (areas ms) L → user_range start_ len →
  ∃ fs k' ms', munmap_locked F k ms start_ len = Some (fs, k', ms') ∧
    sp_ok (k_w k') (ms_table ms) (areas ms') ((f_ppn <$> fs) ++ L) ∧ (f_ppn <$> fs) ++ held (areas ms') ≡ₚ held (areas ms) ∧
    Forall (λ f, f_size f = Page4K) fs ∧ unmapped k ms k' ms' L (first_page start_) (last_page (start_ + len)).
Proof.
  intros Hs Hr. destruct (user_range_ok _ _ Hr) as (Hadd & Hfl & Hce). destruct (user_range_pages _ _ Hr) as [Hp _].
  unfold munmap_locked. rewrite Hadd. cbn [mbind option_bind]. rewrite Hfl, Hce. cbn [mbind option_bind].
  destruct (munmap_loop_ok k (ms_table ms) (areas ms) L _ _ (bt_entries (areas ms)) _ (proj2 Hp)
    (munmap_init k (ms_table ms) (areas ms) L _ _ Hs (proj2 Hp))) as (acc & Hl & Hi).
  rewrite Hl. cbn [mbind option_bind]. do 3 eexists. split; [done|]. split_and!; [apply Hi|apply Hi|apply Hi|].
  assert (∀ lo hi v, done_page lo hi [] v ↔ lo ≤ v < hi) as Hd.
  { intros lo hi v. unfold done_page. rewrite Forall_nil. tauto. }
  split; [done| | |apply Hi|].
  - intros v. change (areas (with_areas _ ms)) with (acc_tree acc). rewrite (ci_view _ _ _ _ _ _ _ _ Hi).
    destruct (decide _) as [Hx|Hx]; [rewrite decide_True; [done|]|rewrite decide_False; [done|]]; by rewrite <-Hd.
  - rewrite <-(ci_held _ _ _ _ _ _ _ _ Hi). by apply submseteq_inserts_l.
  - eapply logged_ext; [apply Hi|]. intros e. by setoid_rewrite Hd.
Qed.

Lemma munmap_ok k ms L start_ len :
  sp_ok (k_w k) (ms_table ms) (areas ms) L → user_range start_ len →
  ∃ k' ms', munmap F k ms start_ len = Some (k', ms') ∧ sp_ok (k_w k') (ms_table ms) (areas ms') L ∧
    unmapped k ms k' ms' L (first_page start_) (last_page (start_ + len)).
Proof.
  intros Hs Hr. destruct (munmap_locked_ok k ms L _ _ Hs Hr) as (fs & k1 & ms' & Hl & Hs1 & Hh & Hsz & [H1 H2 Hsub H3 H4]).
  destruct (sp_drop (ms_table ms) (k_w k1) (areas ms') L fs Hs1 Hsz) as (w' & Hd & Hs' & S & _).
  exists (with_w w' k1), ms'. unfold munmap. rewrite Hl. cbn [mbind option_bind]. rewrite Hd. split_and!; [done|done|].
  split; [done|done|done| |done]. eapply stable_trans; [| | | |exact H3|apply (S (λ _, False) (held (areas ms) ++ L))]; done.
Qed.

(** ** [madvise_dontneed] and the tear-down *)

(** The frames of the pages in [T] are released, and the pages stay. *)
Record emptied k t m L (fs : list Frame) k' m' (T : Z → Prop) : Prop := {
  em_sp : sp_ok (k_w k') t m' ((f_ppn <$> fs) ++ L);
  em_held : (f_ppn <$> fs) ++ held m' ≡ₚ held m;
  em_sizes : Forall (λ f, f_size f = Page4K) fs;
  em_stable : stable t T (held m ++ L) (k_w k) (k_w k');
  em_log : logged k k' (λ e, ∃ v, T v ∧ page_at m v ≫= written_back F = Some e);
  em_in v : T v → page_at m' v = with_frame None <$> page_at m v;
  em_out v : ¬ T v → page_at m' v = page_at m v;
}.

Lemma emptied_refl k t m L : sp_ok (k_w k) t m L → emptied k t m L [] k m (λ _, False).
Proof.
  intros Hs. split; [done|done|done|apply stable_refl| |done|done].
  eapply logged_ext; [apply logged_refl|]. naive_solver.
Qed.

Lemma emptied_ext k t m L fs k' m' (T T' : Z → Prop) : (∀ v, T v ↔ T' v) → emptied k t m L fs k' m' T → emptied k t m L fs k' m' T'.
Proof.
  intros HT []. split; [done..| | |intros v ?%HT; auto|intros v Hv; apply em_out0; by rewrite HT].
  - eapply stable_mono; [|done|done]. intros v. by rewrite HT.
  - eapply logged_ext; [done|]. intros e. by setoid_rewrite HT.
Qed.

(** Pages without a frame do not matter. *)
Lemma emptied_widen k t m L fs k' m' (T T' : Z → Prop) `{Hdec : ∀ v, Decision (T v)} :
  (∀ v, T v → T' v) → (∀ v, T' v → ¬ T v → page_at m v ≫= pg_frame = None) →
  emptied k t m L fs k' m' T → emptied k t m L fs k' m' T'.
Proof.
  intros HT Hnone [Hs Hh Hsz S Hl Hin Hout]. split; [done..| | | |].
  - eapply stable_mono; [done|done|done].
  - eapply logged_ext; [done|]. intros e. split; intros (v & Hv & Hw); exists v; (split; [|done]); [by apply HT|].
    destruct (Hdec v) as [|Hn]; [done|]. specialize (Hnone v Hv Hn). destruct (page_at m v) as [p|]; [|done].
    simpl in *. unfold written_back in Hw. by rewrite Hnone in Hw.
  - intros v Hv. destruct (Hdec v) as [|Hn]; [by apply Hin|]. rewrite Hout by done. specialize (Hnone v Hv Hn).
    destruct (page_at m v) as [[]|]; [|done]. simpl in *. by subst.
  - intros v Hv. apply Hout. intros Hx. by apply Hv, HT.
Qed.

Lemma emptied_trans k t m L fs k1 m1 (T : Z → Prop) fs' k2 m2 (T' : Z → Prop)
    `{Hdec : ∀ v, Decision (T v), Hdec' : ∀ v, Decision (T' v)} :
  emptied k t m L fs k1 m1 T → emptied k1 t m1 ((f_ppn <$> fs) ++ L) fs' k2 m2 T' →
  emptied k t m L (fs ++ fs') k2 m2 (λ v, T v ∨ T' v).
Proof.
  intros E1 E2. split.
  - eapply sp_ok_perm; [apply E2|]. rewrite fmap_app. solve_perm.
  - rewrite fmap_app, <-(em_held _ _ _ _ _ _ _ _ E1), <-(em_held _ _ _ _ _ _ _ _ E2). solve_perm.
  - apply Forall_app. split; [apply E1|apply E2].
  - eapply stable_trans; [| | | |apply E1|apply E2]; [tauto|tauto|done|].
    intros p. rewrite <-(em_held _ _ _ _ _ _ _ _ E1), !elem_of_app. tauto.
  - eapply logged_trans; [apply E1|apply E2|]. intros e. split.
    + intros (v & HT & Hw). destruct (Hdec v) as [Hv|Hv]; [left; by exists v|]. right. exists v. split; [tauto|].
      by rewrite (em_out _ _ _ _ _ _ _ _ E1).
    + intros [(v & Hv & Hw)|(v & Hv & Hw)]; [exists v; tauto|]. destruct (Hdec v) as [Hv'|Hv'].
      * rewrite (em_in _ _ _ _ _ _ _ _ E1) in Hw by done. by destruct (page_at m v).
      * exists v. rewrite (em_out _ _ _ _ _ _ _ _ E1) in Hw by done. tauto.
  - intros v Hv. assert (∀ p : option page, with_frame None <$> (with_frame None <$> p) = with_frame None <$> p) as Hidem by (by intros []).
    destruct (Hdec' v) as [HT'|HT']; [rewrite (em_in _ _ _ _ _ _ _ _ E2) by done|rewrite (em_out _ _ _ _ _ _ _ _ E2) by done];
      (destruct (Hdec v) as [HT|HT]; [rewrite (em_in _ _ _ _ _ _ _ _ E1) by done|rewrite (em_out _ _ _ _ _ _ _ _ E1) by done]);
      [apply Hidem|done|done|tauto].
  - intros v Hv. rewrite (em_out _ _ _ _ _ _ _ _ E2), (em_out _ _ _ _ _ _ _ _ E1); tauto.
Qed.

Lemma unmap_list_emptied k t m L key a vpns :
  sp_ok (k_w k) t m L → m !! key = Some a → (∀ v, v ∈ vpns → inside a v) →
  ∃ fs k', let a' := with_data_frames (drop_keys (data_frames a) vpns) a in
    unmap_list F k t a vpns [] = Some (fs, a', k') ∧ emptied k t m L fs k' (<[key := a']> m) (λ v, v ∈ vpns).
Proof.
  intros Hs Hk Hin. destruct (unmap_list_ok F t vpns k m L key a [] Hs Hk Hin) as (fs & k' & Hu & ? & ? & ? & ? & ? & Hv).
  exists fs, k'. split; [done|]. split; [done..| |]; intros v Hx; rewrite Hv; by rewrite ?decide_True, ?decide_False by done.
Qed.

Definition met (lo hi : Z) (rest : list (Z * MapArea)) (v : Z) : Prop := lo ≤ v < hi ∧ Exists (λ x, inside x.2 v) rest.

#[local] Instance met_dec lo hi rest v : Decision (met lo hi rest v).
Proof. unfold met. apply _. Defined.

Lemma dontneed_loop_ok t lo hi rest : ∀ k m L released,
  sp_ok (k_w k) t m L → NoDup rest.*1 → (∀ key a, (key, a) ∈ rest → m !! key = Some a) →
  ∃ fs k' m', dontneed_loop F k t lo hi m rest released = Some (released ++ fs, k', m') ∧
    emptied k t m L fs k' m' (met lo hi rest).
Proof.
  induction rest as [|[key a] rest IH]; intros k m L released Hs Hn Hrest; cbn [dontneed_loop].
  - exists [], k, m. rewrite app_nil_r. split; [done|]. eapply emptied_ext; [|by apply emptied_refl].
    intros v. unfold met. rewrite Exists_nil. tauto.
  - apply NoDup_cons in Hn as [Hnin Hn]. pose proof (Hrest key a ltac:(by left)) as Hk.
    pose proof (sp_tree _ _ _ _ Hs) as Hm. destruct (to_area _ Hm _ _ Hk) as [_ Ha].
    rewrite (ao_size _ Ha). change (num_pages Page4K) with 1.
    destruct (_ || _) eqn:Hskip.
    + destruct (IH k m L released Hs Hn) as (fs & k' & m' & Hl & E); [by intros ???; apply Hrest; right|].
      exists fs, k', m'. split; [done|]. apply orb_true_iff in Hskip as [Hskip|Hskip].
      * apply Z.leb_le in Hskip. eapply emptied_ext; [|exact E]. intros v. unfold met. rewrite Exists_cons. simpl. unfold inside.
        split; [tauto|]. intros [? [?|?]]; [lia|done].
      * apply bool_decide_eq_true in Hskip. eapply (emptied_widen _ _ _ _ _ _ _ (met lo hi rest)); [apply _| | |exact E].
        -- intros v. unfold met. rewrite Exists_cons. tauto.
        -- intros v Hv Hnv. unfold met in *. rewrite Exists_cons in Hv. destruct Hv as [? [Hin|?]]; [|tauto]. simpl in Hin.
           rewrite (page_at_area m key a) by done. simpl. by rewrite (ao_guard _ Ha Hskip).
    + apply orb_false_iff in Hskip as [Hskip _]. apply Z.leb_gt in Hskip.
      destruct (unmap_list_emptied k t m L key a (pages (Z.max lo (get_start a)) (Z.min hi (get_end a)) 1) Hs Hk) as (fs & k1 & Hu & E1).
      { intros v. rewrite elem_of_pages. unfold inside. lia. }
      cbn zeta in *. rewrite Hu. cbn [mbind option_bind]. set (a' := with_data_frames _ a) in *.
      destruct (IH k1 (<[key := a']> m) ((f_ppn <$> fs) ++ L) (released ++ fs) (em_sp _ _ _ _ _ _ _ _ E1) Hn) as (fs' & k' & m' & Hl & E2).
      { intros key' b Hin. rewrite lookup_insert_ne; [apply Hrest; by right|]. intros ->. apply Hnin.
        apply list_elem_of_fmap. by exists (key', b). }
      exists (fs ++ fs'), k', m'. rewrite Hl, app_assoc. split; [done|].
      eapply emptied_ext; [|exact (emptied_trans _ _ _ _ _ _ _ _ _ _ _ _ E1 E2)].
      intros v. unfold met. rewrite elem_of_pages, Exists_cons. simpl. unfold inside. split; [|naive_solver lia].
      intros [?|?]; [|tauto]. split; [lia|]. left. lia.
Qed.

(** The frames go, the pages stay. *)
Lemma dontneed_ok k ms L start_ len :
  sp_ok (k_w k) (ms_table ms) (areas ms) L → user_range start_ len →
  let lo := first_page start_ in let hi := last_page (start_ + len) in
  ∃ k' m', madvise_dontneed F k ms start_ len = Some (inr (), k', with_areas m' ms) ∧
    sp_ok (k_w k') (ms_table ms) m' L ∧ held m' ⊆+ held (areas ms) ∧ stable (ms_table ms) (λ v, lo ≤ v < hi) (held (areas ms) ++ L) (k_w k) (k_w k') ∧
    logged k k' (λ e, ∃ v, lo ≤ v < hi ∧ page_at (areas ms) v ≫= written_back F = Some e) ∧
    ∀ v, page_at m' v = if decide (lo ≤ v < hi) then with_frame None <$> page_at (areas ms) v else page_at (areas ms) v.
Proof.
  intros Hs Hr lo hi. destruct (user_range_ok _ _ Hr) as (Hadd & Hfl & Hce).
  unfold madvise_dontneed. rewrite Hadd, Hfl, Hce. cbn [mbind option_bind].
  destruct (dontneed_loop_ok (ms_table ms) lo hi (bt_entries (areas ms)) k (areas ms) L [] Hs) as (fs & k1 & m' & Hl & E);
    [apply bt_keys_nodup|by intros key a; apply elem_of_entries|].
  fold lo hi. rewrite Hl. cbn [mbind option_bind app].
  destruct (sp_drop (ms_table ms) (k_w k1) m' L fs (em_sp _ _ _ _ _ _ _ _ E) (em_sizes _ _ _ _ _ _ _ _ E)) as (w' & Hd & Hs' & S & _).
  rewrite Hd. cbn [mbind option_bind]. exists (with_w w' k1), m'. pose proof (sp_tree _ _ _ _ Hs) as Hm.
  assert (∀ v, lo ≤ v < hi → ¬ met lo hi (bt_entries (areas ms)) v → page_at (areas ms) v = None) as Hnone.
  { intros v Hv Hn. apply page_at_None; [done|]. intros key a Hk Hin. apply Hn. split; [done|]. apply Exists_exists.
    exists (key, a). split; [by apply elem_of_entries|done]. }
  split_and!; [done|done| | | |].
  - rewrite <-(em_held _ _ _ _ _ _ _ _ E). by apply submseteq_inserts_l.
  - eapply stable_trans; [| | | |apply E|apply (S (λ _, False) (held (areas ms) ++ L))]; [by intros v [? _]|done..].
  - eapply logged_ext; [apply E|]. intros e. split; intros (v & Hv & Hw); exists v; (split; [|done]); [by destruct Hv|].
    destruct (decide (met lo hi (bt_entries (areas ms)) v)) as [|Hn]; [done|]. by rewrite (Hnone v Hv Hn) in Hw.
  - intros v. destruct (decide (met lo hi (bt_entries (areas ms)) v)) as [Hx|Hx].
    + rewrite (em_in _ _ _ _ _ _ _ _ E) by done. by rewrite decide_True by apply Hx.
    + rewrite (em_out _ _ _ _ _ _ _ _ E) by done. destruct (decide _) as [Hv|]; [|done]. by rewrite (Hnone v Hv Hx).
Qed.

Lemma recycle_areas_ok t rest : ∀ k m L frames,
  sp_ok (k_w k) t m L → NoDup rest.*1 → (∀ key a, (key, a) ∈ rest → m !! key = Some a) →
  ∃ fs k' m', recycle_loop F k t rest frames = Some (frames ++ fs, k') ∧
    emptied k t m L fs k' m' (λ v, Exists (λ x, inside x.2 v) rest).
Proof.
  induction rest as [|[key a] rest IH]; intros k m L frames Hs Hn Hrest; cbn [recycle_loop].
  - exists [], k, m. rewrite app_nil_r. split; [done|]. eapply emptied_ext; [|by apply emptied_refl].
    intros v. by rewrite Exists_nil.
  - apply NoDup_cons in Hn as [Hnin Hn]. pose proof (Hrest key a ltac:(by left)) as Hk.
    pose proof (sp_tree _ _ _ _ Hs) as Hm. destruct (to_area _ Hm _ _ Hk) as [_ Ha].
    assert (∃ vpns, area_unmap F k t a = unmap_list F k t a vpns [] ∧ (∀ v, v ∈ vpns → inside a v) ∧
      ∀ v, is_Some (data_frames a !! v) → v ∈ vpns) as (vpns & Hau & Hin & Hres).
    { unfold area_unmap. destruct (is_frame_backed_mapping a); eexists; (split; [done|]); split.
      - intros v [f Hf]%elem_of_bt_keys. by destruct (ao_frames _ Ha _ _ Hf).
      - intros v. apply elem_of_bt_keys.
      - intros v. rewrite (ao_size _ Ha). apply elem_of_pages.
      - intros v [f Hf]. rewrite (ao_size _ Ha). apply elem_of_pages. by destruct (ao_frames _ Ha _ _ Hf). }
    rewrite Hau. destruct (unmap_list_emptied k t m L key a vpns Hs Hk Hin) as (fs & k1 & Hu & E1).
    cbn zeta in *. rewrite Hu. cbn [mbind option_bind]. set (a' := with_data_frames _ a) in *.
    destruct (IH k1 (<[key := a']> m) ((f_ppn <$> fs) ++ L) (frames ++ fs) (em_sp _ _ _ _ _ _ _ _ E1) Hn) as (fs' & k' & m' & Hl & E2).
    { intros key' b Hin'. rewrite lookup_insert_ne; [apply Hrest; by right|]. intros ->. apply Hnin.
      apply list_elem_of_fmap. by exists (key', b). }
    exists (fs ++ fs'), k', m'. rewrite Hl, app_assoc. split; [done|].
    apply (emptied_widen _ _ _ _ _ _ _ _ (inside a)) in E1; [|done|].
    + eapply emptied_ext; [|exact (emptied_trans _ _ _ _ _ _ _ _ _ _ _ _ E1 E2)]. intros v. by rewrite Exists_cons.
    + intros v Hv Hnv. rewrite (page_at_area m key a) by done. simpl. destruct (data_frames a !! v) eqn:Hf; [|done].
      destruct Hnv. by apply Hres.
Qed.

(** The address space is empty afterwards, and holds nothing. *)
Lemma recycle_ok k ms L :
  sp_ok (k_w k) (ms_table ms) (areas ms) L →
  ∃ k', recycle_data_pages F k ms = Some (k', with_areas ∅ ms) ∧ mm_ok (k_w k') L ∧
    (∀ v, 0 ≤ v < user_top → mm_find (k_w k') (ms_table ms) v = None) ∧
    stable (ms_table ms) (λ v, is_Some (page_at (areas ms) v)) (held (areas ms) ++ L) (k_w k) (k_w k') ∧
    logged k k' (λ e, ∃ v, page_at (areas ms) v ≫= written_back F = Some e).
Proof.
  intros Hs. pose proof (sp_tree _ _ _ _ Hs) as Hm. unfold recycle_data_pages.
  destruct (recycle_areas_ok (ms_table ms) (bt_entries (areas ms)) k (areas ms) L [] Hs) as (fs & k1 & m' & Hl & E);
    [apply bt_keys_nodup|by intros key a; apply elem_of_entries|].
  rewrite Hl. cbn [mbind option_bind app].
  destruct (sp_drop (ms_table ms) (k_w k1) m' L fs (em_sp _ _ _ _ _ _ _ _ E) (em_sizes _ _ _ _ _ _ _ _ E)) as (w' & Hd & Hs' & S & Hfind & _).
  rewrite Hd. cbn [mbind option_bind]. exists (with_w w' k1).
  assert (∀ v, Exists (λ x, inside x.2 v) (bt_entries (areas ms)) ↔ is_Some (page_at (areas ms) v)) as HT.
  { intros v. rewrite Exists_exists. split.
    - intros ([key a] & Hk%elem_of_entries & Hin). rewrite (page_at_area _ key a) by done. by eexists.
    - intros [p Hp]. apply page_at_Some in Hp as (key & a & Hk & Hin & _); [|done]. exists (key, a).
      split; [by apply elem_of_entries|done]. }
  assert (∀ v, page_at m' v ≫= pg_frame = None) as Hnone.
  { intros v. destruct (decide (is_Some (page_at (areas ms) v))) as [Hv|Hv].
    - rewrite (em_in _ _ _ _ _ _ _ _ E) by (by apply HT). by destruct (page_at (areas ms) v).
    - rewrite (em_out _ _ _ _ _ _ _ _ E) by (by rewrite HT). apply eq_None_not_Some in Hv. by rewrite Hv. }
  split_and!; [done| | | |].
  - eapply mm_ok_perm; [apply Hs'|]. assert (held m' = []) as ->; [|done]. apply elem_of_nil_inv. intros p Hp.
    apply elem_of_held in Hp as (v & pg & f & Hpg & Hf & _); [|apply Hs']. specialize (Hnone v). rewrite Hpg in Hnone.
    simpl in Hnone. congruence.
  - intros v Hv. pose proof (sp_pte _ _ _ _ Hs' v Hv) as Hp. unfold pte_ok in Hp. by rewrite Hnone in Hp.
  - eapply stable_trans; [| | | |apply E|apply (S (λ _, False) (held (areas ms) ++ L))]; [by intros v ?%HT|done..].
  - eapply logged_ext; [apply E|]. intros e. split; intros (v & Hv); exists v; [by destruct Hv|].
    split; [|done]. apply HT. destruct (page_at (areas ms) v); [by eexists|done].
Qed.

(** ** Isolation *)

(** Fewer trackers, and entries that are gone or the same. *)
Lemma isolated_shrink w w' t m m' L L' :
  isolated w t m L → tree_ok m' → held m' ++ L' ⊆+ held m ++ L →
  (∀ v p f, page_at m' v = Some p → pg_frame p = Some f →
     mm_find w' t v = mm_find w t v ∧ ∃ q, page_at m v = Some q ∧ pg_frame q = Some f ∧ pg_shared q = pg_shared p) →
  isolated w' t m' L'.
Proof.
  intros Hi Hm' Hsub Hv v p f e Hp Hf Hsh He Hw. destruct (Hv v p f Hp Hf) as (Hfind & q & Hq & Hqf & Hqs).
  rewrite Hfind in He. rewrite <-Hqs in Hsh. pose proof (Hi v q f e Hq Hqf Hsh He Hw) as H1.
  assert (f_ppn f ∈ held m' ++ L') as Hin.
  { apply elem_of_app. left. apply elem_of_held; [done|]. by exists v, p, f. }
  apply trackers_in in Hin. assert (trackers (f_ppn f) (held m' ++ L') ≤ trackers (f_ppn f) (held m ++ L))%nat; [|lia].
  destruct (submseteq_Permutation _ _ Hsub) as [x Hx]. unfold trackers.
  rewrite Hx, (filter_app _ (held m' ++ L')), length_app. lia.
Qed.
End unmap.
