(* ===== verification/SpaceProtect.v ===== *)
(** * Protecting and locking

    [split_area_at] changes how the pages are cut into areas and nothing else;
    [mprotect] and [mlock_range] change exactly the pages of their range, or report
    an error and change no page. *)

From S2P Require Import Prelude Errno Address PageTable Mm BTree MapArea MemSet Space SpaceUnmap.

Local Open Scope Z_scope.

(** ** Splitting *)

(** No area reaches over [x]. *)
Definition boundary (m : gmap Z MapArea) (x : Z) : Prop :=
  ∀ key a, m !! key = Some a → get_end a ≤ x ∨ x ≤ get_start a.

(** Another way to cut the same pages into areas. *)
Record recut (m m' : gmap Z MapArea) : Prop := {
  rc_tree : tree_ok m';
  rc_held : held m' ≡ₚ held m;
  rc_view v : page_at m' v = page_at m v;
  rc_finer key' a' : m' !! key' = Some a' →
    ∃ key a, m !! key = Some a ∧ get_start a ≤ get_start a' ∧ get_end a' ≤ get_end a;
}.

Lemma recut_refl m : tree_ok m → recut m m.
Proof. intros Hm. split; [done..|]. intros key a Hk. exists key, a. by split_and!. Qed.

Lemma recut_trans m1 m2 m3 : recut m1 m2 → recut m2 m3 → recut m1 m3.
Proof.
  intros [] []. split; [done|by etrans|congruence|]. intros key3 a3 H3.
  destruct (rc_finer1 _ _ H3) as (key2 & a2 & H2 & ? & ?). destruct (rc_finer0 _ _ H2) as (key1 & a1 & H1 & ? & ?).
  exists key1, a1. split_and!; [done|lia|lia].
Qed.

Lemma recut_boundary m m' x : recut m m' → boundary m x → boundary m' x.
Proof. intros Hr Hb key' a' Hk'. destruct (rc_finer _ _ Hr _ _ Hk') as (key & a & Hk & ? & ?). destruct (Hb _ _ Hk); lia. Qed.

Lemma below_ok a x : area_ok a → area_ok (with_data_frames (bt_below (data_frames a) x) a).
Proof.
  intros Ha. apply area_frames_ok; [done| |].
  - intros v f. rewrite lookup_bt_below. destruct (decide _); [|done]. apply (ao_frames _ Ha).
  - intros Hg. rewrite (ao_guard _ Ha Hg). apply map_eq. intros v. rewrite lookup_bt_below. by destruct (decide _).
Qed.

Lemma split_area_ok m key x :
  tree_ok m → ∃ m', split_area_at m key x = Some (inr (), m') ∧ recut m m' ∧
    (∀ key' a', m' !! key' = Some a' → get_end a' ≤ x ∨ x ≤ get_start a' ∨ key' ≠ key ∧ m !! key' = Some a') ∧
    ∀ key' a', m !! key' = Some a' → ∃ b, m' !! key' = Some b ∧ Z.min (get_end a') x ≤ get_end b.
Proof.
  intros Hm. unfold split_area_at. destruct (m !! key) as [a|] eqn:Hk.
  2: { exists m. split_and!; [done|by apply recut_refl| |].
    - intros key' a' Hk'. right; right. split; [congruence|done].
    - intros key' a' Hk'. exists a'. split; [done|lia]. }
  destruct (to_area _ Hm _ _ Hk) as [-> Ha].
  destruct (_ || _) eqn:Hout.
  { exists m. split_and!; [done|by apply recut_refl| |].
    - intros key' a' Hk'. apply orb_true_iff in Hout. rewrite !Z.leb_le in Hout.
      destruct (decide (key' = get_start a)) as [->|]; [|by right; right]. rewrite Hk in Hk'. injection Hk' as <-. lia.
    - intros key' a' Hk'. exists a'. split; [done|lia]. }
  apply orb_false_iff in Hout as [H1%Z.leb_gt H2%Z.leb_gt]. rewrite (ao_size _ Ha). change (num_pages Page4K) with 1.
  rewrite Z.mod_1_r. cbn [negb Z.eqb]. set (a' := with_data_frames (bt_below (data_frames a) x) a).
  destruct (clone_piece a x (get_end a) (bt_from (data_frames a) x)) as (c & Hc & Hcs & Hce & Hcp); [done|lia|done|done| | |].
  { intros v Hv. by rewrite lookup_bt_from, decide_True by lia. }
  { intros v f. rewrite lookup_bt_from. destruct (decide _); [|done]. intros [Hin _]%(ao_frames _ Ha). unfold inside in Hin. lia. }
  change (clone_meta_with_new_range a' x (get_end a)) with (clone_meta_with_new_range a x (get_end a)). rewrite Hc. cbn [mbind option_bind].
  destruct (resize_piece a' (get_start a) x) as (b & Hb & Hbs & Hbe & Hf & Hd & Hp);
    [by apply below_ok|done|done|by apply Z.lt_le_incl| |].
  { intros v f. unfold a'. simpl. rewrite lookup_bt_below. destruct (decide (v < x)); [|done].
    intros [Hin _]%(ao_frames _ Ha). unfold inside in Hin. lia. }
  rewrite Hb. cbn [mbind option_bind]. set (r := with_data_frames _ c) in *.
  destruct (carve_ok m (get_start a) a (Some b) (Some r) Hm Hk) as (Ht & Hh & Hv); [|done| |by apply frames_split with x|].
  { destruct Hp as [Hbo Hp]. split; [done|]. intros v Hv. destruct (Hp v Hv) as [Hin ->]. split; [done|].
    unfold page_of, a'. simpl. f_equal. rewrite lookup_bt_below, decide_True; [done|]. unfold inside in Hv. lia. }
  { intros v. simpl. unfold inside. lia. }
  assert (carve m (get_start a) (Some b) (Some r) = <[x := r]> (<[get_start a := b]> m)) as Hcv.
  { unfold carve. simpl. by rewrite Hbs, Hcs, insert_delete_eq. }
  rewrite Hcv in Ht, Hh, Hv. exists (<[x := r]> (<[get_start a := b]> m)). split; [done|].
  assert (∀ key' a1, <[x := r]> (<[get_start a := b]> m) !! key' = Some a1 →
    a1 = r ∨ a1 = b ∨ key' ≠ get_start a ∧ m !! key' = Some a1) as Hlook.
  { intros key' a1 [[_ <-]|[_ [[_ <-]|[? ?]]%lookup_insert_Some]]%lookup_insert_Some; [by left|by right; left|right; right; by split]. }
  split; [split; [done|done| |]|split].
  - intros v. rewrite Hv, decide_False; [done|]. simpl. unfold inside. lia.
  - intros key' a1 [->|[->|[_ H1']]]%Hlook; [exists (get_start a), a; split_and!; [done|lia|lia]..|exists key', a1; by split_and!].
  - intros key' a1 [->|[->|?]]%Hlook; [right; left; lia|left; lia|by right; right].
  - intros key' a1 Hk'. destruct (to_area _ Hm _ _ Hk') as [-> Ha1]. pose proof (ao_range _ Ha1). pose proof (ao_range _ Ha).
    destruct (decide (get_start a1 = get_start a)) as [Heq|Hne].
    + exists b. rewrite Heq, lookup_insert_ne, lookup_insert_eq by lia. split; [done|lia].
    + exists a1. assert (x ≠ get_start a1).
      { intros ->. apply Hne. eapply (to_disjoint _ Hm _ _ a1 a (get_start a1) Hk' Hk); unfold inside; lia. }
      rewrite !lookup_insert_ne by done. split; [done|lia].
Qed.

(** ** The checks of the range *)

(** What the checks ask of an area and of a page. *)
Definition may_protect (writable_file : nat → bool) (perm : option Z) (mt : MapType) (shared : bool) (back : option (nat * Z)) : bool :=
  negb (bool_decide (mt = Guard)) &&
  negb (match perm, back with
        | Some p, Some (f, _) => flags_contain p W && shared && negb (writable_file f)
        | _, _ => false
        end).

Section protect.
Context {W_ : Type} `{!Mm W_} (F : FileOps W_).
Implicit Types (k : kmm W_) (ms : MemorySet) (m : gmap Z MapArea) (a : MapArea) (L : list Z).

Definition page_may (perm : option Z) (p : page) : bool :=
  may_protect (file_writable F) perm (pg_type p) (pg_shared p) (pg_back p).

Definition area_may (perm : option Z) a : bool := may_protect (file_writable F) perm (map_type a) (is_shared a) (backing_file a).

Lemma page_may_area perm a v : page_may perm (page_of a v) = area_may perm a.
Proof. unfold page_may, area_may, may_protect, page_of. simpl. by destruct (backing_file a) as [[]|]. Qed.

(** Areas in ascending order, each behind the one before. *)
Definition chain (l : list (Z * MapArea)) : Prop :=
  StronglySorted (λ x y : Z * MapArea, get_end x.2 ≤ get_start y.2) l ∧ Forall (λ x, area_ok x.2) l.

Lemma tree_chain m l : tree_ok m → ascending l → (∀ x, x ∈ l → m !! x.1 = Some x.2) → chain l.
Proof.
  intros Hm Hs Hl. split; [|apply Forall_forall; intros x Hx; by apply (to_area _ Hm _ _ (Hl x Hx))].
  induction Hs as [|x l Hs IH Hx]; [constructor|]. constructor; [apply IH; intros y Hy; apply Hl; by right|].
  rewrite Forall_forall in Hx |- *. intros y Hy. specialize (Hx y Hy). destruct (decide (get_end x.2 ≤ get_start y.2)) as [|Hlt]; [done|].
  pose proof (Hl x ltac:(by left)) as Hmx. pose proof (Hl y ltac:(by right)) as Hmy.
  destruct (to_area _ Hm _ _ Hmx) as [Hkx Hax], (to_area _ Hm _ _ Hmy) as [Hky Hay].
  pose proof (ao_range _ Hax). pose proof (ao_range _ Hay).
  enough (x.1 = y.1) by lia. eapply (to_disjoint _ Hm _ _ x.2 y.2 (get_start y.2) Hmx Hmy); unfold inside; lia.
Qed.

Lemma affected_loop_eq lo l : chain l →
  ∀ acc, affected_loop lo (reverse l) acc = filter (λ x, lo < get_end x.2) l ++ acc.
Proof.
  induction l as [|x l IH] using rev_ind; intros [Hs Ho] acc; [done|]. rewrite reverse_app. cbn [reverse rev_append app affected_loop].
  destruct x as [key a]. assert (chain l ∧ Forall (λ y, get_end y.2 ≤ get_start a) l) as [Hc Hb].
  { apply Forall_app in Ho as [Ho _]. clear IH. induction l as [|y l IHl]; [split; [split; constructor|constructor]|].
    simpl in Hs. apply StronglySorted_inv in Hs as [Hs Hy]. apply Forall_cons in Ho as [Hoy Ho].
    destruct (IHl Hs Ho) as [[Hs' _] Hb]. apply Forall_app in Hy as [Hy1 [Hy2 _]%Forall_cons].
    split; [split; constructor; done|]. constructor; [exact Hy2|exact Hb]. }
  apply Forall_app in Ho as [_ [Ha _]%Forall_cons]. pose proof (ao_range _ Ha). simpl in *. rewrite filter_app.
  destruct (get_end a <=? lo) eqn:He.
  - apply Z.leb_le in He. rewrite filter_cons_False by (simpl; lia). rewrite filter_nil, app_nil_r.
    assert (filter (λ x : Z * MapArea, lo < get_end x.2) l = []) as ->; [|done].
    apply elem_of_nil_inv. intros y [Hy Hin]%list_elem_of_filter. rewrite Forall_forall in Hb. specialize (Hb y Hin). lia.
  - apply Z.leb_gt in He. rewrite filter_cons_True by (simpl; lia). rewrite filter_nil, (IH Hc). by rewrite <-app_assoc.
Qed.

(** The areas that meet the range, in order. *)
Lemma affected_ok m lo hi : tree_ok m →
  chain (affected_areas m lo hi) ∧
  ∀ key a, (key, a) ∈ affected_areas m lo hi ↔ m !! key = Some a ∧ get_start a < hi ∧ lo < get_end a.
Proof.
  intros Hm. assert (chain (filter (λ e, e.1 < hi) (bt_entries m))) as Hc.
  { apply (tree_chain m); [done|apply ascending_filter, bt_entries_ascending|].
    intros [key a] [_ Hx%elem_of_entries]%list_elem_of_filter. done. }
  unfold affected_areas. rewrite affected_loop_eq, app_nil_r by done. split.
  - apply (tree_chain m); [done|do 2 apply ascending_filter; apply bt_entries_ascending|].
    intros [key a] [_ [_ Hx%elem_of_entries]%list_elem_of_filter]%list_elem_of_filter. done.
  - intros key a. rewrite !list_elem_of_filter, elem_of_entries. simpl. split.
    + intros (? & ? & Hk). destruct (to_area _ Hm _ _ Hk) as [-> _]. done.
    + intros (Hk & ? & ?). destruct (to_area _ Hm _ _ Hk) as [-> _]. done.
Qed.

Definition covers_from (l : list (Z * MapArea)) (lo hi : Z) : Prop := ∀ v, lo ≤ v < hi → ∃ key a, (key, a) ∈ l ∧ inside a v.

Lemma check_loop_ok perm lo hi l : ∀ c,
  chain l →
  match check_loop F perm lo hi c l with
  | inr c' => c ≤ c' ∧ covers_from l c c' ∧ (∀ key a, (key, a) ∈ l → area_may perm a = true) ∧
      (covers_from l c hi → hi ≤ c')
  | inl e => (e = ENOMEM ∨ e = EACCES) ∧
      ((∀ key a, (key, a) ∈ l → get_start a < hi) → ¬ (covers_from l c hi ∧ ∀ key a, (key, a) ∈ l → area_may perm a = true))
  end.
Proof.
  induction l as [|[key a] l IH]; intros c Hc; cbn [check_loop].
  - split_and!; [done|intros v; lia|intros key a Hin; by apply not_elem_of_nil in Hin|]. intros Hcov. destruct (decide (hi ≤ c)); [done|].
    destruct (Hcov c ltac:(lia)) as (? & ? & ?%not_elem_of_nil & _). done.
  - destruct Hc as [[Hs Hx]%StronglySorted_inv [Ha Ho]%Forall_cons]. simpl in Hx, Ha. rewrite Forall_forall in Hx.
    rewrite (ao_size _ Ha). rewrite (bool_decide_true (Page4K = Page4K)) by done. cbn [negb andb].
    destruct (bool_decide (map_type a = Guard)) eqn:Hg; cbn [orb].
    { split; [by left|]. intros _ [_ Hm]. specialize (Hm key a ltac:(by left)). unfold area_may, may_protect in Hm. by rewrite Hg in Hm. }
    destruct (c <? get_start a) eqn:Hcs; [apply Z.ltb_lt in Hcs|apply Z.ltb_ge in Hcs].
    { split; [by left|]. intros Hst [Hcov _]. specialize (Hst key a ltac:(by left)).
      destruct (Hcov c ltac:(lia)) as (k' & b & Hin & Hb). apply elem_of_cons in Hin as [[= -> ->]|Hin]; unfold inside in Hb; [lia|].
      specialize (Hx _ Hin). simpl in Hx. pose proof (ao_range _ Ha). lia. }
    destruct (match perm with Some p => _ | None => _ end) eqn:Hf.
    { split; [by right|]. intros _ [_ Hm]. specialize (Hm key a ltac:(by left)). unfold area_may, may_protect in Hm. rewrite Hg in Hm.
      by rewrite Hf in Hm. }
    set (c1 := if c <? get_end a then get_end a else c). assert (c ≤ c1 ∧ get_end a ≤ c1 ∧ (c1 = c ∨ c1 = get_end a)) as (H1 & H2 & H3).
    { unfold c1. destruct (c <? get_end a) eqn:Hce; [apply Z.ltb_lt in Hce|apply Z.ltb_ge in Hce]; lia. }
    assert (covers_from ((key, a) :: l) c hi → covers_from l c1 hi) as Hcr.
    { intros Hcov v Hv. destruct (Hcov v ltac:(lia)) as (k' & b & Hin & Hb). exists k', b. split; [|done].
      apply elem_of_cons in Hin as [[= -> ->]|Hin]; [|done]. unfold inside in Hb. lia. }
    specialize (IH c1 (conj Hs Ho)). destruct (check_loop F perm lo hi c1 l) as [e|c'].
    + destruct IH as [He IH]. split; [done|]. intros Hst [Hcov Hm]. apply IH; [intros; eapply Hst; by right|].
      split; [by apply Hcr|]. intros k' b Hin. eapply Hm. by right.
    + destruct IH as (Hle & Hcov & Hm & Hhi). split_and!; [lia| | |by intros; apply Hhi, Hcr].
      * intros v Hv. destruct (decide (v < c1)) as [Hv1|Hv1].
        -- exists key, a. split; [by left|]. unfold inside. lia.
        -- destruct (Hcov v ltac:(lia)) as (k' & b & Hin & Hb). exists k', b. split; [by right|done].
      * intros k' b Hin. apply elem_of_cons in Hin as [[= -> ->]|Hin]; [|by eapply Hm].
        unfold area_may, may_protect. rewrite Hg. by rewrite Hf.
Qed.

(** Every page of the range is mapped and may be changed. *)
Definition range_may (perm : option Z) m (lo hi : Z) : Prop :=
  ∀ v, lo ≤ v < hi → ∃ p, page_at m v = Some p ∧ page_may perm p = true.

Lemma range_may_affected perm m lo hi : tree_ok m → lo < hi →
  range_may perm m lo hi ↔
  covers_from (affected_areas m lo hi) lo hi ∧ ∀ key a, (key, a) ∈ affected_areas m lo hi → area_may perm a = true.
Proof.
  intros Hm Hlt. destruct (affected_ok m lo hi Hm) as [_ Hin]. split.
  - intros Hr. split.
    + intros v Hv. destruct (Hr v Hv) as (p & Hp & _). apply page_at_Some in Hp as (key & a & Hk & Hi & _); [|done].
      exists key, a. split; [|done]. apply Hin. unfold inside in Hi. split_and!; [done|lia|lia].
    + intros key a (Hk & Hs & He)%Hin. destruct (to_area _ Hm _ _ Hk) as [_ Ha]. pose proof (ao_range _ Ha).
      destruct (Hr (Z.max lo (get_start a)) ltac:(lia)) as (p & Hp & Hmay).
      rewrite (page_at_area m key a) in Hp by (try done; unfold inside; lia). injection Hp as <-. by rewrite page_may_area in Hmay.
  - intros [Hc Hmay] v Hv. destruct (Hc v Hv) as (key & a & Hka & Hi). exists (page_of a v). split.
    + apply Hin in Hka as [Hk _]. by apply page_at_area with key.
    + rewrite page_may_area. by eapply Hmay.
Qed.

(** After the split at the last area, none reaches over the end of the range. *)
Lemma last_boundary m m1 lo hi l (k2 : Z) a2 :
  lo < hi → chain l → (∀ key a, (key, a) ∈ l ↔ m !! key = Some a ∧ get_start a < hi ∧ lo < get_end a) →
  last l = Some (k2, a2) →
  (∀ key' a', m1 !! key' = Some a' → get_end a' ≤ hi ∨ hi ≤ get_start a' ∨ key' ≠ k2 ∧ m !! key' = Some a') →
  boundary m1 hi.
Proof.
  intros Hlt [Hs Ho] Hin Hlast Hb key a Hk. destruct (Hb key a Hk) as [?|[?|[Hne Hm]]]; [by left|by right|].
  destruct (decide (get_end a ≤ hi ∨ hi ≤ get_start a)) as [|Hov]; [done|]. exfalso.
  apply last_Some in Hlast as [l' ->].
  assert ((key, a) ∈ l' ++ [(k2, a2)]) as Hl by (apply Hin; split_and!; [done|lia|lia]).
  apply elem_of_app in Hl as [Hl|Hl%list_elem_of_singleton]; [|congruence].
  assert ((k2, a2) ∈ l' ++ [(k2, a2)]) as H2%Hin by set_solver.
  assert (get_end a ≤ get_start a2); [|lia]. clear -Hs Hl. induction l' as [|y l' IH]; [by apply not_elem_of_nil in Hl|].
  simpl in Hs. apply StronglySorted_inv in Hs as [Hs Hy]. apply elem_of_cons in Hl as [<-|Hl]; [|by apply IH].
  rewrite Forall_forall in Hy. apply (Hy (k2, a2)). set_solver.
Qed.

(** After the split at the first area, none reaches over the start. *)
Lemma head_boundary m m1 m2 lo hi l (k1 : Z) a1 :
  lo < hi → tree_ok m → recut m m1 → chain ((k1, a1) :: l) →
  (∀ key a, (key, a) ∈ (k1, a1) :: l ↔ m !! key = Some a ∧ get_start a < hi ∧ lo < get_end a) →
  (∀ key' a', m !! key' = Some a' → ∃ b, m1 !! key' = Some b ∧ Z.min (get_end a') hi ≤ get_end b) →
  (∀ key' a', m2 !! key' = Some a' → get_end a' ≤ lo ∨ lo ≤ get_start a' ∨ key' ≠ k1 ∧ m1 !! key' = Some a') →
  boundary m2 lo.
Proof.
  intros Hlt Hm Hr [[Hs Hx]%StronglySorted_inv _] Hin Hmin Hb key a Hk. destruct (Hb key a Hk) as [?|[?|[Hne Hm1]]]; [by left|by right|].
  destruct (decide (get_end a ≤ lo ∨ lo ≤ get_start a)) as [|Hov]; [done|]. exfalso. apply Hne.
  destruct (rc_finer _ _ Hr _ _ Hm1) as (k0 & a0 & Hk0 & ? & ?).
  assert ((k0, a0) ∈ (k1, a1) :: l) as Hl by (apply Hin; split_and!; [done|lia|lia]).
  assert ((k1, a1) ∈ (k1, a1) :: l) as (Hka & ? & ?)%Hin by (by left).
  apply elem_of_cons in Hl as [[= -> ->]|Hl].
  2: { rewrite Forall_forall in Hx. specialize (Hx _ Hl). simpl in Hx. lia. }
  destruct (Hmin _ _ Hka) as (b & Hb1 & Hbe). destruct (to_area _ (rc_tree _ _ Hr) _ _ Hb1) as [Hkb _].
  destruct (to_area _ Hm _ _ Hka) as [Hk1 _].
  eapply (to_disjoint _ (rc_tree _ _ Hr) _ _ a b lo Hm1 Hb1); unfold inside; lia.
Qed.

(** The two splits, or an error. *)
Lemma isolate_ok m perm lo hi :
  tree_ok m → lo < hi →
  ∃ r m', isolate_range F m perm lo hi = Some (r, m') ∧ recut m m' ∧
    match r with
    | inr _ => range_may perm m lo hi ∧ boundary m' lo ∧ boundary m' hi
    | inl e => (e = ENOMEM ∨ e = EACCES) ∧ ¬ range_may perm m lo hi
    end.
Proof.
  intros Hm Hlt. destruct (affected_ok m lo hi Hm) as [Hch Hin]. pose proof (range_may_affected perm m lo hi Hm Hlt) as Hrm.
  assert (∀ key a, (key, a) ∈ affected_areas m lo hi → get_start a < hi) as Hst by (intros key a ?%Hin; tauto).
  unfold isolate_range. pose proof (check_loop_ok perm lo hi _ lo Hch) as Hck.
  destruct (check_loop F perm lo hi lo (affected_areas m lo hi)) as [e|c].
  { exists (inl e), m. destruct Hck as [He Hno]. split_and!; [done|by apply recut_refl|done|]. rewrite Hrm. by apply Hno. }
  destruct Hck as (_ & Hcov & Hmay & Hhi).
  destruct (affected_areas m lo hi) as [|[k1 a1] l] eqn:Haff.
  { exists (inl ENOMEM), m. split_and!; [done|by apply recut_refl|by left|].
    rewrite Hrm. intros [Hc _]. destruct (Hc lo ltac:(lia)) as (? & ? & ?%not_elem_of_nil & _). done. }
  cbn [head]. destruct (last ((k1, a1) :: l)) as [[k2 a2]|] eqn:Hlast; [|by apply last_None in Hlast].
  destruct (c <? hi) eqn:Hchi; [apply Z.ltb_lt in Hchi|apply Z.ltb_ge in Hchi].
  { exists (inl ENOMEM), m. split_and!; [done|by apply recut_refl|by left|]. rewrite Hrm. intros [Hc%Hhi _]. lia. }
  destruct (split_area_ok m k2 hi Hm) as (m1 & Hs1 & Hr1 & Hb1 & Hk1). rewrite Hs1. cbn [mbind option_bind].
  destruct (split_area_ok m1 k1 lo (rc_tree _ _ Hr1)) as (m2 & Hs2 & Hr2 & Hb2 & _). rewrite Hs2. cbn [mbind option_bind].
  exists (inr ()), m2. split_and!; [done|by eapply recut_trans| | |].
  - apply Hrm. split; [|done]. intros v Hv. apply Hcov. lia.
  - by eapply (head_boundary m m1 m2).
  - eapply recut_boundary; [done|]. by eapply (last_boundary m m1).
Qed.

(** ** [mprotect] *)

Lemma NoDup_pages lo hi : NoDup (pages lo hi 1).
Proof. unfold pages. apply NoDup_fmap_2; [|apply NoDup_seqZ]. intros x y. lia. Qed.

(** The flags of resident pages are replaced. *)
Lemma set_flags_ok t fl H vpns : ∀ w,
  mm_ok w H → mm_table w t → NoDup vpns → (∀ v, v ∈ vpns → uvpn v) →
  (∀ v e sz, v ∈ vpns → mm_find w t v = Some (e, sz) → sz = Page4K) →
  ∃ w', set_flags_list w t fl vpns = Some w' ∧ mm_ok w' H ∧ stable t (λ v, v ∈ vpns) H w w' ∧
    ∀ v, v ∈ vpns → mm_find w' t v =
      match mm_find w t v with
      | Some (e, sz) => Some (if is_valid e then PTE_new (PTE_ppn e) (final_flags fl) else e, sz)
      | None => None
      end.
Proof.
  induction vpns as [|v vpns IH]; intros w Hok Ht Hn Hu Hsz; cbn [set_flags_list].
  - exists w. split_and!; [done|done|apply stable_refl|]. by intros v ?%not_elem_of_nil.
  - apply NoDup_cons in Hn as [Hv Hn].
    assert (∃ w1, (if pt_valid w t v then pt_set_flags w t v fl else Some w) = Some w1 ∧ mm_ok w1 H ∧
      stable t (λ x, x = v) H w w1 ∧ mm_find w1 t v =
        match mm_find w t v with
        | Some (e, sz) => Some (if is_valid e then PTE_new (PTE_ppn e) (final_flags fl) else e, sz)
        | None => None
        end) as (w1 & Hw1 & Hok1 & S1 & Hf1).
    { unfold pt_valid, pt_set_flags, pt_translate. destruct (mm_find w t v) as [[e sz]|] eqn:Hf; simpl.
      2: { exists w. split_and!; [done|done|apply stable_refl|done]. }
      destruct (is_valid e) eqn:Hval; [|exists w; split_and!; [done|done|apply stable_refl|done]].
      pose proof (Hsz v e sz ltac:(by left) Hf) as ->.
      destruct (mm_set_entry_spec w H t v (PTE_ppn e) fl e Hok Ht (Hu v ltac:(by left)) Hf) as (w1 & Hw1 & Hok1 & Hmem & Htab & _ & Hfu).
      exists w1. split_and!; [done|done| |].
      - split; [done|done|]. intros t' x Hx Hne. rewrite Hfu by done. rewrite decide_False; naive_solver.
      - rewrite Hfu by (apply Hu; by left). by rewrite decide_True. }
    rewrite Hw1. cbn [mbind option_bind].
    assert (∀ x, x ∈ vpns → mm_find w1 t x = mm_find w t x) as Hsame.
    { intros x Hx. apply (st_find _ _ _ _ _ S1); [apply Hu; by right|]. right. intros ->. done. }
    destruct (IH w1 Hok1 (st_table _ _ _ _ _ S1 _ Ht) Hn) as (w' & Hw' & Hok' & S' & Hf').
    { intros x Hx. apply Hu. by right. }
    { intros x e sz Hx. rewrite Hsame by done. intros He. by apply (Hsz x e sz); [right|]. }
    exists w'. split_and!; [done|done| |].
    + eapply stable_trans; [| | | |exact S1|exact S']; [intros x ->; by left|intros x ?; by right|done|done].
    + intros x [->|Hx]%elem_of_cons; [|by rewrite Hf', Hsame].
      rewrite (st_find _ _ _ _ _ S'); [done|apply Hu; by left|by right].
Qed.

Lemma permission_of_range prot : 0 ≤ permission_of prot < 2 ^ 5.
Proof. unfold permission_of. by do 4 case_match. Qed.

Lemma initial_perm_cases a : initial_pte_permission a = map_perm a ∨ initial_pte_permission a = Z.ldiff (map_perm a) W.
Proof. unfold initial_pte_permission. destruct (_ && _); [by right|by left]. Qed.

(** The new attributes of an area, with the frames it has. *)
Lemma tree_perm m key a perm : tree_ok m → m !! key = Some a → 0 ≤ perm < 2 ^ 5 →
  tree_ok (<[key := with_perm perm a]> m) ∧ held (<[key := with_perm perm a]> m) ≡ₚ held m ∧
  ∀ v, page_at (<[key := with_perm perm a]> m) v = if decide (inside a v) then page_perm perm <$> page_at m v else page_at m v.
Proof.
  intros Hm Hk Hp. destruct (to_area _ Hm _ _ Hk) as [-> Ha].
  destruct (tree_replace m (get_start a) a (with_perm perm a) Hm Hk) as [Ht Hv]; [by destruct Ha; split|done|done|].
  split_and!; [done| |].
  - pose proof (held_replace m (get_start a) a (with_perm perm a) Hk) as Hr. by apply Permutation_app_inv_r in Hr.
  - intros v. rewrite Hv. change (inside (with_perm perm a) v) with (inside a v).
    destruct (decide (inside a v)); [|done]. by rewrite (page_at_area m (get_start a) a).
Qed.

Lemma pte_ppn_range w t m L v p f :
  sp_ok w t m L → page_at m v = Some p → pg_frame p = Some f → 0 ≤ f_ppn f < 2 ^ 44.
Proof.
  intros Hs Hp Hf. pose proof (mm_ok_range _ _ (f_ppn f) (sp_mm _ _ _ _ Hs)) as Hr. apply Hr. apply elem_of_app. left.
  apply elem_of_held; [apply Hs|]. by exists v, p, f.
Qed.

(** One area gets a new permission. *)
Lemma protect_area_ok w t m L key a perm :
  sp_ok w t m L → m !! key = Some a → 0 ≤ perm < 2 ^ 5 →
  ∃ w', set_flags_list w t (initial_pte_permission (with_perm perm a)) (pages (get_start a) (get_end a) 1) = Some w' ∧
    sp_ok w' t (<[key := with_perm perm a]> m) L ∧ stable t (inside a) (held m ++ L) w w'.
Proof.
  intros Hs Hk Hp. pose proof (sp_tree _ _ _ _ Hs) as Hm. destruct (to_area _ Hm _ _ Hk) as [_ Ha].
  destruct (tree_perm m key a perm Hm Hk Hp) as (Ht & Hh & Hv).
  set (fl := initial_pte_permission (with_perm perm a)).
  destruct (set_flags_ok t fl (held m ++ L) (pages (get_start a) (get_end a) 1) w (sp_mm _ _ _ _ Hs) (sp_table _ _ _ _ Hs)) as (w' & Hw' & Hok & S & Hf).
  { apply NoDup_pages. }
  { intros v Hin%elem_of_pages. by apply uvpn_top, inside_range with a. }
  { intros v e sz Hin%elem_of_pages He. pose proof (sp_pte _ _ _ _ Hs v (inside_range a v Ha Hin)) as Hpte.
    unfold pte_ok in Hpte. rewrite He in Hpte. destruct (page_at m v ≫= pg_frame); [|done]. by destruct Hpte as (? & [= -> ->] & _). }
  exists w'. split_and!; [done| |by eapply stable_mono; [|done|exact S]; intros v; rewrite elem_of_pages].
  split; [done| |by apply S, Hs|].
  - eapply mm_ok_perm; [done|]. by rewrite Hh.
  - intros v Hvr. rewrite Hv. pose proof (sp_pte _ _ _ _ Hs v Hvr) as Hpte. destruct (decide (inside a v)) as [Hin|Hin].
    + rewrite Hf by (by apply elem_of_pages). rewrite (page_at_area m key a) in Hpte |- * by done. unfold pte_ok in *. simpl in *.
      destruct (data_frames a !! v) as [f|] eqn:Hfr; [|by rewrite Hpte].
      destruct Hpte as (e & -> & Hpf). eexists. rewrite (pf_valid _ _ _ Hpf), (pf_ppn _ _ _ Hpf). split; [done|].
      apply pte_for_new; [|done|apply (initial_perm_cases (with_perm perm a))].
      by eapply (pte_ppn_range w t m L v (page_of a v) f); [|apply page_at_area with key|].
    + rewrite (st_find _ _ _ _ _ S); [done|by apply uvpn_top|]. right. by rewrite elem_of_pages.
Qed.

Definition in_list (l : list (Z * MapArea)) (v : Z) : Prop := Exists (λ x, inside x.2 v) l.

#[export] Instance in_list_dec l v : Decision (in_list l v).
Proof. unfold in_list. apply _. Defined.

Lemma protect_loop_ok t perm lo hi rest : ∀ w m L,
  sp_ok w t m L → 0 ≤ perm < 2 ^ 5 → NoDup rest.*1 →
  (∀ key a, (key, a) ∈ rest → m !! key = Some a ∧ lo ≤ get_start a ∧ get_end a ≤ hi) →
  ∃ w' m', protect_loop w t perm lo hi m rest = Some (w', m') ∧ sp_ok w' t m' L ∧ held m' ≡ₚ held m ∧
    stable t (λ v, lo ≤ v < hi) (held m ++ L) w w' ∧
    ∀ v, page_at m' v = if decide (in_list rest v) then page_perm perm <$> page_at m v else page_at m v.
Proof.
  induction rest as [|[key a] rest IH]; intros w m L Hs Hp Hn Hrest; cbn [protect_loop].
  - exists w, m. split_and!; [done|done|done|apply stable_refl|]. intros v. rewrite decide_False; [done|].
    unfold in_list. by intros ?%Exists_nil.
  - apply NoDup_cons in Hn as [Hnin Hn]. destruct (Hrest key a ltac:(by left)) as (Hk & Hlo & Hhi).
    rewrite (proj2 (Z.leb_le _ _) Hlo), (proj2 (Z.leb_le _ _) Hhi). cbn [andb].
    pose proof (sp_tree _ _ _ _ Hs) as Hm. destruct (to_area _ Hm _ _ Hk) as [_ Ha].
    change (page_size (with_perm perm a)) with (page_size a). rewrite (ao_size _ Ha). change (num_pages Page4K) with 1.
    destruct (protect_area_ok w t m L key a perm Hs Hk Hp) as (w1 & Hw1 & Hs1 & S1).
    change (get_start (with_perm perm a)) with (get_start a). change (get_end (with_perm perm a)) with (get_end a).
    rewrite Hw1. cbn [mbind option_bind]. destruct (tree_perm m key a perm Hm Hk Hp) as (_ & Hh1 & Hv1).
    destruct (IH w1 (<[key := with_perm perm a]> m) L Hs1 Hp Hn) as (w' & m' & Hl & Hs' & Hh' & S' & Hv').
    { intros key' b Hin. rewrite lookup_insert_ne; [apply Hrest; by right|]. intros ->. apply Hnin.
      apply list_elem_of_fmap. by exists (key', b). }
    exists w', m'. split_and!; [done|done|by rewrite Hh'| |].
    + eapply stable_trans; [| | | |exact S1|exact S']; [unfold inside; lia|done|done|]. intros p. by rewrite Hh1.
    + intros v. rewrite Hv', Hv1. unfold in_list. destruct (decide (Exists _ rest)) as [Hx|Hx], (decide (inside a v)) as [Hi|Hi].
      * rewrite decide_True by (by left). by destruct (page_at m v).
      * by rewrite decide_True by (by right).
      * by rewrite decide_True by (by left).
      * rewrite decide_False; [done|]. by rewrite Exists_cons; intros [|].
Qed.

(** After the cuts, the areas in the range are the pages in the range. *)
Lemma range_list m lo hi v : tree_ok m → boundary m lo → boundary m hi →
  is_Some (page_at m v) → in_list (bt_range m lo hi) v ↔ lo ≤ v < hi.
Proof.
  intros Hm Hbl Hbh [p Hp]. apply page_at_Some in Hp as (key & a & Hk & Hin & _); [|done].
  unfold in_list. rewrite Exists_exists. split.
  - intros ([key' b] & [Hk' Hr]%elem_of_bt_range & Hb). simpl in Hb. destruct (to_area _ Hm _ _ Hk') as [-> _].
    destruct (Hbh _ _ Hk'); unfold inside in Hb; lia.
  - intros Hv. exists (key, a). split; [|done]. apply elem_of_bt_range. split; [done|].
    destruct (to_area _ Hm _ _ Hk) as [-> _]. unfold inside in Hin. destruct (Hbl _ _ Hk); lia.
Qed.

Lemma bt_range_nodup m lo hi : NoDup (bt_range m lo hi).*1.
Proof.
  unfold bt_range. pose proof (ascending_filter (λ e, lo ≤ e.1 < hi) _ (bt_entries_ascending m)) as Hs. revert Hs.
  generalize (filter (λ e : Z * MapArea, lo ≤ e.1 < hi) (bt_entries m)). induction 1 as [|x l Hs IH Hx]; [constructor|].
  rewrite fmap_cons. constructor; [|done]. rewrite Forall_forall in Hx. intros (y & Heq & Hy)%list_elem_of_fmap.
  specialize (Hx y Hy). lia.
Qed.

Lemma range_inside m lo hi key a : tree_ok m → boundary m hi → (key, a) ∈ bt_range m lo hi →
  m !! key = Some a ∧ lo ≤ get_start a ∧ get_end a ≤ hi.
Proof.
  intros Hm Hb [Hk Hr]%elem_of_bt_range. destruct (to_area _ Hm _ _ Hk) as [-> _]. split_and!; [done|lia|].
  destruct (Hb _ _ Hk); lia.
Qed.

(** Exactly the pages of the range get the permission, or none does. *)
Lemma mprotect_ok k ms L start_ len prot :
  sp_ok (k_w k) (ms_table ms) (areas ms) L → user_range start_ len →
  let lo := first_page start_ in let hi := last_page (start_ + len) in
  ∃ r w' m', mprotect F k ms start_ len prot = Some (r, with_w w' k, with_areas m' ms) ∧
    sp_ok w' (ms_table ms) m' L ∧ held m' ≡ₚ held (areas ms) ∧
    stable (ms_table ms) (λ v, lo ≤ v < hi) (held (areas ms) ++ L) (k_w k) w' ∧
    match r with
    | inr _ => range_may (Some (permission_of prot)) (areas ms) lo hi ∧
        ∀ v, page_at m' v = if decide (lo ≤ v < hi) then page_perm (permission_of prot) <$> page_at (areas ms) v
          else page_at (areas ms) v
    | inl e => (e = ENOMEM ∨ e = EACCES) ∧ ¬ range_may (Some (permission_of prot)) (areas ms) lo hi ∧
        w' = k_w k ∧ ∀ v, page_at m' v = page_at (areas ms) v
    end.
Proof.
  intros Hs Hr lo hi. destruct (user_range_ok _ _ Hr) as (Hadd & Hfl & Hce). destruct (user_range_pages _ _ Hr) as [Hp _].
  unfold mprotect. rewrite (proj2 (Z.eqb_neq len 0)) by (destruct Hr; lia). rewrite Hadd, Hfl, Hce. cbn [mbind option_bind].
  pose proof (sp_tree _ _ _ _ Hs) as Hm.
  destruct (isolate_ok (areas ms) (Some (permission_of prot)) lo hi Hm (proj2 Hp)) as (r & m1 & Hi & Hrc & Hres).
  fold lo hi. rewrite Hi. cbn [mbind option_bind].
  assert (sp_ok (k_w k) (ms_table ms) m1 L) as Hs1.
  { eapply sp_retree; [done|apply Hrc|apply Hrc|]. intros v. left. apply Hrc. }
  destruct r as [e|[]].
  - exists (inl e), (k_w k), m1. destruct Hres as [He Hno]. assert (with_w (k_w k) k = k) as -> by (by destruct k).
    split_and!; [done|done|apply Hrc|apply stable_refl|done|done|done|]. intros v. apply Hrc.
  - destruct Hres as (Hmay & Hbl & Hbh).
    destruct (protect_loop_ok (ms_table ms) (permission_of prot) lo hi (bt_range m1 lo hi) (k_w k) m1 L Hs1) as (w' & m' & Hl & Hs' & Hh' & S & Hv).
    { apply permission_of_range. }
    { apply bt_range_nodup. }
    { intros key a Hin. eapply range_inside; [apply Hrc|done|done]. }
    rewrite Hl. cbn [mbind option_bind]. exists (inr ()), w', m'. split_and!; [done|done|by rewrite Hh', (rc_held _ _ Hrc)| |done|].
    + eapply stable_mono; [|intros p; by rewrite <-(rc_held _ _ Hrc)|exact S]. done.
    + intros v. rewrite Hv, (rc_view _ _ Hrc). destruct (page_at (areas ms) v) as [p|] eqn:Hpv; [|by do 2 destruct (decide _)].
      assert (in_list (bt_range m1 lo hi) v ↔ lo ≤ v < hi) as Hiff.
      { apply range_list; [apply Hrc|done|done|]. rewrite (rc_view _ _ Hrc), Hpv. by eexists. }
      destruct (decide (lo ≤ v < hi)); [rewrite decide_True by (by apply Hiff)|rewrite decide_False by (by rewrite Hiff)]; done.
Qed.

(** ** [mlock_range] *)

Lemma tree_locked m key a : tree_ok m → m !! key = Some a →
  tree_ok (<[key := with_locked a]> m) ∧ held (<[key := with_locked a]> m) ≡ₚ held m ∧
  ∀ v, page_at (<[key := with_locked a]> m) v = if decide (inside a v) then page_locked <$> page_at m v else page_at m v.
Proof.
  intros Hm Hk. destruct (to_area _ Hm _ _ Hk) as [-> Ha].
  destruct (tree_replace m (get_start a) a (with_locked a) Hm Hk) as [Ht Hv]; [by destruct Ha; split|done|done|].
  split_and!; [done| |].
  - pose proof (held_replace m (get_start a) a (with_locked a) Hk) as Hr. by apply Permutation_app_inv_r in Hr.
  - intros v. rewrite Hv. change (inside (with_locked a) v) with (inside a v).
    destruct (decide (inside a v)); [|done]. by rewrite (page_at_area m (get_start a) a).
Qed.

Lemma lock_loop_ok lo hi rest : ∀ m,
  tree_ok m → NoDup rest.*1 → (∀ key a, (key, a) ∈ rest → m !! key = Some a ∧ lo ≤ get_start a ∧ get_end a ≤ hi) →
  tree_ok (lock_loop lo hi m rest) ∧ held (lock_loop lo hi m rest) ≡ₚ held m ∧
  ∀ v, page_at (lock_loop lo hi m rest) v = if decide (in_list rest v) then page_locked <$> page_at m v else page_at m v.
Proof.
  unfold lock_loop. induction rest as [|[key a] rest IH]; intros m Hm Hn Hrest; cbn [foldl].
  - split_and!; [done|done|]. intros v. rewrite decide_False; [done|]. unfold in_list. by intros ?%Exists_nil.
  - apply NoDup_cons in Hn as [Hnin Hn]. destruct (Hrest key a ltac:(by left)) as (Hk & Hlo & Hhi).
    rewrite (proj2 (Z.leb_le _ _) Hlo), (proj2 (Z.leb_le _ _) Hhi). cbn [andb].
    destruct (tree_locked m key a Hm Hk) as (Ht & Hh & Hv).
    destruct (IH (<[key := with_locked a]> m) Ht Hn) as (Ht' & Hh' & Hv').
    { intros key' b Hin. rewrite lookup_insert_ne; [apply Hrest; by right|]. intros ->. apply Hnin.
      apply list_elem_of_fmap. by exists (key', b). }
    split_and!; [done|by rewrite Hh'|]. intros v. rewrite Hv', Hv. unfold in_list.
    destruct (decide (Exists _ rest)) as [Hx|Hx], (decide (inside a v)) as [Hi|Hi].
    + rewrite decide_True by (by left). by destruct (page_at m v).
    + by rewrite decide_True by (by right).
    + by rewrite decide_True by (by left).
    + rewrite decide_False; [done|]. by rewrite Exists_cons; intros [|].
Qed.

Lemma mlock_ok w ms L start_ len :
  sp_ok w (ms_table ms) (areas ms) L → user_range start_ len →
  let lo := first_page start_ in let hi := last_page (start_ + len) in
  ∃ r m', mlock_range F ms start_ len = Some (r, with_areas m' ms) ∧ sp_ok w (ms_table ms) m' L ∧ held m' ≡ₚ held (areas ms) ∧
    match r with
    | inr _ => range_may None (areas ms) lo hi ∧
        ∀ v, page_at m' v = if decide (lo ≤ v < hi) then page_locked <$> page_at (areas ms) v else page_at (areas ms) v
    | inl e => (e = ENOMEM ∨ e = EACCES) ∧ ¬ range_may None (areas ms) lo hi ∧ ∀ v, page_at m' v = page_at (areas ms) v
    end.
Proof.
  intros Hs Hr lo hi. destruct (user_range_ok _ _ Hr) as (Hadd & Hfl & Hce). destruct (user_range_pages _ _ Hr) as [Hp _].
  unfold mlock_range. rewrite (proj2 (Z.eqb_neq len 0)) by (destruct Hr; lia). rewrite Hadd, Hfl, Hce. cbn [mbind option_bind].
  pose proof (sp_tree _ _ _ _ Hs) as Hm.
  destruct (isolate_ok (areas ms) None lo hi Hm (proj2 Hp)) as (r & m1 & Hi & Hrc & Hres).
  fold lo hi. rewrite Hi. cbn [mbind option_bind]. destruct r as [e|[]].
  - exists (inl e), m1. destruct Hres as [He Hno]. split_and!; [done| |apply Hrc|done|done|apply Hrc].
    eapply sp_retree; [done|apply Hrc|apply Hrc|]. intros v. left. apply Hrc.
  - destruct Hres as (Hmay & Hbl & Hbh).
    destruct (lock_loop_ok lo hi (bt_range m1 lo hi) m1 (rc_tree _ _ Hrc)) as (Ht & Hh & Hv).
    { apply bt_range_nodup. }
    { intros key a Hin. eapply range_inside; [apply Hrc|done|done]. }
    assert (∀ v, page_at (lock_loop lo hi m1 (bt_range m1 lo hi)) v =
      if decide (lo ≤ v < hi) then page_locked <$> page_at (areas ms) v else page_at (areas ms) v) as Hview.
    { intros v. rewrite Hv, (rc_view _ _ Hrc). destruct (page_at (areas ms) v) as [p|] eqn:Hpv; [|by do 2 destruct (decide _)].
      assert (in_list (bt_range m1 lo hi) v ↔ lo ≤ v < hi) as Hiff.
      { apply range_list; [apply Hrc|done|done|]. rewrite (rc_view _ _ Hrc), Hpv. by eexists. }
      destruct (decide (lo ≤ v < hi)); [rewrite decide_True by (by apply Hiff)|rewrite decide_False by (by rewrite Hiff)]; done. }
    exists (inr ()), (lock_loop lo hi m1 (bt_range m1 lo hi)). split_and!; [done| |by rewrite Hh, (rc_held _ _ Hrc)|done|done].
    split; [done| |apply Hs|].
    + eapply mm_ok_perm; [apply Hs|]. by rewrite Hh, (rc_held _ _ Hrc).
    + intros v Hvr. pose proof (sp_pte _ _ _ _ Hs v Hvr) as Hpte. rewrite Hview. destruct (decide _); [|done].
      destruct (page_at (areas ms) v); done.
Qed.
End protect.
