(* ===== verification/SpaceMap.v ===== *)
(** * Placing and mapping

    [find_free_area_locked] finds a free range when there is one, and [mmap] adds
    exactly the pages it is asked for, in a free range or in place of what was
    there. *)

From S2P Require Import Prelude Errno Address PageTable Mm BTree MapArea MemSet Space SpaceUnmap SpaceProtect.

Local Open Scope Z_scope.

(** ** Free ranges *)

(** No page of the byte range is mapped. *)
Definition free_range (m : gmap Z MapArea) (start_ len : Z) : Prop :=
  ∀ v, first_page start_ ≤ v < last_page (start_ + len) → page_at m v = None.

Definition search_base : Z := USER_APP_BASE + (USER_APP_MAX_SIZE - USER_APP_BASE) / 2.

Lemma page_range_overlap s n a b :
  0 < n → first_page s < b → a < last_page (s + n) → a < b → ∃ v, a ≤ v < b ∧ first_page s ≤ v < last_page (s + n).
Proof.
  intros Hn H1 H2 H3. exists (Z.max a (first_page s)). assert (first_page s < last_page (s + n)); [|lia].
  unfold first_page, last_page, PAGE_SIZE. apply Z.lt_le_trans with ((s + 0x1000) / 0x1000); [|apply Z.div_le_mono; lia].
  replace (s + 0x1000) with (s + 1 * 0x1000) by lia. rewrite Z.div_add by lia. lia.
Qed.

Lemma first_page_lt s b : first_page s < b ↔ s < b * PAGE_SIZE.
Proof.
  unfold first_page, PAGE_SIZE. split; intros H.
  - pose proof (Z.mul_succ_div_gt s 0x1000 ltac:(lia)). nia.
  - apply Z.div_lt_upper_bound; lia.
Qed.

Lemma lt_last_page a e : a < last_page e ↔ a * PAGE_SIZE < e.
Proof.
  unfold last_page, PAGE_SIZE. split; intros H.
  - pose proof (Z.mul_div_le (e + 0x1000 - 1) 0x1000 ltac:(lia)). nia.
  - assert (a + 1 ≤ (e + 0x1000 - 1) / 0x1000); [|lia]. apply Z.div_le_lower_bound; lia.
Qed.

(** A range of bytes meets an area when a page of it does. *)
Lemma meets_area s n a : 0 < n → get_start a < get_end a →
  (s < get_end a * PAGE_SIZE ∧ get_start a * PAGE_SIZE < s + n) ↔ ∃ v, inside a v ∧ first_page s ≤ v < last_page (s + n).
Proof.
  intros Hn Ha. rewrite <-first_page_lt, <-lt_last_page. split.
  - intros [H1 H2]. by apply page_range_overlap.
  - unfold inside. intros (v & H1 & H2). lia.
Qed.

Section map.
Context {W_ : Type} `{!Mm W_} (F : FileOps W_).
Implicit Types (k : kmm W_) (ms : MemorySet) (m : gmap Z MapArea) (a : MapArea) (L : list Z).

Lemma free_range_areas m s n : tree_ok m → 0 < n →
  free_range m s n ↔ ∀ key a, m !! key = Some a → s + n ≤ get_start a * PAGE_SIZE ∨ get_end a * PAGE_SIZE ≤ s.
Proof.
  intros Hm Hn. split.
  - intros Hf key a Hk. destruct (to_area _ Hm _ _ Hk) as [_ Ha]. pose proof (ao_range _ Ha).
    destruct (decide (s < get_end a * PAGE_SIZE ∧ get_start a * PAGE_SIZE < s + n)) as [Hx|]; [|lia].
    apply meets_area in Hx as (v & Hin & Hv); [|done|lia]. specialize (Hf v Hv). by rewrite (page_at_area m key a) in Hf.
  - intros Hf v Hv. apply page_at_None; [done|]. intros key a Hk Hin. destruct (to_area _ Hm _ _ Hk) as [_ Ha]. pose proof (ao_range _ Ha).
    pose proof (proj2 (meets_area s n a Hn ltac:(lia)) ltac:(by exists v)). destruct (Hf key a Hk); lia.
Qed.

Lemma has_conflict_ok m s n : tree_ok m → user_range s n →
  ∃ b, has_conflict_locked m s n = Some b ∧ (b = false ↔ free_range m s n).
Proof.
  intros Hm Hr. destruct (user_range_ok _ _ Hr) as (Hadd & Hfl & Hce). unfold has_conflict_locked. rewrite Hadd. cbn [mbind option_bind].
  rewrite Hce. cbn [mbind option_bind]. rewrite Hfl. eexists. split; [done|]. destruct Hr as (_ & Hn & _).
  rewrite <-not_true_iff_false, existsb_exists. split.
  - intros Hno v Hv. apply page_at_None; [done|]. intros key a Hk Hin. apply Hno. exists (key, a). split.
    + apply list_elem_of_In, elem_of_entries. done.
    + unfold inside in Hin. rewrite andb_true_iff, !Z.ltb_lt. lia.
  - intros Hf ([key a] & Hk%list_elem_of_In%elem_of_entries & Hb). rewrite andb_true_iff, !Z.ltb_lt in Hb.
    destruct (to_area _ Hm _ _ Hk) as [_ Ha]. pose proof (ao_range _ Ha).
    destruct (page_range_overlap s n (get_start a) (get_end a)) as (v & Hin & Hv); [done|lia|lia|lia|].
    specialize (Hf v Hv). by rewrite (page_at_area m key a) in Hf.
Qed.

Lemma chain_at l1 (key : Z) a l2 : chain (l1 ++ (key, a) :: l2) → area_ok a ∧ Forall (λ y, get_end a ≤ get_start y.2) l2.
Proof.
  intros [Hs Ho]. apply Forall_app in Ho as [_ [Ha _]%Forall_cons]. split; [done|].
  induction l1 as [|x l1 IH]; simpl in Hs; apply StronglySorted_inv in Hs as [Hs Hx]; [done|by apply IH].
Qed.

(** A range of [len] bytes at [x] meets the area. *)
Definition meets (x len : Z) (y : Z * MapArea) : Prop := x < get_end y.2 * PAGE_SIZE ∧ get_start y.2 * PAGE_SIZE < x + len.

(** The search: nothing free starts between the base and the probe. *)
Lemma find_free_loop_ok len l : ∀ seen c,
  0 < len ≤ 2 ^ 38 → chain (seen ++ l) → 0 ≤ c ≤ 2 ^ 39 → (PAGE_SIZE | c) → search_base ≤ c →
  Forall (λ x, get_end x.2 * PAGE_SIZE ≤ c) seen →
  (∀ x, search_base ≤ x < c → Exists (meets x len) seen) →
  ∃ r, find_free_loop l len c = Some r ∧
    match r with
    | inl x => search_base ≤ x ∧ (PAGE_SIZE | x) ∧ Forall (λ y, ¬ meets x len y) (seen ++ l) ∧
        Exists (λ y, x + len ≤ get_start y.2 * PAGE_SIZE) (seen ++ l)
    | inr x => search_base ≤ x ≤ 2 ^ 39 ∧ (PAGE_SIZE | x) ∧ Forall (λ y, ¬ meets x len y) (seen ++ l) ∧
        ∀ z, search_base ≤ z < x → Exists (meets z len) (seen ++ l)
    end.
Proof.
  induction l as [|[key a] l IH]; intros seen c Hlen Hch Hc Hal Hbase Hseen Hno; cbn [find_free_loop].
  - exists (inr c). rewrite app_nil_r. split_and!; [done|lia..|done| |done].
    eapply Forall_impl; [done|]. unfold meets. simpl. lia.
  - destruct (chain_at seen key a l Hch) as [Ha Hl]. pose proof (ao_range _ Ha). pose proof (ao_top _ Ha) as Htop. unfold user_top in Htop.
    rewrite checked_add_Some by (unfold USIZE_MAX; lia). cbn [mbind option_bind].
    destruct (c + len <=? get_start a * PAGE_SIZE) eqn:Hfit; [apply Z.leb_le in Hfit|apply Z.leb_gt in Hfit].
    + exists (inl c). split_and!; [done|done|done| |apply Exists_app; right; by left].
      apply Forall_app. split; [eapply Forall_impl; [exact Hseen|]; unfold meets; simpl; lia|].
      constructor; [unfold meets; simpl; lia|]. eapply Forall_impl; [exact Hl|]. unfold meets, PAGE_SIZE in *. simpl. nia.
    + set (c1 := if c <? get_end a * PAGE_SIZE then get_end a * PAGE_SIZE else c).
      assert (c ≤ c1 ∧ get_end a * PAGE_SIZE ≤ c1 ∧ (c1 = c ∨ c1 = get_end a * PAGE_SIZE)) as (H1 & H2 & H3).
      { unfold c1. destruct (c <? get_end a * PAGE_SIZE) eqn:Hce; [apply Z.ltb_lt in Hce|apply Z.ltb_ge in Hce]; lia. }
      assert (seen ++ (key, a) :: l = (seen ++ [(key, a)]) ++ l) as Happ by (by rewrite <-app_assoc).
      rewrite Happ in Hch |- *. apply IH; [done|done| | |lia| |].
      * unfold PAGE_SIZE in *. lia.
      * destruct H3 as [->| ->]; [done|]. by exists (get_end a).
      * apply Forall_app. split; [eapply Forall_impl; [exact Hseen|]; simpl; lia|]. by constructor.
      * intros x Hx. apply Exists_app. destruct (decide (x < c)) as [Hxc|Hxc]; [left; apply Hno; lia|].
        right. left. unfold meets. simpl. lia.
Qed.

(** A free range below the end of the user half is found if there is one above the base. *)
Lemma find_free_ok m len : tree_ok m → 0 < len ≤ 2 ^ 38 →
  ∃ r, find_free_area_locked len m = Some r ∧
    match r with
    | Some x => search_base ≤ x ∧ (PAGE_SIZE | x) ∧ x + len < USER_APP_MAX_SIZE ∧ free_range m x len ∧
        ∀ y, search_base ≤ y → free_range m y len → x + len ≤ Z.max (y + len) (user_top * PAGE_SIZE)
    | None => ∀ x, search_base ≤ x → free_range m x len → USER_APP_MAX_SIZE ≤ x + len
    end.
Proof.
  intros Hm Hlen.
  assert (∀ P : Z * MapArea → Prop, Forall P (bt_entries m) ↔ ∀ key a, m !! key = Some a → P (key, a)) as Hall.
  { intros P. rewrite Forall_forall. split; [intros Hf key a Hk; apply Hf; by apply elem_of_entries|].
    intros Hf [key a] Hin%elem_of_entries. by apply Hf. }
  assert (∀ x, free_range m x len ↔ Forall (λ y, ¬ meets x len y) (bt_entries m)) as Hfree.
  { intros x. rewrite free_range_areas, Hall by lia || done. unfold meets. simpl. split; intros Hf key a Hk; specialize (Hf key a Hk); lia. }
  assert (chain (bt_entries m)) as Hch.
  { apply (tree_chain m); [done|apply bt_entries_ascending|]. intros [key a] Hin%elem_of_entries. done. }
  destruct (find_free_loop_ok len (bt_entries m) [] search_base Hlen Hch) as (r & Hr & Hspec);
    [by vm_compute|by exists (search_base / PAGE_SIZE)|done|constructor|intros; lia|].
  unfold find_free_area_locked. fold search_base. rewrite Hr. cbn [mbind option_bind app] in *. destruct r as [x|x].
  - destruct Hspec as (Hb & Hal & Hf & Hex).
    apply Exists_exists in Hex as ([key a] & Hin%elem_of_entries & Hle). destruct (to_area _ Hm _ _ Hin) as [_ Ha].
    pose proof (ao_range _ Ha). pose proof (ao_top _ Ha) as Ht. simpl in Hle. exists (Some x). split_and!; [done|done|done| |by apply Hfree|];
      unfold user_top, PAGE_SIZE in *; change USER_APP_MAX_SIZE with (2 ^ 38); [lia|intros; lia].
  - destruct Hspec as ([Hb Hub] & Hal & Hf & Hno). rewrite checked_add_Some by (unfold USIZE_MAX; lia). cbn [mbind option_bind].
    assert (∀ z, search_base ≤ z → free_range m z len → x ≤ z) as Hlow.
    { intros z Hz Hfz. destruct (decide (z < x)) as [Hzx|]; [|lia]. specialize (Hno z ltac:(lia)). apply Hfree in Hfz.
      apply Exists_exists in Hno as (y & Hy & Hm'). rewrite Forall_forall in Hfz. by destruct (Hfz y Hy). }
    destruct (x + len <? USER_APP_MAX_SIZE) eqn:Hlt; [apply Z.ltb_lt in Hlt|apply Z.ltb_ge in Hlt].
    + exists (Some x). split_and!; [done|done|done|done|by apply Hfree|]. intros y Hy Hfy. specialize (Hlow y Hy Hfy). lia.
    + exists None. split; [done|]. intros z Hz Hfz. specialize (Hlow z Hz Hfz). lia.
Qed.

(** ** [mmap] *)

(** The pages of a new mapping. *)
Definition mapped_page (perm : Z) (shared : bool) (file : option (nat * Z)) (anon : nat) (id lo v : Z) : page :=
  MkPage (match file with Some _ => File | None => Framed end) perm shared false
    ((λ '(f, off), (f, off + (v - lo))) <$> file) false None
    (match file with Some _ => None | None => if shared then Some anon else None end) id lo None.

(** The table a shared anonymous mapping comes with. *)
Definition new_tables (shared : bool) (file : option (nat * Z)) : list (gmap Z Frame) :=
  match file with Some _ => [] | None => if shared then [∅] else [] end.

Lemma mmap_area_ok k s n perm shared file :
  user_range s n → k_next_map k ≠ 0 → 0 ≤ perm < 2 ^ 5 →
  ∃ a k', mmap_area k s n perm shared file = Some (a, k') ∧ area_ok a ∧
    get_start a = first_page s ∧ get_end a = last_page (s + n) ∧ data_frames a = ∅ ∧ k_w k' = k_w k ∧ k_log k' = k_log k ∧
    k_anon k' = k_anon k ++ new_tables shared file ∧
    ∀ v, page_of a v = mapped_page perm shared file (length (k_anon k)) (k_next_map k) (first_page s) v.
Proof.
  intros Hr Hid Hp. destruct (user_range_ok _ _ Hr) as (Hadd & Hfl & Hce). destruct (user_range_pages _ _ Hr) as [Hpg Htop].
  unfold mmap_area, futex_mapping_id_alloc. rewrite (proj2 (Z.eqb_neq _ _)) by done. cbn [mbind option_bind]. rewrite Hadd. cbn [mbind option_bind].
  assert (∀ mt id, area_new (VirtAddr_from s) (VirtAddr_from (s + n)) mt perm Page4K id =
    Some (MkArea (MkRange (first_page s) (last_page (s + n))) ∅ mt perm false false None false None None id (first_page s) Page4K)) as Hnew.
  { intros mt id. unfold area_new. unfold floor_of, ceil_of in Hfl, Hce. rewrite Hfl, Hce. cbn [mbind option_bind].
    unfold SimpleRange_new. by rewrite (proj2 (Z.leb_le _ _)) by lia. }
  assert (∀ a, vpn_range a = MkRange (first_page s) (last_page (s + n)) → map_type a = Framed ∨ map_type a = File →
    map_perm a = perm → page_size a = Page4K → data_frames a = ∅ → area_ok a) as Hok.
  { intros a Hra Hty Hpa Hsz Hd. split; unfold get_start, get_end; rewrite ?Hra; simpl; [lia|done|tauto|done|by rewrite Hpa| |done].
    intros v f. by rewrite Hd. }
  destruct file as [b|]; rewrite Hnew; cbn [mbind option_bind].
  - do 2 eexists. split; [done|]. split; [|split_and!; try done; cbn; by rewrite app_nil_r]. apply Hok; simpl; [done|by right|done..].
  - destruct shared; do 2 eexists; (split; [done|]); (split; [|split_and!; try done; cbn; by rewrite ?app_nil_r]); (apply Hok; simpl; [done|by left|done..]).
Qed.

(** A new area in a free range. *)
Lemma place_ok w t m L a : sp_ok w t m L → area_ok a → data_frames a = ∅ → (∀ v, inside a v → page_at m v = None) →
  sp_ok w t (<[get_start a := a]> m) L ∧ held (<[get_start a := a]> m) ≡ₚ held m ∧
  ∀ v, page_at (<[get_start a := a]> m) v = if decide (inside a v) then Some (page_of a v) else page_at m v.
Proof.
  intros Hs Ha Hd Hf. destruct (tree_insert m a (sp_tree _ _ _ _ Hs) Ha Hf) as (Hn & Ht & Hv).
  assert (held (<[get_start a := a]> m) ≡ₚ held m) as Hh.
  { rewrite held_insert by done. unfold frames_of. by rewrite Hd, map_to_list_empty. }
  split; [|done]. apply sp_retree with m; [done|done|done|].
  - intros v. rewrite Hv. destruct (decide (inside a v)) as [Hin|]; [right|by left]. rewrite (Hf v Hin). simpl. by rewrite Hd.
Qed.

Lemma mmap_place_ok k ms L s n perm shared file fs :
  sp_ok (k_w k) (ms_table ms) (areas ms) ((f_ppn <$> fs) ++ L) → Forall (λ f, f_size f = Page4K) fs →
  user_range s n → k_next_map k ≠ 0 → 0 ≤ perm < 2 ^ 5 → free_range (areas ms) s n →
  ∃ k' ms', ('(a, k) ← mmap_area k s n perm shared file; w ← drop_frames (k_w k) fs;
      Some (@inr Errno Z s, with_w w k, insert_area a ms)) = Some (inr s, k', ms') ∧
    ms' = with_areas (areas ms') ms ∧ sp_ok (k_w k') (ms_table ms) (areas ms') L ∧ (∀ T H, stable (ms_table ms) T H (k_w k) (k_w k')) ∧
    held (areas ms') ≡ₚ held (areas ms) ∧ k_anon k' = k_anon k ++ new_tables shared file ∧
    ∀ v, page_at (areas ms') v = if decide (first_page s ≤ v < last_page (s + n))
      then Some (mapped_page perm shared file (length (k_anon k)) (k_next_map k) (first_page s) v) else page_at (areas ms) v.
Proof.
  intros Hs Hsz Hr Hid Hp Hfree. destruct (mmap_area_ok k s n perm shared file Hr Hid Hp) as (a & k1 & Ha & Hao & Hst & Hen & Hd & Hw & _ & Han & Hpg).
  rewrite Ha. cbn [mbind option_bind]. rewrite Hw.
  destruct (sp_drop (ms_table ms) (k_w k) (areas ms) L fs Hs Hsz) as (w' & Hdrop & Hs' & S & _). rewrite Hdrop. cbn [mbind option_bind].
  destruct (place_ok w' (ms_table ms) (areas ms) L a Hs' Hao Hd) as (Hsp & Hh & Hv).
  { intros v. unfold inside. rewrite Hst, Hen. apply Hfree. }
  do 2 eexists. split_and!; [done|done|done|done|done|done|]. intros v. change (areas (insert_area a ms)) with (<[get_start a := a]> (areas ms)).
  rewrite Hv, Hpg. rewrite <-Hst, <-Hen. done.
Qed.

(** The arguments of [mmap] that keep off the page of the trampoline: a range below it,
    or a length whose place is found below it. The search itself stops only at the end
    of that page, so a length that is not in whole pages may reach into it when the
    rest of the upper half is taken. *)
Definition mmap_range (m : gmap Z MapArea) (addr len : Z) : Prop :=
  (addr = 0 ∧ 0 < len ≤ 2 ^ 38 ∧ ∀ x, find_free_area_locked len m = Some (Some x) → x + len ≤ user_top * PAGE_SIZE) ∨
  (addr ≠ 0 ∧ user_range addr len).

Lemma placed_range x len : search_base ≤ x → 0 < len → x + len ≤ user_top * PAGE_SIZE → user_range x len.
Proof. intros Hb Hl Hlt. change search_base with 0x2020000000 in Hb. unfold user_range, user_top, PAGE_SIZE in *. lia. Qed.

(** Whole pages are always placed below the trampoline. *)
Lemma whole_pages_range m len : tree_ok m → 0 < len ≤ 2 ^ 38 → (PAGE_SIZE | len) → mmap_range m 0 len.
Proof.
  intros Hm Hlen [z ->]. left. split_and!; [done|lia..|]. intros x Hx. destruct (find_free_ok m (z * PAGE_SIZE) Hm Hlen) as (r & Hr & Hspec).
  rewrite Hx in Hr. injection Hr as <-. destruct Hspec as (_ & [y ->] & Hlt & _). change USER_APP_MAX_SIZE with (2 ^ 38) in Hlt. unfold user_top, PAGE_SIZE in *. lia.
Qed.

(** So is everything while a place below it is free. *)
Lemma room_range m len x : tree_ok m → 0 < len ≤ 2 ^ 38 → search_base ≤ x → free_range m x len → x + len ≤ user_top * PAGE_SIZE → mmap_range m 0 len.
Proof.
  intros Hm Hlen Hb Hf Hx. left. split_and!; [done|lia..|]. intros y Hy. destruct (find_free_ok m len Hm Hlen) as (r & Hr & Hspec). rewrite Hy in Hr. injection Hr as <-.
  destruct Hspec as (_ & _ & _ & _ & Hlow). specialize (Hlow x Hb Hf). lia.
Qed.

(** The file of a mapping, and the page of it at the start. *)
Definition mmap_file (flags : Z) (file : option nat) (off : Z) : option (nat * Z) :=
  if flags_contain flags MAP_ANONYMOUS then None else (λ f, (f, off / PAGE_SIZE)) <$> file.

Lemma mmap_ok k ms L addr len prot flags file off :
  sp_ok (k_w k) (ms_table ms) (areas ms) L → k_next_map k ≠ 0 → mmap_range (areas ms) addr len →
  ∃ r k' ms', mmap F k ms addr len prot flags file off = Some (r, k', ms') ∧ ms' = with_areas (areas ms') ms ∧
    sp_ok (k_w k') (ms_table ms) (areas ms') L ∧
    match r with
    | inl e => k' = k ∧ ms' = ms ∧
        (e = EBADF ∧ flags_contain flags MAP_ANONYMOUS = false ∧ file = None ∨
         e = EEXIST ∧ addr ≠ 0 ∧ flags_contain flags MAP_FIXED = false ∧ ¬ free_range (areas ms) addr len ∨
         e = EEXIST ∧ addr = 0 ∧ ∀ x, search_base ≤ x → free_range (areas ms) x len → USER_APP_MAX_SIZE ≤ x + len)
    | inr s => user_range s len ∧
        (addr = 0 ∧ free_range (areas ms) s len ∨
         s = addr ∧ (flags_contain flags MAP_FIXED = true ∨ free_range (areas ms) addr len)) ∧
        stable (ms_table ms) (λ v, first_page s ≤ v < last_page (s + len)) (held (areas ms) ++ L) (k_w k) (k_w k') ∧
        held (areas ms') ⊆+ held (areas ms) ∧
        k_anon k' = k_anon k ++ new_tables (flags_contain flags MAP_SHARED) (mmap_file flags file off) ∧
        ∀ v, page_at (areas ms') v = if decide (first_page s ≤ v < last_page (s + len))
          then Some (mapped_page (permission_of prot) (flags_contain flags MAP_SHARED)
            (mmap_file flags file off) (length (k_anon k)) (k_next_map k) (first_page s) v) else page_at (areas ms) v
    end.
Proof.
  intros Hs Hid Hrange. pose proof (sp_tree _ _ _ _ Hs) as Hm.
  assert (∃ c, checked_add addr len = Some (addr + len) ∧ ceil_of (addr + len) = Some c ∧ is_Some (checked_sub c (floor_of addr))) as (c & Hadd & Hce & [x Hsub]).
  { destruct Hrange as [(-> & Hlen & _)|[_ Hr]].
    - rewrite Z.add_0_l. exists (last_page len). split_and!; [apply checked_add_Some; unfold USIZE_MAX; lia|apply ceil_of_id; lia|].
      rewrite floor_of_id by lia. unfold checked_sub. rewrite (proj2 (Z.leb_le _ _)); [by eexists|].
      change (first_page 0) with 0. unfold last_page, PAGE_SIZE. apply Z.div_pos; lia.
    - destruct (user_range_ok _ _ Hr) as (? & Hfl & ?). destruct (user_range_pages _ _ Hr) as [? _].
      exists (last_page (addr + len)). split_and!; [done|done|]. rewrite Hfl. unfold checked_sub. rewrite (proj2 (Z.leb_le _ _)) by lia. by eexists. }
  unfold mmap. rewrite Hadd. cbn [mbind option_bind]. rewrite Hce. cbn [mbind option_bind]. rewrite Hsub. cbn [mbind option_bind].
  destruct (negb (flags_contain flags MAP_ANONYMOUS) && bool_decide (file = None)) eqn:Hbad.
  { apply andb_true_iff in Hbad as [Hb1%negb_true_iff Hb2%bool_decide_eq_true]. exists (inl EBADF), k, ms.
    split_and!; [done|by destruct ms|done|done|done|]. left. by split_and!. }
  fold (mmap_file flags file off). set (bf := mmap_file flags file off).
  pose proof (permission_of_range prot) as Hp.
  destruct (addr =? 0) eqn:Ha0; [apply Z.eqb_eq in Ha0|apply Z.eqb_neq in Ha0].
  - destruct Hrange as [(_ & Hlen & Hal)|[? _]]; [|done].
    destruct (find_free_ok (areas ms) len Hm Hlen) as (r & Hr & Hspec). rewrite Hr. cbn [mbind option_bind].
    destruct r as [s|]; [|exists (inl EEXIST), k, ms; split_and!; [done|by destruct ms|done|done|done|]; right; right; by split_and!].
    destruct Hspec as (Hb & Hals & Hlt & Hfree & _). assert (user_range s len) as Hus by (apply placed_range; [done|lia|by apply Hal]).
    destruct (mmap_place_ok k ms L s len _ (flags_contain flags MAP_SHARED) bf [] Hs ltac:(done) Hus Hid Hp Hfree) as (k' & ms' & He & Hms & Hs' & S & Hh & Han & Hv).
    exists (inr s), k', ms'. split_and!; [done|done|done|done|by left|apply S|by rewrite Hh|done|done].
  - destruct Hrange as [(? & _)|[_ Hr]]; [done|].
    destruct (has_conflict_ok (areas ms) addr len Hm Hr) as (b & Hb & Hiff). rewrite Hb. cbn [mbind option_bind].
    destruct b; [destruct (flags_contain flags MAP_FIXED) eqn:Hfix|].
    + destruct (munmap_locked_ok F k ms L addr len Hs Hr) as (fs & k1 & ms1 & Hu & Hs1 & Hh & Hsz & [Hms1 Hv1 Hsub1 S1 Hl1]).
      rewrite Hu. cbn [mbind option_bind]. assert (ms_table ms1 = ms_table ms) as Htb by (by rewrite Hms1).
      assert (k_next_map k1 = k_next_map k ∧ k_anon k1 = k_anon k) as [Hid1 Han1] by (by destruct Hl1 as (? & ? & _)).
      destruct (mmap_place_ok k1 ms1 L addr len (permission_of prot) (flags_contain flags MAP_SHARED) bf fs) as (k' & ms' & He & Hms & Hs' & S & Hh' & Han & Hv);
        [by rewrite Htb|done|done|by rewrite Hid1|done| |].
      { intros v Hv. by rewrite Hv1, decide_True. }
      exists (inr addr), k', ms'. rewrite Htb in Hs', S. split_and!; [done|by rewrite Hms, Hms1|done|done|right; split; [done|by left]| |by rewrite Hh'|by rewrite Han, Han1|].
      * eapply stable_trans; [| | | |exact S1|apply (S (λ _, False) (held (areas ms) ++ L))]; done.
      * intros v. rewrite Hv, Hid1, Han1. destruct (decide _) as [|Hn]; [done|]. by rewrite Hv1, decide_False.
    + exists (inl EEXIST), k, ms. split_and!; [done|by destruct ms|done|done|done|]. right. left. split_and!; [done|done|done|].
      intros Hf%Hiff. done.
    + assert (free_range (areas ms) addr len) as Hfree by (by apply Hiff).
      destruct (mmap_place_ok k ms L addr len _ (flags_contain flags MAP_SHARED) bf [] Hs ltac:(done) Hr Hid Hp Hfree) as (k' & ms' & He & Hms & Hs' & S & Hh & Han & Hv).
      exists (inr addr), k', ms'. split_and!; [done|done|done|done|right; split; [done|by right]|apply S|by rewrite Hh|done|done].
Qed.
End map.
