(* ===== verification/SpaceFault.v ===== *)
(** * Page faults and copy on write

    A fault on a mapped page that is not resident makes that page resident, with the
    contents it should have; a write fault on a page that shares its frame moves it
    to a frame of its own.  No frame that has a tracker changes. *)

From S2P Require Import Prelude Errno Address PageTable Mm BTree MapArea MemSet Space SpaceUnmap SpaceProtect.

Local Open Scope Z_scope.

Section fault.
Context {W_ : Type} `{!Mm W_} (F : FileOps W_).
Implicit Types (k : kmm W_) (w : W_) (t : nat) (ms : MemorySet) (m : gmap Z MapArea) (a : MapArea) (L : list Z).

(** ** A page becomes resident *)

Lemma find_resident w t m L vpn p f :
  sp_ok w t m L → page_at m vpn = Some p → pg_frame p = Some f →
  ∃ e, mm_find w t vpn = Some (e, Page4K) ∧ pte_for (pg_perm p) f e.
Proof.
  intros Hs Hp Hf. pose proof (sp_pte _ _ _ _ Hs vpn (page_at_range _ _ _ (sp_tree _ _ _ _ Hs) Hp)) as Hpte.
  unfold pte_ok in Hpte. rewrite Hp in Hpte. simpl in Hpte. by rewrite Hf in Hpte.
Qed.

Lemma find_absent w t m L vpn : sp_ok w t m L → 0 ≤ vpn < user_top → page_at m vpn ≫= pg_frame = None → mm_find w t vpn = None.
Proof. intros Hs Hr Hn. pose proof (sp_pte _ _ _ _ Hs vpn Hr) as Hpte. unfold pte_ok in Hpte. by rewrite Hn in Hpte. Qed.

Lemma sp_frame_range w t m L p : sp_ok w t m L → p ∈ held m ++ L → 0 ≤ p < 2 ^ 44.
Proof. intros Hs Hp. exact (mm_ok_range _ _ p (sp_mm _ _ _ _ Hs) Hp). Qed.

(** A tracker goes into the area, and the entry into the table. *)
Lemma add_resident w t m L key a vpn f fl :
  sp_ok w t m (f_ppn f :: L) → m !! key = Some a → inside a vpn → data_frames a !! vpn = None → map_type a ≠ Guard →
  f_size f = Page4K → fl = map_perm a ∨ fl = Z.ldiff (map_perm a) W → 2 ≤ mm_free w →
  ∃ w', let a' := with_data_frames (<[vpn := f]> (data_frames a)) a in let m' := <[key := a']> m in
    mm_map w t vpn (f_ppn f) fl Page4K = Some w' ∧ add_frame a vpn f = Some a' ∧ sp_ok w' t m' L ∧
    stable t (λ v, v = vpn) (held m ++ f_ppn f :: L) w w' ∧ f_ppn f :: held m ≡ₚ held m' ∧ mm_free w ≤ mm_free w' + 2 ∧
    mm_find w' t vpn = Some (PTE_new (f_ppn f) (final_flags fl), Page4K) ∧
    ∀ v, page_at m' v = if decide (v = vpn) then with_frame (Some f) <$> page_at m v else page_at m v.
Proof.
  intros Hs Hk Hin Hnone Hg Hsz Hfl Hfree. pose proof (sp_tree _ _ _ _ Hs) as Hm. destruct (to_area _ Hm _ _ Hk) as [_ Ha].
  pose proof (inside_range a vpn Ha Hin) as Hr. pose proof (uvpn_top vpn Hr) as Hu.
  assert (page_at m vpn = Some (page_of a vpn)) as Hpv by (by apply page_at_area with key).
  assert (mm_find w t vpn = None) as Hfn by (eapply find_absent; [done|done|]; rewrite Hpv; done).
  pose proof (mm_map_spec w _ t vpn (f_ppn f) fl (sp_mm _ _ _ _ Hs) (sp_table _ _ _ _ Hs) Hu Hfn) as Hmap.
  destruct (mm_map w t vpn (f_ppn f) fl Page4K) as [w'|] eqn:Hw'; [|lia]. destruct Hmap as (Hok & Hmem & Htab & Hfu).
  assert (stable t (λ v, v = vpn) (held m ++ f_ppn f :: L) w w') as S.
  { split; [done|done|]. intros t' v Hv Hne. rewrite Hfu by done. rewrite decide_False; naive_solver. }
  assert (mm_find w' t vpn = Some (PTE_new (f_ppn f) (final_flags fl), Page4K)) as Hfind.
  { rewrite Hfu by done. by rewrite decide_True. }
  destruct (tree_frames m key a (<[vpn := f]> (data_frames a)) Hm Hk) as [Hm' Hv].
  { intros v g [[<- <-]|[_ Hvg]]%lookup_insert_Some; [done|]. by apply (ao_frames _ Ha). }
  { done. }
  set (m' := <[key := with_data_frames (<[vpn := f]> (data_frames a)) a]> m) in *.
  assert (f_ppn f :: held m ≡ₚ held m') as Hh.
  { pose proof (held_replace m key a (with_data_frames (<[vpn := f]> (data_frames a)) a) Hk) as Hrep. fold m' in Hrep.
    rewrite (frames_of_insert a vpn f Hnone) in Hrep. apply (Permutation_app_inv_r (frames_of a)). rewrite Hrep. solve_perm. }
  assert (∀ v, page_at m' v = if decide (v = vpn) then with_frame (Some f) <$> page_at m v else page_at m v) as Hview.
  { intros v. rewrite Hv. destruct (decide (v = vpn)) as [->|Hne].
    - rewrite decide_True, lookup_insert_eq, Hpv by done. done.
    - destruct (decide (inside a v)); [|done]. rewrite lookup_insert_ne, (page_at_area m key a) by done. done. }
  exists w'. cbn zeta. fold m'. split_and!; [done|unfold add_frame; by rewrite Hnone| |done|done|by eapply mm_map_free; [apply Hs|]|done|done].
  split; [done| |by apply S, Hs|].
  - eapply mm_ok_perm; [done|]. rewrite <-Hh. solve_perm.
  - intros v Hvr. rewrite Hview. destruct (decide (v = vpn)) as [->|Hne].
    + rewrite Hpv, Hfind. unfold pte_ok. simpl. eexists. split; [done|].
      apply pte_for_new; [|apply Ha|done]. eapply sp_frame_range; [exact Hs|]. apply elem_of_app. right. by left.
    + rewrite (st_find _ _ _ _ _ S); [by apply Hs|by apply uvpn_top|by right].
Qed.

(** A fresh frame is held by nobody else, and is clear. *)
Lemma sp_alloc w t m L :
  sp_ok w t m L →
  ∃ r w', mm_frame_alloc w Page4K = Some (r, w') ∧ sp_ok w' t m (option_list r ++ L) ∧
    (∀ T, stable t T (held m ++ L) w w') ∧ find_same (mm_find w) (mm_find w') ∧ mm_free w ≤ mm_free w' + 1 ∧ (0 < mm_free w → is_Some r) ∧
    ∀ p, r = Some p → (p ∉ held m ++ L) ∧ ∀ i, mm_mem w' p i = 0.
Proof.
  intros Hs. destruct (wp_elim _ _ (mm_frame_alloc_spec w _ (sp_mm _ _ _ _ Hs))) as ([r w'] & Ha & Hok & Hmem & Hfind & Htab & Hsome & Hfresh).
  exists r, w'. split_and!; [done| | |done|by eapply mm_alloc_free; [apply Hs|]|done|done].
  - split; [apply Hs| |apply Htab, Hs|].
    + eapply mm_ok_perm; [done|]. solve_perm.
    + intros v Hv. rewrite Hfind by (by apply uvpn_top). by apply Hs.
  - intros T. split; [done|done|]. intros t' v Hv _. by apply Hfind.
Qed.

(** Another tracker of a frame. *)
Lemma sp_clone w t m L p :
  sp_ok w t m L → p ∈ held m ++ L →
  sp_ok (mm_clone w p) t m (p :: L) ∧ mm_mem (mm_clone w p) = mm_mem w ∧ mm_find (mm_clone w p) = mm_find w ∧
  mm_free (mm_clone w p) = mm_free w ∧ ∀ T H, stable t T H w (mm_clone w p).
Proof.
  intros Hs Hp. destruct (mm_clone_spec w _ p (sp_mm _ _ _ _ Hs) Hp) as (Hok & Hmem & Hfree & Htab & Hfind).
  split_and!; [|done|done|done|].
  - split; [apply Hs| |apply Htab, Hs|rewrite Hfind; apply Hs]. eapply mm_ok_perm; [done|]. solve_perm.
  - intros T H. split; [by rewrite Hmem|done|by rewrite Hfind].
Qed.

(** Writing to a frame. *)
Lemma sp_store w t m L p c :
  sp_ok w t m L → p ∈ held m ++ L →
  sp_ok (mm_store w p c) t m L ∧ mm_mem (mm_store w p c) p = c ∧ mm_free (mm_store w p c) = mm_free w ∧
  find_same (mm_find w) (mm_find (mm_store w p c)) ∧ ∀ T H, p ∉ H → stable t T H w (mm_store w p c).
Proof.
  intros Hs Hp. destruct (mm_store_spec w _ p c (sp_mm _ _ _ _ Hs) Hp) as (Hok & Hmem & Hfree & Hoth & Htab & Hfind).
  split_and!; [|done|done|done|].
  - split; [apply Hs|done|apply Htab, Hs|]. intros v Hv. rewrite Hfind by (by apply uvpn_top). by apply Hs.
  - intros T H Hn. split; [|done|].
    + intros q i Hq. rewrite Hoth; [done|]. by intros ->.
    + intros t' v Hv _. by apply Hfind.
Qed.

(** ** Copy on write *)

Lemma floor_of_page v o : 0 ≤ v < user_top → 0 ≤ o < PAGE_SIZE → floor_of (v * PAGE_SIZE + o) = v.
Proof.
  unfold user_top, PAGE_SIZE. intros Hv Ho. rewrite floor_of_id by (unfold PAGE_SIZE; lia). unfold first_page, PAGE_SIZE.
  rewrite Z.div_add_l, Z.div_small by lia. lia.
Qed.

Lemma tree_area_at m v p : tree_ok m → page_at m v = Some p →
  ∃ a, area_at m v = Some (get_start a, a) ∧ m !! get_start a = Some a ∧ inside a v ∧ area_ok a ∧ p = page_of a v.
Proof.
  intros Hm (key & a & Hk & Hin & ->)%page_at_Some; [|done]. destruct (to_area _ Hm _ _ Hk) as [-> Ha].
  exists a. split_and!; try done. by apply area_at_Some.
Qed.

Lemma frame_for_page a v : area_ok a → inside a v → frame_for_vpn a v = data_frames a !! v.
Proof.
  intros Ha [H1 H2]. unfold frame_for_vpn. rewrite (proj2 (Z.ltb_ge _ _)), (proj2 (Z.leb_gt _ _)) by lia. cbn [orb].
  rewrite (ao_size _ Ha). change (Z.max (num_pages Page4K) 1) with 1. rewrite Z.div_1_r, Z.mul_1_r.
  replace (get_start a + (v - get_start a)) with v by lia. by destruct (data_frames a !! v).
Qed.

(** What the fault asks of the page. *)
Definition cow_page (p : page) (f : Frame) (e : PageTableEntry) : Prop :=
  pg_type p ≠ Guard ∧ pg_shared p = false ∧ flags_contain (pg_perm p) W = true ∧ pg_frame p = Some f ∧ writable e = false.

Lemma flags_contain_bit perm i : 0 ≤ i → flags_contain perm (Z.shiftl 1 i) = Z.testbit perm i.
Proof.
  intros Hi. unfold flags_contain. rewrite Z.shiftl_1_l. destruct (Z.testbit perm i) eqn:Hb.
  - apply Z.eqb_eq. apply Z.bits_inj'. intros n Hn. rewrite Z.land_spec, Z.pow2_bits_eqb by lia.
    destruct (Z.eqb_spec i n) as [<-|]; [by rewrite Hb|by rewrite andb_false_r].
  - apply Z.eqb_neq. intros Heq. assert (Z.testbit (Z.land perm (2 ^ i)) i = true) as Ht by (by rewrite Heq, Z.pow2_bits_true).
    by rewrite Z.land_spec, Hb in Ht.
Qed.

Lemma flags_contain_W perm : flags_contain perm W = Z.testbit perm 2.
Proof. by apply flags_contain_bit. Qed.

(** The resident frame of a page is replaced. *)
Lemma replace_resident w t m L key a vpn f f' :
  sp_ok w t m (f_ppn f' :: L) → m !! key = Some a → data_frames a !! vpn = Some f → f_size f' = Page4K →
  ∃ w', let m' := <[key := with_data_frames (<[vpn := f']> (data_frames a)) a]> m in
    mm_set_entry w t vpn (f_ppn f') (map_perm a) = Some w' ∧ sp_ok w' t m' (f_ppn f :: L) ∧
    stable t (λ v, v = vpn) (held m ++ f_ppn f' :: L) w w' ∧ f_ppn f :: held m' ≡ₚ f_ppn f' :: held m ∧
    mm_find w' t vpn = Some (PTE_new (f_ppn f') (final_flags (map_perm a)), Page4K) ∧ mm_free w' = mm_free w ∧
    ∀ v, page_at m' v = if decide (v = vpn) then with_frame (Some f') <$> page_at m v else page_at m v.
Proof.
  intros Hs Hk Hf Hsz. pose proof (sp_tree _ _ _ _ Hs) as Hm. destruct (to_area _ Hm _ _ Hk) as [_ Ha].
  destruct (ao_frames _ Ha _ _ Hf) as [Hin _]. pose proof (inside_range a vpn Ha Hin) as Hr. pose proof (uvpn_top vpn Hr) as Hu.
  assert (page_at m vpn = Some (page_of a vpn)) as Hpv by (by apply page_at_area with key).
  destruct (find_resident w t m _ vpn (page_of a vpn) f Hs Hpv Hf) as (e & He & _).
  destruct (mm_set_entry_spec w _ t vpn (f_ppn f') (map_perm a) e (sp_mm _ _ _ _ Hs) (sp_table _ _ _ _ Hs) Hu He) as (w' & Hw' & Hok & Hmem & Htab & Hfree & Hfu).
  assert (stable t (λ v, v = vpn) (held m ++ f_ppn f' :: L) w w') as S.
  { split; [done|done|]. intros t' v Hv Hne. rewrite Hfu by done. rewrite decide_False; naive_solver. }
  assert (mm_find w' t vpn = Some (PTE_new (f_ppn f') (final_flags (map_perm a)), Page4K)) as Hfind.
  { rewrite Hfu by done. by rewrite decide_True. }
  destruct (tree_frames m key a (<[vpn := f']> (data_frames a)) Hm Hk) as [Hm' Hv].
  { intros v g [[<- <-]|[_ Hvg]]%lookup_insert_Some; [done|]. by apply (ao_frames _ Ha). }
  { intros Hg. rewrite (ao_guard _ Ha Hg), lookup_empty in Hf. done. }
  set (a' := with_data_frames (<[vpn := f']> (data_frames a)) a) in *. set (m' := <[key := a']> m) in *.
  assert (f_ppn f :: held m' ≡ₚ f_ppn f' :: held m) as Hh.
  { pose proof (held_replace m key a a' Hk) as Hrep. fold m' in Hrep.
    assert (frames_of a' ≡ₚ f_ppn f' :: frames_of (with_data_frames (delete vpn (data_frames a)) a)) as Hfa.
    { rewrite <-(frames_of_insert (with_data_frames (delete vpn (data_frames a)) a) vpn f') by (simpl; apply lookup_delete_eq).
      unfold a', frames_of. simpl. by rewrite insert_delete_eq. }
    rewrite Hfa, (frames_of_delete a vpn f Hf) in Hrep.
    apply (Permutation_app_inv_r (frames_of (with_data_frames (delete vpn (data_frames a)) a))). etrans; [|etrans; [exact Hrep|]]; solve_perm. }
  assert (∀ v, page_at m' v = if decide (v = vpn) then with_frame (Some f') <$> page_at m v else page_at m v) as Hview.
  { intros v. rewrite Hv. destruct (decide (v = vpn)) as [->|Hne].
    - rewrite decide_True, lookup_insert_eq, Hpv by done. done.
    - destruct (decide (inside a v)); [|done]. rewrite lookup_insert_ne, (page_at_area m key a) by done. done. }
  exists w'. cbn zeta. fold a'. fold m'. split_and!; [done| |done|done|done|done|done]. split; [done| |by apply S, Hs|].
  - eapply mm_ok_perm; [done|]. apply (Permutation_app_inv_l [f_ppn f']). simpl.
    trans (f_ppn f' :: (f_ppn f' :: held m) ++ L); [solve_perm|]. rewrite <-Hh. solve_perm.
  - intros v Hvr. rewrite Hview. destruct (decide (v = vpn)) as [->|Hne].
    + rewrite Hpv, Hfind. unfold pte_ok. simpl. eexists. split; [done|].
      apply pte_for_new; [|apply Ha|by left]. eapply sp_frame_range; [exact Hs|]. apply elem_of_app. right. by left.
    + rewrite (st_find _ _ _ _ _ S); [by apply Hs|by apply uvpn_top|by right].
Qed.

Lemma cow_ok k ms L vpn o p f e :
  sp_ok (k_w k) (ms_table ms) (areas ms) L → page_at (areas ms) vpn = Some p →
  mm_find (k_w k) (ms_table ms) vpn = Some (e, Page4K) → cow_page p f e → 0 ≤ o < PAGE_SIZE → 0 < mm_free (k_w k) →
  ∃ f' w' m', handle_cow_fault k ms (vpn * PAGE_SIZE + o) = Some (true, with_w w' k, with_areas m' ms) ∧
    sp_ok w' (ms_table ms) m' L ∧ stable (ms_table ms) (λ v, v = vpn) (held (areas ms) ++ L) (k_w k) w' ∧
    (f_ppn f' ∉ held (areas ms) ++ L) ∧ (∀ i, mm_mem w' (f_ppn f') i = mm_mem (k_w k) (f_ppn f) i) ∧
    f_ppn f :: held m' ≡ₚ f_ppn f' :: held (areas ms) ∧
    mm_find w' (ms_table ms) vpn = Some (PTE_new (f_ppn f') (final_flags (pg_perm p)), Page4K) ∧
    (∀ v, page_at m' v = if decide (v = vpn) then with_frame (Some f') <$> page_at (areas ms) v else page_at (areas ms) v) ∧
    mm_free (k_w k) ≤ mm_free w' + 1.
Proof.
  intros Hs Hp He (Hg & Hsh & HW & Hf & Hro) Ho Hfree. pose proof (sp_tree _ _ _ _ Hs) as Hm.
  destruct (find_resident _ _ _ _ _ _ _ Hs Hp Hf) as (e' & He' & Hpf). rewrite He in He'. injection He' as <-.
  destruct (tree_area_at _ _ _ Hm Hp) as (a & Hat & Hk & Hin & Ha & ->). simpl in Hg, Hsh, HW, Hf, Hpf |- *.
  destruct (ao_frames _ Ha _ _ Hf) as [_ Hsz].
  unfold handle_cow_fault. rewrite floor_of_page by (try done; by apply inside_range with a). rewrite Hat.
  rewrite bool_decide_false by done. rewrite Hsh, HW. cbn [negb orb]. rewrite (ao_size _ Ha). change (num_pages Page4K) with 1.
  rewrite Z.div_1_r, Z.mul_1_r. replace (get_start a + (vpn - get_start a)) with vpn by lia.
  unfold pt_translate. rewrite He, frame_for_page, Hf by done. cbn [fmap option_fmap option_map fst].
  rewrite (pf_valid _ _ _ Hpf), Hro, Hsz, (pf_ppn _ _ _ Hpf), Z.eqb_refl. rewrite bool_decide_true by done. cbn [negb orb].
  destruct (sp_alloc _ _ _ _ Hs) as (r & w1 & Hal & Hs1 & S1 & _ & Hfr1 & Hsome & Hfresh). destruct (Hsome Hfree) as [q ->].
  destruct (Hfresh q eq_refl) as [Hq _]. unfold frame_alloc. rewrite Hal. cbn [mbind option_bind option_map].
  change (copy_pages w1 (f_ppn f) (f_ppn (MkFrame q Page4K)) 1) with (mm_store w1 (q + 0) (mm_mem w1 (f_ppn f + 0))).
  rewrite !Z.add_0_r. destruct (sp_store w1 _ _ _ q (mm_mem w1 (f_ppn f)) Hs1) as (Hs2 & Hm2 & Hfr2 & _ & S2); [apply elem_of_app; right; by left|].
  destruct (replace_resident _ _ _ L _ a vpn f (MkFrame q Page4K) Hs2 Hk Hf eq_refl) as (w3 & Hw3 & Hs3 & S3 & Hh & Hfind & Hfr3 & Hv).
  cbn zeta in *. simpl in Hw3. change (map_perm (with_data_frames _ a)) with (map_perm a). simpl. rewrite Hw3. cbn [mbind option_bind].
  assert (f_ppn f ∈ held (areas ms)) as Hfin.
  { apply elem_of_held; [done|]. by exists vpn, (page_of a vpn), f. }
  destruct (sp_drop (ms_table ms) w3 _ L [f] Hs3) as (w4 & Hd & Hs4 & S4 & Hf4 & Hfr4); [by constructor|].
  cbn [drop_frames] in Hd. rewrite Hd. cbn [mbind option_bind]. eexists (MkFrame q Page4K), w4, _. simpl.
  split_and!; [done|done| |done| |done|by rewrite Hf4|done|lia].
  - eapply (stable_trans _ (λ _, False)); [| | | |apply (S1 (λ _, False))|]; [done|done|done|done|].
    eapply (stable_trans _ (λ _, False)); [| | | |apply (S2 (λ _, False) _ Hq)|]; [done|done|done|done|].
    eapply (stable_trans _ _ (λ _, False)); [| | | |exact S3|apply (S4 _ (held (areas ms) ++ L))]; [done|done| |done].
    intros x. rewrite !elem_of_app, elem_of_cons. tauto.
  - intros i. rewrite (st_mem _ _ _ _ _ (S4 (λ _, False) [q])) by (by left).
    rewrite (st_mem _ _ _ _ _ S3) by (apply elem_of_app; right; by left). rewrite Hm2.
    apply (st_mem _ _ _ _ _ (S1 (λ _, False))). apply elem_of_app. by left.
Qed.

(** The fault is refused, and nothing changes. *)
Lemma cow_refused k ms L vpn o :
  sp_ok (k_w k) (ms_table ms) (areas ms) L → 0 ≤ vpn < user_top → 0 ≤ o < PAGE_SIZE →
  (∀ p f e, page_at (areas ms) vpn = Some p → mm_find (k_w k) (ms_table ms) vpn = Some (e, Page4K) → ¬ cow_page p f e) →
  handle_cow_fault k ms (vpn * PAGE_SIZE + o) = Some (false, k, ms).
Proof.
  intros Hs Hr Ho Hno. pose proof (sp_tree _ _ _ _ Hs) as Hm. unfold handle_cow_fault. rewrite floor_of_page by done.
  destruct (page_at (areas ms) vpn) as [p|] eqn:Hp.
  2: { destruct (area_at (areas ms) vpn) as [[key a]|] eqn:Hat; [|done]. unfold page_at in Hp. by rewrite Hat in Hp. }
  destruct (tree_area_at _ _ _ Hm Hp) as (a & Hat & Hk & Hin & Ha & ->). rewrite Hat.
  destruct (bool_decide (map_type a = Guard)) eqn:Hg; [done|]. destruct (is_shared a) eqn:Hsh; [done|].
  destruct (flags_contain (map_perm a) W) eqn:HW; [|done]. cbn [negb orb]. apply bool_decide_eq_false in Hg.
  unfold pt_translate. rewrite frame_for_page by done. destruct (data_frames a !! vpn) as [f|] eqn:Hf.
  - destruct (find_resident _ _ _ _ _ (page_of a vpn) f Hs Hp Hf) as (e & He & Hpf). rewrite He. cbn [fmap option_fmap option_map fst].
    rewrite (pf_valid _ _ _ Hpf). cbn [negb orb]. destruct (writable e) eqn:Hwr; [done|].
    exfalso. apply (Hno (page_of a vpn) f e); [done|done|]. by split_and!.
  - rewrite (find_absent _ _ _ _ vpn Hs Hr) by (rewrite Hp; done). done.
Qed.

Lemma trackers_perm p L1 L2 : L1 ≡ₚ L2 → trackers p L1 = trackers p L2.
Proof. intros Hp. unfold trackers. by rewrite Hp. Qed.

(** A page moved to a frame of its own keeps every page isolated. *)
Lemma cow_isolated w w' t m m' L vpn f f' :
  isolated w t m L → sp_ok w t m L → tree_ok m' → (f_ppn f' ∉ held m ++ L) → f_ppn f :: held m' ≡ₚ f_ppn f' :: held m →
  (∀ v, v ≠ vpn → uvpn v → mm_find w' t v = mm_find w t v) →
  (∀ v, page_at m' v = if decide (v = vpn) then with_frame (Some f') <$> page_at m v else page_at m v) →
  isolated w' t m' L.
Proof.
  intros Hi Hs Hm' Hnew Hh Hfind Hv v p g e Hp Hg Hsh He Hw. rewrite Hv in Hp.
  assert (∀ x, (if decide (f_ppn f = x) then S (trackers x (held m' ++ L)) else trackers x (held m' ++ L)) =
    if decide (f_ppn f' = x) then S (trackers x (held m ++ L)) else trackers x (held m ++ L)) as Hcount.
  { intros x. rewrite <-!trackers_cons. apply trackers_perm. rewrite !app_comm_cons. by rewrite Hh. }
  destruct (decide (v = vpn)) as [->|Hne].
  - destruct (page_at m vpn) as [q|] eqn:Hq; [|done]. injection Hp as <-. injection Hg as <-.
    specialize (Hcount (f_ppn f')). rewrite (decide_True (P := f_ppn f' = f_ppn f')) in Hcount by done.
    rewrite (trackers_notin (f_ppn f') (held m ++ L)) in Hcount by done.
    assert (0 < trackers (f_ppn f') (held m' ++ L))%nat as Hpos.
    { apply trackers_in, elem_of_app. left. apply elem_of_held; [done|]. exists vpn, (with_frame (Some f') q), f'.
      rewrite Hv, decide_True, Hq by done. done. }
    destruct (decide _); lia.
  - pose proof (page_at_range _ _ _ (sp_tree _ _ _ _ Hs) Hp) as Hr. rewrite Hfind in He by (try done; by apply uvpn_top).
    pose proof (Hi v p g e Hp Hg Hsh He Hw) as H1. specialize (Hcount (f_ppn g)).
    assert (f_ppn g ∈ held m) as Hgin.
    { apply elem_of_held; [apply Hs|]. by exists v, p, g. }
    rewrite (decide_False (P := f_ppn f' = f_ppn g)) in Hcount by (intros Heq; apply Hnew; rewrite Heq; apply elem_of_app; by left).
    assert (0 < trackers (f_ppn g) (held m' ++ L))%nat as Hpos.
    { apply trackers_in, elem_of_app. left. apply elem_of_held; [done|]. exists v, p, g. rewrite Hv, decide_False by done. done. }
    destruct (decide _); lia.
Qed.

(** ** Page faults *)

(** A user access may make the page resident. *)
Definition may_fault (p : page) : Prop :=
  pg_type p ≠ Guard ∧ flags_contain (pg_perm p) U = true ∧ Z.land (pg_perm p) (Z.lor (Z.lor R W) X) ≠ 0 ∧ pg_frame p = None.

Lemma fault_enter k ms L vpn o p :
  sp_ok (k_w k) (ms_table ms) (areas ms) L → page_at (areas ms) vpn = Some p → may_fault p → 0 ≤ o < PAGE_SIZE →
  ∃ a, areas ms !! get_start a = Some a ∧ inside a vpn ∧ area_ok a ∧ p = page_of a vpn ∧
    handle_page_fault F k ms (vpn * PAGE_SIZE + o) =
      ('(mapped, a', k') ← try_map_one F k (ms_table ms) a vpn Page4K;
       Some (mapped, k', with_areas (<[get_start a := a']> (areas ms)) ms)).
Proof.
  intros Hs Hp (Hg & HU & Hrwx & Hf) Ho. pose proof (sp_tree _ _ _ _ Hs) as Hm.
  destruct (tree_area_at _ _ _ Hm Hp) as (a & Hat & Hk & Hin & Ha & ->). exists a. split_and!; [done..|].
  unfold handle_page_fault. rewrite floor_of_page by (try done; by apply inside_range with a). rewrite Hat. simpl in Hg, HU, Hrwx, Hf.
  rewrite bool_decide_false by done. rewrite HU, (proj2 (Z.eqb_neq _ _) Hrwx). cbn [negb orb].
  unfold pt_valid, pt_translate. rewrite (find_absent _ _ _ _ vpn Hs) by (try (by apply inside_range with a); rewrite Hp; done).
  cbn [fmap option_fmap option_map from_option]. by rewrite (ao_size _ Ha).
Qed.

(** Pages that are not there, guards, pages without access and resident pages. *)
Lemma fault_refused k ms L vpn o :
  sp_ok (k_w k) (ms_table ms) (areas ms) L → 0 ≤ vpn < user_top → 0 ≤ o < PAGE_SIZE →
  (∀ p, page_at (areas ms) vpn = Some p → ¬ may_fault p) →
  handle_page_fault F k ms (vpn * PAGE_SIZE + o) = Some (false, k, ms).
Proof.
  intros Hs Hr Ho Hno. pose proof (sp_tree _ _ _ _ Hs) as Hm. unfold handle_page_fault. rewrite floor_of_page by done.
  destruct (page_at (areas ms) vpn) as [p|] eqn:Hp.
  2: { destruct (area_at (areas ms) vpn) as [[key a]|] eqn:Hat; [|done]. unfold page_at in Hp. by rewrite Hat in Hp. }
  destruct (tree_area_at _ _ _ Hm Hp) as (a & Hat & Hk & Hin & Ha & ->). rewrite Hat.
  destruct (bool_decide (map_type a = Guard)) eqn:Hg; [done|]. apply bool_decide_eq_false in Hg.
  destruct (flags_contain (map_perm a) U) eqn:HU; [|done]. cbn [negb orb].
  destruct (Z.land (map_perm a) (Z.lor (Z.lor R W) X) =? 0) eqn:Hx; [done|]. apply Z.eqb_neq in Hx.
  destruct (data_frames a !! vpn) as [f|] eqn:Hf.
  - destruct (find_resident _ _ _ _ _ (page_of a vpn) f Hs Hp Hf) as (e & He & Hpf). unfold pt_valid, pt_translate.
    rewrite He. simpl. by rewrite (pf_valid _ _ _ Hpf).
  - exfalso. by apply (Hno (page_of a vpn)).
Qed.

(** The flags a new page gets. *)
Definition initial_flags (p : page) : Z :=
  if pg_cow p && flags_contain (pg_perm p) W then Z.ldiff (pg_perm p) W else pg_perm p.

(** One page has become resident, in the frame [f]. *)
Record page_in (t : nat) (m : gmap Z MapArea) L (w w' : W_) (m' : gmap Z MapArea) (vpn : Z) (p : page) (f : Frame) : Prop := {
  in_stable : stable t (λ v, v = vpn) (held m ++ L) w w';
  in_held : f_ppn f :: held m ≡ₚ held m';
  in_find : mm_find w' t vpn = Some (PTE_new (f_ppn f) (final_flags (initial_flags p)), Page4K);
  in_view v : page_at m' v = if decide (v = vpn) then Some (with_frame (Some f) p) else page_at m v;
}.

(** A private anonymous page gets a clear frame of its own. *)
Lemma fault_private_ok k ms L vpn o p :
  sp_ok (k_w k) (ms_table ms) (areas ms) L → page_at (areas ms) vpn = Some p → may_fault p → 0 ≤ o < PAGE_SIZE →
  pg_type p = Framed → pg_anon p = None → 3 ≤ mm_free (k_w k) →
  ∃ f w' m', handle_page_fault F k ms (vpn * PAGE_SIZE + o) = Some (true, with_w w' k, with_areas m' ms) ∧
    sp_ok w' (ms_table ms) m' L ∧ page_in (ms_table ms) (areas ms) L (k_w k) w' m' vpn p f ∧
    (f_ppn f ∉ held (areas ms) ++ L) ∧ (∀ i, mm_mem w' (f_ppn f) i = 0) ∧ mm_free (k_w k) ≤ mm_free w' + 3.
Proof.
  intros Hs Hp Hmay Ho Ht Han Hfree. destruct (fault_enter k ms L vpn o p Hs Hp Hmay Ho) as (a & Hk & Hin & Ha & -> & ->).
  destruct Hmay as (Hg & _ & _ & Hf). simpl in Ht, Han, Hg, Hf. unfold try_map_one. rewrite Ht. unfold framed_frame. rewrite Han.
  destruct (sp_alloc _ _ _ _ Hs) as (r & w1 & Hal & Hs1 & S1 & _ & Hfr1 & Hsome & Hfresh). destruct (Hsome ltac:(lia)) as [q ->].
  destruct (Hfresh q eq_refl) as [Hq Hz]. unfold frame_alloc. rewrite Hal. cbn [mbind option_bind option_map].
  destruct (add_resident w1 (ms_table ms) (areas ms) L (get_start a) a vpn (MkFrame q Page4K) (initial_pte_permission a)
    Hs1 Hk Hin Hf Hg eq_refl (initial_perm_cases a) ltac:(lia)) as (w2 & Hmap & Hadd & Hs2 & S2 & Hh & Hfr2 & Hfind & Hv).
  cbn zeta in *. change (k_w (with_w w1 k)) with w1. simpl in Hmap. simpl. rewrite Hmap. cbn [mbind option_bind]. rewrite Hadd. cbn [mbind option_bind].
  eexists (MkFrame q Page4K), w2, _. split_and!; [done|done| |done| |lia].
  - split; [|done|done|].
    + eapply (stable_trans _ (λ _, False)); [| | | |apply (S1 (λ _, False))|exact S2]; [done|done|done|].
      intros x. rewrite !elem_of_app, elem_of_cons. tauto.
    + intros v. rewrite Hv. destruct (decide (v = vpn)) as [->|]; [|done]. by rewrite Hp.
  - intros i. simpl. rewrite (st_mem _ _ _ _ _ S2) by (apply elem_of_app; right; by left). apply Hz.
Qed.

(** ** Shared anonymous pages *)

Definition anon_frames (l : list (gmap Z Frame)) : list Z := l ≫= λ d, (λ e, f_ppn e.2) <$> map_to_list d.

Lemma anon_frames_in l r d v f : l !! r = Some d → d !! v = Some f → f_ppn f ∈ anon_frames l.
Proof.
  intros Hr Hv. unfold anon_frames. apply list_elem_of_bind. exists d. split; [|by eapply list_elem_of_lookup_2].
  apply list_elem_of_fmap. exists (v, f). by rewrite elem_of_map_to_list.
Qed.

Lemma anon_frames_insert l r d v f : l !! r = Some d → d !! v = None →
  anon_frames (<[r := <[v := f]> d]> l) ≡ₚ f_ppn f :: anon_frames l.
Proof.
  intros Hr Hv. unfold anon_frames. rewrite insert_take_drop by (by eapply lookup_lt_Some).
  rewrite <-(take_drop_middle _ _ _ Hr) at 3. rewrite !bind_app, !bind_cons, (map_to_list_insert d v f Hv), fmap_cons. cbn [snd]. solve_perm.
Qed.

(** The table of a shared anonymous mapping: the page has the frame of the table,
    the one that was there or a clear one that is there from now on. *)
Lemma fault_shared_ok k ms L vpn o p r d :
  sp_ok (k_w k) (ms_table ms) (areas ms) (anon_frames (k_anon k) ++ L) → page_at (areas ms) vpn = Some p → may_fault p →
  0 ≤ o < PAGE_SIZE → pg_type p = Framed → pg_anon p = Some r → k_anon k !! r = Some d →
  (∀ v f, d !! v = Some f → f_size f = Page4K) → 3 ≤ mm_free (k_w k) →
  ∃ f k' m', handle_page_fault F k ms (vpn * PAGE_SIZE + o) = Some (true, k', with_areas m' ms) ∧
    sp_ok (k_w k') (ms_table ms) m' (anon_frames (k_anon k') ++ L) ∧
    page_in (ms_table ms) (areas ms) (anon_frames (k_anon k) ++ L) (k_w k) (k_w k') m' vpn p f ∧
    k_anon k' = <[r := <[vpn := f]> d]> (k_anon k) ∧
    (d !! vpn = Some f ∨
     d !! vpn = None ∧ (f_ppn f ∉ held (areas ms) ++ anon_frames (k_anon k) ++ L) ∧ ∀ i, mm_mem (k_w k') (f_ppn f) i = 0) ∧
    mm_free (k_w k) ≤ mm_free (k_w k') + 3.
Proof.
  intros Hs Hp Hmay Ho Ht Han Hr Hsz Hfree. destruct (fault_enter k ms _ vpn o p Hs Hp Hmay Ho) as (a & Hk & Hin & Ha & -> & ->).
  destruct Hmay as (Hg & _ & _ & Hf). simpl in Ht, Han, Hg, Hf. unfold try_map_one. rewrite Ht. unfold framed_frame. rewrite Han, Hr.
  set (L0 := anon_frames (k_anon k) ++ L) in *. destruct (d !! vpn) as [f|] eqn:Hd.
  - assert (f_ppn f ∈ held (areas ms) ++ L0) as Hin'.
    { unfold L0. rewrite !elem_of_app. right. left. by eapply anon_frames_in. }
    destruct (sp_clone _ _ _ _ _ Hs Hin') as (Hs1 & Hm1 & Hf1 & Hfr1 & S1).
    destruct (add_resident _ (ms_table ms) (areas ms) L0 (get_start a) a vpn f (initial_pte_permission a)
      Hs1 Hk Hin Hf Hg (Hsz _ _ Hd) (initial_perm_cases a) ltac:(lia)) as (w2 & Hmap & Hadd & Hs2 & S2 & Hh & Hfr2 & Hfind & Hv).
    cbn zeta in *. cbn [mbind option_bind]. change (k_w (with_w (mm_clone (k_w k) (f_ppn f)) k)) with (mm_clone (k_w k) (f_ppn f)).
    rewrite Hmap. cbn [mbind option_bind]. rewrite Hadd. cbn [mbind option_bind].
    eexists f, _, _. split; [done|]. simpl. rewrite (insert_id d vpn f Hd), (list_insert_id _ _ _ Hr).
    split_and!; [done| |done|by left|lia]. split; [|done|done|].
    + eapply (stable_trans _ (λ _, False)); [| | | |apply (S1 (λ _, False) (held (areas ms) ++ L0))|exact S2]; [done|done|done|].
      intros x. rewrite !elem_of_app, elem_of_cons. tauto.
    + intros v. rewrite Hv. destruct (decide (v = vpn)) as [->|]; [|done]. by rewrite Hp.
  - destruct (sp_alloc _ _ _ _ Hs) as (r' & w1 & Hal & Hs1 & S1 & _ & Hfr1 & Hsome & Hfresh). destruct (Hsome ltac:(lia)) as [q ->].
    destruct (Hfresh q eq_refl) as [Hq Hz]. unfold frame_alloc. rewrite Hal. cbn [mbind option_bind option_map].
    destruct (sp_clone w1 _ _ (q :: L0) q Hs1) as (Hs2 & Hm2 & Hf2 & Hfr2 & S2); [apply elem_of_app; right; by left|].
    destruct (add_resident (mm_clone w1 q) (ms_table ms) (areas ms) (q :: L0) (get_start a) a vpn (MkFrame q Page4K) (initial_pte_permission a)
      Hs2 Hk Hin Hf Hg eq_refl (initial_perm_cases a) ltac:(lia)) as (w3 & Hmap & Hadd & Hs3 & S3 & Hh & Hfr3 & Hfind & Hv).
    cbn zeta in *. simpl in Hmap. simpl. rewrite Hmap. cbn [mbind option_bind]. rewrite Hadd. cbn [mbind option_bind].
    eexists (MkFrame q Page4K), _, _. split; [done|]. simpl. split_and!; [| |done| |lia].
    + eapply sp_ok_perm; [exact Hs3|]. rewrite (anon_frames_insert _ _ _ _ _ Hr Hd). done.
    + split; [|done|done|].
      * eapply (stable_trans _ (λ _, False)); [| | | |apply (S1 (λ _, False))|]; [done|done|done|done|].
        eapply (stable_trans _ (λ _, False)); [| | | |apply (S2 (λ _, False) (held (areas ms) ++ L0))|exact S3]; [done|done|done|].
        intros x. rewrite !elem_of_app, !elem_of_cons. tauto.
      * intros v. rewrite Hv. destruct (decide (v = vpn)) as [->|]; [|done]. by rewrite Hp.
    + right. split_and!; [done|done|]. intros i. rewrite (st_mem _ _ _ _ _ S3) by (apply elem_of_app; right; by left). by rewrite Hm2.
Qed.

(** ** Pages of files *)

(** What the page cache promises: a tracker of the frame of the page, or none; no
    frame with a tracker changes. *)
Definition cache_ok (get : W_ → nat → Z → option Z * W_) : Prop :=
  ∀ w H f n r w', mm_ok w H → get w f n = (r, w') →
    mm_ok w' (option_list r ++ H) ∧ mem_same H (mm_mem w) (mm_mem w') ∧ find_same (mm_find w) (mm_find w') ∧
    ∀ t, mm_table w t → mm_table w' t.

Lemma sp_cache get w t m L f n r w' : cache_ok get → sp_ok w t m L → get w f n = (r, w') →
  sp_ok w' t m (option_list r ++ L) ∧ ∀ T, stable t T (held m ++ L) w w'.
Proof.
  intros Hc Hs Hg. destruct (Hc w _ f n r w' (sp_mm _ _ _ _ Hs) Hg) as (Hok & Hmem & Hfind & Htab). split.
  - split; [apply Hs| |apply Htab, Hs|].
    + eapply mm_ok_perm; [done|]. solve_perm.
    + intros v Hv. rewrite Hfind by (by apply uvpn_top). by apply Hs.
  - intros T. split; [done|done|]. intros t' v Hv _. by apply Hfind.
Qed.

(** The number of pages of a file. *)
Definition file_pages (f : nat) : Z :=
  from_option (λ e, e / PAGE_SIZE) USIZE_MAX (checked_add (file_size F f) (PAGE_SIZE - 1)).

(** The computation of the page of the file. *)
Lemma file_page_ok a vpn f n : inside a vpn → pg_back (page_of a vpn) = Some (f, n) → n ≤ USIZE_MAX →
  ∃ base, backing_file a = Some (f, base) ∧ n = base + (vpn - get_start a) ∧
    (r ← checked_sub vpn (get_start a); checked_add base r) = Some n.
Proof.
  intros Hin Hb Hn. unfold page_of in Hb. simpl in Hb. destruct (backing_file a) as [[g base]|]; [|done]. injection Hb as <- <-.
  exists base. split_and!; [done|done|]. unfold inside in Hin. unfold checked_sub. rewrite (proj2 (Z.leb_le _ _)) by lia.
  cbn [mbind option_bind]. by apply checked_add_Some.
Qed.

(** Where the frame of a page of a shared mapping comes from, and of a private one
    that starts out on the page cache. *)
Definition cached_page (p : page) (w : W_) (f : nat) (n : Z) : option (option Z * W_) :=
  if pg_cow p then
    match get_file_page F w f n with
    | (Some q, w) => Some (Some q, w)
    | (None, w) => mm_frame_alloc w Page4K
    end
  else Some (get_shared_page F w f n).

Lemma fault_cached_ok k ms L vpn o p f n q w1 :
  cache_ok (get_shared_page F) → cache_ok (get_file_page F) →
  sp_ok (k_w k) (ms_table ms) (areas ms) L → page_at (areas ms) vpn = Some p → may_fault p → 0 ≤ o < PAGE_SIZE →
  pg_type p = File → pg_shared p || pg_cow p = true → pg_back p = Some (f, n) → n < file_pages f → n ≤ USIZE_MAX →
  cached_page p (k_w k) f n = Some (Some q, w1) → 2 ≤ mm_free w1 →
  ∃ w' m', handle_page_fault F k ms (vpn * PAGE_SIZE + o) = Some (true, with_w w' k, with_areas m' ms) ∧
    sp_ok w' (ms_table ms) m' L ∧ page_in (ms_table ms) (areas ms) L (k_w k) w' m' vpn p (MkFrame q Page4K) ∧
    ∀ i, mm_mem w' q i = mm_mem w1 q i.
Proof.
  intros Hcs Hcf Hs Hp Hmay Ho Ht Hsc Hb Hlt Hn Hget Hfree.
  destruct (fault_enter k ms L vpn o p Hs Hp Hmay Ho) as (a & Hk & Hin & Ha & -> & ->).
  destruct Hmay as (Hg & _ & _ & Hf). simpl in Ht, Hsc, Hg, Hf. destruct (file_page_ok a vpn f n Hin Hb Hn) as (base & Hbf & _ & Hpg).
  unfold try_map_one. rewrite Ht, Hsc. unfold try_map_shared_file_page. rewrite bool_decide_true by done. cbn [negb].
  rewrite Hbf, Hpg. fold (file_pages f). rewrite (proj2 (Z.leb_gt _ _)) by done.
  change (page_cache_cow a) with (pg_cow (page_of a vpn)). fold (cached_page (page_of a vpn) (k_w k) f n). rewrite Hget. cbn [mbind option_bind].
  assert (sp_ok w1 (ms_table ms) (areas ms) (q :: L) ∧ ∀ T, stable (ms_table ms) T (held (areas ms) ++ L) (k_w k) w1) as [Hs1 S1].
  { unfold cached_page in Hget. destruct (pg_cow (page_of a vpn)).
    - destruct (get_file_page F (k_w k) f n) as [[q'|] w0] eqn:Hgf.
      + injection Hget as <- <-. by apply (sp_cache _ _ _ _ _ _ _ _ _ Hcf Hs Hgf).
      + destruct (sp_cache _ _ _ _ _ _ _ _ _ Hcf Hs Hgf) as [Hs0 S0].
        destruct (sp_alloc _ _ _ _ Hs0) as (r & w1' & Hal & Hs1 & S1 & _). rewrite Hget in Hal. injection Hal as <- <-.
        split; [done|]. intros T. eapply (stable_trans _ T T); [| | | |apply S0|apply S1]; done.
    - injection Hget as Hget. by apply (sp_cache _ _ _ _ _ _ _ _ _ Hcs Hs Hget). }
  destruct (add_resident w1 (ms_table ms) (areas ms) L (get_start a) a vpn (MkFrame q Page4K) (initial_pte_permission a)
    Hs1 Hk Hin Hf Hg eq_refl (initial_perm_cases a) Hfree) as (w2 & Hmap & Hadd & Hs2 & S2 & Hh & _ & Hfind & Hv).
  cbn zeta in *. simpl in Hmap. rewrite Hmap. cbn [mbind option_bind]. rewrite Hadd. cbn [mbind option_bind].
  eexists w2, _. split_and!; [done|done| |].
  - split; [|done|done|].
    + eapply (stable_trans _ (λ _, False)); [| | | |apply (S1 (λ _, False))|exact S2]; [done|done|done|].
      intros x. rewrite !elem_of_app, elem_of_cons. tauto.
    + intros v. rewrite Hv. destruct (decide (v = vpn)) as [->|]; [|done]. by rewrite Hp.
  - intros i. apply (st_mem _ _ _ _ _ S2). apply elem_of_app. right. by left.
Qed.

(** Beyond the end of the file: no page, and the check for [SIGBUS] answers yes. *)
Lemma fault_beyond_ok k ms L vpn o p f n :
  sp_ok (k_w k) (ms_table ms) (areas ms) L → page_at (areas ms) vpn = Some p → may_fault p → 0 ≤ o < PAGE_SIZE →
  pg_type p = File → pg_shared p || pg_cow p = true → pg_back p = Some (f, n) → file_pages f ≤ n → n ≤ USIZE_MAX →
  handle_page_fault F k ms (vpn * PAGE_SIZE + o) = Some (false, k, ms) ∧
  check_mmap_page_fault k ms (vpn * PAGE_SIZE + o) = pg_shared p.
Proof.
  intros Hs Hp Hmay Ho Ht Hsc Hb Hlt Hn.
  destruct (fault_enter k ms L vpn o p Hs Hp Hmay Ho) as (a & Hk & Hin & Ha & -> & ->).
  destruct Hmay as (Hg & _ & _ & Hf). simpl in Ht, Hsc, Hg, Hf. destruct (file_page_ok a vpn f n Hin Hb Hn) as (base & Hbf & _ & Hpg).
  split.
  - unfold try_map_one. rewrite Ht, Hsc. unfold try_map_shared_file_page. rewrite bool_decide_true by done. cbn [negb].
    rewrite Hbf, Hpg. fold (file_pages f). rewrite (proj2 (Z.leb_le _ _)) by done. cbn [mbind option_bind].
    rewrite insert_id by done. by destruct ms.
  - unfold check_mmap_page_fault. rewrite floor_of_page by (try done; by apply inside_range with a).
    rewrite (proj2 (area_at_Some _ _ (get_start a) a (sp_tree _ _ _ _ Hs))) by done. rewrite Hbf.
    unfold pt_valid, pt_translate. rewrite (find_absent _ _ _ _ vpn Hs) by (try (by apply inside_range with a); rewrite Hp; done).
    cbn [fmap option_fmap option_map from_option negb]. rewrite !bool_decide_true by (try done; by eexists). simpl. by rewrite !andb_true_r.
Qed.

(** ** Reading ahead *)

Definition ppns (l : list (Z * Frame)) : list Z := (λ e, f_ppn e.2) <$> l.

Lemma pt_valid_resident w t m L v : sp_ok w t m L → 0 ≤ v < user_top → pt_valid w t v = bool_decide (is_Some (page_at m v ≫= pg_frame)).
Proof.
  intros Hs Hr. unfold pt_valid, pt_translate. destruct (page_at m v ≫= pg_frame) as [f|] eqn:Hp.
  - destruct (page_at m v) as [p|] eqn:Hpv; [|done]. destruct (find_resident _ _ _ _ _ _ _ Hs Hpv Hp) as (e & -> & Hpf).
    rewrite bool_decide_true by (by eexists). exact (pf_valid _ _ _ Hpf).
  - by rewrite (find_absent _ _ _ _ v Hs Hr Hp).
Qed.

(** Frames for consecutive pages, up to the first resident one. *)
Record collected (w : W_) (t : nat) m L (vpn : Z) (l : list (Z * Frame)) (w' : W_) : Prop := {
  co_sp : sp_ok w' t m (ppns l ++ L);
  co_stable T : stable t T (held m ++ L) w w';
  co_free : mm_free w ≤ mm_free w' + Z.of_nat (length l) ∨ mm_free w ≤ Z.of_nat (length l);
  co_pages : l.*1 = seqZ vpn (Z.of_nat (length l));
  co_absent v f : (v, f) ∈ l → page_at m v ≫= pg_frame = None ∧ f_size f = Page4K;
  co_nodup : NoDup (ppns l);
  co_fresh p : p ∈ ppns l → p ∉ held m ++ L;
}.

Lemma collect_ok n : ∀ w t m L vpn,
  sp_ok w t m L → 0 ≤ vpn → vpn + Z.of_nat n ≤ user_top →
  ∃ l w', collect_frames n w t vpn Page4K = Some (l, w') ∧ collected w t m L vpn l w' ∧ (length l ≤ n)%nat ∧
    ((0 < n)%nat → 0 < mm_free w → page_at m vpn ≫= pg_frame = None → l ≠ []).
Proof.
  assert (∀ w t m L vpn, sp_ok w t m L → collected w t m L vpn [] w) as Hnil.
  { intros w t m L vpn Hs. split; [done|intros; apply stable_refl|simpl; lia|done|by intros ?? ?%not_elem_of_nil|constructor|by intros ? ?%not_elem_of_nil]. }
  induction n as [|n IH]; intros w t m L vpn Hs Hv Htop; cbn [collect_frames].
  { exists [], w. split_and!; [done|by apply Hnil|done|lia]. }
  assert (VirtPageNum_from vpn = vpn) as Hvf.
  { unfold VirtPageNum_from. rewrite land_width_mask by done. apply Z.mod_small. unfold user_top in Htop.
    change (2 ^ VPN_WIDTH) with (2 ^ 27). lia. }
  rewrite Hvf, (pt_valid_resident w t m L vpn Hs) by lia. destruct (bool_decide _) eqn:Hres.
  { exists [], w. split_and!; [done|by apply Hnil|simpl; lia|]. intros _ _ Hab. rewrite Hab in Hres. by apply bool_decide_eq_true in Hres as [? ?]. }
  apply bool_decide_eq_false in Hres. rewrite <-eq_None_not_Some in Hres.
  destruct (sp_alloc _ _ _ _ Hs) as (r & w1 & Hal & Hs1 & S1 & _ & Hfr1 & Hsome & Hfresh). rewrite Hal. cbn [mbind option_bind].
  destruct r as [q|].
  2: { exists [], w1. split_and!; [done| |simpl; lia|intros _ Hf _; by destruct (Hsome Hf)].
    split; [done|done| |done|by intros ?? ?%not_elem_of_nil|constructor|by intros ? ?%not_elem_of_nil].
    right. simpl. destruct (decide (0 < mm_free w)) as [Hf|]; [by destruct (Hsome Hf)|lia]. }
  destruct (Hfresh q eq_refl) as [Hq _].
  destruct (IH w1 t m (q :: L) (vpn + 1) Hs1 ltac:(lia) ltac:(lia)) as (l & w' & Hl & [C1 C2 C3 C4 C5 C6 C7] & Hlen & _).
  rewrite Hl. cbn [mbind option_bind]. exists ((vpn, MkFrame q Page4K) :: l), w'. split_and!; [done| |simpl; lia|done]. split.
  - eapply sp_ok_perm; [done|]. unfold ppns. rewrite fmap_cons. simpl. solve_perm.
  - intros T. eapply (stable_trans _ T T); [| | | |apply S1|apply C2]; [done|done|done|]. intros x. rewrite !elem_of_app, elem_of_cons. tauto.
  - simpl length. lia.
  - rewrite fmap_cons, C4. simpl. rewrite (seqZ_cons vpn) by lia. f_equal. f_equal; lia.
  - intros v f Hin. apply elem_of_cons in Hin as [[= -> ->]|Hin]; [done|by apply C5].
  - unfold ppns. rewrite fmap_cons. constructor; [|done]. intros Hin. apply (C7 _ Hin). simpl. apply elem_of_app. right. by left.
  - intros p. unfold ppns. rewrite fmap_cons. simpl. intros [->|Hin]%elem_of_cons; [done|]. specialize (C7 _ Hin).
    intros Hx. apply C7. rewrite !elem_of_app, elem_of_cons in *. tauto.
Qed.

(** What a page of a private file mapping holds. *)
Definition file_content (zero_from : option Z) (f : nat) (n v : Z) : Z → Z :=
  let c := read_page F f n in
  match zero_from with
  | Some z => if z <? v * PAGE_SIZE + PAGE_SIZE then zero_tail (saturating_sub z (v * PAGE_SIZE)) c else c
  | None => c
  end.

Lemma fill_ok a f l : ∀ w t m L n vpn,
  sp_ok w t m (ppns l ++ L) → NoDup (ppns l) → (∀ p, p ∈ ppns l → p ∉ held m ++ L) → l.*1 = seqZ vpn (Z.of_nat (length l)) →
  let w' := fill_frames F w a f n l in
  sp_ok w' t m (ppns l ++ L) ∧ (∀ T, stable t T (held m ++ L) w w') ∧ mm_free w' = mm_free w ∧
  (∀ v fr, (v, fr) ∈ l → mm_mem w' (f_ppn fr) = file_content (file_zero_from a) f (n + (v - vpn)) v) ∧
  ∀ p, p ∉ ppns l → mm_mem w' p = mm_mem w p.
Proof.
  induction l as [|[v fr] l IH]; intros w t m L n vpn Hs Hnd Hfr Hpg; cbn zeta; cbn [fill_frames].
  { split_and!; [done|intros; apply stable_refl|done|by intros ?? ?%not_elem_of_nil|done]. }
  unfold ppns in *. rewrite fmap_cons in *. cbn [snd fst] in *. apply NoDup_cons in Hnd as [Hn1 Hnd].
  simpl length in Hpg. rewrite Nat2Z.inj_succ in Hpg.
  rewrite (seqZ_cons vpn) in Hpg by lia. injection Hpg as -> Hpg.
  replace (Z.pred (Z.succ (Z.of_nat (length l)))) with (Z.of_nat (length l)) in Hpg by lia. replace (Z.succ vpn) with (vpn + 1) in Hpg by lia.
  set (c := match file_zero_from a with Some z => _ | None => _ end).
  assert (f_ppn fr ∈ held m ++ (f_ppn fr :: ((λ e, f_ppn e.2) <$> l)) ++ L) as Hin1 by (rewrite !elem_of_app, elem_of_cons; tauto).
  destruct (mm_store_spec w _ (f_ppn fr) c (sp_mm _ _ _ _ Hs) Hin1) as (Hok & Hmem & Hfree & Hoth & Htab & Hfind).
  destruct (sp_store w t m _ (f_ppn fr) c Hs Hin1) as (Hs1 & _ & _ & _ & S1).
  destruct (IH (mm_store w (f_ppn fr) c) t m (f_ppn fr :: L) (n + 1) (vpn + 1)) as (Hs' & S' & Hf' & Hc' & Ho').
  { eapply sp_ok_perm; [exact Hs1|]. solve_perm. }
  { done. }
  { intros p Hp Hx. apply (Hfr p); [by right|]. rewrite !elem_of_app, elem_of_cons in *. destruct Hx as [?|[->|?]]; [by left|done|by right]. }
  { done. }
  cbn zeta in *. split_and!.
  - eapply sp_ok_perm; [exact Hs'|]. solve_perm.
  - intros T. eapply (stable_trans _ T T); [| | | |apply (S1 T (held m ++ L)); apply Hfr; by left|apply S']; [done|done|done|].
    intros x. rewrite !elem_of_app, elem_of_cons. tauto.
  - by rewrite Hf'.
  - intros v' fr' Hin. apply elem_of_cons in Hin as [[= -> ->]|Hin].
    + rewrite (Ho' (f_ppn fr)) by done. rewrite Hmem, Z.sub_diag, Z.add_0_r. done.
    + rewrite (Hc' _ _ Hin). f_equal. lia.
  - intros p Hp. apply not_elem_of_cons in Hp as [Hp1 Hp2]. rewrite (Ho' p Hp2). by apply Hoth.
Qed.

Definition frame_in (l : list (Z * Frame)) (v : Z) : option Frame := (list_to_map l : gmap Z Frame) !! v.

Lemma map_frames_ok fl l : ∀ w t m L key a,
  sp_ok w t m (ppns l ++ L) → m !! key = Some a → map_type a ≠ Guard → NoDup l.*1 →
  (∀ v f, (v, f) ∈ l → inside a v ∧ data_frames a !! v = None ∧ f_size f = Page4K) →
  fl = map_perm a ∨ fl = Z.ldiff (map_perm a) W → 2 * Z.of_nat (length l) ≤ mm_free w →
  ∃ a' w', map_frames w t a fl Page4K l = Some (a', w') ∧ sp_ok w' t (<[key := a']> m) L ∧
    stable t (λ v, v ∈ l.*1) (held m ++ ppns l ++ L) w w' ∧ held (<[key := a']> m) ≡ₚ ppns l ++ held m ∧
    (∀ v f, (v, f) ∈ l → mm_find w' t v = Some (PTE_new (f_ppn f) (final_flags fl), Page4K)) ∧
    (∀ v, page_at (<[key := a']> m) v = match frame_in l v with Some f => with_frame (Some f) <$> page_at m v | None => page_at m v end) ∧
    mm_free w ≤ mm_free w' + 2 * Z.of_nat (length l).
Proof.
  induction l as [|[v0 f0] l IH]; intros w t m L key a Hs Hk Hg Hnd Hl Hfl Hfree; cbn [map_frames].
  { exists a, w. rewrite insert_id by done. split_and!; [done|done|apply stable_refl|done|by intros ?? ?%not_elem_of_nil|done|simpl; lia]. }
  rewrite fmap_cons in Hnd. apply NoDup_cons in Hnd as [Hn0 Hnd]. simpl in Hn0. simpl length in Hfree.
  destruct (Hl v0 f0 ltac:(by left)) as (Hin & Hab & Hsz).
  destruct (add_resident w t m (ppns l ++ L) key a v0 f0 fl Hs Hk Hin Hab Hg Hsz Hfl ltac:(lia)) as (w1 & Hmap & Hadd & Hs1 & S1 & Hh1 & Hfr1 & Hfind & Hv1).
  cbn zeta in *. rewrite Hmap. cbn [mbind option_bind]. rewrite Hadd. cbn [mbind option_bind].
  set (a1 := with_data_frames (<[v0 := f0]> (data_frames a)) a) in *. set (m1 := <[key := a1]> m) in *.
  destruct (IH w1 t m1 L key a1 Hs1) as (a' & w' & Hmf & Hs' & S' & Hh' & Hf' & Hv' & Hfr'); [apply lookup_insert_eq|done|done| |done|lia|].
  { intros v f Hvf. destruct (Hl v f ltac:(by right)) as (? & Habs & ?). split_and!; [done| |done]. simpl.
    rewrite lookup_insert_ne; [done|]. intros ->. apply Hn0. apply list_elem_of_fmap. by exists (v, f). }
  unfold m1 in Hs', Hh', Hv'. rewrite insert_insert_eq in Hs', Hh', Hv'. fold m1 in Hh', Hv'.
  exists a', w'. split_and!; [done|done| | | | |simpl length; lia].
  - eapply stable_trans; [| | | |exact S1|exact S'].
    + intros v ->. by left.
    + intros v Hv. by right.
    + done.
    + intros p. rewrite <-Hh1. unfold ppns. rewrite fmap_cons. simpl. rewrite !elem_of_app, !elem_of_cons, !elem_of_app. tauto.
  - rewrite Hh', <-Hh1. unfold ppns. rewrite fmap_cons. simpl. solve_perm.
  - intros v f Hvf. apply elem_of_cons in Hvf as [[= -> ->]|Hvf]; [|by apply Hf'].
    destruct (to_area _ (sp_tree _ _ _ _ Hs) _ _ Hk) as [_ Ha].
    rewrite (st_find _ _ _ _ _ S'); [done|by apply uvpn_top, inside_range with a|by right].
  - intros v. rewrite Hv', Hv1. unfold frame_in. simpl. destruct (decide (v = v0)) as [->|Hne].
    + rewrite lookup_insert_eq. by rewrite not_elem_of_list_to_map_1.
    + by rewrite lookup_insert_ne.
Qed.

(** A fault on a private file page: that page and some that follow become resident,
    each in a frame of its own with its page of the file. *)
Lemma fault_file_ok k ms L vpn o p f n :
  sp_ok (k_w k) (ms_table ms) (areas ms) L → page_at (areas ms) vpn = Some p → may_fault p → 0 ≤ o < PAGE_SIZE →
  pg_type p = File → pg_shared p || pg_cow p = false → pg_back p = Some (f, n) → 0 ≤ n → n * PAGE_SIZE ≤ USIZE_MAX →
  3 * READ_AHEAD_PAGES ≤ mm_free (k_w k) →
  ∃ l w' m', handle_page_fault F k ms (vpn * PAGE_SIZE + o) = Some (true, with_w w' k, with_areas m' ms) ∧
    sp_ok w' (ms_table ms) m' L ∧ stable (ms_table ms) (λ v, v ∈ l.*1) (held (areas ms) ++ L) (k_w k) w' ∧
    is_Some (frame_in l vpn) ∧ NoDup (ppns l) ∧
    (∀ v g, (v, g) ∈ l → vpn ≤ v < vpn + READ_AHEAD_PAGES ∧ (f_ppn g ∉ held (areas ms) ++ L) ∧ page_at (areas ms) v ≫= pg_frame = None ∧
       pg_back <$> page_at (areas ms) v = Some (Some (f, n + (v - vpn))) ∧
       (∀ i, mm_mem w' (f_ppn g) i = file_content (pg_zero p) f (n + (v - vpn)) v i) ∧
       mm_find w' (ms_table ms) v = Some (PTE_new (f_ppn g) (final_flags (pg_perm p)), Page4K)) ∧
    held m' ≡ₚ ppns l ++ held (areas ms) ∧
    (∀ v, page_at m' v = match frame_in l v with Some g => with_frame (Some g) <$> page_at (areas ms) v | None => page_at (areas ms) v end) ∧
    mm_free (k_w k) ≤ mm_free w' + 3 * READ_AHEAD_PAGES.
Proof.
  intros Hs Hp Hmay Ho Ht Hsc Hb Hn0 Hn Hfree.
  destruct (fault_enter k ms L vpn o p Hs Hp Hmay Ho) as (a & Hk & Hin & Ha & -> & ->).
  destruct Hmay as (Hg & _ & _ & Hf). simpl in Ht, Hsc, Hg, Hf.
  destruct (file_page_ok a vpn f n Hin Hb ltac:(unfold PAGE_SIZE in *; lia)) as (base & Hbf & Hneq & _).
  pose proof (ao_top _ Ha) as Htop. pose proof (ao_range _ Ha) as Har. unfold inside in Hin.
  unfold try_map_one. rewrite Ht, Hsc. unfold try_map_private_file_pages. rewrite Hbf.
  rewrite checked_add_Some by (unfold PAGE_SIZE in *; lia). cbn [mbind option_bind]. rewrite <-Hneq.
  unfold checked_mul. rewrite (proj2 (Z.leb_le _ _) Hn).
  set (cnt := Z.to_nat (Z.min READ_AHEAD_PAGES (get_end a - vpn))).
  assert (0 < Z.of_nat cnt ≤ READ_AHEAD_PAGES ∧ vpn + Z.of_nat cnt ≤ get_end a) as [Hcnt Hce] by (unfold cnt, READ_AHEAD_PAGES; lia).
  destruct (collect_ok cnt (k_w k) (ms_table ms) (areas ms) L vpn Hs ltac:(lia) ltac:(lia)) as (l & w1 & Hcol & [C1 C2 C3 C4 C5 C6 C7] & Hlen & Hne).
  rewrite Hcol. cbn [mbind option_bind]. specialize (Hne ltac:(lia) ltac:(unfold READ_AHEAD_PAGES in *; lia) ltac:(rewrite Hp; done)).
  destruct (fill_ok a f l w1 (ms_table ms) (areas ms) L n vpn C1 C6 C7 C4) as (Hs2 & S2 & Hfr2 & Hcont & _). cbn zeta in *.
  assert (∀ v g, (v, g) ∈ l → vpn ≤ v < vpn + Z.of_nat (length l)) as Hvr.
  { intros v g Hvg. assert (v ∈ l.*1) as Hv by (apply list_elem_of_fmap; by exists (v, g)). rewrite C4 in Hv. by apply elem_of_seqZ in Hv. }
  destruct (map_frames_ok (map_perm a) l (fill_frames F w1 a f n l) (ms_table ms) (areas ms) L (get_start a) a Hs2 Hk Hg) as (a' & w' & Hmf & Hs' & S3 & Hh & Hfind & Hv & Hfr3).
  { rewrite C4. apply NoDup_seqZ. }
  { intros v g Hvg. pose proof (Hvr _ _ Hvg). destruct (C5 _ _ Hvg) as [Hab Hsz].
    assert (inside a v) as Hiv by (unfold inside; lia). split_and!; [done| |done].
    by rewrite (page_at_area (areas ms) (get_start a) a) in Hab by (try done; apply Hs). }
  { by left. }
  { rewrite Hfr2. unfold READ_AHEAD_PAGES in *. lia. }
  destruct l as [|x l']; [done|]. rewrite Hmf. cbn [mbind option_bind]. set (l := x :: l') in *.
  exists l, w', (<[get_start a := a']> (areas ms)). split_and!; [done|done| | |exact C6| |exact Hh|exact Hv|unfold READ_AHEAD_PAGES in *; lia].
  - eapply (stable_trans _ (λ _, False) (λ v, v ∈ l.*1) _ _ (held (areas ms) ++ L)); [done|done|done|done|apply C2|].
    eapply (stable_trans _ (λ _, False) (λ v, v ∈ l.*1)); [done|done|done| |apply S2|exact S3].
    intros y. rewrite !elem_of_app. tauto.
  - assert (vpn ∈ l.*1) as Hvl.
    { rewrite C4. apply elem_of_seqZ. unfold l. simpl. lia. }
    destruct (frame_in l vpn) eqn:Hfi; [by eexists|]. unfold frame_in in Hfi. by apply not_elem_of_list_to_map_2 in Hfi.
  - intros v g Hvg. pose proof (Hvr _ _ Hvg). destruct (C5 _ _ Hvg) as [Hab _].
    assert (inside a v) as Hiv by (unfold inside; lia). split_and!; [lia|lia|apply C7; apply list_elem_of_fmap; by exists (v, g)|done| | |by apply Hfind].
    + rewrite (page_at_area (areas ms) (get_start a) a) by (try done; apply Hs). simpl. rewrite Hbf. simpl. do 3 f_equal. lia.
    + intros i. rewrite (st_mem _ _ _ _ _ S3), (Hcont _ _ Hvg); [done|]. rewrite !elem_of_app. right. left. apply list_elem_of_fmap. by exists (v, g).
Qed.
End fault.
