(* ===== verification/SpaceFork.v ===== *)
(** * Fork

    The child of a fork has the areas of its parent and shares all resident frames;
    no private page of either can be written before it has been copied. *)

From S2P Require Import Prelude Errno Address PageTable Mm BTree MapArea MemSet Space SpaceUnmap SpaceProtect SpaceMap SpaceFault.

Local Open Scope Z_scope.

Section fork.
Context {W_ : Type} `{!Mm W_} (F : FileOps W_).
Implicit Types (k : kmm W_) (w : W_) (t : nat) (ms : MemorySet) (m : gmap Z MapArea) (a : MapArea) (L : list Z).

(** ** One page *)

(** The flags of a resident page are written again. *)
Lemma set_page_flags w t m L vpn p f fl :
  sp_ok w t m L → page_at m vpn = Some p → pg_frame p = Some f → fl = pg_perm p ∨ fl = Z.ldiff (pg_perm p) W →
  ∃ w', pt_set_flags w t vpn fl = Some w' ∧ sp_ok w' t m L ∧ stable t (λ v, v = vpn) (held m ++ L) w w' ∧
    mm_find w' t vpn = Some (PTE_new (f_ppn f) (final_flags fl), Page4K) ∧ mm_free w' = mm_free w.
Proof.
  intros Hs Hp Hf Hfl. pose proof (sp_tree _ _ _ _ Hs) as Hm. pose proof (page_at_range _ _ _ Hm Hp) as Hr.
  destruct (find_resident _ _ _ _ _ _ _ Hs Hp Hf) as (e & He & Hpf).
  destruct (mm_set_entry_spec w _ t vpn (PTE_ppn e) fl e (sp_mm _ _ _ _ Hs) (sp_table _ _ _ _ Hs) (uvpn_top _ Hr) He) as (w' & Hw' & Hok & Hmem & Htab & Hfree & Hfu).
  exists w'. unfold pt_set_flags, pt_translate. rewrite He. cbn [fmap option_fmap option_map mbind option_bind fst].
  assert (mm_find w' t vpn = Some (PTE_new (f_ppn f) (final_flags fl), Page4K)) as Hfind.
  { rewrite Hfu by (by apply uvpn_top). by rewrite decide_True, (pf_ppn _ _ _ Hpf). }
  assert (stable t (λ v, v = vpn) (held m ++ L) w w') as S.
  { split; [done|done|]. intros t' v Hv Hne. rewrite Hfu by done. rewrite decide_False; naive_solver. }
  split_and!; [done| |done|done|done]. split; [done|done|by apply S, Hs|]. intros v Hvr. destruct (decide (v = vpn)) as [->|Hne].
  - rewrite Hp, Hfind. unfold pte_ok. simpl. rewrite Hf. eexists. split; [done|]. apply pte_for_new; [|by apply (page_perm_range m vpn)|done].
    by eapply pte_ppn_range.
  - rewrite (st_find _ _ _ _ _ S); [by apply Hs|by apply uvpn_top|by right].
Qed.

Lemma ro_flags perm p : 0 ≤ perm → writable (PTE_new p (final_flags (Z.ldiff perm W))) = false.
Proof. intros Hp. change writable with (has_flag (Z.shiftl 1 2)). rewrite has_flag_new by lia. cbn [Z.eqb orb]. by rewrite ldiff_W_bit, andb_false_r by lia. Qed.

Lemma plain_flags perm p : writable (PTE_new p (final_flags perm)) = Z.testbit perm 2.
Proof. change writable with (has_flag (Z.shiftl 1 2)). by rewrite has_flag_new by lia. Qed.

Section family.
Context (tp tc : nat) (mp : gmap Z MapArea) (L : list Z) (Hne : tp ≠ tc).

(** Parent and child; the pages of the child cannot be written by either, unless
    they are shared. *)
Record family w (mc : gmap Z MapArea) : Prop := {
  fa_parent : sp_ok w tp mp (held mc ++ L);
  fa_child : sp_ok w tc mc (held mp ++ L);
  fa_ro v p f : page_at mc v = Some p → pg_frame p = Some f → pg_shared p = false →
    (∀ e sz, mm_find w tp v = Some (e, sz) → writable e = false) ∧ (∀ e sz, mm_find w tc v = Some (e, sz) → writable e = false);
  fa_rw v p f : page_at mc v = Some p → pg_frame p = Some f → pg_shared p = true →
    ∀ e sz, mm_find w tc v = Some (e, sz) → writable e = Z.testbit (pg_perm p) 2;
}.

(** What a fork leaves alone. *)
Record far (H : list Z) (w w' : W_) : Prop := {
  far_mem : mem_same H (mm_mem w) (mm_mem w');
  far_table t : mm_table w t → mm_table w' t;
  far_find t v : uvpn v → (t ≠ tp ∧ t ≠ tc) ∨ user_top ≤ v → mm_find w' t v = mm_find w t v;
}.

Lemma far_trans H1 H2 w1 w2 w3 : H1 ⊆ H2 → far H1 w1 w2 → far H2 w2 w3 → far H1 w1 w3.
Proof.
  intros HH [M1 T1 F1] [M2 T2 F2]. split.
  - intros p i Hp. rewrite M2 by auto. by apply M1.
  - auto.
  - intros t v Hv Ht. rewrite F2, F1 by done. done.
Qed.

Lemma stable_far t (T : Z → Prop) H H' w w' :
  stable t T H w w' → t = tp ∨ t = tc → (∀ v, T v → v < user_top) → H' ⊆ H → far H' w w'.
Proof.
  intros [M S_ F_] Ht HT HH. split.
  - intros p i Hp. apply M. auto.
  - done.
  - intros t' v Hv Hx. apply F_; [done|]. destruct Hx as [[? ?]|Hx]; [left; destruct Ht; congruence|].
    right. intros Hv'. specialize (HT v Hv'). lia.
Qed.

Lemma fork_page_ok w mc key a d vpn f :
  family w mc → mp !! key = Some a → mc !! key = Some (with_data_frames d a) → map_type a ≠ Guard →
  data_frames a !! vpn = Some f → d !! vpn = None → 2 ≤ mm_free w →
  ∃ w', let ca' := with_data_frames (<[vpn := f]> d) a in let mc' := <[key := ca']> mc in
    fork_page w tp tc a (with_data_frames d a) vpn = Some (w', ca') ∧ family w' mc' ∧
    far (held mp ++ held mc ++ L) w w' ∧ mm_free w ≤ mm_free w' + 2.
Proof using Hne.
  intros Hfam Hk Hck Hg Hf Hd Hfree. pose proof (fa_parent _ _ Hfam) as Hp. pose proof (fa_child _ _ Hfam) as Hc.
  pose proof (sp_tree _ _ _ _ Hp) as Hmp. pose proof (sp_tree _ _ _ _ Hc) as Hmc.
  destruct (to_area _ Hmp _ _ Hk) as [Hks Ha]. destruct (ao_frames _ Ha _ _ Hf) as [Hin Hsz]. pose proof (inside_range _ _ Ha Hin) as Hr.
  assert (page_at mp vpn = Some (page_of a vpn)) as Hpv by (by apply page_at_area with key).
  destruct (find_resident _ _ _ _ _ _ _ Hp Hpv Hf) as (e & He & Hpf).
  set (cow := flags_contain (map_perm a) W && negb (is_shared a)). set (fl := if cow then Z.ldiff (map_perm a) W else map_perm a).
  assert (fl = map_perm a ∨ fl = Z.ldiff (map_perm a) W) as Hfl by (unfold fl; destruct cow; tauto).
  assert (f_ppn f ∈ held mc ++ held mp ++ L) as Hfin.
  { rewrite !elem_of_app. right. left. apply elem_of_held; [done|]. by exists vpn, (page_of a vpn), f. }
  destruct (sp_clone w tc mc _ (f_ppn f) Hc Hfin) as (Hc1 & Hm1 & Hf1 & Hfr1 & S1). set (w1 := mm_clone w (f_ppn f)) in *.
  destruct (add_resident w1 tc mc (held mp ++ L) key (with_data_frames d a) vpn f fl Hc1 Hck Hin Hd Hg Hsz Hfl ltac:(lia))
    as (w2 & Hmap & _ & Hc2 & S2 & Hh2 & Hfr2 & Hfind2 & Hv2). cbn zeta in *.
  change (with_data_frames (<[vpn := f]> (data_frames (with_data_frames d a))) (with_data_frames d a)) with (with_data_frames (<[vpn := f]> d) a) in *.
  set (ca' := with_data_frames (<[vpn := f]> d) a) in *. set (mc' := <[key := ca']> mc) in *.
  destruct (sp_clone w tp mp _ (f_ppn f) Hp ltac:(rewrite !elem_of_app in *; tauto)) as (Hp1 & _).
  assert (sp_ok w2 tp mp (held mc' ++ L)) as Hp2.
  { eapply (sp_ok_other w1 w2 tc _ tp mp _ (f_ppn f :: held mc ++ L)); [exact S2|done|exact Hp1|].
    eapply mm_ok_perm; [apply Hc2|]. solve_perm. }
  assert (∃ w3, (if cow then pt_set_flags w2 tp vpn fl else Some w2) = Some w3 ∧ sp_ok w3 tp mp (held mc' ++ L) ∧
    stable tp (λ v, v = vpn) (held mp ++ held mc' ++ L) w2 w3 ∧ mm_free w3 = mm_free w2 ∧
    mm_find w3 tp vpn = if cow then Some (PTE_new (f_ppn f) (final_flags fl), Page4K) else Some (e, Page4K)) as (w3 & Hw3 & Hp3 & S3 & Hfr3 & Hfind3).
  { destruct cow.
    - by destruct (set_page_flags w2 tp mp _ vpn (page_of a vpn) f fl Hp2 Hpv Hf Hfl) as (w3 & ? & ? & ? & ? & ?); exists w3.
    - exists w2. split_and!; [done|done|apply stable_refl|done|].
      rewrite (st_find _ _ _ _ _ S2); [by rewrite Hf1|by apply uvpn_top|by left]. }
  exists w3. cbn zeta. fold ca'. fold mc'. split_and!.
  - unfold fork_page, pt_translate. rewrite He, Hf. cbn [fmap option_fmap option_map fst].
    rewrite (pf_valid _ _ _ Hpf), (pf_ppn _ _ _ Hpf), Z.eqb_refl. cbn [negb orb]. fold cow. fold fl. fold w1.
    rewrite (ao_size _ Ha), Hmap. cbn [mbind option_bind]. rewrite Hw3. done.
  - assert (∀ t v, uvpn v → v ≠ vpn → mm_find w3 t v = mm_find w t v) as Hsame.
    { intros t v Hv Hvn. rewrite (st_find _ _ _ _ _ S3), (st_find _ _ _ _ _ S2), Hf1 by (try done; by right). done. }
    assert (mm_find w3 tc vpn = Some (PTE_new (f_ppn f) (final_flags fl), Page4K)) as Hfc.
    { rewrite (st_find _ _ _ _ _ S3); [done|by apply uvpn_top|by left]. }
    assert (page_at mc' vpn = Some (page_of a vpn)) as Hcp.
    { rewrite Hv2, decide_True, (page_at_area mc key (with_data_frames d a)) by done. simpl. f_equal. unfold page_of, with_frame. simpl. by rewrite Hf. }
    split; [done| | |].
    + eapply (sp_ok_other w2 w3 tp _ tc mc' _ (held mp ++ L)); [exact S3|done|exact Hc2|]. eapply mm_ok_perm; [apply Hp3|]. solve_perm.
    + intros v p g Hpg Hgf Hsh. destruct (decide (v = vpn)) as [->|Hvn].
      * rewrite Hcp in Hpg. injection Hpg as <-. simpl in Hsh. rewrite Hfc, Hfind3.
        assert (cow = Z.testbit (map_perm a) 2) as Hcw by (unfold cow; by rewrite Hsh, flags_contain_W, andb_true_r).
        assert (writable (PTE_new (f_ppn f) (final_flags fl)) = false) as Hro.
        { unfold fl. destruct cow; [apply ro_flags; apply Ha|by rewrite plain_flags]. }
        destruct cow; split; intros e' sz [= <- <-]; [done..| |done].
        destruct (writable e) eqn:Hwe; [|done]. apply (pf_write _ _ _ Hpf) in Hwe. change (pg_perm (page_of a vpn)) with (map_perm a) in Hwe. congruence.
      * rewrite Hv2, decide_False in Hpg by done. pose proof (uvpn_top _ (page_at_range _ _ _ Hmc Hpg)).
        rewrite !Hsame by done. by eapply (fa_ro _ _ Hfam).
    + intros v p g Hpg Hgf Hsh. destruct (decide (v = vpn)) as [->|Hvn].
      * rewrite Hcp in Hpg. injection Hpg as <-. simpl in Hsh |- *. rewrite Hfc. intros e' sz [= <- <-].
        unfold fl, cow. rewrite Hsh, andb_false_r. apply plain_flags.
      * rewrite Hv2, decide_False in Hpg by done. pose proof (uvpn_top _ (page_at_range _ _ _ Hmc Hpg)).
        rewrite Hsame by done. by eapply (fa_rw _ _ Hfam).
  - apply (far_trans _ (held mp ++ held mc ++ L) w w1 w3); [done| |].
    { eapply (stable_far tc (λ _, False)); [apply (S1 (λ _, False) (held mp ++ held mc ++ L))|by right|done|done]. }
    apply (far_trans _ (held mp ++ held mc ++ L) w1 w2 w3); [done| |].
    + eapply stable_far; [exact S2|by right|intros v ->; lia|]. intros x. rewrite !elem_of_app, elem_of_cons, elem_of_app. tauto.
    + eapply stable_far; [exact S3|by left|intros v ->; lia|]. intros x. rewrite !elem_of_app, <-Hh2, elem_of_cons. tauto.
  - lia.
Qed.

Lemma fork_pages_ok key a vpns : ∀ w mc d,
  family w mc → mp !! key = Some a → mc !! key = Some (with_data_frames d a) → map_type a ≠ Guard → NoDup vpns →
  (∀ v, v ∈ vpns → is_Some (data_frames a !! v) ∧ d !! v = None) → 2 * Z.of_nat (length vpns) ≤ mm_free w →
  ∃ w' d', let ca' := with_data_frames d' a in let mc' := <[key := ca']> mc in
    fork_pages w tp tc a (with_data_frames d a) vpns = Some (w', ca') ∧ family w' mc' ∧
    far (held mp ++ L) w w' ∧ mm_free w ≤ mm_free w' + 2 * Z.of_nat (length vpns) ∧
    ∀ v, d' !! v = if decide (v ∈ vpns) then data_frames a !! v else d !! v.
Proof using Hne.
  induction vpns as [|vpn vpns IH]; intros w mc d Hfam Hk Hck Hg Hnd Hin Hfree; cbn [fork_pages].
  { exists w, d. cbn zeta. rewrite insert_id by done. split_and!; [done|done|by split|simpl; lia|].
    intros v. by rewrite decide_False by apply not_elem_of_nil. }
  apply NoDup_cons in Hnd as [Hnin Hnd]. destruct (Hin vpn ltac:(by left)) as [[f Hf] Hd]. simpl length in Hfree.
  destruct (fork_page_ok w mc key a d vpn f Hfam Hk Hck Hg Hf Hd ltac:(lia)) as (w1 & Hfp & Hfam1 & Far1 & Hfr1). cbn zeta in *.
  rewrite Hfp. cbn [mbind option_bind].
  destruct (IH w1 (<[key := with_data_frames (<[vpn := f]> d) a]> mc) (<[vpn := f]> d) Hfam1 Hk) as (w' & d' & Hl & Hfam' & Far' & Hfr' & Hd');
    [apply lookup_insert_eq|done|done| |lia|].
  { intros v Hv. destruct (Hin v ltac:(by right)) as [? Hdv]. split; [done|]. rewrite lookup_insert_ne; [done|]. by intros ->. }
  cbn zeta in *. rewrite insert_insert_eq in Hfam'. exists w', d'. split_and!; [done|done| |simpl length; lia|].
  - eapply far_trans; [|eapply (far_trans _ _ w w w1); [|by split|exact Far1]|exact Far']; [done|].
    intros x. rewrite !elem_of_app. tauto.
  - intros v. rewrite Hd'. destruct (decide (v ∈ vpns)) as [Hv|Hv]; [by rewrite decide_True by (by right)|].
    destruct (decide (v = vpn)) as [->|Hvn].
    + by rewrite lookup_insert_eq, decide_True by (by left).
    + rewrite lookup_insert_ne, decide_False; [done| |done]. by rewrite elem_of_cons; intros [|].
Qed.

(** An area without frames comes into the child. *)
Lemma family_place w mc a :
  family w mc → area_ok a → data_frames a = ∅ → (∀ v, inside a v → page_at mc v = None) → family w (<[get_start a := a]> mc).
Proof.
  intros Hfam Ha Hd Hfree. destruct (place_ok w tc mc (held mp ++ L) a (fa_child _ _ Hfam) Ha Hd Hfree) as (Hc & Hh & Hv).
  assert (∀ v p f, page_at (<[get_start a := a]> mc) v = Some p → pg_frame p = Some f → page_at mc v = Some p) as Hback.
  { intros v p f. rewrite Hv. destruct (decide _); [|done]. intros [= <-]. simpl. by rewrite Hd. }
  split; [|done| |].
  - eapply sp_ok_perm; [apply Hfam|]. by rewrite Hh.
  - intros v p f Hp Hf. eapply (fa_ro _ _ Hfam); [by eapply Hback|done].
  - intros v p f Hp Hf. eapply (fa_rw _ _ Hfam); [by eapply Hback|done].
Qed.

Lemma with_same_frames a : with_data_frames (data_frames a) a = a.
Proof. by destruct a. Qed.

(** One area of the parent: the child has it too, with its frames. *)
Lemma fork_area_ok k child key a :
  family (k_w k) (areas child) → ms_table child = tc → mp !! key = Some a → areas child ⊆ mp → areas child !! key = None →
  2 * Z.of_nat (length (frames_of a)) ≤ mm_free (k_w k) →
  ∀ ms, ms_table ms = tp →
  ∃ w', fork_area F k ms child a = Some (with_w w' k, with_areas (<[key := a]> (areas child)) child) ∧
    family w' (<[key := a]> (areas child)) ∧ far (held mp ++ L) (k_w k) w' ∧
    mm_free (k_w k) ≤ mm_free w' + 2 * Z.of_nat (length (frames_of a)).
Proof using Hne.
  intros Hfam Htc Hk Hsub Hnone Hfree ms Htp. pose proof (sp_tree _ _ _ _ (fa_parent _ _ Hfam)) as Hmp.
  destruct (to_area _ Hmp _ _ Hk) as [-> Ha].
  assert (∀ v, inside a v → page_at (areas child) v = None) as Hno.
  { intros v Hv. apply page_at_None; [apply Hfam|]. intros k' b Hb Hbv.
    assert (mp !! k' = Some b) as Hbp by (by eapply lookup_weaken). pose proof (to_disjoint _ Hmp _ _ _ _ _ Hk Hbp Hv Hbv). congruence. }
  assert (area_ok (from_another a)) as Hfo by (apply area_frames_ok; [done|by intros ?? ?|done]).
  pose proof (family_place (k_w k) (areas child) (from_another a) Hfam Hfo eq_refl Hno) as Hfam0. change (get_start (from_another a)) with (get_start a) in Hfam0.
  assert (data_frames a = ∅ → ∃ w', Some (k, insert_area (from_another a) child) = Some (with_w w' k, with_areas (<[get_start a := a]> (areas child)) child) ∧
    family w' (<[get_start a := a]> (areas child)) ∧ far (held mp ++ L) (k_w k) w' ∧
    mm_free (k_w k) ≤ mm_free w' + 2 * Z.of_nat (length (frames_of a))) as Hempty.
  { intros Hd. exists (k_w k). assert (from_another a = a) as Hfa by (unfold from_another; rewrite <-Hd; apply with_same_frames).
    rewrite Hfa in Hfam0 |- *. unfold insert_area. split_and!; [|done|by split|lia]. do 2 f_equal. by destruct k. }
  assert (map_type a ≠ Guard → ∃ w', ('(w, child_area) ← fork_pages (k_w k) (ms_table ms) (ms_table child) a (from_another a)
        (filter (λ v, get_start a ≤ v < get_end a) (bt_keys (data_frames a))); Some (with_w w k, insert_area child_area child)) =
      Some (with_w w' k, with_areas (<[get_start a := a]> (areas child)) child) ∧
    family w' (<[get_start a := a]> (areas child)) ∧ far (held mp ++ L) (k_w k) w' ∧
    mm_free (k_w k) ≤ mm_free w' + 2 * Z.of_nat (length (frames_of a))) as Hpages.
  { intros Hg. rewrite filter_all by (apply Forall_forall; intros v [f Hf]%elem_of_bt_keys; by destruct (ao_frames _ Ha _ _ Hf)).
    assert (length (bt_keys (data_frames a)) = length (frames_of a)) as Hlen.
    { unfold bt_keys, frames_of. rewrite !length_fmap. by rewrite bt_entries_perm. }
    destruct (fork_pages_ok (get_start a) a (bt_keys (data_frames a)) (k_w k) _ ∅ Hfam0 Hk) as (w' & d' & Hl & Hfam' & Far' & Hfr' & Hd');
      [apply lookup_insert_eq|done|apply bt_keys_nodup|by intros v ?%elem_of_bt_keys|by rewrite Hlen|].
    cbn zeta in *. rewrite insert_insert_eq in Hfam'.
    assert (d' = data_frames a) as ->.
    { apply map_eq. intros v. rewrite Hd'. destruct (decide _) as [|Hn]; [done|]. rewrite lookup_empty.
      rewrite elem_of_bt_keys, <-eq_None_not_Some in Hn. by rewrite Hn. }
    rewrite with_same_frames in Hl, Hfam'. exists w'. rewrite Htp, Htc. unfold from_another. rewrite Hl. split_and!; [done|done|done|by rewrite <-Hlen]. }
  unfold fork_area. destruct (map_type a) eqn:Hty; try (destruct (ao_type _ Ha) as [Hx|[Hx|Hx]]; congruence).
  3: { apply Hempty, (ao_guard _ Ha Hty). }
  all: destruct (_ && bool_decide (data_frames a = ∅)) eqn:Hemp; [apply Hempty; by apply andb_true_iff in Hemp as [_ ?%bool_decide_eq_true]|].
  all: assert (is_frame_backed_mapping a = true) as -> by (unfold is_frame_backed_mapping; by rewrite Hty).
  all: by apply Hpages.
Qed.

Definition frame_count (l : list (Z * MapArea)) : Z := Z.of_nat (length (l ≫= λ e, frames_of e.2)).

Lemma fork_areas_ok rest : ∀ k child ms,
  family (k_w k) (areas child) → ms_table child = tc → ms_table ms = tp → areas child ⊆ mp → NoDup rest.*1 →
  (∀ key a, (key, a) ∈ rest → mp !! key = Some a ∧ areas child !! key = None) → 2 * frame_count rest ≤ mm_free (k_w k) →
  ∃ w' m', fork_areas F k ms child rest = Some (with_w w' k, with_areas m' child) ∧ family w' m' ∧ far (held mp ++ L) (k_w k) w' ∧
    ∀ key, m' !! key = if decide (key ∈ rest.*1) then mp !! key else areas child !! key.
Proof using Hne.
  induction rest as [|[key a] rest IH]; intros k child ms Hfam Htc Htp Hsub Hnd Hin Hfree; cbn [fork_areas].
  { exists (k_w k), (areas child). split_and!; [by destruct k, child|done|by split|].
    intros key. by rewrite decide_False by apply not_elem_of_nil. }
  rewrite fmap_cons in Hnd. apply NoDup_cons in Hnd as [Hnin Hnd]. simpl in Hnin. destruct (Hin key a ltac:(by left)) as [Hk Hno].
  unfold frame_count in Hfree. rewrite bind_cons, length_app in Hfree. simpl in Hfree.
  destruct (fork_area_ok k child key a Hfam Htc Hk Hsub Hno ltac:(lia) ms Htp) as (w1 & Hfa & Hfam1 & Far1 & Hfr1).
  rewrite Hfa. cbn [mbind option_bind].
  destruct (IH (with_w w1 k) (with_areas (<[key := a]> (areas child)) child) ms) as (w' & m' & Hl & Hfam' & Far' & Hm');
    [done|done|done|by apply insert_subseteq_l|done| |unfold frame_count; simpl; lia|].
  { intros key' b Hb. destruct (Hin key' b ltac:(by right)) as [? ?]. split; [done|]. simpl. rewrite lookup_insert_ne; [done|].
    intros ->. apply Hnin. apply list_elem_of_fmap. by exists (key', b). }
  exists w', m'. split_and!; [done|done|by eapply far_trans|]. intros key'. rewrite Hm'. simpl.
  destruct (decide (key' ∈ rest.*1)) as [Hx|Hx]; [by rewrite decide_True by (by right)|].
  destruct (decide (key' = key)) as [->|Hn].
  - by rewrite lookup_insert_eq, decide_True by (by left).
  - rewrite lookup_insert_ne, decide_False; [done| |done]. by rewrite elem_of_cons; intros [|].
Qed.
End family.

(** ** The whole fork *)

Lemma trampoline_page : VirtPageNum_of_addr (VirtAddr_from USER_TRAMPOLINE) = Some user_top.
Proof. by vm_compute. Qed.

(** An address space with the trampoline page and nothing below it. *)
Lemma new_user_ok k H st :
  mm_ok (k_w k) H → k_next_mm k ≠ 0 → std_page_offset (PhysAddr_from (Z.land st (usize_not CACHED_KERNEL_BASE))) = 0 → 3 ≤ mm_free (k_w k) →
  ∃ tc k1 k2, let ms := MkMs tc (k_next_mm k) ∅ 0 0 in
    new_bare k = Some (k1, ms) ∧ map_user_trampoline k1 ms st = Some k2 ∧
    mm_ok (k_w k2) H ∧ mem_same H (mm_mem (k_w k)) (mm_mem (k_w k2)) ∧ ¬ mm_table (k_w k) tc ∧ mm_table (k_w k2) tc ∧
    (∀ t, mm_table (k_w k) t → mm_table (k_w k2) t) ∧ (∀ v, 0 ≤ v < user_top → mm_find (k_w k2) tc v = None) ∧
    (∀ t v, uvpn v → mm_table (k_w k) t → mm_find (k_w k2) t v = mm_find (k_w k) t v) ∧
    mm_free (k_w k) ≤ mm_free (k_w k2) + 3 ∧ k_anon k2 = k_anon k ∧ k_log k2 = k_log k.
Proof.
  intros Hok Hid Hst Hfree. unfold new_bare.
  pose proof (mm_new_table_spec (k_w k) _ Hok) as Hnew. destruct (mm_new_table (k_w k)) as [[tc w1]|] eqn:Hnt; [|lia].
  destruct Hnew as (Hok1 & Hmem1 & Hno1 & Htc1 & Htab1 & Hemp1 & Hold1). pose proof (mm_new_free _ _ _ _ Hok Hnt) as Hfr1.
  cbn [mbind option_bind]. rewrite (proj2 (Z.eqb_neq _ _)) by done.
  assert (uvpn user_top) as Hut by (unfold uvpn, user_top; lia).
  exists tc, (MkK w1 (k_anon k) (k_log k) (k_next_map k) ((k_next_mm k + 1) mod 2 ^ 64)). cbn zeta. unfold map_user_trampoline. rewrite trampoline_page. cbn [mbind option_bind]. unfold PhysPageNum_of_addr.
  rewrite Hst. cbn [Z.eqb mbind option_bind k_w ms_table].
  match goal with |- context [mm_map w1 tc user_top ?p ?fl Page4K] =>
    pose proof (mm_map_spec w1 _ tc user_top p fl Hok1 Htc1 Hut (Hemp1 _ Hut)) as Hmap;
    pose proof (λ w2, mm_map_free w1 H tc user_top p fl w2) as Hmf;
    destruct (mm_map w1 tc user_top p fl Page4K) as [w2|]; [|lia]
  end.
  specialize (Hmf w2 Hok1 eq_refl). destruct Hmap as (Hok2 & Hmem2 & Htab2 & Hfu2). eexists. cbn [k_w k_anon k_log with_w].
  split_and!; [done|done|done| |done|by apply Htab2|by intros t ?%Htab1%Htab2| | |cbn; lia|done|done].
  - intros p i Hp. cbn. by rewrite Hmem2, Hmem1.
  - intros v Hv. cbn. rewrite Hfu2 by (by apply uvpn_top). rewrite decide_False by lia. by apply Hemp1, uvpn_top.
  - intros t v Hv Ht. cbn. rewrite Hfu2 by done. rewrite decide_False; [by apply Hold1|]. by intros [-> _].
Qed.

(** The child has the areas of the parent, and nothing private can be written. *)
Lemma fork_ok k ms L st :
  sp_ok (k_w k) (ms_table ms) (areas ms) L → k_next_mm k ≠ 0 →
  std_page_offset (PhysAddr_from (Z.land st (usize_not CACHED_KERNEL_BASE))) = 0 →
  2 * Z.of_nat (length (held (areas ms))) + 3 ≤ mm_free (k_w k) →
  ∃ k' tc, from_existed_user F k ms st = Some (k', MkMs tc (k_next_mm k) (areas ms) (brk ms) (start_brk ms)) ∧
    ms_table ms ≠ tc ∧ ¬ mm_table (k_w k) tc ∧ family (ms_table ms) tc (areas ms) L (k_w k') (areas ms) ∧
    mem_same (held (areas ms) ++ L) (mm_mem (k_w k)) (mm_mem (k_w k')) ∧
    (∀ t v, uvpn v → mm_table (k_w k) t → t ≠ ms_table ms → mm_find (k_w k') t v = mm_find (k_w k) t v) ∧
    (∀ t, mm_table (k_w k) t → mm_table (k_w k') t) ∧ k_anon k' = k_anon k ∧ k_log k' = k_log k.
Proof.
  intros Hs Hid Hst Hfree. pose proof (sp_tree _ _ _ _ Hs) as Hm.
  destruct (new_user_ok k (held (areas ms) ++ L) st (sp_mm _ _ _ _ Hs) Hid Hst ltac:(lia))
    as (tc & k1 & k2 & Hnb & Htr & Hok2 & Hmem2 & Hno & Htc & Htab2 & Hemp2 & Hold2 & Hfr & Han2 & Hlog2). cbn zeta in *.
  unfold from_existed_user. rewrite Hnb. cbn [mbind option_bind]. rewrite Htr. cbn [mbind option_bind].
  assert (ms_table ms ≠ tc) as Hne by (intros <-; by apply Hno, Hs).
  assert (tree_ok ∅) as Hte by (split; intros *; rewrite lookup_empty; done).
  assert (family (ms_table ms) tc (areas ms) L (k_w k2) ∅) as Hfam.
  { split; [| |by intros ???|by intros ???].
    - split; [done|done|by apply Htab2, Hs|]. intros v Hv. rewrite Hold2; [by apply Hs|by apply uvpn_top|apply Hs].
    - split; [done|done|done|]. intros v Hv. by rewrite Hemp2. }
  destruct (fork_areas_ok (ms_table ms) tc (areas ms) L Hne (bt_entries (areas ms)) k2 (MkMs tc (k_next_mm k) ∅ 0 0) ms Hfam)
    as (w' & m' & Hl & Hfam' & Far & Hm'); [done|done|apply map_empty_subseteq|apply bt_keys_nodup| | |].
  { intros key a Hin%elem_of_entries. done. }
  { unfold frame_count. rewrite bt_entries_perm. fold (held (areas ms)). lia. }
  assert (m' = areas ms) as ->.
  { apply map_eq. intros key. rewrite Hm'. destruct (decide _) as [|Hn]; [done|]. simpl. rewrite lookup_empty.
    assert (key ∉ bt_keys (areas ms)) as Hk by done. rewrite elem_of_bt_keys, <-eq_None_not_Some in Hk. done. }
  rewrite Hl. cbn [mbind option_bind]. eexists _, tc. split_and!; [done|done|done|done| | | |done|done].
  - intros p i Hp. simpl. rewrite (far_mem _ _ _ _ _ Far) by done. by apply Hmem2.
  - intros t v Hv Ht Htn. simpl. rewrite (far_find _ _ _ _ _ Far); [by apply Hold2|done|]. left. split; [done|]. by intros ->.
  - intros t Ht. by apply (far_table _ _ _ _ _ Far), Htab2.
Qed.

(** Both sides are isolated. *)
Lemma family_isolated tp tc m L w :
  family tp tc m L w m → isolated w tp m (held m ++ L) ∧ isolated w tc m (held m ++ L).
Proof.
  intros Hf. split; intros v p f e Hp Hfr Hsh He Hw; destruct (fa_ro _ _ _ _ _ _ Hf v p f Hp Hfr Hsh) as [H1 H2].
  - by rewrite (H1 _ _ He) in Hw.
  - by rewrite (H2 _ _ He) in Hw.
Qed.
End fork.
