(* ===== verification/SpaceMove.v ===== *)
(** * Moving and growing areas ([mremap])

    A private anonymous area moves with its frames: the pages keep their attributes
    and contents at the new place, and the old place is free. *)

From S2P Require Import Prelude Errno Address PageTable Mm BTree MapArea MemSet Space SpaceUnmap SpaceProtect SpaceMap SpaceFault.

Local Open Scope Z_scope.

Section move.
Context {W_ : Type} `{!Mm W_} (F : FileOps W_).
Implicit Types (k : kmm W_) (w : W_) (t : nat) (ms : MemorySet) (m : gmap Z MapArea) (a : MapArea) (L : list Z).

Lemma translate_vpn_ok os oe ns ne v :
  os ≤ v < oe → 0 ≤ ns + (v - os) < ne → ne ≤ 2 ^ 26 → translate_vpn os oe ns ne v = inr (v + (ns - os)).
Proof.
  intros Hv Hn Hne. unfold translate_vpn, checked_sub. rewrite (proj2 (Z.leb_le _ _)) by lia.
  rewrite checked_add_Some by (unfold USIZE_MAX; lia). rewrite (proj2 (Z.ltb_ge _ _)), !(proj2 (Z.leb_gt _ _)) by lia. cbn [orb]. f_equal. lia.
Qed.

(** Each entry of the list can move by [δ]. *)
Definition movable w t (δ : Z) (l : list (Z * Frame)) : Prop :=
  ∀ v f, (v, f) ∈ l → uvpn v ∧ uvpn (v + δ) ∧ mm_find w t (v + δ) = None ∧ (v + δ ∉ l.*1) ∧
    ∃ e, mm_find w t v = Some (e, Page4K) ∧ is_valid e = true ∧ PTE_ppn e = f_ppn f.

Lemma validate_ok w t tr δ l0 l :
  movable w t δ l0 → (∀ x, x ∈ l → x ∈ l0) → (∀ v f, (v, f) ∈ l → tr v = inr (v + δ)) → validate_loop w t tr l = inr ().
Proof.
  intros Hmv. induction l as [|[v f] l IH]; intros Hsub Htr; cbn [validate_loop]; [done|].
  rewrite (Htr v f) by (by left). destruct (Hmv v f) as (_ & _ & Hnew & _ & e & He & Hval & Hppn); [apply Hsub; by left|].
  rewrite He, Hval, Hppn, Z.eqb_refl. rewrite bool_decide_true by done. unfold pt_valid, pt_translate. rewrite Hnew. cbn [negb orb fmap option_fmap option_map from_option].
  apply IH; [intros x Hx; apply Hsub; by right|intros v' f' Hx; apply (Htr v' f'); by right].
Qed.

Lemma move_loop_ok t tr δ H l : ∀ w,
  mm_ok w H → mm_table w t → NoDup l.*1 → movable w t δ l → (∀ v f, (v, f) ∈ l → tr v = inr (v + δ)) →
  2 * Z.of_nat (length l) ≤ mm_free w →
  ∃ w', move_loop w t tr l = Some (inr (), w') ∧ mm_ok w' H ∧ mem_same H (mm_mem w) (mm_mem w') ∧
    (∀ t', mm_table w t' → mm_table w' t') ∧
    ∀ t' v, uvpn v → mm_find w' t' v =
      if decide (t' = t ∧ v ∈ l.*1) then None
      else if decide (t' = t ∧ v - δ ∈ l.*1) then mm_find w t (v - δ) else mm_find w t' v.
Proof.
  induction l as [|[v f] l IH]; intros w Hok Ht Hnd Hmv Htr Hfree; cbn [move_loop].
  { exists w. split_and!; [done|done|done|done|]. intros t' x Hx. by rewrite !decide_False by (intros [_ ?%not_elem_of_nil]; done). }
  rewrite fmap_cons in *. apply NoDup_cons in Hnd as [Hnin Hnd]. cbn [fst] in *. simpl length in Hfree.
  rewrite (Htr v f) by (by left). destruct (Hmv v f ltac:(by left)) as (Hu & Hu' & Hnew & Hout & e & He & Hval & Hppn).
  assert (v + δ ≠ v ∧ v + δ ∉ l.*1) as [Hδ Hout'] by (rewrite fmap_cons, not_elem_of_cons in Hout; tauto).
  pose proof (mm_move_entry_spec w H t v (v + δ) e Hok Ht Hu Hu' ltac:(lia) He Hval Hnew) as Hspec.
  destruct (mm_move_entry w t v (v + δ) Page4K) as [[r w1]|] eqn:Hme; [|lia]. destruct Hspec as (-> & Hok1 & Hmem1 & Htab1 & Hf1).
  pose proof (mm_move_free _ _ _ _ _ _ _ Hok Hme) as Hfr1. cbn [mbind option_bind].
  assert (∀ x g, (x, g) ∈ l → x ≠ v ∧ x ≠ v + δ ∧ x + δ ≠ v) as Hother.
  { intros x g Hx. destruct (Hmv x g ltac:(by right)) as (_ & _ & _ & Hxo & _). rewrite fmap_cons, not_elem_of_cons in Hxo. simpl in Hxo.
    assert (x ∈ l.*1) as Hxl by (apply list_elem_of_fmap; by exists (x, g)). split_and!; [by intros ->|by intros ->|tauto]. }
  destruct (IH w1 Hok1 (Htab1 _ Ht) Hnd) as (w' & Hl & Hok' & Hmem' & Htab' & Hf').
  { intros x g Hx. destruct (Hmv x g ltac:(by right)) as (Hxu & Hxu' & Hxn & Hxo & e' & He' & ? & ?). destruct (Hother x g Hx) as (Hx1 & Hx2 & Hx3).
    rewrite fmap_cons, not_elem_of_cons in Hxo. simpl in Hxo. split_and!; [done|done| |tauto|].
    - rewrite Hf1 by done. rewrite !decide_False by (intros [_ ?]; lia). done.
    - exists e'. rewrite Hf1 by done. rewrite !decide_False by (intros [_ ?]; lia). done. }
  { intros x g Hx. apply (Htr x g). by right. }
  { lia. }
  exists w'. split_and!; [done|done| |auto|].
  - intros p i Hp. rewrite Hmem', Hmem1 by done. done.
  - intros t' x Hx. rewrite Hf' by done. destruct (decide (t' = t)) as [->|Hne].
    2: { rewrite !(decide_False (P := _ ∧ _)) by tauto. rewrite Hf1 by done. by rewrite !decide_False by tauto. }
    assert (∀ y, t = t ∧ y ∈ v :: l.*1 ↔ y = v ∨ y ∈ l.*1) as Hc by (intros y; rewrite elem_of_cons; tauto).
    destruct (decide (x ∈ l.*1)) as [Hxl|Hxl].
    { rewrite !decide_True; [done|by apply Hc; right|done]. }
    rewrite (decide_False (P := t = t ∧ x ∈ l.*1)) by tauto. destruct (decide (x = v)) as [->|Hxv].
    { rewrite (decide_True (P := t = t ∧ v ∈ v :: l.*1)) by (apply Hc; by left). rewrite decide_False.
      - rewrite Hf1 by done. by rewrite decide_True.
      - intros [_ Hin]. apply list_elem_of_fmap in Hin as ([y g] & Hy & Hyl). simpl in Hy. destruct (Hother y g Hyl) as (_ & _ & Ho). lia. }
    rewrite (decide_False (P := t = t ∧ x ∈ v :: l.*1)) by (rewrite Hc; tauto).
    destruct (decide (x - δ ∈ l.*1)) as [Hd|Hd].
    { rewrite (decide_True (P := t = t ∧ x - δ ∈ l.*1)), (decide_True (P := t = t ∧ x - δ ∈ v :: l.*1)) by (rewrite ?Hc; tauto).
      apply list_elem_of_fmap in Hd as ([y g] & Hy & Hyl). simpl in Hy. subst y. destruct (Hmv (x - δ) g ltac:(by right)) as (Hyu & _).
      destruct (Hother (x - δ) g Hyl) as (Hx1 & Hx2 & _). rewrite Hf1 by done. by rewrite !decide_False by (intros [_ ?]; lia). }
    rewrite (decide_False (P := t = t ∧ x - δ ∈ l.*1)) by tauto. rewrite Hf1 by done.
    rewrite (decide_False (P := t = t ∧ x = v)) by tauto. destruct (decide (x = v + δ)) as [->|Hn].
    + rewrite decide_True by done. rewrite decide_True by (apply Hc; left; lia). by replace (v + δ - δ) with v by lia.
    + rewrite decide_False by tauto. rewrite decide_False; [done|]. rewrite Hc. intros [?|?]; [lia|done].
Qed.

Lemma move_frames_ok tr δ l : ∀ d,
  NoDup l.*1 → (∀ v f, (v, f) ∈ l → tr v = inr (v + δ) ∧ d !! (v + δ) = None) →
  ∃ d', move_frames tr l d = Some (inr d') ∧
    (∀ v f, (v, f) ∈ l → d' !! (v + δ) = Some f) ∧ (∀ x, x - δ ∉ l.*1 → d' !! x = d !! x) ∧
    map_to_list d' ≡ₚ ((λ e, (e.1 + δ, e.2)) <$> l) ++ map_to_list d.
Proof.
  induction l as [|[v f] l IH]; intros d Hnd Hl; cbn [move_frames].
  { exists d. split_and!; [done|by intros ?? ?%not_elem_of_nil|done|done]. }
  rewrite fmap_cons in Hnd. apply NoDup_cons in Hnd as [Hnin Hnd]. simpl in Hnin.
  destruct (Hl v f ltac:(by left)) as [-> Hd]. rewrite Hd.
  destruct (IH (<[v + δ := f]> d) Hnd) as (d' & Hm & Hin & Hout & Hperm).
  { intros x g Hx. destruct (Hl x g ltac:(by right)) as [? ?]. split; [done|]. rewrite lookup_insert_ne; [done|].
    intros Heq. apply Hnin. apply list_elem_of_fmap. exists (x, g). split; [simpl; lia|done]. }
  exists d'. split_and!; [done| | |].
  - intros x g Hx. apply elem_of_cons in Hx as [[= -> ->]|Hx]; [|by apply Hin]. rewrite Hout; [apply lookup_insert_eq|].
    by replace (v + δ - δ) with v by lia.
  - intros x Hx. rewrite fmap_cons, not_elem_of_cons in Hx. simpl in Hx. destruct Hx as [Hx1 Hx2]. rewrite Hout by done.
    apply lookup_insert_ne. lia.
  - rewrite Hperm, (map_to_list_insert d _ f Hd), fmap_cons. simpl. solve_perm.
Qed.

Lemma aligned_pages s n : (PAGE_SIZE | s) → last_page (s + n) = first_page s + last_page n.
Proof.
  intros [x ->]. unfold last_page, first_page, PAGE_SIZE. rewrite Z.div_mul by lia.
  replace (x * 0x1000 + n + 0x1000 - 1) with (n + 0x1000 - 1 + x * 0x1000) by lia. rewrite Z.div_add by lia. lia.
Qed.

Lemma last_page_mono x y : x ≤ y → last_page x ≤ last_page y.
Proof. intros Hxy. unfold last_page, PAGE_SIZE. apply Z.div_le_mono; lia. Qed.

(** The tree after the move: the area [a] by [δ] pages, with a new end. *)
Lemma tree_move m key a d δ ne :
  tree_ok m → m !! key = Some a → map_type a = Framed → backing_file a = None →
  let a' := with_range (MkRange (get_start a + δ) ne) (with_data_frames d a) in
  0 ≤ get_start a + δ → get_end a + δ ≤ ne → ne ≤ user_top →
  (∀ v, d !! v = data_frames a !! (v - δ)) → (∀ v, get_start a + δ ≤ v < ne → page_at m v = None) →
  let m' := <[get_start a + δ := a']> (delete key m) in
  (delete key m) !! (get_start a + δ) = None ∧ tree_ok m' ∧
  ∀ v, page_at m' v = if decide (get_start a + δ ≤ v < ne)
    then Some (with_frame (data_frames a !! (v - δ)) (page_of a (v - δ))) else if decide (inside a v) then None else page_at m v.
Proof.
  intros Hm Hk Hty Hb a' H0 He Htop Hd Hfree m'. destruct (to_area _ Hm _ _ Hk) as [-> Ha]. pose proof (ao_range _ Ha) as Har.
  destruct (tree_delete m (get_start a) a Hm Hk) as [Hmd Hvd].
  assert (area_ok a') as Ha'.
  { split; unfold a'; simpl; try apply Ha; unfold get_start, get_end; simpl; [unfold get_start, get_end in *; lia|done| |by rewrite Hty].
    intros v f. rewrite Hd. intros [Hin Hsz]%(ao_frames _ Ha). split; [|done]. unfold inside, get_start, get_end in *. simpl. lia. }
  destruct (tree_insert (delete (get_start a) m) a' Hmd Ha') as (Hn & Ht & Hv).
  { intros v Hin. rewrite Hvd. destruct (decide _); [done|]. by apply Hfree. }
  split_and!; [done|done|]. intros v. unfold m'. change (get_start a + δ) with (get_start a') at 1. rewrite Hv, Hvd.
  change (inside a' v) with (get_start a + δ ≤ v < ne).
  destruct (decide (inside a' v)) as [Hx|Hx], (decide (get_start a + δ ≤ v < ne)) as [Hy|Hy]; try done.
  f_equal. unfold page_of, with_frame, a'. simpl. rewrite Hb. simpl. by rewrite Hd.
Qed.

Lemma mremap_move_ok k ms L old_addr old_size new_size a :
  sp_ok (k_w k) (ms_table ms) (areas ms) L → user_range old_addr old_size → (PAGE_SIZE | old_addr) →
  old_size ≤ new_size ≤ 2 ^ 38 → (PAGE_SIZE | new_size) →
  areas ms !! first_page old_addr = Some a → get_end a = last_page (old_addr + old_size) →
  map_type a = Framed → is_shared a = false → backing_file a = None → anonymous_shared_frames a = None →
  2 * Z.of_nat (length (frames_of a)) ≤ mm_free (k_w k) →
  ∃ r k' ms', mremap_move_private_anon k ms old_addr old_size new_size = Some (r, k', ms') ∧
    match r with
    | inl e => e = ENOMEM ∧ k' = k ∧ ms' = ms ∧ ∀ x, search_base ≤ x → free_range (areas ms) x new_size → USER_APP_MAX_SIZE ≤ x + new_size
    | inr new_addr => user_range new_addr new_size ∧ free_range (areas ms) new_addr new_size ∧ ms' = with_areas (areas ms') ms ∧ k' = with_w (k_w k') k ∧
        sp_ok (k_w k') (ms_table ms) (areas ms') L ∧ held (areas ms') ≡ₚ held (areas ms) ∧
        stable (ms_table ms) (λ v, inside a v ∨ first_page new_addr ≤ v < last_page (new_addr + new_size))
          (held (areas ms) ++ L) (k_w k) (k_w k') ∧
        let δ := first_page new_addr - first_page old_addr in
        (∀ v, inside a v → mm_find (k_w k') (ms_table ms) (v + δ) = mm_find (k_w k) (ms_table ms) v) ∧
        ∀ v, page_at (areas ms') v = if decide (first_page new_addr ≤ v < last_page (new_addr + new_size))
          then Some (with_frame (data_frames a !! (v - δ)) (page_of a (v - δ)))
          else if decide (inside a v) then None else page_at (areas ms) v
    end.
Proof.
  intros Hs Hr Hal Hns Haln Hk He Hty Hsh Hbf Han Hfree. pose proof (sp_tree _ _ _ _ Hs) as Hm.
  destruct (to_area _ Hm _ _ Hk) as [Hst Ha]. destruct (user_range_ok _ _ Hr) as (Hadd & Hfl & Hce). destruct Hr as (Hr0 & Hr1 & Hr2).
  unfold mremap_move_private_anon. rewrite (proj2 (Z.eqb_neq _ _)), (proj2 (Z.ltb_ge _ _)) by lia. cbn [orb].
  rewrite Hadd, Hfl, Hce. cbn [mbind option_bind]. rewrite Hk.
  destruct (find_free_ok (areas ms) new_size Hm ltac:(lia)) as (r & Hfind & Hspec). rewrite Hfind. cbn [mbind option_bind].
  destruct r as [na|]; [|exists (inl ENOMEM), k, ms; by split_and!].
  destruct Hspec as (Hb & Hnal & Hlt & Hfr & _).
  assert (user_range na new_size) as Hur by (destruct (whole_pages_range (areas ms) new_size Hm ltac:(lia) Haln) as [(_ & _ & Hx)|[? _]]; [apply placed_range; [done|lia|by apply Hx]|done]).
  destruct (user_range_ok _ _ Hur) as (Hadd' & Hfl' & Hce'). destruct (user_range_pages _ _ Hur) as [Hnp Hntop].
  rewrite Hadd', Hfl', Hce'. cbn [mbind option_bind]. rewrite He, Hty, (ao_size _ Ha), Hsh, Hbf, Han, <-Hst.
  rewrite !Z.eqb_refl. cbn [negb orb bool_decide]. rewrite !bool_decide_true by done. cbn [negb orb].
  set (os := first_page old_addr) in *. set (oe := last_page (old_addr + old_size)) in *. set (ns := first_page na) in *. set (ne := last_page (na + new_size)) in *.
  set (tr := translate_vpn os oe ns ne). set (δ := ns - os).
  assert (oe - os ≤ ne - ns) as Hlen.
  { unfold oe, os, ne, ns. rewrite !aligned_pages by done. pose proof (last_page_mono old_size new_size ltac:(lia)). lia. }
  assert (∀ v f, (v, f) ∈ bt_entries (data_frames a) → data_frames a !! v = Some f ∧ inside a v) as Hres.
  { intros v f Hin%elem_of_entries. split; [done|]. by destruct (ao_frames _ Ha _ _ Hin). }
  assert (∀ v, inside a v → os ≤ v < oe ∧ ns ≤ v + δ < ne) as Hins by (intros v; unfold inside, δ; lia).
  assert (∀ v f, (v, f) ∈ bt_entries (data_frames a) → tr v = inr (v + δ)) as Htr.
  { intros v f [_ [? ?]%Hins]%Hres. unfold tr, δ. apply translate_vpn_ok; [done|unfold δ in *; lia|unfold user_top in Hntop; lia]. }
  assert (∀ v, ns ≤ v < ne → page_at (areas ms) v = None) as Hnone by (intros v Hv; by apply Hfr).
  assert (movable (k_w k) (ms_table ms) δ (bt_entries (data_frames a))) as Hmv.
  { intros v f Hvf. destruct (Hres _ _ Hvf) as [Hf Hin]. destruct (Hins v Hin) as [H1 H2].
    assert (0 ≤ v + δ < user_top) as Hr' by lia. split_and!.
    - by apply uvpn_top, inside_range with a.
    - by apply uvpn_top.
    - apply (find_absent _ _ _ _ _ Hs Hr'). by rewrite Hnone.
    - intros ([x g] & Hx & Hxl)%list_elem_of_fmap. simpl in Hx. destruct (Hres _ _ Hxl) as [_ Hxin]. specialize (Hnone _ H2).
      rewrite Hx, (page_at_area _ os a) in Hnone by done. done.
    - destruct (find_resident _ _ _ _ v (page_of a v) f Hs (page_at_area _ os a v Hm Hk Hin) Hf) as (e & Hfe & Hpf).
      exists e. split_and!; [done|apply Hpf|apply Hpf]. }
  rewrite (validate_ok _ _ tr δ (bt_entries (data_frames a)) _ Hmv) by (try done; exact Htr).
  assert (length (bt_entries (data_frames a)) = length (frames_of a)) as Hlf.
  { unfold frames_of. rewrite length_fmap. by rewrite bt_entries_perm. }
  destruct (move_loop_ok (ms_table ms) tr δ (held (areas ms) ++ L) (bt_entries (data_frames a)) (k_w k) (sp_mm _ _ _ _ Hs) (sp_table _ _ _ _ Hs)
    (bt_keys_nodup _) Hmv Htr ltac:(by rewrite Hlf)) as (w' & Hl & Hok' & Hmem' & Htab' & Hf').
  rewrite Hl. cbn [mbind option_bind].
  destruct (move_frames_ok tr δ (bt_entries (data_frames a)) ∅ (bt_keys_nodup _)) as (d & Hmf & Hdin & Hdout & Hdp).
  { intros v f Hvf. split; [by eapply Htr|apply lookup_empty]. }
  rewrite Hmf. cbn [mbind option_bind]. unfold SimpleRange_new. rewrite (proj2 (Z.leb_le ns ne)) by lia. cbn [mbind option_bind].
  assert (∀ v, d !! v = data_frames a !! (v - δ)) as Hd.
  { intros v. destruct (data_frames a !! (v - δ)) as [f|] eqn:Hv.
    - replace v with (v - δ + δ) by lia. apply Hdin. by apply elem_of_entries.
    - rewrite Hdout; [apply lookup_empty|]. change ((bt_entries (data_frames a)).*1) with (bt_keys (data_frames a)).
      rewrite elem_of_bt_keys, Hv. by intros [? ?]. }
  assert (get_start a + δ = ns) as Hsd by (unfold δ; lia).
  destruct (tree_move (areas ms) os a d δ ne Hm Hk Hty Hbf ltac:(lia) ltac:(unfold δ; lia) Hntop Hd) as (Hdel & Ht & Hv); [by rewrite Hsd|].
  rewrite Hsd in Hdel, Ht, Hv. rewrite Hdel. set (a' := with_range _ _) in *.
  assert (frames_of a' ≡ₚ frames_of a) as Hfa.
  { unfold frames_of, a'. simpl. rewrite Hdp, map_to_list_empty, app_nil_r, <-list_fmap_compose. rewrite <-bt_entries_perm. done. }
  assert (held (<[ns := a']> (delete os (areas ms))) ≡ₚ held (areas ms)) as Hh.
  { rewrite held_insert by done. rewrite Hfa. by rewrite <-held_delete. }
  assert (∀ v, v ∈ (bt_entries (data_frames a)).*1 ↔ is_Some (data_frames a !! v)) as Hkeys by (intros v; apply elem_of_bt_keys).
  assert (∀ v, is_Some (data_frames a !! v) → inside a v) as Hki by (intros v [f Hf]; by destruct (ao_frames _ Ha _ _ Hf)).
  assert (∀ v, ns ≤ v < ne → ¬ inside a v) as Hdis.
  { intros v Hx Hin. specialize (Hnone v Hx). by rewrite (page_at_area _ os a) in Hnone. }
  eexists (inr na), _, _. split; [done|]. split; [done|]. split; [done|]. do 2 (split; [done|]). split; [|split; [done|split; [|split; [|exact Hv]]]].
  - split; [exact Ht|eapply mm_ok_perm; [exact Hok'|]; by rewrite Hh|by apply Htab', Hs|]. intros v Hvr. cbn [areas with_areas k_w with_w].
    rewrite Hv, Hf' by (by apply uvpn_top). destruct (decide (ns ≤ v < ne)) as [Hx|Hx].
    + rewrite decide_False by (rewrite Hkeys; intros [_ ?%Hki]; by apply (Hdis v)).
      destruct (data_frames a !! (v - δ)) as [f|] eqn:Hf.
      * rewrite decide_True by (rewrite Hkeys, Hf; by split). pose proof (Hki (v - δ) ltac:(by rewrite Hf)) as Hin.
        pose proof (sp_pte _ _ _ _ Hs (v - δ) (inside_range _ _ Ha Hin)) as Hp. rewrite (page_at_area _ os a) in Hp by done.
        unfold pte_ok in *. simpl in *. by rewrite Hf in Hp.
      * rewrite decide_False by (rewrite Hkeys, Hf; intros [_ [? ?]]; done). unfold pte_ok. simpl. apply (find_absent _ _ _ _ _ Hs Hvr). by rewrite Hnone.
    + rewrite (decide_False (P := _ ∧ v - δ ∈ _)) by (rewrite Hkeys; intros [_ ?%Hki%Hins]; unfold δ in *; lia).
      destruct (decide (inside a v)) as [Hin|Hin].
      * unfold pte_ok. simpl. destruct (decide _) as [|Hn]; [done|]. apply (find_absent _ _ _ _ _ Hs Hvr).
        rewrite (page_at_area _ os a) by done. simpl. rewrite Hkeys in Hn. apply eq_None_not_Some. tauto.
      * rewrite decide_False by (rewrite Hkeys; intros [_ ?%Hki]; done). by apply Hs.
  - split; [done|done|]. intros t v Hu Htn. cbn [k_w with_w]. rewrite Hf' by done. rewrite !decide_False; [done| |]; rewrite Hkeys; intros [-> ?%Hki].
    + pose proof (Hins _ H) as [_ ?]. replace (v - δ + δ) with v in * by lia. tauto.
    + tauto.
  - intros v Hin. cbn [k_w with_w]. change (mm_find w' (ms_table ms) (v + δ) = mm_find (k_w k) (ms_table ms) v). destruct (Hins v Hin) as [_ Hn]. rewrite Hf' by (apply uvpn_top; lia).
    rewrite decide_False by (rewrite Hkeys; intros [_ ?%Hki]; by apply (Hdis (v + δ))).
    replace (v + δ - δ) with v by lia. destruct (decide _) as [|Hnk]; [done|]. rewrite Hkeys in Hnk.
    rewrite !(find_absent _ _ _ _ _ Hs); [done| | | |].
    + by apply inside_range with a.
    + rewrite (page_at_area _ os a) by done. simpl. apply eq_None_not_Some. tauto.
    + lia.
    + by rewrite Hnone.
Qed.

(** An area that may not be moved: nothing happens. *)
Lemma mremap_refused k ms L old_addr old_size new_size :
  sp_ok (k_w k) (ms_table ms) (areas ms) L → user_range old_addr old_size → new_size ≤ 2 ^ 38 → (PAGE_SIZE | new_size) →
  (∀ a, areas ms !! first_page old_addr = Some a → ¬ (old_size ≤ new_size ∧ get_end a = last_page (old_addr + old_size) ∧
    map_type a = Framed ∧ is_shared a = false ∧ backing_file a = None ∧ anonymous_shared_frames a = None)) →
  ∃ e, mremap_move_private_anon k ms old_addr old_size new_size = Some (inl e, k, ms).
Proof.
  intros Hs Hr Hns Haln Hno. pose proof (sp_tree _ _ _ _ Hs) as Hm. destruct (user_range_ok _ _ Hr) as (Hadd & Hfl & Hce). destruct Hr as (Hr0 & Hr1 & Hr2).
  unfold mremap_move_private_anon. rewrite (proj2 (Z.eqb_neq _ _)) by lia. cbn [orb]. destruct (Z.ltb_spec new_size old_size) as [|Hle]; [by eexists|].
  rewrite Hadd, Hfl, Hce. cbn [mbind option_bind]. destruct (areas ms !! first_page old_addr) as [a|] eqn:Hk; [|by eexists]. specialize (Hno a eq_refl).
  destruct (find_free_ok (areas ms) new_size Hm ltac:(lia)) as (r & Hfind & Hspec). rewrite Hfind. cbn [mbind option_bind]. destruct r as [na|]; [|by eexists].
  destruct Hspec as (Hb & _ & _ & _ & _). destruct (whole_pages_range (areas ms) new_size Hm ltac:(lia) Haln) as [(_ & _ & Hx)|[? _]]; [|done].
  destruct (user_range_ok na new_size) as (Hadd' & _ & Hce'); [apply placed_range; [done|lia|by apply Hx]|]. rewrite Hadd', Hce'. cbn [mbind option_bind].
  destruct (_ || _ || _ || _ || _ || _ || _) eqn:Hg; [by eexists|exfalso]. apply Hno. rewrite !orb_false_iff, !negb_false_iff, !bool_decide_eq_true, !Z.eqb_eq in Hg. tauto.
Qed.

(** ** Growing in place *)

(** An area takes in the free pages behind it. *)
Lemma tree_grow m key a ne :
  tree_ok m → m !! key = Some a → map_type a = Framed → get_end a ≤ ne ≤ user_top →
  (∀ v, get_end a ≤ v < ne → page_at m v = None) →
  let m' := <[key := with_range (MkRange key ne) a]> m in
  tree_ok m' ∧ held m' ≡ₚ held m ∧
  ∀ v, page_at m' v = if decide (get_end a ≤ v < ne) then Some (with_frame None (page_of a v)) else page_at m v.
Proof.
  intros Hm Hk Hty Hne Hfree m'. destruct (to_area _ Hm _ _ Hk) as [-> Ha]. pose proof (ao_range _ Ha) as Har.
  destruct (tree_delete m _ a Hm Hk) as [Hmd Hvd]. set (a' := with_range (MkRange (get_start a) ne) a) in *.
  assert (area_ok a') as Ha'.
  { split; unfold a'; simpl; try apply Ha; unfold get_start, get_end in *; simpl; [lia|lia|]. intros v f [Hin Hsz]%(ao_frames _ Ha).
    split; [|done]. unfold inside, get_start, get_end in *. simpl. lia. }
  destruct (tree_insert (delete (get_start a) m) a' Hmd Ha') as (Hn & Ht & Hv).
  { intros v Hin. rewrite Hvd. destruct (decide (inside a v)) as [|Hia]; [done|]. apply Hfree.
    unfold inside, a', get_start, get_end in *. simpl in *. lia. }
  change (get_start a') with (get_start a) in *. unfold m'. rewrite <-insert_delete_eq. split_and!; [done| |].
  { rewrite held_insert by apply lookup_delete_eq. change (frames_of a') with (frames_of a). by rewrite <-held_delete. }
  intros v. rewrite Hv, Hvd. change (inside a' v) with (get_start a ≤ v < ne).
  destruct (decide (get_end a ≤ v < ne)) as [Hx|Hx].
  - rewrite decide_True by lia. unfold page_of, with_frame, a'. simpl. f_equal. f_equal.
    apply eq_None_not_Some. intros [f [Hin _]%(ao_frames _ Ha)]. unfold inside in Hin. lia.
  - destruct (decide (inside a v)) as [Hin|Hin]; unfold inside in Hin.
    + rewrite decide_True by lia. rewrite (page_at_area m _ a v Hm Hk Hin). done.
    + by rewrite decide_False by lia.
Qed.

Lemma mremap_inplace_ok w ms L old_addr old_size new_size a :
  sp_ok w (ms_table ms) (areas ms) L → user_range old_addr old_size → user_range old_addr new_size → old_size < new_size →
  (PAGE_SIZE | old_addr) → (PAGE_SIZE | old_size) →
  areas ms !! first_page old_addr = Some a → get_end a = last_page (old_addr + old_size) → map_type a = Framed →
  ∃ r m', mremap_inplace ms old_addr old_size new_size = Some (r, with_areas m' ms) ∧ sp_ok w (ms_table ms) m' L ∧ held m' ≡ₚ held (areas ms) ∧
    match r with
    | inl e => e = ENOMEM ∧ m' = areas ms ∧ ¬ free_range (areas ms) (old_addr + old_size) (new_size - old_size)
    | inr x => x = old_addr ∧ free_range (areas ms) (old_addr + old_size) (new_size - old_size) ∧
        ∀ v, page_at m' v = if decide (last_page (old_addr + old_size) ≤ v < last_page (old_addr + new_size))
          then Some (with_frame None (page_of a v)) else page_at (areas ms) v
    end.
Proof.
  intros Hs Hro Hrn Hlt Hal Hals Hk He Hty. pose proof (sp_tree _ _ _ _ Hs) as Hm. destruct (to_area _ Hm _ _ Hk) as [Hst Ha].
  destruct (user_range_ok _ _ Hro) as (Hadd & Hfl & Hce). destruct (user_range_ok _ _ Hrn) as (Hadd' & _ & Hce').
  unfold mremap_inplace. rewrite Hadd, Hadd', Hce, Hce'. cbn [mbind option_bind]. rewrite Hfl, Hk, He, Hty, <-Hst, !Z.eqb_refl.
  rewrite bool_decide_true by done. cbn [negb orb]. unfold checked_sub. rewrite (proj2 (Z.leb_le _ _)) by lia. cbn [mbind option_bind].
  assert (user_range (old_addr + old_size) (new_size - old_size)) as Hrx by (unfold user_range in *; lia).
  destruct (has_conflict_ok (areas ms) _ _ Hm Hrx) as (b & Hb & Hiff). rewrite Hb. cbn [mbind option_bind]. destruct b.
  { exists (inl ENOMEM), (areas ms). split_and!; [by destruct ms|done|done|done|done|]. by intros Hf%Hiff. }
  assert (free_range (areas ms) (old_addr + old_size) (new_size - old_size)) as Hfree by (by apply Hiff).
  destruct (user_range_pages _ _ Hro) as [Hp1 _]. destruct (user_range_pages _ _ Hrn) as [Hp2 Htop].
  set (oe := last_page (old_addr + old_size)) in *. set (ne := last_page (old_addr + new_size)) in *.
  assert (oe ≤ ne) as Hle by (apply last_page_mono; lia).
  assert (first_page (old_addr + old_size) = oe) as Hoe.
  { pose proof (aligned_pages (old_addr + old_size) 0 ltac:(by apply Z.divide_add_r)) as Hx. rewrite Z.add_0_r in Hx. change (last_page 0) with 0 in Hx. fold oe in Hx. lia. }
  destruct (tree_grow (areas ms) _ a ne Hm Hk Hty) as (Ht & Hh & Hv); [lia| |].
  { intros v Hv. apply Hfree. rewrite Hoe. replace (old_addr + old_size + (new_size - old_size)) with (old_addr + new_size) by lia. fold ne. lia. }
  unfold resize. rewrite <-Hst, Z.ltb_irrefl. unfold SimpleRange_new. rewrite (proj2 (Z.leb_le _ ne)) by lia. cbn [mbind option_bind].
  eexists (inr old_addr), _. split; [done|]. rewrite He in Hv. split_and!; [|done|done|done|done].
  apply (sp_retree _ _ _ _ _ Hs Ht Hh). intros v. rewrite Hv. destruct (decide _) as [Hx|]; [right|by left].
  split; [done|]. rewrite Hfree; [done|]. rewrite Hoe. by replace (old_addr + old_size + (new_size - old_size)) with (old_addr + new_size) by lia.
Qed.
Lemma inplace_refused w ms L old_addr old_size new_size :
  sp_ok w (ms_table ms) (areas ms) L → user_range old_addr old_size → user_range old_addr new_size → old_size ≤ new_size →
  (∀ a, areas ms !! first_page old_addr = Some a → ¬ (get_end a = last_page (old_addr + old_size) ∧ map_type a = Framed)) →
  mremap_inplace ms old_addr old_size new_size = Some (inl ENOMEM, ms).
Proof.
  intros Hs Hro Hrn Hle Hno. destruct (user_range_ok _ _ Hro) as (Hadd & Hfl & Hce). destruct (user_range_ok _ _ Hrn) as (Hadd' & _ & Hce').
  unfold mremap_inplace. rewrite Hadd, Hadd', Hce, Hce'. cbn [mbind option_bind]. rewrite Hfl. destruct (areas ms !! first_page old_addr) as [a|] eqn:Hk; [|done]. specialize (Hno a eq_refl).
  destruct (_ || _ || _) eqn:Hg; [done|exfalso]. apply Hno. rewrite !orb_false_iff, !negb_false_iff, bool_decide_eq_true, !Z.eqb_eq in Hg. tauto.
Qed.
End move.
