(* ===== verification/SpaceSys.v ===== *)
(** * The address spaces of a running system

    Any number of address spaces over one memory, and the operations that user
    programs and faults cause on them, in any order: the invariant of every space and
    the isolation of private memory hold in every state that the operations reach. *)

From S2P Require Import Prelude Errno Address PageTable Mm BTree MapArea MemSet Space SpaceUnmap SpaceProtect SpaceMap SpaceFault SpaceFork SpaceMove.

Local Open Scope Z_scope.

(** What happens to one address space. *)
Inductive mm_op :=
| OMmap (addr len prot flags : Z) (file : option nat) (off : Z)
| OMunmap (start_ len : Z)
| OMprotect (start_ len prot : Z)
| OMlock (start_ len : Z)
| OMadvise (start_ len : Z)
| OMremap (old_addr old_size new_size : Z)
| OGrow (old_addr old_size new_size : Z)
| OFault (vpn o : Z)
| OCow (vpn o : Z)
| OFork (strampoline : Z)
| OExit
| OStore (vpn i x : Z).

Section sys.
Context {W_ : Type} `{!Mm W_} (F : FileOps W_).
Implicit Types (k : kmm W_) (w : W_) (t : nat) (ms : MemorySet) (m : gmap Z MapArea) (a : MapArea) (L H : list Z) (l : list MemorySet).

(** A store of a user program: the processor goes through a valid, writable entry,
    and takes a fault otherwise. *)
Definition user_store k ms (vpn i x : Z) : kmm W_ :=
  match mm_find (k_w k) (ms_table ms) vpn with
  | Some (e, Page4K) =>
    if is_valid e && user_accessible e && writable e
    then with_w (mm_store (k_w k) (PTE_ppn e) (λ j, if decide (j = i) then x else mm_mem (k_w k) (PTE_ppn e) j)) k else k
  | _ => k
  end.

(** The address spaces that take the place of [ms]. *)
Definition do_op (o : mm_op) k ms : option (kmm W_ * list MemorySet) :=
  match o with
  | OMmap addr len prot flags file off => '(_, k, ms) ← mmap F k ms addr len prot flags file off; Some (k, [ms])
  | OMunmap start_ len => '(k, ms) ← munmap F k ms start_ len; Some (k, [ms])
  | OMprotect start_ len prot => '(_, k, ms) ← mprotect F k ms start_ len prot; Some (k, [ms])
  | OMlock start_ len => '(_, ms) ← mlock_range F ms start_ len; Some (k, [ms])
  | OMadvise start_ len => '(_, k, ms) ← madvise_dontneed F k ms start_ len; Some (k, [ms])
  | OMremap old_addr old_size new_size => '(_, k, ms) ← mremap_move_private_anon k ms old_addr old_size new_size; Some (k, [ms])
  | OGrow old_addr old_size new_size => '(_, ms) ← mremap_inplace ms old_addr old_size new_size; Some (k, [ms])
  | OFault vpn o => '(_, k, ms) ← handle_page_fault F k ms (vpn * PAGE_SIZE + o); Some (k, [ms])
  | OCow vpn o => '(_, k, ms) ← handle_cow_fault k ms (vpn * PAGE_SIZE + o); Some (k, [ms])
  | OFork strampoline => '(k, child) ← from_existed_user F k ms strampoline; Some (k, [ms; child])
  | OExit => '(k, _) ← recycle_data_pages F k ms; Some (k, [])
  | OStore vpn i x => Some (user_store k ms vpn i x, [ms])
  end.

(** ** The invariants *)

Definition all_held l : list Z := l ≫= λ ms, held (areas ms).

(** All trackers: those of the areas and those of the shared anonymous tables. *)
Definition all_trackers k l : list Z := all_held l ++ anon_frames (k_anon k).

Record sys_ok k l : Prop := {
  so_mm : mm_ok (k_w k) (all_trackers k l);
  so_tables : NoDup (ms_table <$> l);
  so_space ms : ms ∈ l → tree_ok (areas ms) ∧ mm_table (k_w k) (ms_table ms) ∧
    ∀ v, 0 ≤ v < user_top → pte_ok (page_at (areas ms) v) (mm_find (k_w k) (ms_table ms) v);
  so_refs ms v p r : ms ∈ l → page_at (areas ms) v = Some p → pg_anon p = Some r → pg_shared p = true ∧ (r < length (k_anon k))%nat;
  so_sizes d v f : d ∈ k_anon k → d !! v = Some f → f_size f = Page4K;
}.

(** A page that a program can write through, and no other program may see. *)
Definition private_writable k ms (v : Z) (f : Frame) : Prop :=
  ∃ p e, page_at (areas ms) v = Some p ∧ pg_frame p = Some f ∧ pg_shared p = false ∧
    mm_find (k_w k) (ms_table ms) v = Some (e, Page4K) ∧ writable e = true.

Definition sys_isolated k l : Prop :=
  ∀ ms v f, ms ∈ l → private_writable k ms v f → trackers (f_ppn f) (all_trackers k l) = 1%nat.

Lemma all_held_cons ms l : all_held (ms :: l) = held (areas ms) ++ all_held l.
Proof. done. Qed.

Lemma all_held_app l l' : all_held (l ++ l') = all_held l ++ all_held l'.
Proof. unfold all_held. apply bind_app. Qed.

Lemma all_trackers_perm k l l' : l ≡ₚ l' → all_trackers k l ≡ₚ all_trackers k l'.
Proof. intros Hl. unfold all_trackers, all_held. by rewrite Hl. Qed.

Lemma sys_ok_perm k l l' : l ≡ₚ l' → sys_ok k l → sys_ok k l'.
Proof.
  intros Hl [Hmm Ht Hs Hr Hsz]. split.
  - eapply mm_ok_perm; [done|]. by apply all_trackers_perm.
  - by rewrite <-Hl.
  - intros ms. rewrite <-Hl. apply Hs.
  - intros ms v p r. rewrite <-Hl. apply Hr.
  - done.
Qed.

Lemma sys_isolated_perm k l l' : l ≡ₚ l' → sys_isolated k l → sys_isolated k l'.
Proof.
  intros Hl Hi ms v f Hms Hw. rewrite <-Hl in Hms. rewrite <-(Hi ms v f Hms Hw). apply trackers_perm. symmetry. by apply all_trackers_perm.
Qed.

(** The trackers that are not of the areas of one space. *)
Definition others k l : list Z := anon_frames (k_anon k) ++ all_held l.

Lemma all_trackers_cons k ms l : all_trackers k (ms :: l) ≡ₚ held (areas ms) ++ others k l.
Proof. unfold all_trackers, others. rewrite all_held_cons. solve_perm. Qed.

Lemma sys_sp k ms l : sys_ok k (ms :: l) → sp_ok (k_w k) (ms_table ms) (areas ms) (others k l).
Proof.
  intros Hok. destruct (so_space _ _ Hok ms ltac:(by left)) as (Ht & Htab & Hp). split; [done| |done|done].
  eapply mm_ok_perm; [apply Hok|]. apply all_trackers_cons.
Qed.

(** The other spaces after an operation on [ms], whose place [l'] takes. *)
Lemma sys_update k k' ms l l' :
  sys_ok k (ms :: l) → mm_ok (k_w k') (all_trackers k' (l' ++ l)) →
  NoDup (ms_table <$> l') → (∀ ms', ms' ∈ l' → ms_table ms' = ms_table ms ∨ ¬ mm_table (k_w k) (ms_table ms')) →
  (∀ t, mm_table (k_w k) t → mm_table (k_w k') t) →
  (∀ t v, uvpn v → mm_table (k_w k) t → t ≠ ms_table ms → mm_find (k_w k') t v = mm_find (k_w k) t v) →
  (∀ ms', ms' ∈ l' → tree_ok (areas ms') ∧ mm_table (k_w k') (ms_table ms') ∧
    ∀ v, 0 ≤ v < user_top → pte_ok (page_at (areas ms') v) (mm_find (k_w k') (ms_table ms') v)) →
  (length (k_anon k) ≤ length (k_anon k'))%nat →
  (∀ ms' v p r, ms' ∈ l' → page_at (areas ms') v = Some p → pg_anon p = Some r → pg_shared p = true ∧ (r < length (k_anon k'))%nat) →
  (∀ d v f, d ∈ k_anon k' → d !! v = Some f → f_size f = Page4K) →
  sys_ok k' (l' ++ l).
Proof.
  intros Hok Hmm Hnd Hnew Htab Hfind Hl' Hlen Hrefs Hsz. pose proof (so_tables _ _ Hok) as Hn. rewrite fmap_cons in Hn. apply NoDup_cons in Hn as [Hnin Hn].
  assert (∀ ms', ms' ∈ l → ms_table ms' ≠ ms_table ms) as Hne.
  { intros ms' Hin Heq. apply Hnin. rewrite <-Heq. apply list_elem_of_fmap. by exists ms'. }
  split; [done| | | |done].
  - rewrite fmap_app. apply NoDup_app. split_and!; [done| |done].
    intros t (x & -> & Hx)%list_elem_of_fmap (y & Hxy & Hy)%list_elem_of_fmap. destruct (Hnew x Hx) as [Heq|Hno].
    + apply (Hne y Hy). congruence.
    + apply Hno. rewrite Hxy. by apply (so_space _ _ Hok y ltac:(by right)).
  - intros ms' [Hin|Hin]%elem_of_app; [by apply Hl'|]. destruct (so_space _ _ Hok ms' ltac:(by right)) as (Ht & Hm & Hp).
    split_and!; [done|by apply Htab|]. intros v Hv. rewrite Hfind; [by apply Hp|by apply uvpn_top|done|by apply Hne].
  - intros ms' v p r [Hin|Hin]%elem_of_app; [by apply Hrefs|]. intros Hp Hr.
    pose proof (so_refs _ _ Hok ms' v p r ltac:(by right) Hp Hr) as [? ?]. split; [done|lia].
Qed.

Lemma sys_one k k' ms m' l T H :
  sys_ok k (ms :: l) → sp_ok (k_w k') (ms_table ms) m' (others k' l) → stable (ms_table ms) T H (k_w k) (k_w k') →
  (length (k_anon k) ≤ length (k_anon k'))%nat →
  (∀ v p r, page_at m' v = Some p → pg_anon p = Some r → pg_shared p = true ∧ (r < length (k_anon k'))%nat) →
  (∀ d v f, d ∈ k_anon k' → d !! v = Some f → f_size f = Page4K) →
  sys_ok k' (with_areas m' ms :: l).
Proof.
  intros Hok Hs S Hlen Hrefs Hsz. apply (sys_update k k' ms l [with_areas m' ms] Hok).
  - eapply mm_ok_perm; [apply Hs|]. symmetry. apply (all_trackers_cons k' (with_areas m' ms)).
  - apply NoDup_singleton.
  - intros ms' ->%list_elem_of_singleton. by left.
  - apply S.
  - intros t v Hv _ Hne. apply S; [done|by left].
  - intros ms' ->%list_elem_of_singleton. split_and!; apply Hs.
  - done.
  - intros ms' v p r ->%list_elem_of_singleton. apply Hrefs.
  - done.
Qed.

(** The shared tables are the same, and no page refers to a new one. *)
Lemma sys_same k k' ms m' l T H :
  sys_ok k (ms :: l) → k_anon k' = k_anon k → sp_ok (k_w k') (ms_table ms) m' (others k l) →
  stable (ms_table ms) T H (k_w k) (k_w k') →
  (∀ v p, page_at m' v = Some p → ∃ v' q, page_at (areas ms) v' = Some q ∧ pg_anon p = pg_anon q ∧ pg_shared p = pg_shared q) →
  sys_ok k' (with_areas m' ms :: l).
Proof.
  intros Hok Han Hs S Hv. apply (sys_one k k' ms m' l T H Hok); [unfold others; by rewrite Han|done|by rewrite Han| |rewrite Han; apply Hok].
  intros v p r Hp Hr. destruct (Hv v p Hp) as (v' & q & Hq & Heq & Hsh). rewrite Han, Hsh.
  eapply (so_refs _ _ Hok ms); [by left|done|congruence].
Qed.

Lemma trackers_app x H H' : trackers x (H ++ H') = (trackers x H + trackers x H')%nat.
Proof. unfold trackers. by rewrite filter_app, length_app. Qed.

Lemma trackers_sub x H H' : H ⊆+ H' → (trackers x H ≤ trackers x H')%nat.
Proof. intros Hs. destruct (submseteq_Permutation _ _ Hs) as [y Hy]. rewrite (trackers_perm x _ _ Hy), trackers_app. lia. Qed.

Lemma private_held k l ms v f : sys_ok k l → ms ∈ l → private_writable k ms v f → f_ppn f ∈ held (areas ms) ∧ f_ppn f ∈ all_held l.
Proof.
  intros Hok Hin (p & e & Hp & Hf & _). assert (f_ppn f ∈ held (areas ms)) as Hh.
  { apply elem_of_held; [by apply Hok|]. by exists v, p, f. }
  split; [done|]. apply list_elem_of_bind. by exists ms.
Qed.

(** The private pages of the other spaces keep their frames to themselves if no frame
    of theirs gets another tracker. *)
Lemma isolated_update k k' ms l l' :
  sys_ok k (ms :: l) → sys_isolated k (ms :: l) →
  (∀ t v, uvpn v → mm_table (k_w k) t → t ≠ ms_table ms → mm_find (k_w k') t v = mm_find (k_w k) t v) →
  (∀ x, x ∈ all_held l → trackers x (all_trackers k (ms :: l)) = 1%nat → (trackers x (all_trackers k' (l' ++ l)) ≤ 1)%nat) →
  (∀ ms' v f, ms' ∈ l' → private_writable k' ms' v f → trackers (f_ppn f) (all_trackers k' (l' ++ l)) = 1%nat) →
  sys_isolated k' (l' ++ l).
Proof.
  intros Hok Hi Hfind Hle Hown ms' v f [Hin|Hin]%elem_of_app Hw; [by eapply Hown|].
  assert (ms_table ms' ≠ ms_table ms) as Hne.
  { pose proof (so_tables _ _ Hok) as Hn. rewrite fmap_cons in Hn. apply NoDup_cons in Hn as [Hnin _]. intros Heq. apply Hnin.
    rewrite <-Heq. apply list_elem_of_fmap. by exists ms'. }
  destruct (so_space _ _ Hok ms' ltac:(by right)) as (Ht & Htab & _).
  assert (private_writable k ms' v f) as Hw0.
  { destruct Hw as (p & e & Hp & Hf & Hs & He & Hwr). pose proof (page_at_range _ _ _ Ht Hp) as Hr.
    rewrite Hfind in He by (try done; by apply uvpn_top). by exists p, e. }
  assert (f_ppn f ∈ all_held l) as Hl.
  { destruct Hw as (p & e & Hp & Hf & _). apply list_elem_of_bind. exists ms'. split; [|done]. apply elem_of_held; [done|]. by exists v, p, f. }
  pose proof (Hle _ Hl (Hi ms' v f ltac:(by right) Hw0)) as H1.
  assert (f_ppn f ∈ all_trackers k' (l' ++ l)) as Hpos%trackers_in; [|lia].
  unfold all_trackers. rewrite all_held_app, !elem_of_app. tauto.
Qed.

(** No more trackers than before, and the private pages that can be written are old ones. *)
Lemma isolated_sub k k' ms m' l T H :
  sys_ok k (ms :: l) → sys_isolated k (ms :: l) → stable (ms_table ms) T H (k_w k) (k_w k') → tree_ok m' →
  all_trackers k' (with_areas m' ms :: l) ⊆+ all_trackers k (ms :: l) →
  (∀ v f, private_writable k' (with_areas m' ms) v f → ∃ v', private_writable k ms v' f) →
  sys_isolated k' (with_areas m' ms :: l).
Proof.
  intros Hok Hi S Hm' Hsub Hpw. apply (isolated_update k k' ms l [with_areas m' ms] Hok Hi).
  - intros t v Hv _ Hne. apply S; [done|by left].
  - intros x _ Hx. pose proof (trackers_sub x _ _ Hsub). simpl in *. lia.
  - intros ms' v f ->%list_elem_of_singleton Hw. destruct (Hpw v f Hw) as [v' Hw0]. pose proof (Hi ms v' f ltac:(by left) Hw0) as H1.
    pose proof (trackers_sub (f_ppn f) _ _ Hsub) as Hle. destruct Hw as (p & e & Hp & Hf & _).
    assert (f_ppn f ∈ all_trackers k' (with_areas m' ms :: l)) as Hpos%trackers_in; [|simpl in *; lia].
    rewrite all_trackers_cons, elem_of_app. left. apply elem_of_held; [done|]. by exists v, p, f.
Qed.

(** ** The operations keep the invariants *)

Definition good k l : Prop := sys_ok k l ∧ sys_isolated k l.

Lemma good_perm k l l' : l ≡ₚ l' → good k l → good k l'.
Proof. intros Hl [? ?]. split; [by eapply sys_ok_perm|by eapply sys_isolated_perm]. Qed.

(** What an operation promises: the spaces stay well-formed, and isolated if they were. *)
Definition keeps k l k' l' : Prop := sys_ok k' l' ∧ (sys_isolated k l → sys_isolated k' l').

(** An operation that makes no tracker and no page of a private mapping writable. *)
Lemma keeps_quiet k k' ms m' l T H :
  sys_ok k (ms :: l) → k_anon k' = k_anon k → sp_ok (k_w k') (ms_table ms) m' (others k l) →
  stable (ms_table ms) T H (k_w k) (k_w k') → held m' ⊆+ held (areas ms) →
  (∀ v p, page_at m' v = Some p → ∃ v' q, page_at (areas ms) v' = Some q ∧ pg_anon p = pg_anon q ∧ pg_shared p = pg_shared q) →
  (∀ v f, private_writable k' (with_areas m' ms) v f → ∃ v', private_writable k ms v' f) →
  keeps k (ms :: l) k' (with_areas m' ms :: l).
Proof.
  intros Hok Han Hs S Hsub Hv Hpw. split; [by apply (sys_same k k' ms m' l T H)|]. intros Hi.
  apply (isolated_sub k k' ms m' l T H); [done|done|done|apply Hs| |done].
  rewrite !all_trackers_cons. unfold others. rewrite Han. simpl. by apply submseteq_skips_r.
Qed.

(** Pages that have a frame are old pages, at the same place, with the same entry. *)
Lemma writable_same k k' ms m' T H v f :
  stable (ms_table ms) T H (k_w k) (k_w k') → tree_ok m' →
  (∀ p, page_at m' v = Some p → pg_frame p = Some f → ¬ T v ∧ ∃ q, page_at (areas ms) v = Some q ∧ pg_frame q = Some f ∧ pg_shared q = pg_shared p) →
  private_writable k' (with_areas m' ms) v f → ∃ v', private_writable k ms v' f.
Proof.
  intros S Hm' Hv (p & e & Hp & Hf & Hs & He & Hw). destruct (Hv p Hp Hf) as (Hn & q & Hq & Hqf & Hqs).
  pose proof (page_at_range _ _ _ Hm' Hp) as Hr. simpl in He. rewrite (st_find _ _ _ _ _ S) in He by (try (by right); by apply uvpn_top).
  exists v, q, e. split_and!; [done|done|congruence|done|done].
Qed.

Lemma keeps_munmap k ms l start_ len : sys_ok k (ms :: l) → user_range start_ len →
  wp (munmap F k ms start_ len) (λ '(k', ms'), keeps k (ms :: l) k' (ms' :: l)).
Proof.
  intros Hg Hr. destruct (munmap_ok F k ms _ _ _ (sys_sp _ _ _ Hg) Hr) as (k' & ms' & -> & Hs & [Hms Hv Hsub S Hl]).
  apply wp_ret. rewrite Hms. destruct Hl as (Han & _).
  eapply keeps_quiet; [done|done|done|exact S|done| |].
  - intros v p. rewrite Hv. destruct (decide _); [done|]. by exists v, p.
  - intros v f. apply (writable_same _ _ _ _ _ _ _ _ S); [apply Hs|]. intros p. rewrite Hv. destruct (decide _); [done|].
    intros ? ?. split; [done|]. by exists p.
Qed.

Lemma keeps_madvise k ms l start_ len : sys_ok k (ms :: l) → user_range start_ len →
  wp (madvise_dontneed F k ms start_ len) (λ '(_, k', ms'), keeps k (ms :: l) k' (ms' :: l)).
Proof.
  intros Hg Hr. destruct (dontneed_ok F k ms _ _ _ (sys_sp _ _ _ Hg) Hr) as (k' & m' & -> & Hs & Hsub & S & Hl & Hv).
  apply wp_ret. destruct Hl as (Han & _). eapply keeps_quiet; [done|done|done|exact S|done| |].
  - intros v p. rewrite Hv. destruct (page_at (areas ms) v) as [q|] eqn:Hq; [|by destruct (decide _)].
    destruct (decide _); intros [= <-]; by exists v, q.
  - intros v f. apply (writable_same _ _ _ _ _ _ _ _ S); [apply Hs|]. intros p. rewrite Hv.
    destruct (decide _); [destruct (page_at (areas ms) v); [by intros [= <-]|done]|]. intros ? ?. split; [done|]. by exists p.
Qed.

Lemma keeps_mlock k ms l start_ len : sys_ok k (ms :: l) → user_range start_ len →
  wp (mlock_range F ms start_ len) (λ '(_, ms'), keeps k (ms :: l) k (ms' :: l)).
Proof.
  intros Hg Hr. pose proof (sys_sp _ _ _ Hg) as Hs0.
  destruct (mlock_ok F (k_w k) ms _ _ _ Hs0 Hr) as (r & m' & -> & Hs & Hh & Hv). apply wp_ret.
  assert (∀ v p, page_at m' v = Some p → ∃ q, page_at (areas ms) v = Some q ∧ pg_anon p = pg_anon q ∧ pg_frame q = pg_frame p ∧ pg_shared q = pg_shared p) as Hpg.
  { intros v p Hp. destruct r as [e|u]; [destruct Hv as (_ & _ & Hv)|destruct Hv as (_ & Hv)]; rewrite Hv in Hp; [by exists p|].
    destruct (decide _); [|by exists p]. destruct (page_at (areas ms) v) as [q|]; [|done]. injection Hp as <-. by exists q. }
  eapply keeps_quiet; [done|done|done|apply (stable_refl _ (λ _, False) [])|by rewrite Hh| |].
  - intros v p Hp. destruct (Hpg v p Hp) as (q & ? & ? & _ & ?). by exists v, q.
  - intros v f. apply (writable_same _ _ _ _ (λ _, False) [] _ _ (stable_refl _ _ _ _)); [apply Hs|].
    intros p Hp Hf. split; [by intros []|]. destruct (Hpg v p Hp) as (q & ? & _ & ? & ?). exists q. split_and!; [done|congruence|done].
Qed.

(** A change of rights that does not give a program the right to write to a private
    page whose entry withholds it. [mprotect] does not check this. *)
Definition cow_kept k ms (lo hi perm : Z) : Prop :=
  Z.testbit perm 2 = true → ∀ v p f e, lo ≤ v < hi → page_at (areas ms) v = Some p → pg_frame p = Some f → pg_shared p = false →
    mm_find (k_w k) (ms_table ms) v = Some (e, Page4K) → writable e = true.

Lemma keeps_mprotect k ms l start_ len prot : sys_ok k (ms :: l) → user_range start_ len →
  wp (mprotect F k ms start_ len prot) (λ '(_, k', ms'), sys_ok k' (ms' :: l) ∧
    (cow_kept k ms (first_page start_) (last_page (start_ + len)) (permission_of prot) → sys_isolated k (ms :: l) → sys_isolated k' (ms' :: l))).
Proof.
  intros Hok Hr. pose proof (sys_sp _ _ _ Hok) as Hs0.
  destruct (mprotect_ok F k ms _ _ _ prot Hs0 Hr) as (r & w' & m' & -> & Hs & Hh & S & Hv). apply wp_ret.
  set (lo := first_page start_) in *. set (hi := last_page (start_ + len)) in *.
  assert (∀ v p, page_at m' v = Some p → ∃ q, page_at (areas ms) v = Some q ∧ pg_anon p = pg_anon q ∧ pg_frame q = pg_frame p ∧ pg_shared q = pg_shared p) as Hpg.
  { intros v p Hp. destruct r as [e|u]; [destruct Hv as (_ & _ & _ & Hv)|destruct Hv as (_ & Hv)]; rewrite Hv in Hp; [by exists p|].
    destruct (decide _); [|by exists p]. destruct (page_at (areas ms) v) as [q|]; [|done]. injection Hp as <-. by exists q. }
  assert (∀ v p, page_at m' v = Some p → ∃ v' q, page_at (areas ms) v' = Some q ∧ pg_anon p = pg_anon q ∧ pg_shared p = pg_shared q) as Hpg'.
  { intros v p Hp. destruct (Hpg v p Hp) as (q & ? & ? & _ & ?). by exists v, q. }
  split; [by apply (sys_same k (with_w w' k) ms m' l _ _ Hok ltac:(done) Hs S)|]. intros Hcow.
  eapply (keeps_quiet k (with_w w' k)); [done|done|done|exact S|by rewrite Hh|done|].
  intros v f (p & e & Hp & Hf & Hsh & He & Hw). destruct (Hpg v p Hp) as (q & Hq & _ & Hqf & Hqs). exists v, q. rewrite Hf in Hqf. rewrite Hsh in Hqs.
  destruct (find_resident _ _ _ _ _ _ _ Hs0 Hq Hqf) as (e0 & He0 & _). exists e0. split_and!; [done|done|done|done|].
  destruct (decide (lo ≤ v < hi)) as [Hin|Hin].
  - destruct r as [er|u].
    + destruct Hv as (_ & _ & -> & _). simpl in He. congruence.
    + destruct Hv as (_ & Hv). apply Hcow with v q f; try done. destruct (find_resident _ _ _ _ _ _ _ Hs Hp Hf) as (e' & He' & Hpf).
      simpl in He. assert (e' = e) as -> by congruence. pose proof (pf_write _ _ _ Hpf Hw) as Hb. rewrite Hv, decide_True, Hq in Hp by done. by injection Hp as <-.
  - simpl in He. rewrite (st_find _ _ _ _ _ S) in He; [congruence| |by right]. apply uvpn_top. by apply (page_at_range _ _ _ (sp_tree _ _ _ _ Hs0) Hq).
Qed.

Lemma anon_frames_new ts shared file : anon_frames (ts ++ new_tables shared file) = anon_frames ts.
Proof.
  unfold anon_frames, new_tables. rewrite bind_app. destruct file as [x|]; [by rewrite app_nil_r|]. destruct shared; [|by rewrite app_nil_r].
  rewrite bind_cons. simpl. by rewrite map_to_list_empty, !app_nil_r.
Qed.

Lemma new_tables_empty d shared file : d ∈ new_tables shared file → d = ∅.
Proof. unfold new_tables. destruct file; [by intros ?%not_elem_of_nil|]. destruct shared; [by intros ->%list_elem_of_singleton|by intros ?%not_elem_of_nil]. Qed.

Lemma keeps_mmap k ms l addr len prot flags file off : sys_ok k (ms :: l) → k_next_map k ≠ 0 → mmap_range (areas ms) addr len →
  wp (mmap F k ms addr len prot flags file off) (λ '(_, k', ms'), keeps k (ms :: l) k' (ms' :: l)).
Proof.
  intros Hok Hid Hr. pose proof (sys_sp _ _ _ Hok) as Hs0.
  destruct (mmap_ok F k ms _ addr len prot flags file off Hs0 Hid Hr) as (r & k' & ms' & -> & Hms & Hs & Hres). apply wp_ret.
  destruct r as [e|s]; [by destruct Hres as (-> & -> & _)|]. destruct Hres as (Hur & _ & S & Hsub & Han & Hv).
  set (shared := flags_contain flags MAP_SHARED) in *. set (bf := mmap_file flags file off) in *.
  assert (others k' l = others k l) as Ho by (unfold others; by rewrite Han, anon_frames_new).
  rewrite Hms. split.
  - eapply (sys_one k k' ms (areas ms') l _ _ Hok); [by rewrite Ho|exact S|rewrite Han, length_app; lia| |].
    + intros v p n. rewrite Hv, Han, length_app. destruct (decide _); [|intros Hp Hn; pose proof (so_refs _ _ Hok ms v p n ltac:(by left) Hp Hn) as [? ?]; split; [done|lia]].
      intros [= <-]. unfold mapped_page, new_tables. simpl. destruct bf; [done|]. destruct shared; [|done]. intros [= <-]. simpl. split; [done|lia].
    + intros d v f. rewrite Han. intros [Hd| ->%new_tables_empty]%elem_of_app; [by apply (so_sizes _ _ Hok)|done].
  - intros Hi. apply (isolated_sub k k' ms (areas ms') l _ _ Hok Hi S); [apply Hs| |].
    + rewrite !all_trackers_cons, Ho. simpl. by apply submseteq_skips_r.
    + intros v f. apply (writable_same _ _ _ _ _ _ _ _ S); [apply Hs|]. intros p. rewrite Hv.
      destruct (decide _); [by intros [= <-]|]. intros ? ?. split; [done|]. by exists p.
Qed.

(** The arguments [sys_mremap] passes on: whole pages, from a range below the trampoline. *)
Definition may_move k ms (old_addr old_size new_size : Z) : Prop :=
  user_range old_addr old_size ∧ (PAGE_SIZE | old_addr) ∧ new_size ≤ 2 ^ 38 ∧ (PAGE_SIZE | new_size) ∧
  ∀ a, areas ms !! first_page old_addr = Some a → 2 * Z.of_nat (length (frames_of a)) ≤ mm_free (k_w k).

(** An area that moves: all of it is asked for, and it is private and anonymous. *)
Definition moves ms (old_addr old_size new_size : Z) (a : MapArea) : Prop :=
  old_size ≤ new_size ∧ get_end a = last_page (old_addr + old_size) ∧
  map_type a = Framed ∧ is_shared a = false ∧ backing_file a = None ∧ anonymous_shared_frames a = None.

#[local] Instance moves_dec ms old_addr old_size new_size a : Decision (moves ms old_addr old_size new_size a).
Proof. unfold moves. apply _. Defined.

Lemma keeps_moved k ms l old_addr old_size new_size a : sys_ok k (ms :: l) → may_move k ms old_addr old_size new_size →
  areas ms !! first_page old_addr = Some a → moves ms old_addr old_size new_size a →
  wp (mremap_move_private_anon k ms old_addr old_size new_size) (λ '(_, k', ms'), keeps k (ms :: l) k' (ms' :: l)).
Proof.
  intros Hg (Hr & Hal & Hsz & Hns & Hfree) Hk (Hle & He & Hty & Hsh & Hbf & Han). specialize (Hfree a Hk). pose proof (sys_sp _ _ _ Hg) as Hs0.
  pose proof (sp_tree _ _ _ _ Hs0) as Hm.
  destruct (mremap_move_ok k ms _ _ _ _ a Hs0 Hr Hal ltac:(done) Hns Hk He Hty Hsh Hbf Han Hfree) as (r & k' & ms' & -> & Hres). apply wp_ret.
  destruct r as [e|na]; [by destruct Hres as (_ & -> & -> & _)|]. cbn zeta in Hres.
  destruct Hres as (Hur & Hfr & Hms & Hkk & Hs & Hh & S & Hmoved & Hv). rewrite Hms.
  set (δ := first_page na - first_page old_addr) in *. destruct (to_area _ Hm _ _ Hk) as [Hst Ha].
  assert (∀ v, data_frames a !! (v - δ) ≠ None → inside a (v - δ)) as Hin.
  { intros v Hf. destruct (data_frames a !! (v - δ)) eqn:Hd; [|done]. by destruct (ao_frames _ Ha _ _ Hd). }
  eapply (keeps_quiet k k' ms (areas ms')); [done|by rewrite Hkk|done|exact S|by rewrite Hh| |].
  - intros v p. rewrite Hv. destruct (decide _).
    + intros [= <-]. exists (get_start a), (page_of a (get_start a)). split; [|done].
      apply page_at_area with (get_start a); [done|by rewrite <-Hst|]. pose proof (ao_range _ Ha). unfold inside. lia.
    + destruct (decide _); [done|]. by exists v, p.
  - intros v f (p & e & Hp & Hf & Hps & He' & Hw). pose proof (page_at_range _ _ _ (sp_tree _ _ _ _ Hs) Hp) as Hvr. rewrite Hv in Hp. destruct (decide _) as [Hx|Hx].
    + injection Hp as <-. simpl in Hf. exists (v - δ), (page_of a (v - δ)), e. pose proof (Hin v ltac:(by rewrite Hf)) as Hia.
      rewrite (page_at_area _ (first_page old_addr) a) by done. split_and!; [done|done|done| |done].
      simpl in He'. rewrite <-Hmoved by done. by replace (v - δ + δ) with v by lia.
    + destruct (decide _) as [|Hni]; [done|]. exists v, p, e. split_and!; [done|done|done| |done]. simpl in He'.
      rewrite (st_find _ _ _ _ _ S) in He'; [done|by apply uvpn_top|]. right. tauto.
Qed.

Lemma keeps_mremap k ms l old_addr old_size new_size : sys_ok k (ms :: l) → may_move k ms old_addr old_size new_size →
  wp (mremap_move_private_anon k ms old_addr old_size new_size) (λ '(_, k', ms'), keeps k (ms :: l) k' (ms' :: l)).
Proof.
  intros Hg Hmay. destruct (areas ms !! first_page old_addr) as [a|] eqn:Hk; [destruct (decide (moves ms old_addr old_size new_size a)) as [Hmv|Hno]|]; [by eapply keeps_moved| |].
  all: destruct Hmay as (Hr & _ & Hsz & Hns & _); destruct (mremap_refused k ms _ old_addr old_size new_size (sys_sp _ _ _ Hg) Hr Hsz Hns) as [e ->]; [|by apply wp_ret].
  - intros b. rewrite Hk. by intros [= <-].
  - intros b. by rewrite Hk.
Qed.

(** Growing in place. *)
Definition may_grow (old_addr old_size new_size : Z) : Prop :=
  user_range old_addr old_size ∧ user_range old_addr new_size ∧ old_size < new_size ∧ (PAGE_SIZE | old_addr) ∧ (PAGE_SIZE | old_size).

Lemma keeps_inplace k ms l old_addr old_size new_size : sys_ok k (ms :: l) → may_grow old_addr old_size new_size →
  wp (mremap_inplace ms old_addr old_size new_size) (λ '(_, ms'), keeps k (ms :: l) k (ms' :: l)).
Proof.
  intros Hg (Hro & Hrn & Hlt & Hal & Hals). pose proof (sys_sp _ _ _ Hg) as Hs0. pose proof (sp_tree _ _ _ _ Hs0) as Hm.
  assert ((∃ a, areas ms !! first_page old_addr = Some a ∧ get_end a = last_page (old_addr + old_size) ∧ map_type a = Framed) ∨
    ∀ a, areas ms !! first_page old_addr = Some a → ¬ (get_end a = last_page (old_addr + old_size) ∧ map_type a = Framed)) as [(a & Hk & He & Hty)|Hno].
  { destruct (areas ms !! first_page old_addr) as [a|]; [|by right]. destruct (decide (get_end a = last_page (old_addr + old_size) ∧ map_type a = Framed)) as [|Hn]; [left; by exists a|right; by intros b [= <-]]. }
  2: { rewrite (inplace_refused _ _ _ _ _ _ Hs0 Hro Hrn ltac:(lia) Hno). by apply wp_ret. }
  destruct (mremap_inplace_ok _ ms _ old_addr old_size new_size a Hs0 Hro Hrn Hlt Hal Hals Hk He Hty) as (r & m' & -> & Hs & Hh & Hres). apply wp_ret.
  destruct (to_area _ Hm _ _ Hk) as [Hst Ha]. pose proof (ao_range _ Ha).
  assert (∀ v p, page_at m' v = Some p → ∃ v' q, page_at (areas ms) v' = Some q ∧ pg_anon p = pg_anon q ∧ pg_shared p = pg_shared q ∧ (pg_frame p ≠ None → v' = v ∧ q = p)) as Hpg.
  { intros v p Hp. destruct r as [e|x]; [destruct Hres as (_ & -> & _); by exists v, p|]. destruct Hres as (_ & _ & Hv). rewrite Hv in Hp. destruct (decide _); [|by exists v, p]. injection Hp as <-.
    exists (get_start a), (page_of a (get_start a)). split_and!; [|done..]. apply page_at_area with (get_start a); [done|by rewrite <-Hst|]. unfold inside. lia. }
  eapply (keeps_quiet k k); [done|done|done|apply (stable_refl _ (λ _, False) [])|by rewrite Hh| |].
  - intros v p Hp. destruct (Hpg v p Hp) as (v' & q & ? & ? & ? & _). by exists v', q.
  - intros v f. apply (writable_same _ _ _ _ (λ _, False) [] _ _ (stable_refl _ _ _ _)); [apply Hs|].
    intros p Hp Hf. split; [by intros []|]. destruct (Hpg v p Hp) as (v' & q & Hq & _ & _ & Hsame). destruct (Hsame ltac:(congruence)) as [-> ->]. by exists p.
Qed.

Lemma keeps_exit k ms l : sys_ok k (ms :: l) → wp (recycle_data_pages F k ms) (λ '(k', _), keeps k (ms :: l) k' l).
Proof.
  intros Hok. destruct (recycle_ok F k ms _ (sys_sp _ _ _ Hok)) as (k' & -> & Hmm & _ & S & Han & _). apply wp_ret.
  assert (all_trackers k' l ≡ₚ others k l) as Ht by (unfold all_trackers, others; rewrite Han; solve_perm).
  split.
  - apply (sys_update k k' ms l [] Hok); try by intros ? ?%not_elem_of_nil.
    + eapply mm_ok_perm; [done|]. by rewrite Ht.
    + apply NoDup_nil_2.
    + apply S.
    + intros t v Hv _ Hne. apply S; [done|by left].
    + by rewrite Han.
    + by intros ???? ?%not_elem_of_nil.
    + rewrite Han. apply Hok.
  - intros Hi. apply (isolated_update k k' ms l [] Hok Hi).
    + intros t v Hv _ Hne. apply S; [done|by left].
    + intros x _ Hx. rewrite (trackers_perm _ _ _ (all_trackers_cons k ms l)), trackers_app in Hx.
      simpl. rewrite (trackers_perm _ _ _ Ht). lia.
    + by intros ??? ?%not_elem_of_nil.
Qed.

(** The frame that a store goes to. *)
Lemma store_frame k ms l v e :
  sys_ok k (ms :: l) → 0 ≤ v < user_top → mm_find (k_w k) (ms_table ms) v = Some (e, Page4K) →
  ∃ p f, page_at (areas ms) v = Some p ∧ pg_frame p = Some f ∧ PTE_ppn e = f_ppn f ∧ f_ppn f ∈ held (areas ms).
Proof.
  intros Hok Hv He. destruct (so_space _ _ Hok ms ltac:(by left)) as (Ht & _ & Hpte). specialize (Hpte v Hv). unfold pte_ok in Hpte.
  destruct (page_at (areas ms) v) as [p|] eqn:Hp; simpl in Hpte; [|congruence].
  destruct (pg_frame p) as [f|] eqn:Hf; [|congruence]. destruct Hpte as (e' & He' & Hpf). assert (e' = e) as -> by congruence.
  exists p, f. split_and!; [done|done|apply Hpf|]. apply elem_of_held; [done|]. by exists v, p, f.
Qed.

(** A store through [v] changes one word of the frame of [v], if the page can be written. *)
Lemma user_store_ok k ms l v i x : sys_ok k (ms :: l) → 0 ≤ v < user_top →
  (user_store k ms v i x = k ∨
   ∃ p f w', page_at (areas ms) v = Some p ∧ pg_frame p = Some f ∧ (pg_shared p = false → private_writable k ms v f) ∧
     user_store k ms v i x = with_w w' k ∧ mm_ok w' (all_trackers k (ms :: l)) ∧
     (∀ t, mm_table (k_w k) t → mm_table w' t) ∧ find_same (mm_find (k_w k)) (mm_find w') ∧
     ∀ q j, mm_mem w' q j = if decide (q = f_ppn f ∧ j = i) then x else mm_mem (k_w k) q j).
Proof.
  intros Hok Hv. unfold user_store. destruct (mm_find (k_w k) (ms_table ms) v) as [[e []]|] eqn:He; try by left.
  destruct (is_valid e && user_accessible e && writable e) eqn:Hf; [|by left]. apply andb_true_iff in Hf as [_ Hw]. right.
  destruct (store_frame _ _ _ _ _ Hok Hv He) as (p & f & Hp & Hfr & Heq & Hin). rewrite Heq.
  destruct (mm_store_spec (k_w k) (all_trackers k (ms :: l)) (f_ppn f) (λ j, if decide (j = i) then x else mm_mem (k_w k) (f_ppn f) j) (so_mm _ _ Hok))
    as (Hok' & Hm1 & _ & Hm2 & Ht & Hfs).
  { rewrite all_trackers_cons. apply elem_of_app. by left. }
  exists p, f. eexists. split_and!; [done|done| |done|done|done|done|].
  - intros Hsh. by exists p, e.
  - intros q j. destruct (decide (q = f_ppn f)) as [->|Hq].
    + rewrite Hm1. destruct (decide (j = i)); [by rewrite decide_True|]. rewrite decide_False; [done|naive_solver].
    + rewrite Hm2 by done. rewrite decide_False; [done|]. by intros [? _].
Qed.

Lemma keeps_store k ms l v i x : sys_ok k (ms :: l) → 0 ≤ v < user_top → keeps k (ms :: l) (user_store k ms v i x) (ms :: l).
Proof.
  intros Hok Hv. destruct (user_store_ok k ms l v i x Hok Hv) as [->|(p & f & w' & _ & _ & _ & -> & Hok' & Ht & Hfs & _)]; [done|].
  assert (ms = with_areas (areas ms) ms) as Hms by (by destruct ms).
  assert (stable (ms_table ms) (λ _, False) [] (k_w k) w') as S.
  { split; [by intros ?? ?%not_elem_of_nil|done|]. intros t u Hu _. by apply Hfs. }
  assert (keeps k (ms :: l) (with_w w' k) (with_areas (areas ms) ms :: l)) as Hkeep; [|by rewrite <-Hms in Hkeep].
  eapply (keeps_quiet k); [done|done| |exact S|done|by intros u q Hq; exists u, q|].
  - pose proof (sys_sp _ _ _ Hok) as Hs. split; [apply Hs| |by apply Ht, Hs|].
    + eapply mm_ok_perm; [done|]. apply all_trackers_cons.
    + intros u Hu. simpl. rewrite Hfs by (by apply uvpn_top). by apply Hs.
  - intros u g. apply (writable_same k (with_w w' k) _ _ _ _ _ _ S); [by apply Hok; left|]. intros q Hq Hg. split; [by intros []|]. by exists q.
Qed.

Lemma trackers_nodup x H : NoDup H → x ∈ H → trackers x H = 1%nat.
Proof.
  induction 1 as [|y H Hy Hnd IH]; [by intros ?%not_elem_of_nil|]. rewrite trackers_cons, elem_of_cons. intros Hx.
  destruct (decide (y = x)) as [->|Hne]; [by rewrite trackers_notin|]. apply IH. by destruct Hx as [->|].
Qed.

(** Frames that had no tracker get one each. *)
Lemma isolated_fresh k k' ms m' l T H (fresh : list Z) :
  sys_ok k (ms :: l) → sys_isolated k (ms :: l) → stable (ms_table ms) T H (k_w k) (k_w k') → tree_ok m' →
  k_anon k' = k_anon k → held m' ≡ₚ fresh ++ held (areas ms) → NoDup fresh → (∀ x, x ∈ fresh → x ∉ held (areas ms) ++ others k l) →
  (∀ v f, private_writable k' (with_areas m' ms) v f → f_ppn f ∈ fresh ∨ private_writable k ms v f) →
  sys_isolated k' (with_areas m' ms :: l).
Proof.
  intros Hok Hi S Hm' Han Hh Hnd Hfr Hpw.
  assert (all_trackers k' (with_areas m' ms :: l) ≡ₚ fresh ++ all_trackers k (ms :: l)) as Ht.
  { rewrite !all_trackers_cons. unfold others. rewrite Han. simpl. rewrite Hh. solve_perm. }
  assert (∀ x, x ∈ all_trackers k (ms :: l) → trackers x (all_trackers k' (with_areas m' ms :: l)) = trackers x (all_trackers k (ms :: l))) as Hold.
  { intros x Hx. rewrite (trackers_perm _ _ _ Ht), trackers_app. rewrite (trackers_notin x fresh); [done|].
    intros Hf%Hfr. by rewrite all_trackers_cons in Hx. }
  apply (isolated_update k k' ms l [with_areas m' ms] Hok Hi).
  - intros t v Hv _ Hne. apply S; [done|by left].
  - intros x Hx H1. change ([with_areas m' ms] ++ l) with (with_areas m' ms :: l). rewrite Hold; [lia|].
    unfold all_trackers. rewrite all_held_cons, !elem_of_app. tauto.
  - intros ms' v f ->%list_elem_of_singleton Hw. change ([with_areas m' ms] ++ l) with (with_areas m' ms :: l).
    destruct (Hpw v f Hw) as [Hf|Hw0].
    + rewrite (trackers_perm _ _ _ Ht), trackers_app. rewrite (trackers_notin _ (all_trackers _ _)) by (rewrite all_trackers_cons; by apply Hfr).
      by rewrite trackers_nodup.
    + rewrite Hold; [by apply (Hi ms v f); [left|]|]. destruct (private_held k (ms :: l) ms v f Hok ltac:(by left) Hw0) as [_ Hin].
      unfold all_trackers. apply elem_of_app. by left.
Qed.

Definition cow_pageb k ms (vpn : Z) : bool :=
  match page_at (areas ms) vpn, mm_find (k_w k) (ms_table ms) vpn with
  | Some p, Some (e, Page4K) =>
    negb (bool_decide (pg_type p = Guard)) && negb (pg_shared p) && flags_contain (pg_perm p) W && bool_decide (is_Some (pg_frame p)) && negb (writable e)
  | _, _ => false
  end.

Lemma cow_pageb_true k ms vpn : cow_pageb k ms vpn = true →
  ∃ p f e, page_at (areas ms) vpn = Some p ∧ mm_find (k_w k) (ms_table ms) vpn = Some (e, Page4K) ∧ cow_page p f e.
Proof.
  unfold cow_pageb. destruct (page_at (areas ms) vpn) as [p|]; [|done]. destruct (mm_find _ _ _) as [[e []]|]; try done.
  rewrite !andb_true_iff, !negb_true_iff, bool_decide_eq_false, bool_decide_eq_true. intros [[[[? ?] ?] [f Hf]] ?].
  exists p, f, e. by split_and!.
Qed.

Lemma cow_pageb_false k ms vpn p f e : cow_pageb k ms vpn = false → page_at (areas ms) vpn = Some p →
  mm_find (k_w k) (ms_table ms) vpn = Some (e, Page4K) → ¬ cow_page p f e.
Proof.
  unfold cow_pageb. intros Hb Hp He (H1 & H2 & H3 & H4 & H5). rewrite Hp, He, H2, H3, H5, bool_decide_false, bool_decide_true in Hb by (try done; by eexists).
  done.
Qed.

Lemma keeps_cow_fault k ms l vpn o : sys_ok k (ms :: l) → 0 ≤ vpn < user_top → 0 ≤ o < PAGE_SIZE → 0 < mm_free (k_w k) →
  wp (handle_cow_fault k ms (vpn * PAGE_SIZE + o)) (λ '(_, k', ms'), keeps k (ms :: l) k' (ms' :: l)).
Proof.
  intros Hok Hvpn Ho Hfree. pose proof (sys_sp _ _ _ Hok) as Hs0. destruct (cow_pageb k ms vpn) eqn:Hb.
  2: { rewrite (cow_refused k ms _ vpn o Hs0 Hvpn Ho) by (intros p f e; by apply cow_pageb_false). by apply wp_ret. }
  destruct (cow_pageb_true _ _ _ Hb) as (p & f & e & Hp & He & Hc).
  destruct (cow_ok k ms _ vpn o p f e Hs0 Hp He Hc Ho Hfree) as (f' & w' & m' & -> & Hs & S & Hnew & _ & Hh & Hf' & Hv & _). apply wp_ret.
  assert (f_ppn f :: all_trackers k (with_areas m' ms :: l) ≡ₚ f_ppn f' :: all_trackers k (ms :: l)) as Ht.
  { rewrite !all_trackers_cons. simpl. rewrite !app_comm_cons. by rewrite Hh. }
  assert (f_ppn f ∈ all_trackers k (ms :: l)) as Hfin.
  { rewrite all_trackers_cons, elem_of_app. left. apply elem_of_held; [apply Hs0|]. exists vpn, p, f. split_and!; [done|apply Hc|done]. }
  assert (∀ x, x ∈ all_trackers k (ms :: l) → (trackers x (all_trackers k (with_areas m' ms :: l)) ≤ trackers x (all_trackers k (ms :: l)))%nat) as Hold.
  { intros x Hx. pose proof (trackers_perm x _ _ Ht) as Hc'. rewrite !trackers_cons in Hc'.
    rewrite (decide_False (P := f_ppn f' = x)) in Hc' by (intros <-; apply Hnew; by rewrite all_trackers_cons in Hx). destruct (decide _); lia. }
  split.
  - eapply (sys_same k (with_w w' k) ms m' l); [done|done|done|exact S|]. intros v q. rewrite Hv. destruct (decide _); [|by exists v, q].
    destruct (page_at (areas ms) v) as [q'|] eqn:Hq'; [|done]. intros [= <-]. by exists v, q'.
  - intros Hi. apply (isolated_update k (with_w w' k) ms l [with_areas m' ms] Hok Hi).
    + intros t v Hv' _ Hne. apply S; [done|by left].
    + intros x Hx H1. change ([with_areas m' ms] ++ l) with (with_areas m' ms :: l). change (all_trackers (with_w w' k)) with (all_trackers k).
      rewrite Hold; [lia|]. unfold all_trackers. rewrite all_held_cons, !elem_of_app. tauto.
    + intros ms' v g ->%list_elem_of_singleton Hw. change ([with_areas m' ms] ++ l) with (with_areas m' ms :: l). change (all_trackers (with_w w' k)) with (all_trackers k).
      assert (f_ppn g ∈ all_trackers k (with_areas m' ms :: l)) as Hpos%trackers_in.
      { destruct Hw as (q & e' & Hq & Hg & _). rewrite all_trackers_cons, elem_of_app. left. apply elem_of_held; [apply Hs|]. by exists v, q, g. }
      destruct Hw as (q & e' & Hq & Hg & Hsh & He' & Hw). simpl in Hq. rewrite Hv in Hq. destruct (decide (v = vpn)) as [->|Hne].
      * rewrite Hp in Hq. injection Hq as <-. injection Hg as <-. pose proof (trackers_perm (f_ppn f') _ _ Ht) as Hc'.
        rewrite !trackers_cons, (decide_True (P := f_ppn f' = _)), (decide_False (P := f_ppn f = _)) in Hc'; [|intros Heq; apply Hnew; by rewrite <-Heq, <-all_trackers_cons|done].
        rewrite Hc'. rewrite trackers_notin; [done|]. by rewrite all_trackers_cons.
      * simpl in He'. pose proof (page_at_range _ _ _ (sp_tree _ _ _ _ Hs0) Hq). rewrite (st_find _ _ _ _ _ S) in He' by (try (by apply uvpn_top); by right).
        assert (private_writable k ms v g) as Hw0 by (by exists q, e'). pose proof (Hi ms v g ltac:(by left) Hw0) as H1.
        destruct (private_held k (ms :: l) ms v g Hok ltac:(by left) Hw0) as [_ Hin].
        pose proof (Hold (f_ppn g) ltac:(unfold all_trackers; apply elem_of_app; by left)). lia.
Qed.

#[local] Instance may_fault_dec p : Decision (may_fault p).
Proof. unfold may_fault. apply _. Defined.

(** Pages in memory of their own: anonymous, or a private copy of a file. *)
Definition own_memory (p : page) : Prop :=
  pg_type p = Framed ∨
  pg_type p = File ∧ pg_shared p || pg_cow p = false ∧ ∃ f n, pg_back p = Some (f, n) ∧ 0 ≤ n ∧ n * PAGE_SIZE ≤ USIZE_MAX.

Lemma keeps_fault_private k ms l vpn o p :
  sys_ok k (ms :: l) → page_at (areas ms) vpn = Some p → may_fault p → 0 ≤ o < PAGE_SIZE → pg_type p = Framed → pg_anon p = None →
  3 ≤ mm_free (k_w k) → wp (handle_page_fault F k ms (vpn * PAGE_SIZE + o)) (λ '(_, k', ms'), keeps k (ms :: l) k' (ms' :: l)).
Proof.
  intros Hok Hp Hmay Ho Ht Han Hfree. pose proof (sys_sp _ _ _ Hok) as Hs0.
  destruct (fault_private_ok F k ms _ vpn o p Hs0 Hp Hmay Ho Ht Han Hfree) as (f & w' & m' & -> & Hs & [S Hh Hf Hv] & Hnew & _). apply wp_ret. split.
  - eapply (sys_same k (with_w w' k) ms m' l); [done|done|done|exact S|]. intros v q. rewrite Hv.
    destruct (decide _) as [->|]; [|by exists v, q]. intros [= <-]. by exists vpn, p.
  - intros Hi. apply (isolated_fresh k (with_w w' k) ms m' l _ _ [f_ppn f] Hok Hi S); [apply Hs|done|by rewrite <-Hh|apply NoDup_singleton|by intros x ->%list_elem_of_singleton|].
    intros v g (q & e & Hq & Hg & Hsh & He & Hw). simpl in Hq. rewrite Hv in Hq. destruct (decide _) as [->|Hne].
    + left. injection Hq as <-. injection Hg as <-. by left.
    + right. simpl in He. pose proof (page_at_range _ _ _ (sp_tree _ _ _ _ Hs0) Hq).
      rewrite (st_find _ _ _ _ _ S) in He by (try (by apply uvpn_top); by right). by exists q, e.
Qed.

Lemma keeps_fault_file k ms l vpn o p f n :
  sys_ok k (ms :: l) → page_at (areas ms) vpn = Some p → may_fault p → 0 ≤ o < PAGE_SIZE → pg_type p = File →
  pg_shared p || pg_cow p = false → pg_back p = Some (f, n) → 0 ≤ n → n * PAGE_SIZE ≤ USIZE_MAX → 3 * READ_AHEAD_PAGES ≤ mm_free (k_w k) →
  wp (handle_page_fault F k ms (vpn * PAGE_SIZE + o)) (λ '(_, k', ms'), keeps k (ms :: l) k' (ms' :: l)).
Proof.
  intros Hok Hp Hmay Ho Ht Hsc Hb Hn Hn' Hfree. pose proof (sys_sp _ _ _ Hok) as Hs0.
  destruct (fault_file_ok F k ms _ vpn o p f n Hs0 Hp Hmay Ho Ht Hsc Hb Hn Hn' Hfree) as (fs & w' & m' & -> & Hs & S & _ & Hnd & Hin & Hh & Hv & _).
  apply wp_ret.
  assert (∀ v q, page_at m' v = Some q → ∃ q', page_at (areas ms) v = Some q' ∧ pg_anon q = pg_anon q' ∧ pg_shared q = pg_shared q' ∧
    (q = q' ∧ (v ∉ fs.*1) ∨ ∃ g, (v, g) ∈ fs ∧ pg_frame q = Some g)) as Hpg.
  { intros v q. rewrite Hv. unfold frame_in. destruct (list_to_map fs !! v) as [g|] eqn:Hg.
    - apply elem_of_list_to_map_2 in Hg. destruct (page_at (areas ms) v) as [q'|]; [|done]. intros [= <-]. exists q'. split_and!; [done..|]. right. by exists g.
    - apply not_elem_of_list_to_map_2 in Hg. intros Hq. exists q. split_and!; [done..|]. by left. }
  split.
  - eapply (sys_same k (with_w w' k) ms m' l); [done|done|done|exact S|]. intros v q Hq. destruct (Hpg v q Hq) as (q' & ? & ? & ? & _). by exists v, q'.
  - intros Hi. apply (isolated_fresh k (with_w w' k) ms m' l _ _ (ppns fs) Hok Hi S); [apply Hs|done|done|done| |].
    + intros x ([v g] & -> & Hx)%list_elem_of_fmap. by apply (Hin v g Hx).
    + intros v g (q & e & Hq & Hg & Hsh & He & Hw). destruct (Hpg v q Hq) as (q' & Hq' & _ & _ & [[-> Hnin]|(g' & Hg' & Hf')]).
      * right. simpl in He. pose proof (page_at_range _ _ _ (sp_tree _ _ _ _ Hs0) Hq').
        rewrite (st_find _ _ _ _ _ S) in He by (try (by apply uvpn_top); by right). by exists q', e.
      * left. assert (g' = g) as -> by congruence. apply list_elem_of_fmap. by exists (v, g).
Qed.

(** The frame of a shared table gets a tracker more; no private page has it. *)
Lemma keeps_fault_shared k ms l vpn o p r :
  sys_ok k (ms :: l) → page_at (areas ms) vpn = Some p → may_fault p → 0 ≤ o < PAGE_SIZE → pg_type p = Framed → pg_anon p = Some r →
  3 ≤ mm_free (k_w k) → wp (handle_page_fault F k ms (vpn * PAGE_SIZE + o)) (λ '(_, k', ms'), keeps k (ms :: l) k' (ms' :: l)).
Proof.
  intros Hok Hp Hmay Ho Ht Han Hfree. pose proof (sys_sp _ _ _ Hok) as Hs0.
  destruct (so_refs _ _ Hok ms vpn p r ltac:(by left) Hp Han) as [Hpsh Hr]. destruct (lookup_lt_is_Some_2 _ _ Hr) as [d Hd].
  pose proof (so_sizes _ _ Hok d) as Hsz. specialize (λ v f, Hsz v f ltac:(by eapply list_elem_of_lookup_2)).
  destruct (fault_shared_ok F k ms (all_held l) vpn o p r d Hs0 Hp Hmay Ho Ht Han Hd Hsz Hfree) as (f & k' & m' & -> & Hs & [S Hh Hf Hv] & Hk & Hcase & _). apply wp_ret.
  assert (length (k_anon k') = length (k_anon k)) as Hlen by (by rewrite Hk, length_insert).
  assert (f_size f = Page4K) as Hfs.
  { assert (page_at m' vpn = Some (with_frame (Some f) p)) as Hq by (by rewrite Hv, decide_True).
    apply page_at_Some in Hq as (key & a & Hka & Hia & Hpa); [|apply Hs]. destruct (to_area _ (sp_tree _ _ _ _ Hs) _ _ Hka) as [_ Ha].
    by destruct (ao_frames _ Ha vpn f ltac:(by injection Hpa)). }
  split.
  - apply (sys_one k k' ms m' l _ _ Hok Hs S); [by rewrite Hlen| |].
    + intros v q n. rewrite Hv, Hlen. destruct (decide _) as [->|].
      * intros [= <-]. simpl. intros Hn. by apply (so_refs _ _ Hok ms vpn p n ltac:(by left) Hp).
      * by apply (so_refs _ _ Hok ms v q n ltac:(by left)).
    + intros d' v g. rewrite Hk. intros [j [[_ [<- _]]|[_ Hd']]%list_lookup_insert_Some]%list_elem_of_lookup;
        [|apply (so_sizes _ _ Hok d'); by eapply list_elem_of_lookup_2].
      destruct (decide (v = vpn)) as [->|]; [rewrite lookup_insert_eq; by intros [= <-]|]. rewrite lookup_insert_ne by done. by apply Hsz.
  - assert (∃ c, all_trackers k' (with_areas m' ms :: l) ≡ₚ replicate c (f_ppn f) ++ all_trackers k (ms :: l)) as [c Htr].
    { destruct Hcase as [Hin|(Hnone & _ & _)]; [exists 1%nat|exists 2%nat]; rewrite !all_trackers_cons; unfold others; simpl; rewrite <-Hh, Hk.
      - rewrite (insert_id d vpn f Hin), (list_insert_id _ _ _ Hd). done.
      - rewrite (anon_frames_insert _ _ _ _ _ Hd Hnone). simpl. solve_perm. }
    assert (∀ x, x ∈ all_held (ms :: l) → trackers x (all_trackers k (ms :: l)) = 1%nat → trackers x (all_trackers k' (with_areas m' ms :: l)) = 1%nat) as Hold.
    { intros x Hx H1. rewrite (trackers_perm _ _ _ Htr), trackers_app, H1. rewrite (trackers_notin x (replicate _ _)); [done|].
      intros [-> _]%elem_of_replicate. destruct Hcase as [Hin|(_ & Hno & _)].
      - pose proof (trackers_in _ _ Hx) as Hc1. pose proof (trackers_in _ _ (anon_frames_in _ _ _ _ _ Hd Hin)) as Hc2.
        unfold all_trackers in H1. rewrite trackers_app in H1. lia.
      - apply Hno. rewrite all_held_cons, !elem_of_app in *. tauto. }
    intros Hi. apply (isolated_update k k' ms l [with_areas m' ms] Hok Hi).
    + intros t v Hv' _ Hne. apply S; [done|by left].
    + intros x Hx H1. change ([with_areas m' ms] ++ l) with (with_areas m' ms :: l). rewrite (Hold x); [lia| |done].
      rewrite all_held_cons, elem_of_app. by right.
    + intros ms' v g ->%list_elem_of_singleton (q & e & Hq & Hg & Hsh & He & Hw). simpl in Hq, He. rewrite Hv in Hq.
      destruct (decide _) as [->|Hne]; [injection Hq as <-; simpl in Hsh; congruence|].
      pose proof (page_at_range _ _ _ (sp_tree _ _ _ _ Hs0) Hq). rewrite (st_find _ _ _ _ _ S) in He by (try (by apply uvpn_top); by right).
      assert (private_writable k ms v g) as Hw0 by (by exists q, e).
      apply Hold; [by apply (private_held k (ms :: l) ms v g Hok ltac:(by left) Hw0)|]. by apply (Hi ms v g); [left|].
Qed.

Lemma keeps_fault k ms l vpn o :
  sys_ok k (ms :: l) → 0 ≤ vpn < user_top → 0 ≤ o < PAGE_SIZE → (∀ p, page_at (areas ms) vpn = Some p → may_fault p → own_memory p) →
  3 * READ_AHEAD_PAGES ≤ mm_free (k_w k) → wp (handle_page_fault F k ms (vpn * PAGE_SIZE + o)) (λ '(_, k', ms'), keeps k (ms :: l) k' (ms' :: l)).
Proof.
  intros Hg Hvpn Ho Hown Hfree. pose proof (sys_sp _ _ _ Hg) as Hs0. assert (3 ≤ mm_free (k_w k)) as Hfree' by (unfold READ_AHEAD_PAGES in Hfree; lia).
  destruct (page_at (areas ms) vpn) as [p|] eqn:Hp; [destruct (decide (may_fault p)) as [Hmay|Hmay]|].
  - destruct (Hown p eq_refl Hmay) as [Ht|(Ht & Hsc & f & n & Hb & Hn & Hn')]; [|by eapply keeps_fault_file].
    destruct (pg_anon p) as [r|] eqn:Han; [by eapply keeps_fault_shared|by eapply keeps_fault_private].
  - rewrite (fault_refused F k ms _ vpn o Hs0 Hvpn Ho); [by apply wp_ret|]. intros q. rewrite Hp. by intros [= <-].
  - rewrite (fault_refused F k ms _ vpn o Hs0 Hvpn Ho); [by apply wp_ret|]. intros q. by rewrite Hp.
Qed.

(** The child comes in beside the parent; both are read-only where they are private. *)
Lemma keeps_fork k ms l st :
  sys_ok k (ms :: l) → k_next_mm k ≠ 0 → std_page_offset (PhysAddr_from (Z.land st (usize_not CACHED_KERNEL_BASE))) = 0 →
  2 * Z.of_nat (length (held (areas ms))) + 3 ≤ mm_free (k_w k) →
  wp (from_existed_user F k ms st) (λ '(k', child), keeps k (ms :: l) k' (ms :: child :: l)).
Proof.
  intros Hok Hid Hst Hfree. pose proof (sys_sp _ _ _ Hok) as Hs0.
  destruct (fork_ok F k ms _ st Hs0 Hid Hst Hfree) as (k' & tc & -> & Hne & Hno & Hfam & Hmem & Hfind & Htab & Han & _). apply wp_ret.
  set (child := MkMs tc _ _ _ _).
  assert (all_trackers k' (ms :: child :: l) ≡ₚ held (areas ms) ++ all_trackers k (ms :: l)) as Htr.
  { unfold all_trackers. rewrite !all_held_cons, Han. simpl. solve_perm. }
  split.
  - apply (sys_update k k' ms l [ms; child] Hok).
    + eapply mm_ok_perm; [apply Hfam|]. rewrite (all_trackers_cons k' ms (child :: l)). unfold others. rewrite all_held_cons, Han. simpl. solve_perm.
    + simpl. apply NoDup_cons. split; [by intros ?%list_elem_of_singleton|apply NoDup_singleton].
    + intros ms' [->| ->%list_elem_of_singleton]%elem_of_cons; [by left|by right].
    + done.
    + intros t v Hv Ht Htn. by apply Hfind.
    + intros ms' [->| ->%list_elem_of_singleton]%elem_of_cons; (split_and!; [apply Hs0|apply Hfam|apply Hfam]).
    + by rewrite Han.
    + intros ms' v p r Hin Hp Hr. rewrite Han. apply (so_refs _ _ Hok ms v p r ltac:(by left)); [|done].
      by apply elem_of_cons in Hin as [->| ->%list_elem_of_singleton].
    + rewrite Han. apply Hok.
  - intros Hi. apply (isolated_update k k' ms l [ms; child] Hok Hi).
    + intros t v Hv Ht Htn. by apply Hfind.
    + intros x Hx H1. change ([ms; child] ++ l) with (ms :: child :: l). rewrite (trackers_perm _ _ _ Htr), trackers_app, H1.
      rewrite (trackers_perm _ _ _ (all_trackers_cons k ms l)), trackers_app in H1.
      assert (x ∈ others k l) as Hpos%trackers_in by (unfold others; apply elem_of_app; by right). lia.
    + intros ms' v f Hin (p & e & Hp & Hf & Hsh & He & Hw). exfalso.
      apply elem_of_cons in Hin as [->| ->%list_elem_of_singleton]; destruct (fa_ro _ _ _ _ _ _ Hfam v p f Hp Hf Hsh) as [Hro1 Hro2].
      * by rewrite (Hro1 _ _ He) in Hw.
      * by rewrite (Hro2 _ _ He) in Hw.
Qed.

(** The same for spaces that are isolated to begin with. *)
Ltac by_keeps lem := intros [Hok Hi]; intros; eapply wp_mono; [by eapply lem|]; intros x Hx; repeat case_match; destruct Hx as [? Hx]; (split; [done|by apply Hx]).

Lemma good_munmap k ms l start_ len : good k (ms :: l) → user_range start_ len →
  wp (munmap F k ms start_ len) (λ '(k', ms'), good k' (ms' :: l)).
Proof. by_keeps keeps_munmap. Qed.

Lemma good_cow k ms l vpn o : good k (ms :: l) → 0 ≤ vpn < user_top → 0 ≤ o < PAGE_SIZE → 0 < mm_free (k_w k) →
  wp (handle_cow_fault k ms (vpn * PAGE_SIZE + o)) (λ '(_, k', ms'), good k' (ms' :: l)).
Proof. by_keeps keeps_cow_fault. Qed.

Lemma good_fault_private k ms l vpn o p :
  good k (ms :: l) → page_at (areas ms) vpn = Some p → may_fault p → 0 ≤ o < PAGE_SIZE → pg_type p = Framed → pg_anon p = None →
  3 ≤ mm_free (k_w k) → wp (handle_page_fault F k ms (vpn * PAGE_SIZE + o)) (λ '(_, k', ms'), good k' (ms' :: l)).
Proof. by_keeps keeps_fault_private. Qed.

Lemma good_fault_file k ms l vpn o p f n :
  good k (ms :: l) → page_at (areas ms) vpn = Some p → may_fault p → 0 ≤ o < PAGE_SIZE → pg_type p = File →
  pg_shared p || pg_cow p = false → pg_back p = Some (f, n) → 0 ≤ n → n * PAGE_SIZE ≤ USIZE_MAX → 3 * READ_AHEAD_PAGES ≤ mm_free (k_w k) →
  wp (handle_page_fault F k ms (vpn * PAGE_SIZE + o)) (λ '(_, k', ms'), good k' (ms' :: l)).
Proof. by_keeps keeps_fault_file. Qed.

Lemma good_fault_shared k ms l vpn o p r :
  good k (ms :: l) → page_at (areas ms) vpn = Some p → may_fault p → 0 ≤ o < PAGE_SIZE → pg_type p = Framed → pg_anon p = Some r →
  3 ≤ mm_free (k_w k) → wp (handle_page_fault F k ms (vpn * PAGE_SIZE + o)) (λ '(_, k', ms'), good k' (ms' :: l)).
Proof. by_keeps keeps_fault_shared. Qed.

(** ** Runs *)

(** What the operations ask: ranges below the trampoline, counters that have not
    wrapped, the frames that the operation may need, and for a fault a page in memory
    of its own (not one of a file that is mapped shared). *)
Definition op_ok k ms (o : mm_op) : Prop :=
  match o with
  | OMmap addr len _ _ _ _ => k_next_map k ≠ 0 ∧ mmap_range (areas ms) addr len
  | OMunmap start_ len | OMlock start_ len | OMadvise start_ len | OMprotect start_ len _ => user_range start_ len
  | OMremap old_addr old_size new_size => may_move k ms old_addr old_size new_size
  | OGrow old_addr old_size new_size => may_grow old_addr old_size new_size
  | OFault vpn o => 0 ≤ vpn < user_top ∧ 0 ≤ o < PAGE_SIZE ∧ (∀ p, page_at (areas ms) vpn = Some p → may_fault p → own_memory p) ∧
      3 * READ_AHEAD_PAGES ≤ mm_free (k_w k)
  | OCow vpn o => 0 ≤ vpn < user_top ∧ 0 ≤ o < PAGE_SIZE ∧ 0 < mm_free (k_w k)
  | OFork strampoline => k_next_mm k ≠ 0 ∧ std_page_offset (PhysAddr_from (Z.land strampoline (usize_not CACHED_KERNEL_BASE))) = 0 ∧
      2 * Z.of_nat (length (held (areas ms))) + 3 ≤ mm_free (k_w k)
  | OExit => True
  | OStore vpn _ _ => 0 ≤ vpn < user_top
  end.

(** An operation that does not make a page writable whose entry withholds it: all but
    [mprotect] are such, and [mprotect] is one when the range has no such page. *)
Definition respects_cow k ms (o : mm_op) : Prop :=
  match o with
  | OMprotect start_ len prot => cow_kept k ms (first_page start_) (last_page (start_ + len)) (permission_of prot)
  | _ => True
  end.

Lemma do_op_keeps o k ms l : sys_ok k (ms :: l) → op_ok k ms o →
  wp (do_op o k ms) (λ '(k', l'), sys_ok k' (l' ++ l) ∧ (respects_cow k ms o → sys_isolated k (ms :: l) → sys_isolated k' (l' ++ l))).
Proof.
  intros Hg Ho. destruct o; simpl in Ho; unfold do_op.
  - apply wp_bind. eapply wp_mono; [apply keeps_mmap with (l := l); tauto|]. intros [[r k'] ms'] [? ?]. by apply wp_ret.
  - apply wp_bind. eapply wp_mono; [apply keeps_munmap with (l := l); tauto|]. intros [k' ms'] [? ?]. by apply wp_ret.
  - apply wp_bind. eapply wp_mono; [apply keeps_mprotect with (l := l); tauto|]. intros [[r k'] ms'] [? ?]. by apply wp_ret.
  - apply wp_bind. eapply wp_mono; [apply keeps_mlock with (k := k) (l := l); tauto|]. intros [r ms'] [? ?]. by apply wp_ret.
  - apply wp_bind. eapply wp_mono; [apply keeps_madvise with (l := l); tauto|]. intros [[r k'] ms'] [? ?]. by apply wp_ret.
  - apply wp_bind. eapply wp_mono; [apply keeps_mremap with (l := l); tauto|]. intros [[r k'] ms'] [? ?]. by apply wp_ret.
  - apply wp_bind. eapply wp_mono; [apply keeps_inplace with (k := k) (l := l); tauto|]. intros [r ms'] [? ?]. by apply wp_ret.
  - apply wp_bind. eapply wp_mono; [apply keeps_fault with (l := l); tauto|]. intros [[r k'] ms'] [? ?]. by apply wp_ret.
  - apply wp_bind. eapply wp_mono; [apply keeps_cow_fault with (l := l); tauto|]. intros [[r k'] ms'] [? ?]. by apply wp_ret.
  - apply wp_bind. eapply wp_mono; [apply keeps_fork with (l := l); tauto|]. intros [k' child] [? ?]. by apply wp_ret.
  - apply wp_bind. eapply wp_mono; [apply keeps_exit with (l := l); tauto|]. intros [k' ms'] [? ?]. by apply wp_ret.
  - apply wp_ret. destruct (keeps_store k ms l vpn i x Hg Ho). by split.
Qed.

(** The states that a system gets to: new address spaces come in, and any space makes
    any operation that its arguments and the free memory allow; with [cow], no
    operation makes a page writable whose entry withholds it. *)
Inductive reachable (cow : bool) : kmm W_ → list MemorySet → Prop :=
| reach_boot k : mm_ok (k_w k) [] → k_anon k = [] → reachable cow k []
| reach_new k l st k1 ms k2 :
  reachable cow k l → k_next_mm k ≠ 0 → std_page_offset (PhysAddr_from (Z.land st (usize_not CACHED_KERNEL_BASE))) = 0 → 3 ≤ mm_free (k_w k) →
  new_bare k = Some (k1, ms) → map_user_trampoline k1 ms st = Some k2 → reachable cow k2 (ms :: l)
| reach_op k l1 ms l2 o k' l' :
  reachable cow k (l1 ++ ms :: l2) → op_ok k ms o → (cow = true → respects_cow k ms o) → do_op o k ms = Some (k', l') → reachable cow k' (l1 ++ l' ++ l2).

Lemma keeps_new k l st : sys_ok k l → k_next_mm k ≠ 0 → std_page_offset (PhysAddr_from (Z.land st (usize_not CACHED_KERNEL_BASE))) = 0 →
  3 ≤ mm_free (k_w k) → ∃ k1 ms k2, new_bare k = Some (k1, ms) ∧ map_user_trampoline k1 ms st = Some k2 ∧ keeps k l k2 (ms :: l) ∧ areas ms = ∅.
Proof.
  intros Hok Hid Hst Hfree.
  destruct (new_user_ok k (all_trackers k l) st (so_mm _ _ Hok) Hid Hst Hfree) as (tc & k1 & k2 & Hnb & Htr & Hok2 & _ & Hno & Htc & Htab & Hemp & Hold & _ & Han & _).
  cbn zeta in *. eexists k1, _, k2. split_and!; [done|done| |done]. set (ms := MkMs tc _ _ _ _).
  assert (all_trackers k2 (ms :: l) = all_trackers k l) as Ht by (unfold all_trackers; rewrite all_held_cons, Han; done).
  split.
  - split.
    + by rewrite Ht.
    + rewrite fmap_cons. apply NoDup_cons. split; [|apply Hok]. intros (x & Hx & Hin)%list_elem_of_fmap. apply Hno. simpl in Hx. rewrite Hx. by apply Hok.
    + intros x [->|Hin]%elem_of_cons.
      * split_and!; [split; intros *; simpl; rewrite lookup_empty; done|done|]. intros v Hv. simpl. by rewrite Hemp.
      * destruct (so_space _ _ Hok x Hin) as (Ht' & Hm & Hp). split_and!; [done|by apply Htab|]. intros v Hv. rewrite Hold; [by apply Hp|by apply uvpn_top|done].
    + intros x v p r [->|Hin]%elem_of_cons; [done|]. rewrite Han. by apply (so_refs _ _ Hok).
    + rewrite Han. apply Hok.
  - intros Hi x v f [->|Hin]%elem_of_cons Hw; [by destruct Hw as (p & e & Hp & _)|]. rewrite Ht. apply (Hi x v f Hin).
    destruct Hw as (p & e & Hp & Hf & Hs & He & Hw). destruct (so_space _ _ Hok x Hin) as (Ht' & Hm & _).
    pose proof (page_at_range _ _ _ Ht' Hp). rewrite Hold in He by (try done; by apply uvpn_top). by exists p, e.
Qed.

Lemma reachable_keeps cow k l : reachable cow k l → sys_ok k l ∧ (cow = true → sys_isolated k l).
Proof.
  induction 1 as [k Hmm Han|k l st k1 ms k2 _ [IH1 IH2] Hid Hst Hfree Hnb Htr|k l1 ms l2 o k' l' _ [IH1 IH2] Ho Hcow Hdo].
  - split; [|by intros _ ms v f ?%not_elem_of_nil]. split; [unfold all_trackers; by rewrite Han|apply NoDup_nil_2|by intros ? ?%not_elem_of_nil|by intros ???? ?%not_elem_of_nil|].
    rewrite Han. by intros ??? ?%not_elem_of_nil.
  - destruct (keeps_new k l st IH1 Hid Hst Hfree) as (k1' & ms' & k2' & Hnb' & Htr' & [Hg1 Hg2] & _). simplify_eq. split; [done|]. intros Hc. apply Hg2. auto.
  - assert (sys_ok k (ms :: l1 ++ l2)) as Hg by (eapply sys_ok_perm; [|done]; solve_perm).
    pose proof (do_op_keeps o k ms (l1 ++ l2) Hg Ho) as Hw. rewrite Hdo in Hw. simpl in Hw. destruct Hw as [Hw1 Hw2].
    split; [eapply sys_ok_perm; [|done]; solve_perm|]. intros Hc. apply (sys_isolated_perm _ (l' ++ l1 ++ l2)); [solve_perm|].
    apply Hw2; [by apply Hcow|]. eapply sys_isolated_perm; [|by apply IH2]. solve_perm.
Qed.

Lemma reachable_any k l : reachable true k l → reachable false k l.
Proof.
  induction 1 as [k Hmm Han|k l st k1 ms k2 _ IH Hid Hst Hfree Hnb Htr|k l1 ms l2 o k' l' _ IH Ho _ Hdo]; [by apply reach_boot|by eapply reach_new|by eapply reach_op].
Qed.

Lemma reachable_good k l : reachable true k l → good k l.
Proof. intros Hr. destruct (reachable_keeps _ _ _ Hr) as [? Hi]. split; [done|by apply Hi]. Qed.

(** ** What others see of a store *)

(** Two pages with one frame are two trackers of it. *)
Lemma trackers_two m u v p q f g :
  tree_ok m → page_at m u = Some p → pg_frame p = Some f → page_at m v = Some q → pg_frame q = Some g → u ≠ v → f_ppn f = f_ppn g →
  (2 ≤ trackers (f_ppn f) (held m))%nat.
Proof.
  intros Hm Hp Hf Hq Hg Hne Heq. apply page_at_Some in Hp as (key & a & Hk & Hin & ->); [|done]. simpl in Hf.
  rewrite (trackers_perm _ _ _ (held_delete m key a Hk)), trackers_app.
  rewrite (trackers_perm _ _ _ (frames_of_delete a u f Hf)), trackers_cons, decide_True by done.
  destruct (tree_delete m key a Hm Hk) as [Hd Hv]. destruct (decide (inside a v)) as [Hia|Hia].
  - rewrite (page_at_area m key a v Hm Hk Hia) in Hq. injection Hq as <-. simpl in Hg.
    assert (f_ppn f ∈ frames_of (with_data_frames (delete u (data_frames a)) a)) as Hpos%trackers_in; [|lia].
    unfold frames_of. simpl. rewrite Heq. apply list_elem_of_fmap. exists (v, g). split; [done|]. apply elem_of_map_to_list. by rewrite lookup_delete_ne.
  - assert (f_ppn f ∈ held (delete key m)) as Hpos%trackers_in; [|lia]. apply elem_of_held; [done|]. exists v, q, g.
    rewrite Hv, decide_False by done. by split_and!.
Qed.

(** The frame of a private page that can be written is in no other page. *)
Lemma private_frame k l ms v f ms' u q g :
  good k l → ms ∈ l → private_writable k ms v f → ms' ∈ l → page_at (areas ms') u = Some q → pg_frame q = Some g →
  ms_table ms' ≠ ms_table ms ∨ u ≠ v → f_ppn g ≠ f_ppn f.
Proof.
  intros [Hok Hi] Hin Hw Hin' Hq Hg Hne Heq. pose proof (Hi ms v f Hin Hw) as H1.
  destruct (private_held k l ms v f Hok Hin Hw) as [Hh _]. apply list_elem_of_split in Hin as (l1 & l2 & ->).
  rewrite (trackers_perm _ _ _ (all_trackers_perm k (l1 ++ ms :: l2) (ms :: l1 ++ l2) ltac:(solve_perm))) in H1.
  rewrite (trackers_perm _ _ _ (all_trackers_cons k ms _)), trackers_app in H1. pose proof (trackers_in _ _ Hh) as Hp1.
  assert (ms' = ms ∨ ms' ∈ l1 ++ l2) as [->|Hrest] by set_solver.
  - destruct Hne as [?|Hne]; [done|]. destruct Hw as (p & e & Hp & Hf & _).
    pose proof (trackers_two (areas ms) v u p q f g ltac:(by apply Hok; set_solver) Hp Hf Hq Hg ltac:(done) ltac:(done)). lia.
  - assert (f_ppn f ∈ others k (l1 ++ l2)) as Hp2%trackers_in; [|lia]. unfold others. apply elem_of_app. right. apply list_elem_of_bind.
    exists ms'. split; [|done]. apply elem_of_held; [apply Hok; set_solver|]. by exists u, q, g.
Qed.
End sys.
