(* ===== verification/SpaceView.v ===== *)
(** * What a program sees of its memory

    Loads and stores of user programs over the address spaces of the system: a store
    to a private page is seen through that page only, and a fork gives the child a
    copy of the private memory of the parent, taken page by page on the first store. *)

From S2P Require Import Prelude Errno Address PageTable Mm BTree MapArea MemSet Space SpaceUnmap SpaceMap SpaceFault SpaceFork SpaceSys.

Local Open Scope Z_scope.

Section view.
Context {W_ : Type} `{!Mm W_} (F : FileOps W_).
Implicit Types (k : kmm W_) (w : W_) (ms : MemorySet) (l : list MemorySet).

(** A load of a user program, of the word [j] of the page [v]. *)
Definition user_load k ms (v j : Z) : option Z :=
  match mm_find (k_w k) (ms_table ms) v with
  | Some (e, Page4K) => if is_valid e && user_accessible e && readable e then Some (mm_mem (k_w k) (PTE_ppn e) j) else None
  | _ => None
  end.

Lemma user_load_resident k ms L v p f j :
  sp_ok (k_w k) (ms_table ms) (areas ms) L → page_at (areas ms) v = Some p → pg_frame p = Some f →
  user_load k ms v j = if Z.testbit (pg_perm p) 4 && Z.testbit (pg_perm p) 1 then Some (mm_mem (k_w k) (f_ppn f) j) else None.
Proof.
  intros Hs Hp Hf. destruct (find_resident _ _ _ _ _ _ _ Hs Hp Hf) as (e & He & [H1 H2 H3 H4 H5 H6]).
  unfold user_load. by rewrite He, H1, H2, H3, H5.
Qed.

Lemma user_load_absent k ms L v j :
  sp_ok (k_w k) (ms_table ms) (areas ms) L → 0 ≤ v < user_top → page_at (areas ms) v ≫= pg_frame = None → user_load k ms v j = None.
Proof. intros Hs Hv Hn. unfold user_load. by rewrite (find_absent _ _ _ _ _ Hs Hv Hn). Qed.

(** The page can be loaded from, or is not resident. *)
Lemma user_load_cases k ms L v : sp_ok (k_w k) (ms_table ms) (areas ms) L → 0 ≤ v < user_top →
  (∀ j, user_load k ms v j = None) ∨
  ∃ p f, page_at (areas ms) v = Some p ∧ pg_frame p = Some f ∧ ∀ j, user_load k ms v j = Some (mm_mem (k_w k) (f_ppn f) j).
Proof.
  intros Hs Hv. destruct (page_at (areas ms) v) as [p|] eqn:Hp; [destruct (pg_frame p) as [f|] eqn:Hf|].
  - destruct (Z.testbit (pg_perm p) 4 && Z.testbit (pg_perm p) 1) eqn:Hb.
    + right. exists p, f. split_and!; [done|done|]. intros j. by rewrite (user_load_resident _ _ _ _ _ _ _ Hs Hp Hf), Hb.
    + left. intros j. by rewrite (user_load_resident _ _ _ _ _ _ _ Hs Hp Hf), Hb.
  - left. intros j. apply (user_load_absent _ _ _ _ _ Hs Hv). by rewrite Hp.
  - left. intros j. apply (user_load_absent _ _ _ _ _ Hs Hv). by rewrite Hp.
Qed.

Lemma store_same_find k ms l v i x ms' u : sys_ok k (ms :: l) → 0 ≤ v < user_top → 0 ≤ u < user_top →
  mm_find (k_w (user_store k ms v i x)) (ms_table ms') u = mm_find (k_w k) (ms_table ms') u.
Proof.
  intros Hok Hv Hu. destruct (user_store_ok k ms l v i x Hok Hv) as [->|(p & f & w' & _ & _ & _ & -> & _ & _ & Hfs & _)]; [done|].
  simpl. by apply Hfs, uvpn_top.
Qed.

(** A store to a private page, seen from every page of every space. *)
Lemma store_seen k l ms v i x p ms' u j :
  good k l → ms ∈ l → 0 ≤ v < user_top → page_at (areas ms) v = Some p → pg_shared p = false → ms' ∈ l → 0 ≤ u < user_top →
  user_load (user_store k ms v i x) ms' u j = user_load k ms' u j ∨
  ms_table ms' = ms_table ms ∧ u = v ∧ j = i ∧ user_load (user_store k ms v i x) ms' u j = (λ _, x) <$> user_load k ms' u j.
Proof.
  intros Hg Hin Hv Hp Hsh Hin' Hu. pose proof Hin as Hin0. apply list_elem_of_split in Hin0 as (l1 & l2 & Hl).
  assert (sys_ok k (ms :: l1 ++ l2)) as Hok by (eapply sys_ok_perm; [|apply Hg]; rewrite Hl; solve_perm).
  unfold user_load. rewrite (store_same_find k ms (l1 ++ l2)) by done.
  destruct (mm_find (k_w k) (ms_table ms') u) as [[e []]|] eqn:He; try by left. destruct (_ && _ && _); [|by left].
  destruct (user_store_ok k ms (l1 ++ l2) v i x Hok Hv) as [->|(p' & f & w' & Hp' & Hf & Hw & -> & _ & _ & _ & Hmem)]; [by left|].
  assert (p' = p) as -> by congruence. specialize (Hw Hsh).
  assert (∃ q g, page_at (areas ms') u = Some q ∧ pg_frame q = Some g ∧ PTE_ppn e = f_ppn g) as (q & g & Hq & Hgf & Hppn).
  { pose proof Hin' as Hin1. apply list_elem_of_split in Hin1 as (l3 & l4 & Hl').
    assert (sys_ok k (ms' :: l3 ++ l4)) as Hok' by (eapply sys_ok_perm; [|apply Hg]; rewrite Hl'; solve_perm).
    destruct (store_frame k ms' (l3 ++ l4) u e Hok' Hu He) as (q & g & ? & ? & ? & _). by exists q, g. }
  simpl. rewrite Hmem, Hppn. destruct (decide (ms_table ms' = ms_table ms ∧ u = v)) as [[Ht ->]|Hne].
  - assert (ms' = ms) as ->.
    { apply list_elem_of_lookup in Hin as [a Ha]. apply list_elem_of_lookup in Hin' as [b Hb].
      assert (a = b) as <-; [|congruence]. apply (NoDup_lookup (ms_table <$> l) a b (ms_table ms) (so_tables _ _ (proj1 Hg))); rewrite list_lookup_fmap.
      - by rewrite Ha.
      - by rewrite Hb, <-Ht. }
    assert (g = f) as -> by congruence. destruct (decide (f_ppn f = f_ppn f ∧ j = i)) as [[_ ->]|]; [right|left]; done.
  - left. rewrite decide_False; [done|]. intros [Heq _].
    apply (private_frame k l ms v f ms' u q g Hg Hin Hw Hin' Hq Hgf); [|done]. destruct (decide (u = v)); [left|by right]. tauto.
Qed.

(** After a fork, the first store of the child makes a copy: the child goes on with
    the contents the page had, and the parent does not see the store. *)
Lemma fork_cow_ok k ms L st v o p f i x :
  sp_ok (k_w k) (ms_table ms) (areas ms) L → k_next_mm k ≠ 0 →
  std_page_offset (PhysAddr_from (Z.land st (usize_not CACHED_KERNEL_BASE))) = 0 →
  2 * Z.of_nat (length (held (areas ms))) + 3 ≤ mm_free (k_w k) →
  page_at (areas ms) v = Some p → pg_frame p = Some f → pg_type p ≠ Guard → pg_shared p = false →
  Z.testbit (pg_perm p) 1 = true → Z.testbit (pg_perm p) 2 = true → Z.testbit (pg_perm p) 4 = true → 0 ≤ o < PAGE_SIZE →
  ∃ k1 child, from_existed_user F k ms st = Some (k1, child) ∧
    (∀ j, user_load k1 child v j = user_load k ms v j ∧ user_load k1 ms v j = user_load k ms v j) ∧
    user_store k1 child v i x = k1 ∧ user_store k1 ms v i x = k1 ∧
    (0 < mm_free (k_w k1) → ∃ k2 child2, handle_cow_fault k1 child (v * PAGE_SIZE + o) = Some (true, k2, child2) ∧
       let k3 := user_store k2 child2 v i x in
       ∀ j, user_load k3 child2 v j = (if decide (j = i) then Some x else user_load k ms v j) ∧ user_load k3 ms v j = user_load k ms v j).
Proof.
  intros Hs Hid Hst Hfree Hp Hf Hg Hsh H1 H2 H4 Ho.
  destruct (fork_ok F k ms L st Hs Hid Hst Hfree) as (k1 & tc & Hfork & Hne & Hno & Hfam & Hmem & _).
  set (child := MkMs tc _ _ _ _) in *. exists k1, child.
  pose proof (fa_parent _ _ _ _ _ _ Hfam) as Hps. pose proof (fa_child _ _ _ _ _ _ Hfam) as Hcs.
  assert (∀ j, user_load k ms v j = Some (mm_mem (k_w k) (f_ppn f) j)) as Hl0 by (intros j; by rewrite (user_load_resident _ _ _ _ _ _ _ Hs Hp Hf), H1, H4).
  assert (f_ppn f ∈ held (areas ms)) as Hfh by (apply elem_of_held; [apply Hs|]; by exists v, p, f).
  assert (∀ j, mm_mem (k_w k1) (f_ppn f) j = mm_mem (k_w k) (f_ppn f) j) as Hm1 by (intros j; apply Hmem, elem_of_app; by left).
  destruct (fa_ro _ _ _ _ _ _ Hfam v p f Hp Hf Hsh) as [Hro1 Hro2].
  destruct (find_resident _ _ _ _ _ _ _ Hps Hp Hf) as (ep & Hep & _). destruct (find_resident _ _ _ _ v p f Hcs Hp Hf) as (ec & Hec & _).
  split_and!; [done| | | |].
  - intros j. rewrite Hl0, <-Hm1. split.
    + by rewrite (user_load_resident k1 child _ v p f j Hcs Hp Hf), H1, H4.
    + by rewrite (user_load_resident k1 ms _ v p f j Hps Hp Hf), H1, H4.
  - unfold user_store. change (ms_table child) with tc. rewrite Hec, (Hro2 _ _ Hec). by rewrite andb_false_r.
  - unfold user_store. rewrite Hep, (Hro1 _ _ Hep). by rewrite andb_false_r.
  - intros Hfree1. destruct (cow_ok k1 child (held (areas ms) ++ L) v o p f ec Hcs Hp Hec) as (f' & w2 & m2 & Hcow & Hs2 & S2 & Hnew & Hcopy & _ & Hfind2 & Hv2 & _).
    { split_and!; [done|done|by rewrite flags_contain_W|done|by apply (Hro2 _ _ Hec)]. }
    { done. }
    { done. }
    exists (with_w w2 k1), (with_areas m2 child). split; [done|]. cbn zeta.
    assert (page_at m2 v = Some (with_frame (Some f') p)) as Hp2 by (rewrite Hv2, decide_True by done; simpl; by rewrite Hp).
    assert (f_ppn f' ≠ f_ppn f) as Hff by (intros Heq; apply Hnew; rewrite Heq; apply elem_of_app; by left).
    pose proof (uvpn_top v (page_at_range _ _ _ (sp_tree _ _ _ _ Hs) Hp)) as Hvr.
    destruct (find_resident _ _ _ _ v _ f' Hs2 Hp2 eq_refl) as (e2 & He2 & Hpf). simpl in He2, Hpf.
    assert (writable e2 = true) as Hw2.
    { change (ms_table child) with tc in *. rewrite Hfind2 in He2. injection He2 as <-. by rewrite plain_flags. }
    assert (f_ppn f' ∈ held m2 ++ held (areas ms) ++ L) as Hin2.
    { apply elem_of_app. left. apply elem_of_held; [apply Hs2|]. by exists v, (with_frame (Some f') p), f'. }
    unfold user_store. change (ms_table (with_areas m2 child)) with tc. change (k_w (with_w w2 k1)) with w2. rewrite He2, (pf_valid _ _ _ Hpf), (pf_user _ _ _ Hpf), H4, Hw2.
    cbn [andb]. rewrite (pf_ppn _ _ _ Hpf). set (c := λ j, _).
    destruct (mm_store_spec w2 _ (f_ppn f') c (sp_mm _ _ _ _ Hs2) Hin2) as (_ & Hc1 & _ & Hc2 & _ & Hc3).
    intros j. unfold user_load at 1 3. cbn [k_w with_w ms_table with_areas]. change (ms_table child) with tc. rewrite !Hc3 by done.
    rewrite He2, (pf_valid _ _ _ Hpf), (pf_user _ _ _ Hpf), (pf_read _ _ _ Hpf), H1, H4, (pf_ppn _ _ _ Hpf), Hc1. cbn [andb].
    rewrite (st_find _ _ _ _ _ S2) by (try done; by left). split.
    + unfold c. destruct (decide _); [done|]. by rewrite Hcopy, Hm1, Hl0.
    + rewrite Hl0. destruct (find_resident _ _ _ _ _ _ _ Hps Hp Hf) as (e & He & [P1 P2 P3 P4 P5 P6]). rewrite He, P1, P5, P3, H1, H4, P2. cbn [andb].
      rewrite Hc2 by done. rewrite (st_mem _ _ _ _ _ S2) by (apply elem_of_app; by left). by rewrite Hm1.
Qed.
End view.
