(* ===== verification/SpaceProps.v ===== *)
(** * Properties of address spaces

    The theorems about the operations of [MemorySet], over any implementation of the
    memory interface, with witnesses over the SV39 page tables and the frame
    allocator; and runs that show where the code leaves its own contract. *)

From S2P Require Import Prelude Errno Address FrameAllocator PageTable Mm BTree MapArea MemSet Space SpaceUnmap SpaceProtect SpaceMap SpaceFault SpaceFork SpaceMove SpaceSys SpaceView.

Local Open Scope Z_scope.

(** ** A system to try the operations on *)

Definition demo_files : FileOps world :=
  MkFileOps world Z.of_nat (λ _, true) (λ _, 0x5000) (λ w _ _, (None, w)) (λ w _ _, (None, w)) (λ _ n i, 1000 * n + i).

Definition demo_world : world := MkWorld (λ _ _, 0) (init FrameAllocator.new 1000 3000) [] ∅ (MkPageTable 0 []).

Definition demo_boot : kmm world := MkK demo_world [] [] 1 1.

Definition strampoline : Z := 0x80200000.

Definition demo_new : kmm world * MemorySet :=
  default (demo_boot, MkMs 0 0 ∅ 0 0) ('(k, ms) ← new_bare demo_boot; k ← map_user_trampoline k ms strampoline; Some (k, ms)).

Definition demo_step (o : mm_op) (s : kmm world * MemorySet) : kmm world * MemorySet :=
  match do_op demo_files o s.1 s.2 with Some (k, [ms]) => (k, ms) | _ => s end.

(** Three anonymous pages and three pages of a file, private, readable and writable. *)
Definition demo_mapped := demo_step (OMmap 0x20000 0x3000 3 0x12 (Some 7%nat) 0x1000) (demo_step (OMmap 0x10000 0x3000 3 0x32 None 0) demo_new).

(** The middle page is resident. *)
Definition demo_resident := demo_step (OFault 17 0) demo_mapped.

Definition demo_fork : kmm world * MemorySet :=
  default demo_resident (from_existed_user demo_files demo_resident.1 demo_resident.2 strampoline).

Lemma demo_world_ok : mm_ok demo_world [].
Proof.
  split.
  - by intros pt ?%not_elem_of_nil.
  - exists [], [], []. split_and!; [exists 1000, []; by apply init_inv|done|done].
  - done.
Qed.

Lemma demo_step_eq o s : (if do_op demo_files o s.1 s.2 is Some (_, [_]) then true else false) = true →
  do_op demo_files o s.1 s.2 = Some ((demo_step o s).1, [(demo_step o s).2]).
Proof. unfold demo_step. by destruct (do_op demo_files o s.1 s.2) as [[k [|ms [|]]]|]. Qed.

Lemma demo_step_reach o s : reachable demo_files true s.1 [s.2] → op_ok s.1 s.2 o → respects_cow s.1 s.2 o →
  (if do_op demo_files o s.1 s.2 is Some (_, [_]) then true else false) = true →
  reachable demo_files true (demo_step o s).1 [(demo_step o s).2].
Proof. intros Hr Ho Hc He%demo_step_eq. apply (reach_op demo_files true s.1 [] s.2 [] o _ [(demo_step o s).2] Hr Ho (λ _, Hc) He). Qed.

Lemma demo_new_reach : reachable demo_files true demo_new.1 [demo_new.2].
Proof.
  assert (reachable demo_files true demo_boot []) as Hb by (apply reach_boot; [apply demo_world_ok|done]).
  assert (∃ k1, new_bare demo_boot = Some (k1, demo_new.2) ∧ map_user_trampoline k1 demo_new.2 strampoline = Some demo_new.1) as (k1 & Hn & Ht).
  { assert ((if '(k, ms) ← new_bare demo_boot; map_user_trampoline k ms strampoline is Some _ then true else false) = true) as Hx by (vm_compute; reflexivity).
    unfold demo_new. destruct (new_bare demo_boot) as [[k1 ms]|] eqn:Hn; [|done]. cbn [mbind option_bind] in *.
    destruct (map_user_trampoline k1 ms strampoline) as [k2|] eqn:Ht; [by exists k1|done]. }
  by apply (reach_new demo_files true demo_boot [] strampoline k1 demo_new.2 demo_new.1 Hb).
Qed.

Lemma demo_mapped_reach : reachable demo_files true demo_mapped.1 [demo_mapped.2].
Proof.
  apply demo_step_reach; [apply demo_step_reach; [apply demo_new_reach| |exact I|vm_compute; reflexivity]| |exact I|vm_compute; reflexivity].
  - split; [by vm_compute|]. right. split; [done|]. unfold user_range, user_top, PAGE_SIZE. lia.
  - split; [by vm_compute|]. right. split; [done|]. unfold user_range, user_top, PAGE_SIZE. lia.
Qed.

Lemma demo_resident_reach : reachable demo_files true demo_resident.1 [demo_resident.2].
Proof.
  apply demo_step_reach; [apply demo_mapped_reach| |exact I|vm_compute; reflexivity]. split_and!; [by vm_compute..| |by vm_compute].
  intros p Hp _. left. vm_compute in Hp. by injection Hp as <-.
Qed.

Lemma demo_fork_eq : from_existed_user demo_files demo_resident.1 demo_resident.2 strampoline = Some demo_fork.
Proof.
  assert ((if from_existed_user demo_files demo_resident.1 demo_resident.2 strampoline is Some _ then true else false) = true) as Hx by (vm_compute; reflexivity).
  unfold demo_fork. by destruct (from_existed_user _ _ _ _).
Qed.

Module SpaceProps.
Section props.
Context {W_ : Type} `{!Mm W_} (F : FileOps W_).
Implicit Types (k : kmm W_) (ms : MemorySet) (L : list Z) (l : list MemorySet).

(** C1 The states reached by mmap, munmap, mprotect (any rights), mlock, madvise, mremap
    in place and by moving, page faults, copy-on-write faults, fork, exit and stores, of
    any number of address spaces in any order, under the conditions of [op_ok]: byte
    ranges end below the page of the trampoline, the counters of ids have not wrapped,
    the frames an operation may need are free (three for each of the 64 pages a fault
    may bring in, two for each page a fork or a move has to map), mremap gets whole
    pages, and a fault is not on a shared mapping of a file. In each of them every space
    is a tree of disjoint areas below the trampoline that agrees with its page table
    page by page and the counts of the frames are right; and the next such operation
    returns, with a result or an error, in such a state. *)
Theorem spaces_stay_well_formed k l1 ms l2 o :
  reachable F false k (l1 ++ ms :: l2) → op_ok k ms o →
  sys_ok k (l1 ++ ms :: l2) ∧
  ∃ k' l', do_op F o k ms = Some (k', l') ∧ reachable F false k' (l1 ++ l' ++ l2) ∧ sys_ok k' (l1 ++ l' ++ l2).
Proof.
  intros Hr Ho. pose proof (proj1 (reachable_keeps _ _ _ _ Hr)) as Hg. split; [done|].
  assert (sys_ok k (ms :: l1 ++ l2)) as Hg' by (eapply sys_ok_perm; [|done]; solve_perm).
  destruct (wp_elim _ _ (do_op_keeps F o k ms (l1 ++ l2) Hg' Ho)) as ([k' l'] & Hdo & _).
  assert (reachable F false k' (l1 ++ l' ++ l2)) as Hr' by (by eapply reach_op).
  exists k', l'. split_and!; [done|done|]. apply (reachable_keeps _ _ _ _ Hr').
Qed.

(** C2 In the states that such operations reach without an mprotect that makes a
    resident private page writable whose entry withholds the right (the code does not
    refuse such an mprotect): a store to a page of private memory is seen by no other
    program and at no other page. Every load from every page of every address space
    gives the same result as before, except the load of that word through that page. *)
Theorem private_memory_isolated k l ms v i x p ms' u j :
  reachable F true k l → ms ∈ l → 0 ≤ v < user_top → page_at (areas ms) v = Some p → pg_shared p = false → ms' ∈ l → 0 ≤ u < user_top →
  user_load (user_store k ms v i x) ms' u j = user_load k ms' u j ∨
  ms_table ms' = ms_table ms ∧ u = v ∧ j = i ∧ user_load (user_store k ms v i x) ms' u j = (λ _, x) <$> user_load k ms' u j.
Proof. intros Hr. by apply store_seen, (reachable_good _ _ _ Hr). Qed.

(** C14 A fork gives the child the memory of the parent. Both can read every private
    page with the contents it had, and neither can write to it; the fault of the
    first store of the child is resolved, the child then has the contents with its
    store in them, and the parent still has the old contents. *)
Theorem fork_copies_on_write k ms L st v o p f i x :
  sp_ok (k_w k) (ms_table ms) (areas ms) L → k_next_mm k ≠ 0 →
  std_page_offset (PhysAddr_from (Z.land st (usize_not CACHED_KERNEL_BASE))) = 0 →
  2 * Z.of_nat (length (held (areas ms))) + 3 ≤ mm_free (k_w k) →
  page_at (areas ms) v = Some p → pg_frame p = Some f → pg_type p ≠ Guard → pg_shared p = false →
  Z.testbit (pg_perm p) 1 = true → Z.testbit (pg_perm p) 2 = true → Z.testbit (pg_perm p) 4 = true → 0 ≤ o < PAGE_SIZE →
  ∃ k1 child, from_existed_user F k ms st = Some (k1, child) ∧
    (∀ j, user_load k1 child v j = user_load k ms v j ∧ user_load k1 ms v j = user_load k ms v j) ∧
    user_store k1 child v i x = k1 ∧ user_store k1 ms v i x = k1 ∧
    (0 < mm_free (k_w k1) → ∃ k2 child2, handle_cow_fault k1 child (v * PAGE_SIZE + o) = Some (true, k2, child2) ∧
       let k3 := user_store k2 child2 v i x in
       ∀ j, user_load k3 child2 v j = (if decide (j = i) then Some x else user_load k ms v j) ∧ user_load k3 ms v j = user_load k ms v j).
Proof. apply fork_cow_ok. Qed.

(** C15 [munmap] removes exactly the pages of the range: the pages outside keep their
    attributes, frames and entries (areas are cut where they cross an end of the
    range), no other address space and no contents of a frame with a tracker change,
    and the pages of shared file mappings, and no others, are written back. *)
Theorem munmap_exact k ms L start_ len :
  sp_ok (k_w k) (ms_table ms) (areas ms) L → user_range start_ len →
  let lo := first_page start_ in let hi := last_page (start_ + len) in
  ∃ k' ms', munmap F k ms start_ len = Some (k', ms') ∧ ms' = with_areas (areas ms') ms ∧
    sp_ok (k_w k') (ms_table ms) (areas ms') L ∧
    (∀ v, page_at (areas ms') v = if decide (lo ≤ v < hi) then None else page_at (areas ms) v) ∧
    (∀ v, 0 ≤ v < user_top → lo ≤ v < hi → mm_find (k_w k') (ms_table ms) v = None) ∧
    stable (ms_table ms) (λ v, lo ≤ v < hi) (held (areas ms) ++ L) (k_w k) (k_w k') ∧
    logged k k' (λ e, ∃ v, lo ≤ v < hi ∧ page_at (areas ms) v ≫= written_back F = Some e).
Proof.
  intros Hs Hr lo hi. destruct (munmap_ok F k ms L start_ len Hs Hr) as (k' & ms' & He & Hs' & [Hms Hv _ S Hl]).
  exists k', ms'. split_and!; [done..| |done|done]. intros v Hvr Hin. apply (find_absent _ _ _ _ _ Hs' Hvr). by rewrite Hv, decide_True.
Qed.

(** C16 [mmap] adds exactly the pages of the range it returns, with the asked rights
    and the asked pages of the file, none of them resident; a place it chooses was
    free, and so was a given place unless [MAP_FIXED] asks to replace what is there.
    It fails with [EBADF] when a file is missing, and with [EEXIST] when the given
    place is taken or when there is no free place in the upper part of the user half,
    and changes nothing then. *)
Theorem mmap_exact k ms L addr len prot flags file off :
  sp_ok (k_w k) (ms_table ms) (areas ms) L → k_next_map k ≠ 0 → mmap_range (areas ms) addr len →
  ∃ r k' ms', mmap F k ms addr len prot flags file off = Some (r, k', ms') ∧ ms' = with_areas (areas ms') ms ∧
    sp_ok (k_w k') (ms_table ms) (areas ms') L ∧
    match r with
    | inl e => k' = k ∧ ms' = ms ∧
        (e = EBADF ∧ flags_contain flags MAP_ANONYMOUS = false ∧ file = None ∨
         e = EEXIST ∧ addr ≠ 0 ∧ flags_contain flags MAP_FIXED = false ∧ ¬ free_range (areas ms) addr len ∨
         e = EEXIST ∧ addr = 0 ∧ ∀ x, search_base ≤ x → free_range (areas ms) x len → USER_APP_MAX_SIZE ≤ x + len)
    | inr s => user_range s len ∧
        (addr = 0 ∧ free_range (areas ms) s len ∨
         s = addr ∧ (flags_contain flags MAP_FIXED = true ∨ free_range (areas ms) addr len)) ∧
        stable (ms_table ms) (λ v, first_page s ≤ v < last_page (s + len)) (held (areas ms) ++ L) (k_w k) (k_w k') ∧
        ∀ v, page_at (areas ms') v = if decide (first_page s ≤ v < last_page (s + len))
          then Some (mapped_page (permission_of prot) (flags_contain flags MAP_SHARED) (mmap_file flags file off)
            (length (k_anon k)) (k_next_map k) (first_page s) v) else page_at (areas ms) v
    end.
Proof.
  intros Hs Hid Hr. destruct (mmap_ok F k ms L addr len prot flags file off Hs Hid Hr) as (r & k' & ms' & He & Hms & Hs' & Hres).
  exists r, k', ms'. split_and!; [done..|]. destruct r; [done|]. tauto.
Qed.

(** C28 [mprotect] gives all pages of the range the new rights, in the areas and in
    the page table, or none: it fails exactly when some page of the range is not
    mapped or may not have the rights, and then no page has changed. *)
Theorem mprotect_all_or_nothing k ms L start_ len prot :
  sp_ok (k_w k) (ms_table ms) (areas ms) L → user_range start_ len →
  let lo := first_page start_ in let hi := last_page (start_ + len) in
  ∃ r w' m', mprotect F k ms start_ len prot = Some (r, with_w w' k, with_areas m' ms) ∧
    sp_ok w' (ms_table ms) m' L ∧ stable (ms_table ms) (λ v, lo ≤ v < hi) (held (areas ms) ++ L) (k_w k) w' ∧
    match r with
    | inr _ => range_may F (Some (permission_of prot)) (areas ms) lo hi ∧
        ∀ v, page_at m' v = if decide (lo ≤ v < hi) then page_perm (permission_of prot) <$> page_at (areas ms) v
          else page_at (areas ms) v
    | inl e => (e = ENOMEM ∨ e = EACCES) ∧ ¬ range_may F (Some (permission_of prot)) (areas ms) lo hi ∧
        w' = k_w k ∧ ∀ v, page_at m' v = page_at (areas ms) v
    end.
Proof.
  intros Hs Hr lo hi. destruct (mprotect_ok F k ms L start_ len prot Hs Hr) as (r & w' & m' & He & Hs' & _ & S & Hres).
  by exists r, w', m'.
Qed.

(** C29 A fault on a page of a private file mapping makes that page resident, and up
    to 63 pages that follow it in the mapping, each in a frame that nobody had, with
    its page of the file (cleared from where the mapping says the file ends) and the
    rights of the mapping, for at most three frames a page; nothing else changes. *)
Theorem file_fault_reads_ahead k ms L vpn o p f n :
  sp_ok (k_w k) (ms_table ms) (areas ms) L → page_at (areas ms) vpn = Some p → may_fault p → 0 ≤ o < PAGE_SIZE →
  pg_type p = File → pg_shared p || pg_cow p = false → pg_back p = Some (f, n) → 0 ≤ n → n * PAGE_SIZE ≤ USIZE_MAX →
  3 * READ_AHEAD_PAGES ≤ mm_free (k_w k) →
  ∃ fs w' m', handle_page_fault F k ms (vpn * PAGE_SIZE + o) = Some (true, with_w w' k, with_areas m' ms) ∧
    sp_ok w' (ms_table ms) m' L ∧ stable (ms_table ms) (λ v, v ∈ fs.*1) (held (areas ms) ++ L) (k_w k) w' ∧
    is_Some (frame_in fs vpn) ∧ NoDup (ppns fs) ∧
    (∀ v g, (v, g) ∈ fs → vpn ≤ v < vpn + READ_AHEAD_PAGES ∧ (f_ppn g ∉ held (areas ms) ++ L) ∧ page_at (areas ms) v ≫= pg_frame = None ∧
       pg_back <$> page_at (areas ms) v = Some (Some (f, n + (v - vpn))) ∧
       (∀ i, mm_mem w' (f_ppn g) i = file_content F (pg_zero p) f (n + (v - vpn)) v i) ∧
       mm_find w' (ms_table ms) v = Some (PTE_new (f_ppn g) (final_flags (pg_perm p)), Page4K)) ∧
    held m' ≡ₚ ppns fs ++ held (areas ms) ∧
    (∀ v, page_at m' v = match frame_in fs v with Some g => with_frame (Some g) <$> page_at (areas ms) v | None => page_at (areas ms) v end) ∧
    mm_free (k_w k) ≤ mm_free w' + 3 * READ_AHEAD_PAGES.
Proof. apply fault_file_ok. Qed.

(** C30 [mremap] moves a private anonymous area with its frames: the pages have the
    same attributes, frames and entries at the new place, with new pages behind them;
    the old place is free, no frame was copied, and nothing else changes. It fails
    with [ENOMEM], changing nothing, only when there is no free place. *)
Theorem mremap_moves_pages k ms L old_addr old_size new_size a :
  sp_ok (k_w k) (ms_table ms) (areas ms) L → user_range old_addr old_size → (PAGE_SIZE | old_addr) →
  old_size ≤ new_size ≤ 2 ^ 38 → (PAGE_SIZE | new_size) →
  areas ms !! first_page old_addr = Some a → get_end a = last_page (old_addr + old_size) →
  map_type a = Framed → is_shared a = false → backing_file a = None → anonymous_shared_frames a = None →
  2 * Z.of_nat (length (frames_of a)) ≤ mm_free (k_w k) →
  ∃ r k' ms', mremap_move_private_anon k ms old_addr old_size new_size = Some (r, k', ms') ∧
    match r with
    | inl e => e = ENOMEM ∧ k' = k ∧ ms' = ms ∧ ∀ x, search_base ≤ x → free_range (areas ms) x new_size → USER_APP_MAX_SIZE ≤ x + new_size
    | inr new_addr => user_range new_addr new_size ∧ free_range (areas ms) new_addr new_size ∧ ms' = with_areas (areas ms') ms ∧ k' = with_w (k_w k') k ∧
        sp_ok (k_w k') (ms_table ms) (areas ms') L ∧ held (areas ms') ≡ₚ held (areas ms) ∧
        stable (ms_table ms) (λ v, inside a v ∨ first_page new_addr ≤ v < last_page (new_addr + new_size)) (held (areas ms) ++ L) (k_w k) (k_w k') ∧
        let δ := first_page new_addr - first_page old_addr in
        (∀ v, inside a v → mm_find (k_w k') (ms_table ms) (v + δ) = mm_find (k_w k) (ms_table ms) v) ∧
        ∀ v, page_at (areas ms') v = if decide (first_page new_addr ≤ v < last_page (new_addr + new_size))
          then Some (with_frame (data_frames a !! (v - δ)) (page_of a (v - δ)))
          else if decide (inside a v) then None else page_at (areas ms) v
    end.
Proof. apply mremap_move_ok. Qed.

(** C31 The tear-down of an address space releases every frame its areas hold: the
    trackers that remain are exactly those of others, no page below the trampoline is
    mapped any more, and other address spaces are as they were. *)
Theorem exit_releases_all k ms L :
  sp_ok (k_w k) (ms_table ms) (areas ms) L →
  ∃ k', recycle_data_pages F k ms = Some (k', with_areas ∅ ms) ∧ mm_ok (k_w k') L ∧
    (∀ v, 0 ≤ v < user_top → mm_find (k_w k') (ms_table ms) v = None) ∧
    stable (ms_table ms) (λ v, is_Some (page_at (areas ms) v)) (held (areas ms) ++ L) (k_w k) (k_w k') ∧
    logged k k' (λ e, ∃ v, page_at (areas ms) v ≫= written_back F = Some e).
Proof. apply recycle_ok. Qed.
End props.

(** After a fork, [mprotect] makes the pages of the parent writable although the
    child has the same frames: the parent stores without a fault, and the child sees
    the store in its own private memory. *)
Theorem mprotect_breaks_isolation :
  let child := demo_fork.2 in
  ∃ k1 ms1, mprotect demo_files demo_fork.1 demo_resident.2 0x11000 0x1000 3 = Some (inr (), k1, ms1) ∧
    user_load demo_fork.1 child 17 0 = Some 0 ∧ user_load (user_store k1 ms1 17 0 42) child 17 0 = Some 42.
Proof.
  cbn zeta. set (r := mprotect demo_files demo_fork.1 demo_resident.2 0x11000 0x1000 3).
  assert ((if r is Some (inr _, _, _) then true else false) = true) as Hx by (vm_compute; reflexivity).
  assert (from_option (λ '(_, k, ms), user_load (user_store k ms 17 0 42) demo_fork.2 17 0) None r = Some 42) as Hy by (vm_compute; reflexivity).
  clearbody r. destruct r as [[[[e|[]] k1] ms1]|]; [done| |done]. exists k1, ms1. split_and!; [done| |done]. vm_compute. reflexivity.
Qed.

(** [mmap] accepts a fixed place over the page of the trampoline, which no area
    stands for, when the length is not a whole page; [mprotect] then makes the page of
    the kernel's trampoline writable for the program, which stores into it. *)
Theorem trampoline_can_be_written :
  let top := user_top * PAGE_SIZE in
  top + 0xfff < USER_APP_MAX_SIZE ∧
  ∃ k1 ms1 k2 ms2, mmap demo_files demo_new.1 demo_new.2 top 0xfff 3 0x32 None 0 = Some (inr top, k1, ms1) ∧
    mprotect demo_files k1 ms1 top 0xfff 3 = Some (inr (), k2, ms2) ∧
    mm_mem (k_w demo_new.1) (strampoline / PAGE_SIZE) 5 = 0 ∧
    mm_mem (k_w (user_store k2 ms2 user_top 5 42)) (strampoline / PAGE_SIZE) 5 = 42.
Proof.
  cbn zeta. split; [vm_compute; reflexivity|]. set (r := mmap demo_files demo_new.1 demo_new.2 (user_top * PAGE_SIZE) 0xfff 3 0x32 None 0).
  set (after := λ (r : option ((Errno + Z) * kmm world * MemorySet)), if r is Some (inr x, k1, ms1) then
    if mprotect demo_files k1 ms1 (user_top * PAGE_SIZE) 0xfff 3 is Some (inr _, k2, ms2)
    then Some (x, mm_mem (k_w (user_store k2 ms2 user_top 5 42)) (strampoline / PAGE_SIZE) 5) else None else None).
  assert (after r = Some (user_top * PAGE_SIZE, 42)) as Hx by (vm_compute; reflexivity).
  assert (mm_mem (k_w demo_new.1) (strampoline / PAGE_SIZE) 5 = 0) as H0 by (vm_compute; reflexivity).
  clearbody r. unfold after in Hx. destruct r as [[[[e|x] k1] ms1]|]; [discriminate Hx| |discriminate Hx].
  destruct (mprotect demo_files k1 ms1 (user_top * PAGE_SIZE) 0xfff 3) as [[[[e|[]] k2] ms2]|] eqn:He; [discriminate Hx| |discriminate Hx].
  injection Hx as -> Hx. exists k1, ms1, k2, ms2. split; [reflexivity|]. split; [exact He|]. split; [exact H0|exact Hx].
Qed.

(** [mremap] does not check the new size against the end of the user half: the
    address of the new end is cut to 39 bits, so a size of more than half a terabyte
    succeeds and cuts the area short, or fails the assertion of the range. *)
Theorem mremap_size_unchecked :
  (∃ ms', mremap_inplace demo_resident.2 0x10000 0x3000 (2 ^ 39 + 0x1000) = Some (inr 0x10000, ms') ∧
     vpn_range <$> areas demo_resident.2 !! 16 = Some (MkRange 16 19) ∧ vpn_range <$> areas ms' !! 16 = Some (MkRange 16 17) ∧
     is_Some (areas ms' !! 16 ≫= λ a, data_frames a !! 17)) ∧
  mremap_inplace demo_resident.2 0x10000 0x3000 (2 ^ 39 - 0x8000) = None.
Proof.
  split; [|vm_compute; reflexivity]. set (r := mremap_inplace demo_resident.2 0x10000 0x3000 (2 ^ 39 + 0x1000)).
  assert ((if r is Some (inr x, ms') then Some (x, vpn_range <$> areas ms' !! 16, areas ms' !! 16 ≫= λ a, data_frames a !! 17) else None) =
    Some (0x10000, Some (MkRange 16 17), Some (MkFrame 1003 Page4K))) as Hx by (vm_compute; reflexivity).
  clearbody r. destruct r as [[[e|x] ms']|]; [done| |done]. injection Hx as -> H1 H2. exists ms'.
  split_and!; [done|vm_compute; reflexivity|done|rewrite H2; by eexists].
Qed.

(** ** Witnesses *)

Lemma demo_mapped_sp : sp_ok (k_w demo_mapped.1) (ms_table demo_mapped.2) (areas demo_mapped.2) [].
Proof. apply (sys_sp _ _ [] (proj1 (reachable_good _ _ _ demo_mapped_reach))). Qed.

Lemma demo_resident_sp : sp_ok (k_w demo_resident.1) (ms_table demo_resident.2) (areas demo_resident.2) [].
Proof. apply (sys_sp _ _ [] (proj1 (reachable_good _ _ _ demo_resident_reach))). Qed.

Lemma demo_middle : user_range 0x11000 0x1000.
Proof. unfold user_range, user_top, PAGE_SIZE. lia. Qed.

Lemma spaces_stay_well_formed_witness :
  sys_ok demo_resident.1 [demo_resident.2] ∧ ∃ k' l', do_op demo_files (OMprotect 0x11000 0x1000 3) demo_resident.1 demo_resident.2 = Some (k', l').
Proof.
  destruct (spaces_stay_well_formed demo_files demo_resident.1 [] demo_resident.2 [] (OMprotect 0x11000 0x1000 3) (reachable_any _ _ _ demo_resident_reach) demo_middle) as (Hok & k' & l' & He & _).
  split; [exact Hok|]. exists k', l'. exact He.
Defined.

Lemma private_memory_isolated_witness :
  user_load (user_store demo_resident.1 demo_resident.2 17 3 42) demo_resident.2 17 3 = Some 42 ∧
  user_load (user_store demo_resident.1 demo_resident.2 17 3 42) demo_resident.2 17 4 = Some 0.
Proof.
  split; [vm_compute; reflexivity|].
  destruct (page_at (areas demo_resident.2) 17) as [p|] eqn:Hp; [|exfalso; vm_compute in Hp; congruence].
  assert (pg_shared p = false) as Hsh by (vm_compute in Hp; injection Hp as <-; reflexivity).
  destruct (private_memory_isolated demo_files demo_resident.1 [demo_resident.2] demo_resident.2 17 3 42 p demo_resident.2 17 4
    demo_resident_reach (list_elem_of_here _ _) ltac:(unfold user_top; lia) Hp Hsh (list_elem_of_here _ _) ltac:(unfold user_top; lia))
    as [Heq|(_ & _ & Heq & _)]; [|exfalso; lia].
  rewrite Heq. vm_compute. reflexivity.
Defined.

Lemma demo_page17 : ∃ p f, page_at (areas demo_resident.2) 17 = Some p ∧ pg_frame p = Some f ∧ pg_type p = Framed ∧ pg_shared p = false ∧
  Z.testbit (pg_perm p) 1 = true ∧ Z.testbit (pg_perm p) 2 = true ∧ Z.testbit (pg_perm p) 4 = true.
Proof. eexists _, _. split; [vm_compute; reflexivity|]. split; [reflexivity|]. split_and!; reflexivity. Qed.

Lemma demo_resident_room :
  k_next_mm demo_resident.1 ≠ 0 ∧ std_page_offset (PhysAddr_from (Z.land strampoline (usize_not CACHED_KERNEL_BASE))) = 0 ∧
  2 * Z.of_nat (length (held (areas demo_resident.2))) + 3 ≤ mm_free (k_w demo_resident.1) ∧ k_next_map demo_resident.1 ≠ 0.
Proof. split_and!; vm_compute; [congruence|reflexivity|congruence|congruence]. Qed.

Lemma fork_copies_on_write_witness :
  ∃ k1 child, from_existed_user demo_files demo_resident.1 demo_resident.2 strampoline = Some (k1, child) ∧
    user_load k1 child 17 0 = user_load demo_resident.1 demo_resident.2 17 0.
Proof.
  destruct demo_page17 as (p & f & Hp & Hf & Ht & Hsh & H1 & H2 & H4).
  destruct demo_resident_room as (Hid & Hst & Hfree & _).
  pose proof (fork_copies_on_write demo_files demo_resident.1 demo_resident.2 [] strampoline 17 0 p f 0 42 demo_resident_sp
    Hid Hst Hfree Hp Hf ltac:(rewrite Ht; discriminate) Hsh H1 H2 H4 ltac:(unfold PAGE_SIZE; lia)) as (k1 & child & He & Hl & _).
  exists k1, child. split; [exact He|]. apply (Hl 0).
Defined.

Lemma munmap_exact_witness :
  ∃ k' ms', munmap demo_files demo_resident.1 demo_resident.2 0x11000 0x1000 = Some (k', ms') ∧
    page_at (areas ms') 17 = None ∧ page_at (areas ms') 18 = page_at (areas demo_resident.2) 18.
Proof.
  destruct (munmap_exact demo_files demo_resident.1 demo_resident.2 [] 0x11000 0x1000 demo_resident_sp demo_middle)
    as (k' & ms' & He & _ & _ & Hv & _). exists k', ms'. split; [exact He|]. split; rewrite Hv; vm_compute; reflexivity.
Defined.

Lemma demo_place : find_free_area_locked 0x1234 (areas demo_resident.2) = Some (Some search_base).
Proof. vm_compute. reflexivity. Qed.

Lemma mmap_exact_witness :
  ∃ r k' ms', mmap demo_files demo_resident.1 demo_resident.2 0 0x1234 1 0x22 None 0 = Some (r, k', ms') ∧
    sp_ok (k_w k') (ms_table demo_resident.2) (areas ms') [].
Proof.
  assert (mmap_range (areas demo_resident.2) 0 0x1234) as Hr.
  { left. split; [reflexivity|]. split; [lia|]. intros x. rewrite demo_place. intros [= <-]. vm_compute. congruence. }
  destruct (mmap_exact demo_files demo_resident.1 demo_resident.2 [] 0 0x1234 1 0x22 None 0 demo_resident_sp (proj2 (proj2 (proj2 demo_resident_room))) Hr) as (r & k' & ms' & He & _ & Hs & _).
  exists r, k', ms'. split; [exact He|exact Hs].
Defined.

Lemma mprotect_all_or_nothing_witness :
  ∃ r w' m', mprotect demo_files demo_resident.1 demo_resident.2 0x11000 0x1000 1 = Some (r, with_w w' demo_resident.1, with_areas m' demo_resident.2) ∧
    sp_ok w' (ms_table demo_resident.2) m' [].
Proof.
  destruct (mprotect_all_or_nothing demo_files demo_resident.1 demo_resident.2 [] 0x11000 0x1000 1 demo_resident_sp demo_middle)
    as (r & w' & m' & He & Hs & _). exists r, w', m'. split; [exact He|exact Hs].
Defined.

Lemma demo_page32 : ∃ p, page_at (areas demo_mapped.2) 32 = Some p ∧ may_fault p ∧ pg_type p = File ∧ pg_shared p || pg_cow p = false ∧ pg_back p = Some (7%nat, 1).
Proof.
  eexists. split; [vm_compute; reflexivity|]. split; [|by split_and!]. split_and!; [discriminate|reflexivity|vm_compute; congruence|reflexivity].
Qed.

Lemma file_fault_reads_ahead_witness :
  ∃ fs w' m', handle_page_fault demo_files demo_mapped.1 demo_mapped.2 (32 * PAGE_SIZE + 5) = Some (true, with_w w' demo_mapped.1, with_areas m' demo_mapped.2) ∧
    is_Some (frame_in fs 32).
Proof.
  destruct demo_page32 as (p & Hp & Hmay & Ht & Hsc & Hb).
  destruct (file_fault_reads_ahead demo_files demo_mapped.1 demo_mapped.2 [] 32 5 p 7%nat 1 demo_mapped_sp Hp Hmay ltac:(unfold PAGE_SIZE; lia) Ht Hsc Hb
    ltac:(lia) ltac:(unfold PAGE_SIZE, USIZE_MAX; lia) ltac:(vm_compute; congruence)) as (fs & w' & m' & He & _ & _ & Hin & _).
  exists fs, w', m'. split; [exact He|exact Hin].
Defined.

Lemma demo_area16 : ∃ a, areas demo_resident.2 !! first_page 0x10000 = Some a ∧ get_end a = last_page (0x10000 + 0x3000) ∧ map_type a = Framed ∧
  is_shared a = false ∧ backing_file a = None ∧ anonymous_shared_frames a = None ∧ 2 * Z.of_nat (length (frames_of a)) ≤ mm_free (k_w demo_resident.1).
Proof. eexists. split; [vm_compute; reflexivity|]. split_and!; [reflexivity..|]. vm_compute. congruence. Qed.

Lemma mremap_moves_pages_witness :
  ∃ r k' ms', mremap_move_private_anon demo_resident.1 demo_resident.2 0x10000 0x3000 0x8000 = Some (r, k', ms').
Proof.
  destruct demo_area16 as (a & Hk & He & Ht & Hsh & Hb & Han & Hfree).
  destruct (mremap_moves_pages demo_resident.1 demo_resident.2 [] 0x10000 0x3000 0x8000 a demo_resident_sp
    ltac:(unfold user_range, user_top, PAGE_SIZE; lia) ltac:(by exists 16) ltac:(lia) ltac:(by exists 8) Hk He Ht Hsh Hb Han Hfree)
    as (r & k' & ms' & Heq & _). exists r, k', ms'. exact Heq.
Defined.

Lemma exit_releases_all_witness :
  ∃ k', recycle_data_pages demo_files demo_resident.1 demo_resident.2 = Some (k', with_areas ∅ demo_resident.2) ∧ mm_ok (k_w k') [].
Proof.
  destruct (exit_releases_all demo_files demo_resident.1 demo_resident.2 [] demo_resident_sp) as (k' & He & Hok & _).
  exists k'. split; [exact He|exact Hok].
Defined.
End SpaceProps.
