(* ===== verification/UserCopy.v ===== *)
(** * Copies between the kernel and user memory
    (os/src/mm/page_table.rs, os/src/mm/user_buffer.rs)

    System calls reach user memory through buffers: the range is translated page by
    page into segments that hold their frames, after the pages that are not there
    yet have been faulted in.  A segment is a run of bytes of a frame; a frame is
    512 little-endian words. *)

From S2P Require Import Prelude Errno Address PageTable Mm BTree MapArea MemSet.

Local Open Scope Z_scope.

(** ** Bytes of a frame *)

Definition byte_of (c : Z → Z) (o : Z) : Z := Z.land (Z.shiftr (c (o / 8)) (8 * (o mod 8))) 255.

(** The word [x] with its byte [b] replaced. *)
Definition put_byte (x b v : Z) : Z :=
  Z.lor (Z.ldiff x (Z.shiftl 255 (8 * b))) (Z.shiftl (Z.land v 255) (8 * b)).

Definition set_byte (c : Z → Z) (o v : Z) : Z → Z :=
  λ i, if decide (i = o / 8) then put_byte (c i) (o mod 8) v else c i.

(** ** Segments *)

(** [UserBufferSegment] of a frame: the pointer is the first byte in the direct map.
    [from_untracked_phys] makes the one that holds no frame. *)
Record UserBufferSegment := MkSeg {
  seg_ppn : Z;
  seg_offset : Z;
  seg_len : Z;
  is_pinned : bool;
}.

Definition from_frame (f : Frame) (offset len : Z) : option UserBufferSegment :=
  e ← checked_add offset len;
  if size (f_size f) <? e then None else Some (MkSeg (f_ppn f) offset len true).

Definition from_untracked_phys (ppn : Z) (sz : PageSize) (offset len : Z) : option UserBufferSegment :=
  e ← checked_add offset len;
  if size sz <? e then None else Some (MkSeg ppn offset len false).

(** [UserBuffer] *)
Abbreviation UserBuffer := (list UserBufferSegment).

Definition buffer_len (b : UserBuffer) : Z := foldr (λ s n, seg_len s + n) 0 b.

(** The result of a translation, and the reason of a failed one. *)
Inductive pin_result (A : Type) :=
  | Pinned (x : A)
  | NeedsFault
  | Retry
  | Invalid.

#[global] Arguments Pinned {A} _.
#[global] Arguments NeedsFault {A}.
#[global] Arguments Retry {A}.
#[global] Arguments Invalid {A}.

Definition MAX_TRANSIENT_USER_PIN_RETRIES : nat := 8.

Definition MAX_USER_CSTRING_LEN : Z := 128 * 1024.

Definition area_allows_user_access (permission : Z) (write : bool) : bool :=
  flags_contain permission U && (if write then flags_contain permission W else flags_contain permission R).

Definition pte_allows_user_access (pte : PageTableEntry) (write : bool) : bool :=
  is_valid pte && user_accessible pte && (if write then writable pte else readable pte).

Definition is_static_user_trampoline (strampoline vpn : Z) (pte : PageTableEntry) (sz : PageSize) : bool :=
  (vpn =? floor_of USER_TRAMPOLINE) &&
  (PTE_ppn pte =? PhysAddr_std_floor (PhysAddr_from (Z.land strampoline (usize_not CACHED_KERNEL_BASE)))) &&
  bool_decide (sz = Page4K) && negb (writable pte).

Inductive UserCStringError := CInvalid | CTooLong.

Section user_copy.
Context {W_ : Type} `{!Mm W_} (F : FileOps W_) (strampoline : Z).
Implicit Types (k : kmm W_) (w : W_) (ms : MemorySet) (s : UserBufferSegment) (b : UserBuffer).

(** ** Memory behind a segment *)

Definition load_byte w (p o : Z) : Z := byte_of (mm_mem w (p + o / PAGE_SIZE)) (o mod PAGE_SIZE).

Definition store_byte w (p o v : Z) : W_ :=
  let q := p + o / PAGE_SIZE in mm_store w q (set_byte (mm_mem w q) (o mod PAGE_SIZE) v).

(** [Deref] of a segment, and [copy_from_slice] to its front. *)
Definition segment_bytes w s : list Z := (λ i, load_byte w (seg_ppn s) (seg_offset s + i)) <$> seqZ 0 (seg_len s).

Fixpoint store_bytes w (p o : Z) (data : list Z) : W_ :=
  match data with
  | [] => w
  | v :: rest => store_bytes (store_byte w p o v) p (o + 1) rest
  end.

(** ** Translation *)

Definition pin_user_segment k ms (va end_ : Z) (write : bool) : pin_result (UserBufferSegment * Z) :=
  if end_ <=? va then Invalid
  else
    let vpn := VirtAddr_std_floor va in
    match bt_before (areas ms) vpn with
    | None =>
      match mm_find (k_w k) (ms_table ms) vpn with
      | None => Invalid
      | Some (pte, sz) =>
        if write then Invalid
        else if negb (pte_allows_user_access pte false) || negb (is_static_user_trampoline strampoline vpn pte sz)
        then (if is_valid pte then Retry else Invalid)
        else
          let offset := actual_page_offset va sz in
          let count := Z.min (size sz - offset) (end_ - va) in
          match from_untracked_phys (PTE_ppn pte) sz offset count with
          | Some s => Pinned (s, count)
          | None => Invalid
          end
      end
    | Some (_, area) =>
      if negb (area_contains area vpn) then Retry
      else
        let permission := map_perm area in
        let frame_backed := is_frame_backed_mapping area in
        let frame := frame_for_vpn area vpn in
        match mm_find (k_w k) (ms_table ms) vpn with
        | None =>
          if bool_decide (frame = None) && frame_backed && area_allows_user_access permission write then NeedsFault
          else if frame_backed then Retry
          else Invalid
        | Some (pte, sz) =>
          if negb (area_allows_user_access permission write) || negb (user_accessible pte) then Invalid
          else
            match frame with
            | None => if frame_backed then Retry else Invalid
            | Some frame =>
              if negb (bool_decide (f_size frame = sz)) || negb (f_ppn frame =? PTE_ppn pte)
              then (if frame_backed then Retry else Invalid)
              else if negb (pte_allows_user_access pte write)
              then (if write && frame_backed && flags_contain permission W then NeedsFault else Invalid)
              else
                let offset := actual_page_offset va sz in
                let count := Z.min (size sz - offset) (end_ - va) in
                match from_frame frame offset count with
                | Some s => Pinned (s, count)
                | None => Invalid
                end
            end
        end
    end.

(** The loop over the range; every turn leaves a page behind. *)
Fixpoint pin_loop (fuel : nat) k ms (cursor end_ : Z) (write : bool) (result : UserBuffer) : option (pin_result UserBuffer) :=
  if end_ <=? cursor then Some (Pinned result)
  else
    match fuel with
    | O => None
    | S fuel =>
      match pin_user_segment k ms (VirtAddr_from cursor) end_ write with
      | Pinned (s, count) =>
        if count =? 0 then Some Invalid
        else c ← checked_add cursor count; pin_loop fuel k ms c end_ write (vec_push result s)
      | NeedsFault => Some NeedsFault
      | Retry => Some Retry
      | Invalid => Some Invalid
      end
    end.

Definition pin_fuel (len : Z) : nat := Z.to_nat (len / PAGE_SIZE + 2).

Definition pin_user_range_once k ms (start len : Z) (write : bool) : option (pin_result UserBuffer) :=
  match checked_add start len with
  | None => Some Invalid
  | Some end_ => if len =? 0 then Some (Pinned []) else pin_loop (pin_fuel len) k ms start end_ write []
  end.

Definition handle_fault_in_range k ms (start len : Z) (write : bool) : option (bool * kmm W_ * MemorySet) :=
  if write then ensure_writable_user_range F k ms start len else ensure_readable_user_range F k ms start len.

(** The retry loops of [pin_user_range] and [pin_user_segment_with_retry]: at most
    eight faults, and at most eight retries after each. *)
Fixpoint pin_retry {A} (once : kmm W_ → MemorySet → option (pin_result A)) (fuel : nat) k ms (start len : Z) (write : bool)
    (retries faults : nat) : option (option A * kmm W_ * MemorySet) :=
  match fuel with
  | O => None
  | S fuel =>
    r ← once k ms;
    match r with
    | Pinned x => Some (Some x, k, ms)
    | NeedsFault =>
      if (MAX_TRANSIENT_USER_PIN_RETRIES <? S faults)%nat then Some (None, k, ms)
      else
        '(ok, k, ms) ← handle_fault_in_range k ms start len write;
        if (ok : bool) then pin_retry once fuel k ms start len write 0 (S faults) else Some (None, k, ms)
    | Retry =>
      if (retries <? MAX_TRANSIENT_USER_PIN_RETRIES)%nat then pin_retry once fuel k ms start len write (S retries) faults
      else Some (None, k, ms)
    | Invalid => Some (None, k, ms)
    end
  end.

Definition retry_fuel : nat := 100.

Definition pin_user_range k ms (start len : Z) (write : bool) : option (option UserBuffer * kmm W_ * MemorySet) :=
  pin_retry (λ k ms, pin_user_range_once k ms start len write) retry_fuel k ms start len write 0 0.

Definition pin_user_segment_with_retry k ms (start len : Z) (write : bool)
    : option (option (UserBufferSegment * Z) * kmm W_ * MemorySet) :=
  match checked_add start len with
  | None => Some (None, k, ms)
  | Some end_ =>
    if len =? 0 then Some (None, k, ms)
    else pin_retry (λ k ms, Some (match pin_user_segment k ms (VirtAddr_from start) end_ write with
                                   | Pinned (s, count) => if count =? 0 then Invalid else Pinned (s, count)
                                   | r => r
                                   end)) retry_fuel k ms start len write 0 0
  end.

(** ** Typed reads and writes *)

(** The loops of [try_translated_read] and [try_translated_write] over the segments;
    a value is its bytes. *)
Fixpoint read_segments w b (copied len : Z) : list Z :=
  match b with
  | [] => []
  | s :: rest =>
    let count := Z.min (seg_len s) (len - copied) in
    take (Z.to_nat count) (segment_bytes w s) ++ read_segments w rest (copied + count) len
  end.

(** The bytes that no segment filled stay zero. *)
Definition try_translated_read k ms (ptr len : Z) : option (option (list Z) * kmm W_ * MemorySet) :=
  '(r, k, ms) ← pin_user_range k ms ptr len false;
  match r with
  | None => Some (None, k, ms)
  | Some b =>
    let data := read_segments (k_w k) b 0 len in
    Some (Some (data ++ replicate (Z.to_nat len - length data) 0), k, ms)
  end.

Fixpoint write_segments w b (copied : Z) (data : list Z) : W_ :=
  match b with
  | [] => w
  | s :: rest =>
    let count := Z.min (seg_len s) (Z.of_nat (length data) - copied) in
    let part := take (Z.to_nat count) (drop (Z.to_nat copied) data) in
    write_segments (store_bytes w (seg_ppn s) (seg_offset s) part) rest (copied + count) data
  end.

Definition try_translated_write k ms (ptr : Z) (data : list Z) : option (bool * kmm W_ * MemorySet) :=
  '(r, k, ms) ← pin_user_range k ms ptr (Z.of_nat (length data)) true;
  match r with
  | None => Some (false, k, ms)
  | Some b => Some (true, with_w (write_segments (k_w k) b 0 data) k, ms)
  end.

Definition translated_user_buffer k ms (ptr len : Z) : option (option UserBuffer * kmm W_ * MemorySet) :=
  pin_user_range k ms ptr len false.

Definition translated_user_buffer_mut k ms (ptr len : Z) : option (option UserBuffer * kmm W_ * MemorySet) :=
  pin_user_range k ms ptr len true.

Definition prepare_user_read k ms (ptr len : Z) : option (bool * kmm W_ * MemorySet) :=
  '(r, k, ms) ← pin_user_range k ms ptr len false; Some (bool_decide (is_Some r), k, ms).

Definition prepare_user_write k ms (ptr len : Z) : option (bool * kmm W_ * MemorySet) :=
  '(r, k, ms) ← pin_user_range k ms ptr len true; Some (bool_decide (is_Some r), k, ms).

(** ** Strings *)

(** The bytes up to the terminator, and the number taken. *)
Fixpoint until_zero (l : list Z) : list Z :=
  match l with
  | [] => []
  | x :: rest => if x =? 0 then [] else x :: until_zero rest
  end.

(** A turn scans what is left of one base page. *)
Fixpoint cstring_loop (fuel : nat) k ms (va copied max_len scan_limit : Z) (string : list Z)
    : option ((UserCStringError + list Z) * kmm W_ * MemorySet) :=
  if scan_limit <=? copied then Some (inl CTooLong, k, ms)
  else
    match fuel with
    | O => None
    | S fuel =>
      let page_remaining := PAGE_SIZE - Z.land va (PAGE_SIZE - 1) in
      let chunk_len := Z.min page_remaining (scan_limit - copied) in
      '(r, k, ms) ← pin_user_segment_with_retry k ms va chunk_len false;
      match r with
      | None => Some (inl CInvalid, k, ms)
      | Some (segment, segment_len) =>
        let bytes := segment_bytes (k_w k) segment in
        let prefix := until_zero bytes in
        let taken := Z.of_nat (length prefix) in
        if (max_len <? copied) || (max_len - copied <? taken) then Some (inl CTooLong, k, ms)
        else
          let string := string ++ prefix in
          if negb (length prefix =? length bytes)%nat then Some (inr string, k, ms)
          else
            match checked_add va segment_len, checked_add copied segment_len with
            | None, _ => Some (inl CInvalid, k, ms)
            | _, None => Some (inl CTooLong, k, ms)
            | Some va, Some copied => cstring_loop fuel k ms va copied max_len scan_limit string
            end
      end
    end.

(** A byte is the character of that code. *)
Definition copy_user_cstring k ms (ptr max_len : Z) : option ((UserCStringError + list Z) * kmm W_ * MemorySet) :=
  if (ptr =? 0) || (2 ^ 63 <=? ptr) then Some (inl CInvalid, k, ms)
  else
    match checked_add max_len 1 with
    | None => Some (inl CTooLong, k, ms)
    | Some scan_limit => cstring_loop (pin_fuel scan_limit) k ms ptr 0 max_len scan_limit []
    end.

Definition try_translated_str k ms (ptr : Z) : option (option (list Z) * kmm W_ * MemorySet) :=
  '(r, k, ms) ← copy_user_cstring k ms ptr MAX_USER_CSTRING_LEN;
  Some (match r with inr s => Some s | inl _ => None end, k, ms).

(** ** Buffers *)

(** [UserBuffer::write] and [read]; [current] is what has been copied. *)
Fixpoint buffer_write w b (current : Z) (data : list Z) : W_ :=
  match b with
  | [] => w
  | s :: rest =>
    let remain := Z.max 0 (Z.of_nat (length data) - current) in
    if remain =? 0 then w
    else
      let copy_len := Z.min (seg_len s) remain in
      buffer_write (store_bytes w (seg_ppn s) (seg_offset s) (take (Z.to_nat copy_len) (drop (Z.to_nat current) data)))
        rest (current + copy_len) data
  end.

Fixpoint buffer_read w b (current : Z) (data : list Z) : list Z :=
  match b with
  | [] => data
  | s :: rest =>
    let remain := Z.max 0 (Z.of_nat (length data) - current) in
    if remain =? 0 then data
    else
      let copy_len := Z.min (seg_len s) remain in
      buffer_read w rest (current + copy_len)
        (take (Z.to_nat current) data ++ take (Z.to_nat copy_len) (segment_bytes w s) ++ drop (Z.to_nat (current + copy_len)) data)
  end.

(** [copy_segments]: what is left of the first segment of each side is the offset
    into it. *)
Fixpoint copy_segments (fuel : nat) w (source : UserBuffer) (source_offset : Z) (destination : UserBuffer) (destination_offset : Z)
    (copied : Z) : option (Z * W_) :=
  match source, destination with
  | s :: source', d :: destination' =>
    match fuel with
    | O => None
    | S fuel =>
      source_remaining ← checked_sub (seg_len s) source_offset;
      destination_remaining ← checked_sub (seg_len d) destination_offset;
      let count := Z.min source_remaining destination_remaining in
      let bytes := take (Z.to_nat count) (drop (Z.to_nat source_offset) (segment_bytes w s)) in
      let w := store_bytes w (seg_ppn d) (seg_offset d + destination_offset) bytes in
      let source_offset := source_offset + count in
      let destination_offset := destination_offset + count in
      let '(source, source_offset) := if source_offset =? seg_len s then (source', 0) else (source, source_offset) in
      let '(destination, destination_offset) :=
        if destination_offset =? seg_len d then (destination', 0) else (destination, destination_offset) in
      copy_segments fuel w source source_offset destination destination_offset (copied + count)
    end
  | _, _ => Some (copied, w)
  end.

Definition write_from_buffer w b (data : UserBuffer) : option (Z * W_) :=
  copy_segments (length b + length data) w data 0 b 0 0.

Definition read_into_buffer w b (data : UserBuffer) : option (Z * W_) :=
  copy_segments (length b + length data) w b 0 data 0 0.
End user_copy.

(** The iterator over the byte pointers of a buffer, a pointer being a frame and an
    offset into it. *)
Record UserBufferIterator := MkIter { it_buffers : UserBuffer; current_buffer : nat; current_idx : Z }.

Definition into_iter (b : UserBuffer) : UserBufferIterator := MkIter b 0 0.

Definition iter_next (it : UserBufferIterator) : option ((Z * Z) * UserBufferIterator) :=
  s ← it_buffers it !! current_buffer it;
  let idx := current_idx it + 1 in
  Some ((seg_ppn s, seg_offset s + current_idx it),
    if idx =? seg_len s then MkIter (it_buffers it) (S (current_buffer it)) 0
    else MkIter (it_buffers it) (current_buffer it) idx).

(** ** Bytes *)

Lemma put_byte_bit x b v i : 0 ≤ b → 0 ≤ i →
  Z.testbit (put_byte x b v) i = if decide (8 * b ≤ i < 8 * b + 8) then Z.testbit v (i - 8 * b) else Z.testbit x i.
Proof.
  intros Hb Hi. unfold put_byte. change 255 with (Z.ones 8). rewrite Z.lor_spec, Z.ldiff_spec, !Z.shiftl_spec, Z.land_spec by lia.
  destruct (decide _) as [Hin|Hout].
  - rewrite Z.ones_spec_low by lia. by rewrite andb_false_r, andb_true_r.
  - assert (Z.testbit (Z.ones 8) (i - 8 * b) = false) as ->; [|by rewrite andb_true_r, andb_false_r, orb_false_r].
    destruct (decide (8 * b ≤ i)); [apply Z.ones_spec_high; lia|]. by rewrite Z.testbit_neg_r by lia.
Qed.

Lemma byte_of_bit c o n : 0 ≤ n → Z.testbit (byte_of c o) n = (n <? 8) && Z.testbit (c (o / 8)) (n + 8 * (o mod 8)).
Proof.
  intros Hn. unfold byte_of. change 255 with (Z.ones 8). rewrite Z.land_spec, Z.shiftr_spec by done. rewrite andb_comm. f_equal.
  destruct (Z.ltb_spec n 8); [by rewrite Z.ones_spec_low by lia|by rewrite Z.ones_spec_high by lia].
Qed.

Lemma byte_of_set_byte c o v o' : byte_of (set_byte c o v) o' = if decide (o' = o) then Z.land v 255 else byte_of c o'.
Proof.
  apply Z.bits_inj'. intros n Hn. rewrite byte_of_bit by done. unfold set_byte.
  pose proof (Z.mod_pos_bound o 8 ltac:(lia)). pose proof (Z.mod_pos_bound o' 8 ltac:(lia)).
  pose proof (Z.div_mod o 8 ltac:(lia)). pose proof (Z.div_mod o' 8 ltac:(lia)).
  destruct (decide (o' / 8 = o / 8)) as [Hq|Hq].
  - rewrite put_byte_bit by lia. destruct (Z.ltb_spec n 8) as [Hn8|Hn8]; cbn [andb].
    + destruct (decide (o' = o)) as [->|Hne].
      * rewrite decide_True by lia. change 255 with (Z.ones 8). rewrite Z.land_spec, Z.ones_spec_low, andb_true_r by lia. f_equal. lia.
      * rewrite decide_False by lia. rewrite byte_of_bit, (proj2 (Z.ltb_lt n 8)) by lia. done.
    + destruct (decide (o' = o)).
      * change 255 with (Z.ones 8). by rewrite Z.land_spec, Z.ones_spec_high, andb_false_r by lia.
      * by rewrite byte_of_bit, (proj2 (Z.ltb_ge n 8)) by lia.
  - rewrite decide_False by congruence. by rewrite byte_of_bit.
Qed.

Lemma byte_of_range c o : 0 ≤ byte_of c o < 256.
Proof. unfold byte_of. change 255 with (Z.ones 8). rewrite Z.land_ones by lia. apply Z.mod_pos_bound. lia. Qed.

(** ** Pointers *)

(** The byte pointers of a buffer, in order. *)
Definition segment_ptrs (s : UserBufferSegment) : list (Z * Z) := (λ i, (seg_ppn s, seg_offset s + i)) <$> seqZ 0 (seg_len s).

Definition buffer_ptrs (b : UserBuffer) : list (Z * Z) := b ≫= segment_ptrs.

Lemma length_segment_ptrs s : length (segment_ptrs s) = Z.to_nat (seg_len s).
Proof. unfold segment_ptrs. by rewrite length_fmap, length_seqZ. Qed.

Lemma buffer_len_ptrs b : Forall (λ s, 0 ≤ seg_len s) b → buffer_len b = Z.of_nat (length (buffer_ptrs b)).
Proof.
  induction 1 as [|s b Hs _ IH]; [done|]. unfold buffer_ptrs in *. rewrite bind_cons, length_app, length_segment_ptrs. simpl. lia.
Qed.

Definition iter_rest (it : UserBufferIterator) : list (Z * Z) :=
  match drop (current_buffer it) (it_buffers it) with
  | [] => []
  | s :: rest => drop (Z.to_nat (current_idx it)) (segment_ptrs s) ++ buffer_ptrs rest
  end.

(** The iterator goes through the pointers of a buffer without empty segments. *)
Lemma iter_next_ok it : Forall (λ s, 0 < seg_len s) (it_buffers it) → 0 ≤ current_idx it →
  (∀ s, it_buffers it !! current_buffer it = Some s → current_idx it < seg_len s) →
  match iter_next it with
  | None => iter_rest it = []
  | Some (p, it') => iter_rest it = p :: iter_rest it' ∧ it_buffers it' = it_buffers it ∧ 0 ≤ current_idx it' ∧
      ∀ s, it_buffers it' !! current_buffer it' = Some s → current_idx it' < seg_len s
  end.
Proof.
  intros Hpos H0 Hlt. unfold iter_next, iter_rest. destruct (it_buffers it !! current_buffer it) as [s|] eqn:Hs; cbn [mbind option_bind].
  2: { by rewrite drop_ge by (by apply lookup_ge_None). }
  specialize (Hlt s eq_refl). rewrite (drop_S _ _ _ Hs).
  assert (segment_ptrs s !! Z.to_nat (current_idx it) = Some (seg_ppn s, seg_offset s + current_idx it)) as Hp.
  { unfold segment_ptrs. rewrite list_lookup_fmap, lookup_seqZ_lt by lia. simpl. do 3 f_equal. lia. }
  rewrite (drop_S _ _ _ Hp). destruct (Z.eqb_spec (current_idx it + 1) (seg_len s)) as [He|He]; simpl.
  - split_and!; [|done|done|].
    + rewrite (drop_ge (segment_ptrs s)) by (rewrite length_segment_ptrs; lia). simpl.
      destruct (drop (S (current_buffer it)) (it_buffers it)); [done|]. by rewrite drop_0.
    + intros s' Hs'. rewrite Forall_forall in Hpos. apply Hpos. by eapply list_elem_of_lookup_2.
  - rewrite (drop_S _ _ _ Hs). split_and!; [|done|lia|].
    + do 3 f_equal. lia.
    + intros s'. rewrite Hs. intros [= <-]. lia.
Qed.

(** ** Stores through pointers *)

Section stores.
Context {W_ : Type} `{!Mm W_}.
Implicit Types (w : W_) (b : UserBuffer) (L : list Z).

Definition put_all w (l : list ((Z * Z) * Z)) : W_ := foldl (λ w x, store_byte w x.1.1 x.1.2 x.2) w l.

Lemma store_bytes_zip p part : ∀ w o (n : nat), (length part ≤ n)%nat →
  store_bytes w p o part = put_all w (zip ((λ i, (p, o + i)) <$> seqZ 0 (Z.of_nat n)) part).
Proof.
  induction part as [|v part IH]; intros w o n Hn; simpl.
  { by rewrite zip_with_nil_r. }
  simpl in Hn. destruct n as [|n]; [lia|]. rewrite seqZ_cons, fmap_cons by lia. simpl. rewrite Z.add_0_r.
  rewrite (IH _ (o + 1) n) by lia. unfold put_all. do 2 f_equal.
  replace (Z.pred (Z.of_nat (S n))) with (Z.of_nat n) by lia. rewrite <-(fmap_add_seqZ 1 0).
  rewrite <-list_fmap_compose. apply list_fmap_ext. intros _ x _. simpl. f_equal. lia.
Qed.

Lemma store_segment_zip w s part : (length part ≤ Z.to_nat (seg_len s))%nat →
  store_bytes w (seg_ppn s) (seg_offset s) part = put_all w (zip (segment_ptrs s) part).
Proof.
  intros Hn. destruct (decide (0 ≤ seg_len s)).
  - rewrite (store_bytes_zip _ _ _ _ (Z.to_nat (seg_len s))) by done. by rewrite Z2Nat.id.
  - destruct part; [|simpl in Hn; lia]. by rewrite zip_with_nil_r.
Qed.

Lemma write_segments_zip b : ∀ w (copied : nat) data, Forall (λ s, 0 ≤ seg_len s) b → (copied ≤ length data)%nat →
  write_segments w b (Z.of_nat copied) data = put_all w (zip (buffer_ptrs b) (drop copied data)).
Proof.
  induction b as [|s b IH]; intros w copied data Hb Hc; [done|]. apply Forall_cons in Hb as [Hs Hb]. cbn [write_segments].
  set (count := Z.min (seg_len s) (Z.of_nat (length data) - Z.of_nat copied)).
  assert (0 ≤ count) by lia. unfold buffer_ptrs. rewrite bind_cons, zip_with_app_l, length_segment_ptrs. unfold put_all. rewrite foldl_app.
  fold (put_all w (zip (segment_ptrs s) (take (Z.to_nat (seg_len s)) (drop copied data)))). rewrite Nat2Z.id.
  assert (take (Z.to_nat count) (drop copied data) = take (Z.to_nat (seg_len s)) (drop copied data)) as Ht.
  { destruct (decide (count = seg_len s)) as [->|]; [done|]. rewrite !take_ge by (rewrite length_drop; lia). done. }
  rewrite Ht, (store_segment_zip _ s) by (rewrite length_take; lia). fold (buffer_ptrs b).
  replace (Z.of_nat copied + count) with (Z.of_nat (copied + Z.to_nat count)) by lia. rewrite IH by (try done; lia).
  unfold put_all. do 2 f_equal. rewrite drop_drop. destruct (decide (count = seg_len s)) as [->|]; [done|].
  rewrite !drop_ge by lia. done.
Qed.

(** [UserBuffer::write] leaves the loop early, and does the same. *)
Lemma buffer_write_zip b : ∀ w (current : nat) data, Forall (λ s, 0 ≤ seg_len s) b → (current ≤ length data)%nat →
  buffer_write w b (Z.of_nat current) data = put_all w (zip (buffer_ptrs b) (drop current data)).
Proof.
  induction b as [|s b IH]; intros w current data Hb Hc; [done|]. cbn [buffer_write].
  destruct (Z.eqb_spec (Z.max 0 (Z.of_nat (length data) - Z.of_nat current)) 0) as [He|He].
  { rewrite drop_ge by lia. by rewrite zip_with_nil_r. }
  rewrite <-(write_segments_zip (s :: b)) by done. cbn [write_segments]. apply Forall_cons in Hb as [Hs Hb].
  rewrite Z.max_r by lia. set (count := Z.min _ _). replace (Z.of_nat current + count) with (Z.of_nat (current + Z.to_nat count)) by lia.
  rewrite IH, write_segments_zip by (try done; lia). done.
Qed.

Lemma segment_bytes_ptrs w s : segment_bytes w s = (λ x, load_byte w x.1 x.2) <$> segment_ptrs s.
Proof. unfold segment_bytes, segment_ptrs. by rewrite <-list_fmap_compose. Qed.

Lemma read_segments_ptrs b : ∀ w copied len, Forall (λ s, 0 ≤ seg_len s) b → copied ≤ len →
  read_segments w b copied len = take (Z.to_nat (len - copied)) ((λ x, load_byte w x.1 x.2) <$> buffer_ptrs b).
Proof.
  induction b as [|s b IH]; intros w copied len Hb Hc; cbn [read_segments].
  { change (buffer_ptrs []) with (@nil (Z * Z)). by rewrite fmap_nil, take_nil. }
  apply Forall_cons in Hb as [Hs Hb]. unfold buffer_ptrs. rewrite bind_cons, fmap_app, <-segment_bytes_ptrs. fold (buffer_ptrs b).
  rewrite IH by (try done; lia). assert (length (segment_bytes w s) = Z.to_nat (seg_len s)) as Hl.
  { rewrite segment_bytes_ptrs, length_fmap. apply length_segment_ptrs. }
  set (count := Z.min (seg_len s) (len - copied)). destruct (decide (seg_len s ≤ len - copied)).
  - rewrite take_ge, take_app_ge by lia. f_equal. f_equal. lia.
  - rewrite take_app_le by lia. replace (len - (copied + count)) with 0 by lia. rewrite take_0, app_nil_r. f_equal. lia.
Qed.

(** [UserBuffer::read] fills the front of the slice, as far as the buffer goes. *)
Lemma buffer_read_ptrs b : ∀ w (current : nat) data, Forall (λ s, 0 ≤ seg_len s) b → (current ≤ length data)%nat →
  let got := take (length data - current) ((λ x, load_byte w x.1 x.2) <$> buffer_ptrs b) in
  buffer_read w b (Z.of_nat current) data = take current data ++ got ++ drop (current + length got) data.
Proof.
  induction b as [|s b IH]; intros w current data Hb Hc; cbn zeta; cbn [buffer_read].
  { change (buffer_ptrs []) with (@nil (Z * Z)). rewrite fmap_nil, take_nil. simpl. by rewrite Nat.add_0_r, take_drop. }
  apply Forall_cons in Hb as [Hs Hb]. unfold buffer_ptrs. rewrite bind_cons, fmap_app, <-segment_bytes_ptrs. fold (buffer_ptrs b).
  assert (length (segment_bytes w s) = Z.to_nat (seg_len s)) as Hl by (rewrite segment_bytes_ptrs, length_fmap; apply length_segment_ptrs).
  destruct (Z.eqb_spec (Z.max 0 (Z.of_nat (length data) - Z.of_nat current)) 0) as [He|He].
  { replace (length data - current)%nat with 0%nat by lia. rewrite take_0. simpl. by rewrite Nat.add_0_r, take_drop. }
  rewrite Z.max_r by lia. set (count := Z.min _ _). rewrite Nat2Z.id.
  replace (Z.of_nat current + count) with (Z.of_nat (current + Z.to_nat count)) by lia. rewrite Nat2Z.id.
  set (data' := take current data ++ take (Z.to_nat count) (segment_bytes w s) ++ drop (current + Z.to_nat count) data).
  assert (length data' = length data) as Hlen by (unfold data'; rewrite !length_app, !length_take, length_drop, Hl; lia).
  rewrite IH by (try done; lia). cbn zeta. rewrite Hlen. set (rest := (λ x, _) <$> buffer_ptrs b).
  assert (length (take current data) = current) as Hl1 by (rewrite length_take; lia).
  assert (length (take (Z.to_nat count) (segment_bytes w s)) = Z.to_nat count) as Hl2 by (rewrite length_take, Hl; lia).
  assert (take (current + Z.to_nat count) data' = take current data ++ take (Z.to_nat count) (segment_bytes w s)) as ->.
  { unfold data'. rewrite app_assoc. apply take_app_length'. rewrite length_app. lia. }
  assert (∀ n, drop (current + Z.to_nat count + n) data' = drop (current + Z.to_nat count + n) data) as Hd.
  { intros n. rewrite <-(drop_drop data'), <-(drop_drop data). f_equal. unfold data'. rewrite app_assoc. apply drop_app_length'. rewrite length_app. lia. }
  rewrite Hd, <-!app_assoc. f_equal.
  assert (take (length data - current) (segment_bytes w s ++ rest) = take (Z.to_nat count) (segment_bytes w s) ++ take (length data - (current + Z.to_nat count)) rest) as Ht.
  { destruct (decide (seg_len s ≤ Z.of_nat (length data) - Z.of_nat current)).
    - rewrite (take_ge (segment_bytes w s)), take_app_ge by lia. do 2 f_equal. lia.
    - rewrite take_app_le by lia. replace (length data - (current + Z.to_nat count))%nat with 0%nat by lia. rewrite take_0, app_nil_r. f_equal. lia. }
  rewrite Ht, length_app, Hl2, <-app_assoc. do 3 f_equal. lia.
Qed.

(** ** What a store changes *)

Definition in_page (o : Z) : Prop := 0 ≤ o < PAGE_SIZE.

Lemma load_byte_page w p o : in_page o → load_byte w p o = byte_of (mm_mem w p) o.
Proof. intros Ho. unfold load_byte, in_page in *. by rewrite Z.div_small, Z.mod_small, Z.add_0_r. Qed.

(** Nothing but the contents of the frames in [P] is different. *)
Record only_bytes (P : Z → Prop) L w w' : Prop := {
  ob_ok : mm_ok w' L;
  ob_table t : mm_table w t → mm_table w' t;
  ob_find : find_same (mm_find w) (mm_find w');
  ob_free : mm_free w' = mm_free w;
  ob_mem q : ¬ P q → mm_mem w' q = mm_mem w q;
}.

Lemma store_byte_ok w L p o v : mm_ok w L → p ∈ L → in_page o →
  only_bytes (λ q, q = p) L w (store_byte w p o v) ∧
  ∀ q o', in_page o' → load_byte (store_byte w p o v) q o' = if decide (q = p ∧ o' = o) then Z.land v 255 else load_byte w q o'.
Proof.
  intros Hok Hp Ho. unfold store_byte. rewrite (Z.div_small o), Z.add_0_r, (Z.mod_small o) by (unfold in_page in *; lia).
  destruct (mm_store_spec w L p (set_byte (mm_mem w p) o v) Hok Hp) as (H1 & H2 & H3 & H4 & H5 & H6). split; [by split|].
  intros q o' Ho'. rewrite !load_byte_page by done. destruct (decide (q = p)) as [->|Hq].
  - rewrite H2, byte_of_set_byte. destruct (decide (o' = o)) as [->|]; [by rewrite decide_True|rewrite decide_False by tauto; done].
  - rewrite H4 by done. rewrite decide_False by tauto. done.
Qed.

Lemma only_bytes_trans (P Q : Z → Prop) L w1 w2 w3 :
  only_bytes P L w1 w2 → only_bytes Q L w2 w3 → only_bytes (λ q, P q ∨ Q q) L w1 w3.
Proof.
  intros [A1 A2 A3 A4 A5] [B1 B2 B3 B4 B5]. split; [done|auto| |congruence|].
  - intros t v Hv. rewrite B3 by done. by apply A3.
  - intros q Hq. rewrite B5, A5 by tauto. done.
Qed.

Lemma only_bytes_mono (P Q : Z → Prop) L w w' : (∀ q, P q → Q q) → only_bytes P L w w' → only_bytes Q L w w'.
Proof. intros Hpq [A1 A2 A3 A4 A5]. split; auto. Qed.

(** Stores through pointers that differ. *)
Lemma put_all_ok L l : ∀ w, mm_ok w L → Forall (λ x, x.1.1 ∈ L ∧ in_page x.1.2) l → NoDup l.*1 →
  only_bytes (λ q, q ∈ l.*1.*1) L w (put_all w l) ∧
  (∀ p o v, ((p, o), v) ∈ l → load_byte (put_all w l) p o = Z.land v 255) ∧
  ∀ q o, in_page o → (q, o) ∉ l.*1 → load_byte (put_all w l) q o = load_byte w q o.
Proof.
  induction l as [|[[p o] v] l IH]; intros w Hok Hin Hnd.
  { split_and!; [by split|by intros ??? ?%not_elem_of_nil|done]. }
  apply Forall_cons in Hin as [[Hp Ho] Hin]. rewrite fmap_cons in Hnd. apply NoDup_cons in Hnd as [Hn Hnd]. simpl in Hp, Ho, Hn.
  destruct (store_byte_ok w L p o v Hok Hp Ho) as [S1 Hl1].
  destruct (IH (store_byte w p o v) (ob_ok _ _ _ _ S1) Hin Hnd) as (S2 & Hin2 & Hout2).
  change (put_all w (((p, o), v) :: l)) with (put_all (store_byte w p o v) l). split_and!.
  - eapply only_bytes_mono; [|by eapply only_bytes_trans]. intros q. rewrite !fmap_cons, elem_of_cons. done.
  - intros p' o' v' Hx. apply elem_of_cons in Hx as [[= -> -> ->]|Hx]; [|by apply Hin2].
    rewrite Hout2, Hl1, decide_True by done. done.
  - intros q o' Ho' Hx. rewrite fmap_cons, not_elem_of_cons in Hx. destruct Hx as [Hx1 Hx2]. rewrite Hout2, Hl1 by done.
    rewrite decide_False; [done|]. intros [-> ->]. done.
Qed.
End stores.

(** ** From buffer to buffer *)

Section segments.
Context {W_ : Type} `{!Mm W_}.
Implicit Types (w : W_) (b : UserBuffer).

(** What is left of a side: the offset is in the first segment. *)
Definition side_ok b (o : Z) : Prop :=
  Forall (λ s, 0 ≤ seg_len s) b ∧ 0 ≤ o ∧ match b with [] => True | s :: _ => o ≤ seg_len s end.

Definition side_ptrs b (o : Z) : list (Z * Z) := drop (Z.to_nat o) (buffer_ptrs b).

(** [count] bytes on, possibly into the next segment. *)
Lemma side_step s b o count : side_ok (s :: b) o → 0 ≤ count ≤ seg_len s - o →
  let '(b', o') := if o + count =? seg_len s then (b, 0) else (s :: b, o + count) in
  side_ok b' o' ∧ side_ptrs b' o' = drop (Z.to_nat count) (side_ptrs (s :: b) o) ∧
  take (Z.to_nat count) (side_ptrs (s :: b) o) = take (Z.to_nat count) (drop (Z.to_nat o) (segment_ptrs s)).
Proof.
  intros ([Hs Hb]%Forall_cons & Ho & Hle) Hc. unfold side_ptrs. rewrite drop_drop.
  assert (buffer_ptrs (s :: b) = segment_ptrs s ++ buffer_ptrs b) as -> by done. pose proof (length_segment_ptrs s) as Hl.
  assert (take (Z.to_nat count) (drop (Z.to_nat o) (segment_ptrs s ++ buffer_ptrs b)) = take (Z.to_nat count) (drop (Z.to_nat o) (segment_ptrs s))) as ->.
  { rewrite drop_app_le, take_app_le by (rewrite ?length_drop; lia). done. }
  destruct (Z.eqb_spec (o + count) (seg_len s)) as [He|He].
  - split_and!; [split_and!; [done|lia|by destruct b; [|apply Forall_cons in Hb as [? _]]]| |done].
    rewrite (drop_app_length' (segment_ptrs s)) by lia. done.
  - split_and!; [split_and!; [by constructor|lia|lia]| |done]. f_equal. lia.
Qed.

Lemma load_same w w' L P (l : list (Z * Z)) : only_bytes P L w w' → (∀ x, x ∈ l → in_page x.2 ∧ ¬ P x.1) →
  (λ x, load_byte w' x.1 x.2) <$> l = (λ x, load_byte w x.1 x.2) <$> l.
Proof.
  intros S Hl. apply list_fmap_ext. intros i x Hx%list_elem_of_lookup_2. destruct (Hl x Hx) as [Ho Hn].
  rewrite !load_byte_page by done. by rewrite (ob_mem _ _ _ _ S).
Qed.

Lemma put_all_only L l : ∀ w, mm_ok w L → Forall (λ x, x.1.1 ∈ L ∧ in_page x.1.2) l → only_bytes (λ q, q ∈ l.*1.*1) L w (put_all w l).
Proof.
  induction l as [|[[p o] v] l IH]; intros w Hok Hin; [by split|]. apply Forall_cons in Hin as [[Hp Ho] Hin].
  destruct (store_byte_ok w L p o v Hok Hp Ho) as [S1 _]. eapply only_bytes_mono; [|eapply only_bytes_trans; [exact S1|apply IH; [apply S1|done]]].
  intros q. rewrite !fmap_cons, elem_of_cons. done.
Qed.

(** The copy goes byte by byte from the one sequence of pointers to the other, as far
    as the shorter one goes; the frames of the two sides differ. *)
Lemma copy_segments_ok L : ∀ fuel w source so destination d copied, mm_ok w L → side_ok source so → side_ok destination d →
  (length source + length destination ≤ fuel)%nat →
  let sp := side_ptrs source so in let dp := side_ptrs destination d in
  Forall (λ x, x.1 ∈ L ∧ in_page x.2) dp → Forall (λ x, in_page x.2 ∧ x.1 ∉ dp.*1) sp →
  copy_segments fuel w source so destination d copied =
    Some (copied + Z.of_nat (Nat.min (length sp) (length dp)), put_all w (zip dp ((λ x, load_byte w x.1 x.2) <$> sp))).
Proof.
  induction fuel as [|fuel IH]; intros w source so destination d copied Hok Hs Hd Hfuel sp dp Hdp Hsp.
  { destruct source, destination; simpl in Hfuel; try lia. simpl. unfold sp, dp, side_ptrs. change (buffer_ptrs []) with (@nil (Z * Z)). rewrite !drop_nil. simpl. by rewrite Z.add_0_r. }
  destruct source as [|s source], destination as [|x destination]; cbn [copy_segments].
  1-3: unfold sp, dp, side_ptrs; change (buffer_ptrs []) with (@nil (Z * Z)); rewrite ?drop_nil, ?zip_with_nil_r, ?fmap_nil; simpl; rewrite ?Nat.min_0_r, ?zip_with_nil_r; simpl; by rewrite Z.add_0_r.
  pose proof Hs as ([Hs0 _]%Forall_cons & Hso & Hsl). pose proof Hd as ([Hd0 _]%Forall_cons & Hdo & Hdl).
  unfold checked_sub. rewrite !(proj2 (Z.leb_le _ _)) by done. cbn [mbind option_bind]. set (count := Z.min _ _).
  assert (0 ≤ count ≤ seg_len s - so ∧ count ≤ seg_len x - d) as [Hc1 Hc2] by lia. cbn zeta.
  pose proof (side_step s source so count Hs Hc1) as Hstep1. pose proof (side_step x destination d count Hd ltac:(lia)) as Hstep2.
  fold sp in Hstep1. fold dp in Hstep2.
  assert (Z.to_nat count ≤ length sp ∧ Z.to_nat count ≤ length dp)%nat as [Hl1 Hl2].
  { unfold sp, dp, side_ptrs, buffer_ptrs. rewrite !bind_cons, !length_drop, !length_app, !length_segment_ptrs. lia. }
  assert (take (Z.to_nat count) (drop (Z.to_nat so) (segment_bytes w s)) = (λ x, load_byte w x.1 x.2) <$> take (Z.to_nat count) sp) as ->.
  { rewrite segment_bytes_ptrs, <-fmap_drop, <-fmap_take. f_equal. symmetry. destruct (so + count =? seg_len s); apply Hstep1. }
  set (bytes := (λ x, load_byte w x.1 x.2) <$> take (Z.to_nat count) sp).
  assert (store_bytes w (seg_ppn x) (seg_offset x + d) bytes = put_all w (zip (take (Z.to_nat count) dp) bytes)) as ->.
  { assert (length bytes = Z.to_nat count) as Hlb by (unfold bytes; rewrite length_fmap, length_take; lia).
    rewrite (store_bytes_zip _ _ _ _ (Z.to_nat count)) by lia. do 2 f_equal.
    assert (take (Z.to_nat count) dp = take (Z.to_nat count) (drop (Z.to_nat d) (segment_ptrs x))) as -> by (destruct (d + count =? seg_len x); apply Hstep2).
    apply list_eq. intros i. rewrite list_lookup_fmap. destruct (decide (i < Z.to_nat count)%nat).
    - rewrite lookup_take_lt, lookup_drop by done. unfold segment_ptrs. rewrite list_lookup_fmap, !lookup_seqZ_lt by lia. simpl. do 2 f_equal. lia.
    - rewrite lookup_seqZ_ge, lookup_take_ge by lia. done. }
  set (w' := put_all w _). rewrite <-(take_drop (Z.to_nat count) sp) in Hsp at 1. rewrite <-(take_drop (Z.to_nat count) dp) in Hdp at 1.
  apply Forall_app in Hsp as [Hsp1 Hsp2]. apply Forall_app in Hdp as [Hdp1 Hdp2].
  assert (length (take (Z.to_nat count) dp) = length bytes) as Hlen by (unfold bytes; rewrite length_fmap, !length_take; lia).
  assert (only_bytes (λ q, q ∈ dp.*1) L w w') as S.
  { eapply only_bytes_mono; [|apply put_all_only; [done|]].
    - intros q. rewrite fst_zip by lia. rewrite fmap_take. intros Hq. rewrite <-(take_drop (Z.to_nat count) dp.*1). apply elem_of_app. by left.
    - apply Forall_forall. intros [y v] Hy%elem_of_zip_l. rewrite Forall_forall in Hdp1. by apply Hdp1. }
  assert (length (if (so + count =? seg_len s)%Z then source else s :: source) + length (if (d + count =? seg_len x)%Z then destination else x :: destination) ≤ fuel)%nat as Hf.
  { simpl in Hfuel. destruct (Z.eqb_spec (so + count) (seg_len s)), (Z.eqb_spec (d + count) (seg_len x)); simpl; lia. }
  assert (∀ (sp' dp' : list (Z * Z)), sp' = drop (Z.to_nat count) sp → dp' = drop (Z.to_nat count) dp →
    Some (copied + count + Z.of_nat (length sp' `min` length dp'), put_all w' (zip dp' ((λ x, load_byte w' x.1 x.2) <$> sp'))) =
    Some (copied + Z.of_nat (length sp `min` length dp), put_all w (zip dp ((λ x, load_byte w x.1 x.2) <$> sp)))) as Hend.
  { intros sp' dp' -> ->. f_equal. f_equal; [rewrite !length_drop; lia|]. rewrite (load_same w w' L _ _ S).
    - unfold w', put_all. rewrite <-foldl_app. f_equal.
      rewrite <-zip_with_app by done. unfold bytes. by rewrite <-fmap_app, !take_drop.
    - intros y Hy. rewrite Forall_forall in Hsp2. by apply Hsp2. }
  assert (∀ (A : list (Z * Z)) q, q ∈ (drop (Z.to_nat count) A).*1 → q ∈ A.*1) as Hdrop by (intros A q; rewrite fmap_drop; intros Hq; rewrite <-(take_drop (Z.to_nat count) A.*1); apply elem_of_app; by right).
  assert (∀ b1 o1 b2 o2, side_ok b1 o1 → side_ok b2 o2 → side_ptrs b1 o1 = drop (Z.to_nat count) sp → side_ptrs b2 o2 = drop (Z.to_nat count) dp →
    (length b1 + length b2 ≤ fuel)%nat → copy_segments fuel w' b1 o1 b2 o2 (copied + count) =
    Some (copied + Z.of_nat (length sp `min` length dp), put_all w (zip dp ((λ x, load_byte w x.1 x.2) <$> sp)))) as Hgo.
  { intros b1 o1 b2 o2 Hb1 Hb2 Hp1 Hp2 Hlf. rewrite (IH _ _ _ _ _ _ (ob_ok _ _ _ _ S) Hb1 Hb2 Hlf); [by apply Hend|by rewrite Hp2|].
    rewrite Hp1, Hp2. eapply Forall_impl; [exact Hsp2|]. intros y [? Hn]. split; [done|]. intros Hin. apply Hn. by apply Hdrop in Hin. }
  destruct (so + count =? seg_len s), (d + count =? seg_len x); apply Hgo; (apply Hstep1 || apply Hstep2 || done).
Qed.
End segments.
