(* ===== verification/SpaceCopy.v ===== *)
(** * Copies to and from well-formed address spaces

    What the translation of a user range gives, when a copy succeeds, and what it
    changes: the pages it needs are faulted in and copied on write, the bytes of the
    range are read or written, and no other byte of any address space changes. *)

From S2P Require Import Prelude Errno Address PageTable Mm BTree MapArea MemSet Space SpaceUnmap SpaceMap SpaceFault SpaceFork SpaceSys SpaceView UserCopy.

Local Open Scope Z_scope.

Section copy.
Context {W_ : Type} `{!Mm W_} (F : FileOps W_) (strampoline : Z).
Implicit Types (k : kmm W_) (w : W_) (ms : MemorySet) (l : list MemorySet) (v a : Z) (p : page).

(** ** Pages of a copy *)

(** The page may be accessed, once it is there. *)
Definition accessible ms (write : bool) v : Prop :=
  ∃ p, page_at (areas ms) v = Some p ∧ pg_type p ≠ Guard ∧ area_allows_user_access (pg_perm p) write = true.

(** The page is there, and the entry allows the access. *)
Definition ready k ms (write : bool) v : Prop :=
  ∃ p f e, page_at (areas ms) v = Some p ∧ pg_frame p = Some f ∧ area_allows_user_access (pg_perm p) write = true ∧
    mm_find (k_w k) (ms_table ms) v = Some (e, Page4K) ∧ (write = true → writable e = true).

(** The frame number of a page. *)
Definition frame_of ms v : Z := from_option f_ppn 0 (page_at (areas ms) v ≫= pg_frame).

Lemma ready_accessible k ms L write v :
  sp_ok (k_w k) (ms_table ms) (areas ms) L → ready k ms write v → accessible ms write v.
Proof.
  intros Hs (p & f & e & Hp & Hf & Ha & _). exists p. split_and!; [done| |done]. intros Hg.
  apply page_at_Some in Hp as (key & a & Hk & _ & ->); [|apply Hs]. destruct (to_area _ (sp_tree _ _ _ _ Hs) _ _ Hk) as [_ Hao].
  simpl in Hg, Hf. by rewrite (ao_guard _ Hao Hg), lookup_empty in Hf.
Qed.

Lemma allows_bits perm write : area_allows_user_access perm write = Z.testbit perm 4 && Z.testbit perm (if write then 2 else 1).
Proof. unfold area_allows_user_access. unfold U, W, R. destruct write; by rewrite !flags_contain_bit by lia. Qed.

Lemma guard_not_backed (a : MapArea) : map_type a = Guard → is_frame_backed_mapping a = false.
Proof. intros Hg. unfold is_frame_backed_mapping. by rewrite Hg. Qed.

Lemma backed (a : MapArea) : area_ok a → map_type a ≠ Guard → is_frame_backed_mapping a = true.
Proof. intros Ha Hg. unfold is_frame_backed_mapping. destruct (ao_type _ Ha) as [->|[->|?]]; done. Qed.

(** ** One segment *)

Lemma pin_segment_cases k ms L a end_ write :
  sp_ok (k_w k) (ms_table ms) (areas ms) L → 0 ≤ a < user_top * PAGE_SIZE → a < end_ →
  let v := a / PAGE_SIZE in
  match pin_user_segment strampoline k ms a end_ write with
  | Pinned (s, count) => ready k ms write v ∧ count = Z.min (PAGE_SIZE - a mod PAGE_SIZE) (end_ - a) ∧
      s = MkSeg (frame_of ms v) (a mod PAGE_SIZE) count true
  | NeedsFault => accessible ms write v ∧ ¬ ready k ms write v
  | Retry | Invalid => ¬ accessible ms write v
  end.
Proof.
  intros Hs Ha Hend v. pose proof (sp_tree _ _ _ _ Hs) as Hm. unfold pin_user_segment. rewrite (proj2 (Z.leb_gt _ _)) by done.
  change (VirtAddr_std_floor a) with v. assert (0 ≤ v < user_top) as Hv.
  { unfold v. split; [apply Z.div_pos; unfold PAGE_SIZE; lia|apply Z.div_lt_upper_bound; unfold PAGE_SIZE in *; lia]. }
  destruct (page_at (areas ms) v) as [p|] eqn:Hp.
  2: { assert (¬ accessible ms write v) as Hna by (intros (p & Hp' & _); congruence). pose proof Hp as Hpn. unfold page_at, area_at in Hp.
    destruct (bt_before (areas ms) v) as [[key x]|]; simpl in Hp.
    - destruct (area_contains x v); [done|exact Hna].
    - rewrite (find_absent _ _ _ _ v Hs Hv); [exact Hna|by rewrite Hpn]. }
  destruct (tree_area_at _ _ _ Hm Hp) as (x & Hat & Hk & Hin & Hao & ->). unfold area_at in Hat.
  destruct (bt_before (areas ms) v) as [[key x']|]; [|done]. simpl in Hat. destruct (area_contains x' v) eqn:Hc; [|done].
  injection Hat as -> ->. cbn [negb]. rewrite frame_for_page by done.
  destruct (data_frames x !! v) as [f|] eqn:Hf.
  - destruct (find_resident _ _ _ _ _ (page_of x v) f Hs Hp Hf) as (e & He & Hpf). rewrite He. simpl in Hpf.
    assert (map_type x ≠ Guard) as Hg by (intros Hg; by rewrite (ao_guard _ Hao Hg), lookup_empty in Hf). rewrite (backed _ Hao Hg).
    destruct (area_allows_user_access (map_perm x) write) eqn:Hall; cbn [negb orb].
    2: { intros (q & Hq & _ & Hqa). rewrite Hp in Hq. injection Hq as <-. simpl in Hqa. congruence. }
    assert (accessible ms write v) as Hacc by (by exists (page_of x v)).
    pose proof Hall as Hbits. rewrite allows_bits in Hbits. apply andb_true_iff in Hbits as [Hb4 Hbw].
    rewrite (pf_user _ _ _ Hpf), Hb4. cbn [negb]. destruct (ao_frames _ Hao _ _ Hf) as [_ Hsz]. rewrite Hsz, (pf_ppn _ _ _ Hpf), Z.eqb_refl.
    rewrite bool_decide_true by done. cbn [negb orb]. unfold pte_allows_user_access. rewrite (pf_valid _ _ _ Hpf), (pf_user _ _ _ Hpf), Hb4. cbn [andb].
    assert ((if write then writable e else readable e) = (if write then writable e else true)) as -> by (destruct write; [done|by rewrite (pf_read _ _ _ Hpf)]).
    destruct (if write then writable e else true) eqn:Hwe; cbn [negb].
    + assert (ready k ms write v) as Hrd by (exists (page_of x v), f, e; split_and!; try done; intros ->; done).
      rewrite actual_page_offset_mod. change (size Page4K) with PAGE_SIZE. unfold from_frame. rewrite Hsz. change (size Page4K) with PAGE_SIZE.
      pose proof (Z.mod_pos_bound a PAGE_SIZE ltac:(unfold PAGE_SIZE; lia)) as Hmod.
      rewrite checked_add_Some by (unfold PAGE_SIZE, USIZE_MAX in *; lia). cbn [mbind option_bind]. rewrite (proj2 (Z.ltb_ge _ _)) by lia.
      split_and!; [done|done|]. unfold frame_of. rewrite Hp. simpl. by rewrite Hf.
    + destruct write; [|done]. rewrite (flags_contain_W (map_perm x)), Hbw. cbn [andb]. split; [done|].
      intros (q & g & e' & Hq & Hg' & _ & He' & Hw). rewrite He in He'. injection He' as <-. by rewrite Hw in Hwe.
  - rewrite (find_absent _ _ _ _ v Hs Hv) by (rewrite Hp; done). rewrite (bool_decide_true (None = None)) by done. cbn [andb].
    destruct (decide (map_type x = Guard)) as [Hg|Hg].
    { rewrite guard_not_backed by done. cbn [andb]. intros (q & Hq & Hqg & _). rewrite Hp in Hq. by injection Hq as <-. }
    rewrite (backed _ Hao Hg). cbn [andb]. destruct (area_allows_user_access (map_perm x) write) eqn:Hall.
    + split; [by exists (page_of x v)|]. intros (q & g & e' & Hq & Hg' & _). rewrite Hp in Hq. injection Hq as <-. simpl in Hg'. congruence.
    + intros (q & Hq & _ & Hqa). rewrite Hp in Hq. injection Hq as <-. simpl in Hqa. congruence.
Qed.

(** ** A range *)

Definition all_ready k ms write lo hi : Prop := ∀ a, lo ≤ a < hi → ready k ms write (a / PAGE_SIZE).

Definition all_accessible ms write lo hi : Prop := ∀ a, lo ≤ a < hi → accessible ms write (a / PAGE_SIZE).

(** The segments of a range: every byte of it, in order. *)
Definition segments ms lo hi (b : UserBuffer) : Prop :=
  Forall (λ s, 0 < seg_len s ∧ is_pinned s = true) b ∧
  buffer_ptrs b = (λ a, (frame_of ms (a / PAGE_SIZE), a mod PAGE_SIZE)) <$> seqZ lo (hi - lo).

Lemma page_run a n : 0 ≤ n ≤ PAGE_SIZE - a mod PAGE_SIZE → ∀ i, 0 ≤ i < n →
  (a + i) / PAGE_SIZE = a / PAGE_SIZE ∧ (a + i) mod PAGE_SIZE = a mod PAGE_SIZE + i.
Proof.
  intros Hn i Hi. pose proof (Z.mod_pos_bound a PAGE_SIZE ltac:(unfold PAGE_SIZE; lia)).
  pose proof (Z.div_mod a PAGE_SIZE ltac:(unfold PAGE_SIZE; lia)).
  split; [symmetry; apply Z.div_unique with (a mod PAGE_SIZE + i)|symmetry; apply Z.mod_unique with (a / PAGE_SIZE)]; lia.
Qed.

Lemma segments_cons ms lo hi count b : 0 < count ≤ PAGE_SIZE - lo mod PAGE_SIZE → lo + count ≤ hi → segments ms (lo + count) hi b →
  segments ms lo hi (MkSeg (frame_of ms (lo / PAGE_SIZE)) (lo mod PAGE_SIZE) count true :: b).
Proof.
  intros Hc Hhi [Hb Hp]. split; [constructor; [split; [simpl; lia|done]|done]|]. unfold buffer_ptrs in *. rewrite bind_cons, Hp.
  replace (hi - lo) with (count + (hi - (lo + count))) by lia. rewrite seqZ_app, fmap_app by lia. f_equal.
  unfold segment_ptrs. simpl. replace (seqZ lo count) with (Z.add lo <$> seqZ 0 count) by (rewrite fmap_add_seqZ; f_equal; lia).
  rewrite <-list_fmap_compose. apply list_fmap_ext.
  intros i x [Hx ?]%lookup_seqZ. simpl. destruct (page_run lo count ltac:(lia) x ltac:(lia)) as [-> ->]. done.
Qed.

Definition pin_post {A} (Q : A → Prop) k ms write lo hi (r : pin_result A) : Prop :=
  match r with
  | Pinned x => all_ready k ms write lo hi ∧ Q x
  | NeedsFault => ∃ a, lo ≤ a < hi ∧ accessible ms write (a / PAGE_SIZE) ∧ ¬ ready k ms write (a / PAGE_SIZE)
  | Retry | Invalid => ¬ all_accessible ms write lo hi
  end.

Lemma pin_post_step k ms write lo mid hi b r : lo ≤ mid ≤ hi → all_ready k ms write lo mid →
  (∀ c, segments ms mid hi c → segments ms lo hi (b ++ c)) → pin_post (segments ms mid hi) k ms write mid hi r →
  pin_post (segments ms lo hi) k ms write lo hi (match r with Pinned c => Pinned (b ++ c) | r => r end).
Proof.
  intros Hm Hlo Hseg. destruct r as [c| | |]; simpl.
  - intros [Hr Hc]. split; [|by apply Hseg]. intros a Ha. destruct (decide (a < mid)); [apply Hlo|apply Hr]; lia.
  - intros (a & Ha & ?). exists a. split; [lia|done].
  - intros Hn Hall. apply Hn. intros a Ha. apply Hall. lia.
  - intros Hn Hall. apply Hn. intros a Ha. apply Hall. lia.
Qed.

Lemma pin_loop_ok k ms L end_ write : sp_ok (k_w k) (ms_table ms) (areas ms) L → end_ ≤ user_top * PAGE_SIZE →
  ∀ fuel cursor result, 0 ≤ cursor ≤ end_ → end_ ≤ cursor ∨ (end_ - 1) / PAGE_SIZE - cursor / PAGE_SIZE < Z.of_nat fuel →
  ∃ r, pin_loop strampoline fuel k ms cursor end_ write result = Some (match r with Pinned c => Pinned (result ++ c) | r => r end) ∧
    pin_post (segments ms cursor end_) k ms write cursor end_ r.
Proof.
  intros Hs Htop. induction fuel as [|fuel IH]; intros cursor result Hc Hfuel; cbn [pin_loop].
  all: destruct (Z.leb_spec end_ cursor) as [Hge|Hlt].
  1, 3: exists (Pinned []); rewrite app_nil_r; split; [done|]; split; [intros a Ha; lia|]; split; [constructor|];
    replace (end_ - cursor) with 0 by lia; done.
  - destruct Hfuel as [?|Hf]; [lia|]. pose proof (Z.div_le_mono cursor (end_ - 1) PAGE_SIZE ltac:(unfold PAGE_SIZE; lia) ltac:(lia)). lia.
  - destruct Hfuel as [?|Hf]; [lia|]. rewrite VirtAddr_from_id by (unfold user_top, PAGE_SIZE in Htop; lia).
    pose proof (pin_segment_cases k ms L cursor end_ write Hs ltac:(lia) Hlt) as Hpin. cbn zeta in Hpin.
    assert (∀ r, ¬ accessible ms write (cursor / PAGE_SIZE) → r = Retry ∨ r = Invalid → pin_post (segments ms cursor end_) k ms write cursor end_ r) as Hno.
    { intros r Hna [->| ->] Hall; apply Hna, Hall; lia. }
    destruct (pin_user_segment strampoline k ms cursor end_ write) as [[s count]| | |].
    2: { exists NeedsFault. split; [done|]. exists cursor. split; [lia|done]. }
    2: { exists Retry. split; [done|]. apply Hno; auto. }
    2: { exists Invalid. split; [done|]. apply Hno; auto. }
    destruct Hpin as (Hrd & Hcount & Hseg). pose proof (Z.mod_pos_bound cursor PAGE_SIZE ltac:(unfold PAGE_SIZE; lia)) as Hmod.
    rewrite (proj2 (Z.eqb_neq _ _)) by lia. rewrite checked_add_Some by (unfold user_top, PAGE_SIZE, USIZE_MAX in *; lia). cbn [mbind option_bind].
    destruct (IH (cursor + count) (vec_push result s) ltac:(lia)) as (r & Hr & Hpost).
    { destruct (decide (end_ ≤ cursor + count)); [by left|]. right. replace (cursor + count) with ((cursor / PAGE_SIZE + 1) * PAGE_SIZE).
      - rewrite Z.div_mul by (unfold PAGE_SIZE; lia). lia.
      - pose proof (Z.div_mod cursor PAGE_SIZE ltac:(unfold PAGE_SIZE; lia)). lia. }
    rewrite Hr. exists (match r with Pinned c => Pinned ([s] ++ c) | r => r end). split.
    { destruct r; [|done..]. unfold vec_push. by rewrite <-app_assoc. }
    eapply pin_post_step; [|  | |exact Hpost]; [lia| |].
    + intros a Ha. destruct (page_run cursor count ltac:(lia) (a - cursor) ltac:(lia)) as [Heq _]. replace (cursor + (a - cursor)) with a in Heq by lia. by rewrite Heq.
    + intros c Hcs. rewrite Hseg. apply segments_cons; [lia|lia|done].
Qed.

Lemma range_div start len : 0 ≤ start → 0 ≤ len → (start + len - 1) / PAGE_SIZE ≤ start / PAGE_SIZE + len / PAGE_SIZE + 1.
Proof.
  intros Hs Hl. unfold PAGE_SIZE. pose proof (Z.div_mod start 4096 ltac:(lia)). pose proof (Z.mod_pos_bound start 4096 ltac:(lia)).
  pose proof (Z.div_mod len 4096 ltac:(lia)). pose proof (Z.mod_pos_bound len 4096 ltac:(lia)). apply Z.lt_succ_r, Z.div_lt_upper_bound; lia.
Qed.

Lemma pin_once_ok k ms L start len write : sp_ok (k_w k) (ms_table ms) (areas ms) L → 0 ≤ start → 0 ≤ len → start + len ≤ user_top * PAGE_SIZE →
  ∃ r, pin_user_range_once strampoline k ms start len write = Some r ∧ pin_post (segments ms start (start + len)) k ms write start (start + len) r.
Proof.
  intros Hs H0 Hlen Htop. unfold pin_user_range_once. rewrite checked_add_Some by (unfold user_top, PAGE_SIZE, USIZE_MAX in *; lia).
  destruct (Z.eqb_spec len 0) as [->|Hne].
  { exists (Pinned []). split; [done|]. split; [intros a Ha; lia|]. split; [constructor|]. by replace (start + 0 - start) with 0 by lia. }
  destruct (pin_loop_ok k ms L (start + len) write Hs Htop (pin_fuel len) start [] ltac:(lia)) as (r & Hr & Hpost).
  - right. unfold pin_fuel. pose proof (Z.div_pos len PAGE_SIZE Hlen ltac:(unfold PAGE_SIZE; lia)). rewrite Z2Nat.id by lia.
    pose proof (range_div start len H0 Hlen). lia.
  - exists r. split; [|done]. rewrite Hr. by destruct r.
Qed.
(** ** What a fault-in changes *)

(** The byte at an address, whatever the rights. *)
Definition space_byte k ms a : option Z :=
  match mm_find (k_w k) (ms_table ms) (a / PAGE_SIZE) with
  | Some (e, Page4K) => Some (byte_of (mm_mem (k_w k) (PTE_ppn e)) (a mod PAGE_SIZE))
  | _ => None
  end.

Lemma addr_page a : 0 ≤ a < user_top * PAGE_SIZE → 0 ≤ a / PAGE_SIZE < user_top.
Proof.
  intros Ha. split; [apply Z.div_pos; unfold PAGE_SIZE; lia|apply Z.div_lt_upper_bound; unfold PAGE_SIZE in *; lia].
Qed.

Lemma space_byte_Some k ms L a x : sp_ok (k_w k) (ms_table ms) (areas ms) L → 0 ≤ a < user_top * PAGE_SIZE →
  space_byte k ms a = Some x ↔ ∃ p f, page_at (areas ms) (a / PAGE_SIZE) = Some p ∧ pg_frame p = Some f ∧
    x = byte_of (mm_mem (k_w k) (f_ppn f)) (a mod PAGE_SIZE).
Proof.
  intros Hs Ha%addr_page. unfold space_byte. split.
  - intros Hx. destruct (page_at (areas ms) (a / PAGE_SIZE)) as [p|] eqn:Hp; [destruct (pg_frame p) as [f|] eqn:Hf|].
    + destruct (find_resident _ _ _ _ _ _ _ Hs Hp Hf) as (e & He & Hpf). rewrite He in Hx. injection Hx as <-. exists p, f. by rewrite (pf_ppn _ _ _ Hpf).
    + by rewrite (find_absent _ _ _ _ _ Hs Ha) in Hx by (by rewrite Hp).
    + by rewrite (find_absent _ _ _ _ _ Hs Ha) in Hx by (by rewrite Hp).
  - intros (p & f & Hp & Hf & ->). destruct (find_resident _ _ _ _ _ _ _ Hs Hp Hf) as (e & He & Hpf). by rewrite He, (pf_ppn _ _ _ Hpf).
Qed.

(** Pages of [ms] have become resident or have been copied; no byte that was there
    has changed, in this space or in the others. *)
Record grown l k ms k' ms' : Prop := {
  gr_good : good k' (ms' :: l);
  gr_table : ms_table ms' = ms_table ms;
  gr_page v : with_frame None <$> page_at (areas ms') v = with_frame None <$> page_at (areas ms) v;
  gr_frame v : page_at (areas ms') v ≫= pg_frame = None → page_at (areas ms) v ≫= pg_frame = None;
  gr_ready write v : ready k ms write v → ready k' ms' write v;
  gr_byte a x : 0 ≤ a < user_top * PAGE_SIZE → space_byte k ms a = Some x → space_byte k' ms' a = Some x;
  gr_others ms2 a : ms2 ∈ l → 0 ≤ a < user_top * PAGE_SIZE → space_byte k' ms2 a = space_byte k ms2 a;
}.

Lemma grown_refl l k ms : good k (ms :: l) → grown l k ms k ms.
Proof. intros Hg. by split. Qed.

Lemma grown_trans l k1 ms1 k2 ms2 k3 ms3 : grown l k1 ms1 k2 ms2 → grown l k2 ms2 k3 ms3 → grown l k1 ms1 k3 ms3.
Proof.
  intros [A1 A2 A3 A4 A5 A6 A7] [B1 B2 B3 B4 B5 B6 B7]. split; [done|congruence|congruence|auto|auto|auto|].
  intros ms a Hin Ha. by rewrite B7, A7.
Qed.

(** [grown], but for the bytes of a range, which were written. *)
Record stored l lo hi k ms k' ms' : Prop := {
  st_good : good k' (ms' :: l);
  st_table : ms_table ms' = ms_table ms;
  st_page v : with_frame None <$> page_at (areas ms') v = with_frame None <$> page_at (areas ms) v;
  st_frame v : page_at (areas ms') v ≫= pg_frame = None → page_at (areas ms) v ≫= pg_frame = None;
  st_byte a x : 0 ≤ a < user_top * PAGE_SIZE → ¬ lo ≤ a < hi → space_byte k ms a = Some x → space_byte k' ms' a = Some x;
  st_others ms2 a : ms2 ∈ l → 0 ≤ a < user_top * PAGE_SIZE → space_byte k' ms2 a = space_byte k ms2 a;
}.

Lemma grown_stored l lo hi k ms k' ms' : grown l k ms k' ms' → stored l lo hi k ms k' ms'.
Proof. intros [? ? ? ? ? Hb ?]. split; auto. Qed.

Lemma stored_trans l lo hi k1 ms1 k2 ms2 k3 ms3 : stored l lo hi k1 ms1 k2 ms2 → stored l lo hi k2 ms2 k3 ms3 → stored l lo hi k1 ms1 k3 ms3.
Proof.
  intros [A1 A2 A3 A4 A5 A6] [B1 B2 B3 B4 B5 B6]. split; [done|congruence|intros v; by rewrite B3|intros v Hv; by apply A4, B4| |].
  - intros a x Ha Hne Hx. by apply B5, A5.
  - intros ms a Hin Ha. by rewrite B6, A6.
Qed.

Lemma stored_widen l lo hi lo' hi' k ms k' ms' : lo' ≤ lo → hi ≤ hi' → stored l lo hi k ms k' ms' → stored l lo' hi' k ms k' ms'.
Proof. intros Hl Hh [? ? ? ? Hb ?]. split; [done..| |done]. intros a x Ha Hne. apply Hb; [done|lia]. Qed.

Lemma stored_page l lo hi k ms k' ms' v p' : stored l lo hi k ms k' ms' → page_at (areas ms') v = Some p' →
  ∃ p, page_at (areas ms) v = Some p ∧ with_frame None p' = with_frame None p ∧ (pg_frame p' = None → pg_frame p = None).
Proof.
  intros G Hp'. pose proof (st_page _ _ _ _ _ _ _ G v) as Hv. pose proof (st_frame _ _ _ _ _ _ _ G v) as Hf. rewrite Hp' in Hv, Hf. simpl in Hv, Hf.
  destruct (page_at (areas ms) v) as [p|]; [|done]. injection Hv as Hv. exists p. split_and!; [done| |done].
  unfold with_frame. by f_equal.
Qed.

Lemma stored_accessible l lo hi k ms k' ms' write v : stored l lo hi k ms k' ms' → accessible ms' write v ↔ accessible ms write v.
Proof.
  intros G. pose proof (st_page _ _ _ _ _ _ _ G v) as Hv. unfold accessible.
  destruct (page_at (areas ms') v) as [p'|], (page_at (areas ms) v) as [p|]; simpl in Hv; try done.
  injection Hv as Ht Hp _. split; intros (q & [= <-] & Hg & Ha).
  - exists p. rewrite <-Ht, <-Hp. done.
  - exists p'. rewrite Ht, Hp. done.
Qed.

Lemma grown_page l k ms k' ms' v p' : grown l k ms k' ms' → page_at (areas ms') v = Some p' →
  ∃ p, page_at (areas ms) v = Some p ∧ with_frame None p' = with_frame None p ∧ (pg_frame p' = None → pg_frame p = None).
Proof. intros G. by eapply (stored_page l 0 0), grown_stored. Qed.

Lemma grown_accessible l k ms k' ms' write v : grown l k ms k' ms' → accessible ms' write v ↔ accessible ms write v.
Proof. intros G. by eapply (stored_accessible l 0 0), grown_stored. Qed.

Lemma others_byte k l ms : good k (ms :: l) → ∀ ms2, ms2 ∈ l → ms_table ms2 ≠ ms_table ms ∧
  ∃ L, sp_ok (k_w k) (ms_table ms2) (areas ms2) L ∧ ∀ x, x ∈ held (areas ms2) → x ∈ held (areas ms) ++ others k l.
Proof.
  intros [Hok _] ms2 Hin. split.
  - intros Heq. pose proof (so_tables _ _ Hok) as Hn. rewrite fmap_cons in Hn. apply NoDup_cons in Hn as [Hn _]. apply Hn.
    rewrite <-Heq. apply list_elem_of_fmap. by exists ms2.
  - apply list_elem_of_split in Hin as (l1 & l2 & ->). exists (others k (ms :: l1 ++ l2)). split.
    + apply sys_sp. eapply sys_ok_perm; [|done]. solve_perm.
    + intros x Hx. unfold others. rewrite !elem_of_app. right. right. unfold all_held. apply list_elem_of_bind. exists ms2. split; [done|]. set_solver.
Qed.

(** The other spaces do not see an operation on one. *)
Lemma others_same k k' ms l T : good k (ms :: l) → stable (ms_table ms) T (held (areas ms) ++ others k l) (k_w k) (k_w k') →
  ∀ ms2 a, ms2 ∈ l → 0 ≤ a < user_top * PAGE_SIZE → space_byte k' ms2 a = space_byte k ms2 a.
Proof.
  intros Hg S ms2 a Hin Ha. destruct (others_byte k l ms Hg ms2 Hin) as (Hne & L & Hs & Hheld). unfold space_byte.
  pose proof (addr_page a Ha) as Hv. rewrite (st_find _ _ _ _ _ S) by (try (by apply uvpn_top); by left).
  destruct (mm_find (k_w k) (ms_table ms2) (a / PAGE_SIZE)) as [[e sz]|] eqn:He; [|done].
  destruct (page_at (areas ms2) (a / PAGE_SIZE) ≫= pg_frame) as [f|] eqn:Hf; [|by rewrite (find_absent _ _ _ _ _ Hs Hv Hf) in He].
  destruct (page_at (areas ms2) (a / PAGE_SIZE)) as [p|] eqn:Hp; [|done]. simpl in Hf.
  destruct (find_resident _ _ _ _ _ _ _ Hs Hp Hf) as (e' & He' & Hpf). rewrite He in He'. injection He' as -> ->. f_equal.
  unfold byte_of. rewrite (st_mem _ _ _ _ _ S); [done|]. rewrite (pf_ppn _ _ _ Hpf). apply Hheld, elem_of_held; [apply Hs|]. by exists (a / PAGE_SIZE), p, f.
Qed.

(** Pages that were not resident have come in. *)
Lemma grown_in k k' ms m' l T :
  good k (ms :: l) → good k' (with_areas m' ms :: l) → stable (ms_table ms) T (held (areas ms) ++ others k l) (k_w k) (k_w k') →
  (∀ v, page_at m' v = page_at (areas ms) v ∧ ¬ T v ∨
     page_at (areas ms) v ≫= pg_frame = None ∧ ∃ p g, page_at (areas ms) v = Some p ∧ page_at m' v = Some (with_frame (Some g) p)) →
  grown l k ms k' (with_areas m' ms).
Proof.
  intros Hg Hg' S Hv. pose proof (sys_sp _ _ _ (proj1 Hg)) as Hs. pose proof (sys_sp _ _ _ (proj1 Hg')) as Hs'.
  split; [done|done| | | | |by eapply others_same].
  - intros v. simpl. destruct (Hv v) as [[-> _]|(_ & p & g & -> & ->)]; done.
  - intros v. simpl. destruct (Hv v) as [[-> _]|(? & p & g & -> & ->)]; done.
  - intros write v (p & f & e & Hp & Hf & Ha & He & Hw). destruct (Hv v) as [[Heq Hn]|(Hnone & _)]; [|by rewrite Hp in Hnone; simpl in Hnone; congruence].
    exists p, f, e. simpl. rewrite Heq, (st_find _ _ _ _ _ S); [done|apply uvpn_top; by eapply page_at_range; [apply Hs|]|by right].
  - intros a x Ha Hx. rewrite (space_byte_Some _ _ _ _ _ Hs Ha) in Hx. destruct Hx as (p & f & Hp & Hf & ->).
    apply (space_byte_Some _ _ _ _ _ Hs' Ha). destruct (Hv (a / PAGE_SIZE)) as [[Heq Hn]|(Hnone & _)]; [|by rewrite Hp in Hnone; simpl in Hnone; congruence].
    exists p, f. simpl. rewrite Heq. split_and!; [done|done|]. unfold byte_of. rewrite (st_mem _ _ _ _ _ S); [done|]. apply elem_of_app. left.
    apply elem_of_held; [apply Hs|]. by exists (a / PAGE_SIZE), p, f.
Qed.
(** ** Faults *)

#[local] Instance may_fault_decision p : Decision (may_fault p).
Proof. unfold may_fault. apply _. Defined.

(** The page of the fault is in, with the entry of a new page. *)
Definition came_in k ms k' ms' v p : Prop :=
  ∃ f, page_at (areas ms') v = Some (with_frame (Some f) p) ∧
    mm_find (k_w k') (ms_table ms') v = Some (PTE_new (f_ppn f) (final_flags (initial_flags p)), Page4K).

Lemma fault_grown_own k ms l v p :
  good k (ms :: l) → page_at (areas ms) v = Some p → may_fault p → own_memory p → 3 * READ_AHEAD_PAGES ≤ mm_free (k_w k) →
  ∃ k' ms', handle_page_fault F k ms (v * PAGE_SIZE) = Some (true, k', ms') ∧ grown l k ms k' ms' ∧
    mm_free (k_w k) ≤ mm_free (k_w k') + 3 * READ_AHEAD_PAGES ∧ came_in k ms k' ms' v p.
Proof.
  intros Hg Hp Hmay Hown Hfree. pose proof (sys_sp _ _ _ (proj1 Hg)) as Hs. assert (3 ≤ 3 * READ_AHEAD_PAGES) as H3 by (unfold READ_AHEAD_PAGES; lia).
  assert (0 ≤ 0 < PAGE_SIZE) as Ho by (unfold PAGE_SIZE; lia). assert (pg_frame p = None) as Hnf by apply Hmay. rewrite <-(Z.add_0_r (v * PAGE_SIZE)).
  assert (∀ k' m' f L', page_in (ms_table ms) (areas ms) L' (k_w k) (k_w k') m' v p f → (∀ x, x ∈ others k l → x ∈ L') → good k' (with_areas m' ms :: l) →
    grown l k ms k' (with_areas m' ms) ∧ came_in k ms k' (with_areas m' ms) v p) as Hone.
  { intros k' m' f L' [S _ Hf Hv] Hsub Hg'. split; [|exists f; simpl; by rewrite Hv, decide_True].
    apply (grown_in k k' ms m' l (λ u, u = v) Hg Hg').
    - destruct S as [S1 S2 S3]. split; [|done|done]. intros q i Hq. apply S1. rewrite elem_of_app in *. naive_solver.
    - intros u. rewrite Hv. destruct (decide (u = v)) as [->|]; [right|by left]. rewrite Hp. split; [done|by exists p, f]. }
  destruct Hown as [Ht|(Ht & Hsc & f & n & Hb & Hn & Hn')]; [destruct (pg_anon p) as [r|] eqn:Han|].
  - destruct (so_refs _ _ (proj1 Hg) ms v p r ltac:(by left) Hp Han) as [_ Hr]. destruct (lookup_lt_is_Some_2 _ _ Hr) as [d Hd].
    pose proof (so_sizes _ _ (proj1 Hg) d) as Hsz. specialize (λ v f, Hsz v f ltac:(by eapply list_elem_of_lookup_2)).
    pose proof (good_fault_shared F k ms l v 0 p r Hg Hp Hmay Ho Ht Han ltac:(lia)) as Hgood.
    destruct (fault_shared_ok F k ms (all_held l) v 0 p r d Hs Hp Hmay Ho Ht Han Hd Hsz ltac:(lia)) as (f & k' & m' & He & _ & Hin & _ & _ & Hfr).
    rewrite He in Hgood |- *. simpl in Hgood. destruct (Hone _ _ _ _ Hin ltac:(done) Hgood) as [G C].
    exists k', (with_areas m' ms). split_and!; [done|done|lia|done].
  - pose proof (good_fault_private F k ms l v 0 p Hg Hp Hmay Ho Ht Han ltac:(lia)) as Hgood.
    destruct (fault_private_ok F k ms _ v 0 p Hs Hp Hmay Ho Ht Han ltac:(lia)) as (f & w' & m' & He & _ & Hin & _ & _ & Hfr).
    rewrite He in Hgood |- *. simpl in Hgood. destruct (Hone (with_w w' k) _ _ _ Hin ltac:(done) Hgood) as [G C].
    exists (with_w w' k), (with_areas m' ms). simpl. split_and!; [done|done|lia|done].
  - pose proof (good_fault_file F k ms l v 0 p f n Hg Hp Hmay Ho Ht Hsc Hb Hn Hn' Hfree) as Hgood.
    destruct (fault_file_ok F k ms _ v 0 p f n Hs Hp Hmay Ho Ht Hsc Hb Hn Hn' Hfree) as (fs & w' & m' & He & _ & S & [g Hfi] & _ & Hin & _ & Hv & Hfr).
    rewrite He in Hgood |- *. simpl in Hgood. exists (with_w w' k), (with_areas m' ms). split_and!; [done| |done|].
    + apply (grown_in k (with_w w' k) ms m' l _ Hg Hgood S). intros u. rewrite Hv. unfold frame_in. destruct (list_to_map fs !! u) as [g'|] eqn:Hg'.
      * apply elem_of_list_to_map_2 in Hg'. right. destruct (Hin _ _ Hg') as (_ & _ & Habs & Hback & _). split; [done|].
        destruct (page_at (areas ms) u) as [q|]; [|done]. by exists q, g'.
      * left. split; [done|]. by apply not_elem_of_list_to_map_2 in Hg'.
    + pose proof Hfi as Hfi'. unfold frame_in in Hfi'. apply elem_of_list_to_map_2 in Hfi'. exists g. simpl. rewrite Hv, Hfi, Hp. split; [done|].
      destruct (Hin _ _ Hfi') as (_ & _ & _ & _ & _ & ->). unfold initial_flags. apply orb_false_iff in Hsc as [_ ->]. done.
Qed.

(** Whatever the page, the fault keeps the invariants. *)
Lemma fault_grown k ms l v :
  good k (ms :: l) → 0 ≤ v < user_top → (∀ p, page_at (areas ms) v = Some p → may_fault p → own_memory p) → 3 * READ_AHEAD_PAGES ≤ mm_free (k_w k) →
  ∃ ok k' ms', handle_page_fault F k ms (v * PAGE_SIZE) = Some (ok, k', ms') ∧ grown l k ms k' ms' ∧
    mm_free (k_w k) ≤ mm_free (k_w k') + 3 * READ_AHEAD_PAGES ∧
    if ok then ∃ p, page_at (areas ms) v = Some p ∧ came_in k ms k' ms' v p else ∀ p, page_at (areas ms) v = Some p → ¬ may_fault p.
Proof.
  intros Hg Hv Hown Hfree. pose proof (sys_sp _ _ _ (proj1 Hg)) as Hs.
  assert ((∃ p, page_at (areas ms) v = Some p ∧ may_fault p) ∨ ∀ p, page_at (areas ms) v = Some p → ¬ may_fault p) as [(p & Hp & Hmay)|Hno].
  { destruct (page_at (areas ms) v) as [p|]; [|by right]. destruct (decide (may_fault p)); [left; by exists p|right; by intros q [= <-]]. }
  - destruct (fault_grown_own k ms l v p Hg Hp Hmay (Hown p Hp Hmay) Hfree) as (k' & ms' & He & G & Hf & C).
    exists true, k', ms'. split_and!; [done..|]. by exists p.
  - exists false, k, ms. rewrite <-(Z.add_0_r (v * PAGE_SIZE)). split_and!; [|by apply grown_refl|unfold READ_AHEAD_PAGES; lia|done].
    by apply (fault_refused F k ms _ v 0 Hs Hv); [unfold PAGE_SIZE; lia|].
Qed.

Lemma plain_writable n fl : Z.testbit fl 2 = true → writable (PTE_new n (final_flags fl)) = true.
Proof. intros Hb. by rewrite plain_flags. Qed.

(** A private page is copied; the other refusals leave everything as it is. *)
Lemma cow_grown k ms l v : good k (ms :: l) → 0 ≤ v < user_top → 0 < mm_free (k_w k) →
  ∃ ok k' ms', handle_cow_fault k ms (v * PAGE_SIZE) = Some (ok, k', ms') ∧ grown l k ms k' ms' ∧ mm_free (k_w k) ≤ mm_free (k_w k') + 1 ∧
    (ok = cow_pageb k ms v) ∧
    (ok = true → ∃ e, mm_find (k_w k') (ms_table ms') v = Some (e, Page4K) ∧ is_valid e = true ∧ writable e = true).
Proof.
  intros Hg Hv Hfree. pose proof (sys_sp _ _ _ (proj1 Hg)) as Hs. assert (0 ≤ 0 < PAGE_SIZE) as Ho by (unfold PAGE_SIZE; lia).
  rewrite <-(Z.add_0_r (v * PAGE_SIZE)). destruct (cow_pageb k ms v) eqn:Hb.
  2: { exists false, k, ms. rewrite (cow_refused k ms _ v 0 Hs Hv Ho) by (intros p f e; by apply cow_pageb_false).
    split_and!; [done|by apply grown_refl|lia|done|done]. }
  pose proof (good_cow k ms l v 0 Hg Hv Ho Hfree) as Hgood. destruct (cow_pageb_true _ _ _ Hb) as (p & f & e & Hp & He & Hc).
  destruct (cow_ok k ms _ v 0 p f e Hs Hp He Hc Ho Hfree) as (f' & w' & m' & Heq & Hs' & S & Hnew & Hcopy & Hh & Hf' & Hpv & Hfr).
  rewrite Heq in Hgood |- *. simpl in Hgood. destruct Hc as (Hgd & Hsh & HW & Hpf & Hro). exists true, (with_w w' k), (with_areas m' ms).
  rewrite flags_contain_W in HW. pose proof (plain_writable (f_ppn f') _ HW) as Hw'.
  assert (page_at m' v = Some (with_frame (Some f') p)) as Hpv' by (rewrite Hpv, decide_True, Hp by done; done).
  split_and!; [done| |done|done|].
  - split; [done|done| | | | |by eapply (others_same k (with_w w' k)); [|exact S]].
    + intros u. simpl. rewrite Hpv. destruct (decide (u = v)) as [->|]; [|done]. by rewrite Hp.
    + intros u. simpl. rewrite Hpv. destruct (decide (u = v)) as [->|]; [|done]. by rewrite Hp.
    + intros write u (q & g & e' & Hq & Hg' & Ha & He' & Hw). pose proof (page_at_range _ _ _ (sp_tree _ _ _ _ Hs) Hq) as Hu.
      destruct (decide (u = v)) as [->|Hne].
      * assert (q = p) as -> by congruence. exists (with_frame (Some f') p), f'. eexists. simpl. by rewrite Hpv', Hf'.
      * exists q, g, e'. simpl. rewrite Hpv, decide_False by done. rewrite (st_find _ _ _ _ _ S); [done|by apply uvpn_top|by right].
    + intros a x Ha Hx. rewrite (space_byte_Some _ _ _ _ _ Hs Ha) in Hx. destruct Hx as (q & g & Hq & Hg' & ->).
      apply (space_byte_Some (with_w w' k) (with_areas m' ms) _ _ _ Hs' Ha). simpl. rewrite Hpv.
      destruct (decide (a / PAGE_SIZE = v)) as [Hav|Hne].
      * rewrite Hav in Hq |- *. assert (q = p) as -> by congruence. rewrite Hp. exists (with_frame (Some f') p), f'. split_and!; [done|done|].
        unfold byte_of. rewrite Hcopy. congruence.
      * exists q, g. split_and!; [done|done|]. unfold byte_of. rewrite (st_mem _ _ _ _ _ S); [done|]. apply elem_of_app. left.
        apply elem_of_held; [apply Hs|]. by exists (a / PAGE_SIZE), q, g.
  - intros _. eexists. simpl. rewrite Hf'. split_and!; [done| |done]. destruct (find_resident w' _ m' _ v _ f' Hs' Hpv' eq_refl) as (e2 & He2 & Hpf2).
    rewrite Hf' in He2. injection He2 as <-. apply (pf_valid _ _ _ Hpf2).
Qed.
(** ** Making pages ready *)

(** The copy needs only anonymous memory and private files, and writes to private
    pages. *)
Definition plain ms (write : bool) v : Prop :=
  ∀ p, page_at (areas ms) v = Some p → (may_fault p → own_memory p) ∧ (write = true → pg_shared p = false).

Lemma stored_plain l lo hi k ms k' ms' write v : stored l lo hi k ms k' ms' → plain ms write v → plain ms' write v.
Proof.
  intros G Hpl p' Hp'. destruct (stored_page _ _ _ _ _ _ _ _ _ G Hp') as (p & Hp & Hw & Hf). destruct (Hpl p Hp) as [Hown Hsh].
  destruct p, p'. injection Hw as -> -> -> -> -> -> -> -> -> ->. split; [|done]. simpl in Hf. intros (H1 & H2 & H3 & H4). simpl in *.
  apply Hown. split_and!; [done|done|done|by apply Hf].
Qed.

Lemma grown_plain l k ms k' ms' write v : grown l k ms k' ms' → plain ms write v → plain ms' write v.
Proof. intros G. by eapply (stored_plain l 0 0), grown_stored. Qed.

Lemma entry_cases k ms L v : sp_ok (k_w k) (ms_table ms) (areas ms) L → 0 ≤ v < user_top →
  pt_translate (k_w k) (ms_table ms) v = None ∧ page_at (areas ms) v ≫= pg_frame = None ∨
  ∃ p f e, page_at (areas ms) v = Some p ∧ pg_frame p = Some f ∧ mm_find (k_w k) (ms_table ms) v = Some (e, Page4K) ∧
    pt_translate (k_w k) (ms_table ms) v = Some e ∧ pte_for (pg_perm p) f e.
Proof.
  intros Hs Hv. unfold pt_translate. destruct (page_at (areas ms) v) as [p|] eqn:Hp; [destruct (pg_frame p) as [f|] eqn:Hf|].
  - right. destruct (find_resident _ _ _ _ _ _ _ Hs Hp Hf) as (e & He & Hpf). exists p, f, e. by rewrite He.
  - left. rewrite (find_absent _ _ _ _ v Hs Hv) by (by rewrite Hp). done.
  - left. rewrite (find_absent _ _ _ _ v Hs Hv) by (by rewrite Hp). done.
Qed.

Lemma accessible_page ms write v p : page_at (areas ms) v = Some p → accessible ms write v →
  pg_type p ≠ Guard ∧ area_allows_user_access (pg_perm p) write = true ∧ Z.testbit (pg_perm p) (if write then 2 else 1) = true.
Proof.
  intros Hp (q & Hq & Hg & Ha). rewrite Hp in Hq. injection Hq as <-. split_and!; [done|done|].
  rewrite allows_bits in Ha. by apply andb_true_iff in Ha as [_ Ha].
Qed.

(** The entry decides: with the right to write, the page is ready. *)
Lemma entry_ready k ms L write v p f e : sp_ok (k_w k) (ms_table ms) (areas ms) L → page_at (areas ms) v = Some p → pg_frame p = Some f →
  mm_find (k_w k) (ms_table ms) v = Some (e, Page4K) → accessible ms write v → (write = true → writable e = true) → ready k ms write v.
Proof. intros Hs Hp Hf He Ha Hw. destruct (accessible_page _ _ _ _ Hp Ha) as (_ & ? & _). by exists p, f, e. Qed.

Lemma accessible_may_fault ms write v p : page_at (areas ms) v = Some p → accessible ms write v → pg_frame p = None → may_fault p.
Proof.
  intros Hp Ha Hf. destruct (accessible_page _ _ _ _ Hp Ha) as (Hg & Hall & Hb). unfold may_fault. split_and!; [done| | |done].
  - unfold area_allows_user_access in Hall. by apply andb_true_iff in Hall as [? _].
  - intros H0. assert (Z.testbit (Z.land (pg_perm p) (Z.lor (Z.lor R W) X)) (if write then 2 else 1) = true) as Ht.
    { rewrite Z.land_spec, Hb. by destruct write. }
    by rewrite H0, Z.bits_0 in Ht.
Qed.

Lemma resolve_grown k ms l v : good k (ms :: l) → 0 ≤ v < user_top → plain ms true v → 0 < mm_free (k_w k) →
  ∃ ok k' ms', resolve_cow_or_observe_writable k ms (v * PAGE_SIZE) = Some (ok, k', ms') ∧ grown l k ms k' ms' ∧
    mm_free (k_w k) ≤ mm_free (k_w k') + 1 ∧
    (accessible ms true v → page_at (areas ms) v ≫= pg_frame ≠ None → ok = true ∧ ready k' ms' true v).
Proof.
  intros Hg Hv Hpl Hfree. pose proof (sys_sp _ _ _ (proj1 Hg)) as Hs. unfold resolve_cow_or_observe_writable.
  destruct (cow_grown k ms l v Hg Hv Hfree) as (ok & k' & ms' & He & G & Hfr & Hok & Hw). rewrite He. cbn [mbind option_bind].
  eexists _, k', ms'. split_and!; [done|done|done|]. intros Ha Hres. assert (0 ≤ 0 < PAGE_SIZE) as Ho by (unfold PAGE_SIZE; lia).
  pose proof (floor_of_page v 0 Hv Ho) as Hfl. rewrite Z.add_0_r in Hfl. rewrite Hfl.
  pose proof (sys_sp _ _ _ (proj1 (gr_good _ _ _ _ _ G))) as Hs'. pose proof (proj2 (grown_accessible _ _ _ _ _ true v G) Ha) as Ha'.
  destruct (entry_cases k ms _ v Hs Hv) as [[_ ?]|(p & f & e & Hp & Hf & Hfe & _ & Hpf)]; [done|].
  destruct (accessible_page _ _ _ _ Hp Ha) as (Hgd & _ & HW). destruct (Hpl p Hp) as [_ Hsh]. specialize (Hsh eq_refl).
  destruct (entry_cases k' ms' _ v Hs' Hv) as [[_ Hn]|(p' & f' & e' & Hp' & Hf' & Hfe' & -> & Hpf')].
  { apply (gr_frame _ _ _ _ _ G) in Hn. done. }
  simpl. rewrite (pf_valid _ _ _ Hpf'). cbn [andb]. unfold cow_pageb in Hok. rewrite Hp, Hfe, Hsh, flags_contain_W, HW in Hok.
  rewrite (bool_decide_false (pg_type p = Guard)), bool_decide_true in Hok by (try done; by rewrite Hf). cbn [negb andb] in Hok.
  assert (writable e' = true) as Hw'.
  { destruct (writable e) eqn:Hwe; simpl in Hok.
    - destruct (gr_ready _ _ _ _ _ G true v) as (q & g & e2 & _ & _ & _ & He2 & Hw2); [by eapply entry_ready|]. rewrite Hfe' in He2. injection He2 as <-. auto.
    - destruct (Hw ltac:(done)) as (e2 & He2 & _ & Hw2). rewrite Hfe' in He2. by injection He2 as <-. }
  rewrite Hw', orb_true_r. split; [done|]. by eapply entry_ready.
Qed.

Definition page_cost : Z := 3 * READ_AHEAD_PAGES + 1.

Definition ensure_page (write : bool) k ms v : option (bool * kmm W_ * MemorySet) :=
  if write then ensure_writable_page F k ms v else ensure_readable_page F k ms v.

Lemma ensure_page_grown k ms l write v : good k (ms :: l) → 0 ≤ v < user_top → plain ms write v → page_cost ≤ mm_free (k_w k) →
  ∃ ok k' ms', ensure_page write k ms v = Some (ok, k', ms') ∧ grown l k ms k' ms' ∧ mm_free (k_w k) ≤ mm_free (k_w k') + page_cost ∧
    (accessible ms write v → ok = true ∧ ready k' ms' write v).
Proof.
  intros Hg Hv Hpl Hfree. pose proof (sys_sp _ _ _ (proj1 Hg)) as Hs. assert (3 * READ_AHEAD_PAGES + 1 = page_cost) as Hcost by done.
  assert (0 < READ_AHEAD_PAGES) as Hra by (unfold READ_AHEAD_PAGES; lia).
  assert (∀ q, page_at (areas ms) v = Some q → may_fault q → own_memory q) as Hown by (intros q Hq; by apply Hpl).
  unfold ensure_page, ensure_writable_page, ensure_readable_page. cbn zeta.
  destruct (entry_cases k ms _ v Hs Hv) as [[Hn Habs]|(p & f & e & Hp & Hf & Hfe & Hpt & Hpf)]; [rewrite Hn|rewrite Hpt]; cbn [from_option].
  - destruct (fault_grown k ms l v Hg Hv Hown ltac:(lia)) as (ok & k1 & ms1 & He & G & Hfr & Hok). rewrite He. cbn [mbind option_bind].
    destruct ok; cbn [negb andb].
    2: { assert (¬ accessible ms write v) as Hna.
      { intros Ha. pose proof Ha as (p & Hp & _). rewrite Hp in Habs. apply (Hok p Hp). by eapply accessible_may_fault. }
      destruct write; eexists _, k1, ms1; (split_and!; [done|done|lia|done]). }
    destruct Hok as (p & Hp & f & Hp1 & Hf1). pose proof (sys_sp _ _ _ (proj1 (gr_good _ _ _ _ _ G))) as Hs1. simpl in Hp1.
    destruct (find_resident _ _ _ _ _ _ f Hs1 Hp1 eq_refl) as (e1 & Hfe1 & Hpf1). simpl in Hpf1. pose proof Hfe1 as Ht1.
    assert (pt_translate (k_w k1) (ms_table ms1) v = Some e1) as -> by (unfold pt_translate; by rewrite Hfe1). cbn [from_option].
    rewrite (pf_valid _ _ _ Hpf1). cbn [andb]. destruct write.
    + destruct (writable e1) eqn:Hw1; cbn [negb].
      * eexists true, k1, ms1. split_and!; [done|done|lia|]. intros Ha. split; [done|]. apply (grown_accessible _ _ _ _ _ true v G) in Ha. by eapply entry_ready.
      * destruct (resolve_grown k1 ms1 l v (gr_good _ _ _ _ _ G) Hv (grown_plain _ _ _ _ _ _ _ G Hpl) ltac:(lia)) as (ok & k2 & ms2 & He2 & G2 & Hfr2 & Hok2).
        exists ok, k2, ms2. split_and!; [done|by eapply grown_trans|lia|]. intros Ha. apply (grown_accessible _ _ _ _ _ true v G) in Ha.
        apply Hok2; [done|]. by rewrite Hp1.
    + eexists _, k1, ms1. split_and!; [done|done|lia|]. intros Ha. destruct (accessible_page _ _ _ _ Hp Ha) as (_ & _ & Hb).
      split; [by rewrite (pf_read _ _ _ Hpf1)|]. apply (grown_accessible _ _ _ _ _ false v G) in Ha. by eapply entry_ready.
  - rewrite (pf_valid _ _ _ Hpf). cbn [andb]. destruct write.
    + destruct (writable e) eqn:Hw.
      * eexists true, k, ms. split_and!; [done|by apply grown_refl|lia|]. intros Ha. split; [done|]. by eapply entry_ready.
      * destruct (resolve_grown k ms l v Hg Hv Hpl ltac:(lia)) as (ok & k2 & ms2 & He2 & G2 & Hfr2 & Hok2).
        exists ok, k2, ms2. split_and!; [done|done|lia|]. intros Ha. apply Hok2; [done|]. by rewrite Hp; simpl; rewrite Hf.
    + rewrite (pf_read _ _ _ Hpf). destruct (Z.testbit (pg_perm p) 1) eqn:Hb.
      * eexists true, k, ms. split_and!; [done|by apply grown_refl|lia|]. intros Ha. split; [done|]. by eapply entry_ready.
      * eexists false, k, ms. split_and!; [done|by apply grown_refl|lia|]. intros Ha. destruct (accessible_page _ _ _ _ Hp Ha) as (_ & _ & Hb'). by rewrite Hb in Hb'.
Qed.
(** ** Making a range ready *)

Lemma ensure_loop_grown l write e n : ∀ fuel k ms v,
  good k (ms :: l) → 0 ≤ v → e = v + Z.of_nat n → e < user_top → (n < fuel)%nat →
  (∀ u, v ≤ u ≤ e → plain ms write u) → (Z.of_nat n + 1) * page_cost ≤ mm_free (k_w k) →
  ∃ ok k' ms', ensure_loop fuel (ensure_page write) k ms v e 1 = Some (ok, k', ms') ∧ grown l k ms k' ms' ∧
    mm_free (k_w k) ≤ mm_free (k_w k') + (Z.of_nat n + 1) * page_cost ∧
    ((∀ u, v ≤ u ≤ e → accessible ms write u) → ok = true) ∧
    (ok = true → ∀ u, v ≤ u ≤ e → accessible ms write u → ready k' ms' write u).
Proof.
  assert (0 < page_cost) as Hpc by (unfold page_cost, READ_AHEAD_PAGES; lia).
  induction n as [|n IH]; intros fuel k ms v Hg Hv -> Htop Hfuel Hpl Hfree; (destruct fuel as [|fuel]; [lia|]); cbn [ensure_loop].
  all: destruct (ensure_page_grown k ms l write v Hg ltac:(lia) ltac:(apply Hpl; lia) ltac:(nia)) as (ok & k1 & ms1 & -> & G & Hfr & Hok); cbn [mbind option_bind].
  all: destruct ok; cbn [negb].
  - rewrite Z.add_0_r, Z.eqb_refl. exists true, k1, ms1. split_and!; [done|done|lia|done|]. intros _ u Hu Ha. replace u with v in * by lia. by apply Hok.
  - exists false, k1, ms1. split_and!; [done|done|lia| |done]. intros Ha. apply Hok, Ha. lia.
  - rewrite (proj2 (Z.eqb_neq _ _)) by lia. rewrite checked_add_Some by (unfold user_top, USIZE_MAX in *; lia). cbn [mbind option_bind].
    destruct (IH fuel k1 ms1 (v + 1) (gr_good _ _ _ _ _ G)) as (ok & k2 & ms2 & He & G2 & Hfr2 & Hok2 & Hrd2); [lia|lia|lia|lia| |nia|].
    { intros u Hu. eapply grown_plain; [done|]. apply Hpl. lia. }
    exists ok, k2, ms2. split_and!; [done|by eapply grown_trans|nia| |].
    + intros Ha. apply Hok2. intros u Hu. apply (grown_accessible _ _ _ _ _ write u G). apply Ha. lia.
    + intros Ht u Hu Ha. destruct (decide (u = v)) as [->|Hne].
      * apply (gr_ready _ _ _ _ _ G2). by apply Hok.
      * apply Hrd2; [done|lia|]. by apply (grown_accessible _ _ _ _ _ write u G).
  - exists false, k1, ms1. split_and!; [done|done|nia| |done]. intros Ha. apply Hok, Ha. lia.
Qed.

Lemma VirtAddr_of_page_mul n : 0 ≤ n ≤ user_top → VirtAddr_of_page n = n * PAGE_SIZE.
Proof.
  intros Hn. unfold VirtAddr_of_page, PAGE_SIZE_BITS. rewrite Z.shiftl_mul_pow2 by lia. change USIZE_MAX with (Z.ones 64).
  rewrite Z.land_ones by lia. unfold user_top in Hn. rewrite Z.mod_small by lia. done.
Qed.

(** The area that the search for the start of the range finds. *)
Lemma range_area ms L k s : sp_ok (k_w k) (ms_table ms) (areas ms) L → 0 ≤ s < user_top * PAGE_SIZE →
  match list_find (λ '(_, a), VirtAddr_of_page (get_start a) ≤ s < VirtAddr_of_page (get_end a)) (bt_entries (areas ms)) with
  | Some (_, (_, a)) => page_size a = Page4K
  | None => page_at (areas ms) (s / PAGE_SIZE) = None
  end.
Proof.
  intros Hs Hr. pose proof (sp_tree _ _ _ _ Hs) as Hm. destruct (list_find _ _) as [[i [key a]]|] eqn:Hf.
  - apply list_find_Some in Hf as (Hi & _ & _). apply list_elem_of_lookup_2, elem_of_entries in Hi. destruct (to_area _ Hm _ _ Hi) as [_ Ha]. apply Ha.
  - apply list_find_None in Hf. rewrite Forall_forall in Hf. apply page_at_None; [done|]. intros key a Hk Hin.
    destruct (to_area _ Hm _ _ Hk) as [_ Ha]. pose proof (ao_range _ Ha). pose proof (ao_top _ Ha). apply (Hf (key, a)); [by apply elem_of_entries|].
    unfold inside in Hin. rewrite !VirtAddr_of_page_mul by (unfold user_top in *; lia).
    pose proof (Z.div_mod s PAGE_SIZE ltac:(unfold PAGE_SIZE; lia)). pose proof (Z.mod_pos_bound s PAGE_SIZE ltac:(unfold PAGE_SIZE; lia)). unfold PAGE_SIZE in *. lia.
Qed.

Definition range_pages (start len : Z) : Z := (start + len - 1) / PAGE_SIZE - start / PAGE_SIZE + 1.

Lemma range_cost start len : 0 < len → 0 ≤ range_pages start len * page_cost.
Proof.
  intros Hlen. apply Z.mul_nonneg_nonneg; [|unfold page_cost, READ_AHEAD_PAGES; lia]. unfold range_pages.
  pose proof (Z.div_le_mono start (start + len - 1) PAGE_SIZE ltac:(unfold PAGE_SIZE; lia) ltac:(lia)). lia.
Qed.

Definition all_plain ms write lo hi : Prop := ∀ a, lo ≤ a < hi → plain ms write (a / PAGE_SIZE).

Lemma ensure_range_grown k ms l write start len :
  good k (ms :: l) → user_range start len → all_plain ms write start (start + len) → range_pages start len * page_cost ≤ mm_free (k_w k) →
  ∃ ok k' ms', handle_fault_in_range F k ms start len write = Some (ok, k', ms') ∧ grown l k ms k' ms' ∧
    mm_free (k_w k) ≤ mm_free (k_w k') + range_pages start len * page_cost ∧
    (all_accessible ms write start (start + len) → ok = true) ∧
    (ok = true → ∀ a, start ≤ a < start + len → accessible ms write (a / PAGE_SIZE) → ready k' ms' write (a / PAGE_SIZE)).
Proof.
  intros Hg (H0 & Hlen & Htop) Hpl Hfree. pose proof (sys_sp _ _ _ (proj1 Hg)) as Hs.
  assert (handle_fault_in_range F k ms start len write = ensure_user_range (ensure_page write) k ms start len) as -> by (by destruct write).
  unfold ensure_user_range. rewrite (proj2 (Z.eqb_neq _ _)) by lia. rewrite VirtAddr_from_id by (unfold user_top, PAGE_SIZE in *; lia).
  pose proof (range_area ms _ k start Hs ltac:(lia)) as Hra. destruct (list_find _ _) as [[i [key a]]|].
  2: { exists false, k, ms. split_and!; [done|by apply grown_refl|pose proof (range_cost start len Hlen); lia| |done]. intros Ha. destruct (Ha start ltac:(lia)) as (p & Hp & _). congruence. }
  rewrite Hra. change (num_pages Page4K) with 1. rewrite checked_add_Some by (unfold user_top, PAGE_SIZE, USIZE_MAX in *; lia). cbn [mbind option_bind].
  unfold checked_sub. rewrite (proj2 (Z.leb_le _ _)) by lia. cbn [mbind option_bind].
  rewrite !floor_of_id by (unfold user_top, PAGE_SIZE in *; lia). unfold first_page.
  assert (start / PAGE_SIZE ≤ (start + len - 1) / PAGE_SIZE) as Hle by (apply Z.div_le_mono; unfold PAGE_SIZE; lia).
  assert (∀ u, start / PAGE_SIZE ≤ u ≤ (start + len - 1) / PAGE_SIZE → ∃ x, start ≤ x < start + len ∧ x / PAGE_SIZE = u) as Hpick.
  { intros u Hu. exists (Z.max start (u * PAGE_SIZE)). pose proof (Z.div_mod start PAGE_SIZE ltac:(unfold PAGE_SIZE; lia)).
    pose proof (Z.mod_pos_bound start PAGE_SIZE ltac:(unfold PAGE_SIZE; lia)). pose proof (Z.div_mod (start + len - 1) PAGE_SIZE ltac:(unfold PAGE_SIZE; lia)).
    pose proof (Z.mod_pos_bound (start + len - 1) PAGE_SIZE ltac:(unfold PAGE_SIZE; lia)). split; [unfold PAGE_SIZE in *; lia|].
    destruct (decide (u = start / PAGE_SIZE)) as [->|].
    - by rewrite Z.max_l by (unfold PAGE_SIZE in *; lia).
    - rewrite Z.max_r by (unfold PAGE_SIZE in *; lia). apply Z.div_mul. unfold PAGE_SIZE. lia. }
  assert (∀ x, start ≤ x < start + len → start / PAGE_SIZE ≤ x / PAGE_SIZE ≤ (start + len - 1) / PAGE_SIZE) as Hin.
  { intros x Hx. split; apply Z.div_le_mono; unfold PAGE_SIZE; lia. }
  destruct (ensure_loop_grown l write ((start + len - 1) / PAGE_SIZE) (Z.to_nat ((start + len - 1) / PAGE_SIZE - start / PAGE_SIZE))
    (ensure_fuel (start / PAGE_SIZE) ((start + len - 1) / PAGE_SIZE)) k ms (start / PAGE_SIZE) Hg) as (ok & k' & ms' & He & G & Hfr & Hok & Hrd).
  - apply Z.div_pos; unfold PAGE_SIZE; lia.
  - lia.
  - by apply addr_page; lia.
  - unfold ensure_fuel. rewrite (proj2 (Z.leb_le _ _)) by lia. lia.
  - intros u Hu. destruct (Hpick u Hu) as (x & Hx & <-). by apply Hpl.
  - unfold range_pages in Hfree. rewrite Z2Nat.id by lia. lia.
  - exists ok, k', ms'. split_and!; [done|done|unfold range_pages; rewrite Z2Nat.id in Hfr by lia; lia| |].
    + intros Ha. apply Hok. intros u Hu. destruct (Hpick u Hu) as (x & Hx & <-). by apply Ha.
    + intros Ht x Hx Ha. apply Hrd; [done|by apply Hin|done].
Qed.

(** ** The retry loop *)

Lemma pin_retry_stuck {A} (once : kmm W_ → MemorySet → option (pin_result A)) k ms start len write faults : once k ms = Some Retry →
  ∀ fuel retries, (8 - retries < fuel)%nat → pin_retry F once fuel k ms start len write retries faults = Some (None, k, ms).
Proof.
  intros Ho. induction fuel as [|fuel IH]; intros retries Hf; [lia|]. cbn [pin_retry]. rewrite Ho. cbn [mbind option_bind].
  unfold MAX_TRANSIENT_USER_PIN_RETRIES. destruct (Nat.ltb_spec retries 8); [|done]. apply IH. lia.
Qed.

(** A translation with its retries: it succeeds when every page of the range may be
    accessed. *)
Lemma pin_retry_ok {A} (Q : MemorySet → A → Prop) once k ms l write start len :
  (∀ k ms, good k (ms :: l) → ∃ r, once k ms = Some r ∧ pin_post (Q ms) k ms write start (start + len) r) →
  good k (ms :: l) → user_range start len → all_plain ms write start (start + len) → range_pages start len * page_cost ≤ mm_free (k_w k) →
  ∃ r k' ms', pin_retry F once retry_fuel k ms start len write 0 0 = Some (r, k', ms') ∧ grown l k ms k' ms' ∧
    mm_free (k_w k) ≤ mm_free (k_w k') + range_pages start len * page_cost ∧
    match r with
    | Some x => all_accessible ms write start (start + len) ∧ all_ready k' ms' write start (start + len) ∧ Q ms' x
    | None => ¬ all_accessible ms write start (start + len)
    end.
Proof.
  intros Honce Hg Hr Hpl Hfree. pose proof (sys_sp _ _ _ (proj1 Hg)) as Hs. pose proof Hr as (H0 & Hlen & Htop).
  assert (∃ n, retry_fuel = S (S n) ∧ (8 < n)%nat) as (n & -> & H8) by (exists 98%nat; split; [done|lia]).
  destruct (Honce k ms Hg) as (r & Hr0 & Hpost). pose proof (range_cost start len Hlen) as Hc.
  destruct r as [x| | |]; simpl in Hpost; [| |rewrite (pin_retry_stuck _ k ms) by (try done; lia)|]; cbn [pin_retry]; rewrite ?Hr0; cbn [mbind option_bind].
  - exists (Some x), k, ms. split_and!; [done|by apply grown_refl|lia| |apply Hpost|apply Hpost]. intros a Ha. by eapply ready_accessible, Hpost.
  - unfold MAX_TRANSIENT_USER_PIN_RETRIES. cbn [Nat.ltb Nat.leb].
    destruct (ensure_range_grown k ms l write start len Hg Hr Hpl Hfree) as (ok & k1 & ms1 & -> & G & Hfr & Hok & Hrd). cbn [mbind option_bind].
    destruct ok.
    2: { exists None, k1, ms1. split_and!; [done|done|done|]. intros Ha. by specialize (Hok Ha). }
    pose proof (sys_sp _ _ _ (proj1 (gr_good _ _ _ _ _ G))) as Hs1. destruct (Honce k1 ms1 (gr_good _ _ _ _ _ G)) as (r & Hr1 & Hpost1).
    assert (¬ all_accessible ms1 write start (start + len) → ¬ all_accessible ms write start (start + len)) as Hacc.
    { intros Hn Ha. apply Hn. intros a Har. by apply (grown_accessible _ _ _ _ _ _ _ G), Ha. }
    rewrite Hr1. cbn [mbind option_bind]. destruct r as [x| | |]; simpl in Hpost1.
    + exists (Some x), k1, ms1. split_and!; [done|done|done| |apply Hpost1|apply Hpost1].
      intros a Ha. apply (grown_accessible _ _ _ _ _ _ _ G). by eapply ready_accessible, Hpost1.
    + destruct Hpost1 as (a & Har & Ha & Hn). exfalso. apply Hn, Hrd; [done|done|]. by apply (grown_accessible _ _ _ _ _ _ _ G).
    + rewrite (pin_retry_stuck _ k1 ms1) by (try done; lia). exists None, k1, ms1. split_and!; [done|done|done|auto].
    + exists None, k1, ms1. split_and!; [done|done|done|auto].
  - exists None, k, ms. split_and!; [done|by apply grown_refl|lia|done].
  - exists None, k, ms. split_and!; [done|by apply grown_refl|lia|done].
Qed.

(** The buffer of a range has every byte of it. *)
Lemma pin_range_ok k ms l write start len :
  good k (ms :: l) → user_range start len → all_plain ms write start (start + len) → range_pages start len * page_cost ≤ mm_free (k_w k) →
  ∃ r k' ms', pin_user_range F strampoline k ms start len write = Some (r, k', ms') ∧ grown l k ms k' ms' ∧
    mm_free (k_w k) ≤ mm_free (k_w k') + range_pages start len * page_cost ∧
    match r with
    | Some b => all_accessible ms write start (start + len) ∧ all_ready k' ms' write start (start + len) ∧ segments ms' start (start + len) b
    | None => ¬ all_accessible ms write start (start + len)
    end.
Proof.
  intros Hg Hr. apply (pin_retry_ok (λ ms, segments ms start (start + len)) _ k ms l write start len); [|done|done].
  intros k0 ms0 Hg0. pose proof Hr as (? & ? & ?). eapply pin_once_ok; [by apply sys_sp, Hg0|lia..].
Qed.

(** One segment of a page. *)
Lemma pin_one_ok k ms l write start len :
  good k (ms :: l) → user_range start len → len ≤ PAGE_SIZE - start mod PAGE_SIZE → all_plain ms write start (start + len) → page_cost ≤ mm_free (k_w k) →
  ∃ r k' ms', pin_user_segment_with_retry F strampoline k ms start len write = Some (r, k', ms') ∧ grown l k ms k' ms' ∧
    mm_free (k_w k) ≤ mm_free (k_w k') + page_cost ∧
    match r with
    | Some (s, count) => ready k' ms' write (start / PAGE_SIZE) ∧ count = len ∧
        s = MkSeg (frame_of ms' (start / PAGE_SIZE)) (start mod PAGE_SIZE) len true
    | None => ¬ accessible ms write (start / PAGE_SIZE)
    end.
Proof.
  intros Hg Hr Hpage Hpl Hfree. pose proof Hr as (H0 & Hlen & Htop). unfold pin_user_segment_with_retry.
  rewrite checked_add_Some by (unfold user_top, PAGE_SIZE, USIZE_MAX in *; lia). rewrite (proj2 (Z.eqb_neq len 0)) by lia.
  assert (∀ a, start ≤ a < start + len → a / PAGE_SIZE = start / PAGE_SIZE) as Hdiv.
  { intros a Ha. destruct (page_run start len ltac:(lia) (a - start) ltac:(lia)) as [Heq _]. by replace (start + (a - start)) with a in Heq by lia. }
  assert (range_pages start len = 1) as H1 by (unfold range_pages; rewrite Hdiv by lia; lia).
  set (Q := λ ms (x : UserBufferSegment * Z), x.2 = len ∧ x.1 = MkSeg (frame_of ms (start / PAGE_SIZE)) (start mod PAGE_SIZE) len true).
  destruct (pin_retry_ok Q (λ k ms, Some (match pin_user_segment strampoline k ms (VirtAddr_from start) (start + len) write with
      | Pinned (s, count) => if count =? 0 then Invalid else Pinned (s, count) | r => r end)) k ms l write start len) as (r & k' & ms' & Hp & G & Hfr & Hres).
  - intros k0 ms0 Hg0. eexists. split; [done|]. rewrite VirtAddr_from_id by (unfold user_top, PAGE_SIZE in *; lia).
    pose proof (pin_segment_cases k0 ms0 _ start (start + len) write (sys_sp _ _ _ (proj1 Hg0)) ltac:(lia) ltac:(lia)) as Hc. cbn zeta in Hc.
    destruct (pin_user_segment strampoline k0 ms0 start (start + len) write) as [[s count]| | |]; simpl.
    + destruct Hc as (Hrd & Hcount & Hs). assert (count = len) as -> by lia. rewrite (proj2 (Z.eqb_neq len 0)) by lia. split; [|done].
      intros a Ha. by rewrite Hdiv.
    + exists start. split; [lia|done].
    + intros Ha. apply Hc, Ha. lia.
    + intros Ha. apply Hc, Ha. lia.
  - done.
  - done.
  - done.
  - rewrite H1. lia.
  - rewrite Hp. exists r, k', ms'. split_and!; [done|done|lia|]. destruct r as [[s count]|].
    + destruct Hres as (_ & Hrd & Hcount & Hs). split; [|done]. apply Hrd. lia.
    + intros Ha. apply Hres. intros a Har. by rewrite Hdiv.
Qed.

(** ** Reading and writing *)

Lemma good_bytes k l P w' : good k l → only_bytes P (all_trackers k l) (k_w k) w' → good (with_w w' k) l.
Proof.
  intros [Hok Hi] [B1 B2 B3 B4 B5]. assert (∀ ms, ms ∈ l → tree_ok (areas ms)) as Htree by (intros ms Hin; by apply Hok).
  split.
  - split; [exact B1|apply Hok| |apply Hok|apply Hok]. intros ms Hin. destruct (so_space _ _ Hok ms Hin) as (Ht & Hm & Hp).
    split_and!; [done|by apply B2|]. intros v Hv. simpl. rewrite B3 by (by apply uvpn_top). by apply Hp.
  - intros ms v f Hin (p & e & Hp & Hf & Hsh & He & Hw). apply (Hi ms v f Hin). exists p, e. split_and!; [done..| |done].
    simpl in He. rewrite B3 in He; [done|]. apply uvpn_top. by eapply page_at_range; [apply Htree|].
Qed.

Lemma ready_frame k ms l write v : good k (ms :: l) → ready k ms write v →
  0 ≤ v < user_top ∧ frame_of ms v ∈ held (areas ms) ∧ frame_of ms v ∈ all_trackers k (ms :: l) ∧
  ∃ p f, page_at (areas ms) v = Some p ∧ pg_frame p = Some f ∧ frame_of ms v = f_ppn f.
Proof.
  intros Hg (p & f & e & Hp & Hf & _). pose proof (sys_sp _ _ _ (proj1 Hg)) as Hs. assert (frame_of ms v = f_ppn f) as Heq.
  { unfold frame_of. rewrite Hp. simpl. by rewrite Hf. }
  assert (f_ppn f ∈ held (areas ms)) as Hh by (apply elem_of_held; [apply Hs|]; by exists v, p, f).
  rewrite Heq. split; [by eapply page_at_range; [apply Hs|]|]. split_and!; [done|rewrite all_trackers_cons; apply elem_of_app; by left|by exists p, f].
Qed.

Lemma ready_byte k ms l write a : good k (ms :: l) → ready k ms write (a / PAGE_SIZE) → 0 ≤ a < user_top * PAGE_SIZE →
  space_byte k ms a = Some (load_byte (k_w k) (frame_of ms (a / PAGE_SIZE)) (a mod PAGE_SIZE)).
Proof.
  intros Hg Hrd Ha. destruct (ready_frame _ _ _ _ _ Hg Hrd) as (_ & _ & _ & p & f & Hp & Hf & ->).
  rewrite load_byte_page by (unfold in_page; apply Z.mod_pos_bound; unfold PAGE_SIZE; lia).
  apply (space_byte_Some _ _ _ _ _ (sys_sp _ _ _ (proj1 Hg)) Ha). by exists p, f.
Qed.

Lemma segments_pos ms lo hi b : segments ms lo hi b → Forall (λ s, 0 ≤ seg_len s) b.
Proof. intros [Hb _]. eapply Forall_impl; [done|]. intros s [? _]. simpl. lia. Qed.

(** The bytes of a range that is there. *)
Lemma ready_data k ms l start len : good k (ms :: l) → user_range start len → all_ready k ms false start (start + len) →
  let data := ((λ x : Z * Z, load_byte (k_w k) x.1 x.2) ∘ (λ a, (frame_of ms (a / PAGE_SIZE), a mod PAGE_SIZE))) <$> seqZ start len in
  Z.of_nat (length data) = len ∧ Forall (λ x, 0 ≤ x < 256) data ∧ ∀ i x, data !! i = Some x → space_byte k ms (start + Z.of_nat i) = Some x.
Proof.
  intros Hg (H0 & Hlen & Htop) Hrd. split_and!; [rewrite length_fmap, length_seqZ; lia|apply Forall_fmap, Forall_true; intros a; apply byte_of_range|].
  intros i x. rewrite list_lookup_fmap. destruct (seqZ start len !! i) as [a|] eqn:Ha; [|done]. apply lookup_seqZ in Ha as [-> Hi].
  intros [= <-]. by apply (ready_byte k ms l false); [|apply Hrd; lia|lia].
Qed.

(** A read: the bytes of the range, after the pages have come in. *)
Lemma read_ok k ms l start len :
  good k (ms :: l) → user_range start len → all_plain ms false start (start + len) → range_pages start len * page_cost ≤ mm_free (k_w k) →
  ∃ r k' ms', try_translated_read F strampoline k ms start len = Some (r, k', ms') ∧ grown l k ms k' ms' ∧
    mm_free (k_w k) ≤ mm_free (k_w k') + range_pages start len * page_cost ∧
    match r with
    | Some data => all_accessible ms false start (start + len) ∧ Z.of_nat (length data) = len ∧ Forall (λ x, 0 ≤ x < 256) data ∧
        ∀ i x, data !! i = Some x → space_byte k' ms' (start + Z.of_nat i) = Some x
    | None => ¬ all_accessible ms false start (start + len)
    end.
Proof.
  intros Hg Hr Hpl Hfree. pose proof Hr as (H0 & Hlen & Htop). unfold try_translated_read.
  destruct (pin_range_ok k ms l false start len Hg Hr Hpl Hfree) as (r & k' & ms' & -> & G & Hfr & Hres). cbn [mbind option_bind].
  destruct r as [b|]; [|by exists None, k', ms']. destruct Hres as (Hacc & Hrd & Hseg). eexists _, k', ms'. split_and!; [done|done|done|].
  rewrite read_segments_ptrs by (try lia; by eapply segments_pos). destruct Hseg as [_ Hptr]. rewrite Hptr.
  replace (start + len - start) with len by lia. rewrite Z.sub_0_r, <-list_fmap_compose, take_ge by (by rewrite length_fmap, length_seqZ).
  rewrite length_fmap, length_seqZ, Nat.sub_diag, app_nil_r. split; [done|]. by apply (ready_data k' ms' l); [apply G| |].
Qed.

(** The pages that a copy writes are the caller's own. *)
Lemma ready_private k ms l v f : good k (ms :: l) → plain ms true v → ready k ms true v → page_at (areas ms) v ≫= pg_frame = Some f →
  private_writable k ms v f.
Proof.
  intros Hg Hpl (p & g & e & Hp & Hf & _ & He & Hw) Hpf. destruct (Hpl p Hp) as [_ Hsh]. rewrite Hp in Hpf. simpl in Hpf.
  exists p, e. split_and!; [done|done|by apply Hsh|done|by apply Hw].
Qed.

Lemma ptrs_nodup k ms l lo n : good k (ms :: l) → all_plain ms true lo (lo + n) → all_ready k ms true lo (lo + n) →
  NoDup ((λ a, (frame_of ms (a / PAGE_SIZE), a mod PAGE_SIZE)) <$> seqZ lo n).
Proof.
  intros Hg Hpl Hrd. apply NoDup_fmap_2_strong; [|apply NoDup_seqZ]. intros a b Ha%elem_of_seqZ Hb%elem_of_seqZ [= Hf Ho].
  destruct (ready_frame _ _ _ _ _ Hg (Hrd a ltac:(lia))) as (_ & _ & _ & p & f & Hp & Hpf & Hfa).
  destruct (ready_frame _ _ _ _ _ Hg (Hrd b ltac:(lia))) as (_ & _ & _ & q & g & Hq & Hqf & Hfb).
  assert (a / PAGE_SIZE = b / PAGE_SIZE) as Hpage.
  { destruct (decide (b / PAGE_SIZE = a / PAGE_SIZE)) as [|Hne]; [done|]. exfalso.
    assert (private_writable k ms (a / PAGE_SIZE) f) as Hw.
    { eapply ready_private; [done|apply Hpl; lia|apply Hrd; lia|]. by rewrite Hp. }
    apply (private_frame k (ms :: l) ms (a / PAGE_SIZE) f ms (b / PAGE_SIZE) q g Hg ltac:(by left) Hw ltac:(by left) Hq Hqf); [by right|congruence]. }
  rewrite (Z.div_mod a PAGE_SIZE), (Z.div_mod b PAGE_SIZE) by (unfold PAGE_SIZE; lia). congruence.
Qed.

(** A byte outside the range, in any address space, is in another place. *)
Lemma outside_ptrs k ms l lo n ms2 a : good k (ms :: l) → all_plain ms true lo (lo + n) → all_ready k ms true lo (lo + n) →
  ms2 ∈ ms :: l → 0 ≤ a < user_top * PAGE_SIZE → (ms2 = ms → ¬ lo ≤ a < lo + n) → ∀ p f, page_at (areas ms2) (a / PAGE_SIZE) = Some p → pg_frame p = Some f →
  (f_ppn f, a mod PAGE_SIZE) ∉ ((λ a, (frame_of ms (a / PAGE_SIZE), a mod PAGE_SIZE)) <$> seqZ lo n).
Proof.
  intros Hg Hpl Hrd Hin Ha Hout p f Hp Hf (b & [= Hfb Hob] & Hb%elem_of_seqZ)%list_elem_of_fmap.
  destruct (ready_frame _ _ _ _ _ Hg (Hrd b ltac:(lia))) as (_ & _ & _ & q & g & Hq & Hqf & Heq).
  assert (private_writable k ms (b / PAGE_SIZE) g) as Hw.
  { eapply ready_private; [done|apply Hpl; lia|apply Hrd; lia|]. by rewrite Hq. }
  assert (¬ (ms_table ms2 ≠ ms_table ms ∨ a / PAGE_SIZE ≠ b / PAGE_SIZE)) as Hsame.
  { intros Hne. apply (private_frame k (ms :: l) ms (b / PAGE_SIZE) g ms2 (a / PAGE_SIZE) p f Hg ltac:(by left) Hw Hin Hp Hf Hne). congruence. }
  assert (ms2 = ms) as ->.
  { apply elem_of_cons in Hin as [|Hin]; [done|]. exfalso. destruct (others_byte k l ms Hg ms2 Hin) as [Hne _]. tauto. }
  apply (Hout eq_refl). assert (a / PAGE_SIZE = b / PAGE_SIZE) as Hpage by (destruct (decide (a / PAGE_SIZE = b / PAGE_SIZE)); tauto).
  assert (a = b) as ->; [|lia]. rewrite (Z.div_mod a PAGE_SIZE), (Z.div_mod b PAGE_SIZE) by (unfold PAGE_SIZE; lia). congruence.
Qed.

(** A byte that no pointer reaches. *)
Lemma kept_byte k ms L w' (P : list (Z * Z)) a : sp_ok (k_w k) (ms_table ms) (areas ms) L → 0 ≤ a < user_top * PAGE_SIZE → find_same (mm_find (k_w k)) (mm_find w') →
  (∀ q o, in_page o → (q, o) ∉ P → load_byte w' q o = load_byte (k_w k) q o) →
  (∀ p f, page_at (areas ms) (a / PAGE_SIZE) = Some p → pg_frame p = Some f → (f_ppn f, a mod PAGE_SIZE) ∉ P) →
  space_byte (with_w w' k) ms a = space_byte k ms a.
Proof.
  intros Hs Ha Hfs Hl Hn. pose proof (addr_page a Ha) as Hv. unfold space_byte. simpl. rewrite Hfs by (by apply uvpn_top).
  destruct (entry_cases k ms _ _ Hs Hv) as [[Hno _]|(p & f & e & Hp & Hf & He & _ & Hpf)].
  - unfold pt_translate in Hno. by destruct (mm_find _ _ _) as [[? ?]|].
  - rewrite He. f_equal. assert (in_page (a mod PAGE_SIZE)) as Ho by (unfold in_page; apply Z.mod_pos_bound; unfold PAGE_SIZE; lia).
    rewrite <-!load_byte_page by done. rewrite (pf_ppn _ _ _ Hpf). apply Hl; [done|by eapply Hn].
Qed.

(** A write: the bytes of the range, and no other byte of any space. *)
(** Writing the bytes through the pointers of a pinned range. *)
Lemma put_bytes_ok k ms l start data b : Forall (λ x, 0 ≤ x < 256) data → let len := Z.of_nat (length data) in
  good k (ms :: l) → user_range start len → all_plain ms true start (start + len) → all_ready k ms true start (start + len) →
  segments ms start (start + len) b → let k' := with_w (put_all (k_w k) (zip (buffer_ptrs b) data)) k in
  stored l start (start + len) k ms k' ms ∧ mm_free (k_w k') = mm_free (k_w k) ∧
  ∀ i x, data !! i = Some x → space_byte k' ms (start + Z.of_nat i) = Some x.
Proof.
  intros Hdata len Hg (H0 & Hlen & Htop) Hpl Hrd [_ Hptr].
  replace (start + len - start) with len in Hptr by lia. set (ptrs := (λ a, _) <$> seqZ start len) in *.
  assert (length (buffer_ptrs b) = length data) as Hlb by (rewrite Hptr; unfold ptrs; rewrite length_fmap, length_seqZ; lia).
  assert ((zip (buffer_ptrs b) data).*1 = ptrs) as Hz by (rewrite fst_zip, Hptr by lia; done).
  destruct (put_all_ok (all_trackers k (ms :: l)) (zip (buffer_ptrs b) data) (k_w k)) as (S & Hin & Hout).
  { apply Hg. }
  { apply Forall_forall. intros [[q o] x] Hx. apply elem_of_zip_l in Hx. rewrite Hptr in Hx. unfold ptrs in Hx. simpl.
    apply list_elem_of_fmap in Hx as (a & [= -> ->] & Ha%elem_of_seqZ).
    split; [by apply (ready_frame k ms l true); [|apply Hrd]|unfold in_page; apply Z.mod_pos_bound; unfold PAGE_SIZE; lia]. }
  { rewrite Hz. by apply (ptrs_nodup k ms l). }
  rewrite Hz in Hout. set (w2 := put_all (k_w k) _) in *. intros k'. pose proof (good_bytes k (ms :: l) _ w2 Hg S) as Hg2.
  assert (∀ ms2 a, ms2 ∈ ms :: l → 0 ≤ a < user_top * PAGE_SIZE → (ms2 = ms → ¬ start ≤ a < start + len) →
    space_byte k' ms2 a = space_byte k ms2 a) as Hkeep.
  { intros ms2 a Hin2 Ha Hne. apply list_elem_of_split in Hin2 as Hsplit. destruct Hsplit as (l1 & l2 & Hl).
    eapply (kept_byte k ms2 _ w2 ptrs); [apply sys_sp; eapply (sys_ok_perm k (ms :: l) (ms2 :: l1 ++ l2)); [rewrite Hl; solve_perm|apply Hg]|done|apply S|exact Hout|].
    intros p f. by apply (outside_ptrs k ms l start len ms2 a). }
  split; [split; [done..| |]|split; [apply S|]].
  - intros a x Ha Hne Hx. rewrite Hkeep by (try done; by left). done.
  - intros ms2 a Hin2 Ha. rewrite Hkeep; [done|by right|done|]. intros ->. exfalso.
    destruct (others_byte k l ms Hg ms Hin2) as [? _]. done.
  - intros i x Hx. assert (i < length data)%nat as Hi by (by eapply lookup_lt_Some).
    assert (zip (buffer_ptrs b) data !! i = Some ((frame_of ms ((start + Z.of_nat i) / PAGE_SIZE), (start + Z.of_nat i) mod PAGE_SIZE), x)) as Hzi.
    { apply lookup_zip_with_Some. eexists _, _. split_and!; [done| |done]. rewrite Hptr. unfold ptrs. rewrite list_lookup_fmap, lookup_seqZ_lt by lia. done. }
    apply list_elem_of_lookup_2, Hin in Hzi. rewrite (ready_byte k' ms l true); [|done| |lia].
    + f_equal. change (k_w k') with w2. rewrite Hzi. change 255 with (Z.ones 8). rewrite Z.land_ones by lia. apply Z.mod_small.
      rewrite Forall_forall in Hdata. apply Hdata. by eapply list_elem_of_lookup_2.
    + destruct (Hrd (start + Z.of_nat i) ltac:(lia)) as (p & f & e & Hp & Hf & Ha & He & Hw). exists p, f, e. split_and!; [done..| |done].
      simpl. rewrite (ob_find _ _ _ _ S); [done|]. apply uvpn_top. apply addr_page. lia.
Qed.

(** The same after pinning. *)
Lemma pin_put_ok k ms l start data : Forall (λ x, 0 ≤ x < 256) data → let len := Z.of_nat (length data) in
  good k (ms :: l) → user_range start len → all_plain ms true start (start + len) → range_pages start len * page_cost ≤ mm_free (k_w k) →
  ∃ r k' ms', pin_user_range F strampoline k ms start len true = Some (r, k', ms') ∧
    match r with
    | Some b => all_accessible ms true start (start + len) ∧ Forall (λ s, 0 ≤ seg_len s) b ∧
        let k2 := with_w (put_all (k_w k') (zip (buffer_ptrs b) data)) k' in
        stored l start (start + len) k ms k2 ms' ∧ mm_free (k_w k) ≤ mm_free (k_w k2) + range_pages start len * page_cost ∧
        ∀ i x, data !! i = Some x → space_byte k2 ms' (start + Z.of_nat i) = Some x
    | None => ¬ all_accessible ms true start (start + len) ∧ grown l k ms k' ms' ∧ mm_free (k_w k) ≤ mm_free (k_w k') + range_pages start len * page_cost
    end.
Proof.
  intros Hdata len Hg Hr Hpl Hfree.
  destruct (pin_range_ok k ms l true start len Hg Hr Hpl Hfree) as (r & k' & ms' & -> & G & Hfr & Hres). exists r, k', ms'. split; [done|].
  destruct r as [b|]; [|done]. destruct Hres as (Hacc & Hrd & Hseg).
  assert (all_plain ms' true start (start + len)) as Hpl' by (intros a Ha; eapply grown_plain; [done|by apply Hpl]).
  destruct (put_bytes_ok k' ms' l start data b Hdata (gr_good _ _ _ _ _ G) Hr Hpl' Hrd Hseg) as (Hst & Hf2 & Hb).
  split; [done|]. split; [by eapply segments_pos|]. cbn zeta. split; [|split; [by rewrite Hf2|done]].
  eapply stored_trans; [by apply grown_stored|done].
Qed.

(** [try_translated_write], and [UserBuffer::write] to a translated buffer. *)
Lemma write_ok k ms l start data : Forall (λ x, 0 ≤ x < 256) data → let len := Z.of_nat (length data) in
  good k (ms :: l) → user_range start len → all_plain ms true start (start + len) → range_pages start len * page_cost ≤ mm_free (k_w k) →
  ∃ ok k' ms', try_translated_write F strampoline k ms start data = Some (ok, k', ms') ∧ stored l start (start + len) k ms k' ms' ∧
    mm_free (k_w k) ≤ mm_free (k_w k') + range_pages start len * page_cost ∧
    (ok = true ↔ all_accessible ms true start (start + len)) ∧
    (ok = true → ∀ i x, data !! i = Some x → space_byte k' ms' (start + Z.of_nat i) = Some x).
Proof.
  intros Hdata len Hg Hr Hpl Hfree. unfold try_translated_write. fold len.
  destruct (pin_put_ok k ms l start data Hdata Hg Hr Hpl Hfree) as (r & k' & ms' & Hpin & Hres). fold len in Hpin, Hres. rewrite Hpin. cbn [mbind option_bind].
  destruct r as [b|].
  - destruct Hres as (Hacc & Hpos & Hst & Hfr & Hb). pose proof (write_segments_zip b (k_w k') 0 data Hpos ltac:(lia)) as Hws.
    change (Z.of_nat 0) with 0 in Hws. rewrite drop_0 in Hws. rewrite Hws. eexists true, _, ms'. split; [done|]. by split_and!.
  - destruct Hres as (Hacc & G & Hfr). exists false, k', ms'. split_and!; [done|by apply grown_stored|done|by split|done].
Qed.

Lemma buffer_write_ok k ms l start data : Forall (λ x, 0 ≤ x < 256) data → let len := Z.of_nat (length data) in
  good k (ms :: l) → user_range start len → all_plain ms true start (start + len) → range_pages start len * page_cost ≤ mm_free (k_w k) →
  ∃ r k' ms', translated_user_buffer_mut F strampoline k ms start len = Some (r, k', ms') ∧
    match r with
    | Some b => all_accessible ms true start (start + len) ∧
        let k2 := with_w (buffer_write (k_w k') b 0 data) k' in
        stored l start (start + len) k ms k2 ms' ∧ mm_free (k_w k) ≤ mm_free (k_w k2) + range_pages start len * page_cost ∧
        ∀ i x, data !! i = Some x → space_byte k2 ms' (start + Z.of_nat i) = Some x
    | None => ¬ all_accessible ms true start (start + len) ∧ grown l k ms k' ms' ∧ mm_free (k_w k) ≤ mm_free (k_w k') + range_pages start len * page_cost
    end.
Proof.
  intros Hdata len Hg Hr Hpl Hfree. destruct (pin_put_ok k ms l start data Hdata Hg Hr Hpl Hfree) as (r & k' & ms' & Hpin & Hres). exists r, k', ms'.
  split; [done|]. destruct r as [b|]; [|done]. destruct Hres as (Hacc & Hpos & Hres). split; [done|].
  pose proof (buffer_write_zip b (k_w k') 0 data Hpos ltac:(lia)) as Hws. change (Z.of_nat 0) with 0 in Hws. rewrite drop_0 in Hws. by rewrite Hws.
Qed.

(** [UserBuffer::read] of a translated buffer. *)
Lemma buffer_read_ok k ms l start len :
  good k (ms :: l) → user_range start len → all_plain ms false start (start + len) → range_pages start len * page_cost ≤ mm_free (k_w k) →
  ∃ r k' ms', translated_user_buffer F strampoline k ms start len = Some (r, k', ms') ∧ grown l k ms k' ms' ∧
    mm_free (k_w k) ≤ mm_free (k_w k') + range_pages start len * page_cost ∧
    match r with
    | Some b => all_accessible ms false start (start + len) ∧
        let data := buffer_read (k_w k') b 0 (replicate (Z.to_nat (buffer_len b)) 0) in
        Z.of_nat (length data) = len ∧ Forall (λ x, 0 ≤ x < 256) data ∧
        ∀ i x, data !! i = Some x → space_byte k' ms' (start + Z.of_nat i) = Some x
    | None => ¬ all_accessible ms false start (start + len)
    end.
Proof.
  intros Hg Hr Hpl Hfree. pose proof Hr as (H0 & Hlen & Htop).
  destruct (pin_range_ok k ms l false start len Hg Hr Hpl Hfree) as (r & k' & ms' & Hpin & G & Hfr & Hres). exists r, k', ms'. split_and!; [done|done|done|].
  destruct r as [b|]; [|done]. destruct Hres as (Hacc & Hrd & Hseg). split; [done|]. pose proof (segments_pos _ _ _ _ Hseg) as Hpos. destruct Hseg as [_ Hptr].
  rewrite buffer_len_ptrs by done. rewrite Hptr, length_fmap, length_seqZ, Nat2Z.id. replace (start + len - start) with len in Hptr |- * by lia.
  pose proof (buffer_read_ptrs b (k_w k') 0 (replicate (Z.to_nat len) 0) Hpos ltac:(lia)) as Hb. cbn zeta in Hb. change (Z.of_nat 0) with 0 in Hb.
  rewrite length_replicate, Hptr, <-list_fmap_compose, (take_ge (_ <$> _)) in Hb by (rewrite length_fmap, length_seqZ; lia).
  rewrite length_fmap, length_seqZ, Nat.add_0_l, drop_ge, app_nil_r in Hb by (rewrite length_replicate; lia). cbn [take app] in Hb. rewrite Hb.
  by apply (ready_data k' ms' l); [apply G| |].
Qed.

(** ** Strings *)

Lemma until_zero_spec (d : list Z) : ∃ rest, d = until_zero d ++ rest ∧ Forall (λ x, x ≠ 0) (until_zero d) ∧ (rest = [] ∨ head rest = Some 0).
Proof.
  induction d as [|x d (rest & Hd & Hf & Hr)]; [by exists []; auto|]. simpl. destruct (Z.eqb_spec x 0) as [->|Hx].
  - exists (0 :: d). auto.
  - exists rest. split_and!; [simpl; by rewrite <-Hd|by constructor|done].
Qed.

Lemma segment_space k ms l write start len : good k (ms :: l) → user_range start len → len ≤ PAGE_SIZE - start mod PAGE_SIZE →
  ready k ms write (start / PAGE_SIZE) →
  let d := segment_bytes (k_w k) (MkSeg (frame_of ms (start / PAGE_SIZE)) (start mod PAGE_SIZE) len true) in
  Z.of_nat (length d) = len ∧ ∀ i x, d !! i = Some x → space_byte k ms (start + Z.of_nat i) = Some x.
Proof.
  intros Hg (H0 & Hlen & Htop) Hpage Hrd. unfold segment_bytes. simpl. split; [rewrite length_fmap, length_seqZ; lia|].
  intros i x. rewrite list_lookup_fmap. destruct (seqZ 0 len !! i) as [j|] eqn:Hj; [|done]. apply lookup_seqZ in Hj as [-> Hi]. intros [= <-].
  destruct (page_run start len ltac:(lia) (Z.of_nat i) ltac:(lia)) as [Hd Hm]. rewrite (ready_byte k ms l write); [|done|by rewrite Hd|lia].
  by rewrite Hd, Hm.
Qed.

(** The bytes from [lo] up to [hi] are there, and none is the terminator. *)
Definition unterminated k ms lo hi : Prop := ∀ a, lo ≤ a < hi → ∃ x, space_byte k ms a = Some x ∧ x ≠ 0.

Definition cstring_post ms k' ms' lo limit (r : UserCStringError + list Z) : Prop :=
  match r with
  | inr s => lo + Z.of_nat (length s) < limit ∧ (∀ i x, s !! i = Some x → x ≠ 0 ∧ space_byte k' ms' (lo + Z.of_nat i) = Some x) ∧
      space_byte k' ms' (lo + Z.of_nat (length s)) = Some 0
  | inl CTooLong => unterminated k' ms' lo limit
  | inl CInvalid => ∃ a, lo ≤ a < limit ∧ unterminated k' ms' lo a ∧ ¬ accessible ms false (a / PAGE_SIZE)
  end.

Lemma unterminated_grown l k ms k' ms' lo hi : grown l k ms k' ms' → 0 ≤ lo → hi ≤ user_top * PAGE_SIZE → unterminated k ms lo hi → unterminated k' ms' lo hi.
Proof. intros G H0 Htop Hu a Ha. destruct (Hu a Ha) as (x & Hx & Hne). exists x. split; [apply G; [lia|done]|done]. Qed.

(** One piece of the string is done. *)
Lemma cstring_step l k ms k1 ms1 k2 ms2 lo mid limit d r : grown l k ms k1 ms1 → grown l k1 ms1 k2 ms2 → 0 ≤ lo → limit ≤ user_top * PAGE_SIZE → mid = lo + Z.of_nat (length d) → mid ≤ limit →
  (∀ i x, d !! i = Some x → x ≠ 0 ∧ space_byte k1 ms1 (lo + Z.of_nat i) = Some x) →
  cstring_post ms1 k2 ms2 mid limit r → cstring_post ms k2 ms2 lo limit (match r with inr s => inr (d ++ s) | inl e => inl e end).
Proof.
  intros G1 G2 H0 Htop Hmid Hle Hd Hpost.
  assert (unterminated k2 ms2 lo mid) as Hu.
  { intros a Ha. assert (∃ x, d !! Z.to_nat (a - lo) = Some x) as [x Hx] by (apply lookup_lt_is_Some; lia).
    destruct (Hd _ _ Hx) as [Hne Hb]. exists x. split; [|done]. apply G2; [lia|]. by replace (lo + Z.of_nat (Z.to_nat (a - lo))) with a in Hb by lia. }
  assert (∀ a, unterminated k2 ms2 mid a → unterminated k2 ms2 lo a) as Hjoin.
  { intros a Hm b Hb. destruct (decide (b < mid)); [apply Hu|apply Hm]; lia. }
  destruct r as [[]|s]; simpl in *.
  - destruct Hpost as (a & Ha & Hua & Hna). exists a. split_and!; [lia|lia|by apply Hjoin|]. by rewrite <-(grown_accessible _ _ _ _ _ _ _ G1).
  - by apply Hjoin.
  - destruct Hpost as (Hlen & Hs & H0s). rewrite length_app, Nat2Z.inj_add, Z.add_assoc, <-Hmid. split_and!; [done| |done].
    intros i x [Hx|[Hi Hx]]%lookup_app_Some.
    + destruct (Hd _ _ Hx) as [Hne Hb]. split; [done|]. apply G2; [apply lookup_lt_Some in Hx; lia|done].
    + destruct (Hs _ _ Hx) as [Hne Hb]. split; [done|]. by replace (lo + Z.of_nat i) with (mid + Z.of_nat (i - length d)) by lia.
Qed.

Lemma cstring_loop_ok l ptr max_len : 0 ≤ ptr → 0 ≤ max_len → ptr + max_len + 1 ≤ user_top * PAGE_SIZE →
  ∀ fuel k ms copied string, let va := ptr + copied in let limit := ptr + (max_len + 1) in
  good k (ms :: l) → 0 ≤ copied ≤ max_len + 1 → all_plain ms false va limit →
  limit ≤ va ∨ (limit - 1) / PAGE_SIZE - va / PAGE_SIZE < Z.of_nat fuel ∧ range_pages va (limit - va) * page_cost ≤ mm_free (k_w k) →
  ∃ r k' ms', cstring_loop F strampoline fuel k ms va copied max_len (max_len + 1) string =
      Some (match r with inr s => inr (string ++ s) | inl e => inl e end, k', ms') ∧
    grown l k ms k' ms' ∧ cstring_post ms k' ms' va limit r.
Proof.
  intros H0 Hm Htop. induction fuel as [|fuel IH]; intros k ms copied string va limit Hg Hc Hpl Hf; cbn [cstring_loop].
  all: assert (va = ptr + copied) as Hva by done; assert (limit = ptr + (max_len + 1)) as Hlim by done; clearbody va limit.
  all: destruct (Z.leb_spec (max_len + 1) copied) as [Hge|Hlt].
  1, 3: exists (inl CTooLong), k, ms; split_and!; [done|by apply grown_refl|]; intros a Ha; lia.
  - destruct Hf as [?|[Hf _]]; [lia|]. pose proof (Z.div_le_mono va (limit - 1) PAGE_SIZE ltac:(unfold PAGE_SIZE; lia) ltac:(lia)). lia.
  - destruct Hf as [?|[Hf Hfree]]; [lia|]. replace (Z.land va (PAGE_SIZE - 1)) with (va mod PAGE_SIZE) by (symmetry; apply (Z.land_ones va 12); lia).
    pose proof (Z.mod_pos_bound va PAGE_SIZE ltac:(unfold PAGE_SIZE; lia)) as Hmod. set (n := Z.min _ _).
    assert (n = Z.min (PAGE_SIZE - va mod PAGE_SIZE) (max_len + 1 - copied)) as Hn by done. clearbody n.
    assert (user_range va n) as Hr by (unfold user_range; lia). assert (0 < page_cost) as Hpc by (unfold page_cost, READ_AHEAD_PAGES; lia).
    assert (va / PAGE_SIZE ≤ (limit - 1) / PAGE_SIZE) as Hdle by (apply Z.div_le_mono; unfold PAGE_SIZE; lia).
    destruct (pin_one_ok k ms l false va n Hg Hr ltac:(lia)) as (r & k1 & ms1 & -> & G & Hfr & Hres).
    { intros a Ha. apply Hpl. lia. }
    { unfold range_pages in Hfree. replace (va + (limit - va) - 1) with (limit - 1) in Hfree by lia. nia. }
    cbn [mbind option_bind]. destruct r as [[s count]|].
    2: { exists (inl CInvalid), k1, ms1. split_and!; [done|done|]. exists va. split_and!; [lia|lia|intros a Ha; lia|done]. }
    destruct Hres as (Hrd & -> & ->).
    destruct (segment_space k1 ms1 l false va n (gr_good _ _ _ _ _ G) Hr ltac:(lia) Hrd) as [Hlen Hsp]. cbn zeta in Hlen, Hsp.
    set (d := segment_bytes _ _) in *. destruct (until_zero_spec d) as (rest & Hd & Hnz & Hrest). set (pre := until_zero d) in *.
    assert (∀ i x, pre !! i = Some x → x ≠ 0 ∧ space_byte k1 ms1 (va + Z.of_nat i) = Some x) as Hpre.
    { intros i x Hx. split; [rewrite Forall_forall in Hnz; apply Hnz; by eapply list_elem_of_lookup_2|]. apply Hsp. rewrite Hd. by apply lookup_app_l_Some. }
    assert (length d = length pre + length rest)%nat as Hdl by (by rewrite Hd at 1; rewrite length_app).
    rewrite (proj2 (Z.ltb_ge max_len copied)) by lia. cbn [orb].
    assert (length rest = 0%nat → unterminated k1 ms1 va (va + n)) as Hun.
    { intros Hr0 a Ha. assert (∃ x, pre !! Z.to_nat (a - va) = Some x) as [x Hx] by (apply lookup_lt_is_Some; lia).
      destruct (Hpre _ _ Hx) as [Hne Hb]. exists x. by replace (va + Z.of_nat (Z.to_nat (a - va))) with a in Hb by lia. }
    destruct (Z.ltb_spec (max_len - copied) (Z.of_nat (length pre))) as [Hlong|Hshort].
    { exists (inl CTooLong), k1, ms1. split_and!; [done|done|]. simpl. replace limit with (va + n) by lia. apply Hun. lia. }
    destruct (Nat.eqb_spec (length pre) (length d)) as [Heq|Hneq]; cbn [negb].
    2: { exists (inr pre), k1, ms1. split_and!; [done|done|]. simpl. split_and!; [lia|done|].
      apply Hsp. rewrite Hd, lookup_app_r, Nat.sub_diag by done. destruct rest as [|z rest]; [simpl in Hdl; lia|].
      destruct Hrest as [?|[= ->]]; done. }
    rewrite !checked_add_Some by (unfold user_top, PAGE_SIZE, USIZE_MAX in *; lia). replace (va + n) with (ptr + (copied + n)) by lia.
    cbn zeta in IH. rewrite <-Hlim in IH. destruct (IH k1 ms1 (copied + n) (string ++ pre) (gr_good _ _ _ _ _ G)) as (r & k2 & ms2 & He & G2 & Hpost).
    + lia.
    + intros a Ha. eapply grown_plain; [done|]. apply Hpl. lia.
    + destruct (decide (limit ≤ ptr + (copied + n))) as [|Hmore]; [by left|right].
      assert (ptr + (copied + n) = (va / PAGE_SIZE + 1) * PAGE_SIZE) as Hnext.
      { pose proof (Z.div_mod va PAGE_SIZE ltac:(unfold PAGE_SIZE; lia)). lia. }
      rewrite Hnext. unfold range_pages in *. rewrite Z.div_mul by (unfold PAGE_SIZE; lia).
      replace (va + (limit - va) - 1) with (limit - 1) in Hfree by lia.
      replace ((va / PAGE_SIZE + 1) * PAGE_SIZE + (limit - (va / PAGE_SIZE + 1) * PAGE_SIZE) - 1) with (limit - 1) by lia. split; [lia|nia].
    + exists (match r with inr s => inr (pre ++ s) | inl e => inl e end), k2, ms2. split_and!.
      * rewrite He. destruct r; [done|]. by rewrite <-app_assoc.
      * by eapply grown_trans.
      * eapply (cstring_step l k ms k1 ms1 k2 ms2 va); [done|done| | | | |done|exact Hpost]; lia.
Qed.

(** [copy_user_cstring]: the bytes before the first zero, if it is among the first
    [max_len + 1] bytes; pages after it are not looked at. *)
Lemma cstring_ok k ms l ptr max_len :
  good k (ms :: l) → 0 < ptr → 0 ≤ max_len → ptr + max_len + 1 ≤ user_top * PAGE_SIZE →
  all_plain ms false ptr (ptr + (max_len + 1)) → range_pages ptr (max_len + 1) * page_cost ≤ mm_free (k_w k) →
  ∃ r k' ms', copy_user_cstring F strampoline k ms ptr max_len = Some (r, k', ms') ∧ grown l k ms k' ms' ∧
    cstring_post ms k' ms' ptr (ptr + (max_len + 1)) r.
Proof.
  intros Hg H0 Hm Htop Hpl Hfree. unfold copy_user_cstring.
  rewrite (proj2 (Z.eqb_neq _ _)), (proj2 (Z.leb_gt _ _)) by (unfold user_top, PAGE_SIZE in *; lia). cbn [orb].
  rewrite checked_add_Some by (unfold user_top, PAGE_SIZE, USIZE_MAX in *; lia).
  destruct (cstring_loop_ok l ptr max_len ltac:(lia) Hm Htop (pin_fuel (max_len + 1)) k ms 0 [] Hg ltac:(lia)) as (r & k' & ms' & He & G & Hpost).
  - rewrite Z.add_0_r. done.
  - right. rewrite Z.add_0_r. split.
    + unfold pin_fuel. pose proof (Z.div_pos (max_len + 1) PAGE_SIZE ltac:(lia) ltac:(unfold PAGE_SIZE; lia)). rewrite Z2Nat.id by lia.
      pose proof (range_div ptr (max_len + 1) ltac:(lia) ltac:(lia)). lia.
    + by replace (ptr + (max_len + 1) - ptr) with (max_len + 1) by lia.
  - rewrite Z.add_0_r in He, Hpost. exists r, k', ms'. split_and!; [|done|done]. rewrite He. by destruct r.
Qed.
End copy.
