(* ===== verification/CopyProps.v ===== *)
(** * Properties of copies between the kernel and user memory

    The theorems about the user-memory functions of [mm/page_table.rs] and the
    buffers of [mm/user_buffer.rs], and runs that show what an address outside the
    39 bits of a virtual address does. *)

From S2P Require Import Prelude Errno Address FrameAllocator PageTable Mm BTree MapArea MemSet Space SpaceUnmap SpaceFault SpaceSys SpaceProps UserCopy SpaceCopy.

Local Open Scope Z_scope.

Module CopyProps.

Section props.
Context {W_ : Type} `{!Mm W_} (F : FileOps W_) (strampoline : Z).
Implicit Types (k : kmm W_) (ms : MemorySet) (l : list MemorySet).


(** C9 A read of user memory succeeds exactly when every page of the range is mapped with
    the right to read, and gives the bytes of the range.  It changes no byte of any
    address space. *)
Theorem copy_in_exact k ms l start len :
  good k (ms :: l) → user_range start len → all_plain ms false start (start + len) → range_pages start len * page_cost ≤ mm_free (k_w k) →
  ∃ r k' ms', try_translated_read F strampoline k ms start len = Some (r, k', ms') ∧ grown l k ms k' ms' ∧
    match r with
    | Some data => all_accessible ms false start (start + len) ∧ Z.of_nat (length data) = len ∧
        ∀ i x, data !! i = Some x → space_byte k' ms' (start + Z.of_nat i) = Some x
    | None => ¬ all_accessible ms false start (start + len)
    end.
Proof.
  intros Hg Hr Hpl Hfree. destruct (read_ok F strampoline k ms l start len Hg Hr Hpl Hfree) as (r & k' & ms' & He & G & _ & Hres).
  exists r, k', ms'. split_and!; [done|done|]. destruct r; [|done]. by destruct Hres as (? & ? & _ & ?).
Qed.

(** C35 The copy of a string from user memory ends at the first zero byte: it gives the
    bytes before it when there are at most [max_len] of them, refuses a longer string
    as too long, and is invalid only when it meets a page without the right to read
    before the terminator.  Pages after the terminator are not needed.  The range is below
    the trampoline, has no pages that a shared mapping of a file would have to bring in, and
    the frames that bringing its pages in may need are free. *)
Theorem cstring_exact k ms l ptr max_len :
  good k (ms :: l) → 0 < ptr → 0 ≤ max_len → ptr + max_len + 1 ≤ user_top * PAGE_SIZE →
  all_plain ms false ptr (ptr + (max_len + 1)) → range_pages ptr (max_len + 1) * page_cost ≤ mm_free (k_w k) →
  ∃ r k' ms', copy_user_cstring F strampoline k ms ptr max_len = Some (r, k', ms') ∧ grown l k ms k' ms' ∧
    cstring_post ms k' ms' ptr (ptr + (max_len + 1)) r.
Proof. apply cstring_ok. Qed.

(** C39 Copying from one buffer to another moves the bytes in order across the segments
    of both, as many as the shorter buffer has, and ends, whatever the cuts.  The frames of
    the destination are held and are not frames of the source. *)
Theorem copy_segments_exact L w source destination :
  mm_ok w L → Forall (λ s, 0 ≤ seg_len s) source → Forall (λ s, 0 ≤ seg_len s) destination →
  Forall (λ x, x.1 ∈ L ∧ in_page x.2) (buffer_ptrs destination) →
  Forall (λ x, in_page x.2 ∧ x.1 ∉ (buffer_ptrs destination).*1) (buffer_ptrs source) →
  write_from_buffer w destination source =
    Some (Z.min (buffer_len source) (buffer_len destination),
      put_all w (zip (buffer_ptrs destination) ((λ x, load_byte w x.1 x.2) <$> buffer_ptrs source))).
Proof.
  intros Hok Hs Hd Hdp Hsp. unfold write_from_buffer. rewrite !buffer_len_ptrs by done.
  assert (∀ b, Forall (λ s, 0 ≤ seg_len s) b → side_ok b 0) as Hside.
  { intros b Hb. split_and!; [done|done|]. destruct b; [done|]. by apply Forall_cons in Hb as [? _]. }
  rewrite (copy_segments_ok L _ _ _ _ _ _ _ Hok (Hside _ Hs) (Hside _ Hd)) by (try done; lia). unfold side_ptrs. rewrite !drop_0. f_equal. f_equal. lia.
Qed.
End props.

(** The 39 low bits of a user pointer are its address, but the end of the range keeps
    all bits: a buffer of four bytes at an address with bit 39 set is a buffer of the
    rest of the page of the address without it, 4096 bytes here. *)
Theorem pointer_wraps_and_overruns :
  ∃ b k' ms', translated_user_buffer_mut demo_files strampoline demo_resident.1 demo_resident.2 (2 ^ 39 + 0x11000) 4 = Some (Some b, k', ms') ∧
    buffer_len b = 4096 ∧ buffer_ptrs b !! 0%nat = Some (frame_of demo_resident.2 17, 0).
Proof.
  set (r := translated_user_buffer_mut _ _ _ _ _ _).
  assert (from_option (λ '(b, _, _), from_option (λ b, (buffer_len b, buffer_ptrs b !! 0%nat)) (0, None) b) (0, None) r = (4096, Some (frame_of demo_resident.2 17, 0))) as Hx
    by (vm_compute; reflexivity).
  clearbody r. destruct r as [[[[b|] k'] ms']|]; [|discriminate Hx|discriminate Hx]. cbn [from_option] in Hx. exists b, k', ms'.
  pose proof (f_equal fst Hx) as H1. pose proof (f_equal snd Hx) as H2. cbn [fst snd] in H1, H2. split; [reflexivity|]. split; [exact H1|exact H2].
Qed.

(** The comment says that the trampoline can be read through the buffers.  With any
    area in the address space, the area before the trampoline answers for it, and the
    read is refused. *)
Theorem trampoline_not_readable :
  (∃ e, mm_find (k_w demo_resident.1) (ms_table demo_resident.2) user_top = Some (e, Page4K) ∧ pte_allows_user_access e false = true ∧
    is_static_user_trampoline strampoline user_top e Page4K = true) ∧
  try_translated_read demo_files strampoline demo_resident.1 demo_resident.2 USER_TRAMPOLINE 4 = Some (None, demo_resident.1, demo_resident.2).
Proof.
  split.
  - eexists. split; [vm_compute; reflexivity|]. split; vm_compute; reflexivity.
  - unfold try_translated_read, pin_user_range. set (o := λ k ms, pin_user_range_once strampoline k ms USER_TRAMPOLINE 4 false).
    assert (o demo_resident.1 demo_resident.2 = Some Retry) as Ho by (vm_compute; reflexivity).
    rewrite (pin_retry_stuck demo_files o _ _ _ _ _ _ Ho) by (unfold retry_fuel; lia). cbn [mbind option_bind]. reflexivity.
Qed.
(** ** Witnesses *)

Lemma demo_good : good demo_resident.1 [demo_resident.2].
Proof. apply (reachable_good demo_files), demo_resident_reach. Qed.

Lemma demo_pages v : 16 ≤ v ≤ 18 → (λ p, (pg_type p, pg_shared p)) <$> page_at (areas demo_resident.2) v = Some (Framed, false).
Proof.
  intros Hv. assert (v = 16 ∨ v = 17 ∨ v = 18) as [->|[->| ->]] by lia; vm_compute; reflexivity.
Qed.

Lemma demo_plain write lo hi : 0x10000 ≤ lo → hi ≤ 0x13000 → all_plain demo_resident.2 write lo hi.
Proof.
  intros Hlo Hhi a Ha p Hp. assert (16 ≤ a / PAGE_SIZE ≤ 18) as Hv.
  { unfold PAGE_SIZE. split; [apply Z.div_le_lower_bound; lia|apply Z.lt_succ_r, Z.div_lt_upper_bound; lia]. }
  pose proof (demo_pages _ Hv) as Hd. rewrite Hp in Hd. injection Hd as Ht Hs. split; [intros _; by left|done].
Qed.


Lemma copy_in_exact_witness :
  ∃ r k' ms', try_translated_read demo_files strampoline demo_resident.1 demo_resident.2 0x10ffe 4 = Some (r, k', ms') ∧ grown [] demo_resident.1 demo_resident.2 k' ms'.
Proof.
  destruct (CopyProps.copy_in_exact demo_files strampoline demo_resident.1 demo_resident.2 [] 0x10ffe 4) as (r & k' & ms' & He & G & _).
  - exact demo_good.
  - unfold user_range, user_top, PAGE_SIZE. lia.
  - apply demo_plain; lia.
  - vm_compute. congruence.
  - exists r, k', ms'. split; [exact He|exact G].
Defined.

Lemma cstring_exact_witness :
  ∃ r k' ms', copy_user_cstring demo_files strampoline demo_resident.1 demo_resident.2 0x10ffe 100 = Some (r, k', ms') ∧
    cstring_post demo_resident.2 k' ms' 0x10ffe (0x10ffe + 101) r.
Proof.
  destruct (CopyProps.cstring_exact demo_files strampoline demo_resident.1 demo_resident.2 [] 0x10ffe 100) as (r & k' & ms' & He & _ & Hp).
  - exact demo_good.
  - lia.
  - lia.
  - unfold user_top, PAGE_SIZE. lia.
  - apply demo_plain; lia.
  - vm_compute. congruence.
  - exists r, k', ms'. split; [exact He|exact Hp].
Defined.

Lemma copy_segments_exact_witness :
  let src := [MkSeg 5 0 3 false; MkSeg 6 10 0 false; MkSeg 6 20 4 false] in
  fst <$> write_from_buffer (k_w demo_resident.1) [MkSeg (frame_of demo_resident.2 17) 100 2 true; MkSeg (frame_of demo_resident.2 17) 200 4 true] src = Some 6.
Proof.
  cbn zeta. rewrite (CopyProps.copy_segments_exact (all_trackers demo_resident.1 [demo_resident.2])).
  - reflexivity.
  - apply demo_good.
  - repeat constructor; simpl; lia.
  - repeat constructor; simpl; lia.
  - assert (bool_decide (frame_of demo_resident.2 17 ∈ all_trackers demo_resident.1 [demo_resident.2]) = true) as Hin%bool_decide_eq_true by (vm_compute; reflexivity).
    repeat (constructor; [split; [exact Hin|unfold in_page, PAGE_SIZE; simpl; lia]|]). constructor.
  - assert (frame_of demo_resident.2 17 = 1003) as -> by (vm_compute; reflexivity).
    repeat (constructor; [split; [unfold in_page, PAGE_SIZE; simpl; lia|vm_compute; set_solver]|]). constructor.
Defined.

End CopyProps.
