(* ===== verification/Auth.v ===== *)
(** * Permissions (os/src/auth/mod.rs, os/src/process/task/cred.rs)

    The mode bits of a file or of an IPC object, who they apply to, and the
    credentials of a task. *)

From S2P Require Import Prelude.

Local Open Scope Z_scope.

(** [FileMode]: the source writes 0o400, 0o200, 0o100 for the owner, 0o040, 0o020,
    0o010 for the group and 0o004, 0o002, 0o001 for the others. *)
Definition U_READ : Z := 0x100.

Definition U_WRITE : Z := 0x80.

Definition U_EXECUTE : Z := 0x40.

Definition G_READ : Z := 0x20.

Definition G_WRITE : Z := 0x10.

Definition G_EXECUTE : Z := 0x8.

Definition O_READ : Z := 0x4.

Definition O_WRITE : Z := 0x2.

Definition O_EXECUTE : Z := 0x1.

Definition S_IFMT : Z := 0xf000.

(** [FileMode::contains] *)
Definition mode_contains (mode f : Z) : bool := Z.land mode f =? f.

(** All sixteen bits of a [FileMode] have a name. *)
Definition mode_from_bits_truncate (mode : Z) : Z := Z.land mode 0xffff.

Record PermStat := MkPermStat { mode : Z; uid : Z; gid : Z }.

Definition can_read (p : PermStat) (u g : Z) : bool :=
  if u =? 0 then true
  else if uid p =? u then mode_contains (mode p) U_READ
  else if gid p =? g then mode_contains (mode p) G_READ
  else mode_contains (mode p) O_READ.

Definition can_write (p : PermStat) (u g : Z) : bool :=
  if u =? 0 then true
  else if uid p =? u then mode_contains (mode p) U_WRITE
  else if gid p =? g then mode_contains (mode p) G_WRITE
  else mode_contains (mode p) O_WRITE.

Definition can_execute (p : PermStat) (u g : Z) : bool :=
  if u =? 0 then true
  else if uid p =? u then mode_contains (mode p) U_EXECUTE
  else if gid p =? g then mode_contains (mode p) G_EXECUTE
  else mode_contains (mode p) O_EXECUTE.

(** [PermSet], and [current_perm_set] for the file-system ids of the caller *)
Record PermSet := MkPermSet { ps_r : bool; ps_w : bool; ps_x : bool }.

Definition perm_set (p : PermStat) (fsuid fsgid : Z) : PermSet :=
  MkPermSet (can_read p fsuid fsgid) (can_write p fsuid fsgid) (can_execute p fsuid fsgid).

(** ** Bits *)

Lemma mode_contains_bit m i : 0 ≤ i → mode_contains m (2 ^ i) = Z.testbit m i.
Proof.
  intros Hi. unfold mode_contains. destruct (Z.testbit m i) eqn:Hb.
  - apply Z.eqb_eq. apply Z.bits_inj'. intros n Hn. rewrite Z.land_spec, Z.pow2_bits_eqb by lia.
    destruct (Z.eqb_spec i n) as [<-|]; [by rewrite Hb|by rewrite andb_false_r].
  - apply Z.eqb_neq. intros Heq. assert (Z.testbit (Z.land m (2 ^ i)) i = true) as Ht by (by rewrite Heq, Z.pow2_bits_true).
    by rewrite Z.land_spec, Hb in Ht.
Qed.

(** A shift of the class: the bits of the owner, the group and the others are three
    apart. *)
Lemma can_read_bit p u g : can_read p u g = (u =? 0) || Z.testbit (mode p) (if uid p =? u then 8 else if gid p =? g then 5 else 2).
Proof.
  unfold can_read. destruct (u =? 0); [done|]. cbn [orb]. unfold U_READ, G_READ, O_READ.
  destruct (uid p =? u); [apply (mode_contains_bit _ 8); lia|]. destruct (gid p =? g); [apply (mode_contains_bit _ 5)|apply (mode_contains_bit _ 2)]; lia.
Qed.

Lemma can_write_bit p u g : can_write p u g = (u =? 0) || Z.testbit (mode p) (if uid p =? u then 7 else if gid p =? g then 4 else 1).
Proof.
  unfold can_write. destruct (u =? 0); [done|]. cbn [orb]. unfold U_WRITE, G_WRITE, O_WRITE.
  destruct (uid p =? u); [apply (mode_contains_bit _ 7); lia|]. destruct (gid p =? g); [apply (mode_contains_bit _ 4)|apply (mode_contains_bit _ 1)]; lia.
Qed.
