(* ===== verification/MsgQueue.v ===== *)
(** * System V message queues (os/src/ipc/msg.rs, os/src/ipc/mod.rs)

    A queue of typed messages with its descriptor, and the manager that gives
    queues their identifiers and finds them by key.  The time comes from the clock,
    which is an argument. *)

From S2P Require Import Prelude Errno IdAlloc Auth.

Local Open Scope Z_scope.

(** The largest identifier of a queue. *)
Definition MSG_Q_MAX : Z := 4096.

(** [MsgFlags], [MsgGetFlags] and the commands *)
Definition IPC_NOWAIT : Z := 0x800.

Definition MSG_NOERROR : Z := 0x1000.

Definition MSG_EXCEPT : Z := 0x2000.

Definition MSG_COPY : Z := 0x4000.

Definition IPC_CREAT : Z := 0x200.

Definition IPC_EXCL : Z := 0x400.

Definition MSG_RD : Z := 0x100.

Definition MSG_WR : Z := 0x80.

Definition IPC_RMID : Z := 0.

Definition IPC_SET : Z := 1.

Definition IPC_STAT : Z := 2.

Record IpcPerm := MkPerm {
  p_key : Z;
  p_uid : Z;
  p_gid : Z;
  p_cuid : Z;
  p_cgid : Z;
  p_mode : Z;
  p_pad1 : Z;
  p_seq : Z;
  p_pad2 : Z;
  p_unused1 : Z;
  p_unused2 : Z;
}.

Definition perm_default : IpcPerm := MkPerm 0 0 0 0 0 0 0 0 0 0 0.

Record MsqidDs := MkMsqid {
  msg_perm : IpcPerm;
  msg_stime : Z;
  msg_rtime : Z;
  msg_ctime : Z;
  msg_cbytes : Z;
  msg_qnum : Z;
  msg_qbytes : Z;
  msg_lspid : Z;
  msg_lrpid : Z;
  m_unused4 : Z;
  m_unused5 : Z;
}.

Definition msqid_default : MsqidDs := MkMsqid perm_default 0 0 0 0 0 16384 0 0 0 0.

Record Msg := MkMsg { mtype : Z; mtext : list Z }.

Definition get_size (m : Msg) : Z := Z.of_nat (length (mtext m)).

Record MsgQueue := MkQueue { msqds : MsqidDs; msgs : list Msg }.

Definition queue_new : MsgQueue := MkQueue msqid_default [].

(** [as i32] *)
Definition to_i32 (x : Z) : Z := let y := x mod 2 ^ 32 in if y <? 2 ^ 31 then y else y - 2 ^ 32.

Definition to_u32 (x : Z) : Z := x mod 2 ^ 32.

(** The number of bytes in the queue. *)
Definition text_bytes (l : list Msg) : Z := foldr (λ m n, get_size m + n) 0 l.

(** [update_msqds] after a message has gone in or out; the sum is checked. *)
Definition update_msqds (now : Z) (q : MsgQueue) (is_send : bool) (pid : Z) : option MsgQueue :=
  let d := msqds q in
  let qnum := Z.of_nat (length (msgs q)) in
  let cbytes := text_bytes (msgs q) in
  if cbytes <=? USIZE_MAX then
    Some (MkQueue
      (if is_send
       then MkMsqid (msg_perm d) now (msg_rtime d) (msg_ctime d) cbytes qnum (msg_qbytes d) (to_i32 pid) (msg_lrpid d) (m_unused4 d) (m_unused5 d)
       else MkMsqid (msg_perm d) (msg_stime d) now (msg_ctime d) cbytes qnum (msg_qbytes d) (msg_lspid d) (to_i32 pid) (m_unused4 d) (m_unused5 d))
      (msgs q))
  else None.

Definition add (now : Z) (q : MsgQueue) (msg : Msg) (pid : Z) : option ((Errno + unit) * MsgQueue) :=
  n ← checked_add (msg_cbytes (msqds q)) (get_size msg);
  if msg_qbytes (msqds q) <? n then Some (inl EAGAIN, q)
  else q ← update_msqds now (MkQueue (msqds q) (vec_push (msgs q) msg)) true pid; Some (inr (), q).

(** [pop] *)
Definition pop (now : Z) (q : MsgQueue) (pid : Z) : option (option Msg * MsgQueue) :=
  match msgs q with
  | [] => Some (None, q)
  | m :: rest => q ← update_msqds now (MkQueue (msqds q) rest) false pid; Some (Some m, q)
  end.

(** The index of the first message that satisfies a test. *)
Fixpoint position (f : Msg → bool) (l : list Msg) : option nat :=
  match l with
  | [] => None
  | m :: rest => if f m then Some 0%nat else S <$> position f rest
  end.

(** The loop for a negative type: the smallest type, the first of its messages. *)
Fixpoint smallest_loop (limit : Z) (i : nat) (l : list Msg) (best : option (nat * Z)) : option (nat * Z) :=
  match l with
  | [] => best
  | m :: rest =>
    smallest_loop limit (S i) rest
      (if mtype m <=? limit then
         match best with
         | None => Some (i, mtype m)
         | Some (_, best_type) => if mtype m <? best_type then Some (i, mtype m) else best
         end
       else best)
  end.

(** [find_msg]; the negation of the smallest [isize] overflows, a panic in a build with
    overflow checks. *)
Definition find_msg (q : MsgQueue) (msgtyp msgflg : Z) : option (option nat) :=
  match msgs q with
  | [] => Some None
  | _ =>
    if msgtyp =? 0 then Some (Some 0%nat)
    else if 0 <? msgtyp then
      Some (if mode_contains msgflg MSG_EXCEPT then position (λ m, negb (mtype m =? msgtyp)) (msgs q)
            else position (λ m, mtype m =? msgtyp) (msgs q))
    else if msgtyp =? - 2 ^ 63 then None
    else Some (fst <$> smallest_loop (- msgtyp) 0 (msgs q) None)
  end.

(** [VecDeque::remove] *)
Definition remove_at (i : nat) (l : list Msg) : option (Msg * list Msg) :=
  m ← l !! i; Some (m, delete i l).

Definition get (now : Z) (q : MsgQueue) (msgtyp msgsz msgflg pid : Z) : option ((Errno + Msg) * MsgQueue) :=
  if mode_contains msgflg MSG_COPY then Some (inl EINVAL, q)
  else
    r ← find_msg q msgtyp msgflg;
    match r with
    | None => Some (inl ENOMSG, q)
    | Some idx =>
      m ← msgs q !! idx;
      if (msgsz <? get_size m) && negb (mode_contains msgflg MSG_NOERROR) then Some (inl E2BIG, q)
      else
        '(m, rest) ← remove_at idx (msgs q);
        q ← update_msqds now (MkQueue (msqds q) rest) false pid;
        Some (inr m, q)
    end.

(** [apply_ipc_set] *)
Definition apply_ipc_set (now : Z) (q : MsgQueue) (new_ds : MsqidDs) : MsgQueue :=
  let d := msqds q in
  let p := msg_perm d in
  let np := msg_perm new_ds in
  MkQueue
    (MkMsqid (MkPerm (p_key p) (p_uid np) (p_gid np) (p_cuid p) (p_cgid p) (p_mode np) (p_pad1 p) (p_seq p) (p_pad2 p) (p_unused1 p) (p_unused2 p))
      (msg_stime d) (msg_rtime d) now (msg_cbytes d) (msg_qnum d) (msg_qbytes new_ds) (msg_lspid d) (msg_lrpid d) (m_unused4 d) (m_unused5 d))
    (msgs q).

(** ** The manager *)

Record MsgManager := MkMsgMan {
  id_allocator : RecycleAllocator;
  queues : gmap Z MsgQueue;
  key_to_id : gmap Z Z;
}.

Definition msg_manager_new : MsgManager := MkMsgMan (new_with_start 1) ∅ ∅.

(** An identifier above the limit is not given back. *)
Definition create_queue (now : Z) (man : MsgManager) (key mode uid gid : Z) : option (Z * MsgManager) :=
  '(id, a) ← alloc (id_allocator man);
  if MSG_Q_MAX <? id then Some (as_isize ENOMEM, MkMsgMan a (queues man) (key_to_id man))
  else
    let perm := MkPerm (to_i32 key) uid gid uid gid mode 0 0 0 0 0 in
    let d := msqid_default in
    let ds := MkMsqid perm (msg_stime d) (msg_rtime d) now (msg_cbytes d) (msg_qnum d) (msg_qbytes d) (msg_lspid d) (msg_lrpid d) 0 0 in
    Some (id, MkMsgMan a (<[id := MkQueue ds []]> (queues man)) (<[key := id]> (key_to_id man))).

Definition msgget (now : Z) (man : MsgManager) (key flags mode uid gid : Z) : option (Z * MsgManager) :=
  if key =? 0 then create_queue now man key mode uid gid
  else
    match key_to_id man !! key with
    | Some id =>
      if mode_contains flags IPC_CREAT && mode_contains flags IPC_EXCL then Some (as_isize EEXIST, man)
      else Some (id, man)
    | None =>
      if mode_contains flags IPC_CREAT then create_queue now man key mode uid gid
      else Some (as_isize ENOENT, man)
    end.

Definition get_queue (man : MsgManager) (id : Z) : option MsgQueue := queues man !! id.

Definition remove_queue (man : MsgManager) (id : Z) : option MsgManager :=
  match queues man !! id with
  | None => Some man
  | Some q =>
    let key := to_u32 (p_key (msg_perm (msqds q))) in
    a ← dealloc (id_allocator man) id;
    Some (MkMsgMan a (delete id (queues man)) (delete key (key_to_id man)))
  end.

(** The queue behind the lock is replaced. *)
Definition put_queue (man : MsgManager) (id : Z) (q : MsgQueue) : MsgManager :=
  MkMsgMan (id_allocator man) (<[id := q]> (queues man)) (key_to_id man).

(** ** Which message is chosen *)

(** The messages a receiver accepts. *)
Definition eligible (msgtyp msgflg : Z) (m : Msg) : bool :=
  if msgtyp =? 0 then true
  else if 0 <? msgtyp then
    if mode_contains msgflg MSG_EXCEPT then negb (mtype m =? msgtyp) else mtype m =? msgtyp
  else mtype m <=? - msgtyp.

(** A message goes before another: in the order of the queue, or by type first. *)
Definition preferred (msgtyp : Z) (i : nat) (m : Msg) (j : nat) (m' : Msg) : Prop :=
  if 0 <=? msgtyp then (i ≤ j)%nat else mtype m < mtype m' ∨ mtype m = mtype m' ∧ (i ≤ j)%nat.

Definition chosen (msgtyp msgflg : Z) (l : list Msg) (i : nat) (m : Msg) : Prop :=
  l !! i = Some m ∧ eligible msgtyp msgflg m = true ∧
  ∀ j m', l !! j = Some m' → eligible msgtyp msgflg m' = true → preferred msgtyp i m j m'.

Lemma position_spec f l :
  match position f l with
  | Some i => ∃ m, l !! i = Some m ∧ f m = true ∧ ∀ j m', l !! j = Some m' → f m' = true → (i ≤ j)%nat
  | None => Forall (λ m, f m = false) l
  end.
Proof.
  induction l as [|m l IH]; simpl; [done|]. destruct (f m) eqn:Hf.
  - exists m. split_and!; [done|done|lia].
  - destruct (position f l) as [i|]; simpl; [|by constructor]. destruct IH as (m1 & Hm & Hfm & Hmin). exists m1. split_and!; [done|done|].
    intros [|j] m' Hj Hm'; [simpl in Hj; congruence|]. simpl in Hj. pose proof (Hmin j m' Hj Hm'). lia.
Qed.

(** What the loop over a suffix knows of the messages before it. *)
Definition best_of (limit : Z) (l : list Msg) (best : option (nat * Z)) : Prop :=
  match best with
  | Some (i, t) => t ≤ limit ∧ (∃ m, l !! i = Some m ∧ mtype m = t) ∧
      ∀ j m', l !! j = Some m' → mtype m' ≤ limit → t < mtype m' ∨ t = mtype m' ∧ (i ≤ j)%nat
  | None => Forall (λ m, limit < mtype m) l
  end.

Lemma best_of_snoc limit l m best : best_of limit l best →
  best_of limit (l ++ [m]) (if mtype m <=? limit then
    match best with None => Some (length l, mtype m) | Some (_, t) => if mtype m <? t then Some (length l, mtype m) else best end
    else best).
Proof.
  intros Hb. assert (∀ j m', (l ++ [m]) !! j = Some m' → l !! j = Some m' ∨ j = length l ∧ m' = m) as Hlook.
  { intros j m' Hj. apply lookup_app_Some in Hj as [Hj|[Hge Hj]]; [by left|]. destruct (j - length l)%nat eqn:Hd; [|done]. injection Hj as ->. right. split; [lia|done]. }
  assert ((l ++ [m]) !! length l = Some m) as Hlast by (by apply list_lookup_middle).
  assert (∀ i m', l !! i = Some m' → (l ++ [m]) !! i = Some m' ∧ (i < length l)%nat) as Hkeep.
  { intros i m' Hi. split; [by apply lookup_app_l_Some|by apply lookup_lt_Some in Hi]. }
  destruct (Z.leb_spec (mtype m) limit) as [Hle|Hgt].
  - destruct best as [[i t]|]; simpl in Hb.
    + destruct Hb as (Ht & (m0 & Hm0 & Hmt) & Hmin). destruct (Z.ltb_spec (mtype m) t).
      * simpl. split_and!; [done|by exists m|]. intros j m' [Hj|[-> ->]]%Hlook Hl; [|lia]. destruct (Hmin j m' Hj Hl); lia.
      * simpl. split_and!; [done|exists m0; split; [by apply Hkeep|done]|]. intros j m' [Hj|[-> ->]]%Hlook Hl; [by apply Hmin|].
        destruct (Hkeep _ _ Hm0). lia.
    + simpl. split_and!; [done|by exists m|]. intros j m' [Hj|[-> ->]]%Hlook Hl; [|lia]. rewrite Forall_lookup in Hb. pose proof (Hb _ _ Hj). simpl in *. lia.
  - destruct best as [[i t]|]; simpl in Hb |- *; [|by apply Forall_app; split; [|constructor]].
    destruct Hb as (Ht & (m0 & Hm0 & Hmt) & Hmin). split_and!; [done|exists m0; split; [by apply Hkeep|done]|].
    intros j m' [Hj|[-> ->]]%Hlook Hl; [by apply Hmin|lia].
Qed.

Lemma smallest_loop_spec limit l : ∀ pre best, best_of limit pre best → best_of limit (pre ++ l) (smallest_loop limit (length pre) l best).
Proof.
  induction l as [|m l IH]; intros pre best Hb; simpl; [by rewrite app_nil_r|].
  pose proof (IH (pre ++ [m]) _ (best_of_snoc _ _ m _ Hb)) as Hr. rewrite <-app_assoc in Hr. rewrite length_app in Hr. simpl in Hr.
  by rewrite Nat.add_1_r in Hr.
Qed.

Lemma find_msg_spec q t f : t ≠ - 2 ^ 63 ∨ msgs q = [] → ∃ r, find_msg q t f = Some r ∧
  match r with
  | Some i => ∃ m, chosen t f (msgs q) i m
  | None => Forall (λ m, eligible t f m = false) (msgs q)
  end.
Proof.
  intros Ht. unfold find_msg. destruct (msgs q) as [|m0 l0] eqn:Hl; [by exists None|]. set (l := m0 :: l0).
  unfold chosen, eligible, preferred. destruct (Z.eqb_spec t 0) as [->|Ht0].
  { exists (Some 0%nat). split; [done|]. exists m0. split_and!; [done|done|]. simpl. lia. }
  destruct (Z.ltb_spec 0 t) as [Hp|Hn].
  { rewrite (proj2 (Z.leb_le 0 t)) by lia. destruct (mode_contains f MSG_EXCEPT);
      match goal with |- ∃ r, Some (position ?g _) = _ ∧ _ => exists (position g l); split; [done|]; exact (position_spec g l) end. }
  rewrite (proj2 (Z.leb_gt 0 t)) by lia. rewrite (proj2 (Z.eqb_neq t (- 2 ^ 63))) by (destruct Ht; [done|congruence]).
  eexists. split; [done|]. pose proof (smallest_loop_spec (- t) l [] None ltac:(constructor)) as Hb. change (length (@nil Msg)) with 0%nat in Hb.
  change ([] ++ l) with l in Hb. destruct (smallest_loop (- t) 0 l None) as [[i b]|]; cbn [fmap option_fmap option_map fst best_of] in *.
  - destruct Hb as (Hle & (m & Hm & <-) & Hmin). exists m. split_and!; [done|by apply Z.leb_le|]. intros j m' Hj He. apply Hmin; [done|by apply Z.leb_le].
  - eapply Forall_impl; [done|]. intros m Hm. simpl in Hm. apply Z.leb_gt. lia.
Qed.

(** The chosen message is the first of its type. *)
Lemma chosen_first t f l i m : chosen t f l i m → ∀ j m', (j < i)%nat → l !! j = Some m' → mtype m' ≠ mtype m.
Proof.
  intros (Hi & He & Hmin) j m' Hlt Hj Heq. assert (eligible t f m' = true) as He' by (unfold eligible in *; by rewrite Heq).
  pose proof (Hmin j m' Hj He') as Hp. unfold preferred in Hp. destruct (0 <=? t); lia.
Qed.

(** Taking it out, the other types and the order of its own are as before. *)
Lemma chosen_filter t f l i m ty : chosen t f l i m →
  filter (λ x, mtype x = ty) l = (if decide (mtype m = ty) then [m] else []) ++ filter (λ x, mtype x = ty) (delete i l).
Proof.
  intros Hc. pose proof (chosen_first _ _ _ _ _ Hc) as Hfirst. destruct Hc as (Hi & _ & _).
  rewrite <-(take_drop_middle l i m Hi) at 1. rewrite delete_take_drop, !filter_app, filter_cons.
  assert (mtype m = ty → filter (λ x, mtype x = ty) (take i l) = []) as Hnil.
  { intros <-. apply filter_none. apply Forall_forall. intros x Hx Heq. apply list_elem_of_lookup in Hx as [j Hj].
    apply lookup_take_Some in Hj as [Hj Hlt]. by apply (Hfirst j x). }
  destruct (decide (mtype m = ty)) as [Ht|]; [by rewrite Hnil by done|done].
Qed.

(** ** Queues *)

Definition msg_ok (m : Msg) : Prop := 0 < mtype m < 2 ^ 63 ∧ Forall (λ x, 0 ≤ x < 256) (mtext m).

(** The counters of the descriptor agree with the messages. *)
Record queue_ok (q : MsgQueue) : Prop := {
  qo_bytes : msg_cbytes (msqds q) = text_bytes (msgs q);
  qo_num : msg_qnum (msqds q) = Z.of_nat (length (msgs q));
  qo_fits : text_bytes (msgs q) ≤ USIZE_MAX;
  qo_msgs : Forall msg_ok (msgs q);
}.

Lemma text_bytes_app l1 l2 : text_bytes (l1 ++ l2) = text_bytes l1 + text_bytes l2.
Proof. induction l1; simpl; [lia|]. rewrite IHl1. lia. Qed.

Lemma text_bytes_delete i l m : l !! i = Some m → text_bytes l = get_size m + text_bytes (delete i l).
Proof.
  intros Hi. rewrite <-(take_drop_middle l i m Hi) at 1. rewrite delete_take_drop, !text_bytes_app. simpl. lia.
Qed.

Lemma text_bytes_pos l : 0 ≤ text_bytes l.
Proof. induction l; simpl; [lia|]. unfold get_size. lia. Qed.

(** What a message going in or out leaves alone. *)
Definition same_limits (q q' : MsgQueue) : Prop :=
  msg_perm (msqds q') = msg_perm (msqds q) ∧ msg_qbytes (msqds q') = msg_qbytes (msqds q) ∧ msg_ctime (msqds q') = msg_ctime (msqds q).

Lemma update_ok now d l is_send pid : text_bytes l ≤ USIZE_MAX → Forall msg_ok l →
  ∃ q', update_msqds now (MkQueue d l) is_send pid = Some q' ∧ msgs q' = l ∧ queue_ok q' ∧ same_limits (MkQueue d l) q'.
Proof.
  intros Hb Hm. unfold update_msqds. simpl. rewrite (proj2 (Z.leb_le _ _) Hb). eexists. split; [done|].
  split; [done|]. destruct is_send; (split; [split; done|done]).
Qed.

Lemma add_ok now q m pid : queue_ok q → msg_ok m → text_bytes (msgs q) + get_size m ≤ USIZE_MAX →
  ∃ r q', add now q m pid = Some (r, q') ∧ queue_ok q' ∧ same_limits q q' ∧
    match r with
    | inr _ => text_bytes (msgs q) + get_size m ≤ msg_qbytes (msqds q) ∧ msgs q' = msgs q ++ [m]
    | inl e => msg_qbytes (msqds q) < text_bytes (msgs q) + get_size m ∧ e = EAGAIN ∧ q' = q
    end.
Proof.
  intros Hq Hm Hfit. unfold add. rewrite (qo_bytes _ Hq), checked_add_Some by done. cbn [mbind option_bind].
  destruct (Z.ltb_spec (msg_qbytes (msqds q)) (text_bytes (msgs q) + get_size m)); [by exists (inl EAGAIN), q|].
  destruct (update_ok now (msqds q) (vec_push (msgs q) m) true pid) as (q' & -> & Hl & Hq' & Hs).
  - unfold vec_push. rewrite text_bytes_app. simpl. lia.
  - unfold vec_push. apply Forall_app. split; [apply Hq|by constructor].
  - cbn [mbind option_bind]. by exists (inr ()), q'.
Qed.

Lemma get_ok now q t sz f pid : queue_ok q → t ≠ - 2 ^ 63 ∨ msgs q = [] →
  ∃ r q', get now q t sz f pid = Some (r, q') ∧ queue_ok q' ∧ same_limits q q' ∧
    match r with
    | inr m => mode_contains f MSG_COPY = false ∧ (get_size m ≤ sz ∨ mode_contains f MSG_NOERROR = true) ∧
        ∃ i, chosen t f (msgs q) i m ∧ msgs q' = delete i (msgs q)
    | inl e => q' = q ∧
        (e = EINVAL ∧ mode_contains f MSG_COPY = true ∨
         e = ENOMSG ∧ Forall (λ m, eligible t f m = false) (msgs q) ∨
         e = E2BIG ∧ mode_contains f MSG_NOERROR = false ∧ ∃ i m, chosen t f (msgs q) i m ∧ sz < get_size m)
    end.
Proof.
  intros Hq Ht. unfold get. destruct (mode_contains f MSG_COPY) eqn:Hc.
  { exists (inl EINVAL), q. split_and!; [done..|]. by left. }
  destruct (find_msg_spec q t f Ht) as ([i|] & -> & Hr); cbn [mbind option_bind]; last first.
  { exists (inl ENOMSG), q. split_and!; [done..|]. right; by left. }
  destruct Hr as (m & Hch). pose proof Hch as (Hi & _ & _). rewrite Hi. cbn [mbind option_bind].
  destruct ((sz <? get_size m) && negb (mode_contains f MSG_NOERROR)) eqn:Hbig.
  { apply andb_true_iff in Hbig as [Hs Hn]. exists (inl E2BIG), q. split_and!; [done..|]. right; right. split_and!; [done|by apply negb_true_iff|].
    exists i, m. split; [done|by apply Z.ltb_lt]. }
  unfold remove_at. rewrite Hi. cbn [mbind option_bind]. pose proof (text_bytes_delete i _ m Hi) as Htb.
  destruct (update_ok now (msqds q) (delete i (msgs q)) false pid) as (q' & -> & Hl & Hq' & Hs).
  - pose proof (qo_fits _ Hq). unfold get_size in Htb. lia.
  - apply Forall_delete, Hq.
  - cbn [mbind option_bind]. exists (inr m), q'. split_and!; [done|done|done|done| |by exists i].
    apply andb_false_iff in Hbig as [Hs0|Hn]; [left; by apply Z.ltb_ge|right; by apply negb_false_iff].
Qed.

Lemma ipc_set_ok now q ds : queue_ok q → queue_ok (apply_ipc_set now q ds) ∧ p_key (msg_perm (msqds (apply_ipc_set now q ds))) = p_key (msg_perm (msqds q)).
Proof. intros [? ? ? ?]. by split; [split|]. Qed.

(** ** Runs of one queue *)

(** A sender or a receiver at work on the queue: the clock, and the process. *)
Inductive queue_op :=
  | OpSend (now : Z) (m : Msg) (pid : Z)
  | OpReceive (now msgtyp msgsz msgflg pid : Z).

(** The queue after the operations, the messages accepted and the messages received. *)
Fixpoint run_queue (ops : list queue_op) (q : MsgQueue) : option (MsgQueue * list Msg * list Msg) :=
  match ops with
  | [] => Some (q, [], [])
  | OpSend now m pid :: ops =>
    '(r, q) ← add now q m pid;
    '(q, sent, received) ← run_queue ops q;
    Some (q, match r with inr _ => m :: sent | inl _ => sent end, received)
  | OpReceive now t sz f pid :: ops =>
    '(r, q) ← get now q t sz f pid;
    '(q, sent, received) ← run_queue ops q;
    Some (q, sent, match r with inr m => m :: received | inl _ => received end)
  end.

(** What the system calls let through, and how much may be sent. *)
Definition queue_op_ok (o : queue_op) : Prop :=
  match o with OpSend _ m _ => msg_ok m | OpReceive _ t _ _ _ => - 2 ^ 63 < t < 2 ^ 63 end.

Definition op_bytes (o : queue_op) : Z := match o with OpSend _ m _ => get_size m | _ => 0 end.

Definition ops_bytes (ops : list queue_op) : Z := foldr (λ o n, op_bytes o + n) 0 ops.

Lemma ops_bytes_pos ops : 0 ≤ ops_bytes ops.
Proof. induction ops as [|[] ops IH]; simpl; unfold get_size; lia. Qed.

Definition of_type (ty : Z) (l : list Msg) : list Msg := filter (λ m, mtype m = ty) l.

Lemma run_queue_ok ops : ∀ q, queue_ok q → Forall queue_op_ok ops → text_bytes (msgs q) + ops_bytes ops ≤ USIZE_MAX →
  ∃ q' sent received, run_queue ops q = Some (q', sent, received) ∧ queue_ok q' ∧ same_limits q q' ∧
    msgs q ++ sent ≡ₚ received ++ msgs q' ∧ ∀ ty, of_type ty (msgs q ++ sent) = of_type ty received ++ of_type ty (msgs q').
Proof.
  assert (∀ q1 q2 q3, same_limits q1 q2 → same_limits q2 q3 → same_limits q1 q3) as Htr.
  { intros q1 q2 q3 (A1 & A2 & A3) (B1 & B2 & B3). unfold same_limits. by rewrite B1, B2, B3. }
  unfold of_type. induction ops as [|[now m pid|now t sz f pid] ops IH]; intros q Hq Hops Hb; simpl in Hb |- *.
  - exists q, [], []. split_and!; [done..| |]; [by rewrite app_nil_r|intros ty; by rewrite app_nil_r].
  - apply Forall_cons in Hops as [Ho Hops]. pose proof (ops_bytes_pos ops). destruct (add_ok now q m pid Hq Ho) as (r & q1 & -> & Hq1 & Hs1 & Hr); [lia|].
    assert (text_bytes (msgs q1) + ops_bytes ops ≤ USIZE_MAX) as Hb1.
    { destruct r as [e|[]]; [destruct Hr as (_ & _ & ->); unfold get_size in Hb; lia|]. destruct Hr as (_ & ->). rewrite text_bytes_app. simpl. lia. }
    cbn [mbind option_bind]. destruct (IH q1 Hq1 Hops Hb1) as (q' & sent & received & -> & Hq' & Hs & Hp & Hf). cbn [mbind option_bind].
    eexists _, _, _. split; [done|]. split_and!; [done|by eapply Htr| |].
    + destruct r as [e|[]]; [destruct Hr as (_ & _ & ->); done|]. destruct Hr as (_ & Hl). rewrite Hl in Hp. by rewrite cons_middle, app_assoc.
    + intros ty. rewrite <-Hf. destruct r as [e|[]]; [destruct Hr as (_ & _ & ->); done|]. destruct Hr as (_ & ->). by rewrite (cons_middle m), app_assoc.
  - apply Forall_cons in Hops as [Ho Hops]. simpl in Ho. destruct (get_ok now q t sz f pid Hq) as (r & q1 & -> & Hq1 & Hs1 & Hr); [left; lia|].
    assert (text_bytes (msgs q1) + ops_bytes ops ≤ USIZE_MAX) as Hb1.
    { destruct r as [e|m]; [by destruct Hr as (-> & _)|]. destruct Hr as (_ & _ & i & (Hi & _ & _) & ->). pose proof (text_bytes_delete i _ m Hi). unfold get_size in *. lia. }
    cbn [mbind option_bind]. destruct (IH q1 Hq1 Hops Hb1) as (q' & sent & received & -> & Hq' & Hs & Hp & Hf). cbn [mbind option_bind].
    eexists _, _, _. split; [done|]. split_and!; [done|by eapply Htr| |].
    + destruct r as [e|m]; [by destruct Hr as (-> & _)|]. destruct Hr as (_ & _ & i & (Hi & _ & _) & Hl). simpl. rewrite <-Hp, Hl, app_comm_cons.
      f_equiv. by apply delete_Permutation.
    + intros ty. destruct r as [e|m]; [destruct Hr as (<- & _); by apply Hf|]. destruct Hr as (_ & _ & i & Hch & Hl).
      specialize (Hf ty). rewrite Hl in Hf. rewrite filter_app in Hf |- *. rewrite (chosen_filter _ _ _ _ _ ty Hch), <-app_assoc, Hf, filter_cons.
      by destruct (decide (mtype m = ty)).
Qed.

(** ** The manager *)

Definition key_of (q : MsgQueue) : Z := to_u32 (p_key (msg_perm (msqds q))).

Definition ids (man : MsgManager) : list Z := (map_to_list (queues man)).*1.

(** The identifiers in use are those of the queues, and some above the limit that
    were never given back; a key other than zero leads to the one queue that has it. *)
Record man_ok (man : MsgManager) : Prop := {
  mo_ids : ∃ leaked, id_inv 1 (id_allocator man) (ids man ++ leaked) ∧ Forall (λ i, MSG_Q_MAX < i) leaked;
  mo_recycled : Forall (λ i, i ≤ MSG_Q_MAX) (recycled (id_allocator man));
  mo_queue : ∀ id q, queues man !! id = Some q → id ≤ MSG_Q_MAX ∧ queue_ok q;
  mo_key : ∀ key id, key ≠ 0 → key_to_id man !! key = Some id ↔ ∃ q, queues man !! id = Some q ∧ key_of q = key;
}.

Lemma elem_of_ids man id : id ∈ ids man ↔ is_Some (queues man !! id).
Proof.
  unfold ids. rewrite list_elem_of_fmap. split.
  - intros ([i q] & -> & Hin%elem_of_map_to_list). by exists q.
  - intros [q Hq]. exists (id, q). split; [done|]. by apply elem_of_map_to_list.
Qed.

Lemma ids_nodup man : NoDup (ids man).
Proof. apply NoDup_fst_map_to_list. Qed.

Lemma length_ids man : length (ids man) = size (queues man).
Proof. unfold ids. by rewrite length_fmap, length_map_to_list. Qed.

Lemma msg_manager_new_ok : man_ok msg_manager_new.
Proof.
  split; [|constructor|by intros|].
  - exists []. split; [|constructor]. unfold ids. simpl. rewrite map_to_list_empty. by apply id_inv_new.
  - intros key id _. simpl. split; [by rewrite lookup_empty|]. intros (q & Hq & _). by rewrite lookup_empty in Hq.
Qed.

Lemma to_u32_i32 key : 0 ≤ key < 2 ^ 32 → to_u32 (to_i32 key) = key.
Proof.
  intros Hk. unfold to_u32, to_i32. rewrite (Z.mod_small key) by done. destruct (key <? 2 ^ 31).
  - by apply Z.mod_small.
  - replace (key - 2 ^ 32) with (key + (-1) * 2 ^ 32) by lia. rewrite Z.mod_add by lia. by apply Z.mod_small.
Qed.

(** At most as many queues as there are identifiers below the limit. *)
Lemma ids_bound man : man_ok man → (∀ id, id ∈ ids man → 1 ≤ id ≤ MSG_Q_MAX) ∧ Z.of_nat (size (queues man)) ≤ MSG_Q_MAX.
Proof.
  intros Hok. assert (∀ id, id ∈ ids man → 1 ≤ id ≤ MSG_Q_MAX) as Hr.
  { intros id Hin. destruct (mo_ids _ Hok) as (leaked & Hi & _). destruct (id_inv_used _ _ _ id Hi); [set_solver|].
    apply elem_of_ids in Hin as [q Hq]. destruct (mo_queue _ Hok _ _ Hq). lia. }
  split; [done|]. rewrite <-length_ids. assert (ids man ⊆+ seqZ 1 MSG_Q_MAX) as Hsub%submseteq_length.
  { apply NoDup_submseteq; [apply ids_nodup|]. intros x Hx%Hr. apply elem_of_seqZ. lia. }
  rewrite length_seqZ in Hsub. unfold MSG_Q_MAX in *. lia.
Qed.

(** The allocator hands out a recycled identifier, below the limit, or the next one. *)
Lemma man_alloc man : man_ok man → current (id_allocator man) < USIZE_MAX →
  ∃ id a leaked, alloc (id_allocator man) = Some (id, a) ∧ id_inv 1 a (id :: ids man ++ leaked) ∧ Forall (λ i, MSG_Q_MAX < i) leaked ∧
    (id ∉ ids man) ∧ 1 ≤ id ∧ Forall (λ i, i ≤ MSG_Q_MAX) (recycled a) ∧
    (MSG_Q_MAX < id → ∀ x, 1 ≤ x ≤ MSG_Q_MAX → x ∈ ids man).
Proof.
  intros Hok Hc. destruct (mo_ids _ Hok) as (leaked & Hi & Hl). pose proof (wp_id_alloc 1 _ _ Hi Hc) as Hw.
  apply wp_elim in Hw as ([id a] & Ha & Hi' & Hn & H1 & _). exists id, a, leaked. split_and!; [done..|set_solver|done| |].
  - pose proof (mo_recycled _ Hok) as Hr. unfold alloc in Ha. destruct (vec_pop _) as [[i l]|] eqn:Hv.
    + injection Ha as -> <-. apply vec_pop_Some in Hv. rewrite Hv in Hr. by apply Forall_app in Hr as [Hr _].
    + unfold checked_add in Ha. destruct (_ <=? _); [|done]. by injection Ha as <- <-.
  - intros Hbig x Hx. unfold alloc in Ha. destruct (vec_pop _) as [[i l]|] eqn:Hv.
    + injection Ha as -> <-. apply vec_pop_Some in Hv. pose proof (mo_recycled _ Hok) as Hr. rewrite Hv in Hr.
      apply Forall_app in Hr as [_ Hr]. rewrite Forall_singleton in Hr. lia.
    + apply vec_pop_None in Hv. destruct Hi as [_ Hp]. rewrite Hv in Hp. simpl in Hp.
      assert (x ∈ ids man ++ leaked) as Hin.
      { rewrite Hp. apply elem_of_seqZ. unfold checked_add in Ha. destruct (_ <=? _); [|done]. injection Ha as <- _. lia. }
      apply elem_of_app in Hin as [Hin|Hin]; [done|]. rewrite Forall_forall in Hl. apply Hl in Hin. simpl in Hin. lia.
Qed.

Lemma create_queue_ok now man key mode uid gid : man_ok man → current (id_allocator man) < USIZE_MAX → 0 ≤ key < 2 ^ 32 →
  (key ≠ 0 → key_to_id man !! key = None) →
  ∃ r man', create_queue now man key mode uid gid = Some (r, man') ∧ man_ok man' ∧
    (r = as_isize ENOMEM ∧ Z.of_nat (size (queues man)) = MSG_Q_MAX ∧ queues man' = queues man ∨
     1 ≤ r ≤ MSG_Q_MAX ∧ Z.of_nat (size (queues man)) < MSG_Q_MAX ∧ queues man !! r = None ∧
     ∃ q, queues man' = <[r := q]> (queues man) ∧ msgs q = [] ∧ key_of q = key ∧ msg_qbytes (msqds q) = 16384 ∧
       p_uid (msg_perm (msqds q)) = uid ∧ p_gid (msg_perm (msqds q)) = gid ∧ p_mode (msg_perm (msqds q)) = mode).
Proof.
  intros Hok Hc Hkey Hnew. destruct (man_alloc man Hok Hc) as (id & a & leaked & Ha & Hi & Hl & Hn & H1 & Hrec & Hfull).
  pose proof (ids_bound man Hok) as [Hids Hsz]. unfold create_queue. rewrite Ha. cbn [mbind option_bind].
  destruct (Z.ltb_spec MSG_Q_MAX id) as [Hbig|Hsmall].
  - eexists _, _. split; [done|]. split.
    + split; [|done|apply Hok|apply Hok]. exists (id :: leaked). split; [|by constructor]. unfold ids in *. simpl. by rewrite <-Permutation_middle.
    + left. split_and!; [done| |done]. rewrite <-length_ids in Hsz |- *. assert (seqZ 1 MSG_Q_MAX ⊆+ ids man) as Hsub%submseteq_length.
      { apply NoDup_submseteq; [apply NoDup_seqZ|]. intros x Hx%elem_of_seqZ. apply Hfull; [done|lia]. }
      rewrite length_seqZ in Hsub. unfold MSG_Q_MAX in *. lia.
  - assert (queues man !! id = None) as Hnone by (apply eq_None_not_Some; by rewrite <-elem_of_ids).
    set (q := MkQueue _ []). assert (key_of q = key) as Hq by (by apply to_u32_i32). eexists _, _. split; [done|].
    assert (ids (MkMsgMan a (<[id := q]> (queues man)) (<[key := id]> (key_to_id man))) ≡ₚ id :: ids man) as Hperm.
    { unfold ids. simpl. by rewrite map_to_list_insert by done. }
    split.
    + split; simpl; [|done| |].
      * exists leaked. split; [|done]. destruct Hi as [Hs Hp]. split; [done|]. by rewrite Hperm.
      * intros i q'. rewrite lookup_insert_Some. intros [[<- <-]|[_ Hq']]; [|by apply Hok]. split; [lia|]. split; [done..|unfold q; simpl; unfold USIZE_MAX; lia|constructor].
      * intros k i Hk. rewrite lookup_insert_Some. split.
        -- intros [[<- <-]|[Hne Hki]]; [exists q; by rewrite lookup_insert_eq|]. apply Hok in Hki as (q' & Hq' & Hkq); [|done]. exists q'. split; [|done].
           apply lookup_insert_Some. right. split; [|done]. intros ->. congruence.
        -- intros (q' & [[<- <-]|[Hne Hq']]%lookup_insert_Some & Hkq); [left; split; congruence|]. right. split; [|apply Hok; [done|by exists q']].
           intros <-. assert (key_to_id man !! key = Some i) as Hbad by (apply Hok; [done|by exists q']). by rewrite Hnew in Hbad.
    + right. split; [lia|]. split_and!; [|done|].
      * rewrite <-length_ids. assert (id :: ids man ⊆+ seqZ 1 MSG_Q_MAX) as Hsub%submseteq_length.
        { apply NoDup_submseteq; [constructor; [done|apply ids_nodup]|]. intros x [->|Hx]%elem_of_cons; apply elem_of_seqZ; [lia|]. apply Hids in Hx. lia. }
        rewrite length_seqZ in Hsub. simpl in Hsub. unfold MSG_Q_MAX in *. lia.
      * exists q. by split_and!.
Qed.

(** A queue has the key. *)
Definition has_key (man : MsgManager) (key : Z) : Prop := ∃ id q, queues man !! id = Some q ∧ key_of q = key.

(** A new queue under an identifier that no queue has, or none at the limit. *)
Definition made_queue (man : MsgManager) (key mode uid gid r : Z) (man' : MsgManager) : Prop :=
  Z.of_nat (size (queues man)) = MSG_Q_MAX ∧ r = as_isize ENOMEM ∧ queues man' = queues man ∨
  Z.of_nat (size (queues man)) < MSG_Q_MAX ∧ 1 ≤ r ≤ MSG_Q_MAX ∧ queues man !! r = None ∧
    ∃ q, queues man' = <[r := q]> (queues man) ∧ key_of q = key ∧ msgs q = [] ∧ msg_qbytes (msqds q) = 16384 ∧
      p_uid (msg_perm (msqds q)) = uid ∧ p_gid (msg_perm (msqds q)) = gid ∧ p_mode (msg_perm (msqds q)) = mode.

Lemma msgget_ok now man key flags mode uid gid : man_ok man → current (id_allocator man) < USIZE_MAX → 0 ≤ key < 2 ^ 32 →
  ∃ r man', msgget now man key flags mode uid gid = Some (r, man') ∧ man_ok man' ∧
    (key ≠ 0 ∧ has_key man key ∧ mode_contains flags IPC_CREAT && mode_contains flags IPC_EXCL = true ∧ r = as_isize EEXIST ∧ man' = man ∨
     key ≠ 0 ∧ mode_contains flags IPC_CREAT && mode_contains flags IPC_EXCL = false ∧ (∃ q, queues man !! r = Some q ∧ key_of q = key) ∧ man' = man ∨
     key ≠ 0 ∧ ¬ has_key man key ∧ mode_contains flags IPC_CREAT = false ∧ r = as_isize ENOENT ∧ man' = man ∨
     (key = 0 ∨ ¬ has_key man key ∧ mode_contains flags IPC_CREAT = true) ∧ made_queue man key mode uid gid r man').
Proof.
  intros Hok Hc Hkey. assert ((key ≠ 0 → key_to_id man !! key = None) → ∃ r man', create_queue now man key mode uid gid = Some (r, man') ∧ man_ok man' ∧ made_queue man key mode uid gid r man') as Hcr.
  { intros Hnew. destruct (create_queue_ok now man key mode uid gid Hok Hc Hkey Hnew) as (r & man' & He & Hok' & Hr). exists r, man'. split_and!; [done|done|].
    destruct Hr as [(H1 & H2 & H3)|(H1 & H2 & H3 & q & Hq & H4)]; [by left|]. right. pose proof (ids_bound man' Hok') as [_ Hb]. rewrite Hq, map_size_insert_None in Hb by done. split_and!; [lia|lia|lia|done|]. exists q. naive_solver. }
  assert (key ≠ 0 → key_to_id man !! key = None → ¬ has_key man key) as Hno.
  { intros Hk Hki (id & q & Hq & Heq). assert (key_to_id man !! key = Some id) as Hbad by (apply Hok; [done|by exists q]). congruence. }
  unfold msgget. destruct (Z.eqb_spec key 0) as [->|Hk0].
  { destruct (Hcr ltac:(done)) as (r & man' & -> & Hok' & Hr). exists r, man'. split_and!; [done|done|]. tauto. }
  destruct (key_to_id man !! key) as [id|] eqn:Hki.
  - pose proof Hki as (q & Hq & Hkq)%(mo_key _ Hok); [|done]. destruct (mode_contains flags IPC_CREAT && mode_contains flags IPC_EXCL) eqn:Hf.
    + exists (as_isize EEXIST), man. split_and!; [done|done|]. left. split_and!; [done| |done..]. by exists id, q.
    + exists id, man. split_and!; [done|done|]. right; left. split_and!; [done..| |done]. by exists q.
  - specialize (Hno Hk0 eq_refl). destruct (mode_contains flags IPC_CREAT) eqn:Hf.
    + destruct (Hcr ltac:(done)) as (r & man' & -> & Hok' & Hr). exists r, man'. split_and!; [done|done|]. tauto.
    + exists (as_isize ENOENT), man. split_and!; [done|done|]. tauto.
Qed.

Lemma remove_ok man id q : man_ok man → queues man !! id = Some q →
  ∃ man', remove_queue man id = Some man' ∧ man_ok man' ∧ queues man' = delete id (queues man).
Proof.
  intros Hok Hq. destruct (mo_ids _ Hok) as (leaked & Hi & Hl). destruct (mo_queue _ Hok _ _ Hq) as [Hid _]. unfold remove_queue. rewrite Hq. fold (key_of q).
  assert (ids man ≡ₚ id :: (map_to_list (delete id (queues man))).*1) as Hp.
  { unfold ids. rewrite <-(insert_delete_id _ _ _ Hq) at 1. by rewrite map_to_list_insert by apply lookup_delete_eq. }
  rewrite Hp in Hi. simpl in Hi. destruct (id_dealloc_ok _ _ _ _ Hi) as (a & Ha & Hi' & _). rewrite Ha. cbn [mbind option_bind].
  eexists. split; [done|]. split; [|done]. split; simpl.
  - by exists leaked.
  - unfold dealloc in Ha. destruct (negb _); [done|]. destruct (bool_decide _); [done|]. injection Ha as <-. simpl. unfold vec_push.
    apply Forall_app. split; [apply Hok|by constructor].
  - intros i q' [_ Hq']%lookup_delete_Some. by apply Hok.
  - intros key i Hk. rewrite lookup_delete_Some. rewrite (mo_key _ Hok) by done. split.
    + intros (Hne & q' & Hq' & Hkq). exists q'. split; [|done]. apply lookup_delete_Some. split; [|done]. intros <-. congruence.
    + intros (q' & [Hne Hq']%lookup_delete_Some & Hkq). split; [|by exists q']. intros Heq. destruct Hne.
      assert (key_to_id man !! key = Some id) as H1 by (apply Hok; [done|by exists q]).
      assert (key_to_id man !! key = Some i) as H2 by (apply Hok; [done|by exists q']). congruence.
Qed.

(** A queue changed behind its lock keeps its key. *)
Lemma put_queue_ok man id q q' : man_ok man → queues man !! id = Some q → queue_ok q' → p_key (msg_perm (msqds q')) = p_key (msg_perm (msqds q)) →
  man_ok (put_queue man id q').
Proof.
  intros Hok Hq Hq' Hk. assert (ids (put_queue man id q') ≡ₚ ids man) as Hp.
  { unfold ids, put_queue. simpl. rewrite <-(insert_delete_id _ _ _ Hq) at 2. rewrite <-insert_delete_eq.
    by rewrite !map_to_list_insert by apply lookup_delete_eq. }
  split; [|apply Hok| |].
  - destruct (mo_ids _ Hok) as (leaked & Hi & Hl). exists leaked. split; [|done]. by rewrite Hp.
  - simpl. intros i x [[<- <-]|[_ Hx]]%lookup_insert_Some; [|by apply Hok]. split; [by eapply mo_queue|done].
  - intros key i Hne. simpl. rewrite (mo_key _ Hok) by done. assert (key_of q' = key_of q) as Hkk by (unfold key_of; by rewrite Hk).
    destruct (decide (i = id)) as [->|Hi].
    + rewrite lookup_insert_eq. split; intros (x & Hx & Hkx); [exists q'|exists q]; split; congruence.
    + by rewrite lookup_insert_ne by done.
Qed.
