(* ===== verification/Ipc.v ===== *)
(** * The System V IPC calls (os/src/syscall/ipc.rs, os/src/ipc/shm.rs,
      os/src/ipc/namespace.rs)

    Message queues and shared memory as system calls: the checks, the copies from and
    to the memory of the caller, and the mapping of shared segments.  The caller's
    credentials, process id and clock are arguments, and so is the file that backs a
    new segment. *)

From S2P Require Import Prelude Bytes Errno Address Mm IdAlloc Auth MsgQueue BTree MapArea MemSet UserCopy.

Local Open Scope Z_scope.

(** ** Values in memory *)

(** [as isize] *)
Definition to_isize (x : Z) : Z := let y := x mod 2 ^ 64 in if y <? 2 ^ 63 then y else y - 2 ^ 64.

(** [IpcPerm] has four bytes of padding after [__pad2]. *)
Definition perm_bytes (pad : list Z) (p : IpcPerm) : list Z :=
  le 4 (p_key p) ++ le 4 (p_uid p) ++ le 4 (p_gid p) ++ le 4 (p_cuid p) ++ le 4 (p_cgid p) ++
  le 2 (p_mode p) ++ le 2 (p_pad1 p) ++ le 2 (p_seq p) ++ le 2 (p_pad2 p) ++ pad ++ le 8 (p_unused1 p) ++ le 8 (p_unused2 p).

Definition perm_of_bytes (l : list Z) : IpcPerm :=
  MkPerm (to_i32 (of_le (sub 0 4 l))) (of_le (sub 4 4 l)) (of_le (sub 8 4 l)) (of_le (sub 12 4 l)) (of_le (sub 16 4 l))
    (of_le (sub 20 2 l)) (of_le (sub 22 2 l)) (of_le (sub 24 2 l)) (of_le (sub 26 2 l)) (of_le (sub 32 8 l)) (of_le (sub 40 8 l)).

Definition msqid_size : Z := 120.

Definition msqid_bytes (pad : list Z) (d : MsqidDs) : list Z :=
  perm_bytes pad (msg_perm d) ++ le 8 (msg_stime d) ++ le 8 (msg_rtime d) ++ le 8 (msg_ctime d) ++ le 8 (msg_cbytes d) ++
  le 8 (msg_qnum d) ++ le 8 (msg_qbytes d) ++ le 4 (msg_lspid d) ++ le 4 (msg_lrpid d) ++ le 8 (m_unused4 d) ++ le 8 (m_unused5 d).

Definition msqid_of_bytes (l : list Z) : MsqidDs :=
  MkMsqid (perm_of_bytes (sub 0 48 l)) (of_le (sub 48 8 l)) (of_le (sub 56 8 l)) (of_le (sub 64 8 l)) (of_le (sub 72 8 l))
    (of_le (sub 80 8 l)) (of_le (sub 88 8 l)) (to_i32 (of_le (sub 96 4 l))) (to_i32 (of_le (sub 100 4 l)))
    (of_le (sub 104 8 l)) (of_le (sub 112 8 l)).

(** ** Shared memory *)

Record ShmidDs := MkShmid {
  shm_perm : IpcPerm;
  shm_segsz : Z;
  shm_atime : Z;
  shm_dtime : Z;
  shm_ctime : Z;
  shm_cpid : Z;
  shm_lpid : Z;
  shm_nattch : Z;
}.

Definition shmid_size : Z := 104.

Definition shmid_bytes (pad : list Z) (d : ShmidDs) : list Z :=
  perm_bytes pad (shm_perm d) ++ le 8 (shm_segsz d) ++ le 8 (shm_atime d) ++ le 8 (shm_dtime d) ++ le 8 (shm_ctime d) ++
  le 8 (shm_cpid d) ++ le 8 (shm_lpid d) ++ le 8 (shm_nattch d).

Definition shmid_of_bytes (l : list Z) : ShmidDs :=
  MkShmid (perm_of_bytes (sub 0 48 l)) (of_le (sub 48 8 l)) (of_le (sub 56 8 l)) (of_le (sub 64 8 l)) (of_le (sub 72 8 l))
    (of_le (sub 80 8 l)) (of_le (sub 88 8 l)) (of_le (sub 96 8 l)).

(** A segment: its identifier, its descriptor, and the file that holds its pages. *)
Record Shm := MkShm { shm_id : Z; stat : ShmidDs; inner : nat }.

Definition shm_new (id size key mode cpid uid gid : Z) (file : nat) : Shm :=
  MkShm id (MkShmid (MkPerm key uid gid 0 0 mode 0 0 0 0 0) size 0 0 0 cpid 0 0) file.

Definition with_nattch (n : Z) (s : Shm) : Shm :=
  let d := stat s in MkShm (shm_id s) (MkShmid (shm_perm d) (shm_segsz d) (shm_atime d) (shm_dtime d) (shm_ctime d) (shm_cpid d) (shm_lpid d) n) (inner s).

Definition inc_nattch (s : Shm) : option Shm := n ← checked_add (shm_nattch (stat s)) 1; Some (with_nattch n s).

Definition dec_nattch (s : Shm) : Shm :=
  if 0 <? shm_nattch (stat s) then with_nattch (shm_nattch (stat s) - 1) s else s.

Definition set_lpid (pid : Z) (s : Shm) : Shm :=
  let d := stat s in MkShm (shm_id s) (MkShmid (shm_perm d) (shm_segsz d) (shm_atime d) (shm_dtime d) (shm_ctime d) (shm_cpid d) pid (shm_nattch d)) (inner s).

Definition set_perm_fields (uid gid mode : Z) (s : Shm) : Shm :=
  let d := stat s in
  let p := shm_perm d in
  MkShm (shm_id s)
    (MkShmid (MkPerm (p_key p) uid gid (p_cuid p) (p_cgid p) mode (p_pad1 p) (p_seq p) (p_pad2 p) (p_unused1 p) (p_unused2 p))
      (shm_segsz d) (shm_atime d) (shm_dtime d) (shm_ctime d) (shm_cpid d) (shm_lpid d) (shm_nattch d)) (inner s).

(** [attachments]: from the address of a mapping to the segment. *)
Record ShmManager := MkShmMan {
  shm_allocator : RecycleAllocator;
  shms : gmap Z Shm;
  attachments : gmap Z Z;
}.

Definition shm_manager_new : ShmManager := MkShmMan new ∅ ∅.

Definition get_shm (man : ShmManager) (id : Z) : option Shm := shms man !! id.

Definition get_shm_by_key (man : ShmManager) (key : Z) : option Shm :=
  e ← list_find (λ e, p_key (shm_perm (stat e.2)) = key) (bt_entries (shms man)); Some e.2.2.

Definition remove_shm (man : ShmManager) (id : Z) : option ShmManager :=
  a ← dealloc (shm_allocator man) id;
  Some (MkShmMan a (delete id (shms man)) (attachments man)).

(** An identifier above 32 bits is a panic. *)
Definition create_shm (man : ShmManager) (size key mode cpid uid gid : Z) (file : nat) : option (Shm * ShmManager) :=
  '(id, a) ← alloc (shm_allocator man);
  if 2 ^ 32 - 1 <? id then None
  else
    let shm := shm_new id size key mode cpid uid gid file in
    Some (shm, MkShmMan a (<[id := shm]> (shms man)) (attachments man)).

Definition record_attach (man : ShmManager) (shmid addr : Z) : ShmManager :=
  MkShmMan (shm_allocator man) (shms man) (<[addr := shmid]> (attachments man)).

Definition take_attach (man : ShmManager) (addr : Z) : option Z * ShmManager :=
  (attachments man !! addr, MkShmMan (shm_allocator man) (shms man) (delete addr (attachments man))).

(** The segment behind its lock is replaced. *)
Definition put_shm (man : ShmManager) (s : Shm) : ShmManager :=
  MkShmMan (shm_allocator man) (<[shm_id s := s]> (shms man)) (attachments man).

(** ** The namespace *)

Record IPCNamespace := MkNs { msg_man : MsgManager; shm_man : ShmManager }.

Definition namespace_new : IPCNamespace := MkNs msg_manager_new shm_manager_new.

Definition with_msg (m : MsgManager) (ns : IPCNamespace) : IPCNamespace := MkNs m (shm_man ns).

Definition with_shm (m : ShmManager) (ns : IPCNamespace) : IPCNamespace := MkNs (msg_man ns) m.

(** ** Checks *)

Definition ipc_owner_check (perm : IpcPerm) (u : Z) : bool := (u =? 0) || (u =? p_uid perm) || (u =? p_cuid perm).

Definition perm_stat_of (perm : IpcPerm) : PermStat := MkPermStat (mode_from_bits_truncate (p_mode perm)) (p_uid perm) (p_gid perm).

Definition ipc_write_check (perm : IpcPerm) (u g : Z) : bool := can_write (perm_stat_of perm) u g.

Definition ipc_read_check (perm : IpcPerm) (u g : Z) : bool := can_read (perm_stat_of perm) u g.

(** [MsgGetFlags::from_bits_truncate] and [MsgFlags::from_bits_truncate] *)
Definition msgget_flags_from (msgflg : Z) : Z * Z :=
  (Z.land msgflg (Z.lor (Z.lor IPC_CREAT IPC_EXCL) (Z.lor MSG_RD MSG_WR)), Z.land msgflg 0x1ff).

Definition msg_flags_from (msgflg : Z) : Z := Z.land msgflg (Z.lor (Z.lor IPC_NOWAIT MSG_NOERROR) (Z.lor MSG_EXCEPT MSG_COPY)).

(** The caller: effective ids, process id, and the time of the call. *)
Record caller := MkCaller { c_uid : Z; c_gid : Z; c_pid : Z; c_now : Z }.

(** ** Message queues *)

Definition sys_msgget (c : caller) (ns : IPCNamespace) (key msgflg : Z) : option (Z * IPCNamespace) :=
  let '(flags, mode) := msgget_flags_from msgflg in
  '(result, man) ← msgget (c_now c) (msg_man ns) key flags mode (c_uid c) (c_gid c);
  let ns := with_msg man ns in
  if 0 <? result then
    let need_rd := mode_contains flags MSG_RD in
    let need_wr := mode_contains flags MSG_WR in
    if need_rd || need_wr then
      match get_queue man (to_u32 result) with
      | Some q =>
        let perm := msg_perm (msqds q) in
        if need_rd && negb (ipc_read_check perm (c_uid c) (c_gid c)) then Some (as_isize EACCES, ns)
        else if need_wr && negb (ipc_write_check perm (c_uid c) (c_gid c)) then Some (as_isize EACCES, ns)
        else Some (result, ns)
      | None => Some (result, ns)
      end
    else Some (result, ns)
  else Some (result, ns).

Section calls.
Context {W_ : Type} `{!Mm W_} (F : FileOps W_) (strampoline : Z).
Implicit Types (k : kmm W_) (ms : MemorySet) (ns : IPCNamespace).

Definition sys_msgsnd (c : caller) ns k ms (msqid msgp msgsz : Z) : option (Z * IPCNamespace * kmm W_ * MemorySet) :=
  if (0x7FFFFFFF <? to_isize msgsz) || (to_isize msgsz <? 0) then Some (as_isize EINVAL, ns, k, ms)
  else
    '(m, k, ms) ← try_translated_read F strampoline k ms msgp 8;
    match m with
    | None => Some (as_isize EFAULT, ns, k, ms)
    | Some m =>
      let mtype := to_isize (of_le m) in
      if mtype <=? 0 then Some (as_isize EINVAL, ns, k, ms)
      else
        msgtptr ← checked_add msgp 8;
        '(b, k, ms) ← translated_user_buffer F strampoline k ms msgtptr msgsz;
        match b with
        | None => Some (as_isize EFAULT, ns, k, ms)
        | Some b =>
          let text := buffer_read (k_w k) b 0 (replicate (Z.to_nat (buffer_len b)) 0) in
          let msg := MkMsg mtype text in
          match get_queue (msg_man ns) (to_u32 msqid) with
          | None => Some (as_isize EINVAL, ns, k, ms)
          | Some q =>
            if negb (ipc_write_check (msg_perm (msqds q)) (c_uid c) (c_gid c)) then Some (as_isize EACCES, ns, k, ms)
            else
              '(r, q) ← add (c_now c) q msg (c_pid c);
              Some (match r with inr _ => 0 | inl e => as_isize e end, with_msg (put_queue (msg_man ns) (to_u32 msqid) q) ns, k, ms)
          end
        end
    end.

Definition sys_msgrcv (c : caller) ns k ms (msqid msgp msgsz msgtyp msgflg : Z) : option (Z * IPCNamespace * kmm W_ * MemorySet) :=
  let flags := msg_flags_from msgflg in
  match get_queue (msg_man ns) (to_u32 msqid) with
  | None => Some (as_isize EINVAL, ns, k, ms)
  | Some q =>
    if negb (ipc_read_check (msg_perm (msqds q)) (c_uid c) (c_gid c)) then Some (as_isize EACCES, ns, k, ms)
    else
      '(r, q) ← get (c_now c) q msgtyp msgsz flags (c_pid c);
      let ns := with_msg (put_queue (msg_man ns) (to_u32 msqid) q) ns in
      match r with
      | inl e => Some (as_isize e, ns, k, ms)
      | inr msg =>
        let copy_len := Z.min msgsz (get_size msg) in
        '(ok, k, ms) ← try_translated_write F strampoline k ms msgp (le 8 (mtype msg));
        if negb ok then Some (as_isize EFAULT, ns, k, ms)
        else if 0 <? copy_len then
          msgtptr ← checked_add msgp 8;
          '(b, k, ms) ← translated_user_buffer_mut F strampoline k ms msgtptr copy_len;
          match b with
          | None => Some (as_isize EFAULT, ns, k, ms)
          | Some b => Some (copy_len, ns, with_w (buffer_write (k_w k) b 0 (take (Z.to_nat copy_len) (mtext msg))) k, ms)
          end
        else Some (copy_len, ns, k, ms)
      end
  end.

Definition sys_msgctl (c : caller) (pad : list Z) ns k ms (msqid cmd buf : Z) : option (Z * IPCNamespace * kmm W_ * MemorySet) :=
  if cmd =? IPC_STAT then
    match get_queue (msg_man ns) msqid with
    | None => Some (as_isize EINVAL, ns, k, ms)
    | Some q =>
      if negb (ipc_read_check (msg_perm (msqds q)) (c_uid c) (c_gid c)) then Some (as_isize EACCES, ns, k, ms)
      else
        '(ok, k, ms) ← try_translated_write F strampoline k ms buf (msqid_bytes pad (msqds q));
        Some (if (ok : bool) then 0 else as_isize EFAULT, ns, k, ms)
    end
  else if cmd =? IPC_SET then
    '(ds, k, ms) ← try_translated_read F strampoline k ms buf msqid_size;
    match ds with
    | None => Some (as_isize EFAULT, ns, k, ms)
    | Some ds =>
      match get_queue (msg_man ns) msqid with
      | None => Some (as_isize EINVAL, ns, k, ms)
      | Some q =>
        let perm := msg_perm (msqds q) in
        if negb (ipc_write_check perm (c_uid c) (c_gid c) || ipc_owner_check perm (c_uid c)) then Some (as_isize EACCES, ns, k, ms)
        else Some (0, with_msg (put_queue (msg_man ns) msqid (apply_ipc_set (c_now c) q (msqid_of_bytes ds))) ns, k, ms)
      end
    end
  else if cmd =? IPC_RMID then
    match get_queue (msg_man ns) msqid with
    | None => Some (as_isize EINVAL, ns, k, ms)
    | Some q =>
      if negb (ipc_owner_check (msg_perm (msqds q)) (c_uid c)) then Some (as_isize EPERM, ns, k, ms)
      else
        man ← remove_queue (msg_man ns) msqid;
        Some (0, with_msg man ns, k, ms)
    end
  else Some (as_isize EINVAL, ns, k, ms).

(** ** Shared memory *)

(** [ShmFlags] *)
Definition SHM_RD : Z := 0x100.

Definition SHM_WR : Z := 0x80.

Definition SHM_SIZE_LIMIT : Z := 16 * 1024 * 1024.

Definition shm_flags_from (flags : Z) : Z :=
  Z.land flags (Z.lor (Z.lor (Z.lor IPC_CREAT IPC_EXCL) IPC_NOWAIT) (Z.lor SHM_RD SHM_WR)).

(** [file] is the file that a new segment makes for its pages. *)
Definition sys_shmget (c : caller) ns (key size flags : Z) (file : nat) : option (Z * IPCNamespace) :=
  let mode := Z.land flags 0x1ff in
  let ipc_flags := shm_flags_from (Z.land flags (Z.lnot 0x1ff)) in
  let create :=
    '(shm, man) ← create_shm (shm_man ns) size key mode (c_pid c) (c_uid c) (c_gid c) file;
    Some (shm_id shm, with_shm man ns) in
  if key =? 0 then
    if negb (mode_contains ipc_flags IPC_CREAT) then Some (as_isize EINVAL, ns) else create
  else
    match get_shm_by_key (shm_man ns) key with
    | Some shm =>
      if mode_contains ipc_flags IPC_EXCL && mode_contains ipc_flags IPC_CREAT then Some (as_isize EEXIST, ns)
      else
        let perm_stat := perm_stat_of (shm_perm (stat shm)) in
        if mode_contains ipc_flags SHM_RD && negb (can_read perm_stat (c_uid c) (c_gid c)) then Some (as_isize EACCES, ns)
        else if mode_contains ipc_flags SHM_WR && negb (can_write perm_stat (c_uid c) (c_gid c)) then Some (as_isize EACCES, ns)
        else Some (shm_id shm, ns)
    | None =>
      if negb (mode_contains ipc_flags IPC_CREAT) then Some (as_isize ENOENT, ns)
      else if (size =? 0) || (SHM_SIZE_LIMIT <? size) then Some (as_isize EINVAL, ns)
      else create
    end.

Definition sys_shmctl (c : caller) (pad : list Z) ns k ms (shmid cmd buf : Z) : option (Z * IPCNamespace * kmm W_ * MemorySet) :=
  match get_shm (shm_man ns) shmid with
  | None => Some (as_isize EINVAL, ns, k, ms)
  | Some shm =>
    let perm := shm_perm (stat shm) in
    if cmd =? IPC_STAT then
      if negb (ipc_read_check perm (c_uid c) (c_gid c)) then Some (as_isize EACCES, ns, k, ms)
      else
        '(ok, k, ms) ← try_translated_write F strampoline k ms buf (shmid_bytes pad (stat shm));
        Some (if (ok : bool) then 0 else as_isize EFAULT, ns, k, ms)
    else if cmd =? IPC_SET then
      '(ds, k, ms) ← try_translated_read F strampoline k ms buf shmid_size;
      match ds with
      | None => Some (as_isize EFAULT, ns, k, ms)
      | Some ds =>
        if negb (ipc_owner_check perm (c_uid c)) && negb (ipc_write_check perm (c_uid c) (c_gid c)) then Some (as_isize EACCES, ns, k, ms)
        else
          let np := shm_perm (shmid_of_bytes ds) in
          let shm := set_lpid (c_pid c) (set_perm_fields (p_uid np) (p_gid np) (p_mode np) shm) in
          Some (0, with_shm (put_shm (shm_man ns) shm) ns, k, ms)
      end
    else if cmd =? IPC_RMID then
      if negb (ipc_owner_check perm (c_uid c)) then Some (as_isize EPERM, ns, k, ms)
      else man ← remove_shm (shm_man ns) shmid; Some (0, with_shm man ns, k, ms)
    else Some (as_isize EINVAL, ns, k, ms)
  end.

(** The mapping goes away by one page. *)
Definition sys_shmdt ns k ms (shmaddr : Z) : option (Z * IPCNamespace * kmm W_ * MemorySet) :=
  if (shmaddr =? 0) || negb (shmaddr mod PAGE_SIZE =? 0) then Some (as_isize EINVAL, ns, k, ms)
  else
    match take_attach (shm_man ns) shmaddr with
    | (None, man) => Some (as_isize EINVAL, with_shm man ns, k, ms)
    | (Some shmid, man) =>
      let man := match get_shm man shmid with Some shm => put_shm man (dec_nattch shm) | None => man end in
      '(k, ms) ← munmap F k ms shmaddr PAGE_SIZE;
      Some (0, with_shm man ns, k, ms)
    end.

Definition SHM_RDONLY : Z := 0x1000.

Definition SHM_RND : Z := 0x2000.

Definition sys_shmat (c : caller) ns k ms (shmid shmaddr shmflg : Z) : option (Z * IPCNamespace * kmm W_ * MemorySet) :=
  match get_shm (shm_man ns) (to_u32 shmid) with
  | None => Some (as_isize EINVAL, ns, k, ms)
  | Some shm =>
    let shm_size := shm_segsz (stat shm) in
    let perm_stat := perm_stat_of (shm_perm (stat shm)) in
    let is_readonly := negb (Z.land shmflg SHM_RDONLY =? 0) in
    if negb (can_read perm_stat (c_uid c) (c_gid c)) then Some (as_isize EACCES, ns, k, ms)
    else if negb is_readonly && negb (can_write perm_stat (c_uid c) (c_gid c)) then Some (as_isize EACCES, ns, k, ms)
    else
      let attach_addr :=
        if shmaddr =? 0 then Some 0
        else if negb (Z.land shmflg SHM_RND =? 0) then Some (Z.land shmaddr (usize_not (PAGE_SIZE - 1)))
        else if negb (shmaddr mod PAGE_SIZE =? 0) then None
        else Some shmaddr in
      match attach_addr with
      | None => Some (as_isize EINVAL, ns, k, ms)
      | Some attach_addr =>
        let prot := if is_readonly then PROT_READ else Z.lor PROT_READ PROT_WRITE in
        '(r, k, ms) ← mmap F k ms attach_addr shm_size prot MAP_SHARED (Some (inner shm)) 0;
        match r with
        | inl e => Some (as_isize e, ns, k, ms)
        | inr mapped_addr =>
          let man := record_attach (shm_man ns) (to_u32 shmid) mapped_addr in
          shm ← inc_nattch shm;
          Some (to_isize mapped_addr, with_shm (put_shm man (set_lpid (c_pid c) shm)) ns, k, ms)
        end
      end
  end.
End calls.

(** ** Bytes of values *)

Definition is_i32 (x : Z) : Prop := - 2 ^ 31 ≤ x < 2 ^ 31.

Lemma i32_le x : is_i32 x → to_i32 (of_le (le 4 x)) = x.
Proof.
  unfold is_i32. intros Hx. rewrite of_le_le. unfold to_i32. change (2 ^ (8 * Z.of_nat 4)) with (2 ^ 32). rewrite Z.mod_mod by lia.
  destruct (Z.ltb_spec (x mod 2 ^ 32) (2 ^ 31)); pose proof (Z.div_mod x (2 ^ 32) ltac:(lia)); pose proof (Z.mod_pos_bound x (2 ^ 32) ltac:(lia)); lia.
Qed.

(** The widths of the fields. *)
Record perm_fits (p : IpcPerm) : Prop := {
  pf_key : is_i32 (p_key p);
  pf_32 : Forall (λ x, 0 ≤ x < 2 ^ 32) [p_uid p; p_gid p; p_cuid p; p_cgid p];
  pf_16 : Forall (λ x, 0 ≤ x < 2 ^ 16) [p_mode p; p_pad1 p; p_seq p; p_pad2 p];
  pf_64 : Forall (λ x, 0 ≤ x < 2 ^ 64) [p_unused1 p; p_unused2 p];
}.

Record msqid_fits (d : MsqidDs) : Prop := {
  mf_perm : perm_fits (msg_perm d);
  mf_64 : Forall (λ x, 0 ≤ x < 2 ^ 64) [msg_stime d; msg_rtime d; msg_ctime d; msg_cbytes d; msg_qnum d; msg_qbytes d; m_unused4 d; m_unused5 d];
  mf_i32 : Forall is_i32 [msg_lspid d; msg_lrpid d];
}.

Lemma length_perm_bytes pad p : length pad = 4%nat → length (perm_bytes pad p) = 48%nat.
Proof. intros Hp. unfold perm_bytes. repeat rewrite length_app. by rewrite !length_le, Hp. Qed.

Lemma perm_roundtrip pad p : length pad = 4%nat → perm_fits p → perm_of_bytes (perm_bytes pad p) = p.
Proof.
  intros Hp [Hk H32 H16 H64]. decompose_Forall. cbv beta in *. unfold perm_of_bytes, perm_bytes.
  fields Hp. rewrite i32_le by done. rewrite !of_le_small by done. by destruct p.
Qed.

Lemma length_msqid_bytes pad d : length pad = 4%nat → Z.of_nat (length (msqid_bytes pad d)) = msqid_size.
Proof. intros Hp. unfold msqid_bytes. repeat rewrite length_app. by rewrite length_perm_bytes, !length_le. Qed.

Lemma msqid_roundtrip_fields pad d : length pad = 4%nat → msqid_fits d → msqid_of_bytes (msqid_bytes pad d) = d.
Proof.
  intros Hp [Hperm H64 H32]. decompose_Forall. cbv beta in *. unfold msqid_of_bytes, msqid_bytes.
  pose proof (length_perm_bytes pad (msg_perm d) Hp) as Hl. fields Hl. rewrite perm_roundtrip by done. rewrite !i32_le by done. rewrite !of_le_small by done. by destruct d.
Qed.
