(* ===== verification/IpcCopy.v ===== *)
(** * Messages through user memory

    What [sys_msgsnd] and [sys_msgrcv] do to the queue and to the memory of the
    caller, for any set of address spaces. *)

From S2P Require Import Prelude Bytes Errno Address Mm IdAlloc Auth MsgQueue BTree MapArea MemSet Space SpaceUnmap SpaceFault SpaceSys UserCopy SpaceCopy Ipc.

Local Open Scope Z_scope.

Section ipc.
Context {W_ : Type} `{!Mm W_} (F : FileOps W_) (strampoline : Z).
Implicit Types (k : kmm W_) (ms : MemorySet) (l : list MemorySet) (ns : IPCNamespace).

(** The bytes at an address. *)
Definition bytes_at k ms (a : Z) (data : list Z) : Prop := ∀ i x, data !! i = Some x → space_byte k ms (a + Z.of_nat i) = Some x.

Lemma bytes_at_app k ms a d1 d2 : bytes_at k ms a (d1 ++ d2) ↔ bytes_at k ms a d1 ∧ bytes_at k ms (a + Z.of_nat (length d1)) d2.
Proof.
  unfold bytes_at. split.
  - intros H. split; intros i x Hi; [by apply H, lookup_app_l_Some|]. specialize (H (length d1 + i)%nat x).
    rewrite lookup_app_r, Nat.add_sub' in H by lia. rewrite <-Z.add_assoc, <-Nat2Z.inj_add. by apply H.
  - intros [H1 H2] i x Hi. apply lookup_app_Some in Hi as [Hi|[Hge Hi]]; [by apply H1|]. apply H2 in Hi.
    replace (a + Z.of_nat i) with (a + Z.of_nat (length d1) + Z.of_nat (i - length d1)) by lia. done.
Qed.

Lemma bytes_at_inj k ms a d1 d2 : length d1 = length d2 → bytes_at k ms a d1 → bytes_at k ms a d2 → d1 = d2.
Proof.
  intros Hl H1 H2. apply list_eq_same_length with (length d1); [done|done|]. intros i x y Hi Hx Hy. apply H1 in Hx. apply H2 in Hy. congruence.
Qed.

Lemma bytes_at_grown l k ms k' ms' a data : grown l k ms k' ms' → 0 ≤ a → a + Z.of_nat (length data) ≤ user_top * PAGE_SIZE →
  bytes_at k ms a data → bytes_at k' ms' a data.
Proof. intros G H0 Hl H i x Hi. apply lookup_lt_Some in Hi as Hlt. apply (gr_byte _ _ _ _ _ G); [lia|by apply H]. Qed.

Lemma bytes_at_stored l lo hi k ms k' ms' a data : stored l lo hi k ms k' ms' → 0 ≤ a → a + Z.of_nat (length data) ≤ user_top * PAGE_SIZE →
  hi ≤ a ∨ a + Z.of_nat (length data) ≤ lo → bytes_at k ms a data → bytes_at k' ms' a data.
Proof. intros G H0 Hl Hd H i x Hi. apply lookup_lt_Some in Hi as Hlt. apply (st_byte _ _ _ _ _ _ _ G); [lia|lia|by apply H]. Qed.

Lemma all_plain_sub ms write lo hi lo' hi' : lo ≤ lo' → hi' ≤ hi → all_plain ms write lo hi → all_plain ms write lo' hi'.
Proof. intros ? ? H a Ha. apply H. lia. Qed.

Lemma all_plain_stored l lo' hi' k ms k' ms' write lo hi : stored l lo' hi' k ms k' ms' → all_plain ms write lo hi → all_plain ms' write lo hi.
Proof. intros G H a Ha. eapply stored_plain; [done|by apply H]. Qed.

Lemma all_accessible_stored l lo' hi' k ms k' ms' write lo hi : stored l lo' hi' k ms k' ms' → all_accessible ms' write lo hi ↔ all_accessible ms write lo hi.
Proof. intros G. split; intros H a Ha; by apply (stored_accessible _ _ _ _ _ _ _ write (a / PAGE_SIZE) G), H. Qed.

Lemma all_accessible_split ms write lo mid hi : lo ≤ mid ≤ hi →
  all_accessible ms write lo hi ↔ all_accessible ms write lo mid ∧ all_accessible ms write mid hi.
Proof.
  intros Hm. split; [intros H; split; intros a Ha; apply H; lia|]. intros [H1 H2] a Ha. destruct (decide (a < mid)); [apply H1|apply H2]; lia.
Qed.

(** Two neighbouring ranges have at most one page more. *)
Lemma range_pages_split s a b : range_pages s a + range_pages (s + a) b ≤ range_pages s (a + b) + 1.
Proof.
  unfold range_pages. replace (s + (a + b) - 1) with (s + a + b - 1) by lia. pose proof (Z.div_le_mono (s + a - 1) (s + a) PAGE_SIZE ltac:(unfold PAGE_SIZE; lia) ltac:(lia)). lia.
Qed.

Lemma range_pages_mono s a b : a ≤ b → range_pages s a ≤ range_pages s b.
Proof. intros Hab. unfold range_pages. pose proof (Z.div_le_mono (s + a - 1) (s + b - 1) PAGE_SIZE ltac:(unfold PAGE_SIZE; lia) ltac:(lia)). lia. Qed.

Lemma range_pages_0 s : 0 ≤ range_pages s 0.
Proof.
  unfold range_pages, PAGE_SIZE. rewrite Z.add_0_r. pose proof (Z.div_mod s 0x1000 ltac:(lia)). pose proof (Z.mod_pos_bound s 0x1000 ltac:(lia)).
  pose proof (Z.div_mod (s - 1) 0x1000 ltac:(lia)). pose proof (Z.mod_pos_bound (s - 1) 0x1000 ltac:(lia)). lia.
Qed.

Lemma pin_empty k ms start write : 0 ≤ start ≤ USIZE_MAX → pin_user_range F strampoline k ms start 0 write = Some (Some [], k, ms).
Proof.
  intros Hs. unfold pin_user_range. assert (∃ n, retry_fuel = S n) as [n ->] by (by exists 99%nat). cbn [pin_retry].
  unfold pin_user_range_once. by rewrite checked_add_Some by lia.
Qed.

(** ** A buffer of any length *)

(** The text of a message that is sent. *)
Lemma text_ok k ms l start len : good k (ms :: l) → 0 ≤ start → 0 ≤ len → start + len ≤ user_top * PAGE_SIZE → all_plain ms false start (start + len) →
  range_pages start len * page_cost ≤ mm_free (k_w k) →
  ∃ r k' ms', translated_user_buffer F strampoline k ms start len = Some (r, k', ms') ∧ grown l k ms k' ms' ∧
    mm_free (k_w k) ≤ mm_free (k_w k') + range_pages start len * page_cost ∧
    match r with
    | Some b => all_accessible ms false start (start + len) ∧
        let data := buffer_read (k_w k') b 0 (replicate (Z.to_nat (buffer_len b)) 0) in
        Z.of_nat (length data) = len ∧ Forall (λ x, 0 ≤ x < 256) data ∧ bytes_at k' ms' start data
    | None => ¬ all_accessible ms false start (start + len)
    end.
Proof.
  intros Hg H0 Hlen Htop Hpl Hfree. destruct (decide (len = 0)) as [->|Hne].
  - exists (Some []), k, ms. unfold translated_user_buffer. rewrite pin_empty by (unfold user_top, PAGE_SIZE, USIZE_MAX in *; lia).
    split; [done|]. split; [by apply grown_refl|]. split; [pose proof (range_pages_0 start); unfold page_cost, READ_AHEAD_PAGES; lia|].
    split; [intros a Ha; lia|]. simpl. split; [done|]. split; [constructor|by intros i x Hi].
  - destruct (buffer_read_ok F strampoline k ms l start len) as (r & k' & ms' & He & G & Hf & Hr); [done| |done|done|by exists r, k', ms'].
    unfold user_range. lia.
Qed.

(** The copies are used through their lemmas from here on. *)
#[local] Opaque try_translated_read try_translated_write translated_user_buffer translated_user_buffer_mut.

(** ** Sending *)

(** What the call leaves as it is. *)
Definition queues_same ns ns' : Prop := queues (msg_man ns') = queues (msg_man ns) ∧ shm_man ns' = shm_man ns.

Definition send_cost msgp msgsz : Z := (range_pages msgp (8 + msgsz) + 1) * page_cost.

Lemma isize_small x : 0 ≤ x < 2 ^ 63 → to_isize x = x.
Proof. intros Hx. unfold to_isize. rewrite Z.mod_small by lia. by rewrite (proj2 (Z.ltb_lt _ _)) by lia. Qed.

Lemma isize_pos m : Z.of_nat (length m) = 8 → Forall (λ x, 0 ≤ x < 256) m → 0 < to_isize (of_le m) → 0 < of_le m < 2 ^ 63 ∧ to_isize (of_le m) = of_le m.
Proof.
  intros Hl Hm. pose proof (of_le_range m Hm) as Hr. rewrite Hl in Hr. change (2 ^ (8 * 8)) with (2 ^ 64) in Hr. unfold to_isize.
  rewrite Z.mod_small by lia. destruct (Z.ltb_spec (of_le m) (2 ^ 63)); lia.
Qed.

Lemma put_same ns id q : queues (msg_man ns) !! id = Some q → queues_same ns (with_msg (put_queue (msg_man ns) id q) ns).
Proof. intros Hq. split; [|done]. simpl. by apply insert_id. Qed.

(** An early return that leaves the queues alone. *)
Ltac refused := eexists _, _, _, _; split; [reflexivity|]; split; [|split; [assumption|]; split; [unfold send_cost; nia|]; right; split; [done|]].

Lemma msgsnd_ok c ns k ms l msqid msgp msgsz : let id := to_u32 msqid in
  man_ok (msg_man ns) → good k (ms :: l) → 0 ≤ msgsz → user_range msgp (8 + msgsz) → all_plain ms false msgp (msgp + (8 + msgsz)) →
  send_cost msgp msgsz ≤ mm_free (k_w k) → (∀ q, queues (msg_man ns) !! id = Some q → text_bytes (msgs q) + msgsz ≤ USIZE_MAX) →
  ∃ r ns' k' ms', sys_msgsnd F strampoline c ns k ms msqid msgp msgsz = Some (r, ns', k', ms') ∧ grown l k ms k' ms' ∧ man_ok (msg_man ns') ∧
    mm_free (k_w k) ≤ mm_free (k_w k') + send_cost msgp msgsz ∧
    (r = 0 ∧ msgsz ≤ 0x7FFFFFFF ∧ shm_man ns' = shm_man ns ∧ (∃ q q' m, queues (msg_man ns) !! id = Some q ∧ ipc_write_check (msg_perm (msqds q)) (c_uid c) (c_gid c) = true ∧
       queues (msg_man ns') = <[id := q']> (queues (msg_man ns)) ∧ msgs q' = msgs q ++ [m] ∧ same_limits q q' ∧ text_bytes (msgs q') ≤ msg_qbytes (msqds q) ∧
       msg_ok m ∧ get_size m = msgsz ∧ bytes_at k' ms' msgp (le 8 (mtype m) ++ mtext m))
     ∨ queues_same ns ns' ∧
       (r = as_isize EINVAL ∧ (0x7FFFFFFF < msgsz ∨ queues (msg_man ns) !! id = None ∨
          ∃ m, Z.of_nat (length m) = 8 ∧ bytes_at k' ms' msgp m ∧ to_isize (of_le m) ≤ 0)
        ∨ r = as_isize EFAULT ∧ ¬ all_accessible ms false msgp (msgp + (8 + msgsz))
        ∨ r = as_isize EACCES ∧ (∃ q, queues (msg_man ns) !! id = Some q ∧ ipc_write_check (msg_perm (msqds q)) (c_uid c) (c_gid c) = false)
        ∨ r = as_isize EAGAIN ∧ ∃ q, queues (msg_man ns) !! id = Some q ∧ msg_qbytes (msqds q) < text_bytes (msgs q) + msgsz)).
Proof.
  intros id Hman Hg Hsz (H0 & _ & Htop) Hpl Hfree Hroom. assert (msgsz < 2 ^ 63) as Hsz' by (unfold user_top, PAGE_SIZE in *; lia).
  unfold sys_msgsnd. rewrite isize_small by lia. rewrite (proj2 (Z.ltb_ge msgsz 0)), orb_false_r by lia. unfold send_cost in Hfree.
  assert (0 < page_cost) as Hpc by (unfold page_cost, READ_AHEAD_PAGES; lia). pose proof (range_pages_split msgp 8 msgsz) as Hsplit.
  pose proof (range_cost msgp 8 ltac:(lia)) as Hc1. pose proof (range_pages_mono msgp 8 (8 + msgsz) ltac:(lia)) as Hmono.
  destruct (Z.ltb_spec 0x7FFFFFFF msgsz).
  { refused; [by apply grown_refl|]. left. by split; [|left]. }
  destruct (read_ok F strampoline k ms l msgp 8 Hg ltac:(unfold user_range; lia) ltac:(eapply all_plain_sub; [..|done]; lia) ltac:(nia))
    as (rd & k1 & ms1 & -> & G1 & Hf1 & Hr1). step_some. destruct rd as [mt|]; last first.
  { refused; [done|]. right; left. split; [done|].
    rewrite (all_accessible_split _ _ _ (msgp + 8)) by lia. tauto. }
  destruct Hr1 as (Hacc1 & Hlm & Hbm & Hat1).
  pose proof (isize_pos mt Hlm Hbm) as Hty. remember (to_isize (of_le mt)) as ty eqn:Heqty. cbn zeta. destruct (Z.leb_spec ty 0) as [Hneg|Hpos].
  { refused; [done|]. left. split; [done|]. right; right. exists mt. by rewrite <-Heqty. }
  destruct (Hty Hpos) as [Htyr Htye]. clear Heqty Hty. subst ty. rewrite checked_add_Some by (unfold user_top, PAGE_SIZE, USIZE_MAX in *; lia). step_some.
  destruct (text_ok k1 ms1 l (msgp + 8) msgsz (gr_good _ _ _ _ _ G1) ltac:(lia) ltac:(lia) ltac:(lia)) as (b & k2 & ms2 & -> & G2 & Hf2 & Hr2).
  { eapply all_plain_stored; [by apply (grown_stored _ 0 0)|]. eapply all_plain_sub; [..|done]; lia. }
  { nia. }
  step_some. pose proof (grown_trans _ _ _ _ _ _ _ G1 G2) as G. destruct b as [b|]; last first.
  { refused; [done|]. right; left. split; [done|].
    rewrite (all_accessible_split _ _ _ (msgp + 8)) by lia. intros [_ Ha]. apply Hr2.
    apply (all_accessible_stored l 0 0 k ms k1 ms1); [by apply grown_stored|]. by replace (msgp + 8 + msgsz) with (msgp + (8 + msgsz)) by lia. }
  destruct Hr2 as (Hacc2 & Hlt & Hbt & Hat2). set (text := buffer_read _ _ _ _) in *. fold id. unfold get_queue.
  destruct (queues (msg_man ns) !! id) as [q|] eqn:Hq; last first.
  { refused; [done|]. left. split; [done|]. by right; left. }
  destruct (ipc_write_check _ _ _) eqn:Hw; cbn [negb]; last first.
  { refused; [done|]. right; right; left. split; [done|]. by exists q. }
  destruct (mo_queue _ Hman _ _ Hq) as [_ Hqok]. assert (get_size (MkMsg (of_le mt) text) = msgsz) as Hgs by done.
  destruct (add_ok (c_now c) q (MkMsg (of_le mt) text) (c_pid c) Hqok) as (r & q' & -> & Hq' & Hlim & Hr).
  { by split. } { rewrite Hgs. by apply Hroom. }
  step_some. rewrite Hgs in Hr. eexists _, _, _, _. split; [done|]. split; [done|]. split.
  { simpl. eapply put_queue_ok; [done|done|done|by destruct Hlim as [-> _]]. }
  split; [unfold send_cost; nia|]. destruct r as [e|[]].
  - destruct Hr as (Hfull & -> & ->). right. split; [by apply put_same|]. right; right; right. split; [done|]. by exists q.
  - destruct Hr as (Hfit & Hmsgs). left. split; [done|]. split; [done|]. split; [done|]. exists q, q', (MkMsg (of_le mt) text). split_and!; try done.
    + rewrite Hmsgs, text_bytes_app. cbn [text_bytes foldr]. rewrite Hgs. lia.
    + cbn [mtype mtext]. apply bytes_at_app. rewrite length_le. pose proof (le_of_le mt Hbm) as Hmt. replace (length mt) with 8%nat in Hmt by lia. rewrite Hmt.
      split; [|exact Hat2]. apply (bytes_at_grown l k1 ms1 k2 ms2); [exact G2|lia|lia|exact Hat1].
Qed.

(** ** Receiving *)

(** The type and the first [n] bytes of a message. *)
Definition message_bytes (m : Msg) (n : Z) : list Z := le 8 (mtype m) ++ take (Z.to_nat n) (mtext m).

(** Storing a message at the address of the caller. *)
Lemma deliver_ok k ms l msgp m n : good k (ms :: l) → msg_ok m → 0 ≤ n ≤ get_size m → user_range msgp (8 + n) →
  all_plain ms true msgp (msgp + (8 + n)) → send_cost msgp n ≤ mm_free (k_w k) →
  ∃ ok k1 ms1, try_translated_write F strampoline k ms msgp (le 8 (mtype m)) = Some (ok, k1, ms1) ∧
    (ok = false ∧ ¬ all_accessible ms true msgp (msgp + (8 + n)) ∧ stored l msgp (msgp + (8 + n)) k ms k1 ms1 ∨
     ok = true ∧ n = 0 ∧ stored l msgp (msgp + (8 + n)) k ms k1 ms1 ∧ bytes_at k1 ms1 msgp (message_bytes m n) ∨
     ok = true ∧ 0 < n ∧ ∃ b k2 ms2, translated_user_buffer_mut F strampoline k1 ms1 (msgp + 8) n = Some (b, k2, ms2) ∧
       match b with
       | Some b => let k3 := with_w (buffer_write (k_w k2) b 0 (take (Z.to_nat n) (mtext m))) k2 in
           stored l msgp (msgp + (8 + n)) k ms k3 ms2 ∧ bytes_at k3 ms2 msgp (message_bytes m n)
       | None => ¬ all_accessible ms true msgp (msgp + (8 + n)) ∧ stored l msgp (msgp + (8 + n)) k ms k2 ms2
       end).
Proof.
  intros Hg [Hty Htext] Hn (H0 & _ & Htop) Hpl Hfree. unfold send_cost in Hfree. unfold get_size in Hn.
  assert (0 < page_cost) as Hpc by (unfold page_cost, READ_AHEAD_PAGES; lia). pose proof (range_pages_split msgp 8 n) as Hsplit.
  pose proof (range_cost msgp 8 ltac:(lia)) as Hc1. pose proof (range_pages_mono msgp 8 (8 + n) ltac:(lia)) as Hmono.
  destruct (write_ok F strampoline k ms l msgp (le 8 (mtype m)) (le_bytes _ _) Hg) as (ok & k1 & ms1 & He & Hst & Hf1 & Hok & Hb).
  { rewrite length_le. unfold user_range. lia. } { rewrite length_le. eapply all_plain_sub; [..|done]; lia. } { rewrite length_le. change (Z.of_nat 8) with 8. nia. }
  rewrite length_le in Hst, Hf1, Hok. change (Z.of_nat 8) with 8 in *. exists ok, k1, ms1. split; [done|].
  assert (stored l msgp (msgp + (8 + n)) k ms k1 ms1) as Hst1 by (eapply stored_widen; [..|done]; lia).
  destruct ok; last first.
  { left. split_and!; [done| |done]. rewrite (all_accessible_split _ _ _ (msgp + 8)) by lia. rewrite <-Hok. by intros [? _]. }
  right. specialize (Hb eq_refl). destruct (decide (n = 0)) as [->|Hne].
  { left. split_and!; [done|done|done|]. unfold message_bytes. by rewrite take_0, app_nil_r. }
  right. split_and!; [done|lia|]. set (text := take (Z.to_nat n) (mtext m)).
  assert (Z.of_nat (length text) = n) as Hlt by (unfold text; rewrite length_take; lia).
  destruct (buffer_write_ok F strampoline k1 ms1 l (msgp + 8) text) as (b & k2 & ms2 & He2 & Hb2).
  { by apply Forall_take. } { apply Hst. } { rewrite Hlt. unfold user_range. lia. }
  { eapply all_plain_stored; [done|]. rewrite Hlt. eapply all_plain_sub; [..|done]; lia. } { rewrite Hlt. nia. }
  rewrite Hlt in *. replace (msgp + 8 + n) with (msgp + (8 + n)) in * by lia. exists b, k2, ms2. split; [done|]. destruct b as [b|].
  - destruct Hb2 as (_ & Hst2 & _ & Hat). cbn zeta. split.
    + eapply stored_trans; [exact Hst1|]. eapply stored_widen; [..|exact Hst2]; lia.
    + apply bytes_at_app. rewrite length_le. split; [|done]. eapply bytes_at_stored; [exact Hst2|lia|rewrite length_le; lia|rewrite length_le; lia|done].
  - destruct Hb2 as (Hno & G & _). split; [|eapply stored_trans; [exact Hst1|by apply grown_stored]].
    rewrite (all_accessible_split _ _ _ (msgp + 8)) by lia. intros [_ Ha]. apply Hno. by apply (all_accessible_stored _ _ _ _ _ _ _ _ _ _ Hst1).
Qed.

(** The end of [sys_msgrcv], when the message has left the queue. *)
Definition deliver ns k ms msgp (m : Msg) (n : Z) : option (Z * IPCNamespace * kmm W_ * MemorySet) :=
  '(ok, k, ms) ← try_translated_write F strampoline k ms msgp (le 8 (mtype m));
  if negb ok then Some (as_isize EFAULT, ns, k, ms)
  else if 0 <? n then
    msgtptr ← checked_add msgp 8;
    '(b, k, ms) ← translated_user_buffer_mut F strampoline k ms msgtptr n;
    match b with
    | None => Some (as_isize EFAULT, ns, k, ms)
    | Some b => Some (n, ns, with_w (buffer_write (k_w k) b 0 (take (Z.to_nat n) (mtext m))) k, ms)
    end
  else Some (n, ns, k, ms).

Lemma sys_msgrcv_eq c ns k ms msqid msgp msgsz msgtyp msgflg :
  sys_msgrcv F strampoline c ns k ms msqid msgp msgsz msgtyp msgflg =
    match queues (msg_man ns) !! to_u32 msqid with
    | None => Some (as_isize EINVAL, ns, k, ms)
    | Some q =>
      if negb (ipc_read_check (msg_perm (msqds q)) (c_uid c) (c_gid c)) then Some (as_isize EACCES, ns, k, ms)
      else
        '(r, q) ← get (c_now c) q msgtyp msgsz (msg_flags_from msgflg) (c_pid c);
        match r with
        | inl e => Some (as_isize e, with_msg (put_queue (msg_man ns) (to_u32 msqid) q) ns, k, ms)
        | inr m => deliver (with_msg (put_queue (msg_man ns) (to_u32 msqid) q) ns) k ms msgp m (Z.min msgsz (get_size m))
        end
    end.
Proof. reflexivity. Qed.

Lemma deliver_run ns k ms l msgp m n : good k (ms :: l) → msg_ok m → 0 ≤ n ≤ get_size m → user_range msgp (8 + n) →
  all_plain ms true msgp (msgp + (8 + n)) → send_cost msgp n ≤ mm_free (k_w k) →
  ∃ r k' ms', deliver ns k ms msgp m n = Some (r, ns, k', ms') ∧ stored l msgp (msgp + (8 + n)) k ms k' ms' ∧
    (r = n ∧ bytes_at k' ms' msgp (message_bytes m n) ∨ r = as_isize EFAULT ∧ ¬ all_accessible ms true msgp (msgp + (8 + n))).
Proof.
  intros Hg Hm Hn Hr Hpl Hfree. destruct (deliver_ok k ms l msgp m n Hg Hm Hn Hr Hpl Hfree) as (ok & k1 & ms1 & He & Hd).
  unfold deliver. rewrite He. step_some. destruct Hd as [(-> & Hno & Hst)|[(-> & -> & Hst & Hb)|(-> & Hpos & b & k2 & ms2 & He2 & Hd)]]; cbn [negb].
  - eexists _, _, _. split; [reflexivity|]. split; [done|]. by right.
  - eexists _, _, _. split; [reflexivity|]. split; [done|]. by left.
  - rewrite (proj2 (Z.ltb_lt 0 n)) by lia. destruct Hr as (H0 & _ & Htop). rewrite checked_add_Some by (unfold user_top, PAGE_SIZE, USIZE_MAX in *; lia). step_some.
    rewrite He2. step_some. destruct b as [b|]; destruct Hd as [H1 H2]; eexists _, _, _; (split; [reflexivity|]).
    + split; [done|]. by left.
    + split; [done|]. by right.
Qed.

Lemma msgrcv_ok c ns k ms l msqid msgp msgsz msgtyp msgflg : let id := to_u32 msqid in let flags := msg_flags_from msgflg in
  man_ok (msg_man ns) → good k (ms :: l) → 0 ≤ msgsz → user_range msgp (8 + msgsz) → all_plain ms true msgp (msgp + (8 + msgsz)) →
  send_cost msgp msgsz ≤ mm_free (k_w k) → - 2 ^ 63 < msgtyp →
  ∃ r ns' k' ms', sys_msgrcv F strampoline c ns k ms msqid msgp msgsz msgtyp msgflg = Some (r, ns', k', ms') ∧ man_ok (msg_man ns') ∧ shm_man ns' = shm_man ns ∧
    (queues (msg_man ns') = queues (msg_man ns) ∧ k' = k ∧ ms' = ms ∧
       (r = as_isize EINVAL ∧ (queues (msg_man ns) !! id = None ∨ mode_contains flags MSG_COPY = true)
        ∨ (∃ q, queues (msg_man ns) !! id = Some q ∧
            (r = as_isize EACCES ∧ ipc_read_check (msg_perm (msqds q)) (c_uid c) (c_gid c) = false
             ∨ r = as_isize ENOMSG ∧ Forall (λ m, eligible msgtyp flags m = false) (msgs q)
             ∨ r = as_isize E2BIG ∧ mode_contains flags MSG_NOERROR = false ∧ ∃ i m, chosen msgtyp flags (msgs q) i m ∧ msgsz < get_size m)))
     ∨ (∃ q q' m i, queues (msg_man ns) !! id = Some q ∧ ipc_read_check (msg_perm (msqds q)) (c_uid c) (c_gid c) = true ∧
       chosen msgtyp flags (msgs q) i m ∧ (get_size m ≤ msgsz ∨ mode_contains flags MSG_NOERROR = true) ∧
       queues (msg_man ns') = <[id := q']> (queues (msg_man ns)) ∧ msgs q' = delete i (msgs q) ∧ same_limits q q' ∧
       let n := Z.min msgsz (get_size m) in stored l msgp (msgp + (8 + n)) k ms k' ms' ∧
       (r = n ∧ bytes_at k' ms' msgp (message_bytes m n) ∨ r = as_isize EFAULT ∧ ¬ all_accessible ms true msgp (msgp + (8 + n))))).
Proof.
  intros id flags Hman Hg Hsz Hr Hpl Hfree Ht. rewrite sys_msgrcv_eq. fold id flags.
  destruct (queues (msg_man ns) !! id) as [q|] eqn:Hq; last first.
  { eexists _, _, _, _. split; [reflexivity|]. split_and!; [done|done|]. left. split_and!; [done..|]. left. split; [done|by left]. }
  destruct (ipc_read_check _ _ _) eqn:Hc; cbn [negb]; last first.
  { eexists _, _, _, _. split; [reflexivity|]. split_and!; [done|done|]. left. split_and!; [done..|]. right. exists q. split; [done|by left]. }
  destruct (mo_queue _ Hman _ _ Hq) as [_ Hqok].
  destruct (get_ok (c_now c) q msgtyp msgsz flags (c_pid c) Hqok) as (r & q' & -> & Hq' & Hlim & Hres); [left; lia|]. step_some.
  assert (man_ok (put_queue (msg_man ns) id q')) as Hman' by (eapply put_queue_ok; [done|done|done|by destruct Hlim as [-> _]]).
  destruct r as [e|m].
  { destruct Hres as (-> & Hres). eexists _, _, _, _. split; [reflexivity|]. split_and!; [done|done|]. left. split_and!; [by apply (put_same ns id q)|done|done|].
    destruct Hres as [(-> & Hcp)|[(-> & Hno)|(-> & Hne & Hbig)]]; [left; split; [done|by right]|right; exists q; split; [done|]..].
    - right; by left.
    - right; right. done. }
  destruct Hres as (_ & Hfits & i & Hch & Hmsgs). assert (msg_ok m) as Hm.
  { pose proof (qo_msgs _ Hqok) as Hall. rewrite Forall_lookup in Hall. by apply (Hall i), Hch. }
  set (n := Z.min msgsz (get_size m)). assert (0 ≤ n ≤ get_size m ∧ n ≤ msgsz) as [Hn Hn2] by (unfold n, get_size; lia). destruct Hr as (H0 & H8 & Htop).
  destruct (deliver_run (with_msg (put_queue (msg_man ns) id q') ns) k ms l msgp m n Hg Hm Hn) as (r & k' & ms' & He & Hst & Hd).
  { unfold user_range. lia. } { eapply all_plain_sub; [..|done]; lia. }
  { etransitivity; [|exact Hfree]. unfold send_cost. apply Z.mul_le_mono_nonneg_r; [unfold page_cost, READ_AHEAD_PAGES; lia|].
    pose proof (range_pages_mono msgp (8 + n) (8 + msgsz) ltac:(lia)). lia. }
  rewrite He. eexists r, _, k', ms'. split; [reflexivity|]. split_and!; [done|done|]. right. exists q, q', m, i. by split_and!.
Qed.

(** ** From sender to receiver *)

(** A send that nothing refuses. *)
Lemma msgsnd_accepts c ns k ms l msqid msgp msgsz ty q : let id := to_u32 msqid in
  man_ok (msg_man ns) → good k (ms :: l) → queues (msg_man ns) !! id = Some q → ipc_write_check (msg_perm (msqds q)) (c_uid c) (c_gid c) = true →
  0 < ty < 2 ^ 63 → bytes_at k ms msgp (le 8 ty) → 0 ≤ msgsz ≤ 0x7FFFFFFF → text_bytes (msgs q) + msgsz ≤ msg_qbytes (msqds q) → text_bytes (msgs q) + msgsz ≤ USIZE_MAX →
  user_range msgp (8 + msgsz) → all_plain ms false msgp (msgp + (8 + msgsz)) → all_accessible ms false msgp (msgp + (8 + msgsz)) →
  send_cost msgp msgsz ≤ mm_free (k_w k) →
  ∃ ns' k' ms' q' text, sys_msgsnd F strampoline c ns k ms msqid msgp msgsz = Some (0, ns', k', ms') ∧ grown l k ms k' ms' ∧ man_ok (msg_man ns') ∧
    mm_free (k_w k) ≤ mm_free (k_w k') + send_cost msgp msgsz ∧ queues (msg_man ns') = <[id := q']> (queues (msg_man ns)) ∧
    msgs q' = msgs q ++ [MkMsg ty text] ∧ same_limits q q' ∧ Z.of_nat (length text) = msgsz ∧ bytes_at k' ms' (msgp + 8) text.
Proof.
  intros id Hman Hg Hq Hw Hty Hb Hsz Hqb Hub Hr Hpl Hacc Hfree. pose proof Hr as (H0 & _ & Htop).
  destruct (msgsnd_ok c ns k ms l msqid msgp msgsz Hman Hg ltac:(lia) Hr Hpl Hfree) as (r & ns' & k' & ms' & He & G & Hman' & Hfr & Hres).
  { fold id. intros q0 Hq0. congruence. }
  assert (bytes_at k' ms' msgp (le 8 ty)) as Hb' by (eapply bytes_at_grown; [done|lia|rewrite length_le; lia|done]). fold id in Hres. rewrite Hq in Hres.
  destruct Hres as [(-> & _ & _ & q0 & q' & m & [= <-] & _ & Hqs & Hmsgs & Hlim & _ & Hm & Hgs & Hat)|(_ & Hbad)].
  - apply bytes_at_app in Hat as [Ht Htext]. rewrite length_le in Htext. destruct Hm as [Hmt _].
    assert (le 8 (mtype m) = le 8 ty) as Heq%le_inj by (eapply bytes_at_inj; [by rewrite !length_le|done..]); [|lia..].
    exists ns', k', ms', q', (mtext m). destruct m as [t x]. simpl in Heq. subst t. by split_and!.
  - exfalso. destruct Hbad as [(_ & [Hbig|[Hno|(m & Hlm & Hm & Hneg)]])|[(_ & Hno)|[(_ & q0 & [= <-] & Hno)|(_ & q0 & [= <-] & Hfull)]]]; [lia|done| |done|congruence|lia].
    assert (m = le 8 ty) as -> by (eapply bytes_at_inj; [rewrite length_le; lia|done..]). rewrite of_le_small, isize_small in Hneg by lia. lia.
Qed.
End ipc.
