(* ===== verification/IpcProps.v ===== *)
(** * Properties of System V IPC

    The theorems about message queues and shared memory, and runs that show what the
    calls do where they differ from their description. *)

From S2P Require Import Prelude Bytes Errno Address FrameAllocator PageTable Mm IdAlloc Auth MsgQueue BTree MapArea MemSet Space SpaceUnmap SpaceFault SpaceSys SpaceProps UserCopy SpaceCopy CopyProps Ipc IpcCopy.

Local Open Scope Z_scope.

Module IpcProps.

(** C33 Messages are neither lost nor made up, and those of one type leave the queue in
    the order they were sent in, whatever the senders and receivers do: with the
    first message, the first of a type, the first not of a type, or the smallest
    type up to a limit, refused sends and receives included.  The counters of the
    descriptor agree with the queue throughout. *)
Theorem message_types_fifo ops q : queue_ok q → Forall queue_op_ok ops → text_bytes (msgs q) + ops_bytes ops ≤ USIZE_MAX →
  ∃ q' sent received, run_queue ops q = Some (q', sent, received) ∧ queue_ok q' ∧
    msgs q ++ sent ≡ₚ received ++ msgs q' ∧ ∀ ty, of_type ty (msgs q ++ sent) = of_type ty received ++ of_type ty (msgs q').
Proof.
  intros Hq Ho Hb. destruct (run_queue_ok ops q Hq Ho Hb) as (q' & sent & received & He & Hq' & _ & Hp & Hf). by exists q', sent, received.
Qed.

(** C37 [msgget] in every case of key and flags: a private key, or one that no queue has with
    [IPC_CREAT], makes an empty queue of the caller under an identifier that no queue has,
    or fails at the limit of queues and only there; a key that a queue has leads to that
    queue, or fails with [EEXIST] when exclusive creation is asked for; a key that no
    queue has fails without [IPC_CREAT].  Every key other than zero still leads to one
    queue at most.  The counter of identifiers has not wrapped. *)
Theorem msgget_exact now man key flags mode uid gid : man_ok man → current (id_allocator man) < USIZE_MAX → 0 ≤ key < 2 ^ 32 →
  ∃ r man', msgget now man key flags mode uid gid = Some (r, man') ∧ man_ok man' ∧
    (key ≠ 0 ∧ has_key man key ∧ mode_contains flags IPC_CREAT && mode_contains flags IPC_EXCL = true ∧ r = as_isize EEXIST ∧ man' = man ∨
     key ≠ 0 ∧ mode_contains flags IPC_CREAT && mode_contains flags IPC_EXCL = false ∧ (∃ q, queues man !! r = Some q ∧ key_of q = key) ∧ man' = man ∨
     key ≠ 0 ∧ ¬ has_key man key ∧ mode_contains flags IPC_CREAT = false ∧ r = as_isize ENOENT ∧ man' = man ∨
     (key = 0 ∨ ¬ has_key man key ∧ mode_contains flags IPC_CREAT = true) ∧ made_queue man key mode uid gid r man').
Proof. apply msgget_ok. Qed.

(** The descriptor of a queue survives its layout in memory, padding whatever it is. *)
Theorem msqid_roundtrip pad d : length pad = 4%nat → msqid_fits d →
  msqid_of_bytes (msqid_bytes pad d) = d ∧ Z.of_nat (length (msqid_bytes pad d)) = msqid_size.
Proof. intros Hp Hd. split; [by apply msqid_roundtrip_fields|by apply length_msqid_bytes]. Qed.

Section props.
Context {W_ : Type} `{!Mm W_} (F : FileOps W_) (strampoline : Z).
Implicit Types (k : kmm W_) (ms : MemorySet) (l : list MemorySet) (ns : IPCNamespace).

(** The receiver asks for the first message of an empty queue, or for a type that no
    message in the queue has. *)
Definition asks_for (q : MsgQueue) (msgtyp msgflg ty : Z) : Prop :=
  msgtyp = 0 ∧ msgs q = [] ∨ msgtyp = ty ∧ mode_contains (msg_flags_from msgflg) MSG_EXCEPT = false ∧ Forall (λ m, mtype m ≠ ty) (msgs q).

Lemma asks_for_sent q msgtyp msgflg ty text : 0 < ty → asks_for q msgtyp msgflg ty →
  eligible msgtyp (msg_flags_from msgflg) (MkMsg ty text) = true ∧
  ∀ i m, chosen msgtyp (msg_flags_from msgflg) (msgs q ++ [MkMsg ty text]) i m → i = length (msgs q) ∧ m = MkMsg ty text.
Proof.
  intros Hty [[-> Hnil]|(-> & Hex & Hno)].
  - split; [done|]. intros i m (Hi & _). rewrite Hnil in Hi |- *. destruct i as [|[|i]]; simpl in Hi; [|done|done]. by injection Hi as <-.
  - unfold chosen, eligible. rewrite (proj2 (Z.eqb_neq ty 0)), (proj2 (Z.ltb_lt 0 ty)), Hex by lia. split; [by apply Z.eqb_refl|].
    intros i m (Hi & He%Z.eqb_eq & _). apply lookup_app_Some in Hi as [Hi|[Hlen Hi]].
    + by apply (Forall_lookup_1 _ _ _ _ Hno) in Hi.
    + apply list_lookup_singleton_Some in Hi as [Hi <-]. split; [lia|done].
Qed.


(** The mode of a segment does not protect its identifier: the bits that ask for
    access are cleared before they are looked at. *)
Theorem shmget_ignores_mode c ns key size flags file shm : key ≠ 0 → get_shm_by_key (shm_man ns) key = Some shm →
  Z.testbit flags 9 && Z.testbit flags 10 = false → sys_shmget c ns key size flags file = Some (shm_id shm, ns).
Proof.
  intros Hk Hs Hf. unfold sys_shmget. rewrite (proj2 (Z.eqb_neq key 0)) by done. rewrite Hs.
  assert (∀ i, 0 ≤ i → mode_contains (shm_flags_from (Z.land flags (Z.lnot 0x1ff))) (2 ^ i) = Z.testbit flags i && negb (Z.testbit 0x1ff i) && Z.testbit 0xf80 i) as Hbit.
  { intros i Hi. rewrite mode_contains_bit by done. unfold shm_flags_from. rewrite !Z.land_spec, Z.lnot_spec by done. done. }
  pose proof (Hbit 9 ltac:(lia)) as H9. pose proof (Hbit 10 ltac:(lia)) as H10. pose proof (Hbit 8 ltac:(lia)) as H8. pose proof (Hbit 7 ltac:(lia)) as H7.
  change (2 ^ 9) with IPC_CREAT in H9. change (2 ^ 10) with IPC_EXCL in H10. change (2 ^ 8) with SHM_RD in H8. change (2 ^ 7) with SHM_WR in H7.
  rewrite H9, H10, H8, H7. change (Z.testbit 0x1ff 8) with true. change (Z.testbit 0x1ff 7) with true. change (Z.testbit 0x1ff 9) with false. change (Z.testbit 0x1ff 10) with false.
  change (Z.testbit 0xf80 9) with true. change (Z.testbit 0xf80 10) with true. cbn [negb]. rewrite !andb_true_r, !andb_false_r. cbn [andb]. rewrite (andb_comm (Z.testbit flags 10)), Hf. done.
Qed.
End props.

(** ** Runs *)

Lemma default_eq {A} (d : A) (x : option A) : (if x is Some _ then true else false) = true → x = Some (default d x).
Proof. by destruct x. Qed.

Definition root : caller := MkCaller 0 0 1 0.

(** Two segments of three pages. *)
Definition demo_ns : IPCNamespace :=
  default namespace_new (
    '(_, ns) ← sys_shmget root namespace_new 0 0x3000 0x380 8;
    '(_, ns) ← sys_shmget root ns 0 0x3000 0x380 9;
    Some ns).

Abbreviation call_result := (Z * IPCNamespace * kmm world * MemorySet)%type (only parsing).

Definition demo_call (k : kmm world) (ms : MemorySet) (r : option call_result) : call_result := default (0, demo_ns, k, ms) r.

(** The first segment attached and detached by one process. *)
Definition demo_attach : call_result :=
  demo_call demo_resident.1 demo_resident.2 (sys_shmat demo_files root demo_ns demo_resident.1 demo_resident.2 0 0x30000000 0).

Definition demo_detach : call_result :=
  demo_call demo_resident.1 demo_resident.2 (sys_shmdt demo_files demo_attach.1.1.2 demo_attach.1.2 demo_attach.2 0x30000000).

(** [shmdt] unmaps the first page of the segment only: the call reports success, the
    segment counts no attachment any more, and the rest stays mapped. *)
Theorem shmdt_unmaps_one_page :
  sys_shmat demo_files root demo_ns demo_resident.1 demo_resident.2 0 0x30000000 0 = Some demo_attach ∧ demo_attach.1.1.1 = 0x30000000 ∧
  sys_shmdt demo_files demo_attach.1.1.2 demo_attach.1.2 demo_attach.2 0x30000000 = Some demo_detach ∧ demo_detach.1.1.1 = 0 ∧
  (shm_nattch ∘ stat) <$> shms (shm_man demo_detach.1.1.2) !! 0 = Some 0 ∧ attachments (shm_man demo_detach.1.1.2) !! 0x30000000 = None ∧
  page_at (areas demo_detach.2) 0x30000 = None ∧
  pg_shared <$> page_at (areas demo_detach.2) 0x30001 = Some true ∧ pg_shared <$> page_at (areas demo_detach.2) 0x30002 = Some true.
Proof.
  split; [apply default_eq; vm_compute; reflexivity|]. split; [vm_compute; reflexivity|].
  split; [apply default_eq; vm_compute; reflexivity|]. repeat (split; [vm_compute; reflexivity|]). vm_compute; reflexivity.
Qed.

(** Parent and child attach different segments at the same address. *)
Definition demo_parent_at : call_result :=
  demo_call demo_fork.1 demo_resident.2 (sys_shmat demo_files root demo_ns demo_fork.1 demo_resident.2 0 0x30000000 0).

Definition demo_child_at : call_result :=
  demo_call demo_fork.1 demo_fork.2 (sys_shmat demo_files root demo_parent_at.1.1.2 demo_parent_at.1.2 demo_fork.2 1 0x30000000 0).

Definition demo_parent_dt : call_result :=
  demo_call demo_fork.1 demo_resident.2 (sys_shmdt demo_files demo_child_at.1.1.2 demo_child_at.1.2 demo_parent_at.2 0x30000000).

(** The table of attachments knows addresses but not processes: the second [shmat]
    replaces the entry of the first, the [shmdt] of the first process takes the count
    of the other segment down, and the second process cannot detach any more. *)
Theorem shm_attachments_confused :
  demo_parent_at.1.1.1 = 0x30000000 ∧ demo_child_at.1.1.1 = 0x30000000 ∧
  (shm_nattch ∘ stat) <$> shms (shm_man demo_child_at.1.1.2) !! 0 = Some 1 ∧ (shm_nattch ∘ stat) <$> shms (shm_man demo_child_at.1.1.2) !! 1 = Some 1 ∧
  demo_parent_dt.1.1.1 = 0 ∧
  (shm_nattch ∘ stat) <$> shms (shm_man demo_parent_dt.1.1.2) !! 0 = Some 1 ∧ (shm_nattch ∘ stat) <$> shms (shm_man demo_parent_dt.1.1.2) !! 1 = Some 0 ∧
  (λ r : call_result, r.1.1.1) <$> sys_shmdt demo_files demo_parent_dt.1.1.2 demo_parent_dt.1.2 demo_child_at.2 0x30000000 = Some (as_isize EINVAL).
Proof. repeat (split; [vm_compute; reflexivity|]). vm_compute; reflexivity. Qed.

(** ** Witnesses *)

Lemma message_types_fifo_witness : ∃ q' sent received,
  run_queue [OpSend 0 (MkMsg 2 [7]) 1; OpSend 0 (MkMsg 1 [8]) 1; OpSend 0 (MkMsg 2 [9]) 1; OpReceive 0 (-2) 10 0 1; OpReceive 0 2 10 0 1] queue_new = Some (q', sent, received) ∧
  of_type 2 received ++ of_type 2 (msgs q') = [MkMsg 2 [7]; MkMsg 2 [9]].
Proof.
  destruct (message_types_fifo [OpSend 0 (MkMsg 2 [7]) 1; OpSend 0 (MkMsg 1 [8]) 1; OpSend 0 (MkMsg 2 [9]) 1; OpReceive 0 (-2) 10 0 1; OpReceive 0 2 10 0 1] queue_new)
    as (q' & sent & received & He & _ & _ & Hf).
  - split; [done|done|by vm_compute|constructor].
  - repeat constructor; simpl; lia.
  - by vm_compute.
  - exists q', sent, received. split; [done|]. rewrite <-Hf. vm_compute in He. injection He as <- <- <-. done.
Defined.

Lemma msgget_exact_witness : ∃ r man', msgget 0 msg_manager_new 5 IPC_CREAT 0x180 0 0 = Some (r, man') ∧ man_ok man'.
Proof.
  destruct (msgget_exact 0 msg_manager_new 5 IPC_CREAT 0x180 0 0) as (r & man' & He & Hok & _); [apply msg_manager_new_ok|by vm_compute|lia|].
  by exists r, man'.
Defined.

Lemma msqid_roundtrip_witness : msqid_of_bytes (msqid_bytes [0; 0; 0; 0] msqid_default) = msqid_default.
Proof.
  apply (msqid_roundtrip [0; 0; 0; 0] msqid_default); [done|]. split; [split|..]; repeat constructor; vm_compute; congruence.
Defined.

(** A parent and its child, and a queue that anybody with the key may use. *)
Lemma demo_fork_good : good demo_fork.1 [demo_resident.2; demo_fork.2].
Proof.
  destruct SpaceProps.demo_resident_room as (Hid & Hst & Hfree & _).
  destruct CopyProps.demo_good as [Hok Hi].
  pose proof (do_op_keeps demo_files (OFork strampoline) demo_resident.1 demo_resident.2 [] Hok (conj Hid (conj Hst Hfree))) as Hw.
  revert Hw. generalize demo_fork_eq. generalize demo_fork. intros [kf child] He Hw. unfold do_op in Hw. rewrite He in Hw.
  destruct Hw as [Hw1 Hw2]. split; [exact Hw1|exact (Hw2 I Hi)].
Qed.

Lemma demo_fork_pages v : 16 ≤ v ≤ 18 → (λ p, (pg_type p, pg_shared p)) <$> page_at (areas demo_fork.2) v = Some (Framed, false).
Proof. intros Hv. assert (v = 16 ∨ v = 17 ∨ v = 18) as [->|[->| ->]] by lia; vm_compute; reflexivity. Qed.

Lemma demo_rights v ms : ms = demo_resident.2 ∨ ms = demo_fork.2 → 16 ≤ v ≤ 18 →
  (λ p, (pg_type p, area_allows_user_access (pg_perm p) false, area_allows_user_access (pg_perm p) true)) <$> page_at (areas ms) v = Some (Framed, true, true).
Proof. intros [-> | ->] Hv; assert (v = 16 ∨ v = 17 ∨ v = 18) as [->|[->| ->]] by lia; vm_compute; reflexivity. Qed.

Lemma demo_addr_page a : 0x10000 ≤ a < 0x13000 → 16 ≤ a / PAGE_SIZE ≤ 18.
Proof. intros Ha. unfold PAGE_SIZE. split; [apply Z.div_le_lower_bound; lia|apply Z.lt_succ_r, Z.div_lt_upper_bound; lia]. Qed.

Lemma demo_fork_plain write lo hi : 0x10000 ≤ lo → hi ≤ 0x13000 → all_plain demo_fork.2 write lo hi.
Proof.
  intros Hlo Hhi a Ha p Hp. pose proof (demo_fork_pages _ (demo_addr_page a ltac:(lia))) as Hd. rewrite Hp in Hd. injection Hd as Ht Hs. split; [intros _; by left|done].
Qed.

Lemma demo_accessible ms write lo hi : ms = demo_resident.2 ∨ ms = demo_fork.2 → 0x10000 ≤ lo → hi ≤ 0x13000 → all_accessible ms write lo hi.
Proof.
  intros Hms Hlo Hhi a Ha. pose proof (demo_rights _ _ Hms (demo_addr_page a ltac:(lia))) as Hd. destruct (page_at (areas ms) (a / PAGE_SIZE)) as [p|] eqn:Hp; [|discriminate Hd].
  injection Hd as Ht Hr Hw. exists p. split_and!; [done|by rewrite Ht|by destruct write].
Qed.

Definition demo_queue : IPCNamespace := default namespace_new ('(_, man) ← msgget 0 msg_manager_new 5 IPC_CREAT 0x1b6 0 0; Some (MkNs man shm_manager_new)).

Lemma demo_queue_ok : man_ok (msg_man demo_queue).
Proof.
  unfold demo_queue. destruct (msgget_ok 0 msg_manager_new 5 IPC_CREAT 0x1b6 0 0 msg_manager_new_ok) as (r & man & -> & Hok & _); [by vm_compute|lia|exact Hok].
Qed.

Lemma demo_costs : 2 * page_cost + (send_cost 0x10ffc 4 + send_cost 0x11ffa 4) ≤ mm_free (k_w demo_fork.1).
Proof. vm_compute. congruence. Qed.


Lemma shmget_ignores_mode_witness : sys_shmget (MkCaller 7 7 2 0) (MkNs msg_manager_new (MkShmMan (MkRecycle 1 []) {[0 := shm_new 0 0x1000 5 0 1 0 0 8]} ∅)) 5 0 0x1b6 9 =
  Some (0, MkNs msg_manager_new (MkShmMan (MkRecycle 1 []) {[0 := shm_new 0 0x1000 5 0 1 0 0 8]} ∅)).
Proof.
  apply (shmget_ignores_mode (MkCaller 7 7 2 0) (MkNs msg_manager_new (MkShmMan (MkRecycle 1 []) {[0 := shm_new 0 0x1000 5 0 1 0 0 8]} ∅)) 5 0 0x1b6 9 (shm_new 0 0x1000 5 0 1 0 0 8)).
  - lia.
  - vm_compute. reflexivity.
  - reflexivity.
Defined.
End IpcProps.
