(* ===== verification/MmCall.v ===== *)
(** * Memory system calls (os/src/syscall/mm.rs, and the memory calls of
      os/src/syscall/process.rs)

    The checks of the arguments in front of the operations on the address space, and
    the ways of [mremap].  The file table of the task is a list, and what a file
    allows is a parameter. *)

From S2P Require Import Prelude Errno Address PageTable Mm BTree MapArea MemSet UserCopy.

Local Open Scope Z_scope.

(** [MMapFlags::all] and [MMapProt::all] *)
Definition MAP_ALL : Z := 0x1ff933.

Definition MAP_SHARED_VALIDATE : Z := 0x03.

Definition MAP_PRIVATE : Z := 0x02.

Definition MAP_LOCKED : Z := 0x2000.

Definition PROT_ALL : Z := 7.

Definition MREMAP_MAYMOVE : Z := 1.

Definition MREMAP_FIXED : Z := 2.

Section mm_calls.
Context {W_ : Type} `{!Mm W_} (F : FileOps W_) (strampoline : Z) (readable writable : nat → bool).
Implicit Types (k : kmm W_) (ms : MemorySet).

(** [fds]: the files of the task; [locked_bytes] is a counter of the task. *)
Definition sys_mmap k ms (fds : list (option nat)) (locked_bytes start len port flags fd off : Z) : option (Z * Z * kmm W_ * MemorySet) :=
  let ret e := Some (as_isize e, locked_bytes, k, ms) in
  if (Z.land flags MAP_SHARED_VALIDATE =? MAP_SHARED_VALIDATE) && negb (Z.land flags (Z.lnot MAP_ALL) =? 0) then ret EOPNOTSUPP
  else
    let mmap_flags := Z.land flags MAP_ALL in
    let is_anonymous := flags_contain mmap_flags MAP_ANONYMOUS in
    let is_shared := flags_contain mmap_flags MAP_SHARED in
    if mmap_flags =? 0 then ret EINVAL
    else
      let mmap_prot := Z.land port PROT_ALL in
      let write := flags_contain mmap_prot PROT_WRITE in
      let file_inner :=
        if is_anonymous then Some None
        else if fd <? 0 then None
        else match fds !! Z.to_nat fd with Some (Some file) => Some (Some file) | _ => None end in
      match file_inner with
      | None => ret EBADF
      | Some file_inner =>
        e ← checked_add start len;
        if (USER_APP_MAX_SIZE <=? e) || negb (start mod PAGE_SIZE =? 0) then ret EINVAL
        else if negb (off mod PAGE_SIZE =? 0) then ret EINVAL
        else if len =? 0 then ret EINVAL
        else if from_option (λ file, negb (readable file)) false file_inner then ret EACCES
        else if from_option (λ file, is_shared && write && negb (writable file)) false file_inner then ret EACCES
        else
          '(r, k, ms) ← mmap F k ms start len mmap_prot mmap_flags file_inner off;
          match r with
          | inl e => Some (as_isize e, locked_bytes, k, ms)
          | inr addr =>
            Some (addr, if flags_contain mmap_flags MAP_LOCKED then saturating_add locked_bytes len else locked_bytes, k, ms)
          end
      end.

Definition sys_munmap k ms (start len : Z) : option (Z * kmm W_ * MemorySet) :=
  e ← checked_add start len;
  if (USER_APP_MAX_SIZE <=? e) || negb (start mod PAGE_SIZE =? 0) || (len =? 0) then Some (as_isize EINVAL, k, ms)
  else '(k, ms) ← munmap F k ms start len; Some (0, k, ms).

(** The size in whole pages. *)
Definition round_size (size : Z) : option Z :=
  s ← checked_add size (PAGE_SIZE - 1); Some (Z.land s (usize_not (PAGE_SIZE - 1))).

(** The last way of [sys_mremap]: a new private mapping, a copy, and the old mapping
    goes. *)
Definition mremap_copy k ms (old_addr old_sz new_sz : Z) : option (Z * kmm W_ * MemorySet) :=
  '(r, k, ms) ← mmap F k ms 0 new_sz (Z.lor PROT_READ PROT_WRITE) (Z.lor MAP_PRIVATE MAP_ANONYMOUS) None 0;
  match r with
  | inl e => Some (as_isize e, k, ms)
  | inr new_addr =>
    let undo k ms := '(k, ms) ← munmap F k ms new_addr new_sz; Some (as_isize EFAULT, k, ms) in
    '(src, k, ms) ← translated_user_buffer F strampoline k ms old_addr old_sz;
    match src with
    | None => undo k ms
    | Some src =>
      '(dst, k, ms) ← translated_user_buffer_mut F strampoline k ms new_addr old_sz;
      match dst with
      | None => undo k ms
      | Some dst =>
        '(copied, w) ← read_into_buffer (k_w k) src dst;
        let k := with_w w k in
        if negb (copied =? old_sz) then undo k ms
        else '(k, ms) ← munmap F k ms old_addr old_sz; Some (new_addr, k, ms)
      end
    end
  end.

Definition sys_mremap k ms (old_addr old_size new_size flags : Z) : option (Z * kmm W_ * MemorySet) :=
  if negb (old_addr mod PAGE_SIZE =? 0) || (old_size =? 0) || (new_size =? 0) ||
     from_option (λ e, USER_APP_MAX_SIZE <=? e) true (checked_add old_addr old_size) ||
     negb (Z.land flags (usize_not (Z.lor MREMAP_MAYMOVE MREMAP_FIXED)) =? 0) then Some (as_isize EINVAL, k, ms)
  else if negb (Z.land flags MREMAP_FIXED =? 0) then Some (as_isize EINVAL, k, ms)
  else
    match round_size old_size, round_size new_size with
    | Some old_sz, Some new_sz =>
      if old_sz =? new_sz then Some (old_addr, k, ms)
      else if new_sz <? old_sz then
        a ← checked_add old_addr new_sz;
        '(k, ms) ← munmap F k ms a (old_sz - new_sz);
        Some (old_addr, k, ms)
      else
        '(r, ms) ← mremap_inplace ms old_addr old_sz new_sz;
        match r with
        | inr addr => Some (addr, k, ms)
        | inl _ =>
          if Z.land flags MREMAP_MAYMOVE =? 0 then Some (as_isize ENOMEM, k, ms)
          else
            '(r, k, ms) ← mremap_move_private_anon k ms old_addr old_sz new_sz;
            match r with
            | inr addr => Some (addr, k, ms)
            | inl e =>
              if negb (as_isize e =? as_isize EINVAL) then Some (as_isize e, k, ms)
              else mremap_copy k ms old_addr old_sz new_sz
            end
        end
    | _, _ => Some (as_isize EINVAL, k, ms)
    end.

(** The loop of [sys_mincore] over the pages: the residency bytes, or [None] for a
    page outside all areas. *)
Fixpoint residency (n : nat) k ms (page_addr : Z) : option (list Z) :=
  match n with
  | O => Some []
  | S n =>
    let vpn := VirtAddr_std_floor (VirtAddr_from page_addr) in
    if existsb (λ e : Z * MapArea, area_contains e.2 vpn) (bt_entries (areas ms)) then
      let resident := from_option is_valid false (ms_translate k ms vpn) in
      cons (if resident then 1 else 0) <$> residency n k ms (page_addr + PAGE_SIZE)
    else None
  end.

Fixpoint write_each k ms (vec : Z) (bytes : list Z) : option (bool * kmm W_ * MemorySet) :=
  match bytes with
  | [] => Some (true, k, ms)
  | b :: rest =>
    '(ok, k, ms) ← try_translated_write F strampoline k ms vec [b];
    if (ok : bool) then write_each k ms (vec + 1) rest else Some (false, k, ms)
  end.

Definition sys_mincore k ms (addr len vec : Z) : option (Z * kmm W_ * MemorySet) :=
  if negb (addr mod PAGE_SIZE =? 0) then Some (as_isize EINVAL, k, ms)
  else if len =? 0 then Some (0, k, ms)
  else
    match checked_add addr len with
    | None => Some (as_isize ENOMEM, k, ms)
    | Some e =>
      if (USER_APP_MAX_SIZE <? e) || (vec =? 0) then Some (as_isize (if vec =? 0 then EFAULT else ENOMEM), k, ms)
      else
        let page_count := saturating_add len (PAGE_SIZE - 1) / PAGE_SIZE in
        match residency (Z.to_nat page_count) k ms addr with
        | None => Some (as_isize ENOMEM, k, ms)
        | Some result =>
          '(ok, k, ms) ← write_each k ms vec result;
          Some (if (ok : bool) then 0 else as_isize EFAULT, k, ms)
        end
    end.

(** All advice is refused, known or not. *)
Definition sys_madvise (addr len advice : Z) : option Z :=
  if negb (addr mod PAGE_SIZE =? 0) || negb (len mod PAGE_SIZE =? 0) then Some (as_isize EINVAL)
  else
    e ← checked_add addr len;
    if USER_APP_MAX_SIZE <=? e then Some (as_isize EINVAL)
    else if bool_decide (advice ∈ [0; 1; 2; 3; 4; 8]) then Some (as_isize ENOSYS) else Some (as_isize EINVAL).

(** [from_bits] refuses unknown bits of the 32-bit argument. *)
Definition sys_mprotect k ms (start len prot : Z) : option (Z * kmm W_ * MemorySet) :=
  if negb (start mod PAGE_SIZE =? 0) then Some (as_isize EINVAL, k, ms)
  else if len =? 0 then Some (0, k, ms)
  else if from_option (λ e, USER_APP_MAX_SIZE <=? e) true (checked_add start len) then Some (as_isize ENOMEM, k, ms)
  else
    let prot := prot mod 2 ^ 32 in
    if negb (Z.land prot (Z.lnot PROT_ALL) =? 0) then Some (as_isize EINVAL, k, ms)
    else
      '(r, k, ms) ← mprotect F k ms start len prot;
      Some (match r with inr _ => 0 | inl e => as_isize e end, k, ms).

Definition sys_mlock ms (start len : Z) : option (Z * MemorySet) :=
  if len =? 0 then Some (0, ms)
  else if from_option (λ e, USER_APP_MAX_SIZE <=? e) true (checked_add start len) then Some (as_isize ENOMEM, ms)
  else '(r, ms) ← mlock_range F ms start len; Some (match r with inr _ => 0 | inl e => as_isize e end, ms).

Definition sys_brk k ms (addr : Z) : option (Z * kmm W_ * MemorySet) :=
  if addr =? 0 then Some (brk ms, k, ms)
  else
    '(r, k, ms) ← change_program_brk F k ms addr;
    Some (match r with inr new_brk => new_brk | inl e => as_isize e end, k, ms).
End mm_calls.
