(* ===== verification/MmCallProps.v ===== *)
(** * Properties of the memory system calls

    The calls of a program keep all address spaces well-formed, and isolated unless
    [mprotect] gives back a right that copy on write withholds, under the conditions that
    the checks of the calls leave open; and what [mincore] reports. *)

From S2P Require Import Prelude Errno Address FrameAllocator PageTable Mm BTree MapArea MemSet Space SpaceUnmap SpaceMap SpaceFault SpaceSys SpaceProps UserCopy SpaceCopy CopyProps Auth Ipc IpcCopy MmCall.

Local Open Scope Z_scope.

Module MmCallProps.

Section props.
Context {W_ : Type} `{!Mm W_} (F : FileOps W_) (strampoline : Z) (readable writable : nat → bool).
Implicit Types (k : kmm W_) (ms : MemorySet) (l : list MemorySet).

(** A call of the program; [fds] are its files. *)
Inductive mm_call :=
  | CMmap (fds : list (option nat)) (start len prot flags fd off : Z)
  | CMunmap (start len : Z)
  | CMprotect (start len prot : Z)
  | CMlock (start len : Z).

Definition do_call (c : mm_call) k ms : option (Z * kmm W_ * MemorySet) :=
  match c with
  | CMmap fds start len prot flags fd off => '(r, _, k, ms) ← sys_mmap F readable writable k ms fds 0 start len prot flags fd off; Some (r, k, ms)
  | CMunmap start len => sys_munmap F k ms start len
  | CMprotect start len prot => sys_mprotect F k ms start len prot
  | CMlock start len => '(r, ms) ← sys_mlock F ms start len; Some (r, k, ms)
  end.

(** The range ends below the trampoline page or not below the limit of the checks. *)
Definition off_trampoline (start len : Z) : Prop := start + len ≤ user_top * PAGE_SIZE ∨ USER_APP_MAX_SIZE ≤ start + len.

(** The arguments are of 64 bits.  What is left to the caller: the sum does not
    overflow where the call does not check it, the range stays off the trampoline
    page, also the one [mmap] chooses, and the counter of mappings has not wrapped. *)
Definition call_ok k ms (c : mm_call) : Prop :=
  match c with
  | CMmap _ start len _ _ _ _ => 0 ≤ start ∧ 0 ≤ len ∧ start + len ≤ USIZE_MAX ∧ off_trampoline start len ∧ k_next_map k ≠ 0 ∧
      (start = 0 → ∀ x, find_free_area_locked len (areas ms) = Some (Some x) → x + len ≤ user_top * PAGE_SIZE)
  | CMunmap start len => 0 ≤ start ∧ 0 ≤ len ∧ start + len ≤ USIZE_MAX ∧ off_trampoline start len
  | CMprotect start len _ | CMlock start len => 0 ≤ start ∧ 0 ≤ len ∧ off_trampoline start len
  end.

(** [mprotect] does not give the right to write to resident private pages whose entries
    withhold it. *)
Definition call_respects_cow k ms (c : mm_call) : Prop :=
  match c with
  | CMprotect start len prot => cow_kept k ms (first_page start) (last_page (start + len)) (permission_of (prot mod 2 ^ 32))
  | _ => True
  end.

Lemma checked_end start len : 0 ≤ start → 0 ≤ len → len ≠ 0 → off_trampoline start len →
  from_option (λ e, USER_APP_MAX_SIZE <=? e) true (checked_add start len) = false → user_range start len.
Proof.
  intros H0 H1 H2 Hoff. unfold checked_add. destruct (start + len <=? USIZE_MAX); [|done]. simpl. intros He%Z.leb_gt.
  destruct Hoff; [unfold user_range|]; lia.
Qed.

(** C4 The calls mmap, munmap, mprotect and mlock of a program, with all their checks of
    the arguments and all kinds of mappings: the call returns a result or an error
    without a panic, and every address space is well-formed and agrees with its page
    table; and if private memory was isolated it still is, unless the call is an
    mprotect that makes a resident private page writable whose entry withheld it.  The
    conditions are those of [call_ok]: the end of the range does not overflow for mmap
    and munmap, which add without a check, no range ends in the page of the trampoline,
    and the counter of mappings has not wrapped. *)
Theorem memory_calls_safe k ms l c : sys_ok k (ms :: l) → call_ok k ms c →
  ∃ r k' ms', do_call c k ms = Some (r, k', ms') ∧ sys_ok k' (ms' :: l) ∧
    (call_respects_cow k ms c → sys_isolated k (ms :: l) → sys_isolated k' (ms' :: l)).
Proof.
  intros Hg Hc. set (post := λ x : Z * kmm W_ * MemorySet, let '(_, k', ms') := x in sys_ok k' (ms' :: l) ∧ (call_respects_cow k ms c → sys_isolated k (ms :: l) → sys_isolated k' (ms' :: l))).
  assert (wp (do_call c k ms) post) as Hw; [|by apply wp_elim in Hw as ([[r k'] ms'] & He & Hg'); exists r, k', ms'].
  assert (∀ r, post (r, k, ms)) as Hsame by done.
  destruct c as [fds start len prot flags fd off|start len|start len prot|start len]; simpl in Hc |- *.
  - destruct Hc as (H0 & H1 & Hsum & Hoff & Hid & Hplace). apply wp_bind. unfold sys_mmap. rewrite checked_add_Some by done.
    assert (∀ r x, wp (Some (r, x, k, ms) : option (Z * Z * kmm W_ * MemorySet)) (λ y, wp (let '(r, _, k0, ms0) := y in Some (r, k0, ms0)) post)) as Hret by (intros; by repeat apply wp_ret).
    destruct (_ && _); [apply Hret|]. destruct (_ =? 0); [apply Hret|]. destruct (if flags_contain _ _ then _ else _) as [file|]; [|apply Hret]. rewrite some_bind.
    destruct ((_ || _)) eqn:He; [apply Hret|]. apply orb_false_iff in He as [He _]. apply Z.leb_gt in He.
    destruct (negb _); [apply Hret|]. destruct (Z.eqb_spec len 0) as [->|Hl]; [apply Hret|]. destruct (from_option _ _ file); [apply Hret|]. destruct (from_option _ _ file); [apply Hret|].
    apply wp_bind. eapply wp_mono; [apply (keeps_mmap F k ms l); [done|done|]|].
    + destruct (decide (start = 0)) as [->|Hs]; [left; split_and!; [done|lia| |by apply Hplace]|right; split; [done|]].
      * unfold USER_APP_MAX_SIZE in He. change (Z.shiftl 1 38) with (2 ^ 38) in He. lia.
      * destruct Hoff; [unfold user_range|]; lia.
    + intros [[[e|a] k'] ms'] [Hk Hi]; by repeat apply wp_ret.
  - destruct Hc as (H0 & H1 & Hsum & Hoff). unfold sys_munmap. rewrite checked_add_Some, some_bind by done. destruct (_ || _) eqn:He; [by apply wp_ret|].
    apply orb_false_iff in He as [[He _]%orb_false_iff Hl]. apply Z.leb_gt in He. apply Z.eqb_neq in Hl. apply wp_bind.
    eapply wp_mono; [apply (keeps_munmap F k ms l); [done|]; destruct Hoff; [unfold user_range|]; lia|]. intros [k' ms'] [Hk Hi]. by apply wp_ret.
  - destruct Hc as (H0 & H1 & Hoff). unfold sys_mprotect. destruct (negb _); [by apply wp_ret|]. destruct (Z.eqb_spec len 0); [by apply wp_ret|].
    destruct (from_option _ _ _) eqn:He; [by apply wp_ret|]. apply checked_end in He; [|done..]. destruct (negb _); [by apply wp_ret|]. apply wp_bind.
    eapply wp_mono; [by apply (keeps_mprotect F k ms l)|]. intros [[r k'] ms'] Hg'. by apply wp_ret.
  - destruct Hc as (H0 & H1 & Hoff). apply wp_bind. unfold sys_mlock. destruct (Z.eqb_spec len 0); [by repeat apply wp_ret|].
    destruct (from_option _ _ _) eqn:He; [by repeat apply wp_ret|]. apply checked_end in He; [|done..]. apply wp_bind.
    eapply wp_mono; [by apply (keeps_mlock F k ms l)|]. intros [r ms'] [Hk Hi]. by repeat apply wp_ret.
Qed.

(** ** mincore *)

Definition resident ms v : bool := bool_decide (is_Some (page_at (areas ms) v ≫= pg_frame)).

Lemma contains_mapped ms L k v : sp_ok (k_w k) (ms_table ms) (areas ms) L →
  existsb (λ e : Z * MapArea, area_contains e.2 v) (bt_entries (areas ms)) = bool_decide (is_Some (page_at (areas ms) v)).
Proof.
  intros Hs. pose proof (sp_tree _ _ _ _ Hs) as Hm. apply eq_true_iff_eq. rewrite existsb_exists, bool_decide_eq_true. split.
  - intros ([key a] & Hin & Hc). apply list_elem_of_In, elem_of_entries in Hin. apply area_contains_inside in Hc. exists (page_of a v). by apply (page_at_area _ key).
  - intros [p (key & a & Hk & Hi & _)%page_at_Some]; [|done]. exists (key, a). split; [by apply list_elem_of_In, elem_of_entries|by apply area_contains_inside].
Qed.

Lemma translate_resident ms L k v p : sp_ok (k_w k) (ms_table ms) (areas ms) L → page_at (areas ms) v = Some p →
  from_option is_valid false (ms_translate k ms v) = resident ms v.
Proof.
  intros Hs Hp. pose proof (page_at_range _ _ _ (sp_tree _ _ _ _ Hs) Hp) as Hv. unfold ms_translate, resident. pose proof Hp as Ha. unfold page_at in Ha.
  destruct (area_at (areas ms) v) as [e|]; [|done]. cbn [mbind option_bind].
  destruct (entry_cases k ms L v Hs Hv) as [[-> ->]|(q & f & e' & Hq & Hf & _ & -> & Hpf)]; [done|]. rewrite Hq. cbn [mbind option_bind from_option].
  by rewrite Hf, (pf_valid _ _ _ Hpf).
Qed.

Definition mapped ms (v n : Z) : Prop := Forall (λ i, is_Some (page_at (areas ms) i)) (seqZ v n).

Lemma residency_ok ms L k n : ∀ v, sp_ok (k_w k) (ms_table ms) (areas ms) L → 0 ≤ v → v + Z.of_nat n ≤ user_top →
  match residency n k ms (v * PAGE_SIZE) with
  | Some result => mapped ms v (Z.of_nat n) ∧ result = (λ i, if resident ms i then 1 else 0) <$> seqZ v (Z.of_nat n)
  | None => ¬ mapped ms v (Z.of_nat n)
  end.
Proof.
  unfold mapped. induction n as [|n IH]; intros v Hs Hv Htop; [by split; [constructor|]|].
  cbn [residency]. assert (VirtAddr_std_floor (VirtAddr_from (v * PAGE_SIZE)) = v) as ->.
  { fold (floor_of (v * PAGE_SIZE)). rewrite floor_of_id by (unfold user_top, PAGE_SIZE in *; lia). unfold first_page. by apply Z.div_mul. }
  rewrite (contains_mapped ms L k v Hs). replace (v * PAGE_SIZE + PAGE_SIZE) with (Z.succ v * PAGE_SIZE) by lia. specialize (IH (Z.succ v) Hs ltac:(lia) ltac:(lia)).
  rewrite (seqZ_cons v) by lia. replace (Z.pred (Z.of_nat (S n))) with (Z.of_nat n) by lia.
  destruct (page_at (areas ms) v) as [p|] eqn:Hp; [|simpl; intros [[? Hx] _]%Forall_cons; congruence].
  cbn [bool_decide is_Some_dec decide decide_rel]. rewrite (translate_resident ms L k v p Hs Hp).
  destruct (residency n k ms (Z.succ v * PAGE_SIZE)) as [result|]; cbn [fmap option_fmap option_map]; [destruct IH as [H1 ->]; split; [by constructor|done]|by intros [_ ?]%Forall_cons].
Qed.

(** One byte after the other. *)
Lemma write_each_ok l bytes : ∀ k ms vec, good k (ms :: l) → Forall (λ x, 0 ≤ x < 256) bytes → 0 ≤ vec → vec + Z.of_nat (length bytes) ≤ user_top * PAGE_SIZE →
  all_plain ms true vec (vec + Z.of_nat (length bytes)) → Z.of_nat (length bytes) * page_cost ≤ mm_free (k_w k) →
  ∃ ok k' ms', write_each F strampoline k ms vec bytes = Some (ok, k', ms') ∧ stored l vec (vec + Z.of_nat (length bytes)) k ms k' ms' ∧
    (ok = true ↔ all_accessible ms true vec (vec + Z.of_nat (length bytes))) ∧ (ok = true → bytes_at k' ms' vec bytes).
Proof.
  assert (0 < page_cost) as Hpc by (unfold page_cost, READ_AHEAD_PAGES; lia).
  induction bytes as [|b bytes IH]; intros k ms vec Hg Hb Hv Htop Hpl Hfree; cbn [write_each length] in *.
  { exists true, k, ms. split_and!; [done|by apply grown_stored, grown_refl| |by intros _ i x Hi]. split; [intros _ a Ha; lia|done]. }
  apply Forall_cons in Hb as [Hb0 Hb]. assert (range_pages vec 1 = 1) as Hrp by (unfold range_pages; rewrite Z.add_simpl_r; lia).
  destruct (write_ok F strampoline k ms l vec [b]) as (ok & k1 & ms1 & -> & Hst & Hf & Hok & Hat); cbn [length] in *; change (Z.of_nat 1) with 1 in *;
    [by constructor|done|unfold user_range; lia|eapply all_plain_sub; [..|done]; lia|rewrite Hrp; lia|].
  rewrite some_bind. assert (stored l vec (vec + Z.of_nat (S (length bytes))) k ms k1 ms1) as Hst1 by (eapply stored_widen; [..|done]; lia).
  assert (all_accessible ms true vec (vec + Z.of_nat (S (length bytes))) ↔ all_accessible ms true vec (vec + 1) ∧ all_accessible ms true (vec + 1) (vec + Z.of_nat (S (length bytes)))) as Hsp
    by (apply all_accessible_split; lia). destruct ok; last first.
  { exists false, k1, ms1. split_and!; [done|done| |done]. split; [done|]. intros [Ha _]%Hsp. by apply Hok. }
  destruct (IH k1 ms1 (vec + 1)) as (ok & k2 & ms2 & He & Hst2 & Hok2 & Hat2); [apply Hst|done|lia|lia| |lia|].
  { eapply all_plain_stored; [exact Hst|]. eapply all_plain_sub; [..|done]; lia. }
  replace (vec + 1 + Z.of_nat (length bytes)) with (vec + Z.of_nat (S (length bytes))) in * by lia. exists ok, k2, ms2. split_and!; [done| | |].
  - eapply stored_trans; [exact Hst1|]. eapply stored_widen; [..|exact Hst2]; lia.
  - rewrite Hok2, Hsp, (all_accessible_stored _ _ _ _ _ _ _ _ _ _ Hst). split; [intros ?; split; [by apply Hok|done]|by intros [_ ?]].
  - intros ->. change (b :: bytes) with ([b] ++ bytes). apply bytes_at_app. split; [|by apply Hat2].
    eapply bytes_at_stored; [exact Hst2|lia|cbn [length]; lia|cbn [length]; lia|exact (Hat eq_refl)].
Qed.

(** The pages of a range of bytes. *)
Definition page_count (len : Z) : Z := (len + (PAGE_SIZE - 1)) / PAGE_SIZE.

End props.

(** ** Witnesses *)

Lemma memory_calls_safe_witness : ∃ r k' ms', do_call demo_files (λ _, true) (λ _, true) (CMunmap 0x11000 0x1800) demo_resident.1 demo_resident.2 = Some (r, k', ms') ∧ sys_ok k' [ms'] ∧ sys_isolated k' [ms'].
Proof.
  destruct (memory_calls_safe demo_files (λ _, true) (λ _, true) demo_resident.1 demo_resident.2 [] (CMunmap 0x11000 0x1800)) as (r & k' & ms' & He & Hg & Hi).
  - exact (proj1 CopyProps.demo_good).
  - unfold call_ok, off_trampoline, user_top, PAGE_SIZE, USIZE_MAX. lia.
  - exists r, k', ms'. split; [exact He|]. split; [exact Hg|]. exact (Hi I (proj2 CopyProps.demo_good)).
Defined.

End MmCallProps.
