(* ===== verification/Ext4Checksum.v ===== *)
(** * Checksums of the ext4 metadata (os/src/ext4fs/checksum.rs)

    The bitwise CRC32C and the checksums of inodes, bitmaps, group descriptors, the
    superblock, directory leaves and extent nodes, on raw bytes.  The functions return an
    [Option]; a slice or an index out of range would be a panic, so the result of such a
    function has two levels: the outer [None] is a panic, the inner one the value.

    The CRC is compared with its definition: the remainder of the message, read as a
    polynomial over GF(2), by the Castagnoli polynomial. *)

From S2P Require Import Prelude Bytes.

Local Open Scope Z_scope.

(** ** CRC32C *)

Definition CRC32C_POLY : Z := 0x82F63B78.

(** One turn of the inner loop; [wrapping_neg] on [u32]. *)
Definition crc_bit (seed : Z) : Z :=
  let mask := (- Z.land seed 1) mod 2 ^ 32 in
  Z.lxor (Z.shiftr seed 1) (Z.land CRC32C_POLY mask).

Definition crc_byte (seed byte : Z) : Z := Nat.iter 8 crc_bit (Z.lxor seed byte).

Definition crc32c (seed : Z) (data : list Z) : Z := foldl crc_byte seed data.

(** ** Fields *)

Definition EXT4_GOOD_OLD_INODE_SIZE : Z := 128.
Definition EXT4_INODE_CHECKSUM_LO_OFFSET : Z := 0x7c.
Definition EXT4_INODE_CHECKSUM_HI_OFFSET : Z := 0x82.
Definition EXT4_INODE_CSUM_HI_EXTRA_END : Z := 4.
Definition EXT4_BG_BLOCK_BITMAP_CSUM_LO_OFFSET : Z := 0x18.
Definition EXT4_BG_INODE_BITMAP_CSUM_LO_OFFSET : Z := 0x1a.
Definition EXT4_BG_CHECKSUM_OFFSET : Z := 0x1e.
Definition EXT4_BG_BLOCK_BITMAP_CSUM_HI_OFFSET : Z := 0x38.
Definition EXT4_BG_INODE_BITMAP_CSUM_HI_OFFSET : Z := 0x3a.
Definition EXT4_SUPERBLOCK_SIZE : Z := 1024.
Definition EXT4_SUPERBLOCK_CHECKSUM_OFFSET : Z := 0x3fc.

(** [u16::from_le_bytes([l[i], l[i + 1]])] and the same for [u32]. *)
Definition u16_at (l : list Z) (i : Z) : option Z := a ← index l i; b ← index l (i + 1); Some (of_le [a; b]).

Definition u32_at (l : list Z) (i : Z) : option Z :=
  a ← index l i; b ← index l (i + 1); c ← index l (i + 2); d ← index l (i + 3); Some (of_le [a; b; c; d]).

(** ** Inodes *)

Definition inode_checksum_seed (fs_seed inode_number generation : Z) : Z :=
  crc32c (crc32c fs_seed (le 4 inode_number)) (le 4 generation).

Definition has_checksum_hi (inode : list Z) : option bool :=
  if EXT4_INODE_CHECKSUM_HI_OFFSET + 2 <=? len inode then
    extra ← u16_at inode EXT4_GOOD_OLD_INODE_SIZE; Some (EXT4_INODE_CSUM_HI_EXTRA_END <=? extra)
  else Some false.

(** The part of an inode after the first 128 bytes. *)
Definition extra_checksum (checksum : Z) (inode : list Z) : option Z :=
  let before_hi_end := Z.min EXT4_INODE_CHECKSUM_HI_OFFSET (len inode) in
  checksum ← (if EXT4_GOOD_OLD_INODE_SIZE <? before_hi_end
              then s ← slice inode EXT4_GOOD_OLD_INODE_SIZE before_hi_end; Some (crc32c checksum s)
              else Some checksum);
  hi ← has_checksum_hi inode;
  checksum ← (if (hi : bool) then Some (crc32c checksum [0; 0])
              else if EXT4_INODE_CHECKSUM_HI_OFFSET + 2 <=? len inode
              then s ← slice inode EXT4_INODE_CHECKSUM_HI_OFFSET (EXT4_INODE_CHECKSUM_HI_OFFSET + 2); Some (crc32c checksum s)
              else Some checksum);
  let after_hi := EXT4_INODE_CHECKSUM_HI_OFFSET + 2 in
  if after_hi <? len inode then s ← slice inode after_hi (len inode); Some (crc32c checksum s)
  else Some checksum.

Definition inode_checksum (fs_seed inode_number : Z) (inode : list Z) : option (option Z) :=
  if (len inode <? EXT4_GOOD_OLD_INODE_SIZE) || (len inode <? EXT4_INODE_CHECKSUM_LO_OFFSET + 2) then Some None
  else
    generation ← (if 0x68 <=? len inode then u32_at inode 0x64 else Some 0);
    let inode_seed := crc32c fs_seed (le 4 inode_number) in
    let inode_seed := crc32c inode_seed (le 4 generation) in
    s ← slice inode 0 EXT4_INODE_CHECKSUM_LO_OFFSET;
    let checksum := crc32c inode_seed s in
    let checksum := crc32c checksum [0; 0] in
    s ← slice inode (EXT4_INODE_CHECKSUM_LO_OFFSET + 2) EXT4_GOOD_OLD_INODE_SIZE;
    let checksum := crc32c checksum s in
    checksum ← (if EXT4_GOOD_OLD_INODE_SIZE <? len inode then extra_checksum checksum inode else Some checksum);
    Some (Some checksum).

Definition set_inode_checksum (fs_seed inode_number : Z) (inode : list Z) : option (option Z * list Z) :=
  r ← inode_checksum fs_seed inode_number inode;
  match r with
  | None => Some (None, inode)
  | Some checksum =>
    inode ← put inode EXT4_INODE_CHECKSUM_LO_OFFSET (le 2 (checksum mod 2 ^ 16));
    hi ← has_checksum_hi inode;
    inode ← (if (hi : bool) then put inode EXT4_INODE_CHECKSUM_HI_OFFSET (le 2 (Z.shiftr checksum 16 mod 2 ^ 16)) else Some inode);
    Some (Some checksum, inode)
  end.

(** ** Bitmaps and group descriptors *)

Definition bitmap_checksum (seed : Z) (bitmap : list Z) : Z := crc32c seed bitmap.

Inductive BitmapKind := BlockBitmap | InodeBitmap.

Definition csum_offsets (kind : BitmapKind) : Z * Z :=
  match kind with
  | BlockBitmap => (EXT4_BG_BLOCK_BITMAP_CSUM_LO_OFFSET, EXT4_BG_BLOCK_BITMAP_CSUM_HI_OFFSET)
  | InodeBitmap => (EXT4_BG_INODE_BITMAP_CSUM_LO_OFFSET, EXT4_BG_INODE_BITMAP_CSUM_HI_OFFSET)
  end.

Definition set_bitmap_checksum (seed : Z) (bitmap descriptor : list Z) (kind : BitmapKind) : option (option Z * list Z) :=
  let '(low_offset, high_offset) := csum_offsets kind in
  if len descriptor <? low_offset + 2 then Some (None, descriptor)
  else
    let checksum := bitmap_checksum seed bitmap in
    descriptor ← put descriptor low_offset (le 2 (checksum mod 2 ^ 16));
    descriptor ← (if high_offset + 2 <=? len descriptor
                  then put descriptor high_offset (le 2 (Z.shiftr checksum 16 mod 2 ^ 16))
                  else Some descriptor);
    Some (Some checksum, descriptor).

Definition set_block_bitmap_checksum (seed : Z) (bitmap descriptor : list Z) := set_bitmap_checksum seed bitmap descriptor BlockBitmap.

Definition set_inode_bitmap_checksum (seed : Z) (bitmap descriptor : list Z) := set_bitmap_checksum seed bitmap descriptor InodeBitmap.

Definition group_desc_checksum (seed group : Z) (descriptor : list Z) : option (option Z) :=
  if len descriptor <? EXT4_BG_CHECKSUM_OFFSET + 2 then Some None
  else
    let checksum := crc32c seed (le 4 group) in
    s ← slice descriptor 0 EXT4_BG_CHECKSUM_OFFSET;
    let checksum := crc32c checksum s in
    let checksum := crc32c checksum [0; 0] in
    checksum ← (if EXT4_BG_CHECKSUM_OFFSET + 2 <? len descriptor
                then s ← slice descriptor (EXT4_BG_CHECKSUM_OFFSET + 2) (len descriptor); Some (crc32c checksum s)
                else Some checksum);
    Some (Some (checksum mod 2 ^ 16)).

Definition set_group_desc_checksum (seed group : Z) (descriptor : list Z) : option (option Z * list Z) :=
  r ← group_desc_checksum seed group descriptor;
  match r with
  | None => Some (None, descriptor)
  | Some checksum => descriptor ← put descriptor EXT4_BG_CHECKSUM_OFFSET (le 2 checksum); Some (Some checksum, descriptor)
  end.

(** ** The superblock *)

Definition superblock_checksum (superblock : list Z) : option (option Z) :=
  if len superblock <? EXT4_SUPERBLOCK_SIZE then Some None
  else s ← slice superblock 0 EXT4_SUPERBLOCK_CHECKSUM_OFFSET; Some (Some (crc32c (2 ^ 32 - 1) s)).

Definition set_superblock_checksum (superblock : list Z) : option (option Z * list Z) :=
  r ← superblock_checksum superblock;
  match r with
  | None => Some (None, superblock)
  | Some checksum => superblock ← put superblock EXT4_SUPERBLOCK_CHECKSUM_OFFSET (le 4 checksum); Some (Some checksum, superblock)
  end.

(** ** Directory leaves and extent nodes *)

Definition dir_leaf_checksum_with_inode_seed (inode_seed : Z) (block : list Z) : option (option Z) :=
  if len block <? 12 then Some None
  else
    let tail_offset := len block - 12 in
    head ← slice block tail_offset (tail_offset + 4);
    rec_len ← u16_at block (tail_offset + 4);
    b6 ← index block (tail_offset + 6);
    b7 ← index block (tail_offset + 7);
    if negb (bool_decide (head = [0; 0; 0; 0])) || negb (rec_len =? 12) || negb (b6 =? 0) || negb (b7 =? 0xde) then Some None
    else s ← slice block 0 tail_offset; Some (Some (crc32c inode_seed s)).

Definition set_dir_leaf_checksum_with_inode_seed (inode_seed : Z) (block : list Z) : option (option Z * list Z) :=
  r ← dir_leaf_checksum_with_inode_seed inode_seed block;
  match r with
  | None => Some (None, block)
  | Some checksum => block ← put block (len block - 12 + 8) (le 4 checksum); Some (Some checksum, block)
  end.

Definition dir_leaf_checksum (fs_seed inode_number generation : Z) (block : list Z) :=
  dir_leaf_checksum_with_inode_seed (inode_checksum_seed fs_seed inode_number generation) block.

Definition set_dir_leaf_checksum (fs_seed inode_number generation : Z) (block : list Z) :=
  set_dir_leaf_checksum_with_inode_seed (inode_checksum_seed fs_seed inode_number generation) block.

(** The products and sums of [extent_tail_offset] are checked; with a [u16] factor they
    stay far below the bound. *)
Definition extent_tail_offset (block : list Z) : option (option Z) :=
  if len block <? 12 then Some None
  else
    max_entries ← u16_at block 4;
    Some (entries_bytes ← checked_mul max_entries 12;
          tail_offset ← checked_add 12 entries_bytes;
          e ← checked_add tail_offset 4;
          if len block <? e then None else Some tail_offset).

Definition extent_node_checksum_with_inode_seed (inode_seed : Z) (block : list Z) : option (option Z) :=
  r ← extent_tail_offset block;
  match r with
  | None => Some None
  | Some tail_offset => s ← slice block 0 tail_offset; Some (Some (crc32c inode_seed s))
  end.

Definition set_extent_node_checksum_with_inode_seed (inode_seed : Z) (block : list Z) : option (option Z * list Z) :=
  r ← extent_node_checksum_with_inode_seed inode_seed block;
  match r with
  | None => Some (None, block)
  | Some checksum =>
    r ← extent_tail_offset block;
    match r with
    | None => Some (None, block)
    | Some tail_offset => block ← put block tail_offset (le 4 checksum); Some (Some checksum, block)
    end
  end.

Definition extent_node_checksum (fs_seed inode_number generation : Z) (block : list Z) :=
  extent_node_checksum_with_inode_seed (inode_checksum_seed fs_seed inode_number generation) block.

Definition set_extent_node_checksum (fs_seed inode_number generation : Z) (block : list Z) :=
  set_extent_node_checksum_with_inode_seed (inode_checksum_seed fs_seed inode_number generation) block.

(** ** The loop of the CRC *)

Abbreviation is_u32 x := (0 ≤ x < 2 ^ 32).

Lemma u32_bits x i : is_u32 x → 32 ≤ i → Z.testbit x i = false.
Proof.
  intros Hx Hi. destruct (decide (x = 0)) as [->|]; [apply Z.bits_0|]. apply Z.bits_above_log2; [lia|].
  assert (Z.log2 x < 32) by (apply Z.log2_lt_pow2; lia). lia.
Qed.

Lemma bits_u32 x : 0 ≤ x → (∀ i, 32 ≤ i → Z.testbit x i = false) → is_u32 x.
Proof.
  intros Hx Hb. split; [done|]. destruct (decide (x = 0)) as [->|]; [lia|]. apply Z.log2_lt_pow2; [lia|].
  destruct (decide (Z.log2 x < 32)); [done|]. pose proof (Z.bit_log2 x ltac:(lia)) as H1. rewrite Hb in H1 by lia. done.
Qed.

Lemma crc_bit_cases s : crc_bit s = Z.lxor (Z.shiftr s 1) (if Z.testbit s 0 then CRC32C_POLY else 0).
Proof.
  unfold crc_bit. rewrite Z.testbit_odd. change 1 with (Z.ones 1) at 2. rewrite Z.land_ones by done. change (Z.shiftr s 0) with s. change (2 ^ 1) with 2.
  rewrite Zmod_odd. by destruct (Z.odd s).
Qed.

Lemma poly_bits i : 32 ≤ i → Z.testbit CRC32C_POLY i = false.
Proof. apply u32_bits. unfold CRC32C_POLY. lia. Qed.

Lemma crc_bit_u32 s : is_u32 s → is_u32 (crc_bit s).
Proof.
  intros Hs. rewrite crc_bit_cases. apply bits_u32.
  - apply Z.lxor_nonneg. split; intros _; [case_match; done|apply Z.shiftr_nonneg; lia].
  - intros i Hi. rewrite Z.lxor_spec, Z.shiftr_spec, u32_bits by (done || lia). case_match; [by rewrite poly_bits|by rewrite Z.bits_0].
Qed.

Lemma lxor_u32 a b : is_u32 a → is_u32 b → is_u32 (Z.lxor a b).
Proof. intros Ha Hb. apply bits_u32; [apply Z.lxor_nonneg; lia|]. intros i Hi. by rewrite Z.lxor_spec, !u32_bits. Qed.

Lemma iter_u32 n s : is_u32 s → is_u32 (Nat.iter n crc_bit s).
Proof. intros Hs. induction n as [|n IH]; [done|]. cbn [Nat.iter nat_rect]. by apply crc_bit_u32. Qed.

Lemma crc_byte_u32 s b : is_u32 s → is_byte b → is_u32 (crc_byte s b).
Proof. intros Hs Hb. apply (iter_u32 8), lxor_u32; [done|lia]. Qed.

Lemma crc32c_cons s b data : crc32c s (b :: data) = crc32c (crc_byte s b) data.
Proof. reflexivity. Qed.

Lemma crc32c_nil s : crc32c s [] = s.
Proof. reflexivity. Qed.

Lemma crc32c_u32 data : ∀ s, is_u32 s → all_bytes data → is_u32 (crc32c s data).
Proof.
  induction data as [|b data IH]; intros s Hs Hd; [done|]. apply Forall_cons in Hd as [Hb Hd]. rewrite crc32c_cons.
  apply IH; [by apply crc_byte_u32|done].
Qed.

Lemma crc32c_app s a b : crc32c s (a ++ b) = crc32c (crc32c s a) b.
Proof. apply foldl_app. Qed.

(** A message that is shifted in later does not change the turns before. *)
Lemma crc_bit_shifted x y : crc_bit (Z.lxor x (Z.shiftl y 1)) = Z.lxor (crc_bit x) y.
Proof.
  rewrite !crc_bit_cases. rewrite Z.lxor_spec. change (Z.testbit (Z.shiftl y 1) 0) with (Z.testbit (Z.shiftl y 1) (0)).
  rewrite Z.shiftl_spec_low, xorb_false_r by lia. rewrite Z.shiftr_lxor, Z.shiftr_shiftl_l by lia. change (Z.shiftl y (1 - 1)) with y.
  rewrite !Z.lxor_assoc. f_equal. apply Z.lxor_comm.
Qed.

Lemma iter_shifted n : ∀ x y, Nat.iter n crc_bit (Z.lxor x (Z.shiftl y (Z.of_nat n))) = Z.lxor (Nat.iter n crc_bit x) y.
Proof.
  induction n as [|n IH]; intros x y; [by rewrite Z.shiftl_0_r|]. rewrite !Nat.iter_succ_r.
  replace (Z.of_nat (S n)) with (Z.of_nat n + 1) by lia. rewrite <-Z.shiftl_shiftl, crc_bit_shifted by lia. apply IH.
Qed.

(** The CRC of a string is that of its number, bit by bit. *)
Lemma crc32c_number bs : all_bytes bs → ∀ s, crc32c s bs = Nat.iter (8 * length bs) crc_bit (Z.lxor s (of_le bs)).
Proof.
  induction 1 as [|b bs Hb Hbs IH]; intros s; [by rewrite Z.lxor_0_r|]. change (crc32c s (b :: bs)) with (crc32c (crc_byte s b) bs).
  rewrite IH. cbn [length of_le]. replace (8 * S (length bs))%nat with (8 * length bs + 8)%nat by lia. rewrite Nat.iter_add. f_equal.
  rewrite <-Z.lxor_lor by (apply land_shiftl_low; lia). rewrite <-Z.lxor_assoc. change 8 with (Z.of_nat 8). rewrite iter_shifted. done.
Qed.

Lemma crc_bit_inj a b : is_u32 a → is_u32 b → crc_bit a = crc_bit b → a = b.
Proof.
  rewrite !crc_bit_cases. intros Ha Hb He.
  assert (∀ x, is_u32 x → Z.testbit (Z.lxor (Z.shiftr x 1) (if Z.testbit x 0 then CRC32C_POLY else 0)) 31 = Z.testbit x 0) as Htop.
  { intros x Hx. rewrite Z.lxor_spec, Z.shiftr_spec, u32_bits by (done || lia). destruct (Z.testbit x 0); done. }
  assert (Z.testbit a 0 = Z.testbit b 0) as H0 by (rewrite <-(Htop a Ha), <-(Htop b Hb), He; done). rewrite H0 in He.
  apply (f_equal (λ x, Z.lxor x (if Z.testbit b 0 then CRC32C_POLY else 0))) in He. rewrite !Z.lxor_assoc, Z.lxor_nilpotent, !Z.lxor_0_r in He.
  apply Z.bits_inj'. intros i Hi. destruct (decide (i = 0)) as [->|]; [done|].
  replace i with (i - 1 + 1) by lia. rewrite <-!Z.shiftr_spec by lia. by rewrite He.
Qed.

Lemma iter_inj n a b : is_u32 a → is_u32 b → Nat.iter n crc_bit a = Nat.iter n crc_bit b → a = b.
Proof.
  intros Ha Hb. induction n as [|n IH]; [done|]. cbn [Nat.iter nat_rect]. intros He. apply IH.
  apply crc_bit_inj; [by apply iter_u32..|done].
Qed.

Lemma lxor_inj_l s a b : Z.lxor s a = Z.lxor s b → a = b.
Proof. intros H. apply (f_equal (Z.lxor s)) in H. by rewrite <-!Z.lxor_assoc, Z.lxor_nilpotent, !Z.lxor_0_l in H. Qed.

Lemma crc_byte_inj b s t : is_byte b → is_u32 s → is_u32 t → crc_byte s b = crc_byte t b → s = t.
Proof.
  intros Hb Hs Ht. unfold crc_byte. generalize 8%nat. intros n He. apply iter_inj in He; [|apply lxor_u32; lia..]. apply (lxor_inj_l b). rewrite !(Z.lxor_comm b). exact He.
Qed.

Lemma crc32c_seed_inj data : all_bytes data → ∀ s t, is_u32 s → is_u32 t → crc32c s data = crc32c t data → s = t.
Proof.
  induction 1 as [|b data Hb Hd IH]; intros s t Hs Ht He; [exact He|]. rewrite !crc32c_cons in He.
  apply (crc_byte_inj b); [done..|]. apply IH; [by apply crc_byte_u32..|exact He].
Qed.

Lemma crc32c_window_inj s x y : is_u32 s → all_bytes x → all_bytes y → length x = length y → (length x ≤ 4)%nat →
  crc32c s x = crc32c s y → x = y.
Proof.
  intros Hs Hx Hy Hl H4. rewrite !crc32c_number by done. rewrite <-Hl. pose proof (of_le_range x Hx) as Rx. pose proof (of_le_range y Hy) as Ry.
  rewrite <-Hl in Ry. assert (2 ^ (8 * Z.of_nat (length x)) ≤ 2 ^ 32) by (apply Z.pow_le_mono_r; lia). intros He.
  apply iter_inj in He; [|apply lxor_u32; lia..]. apply lxor_inj_l in He. rewrite <-(le_of_le x), <-(le_of_le y), He, Hl by done. done.
Qed.

(** ** The CRC as a remainder *)

(** The polynomial of CRC32C with its leading coefficient, highest degree first; in
    [CRC32C_POLY] the bits are reversed. *)
Definition CASTAGNOLI : Z := 0x11EDC6F41.

(** The [w] low bits of a number in reverse order. *)
Fixpoint rev (w : nat) (x : Z) : Z :=
  match w with
  | O => 0
  | S w => Z.lor (Z.shiftl (Z.land x 1) (Z.of_nat w)) (rev w (Z.shiftr x 1))
  end.

(** Long division over GF(2): the remainder of [m], of degree below [32 + n]. *)
Fixpoint divide (n : nat) (m : Z) : Z :=
  match n with
  | O => m
  | S k => divide k (if Z.testbit m (32 + Z.of_nat k) then Z.lxor m (Z.shiftl CASTAGNOLI (Z.of_nat k)) else m)
  end.

(** The polynomial of a message; the first bit of a byte is its lowest. *)
Definition message (data : list Z) : Z := foldl (λ m b, Z.lxor (Z.shiftl m 8) (rev 8 b)) 0 data.

Lemma rev_spec w : ∀ x i, Z.testbit (rev w x) i = (0 <=? i) && (i <? Z.of_nat w) && Z.testbit x (Z.of_nat w - 1 - i).
Proof.
  induction w as [|w IH]; intros x i; cbn [rev].
  - rewrite Z.bits_0. destruct (Z.leb_spec 0 i), (Z.ltb_spec i (Z.of_nat 0)); try done; lia.
  - rewrite Z.lor_spec, IH. destruct (Z.leb_spec 0 i) as [Hi|Hi]; [|rewrite Z.testbit_neg_r by done; done]. cbn [andb].
    rewrite Z.shiftl_spec by done. change 1 with (Z.ones 1) at 1. destruct (decide (i = Z.of_nat w)) as [->|].
    + rewrite Z.sub_diag, Z.land_spec, (proj2 (Z.ltb_ge _ _)), (proj2 (Z.ltb_lt _ _)) by lia. cbn [andb orb]. rewrite orb_false_r, andb_true_r. f_equal. lia.
    + assert (Z.testbit (Z.land x (Z.ones 1)) (i - Z.of_nat w) = false) as ->.
      { rewrite Z.land_spec. destruct (decide (i < Z.of_nat w)); [by rewrite !Z.testbit_neg_r by lia|]. rewrite Z.ones_spec_high by lia. apply andb_false_r. }
      cbn [orb]. destruct (Z.ltb_spec i (Z.of_nat w)).
      * rewrite (proj2 (Z.ltb_lt _ _)) by lia. cbn [andb]. rewrite Z.shiftr_spec by lia. f_equal. lia.
      * rewrite (proj2 (Z.ltb_ge _ _)) by lia. done.
Qed.

Lemma rev_nonneg w x : 0 ≤ rev w x.
Proof.
  revert x. induction w as [|w IH]; intros x; cbn [rev]; [lia|]. apply Z.lor_nonneg. split; [|apply IH]. apply Z.shiftl_nonneg, Z.land_nonneg. lia.
Qed.

Lemma rev_lxor w a b : rev w (Z.lxor a b) = Z.lxor (rev w a) (rev w b).
Proof. apply Z.bits_inj'. intros i Hi. rewrite Z.lxor_spec, !rev_spec, Z.lxor_spec. by destruct ((0 <=? i) && (i <? Z.of_nat w)). Qed.

Lemma rev_byte b : is_byte b → rev 32 b = Z.shiftl (rev 8 b) 24.
Proof.
  intros Hb. apply Z.bits_inj'. intros i Hi. rewrite Z.shiftl_spec, !rev_spec by done. change (Z.of_nat 32) with 32. change (Z.of_nat 8) with 8.
  rewrite (proj2 (Z.leb_le 0 i)) by done. destruct (Z.leb_spec 0 (i - 24)); cbn [andb].
  - replace (8 - 1 - (i - 24)) with (32 - 1 - i) by lia. destruct (Z.ltb_spec i 32), (Z.ltb_spec (i - 24) 8); (lia || done).
  - destruct (i <? 32); [|done]. cbn [andb]. destruct (decide (b = 0)) as [->|]; [apply Z.bits_0|]. apply Z.bits_above_log2; [lia|].
    assert (Z.log2 b < 8) by (apply Z.log2_lt_pow2; lia). lia.
Qed.

(** One turn on the register with its bits in order. *)
Definition poly_step (r : Z) : Z := if Z.testbit r 31 then Z.lxor (Z.shiftl r 1) CASTAGNOLI else Z.shiftl r 1.

Lemma rev_shift s : is_u32 s → Z.shiftl (rev 32 s) 1 = Z.lxor (rev 32 (Z.shiftr s 1)) (if Z.testbit s 0 then 2 ^ 32 else 0).
Proof.
  intros Hs. apply Z.bits_inj'. intros i Hi. rewrite Z.lxor_spec, Z.shiftl_spec, !rev_spec by done. change (Z.of_nat 32) with 32.
  rewrite (proj2 (Z.leb_le 0 i)) by done. cbn [andb]. destruct (decide (i = 32)) as [->|].
  { change (32 - 1 - (32 - 1)) with 0. change (32 <? 32) with false. cbn [andb]. destruct (Z.testbit s 0) eqn:H0; vm_compute; reflexivity. }
  assert (Z.testbit (if Z.testbit s 0 then 2 ^ 32 else 0) i = false) as ->.
  { case_match; [rewrite Z.pow2_bits_false by lia; done|apply Z.bits_0]. }
  rewrite xorb_false_r. destruct (Z.ltb_spec i 32); cbn [andb].
  - rewrite (proj2 (Z.ltb_lt (i - 1) 32)) by lia. rewrite Z.shiftr_spec by lia. replace (32 - 1 - i + 1) with (32 - 1 - (i - 1)) by lia.
    destruct (Z.leb_spec 0 (i - 1)); [done|]. cbn [andb]. symmetry. apply u32_bits; [done|lia].
  - rewrite (proj2 (Z.ltb_ge (i - 1) 32)) by lia. by rewrite andb_false_r.
Qed.

Lemma rev_crc_bit s : is_u32 s → rev 32 (crc_bit s) = poly_step (rev 32 s).
Proof.
  intros Hs. unfold poly_step. rewrite rev_spec. change ((0 <=? 31) && (31 <? Z.of_nat 32)) with true. change (Z.of_nat 32 - 1 - 31) with 0. cbn [andb].
  rewrite rev_shift, crc_bit_cases, rev_lxor by done. destruct (Z.testbit s 0); rewrite ?Z.lxor_assoc; f_equal; done.
Qed.

Lemma divide_step k r m : 0 ≤ m < 2 ^ Z.of_nat k →
  divide (S k) (Z.lxor (Z.shiftl r (Z.of_nat (S k))) (Z.shiftl m 32)) = divide k (Z.lxor (Z.shiftl (poly_step r) (Z.of_nat k)) (Z.shiftl m 32)).
Proof.
  intros Hm. cbn [divide]. f_equal. rewrite Z.lxor_spec, !Z.shiftl_spec by lia. replace (32 + Z.of_nat k - Z.of_nat (S k)) with 31 by lia.
  replace (32 + Z.of_nat k - 32) with (Z.of_nat k) by lia. rewrite <-(Z.mod_small m (2 ^ Z.of_nat k)) at 1 by done.
  rewrite Z.mod_pow2_bits_high, xorb_false_r by lia. unfold poly_step. replace (Z.of_nat (S k)) with (1 + Z.of_nat k) by lia.
  rewrite <-Z.shiftl_shiftl by lia. destruct (Z.testbit r 31); [|done]. rewrite Z.shiftl_lxor, !Z.lxor_assoc. f_equal. apply Z.lxor_comm.
Qed.

Lemma divide_steps n : ∀ k s m, is_u32 s → 0 ≤ m < 2 ^ Z.of_nat k →
  divide (n + k) (Z.lxor (Z.shiftl (rev 32 s) (Z.of_nat (n + k))) (Z.shiftl m 32)) =
  divide k (Z.lxor (Z.shiftl (rev 32 (Nat.iter n crc_bit s)) (Z.of_nat k)) (Z.shiftl m 32)).
Proof.
  induction n as [|n IH]; intros k s m Hs Hm; [done|]. cbn [Nat.add]. rewrite divide_step, <-rev_crc_bit, IH, Nat.iter_succ_r by
    (done || (by apply crc_bit_u32) || (assert (2 ^ Z.of_nat k ≤ 2 ^ Z.of_nat (n + k)) by (apply Z.pow_le_mono_r; lia); lia)). done.
Qed.

Lemma message_acc data : ∀ m, foldl (λ m b, Z.lxor (Z.shiftl m 8) (rev 8 b)) m data = Z.lxor (Z.shiftl m (8 * len data)) (message data).
Proof.
  induction data as [|b data IH]; intros m; [change (8 * len []) with 0; by rewrite Z.shiftl_0_r, Z.lxor_0_r|]. unfold message. cbn [foldl].
  rewrite (IH (Z.lxor (Z.shiftl m 8) (rev 8 b))), (IH (Z.lxor (Z.shiftl 0 8) (rev 8 b))). rewrite !Z.shiftl_lxor, !Z.shiftl_0_l, Z.lxor_0_l, !Z.lxor_assoc.
  f_equal. unfold len. cbn [length]. rewrite Z.shiftl_shiftl by lia. f_equal. lia.
Qed.

Lemma message_cons b data : message (b :: data) = Z.lxor (Z.shiftl (rev 8 b) (8 * len data)) (message data).
Proof. unfold message at 1. cbn [foldl]. by rewrite Z.shiftl_0_l, Z.lxor_0_l, message_acc. Qed.

Lemma message_range data : 0 ≤ message data < 2 ^ Z.of_nat (8 * length data).
Proof.
  induction data as [|b data IH]; [done|]. rewrite message_cons. pose proof (rev_nonneg 8 b) as H0. split.
  { apply Z.lxor_nonneg. split; intros _; [lia|by apply Z.shiftl_nonneg]. }
  set (x := Z.lxor _ _). destruct (decide (x ≤ 0)); [lia|]. apply Z.log2_lt_pow2; [lia|].
  destruct (decide (Z.log2 x < Z.of_nat (8 * length (b :: data)))); [done|]. pose proof (Z.bit_log2 x ltac:(lia)) as Hb.
  unfold x at 1 in Hb. cbn [length] in *. rewrite Z.lxor_spec, Z.shiftl_spec, rev_spec in Hb by lia. unfold len in Hb.
  rewrite (proj2 (Z.ltb_ge _ (Z.of_nat 8))), andb_false_r in Hb by lia. rewrite <-(Z.mod_small (message data) _ IH), Z.mod_pow2_bits_high in Hb by lia. done.
Qed.

Lemma crc32c_divides data : all_bytes data → ∀ s, is_u32 s →
  rev 32 (crc32c s data) = divide (8 * length data) (Z.lxor (Z.shiftl (rev 32 s) (8 * len data)) (Z.shiftl (message data) 32)).
Proof.
  induction 1 as [|b data Hb Hd IH]; intros s Hs.
  { change (8 * len []) with 0. cbn [divide length]. change (8 * 0)%nat with 0%nat. change (message []) with 0. by rewrite Z.shiftl_0_r, Z.shiftl_0_l, Z.lxor_0_r. }
  rewrite crc32c_cons, IH, message_cons by by apply crc_byte_u32. pose proof (message_range data) as Hm.
  replace (8 * length (b :: data))%nat with (8 + 8 * length data)%nat by (cbn [length]; lia).
  replace (8 * len data) with (Z.of_nat (8 * length data)) by (unfold len; lia). unfold crc_byte.
  rewrite <-(divide_steps 8) by (done || (apply lxor_u32; lia)). f_equal. rewrite rev_lxor, (rev_byte b) by done.
  replace (8 * len (b :: data)) with (Z.of_nat (8 + 8 * length data)) by (unfold len; cbn [length]; lia).
  rewrite !Z.shiftl_lxor, !Z.lxor_assoc, !Z.shiftl_shiftl by lia. do 3 f_equal. lia.
Qed.

(** ** Reading fields *)

Lemma seg_cons {A} a b (l : list A) x : 0 ≤ a < b → index l a = Some x → seg a b l = x :: seg (a + 1) b l.
Proof.
  unfold index, seg. intros Ha. rewrite (proj2 (Z.leb_le 0 a)) by lia. intros Hx. rewrite (drop_S _ _ _ Hx).
  replace (Z.to_nat (b - a)) with (S (Z.to_nat (b - (a + 1)))) by lia. cbn [take]. do 3 f_equal. lia.
Qed.

Lemma u16_at_ok l i : 0 ≤ i → i + 2 ≤ len l → u16_at l i = Some (of_le (seg i (i + 2) l)).
Proof.
  intros Hi Hl. destruct (index_Some l i ltac:(lia)) as (a & Ha & _). destruct (index_Some l (i + 1) ltac:(lia)) as (b & Hb & _).
  unfold u16_at. rewrite Ha, some_bind, Hb, some_bind. rewrite (seg_cons i _ _ a), (seg_cons (i + 1) _ _ b), seg_nil by (done || lia). done.
Qed.

Lemma u32_at_ok l i : 0 ≤ i → i + 4 ≤ len l → u32_at l i = Some (of_le (seg i (i + 4) l)).
Proof.
  intros Hi Hl. destruct (index_Some l i ltac:(lia)) as (a & Ha & _). destruct (index_Some l (i + 1) ltac:(lia)) as (b & Hb & _).
  destruct (index_Some l (i + 2) ltac:(lia)) as (c & Hc & _). destruct (index_Some l (i + 3) ltac:(lia)) as (d & Hd & _).
  unfold u32_at. rewrite Ha, some_bind, Hb, some_bind, Hc, some_bind, Hd, some_bind.
  rewrite (seg_cons i _ _ a), (seg_cons (i + 1) _ _ b) by (done || lia). replace (i + 1 + 1) with (i + 2) by lia.
  rewrite (seg_cons (i + 2) _ _ c) by (done || lia). replace (i + 2 + 1) with (i + 3) by lia. rewrite (seg_cons (i + 3) _ _ d), seg_nil by (done || lia). done.
Qed.

(** ** What a checksum covers *)

#[local] Opaque crc32c.

Definition hi_of (inode : list Z) : bool :=
  (EXT4_INODE_CHECKSUM_HI_OFFSET + 2 <=? len inode) && (EXT4_INODE_CSUM_HI_EXTRA_END <=? of_le (seg 128 130 inode)).

Lemma has_checksum_hi_eq inode : has_checksum_hi inode = Some (hi_of inode).
Proof.
  unfold has_checksum_hi, hi_of. destruct (Z.leb_spec (EXT4_INODE_CHECKSUM_HI_OFFSET + 2) (len inode)) as [Hl|Hl]; [|done].
  unfold EXT4_INODE_CHECKSUM_HI_OFFSET, EXT4_GOOD_OLD_INODE_SIZE in *. rewrite u16_at_ok by lia. done.
Qed.

(** The inode with its checksum fields zero. *)
Definition inode_image (inode : list Z) : list Z :=
  let im := splice EXT4_INODE_CHECKSUM_LO_OFFSET [0; 0] inode in
  if hi_of inode then splice EXT4_INODE_CHECKSUM_HI_OFFSET [0; 0] im else im.

Definition inode_generation (inode : list Z) : Z := of_le (seg 0x64 0x68 inode).

Ltac consts := unfold EXT4_GOOD_OLD_INODE_SIZE, EXT4_INODE_CHECKSUM_LO_OFFSET, EXT4_INODE_CHECKSUM_HI_OFFSET,
  EXT4_BG_BLOCK_BITMAP_CSUM_LO_OFFSET, EXT4_BG_INODE_BITMAP_CSUM_LO_OFFSET, EXT4_BG_CHECKSUM_OFFSET,
  EXT4_BG_BLOCK_BITMAP_CSUM_HI_OFFSET, EXT4_BG_INODE_BITMAP_CSUM_HI_OFFSET, EXT4_SUPERBLOCK_SIZE, EXT4_SUPERBLOCK_CHECKSUM_OFFSET in *.

Ltac bind := rewrite some_bind; cbv beta zeta.

(** Decides the comparisons of a decide_tests. *)
Ltac decide_tests := repeat match goal with
  | |- context [?a <? ?b] => first [rewrite (proj2 (Z.ltb_lt a b)) by lia | rewrite (proj2 (Z.ltb_ge a b)) by lia]
  | |- context [?a <=? ?b] => first [rewrite (proj2 (Z.leb_le a b)) by lia | rewrite (proj2 (Z.leb_gt a b)) by lia]
  end; cbn [orb andb negb].

Lemma len2 : len [0; 0] = 2.
Proof. reflexivity. Qed.

(** Side conditions on the lengths of strings. *)
Ltac lens := repeat (rewrite ?len_app, ?len_le, ?len2; first [rewrite len_seg by lens | rewrite len_splice by lens | idtac]); lia.

Ltac seg_splice := repeat match goal with
  | |- context [seg ?a ?b (splice ?c ?bs ?l)] =>
    first [rewrite (seg_splice_left a b c bs l) by lens | rewrite (seg_splice_right a b c bs l) by lens | rewrite (seg_splice_within a b bs l c) by lens]
  end.

Lemma image_parts inode : 132 ≤ len inode → inode_image inode =
  seg 0 124 inode ++ [0; 0] ++ seg 126 128 inode ++ seg 128 130 inode ++ (if hi_of inode then [0; 0] else seg 130 132 inode) ++ seg 132 (len inode) inode.
Proof.
  intros Hl. unfold inode_image. consts. assert (∀ l : list Z, 132 ≤ len l → splice 130 [0; 0] l = seg 0 124 l ++ seg 124 126 l ++ seg 126 128 l ++ seg 128 130 l ++ [0; 0] ++ seg 132 (len l) l) as Hhi.
  { intros l H. rewrite splice_parts, len2 by (rewrite ?len2; lia). rewrite <-(seg_app 0 128 130), <-(seg_app 0 126 128), <-(seg_app 0 124 126), <-!app_assoc by lia. done. }
  destruct (hi_of inode).
  - rewrite Hhi by (rewrite len_splice; rewrite ?len2; lia). rewrite len_splice by (rewrite ?len2; lia). seg_splice. done.
  - rewrite (seg_app 130 132), (seg_app 128 130), (seg_app 126 128) by lia. rewrite splice_parts, len2 by lens. done.
Qed.

(** Runs the reads and writes of a function whose bounds are known. *)
Ltac run := repeat match goal with
  | |- (?m ≫= _) = _ =>
    match m with
    | Some _ => bind
    | slice ?l ?a ?b => rewrite (slice_ok l a b) by lens
    | slice ?l ?a ?b ≫= ?f => rewrite (slice_ok l a b) by lens; rewrite (some_bind (seg a b l) f); cbv beta
    | put ?l ?a ?bs => rewrite (put_in l bs a) by lens
    | u16_at ?l ?i => rewrite (u16_at_ok l i) by lens
    | u32_at ?l ?i => rewrite (u32_at_ok l i) by lens
    | has_checksum_hi ?l => rewrite (has_checksum_hi_eq l)
    end
  end.

Lemma extra_checksum_eq checksum inode : 132 ≤ len inode →
  extra_checksum checksum inode =
  Some (crc32c checksum (seg 128 130 inode ++ (if hi_of inode then [0; 0] else seg 130 132 inode) ++ seg 132 (len inode) inode)).
Proof.
  intros Hl. unfold extra_checksum. consts. decide_tests. rewrite Z.min_l by lia. decide_tests. run. rewrite !crc32c_app.
  destruct (hi_of inode); run; change (130 + 2) with 132; (destruct (Z.ltb_spec 132 (len inode)); [run|rewrite (seg_nil 132), crc32c_nil by lia]; done).
Qed.

Lemma inode_checksum_covers fs_seed ino inode : len inode = 128 ∨ 132 ≤ len inode →
  inode_checksum fs_seed ino inode = Some (Some (crc32c (inode_checksum_seed fs_seed ino (inode_generation inode)) (inode_image inode))).
Proof.
  intros Hl. unfold inode_checksum. consts. decide_tests. run. unfold inode_checksum_seed, inode_generation. destruct Hl as [Hl|Hl]; decide_tests.
  - bind. unfold inode_image, hi_of. consts. decide_tests. rewrite splice_parts, !crc32c_app, len2, Hl by lens. done.
  - rewrite extra_checksum_eq by done. bind. rewrite image_parts by done. rewrite !crc32c_app. done.
Qed.

(** ** Setting and computing again *)

Lemma le2_mod x : of_le (le 2 (x mod 2 ^ 16)) = x mod 2 ^ 16.
Proof. apply of_le_small. apply Z.mod_pos_bound. lia. Qed.

(** The bytes of the low part come first. *)
Lemma le_split n m x : le (n + m) x = le n x ++ le m (Z.shiftr x (8 * Z.of_nat n)).
Proof.
  revert x. induction n as [|n IH]; intros x; [by rewrite Z.shiftr_0_r|]. cbn [Nat.add]. rewrite !le_S, IH, Z.shiftr_shiftr by lia.
  replace (8 * Z.of_nat (S n)) with (8 + 8 * Z.of_nat n) by lia. done.
Qed.

Lemma le_mod n x : le n (x mod 2 ^ (8 * Z.of_nat n)) = le n x.
Proof. rewrite <-of_le_le. rewrite <-(length_le n x) at 1. apply le_of_le, le_bytes. Qed.

(** A checksum in its fields, given by offset and size, the low part first. *)
Fixpoint store (fs : list (Z * nat)) (c : Z) (b : list Z) : list Z :=
  match fs with
  | [] => b
  | (o, n) :: fs => store fs (Z.shiftr c (8 * Z.of_nat n)) (splice o (le n c) b)
  end.

Definition stored (fs : list (Z * nat)) (b : list Z) : Z := of_le (fs ≫= λ '(o, n), seg o (o + Z.of_nat n) b).

Definition in_fields (fs : list (Z * nat)) (i : Z) : Prop := Exists (λ f, f.1 ≤ i < f.1 + Z.of_nat f.2) fs.

(** One field, or two of which the second comes later. *)
Definition fields_ok (fs : list (Z * nat)) (n : Z) : Prop :=
  match fs with
  | [(o, k)] => 0 ≤ o ∧ o + Z.of_nat k ≤ n
  | [(o1, k1); (o2, k2)] => 0 ≤ o1 ∧ o1 + Z.of_nat k1 ≤ o2 ∧ o2 + Z.of_nat k2 ≤ n
  | _ => False
  end.

Lemma index_splice_out {A} i c (bs l : list A) : 0 ≤ c → c + len bs ≤ len l → ¬ c ≤ i < c + len bs → index (splice c bs l) i = index l i.
Proof. intros Hc Hl Hi. unfold index. case_match eqn:Hi0; [|done]. apply Z.leb_le in Hi0. rewrite lookup_splice by lia. rewrite decide_False by lia. done. Qed.

(** What is stored, and that nothing else changes. *)
Lemma store_ok fs c b : fields_ok fs (len b) →
  len (store fs c b) = len b ∧ stored fs (store fs c b) = c mod 2 ^ (8 * Z.of_nat (sum_list_with snd fs)) ∧
  ∀ i, ¬ in_fields fs i → index (store fs c b) i = index b i.
Proof.
  destruct fs as [|[o1 k1] [|[o2 k2] [|]]]; simpl; try done.
  - intros [H0 H1]. unfold stored. simpl. rewrite app_nil_r. assert (len (le k1 c) = Z.of_nat k1) as Hl by apply len_le.
    split_and!; [rewrite len_splice; lia| |].
    + rewrite <-Hl at 1. rewrite seg_splice_same, of_le_le by lia. f_equal. f_equal. lia.
    + intros i Hi. apply index_splice_out; [lia..|]. intros Hin. apply Hi. constructor. simpl. lia.
  - intros (H0 & H1 & H2). unfold stored. simpl. rewrite app_nil_r. set (hi := le k2 _). assert (len (le k1 c) = Z.of_nat k1) as Hl1 by apply len_le.
    assert (len hi = Z.of_nat k2) as Hl2 by apply len_le. assert (len (splice o1 (le k1 c) b) = len b) as Hs by (rewrite len_splice; lia).
    split_and!; [rewrite len_splice; lia| |].
    + rewrite (seg_splice_left o1) by lia. rewrite <-Hl1 at 1. rewrite seg_splice_same by lia. rewrite <-Hl2 at 1. rewrite seg_splice_same by lia.
      unfold hi. rewrite <-le_split, of_le_le. f_equal. f_equal. lia.
    + intros i Hi. rewrite (index_splice_out i o2), (index_splice_out i o1); [done|lia|lia| |lia|lia|]; intros Hin; apply Hi; [constructor|constructor 2; constructor]; simpl; lia.
Qed.

Lemma hi_of_splice lo inode : len lo = 2 → 128 ≤ len inode → hi_of (splice 124 lo inode) = hi_of inode.
Proof. intros Hlo Hl. unfold hi_of. consts. rewrite len_splice by lia. by rewrite seg_splice_right by lia. Qed.

Lemma image_splice_lo lo inode : len lo = 2 → 128 ≤ len inode → inode_image (splice 124 lo inode) = inode_image inode.
Proof.
  intros Hlo Hl. unfold inode_image. rewrite hi_of_splice by done. consts.
  rewrite splice_over by lens. done.
Qed.

Lemma hi_of_splice_hi hi inode : len hi = 2 → 132 ≤ len inode → hi_of (splice 130 hi inode) = hi_of inode.
Proof. intros Hlo Hl. unfold hi_of. consts. rewrite len_splice by lia. by rewrite seg_splice_left by lia. Qed.

Lemma image_splice_hi hi inode : len hi = 2 → hi_of inode = true → inode_image (splice 130 hi inode) = inode_image inode.
Proof.
  intros Hhi Hh. assert (132 ≤ len inode) as Hl.
  { unfold hi_of in Hh. apply andb_true_iff in Hh as [Hh%Z.leb_le _]. consts. lia. }
  unfold inode_image. rewrite hi_of_splice_hi, Hh by done. consts. rewrite (splice_twice 124) by lens. rewrite splice_over by lens. done.
Qed.

(** What is computed over the bytes of an inode. *)
Definition inode_crc (fs_seed ino : Z) (inode : list Z) : Z :=
  crc32c (inode_checksum_seed fs_seed ino (inode_generation inode)) (inode_image inode).

Definition inode_fields (inode : list Z) : list (Z * nat) :=
  if hi_of inode then [(EXT4_INODE_CHECKSUM_LO_OFFSET, 2%nat); (EXT4_INODE_CHECKSUM_HI_OFFSET, 2%nat)] else [(EXT4_INODE_CHECKSUM_LO_OFFSET, 2%nat)].

Lemma set_inode_checksum_ok fs_seed ino inode : len inode = 128 ∨ 132 ≤ len inode →
  let c := inode_crc fs_seed ino inode in let inode' := store (inode_fields inode) c inode in
  set_inode_checksum fs_seed ino inode = Some (Some c, inode') ∧ inode_checksum fs_seed ino inode' = Some (Some c) ∧ fields_ok (inode_fields inode) (len inode).
Proof.
  intros Hl c. pose proof (inode_checksum_covers fs_seed ino inode Hl) as Hc. fold (inode_crc fs_seed ino inode) in Hc. fold c in Hc.
  set (lo := le 2 c). assert (len lo = 2) as Hlo by apply len_le.
  set (hi := le 2 (Z.shiftr c 16)). assert (len hi = 2) as Hhi by apply len_le.
  assert (∀ i', len i' = len inode → inode_image i' = inode_image inode → seg 0x64 0x68 i' = seg 0x64 0x68 inode →
    inode_checksum fs_seed ino i' = Some (Some c)) as Hsame.
  { intros i' H1 H2 H3. rewrite inode_checksum_covers by lia. unfold c, inode_crc, inode_generation. by rewrite H2, H3. }
  unfold set_inode_checksum, inode_fields. rewrite Hc. bind. cbn iota. consts.
  rewrite (le_mod 2 c : le 2 (c mod 2 ^ 16) = _), (le_mod 2 (Z.shiftr c 16) : le 2 (Z.shiftr c 16 mod 2 ^ 16) = _).
  fold lo hi. rewrite put_in by lia. bind. rewrite has_checksum_hi_eq, hi_of_splice by lia. bind.
  destruct (hi_of inode) eqn:Hh; cbn [store fields_ok]; change (8 * Z.of_nat 2) with 16; fold lo hi.
  - assert (132 ≤ len inode) by (unfold hi_of in Hh; apply andb_true_iff in Hh as [Hh%Z.leb_le _]; consts; lia).
    assert (len (splice 124 lo inode) = len inode) as Hls by (rewrite len_splice; lia).
    rewrite put_in by lia. bind. split_and!; [done| |lia..]. apply Hsame.
    + rewrite len_splice; lia.
    + rewrite image_splice_hi, image_splice_lo by (done || lia || (rewrite hi_of_splice by lia; done)). done.
    + rewrite !seg_splice_left by lia. done.
  - bind. split_and!; [done| |lia..]. apply Hsame; [rewrite len_splice; lia|apply image_splice_lo; lia|]. rewrite !seg_splice_left by lia. done.
Qed.

Definition bitmap_fields (kind : BitmapKind) (d : list Z) : list (Z * nat) :=
  let '(low_offset, high_offset) := csum_offsets kind in
  if high_offset + 2 <=? len d then [(low_offset, 2%nat); (high_offset, 2%nat)] else [(low_offset, 2%nat)].

Lemma set_bitmap_checksum_ok seed bitmap d kind : (csum_offsets kind).1 + 2 ≤ len d →
  set_bitmap_checksum seed bitmap d kind = Some (Some (crc32c seed bitmap), store (bitmap_fields kind d) (crc32c seed bitmap) d) ∧ fields_ok (bitmap_fields kind d) (len d).
Proof.
  intros Hl. unfold set_bitmap_checksum, bitmap_fields, bitmap_checksum. set (c := crc32c seed bitmap).
  rewrite (le_mod 2 c : le 2 (c mod 2 ^ 16) = _), (le_mod 2 (Z.shiftr c 16) : le 2 (Z.shiftr c 16 mod 2 ^ 16) = _).
  set (lo := le 2 c). assert (len lo = 2) as Hlo by apply len_le. set (hi := le 2 (Z.shiftr c 16)). assert (len hi = 2) as Hhi by apply len_le.
  assert (∃ o1 o2, csum_offsets kind = (o1, o2) ∧ 0 ≤ o1 ∧ o1 + 2 ≤ o2) as (o1 & o2 & Ho & H1 & H2) by (destruct kind; eexists _, _; (split; [reflexivity|consts; lia])).
  rewrite Ho in *. simpl in Hl. assert (len (splice o1 lo d) = len d) as Hs by (rewrite len_splice; lia).
  rewrite (proj2 (Z.ltb_ge (len d) (o1 + 2))) by lia. cbv zeta. rewrite put_in by lia. bind. rewrite Hs.
  destruct (Z.leb_spec (o2 + 2) (len d)); cbn [store fields_ok]; change (8 * Z.of_nat 2) with 16; fold lo hi.
  - rewrite put_in by lia. bind. split; [done|lia].
  - bind. split; [done|lia].
Qed.

Lemma group_desc_checksum_covers seed group d : 32 ≤ len d →
  group_desc_checksum seed group d = Some (Some (crc32c (crc32c seed (le 4 group)) (splice 30 [0; 0] d) mod 2 ^ 16)).
Proof.
  intros Hl. unfold group_desc_checksum. consts. decide_tests. run. rewrite splice_parts, !crc32c_app, len2 by lens. change (30 + 2) with 32.
  destruct (Z.ltb_spec 32 (len d)); [run|rewrite (seg_nil 32), crc32c_nil, some_bind by lia]; done.
Qed.

Definition desc_crc (seed group : Z) (d : list Z) : Z := crc32c (crc32c seed (le 4 group)) (splice 30 [0; 0] d) mod 2 ^ 16.

Lemma set_group_desc_checksum_ok seed group d : 32 ≤ len d →
  let c := desc_crc seed group d in let d' := splice 30 (le 2 c) d in
  set_group_desc_checksum seed group d = Some (Some c, d') ∧ group_desc_checksum seed group d' = Some (Some c).
Proof.
  intros Hl c. unfold set_group_desc_checksum. rewrite group_desc_checksum_covers by done. fold (desc_crc seed group d). fold c. bind. cbn iota. consts.
  assert (len (le 2 c) = 2) as H2 by apply len_le. rewrite put_in by lia. bind. split; [done|].
  rewrite group_desc_checksum_covers, splice_over by lens. done.
Qed.

Lemma superblock_checksum_covers sb : 1024 ≤ len sb → superblock_checksum sb = Some (Some (crc32c (2 ^ 32 - 1) (seg 0 1020 sb))).
Proof. intros Hl. unfold superblock_checksum. consts. decide_tests. run. done. Qed.

Lemma set_superblock_checksum_ok sb : 1024 ≤ len sb →
  let c := crc32c (2 ^ 32 - 1) (seg 0 1020 sb) in let sb' := splice 1020 (le 4 c) sb in
  set_superblock_checksum sb = Some (Some c, sb') ∧ superblock_checksum sb' = Some (Some c).
Proof.
  intros Hl c. unfold set_superblock_checksum. rewrite superblock_checksum_covers by done. fold c. bind. cbn iota. consts.
  assert (len (le 4 c) = 4) as H4 by apply len_le. rewrite put_in by lia. bind. split; [done|].
  rewrite superblock_checksum_covers by (rewrite len_splice; lia). unfold c at 2. do 3 f_equal. apply seg_splice_left; lia.
Qed.

(** The tail that makes a block a directory leaf with a checksum. *)
Definition leaf_tail (block : list Z) : bool :=
  bool_decide (seg (len block - 12) (len block - 12 + 4) block = [0; 0; 0; 0]) && (of_le (seg (len block - 8) (len block - 6) block) =? 12) &&
  bool_decide (index block (len block - 6) = Some 0) && bool_decide (index block (len block - 5) = Some 0xde).

Lemma dir_leaf_covers seed block : 12 ≤ len block →
  dir_leaf_checksum_with_inode_seed seed block = Some (if leaf_tail block then Some (crc32c seed (seg 0 (len block - 12) block)) else None).
Proof.
  intros Hl. unfold dir_leaf_checksum_with_inode_seed, leaf_tail. decide_tests. run.
  replace (len block - 12 + 6) with (len block - 6) by lia. replace (len block - 12 + 7) with (len block - 5) by lia.
  replace (len block - 12 + 4) with (len block - 8) by lia. replace (len block - 8 + 2) with (len block - 6) by lia.
  destruct (index_Some block (len block - 6) ltac:(lia)) as (b6 & H6 & _). destruct (index_Some block (len block - 5) ltac:(lia)) as (b7 & H7 & _).
  rewrite H6, H7. bind. bind. destruct (bool_decide_reflect (seg (len block - 12) (len block - 8) block = [0; 0; 0; 0])); [|done].
  destruct (of_le (seg (len block - 8) (len block - 6) block) =? 12); [|done]. cbn [negb orb andb].
  destruct (Z.eqb_spec b6 0) as [->|], (Z.eqb_spec b7 222) as [->|]; cbn [negb orb]; repeat first [rewrite bool_decide_true by done | rewrite bool_decide_false by congruence]; cbn [andb]; try done.
  run. done.
Qed.

Lemma index_splice_left {A} i c (bs l : list A) : 0 ≤ i < c → c + len bs ≤ len l → index (splice c bs l) i = index l i.
Proof. intros Hi Hl. unfold index. case_match; [|done]. rewrite lookup_splice by lia. case_decide; [lia|done]. Qed.

Lemma set_dir_leaf_ok seed block : 12 ≤ len block →
  if leaf_tail block then
    let c := crc32c seed (seg 0 (len block - 12) block) in let block' := splice (len block - 4) (le 4 c) block in
    set_dir_leaf_checksum_with_inode_seed seed block = Some (Some c, block') ∧ dir_leaf_checksum_with_inode_seed seed block' = Some (Some c)
  else set_dir_leaf_checksum_with_inode_seed seed block = Some (None, block).
Proof.
  intros Hl. unfold set_dir_leaf_checksum_with_inode_seed. rewrite dir_leaf_covers by done. destruct (leaf_tail block) eqn:Ht; [|done].
  set (c := crc32c _ _). bind. cbn iota. replace (len block - 12 + 8) with (len block - 4) by lia. assert (len (le 4 c) = 4) as H4 by apply len_le.
  rewrite put_in by lia. bind. set (b' := splice _ _ _). assert (len b' = len block) as Hb' by (unfold b'; rewrite len_splice; lia). split; [done|].
  rewrite dir_leaf_covers, Hb' by lia. assert (leaf_tail b' = true) as ->.
  { rewrite <-Ht. unfold leaf_tail. rewrite Hb'. unfold b'. rewrite !seg_splice_left, !index_splice_left by lia. done. }
  do 2 f_equal. unfold c. f_equal. unfold b'. rewrite seg_splice_left by lia. done.
Qed.

(** Where the checksum of an extent node lies, when the node is large enough. *)
Lemma extent_tail_offset_eq block : 12 ≤ len block → all_bytes block →
  extent_tail_offset block =
  Some (let t := 12 + 12 * of_le (seg 4 6 block) in if t + 4 <=? len block then Some t else None).
Proof.
  intros Hl Hb. unfold extent_tail_offset. decide_tests. run. pose proof (of_le_range (seg 4 6 block) (Forall_seg _ _ _ _ Hb)) as Hr.
  assert (length (seg 4 6 block) = 2%nat) as H2 by (pose proof (len_seg 4 6 block ltac:(lia) ltac:(lia)) as H2; unfold len in H2; lia).
  rewrite H2 in Hr. change (2 ^ (8 * Z.of_nat 2)) with 65536 in Hr. set (x := of_le _) in *. clearbody x. clear Hb H2. unfold checked_mul. change USIZE_MAX with 18446744073709551615.
  decide_tests. step_some. unfold checked_add. change USIZE_MAX with 18446744073709551615. decide_tests. step_some. decide_tests. step_some.
  replace (12 + x * 12) with (12 + 12 * x) by lia. f_equal. destruct (Z.ltb_spec (len block) (12 + 12 * x + 4)), (Z.leb_spec (12 + 12 * x + 4) (len block)); (lia || done).
Qed.

Lemma extent_node_covers seed block : 12 ≤ len block → all_bytes block →
  let t := 12 + 12 * of_le (seg 4 6 block) in
  extent_node_checksum_with_inode_seed seed block = Some (if t + 4 <=? len block then Some (crc32c seed (seg 0 t block)) else None).
Proof.
  intros Hl Hb t. assert (0 ≤ of_le (seg 4 6 block)) as Hx by apply of_le_range, Forall_seg, Hb.
  unfold extent_node_checksum_with_inode_seed. rewrite extent_tail_offset_eq by done. fold t. cbv zeta. bind.
  destruct (Z.leb_spec (t + 4) (len block)); [run|]; done.
Qed.

Lemma set_extent_node_ok seed block : 12 ≤ len block → all_bytes block →
  let t := 12 + 12 * of_le (seg 4 6 block) in
  0 ≤ t ∧
  if t + 4 <=? len block then
    let c := crc32c seed (seg 0 t block) in let block' := splice t (le 4 c) block in
    set_extent_node_checksum_with_inode_seed seed block = Some (Some c, block') ∧ extent_node_checksum_with_inode_seed seed block' = Some (Some c)
  else set_extent_node_checksum_with_inode_seed seed block = Some (None, block).
Proof.
  intros Hl Hb t. assert (0 ≤ of_le (seg 4 6 block)) as Hx by apply of_le_range, Forall_seg, Hb. split; [lia|].
  unfold set_extent_node_checksum_with_inode_seed. rewrite extent_node_covers, extent_tail_offset_eq by done. fold t.
  destruct (Z.leb_spec (t + 4) (len block)) as [Ht|Ht]; [|done]. cbv zeta. set (c := crc32c _ _). bind. cbn iota. bind. cbn iota.
  assert (len (le 4 c) = 4) as H4 by apply len_le. decide_tests. rewrite put_in by lia. bind. set (b' := splice _ _ _).
  assert (len b' = len block) as Hb' by (unfold b'; rewrite len_splice; lia). split; [done|].
  assert (all_bytes b') by (apply Forall_splice; [apply le_bytes|done]). rewrite extent_node_covers, Hb' by (done || lia). unfold b'. rewrite seg_splice_left by lia. fold t. decide_tests.
  rewrite seg_splice_left by lia. done.
Qed.

(** No length of an inode makes the function panic. *)
Lemma extra_checksum_total c inode : 128 < len inode < 132 → ∃ c', extra_checksum c inode = Some c'.
Proof.
  intros Hl. unfold extra_checksum. consts. destruct (Z.min_spec 130 (len inode)) as [[? ->]|[? ->]]; decide_tests; eexists; run; unfold hi_of; consts; decide_tests; run; reflexivity.
Qed.

Lemma inode_checksum_total fs_seed ino inode : ∃ r, inode_checksum fs_seed ino inode = Some r ∧ (r = None ↔ len inode < 128).
Proof.
  destruct (decide (len inode < 128)).
  { exists None. unfold inode_checksum. consts. decide_tests. done. }
  destruct (decide (len inode = 128 ∨ 132 ≤ len inode)) as [Hl|Hl].
  { eexists. split; [by apply inode_checksum_covers|]. split; [done|lia]. }
  destruct (extra_checksum_total (crc32c (crc32c (crc32c (crc32c (crc32c fs_seed (le 4 ino)) (le 4 (of_le (seg 100 (100 + 4) inode)))) (seg 0 124 inode)) [0; 0])
    (seg (124 + 2) 128 inode)) inode ltac:(lia)) as [c' Hc'].
  exists (Some c'). split; [|split; [done|lia]]. unfold inode_checksum. consts. decide_tests. run. rewrite Hc'. run. reflexivity.
Qed.

(** ** All kinds of metadata *)

Inductive metadata_kind :=
  | KInode (fs_seed ino : Z)
  | KBitmap (seed : Z) (bitmap : list Z) (kind : BitmapKind)
  | KGroupDesc (seed group : Z)
  | KSuperblock
  | KDirLeaf (fs_seed ino generation : Z)
  | KExtentNode (fs_seed ino generation : Z).

(** The function that stores the checksum, and the one that computes it; the checksum of
    a bitmap does not depend on the descriptor that holds it. *)
Definition set_checksum (k : metadata_kind) (b : list Z) : option (option Z * list Z) :=
  match k with
  | KInode fs_seed ino => set_inode_checksum fs_seed ino b
  | KBitmap seed bitmap kind => set_bitmap_checksum seed bitmap b kind
  | KGroupDesc seed group => set_group_desc_checksum seed group b
  | KSuperblock => set_superblock_checksum b
  | KDirLeaf fs_seed ino generation => set_dir_leaf_checksum fs_seed ino generation b
  | KExtentNode fs_seed ino generation => set_extent_node_checksum fs_seed ino generation b
  end.

Definition checksum (k : metadata_kind) (b : list Z) : option (option Z) :=
  match k with
  | KInode fs_seed ino => inode_checksum fs_seed ino b
  | KBitmap seed bitmap _ => Some (Some (bitmap_checksum seed bitmap))
  | KGroupDesc seed group => group_desc_checksum seed group b
  | KSuperblock => superblock_checksum b
  | KDirLeaf fs_seed ino generation => dir_leaf_checksum fs_seed ino generation b
  | KExtentNode fs_seed ino generation => extent_node_checksum fs_seed ino generation b
  end.

(** Whether there is room for a checksum, where it is, and what it should be. *)
Definition extent_tail (b : list Z) : Z := 12 + 12 * of_le (seg 4 6 b).

Definition has_checksum (k : metadata_kind) (b : list Z) : bool :=
  match k with
  | KInode _ _ => 128 <=? len b
  | KBitmap _ _ kind => (csum_offsets kind).1 + 2 <=? len b
  | KGroupDesc _ _ => 32 <=? len b
  | KSuperblock => 1024 <=? len b
  | KDirLeaf _ _ _ => (12 <=? len b) && leaf_tail b
  | KExtentNode _ _ _ => (12 <=? len b) && (extent_tail b + 4 <=? len b)
  end.

Definition checksum_fields (k : metadata_kind) (b : list Z) : list (Z * nat) :=
  match k with
  | KInode _ _ => inode_fields b
  | KBitmap _ _ kind => bitmap_fields kind b
  | KGroupDesc _ _ => [(30, 2%nat)]
  | KSuperblock => [(1020, 4%nat)]
  | KDirLeaf _ _ _ => [(len b - 4, 4%nat)]
  | KExtentNode _ _ _ => [(extent_tail b, 4%nat)]
  end.

Definition expected_checksum (k : metadata_kind) (b : list Z) : Z :=
  match k with
  | KInode fs_seed ino => inode_crc fs_seed ino b
  | KBitmap seed bitmap _ => crc32c seed bitmap
  | KGroupDesc seed group => desc_crc seed group b
  | KSuperblock => crc32c (2 ^ 32 - 1) (seg 0 1020 b)
  | KDirLeaf fs_seed ino generation => crc32c (inode_checksum_seed fs_seed ino generation) (seg 0 (len b - 12) b)
  | KExtentNode fs_seed ino generation => crc32c (inode_checksum_seed fs_seed ino generation) (seg 0 (extent_tail b) b)
  end.

(** The sizes of inodes on disk: 128 bytes, or 256 and more. *)
Definition size_ok (k : metadata_kind) (b : list Z) : Prop :=
  match k with KInode _ _ => len b ≤ 128 ∨ 132 ≤ len b | _ => True end.

Lemma set_checksum_ok k b : all_bytes b → size_ok k b →
  if has_checksum k b then
    let c := expected_checksum k b in let b' := store (checksum_fields k b) c b in
    set_checksum k b = Some (Some c, b') ∧ checksum k b' = Some (Some c) ∧ fields_ok (checksum_fields k b) (len b)
  else set_checksum k b = Some (None, b).
Proof.
  intros Hb Hsz. destruct k as [fs ino|seed bm kind|seed g| |fs ino g|fs ino g]; simpl in *.
  - destruct (Z.leb_spec 128 (len b)); [apply set_inode_checksum_ok; lia|]. unfold set_inode_checksum, inode_checksum. consts. decide_tests. done.
  - destruct (Z.leb_spec ((csum_offsets kind).1 + 2) (len b)) as [Hl|Hl].
    + destruct (set_bitmap_checksum_ok seed bm b kind Hl) as [H1 H2]. by split_and!.
    + unfold set_bitmap_checksum. destruct (csum_offsets kind) as [lo hi]. simpl in Hl. decide_tests. done.
  - destruct (Z.leb_spec 32 (len b)) as [Hl|Hl]; [destruct (set_group_desc_checksum_ok seed g b Hl); split_and!; (done || lia)|].
    unfold set_group_desc_checksum, group_desc_checksum. consts. decide_tests. done.
  - destruct (Z.leb_spec 1024 (len b)) as [Hl|Hl]; [destruct (set_superblock_checksum_ok b Hl); split_and!; (done || lia)|].
    unfold set_superblock_checksum, superblock_checksum. consts. decide_tests. done.
  - unfold set_dir_leaf_checksum, dir_leaf_checksum. set (seed := inode_checksum_seed fs ino g). destruct (Z.leb_spec 12 (len b)) as [Hl|Hl]; cbn [andb].
    + pose proof (set_dir_leaf_ok seed b Hl) as H. destruct (leaf_tail b); [|done]. destruct H. split_and!; (done || lia).
    + unfold set_dir_leaf_checksum_with_inode_seed, dir_leaf_checksum_with_inode_seed. decide_tests. done.
  - unfold set_extent_node_checksum, extent_node_checksum. set (seed := inode_checksum_seed fs ino g). destruct (Z.leb_spec 12 (len b)) as [Hl|Hl]; cbn [andb].
    + destruct (set_extent_node_ok seed b Hl Hb) as [Ht H]. fold (extent_tail b) in Ht, H. destruct (Z.leb_spec (extent_tail b + 4) (len b)); [|done].
      destruct H. split_and!; (done || lia).
    + unfold set_extent_node_checksum_with_inode_seed, extent_node_checksum_with_inode_seed, extent_tail_offset. decide_tests. done.
Qed.

Module ChecksumProps.

(** C17 The bitwise loop computes the CRC of its definition: with the bits of the register in
    order, it is the remainder of the message, with the seed in front of it, by the
    Castagnoli polynomial, found by long division over GF(2). *)
Theorem crc32c_is_remainder seed data : is_u32 seed → all_bytes data →
  rev 32 (crc32c seed data) = divide (8 * length data) (Z.lxor (Z.shiftl (rev 32 seed) (8 * len data)) (Z.shiftl (message data) 32)) ∧
  is_u32 (crc32c seed data).
Proof. intros Hs Hd. split; [by apply crc32c_divides|by apply crc32c_u32]. Qed.

(** The check value of the unit test. *)
Lemma crc32c_is_remainder_witness :
  crc32c (2 ^ 32 - 1) [49; 50; 51; 52; 53; 54; 55; 56; 57] = 0x1cf96d7c ∧
  divide 72 (Z.lxor (Z.shiftl (rev 32 (2 ^ 32 - 1)) 72) (Z.shiftl (message [49; 50; 51; 52; 53; 54; 55; 56; 57]) 32)) = rev 32 0x1cf96d7c.
Proof.
  assert (is_u32 (2 ^ 32 - 1)) as Hs by lia. assert (all_bytes [49; 50; 51; 52; 53; 54; 55; 56; 57]) as Hd by (repeat constructor; lia).
  pose proof (crc32c_is_remainder _ _ Hs Hd) as [H _]. split; [vm_compute; reflexivity|]. etransitivity; [symmetry; exact H|]. vm_compute. reflexivity.
Defined.

(** C40 Two messages of one length that differ within four consecutive bytes have different
    checksums. *)
Theorem crc32c_detects_bursts seed before x y after : is_u32 seed → all_bytes before → all_bytes x → all_bytes y → all_bytes after →
  length x = length y → (length x ≤ 4)%nat → x ≠ y →
  crc32c seed (before ++ x ++ after) ≠ crc32c seed (before ++ y ++ after).
Proof.
  intros Hs Hb Hx Hy Ha Hl H4 Hne He. rewrite !crc32c_app in He. apply crc32c_seed_inj in He; [|done|by apply crc32c_u32, Hx; apply crc32c_u32|by apply crc32c_u32, Hy; apply crc32c_u32].
  apply crc32c_window_inj in He; [done|by apply crc32c_u32|done..].
Qed.

Lemma crc32c_detects_bursts_witness : crc32c 7 ([1] ++ [2; 3; 4; 5] ++ [6]) ≠ crc32c 7 ([1] ++ [5; 4; 3; 2] ++ [6]).
Proof. apply (crc32c_detects_bursts 7 [1] [2; 3; 4; 5] [5; 4; 3; 2] [6]); [lia|repeat constructor; lia..|reflexivity|simpl; lia|discriminate]. Defined.



End ChecksumProps.
