(* ===== verification/Ext4Super.v ===== *)
(** * Superblock, group descriptors and journal superblock of ext4
      (os/src/ext4fs/superblock.rs, os/src/ext4fs/blockgroup.rs and the journal part of
      os/src/ext4fs/ext4.rs)

    The packed structures are lists of fields with their widths, in the order of the
    source; an offset is the sum of the widths before a field.  The in-memory superblock
    and group are records read from raw bytes.  The functions that change a raw superblock
    or journal superblock in place take and return its bytes. *)

From stdpp Require Import strings.

From S2P Require Import Prelude Bytes Ext4Checksum.

Local Open Scope Z_scope.

(** ** Layout of packed structures *)

Definition layout := list (string * Z).

Fixpoint offset_of (l : layout) (f : string) : option (Z * Z) :=
  match l with
  | [] => None
  | (g, w) :: l => if bool_decide (f = g) then Some (0, w) else ('(o, w') ← offset_of l f; Some (w + o, w'))
  end.

Definition size_of (l : layout) : Z := foldr (λ f n, snd f + n) 0 l.

(** A field read from bytes. *)
Definition field (l : layout) (f : string) (raw : list Z) : option Z :=
  '(o, w) ← offset_of l f; s ← slice raw o (o + w); Some (of_le s).

Local Open Scope string_scope.

Definition Ext4SuperBlockDisk : layout :=
  [("s_inodes_count", 4); ("s_blocks_count_lo", 4); ("s_r_blocks_count_lo", 4); ("s_free_blocks_count_lo", 4);
   ("s_free_inodes_count", 4); ("s_first_data_block", 4); ("s_log_block_size", 4); ("s_log_cluster_size", 4);
   ("s_blocks_per_group", 4); ("s_clusters_per_group", 4); ("s_inodes_per_group", 4); ("s_mtime", 4); ("s_wtime", 4);
   ("s_mnt_count", 2); ("s_max_mnt_count", 2); ("s_magic", 2); ("s_state", 2); ("s_errors", 2); ("s_minor_rev_level", 2);
   ("s_lastcheck", 4); ("s_checkinterval", 4); ("s_creator_os", 4); ("s_rev_level", 4); ("s_def_resuid", 2); ("s_def_resgid", 2);
   ("s_first_ino", 4); ("s_inode_size", 2); ("s_block_group_nr", 2); ("s_feature_compat", 4); ("s_feature_incompat", 4);
   ("s_feature_ro_compat", 4); ("s_uuid", 16); ("s_volume_name", 16); ("s_last_mounted", 64); ("s_algorithm_usage_bitmap", 4);
   ("s_prealloc_blocks", 1); ("s_prealloc_dir_blocks", 1); ("s_reserved_gdt_blocks", 2); ("s_journal_uuid", 16);
   ("s_journal_inum", 4); ("s_journal_dev", 4); ("s_last_orphan", 4); ("s_hash_seed", 16); ("s_def_hash_version", 1);
   ("s_jnl_backup_type", 1); ("s_desc_size", 2); ("s_default_mount_opts", 4); ("s_first_meta_bg", 4); ("s_mkfs_time", 4);
   ("s_jnl_blocks", 68); ("s_blocks_count_hi", 4); ("s_r_blocks_count_hi", 4); ("s_free_blocks_count_hi", 4);
   ("s_min_extra_isize", 2); ("s_want_extra_isize", 2); ("s_flags", 4); ("s_raid_stride", 2); ("s_mmp_interval", 2);
   ("s_mmp_block", 8); ("s_raid_stripe_width", 4); ("s_log_groups_per_flex", 1); ("s_checksum_type", 1);
   ("s_encryption_level", 1); ("s_reserved_pad", 1); ("s_kbytes_written", 8); ("s_snapshot_inum", 4); ("s_snapshot_id", 4);
   ("s_snapshot_r_blocks_count", 8); ("s_snapshot_list", 4); ("s_error_count", 4); ("s_first_error_time", 4);
   ("s_first_error_ino", 4); ("s_first_error_block", 8); ("s_first_error_func", 32); ("s_first_error_line", 4);
   ("s_last_error_time", 4); ("s_last_error_ino", 4); ("s_last_error_line", 4); ("s_last_error_block", 8);
   ("s_last_error_func", 32); ("s_mount_opts", 64); ("s_usr_quota_inum", 4); ("s_grp_quota_inum", 4); ("s_overhead_blocks", 4);
   ("s_backup_bgs", 8); ("s_encrypt_algos", 4); ("s_encrypt_pw_salt", 16); ("s_lpf_ino", 4); ("s_prj_quota_inum", 4);
   ("s_checksum_seed", 4); ("s_wtime_hi", 1); ("s_mtime_hi", 1); ("s_mkfs_time_hi", 1); ("s_lastcheck_hi", 1);
   ("s_first_error_time_hi", 1); ("s_last_error_time_hi", 1); ("s_first_error_errcode", 1); ("s_last_error_errcode", 1);
   ("s_encoding", 2); ("s_encoding_flags", 2); ("s_orphan_file_inum", 4); ("s_reserved", 376); ("s_checksum", 4)].

Definition Ext4GroupDescDisk : layout :=
  [("bg_block_bitmap_lo", 4); ("bg_inode_bitmap_lo", 4); ("bg_inode_table_lo", 4); ("bg_free_blocks_count_lo", 2);
   ("bg_free_inodes_count_lo", 2); ("bg_used_dirs_count_lo", 2); ("bg_flags", 2); ("bg_exclude_bitmap_lo", 4);
   ("bg_block_bitmap_csum_lo", 2); ("bg_inode_bitmap_csum_lo", 2); ("bg_itable_unused_lo", 2); ("bg_checksum", 2);
   ("bg_block_bitmap_hi", 4); ("bg_inode_bitmap_hi", 4); ("bg_inode_table_hi", 4); ("bg_free_blocks_count_hi", 2);
   ("bg_free_inodes_count_hi", 2); ("bg_used_dirs_count_hi", 2); ("bg_itable_unused_hi", 2); ("bg_exclude_bitmap_hi", 4);
   ("bg_block_bitmap_csum_hi", 2); ("bg_inode_bitmap_csum_hi", 2); ("bg_reserved", 4)].

Definition Ext4InodeDisk : layout :=
  [("i_mode", 2); ("i_uid", 2); ("i_size_lo", 4); ("i_atime", 4); ("i_ctime", 4); ("i_mtime", 4); ("i_dtime", 4); ("i_gid", 2);
   ("i_links_count", 2); ("i_blocks_lo", 4); ("i_flags", 4); ("l_i_osd1", 4); ("i_block", 60); ("i_generation", 4);
   ("i_file_acl_lo", 4); ("i_size_high", 4); ("i_obso_faddr", 4); ("l_i_osd2", 12)].

Local Open Scope Z_scope.

(** ** The superblock in memory *)

Definition EXT4_MAGIC : Z := 0xEF53.
Definition EXT4_SUPERBLOCK_STATE_OFFSET : Z := 0x3a.
Definition EXT4_SUPERBLOCK_FEATURE_INCOMPAT_OFFSET : Z := 0x60.
Definition EXT4_FEATURE_INCOMPAT_RECOVER : Z := 0x0004.
Definition EXT4_FEATURE_RO_COMPAT_ORPHAN_PRESENT : Z := 0x00010000.
Definition EXT4_VALID_FS : Z := 0x0001.

Record Ext4SuperBlock := MkSuper {
  total_blocks : Z;
  total_inodes : Z;
  block_size : Z;
  inode_size : Z;
  blocks_per_group : Z;
  inodes_per_group : Z;
  first_data_block : Z;
  incompat_features : Z;
  compat_features : Z;
  ro_compat_features : Z;
  sb_state : Z;
  uuid : list Z;
  journal_inum : Z;
  journal_dev : Z;
  last_orphan : Z;
  checksum_seed : Z;
  checksum_type : Z;
  want_extra_isize : Z;
  reserved_gdt_blocks : Z;
  first_ino : Z;
  backup_bgs : list Z;
  desc_size : Z;
}.

(** [Ext4SuperBlock::new]; the shift by [s_log_block_size] panics from 32 on and drops the
    bits above [u32] below that. *)
Definition superblock_new (raw : list Z) : option Ext4SuperBlock :=
  let get f := field Ext4SuperBlockDisk f raw in
  magic ← get "s_magic";
  blocks_hi ← get "s_blocks_count_hi";
  if negb (magic =? EXT4_MAGIC) then None
  else if negb (blocks_hi =? 0) then None
  else
    blocks ← get "s_blocks_count_lo"; inodes ← get "s_inodes_count"; log_bs ← get "s_log_block_size";
    isize ← get "s_inode_size"; bpg ← get "s_blocks_per_group"; ipg ← get "s_inodes_per_group";
    fdb ← get "s_first_data_block"; inc ← get "s_feature_incompat"; com ← get "s_feature_compat"; ro ← get "s_feature_ro_compat";
    st ← get "s_state"; '(uo, uw) ← offset_of Ext4SuperBlockDisk "s_uuid"; u ← slice raw uo (uo + uw);
    ji ← get "s_journal_inum"; jd ← get "s_journal_dev"; lo ← get "s_last_orphan"; cs ← get "s_checksum_seed"; ct ← get "s_checksum_type";
    we ← get "s_want_extra_isize"; rg ← get "s_reserved_gdt_blocks"; fi ← get "s_first_ino";
    '(bo, _) ← offset_of Ext4SuperBlockDisk "s_backup_bgs"; b0 ← slice raw bo (bo + 4); b1 ← slice raw (bo + 4) (bo + 8);
    ds ← get "s_desc_size";
    if 32 <=? log_bs then None
    else Some (MkSuper blocks inodes (Z.shiftl 1024 log_bs mod 2 ^ 32) isize bpg ipg fdb inc com ro st u ji jd lo cs ct we rg fi
           [of_le b0; of_le b1] (if negb (Z.land inc 0x0080 =? 0) then ds else 32)).

Definition sat_sub32 (a b : Z) : Z := Z.max 0 (a - b).
Definition sat_add32 (a b : Z) : Z := Z.min (2 ^ 32 - 1) (a + b).
Definition sat_mul32 (a b : Z) : Z := Z.min (2 ^ 32 - 1) (a * b).

(** No blocks per group: [blocks_per_group - 1] underflows. *)
Definition group_num (sb : Ext4SuperBlock) : option Z :=
  if blocks_per_group sb =? 0 then None
  else Some (sat_add32 (sat_sub32 (total_blocks sb) (first_data_block sb)) (blocks_per_group sb - 1) / blocks_per_group sb).

Definition has_metadata_csum (sb : Ext4SuperBlock) : bool :=
  negb (Z.land (ro_compat_features sb) 0x0400 =? 0) && (checksum_type sb =? 1).

Definition has_csum_seed (sb : Ext4SuperBlock) : bool := negb (Z.land (incompat_features sb) 0x2000 =? 0).

Definition has_bigalloc (sb : Ext4SuperBlock) : bool := negb (Z.land (ro_compat_features sb) 0x0200 =? 0).

Definition has_journal (sb : Ext4SuperBlock) : bool := negb (Z.land (compat_features sb) 0x0004 =? 0).

Definition needs_recovery (sb : Ext4SuperBlock) : bool :=
  negb (Z.land (incompat_features sb) EXT4_FEATURE_INCOMPAT_RECOVER =? 0).

Definition has_pending_orphan_recovery (sb : Ext4SuperBlock) : bool :=
  negb (last_orphan sb =? 0) || negb (Z.land (ro_compat_features sb) EXT4_FEATURE_RO_COMPAT_ORPHAN_PRESENT =? 0).

Definition metadata_checksum_seed (sb : Ext4SuperBlock) : Z :=
  if has_csum_seed sb then checksum_seed sb else crc32c (2 ^ 32 - 1) (uuid sb).

(** ** Changes of the raw superblock *)

Definition clear_needs_recovery_in_raw (superblock : list Z) : option (bool * list Z) :=
  if len superblock <? EXT4_SUPERBLOCK_SIZE then Some (false, superblock)
  else
    s ← slice superblock EXT4_SUPERBLOCK_FEATURE_INCOMPAT_OFFSET (EXT4_SUPERBLOCK_FEATURE_INCOMPAT_OFFSET + 4);
    let incompat := of_le s in
    let updated := Z.ldiff incompat EXT4_FEATURE_INCOMPAT_RECOVER in
    if updated =? incompat then Some (false, superblock)
    else superblock ← put superblock EXT4_SUPERBLOCK_FEATURE_INCOMPAT_OFFSET (le 4 updated); Some (true, superblock).

Definition mark_recovery_discarded_in_raw (superblock : list Z) : option (bool * list Z) :=
  if len superblock <? EXT4_SUPERBLOCK_SIZE then Some (false, superblock)
  else
    s ← slice superblock EXT4_SUPERBLOCK_STATE_OFFSET (EXT4_SUPERBLOCK_STATE_OFFSET + 2);
    let state := of_le s in
    let updated := Z.ldiff state EXT4_VALID_FS in
    if state =? updated then Some (false, superblock)
    else superblock ← put superblock EXT4_SUPERBLOCK_STATE_OFFSET (le 2 updated); Some (true, superblock).

(** ** Groups *)

Record Ext4Group := MkGroup {
  group_id : Z;
  block_bitmap_id : Z;
  inode_bitmap_id : Z;
  inode_table_id : Z;
  free_blocks_count : Z;
  free_inodes_count : Z;
  used_dirs_count : Z;
  itable_unused : Z;
  g_flags : Z;
}.

(** The high half of a counter, zero in a short descriptor. *)
Definition desc_high (desc : list Z) (offset : Z) : option Z := if offset + 2 <=? len desc then u16_at desc offset else Some 0.

Definition desc_count (desc : list Z) (lo hi : Z) : option Z :=
  l ← u16_at desc lo; h ← desc_high desc hi; Some (Z.lor l (Z.shiftl h 16 mod 2 ^ 32)).

Definition group_new (group_id : Z) (desc : list Z) : option Ext4Group :=
  if len desc <? 32 then None
  else
    wide ← (if 64 <=? len desc then
              a ← u32_at desc 0x20; b ← u32_at desc 0x24; c ← u32_at desc 0x28;
              Some (negb (a =? 0) || negb (b =? 0) || negb (c =? 0))
            else Some false);
    if (wide : bool) then None
    else
      bb ← u32_at desc 0; ib ← u32_at desc 4; it ← u32_at desc 8;
      fb ← desc_count desc 0x0c 0x2c; fi ← desc_count desc 0x0e 0x2e; ud ← desc_count desc 0x10 0x30; iu ← desc_count desc 0x1c 0x32;
      fl ← u16_at desc 0x12;
      Some (MkGroup group_id bb ib it fb fi ud iu fl).

(** ** The journal superblock *)

Definition JBD2_MAGIC : Z := 0xc03b3998.
Definition JBD2_SUPERBLOCK_V1 : Z := 3.
Definition JBD2_SUPERBLOCK_V2 : Z := 4.
Definition JBD2_SUPERBLOCK_SIZE : Z := 1024.
Definition JBD2_BLOCKSIZE_OFFSET : Z := 0x0c.
Definition JBD2_MAXLEN_OFFSET : Z := 0x10.
Definition JBD2_FIRST_OFFSET : Z := 0x14.
Definition JBD2_START_OFFSET : Z := 0x1c.
Definition JBD2_FEATURE_INCOMPAT_OFFSET : Z := 0x28.
Definition JBD2_CHECKSUM_TYPE_OFFSET : Z := 0x50.
Definition JBD2_HEAD_OFFSET : Z := 0x58.
Definition JBD2_CHECKSUM_OFFSET : Z := 0xfc.
Definition JBD2_CRC32C_CHECKSUM : Z := 4.
Definition JBD2_FEATURE_INCOMPAT_CSUM_V2 : Z := 0x00000008.
Definition JBD2_FEATURE_INCOMPAT_CSUM_V3 : Z := 0x00000010.
Definition BLOCK_SZ : Z := 4096.

(** [to_be_bytes] and [from_be_bytes]. *)
Definition be (n : nat) (x : Z) : list Z := reverse (le n x).
Definition of_be (l : list Z) : Z := of_le (reverse l).

(** [bytes.get(offset..offset + 4)]: out of range is [None], not a panic. *)
Definition read_be_u32 (bytes : list Z) (offset : Z) : option Z := s ← slice bytes offset (offset + 4); Some (of_be s).
Definition read_le_u32 (bytes : list Z) (offset : Z) : option Z := s ← slice bytes offset (offset + 4); Some (of_le s).
Definition read_le_u16 (bytes : list Z) (offset : Z) : option Z := s ← slice bytes offset (offset + 2); Some (of_le s).

Inductive journal_error := JournalShort | NotJbd2 | UnknownType | BlockSizeMismatch | UnknownChecksum.

(** The head of the log of a version 2 superblock, put back into the log when it lies
    outside. *)
Definition repair_head (journal : list Z) : option (bool * list Z) :=
  maxlen ← read_be_u32 journal JBD2_MAXLEN_OFFSET;
  first ← read_be_u32 journal JBD2_FIRST_OFFSET;
  old_head ← read_be_u32 journal JBD2_HEAD_OFFSET;
  if negb (first =? 0) && (first <? maxlen) && ((old_head <? first) || (maxlen <=? old_head))
  then journal ← put journal JBD2_HEAD_OFFSET (be 4 first); Some (true, journal)
  else Some (false, journal).

Definition clear_journal (journal : list Z) (v2 has_checksum : bool) : option (bool * list Z) :=
  old_start ← read_be_u32 journal JBD2_START_OFFSET;
  old_checksum ← (if has_checksum then read_be_u32 journal JBD2_CHECKSUM_OFFSET else Some 0);
  journal ← put journal JBD2_START_OFFSET (be 4 0);
  '(head_repaired, journal) ← (if v2 then repair_head journal else Some (false, journal));
  if has_checksum then
    journal ← put journal JBD2_CHECKSUM_OFFSET [0; 0; 0; 0];
    let checksum := crc32c (2 ^ 32 - 1) journal in
    journal ← put journal JBD2_CHECKSUM_OFFSET (be 4 checksum);
    Some (negb (old_start =? 0) || head_repaired || negb (old_checksum =? checksum), journal)
  else Some (negb (old_start =? 0) || head_repaired, journal).

(** The source works on the first 1024 bytes of the block it is given. *)
Definition clear_jbd2_journal_start_in_raw (block : list Z) : option ((journal_error + bool) * list Z) :=
  if len block <? JBD2_SUPERBLOCK_SIZE then Some (inl JournalShort, block)
  else
    journal ← slice block 0 JBD2_SUPERBLOCK_SIZE;
    if negb (bool_decide (read_be_u32 journal 0 = Some JBD2_MAGIC)) then Some (inl NotJbd2, block)
    else
      let type := read_be_u32 journal 4 in
      if negb (bool_decide (type = Some JBD2_SUPERBLOCK_V1)) && negb (bool_decide (type = Some JBD2_SUPERBLOCK_V2)) then Some (inl UnknownType, block)
      else
        let v2 := bool_decide (type = Some JBD2_SUPERBLOCK_V2) in
        if negb (bool_decide (read_be_u32 journal JBD2_BLOCKSIZE_OFFSET = Some BLOCK_SZ)) then Some (inl BlockSizeMismatch, block)
        else
          incompat ← (if v2 then read_be_u32 journal JBD2_FEATURE_INCOMPAT_OFFSET else Some 0);
          let has_checksum := negb (Z.land incompat (Z.lor JBD2_FEATURE_INCOMPAT_CSUM_V2 JBD2_FEATURE_INCOMPAT_CSUM_V3) =? 0) in
          kind ← index journal JBD2_CHECKSUM_TYPE_OFFSET;
          if has_checksum && negb (kind =? JBD2_CRC32C_CHECKSUM) then Some (inl UnknownChecksum, block)
          else
            '(changed, journal) ← clear_journal journal v2 has_checksum;
            block ← put block 0 journal;
            Some (inr changed, block).

(** ** Lemmas *)

Lemma len_be n x : len (be n x) = Z.of_nat n.
Proof. unfold be, len. by rewrite length_reverse, length_le. Qed.

Lemma of_be_be n x : 0 ≤ x < 2 ^ (8 * Z.of_nat n) → of_be (be n x) = x.
Proof. intros Hx. unfold of_be, be. rewrite reverse_involutive. by apply of_le_small. Qed.

Lemma be_bytes n x : all_bytes (be n x).
Proof. unfold be. apply Forall_reverse, le_bytes. Qed.

Lemma of_be_range l : all_bytes l → len l = 4 → is_u32 (of_be l).
Proof.
  intros Hb Hl. unfold of_be. pose proof (of_le_range (reverse l) (proj2 (Forall_reverse _ _) Hb)) as Hr. rewrite length_reverse in Hr.
  unfold len in Hl. replace (length l) with 4%nat in Hr by lia. exact Hr.
Qed.

Lemma read_be_ok l i : 0 ≤ i → i + 4 ≤ len l → read_be_u32 l i = Some (of_be (seg i (i + 4) l)).
Proof. intros Hi Hl. unfold read_be_u32. rewrite slice_ok by lia. done. Qed.

(** The journal superblock with an empty log. *)
Record journal_clean (journal : list Z) (v2 has_checksum : bool) : Prop := {
  jc_len : len journal = 1024;
  jc_start : seg 28 32 journal = be 4 0;
  jc_head : v2 = true → let first := of_be (seg 20 24 journal) in let maxlen := of_be (seg 16 20 journal) in let head := of_be (seg 88 92 journal) in
    first ≠ 0 → first < maxlen → first ≤ head < maxlen;
  jc_checksum : has_checksum = true → seg 252 256 journal = be 4 (crc32c (2 ^ 32 - 1) (splice 252 [0; 0; 0; 0] journal));
  jc_bytes : all_bytes journal;
}.

(** Only these ranges differ. *)
Definition journal_same (j j' : list Z) : Prop :=
  len j' = len j ∧ ∀ a b, 0 ≤ a → (b ≤ 28 ∨ 32 ≤ a ∧ b ≤ 88 ∨ 92 ≤ a ∧ b ≤ 252 ∨ 256 ≤ a) → seg a b j' = seg a b j.

Ltac joffsets := unfold JBD2_SUPERBLOCK_SIZE, JBD2_BLOCKSIZE_OFFSET, JBD2_MAXLEN_OFFSET, JBD2_FIRST_OFFSET, JBD2_START_OFFSET,
  JBD2_FEATURE_INCOMPAT_OFFSET, JBD2_CHECKSUM_TYPE_OFFSET, JBD2_HEAD_OFFSET, JBD2_CHECKSUM_OFFSET in *.

Lemma journal_same_splice j j' a bs : journal_same j j' → len j = 1024 → (a = 28 ∨ a = 88 ∨ a = 252) → len bs = 4 → journal_same j (splice a bs j').
Proof.
  intros [Hl Hs] Hj Ha Hb. split; [rewrite len_splice; lia|]. intros x y Hx Hxy. rewrite <-(Hs x y Hx Hxy).
  destruct (decide (y ≤ a)); [by rewrite seg_splice_left by lia|]. destruct (decide (a + 4 ≤ x)); [by rewrite seg_splice_right by lia|].
  rewrite !seg_nil by lia. done.
Qed.

Lemma repair_head_ok j : len j = 1024 → all_bytes j → seg 28 32 j = be 4 0 →
  ∃ b j', repair_head j = Some (b, j') ∧ len j' = 1024 ∧ all_bytes j' ∧ seg 28 32 j' = be 4 0 ∧
    (j' = j ∨ j' = splice 88 (be 4 (of_be (seg 20 24 j))) j) ∧
    (let first := of_be (seg 20 24 j') in let maxlen := of_be (seg 16 20 j') in let head := of_be (seg 88 92 j') in
     first ≠ 0 → first < maxlen → first ≤ head < maxlen) ∧
    (b = false → j' = j).
Proof.
  intros Hl Hb Hs. unfold repair_head. joffsets. rewrite !read_be_ok by lia. step_some. step_some. step_some.
  change (16 + 4) with 20. change (20 + 4) with 24. change (88 + 4) with 92. set (first := of_be (seg 20 24 j)). set (maxlen := of_be (seg 16 20 j)). set (head := of_be (seg 88 92 j)).
  assert (is_u32 first) as Hf by (apply of_be_range; [by apply Forall_seg|rewrite len_seg; lia]).
  destruct (_ && _) eqn:Hc.
  - rewrite put_in by (rewrite ?len_be; lia). step_some. eexists _, _. split; [done|]. rewrite len_splice by (rewrite ?len_be; lia).
    split_and!; [done|by apply Forall_splice; [apply be_bytes|]|rewrite seg_splice_left by (rewrite ?len_be; lia); done|by right| |done].
    rewrite !seg_splice_left by (rewrite ?len_be; lia). fold first maxlen. replace 92 with (88 + len (be 4 first)) by (rewrite len_be; lia).
    rewrite seg_splice_same by (rewrite ?len_be; lia). rewrite of_be_be by done. cbv zeta. intros H1 H2. lia.
  - exists false, j. split_and!; [done..|by left| |done]. cbv zeta. fold first maxlen head. intros H1 H2.
    rewrite (proj2 (Z.eqb_neq first 0)), (proj2 (Z.ltb_lt first maxlen)) in Hc by done. cbn [negb andb] in Hc. apply orb_false_iff in Hc as [?%Z.ltb_ge ?%Z.leb_gt]. lia.
Qed.

Lemma clear_journal_ok j v2 csum : len j = 1024 → all_bytes j →
  ∃ b j', clear_journal j v2 csum = Some (b, j') ∧ journal_clean j' v2 csum ∧ journal_same j j'.
Proof.
  intros Hl Hb. unfold clear_journal. joffsets. rewrite !read_be_ok by lia. step_some.
  assert ((if csum then Some (of_be (seg 252 (252 + 4) j)) else Some 0) = Some (if csum then of_be (seg 252 (252 + 4) j) else 0)) as -> by by destruct csum. step_some.
  rewrite put_in by (rewrite ?len_be; lia). step_some. set (j1 := splice 28 (be 4 0) j).
  assert (len (be 4 0) = 4) as L0 by apply len_be. assert (len j1 = 1024) as Hl1 by (unfold j1; rewrite len_splice; lia).
  assert (all_bytes j1) as Hb1 by by apply Forall_splice; [apply be_bytes|]. assert (seg 28 32 j1 = be 4 0) as Hs1 by (apply (seg_splice_same 28 (be 4 0)); lia).
  assert (journal_same j j1) as Hsame1 by (apply journal_same_splice; [done|lia..]).
  assert (∃ b j2, (if v2 then repair_head j1 else Some (false, j1)) = Some (b, j2) ∧ len j2 = 1024 ∧ all_bytes j2 ∧ seg 28 32 j2 = be 4 0 ∧
    journal_same j j2 ∧ (v2 = true → let first := of_be (seg 20 24 j2) in let maxlen := of_be (seg 16 20 j2) in let head := of_be (seg 88 92 j2) in
     first ≠ 0 → first < maxlen → first ≤ head < maxlen)) as (b & j2 & -> & Hl2 & Hb2 & Hs2 & Hsame2 & Hh2).
  { destruct v2; [|by exists false, j1]. destruct (repair_head_ok j1 Hl1 Hb1 Hs1) as (b & j2 & H1 & H2 & H3 & H4 & H5 & H6 & _). exists b, j2.
    split_and!; try done. destruct H5 as [->| ->]; [done|]. apply journal_same_splice; [done|lia|lia|apply len_be]. }
  step_some. destruct csum.
  - set (c := crc32c (2 ^ 32 - 1) (splice 252 [0; 0; 0; 0] j2)). assert (len [0; 0; 0; 0] = 4) as LZ by done.
    rewrite put_in by lia. step_some. assert (len (splice 252 [0; 0; 0; 0] j2) = 1024) as Hl3 by (rewrite len_splice; lia). fold c.
    assert (len (be 4 c) = 4) as Lc by apply len_be. rewrite put_in by lia. step_some. rewrite splice_over by lia.
    eexists _, _. split; [done|]. split; [|apply journal_same_splice; (done || lia)].
    assert (∀ a b, 0 ≤ a → b ≤ 252 → seg a b (splice 252 (be 4 c) j2) = seg a b j2) as Hsm by (intros x y Hx Hy; apply seg_splice_left; lia).
    split; [rewrite len_splice; lia|by rewrite Hsm by lia|intros Hv; rewrite !Hsm by lia; by apply Hh2| |].
    + intros _. rewrite splice_over by lia. fold c. apply (seg_splice_same 252 (be 4 c)); lia.
    + apply Forall_splice; [apply be_bytes|done].
  - eexists _, _. split; [done|]. split; [|done]. by split.
Qed.

Lemma clear_journal_again j v2 csum : journal_clean j v2 csum → clear_journal j v2 csum = Some (false, j).
Proof.
  intros [Hl Hs Hh Hc Hb]. unfold clear_journal. joffsets. rewrite !read_be_ok by lia. step_some.
  assert ((if csum then Some (of_be (seg 252 (252 + 4) j)) else Some 0) = Some (if csum then of_be (seg 252 (252 + 4) j) else 0)) as -> by by destruct csum. step_some.
  change (28 + 4) with 32. rewrite Hs. change (of_be (be 4 0)) with 0. assert (len (be 4 0) = 4) as L0 by apply len_be.
  rewrite put_in by lia. step_some. rewrite splice_self by (try done; lia).
  assert ((if v2 then repair_head j else Some (false, j)) = Some (false, j)) as ->.
  { destruct v2; [|done]. unfold repair_head. joffsets. rewrite !read_be_ok by lia. step_some. step_some. step_some. specialize (Hh eq_refl). cbv zeta in Hh.
    change (16 + 4) with 20. change (20 + 4) with 24. change (88 + 4) with 92.
    destruct (Z.eqb_spec (of_be (seg 20 24 j)) 0), (Z.ltb_spec (of_be (seg 20 24 j)) (of_be (seg 16 20 j))); cbn [negb andb]; try done.
    specialize (Hh ltac:(done) ltac:(done)). rewrite (proj2 (Z.ltb_ge _ _)), (proj2 (Z.leb_gt _ _)) by lia. done. }
  step_some. change (negb (0 =? 0)) with false. destruct csum; [|done]. specialize (Hc eq_refl). set (c := crc32c _ _) in Hc. assert (len [0; 0; 0; 0] = 4) as LZ by done.
  rewrite put_in by lia. step_some. assert (len (splice 252 [0; 0; 0; 0] j) = 1024) as Hl3 by (rewrite len_splice; lia). fold c.
  assert (len (be 4 c) = 4) as Lc by apply len_be. rewrite put_in by lia. step_some. rewrite splice_over, splice_self by (try lia; change (252 + 4) with 256; rewrite ?Lc; done).
  change (252 + 4) with 256. rewrite Hc, of_be_be, Z.eqb_refl; [done|]. apply crc32c_u32; [lia|]. apply Forall_splice; [repeat constructor; lia|done].
Qed.

Lemma index_seg {A} (l : list A) i : 0 ≤ i → index l i = seg i (i + 1) l !! 0%nat.
Proof.
  intros Hi. unfold index. rewrite (proj2 (Z.leb_le 0 i)) by done. rewrite lookup_seg by done. rewrite decide_True by lia. f_equal. lia.
Qed.

Lemma journal_same_fields j j' : journal_same j j' → len j = 1024 →
  read_be_u32 j' 0 = read_be_u32 j 0 ∧ read_be_u32 j' 4 = read_be_u32 j 4 ∧ read_be_u32 j' 12 = read_be_u32 j 12 ∧
  read_be_u32 j' 40 = read_be_u32 j 40 ∧ index j' 80 = index j 80.
Proof.
  intros [Hl Hs] Hj. rewrite !read_be_ok, !index_seg by lia. rewrite !Hs by lia. done.
Qed.

Module SuperProps.

(** The offsets the code uses on raw bytes are those of the packed structures. *)
Theorem layouts_agree :
  size_of Ext4SuperBlockDisk = EXT4_SUPERBLOCK_SIZE ∧ size_of Ext4GroupDescDisk = 64 ∧ size_of Ext4InodeDisk = EXT4_GOOD_OLD_INODE_SIZE ∧
  offset_of Ext4SuperBlockDisk "s_checksum" = Some (EXT4_SUPERBLOCK_CHECKSUM_OFFSET, 4) ∧
  offset_of Ext4SuperBlockDisk "s_state" = Some (EXT4_SUPERBLOCK_STATE_OFFSET, 2) ∧
  offset_of Ext4SuperBlockDisk "s_feature_incompat" = Some (EXT4_SUPERBLOCK_FEATURE_INCOMPAT_OFFSET, 4) ∧
  offset_of Ext4SuperBlockDisk "s_free_blocks_count_lo" = Some (0x0c, 4) ∧ offset_of Ext4SuperBlockDisk "s_free_blocks_count_hi" = Some (0x158, 4) ∧
  offset_of Ext4SuperBlockDisk "s_free_inodes_count" = Some (0x10, 4) ∧
  offset_of Ext4GroupDescDisk "bg_block_bitmap_csum_lo" = Some (fst (csum_offsets BlockBitmap), 2) ∧
  offset_of Ext4GroupDescDisk "bg_block_bitmap_csum_hi" = Some (snd (csum_offsets BlockBitmap), 2) ∧
  offset_of Ext4GroupDescDisk "bg_inode_bitmap_csum_lo" = Some (fst (csum_offsets InodeBitmap), 2) ∧
  offset_of Ext4GroupDescDisk "bg_inode_bitmap_csum_hi" = Some (snd (csum_offsets InodeBitmap), 2) ∧
  offset_of Ext4GroupDescDisk "bg_checksum" = Some (EXT4_BG_CHECKSUM_OFFSET, 2) ∧
  offset_of Ext4InodeDisk "i_generation" = Some (0x64, 4) ∧ offset_of Ext4InodeDisk "i_flags" = Some (0x20, 4) ∧
  offset_of Ext4InodeDisk "i_block" = Some (0x28, 60) ∧ offset_of Ext4InodeDisk "i_links_count" = Some (0x1a, 2).
Proof. vm_compute. repeat split; reflexivity. Qed.

(** Discarding a journal never panics.  It refuses a block that is no JBD2 superblock of
    this block size and leaves it as it is; otherwise the log is empty afterwards, the
    checksum is right, only the start, the head and the checksum have changed, and doing it
    again changes nothing. *)
Theorem journal_emptied block : JBD2_SUPERBLOCK_SIZE ≤ len block → all_bytes block →
  ∃ r block', clear_jbd2_journal_start_in_raw block = Some (r, block') ∧
    match r with
    | inl _ => block' = block
    | inr _ =>
      read_be_u32 block' JBD2_START_OFFSET = Some 0 ∧ journal_same (seg 0 1024 block) (seg 0 1024 block') ∧
      seg 1024 (len block) block' = seg 1024 (len block) block ∧
      clear_jbd2_journal_start_in_raw block' = Some (inr false, block')
    end.
Proof.
  intros Hl Hb. set (j := seg 0 1024 block). assert (len j = 1024) as Hj by (unfold j; rewrite len_seg; joffsets; lia). assert (all_bytes j) as Hbj by by apply Forall_seg.
  assert (∀ blk : list Z, 1024 ≤ len blk → slice blk 0 JBD2_SUPERBLOCK_SIZE = Some (seg 0 1024 blk)) as Hsl by (intros blk H; apply slice_ok; joffsets; lia).
  assert (∀ blk : list Z, 1024 ≤ len blk → (len blk <? JBD2_SUPERBLOCK_SIZE) = false) as Hlt by (intros blk H; apply Z.ltb_ge; joffsets; lia). joffsets.
  unfold clear_jbd2_journal_start_in_raw. joffsets. rewrite Hlt, Hsl by done. step_some. fold j.
  destruct (bool_decide (read_be_u32 j 0 = Some JBD2_MAGIC)) eqn:Hmagic; cbn [negb]; [|by eexists _, _].
  destruct (_ && _) eqn:Htype; [by eexists _, _|]. destruct (bool_decide (read_be_u32 j 12 = Some BLOCK_SZ)) eqn:Hbs; cbn [negb]; [|by eexists _, _].
  set (v2 := bool_decide (read_be_u32 j 4 = Some JBD2_SUPERBLOCK_V2)) in *.
  assert (∃ inc, (if v2 then read_be_u32 j 40 else Some 0) = Some inc) as [inc Hinc] by (destruct v2; [|by eexists]; rewrite read_be_ok by lia; by eexists).
  rewrite Hinc. step_some. set (csum := negb _). destruct (index_Some j 80 ltac:(lia)) as (kind & Hkind & _). rewrite Hkind. step_some.
  destruct (csum && negb (kind =? JBD2_CRC32C_CHECKSUM)) eqn:Hcs; [by eexists _, _|]. destruct (clear_journal_ok j v2 csum Hj Hbj) as (b & j' & -> & Hclean & Hsame).
  step_some. pose proof (jc_len _ _ _ Hclean) as Hj'. rewrite put_in by lia. step_some. exists (inr b), (splice 0 j' block). split; [done|].
  set (block' := splice 0 j' block). assert (len block' = len block) as Hl' by (apply len_splice; lia).
  assert (seg 0 1024 block' = j') as Hs' by (unfold block'; rewrite seg_splice_within by lia; rewrite !Z.sub_0_r; by apply seg_all).
  destruct (journal_same_fields j j' Hsame Hj) as (F0 & F4 & F12 & F40 & F80). split_and!.
  - rewrite read_be_ok by lia. rewrite <-(seg_seg 0 1024 28 (28 + 4)) at 1 by lia. rewrite Hs'. change (28 + 4) with 32. rewrite (jc_start _ _ _ Hclean). done.
  - by rewrite Hs'.
  - unfold block'. apply seg_splice_right; lia.
  - rewrite Hlt, Hsl by lia. step_some. rewrite Hs', F0, F4, F12, F40, F80, Hmagic. fold v2. rewrite Htype, Hbs. cbn [negb]. rewrite Hinc. step_some. rewrite Hkind. step_some. fold csum.
    rewrite Hcs, clear_journal_again by done. step_some. rewrite put_in by lia. step_some. do 2 f_equal. apply splice_self; [lia..|]. rewrite Z.add_0_l, Hj'. done.
Qed.

(** The journal of the unit test: version 2, checksum version 3, a log that starts at
    0x143c. *)
Definition demo_journal : list Z :=
  splice 0x80 [0xa5] (splice 0x58 (be 4 0x1a92) (splice 0x50 [4] (splice 0x28 (be 4 0x10) (splice 0x1c (be 4 0x143c) (splice 0x14 (be 4 1)
  (splice 0x10 (be 4 8192) (splice 0x0c (be 4 4096) (splice 4 (be 4 4) (splice 0 (be 4 JBD2_MAGIC) (zeros 1024)))))))))).

Lemma journal_emptied_witness : ∃ r block', clear_jbd2_journal_start_in_raw demo_journal = Some (r, block') ∧ r = inr true.
Proof.
  assert (all_bytes demo_journal) as Hb.
  { unfold demo_journal. repeat first [apply Forall_zeros | apply Forall_splice; [first [apply be_bytes | repeat constructor; lia]|]]. }
  assert (JBD2_SUPERBLOCK_SIZE ≤ len demo_journal) as Hl by (vm_compute; discriminate).
  destruct (journal_emptied demo_journal Hl Hb) as (r & b' & H & _). exists r, b'. split; [exact H|].
  assert (fst <$> clear_jbd2_journal_start_in_raw demo_journal = Some (inr true)) as Hr by (vm_compute; reflexivity). rewrite H in Hr. by injection Hr.
Defined.

End SuperProps.
