(* ===== verification/Ext4Dirent.v ===== *)
(** * Records of an ext4 directory (os/src/ext4fs/ext4_dir_entry.rs)

    Decoding, encoding and changing one variable-length record of a directory block, and
    the chain of records that fills a block.  A slice is a byte string; a function that
    takes [&mut [u8]] returns the new bytes, under the [option] of a panic. *)

From S2P Require Import Prelude Bytes Ext4Checksum.

Local Open Scope Z_scope.

Definition EXT4_DIR_ENTRY_HEADER_LEN : Z := 8.
Definition EXT4_DIR_ENTRY_MAX_NAME_LEN : Z := 255.

(** The header has eight bytes, so its indices are in range. *)
Definition decode_header (buf : list Z) : option (Z * Z * Z * Z) :=
  header ← slice buf 0 EXT4_DIR_ENTRY_HEADER_LEN;
  let inode := of_le (seg 0 4 header) in
  let rec_len := of_le (seg 4 6 header) in
  let name_len := of_le (seg 6 7 header) in
  let file_type := of_le (seg 7 8 header) in
  if (rec_len <? EXT4_DIR_ENTRY_HEADER_LEN) || negb (rec_len mod 4 =? 0) || (len buf <? rec_len) ||
     (rec_len - EXT4_DIR_ENTRY_HEADER_LEN <? name_len)
  then None
  else Some (inode, rec_len, name_len, file_type).

Record Ext4DirEntry := MkDirEntry {
  de_bytes : list Z;
  de_inode : Z;
  de_rec_len : Z;
  de_name_len : Z;
  de_file_type : Z;
}.

(** [decode_header] has checked that [rec_len] bytes are there. *)
Definition from_bytes (buf : list Z) : option Ext4DirEntry :=
  '(inode, rec_len, name_len, file_type) ← decode_header buf;
  Some (MkDirEntry (seg 0 rec_len buf) inode rec_len name_len file_type).

Definition name_bytes (e : Ext4DirEntry) : option (list Z) :=
  slice (de_bytes e) EXT4_DIR_ENTRY_HEADER_LEN (EXT4_DIR_ENTRY_HEADER_LEN + de_name_len e).

Definition linux_dirent_type (e : Ext4DirEntry) : Z :=
  match de_file_type e with
  | 1 => 8 | 2 => 4 | 3 => 2 | 4 => 6 | 5 => 1 | 6 => 12 | 7 => 10 | _ => 0
  end.

(** [!3] on [usize] *)
Definition record_len (name_len : Z) : option Z :=
  if EXT4_DIR_ENTRY_MAX_NAME_LEN <? name_len then None
  else Some (Z.land (EXT4_DIR_ENTRY_HEADER_LEN + name_len + 3) (U64_MAX - 3)).

(** [expect]: a panic when there is no length. *)
Definition real_len (e : Ext4DirEntry) : option Z := record_len (de_name_len e).

Definition write_to (buf : list Z) (inode rec_len : Z) (name : list Z) (file_type : Z) : option (bool * list Z) :=
  match record_len (len name) with
  | None => Some (false, buf)
  | Some min_len =>
    if (rec_len <? min_len) || (len buf <? rec_len) || negb (rec_len mod 4 =? 0) then Some (false, buf)
    else
      let record := zeros rec_len in
      record ← put record 0 (le 4 inode);
      record ← put record 4 (le 2 rec_len);
      record ← put record 6 [len name mod 2 ^ 8];
      record ← put record 7 [file_type];
      record ← put record EXT4_DIR_ENTRY_HEADER_LEN name;
      buf ← put buf 0 record;
      Some (true, buf)
  end.

Definition set_inode (buf : list Z) (inode : Z) : option (bool * list Z) :=
  match decode_header buf with
  | None => Some (false, buf)
  | Some _ => buf ← put buf 0 (le 4 inode); Some (true, buf)
  end.

Definition set_file_type (buf : list Z) (file_type : Z) : option (bool * list Z) :=
  match decode_header buf with
  | None => Some (false, buf)
  | Some _ => buf ← put buf 7 [file_type]; Some (true, buf)
  end.

Definition set_rec_len (buf : list Z) (rec_len : Z) : option (bool * list Z) :=
  match decode_header buf with
  | None => Some (false, buf)
  | Some (_, _, name_len, _) =>
    min_len ← record_len name_len;
    if (rec_len <? min_len) || (len buf <? rec_len) || negb (rec_len mod 4 =? 0) then Some (false, buf)
    else buf ← put buf 4 (le 2 rec_len); Some (true, buf)
  end.

Definition is_checksum_tail (e : Ext4DirEntry) : bool :=
  (de_inode e =? 0) && (de_rec_len e =? 12) && (de_name_len e =? 0) && (de_file_type e =? 0xDE).

(** ** Lemmas on records *)

Definition entry_name (e : Ext4DirEntry) : list Z := seg 8 (8 + de_name_len e) (de_bytes e).

(** The bytes of a record: the entry that decodes from them and takes all of them. *)
Record is_entry (E : list Z) (e : Ext4DirEntry) : Prop := {
  ie_bytes : de_bytes e = E;
  ie_rec : de_rec_len e = len E;
  ie_inode : de_inode e = of_le (seg 0 4 E);
  ie_reclen : of_le (seg 4 6 E) = len E;
  ie_name : de_name_len e = of_le (seg 6 7 E);
  ie_type : de_file_type e = of_le (seg 7 8 E);
  ie_min : 8 ≤ len E;
  ie_mod : len E mod 4 = 0;
  ie_fits : de_name_len e ≤ len E - 8;
  ie_all : all_bytes E;
}.

Lemma of_le_1 E i : all_bytes E → 0 ≤ i < len E → 0 ≤ of_le (seg i (i + 1) E) < 256.
Proof.
  intros Hb Hi. pose proof (of_le_range (seg i (i + 1) E) (Forall_seg _ _ _ _ Hb)) as Hr.
  pose proof (len_seg i (i + 1) E ltac:(lia) ltac:(lia)) as Hl. unfold len in Hl. replace (length (seg i (i + 1) E)) with 1%nat in Hr by lia. exact Hr.
Qed.

Lemma entry_name_range E e : is_entry E e → 0 ≤ de_name_len e < 256.
Proof. intros [_ _ _ _ -> _ Hm _ _ Hb]. apply (of_le_1 E 6); [done|lia]. Qed.

(** A record decodes from any bytes that start with it. *)
Lemma from_bytes_entry E e rest : is_entry E e → from_bytes (E ++ rest) = Some e.
Proof.
  intros He. pose proof (entry_name_range E e He) as Hn. destruct He as [Hb Hr Hi Hrl Hnm Ht Hm H4 Hf _]. pose proof (len_nonneg rest) as H0.
  assert (∀ a b, 0 ≤ a → b ≤ len E → seg a b (E ++ rest) = seg a b E) as Hseg.
  { intros a b Ha Hbb. unfold seg. unfold len in *. destruct (decide (b ≤ a)); [by replace (Z.to_nat (b - a)) with 0%nat by lia|].
    rewrite drop_app_le by lia. rewrite take_app_le; [done|]. rewrite length_drop. lia. }
  unfold from_bytes, decode_header, EXT4_DIR_ENTRY_HEADER_LEN. rewrite slice_ok by (rewrite ?len_app; lia). step_some. rewrite !seg_seg by lia.
  rewrite !Z.add_0_l. rewrite !Hseg, Hrl, len_app by lia. rewrite (proj2 (Z.ltb_ge (len E) 8)) by lia. rewrite (proj2 (Z.eqb_eq (len E mod 4) 0)) by done.
  rewrite (proj2 (Z.ltb_ge _ (len E))), (proj2 (Z.ltb_ge (len E - 8) _)) by lia. cbn [orb negb]. step_some. rewrite Hseg by lia.
  rewrite seg_0_len. destruct e. cbn in *. congruence.
Qed.

Lemma from_bytes_Some buf e : all_bytes buf → from_bytes buf = Some e →
  ∃ E rest, buf = E ++ rest ∧ is_entry E e.
Proof.
  intros Hb. unfold from_bytes, decode_header, EXT4_DIR_ENTRY_HEADER_LEN. intros H. apply bind_Some in H as ([[[ino rl] nl] ft] & H & He).
  apply bind_Some in H as (hd & (H1 & H2 & ->)%slice_Some & H). rewrite !seg_seg, !Z.add_0_l in H by lia.
  destruct (Z.ltb_spec (of_le (seg 4 6 buf)) 8) as [|H8]; [done|]. destruct (Z.eqb_spec (of_le (seg 4 6 buf) mod 4) 0) as [H4|]; [|done].
  destruct (Z.ltb_spec (len buf) (of_le (seg 4 6 buf))) as [|Hl]; [done|]. destruct (Z.ltb_spec (of_le (seg 4 6 buf) - 8) (of_le (seg 6 7 buf))) as [|Hn]; [done|].
  cbn [orb negb] in H. injection H as <- <- <- <-. injection He as <-. set (n := of_le (seg 4 6 buf)) in *.
  exists (seg 0 n buf), (seg n (len buf) buf). split; [by rewrite seg_app, seg_0_len by lia|].
  assert (len (seg 0 n buf) = n) as Hn0 by (rewrite len_seg; lia). split; cbn [de_bytes de_rec_len de_inode de_name_len de_file_type]; rewrite ?Hn0, ?seg_seg by lia; try done.
  by apply Forall_seg.
Qed.

Lemma land_aligned x : 0 ≤ x < 2 ^ 64 → Z.land x (U64_MAX - 3) = 4 * (x / 4).
Proof.
  intros Hx. change (U64_MAX - 3) with (Z.shiftl (Z.ones 62) 2). replace (4 * (x / 4)) with (Z.shiftl (Z.shiftr x 2) 2)
    by (rewrite Z.shiftl_mul_pow2, Z.shiftr_div_pow2 by lia; change (2 ^ 2) with 4; lia).
  apply Z.bits_inj'. intros i Hi. rewrite Z.land_spec, !Z.shiftl_spec by done. destruct (decide (i < 2)).
  { rewrite !(Z.testbit_neg_r _ (i - 2)) by lia. apply andb_false_r. }
  rewrite Z.shiftr_spec by lia. replace (i - 2 + 2) with i by lia. destruct (decide (i - 2 < 62)).
  { rewrite Z.ones_spec_low by lia. apply andb_true_r. }
  rewrite Z.ones_spec_high, andb_false_r by lia. symmetry. rewrite <-(Z.mod_small x (2 ^ 64)) by done. apply Z.mod_pow2_bits_high. lia.
Qed.

Lemma record_len_ok n : 0 ≤ n ≤ 255 → ∃ m, record_len n = Some m ∧ 8 + n ≤ m ≤ 11 + n ∧ m mod 4 = 0.
Proof.
  intros Hn. unfold record_len, EXT4_DIR_ENTRY_MAX_NAME_LEN, EXT4_DIR_ENTRY_HEADER_LEN. rewrite (proj2 (Z.ltb_ge _ _)) by lia.
  rewrite land_aligned by lia. eexists. split; [done|]. split; [pose proof (Z.div_mod (8 + n + 3) 4); pose proof (Z.mod_pos_bound (8 + n + 3) 4); lia|].
  rewrite Z.mul_comm. apply Z.mod_mul. lia.
Qed.

(** The minimum of a record is at most its length. *)
Lemma real_len_le E e : is_entry E e → ∃ m, real_len e = Some m ∧ 8 + de_name_len e ≤ m ≤ len E ∧ m mod 4 = 0.
Proof.
  intros He. pose proof (entry_name_range E e He) as Hn. destruct (record_len_ok (de_name_len e) ltac:(lia)) as (m & Hm & H1 & H2).
  exists m. split; [done|]. split; [|done]. pose proof (ie_fits _ _ He). pose proof (ie_mod _ _ He).
  pose proof (Z.div_mod m 4). pose proof (Z.div_mod (len E) 4). lia.
Qed.

Lemma name_bytes_ok E e : is_entry E e → name_bytes e = Some (entry_name e).
Proof.
  intros He. pose proof (entry_name_range E e He) as Hn. unfold name_bytes, entry_name, EXT4_DIR_ENTRY_HEADER_LEN. apply slice_ok; [lia|].
  rewrite (ie_bytes _ _ He). pose proof (ie_fits _ _ He). lia.
Qed.

Lemma decode_header_entry E e rest : is_entry E e →
  decode_header (E ++ rest) = Some (de_inode e, de_rec_len e, de_name_len e, de_file_type e).
Proof.
  intros He. pose proof (from_bytes_entry E e rest He) as H. unfold from_bytes in H. destruct (decode_header (E ++ rest)) as [[[[a b] c] d]|]; [|done].
  injection H as <-. done.
Qed.

(** The bytes [write_to] produces. *)
Definition record_bytes (inode rec_len : Z) (name : list Z) (file_type : Z) : list Z :=
  le 4 inode ++ le 2 rec_len ++ [len name] ++ [file_type] ++ name ++ zeros (rec_len - 8 - len name).

Lemma len_record inode rec_len name ft : 8 + len name ≤ rec_len → len (record_bytes inode rec_len name ft) = rec_len.
Proof. intros H. unfold record_bytes. rewrite !len_app, !len_le, len_zeros by lia. change (len [_]) with 1. change (len [_]) with 1. lia. Qed.

Lemma record_is_entry inode rec_len name ft : is_u32 inode → is_byte ft → all_bytes name → len name ≤ 255 →
  8 + len name ≤ rec_len < 2 ^ 16 → rec_len mod 4 = 0 →
  let e := MkDirEntry (record_bytes inode rec_len name ft) inode rec_len (len name) ft in
  is_entry (record_bytes inode rec_len name ft) e ∧ entry_name e = name.
Proof.
  intros Hi Hf Hn Hl Hr H4 e. pose proof (len_nonneg name) as H0. assert (len (record_bytes inode rec_len name ft) = rec_len) as Hlen by (apply len_record; lia).
  assert (seg 0 4 (record_bytes inode rec_len name ft) = le 4 inode) as F1 by (unfold record_bytes; apply seg_here; apply len_le).
  assert (seg 4 6 (record_bytes inode rec_len name ft) = le 2 rec_len) as F2.
  { unfold record_bytes. rewrite (seg_skip 4 6 4) by (lia || apply len_le). apply seg_here. apply len_le. }
  assert (∀ i j, 6 ≤ i → seg i j (record_bytes inode rec_len name ft) = seg (i - 6) (j - 6) ([len name] ++ [ft] ++ name ++ zeros (rec_len - 8 - len name))) as F3.
  { intros i j Hij. unfold record_bytes. rewrite (seg_skip i j 4), (seg_skip _ _ 2) by (lia || apply len_le). f_equal; lia. }
  split.
  - split; cbn [e de_bytes de_rec_len de_inode de_name_len de_file_type]; rewrite ?Hlen; try done; try lia.
    + rewrite F1. symmetry. apply of_le_small. exact Hi.
    + rewrite F2. apply of_le_small. lia.
    + rewrite F3 by lia. change (seg (6 - 6) (7 - 6) _) with [len name]. cbn [of_le]. by rewrite Z.shiftl_0_l, Z.lor_0_r.
    + rewrite F3 by lia. change (seg (7 - 6) (8 - 6) _) with [ft]. cbn [of_le]. by rewrite Z.shiftl_0_l, Z.lor_0_r.
    + unfold record_bytes. rewrite !Forall_app. split_and!; auto using le_bytes, Forall_zeros; repeat constructor; lia.
  - unfold entry_name. cbn [e de_bytes de_name_len]. rewrite F3 by lia. rewrite (seg_skip _ _ 1) by (done || lia). rewrite (seg_skip _ _ 1) by (done || lia).
    replace (8 - 6 - 1 - 1) with 0 by lia. replace (8 + len name - 6 - 1 - 1) with (len name) by lia. by apply seg_here.
Qed.

Lemma write_record inode rec_len name ft : len name ≤ 255 → 8 + len name ≤ rec_len →
  (record ← put (zeros rec_len) 0 (le 4 inode);
   record ← put record 4 (le 2 rec_len);
   record ← put record 6 [len name mod 2 ^ 8];
   record ← put record 7 [ft];
   put record 8 name) = Some (record_bytes inode rec_len name ft).
Proof.
  intros Hl Hr. pose proof (len_nonneg name) as H0. assert (len (zeros rec_len) = rec_len) as Hz by (apply len_zeros; lia). rewrite Z.mod_small by lia.
  assert (∀ x : Z, len [x] = 1) as L1 by done.
  assert (zeros rec_len = zeros 4 ++ zeros 2 ++ [0] ++ [0] ++ zeros (len name) ++ zeros (rec_len - 8 - len name)) as ->.
  { change [0] with (zeros 1). rewrite !zeros_app by lia. f_equal. lia. }
  rewrite put_mid_0 by (by rewrite len_le). step_some.
  rewrite put_mid by (by rewrite !len_le). step_some.
  rewrite (app_assoc (le 4 inode)), put_mid by (rewrite ?len_app, ?len_le; done). step_some.
  rewrite (app_assoc (le 4 inode ++ le 2 rec_len)), put_mid by (rewrite ?len_app, ?len_le; done). step_some.
  rewrite (app_assoc ((le 4 inode ++ le 2 rec_len) ++ [len name])), put_mid by (rewrite ?len_app, ?len_le, ?len_zeros by lia; done).
  unfold record_bytes. by rewrite <-!app_assoc.
Qed.

Lemma write_to_ok X rest inode rec_len name ft m : len X = rec_len → record_len (len name) = Some m → m ≤ rec_len → rec_len mod 4 = 0 →
  write_to (X ++ rest) inode rec_len name ft = Some (true, record_bytes inode rec_len name ft ++ rest).
Proof.
  intros HX Hm Hmr H4. pose proof (len_nonneg rest) as Hr0. pose proof (len_nonneg name) as H0. assert (len name ≤ 255) as Hl.
  { unfold record_len, EXT4_DIR_ENTRY_MAX_NAME_LEN in Hm. case_match eqn:Hc; [done|]. by apply Z.ltb_ge in Hc. }
  destruct (record_len_ok (len name) ltac:(lia)) as (m' & Hm' & H1 & _). assert (m' = m) as -> by congruence.
  unfold write_to. rewrite Hm. rewrite (proj2 (Z.ltb_ge rec_len m)), (proj2 (Z.ltb_ge _ rec_len)), (proj2 (Z.eqb_eq (rec_len mod 4) 0)) by (rewrite ?len_app; lia).
  cbn [orb negb]. pose proof (write_record inode rec_len name ft Hl ltac:(lia)) as Hw. unfold EXT4_DIR_ENTRY_HEADER_LEN.
  apply bind_Some in Hw as (r1 & H01 & Hw). rewrite H01. step_some. apply bind_Some in Hw as (r2 & H02 & Hw). rewrite H02. step_some.
  apply bind_Some in Hw as (r3 & H03 & Hw). rewrite H03. step_some. apply bind_Some in Hw as (r4 & H04 & Hw). rewrite H04. step_some. rewrite Hw. step_some.
  rewrite put_mid_0; [done|]. rewrite len_record; lia.
Qed.

(** Another inode number, another type. *)
Lemma set_inode_ok E e rest inode : is_entry E e → is_u32 inode →
  ∃ E' e', set_inode (E ++ rest) inode = Some (true, E' ++ rest) ∧ is_entry E' e' ∧ len E' = len E ∧
    de_inode e' = inode ∧ de_file_type e' = de_file_type e ∧ entry_name e' = entry_name e.
Proof.
  intros He Hi. pose proof (entry_name_range E e He) as Hnr. unfold set_inode. rewrite (decode_header_entry E e) by done. pose proof (len_nonneg rest). pose proof (ie_min _ _ He) as Hm.
  assert (len (le 4 inode) = 4) as L4 by apply len_le. rewrite put_in by (rewrite ?len_app; lia). step_some.
  assert (splice 0 (le 4 inode) (E ++ rest) = splice 0 (le 4 inode) E ++ rest) as -> by (apply splice_app_l; lia).
  exists (splice 0 (le 4 inode) E), (MkDirEntry (splice 0 (le 4 inode) E) inode (len E) (de_name_len e) (de_file_type e)).
  assert (len (splice 0 (le 4 inode) E) = len E) as Hl by (rewrite len_splice; lia). split; [done|]. pose proof He as [Hb Hr Hin Hrl Hn Ht _ H4 Hf Ha].
  split_and!; [|done..|].
  - split; cbn [de_bytes de_rec_len de_inode de_name_len de_file_type]; rewrite ?Hl; try done.
    + rewrite (seg_splice_within 0 4) by lia. rewrite !Z.sub_0_r. rewrite (seg_all 4) by done. symmetry. by apply of_le_small.
    + by rewrite seg_splice_right by lia.
    + by rewrite seg_splice_right by lia.
    + by apply Forall_splice; [apply le_bytes|].
  - unfold entry_name. cbn [de_bytes de_name_len]. rewrite Hb. by rewrite seg_splice_right by lia.
Qed.

Lemma set_file_type_ok E e rest ft : is_entry E e → is_byte ft →
  ∃ E' e', set_file_type (E ++ rest) ft = Some (true, E' ++ rest) ∧ is_entry E' e' ∧ len E' = len E ∧
    de_inode e' = de_inode e ∧ de_file_type e' = ft ∧ entry_name e' = entry_name e.
Proof.
  intros He Hi. pose proof (entry_name_range E e He) as Hnr. unfold set_file_type. rewrite (decode_header_entry E e) by done. pose proof (len_nonneg rest). pose proof (ie_min _ _ He) as Hm.
  assert (len [ft] = 1) as L1 by done. rewrite put_in by (rewrite ?len_app; lia). step_some. rewrite splice_app_l by lia.
  exists (splice 7 [ft] E), (MkDirEntry (splice 7 [ft] E) (de_inode e) (len E) (de_name_len e) ft).
  assert (len (splice 7 [ft] E) = len E) as Hl by (rewrite len_splice; lia). split; [done|]. pose proof He as [Hb Hr Hin Hrl Hn Ht _ H4 Hf Ha].
  split_and!; [|done..|].
  - split; cbn [de_bytes de_rec_len de_inode de_name_len de_file_type]; rewrite ?Hl; try done.
    + by rewrite seg_splice_left by lia.
    + by rewrite seg_splice_left by lia.
    + by rewrite seg_splice_left by lia.
    + rewrite (seg_splice_within 7 8) by lia. change (seg (7 - 7) (8 - 7) [ft]) with [ft]. cbn [of_le]. by rewrite Z.shiftl_0_l, Z.lor_0_r.
    + apply Forall_splice; [by constructor|done].
  - unfold entry_name. cbn [de_bytes de_name_len]. rewrite Hb. by rewrite seg_splice_right by lia.
Qed.

(** Another length: the record then takes the bytes [X], which begin as before. *)
Lemma set_rec_len_ok E e X rest r : is_entry E e → (∃ E1, E ++ E1 = X ++ rest) → len X = r → r mod 4 = 0 → r < 2 ^ 16 →
  (∃ m, real_len e = Some m ∧ m ≤ r) → all_bytes X →
  ∃ X' e', set_rec_len (X ++ rest) r = Some (true, X' ++ rest) ∧ is_entry X' e' ∧ len X' = r ∧
    de_inode e' = de_inode e ∧ de_file_type e' = de_file_type e ∧ entry_name e' = entry_name e ∧ de_name_len e' = de_name_len e.
Proof.
  intros He [E1 HX] Hl H4 Hr (m & Hm & Hmr) HbX. pose proof (entry_name_range E e He) as Hnr. destruct (record_len_ok (de_name_len e) ltac:(lia)) as (m' & Hm' & Hm1 & _).
  unfold real_len in Hm. assert (m' = m) as -> by congruence. pose proof (len_nonneg rest). unfold set_rec_len. rewrite <-HX, (decode_header_entry E e), HX by done. rewrite Hm. step_some.
  rewrite (proj2 (Z.ltb_ge r m)), (proj2 (Z.ltb_ge _ r)), (proj2 (Z.eqb_eq (r mod 4) 0)) by (rewrite ?len_app; lia). cbn [orb negb].
  assert (len (le 2 r) = 2) as L2 by apply len_le. rewrite put_in by (rewrite ?len_app; lia). step_some. rewrite splice_app_l by lia.
  pose proof He as [Hb Hrr Hin Hrl Hn Ht Hm8 _ Hf Ha].
  assert (∀ a b, 0 ≤ a → b ≤ 8 + de_name_len e → seg a b X = seg a b E) as Hsame.
  { intros a b Ha0 Hb0. rewrite <-(seg_app_l a b X rest), <-HX by lia. apply seg_app_l; lia. }
  exists (splice 4 (le 2 r) X), (MkDirEntry (splice 4 (le 2 r) X) (de_inode e) r (de_name_len e) (de_file_type e)).
  assert (len (splice 4 (le 2 r) X) = r) as HlX by (rewrite len_splice; lia). split; [done|]. split_and!; [|done..| |done].
  - split; cbn [de_bytes de_rec_len de_inode de_name_len de_file_type]; rewrite ?HlX; try done; try lia.
    + rewrite seg_splice_left, Hsame by lia. done.
    + rewrite (seg_splice_within 4 6) by lia. change (4 - 4) with 0. change (6 - 4) with 2. rewrite (seg_all 2) by done. apply of_le_small. lia.
    + rewrite seg_splice_right, Hsame by lia. done.
    + rewrite seg_splice_right, Hsame by lia. done.
    + by apply Forall_splice; [apply le_bytes|].
  - unfold entry_name. cbn [de_bytes de_name_len]. rewrite Hb. by rewrite seg_splice_right, Hsame by lia.
Qed.
