(* ===== verification/Ext4Dir.v ===== *)
(** * Directories of ext4 (the directory part of os/src/ext4fs/ext4inode.rs)

    A directory is a file of blocks of records.  Looking a name up, adding, removing and
    replacing an entry, the test for emptiness, the conversion of a shallow indexed
    directory and the cache of names.  The file below is an interface: its size, reading a
    range and writing a range ([read_at] and [write_at] of the inode); a write may be
    short.  A function that changes the directory holds its lock throughout and is one step.
    A lookup holds no lock; the generation of the cache tells it, when it has an entry to
    remember, that the directory has changed meanwhile.  Loops take fuel; it runs out like
    a panic, and the theorems show that it does not. *)

From S2P Require Import Prelude Bytes Ext4Checksum Ext4Super Ext4Dirent.

Local Open Scope Z_scope.

(** ** The file of a directory *)

Class ByteFile (F : Type) := {
  file_size : F → Z;
  file_read : F → Z → Z → list Z;
  file_write : F → Z → list Z → option (Z * F);
}.

(** ** The cache of names *)

Definition EXT4_DIR_LOOKUP_CACHE_CAPACITY : Z := 2048.

Record DirLookupCache := MkNames {
  generation : Z;
  entries : gmap (list Z) (Z * Z);
}.

Definition cache_new : DirLookupCache := MkNames 0 ∅.

Definition remember (c : DirLookupCache) (name : list Z) (inode_id file_type : Z) : DirLookupCache :=
  if bool_decide (name = []) then c
  else if bool_decide (is_Some (entries c !! name)) then MkNames (generation c) (<[name := (inode_id, file_type)]> (entries c))
  else
    let es := if EXT4_DIR_LOOKUP_CACHE_CAPACITY <=? Z.of_nat (base.size (entries c)) then ∅ else entries c in
    MkNames (generation c) (<[name := (inode_id, file_type)]> es).

(** ** A directory inode *)

Definition EXT4_INDEX_FL : Z := 0x1000.

Record Dir (F : Type) := MkDir {
  d_file : F;
  d_mode : Z;
  d_flags : Z;
  d_names : DirLookupCache;
}.
Arguments MkDir {_}.
Arguments d_file {_}.
Arguments d_mode {_}.
Arguments d_flags {_}.
Arguments d_names {_}.

Section directories.
Context {F : Type} `{ByteFile F}.
(** The superblock, the number of the inode and its generation on disk. *)
Context (sb : Ext4SuperBlock) (inode_id : Z) (i_generation : Z).

Implicit Types d : Dir F.

Definition with_file (f : F) d : Dir F := MkDir f (d_mode d) (d_flags d) (d_names d).
Definition with_names (c : DirLookupCache) d : Dir F := MkDir (d_file d) (d_mode d) (d_flags d) c.
Definition with_flags (fl : Z) d : Dir F := MkDir (d_file d) (d_mode d) fl (d_names d).

Definition is_dir d : bool := Z.land (d_mode d) 0xF000 =? 0x4000.

Definition dir_size d : Z := file_size (d_file d).

Definition cached_dir_entry d (name : list Z) : option (Z * Z) :=
  if negb (is_dir d) || bool_decide (name = []) then None else entries (d_names d) !! name.

Definition dir_lookup_cache_generation d : Z := generation (d_names d).

Definition remember_dir_entry_if_current (gen : Z) (name : list Z) (ino file_type : Z) d : Dir F :=
  if negb (is_dir d) || bool_decide (name = []) then d
  else if generation (d_names d) =? gen then with_names (remember (d_names d) name ino file_type) d else d.

Definition invalidate_dir_lookup_cache d : Dir F :=
  if negb (is_dir d) then d else with_names (MkNames (wrapping_add (generation (d_names d)) 1) ∅) d.

Definition commit_dir_lookup_cache_entry (name : list Z) (ino file_type : Z) d : Dir F :=
  if negb (is_dir d) then d
  else
    let c := MkNames (wrapping_add (generation (d_names d)) 1) ∅ in
    with_names (if bool_decide (name = []) then c else remember c name ino file_type) d.

(** ** The checksum of a block *)

Definition crc32c_update (crc : Z) (data : list Z) : Z :=
  foldl (λ crc b, Nat.iter 8 (λ crc, let mask := (- Z.land crc 1) mod 2 ^ 32 in Z.lxor (Z.shiftr crc 1) (Z.land 0x82F63B78 mask)) (Z.lxor crc b)) crc data.

Definition ext4_checksum_seed : Z := metadata_checksum_seed sb.

Definition update_dir_block_checksum_if_needed d (block_buf : list Z) : option (list Z) :=
  if negb (is_dir d) then Some block_buf
  else if Z.land (ro_compat_features sb) 0x0400 =? 0 then Some block_buf
  else if len block_buf <? BLOCK_SZ then Some block_buf
  else
    let tail_off := BLOCK_SZ - 12 in
    rec_len ← u16_at block_buf (tail_off + 4);
    reserved_zero2 ← index block_buf (tail_off + 6);
    reserved_ft ← index block_buf (tail_off + 7);
    if negb (rec_len =? 12) || negb (reserved_zero2 =? 0) || negb (reserved_ft =? 0xDE) then Some block_buf
    else
      block_buf ← put block_buf (tail_off + 8) [0; 0; 0; 0];
      let crc := ext4_checksum_seed in
      let crc := crc32c_update crc (le 4 inode_id) in
      let crc := crc32c_update crc (le 4 i_generation) in
      s ← slice block_buf 0 tail_off;
      let crc := crc32c_update crc s in
      put block_buf (tail_off + 8) (le 4 crc).

(** ** Scanning *)

(** [dirent.inode() != 0 && dirent.name_bytes() == name_bytes] *)
Definition matches_name (e : Ext4DirEntry) (name : list Z) : option bool :=
  if de_inode e =? 0 then Some false else n ← name_bytes e; Some (bool_decide (n = name)).

(** A record has at least eight bytes. *)
Definition record_fuel : nat := Z.to_nat (BLOCK_SZ / 8 + 1).
Definition block_fuel d : nat := Z.to_nat (dir_size d / BLOCK_SZ + 2).

Fixpoint lookup_records (fuel : nat) (buf : list Z) (block_offset : Z) (name : list Z) : option (unit + option (Z * Z)) :=
  match fuel with
  | O => None
  | S fuel =>
    let read_len := len buf in
    if block_offset <? read_len then
      if read_len - block_offset <? 8 then Some (inl tt)
      else
        s ← slice buf block_offset read_len;
        match from_bytes s with
        | None => Some (inl tt)
        | Some dirent =>
          hit ← matches_name dirent name;
          if (hit : bool) then Some (inr (Some (de_inode dirent, de_file_type dirent)))
          else lookup_records fuel buf (block_offset + de_rec_len dirent) name
        end
    else Some (inr None)
  end.

Fixpoint lookup_blocks (fuel : nat) d (offset : Z) (name : list Z) : option (unit + option (Z * Z)) :=
  match fuel with
  | O => None
  | S fuel =>
    if offset <? dir_size d then
      let expected_read_len := Z.min BLOCK_SZ (dir_size d - offset) in
      let buf := file_read (d_file d) offset expected_read_len in
      if negb (len buf =? expected_read_len) then Some (inl tt)
      else
        r ← lookup_records record_fuel buf 0 name;
        match r with
        | inr None => lookup_blocks fuel d (offset + expected_read_len) name
        | _ => Some r
        end
    else Some (inr None)
  end.

Definition lookup_dir_entry_checked d (name : list Z) : option ((unit + option (Z * Z)) * Dir F) :=
  match cached_dir_entry d name with
  | Some entry => Some (inr (Some entry), d)
  | None =>
    let cache_generation := dir_lookup_cache_generation d in
    r ← lookup_blocks (block_fuel d) d 0 name;
    match r with
    | inr (Some (ino, ft)) => Some (r, remember_dir_entry_if_current cache_generation name ino ft d)
    | _ => Some (r, d)
    end
  end.

Definition lookup_dir_entry d (name : list Z) : option (option (Z * Z) * Dir F) :=
  '(r, d) ← lookup_dir_entry_checked d name;
  Some (match r with inr x => x | inl _ => None end, d).

(** ** Indexed directories *)

Definition dot : list Z := [0x2e].
Definition dotdot : list Z := [0x2e; 0x2e].

Definition tail_size : Z := if has_metadata_csum sb then 12 else 0.

(** [root[dx_info_offset..dx_info_offset + 4] != [0, 0, 0, 0] || ..] *)
Definition shallow_index (root : list Z) (dx_info_offset : Z) : option bool :=
  if BLOCK_SZ <? dx_info_offset + 8 then Some false
  else
    z ← slice root dx_info_offset (dx_info_offset + 4); i5 ← index root (dx_info_offset + 5); i6 ← index root (dx_info_offset + 6);
    Some (bool_decide (z = [0; 0; 0; 0]) && (i5 =? 8) && (i6 =? 0)).

(** The root as an ordinary directory block. *)
Definition linear_root d (root : list Z) (dotdot_offset dx_info_offset : Z) : option (option (list Z)) :=
  let tail_offset := BLOCK_SZ - tail_size in
  if tail_offset <? dx_info_offset + 8 then Some None
  else
    let linear_dotdot_len := tail_offset - dotdot_offset in
    if 2 ^ 16 - 1 <? linear_dotdot_len then Some None
    else
      s ← slice root dotdot_offset (len root);
      '(done, s) ← set_rec_len s linear_dotdot_len;
      root ← put root dotdot_offset s;
      if negb done then Some None
      else
        root ← put root dx_info_offset (zeros (tail_offset - dx_info_offset));
        root ← (if negb (tail_size =? 0) then
                  root ← put root tail_offset (zeros (len root - tail_offset));
                  root ← put root (tail_offset + 4) (le 2 12);
                  root ← put root (tail_offset + 7) [0xde];
                  update_dir_block_checksum_if_needed d root
                else Some root);
        Some (Some root).

Definition prepare_directory_for_mutation d : option (bool * Dir F) :=
  if Z.land (d_flags d) EXT4_INDEX_FL =? 0 then Some (true, d)
  else if negb (is_dir d) || (dir_size d <? BLOCK_SZ) then Some (false, d)
  else
    let root := file_read (d_file d) 0 BLOCK_SZ in
    if negb (len root =? BLOCK_SZ) then Some (false, d)
    else
      match from_bytes root with
      | None => Some (false, d)
      | Some e1 =>
        n1 ← name_bytes e1;
        if (de_inode e1 =? 0) || negb (bool_decide (n1 = dot)) || negb (de_rec_len e1 =? 12) then Some (false, d)
        else
          let dotdot_offset := de_rec_len e1 in
          s ← slice root dotdot_offset (len root);
          match from_bytes s with
          | None => Some (false, d)
          | Some e2 =>
            n2 ← name_bytes e2;
            real ← real_len e2;
            if (de_inode e2 =? 0) || negb (bool_decide (n2 = dotdot)) || negb (real =? 12) || negb (dotdot_offset + de_rec_len e2 =? BLOCK_SZ)
            then Some (false, d)
            else
              let dx_info_offset := dotdot_offset + real in
              shallow ← shallow_index root dx_info_offset;
              if negb shallow then Some (false, d)
              else
                r ← linear_root d root dotdot_offset dx_info_offset;
                match r with
                | None => Some (false, d)
                | Some root =>
                  '(n, f) ← file_write (d_file d) 0 root;
                  let d := with_file f d in
                  if negb (n =? BLOCK_SZ) then Some (false, d)
                  else Some (true, invalidate_dir_lookup_cache (with_flags (Z.ldiff (d_flags d) EXT4_INDEX_FL) d))
                end
          end
      end.

(** ** Adding an entry *)

(** The first pass of [add_dir_entry]: [true] when the function gives up. *)
Fixpoint dup_records (fuel : nat) (buf : list Z) (block_offset : Z) (name : list Z) : option bool :=
  match fuel with
  | O => None
  | S fuel =>
    if block_offset <? len buf then
      s ← slice buf block_offset (len buf);
      match from_bytes s with
      | None => Some true
      | Some dirent =>
        hit ← matches_name dirent name;
        if (hit : bool) then Some true else dup_records fuel buf (block_offset + de_rec_len dirent) name
      end
    else Some false
  end.

Fixpoint dup_blocks (fuel : nat) d (offset : Z) (name : list Z) : option bool :=
  match fuel with
  | O => None
  | S fuel =>
    if offset <? dir_size d then
      let buf := file_read (d_file d) offset BLOCK_SZ in
      if len buf =? 0 then Some true
      else stop ← dup_records record_fuel buf 0 name; if (stop : bool) then Some true else dup_blocks fuel d (offset + BLOCK_SZ) name
    else Some false
  end.

(** What a pass over a block found: the function gives up, the block has no room, or the
    block with the new entry. *)
Inductive found := GiveUp | NoRoom | NewBlock (buf : list Z).

(** The record at [block_offset] cut to its minimum, and the new record behind it. *)
Definition split_record (buf : list Z) (read_len block_offset rec_len real : Z) (name : list Z) (ino ft : Z) : option found :=
  let new_offset := block_offset + real in
  let new_rec_len := rec_len - real in
  s ← slice buf block_offset read_len;
  '(done, s) ← set_rec_len s real;
  buf ← put buf block_offset s;
  if negb done then Some GiveUp
  else
    s ← slice buf new_offset read_len;
    '(done, s) ← write_to s ino new_rec_len name ft;
    buf ← put buf new_offset s;
    if negb done then Some GiveUp else Some (NewBlock buf).

Fixpoint room_records (fuel : nat) (buf : list Z) (read_len block_offset needed_len : Z) (name : list Z) (ino ft : Z) : option found :=
  match fuel with
  | O => None
  | S fuel =>
    if block_offset <? read_len then
      s ← slice buf block_offset read_len;
      match from_bytes s with
      | None => Some GiveUp
      | Some dirent =>
        real ← real_len dirent;
        if negb (is_checksum_tail dirent) && (real + needed_len <=? de_rec_len dirent)
        then split_record buf read_len block_offset (de_rec_len dirent) real name ino ft
        else room_records fuel buf read_len (block_offset + de_rec_len dirent) needed_len name ino ft
      end
    else Some NoRoom
  end.

(** The write of a changed block and the cache of names after it. *)
Definition write_added d (offset : Z) (buf : list Z) (name : list Z) (ino ft : Z) : option (bool * Dir F) :=
  buf ← update_dir_block_checksum_if_needed d buf;
  '(n, f) ← file_write (d_file d) offset buf;
  let d := with_file f d in
  if n =? BLOCK_SZ then Some (true, commit_dir_lookup_cache_entry name ino ft d)
  else Some (false, invalidate_dir_lookup_cache d).

(** The second pass; [inr] is the result of the function. *)
Fixpoint room_blocks (fuel : nat) d (offset needed_len : Z) (name : list Z) (ino ft : Z) : option (unit + bool * Dir F) :=
  match fuel with
  | O => None
  | S fuel =>
    if offset <? dir_size d then
      let data := file_read (d_file d) offset BLOCK_SZ in
      if len data =? 0 then Some (inr (false, d))
      else
        let buf := data ++ zeros (BLOCK_SZ - len data) in
        r ← room_records record_fuel buf (len data) 0 needed_len name ino ft;
        match r with
        | GiveUp => Some (inr (false, d))
        | NewBlock buf => r ← write_added d offset buf name ino ft; Some (inr r)
        | NoRoom => room_blocks fuel d (offset + BLOCK_SZ) needed_len name ino ft
        end
    else Some (inl tt)
  end.

(** A new block with one entry, and the checksum tail. *)
Definition fresh_block (name : list Z) (ino ft : Z) : option (option (list Z)) :=
  let entry_rec_len := BLOCK_SZ - tail_size in
  '(done, new_buf) ← write_to (zeros BLOCK_SZ) ino entry_rec_len name ft;
  if negb done then Some None
  else
    new_buf ← (if negb (tail_size =? 0) then
                 let tail_off := BLOCK_SZ - tail_size in
                 new_buf ← put new_buf tail_off (zeros (len new_buf - tail_off));
                 new_buf ← put new_buf (tail_off + 4) (le 2 12);
                 put new_buf (tail_off + 7) [0xde]
               else Some new_buf);
    Some (Some new_buf).

Definition add_dir_entry d (name : list Z) (ino ft : Z) : option (bool * Dir F) :=
  '(ready, d) ← prepare_directory_for_mutation d;
  if negb ready then Some (false, d)
  else
    let file_size_bytes := dir_size d in
    match record_len (len name) with
    | None => Some (false, d)
    | Some needed_len =>
      stop ← dup_blocks (block_fuel d) d 0 name;
      if (stop : bool) then Some (false, d)
      else
        r ← room_blocks (block_fuel d) d 0 needed_len name ino ft;
        match r with
        | inr r => Some r
        | inl _ =>
          r ← fresh_block name ino ft;
          match r with
          | None => Some (false, d)
          | Some new_buf => write_added d file_size_bytes new_buf name ino ft
          end
        end
    end.

(** ** Removing and replacing *)

(** The write of a changed block without a name to keep. *)
Definition write_changed d (offset : Z) (buf : list Z) (removed : Z * Z) : option (option (Z * Z) * Dir F) :=
  buf ← update_dir_block_checksum_if_needed d buf;
  '(n, f) ← file_write (d_file d) offset buf;
  let d := with_file f d in
  if n =? BLOCK_SZ then Some (Some removed, invalidate_dir_lookup_cache d)
  else Some (None, invalidate_dir_lookup_cache d).

(** The outcome of a pass over the records of a block: an early [None], the end of the
    block at an offset, or the changed block and the old target. *)
Inductive changed := Refused | EndAt (offset : Z) | Changed (buf : list Z) (old : Z * Z).

(** Merges the record at [block_offset] into the one before it, or frees it. *)
Definition drop_record (buf : list Z) (read_len block_offset rec_len : Z) (prev_offset : option Z) (removed : Z * Z) : option changed :=
  match prev_offset with
  | Some previous =>
    s ← slice buf previous read_len;
    match from_bytes s with
    | None => Some Refused
    | Some previous_entry =>
      if is_checksum_tail previous_entry then Some Refused
      else
        match checked_add (de_rec_len previous_entry) rec_len with
        | None => Some Refused
        | Some merged_len =>
          if read_len - previous <? merged_len then Some Refused
          else
            '(done, s) ← set_rec_len s (merged_len mod 2 ^ 16);
            buf ← put buf previous s;
            if negb done then Some Refused else Some (Changed buf removed)
        end
    end
  | None =>
    s ← slice buf block_offset read_len;
    '(done, s) ← set_inode s 0;
    buf ← put buf block_offset s;
    if negb done then Some Refused else Some (Changed buf removed)
  end.

Fixpoint remove_records (fuel : nat) (buf : list Z) (read_len block_offset : Z) (prev_offset : option Z) (name : list Z) : option changed :=
  match fuel with
  | O => None
  | S fuel =>
    if block_offset + 8 <=? read_len then
      s ← slice buf block_offset read_len;
      match from_bytes s with
      | None => Some Refused
      | Some dirent =>
        hit ← matches_name dirent name;
        if (hit : bool) then drop_record buf read_len block_offset (de_rec_len dirent) prev_offset (de_inode dirent, de_file_type dirent)
        else remove_records fuel buf read_len (block_offset + de_rec_len dirent) (Some block_offset) name
      end
    else Some (EndAt block_offset)
  end.

Fixpoint remove_blocks (fuel : nat) d (offset : Z) (name : list Z) : option (option (Z * Z) * Dir F) :=
  match fuel with
  | O => None
  | S fuel =>
    if offset <? dir_size d then
      let data := file_read (d_file d) offset BLOCK_SZ in
      if len data =? 0 then Some (None, d)
      else
        let buf := data ++ zeros (BLOCK_SZ - len data) in
        r ← remove_records record_fuel buf (len data) 0 None name;
        match r with
        | Refused => Some (None, d)
        | Changed buf old => write_changed d offset buf old
        | EndAt block_offset =>
          if negb (block_offset =? len data) then Some (None, d) else remove_blocks fuel d (offset + BLOCK_SZ) name
        end
    else Some (None, d)
  end.

Definition remove_dir_entry_only d (name : list Z) : option (option (Z * Z) * Dir F) :=
  '(ready, d) ← prepare_directory_for_mutation d;
  if negb ready then Some (None, d) else remove_blocks (block_fuel d) d 0 name.

(** Another inode and type in the record at [block_offset]. *)
Definition retarget_record (buf : list Z) (read_len block_offset : Z) (ino ft : Z) (replaced : Z * Z) : option changed :=
  s ← slice buf block_offset read_len;
  '(done, s) ← set_inode s ino;
  buf ← put buf block_offset s;
  if negb done then Some Refused
  else
    s ← slice buf block_offset read_len;
    '(done, s) ← set_file_type s ft;
    buf ← put buf block_offset s;
    if negb done then Some Refused else Some (Changed buf replaced).

Fixpoint replace_records (fuel : nat) (buf : list Z) (read_len block_offset : Z) (name : list Z) (ino ft : Z) : option changed :=
  match fuel with
  | O => None
  | S fuel =>
    if block_offset + 8 <=? read_len then
      s ← slice buf block_offset read_len;
      match from_bytes s with
      | None => Some Refused
      | Some dirent =>
        hit ← matches_name dirent name;
        if (hit : bool) then retarget_record buf read_len block_offset ino ft (de_inode dirent, de_file_type dirent)
        else replace_records fuel buf read_len (block_offset + de_rec_len dirent) name ino ft
      end
    else Some (EndAt block_offset)
  end.

Definition write_replaced d (offset : Z) (buf : list Z) (name : list Z) (ino ft : Z) (replaced : Z * Z) : option (option (Z * Z) * Dir F) :=
  buf ← update_dir_block_checksum_if_needed d buf;
  '(n, f) ← file_write (d_file d) offset buf;
  let d := with_file f d in
  if n =? BLOCK_SZ then Some (Some replaced, commit_dir_lookup_cache_entry name ino ft d)
  else Some (None, invalidate_dir_lookup_cache d).

Fixpoint replace_blocks (fuel : nat) d (offset : Z) (name : list Z) (ino ft : Z) : option (option (Z * Z) * Dir F) :=
  match fuel with
  | O => None
  | S fuel =>
    if offset <? dir_size d then
      let data := file_read (d_file d) offset BLOCK_SZ in
      if len data =? 0 then Some (None, d)
      else
        let buf := data ++ zeros (BLOCK_SZ - len data) in
        r ← replace_records record_fuel buf (len data) 0 name ino ft;
        match r with
        | Refused => Some (None, d)
        | Changed buf old => write_replaced d offset buf name ino ft old
        | EndAt block_offset =>
          if negb (block_offset =? len data) then Some (None, d) else replace_blocks fuel d (offset + BLOCK_SZ) name ino ft
        end
    else Some (None, d)
  end.

Definition replace_dir_entry d (name : list Z) (ino ft : Z) : option (option (Z * Z) * Dir F) :=
  '(ready, d) ← prepare_directory_for_mutation d;
  if negb ready then Some (None, d) else replace_blocks (block_fuel d) d 0 name ino ft.

(** ** Emptiness *)

(** [inl] is an early [false], [inr] the offset at the end of the loop. *)
Fixpoint empty_records (fuel : nat) (buf : list Z) (block_offset : Z) : option (unit + Z) :=
  match fuel with
  | O => None
  | S fuel =>
    if block_offset + 8 <=? len buf then
      s ← slice buf block_offset (len buf);
      match from_bytes s with
      | None => Some (inl tt)
      | Some dirent =>
        other ← (if de_inode dirent =? 0 then Some false
                 else n ← name_bytes dirent; Some (negb (bool_decide (n = dot)) && negb (bool_decide (n = dotdot))));
        if (other : bool) then Some (inl tt) else empty_records fuel buf (block_offset + de_rec_len dirent)
      end
    else Some (inr block_offset)
  end.

Fixpoint empty_blocks (fuel : nat) d (offset : Z) : option bool :=
  match fuel with
  | O => None
  | S fuel =>
    if offset <? dir_size d then
      let buf := file_read (d_file d) offset BLOCK_SZ in
      if len buf =? 0 then Some false
      else
        r ← empty_records record_fuel buf 0;
        match r with
        | inl _ => Some false
        | inr block_offset => if negb (block_offset =? len buf) then Some false else empty_blocks fuel d (offset + BLOCK_SZ)
        end
    else Some true
  end.

Definition directory_is_empty d : option bool := empty_blocks (block_fuel d) d 0.

End directories.
