(* ===== verification/Ext4DirInv.v ===== *)
(** * Directory blocks as lists of entries

    What the directory code relies on and keeps: the laws of the file below, the chain of
    records of a block, the checksum tail at its end, and for each scanning loop its
    result in terms of the list of entries. *)

From S2P Require Import Prelude Bytes Ext4Checksum Ext4Super Ext4Dirent Ext4Dir.

Local Open Scope Z_scope.

(** ** The laws of a file *)

(** [file_view] is the content; [file_full] says that no block of the file is a hole.  A
    write of an aligned block inside the file or right behind it takes place or not at all;
    inside a file without holes it takes place. *)
Class ByteFileLaws (F : Type) `{ByteFile F} := {
  file_ok : F → Prop;
  file_full : F → Prop;
  file_view : F → list Z;
  file_size_view f : file_ok f → file_size f = len (file_view f);
  file_view_bytes f : file_ok f → all_bytes (file_view f);
  file_read_view f off n : file_ok f → 0 ≤ off → 0 ≤ n → file_read f off n = seg off (Z.min (off + n) (file_size f)) (file_view f);
  file_write_block f off buf : file_ok f → file_size f mod BLOCK_SZ = 0 → 0 ≤ off ≤ file_size f → off mod BLOCK_SZ = 0 →
    len buf = BLOCK_SZ → all_bytes buf →
    ∃ n f', file_write f off buf = Some (n, f') ∧ file_ok f' ∧ (file_full f → file_full f') ∧
      ((n = BLOCK_SZ ∧ file_view f' = splice off buf (file_view f)) ∨ (n ≠ BLOCK_SZ ∧ file_view f' = file_view f)) ∧
      (file_full f → off < file_size f → n = BLOCK_SZ);
}.

(** ** Chains of records *)

Inductive chain : list Z → list Ext4DirEntry → Prop :=
  | chain_nil : chain [] []
  | chain_cons E e rest es : is_entry E e → chain rest es → chain (E ++ rest) (e :: es).

Lemma chain_app a es b fs : chain a es → chain b fs → chain (a ++ b) (es ++ fs).
Proof. induction 1; intros Hb; [done|]. rewrite <-app_assoc. cbn [app]. constructor; auto. Qed.

Lemma chain_app_inv es : ∀ b fs, chain b (es ++ fs) → ∃ b1 b2, b = b1 ++ b2 ∧ chain b1 es ∧ chain b2 fs.
Proof.
  induction es as [|e es IH]; intros b fs Hc; [exists [], b; split_and!; (done || constructor)|]. inversion Hc as [|E ? rest ? He Hr]; subst.
  destruct (IH _ _ Hr) as (b1 & b2 & -> & H1 & H2). exists (E ++ b1), b2. rewrite app_assoc. split_and!; [done|by constructor|done].
Qed.

Lemma chain_single b e : chain b [e] → is_entry b e.
Proof. intros Hc. inversion Hc as [|E ? rest ? He Hr]; subst. inversion Hr; subst. by rewrite app_nil_r. Qed.

Lemma chain_of_entry E e : is_entry E e → chain E [e].
Proof. intros He. rewrite <-(app_nil_r E). constructor; [done|constructor]. Qed.

Lemma chain_length b es : chain b es → 8 * Z.of_nat (length es) ≤ len b.
Proof. induction 1 as [|E e rest es He Hr IH]; [done|]. rewrite len_app. pose proof (ie_min _ _ He). cbn [length]. lia. Qed.

Lemma chain_bytes b es : chain b es → all_bytes b.
Proof. induction 1 as [|E e rest es He Hr IH]; [constructor|]. apply Forall_app. split; [apply (ie_all _ _ He)|done]. Qed.

Lemma chain_aligned b es : chain b es → len b mod 4 = 0.
Proof.
  induction 1 as [|E e rest es He Hr IH]; [done|]. rewrite len_app. pose proof (ie_mod _ _ He) as Hm. rewrite Z.add_mod, Hm, IH by lia. done.
Qed.

(** ** What a name means *)

(** The name and target of an entry in use. *)
Definition live (e : Ext4DirEntry) : option (list Z * (Z * Z)) :=
  if de_inode e =? 0 then None else Some (entry_name e, (de_inode e, de_file_type e)).

Definition hits (e : Ext4DirEntry) (name : list Z) : bool := negb (de_inode e =? 0) && bool_decide (entry_name e = name).

(** The first entry in use with the name. *)
Fixpoint find_entry (name : list Z) (es : list Ext4DirEntry) : option (Z * Z) :=
  match es with
  | [] => None
  | e :: es => if hits e name then Some (de_inode e, de_file_type e) else find_entry name es
  end.

Lemma matches_name_ok E e name : is_entry E e → matches_name e name = Some (hits e name).
Proof.
  intros He. unfold matches_name, hits. destruct (de_inode e =? 0); [done|]. rewrite (name_bytes_ok E) by done. done.
Qed.

Lemma find_entry_app name es fs : find_entry name (es ++ fs) = match find_entry name es with Some x => Some x | None => find_entry name fs end.
Proof. induction es as [|e es IH]; [done|]. cbn. by destruct (hits e name). Qed.

Lemma hits_live e name : hits e name = true ↔ live e = Some (name, (de_inode e, de_file_type e)).
Proof.
  unfold hits, live. destruct (de_inode e =? 0); cbn [negb andb]; [done|]. rewrite bool_decide_eq_true. split; [by intros ->|intros [= H]; done].
Qed.

Lemma live_Some e x : live e = Some x → hits e x.1 = true ∧ x.2 = (de_inode e, de_file_type e).
Proof. unfold live, hits. destruct (de_inode e =? 0); [done|]. intros [= <-]. split; [|done]. cbn. by apply bool_decide_eq_true. Qed.

Lemma find_entry_live name es : find_entry name es = None ↔ name ∉ (omap live es).*1.
Proof.
  induction es as [|e es IH]; cbn [find_entry omap list_omap fmap list_fmap].
  { split; [intros _; apply not_elem_of_nil|done]. }
  destruct (hits e name) eqn:Hh.
  - apply hits_live in Hh as Hl. rewrite Hl. cbn [fmap list_fmap]. split; [done|]. intros []. apply elem_of_cons. by left.
  - destruct (live e) as [x|] eqn:Hl; [|done]. cbn [fmap list_fmap]. rewrite not_elem_of_cons, <-IH. split; [|by intros []]. intros Hf. split; [|done].
    intros ->. apply live_Some in Hl as [Hl _]. congruence.
Qed.

Lemma find_entry_Some name es v : find_entry name es = Some v → (name, v) ∈ omap live es.
Proof.
  induction es as [|e es IH]; [done|]. cbn. destruct (hits e name) eqn:Hh.
  - intros [= <-]. apply hits_live in Hh as ->. apply elem_of_cons. by left.
  - intros Hf. destruct (live e); [apply elem_of_cons; right|]; by apply IH.
Qed.

(** With different names the list is a map. *)
Lemma fst_unique {A B} (l : list (A * B)) k v w : NoDup l.*1 → (k, v) ∈ l → (k, w) ∈ l → v = w.
Proof.
  induction l as [|[k' x] l IH]; [by intros _ []%not_elem_of_nil|]. cbn. rewrite NoDup_cons, !elem_of_cons. intros [Hn Hnd] [Hv|Hv] [Hw|Hw]; simplify_eq; try done.
  - destruct Hn. apply list_elem_of_fmap. by exists (k', w).
  - destruct Hn. apply list_elem_of_fmap. by exists (k', v).
  - by apply IH.
Qed.

Lemma find_entry_elem name es v : NoDup (omap live es).*1 → (name, v) ∈ omap live es → find_entry name es = Some v.
Proof.
  intros Hnd Hin. destruct (find_entry name es) as [w|] eqn:Hf.
  - apply find_entry_Some in Hf. f_equal. by eapply fst_unique.
  - apply find_entry_live in Hf. destruct Hf. apply list_elem_of_fmap. by exists (name, v).
Qed.

(** ** The scanning loops *)

Lemma at_record pre E rest e n : is_entry E e → n = len (pre ++ E ++ rest) →
  slice (pre ++ E ++ rest) (len pre) n = Some (E ++ rest) ∧ from_bytes (E ++ rest) = Some e ∧ (len pre <? n) = true ∧ (len pre + 8 <=? n) = true ∧ (n - len pre <? 8) = false.
Proof.
  intros He ->. pose proof (ie_min _ _ He). pose proof (len_nonneg pre). pose proof (len_nonneg rest). rewrite !len_app. split_and!.
  - rewrite slice_ok by (rewrite ?len_app; lia). f_equal. rewrite (seg_skip _ _ (len pre)) by (done || lia). rewrite Z.sub_diag. apply seg_all. rewrite len_app. lia.
  - by apply from_bytes_entry.
  - apply Z.ltb_lt. lia.
  - apply Z.leb_le. lia.
  - apply Z.ltb_ge. lia.
Qed.

Lemma at_end (pre : list Z) n : n = len (pre ++ []) → (len pre <? n) = false ∧ (len pre + 8 <=? n) = false.
Proof. intros ->. rewrite app_nil_r. split; [apply Z.ltb_ge; lia|apply Z.leb_gt; lia]. Qed.

Lemma lookup_records_ok name rest es : chain rest es → ∀ fuel pre, (length es < fuel)%nat →
  lookup_records fuel (pre ++ rest) (len pre) name = Some (inr (find_entry name es)).
Proof.
  induction 1 as [|E e rest es He Hr IH]; intros [|fuel] pre Hf; cbn [length] in Hf; try lia; cbn [lookup_records].
  { destruct (at_end pre _ eq_refl) as [-> _]. done. }
  destruct (at_record pre E rest e _ He eq_refl) as (-> & H1 & -> & _ & ->). step_some. rewrite H1. rewrite (matches_name_ok E) by done. step_some. cbn [find_entry].
  destruct (hits e name); [done|]. rewrite (ie_rec _ _ He), <-len_app, app_assoc. apply IH. lia.
Qed.

Lemma dup_records_ok name rest es : chain rest es → ∀ fuel pre, (length es < fuel)%nat →
  dup_records fuel (pre ++ rest) (len pre) name = Some (bool_decide (is_Some (find_entry name es))).
Proof.
  induction 1 as [|E e rest es He Hr IH]; intros [|fuel] pre Hf; cbn [length] in Hf; try lia; cbn [dup_records].
  { destruct (at_end pre _ eq_refl) as [-> _]. by rewrite bool_decide_false by (by intros []). }
  destruct (at_record pre E rest e _ He eq_refl) as (-> & H1 & -> & _ & _). step_some. rewrite H1. rewrite (matches_name_ok E) by done. step_some. cbn [find_entry].
  destruct (hits e name); [by rewrite bool_decide_true by eauto|]. rewrite (ie_rec _ _ He), <-len_app, app_assoc. apply IH. lia.
Qed.

(** Only the two entries every directory has. *)
Definition only_dots (es : list Ext4DirEntry) : bool :=
  forallb (λ e, (de_inode e =? 0) || bool_decide (entry_name e = dot) || bool_decide (entry_name e = dotdot)) es.

Lemma empty_records_ok rest es : chain rest es → ∀ fuel pre, (length es < fuel)%nat →
  empty_records fuel (pre ++ rest) (len pre) = Some (if only_dots es then inr (len (pre ++ rest)) else inl tt).
Proof.
  induction 1 as [|E e rest es He Hr IH]; intros [|fuel] pre Hf; cbn [length] in Hf; try lia; cbn [empty_records].
  { destruct (at_end pre _ eq_refl) as [_ ->]. by rewrite app_nil_r. }
  destruct (at_record pre E rest e _ He eq_refl) as (-> & H1 & _ & -> & _). step_some. rewrite H1. cbn [only_dots forallb].
  specialize (IH fuel (pre ++ E) ltac:(lia)). rewrite <-app_assoc, len_app, <-(ie_rec _ _ He) in IH.
  destruct (de_inode e =? 0); cbn [orb andb]; [step_some; exact IH|]. rewrite (name_bytes_ok E), some_bind by done. step_some.
  destruct (bool_decide (entry_name e = dot)), (bool_decide (entry_name e = dotdot)); cbn [negb orb andb]; try exact IH. done.
Qed.

(** ** The changes of a block *)

(** A record with another length or other slack is the same entry. *)
Definition same_entry (e e' : Ext4DirEntry) : Prop :=
  de_inode e' = de_inode e ∧ de_file_type e' = de_file_type e ∧ entry_name e' = entry_name e.

Lemma same_entry_live e e' : same_entry e e' → live e' = live e.
Proof. intros (H1 & H2 & H3). unfold live. by rewrite H1, H2, H3. Qed.

Lemma split_record_ok pre E rest e real needed name ino ft : is_entry E e → len (pre ++ E ++ rest) = BLOCK_SZ →
  real_len e = Some real → record_len (len name) = Some needed → real + needed ≤ len E → all_bytes name → is_u32 ino → is_byte ft →
  ∃ E1 e1 E2 e2, split_record (pre ++ E ++ rest) BLOCK_SZ (len pre) (len E) real name ino ft = Some (NewBlock (pre ++ E1 ++ E2 ++ rest)) ∧
    is_entry E1 e1 ∧ same_entry e e1 ∧ is_entry E2 e2 ∧ de_inode e2 = ino ∧ de_file_type e2 = ft ∧ entry_name e2 = name ∧ len (E1 ++ E2) = len E.
Proof.
  intros He Hlen Hreal Hneed Hroom Hname Hino Hft. pose proof (len_nonneg pre). pose proof (len_nonneg rest). pose proof (len_nonneg name).
  rewrite !len_app in Hlen. unfold BLOCK_SZ in Hlen. destruct (real_len_le E e He) as (m & Hm & Hm1 & Hm4). assert (m = real) as -> by congruence.
  pose proof (entry_name_range E e He) as Hnr. assert (len name ≤ 255) as Hn255.
  { unfold record_len, EXT4_DIR_ENTRY_MAX_NAME_LEN in Hneed. case_match eqn:Hc; [done|]. by apply Z.ltb_ge in Hc. }
  destruct (record_len_ok (len name) ltac:(lia)) as (n' & Hn' & Hn1 & Hn4). assert (n' = needed) as -> by congruence.
  set (X := seg 0 real E). set (Y := seg real (len E) E). assert (E = X ++ Y) as HE by (unfold X, Y; rewrite seg_app, seg_0_len by lia; done).
  assert (len X = real) as HX by (unfold X; rewrite len_seg; lia). assert (len Y = len E - real) as HY by (unfold Y; rewrite len_seg; lia).
  destruct (set_rec_len_ok E e X (Y ++ rest) real He) as (X' & e1 & Hset & He1 & HX' & Hi1 & Hf1 & Hn1' & _).
  { exists rest. rewrite app_assoc. by rewrite <-HE. } { done. } { done. } { lia. } { exists real. done. } { apply Forall_seg, (ie_all _ _ He). }
  assert ((len E - real) mod 4 = 0) as HY4 by (rewrite Zminus_mod, (ie_mod _ _ He), Hm4; done).
  destruct (record_is_entry ino (len E - real) name ft Hino Hft Hname Hn255 ltac:(lia) HY4) as [He2 Hn2].
  eexists X', e1, (record_bytes ino (len E - real) name ft), _. split.
  - unfold split_record. rewrite slice_end by (rewrite !len_app; unfold BLOCK_SZ; lia). step_some. rewrite HE at 1. rewrite <-app_assoc, Hset. step_some.
    rewrite put_end by (rewrite HE at 1; rewrite !len_app; lia). step_some. cbn [negb].
    replace (len pre + real) with (len (pre ++ X')) by (rewrite len_app; lia). rewrite app_assoc, slice_end by (rewrite !len_app; unfold BLOCK_SZ; lia). step_some.
    rewrite (write_to_ok Y rest _ _ _ _ needed) by (done || lia). step_some. rewrite put_end by (rewrite !len_app, len_record; lia). step_some. cbn [negb]. by rewrite <-app_assoc.
  - split_and!; try done. rewrite len_app, len_record; lia.
Qed.

(** The second pass over a block: no room, or the entry added behind one it finds. *)
Lemma room_records_ok needed name ino ft rest es : chain rest es → record_len (len name) = Some needed → all_bytes name → is_u32 ino → is_byte ft →
  ∀ fuel pre, (length es < fuel)%nat → len (pre ++ rest) = BLOCK_SZ →
  (room_records fuel (pre ++ rest) BLOCK_SZ (len pre) needed name ino ft = Some NoRoom) ∨
  (∃ rest' es1 e es2 e1 e2, room_records fuel (pre ++ rest) BLOCK_SZ (len pre) needed name ino ft = Some (NewBlock (pre ++ rest')) ∧
     es = es1 ++ e :: es2 ∧ is_checksum_tail e = false ∧ chain rest' (es1 ++ e1 :: e2 :: es2) ∧ same_entry e e1 ∧
     de_inode e2 = ino ∧ de_file_type e2 = ft ∧ entry_name e2 = name ∧ len rest' = len rest).
Proof.
  intros Hc Hneed Hname Hino Hft. induction Hc as [|E e rest es He Hr IH]; intros [|fuel] pre Hf Hlen; cbn [length] in Hf; try lia; cbn [room_records].
  { left. destruct (at_end pre _ eq_refl) as [Ha _]. rewrite Hlen in Ha. by rewrite Ha. }
  destruct (at_record pre E rest e BLOCK_SZ He (eq_sym Hlen)) as (-> & H1 & -> & _ & _). step_some. rewrite H1.
  destruct (real_len_le E e He) as (real & Hreal & _). rewrite Hreal. step_some. rewrite (ie_rec _ _ He).
  destruct (is_checksum_tail e) eqn:Ht; cbn [negb andb]; [|destruct (Z.leb_spec (real + needed) (len E)) as [Hroom|]].
  2: { right. destruct (split_record_ok pre E rest e real needed name ino ft He Hlen Hreal Hneed Hroom Hname Hino Hft) as (E1 & e1 & E2 & e2 & Hs & He1 & Hsame & He2 & Hi & Hft2 & Hn2 & Hl).
    exists (E1 ++ E2 ++ rest), [], e, es, e1, e2. rewrite Hs. split_and!; try done; [constructor; [done|by constructor]|]. rewrite !len_app in *. lia. }
  all: rewrite <-len_app, app_assoc; destruct (IH fuel (pre ++ E) ltac:(lia) ltac:(by rewrite <-app_assoc)) as [IH1|(rest' & es1 & x & es2 & e1 & e2 & IH1 & -> & Hx & Hc' & Hrest)]; [by left|right].
  all: exists (E ++ rest'), (e :: es1), x, es2, e1, e2; rewrite IH1, app_assoc; split_and!; try done; try (by constructor); try apply Hrest; rewrite !len_app; destruct Hrest as (_ & _ & _ & _ & ->); done.
Qed.

(** The list without one entry: the first one of a block is freed, another one is merged
    into the entry before it. *)
Definition drops (l : list Ext4DirEntry) (e : Ext4DirEntry) (l2 fs : list Ext4DirEntry) : Prop :=
  (l = [] ∧ ∃ e0, fs = e0 :: l2 ∧ live e0 = None ∧ de_file_type e0 = de_file_type e) ∨
  (∃ l' p p', l = l' ++ [p] ∧ fs = l' ++ p' :: l2 ∧ same_entry p p').

(** The offset of the record before. *)
Definition prev_ok (pre : list Z) (ps : list Ext4DirEntry) (prev : option Z) : Prop :=
  (pre = [] ∧ ps = [] ∧ prev = None) ∨
  (∃ pre0 ps0 P p, pre = pre0 ++ P ∧ ps = ps0 ++ [p] ∧ chain pre0 ps0 ∧ is_entry P p ∧ prev = Some (len pre0)).

Lemma drop_record_ok pre ps prev E rest e es old : prev_ok pre ps prev → is_entry E e → chain rest es → len (pre ++ E ++ rest) = BLOCK_SZ →
  (∀ l p, ps = l ++ [p] → is_checksum_tail p = false) →
  ∃ buf' fs, drop_record (pre ++ E ++ rest) BLOCK_SZ (len pre) (len E) prev old = Some (Changed buf' old) ∧ len buf' = BLOCK_SZ ∧ chain buf' fs ∧ drops ps e es fs.
Proof.
  intros Hprev He Hr Hlen Htail. pose proof (len_nonneg rest) as H0. destruct Hprev as [(-> & -> & ->)|(pre0 & ps0 & P & p & -> & -> & Hc0 & Hp & ->)]; cbn [drop_record].
  - rewrite slice_end by done. step_some.
    destruct (set_inode_ok E e rest 0 He ltac:(lia)) as (E' & e' & -> & He' & Hl' & Hi' & Hf' & Hn'). step_some.
    rewrite put_end by (rewrite !len_app; lia). step_some. cbn [negb app] in *. exists (E' ++ rest), (e' :: es). split_and!; [done|rewrite len_app in *; lia|by constructor|].
    left. split; [done|]. exists e'. split_and!; [done| |done]. unfold live. by rewrite Hi'.
  - rewrite <-!app_assoc in *. pose proof (len_nonneg pre0). pose proof (ie_min _ _ Hp). pose proof (ie_min _ _ He). rewrite !len_app in Hlen. unfold BLOCK_SZ in Hlen.
    rewrite slice_end by (rewrite !len_app; unfold BLOCK_SZ; lia). step_some. rewrite (from_bytes_entry P p) by done. rewrite (Htail ps0 p) by done. rewrite (ie_rec _ _ Hp).
    unfold checked_add. change USIZE_MAX with 18446744073709551615. rewrite (proj2 (Z.leb_le _ _)) by lia. rewrite (proj2 (Z.ltb_ge _ _)) by (unfold BLOCK_SZ; lia). rewrite Z.mod_small by lia.
    destruct (real_len_le P p Hp) as (m & Hm & Hm1 & _).
    destruct (set_rec_len_ok P p (P ++ E) rest (len P + len E) Hp) as (X' & p' & Hs & Hp' & HX' & Hi' & Hf' & Hn' & _).
    { exists (E ++ rest). by rewrite app_assoc. } { by rewrite len_app. } { rewrite Z.add_mod, (ie_mod _ _ Hp), (ie_mod _ _ He) by lia. done. } { lia. } { exists m. split; [done|lia]. }
    { apply Forall_app. split; [apply (ie_all _ _ Hp)|apply (ie_all _ _ He)]. }
    rewrite <-app_assoc in Hs. rewrite Hs. step_some. rewrite put_end by (rewrite !len_app; lia). step_some. cbn [negb].
    exists (pre0 ++ X' ++ rest), (ps0 ++ p' :: es). split_and!; [done|rewrite !len_app; unfold BLOCK_SZ; lia|apply chain_app; [done|by constructor]|].
    right. exists ps0, p, p'. done.
Qed.

Lemma remove_records_ok name rest es : chain rest es → ∀ fuel pre ps prev, chain pre ps → prev_ok pre ps prev → (length es < fuel)%nat → len (pre ++ rest) = BLOCK_SZ →
  (∀ l p l2, ps ++ es = l ++ p :: l2 → l2 ≠ [] → is_checksum_tail p = false) →
  (find_entry name es = None ∧ remove_records fuel (pre ++ rest) BLOCK_SZ (len pre) prev name = Some (EndAt BLOCK_SZ)) ∨
  (∃ buf' l1 e l2 fs, remove_records fuel (pre ++ rest) BLOCK_SZ (len pre) prev name = Some (Changed buf' (de_inode e, de_file_type e)) ∧
     es = l1 ++ e :: l2 ∧ find_entry name l1 = None ∧ hits e name = true ∧ len buf' = BLOCK_SZ ∧ chain buf' fs ∧ drops (ps ++ l1) e l2 fs).
Proof.
  induction 1 as [|E e rest es He Hr IH]; intros [|fuel] pre ps prev Hps Hprev Hf Hlen Htail; cbn [length] in Hf; try lia; cbn [remove_records].
  { left. split; [done|]. destruct (at_end pre _ eq_refl) as [_ Ha]. rewrite Hlen in Ha. rewrite Ha. rewrite app_nil_r in Hlen. by rewrite Hlen. }
  destruct (at_record pre E rest e BLOCK_SZ He (eq_sym Hlen)) as (-> & H1 & _ & -> & _). step_some. rewrite H1. rewrite (matches_name_ok E) by done. step_some. cbn [find_entry].
  destruct (hits e name) eqn:Hh.
  - right. rewrite (ie_rec _ _ He). destruct (drop_record_ok pre ps prev E rest e es (de_inode e, de_file_type e) Hprev He Hr Hlen) as (buf' & fs & Hd & Hl' & Hc' & Hdr).
    { intros l p Hp. apply (Htail l p (e :: es)); [|done]. by rewrite Hp, <-app_assoc. }
    exists buf', [], e, es, fs. rewrite app_nil_r. split_and!; done.
  - rewrite (ie_rec _ _ He), <-len_app, app_assoc. destruct (IH fuel (pre ++ E) (ps ++ [e]) (Some (len pre))) as [[IH1 IH2]|(buf' & l1 & x & l2 & fs & IH1 & -> & Hn1 & Hx & Hl' & Hc' & Hd)].
    { by apply chain_app, chain_of_entry. } { right. by exists pre, ps, E, e. } { lia. } { by rewrite <-app_assoc. } { rewrite <-app_assoc. exact Htail. }
    + left. done.
    + right. exists buf', (e :: l1), x, l2, fs. rewrite IH1. split_and!; try done; [cbn; by rewrite Hh|]. by rewrite <-app_assoc in Hd.
Qed.

Lemma retarget_record_ok pre E rest e ino ft old : is_entry E e → len (pre ++ E ++ rest) = BLOCK_SZ → is_u32 ino → is_byte ft →
  ∃ E' e', retarget_record (pre ++ E ++ rest) BLOCK_SZ (len pre) ino ft old = Some (Changed (pre ++ E' ++ rest) old) ∧ is_entry E' e' ∧ len E' = len E ∧
    de_inode e' = ino ∧ de_file_type e' = ft ∧ entry_name e' = entry_name e.
Proof.
  intros He Hlen Hino Hft. pose proof (len_nonneg rest). unfold retarget_record. rewrite slice_end by done. step_some.
  destruct (set_inode_ok E e rest ino He Hino) as (E1 & e1 & -> & He1 & Hl1 & Hi1 & Hf1 & Hn1). step_some. rewrite put_end by (rewrite !len_app; lia). step_some. cbn [negb].
  rewrite slice_end by (rewrite !len_app in *; lia). step_some. destruct (set_file_type_ok E1 e1 rest ft He1 Hft) as (E2 & e2 & -> & He2 & Hl2 & Hi2 & Hf2 & Hn2). step_some.
  rewrite put_end by (rewrite !len_app; lia). step_some. cbn [negb]. exists E2, e2. split_and!; (done || congruence || lia).
Qed.

Lemma replace_records_ok name ino ft rest es : chain rest es → is_u32 ino → is_byte ft → ∀ fuel pre, (length es < fuel)%nat → len (pre ++ rest) = BLOCK_SZ →
  (find_entry name es = None ∧ replace_records fuel (pre ++ rest) BLOCK_SZ (len pre) name ino ft = Some (EndAt BLOCK_SZ)) ∨
  (∃ rest' l1 e l2 e', replace_records fuel (pre ++ rest) BLOCK_SZ (len pre) name ino ft = Some (Changed (pre ++ rest') (de_inode e, de_file_type e)) ∧
     es = l1 ++ e :: l2 ∧ find_entry name l1 = None ∧ hits e name = true ∧ len rest' = len rest ∧ chain rest' (l1 ++ e' :: l2) ∧
     de_inode e' = ino ∧ de_file_type e' = ft ∧ entry_name e' = name).
Proof.
  intros Hc Hino Hft. induction Hc as [|E e rest es He Hr IH]; intros [|fuel] pre Hf Hlen; cbn [length] in Hf; try lia; cbn [replace_records].
  { left. split; [done|]. destruct (at_end pre _ eq_refl) as [_ Ha]. rewrite Hlen in Ha. rewrite Ha. rewrite app_nil_r in Hlen. by rewrite Hlen. }
  destruct (at_record pre E rest e BLOCK_SZ He (eq_sym Hlen)) as (-> & H1 & _ & -> & _). step_some. rewrite H1. rewrite (matches_name_ok E) by done. step_some. cbn [find_entry].
  destruct (hits e name) eqn:Hh.
  - right. destruct (retarget_record_ok pre E rest e ino ft (de_inode e, de_file_type e) He Hlen Hino Hft) as (E' & e' & Hs & He' & Hl' & Hi' & Hf' & Hn').
    exists (E' ++ rest), [], e, es, e'. rewrite Hs. split_and!; try done; [rewrite !len_app; lia|by constructor|]. rewrite Hn'. unfold hits in Hh. apply andb_true_iff in Hh as [_ Hh]. by apply bool_decide_eq_true in Hh.
  - rewrite (ie_rec _ _ He), <-len_app, app_assoc. destruct (IH fuel (pre ++ E) ltac:(lia) ltac:(by rewrite <-app_assoc)) as [[IH1 IH2]|(rest' & l1 & x & l2 & e' & IH1 & -> & Hn1 & Hx & Hl' & Hc' & Hrest)].
    + left. done.
    + right. exists (E ++ rest'), (e :: l1), x, l2, e'. rewrite IH1, <-app_assoc. split_and!; try done; [cbn; by rewrite Hh|rewrite !len_app; lia|by constructor|apply Hrest..].
Qed.
