(* ===== verification/Ext4DirOps.v ===== *)
(** * The operations on directories

    The blocks of a directory with their checksum tails, and what each operation of
    [Ext4Dir] does to the list of names in use. *)

From S2P Require Import Prelude Bytes Ext4Checksum Ext4Super Ext4Dirent Ext4Dir Ext4DirInv.

Local Open Scope Z_scope.

(** The second implementation of CRC32C, in [ext4inode.rs]. *)
Lemma crc32c_update_eq : crc32c_update = crc32c.
Proof. unfold crc32c_update, crc32c, crc_byte, crc_bit, CRC32C_POLY. reflexivity. Qed.

#[local] Opaque crc32c crc32c_update.

(** ** The checksum tail *)

Definition tail_bytes (c : list Z) : list Z := [0; 0; 0; 0; 12; 0; 0; 0xde] ++ c.

Definition is_tail (t : Ext4DirEntry) : Prop :=
  de_inode t = 0 ∧ de_rec_len t = 12 ∧ de_name_len t = 0 ∧ de_file_type t = 0xde.

Lemma of_le_0 l : all_bytes l → of_le l = 0 → l = zeros (len l).
Proof.
  intros Hb H0. rewrite <-(le_of_le l Hb), H0 at 1. unfold zeros, len. rewrite Nat2Z.id. clear. induction (length l) as [|n IH]; [done|].
  rewrite le_S, Z.shiftr_0_l, IH. done.
Qed.

Lemma tail_of_entry T t : is_entry T t → is_tail t → ∃ c, T = tail_bytes c ∧ len c = 4 ∧ all_bytes c.
Proof.
  intros He (H1 & H2 & H3 & H4). pose proof (ie_all _ _ He) as Hb. assert (len T = 12) as Hl by (rewrite <-(ie_rec _ _ He); done).
  rewrite (ie_inode _ _ He) in H1. rewrite (ie_name _ _ He) in H3. rewrite (ie_type _ _ He) in H4. pose proof (ie_reclen _ _ He) as Hr. rewrite Hl in Hr.
  exists (seg 8 12 T). assert (∀ a b n v, b - a = Z.of_nat n → 0 ≤ a → a ≤ b → b ≤ 12 → of_le (seg a b T) = v → seg a b T = le n v) as Hfield.
  { intros a b n v Hn ??? <-. rewrite <-(le_of_le (seg a b T)) at 1 by (by apply Forall_seg). f_equal. pose proof (len_seg a b T ltac:(lia) ltac:(lia)) as Hs. unfold len in Hs. lia. }
  apply (Hfield 0 4 4%nat) in H1; [|lia..]. apply (Hfield 4 6 2%nat) in Hr; [|lia..]. apply (Hfield 6 7 1%nat) in H3; [|lia..]. apply (Hfield 7 8 1%nat) in H4; [|lia..].
  split_and!; [|rewrite len_seg; lia|by apply Forall_seg]. rewrite <-(seg_0_len T) at 1. rewrite Hl. rewrite <-(seg_app 0 8 12), <-(seg_app 0 7 8), <-(seg_app 0 6 7), <-(seg_app 0 4 6) by lia.
  rewrite H1, Hr, H3, H4. done.
Qed.

Definition tail_entry (c : list Z) : Ext4DirEntry := MkDirEntry (tail_bytes c) 0 12 0 0xde.

Lemma tail_is_entry c : len c = 4 → all_bytes c → is_entry (tail_bytes c) (tail_entry c) ∧ is_tail (tail_entry c).
Proof.
  intros Hl Hb. assert (len (tail_bytes c) = 12) as H12 by (unfold tail_bytes; rewrite len_app, Hl; done).
  split; [|done]. split; cbn [tail_entry de_bytes de_rec_len de_inode de_name_len de_file_type]; rewrite ?H12; try done; try lia.
  apply Forall_app. split; [|done]. repeat constructor; lia.
Qed.

Lemma tail_not_live t : is_tail t → live t = None.
Proof. intros (H & _). unfold live. by rewrite H. Qed.

Lemma index_app_r {A} (pre x : list A) n : len pre ≤ n → index (pre ++ x) n = index x (n - len pre).
Proof.
  intros Hn. pose proof (len_nonneg pre). unfold index. rewrite !(proj2 (Z.leb_le _ _)) by lia. rewrite lookup_app_r by (unfold len in *; lia). f_equal. unfold len in *. lia.
Qed.

(** A volume with the checksum feature names the algorithm, CRC32C. *)
Record volume_ok (sb : Ext4SuperBlock) : Prop := {
  vol_type : (Z.land (ro_compat_features sb) 0x0400 =? 0) = negb (has_metadata_csum sb);
  vol_seed : is_u32 (checksum_seed sb);
  vol_uuid : all_bytes (uuid sb);
}.

Lemma volume_seed sb : volume_ok sb → is_u32 (metadata_checksum_seed sb).
Proof. intros [_ H1 H2]. unfold metadata_checksum_seed. destruct (has_csum_seed sb); [done|]. apply crc32c_u32; [lia|done]. Qed.

Section blocks.
Context (sb : Ext4SuperBlock) (inode_id i_generation : Z).
Hypothesis Hvol : volume_ok sb.

(** The records behind the entries of a block: the tail, on a volume with checksums. *)
Definition tail_ok (tl : list Ext4DirEntry) : Prop := if has_metadata_csum sb then ∃ t, tl = [t] ∧ is_tail t else tl = [].

Record shape (b : list Z) (es : list Ext4DirEntry) : Prop := {
  sh_len : len b = BLOCK_SZ;
  sh_types : Forall (λ e, de_file_type e ≠ 0xde) es;
  sh_chain : ∃ tl, chain b (es ++ tl) ∧ tail_ok tl;
}.

(** The checksum of [checksum.rs] is the one stored. *)
Definition sealed (b : list Z) : Prop :=
  has_metadata_csum sb = true → dir_leaf_checksum (metadata_checksum_seed sb) inode_id i_generation b = Some (Some (of_le (seg (BLOCK_SZ - 4) BLOCK_SZ b))).

Lemma shape_parts b es : has_metadata_csum sb = true → shape b es → ∃ X c, b = X ++ tail_bytes c ∧ chain X es ∧ len c = 4 ∧ all_bytes c ∧ len X = BLOCK_SZ - 12.
Proof.
  intros Hc [Hl _ (tl & Hch & Ht)]. unfold tail_ok in Ht. rewrite Hc in Ht. destruct Ht as (t & -> & Ht). destruct (chain_app_inv _ _ _ Hch) as (X & T & -> & HX & HT%chain_single).
  destruct (tail_of_entry _ _ HT Ht) as (c & -> & Hlc & Hbc). exists X, c. split_and!; try done. rewrite len_app in Hl. unfold tail_bytes in Hl. rewrite len_app, Hlc in Hl. change (len _) with 8 in Hl at 2. lia.
Qed.

Lemma shape_intro X c es : has_metadata_csum sb = true → chain X es → len c = 4 → all_bytes c → len X = BLOCK_SZ - 12 → Forall (λ e, de_file_type e ≠ 0xde) es → shape (X ++ tail_bytes c) es.
Proof.
  intros Hc HX Hlc Hbc Hl Hf. destruct (tail_is_entry c Hlc Hbc) as [H1 H2]. split; [|done|].
  - rewrite len_app. unfold tail_bytes. rewrite len_app, Hlc. change (len [0; 0; 0; 0; 12; 0; 0; 0xde]) with 8. lia.
  - exists [tail_entry c]. split; [by apply chain_app, chain_of_entry|]. unfold tail_ok. rewrite Hc. by exists (tail_entry c).
Qed.

Lemma tail_leaf X c : len X = BLOCK_SZ - 12 → len c = 4 → leaf_tail (X ++ tail_bytes c) = true.
Proof.
  intros HX Hc. unfold leaf_tail. assert (len (X ++ tail_bytes c) = BLOCK_SZ) as -> by (rewrite len_app; unfold tail_bytes; rewrite len_app, Hc, HX; done).
  rewrite !(seg_skip _ _ (len X)), !index_app_r by (done || lia). rewrite HX. done.
Qed.

Lemma dir_seal {F} (d : Dir F) b es : is_dir d = true → shape b es → ∃ b', update_dir_block_checksum_if_needed sb inode_id i_generation d b = Some b' ∧ shape b' es ∧ sealed b'.
Proof.
  intros Hd Hs. unfold update_dir_block_checksum_if_needed. rewrite Hd, (vol_type _ Hvol). cbn [negb]. destruct (has_metadata_csum sb) eqn:Hc; cbn [negb].
  2: { exists b. split_and!; [done|done|]. intros ?. congruence. }
  destruct (shape_parts b es Hc Hs) as (X & c & -> & HX & Hlc & Hbc & Hl). rewrite (sh_len _ _ Hs). rewrite (proj2 (Z.ltb_ge _ _)) by lia. cbv zeta.
  unfold u16_at. rewrite !index_app_r by lia. rewrite Hl. change (index (tail_bytes c) (BLOCK_SZ - 12 + 4 - (BLOCK_SZ - 12))) with (Some 12). change (index (tail_bytes c) (BLOCK_SZ - 12 + 4 + 1 - (BLOCK_SZ - 12))) with (Some 0).
  change (index (tail_bytes c) (BLOCK_SZ - 12 + 6 - (BLOCK_SZ - 12))) with (Some 0). change (index (tail_bytes c) (BLOCK_SZ - 12 + 7 - (BLOCK_SZ - 12))) with (Some 0xde).
  rewrite !some_bind. cbv beta iota. change (of_le [12; 0]) with 12. cbn [negb orb Z.eqb Pos.eqb].
  unfold tail_bytes. rewrite app_assoc. set (H8 := [0; 0; 0; 0; 12; 0; 0; 222]). replace (BLOCK_SZ - 12 + 8) with (len (X ++ H8)) by (rewrite len_app, Hl; done).
  rewrite put_end by (rewrite Hlc; done). step_some. rewrite <-app_assoc. rewrite slice_ok, seg_here by (rewrite ?len_app, ?Hl; (done || (unfold BLOCK_SZ; cbn; lia))). step_some.
  unfold ext4_checksum_seed. set (crc := crc32c_update _ X).
  assert (crc = crc32c (inode_checksum_seed (metadata_checksum_seed sb) inode_id i_generation) X) as Hcrc by (unfold crc, inode_checksum_seed; rewrite crc32c_update_eq; reflexivity). clearbody crc. rewrite app_assoc, put_end by (rewrite len_le; done). rewrite <-app_assoc.
  change (X ++ H8 ++ le 4 crc) with (X ++ tail_bytes (le 4 crc)). eexists. split; [done|]. split; [apply shape_intro; [done|done|apply len_le|apply le_bytes|done|apply (sh_types _ _ Hs)]|].
  intros _. assert (len (X ++ tail_bytes (le 4 crc)) = BLOCK_SZ) as HB by (unfold tail_bytes; rewrite !len_app, Hl, len_le; done).
  unfold dir_leaf_checksum. rewrite dir_leaf_covers by (rewrite HB; done). rewrite tail_leaf by (done || apply len_le). rewrite HB. rewrite seg_here by done.
  do 2 f_equal. rewrite (seg_skip _ _ (len X)), Hl by (done || lia). unfold tail_bytes. rewrite (seg_skip _ _ 8) by done.
  change (BLOCK_SZ - 4 - (BLOCK_SZ - 12) - 8) with 0. change (BLOCK_SZ - (BLOCK_SZ - 12) - 8) with 4. rewrite seg_all by apply len_le. rewrite of_le_small; [done|]. rewrite Hcrc. repeat apply crc32c_u32; auto using le_bytes, volume_seed. by apply (chain_bytes X es).
Qed.

Definition dblock (p : list Z * list Ext4DirEntry) : Prop := shape p.1 p.2 ∧ sealed p.1.

Lemma tail_live tl : tail_ok tl → omap live tl = [].
Proof. unfold tail_ok. destruct (has_metadata_csum sb); [|by intros ->]. intros (t & -> & Ht). cbn. by rewrite tail_not_live. Qed.

Lemma tail_find tl name : tail_ok tl → find_entry name tl = None.
Proof. intros Ht. apply find_entry_live. rewrite tail_live by done. apply not_elem_of_nil. Qed.

Lemma records_fuel b es : len b = BLOCK_SZ → chain b es → (length es < record_fuel)%nat.
Proof. intros Hl Hc%chain_length. rewrite Hl in Hc. change record_fuel with 513%nat. unfold BLOCK_SZ in Hc. lia. Qed.

Lemma interior_not_tail es tl l p l2 : Forall (λ e, de_file_type e ≠ 0xde) es → tail_ok tl → es ++ tl = l ++ p :: l2 → l2 ≠ [] → is_checksum_tail p = false.
Proof.
  intros Hf Ht Heq Hl2. assert (p ∈ es) as Hp.
  { unfold tail_ok in Ht. destruct (has_metadata_csum sb); [destruct Ht as (t & -> & _)|subst tl].
    - destruct (exists_last Hl2) as (l3 & x & ->). rewrite app_comm_cons, app_assoc in Heq. apply app_inj_tail in Heq as [-> _]. apply elem_of_app. right. apply elem_of_cons. by left.
    - rewrite app_nil_r in Heq. subst es. apply elem_of_app. right. apply elem_of_cons. by left. }
  rewrite Forall_forall in Hf. unfold is_checksum_tail. rewrite (proj2 (Z.eqb_neq _ _) (Hf p Hp)). apply andb_false_r.
Qed.

(** A list with a live or untyped entry in it cuts the entries, not the tail. *)
Lemma split_before_tail es tl l1 e l2 : tail_ok tl → es ++ tl = l1 ++ e :: l2 → ¬ is_tail e → ∃ k, es = l1 ++ e :: k ∧ l2 = k ++ tl.
Proof.
  unfold tail_ok. destruct (has_metadata_csum sb); [intros (t & -> & Ht)|intros ->]; intros Heq Hn; [|exists l2; by rewrite !app_nil_r in *].
  destruct (decide (l2 = [])) as [->|Hl2].
  - apply app_inj_tail in Heq as [_ ->]. done.
  - destruct (exists_last Hl2) as (k & x & ->). rewrite app_comm_cons, app_assoc in Heq. apply app_inj_tail in Heq as [-> ->]. by exists k.
Qed.

Lemma hits_not_tail e name : hits e name = true → ¬ is_tail e.
Proof. intros Hh (H0 & _). unfold hits in Hh. by rewrite H0 in Hh. Qed.

(** ** What a pass over a block does to its entries *)

Lemma room_block b es needed name ino ft : shape b es → record_len (len name) = Some needed → all_bytes name → is_u32 ino → ino ≠ 0 → is_byte ft → ft ≠ 0xde →
  (room_records record_fuel b BLOCK_SZ 0 needed name ino ft = Some NoRoom) ∨
  (∃ b' es', room_records record_fuel b BLOCK_SZ 0 needed name ino ft = Some (NewBlock b') ∧ shape b' es' ∧ omap live es' ≡ₚ (name, (ino, ft)) :: omap live es).
Proof.
  intros [Hl Hf (tl & Hc & Ht)] Hneed Hname Hino H0 Hft Hde.
  destruct (room_records_ok needed name ino ft b _ Hc Hneed Hname Hino Hft record_fuel [] (records_fuel _ _ Hl Hc) Hl) as [Hr|(b' & es1 & e & es2 & e1 & e2 & Hr & Heq & Hnt & Hc' & Hsame & Hi2 & Hf2 & Hn2 & Hl')]; [by left|right].
  destruct (split_before_tail es tl es1 e es2 Ht Heq) as (k & -> & ->).
  { intros (A & B & C & D). unfold is_checksum_tail in Hnt. by rewrite A, B, C, D in Hnt. }
  exists b', (es1 ++ e1 :: e2 :: k). split; [exact Hr|]. apply Forall_app in Hf as [Hf1 [He Hf3]%Forall_cons]. split.
  - split; [congruence| |].
    + apply Forall_app. split; [done|]. repeat constructor; [|by rewrite Hf2|done]. destruct Hsame as (_ & -> & _). done.
    + exists tl. rewrite <-app_assoc. done.
  - rewrite !omap_app. cbn. rewrite (same_entry_live e e1 Hsame). replace (live e2) with (Some (name, (ino, ft))) by (unfold live; rewrite Hi2, Hf2, Hn2, (proj2 (Z.eqb_neq _ _) H0); done).
    destruct (live e); cbn; solve_Permutation.
Qed.

Lemma remove_block b es name : shape b es →
  (find_entry name es = None ∧ remove_records record_fuel b BLOCK_SZ 0 None name = Some (EndAt BLOCK_SZ)) ∨
  (∃ b' es' old, remove_records record_fuel b BLOCK_SZ 0 None name = Some (Changed b' old) ∧ shape b' es' ∧ find_entry name es = Some old ∧ omap live es ≡ₚ (name, old) :: omap live es').
Proof.
  intros [Hl Hf (tl & Hc & Ht)].
  destruct (remove_records_ok name b _ Hc record_fuel [] [] None (chain_nil) (or_introl (conj eq_refl (conj eq_refl eq_refl))) (records_fuel _ _ Hl Hc) Hl) as [[Hn Hr]|(b' & l1 & e & l2 & fs & Hr & Heq & Hn1 & Hh & Hl' & Hc' & Hd)].
  { intros l p l2 Heq Hl2. by apply (interior_not_tail es tl l p l2). }
  { left. split; [|exact Hr]. rewrite find_entry_app in Hn. by destruct (find_entry name es). }
  right. destruct (split_before_tail es tl l1 e l2 Ht Heq (hits_not_tail e name Hh)) as (k & -> & ->). apply Forall_app in Hf as [Hf1 [He Hf3]%Forall_cons].
  assert (live e = Some (name, (de_inode e, de_file_type e))) as Hlive by (by apply hits_live). assert (find_entry name (l1 ++ e :: k) = Some (de_inode e, de_file_type e)) as Hfind by (rewrite find_entry_app, Hn1; cbn; by rewrite Hh).
  cbn [app] in Hd. destruct Hd as [(-> & e0 & -> & Hl0 & Hf0)|(l' & p & p' & -> & -> & Hsame)].
  - exists b', (e0 :: k), (de_inode e, de_file_type e). split_and!; [exact Hr| |done|cbn; by rewrite Hlive, Hl0]. split; [done|constructor; [by rewrite Hf0|done]|]. by exists tl.
  - exists b', (l' ++ p' :: k), (de_inode e, de_file_type e). apply Forall_app in Hf1 as [Hf1 [Hp _]%Forall_cons]. split_and!; [exact Hr| |done|].
    + split; [done| |exists tl; by rewrite <-app_assoc]. apply Forall_app. split; [done|]. constructor; [|done]. destruct Hsame as (_ & -> & _). done.
    + rewrite !omap_app. cbn. rewrite Hlive, (same_entry_live p p' Hsame). destruct (live p); cbn; solve_Permutation.
Qed.

Lemma replace_block b es name ino ft : shape b es → is_u32 ino → ino ≠ 0 → is_byte ft → ft ≠ 0xde →
  (find_entry name es = None ∧ replace_records record_fuel b BLOCK_SZ 0 name ino ft = Some (EndAt BLOCK_SZ)) ∨
  (∃ b' es' old l1 l2, replace_records record_fuel b BLOCK_SZ 0 name ino ft = Some (Changed b' old) ∧ shape b' es' ∧ find_entry name es = Some old ∧
    omap live es = l1 ++ (name, old) :: l2 ∧ omap live es' = l1 ++ (name, (ino, ft)) :: l2).
Proof.
  intros [Hl Hf (tl & Hc & Ht)] Hino H0 Hft Hde.
  destruct (replace_records_ok name ino ft b _ Hc Hino Hft record_fuel [] (records_fuel _ _ Hl Hc) Hl) as [[Hn Hr]|(b' & l1 & e & l2 & e' & Hr & Heq & Hn1 & Hh & Hl' & Hc' & Hi' & Hf' & Hn')].
  { left. split; [|exact Hr]. rewrite find_entry_app in Hn. by destruct (find_entry name es). }
  right. destruct (split_before_tail es tl l1 e l2 Ht Heq (hits_not_tail e name Hh)) as (k & -> & ->). apply Forall_app in Hf as [Hf1 [He Hf3]%Forall_cons].
  assert (live e = Some (name, (de_inode e, de_file_type e))) as Hlive by (by apply hits_live).
  exists b', (l1 ++ e' :: k), (de_inode e, de_file_type e), (omap live l1), (omap live k). split_and!; [exact Hr| |by rewrite find_entry_app, Hn1; cbn; rewrite Hh|by rewrite omap_app; cbn; rewrite Hlive|].
  - split; [congruence| |exists tl; by rewrite <-app_assoc]. apply Forall_app. split; [done|]. constructor; [by rewrite Hf'|done].
  - rewrite omap_app. cbn. replace (live e') with (Some (name, (ino, ft))); [done|]. unfold live. by rewrite Hi', Hf', Hn', (proj2 (Z.eqb_neq _ _) H0).
Qed.

End blocks.

(** ** Passes over the blocks of a directory *)

Section passes.
Context {F : Type} `{ByteFileLaws F}.
Context (sb : Ext4SuperBlock) (inode_id i_generation : Z).
Hypothesis Hvol : volume_ok sb.

Implicit Types (d : Dir F) (bss : list (list Z * list Ext4DirEntry)).

Local Abbreviation good := (Forall (dblock sb inode_id i_generation)).
Local Abbreviation bytes_of bss := (concat bss.*1).
Local Abbreviation entries_of bss := (concat bss.*2).

Lemma bytes_len bss : good bss → len (bytes_of bss) = BLOCK_SZ * len bss.
Proof.
  induction 1 as [|[b es] bss [Hs _] Hg IH]; [done|]. cbn [fst snd] in Hs. cbn [fmap list_fmap concat fst]. rewrite len_app, IH, (sh_len _ _ _ Hs). unfold len. cbn [length]. lia.
Qed.

(** A block that can be scanned: nothing behind the entries is in use. *)
Definition plain (p : list Z * list Ext4DirEntry) : Prop := len p.1 = BLOCK_SZ ∧ ∃ tl, chain p.1 (p.2 ++ tl) ∧ omap live tl = [].

Lemma good_plain bss : good bss → Forall plain bss.
Proof. intros Hg. eapply Forall_impl; [exact Hg|]. intros [b es] [[Hl _ (tl & Hc & Ht)] _]. split; [done|]. exists tl. split; [done|]. by apply (tail_live sb). Qed.

(** The block at the end of [P], and the end itself. *)
Lemma at_block d P b es bss : file_ok (d_file d) → file_view (d_file d) = P ++ bytes_of ((b, es) :: bss) → Forall plain ((b, es) :: bss) →
  (len P <? dir_size d) = true ∧ file_read (d_file d) (len P) BLOCK_SZ = b ∧ len b = BLOCK_SZ ∧ BLOCK_SZ ≤ dir_size d - len P.
Proof.
  intros Hok Hv [[Hl _] Hg]%Forall_cons. cbn [fmap list_fmap concat fst snd] in *. pose proof (len_nonneg P). pose proof (len_nonneg (bytes_of bss)).
  assert (dir_size d = len P + BLOCK_SZ + len (bytes_of bss)) as Hsz by (unfold dir_size; rewrite file_size_view, Hv, !len_app, Hl by done; lia).
  rewrite Hsz. unfold BLOCK_SZ in *. split_and!; [apply Z.ltb_lt; lia| |done|lia]. rewrite file_read_view by (done || lia). unfold dir_size in Hsz. rewrite Hsz, Z.min_l by lia.
  rewrite Hv, (seg_skip _ _ (len P)) by (done || lia). rewrite Z.sub_diag. apply seg_here. lia.
Qed.

Lemma past_blocks d P : file_ok (d_file d) → file_view (d_file d) = P → (len P <? dir_size d) = false.
Proof. intros Hok <-. unfold dir_size. rewrite file_size_view by done. apply Z.ltb_ge. lia. Qed.

Lemma next_block P b es bss : len b = BLOCK_SZ → P ++ bytes_of ((b, es) :: bss) = (P ++ b) ++ bytes_of bss ∧ len P + BLOCK_SZ = len (P ++ b).
Proof. intros Hl. cbn [fmap list_fmap concat fst]. rewrite len_app, <-app_assoc. split; [done|lia]. Qed.

Ltac enter IH :=
  intros bss; induction bss as [|[b es] bss IH];
  (let Hok := fresh "Hok" in let Hv := fresh "Hv" in let Hg := fresh "Hg" in let Hf := fresh "Hf" in intros [|fuel] P Hok Hv Hg Hf; cbn [length] in Hf; [lia|]).

Lemma plain_find b es name : plain (b, es) → ∃ es', chain b es' ∧ len b = BLOCK_SZ ∧ (length es' < record_fuel)%nat ∧ find_entry name es' = find_entry name es.
Proof.
  intros [Hl (tl & Hc & Ht)]. exists (es ++ tl). split_and!; [done|done|by apply (records_fuel b)|]. rewrite find_entry_app.
  assert (find_entry name tl = None) as -> by (apply find_entry_live; rewrite Ht; apply not_elem_of_nil). by destruct (find_entry name es).
Qed.

Lemma lookup_blocks_ok d name : ∀ bss fuel P, file_ok (d_file d) → file_view (d_file d) = P ++ bytes_of bss → Forall plain bss → (length bss < fuel)%nat →
  lookup_blocks fuel d (len P) name = Some (inr (find_entry name (entries_of bss))).
Proof.
  enter IH; cbn [lookup_blocks].
  - cbn in Hv. rewrite app_nil_r in Hv. by rewrite past_blocks.
  - destruct (at_block d P b es bss Hok Hv Hg) as (-> & Hr & Hl & Hmin). rewrite Z.min_l, Hr, Hl by lia. rewrite Z.eqb_refl. cbn [negb].
    apply Forall_cons in Hg as [Hs Hg]. destruct (plain_find b es name Hs) as (es' & Hc & _ & Hfu & Hfe).
    change (lookup_records record_fuel b 0 name) with (lookup_records record_fuel ([] ++ b) (len (@nil Z)) name). rewrite (lookup_records_ok name b es') by done. step_some. rewrite Hfe.
    cbn [fmap list_fmap concat snd]. rewrite find_entry_app. destruct (find_entry name es); [done|].
    destruct (next_block P b es bss Hl) as [E1 ->]. apply IH; [done|congruence|done|lia].
Qed.

Lemma dup_blocks_ok d name : ∀ bss fuel P, file_ok (d_file d) → file_view (d_file d) = P ++ bytes_of bss → good bss → (length bss < fuel)%nat →
  dup_blocks fuel d (len P) name = Some (bool_decide (is_Some (find_entry name (entries_of bss)))).
Proof.
  enter IH; cbn [dup_blocks].
  - cbn in Hv. rewrite app_nil_r in Hv. by rewrite past_blocks.
  - destruct (at_block d P b es bss Hok Hv (good_plain _ Hg)) as (-> & Hr & Hl & Hmin). rewrite Hr, Hl. change (BLOCK_SZ =? 0) with false. cbn iota.
    pose proof (good_plain _ Hg) as [Hs _]%Forall_cons. apply Forall_cons in Hg as [_ Hg]. destruct (plain_find b es name Hs) as (es' & Hc & _ & Hfu & Hfe).
    change (dup_records record_fuel b 0 name) with (dup_records record_fuel ([] ++ b) (len (@nil Z)) name). rewrite (dup_records_ok name b es') by done. step_some. rewrite Hfe.
    cbn [fmap list_fmap concat snd]. rewrite find_entry_app. destruct (find_entry name es); [done|]. cbn.
    destruct (next_block P b es bss Hl) as [E1 ->]. apply IH; [done|congruence|done|lia].
Qed.

Lemma only_dots_app es fs : only_dots (es ++ fs) = only_dots es && only_dots fs.
Proof. unfold only_dots. apply forallb_app. Qed.

Lemma empty_blocks_ok d : ∀ bss fuel P, file_ok (d_file d) → file_view (d_file d) = P ++ bytes_of bss → good bss → (length bss < fuel)%nat →
  empty_blocks fuel d (len P) = Some (only_dots (entries_of bss)).
Proof.
  enter IH; cbn [empty_blocks].
  - cbn in Hv. rewrite app_nil_r in Hv. by rewrite past_blocks.
  - destruct (at_block d P b es bss Hok Hv (good_plain _ Hg)) as (-> & Hr & Hl & Hmin). rewrite Hr, Hl. change (BLOCK_SZ =? 0) with false. cbn iota.
    apply Forall_cons in Hg as [[Hs _] Hg]. cbn [fst snd] in Hs. pose proof Hs as [_ _ (tl & Hc & Ht)].
    pose proof (empty_records_ok b _ Hc record_fuel [] (records_fuel b _ Hl Hc)) as He. cbn [app] in He. change (len (@nil Z)) with 0 in He. rewrite He. step_some.
    rewrite only_dots_app. assert (only_dots tl = true) as ->.
    { unfold tail_ok in Ht. destruct (has_metadata_csum sb); [destruct Ht as (t & -> & Ht & _)|by subst]. unfold only_dots. cbn. by rewrite Ht. }
    cbn [fmap list_fmap concat snd]. rewrite only_dots_app, andb_true_r. destruct (only_dots es); [|done]. cbn. rewrite Hl, Z.eqb_refl. cbn.
    destruct (next_block P b es bss Hl) as [E1 ->]. apply IH; [done|congruence|done|lia].
Qed.

(** ** Passes that change a block *)

Lemma data_full (b : list Z) : len b = BLOCK_SZ → b ++ zeros (BLOCK_SZ - len b) = b.
Proof. intros ->. rewrite Z.sub_diag. apply app_nil_r. Qed.

Lemma room_blocks_ok d name needed ino ft : record_len (len name) = Some needed → all_bytes name → is_u32 ino → ino ≠ 0 → is_byte ft → ft ≠ 0xde →
  ∀ bss fuel P, file_ok (d_file d) → file_view (d_file d) = P ++ bytes_of bss → good bss → (length bss < fuel)%nat →
  room_blocks sb inode_id i_generation fuel d (len P) needed name ino ft = Some (inl tt) ∨
  ∃ bss1 b es bss2 b' es', bss = bss1 ++ (b, es) :: bss2 ∧ shape sb b' es' ∧ omap live es' ≡ₚ (name, (ino, ft)) :: omap live es ∧
    room_blocks sb inode_id i_generation fuel d (len P) needed name ino ft =
    (r ← write_added sb inode_id i_generation d (len (P ++ bytes_of bss1)) b' name ino ft; Some (inr r)).
Proof.
  intros Hneed Hname Hino Hnz Hft Hde. enter IH; cbn [room_blocks].
  - left. cbn in Hv. rewrite app_nil_r in Hv. by rewrite past_blocks.
  - destruct (at_block d P b es bss Hok Hv (good_plain _ Hg)) as (-> & Hr & Hl & Hmin). rewrite Hr, data_full, Hl by done. change (BLOCK_SZ =? 0) with false. cbn iota.
    apply Forall_cons in Hg as [[Hs _] Hg]. cbn [fst snd] in Hs. destruct (room_block sb b es needed name ino ft Hs) as [->|(b' & es' & -> & Hs' & Hp)]; try done; step_some.
    + destruct (next_block P b es bss Hl) as [E1 ->]. destruct (IH fuel (P ++ b)) as [->|(bss1 & b0 & es0 & bss2 & b' & es' & -> & Hs' & Hp & ->)]; [done|congruence|done|lia|by left|].
      right. exists ((b, es) :: bss1), b0, es0, bss2, b', es'. cbn [fmap list_fmap concat fst]. by rewrite app_assoc.
    + right. exists [], b, es, bss, b', es'. cbn [fmap list_fmap concat]. by rewrite app_nil_r.
Qed.

Lemma remove_blocks_ok d name : ∀ bss fuel P, file_ok (d_file d) → file_view (d_file d) = P ++ bytes_of bss → good bss → (length bss < fuel)%nat →
  (find_entry name (entries_of bss) = None ∧ remove_blocks sb inode_id i_generation fuel d (len P) name = Some (None, d)) ∨
  ∃ bss1 b es bss2 b' es' old, bss = bss1 ++ (b, es) :: bss2 ∧ shape sb b' es' ∧ find_entry name (entries_of bss) = Some old ∧ omap live es ≡ₚ (name, old) :: omap live es' ∧
    remove_blocks sb inode_id i_generation fuel d (len P) name = write_changed sb inode_id i_generation d (len (P ++ bytes_of bss1)) b' old.
Proof.
  enter IH; cbn [remove_blocks].
  - left. cbn in Hv. rewrite app_nil_r in Hv. by rewrite past_blocks.
  - destruct (at_block d P b es bss Hok Hv (good_plain _ Hg)) as (-> & Hr & Hl & Hmin). rewrite Hr, data_full, Hl by done. change (BLOCK_SZ =? 0) with false. cbn iota.
    apply Forall_cons in Hg as [[Hs _] Hg]. cbn [fst snd] in Hs. cbn [fmap list_fmap concat snd]. rewrite find_entry_app.
    destruct (remove_block sb b es name Hs) as [[-> ->]|(b' & es' & old & -> & Hs' & -> & Hp)]; step_some.
    + rewrite Z.eqb_refl. cbn [negb]. destruct (next_block P b es bss Hl) as [E1 ->].
      destruct (IH fuel (P ++ b)) as [[-> ->]|(bss1 & b0 & es0 & bss2 & b' & es' & old & -> & Hs' & -> & Hp & ->)]; [done|congruence|done|lia|by left|].
      right. exists ((b, es) :: bss1), b0, es0, bss2, b', es', old. cbn [fmap list_fmap concat fst]. by rewrite app_assoc.
    + right. exists [], b, es, bss, b', es', old. cbn [fmap list_fmap concat]. by rewrite app_nil_r.
Qed.

Lemma replace_blocks_ok d name ino ft : is_u32 ino → ino ≠ 0 → is_byte ft → ft ≠ 0xde →
  ∀ bss fuel P, file_ok (d_file d) → file_view (d_file d) = P ++ bytes_of bss → good bss → (length bss < fuel)%nat →
  (find_entry name (entries_of bss) = None ∧ replace_blocks sb inode_id i_generation fuel d (len P) name ino ft = Some (None, d)) ∨
  ∃ bss1 b es bss2 b' es' old l1 l2, bss = bss1 ++ (b, es) :: bss2 ∧ shape sb b' es' ∧ find_entry name (entries_of bss) = Some old ∧
    omap live es = l1 ++ (name, old) :: l2 ∧ omap live es' = l1 ++ (name, (ino, ft)) :: l2 ∧
    replace_blocks sb inode_id i_generation fuel d (len P) name ino ft = write_replaced sb inode_id i_generation d (len (P ++ bytes_of bss1)) b' name ino ft old.
Proof.
  intros Hino Hnz Hft Hde. enter IH; cbn [replace_blocks].
  - left. cbn in Hv. rewrite app_nil_r in Hv. by rewrite past_blocks.
  - destruct (at_block d P b es bss Hok Hv (good_plain _ Hg)) as (-> & Hr & Hl & Hmin). rewrite Hr, data_full, Hl by done. change (BLOCK_SZ =? 0) with false. cbn iota.
    apply Forall_cons in Hg as [[Hs _] Hg]. cbn [fst snd] in Hs. cbn [fmap list_fmap concat snd]. rewrite find_entry_app.
    destruct (replace_block sb b es name ino ft Hs) as [[-> ->]|(b' & es' & old & l1 & l2 & -> & Hs' & -> & Hp)]; try done; step_some.
    + rewrite Z.eqb_refl. cbn [negb]. destruct (next_block P b es bss Hl) as [E1 ->].
      destruct (IH fuel (P ++ b)) as [[-> ->]|(bss1 & b0 & es0 & bss2 & b' & es' & old & l1 & l2 & -> & Hs' & -> & Hp & Hq & ->)]; [done|congruence|done|lia|by left|].
      right. exists ((b, es) :: bss1), b0, es0, bss2, b', es', old, l1, l2. cbn [fmap list_fmap concat fst]. by rewrite app_assoc.
    + destruct Hp as [Hp Hq]. right. exists [], b, es, bss, b', es', old, l1, l2. cbn [fmap list_fmap concat]. by rewrite app_nil_r.
Qed.

(** ** Writing a block *)

Lemma dblock_bytes p : dblock sb inode_id i_generation p → len p.1 = BLOCK_SZ ∧ all_bytes p.1.
Proof. intros [[Hl _ (tl & Hc & _)] _]. split; [done|]. by apply (chain_bytes _ _ Hc). Qed.

Lemma blocks_aligned d bss : file_ok (d_file d) → file_view (d_file d) = bytes_of bss → good bss → file_size (d_file d) mod BLOCK_SZ = 0.
Proof. intros Hok Hv Hg. rewrite file_size_view, Hv, bytes_len, Z.mul_comm by done. by apply Z.mod_mul. Qed.

Lemma write_inside d bss1 b es bss2 b' es' : is_dir d = true → file_ok (d_file d) → file_full (d_file d) → file_view (d_file d) = bytes_of (bss1 ++ (b, es) :: bss2) →
  good (bss1 ++ (b, es) :: bss2) → shape sb b' es' →
  ∃ b'' f', update_dir_block_checksum_if_needed sb inode_id i_generation d b' = Some b'' ∧ file_write (d_file d) (len (bytes_of bss1)) b'' = Some (BLOCK_SZ, f') ∧
    file_ok f' ∧ file_full f' ∧ file_view f' = bytes_of (bss1 ++ (b'', es') :: bss2) ∧ good (bss1 ++ (b'', es') :: bss2).
Proof.
  intros Hd Hok Hfull Hv Hg Hs. destruct (dir_seal sb inode_id i_generation Hvol d b' es' Hd Hs) as (b'' & -> & Hs2 & Hseal). exists b''.
  assert (dblock sb inode_id i_generation (b'', es')) as Hdb by (by split). destruct (dblock_bytes _ Hdb) as [Hl Hb]. cbn [fst] in Hl, Hb.
  pose proof (blocks_aligned d _ Hok Hv Hg) as Hal. apply Forall_app in Hg as [Hg1 [Hgb Hg2]%Forall_cons]. destruct (dblock_bytes _ Hgb) as [Hlb _]. cbn [fst] in Hlb.
  pose proof (bytes_len bss1 Hg1) as L1. pose proof (len_nonneg (bytes_of bss2)). pose proof (len_nonneg (bytes_of bss1)).
  assert (∀ x e, bytes_of (bss1 ++ (x, e) :: bss2) = bytes_of bss1 ++ x ++ bytes_of bss2) as Happ by (intros; rewrite fmap_app, concat_app; done).
  rewrite Happ in Hv. assert (file_size (d_file d) = len (bytes_of bss1) + BLOCK_SZ + len (bytes_of bss2)) as Hsz by (rewrite file_size_view, Hv, !len_app, Hlb by done; lia).
  destruct (file_write_block (d_file d) (len (bytes_of bss1)) b'') as (n & f' & Hw & Hok' & Hfull' & Hcase & Hin); auto; [unfold BLOCK_SZ in *; lia|rewrite L1, Z.mul_comm; by apply Z.mod_mul|].
  assert (n = BLOCK_SZ) as -> by (apply Hin; [done|unfold BLOCK_SZ in *; lia]). exists f'. split_and!; auto.
  - destruct Hcase as [[_ ->]|[? _]]; [|done]. rewrite Hv, Happ. apply splice_mid; [done|congruence].
  - apply Forall_app. auto.
Qed.

Lemma splice_end {A} (l bs : list A) : splice (len l) bs l = l ++ bs.
Proof. unfold splice, len. rewrite Nat2Z.id, firstn_all, drop_ge by lia. by rewrite app_nil_r. Qed.

Lemma write_behind d bss b' es' : is_dir d = true → file_ok (d_file d) → file_full (d_file d) → file_view (d_file d) = bytes_of bss → good bss → shape sb b' es' →
  ∃ b'' n f', update_dir_block_checksum_if_needed sb inode_id i_generation d b' = Some b'' ∧ file_write (d_file d) (dir_size d) b'' = Some (n, f') ∧ len b'' = BLOCK_SZ ∧
    file_ok f' ∧ file_full f' ∧ ((n = BLOCK_SZ ∧ file_view f' = bytes_of (bss ++ [(b'', es')]) ∧ good (bss ++ [(b'', es')])) ∨ (n ≠ BLOCK_SZ ∧ file_view f' = file_view (d_file d))).
Proof.
  intros Hd Hok Hfull Hv Hg Hs. destruct (dir_seal sb inode_id i_generation Hvol d b' es' Hd Hs) as (b'' & -> & Hs2 & Hseal). exists b''.
  assert (dblock sb inode_id i_generation (b'', es')) as Hdb by (by split). destruct (dblock_bytes _ Hdb) as [Hl Hb]. cbn [fst] in Hl, Hb.
  pose proof (blocks_aligned d _ Hok Hv Hg) as Hal. assert (file_size (d_file d) = len (bytes_of bss)) as Hsz by (by rewrite file_size_view, Hv). pose proof (len_nonneg (bytes_of bss)).
  destruct (file_write_block (d_file d) (dir_size d) b'') as (n & f' & Hw & Hok' & Hfull' & Hcase & _); auto; [unfold dir_size; lia|].
  exists n, f'. split_and!; auto. destruct Hcase as [[-> ->]|[Hn ->]]; [left|by right]. split_and!; [done| |apply Forall_app; auto].
  unfold dir_size. rewrite Hsz, Hv, splice_end, fmap_app, concat_app. cbn. by rewrite app_nil_r.
Qed.

End passes.
