(* ===== verification/Ext4DirProps.v ===== *)
(** * Correctness of directories

    A directory is a finite map from names to an inode and a type: looking up, adding,
    removing and replacing an entry and the test for emptiness implement the operations of
    the map, for every sequence of them, and keep every block a chain of records that ends
    in a valid checksum.  The conversion of a shallow indexed directory gives such a
    directory with the same names. *)

From S2P Require Import Prelude Bytes Ext4Checksum Ext4Super Ext4Dirent Ext4Dir Ext4DirInv Ext4DirOps.

Local Open Scope Z_scope.

#[local] Opaque crc32c.

(** What may be added: a name of bytes, an inode number and a type that is not the mark of
    a checksum tail. *)
Record target_ok (ino ft : Z) : Prop := {
  ta_u32 : is_u32 ino;
  ta_nonzero : ino ≠ 0;
  ta_byte : is_byte ft;
  ta_type : ft ≠ 0xde;
}.

Lemma tail_size_mod sb : (BLOCK_SZ - tail_size sb) mod 4 = 0 ∧ BLOCK_SZ - 12 ≤ BLOCK_SZ - tail_size sb ≤ BLOCK_SZ.
Proof. unfold tail_size. by destruct (has_metadata_csum sb). Qed.

Lemma fresh_tail (R Y : list Z) : len R = BLOCK_SZ - 12 → len Y = 12 →
  put (R ++ Y) (BLOCK_SZ - 12) (zeros (len (R ++ Y) - (BLOCK_SZ - 12))) = Some (R ++ zeros 12) ∧
  put (R ++ zeros 12) (BLOCK_SZ - 12 + 4) (le 2 12) = Some (R ++ [0; 0; 0; 0; 12; 0; 0; 0; 0; 0; 0; 0]) ∧
  put (R ++ [0; 0; 0; 0; 12; 0; 0; 0; 0; 0; 0; 0]) (BLOCK_SZ - 12 + 7) [0xde] = Some (R ++ tail_bytes (zeros 4)).
Proof.
  intros Hl HY. rewrite len_app, <-Hl, HY. replace (len R + 12 - len R) with 12 by lia. split_and!.
  - apply put_end. by rewrite HY.
  - change (zeros 12) with ([0; 0; 0; 0] ++ [0; 0] ++ zeros 6). change [0; 0; 0; 0; 12; 0; 0; 0; 0; 0; 0; 0] with ([0; 0; 0; 0] ++ le 2 12 ++ zeros 6).
    rewrite !(app_assoc R). apply put_mid; [rewrite len_app; done|done].
  - change [0; 0; 0; 0; 12; 0; 0; 0; 0; 0; 0; 0] with ([0; 0; 0; 0; 12; 0; 0] ++ [0] ++ zeros 4). change (tail_bytes (zeros 4)) with ([0; 0; 0; 0; 12; 0; 0] ++ [0xde] ++ zeros 4).
    rewrite !(app_assoc R). apply put_mid; [rewrite len_app; done|done].
Qed.

Lemma fresh_block_ok sb name needed ino ft : record_len (len name) = Some needed → all_bytes name → target_ok ino ft →
  ∃ b es, fresh_block sb name ino ft = Some (Some b) ∧ shape sb b es ∧ omap live es = [(name, (ino, ft))].
Proof.
  intros Hneed Hname [Hu Hz Hb Ht]. assert (len name ≤ 255) as Hn255.
  { unfold record_len, EXT4_DIR_ENTRY_MAX_NAME_LEN in Hneed. case_match eqn:Hc; [done|]. by apply Z.ltb_ge in Hc. }
  pose proof (len_nonneg name). destruct (record_len_ok (len name) ltac:(lia)) as (m & Hm & Hm1 & _). assert (m = needed) as -> by congruence.
  destruct (tail_size_mod sb) as [H4 Hts]. unfold BLOCK_SZ in Hts. set (rl := BLOCK_SZ - tail_size sb) in *. assert (0 ≤ rl ≤ 4096) as Hrl by (unfold rl, BLOCK_SZ; lia).
  destruct (record_is_entry ino rl name ft Hu Hb Hname Hn255 ltac:(unfold rl, BLOCK_SZ; lia) H4) as [He Hen]. set (e := MkDirEntry _ _ _ _ _) in *. set (R := record_bytes ino rl name ft) in *.
  assert (len R = rl) as HR by (apply len_record; unfold rl, BLOCK_SZ; lia). assert (live e = Some (name, (ino, ft))) as Hlive by (unfold live; cbn; rewrite Hen, (proj2 (Z.eqb_neq _ _) Hz); done).
  unfold fresh_block. fold rl. replace (zeros BLOCK_SZ) with (zeros rl ++ zeros (tail_size sb)) by (rewrite zeros_app by (unfold rl, BLOCK_SZ in *; lia); f_equal; unfold rl; lia).
  rewrite (write_to_ok _ _ _ _ _ _ needed) by (done || (rewrite len_zeros; lia) || (unfold rl, BLOCK_SZ; lia)). step_some. cbn [negb]. fold R.
  unfold tail_size in rl. unfold tail_size. destruct (has_metadata_csum sb) eqn:Hc.
  - change (negb (12 =? 0)) with true. cbn iota. destruct (fresh_tail R (zeros 12) HR eq_refl) as (Ft1 & Ft2 & Ft3). unfold rl in *. rewrite Ft1. step_some. rewrite Ft2. step_some. rewrite Ft3. step_some. exists (R ++ tail_bytes (zeros 4)), [e]. split_and!; [done| |cbn; by rewrite Hlive].
    apply shape_intro; [done|by apply chain_of_entry|done|apply Forall_zeros|done|by constructor].
  - change (negb (0 =? 0)) with false. cbn iota. step_some. exists (R ++ zeros 0), [e]. change (zeros 0) with (@nil Z). rewrite app_nil_r. split_and!; [done| |cbn; by rewrite Hlive].
    split; [rewrite HR; unfold rl; lia|by constructor|]. exists []. split; [rewrite app_nil_r; by apply chain_of_entry|]. unfold tail_ok. by rewrite Hc.
Qed.

Section representation.
Context {F : Type} `{ByteFileLaws F}.
Context (sb : Ext4SuperBlock) (inode_id i_generation : Z).
Hypothesis Hvol : volume_ok sb.

Implicit Types (d : Dir F) (M : gmap (list Z) (Z * Z)).

Local Abbreviation good := (Forall (dblock sb inode_id i_generation)).
Local Abbreviation names bss := (omap live (concat bss.*2)).

Record dir_rep d M : Prop := {
  dr_dir : is_dir d = true;
  dr_flags : Z.land (d_flags d) EXT4_INDEX_FL = 0;
  dr_file : file_ok (d_file d);
  dr_full : file_full (d_file d);
  dr_blocks : ∃ bss, file_view (d_file d) = concat bss.*1 ∧ good bss ∧ NoDup (names bss).*1 ∧ M = list_to_map (names bss);
  dr_cache : ∀ n v, entries (d_names d) !! n = Some v → M !! n = Some v;
}.

Lemma find_names es name : NoDup (omap live es).*1 → find_entry name es = (list_to_map (omap live es) : gmap (list Z) (Z * Z)) !! name.
Proof.
  intros Hnd. destruct (find_entry name es) as [v|] eqn:Hf; symmetry.
  - apply elem_of_list_to_map_1; [done|]. by apply find_entry_Some.
  - apply not_elem_of_list_to_map_1. by apply find_entry_live.
Qed.

Lemma block_fuel_ok d bss : file_ok (d_file d) → file_view (d_file d) = concat bss.*1 → good bss → (length bss < block_fuel d)%nat.
Proof.
  intros Hok Hv Hg. unfold block_fuel, dir_size. rewrite file_size_view, Hv, (bytes_len sb inode_id i_generation) by done.
  rewrite Z.mul_comm, Z.div_mul by done. unfold len. lia.
Qed.

Lemma remember_sound c name v M : (∀ n w, entries c !! n = Some w → M !! n = Some w) → M !! name = Some v →
  ∀ n w, entries (remember c name v.1 v.2) !! n = Some w → M !! n = Some w.
Proof.
  intros Hc Hn n w. unfold remember. destruct v as [v1 v2]. cbn [fst snd]. repeat case_match; cbn [entries]; try apply Hc; intros Hl; apply lookup_insert_Some in Hl as [[<- <-]|[? Hl]]; auto. by apply lookup_empty_Some in Hl.
Qed.

(** The generation of the cache counts the changes. *)
Definition gen_step d M d' M' : Prop :=
  (generation (d_names d') = generation (d_names d) ∧ M' = M) ∨ generation (d_names d') = wrapping_add (generation (d_names d)) 1.

Lemma remember_generation c name ino ft : generation (remember c name ino ft) = generation c.
Proof. unfold remember. by repeat case_match. Qed.

(** A lookup, from the cache or from the blocks. *)
Lemma dir_lookup d M name : dir_rep d M → ∃ d', lookup_dir_entry_checked d name = Some (inr (M !! name), d') ∧ dir_rep d' M ∧ gen_step d M d' M.
Proof.
  intros Hd. pose proof Hd as [Hdir Hflags Hfile Hfull (bss & Hv & Hg & Hnd & HM) Hcache]. unfold lookup_dir_entry_checked, cached_dir_entry. rewrite Hdir. cbn [negb orb].
  destruct (if bool_decide (name = []) then None else entries (d_names d) !! name) as [v|] eqn:Hc.
  { case_bool_decide; [done|]. apply Hcache in Hc as Hc'. rewrite Hc'. exists d. split_and!; [done|done|by left]. }
  pose proof (lookup_blocks_ok d name bss (block_fuel d) []) as Hlk. cbn [app] in Hlk. change (len (@nil Z)) with 0 in Hlk. rewrite Hlk by eauto using block_fuel_ok, good_plain. step_some.
  rewrite find_names, <-HM by done. destruct (M !! name) as [[ino ft]|] eqn:HMn; [|exists d; split_and!; [done|done|by left]].
  eexists. split; [done|]. unfold remember_dir_entry_if_current. rewrite Hdir. cbn [negb orb]. case_bool_decide; [split; [done|by left]|]. unfold dir_lookup_cache_generation. rewrite Z.eqb_refl. split; [|left; cbn; by rewrite remember_generation].
  split; try done; [by exists bss|]. apply (remember_sound (d_names d) name (ino, ft) M Hcache HMn).
Qed.

(** A change of the blocks, with a cache that knows at most one name. *)
Lemma rep_change d f c bss M : is_dir d = true → Z.land (d_flags d) EXT4_INDEX_FL = 0 → file_ok f → file_full f → file_view f = concat bss.*1 → good bss → NoDup (names bss).*1 →
  M = list_to_map (names bss) → (∀ n v, entries c !! n = Some v → M !! n = Some v) → dir_rep (with_names c (with_file f d)) M.
Proof. intros. split; try done. by exists bss. Qed.

(** One more name. *)
Lemma rep_added d f c bss' l M name v : is_dir d = true → Z.land (d_flags d) EXT4_INDEX_FL = 0 → file_ok f → file_full f → file_view f = concat bss'.*1 → good bss' →
  names bss' ≡ₚ (name, v) :: l → NoDup l.*1 → M = list_to_map l → M !! name = None → (∀ n w, entries c !! n = Some w → <[name := v]> M !! n = Some w) →
  dir_rep (with_names c (with_file f d)) (<[name := v]> M).
Proof.
  intros Hd Hfl Hok Hfull Hv Hg Hp Hnd HM Hnone Hc. assert (NoDup ((name, v) :: l).*1) as Hnd'.
  { cbn. apply NoDup_cons. split; [|done]. rewrite HM in Hnone. by apply not_elem_of_list_to_map_2. }
  apply (rep_change d f c bss'); try done; [by rewrite Hp|]. rewrite HM, <-list_to_map_cons. symmetry. apply list_to_map_proper; [by rewrite Hp|done].
Qed.

Lemma invalidate_eq d : is_dir d = true → invalidate_dir_lookup_cache d = with_names (MkNames (wrapping_add (generation (d_names d)) 1) ∅) d.
Proof. intros Hd. unfold invalidate_dir_lookup_cache. by rewrite Hd. Qed.

Lemma commit_sound d name ino ft M : is_dir d = true → M !! name = Some (ino, ft) →
  ∃ c, commit_dir_lookup_cache_entry name ino ft d = with_names c d ∧ generation c = wrapping_add (generation (d_names d)) 1 ∧ ∀ n v, entries c !! n = Some v → M !! n = Some v.
Proof.
  intros Hd HM. unfold commit_dir_lookup_cache_entry. rewrite Hd. cbn [negb]. eexists. split; [done|]. split; [case_bool_decide; by rewrite ?remember_generation|]. case_bool_decide; cbn [entries]; [intros n v Hl; by apply lookup_empty_Some in Hl|].
  apply (remember_sound (MkNames _ ∅) name (ino, ft) M); [|done]. cbn. intros n v Hl. by apply lookup_empty_Some in Hl.
Qed.

Lemma names_app (bss1 bss2 : list (list Z * list Ext4DirEntry)) b es : names (bss1 ++ (b, es) :: bss2) = names bss1 ++ omap live es ++ names bss2.
Proof. rewrite fmap_app, concat_app. cbn. by rewrite !omap_app. Qed.

Lemma perm_NoDup (l k : list (list Z * (Z * Z))) : l ≡ₚ k → NoDup k.*1 → NoDup l.*1.
Proof. intros Hp. by rewrite Hp. Qed.

Lemma prepare_plain d : Z.land (d_flags d) EXT4_INDEX_FL = 0 → prepare_directory_for_mutation sb inode_id i_generation d = Some (true, d).
Proof. intros Hf. unfold prepare_directory_for_mutation. by rewrite Hf. Qed.

Lemma same_order (bss1 bss2 : list (list Z * list Ext4DirEntry)) b es (b' : list Z) es' l1 x y l2 : omap live es = l1 ++ x :: l2 → omap live es' = l1 ++ y :: l2 →
  ∃ k1 k2, names (bss1 ++ (b, es) :: bss2) = k1 ++ x :: k2 ∧ names (bss1 ++ (b', es') :: bss2) = k1 ++ y :: k2.
Proof. intros H1 H2. exists (names bss1 ++ l1), (l2 ++ names bss2). by rewrite !names_app, H1, H2, <-!app_assoc. Qed.

(** Removing: the old target comes back and the name is gone. *)
Lemma dir_remove d M name : dir_rep d M →
  ∃ d', remove_dir_entry_only sb inode_id i_generation d name = Some (M !! name, d') ∧ dir_rep d' (delete name M) ∧ gen_step d M d' (delete name M).
Proof.
  intros Hd. pose proof Hd as [Hdir Hflags Hfile Hfull (bss & Hv & Hg & Hnd & HM) Hcache]. unfold remove_dir_entry_only. rewrite prepare_plain by done. step_some. cbn [negb].
  destruct (remove_blocks_ok sb inode_id i_generation d name bss (block_fuel d) [] Hfile Hv Hg (block_fuel_ok _ _ Hfile Hv Hg)) as [[Hn Hr]|(bss1 & b & es & bss2 & b' & es' & old & -> & Hs & Hn & Hp & Hr)];
    rewrite find_names, <-HM in Hn by done; change (len (@nil Z)) with 0 in Hr; rewrite Hr, Hn.
  { exists d. rewrite delete_id by done. split_and!; [done|done|by left]. }
  unfold write_changed. cbn [app]. destruct (write_inside sb inode_id i_generation Hvol d bss1 b es bss2 b' es' Hdir Hfile Hfull Hv Hg Hs) as (b'' & f' & -> & Hw & Hok' & Hfull' & Hv' & Hg').
  step_some. rewrite Hw. step_some. rewrite Z.eqb_refl. eexists. split; [done|]. rewrite invalidate_eq by done. split; [|by right].
  assert (names (bss1 ++ (b, es) :: bss2) ≡ₚ (name, old) :: names (bss1 ++ (b'', es') :: bss2)) as Hperm by (rewrite !names_app, Hp; solve_Permutation).
  assert (NoDup (name :: (names (bss1 ++ (b'', es') :: bss2)).*1)) as Hnd'. { change (NoDup ((name, old) :: names (bss1 ++ (b'', es') :: bss2)).*1). by rewrite <-Hperm. }
  apply NoDup_cons in Hnd' as [Hnot Hnd']. apply (rep_change d f' _ (bss1 ++ (b'', es') :: bss2)); try done.
  rewrite HM. rewrite (list_to_map_proper _ _ Hnd Hperm). rewrite list_to_map_cons. apply delete_insert_id. by apply not_elem_of_list_to_map_1.
Qed.

(** Replacing the target of a name. *)
Lemma dir_replace d M name ino ft : dir_rep d M → target_ok ino ft →
  ∃ d', replace_dir_entry sb inode_id i_generation d name ino ft = Some (M !! name, d') ∧
    let M' := match M !! name with Some _ => <[name := (ino, ft)]> M | None => M end in dir_rep d' M' ∧ gen_step d M d' M'.
Proof.
  intros Hd [Hu Hz Hb Ht]. pose proof Hd as [Hdir Hflags Hfile Hfull (bss & Hv & Hg & Hnd & HM) Hcache]. unfold replace_dir_entry. rewrite prepare_plain by done. step_some. cbn [negb].
  destruct (replace_blocks_ok sb inode_id i_generation d name ino ft Hu Hz Hb Ht bss (block_fuel d) [] Hfile Hv Hg (block_fuel_ok _ _ Hfile Hv Hg)) as [[Hn Hr]|(bss1 & b & es & bss2 & b' & es' & old & l1 & l2 & -> & Hs & Hn & Hp & Hq & Hr)];
    rewrite find_names, <-HM in Hn by done; change (len (@nil Z)) with 0 in Hr; rewrite Hr, Hn; [exists d; split_and!; [done|done|by left]|].
  unfold write_replaced. cbn [app]. destruct (write_inside sb inode_id i_generation Hvol d bss1 b es bss2 b' es' Hdir Hfile Hfull Hv Hg Hs) as (b'' & f' & -> & Hw & Hok' & Hfull' & Hv' & Hg').
  step_some. rewrite Hw. step_some. rewrite Z.eqb_refl. destruct (commit_sound (with_file f' d) name ino ft (<[name := (ino, ft)]> M) Hdir (lookup_insert_eq _ _ _)) as (c & -> & Hgen & Hc).
  eexists. split; [done|]. cbv zeta iota. split; [|by right]. destruct (same_order bss1 bss2 b es b'' es' l1 _ _ l2 Hp Hq) as (k1 & k2 & E1 & E2). rewrite E1 in Hnd, HM.
  apply (rep_change d f' _ (bss1 ++ (b'', es') :: bss2)); try done; rewrite E2.
  - rewrite fmap_app in *. exact Hnd.
  - rewrite HM, !(list_to_map_app k1), !list_to_map_cons. rewrite fmap_app in Hnd. apply NoDup_app in Hnd as (_ & Hk & _).
    rewrite <-insert_union_r, insert_insert_eq, <-insert_union_r; [done|..]; by apply not_elem_of_list_to_map_1; intros Hin; apply (Hk _ Hin); apply elem_of_cons; left.
Qed.

(** Adding: it succeeds on a new name, or the file could not grow. *)
Lemma dir_add d M name ino ft : dir_rep d M → all_bytes name → target_ok ino ft →
  ∃ r d', add_dir_entry sb inode_id i_generation d name ino ft = Some (r, d') ∧
    (if (r : bool) then M !! name = None ∧ dir_rep d' (<[name := (ino, ft)]> M) ∧ gen_step d M d' (<[name := (ino, ft)]> M)
     else dir_rep d' M ∧ gen_step d M d' M ∧ (is_Some (M !! name) ∨ 255 < len name ∨ ∃ buf n f', len buf = BLOCK_SZ ∧ file_write (d_file d) (dir_size d) buf = Some (n, f') ∧ n ≠ BLOCK_SZ)).
Proof.
  intros Hd Hname Hta. pose proof Hta as [Hu Hz Hb Ht]. pose proof Hd as [Hdir Hflags Hfile Hfull (bss & Hv & Hg & Hnd & HM) Hcache]. unfold add_dir_entry. rewrite prepare_plain by done. step_some. cbn [negb]. cbv zeta.
  destruct (record_len (len name)) as [needed|] eqn:Hneed.
  2: { exists false, d. split; [done|]. split; [done|]. split; [by left|]. right. left. unfold record_len, EXT4_DIR_ENTRY_MAX_NAME_LEN in Hneed. case_match eqn:Hc; [|done]. by apply Z.ltb_lt in Hc. }
  pose proof (dup_blocks_ok sb inode_id i_generation d name bss (block_fuel d) [] Hfile Hv Hg (block_fuel_ok _ _ Hfile Hv Hg)) as Hdup. change (len (@nil Z)) with 0 in Hdup. rewrite Hdup. step_some.
  rewrite find_names, <-HM by done. destruct (bool_decide_reflect (is_Some (M !! name))) as [Hex|Hex]; [exists false, d; split; [done|split; [done|split; by left]]|]. apply eq_None_not_Some in Hex.
  destruct (room_blocks_ok sb inode_id i_generation d name needed ino ft Hneed Hname Hu Hz Hb Ht bss (block_fuel d) [] Hfile Hv Hg (block_fuel_ok _ _ Hfile Hv Hg)) as [Hr|(bss1 & b & es & bss2 & b' & es' & -> & Hs & Hp & Hr)];
    change (len (@nil Z)) with 0 in Hr; rewrite Hr; unfold write_added.
  - step_some. destruct (fresh_block_ok sb name needed ino ft Hneed Hname Hta) as (b & es & -> & Hs & Hl). step_some.
    destruct (write_behind sb inode_id i_generation Hvol d bss b es Hdir Hfile Hfull Hv Hg Hs) as (b'' & n & f' & -> & Hw & Hlb & Hok' & Hfull' & [(-> & Hv' & Hg')|(Hn & Hv')]); step_some; rewrite Hw; step_some.
    + rewrite Z.eqb_refl. destruct (commit_sound (with_file f' d) name ino ft (<[name := (ino, ft)]> M) Hdir (lookup_insert_eq _ _ _)) as (c & -> & Hgen & Hc).
      eexists true, _. split; [done|]. split; [done|]. split; [|by right]. assert (names (bss ++ [(b'', es)]) ≡ₚ (name, (ino, ft)) :: names bss) as Hperm by (rewrite names_app, Hl; cbn; solve_Permutation).
      by apply (rep_added d f' c (bss ++ [(b'', es)]) (names bss) M).
    + rewrite (proj2 (Z.eqb_neq _ _)) by done. eexists false, _. split; [done|]. rewrite invalidate_eq by done. split; [|split; [by right|right; right; by exists b'', n, f']].
      apply (rep_change d f' _ bss); try done. congruence.
  - cbn [app]. destruct (write_inside sb inode_id i_generation Hvol d bss1 b es bss2 b' es' Hdir Hfile Hfull Hv Hg Hs) as (b'' & f' & -> & Hw & Hok' & Hfull' & Hv' & Hg').
    step_some. rewrite Hw. step_some. rewrite Z.eqb_refl. destruct (commit_sound (with_file f' d) name ino ft (<[name := (ino, ft)]> M) Hdir (lookup_insert_eq _ _ _)) as (c & -> & Hgen & Hc).
    step_some. eexists true, _. split; [done|]. split; [done|]. split; [|by right].
    assert (names (bss1 ++ (b'', es') :: bss2) ≡ₚ (name, (ino, ft)) :: names (bss1 ++ (b, es) :: bss2)) as Hperm by (rewrite !names_app, Hp; solve_Permutation).
    by apply (rep_added d f' c (bss1 ++ (b'', es') :: bss2) (names (bss1 ++ (b, es) :: bss2)) M).
Qed.

Lemma dir_empty d M : dir_rep d M → directory_is_empty d = Some (bool_decide (map_Forall (λ name _, name = dot ∨ name = dotdot) M)).
Proof.
  intros [Hdir Hflags Hfile Hfull (bss & Hv & Hg & Hnd & HM) Hcache]. unfold directory_is_empty.
  pose proof (empty_blocks_ok sb inode_id i_generation d bss (block_fuel d) [] Hfile Hv Hg (block_fuel_ok _ _ Hfile Hv Hg)) as He. change (len (@nil Z)) with 0 in He. rewrite He. f_equal.
  apply eq_true_iff_eq. rewrite bool_decide_eq_true. unfold only_dots. rewrite forallb_forall. subst M. split.
  - intros Hall n v Hl. apply elem_of_list_to_map_2 in Hl. apply list_elem_of_omap in Hl as (e & Hin & Hl). apply list_elem_of_In in Hin. specialize (Hall e Hin). apply live_Some in Hl as [Hh _].
    unfold hits in Hh. apply andb_true_iff in Hh as [H0' Hn]. apply bool_decide_eq_true in Hn. cbn in Hn. apply negb_true_iff in H0'. rewrite H0' in Hall. cbn [orb] in Hall. rewrite Hn in Hall. by apply orb_true_iff in Hall as [?%bool_decide_eq_true|?%bool_decide_eq_true]; [left|right].
  - intros Hall e Hin. destruct (de_inode e =? 0) eqn:Hi; [done|]. cbn [orb]. apply orb_true_iff. rewrite !bool_decide_eq_true.
    apply (Hall (entry_name e) (de_inode e, de_file_type e)). apply elem_of_list_to_map_1; [done|]. apply list_elem_of_omap. exists e. split; [by apply list_elem_of_In|]. unfold live. by rewrite Hi.
Qed.

(** ** Indexed directories *)

(** An indexed directory whose index has one level: the root names itself and its parent
    and the index is hidden in the record of the parent. *)
Record indexed_rep d M : Prop := {
  ir_dir : is_dir d = true;
  ir_flags : Z.land (d_flags d) EXT4_INDEX_FL ≠ 0;
  ir_file : file_ok (d_file d);
  ir_full : file_full (d_file d);
  ir_blocks : ∃ E1 e1 E2 e2 bss, file_view (d_file d) = (E1 ++ E2) ++ concat bss.*1 ∧ good bss ∧
    is_entry E1 e1 ∧ len E1 = 12 ∧ entry_name e1 = dot ∧ de_inode e1 ≠ 0 ∧ de_file_type e1 ≠ 0xde ∧
    is_entry E2 e2 ∧ len E2 = BLOCK_SZ - 12 ∧ entry_name e2 = dotdot ∧ de_inode e2 ≠ 0 ∧ de_file_type e2 ≠ 0xde ∧
    shallow_index (E1 ++ E2) 24 = Some true ∧ NoDup (names ((E1 ++ E2, [e1; e2]) :: bss)).*1 ∧ M = list_to_map (names ((E1 ++ E2, [e1; e2]) :: bss));
  ir_cache : ∀ n v, entries (d_names d) !! n = Some v → M !! n = Some v;
}.

Lemma name_len_entry E e : is_entry E e → de_name_len e = len (entry_name e).
Proof.
  intros He. pose proof (entry_name_range E e He). pose proof (ie_fits _ _ He). unfold entry_name. rewrite (ie_bytes _ _ He), len_seg; lia.
Qed.

Lemma entry_prefix E e E' : is_entry E e → len E' = len E → all_bytes E' → seg 0 (8 + de_name_len e) E' = seg 0 (8 + de_name_len e) E →
  ∃ e', is_entry E' e' ∧ same_entry e e'.
Proof.
  intros He Hl Hb Hp. pose proof (entry_name_range E e He) as Hr. pose proof (ie_fits _ _ He) as Hf.
  assert (∀ a b, 0 ≤ a ≤ b → b ≤ 8 + de_name_len e → seg a b E' = seg a b E) as Hs.
  { intros a b Ha Hbn. rewrite <-(Z.add_0_l a), <-(Z.add_0_l b), <-(seg_seg 0 (8 + de_name_len e)), Hp, seg_seg by lia. done. }
  exists (MkDirEntry E' (de_inode e) (len E') (de_name_len e) (de_file_type e)). destruct He as [H1 H2 H3 H4 H5 H6 H7 H8 H9 H10].
  split; [split; cbn; rewrite ?Hl, ?Hs by lia; done|]. split_and!; try done. unfold entry_name. cbn. rewrite Hs, H1 by lia. done.
Qed.

(** The record of the parent, cut at the tail, with its slack cleared. *)
Lemma cut_record E e L : is_entry E e → entry_name e = dotdot → 12 ≤ L ≤ len E → L < 2 ^ 16 → L mod 4 = 0 →
  ∃ A B Y e', set_rec_len E L = Some (true, A ++ B ++ Y) ∧ len A = 12 ∧ len B = L - 12 ∧ len Y = len E - L ∧ is_entry (A ++ zeros (L - 12)) e' ∧ same_entry e e'.
Proof.
  intros He Hn HL H16 H4. assert (de_name_len e = 2) as Hnl by (rewrite (name_len_entry E e He), Hn; done).
  destruct (set_rec_len_ok E e (seg 0 L E) (seg L (len E) E) L He) as (X & e1 & Hs & He1 & HX & H1 & H2 & H3 & H5).
  { exists []. rewrite app_nil_r, seg_app, seg_0_len by lia. done. } { rewrite len_seg; lia. } { done. } { done. } { unfold real_len. rewrite Hnl. exists 12. split; [done|lia]. } { apply Forall_seg, (ie_all _ _ He). }
  rewrite seg_app, seg_0_len in Hs by lia. assert (X = seg 0 12 X ++ seg 12 L X) as HXs by (rewrite seg_app, <-HX, seg_0_len by lia; done).
  assert (len (seg 0 12 X) = 12) as HA by (rewrite len_seg; lia). assert (len (zeros (L - 12)) = L - 12) as HZ by (apply len_zeros; lia).
  destruct (entry_prefix X e1 (seg 0 12 X ++ zeros (L - 12)) He1) as (e' & He' & S1 & S2 & S3).
  { rewrite len_app; lia. } { apply Forall_app. split; [apply Forall_seg, (ie_all _ _ He1)|apply Forall_zeros]. }
  { rewrite H5, Hnl. rewrite seg_app_l, seg_seg by lia. done. }
  exists (seg 0 12 X), (seg 12 L X), (seg L (len E) E), e'. rewrite app_assoc, <-HXs. split_and!; try done; [rewrite len_seg; lia|rewrite len_seg; lia|]. split_and!; congruence.
Qed.

Lemma linear_root_ok d E1 e1 E2 e2 : is_dir d = true → is_entry E1 e1 → len E1 = 12 → de_file_type e1 ≠ 0xde →
  is_entry E2 e2 → len E2 = BLOCK_SZ - 12 → entry_name e2 = dotdot → de_file_type e2 ≠ 0xde →
  ∃ R e2', linear_root sb inode_id i_generation d (E1 ++ E2) 12 24 = Some (Some R) ∧ dblock sb inode_id i_generation (R, [e1; e2']) ∧ same_entry e2 e2'.
Proof.
  intros Hd He1 Hl1 Hf1 He2 Hl2 Hn2 Hf2. destruct (tail_size_mod sb) as [H4 Hts]. unfold BLOCK_SZ in Hts. unfold linear_root. set (t := BLOCK_SZ - tail_size sb) in *. assert (4084 ≤ t ≤ 4096) as Ht by (unfold t, BLOCK_SZ; lia).
  rewrite (proj2 (Z.ltb_ge t (24 + 8))), (proj2 (Z.ltb_ge _ (t - 12))) by lia. unfold BLOCK_SZ in Hl2.
  assert (len (E1 ++ E2) = 4096) as HL by (rewrite len_app; lia). assert (slice (E1 ++ E2) 12 (len (E1 ++ E2)) = Some E2) as -> by (rewrite <-Hl1; by apply slice_end). step_some.
  destruct (cut_record E2 e2 (t - 12) He2 Hn2) as (A & B & Y & e2' & -> & HA & HB & HY & He2' & Hsame); [lia|lia|rewrite Zminus_mod, H4; done|]. step_some.
  assert (put (E1 ++ E2) 12 (A ++ B ++ Y) = Some (E1 ++ A ++ B ++ Y)) as -> by (rewrite <-Hl1; apply put_end; rewrite !len_app; lia). step_some. cbn [negb]. rewrite app_assoc, put_mid by (rewrite ?len_app, ?len_zeros; lia). step_some.
  set (X := A ++ zeros (t - 24)). replace ((E1 ++ A) ++ zeros (t - 24) ++ Y) with ((E1 ++ X) ++ Y) by (unfold X; by rewrite <-!app_assoc). replace (t - 12 - 12) with (t - 24) in He2' by lia. fold X in He2'. assert (len X = t - 12) as HX by (unfold X; rewrite len_app, len_zeros; lia).
  assert (Forall (λ e, de_file_type e ≠ 0xde) [e1; e2']) as Hft by (destruct Hsame as (_ & S & _); repeat constructor; congruence).
  assert (chain (E1 ++ X) [e1; e2']) as Hch by (constructor; [done|by apply chain_of_entry]).
  unfold tail_size in t. unfold tail_size. destruct (has_metadata_csum sb) eqn:Hc.
  - change (negb (12 =? 0)) with true. cbn iota. assert (len Y = 12) as HY12 by (unfold t, BLOCK_SZ in *; lia).
    assert (len (E1 ++ X) = BLOCK_SZ - 12) as HR by (rewrite len_app; unfold t in *; lia). destruct (fresh_tail (E1 ++ X) Y HR HY12) as (Ft1 & Ft2 & Ft3).
    unfold t in *. rewrite Ft1. step_some. rewrite Ft2. step_some. rewrite Ft3. step_some.
    destruct (dir_seal sb inode_id i_generation Hvol d ((E1 ++ X) ++ tail_bytes (zeros 4)) [e1; e2'] Hd) as (R & -> & Hs & Hseal); [apply shape_intro; auto using Forall_zeros|].
    step_some. by exists R, e2'.
  - change (negb (0 =? 0)) with false. cbn iota. step_some. assert (Y = []) as -> by (apply length_zero_iff_nil; unfold t, BLOCK_SZ, len in *; lia). rewrite app_nil_r.
    exists (E1 ++ X), e2'. split_and!; [done| |done]. split; [|intros ?; congruence]. split; cbn [fst snd]; [rewrite len_app; unfold t in *; lia|done|]. exists []. rewrite app_nil_r. unfold tail_ok. by rewrite Hc.
Qed.

(** An indexed directory is readable as it is, and the first change makes it a plain one
    with the same names. *)
Lemma indexed_plain d M : indexed_rep d M →
  (∀ name, ∃ d', lookup_dir_entry_checked d name = Some (inr (M !! name), d')) ∧
  ∃ d', prepare_directory_for_mutation sb inode_id i_generation d = Some (true, d') ∧ dir_rep d' M.
Proof.
  intros [Hdir Hflags Hfile Hfull (E1 & e1 & E2 & e2 & bss & Hv & Hg & He1 & Hl1 & Hn1 & Hi1 & Hf1 & He2 & Hl2 & Hn2 & Hi2 & Hf2 & Hsh & Hnd & HM) Hcache].
  set (root := E1 ++ E2) in *. assert (len root = BLOCK_SZ) as HL by (unfold root; rewrite len_app; lia). assert (chain root [e1; e2]) as Hch by (constructor; [done|by apply chain_of_entry]).
  assert (Forall plain ((root, [e1; e2]) :: bss)) as Hpl. { constructor; [split; [done|]; exists []; by rewrite app_nil_r|by apply (good_plain sb inode_id i_generation)]. }
  assert (file_size (d_file d) = BLOCK_SZ * (1 + len bss)) as Hsz by (rewrite file_size_view, Hv, len_app, HL, (bytes_len sb inode_id i_generation) by done; lia). split.
  - intros name. unfold lookup_dir_entry_checked, cached_dir_entry. rewrite Hdir. cbn [negb orb].
    destruct (if bool_decide (name = []) then None else entries (d_names d) !! name) as [v|] eqn:Hc.
    { case_bool_decide; [done|]. apply Hcache in Hc as ->. by exists d. }
    pose proof (lookup_blocks_ok d name ((root, [e1; e2]) :: bss) (block_fuel d) [] Hfile Hv Hpl) as Hlk. change (len (@nil Z)) with 0 in Hlk. rewrite Hlk.
    2: { unfold block_fuel, dir_size. rewrite Hsz, Z.mul_comm, Z.div_mul by done. unfold len. cbn [length]. lia. }
    step_some. rewrite find_names, <-HM by done. destruct (M !! name) as [[ino ft]|]; by eexists.
  - pose proof (len_nonneg bss). unfold prepare_directory_for_mutation. rewrite (proj2 (Z.eqb_neq _ _) Hflags), Hdir. unfold dir_size. rewrite (proj2 (Z.ltb_ge _ _)) by (rewrite Hsz; unfold BLOCK_SZ; lia). cbn [negb orb].
    destruct (at_block d [] root [e1; e2] bss Hfile Hv Hpl) as (_ & Hr & _). change (len (@nil Z)) with 0 in Hr. rewrite Hr, HL, Z.eqb_refl. cbn [negb].
    unfold root at 1. rewrite (from_bytes_entry E1 e1) by done. rewrite (name_bytes_ok E1) by done. step_some. rewrite Hn1, (proj2 (Z.eqb_neq _ _) Hi1), (ie_rec _ _ He1), Hl1. cbn [orb negb]. change (negb (12 =? 12)) with false.
    rewrite bool_decide_true by done. cbn [orb negb]. assert (slice root 12 BLOCK_SZ = Some E2) as -> by (rewrite <-Hl1; apply slice_end; done). step_some.
    pose proof (from_bytes_entry E2 e2 [] He2) as Hfb. rewrite app_nil_r in Hfb. rewrite Hfb. rewrite (name_bytes_ok E2) by done. step_some. unfold real_len. rewrite (name_len_entry E2 e2), Hn2 by done. change (record_len (len dotdot)) with (Some 12). step_some.
    rewrite (proj2 (Z.eqb_neq _ _) Hi2), (ie_rec _ _ He2), Hl2. rewrite bool_decide_true by done. change (negb (12 =? 12)) with false. replace (12 + (BLOCK_SZ - 12) =? BLOCK_SZ) with true by done. cbn [orb negb].
    change (12 + 12) with 24. rewrite Hsh. step_some. cbn [negb]. destruct (linear_root_ok d E1 e1 E2 e2 Hdir He1 Hl1 Hf1 He2 Hl2 Hn2 Hf2) as (R & e2' & Hlin & Hdb & Hsame). fold root in Hlin. rewrite Hlin. step_some.
    destruct (dblock_bytes _ _ _ _ Hdb) as [HlR HbR]. cbn [fst] in HlR, HbR.
    destruct (file_write_block (d_file d) 0 R) as (n & f' & Hw & Hok' & Hfull' & Hcase & Hin); auto; [rewrite Hsz, Z.mul_comm; by apply Z.mod_mul|rewrite Hsz; unfold BLOCK_SZ; lia|].
    rewrite Hin in Hw, Hcase by (done || (rewrite Hsz; unfold BLOCK_SZ; lia)). rewrite Hw. step_some. rewrite Z.eqb_refl. cbn [negb]. eexists. split; [done|]. destruct Hcase as [[_ Hv']|[? _]]; [|done].
    rewrite invalidate_eq by done. split; cbn; try done; [|auto|].
    + apply Z.bits_inj'. intros i Hi. rewrite Z.land_spec, Z.ldiff_spec, Z.bits_0. destruct (Z.testbit EXT4_INDEX_FL i); by rewrite ?andb_false_r.
    + exists ((R, [e1; e2']) :: bss). cbn [fmap list_fmap concat fst snd]. split_and!; [|by constructor| |].
      * rewrite Hv', Hv. rewrite (splice_app_here BLOCK_SZ) by done. done.
      * cbn in Hnd |- *. rewrite (same_entry_live e2 e2' Hsame). exact Hnd.
      * rewrite HM. cbn. by rewrite (same_entry_live e2 e2' Hsame).
Qed.

End representation.

(** ** A directory as a finite map *)

Module DirProps.

Inductive dir_op :=
  | Lookup (name : list Z)
  | Add (name : list Z) (ino ft : Z)
  | Remove (name : list Z)
  | Replace (name : list Z) (ino ft : Z)
  | IsEmpty.

Inductive dir_result := Target (o : option (Z * Z)) | Flag (b : bool).

(** What may be asked: a name of bytes and a target in range. *)
Definition op_ok (op : dir_op) : Prop :=
  match op with
  | Add name ino ft => all_bytes name ∧ target_ok ino ft
  | Replace name ino ft => target_ok ino ft
  | _ => True
  end.

(** The operations of a map.  [full] is the reason of the volume not to take an entry. *)
Inductive dir_spec (full : Prop) (M : gmap (list Z) (Z * Z)) : dir_op → dir_result → gmap (list Z) (Z * Z) → Prop :=
  | spec_lookup name : dir_spec full M (Lookup name) (Target (M !! name)) M
  | spec_added name ino ft : M !! name = None → dir_spec full M (Add name ino ft) (Flag true) (<[name := (ino, ft)]> M)
  | spec_exists name ino ft : is_Some (M !! name) → dir_spec full M (Add name ino ft) (Flag false) M
  | spec_long name ino ft : 255 < len name → dir_spec full M (Add name ino ft) (Flag false) M
  | spec_full name ino ft : full → dir_spec full M (Add name ino ft) (Flag false) M
  | spec_remove name : dir_spec full M (Remove name) (Target (M !! name)) (delete name M)
  | spec_replace name ino ft : dir_spec full M (Replace name ino ft) (Target (M !! name)) (match M !! name with Some _ => <[name := (ino, ft)]> M | None => M end)
  | spec_empty : dir_spec full M IsEmpty (Flag (bool_decide (map_Forall (λ name _, name = dot ∨ name = dotdot) M))) M.

Section runs.
Context {F : Type} `{ByteFileLaws F}.
Context (sb : Ext4SuperBlock) (inode_id i_generation : Z).

Definition dir_run (d : Dir F) (op : dir_op) : option (dir_result * Dir F) :=
  match op with
  | Lookup name => '(r, d) ← lookup_dir_entry d name; Some (Target r, d)
  | Add name ino ft => '(r, d) ← add_dir_entry sb inode_id i_generation d name ino ft; Some (Flag r, d)
  | Remove name => '(r, d) ← remove_dir_entry_only sb inode_id i_generation d name; Some (Target r, d)
  | Replace name ino ft => '(r, d) ← replace_dir_entry sb inode_id i_generation d name ino ft; Some (Target r, d)
  | IsEmpty => r ← directory_is_empty d; Some (Flag r, d)
  end.

(** The file of the directory refused to grow by one block. *)
Definition cannot_grow (d : Dir F) : Prop :=
  ∃ buf n f', len buf = BLOCK_SZ ∧ file_write (d_file d) (dir_size d) buf = Some (n, f') ∧ n ≠ BLOCK_SZ.

(** A sequence of operations and their results, each one a step of the map. *)
Inductive dir_trace : Dir F → gmap (list Z) (Z * Z) → list dir_op → Prop :=
  | trace_done d M : dir_rep sb inode_id i_generation d M → dir_trace d M []
  | trace_step d M op ops r d' M' : dir_rep sb inode_id i_generation d M → dir_run d op = Some (r, d') → dir_spec (cannot_grow d) M op r M' → dir_trace d' M' ops → dir_trace d M (op :: ops).

Lemma dir_step d M op : volume_ok sb → dir_rep sb inode_id i_generation d M → op_ok op →
  ∃ r d' M', dir_run d op = Some (r, d') ∧ dir_spec (cannot_grow d) M op r M' ∧ dir_rep sb inode_id i_generation d' M' ∧ gen_step d M d' M'.
Proof.
  intros Hvol Hd Hop. destruct op as [name|name ino ft|name|name ino ft|]; cbn [dir_run op_ok] in *.
  - destruct (dir_lookup sb inode_id i_generation d M name Hd) as (d' & Hl & Hd' & Hg). unfold lookup_dir_entry. rewrite Hl. step_some. step_some. eexists _, d', M. split_and!; [done|constructor|done|done].
  - destruct Hop as [Hn Ht]. destruct (dir_add sb inode_id i_generation Hvol d M name ino ft Hd Hn Ht) as (r & d' & -> & Hr). step_some. destruct r.
    + destruct Hr as (Hnone & Hd' & Hg). eexists _, d', _. split_and!; [done|by constructor|done|done].
    + destruct Hr as (Hd' & Hg & Hwhy). eexists _, d', M. split_and!; [done| |done|done]. destruct Hwhy as [?|[?|?]]; [by apply spec_exists|by apply spec_long|by apply spec_full].
  - destruct (dir_remove sb inode_id i_generation Hvol d M name Hd) as (d' & -> & Hd' & Hg). step_some. eexists _, d', _. split_and!; [done|constructor|done|done].
  - destruct (dir_replace sb inode_id i_generation Hvol d M name ino ft Hd Hop) as (d' & -> & Hd' & Hg). step_some. eexists _, d', _. split_and!; [done|constructor|done|done].
  - rewrite (dir_empty sb inode_id i_generation d M Hd). step_some. eexists _, d, M. split_and!; [done|constructor|done|by left].
Qed.

Fixpoint dir_runs (d : Dir F) (ops : list dir_op) : option (Dir F) :=
  match ops with
  | [] => Some d
  | op :: ops => '(_, d) ← dir_run d op; dir_runs d ops
  end.

Lemma runs_generation d M ops : volume_ok sb → dir_rep sb inode_id i_generation d M → Forall op_ok ops → 0 ≤ generation (d_names d) < 2 ^ 64 →
  ∃ d' M' k, dir_runs d ops = Some d' ∧ dir_rep sb inode_id i_generation d' M' ∧ 0 ≤ k ≤ len ops ∧
    generation (d_names d') = (generation (d_names d) + k) mod 2 ^ 64 ∧ (k = 0 → M' = M).
Proof.
  intros Hvol Hd Hops Hgen. revert d M Hd Hgen. induction Hops as [|op ops Hop Hops IH]; intros d M Hd Hgen; cbn [dir_runs].
  { exists d, M, 0. split_and!; try done. by rewrite Z.add_0_r, Z.mod_small. }
  destruct (dir_step d M op Hvol Hd Hop) as (r & d1 & M1 & -> & _ & Hd1 & Hg). step_some.
  assert (0 ≤ generation (d_names d1) < 2 ^ 64) as Hgen1. { destruct Hg as [[-> _]| ->]; [done|]. unfold wrapping_add. apply Z.mod_pos_bound. lia. }
  destruct (IH d1 M1 Hd1 Hgen1) as (d' & M' & k & Hr & Hd' & Hk & Hg' & HM). rewrite Hr. replace (len (op :: ops)) with (1 + len ops) by (unfold len; cbn [length]; lia).
  destruct Hg as [[Hg1 ->]|Hg1].
  - exists d', M', k. rewrite Hg', Hg1. split_and!; (done || lia).
  - exists d', M', (1 + k). rewrite Hg', Hg1. unfold wrapping_add. rewrite Z.add_mod_idemp_l by lia. split_and!; try done; try lia. f_equal. lia.
Qed.

(** C5 A directory refines a finite map.  From a directory that stands for a map, every
    sequence of lookups, additions, removals, replacements and tests for emptiness runs
    without a panic and without running out of its loops' bounds, each operation returns
    what the map returns and leaves a directory that stands for the new map, every block
    of it a chain of records under a valid checksum and the cache of names true.  An
    addition fails only when the name exists, is too long, or the file cannot grow. *)
Theorem directory_refines_map d M ops : volume_ok sb → dir_rep sb inode_id i_generation d M → Forall op_ok ops → dir_trace d M ops.
Proof.
  intros Hvol Hd Hops. revert d M Hd. induction Hops as [|op ops Hop Hops IH]; intros d M Hd; [by constructor|].
  destruct (dir_step d M op Hvol Hd Hop) as (r & d' & M' & Hr & Hs & Hd' & _). econstructor; eauto.
Qed.

(** C20 A lookup without the lock never leaves a stale name.  It found a name and its target,
    any operations change the directory before it remembers them, and the cache is true
    to the directory afterwards: the generation has moved on unless nothing has changed.
    Fewer than 2^64 operations fit in between. *)
Theorem stale_names_dropped d M name ino ft ops : volume_ok sb → dir_rep sb inode_id i_generation d M → 0 ≤ generation (d_names d) < 2 ^ 64 →
  M !! name = Some (ino, ft) → Forall op_ok ops → len ops < 2 ^ 64 →
  ∃ d' M', dir_runs d ops = Some d' ∧ dir_rep sb inode_id i_generation d' M' ∧
    dir_rep sb inode_id i_generation (remember_dir_entry_if_current (dir_lookup_cache_generation d) name ino ft d') M'.
Proof.
  intros Hvol Hd Hgen HM Hops Hlen. destruct (runs_generation d M ops Hvol Hd Hops Hgen) as (d' & M' & k & Hr & Hd' & Hk & Hg & HM'). exists d', M'. split_and!; [done|done|].
  unfold remember_dir_entry_if_current, dir_lookup_cache_generation. case_match; [done|]. destruct (Z.eqb_spec (generation (d_names d')) (generation (d_names d))) as [Heq|]; [|done].
  assert (k = 0) as ->. { rewrite Heq in Hg. pose proof (Z.div_mod (generation (d_names d) + k) (2 ^ 64)). pose proof (Z.div_pos (generation (d_names d) + k) (2 ^ 64)). nia. }
  rewrite HM' in * by done. destruct Hd' as [R1 R2 R3 R4 R5 R6]. split; try done. apply (remember_sound (d_names d') name (ino, ft) M R6 HM).
Qed.

(** C21 An indexed directory of one level reads like the map it stands for, and the first
    change turns it into a plain directory with the same names and types; it is never
    written under its stale index. *)
Theorem indexed_becomes_plain d M : volume_ok sb → indexed_rep sb inode_id i_generation d M →
  (∀ name, ∃ d', lookup_dir_entry_checked d name = Some (inr (M !! name), d')) ∧
  ∃ d', prepare_directory_for_mutation sb inode_id i_generation d = Some (true, d') ∧ dir_rep sb inode_id i_generation d' M.
Proof. intros Hvol Hd. by apply indexed_plain. Qed.

End runs.

(** ** A file in memory, with a limit *)

Record RamFile := MkRam { ram_limit : Z; ram_data : list Z }.

#[export] Instance RamFile_file : ByteFile RamFile := {
  file_size f := len (ram_data f);
  file_read f off n := seg off (Z.min (off + n) (len (ram_data f))) (ram_data f);
  file_write f off buf :=
    if (ram_limit f <? off + len buf) && (len (ram_data f) <? off + len buf) then Some (0, f) else Some (len buf, MkRam (ram_limit f) (splice off buf (ram_data f)));
}.

#[export] Program Instance RamFile_laws : ByteFileLaws RamFile := {
  file_ok f := all_bytes (ram_data f);
  file_full f := True;
  file_view f := ram_data f;
}.
Next Obligation. done. Qed.
Next Obligation. done. Qed.
Next Obligation. done. Qed.
Next Obligation.
  intros f off buf Hok Hmod Hoff Hal Hl Hb. cbn in *. destruct ((ram_limit f <? off + len buf) && (len (ram_data f) <? off + len buf)) eqn:Hc.
  - eexists _, _. split; [done|]. split_and!; [done|done|right; split; [done|done]|]. intros _ Hlt. apply andb_true_iff in Hc as [_ Hc%Z.ltb_lt]. rewrite Hl in Hc.
    pose proof (Z.div_mod off BLOCK_SZ). pose proof (Z.div_mod (len (ram_data f)) BLOCK_SZ). unfold BLOCK_SZ in *. lia.
  - eexists _, _. split; [done|]. split_and!; [by apply Forall_splice|done|by left|done].
Qed.

Definition demo_sb : Ext4SuperBlock := MkSuper 1024 128 4096 256 32768 128 0 0x42 0x38 0 1 (zeros 16) 0 0 0 0 0 32 0 11 [0; 0] 64.

Lemma demo_sb_ok : volume_ok demo_sb.
Proof. split; [done|done|apply Forall_zeros]. Qed.

(** The block of a new directory 12 under the root. *)
Definition demo_block : list Z := record_bytes 12 12 dot 2 ++ record_bytes 2 4084 dotdot 2.
Definition demo_dir : Dir RamFile := MkDir (MkRam 8192 demo_block) 0x41ed 0x80000 cache_new.

Lemma demo_entry ino rl name : is_u32 ino → all_bytes name → len name ≤ 255 → 8 + len name ≤ rl < 2 ^ 16 → rl mod 4 = 0 →
  is_entry (record_bytes ino rl name 2) (MkDirEntry (record_bytes ino rl name 2) ino rl (len name) 2) ∧ entry_name (MkDirEntry (record_bytes ino rl name 2) ino rl (len name) 2) = name.
Proof. intros. by apply record_is_entry. Qed.

Lemma demo_names : NoDup [dot; dotdot].
Proof. by apply (bool_decide_eq_true_1 (NoDup [dot; dotdot])). Qed.

Lemma demo_dir_rep : dir_rep demo_sb 12 0 demo_dir {[dot := (12, 2); dotdot := (2, 2)]}.
Proof.
  destruct (demo_entry 12 12 dot ltac:(lia) ltac:(repeat constructor; lia) ltac:(done) ltac:(done) eq_refl) as [H1 N1].
  destruct (demo_entry 2 4084 dotdot ltac:(lia) ltac:(repeat constructor; lia) ltac:(done) ltac:(done) eq_refl) as [H2 N2].
  set (e1 := MkDirEntry (record_bytes 12 12 dot 2) _ _ _ _) in *. set (e2 := MkDirEntry (record_bytes 2 4084 dotdot 2) _ _ _ _) in *.
  assert (chain demo_block [e1; e2]) as Hc by (constructor; [done|by apply chain_of_entry]). assert (len demo_block = 4096) as Hl by (unfold demo_block; rewrite len_app, !len_record by done; done).
  split; [done|done|by apply (chain_bytes _ _ Hc)|done| |intros n v Hn; change (entries _) with (∅ : gmap (list Z) (Z * Z)) in Hn; by apply lookup_empty_Some in Hn].
  exists [(demo_block, [e1; e2])]. cbn [fmap list_fmap concat fst snd app]. rewrite app_nil_r. split_and!; [done| | |].
  - constructor; [|done]. split; [|done]. split; [done|by repeat constructor|]. by exists [].
  - cbn. unfold live. cbn [de_inode de_file_type e1 e2 Z.eqb]. fold e1 e2. rewrite N1, N2. exact demo_names.
  - cbn. unfold live. cbn [de_inode de_file_type e1 e2 Z.eqb]. fold e1 e2. rewrite N1, N2. done.
Qed.

Lemma directory_refines_map_witness :
  dir_trace demo_sb 12 0 demo_dir {[dot := (12, 2); dotdot := (2, 2)]} [Lookup dot; Add [97] 13 1; Replace [97] 14 1; IsEmpty; Remove [97]; IsEmpty].
Proof. apply directory_refines_map; [apply demo_sb_ok|apply demo_dir_rep|]. repeat constructor; lia. Defined.

Lemma stale_names_dropped_witness : ∃ d' M', dir_runs demo_sb 12 0 demo_dir [Replace dotdot 5 2; Lookup dotdot] = Some d' ∧ dir_rep demo_sb 12 0 d' M' ∧
  dir_rep demo_sb 12 0 (remember_dir_entry_if_current (dir_lookup_cache_generation demo_dir) dotdot 2 2 d') M'.
Proof. apply (stale_names_dropped demo_sb 12 0 demo_dir {[dot := (12, 2); dotdot := (2, 2)]}); [apply demo_sb_ok|apply demo_dir_rep|done|done|repeat constructor; lia|done]. Defined.

(** The same directory under an index of one level. *)
Definition demo_root : list Z := splice 12 [0; 0; 0; 0; 1; 8; 0; 0] (record_bytes 2 4084 dotdot 2).
Definition demo_indexed : Dir RamFile := MkDir (MkRam 8192 (record_bytes 12 12 dot 2 ++ demo_root)) 0x41ed 0x81000 cache_new.

Lemma indexed_becomes_plain_witness :
  let M := {[dot := (12, 2); dotdot := (2, 2)]} in
  (∀ name, ∃ d', lookup_dir_entry_checked demo_indexed name = Some (inr (M !! name), d')) ∧
  ∃ d', prepare_directory_for_mutation demo_sb 12 0 demo_indexed = Some (true, d') ∧ dir_rep demo_sb 12 0 d' M.
Proof.
  intros M. apply indexed_becomes_plain; [apply demo_sb_ok|].
  destruct (demo_entry 12 12 dot ltac:(lia) ltac:(repeat constructor; lia) ltac:(done) ltac:(done) eq_refl) as [H1 N1].
  destruct (demo_entry 2 4084 dotdot ltac:(lia) ltac:(repeat constructor; lia) ltac:(done) ltac:(done) eq_refl) as [H2 N2].
  set (e1 := MkDirEntry (record_bytes 12 12 dot 2) _ _ _ _) in *. set (e0 := MkDirEntry (record_bytes 2 4084 dotdot 2) _ _ _ _) in *.
  assert (len (record_bytes 2 4084 dotdot 2) = 4084) as Hl by (by apply len_record). assert (len (record_bytes 12 12 dot 2) = 12) as Hl1 by (by apply len_record).
  destruct (entry_prefix _ e0 demo_root H2) as (e2 & He2 & S1 & S2 & S3).
  { unfold demo_root. apply len_splice; [done|]. by rewrite Hl. } { apply Forall_splice; [repeat constructor; lia|apply (ie_all _ _ H2)]. } { unfold demo_root. apply seg_splice_left; [done|done|]. by rewrite Hl. }
  rewrite N2 in S3. cbn [e0 de_inode de_file_type] in S1, S2. assert (len demo_root = 4084) as Hl2 by (unfold demo_root; rewrite len_splice; rewrite ?Hl; done).
  assert (omap live [e1; e2] = [(dot, (12, 2)); (dotdot, (2, 2))]) as Hlive by (cbn; unfold live; rewrite S1, S2, S3; cbn [e1 de_inode de_file_type Z.eqb]; fold e1; by rewrite N1).
  split; [done|done| |done| |intros n v Hn; change (entries _) with (∅ : gmap (list Z) (Z * Z)) in Hn; by apply lookup_empty_Some in Hn].
  { apply Forall_app. split; [apply (ie_all _ _ H1)|apply (ie_all _ _ He2)]. }
  exists (record_bytes 12 12 dot 2), e1, demo_root, e2, [].
  split; [change (concat [].*1) with (@nil Z); rewrite app_nil_r; reflexivity|]. split; [done|]. split_and!; [done|done|done|done|done|done|done|done|by rewrite S1|by rewrite S2|vm_compute; reflexivity| |].
  - cbn [concat fmap list_fmap snd app]. rewrite Hlive. exact demo_names.
  - cbn [concat fmap list_fmap snd app]. rewrite Hlive. done.
Defined.

End DirProps.
