(* ===== verification/BlockCache.v ===== *)
(** * The cache of blocks (os/src/drivers/block/cache.rs and block_dev.rs)

    Pages of the cache are shared objects: the table of blocks holds one reference, callers
    hold others, and the last reference writes a dirty page back when it goes.  A page is
    an entry of a heap, a reference is its number, and a page counts the references other
    than that of the table.  The devices are arrays of blocks.  A function that lets go of
    the lock of the table between two steps is a composition of these steps, so that they
    can also be interleaved. *)

From S2P Require Import Prelude Bytes BTree Ext4Super.

Local Open Scope Z_scope.

Definition META_CACHE_SIZE : Z := 2 ^ 18.
(** On riscv64. *)
Definition DATA_CACHE_SIZE : Z := 2 ^ 21.
Definition SCAN_LIMIT : nat := 64.
Definition SYNC_BATCH : nat := 1024.

(** ** Pages *)

Inductive CacheState := Loading | Clean | Dirty | Writeback | Error.

Record PageCacheInner := MkInner {
  frame : list Z;
  dirty : bool;
  state : CacheState;
  discarded : bool;
}.

(** [handles]: references besides that of the table; [frame_users]: users of the frame
    besides the page. *)
Record PageCache := MkPage {
  inner : PageCacheInner;
  pc_block_id : Z;
  block_device : option Z;
  is_data : bool;
  last_used : Z;
  handles : Z;
  frame_users : Z;
}.

Definition with_inner (i : PageCacheInner) (p : PageCache) : PageCache :=
  MkPage i (pc_block_id p) (block_device p) (is_data p) (last_used p) (handles p) (frame_users p).
Definition with_stamp (s : Z) (p : PageCache) : PageCache :=
  MkPage (inner p) (pc_block_id p) (block_device p) (is_data p) s (handles p) (frame_users p).
Definition with_handles (h : Z) (p : PageCache) : PageCache :=
  MkPage (inner p) (pc_block_id p) (block_device p) (is_data p) (last_used p) h (frame_users p).

(** [get_mut]: the mark comes with the reference. *)
Definition mark_dirty (bytes : list Z) (p : PageCache) : PageCache :=
  with_inner (MkInner bytes true Dirty (discarded (inner p))) p.

Definition mark_clean (p : PageCache) : PageCache :=
  with_inner (MkInner (frame (inner p)) false Clean (discarded (inner p))) p.

Definition mark_discarded (p : PageCache) : PageCache :=
  with_inner (MkInner (frame (inner p)) (dirty (inner p)) (state (inner p)) true) p.

(** ** The index of file pages *)

Definition LogicalPageKey : Type := Z * Z.

Record CacheIdMap := MkIds {
  logical_to_physical : gmap LogicalPageKey Z;
  physical_to_logical : gmap Z (gset LogicalPageKey);
}.

Definition ids_new : CacheIdMap := MkIds ∅ ∅.

Definition ids_remove_reverse (m : CacheIdMap) (block_id : Z) (key : LogicalPageKey) : CacheIdMap :=
  match physical_to_logical m !! block_id with
  | Some keys =>
    let keys := keys ∖ {[key]} in
    MkIds (logical_to_physical m)
      (if bool_decide (keys = ∅) then delete block_id (physical_to_logical m) else <[block_id := keys]> (physical_to_logical m))
  | None => m
  end.

Definition ids_insert (m : CacheIdMap) (key : LogicalPageKey) (block_id : Z) : CacheIdMap :=
  let old := logical_to_physical m !! key in
  let m := MkIds (<[key := block_id]> (logical_to_physical m)) (physical_to_logical m) in
  let m := match old with
           | Some old_block_id => if negb (old_block_id =? block_id) then ids_remove_reverse m old_block_id key else m
           | None => m
           end in
  MkIds (logical_to_physical m) (<[block_id := default ∅ (physical_to_logical m !! block_id) ∪ {[key]}]> (physical_to_logical m)).

Definition ids_get (m : CacheIdMap) (key : LogicalPageKey) : option Z := logical_to_physical m !! key.

Definition ids_remove_block (m : CacheIdMap) (block_id : Z) : CacheIdMap :=
  match physical_to_logical m !! block_id with
  | None => m
  | Some keys =>
    MkIds (foldr (λ key l, if bool_decide (l !! key = Some block_id) then delete key l else l) (logical_to_physical m) (elements keys))
      (delete block_id (physical_to_logical m))
  end.

Definition ids_len (m : CacheIdMap) : Z := Z.of_nat (base.size (logical_to_physical m)).

(** ** The manager *)

Record Manager := MkMgr {
  page_cache_id_map : CacheIdMap;
  page_cache_map : gmap Z nat;
  meta_count : Z;
  data_count : Z;
  meta_scan_cursor : Z;
  data_scan_cursor : Z;
  heap : gmap nat PageCache;
  next_page : nat;
  cache_stamp : Z;
  free_frames : Z;
  disk : Z → Z → list Z;
}.

Definition set_ids (x : CacheIdMap) (m : Manager) : Manager :=
  MkMgr x (page_cache_map m) (meta_count m) (data_count m) (meta_scan_cursor m) (data_scan_cursor m) (heap m) (next_page m) (cache_stamp m) (free_frames m) (disk m).
Definition set_map (x : gmap Z nat) (m : Manager) : Manager :=
  MkMgr (page_cache_id_map m) x (meta_count m) (data_count m) (meta_scan_cursor m) (data_scan_cursor m) (heap m) (next_page m) (cache_stamp m) (free_frames m) (disk m).
Definition set_heap (x : gmap nat PageCache) (m : Manager) : Manager :=
  MkMgr (page_cache_id_map m) (page_cache_map m) (meta_count m) (data_count m) (meta_scan_cursor m) (data_scan_cursor m) x (next_page m) (cache_stamp m) (free_frames m) (disk m).
Definition set_disk (dev b : Z) (x : list Z) (m : Manager) : Manager :=
  MkMgr (page_cache_id_map m) (page_cache_map m) (meta_count m) (data_count m) (meta_scan_cursor m) (data_scan_cursor m) (heap m) (next_page m) (cache_stamp m) (free_frames m)
    (λ dev' b', if (dev' =? dev) && (b' =? b) then x else disk m dev' b').
Definition set_frames (x : Z) (m : Manager) : Manager :=
  MkMgr (page_cache_id_map m) (page_cache_map m) (meta_count m) (data_count m) (meta_scan_cursor m) (data_scan_cursor m) (heap m) (next_page m) (cache_stamp m) x (disk m).
Definition set_cursor (d : bool) (x : Z) (m : Manager) : Manager :=
  MkMgr (page_cache_id_map m) (page_cache_map m) (meta_count m) (data_count m) (if d then meta_scan_cursor m else x) (if d then x else data_scan_cursor m)
    (heap m) (next_page m) (cache_stamp m) (free_frames m) (disk m).
(** [fetch_add] and [fetch_sub] on the counter of a class. *)
Definition count_add (d : bool) (x : Z) (m : Manager) : Manager :=
  MkMgr (page_cache_id_map m) (page_cache_map m) (if d then meta_count m else wrapping_add (meta_count m) x) (if d then wrapping_add (data_count m) x else data_count m)
    (meta_scan_cursor m) (data_scan_cursor m) (heap m) (next_page m) (cache_stamp m) (free_frames m) (disk m).

Definition on_page (id : nat) (f : PageCache → PageCache) (m : Manager) : Manager := set_heap (alter f id (heap m)) m.

(** [PageCache::touch] *)
Definition touch (id : nat) (m : Manager) : Manager :=
  let s := cache_stamp m in
  let m := MkMgr (page_cache_id_map m) (page_cache_map m) (meta_count m) (data_count m) (meta_scan_cursor m) (data_scan_cursor m) (heap m) (next_page m) (wrapping_add s 1) (free_frames m) (disk m) in
  on_page id (with_stamp s) m.

(** [PageCache::sync] *)
Definition page_sync (id : nat) (m : Manager) : Manager :=
  match heap m !! id with
  | None => m
  | Some p =>
    match block_device p with
    | None => m
    | Some dev =>
      if discarded (inner p) || negb (dirty (inner p)) then m
      else on_page id mark_clean (set_disk dev (pc_block_id p) (frame (inner p)) m)
    end
  end.

Definition in_table (id : nat) (p : PageCache) (m : Manager) : bool := bool_decide (page_cache_map m !! pc_block_id p = Some id).

Definition clone_page (id : nat) (m : Manager) : Manager := on_page id (λ p, with_handles (handles p + 1) p) m.

(** The end of a page: [Drop] syncs it, and its frame is free again unless someone else
    uses it. *)
Definition free_page (id : nat) (p : PageCache) (m : Manager) : Manager :=
  let m := page_sync id m in
  set_frames (if frame_users p =? 0 then free_frames m + 1 else free_frames m) (set_heap (delete id (heap m)) m).

(** A caller gives its reference back. *)
Definition drop_page (id : nat) (m : Manager) : Manager :=
  match heap m !! id with
  | None => m
  | Some p =>
    if (handles p =? 1) && negb (in_table id p m) then free_page id p m
    else on_page id (λ p, with_handles (handles p - 1) p) m
  end.

(** [PageCache::new_loading] *)
Definition new_loading (block_id dev : Z) (data : bool) (m : Manager) : option (nat * Manager) :=
  if free_frames m <=? 0 then None
  else
    let id := next_page m in
    let p := MkPage (MkInner (zeros BLOCK_SZ) false Loading false) block_id (Some dev) data 0 1 0 in
    Some (id, MkMgr (page_cache_id_map m) (page_cache_map m) (meta_count m) (data_count m) (meta_scan_cursor m) (data_scan_cursor m)
                (<[id := p]> (heap m)) (S id) (cache_stamp m) (free_frames m - 1) (disk m)).

(** ** [get_physical_page] in its three steps *)

Definition find_page (block_id : Z) (m : Manager) : option (nat * Manager) :=
  id ← page_cache_map m !! block_id; Some (id, touch id (clone_page id m)).

Definition load_page (id : nat) (block_id dev : Z) (load_from_disk : bool) (m : Manager) : Manager :=
  on_page id (λ p,
    if load_from_disk then with_inner (MkInner (disk m dev block_id) (dirty (inner p)) Clean (discarded (inner p))) p
    else mark_dirty (zeros BLOCK_SZ) p) m.

Definition publish_page (id : nat) (block_id : Z) (data : bool) (m : Manager) : (nat * bool) * Manager :=
  match page_cache_map m !! block_id with
  | Some existing => ((existing, false), touch existing (drop_page id (on_page id mark_discarded (clone_page existing m))))
  | None => ((id, true), count_add data 1 (touch id (set_map (<[block_id := id]> (page_cache_map m)) m)))
  end.

Definition get_physical_page (block_id dev : Z) (data load_from_disk : bool) (m : Manager) : option ((nat * bool) * Manager) :=
  match find_page block_id m with
  | Some (id, m) => Some ((id, false), m)
  | None =>
    '(id, m) ← new_loading block_id dev data m;
    Some (publish_page id block_id data (load_page id block_id dev load_from_disk m))
  end.

(** ** Eviction in its three steps *)

Definition evict_begin (block_id : Z) (m : Manager) : (bool + nat) * Manager :=
  match page_cache_map m !! block_id with
  | None => (inl true, m)
  | Some id =>
    match heap m !! id with
    | Some p => if negb (handles p =? 0) then (inl false, m) else (inr id, clone_page id m)
    | None => (inl false, m)
    end
  end.

Definition evict_remove (block_id : Z) (id : nat) (m : Manager) : bool * Manager :=
  match heap m !! id with
  | Some p =>
    if bool_decide (page_cache_map m !! block_id = Some id) && (handles p =? 1)
    then (true, set_ids (ids_remove_block (page_cache_id_map m) block_id) (count_add (is_data p) (-1) (set_map (delete block_id (page_cache_map m)) m)))
    else (false, m)
  | None => (false, m)
  end.

Definition try_evict (block_id : Z) (m : Manager) : bool * Manager :=
  match evict_begin block_id m with
  | (inl r, m) => (r, m)
  | (inr id, m) =>
    let m := page_sync id m in
    match heap m !! id with
    | Some p =>
      if negb (frame_users p =? 0) then (false, drop_page id m)
      else let '(r, m) := evict_remove block_id id m in (r, drop_page id m)
    | None => (false, m)
    end
  end.

(** Pairs of stamp and block in the order of [sort_unstable]. *)
Definition cand_le (a b : Z * Z) : Prop := a.1 < b.1 ∨ (a.1 = b.1 ∧ a.2 ≤ b.2).

#[export] Instance cand_le_dec : RelDecision cand_le.
Proof. intros a b. unfold cand_le. apply _. Defined.

Definition candidates (scan_start : Z) (data : bool) (m : Manager) : list (Z * Z) :=
  let es := bt_entries (page_cache_map m) in
  let round := filter (λ e, scan_start ≤ e.1) es ++ filter (λ e, e.1 < scan_start) es in
  let stamps := omap (λ e, p ← heap m !! e.2; if Bool.eqb (is_data p) data then Some (last_used p, e.1) else None) round in
  merge_sort cand_le (take SCAN_LIMIT stamps).

Fixpoint evict_first (cs : list (Z * Z)) (m : Manager) : Manager :=
  match cs with
  | [] => m
  | (_, block_id) :: cs => let '(r, m) := try_evict block_id m in if (r : bool) then m else evict_first cs m
  end.

Definition trim_cache (limit : Z) (data : bool) (m : Manager) : Manager :=
  let count := if data then data_count m else meta_count m in
  if count <=? limit then m
  else
    let scan_start := if data then data_scan_cursor m else meta_scan_cursor m in
    let cs := candidates scan_start data m in
    evict_first cs (set_cursor data (wrapping_add scan_start (Z.of_nat SCAN_LIMIT)) m).

(** The free function [trim_cache]: data first. *)
Definition trim_caches (m : Manager) : Manager := trim_cache META_CACHE_SIZE false (trim_cache DATA_CACHE_SIZE true m).

Definition invalidate_block (block_id : Z) (m : Manager) : Manager :=
  let m :=
    match page_cache_map m !! block_id with
    | Some id =>
      match heap m !! id with
      | Some p =>
        let m := count_add (is_data p) (-1) (on_page id mark_discarded m) in
        let m := set_map (delete block_id (page_cache_map m)) m in
        if handles p =? 0 then free_page id p m else m
      | None => m
      end
    | None => m
    end in
  set_ids (ids_remove_block (page_cache_id_map m) block_id) m.

(** ** What callers get *)

Definition get_block_cache (block_id dev : Z) (m : Manager) : option (nat * Manager) :=
  '((id, _), m) ← get_physical_page block_id dev false true m; Some (id, m).

Definition get_data_block_cache (block_id dev : Z) (m : Manager) : option (nat * Manager) :=
  '((id, _), m) ← get_physical_page block_id dev true true m; Some (id, m).

Definition get_page_cache (ino logical_block physical_block dev : Z) (m : Manager) : option ((nat * bool) * Manager) :=
  get_physical_page physical_block dev true true (set_ids (ids_insert (page_cache_id_map m) (ino, logical_block) physical_block) m).

Definition get_new_page_cache (ino logical_block physical_block dev : Z) (m : Manager) : option (nat * Manager) :=
  '((id, created), m) ← get_physical_page physical_block dev true false (set_ids (ids_insert (page_cache_id_map m) (ino, logical_block) physical_block) m);
  Some (id, if (created : bool) then on_page id (mark_dirty (zeros BLOCK_SZ)) m else m).

Definition get_cached_file_page (ino logical_block : Z) (m : Manager) : option nat * Manager :=
  match (block_id ← ids_get (page_cache_id_map m) (ino, logical_block); page_cache_map m !! block_id) with
  | Some id => (Some id, clone_page id m)
  | None => (None, m)
  end.

Definition write_back_page_cache (ino page_offset : Z) (m : Manager) : Manager :=
  match get_cached_file_page ino page_offset m with
  | (Some id, m) => drop_page id (page_sync id m)
  | (None, m) => m
  end.

(** The lower bound of a range, [Excluded(c)] or [Unbounded]. *)
Definition after (cursor : option Z) (k : Z) : bool := match cursor with Some c => c <? k | None => true end.

(** The references of a batch are given back at its end; the pages stay in the table. *)
Fixpoint sync_batches (fuel : nat) (cursor : option Z) (m : Manager) : option Manager :=
  match fuel with
  | O => None
  | S fuel =>
    let rest := filter (λ e, after cursor e.1) (bt_entries (page_cache_map m)) in
    let batch := take SYNC_BATCH rest in
    match last batch with
    | None => Some m
    | Some (id, _) => sync_batches fuel (Some id) (foldl (λ m e, page_sync e.2 m) m batch)
    end
  end.

Definition sync_fuel (m : Manager) : nat := S (base.size (page_cache_map m)).

Definition sync_all (m : Manager) : option Manager := sync_batches (sync_fuel m) None m.

(** [Arc::strong_count(cache) > 1] *)
Definition pinned (m : Manager) (e : Z * nat) : bool := match heap m !! e.2 with Some p => 0 <? handles p | None => false end.

Definition stats (m : Manager) : (Z * Z) * Z :=
  (Z.of_nat (base.size (page_cache_map m)),
   Z.of_nat (length (filter (λ e, pinned m e) (bt_entries (page_cache_map m)))),
   ids_len (page_cache_id_map m)).

(** The oldest data page, the first one of equal age. *)
Definition oldest_data (m : Manager) : option (Z * Z) :=
  foldl (λ oldest e,
    match heap m !! e.2 with
    | Some p =>
      if is_data p && match oldest with None => true | Some (olu, _) => last_used p <? olu end then Some (last_used p, e.1) else oldest
    | None => oldest
    end) None (bt_entries (page_cache_map m)).

Fixpoint free_data_pages (count : nat) (m : Manager) : Z * Manager :=
  match count with
  | O => (0, m)
  | S count =>
    match oldest_data m with
    | None => (0, m)
    | Some (_, block_id) =>
      let '(r, m) := try_evict block_id m in
      if (r : bool) then let '(freed, m) := free_data_pages count m in (1 + freed, m) else (0, m)
    end
  end.

(** ** The methods of [BlockDevice] *)

(** The methods with a body use the global device, whatever device they are called on. *)
Definition BLOCK_DEVICE : Z := 0.

Definition read_page (id : nat) (n : Z) (m : Manager) : option (list Z) := p ← heap m !! id; slice (frame (inner p)) 0 n.

Definition write_page (id : nat) (buf : list Z) (m : Manager) : option Manager :=
  p ← heap m !! id; bytes ← put (frame (inner p)) 0 buf; Some (on_page id (mark_dirty bytes) m).

Definition read_block (block_id n : Z) (m : Manager) : option (list Z * Manager) :=
  '(id, m) ← get_block_cache block_id BLOCK_DEVICE m; buf ← read_page id n m; Some (buf, drop_page id m).

Definition write_block (block_id : Z) (buf : list Z) (m : Manager) : option Manager :=
  '(id, m) ← get_block_cache block_id BLOCK_DEVICE m; m ← write_page id buf m; Some (drop_page id m).

Definition read_data_block (block_id n : Z) (m : Manager) : option (list Z * Manager) :=
  '(id, m) ← get_data_block_cache block_id BLOCK_DEVICE m; buf ← read_page id n m; Some (buf, drop_page id m).

Definition write_data_block (block_id : Z) (buf : list Z) (m : Manager) : option Manager :=
  '(id, m) ← get_data_block_cache block_id BLOCK_DEVICE m; m ← write_page id buf m; Some (drop_page id m).

(** ** The periodic sync *)

Definition SYNC_INTERVAL_MS : Z := 200000.

Definition wrapping_sub64 (a b : Z) : Z := (a - b) mod 2 ^ 64.

(** The new time of the last sync and the manager after it; the exchange succeeds when no
    other CPU is in between. *)
Definition tick_sync (now after last : Z) (m : Manager) : option (Z * Manager) :=
  if SYNC_INTERVAL_MS <=? wrapping_sub64 now last then m ← sync_all m; Some (after, trim_caches m)
  else Some (last, m).

Definition next_sync_delay_ms (now last : Z) : Z :=
  let elapsed := wrapping_sub64 now last in
  saturating_sub SYNC_INTERVAL_MS (Z.min elapsed SYNC_INTERVAL_MS).
