(* ===== verification/BlockCacheProps.v ===== *)
(** * Correctness of the cache of blocks

    The cache is transparent: reading and writing through it, with pages held, evicted,
    trimmed and written back in between, is reading and writing an array of blocks; a sync
    makes the device equal to the array.  The index of file pages stays consistent in both
    directions.  Two races of the steps between which the lock of the table is free lose
    data, and the table does not tell devices apart. *)

From S2P Require Import Prelude Bytes BTree Ext4Super BlockCache.

Local Open Scope Z_scope.

(** ** The index of file pages *)

Definition ids_ok (m : CacheIdMap) : Prop :=
  (∀ key b, logical_to_physical m !! key = Some b ↔ ∃ keys, physical_to_logical m !! b = Some keys ∧ key ∈ keys) ∧
  (∀ b keys, physical_to_logical m !! b = Some keys → keys ≠ ∅).

Lemma ids_new_ok : ids_ok ids_new.
Proof.
  unfold ids_new. split; cbn [logical_to_physical physical_to_logical].
  - intros key b. split; [intros H; by apply lookup_empty_Some in H|]. intros (keys & H & _). by apply lookup_empty_Some in H.
  - intros b keys H. by apply lookup_empty_Some in H.
Qed.

(** [insert] points the key at its new block, and at no other. *)
Lemma ids_insert_ok m key b : ids_ok m → ids_ok (ids_insert m key b) ∧ logical_to_physical (ids_insert m key b) = <[key := b]> (logical_to_physical m).
Proof.
  intros [H1 H2]. unfold ids_insert.
  set (p1 := physical_to_logical (match logical_to_physical m !! key with Some old => _ | None => _ end)).
  assert (∀ m0, m0 = match logical_to_physical m !! key with
    | Some old => if negb (old =? b) then ids_remove_reverse (MkIds (<[key:=b]> (logical_to_physical m)) (physical_to_logical m)) old key else MkIds (<[key:=b]> (logical_to_physical m)) (physical_to_logical m)
    | None => MkIds (<[key:=b]> (logical_to_physical m)) (physical_to_logical m) end → logical_to_physical m0 = <[key:=b]> (logical_to_physical m) ∧
    ∀ c keys, physical_to_logical m0 !! c = Some keys → keys ≠ ∅) as Hl.
  { intros m0 ->. destruct (logical_to_physical m !! key) as [old|]; [|done]. destruct (old =? b); [done|]. unfold ids_remove_reverse. cbn [negb physical_to_logical logical_to_physical].
    destruct (physical_to_logical m !! old) as [ks|] eqn:Hks; [|done]. split; [done|]. intros c keys. cbn [physical_to_logical]. case_bool_decide as Hem.
    - intros Hc. apply lookup_delete_Some in Hc as [_ Hc]. eauto.
    - intros Hc. apply lookup_insert_Some in Hc as [[<- <-]|[_ Hc]]; eauto. }
  assert (∀ key' c, key' ≠ key ∨ c ≠ b → (∃ keys, p1 !! c = Some keys ∧ key' ∈ keys) ↔ (∃ keys, physical_to_logical m !! c = Some keys ∧ key' ∈ keys) ∧ key' ≠ key) as Hp1.
  { intros key' c Hne. unfold p1. destruct (logical_to_physical m !! key) as [old|] eqn:Hold.
    - assert (∀ c keys, physical_to_logical m !! c = Some keys → key ∈ keys → c = old) as Hold'. { intros c0 keys Hc Hk. assert (logical_to_physical m !! key = Some c0) by (apply H1; eauto). congruence. }
      destruct (Z.eqb_spec old b) as [->|Hob]; cbn [negb physical_to_logical].
      + split; [|by intros [? _]]. intros (ks & Hc & Hk). split; [eauto|]. intros ->. destruct Hne as [?|Hne]; [done|]. by rewrite (Hold' c ks) in Hne.
      + unfold ids_remove_reverse. cbn [physical_to_logical logical_to_physical]. pose proof (proj1 (H1 key old) Hold) as (ks & Hks & Hin). rewrite Hks. cbn [physical_to_logical].
        case_bool_decide as Hem; split.
        * intros (ks' & Hc & Hk). apply lookup_delete_Some in Hc as [Hne' Hc]. split; [eauto|]. intros ->. by rewrite (Hold' c ks') in Hne'.
        * intros [(ks' & Hc & Hk) Hkk]. exists ks'. split; [|done]. apply lookup_delete_Some. split; [|done]. intros <-. assert (ks' = ks) as -> by congruence. set_solver.
        * intros (ks' & Hc & Hk). apply lookup_insert_Some in Hc as [[<- <-]|[Hne' Hc]]; [set_solver|]. split; [eauto|]. intros ->. by rewrite (Hold' c ks') in Hne'.
        * intros [(ks' & Hc & Hk) Hkk]. destruct (decide (old = c)) as [<-|]; [exists (ks ∖ {[key]}); rewrite lookup_insert_eq; split; [done|]; assert (ks' = ks) as -> by congruence; set_solver|].
          exists ks'. by rewrite lookup_insert_ne.
    - cbn [physical_to_logical]. split; [|by intros [? _]]. intros (ks & Hc & Hk). split; [eauto|]. intros ->. assert (logical_to_physical m !! key = Some c) by (apply H1; eauto). congruence. }
  destruct (Hl _ eq_refl) as [Hl1 Hl2]. fold p1 in Hl2. split; [|exact Hl1]. split; cbn [logical_to_physical physical_to_logical].
  - intros key' c. rewrite Hl1. fold p1. destruct (decide (c = b)) as [->|Hcb].
    + rewrite lookup_insert_eq. destruct (decide (key' = key)) as [->|Hk].
      * rewrite lookup_insert_eq. split; [intros _; eexists; split; [done|set_solver]|done].
      * rewrite lookup_insert_ne, H1 by done. pose proof (Hp1 key' b (or_introl Hk)) as Hp. split.
        -- intros He. destruct (proj2 Hp (conj He Hk)) as (ks & Hks & Hin). eexists. split; [done|]. rewrite Hks. set_solver.
        -- intros (ks & [= <-] & Hin). apply (proj1 Hp). destruct (p1 !! b) as [ks|] eqn:Hks; [exists ks|]; set_solver.
    + rewrite (lookup_insert_ne p1 b c) by done. pose proof (Hp1 key' c (or_intror Hcb)) as Hp. destruct (decide (key' = key)) as [->|Hk].
      * rewrite lookup_insert_eq. split; [congruence|]. intros He. apply Hp in He as [_ ?]. done.
      * rewrite lookup_insert_ne, H1 by done. rewrite Hp. naive_solver.
  - intros c keys. fold p1. destruct (decide (c = b)) as [->|Hcb]; [rewrite lookup_insert_eq; intros [= <-]; set_solver|]. rewrite lookup_insert_ne by done. apply Hl2.
Qed.

Lemma fold_delete (b : Z) (keys : list LogicalPageKey) (l : gmap LogicalPageKey Z) key :
  foldr (λ key l, if bool_decide (l !! key = Some b) then delete key l else l) l keys !! key =
  if bool_decide (key ∈ keys ∧ l !! key = Some b) then None else l !! key.
Proof.
  induction keys as [|k keys IH]; [rewrite bool_decide_false; [done|intros [H _]; by apply not_elem_of_nil in H]|]. cbn [foldr].
  set (r := foldr _ _ _) in *. destruct (decide (key = k)) as [->|Hk].
  - destruct (decide (l !! k = Some b)) as [Hl|Hl].
    + rewrite (bool_decide_true (k ∈ k :: keys ∧ _)) by (split; [apply elem_of_cons; by left|done]). destruct (bool_decide_reflect (r !! k = Some b)) as [Hr|Hr]; [apply lookup_delete_eq|].
      rewrite IH in *. case_bool_decide; [done|]. by rewrite Hl in Hr.
    + assert (r !! k = l !! k) as Hr by (rewrite IH, bool_decide_false; [done|by intros [_ ?]]). rewrite (bool_decide_false (r !! k = Some b)) by congruence.
      rewrite Hr, bool_decide_false; [done|by intros [_ ?]].
  - assert (bool_decide (key ∈ k :: keys ∧ l !! key = Some b) = bool_decide (key ∈ keys ∧ l !! key = Some b)) as -> by (apply bool_decide_ext; rewrite elem_of_cons; naive_solver).
    destruct (bool_decide_reflect (r !! k = Some b)); [by rewrite lookup_delete_ne|done].
Qed.

(** [remove_block] forgets every key of the block. *)
Lemma ids_remove_block_ok m b : ids_ok m → ids_ok (ids_remove_block m b) ∧
  ∀ key, logical_to_physical (ids_remove_block m b) !! key = if bool_decide (logical_to_physical m !! key = Some b) then None else logical_to_physical m !! key.
Proof.
  intros [H1 H2]. unfold ids_remove_block. destruct (physical_to_logical m !! b) as [keys|] eqn:Hk.
  - assert (∀ key, foldr (λ key l, if bool_decide (l !! key = Some b) then delete key l else l) (logical_to_physical m) (elements keys) !! key =
      if bool_decide (logical_to_physical m !! key = Some b) then None else logical_to_physical m !! key) as Hf.
    { intros key. rewrite fold_delete. rewrite (bool_decide_ext _ (logical_to_physical m !! key = Some b)); [done|]. rewrite elem_of_elements.
      split; [by intros [_ ?]|]. intros Hl. split; [|done]. apply H1 in Hl as (ks & Hks & Hin). congruence. }
    split; [|exact Hf]. split; cbn [logical_to_physical physical_to_logical].
    + intros key c. rewrite Hf. case_bool_decide as Hb.
      * split; [done|]. intros (ks & Hc & Hin). apply lookup_delete_Some in Hc as [Hne Hc]. assert (logical_to_physical m !! key = Some c) by (apply H1; eauto). congruence.
      * rewrite H1. split; intros (ks & Hc & Hin); exists ks; (split; [|done]).
        -- apply lookup_delete_Some. split; [|done]. intros <-. apply Hb, H1. eauto.
        -- by apply lookup_delete_Some in Hc as [_ Hc].
    + intros c ks Hc. apply lookup_delete_Some in Hc as [_ Hc]. eauto.
  - split; [done|]. intros key. case_bool_decide as Hb; [|done]. apply H1 in Hb as (ks & Hks & _). congruence.
Qed.

(** ** The invariant *)

(** References besides that of the table: how often a page is held. *)
Definition held_count (held : list nat) (id : nat) : Z := Z.of_nat (length (filter (λ x, x = id) held)).

Definition class_of (m : Manager) (id : nat) : bool := match heap m !! id with Some p => is_data p | None => false end.

Definition class_size (d : bool) (m : Manager) : Z := Z.of_nat (base.size (filter (λ e, class_of m e.2 = d) (page_cache_map m))).

(** A page of the table belongs to its block and is coherent: unless dirty it is what the
    device has.  A page outside the table is held by someone and discarded. *)
Record cache_inv (m : Manager) (held : list nat) : Prop := {
  ci_table : ∀ b id, page_cache_map m !! b = Some id → ∃ p, heap m !! id = Some p ∧ pc_block_id p = b ∧ block_device p = Some BLOCK_DEVICE ∧
    discarded (inner p) = false ∧ (dirty (inner p) = false → frame (inner p) = disk m BLOCK_DEVICE b);
  ci_heap : ∀ id p, heap m !! id = Some p → (id < next_page m)%nat ∧ len (frame (inner p)) = BLOCK_SZ ∧ handles p = held_count held id ∧ 0 ≤ frame_users p ∧
    (page_cache_map m !! pc_block_id p ≠ Some id → 0 < handles p ∧ discarded (inner p) = true);
  ci_held : ∀ id, id ∈ held → is_Some (heap m !! id);
  ci_disk : ∀ b, len (disk m BLOCK_DEVICE b) = BLOCK_SZ;
  ci_count : ∀ d : bool, (if d then data_count m else meta_count m) = class_size d m mod 2 ^ 64;
  ci_ids : ids_ok (page_cache_id_map m);
}.

(** What a block contains, seen through the cache. *)
Definition view (m : Manager) (b : Z) : list Z :=
  match page_cache_map m !! b with
  | Some id => match heap m !! id with Some p => frame (inner p) | None => [] end
  | None => disk m BLOCK_DEVICE b
  end.

Lemma held_count_cons held id x : held_count (x :: held) id = held_count held id + (if decide (x = id) then 1 else 0).
Proof. unfold held_count. rewrite filter_cons. destruct (decide (x = id)); cbn [length]; lia. Qed.

Lemma held_count_pos held id : 0 < held_count held id ↔ id ∈ held.
Proof.
  unfold held_count. split.
  - intros Hl. destruct (filter (λ x, x = id) held) as [|y l] eqn:Hf; [cbn in Hl; lia|]. assert (y ∈ filter (λ x, x = id) held) as Hy by (rewrite Hf; apply elem_of_cons; by left).
    apply list_elem_of_filter in Hy as [-> Hy]. done.
  - intros Hin. assert (id ∈ filter (λ x, x = id) held) as Hf by (by apply list_elem_of_filter). destruct (filter _ held); [by apply not_elem_of_nil in Hf|cbn; lia].
Qed.

Lemma held_count_nonneg held id : 0 ≤ held_count held id.
Proof. unfold held_count. lia. Qed.

Lemma view_page m held b id p : cache_inv m held → page_cache_map m !! b = Some id → heap m !! id = Some p → view m b = frame (inner p).
Proof. intros _ Hb Hp. unfold view. by rewrite Hb, Hp. Qed.

Lemma view_len m held b : cache_inv m held → len (view m b) = BLOCK_SZ.
Proof.
  intros Hi. unfold view. destruct (page_cache_map m !! b) as [id|] eqn:Hb; [|apply (ci_disk _ _ Hi)]. destruct (ci_table _ _ Hi b id Hb) as (p & Hp & _). rewrite Hp. apply (ci_heap _ _ Hi id p Hp).
Qed.

(** ** A change of one page *)

(** The page keeps its identity. *)
Definition same_page (p p' : PageCache) : Prop :=
  pc_block_id p' = pc_block_id p ∧ block_device p' = block_device p ∧ is_data p' = is_data p ∧ frame_users p' = frame_users p.

Lemma on_page_lookup id f m j : heap (on_page id f m) !! j = if decide (j = id) then f <$> heap m !! id else heap m !! j.
Proof. unfold on_page. cbn [heap set_heap]. destruct (decide (j = id)) as [->|Hj]; [apply lookup_alter_eq|by apply lookup_alter_ne]. Qed.

Lemma class_ext m m' d : page_cache_map m' = page_cache_map m → (∀ id b, page_cache_map m !! b = Some id → class_of m' id = class_of m id) → class_size d m' = class_size d m.
Proof.
  intros Hm Hc. unfold class_size. rewrite Hm. do 2 f_equal. apply map_filter_ext. intros b id Hb. cbn. by rewrite (Hc id b Hb).
Qed.

Lemma class_on_page id f m j : (∀ p, is_data (f p) = is_data p) → class_of (on_page id f m) j = class_of m j.
Proof. intros Hf. unfold class_of. rewrite on_page_lookup. destruct (decide (j = id)) as [->|]; [|done]. destruct (heap m !! id); [cbn; by rewrite Hf|done]. Qed.

(** A change of the page [id] that keeps its identity and the number of its references,
    with [held'] the references afterwards. *)
Lemma inv_on_page m held held' id f : cache_inv m held → (∀ p, same_page p (f p)) →
  (∀ j, held_count held' j = held_count held j ∨ j = id) → (∀ j, j ∈ held' → is_Some (heap m !! j)) →
  (∀ p, heap m !! id = Some p → len (frame (inner (f p))) = BLOCK_SZ ∧ handles (f p) = held_count held' id ∧
    (page_cache_map m !! pc_block_id p = Some id → discarded (inner (f p)) = false ∧ (dirty (inner (f p)) = false → frame (inner (f p)) = disk m BLOCK_DEVICE (pc_block_id p))) ∧
    (page_cache_map m !! pc_block_id p ≠ Some id → 0 < handles (f p) ∧ discarded (inner (f p)) = true)) →
  cache_inv (on_page id f m) held'.
Proof.
  intros Hi Hsame Hcount Hheld Hf. split.
  - intros b j Hb. cbn in Hb. destruct (ci_table _ _ Hi b j Hb) as (p & Hp & Hpb & Hdev & Hdis & Hcl). rewrite on_page_lookup. destruct (decide (j = id)) as [->|]; [|by exists p].
    rewrite Hp. destruct (Hsame p) as (S1 & S2 & _). destruct (Hf p Hp) as (_ & _ & Hin & _). rewrite Hpb in Hin. destruct (Hin Hb). exists (f p). split_and!; [done|congruence|congruence|done|done].
  - intros j p'. rewrite on_page_lookup. destruct (decide (j = id)) as [->|Hj].
    + destruct (heap m !! id) as [p|] eqn:Hp; [|done]. intros [= <-]. destruct (ci_heap _ _ Hi id p Hp) as (Hn & _ & _ & Hu & _). destruct (Hf p eq_refl) as (Hl & Hh & _ & Hout). destruct (Hsame p) as (S1 & _ & _ & S4).
      split_and!; [done|done|done|by rewrite S4|]. cbn. rewrite S1. exact Hout.
    + intros Hp. destruct (ci_heap _ _ Hi j p' Hp) as (Hn & Hl & Hh & Hu & Hout). split_and!; try done. destruct (Hcount j) as [->|]; [done|done].
  - intros j Hj. rewrite on_page_lookup. destruct (decide (j = id)) as [->|]; [|by apply Hheld]. destruct (Hheld id Hj) as [p ->]. by eexists.
  - apply (ci_disk _ _ Hi).
  - intros d. rewrite (class_ext m); [apply (ci_count _ _ Hi)|done|]. intros j b _. apply class_on_page. intros p. apply (Hsame p).
  - apply (ci_ids _ _ Hi).
Qed.

Lemma view_on_page m id f b : view (on_page id f m) b =
  match page_cache_map m !! b with
  | Some j => match heap m !! j with Some p => frame (inner (if decide (j = id) then f p else p)) | None => [] end
  | None => disk m BLOCK_DEVICE b
  end.
Proof.
  unfold view. cbn [page_cache_map on_page set_heap disk]. destruct (page_cache_map m !! b) as [j|]; [|done]. rewrite on_page_lookup. destruct (decide (j = id)) as [->|]; [|done]. by destruct (heap m !! id).
Qed.

Lemma view_same_frame m id f b : (∀ p, frame (inner (f p)) = frame (inner p)) → view (on_page id f m) b = view m b.
Proof. intros Hf. rewrite view_on_page. unfold view. repeat case_match; (done || by rewrite Hf). Qed.

(** ** Steps that do not change what blocks contain *)

(** The contents stay; a block of the device stays too, or gets what the cache has. *)
Definition calm (m m' : Manager) : Prop :=
  (∀ b, view m' b = view m b) ∧ (∀ b, disk m' BLOCK_DEVICE b = disk m BLOCK_DEVICE b ∨ disk m' BLOCK_DEVICE b = view m b) ∧ free_frames m ≤ free_frames m'.

#[export] Instance calm_refl : Reflexive calm.
Proof. intros m. split_and!; [done|by left|lia]. Qed.

#[export] Instance calm_trans : Transitive calm.
Proof.
  intros m1 m2 m3 (V1 & D1 & F1) (V2 & D2 & F2). split_and!; [|intros b|lia]; [intros b; by rewrite V2|]. destruct (D2 b) as [->| ->]; [apply D1|right; apply V1].
Qed.

Lemma inv_stamp m held s : cache_inv m held →
  cache_inv (MkMgr (page_cache_id_map m) (page_cache_map m) (meta_count m) (data_count m) (meta_scan_cursor m) (data_scan_cursor m) (heap m) (next_page m) s (free_frames m) (disk m)) held.
Proof. intros [H1 H2 H3 H4 H5 H6]. by split. Qed.

Lemma inv_cursor m held d x : cache_inv m held → cache_inv (set_cursor d x m) held.
Proof. intros [H1 H2 H3 H4 H5 H6]. by split. Qed.

Lemma inv_ids m held x : cache_inv m held → ids_ok x → cache_inv (set_ids x m) held.
Proof. intros [H1 H2 H3 H4 H5 H6] Hx. by split. Qed.

(** A step on a page that changes nothing but its stamp or its references. *)
Lemma inv_keep m held held' id f : cache_inv m held → (∀ p, same_page p (f p) ∧ inner (f p) = inner p) →
  (∀ j, held_count held' j = held_count held j ∨ j = id) → (∀ j, j ∈ held' → is_Some (heap m !! j)) →
  (∀ p, heap m !! id = Some p → handles (f p) = held_count held' id) →
  (∀ p, heap m !! id = Some p → page_cache_map m !! pc_block_id p ≠ Some id → 0 < handles (f p)) →
  cache_inv (on_page id f m) held' ∧ calm m (on_page id f m).
Proof.
  intros Hi Hsame Hc Hh Hcount Hout. split.
  - apply (inv_on_page m held); try done; [intros p; apply Hsame|]. intros p Hp. destruct (ci_heap _ _ Hi id p Hp) as (_ & Hl & _ & _ & Ho). destruct (Hsame p) as [_ ->]. split_and!; [done|by apply Hcount| |].
    + intros Hin. destruct (ci_table _ _ Hi _ _ Hin) as (p' & Hp' & _ & _ & Hd & Hcl). assert (p' = p) as -> by congruence. done.
    + intros Hno. split; [by apply Hout|by apply Ho].
  - split_and!; [|by left|done]. intros b. apply view_same_frame. intros p. by destruct (Hsame p) as [_ ->].
Qed.

Lemma touch_ok m held id : cache_inv m held → cache_inv (touch id m) held ∧ calm m (touch id m) ∧ page_cache_map (touch id m) = page_cache_map m.
Proof.
  intros Hi. pose proof (inv_stamp m held (wrapping_add (cache_stamp m) 1) Hi) as Hi1. unfold touch.
  destruct (inv_keep _ held held id (with_stamp (cache_stamp m)) Hi1) as [H1 H2]; [done|by left|apply (ci_held _ _ Hi)|..|done].
  - intros p Hp. apply (ci_heap _ _ Hi id p Hp).
  - intros p Hp Ho. by apply (ci_heap _ _ Hi id p Hp).
Qed.

Lemma clone_ok m held id : cache_inv m held → is_Some (heap m !! id) → cache_inv (clone_page id m) (id :: held) ∧ calm m (clone_page id m).
Proof.
  intros Hi [p0 Hp0]. apply (inv_keep m held); [done|done|..].
  - intros j. rewrite held_count_cons. destruct (decide (id = j)); [by right|left; lia].
  - intros j Hj. apply elem_of_cons in Hj as [->|Hj]; [by eexists|by apply (ci_held _ _ Hi)].
  - intros p Hp. cbn. rewrite held_count_cons. destruct (ci_heap _ _ Hi id p Hp) as (_ & _ & -> & _). destruct (decide (id = id)); [done|done].
  - intros p Hp Ho. cbn. destruct (ci_heap _ _ Hi id p Hp) as (_ & _ & -> & _). pose proof (held_count_nonneg held id). lia.
Qed.

(** Without the page [id], which nobody refers to any more. *)
Lemma inv_forget m held0 held id : cache_inv m held0 → (∀ b, page_cache_map m !! b ≠ Some id) → id ∉ held → (∀ j, j ≠ id → held_count held j = held_count held0 j) →
  cache_inv (set_heap (delete id (heap m)) m) held.
Proof.
  intros Hi Ht Hh Hc. split.
  - intros b j Hb. cbn in *. destruct (ci_table _ _ Hi b j Hb) as (p & Hp & Hr). exists p. split; [|done]. rewrite lookup_delete_ne; [done|]. intros <-. by apply (Ht b).
  - intros j p Hp. cbn in Hp. apply lookup_delete_Some in Hp as [Hne Hp]. rewrite Hc by done. apply (ci_heap _ _ Hi j p Hp).
  - intros j Hj. cbn. assert (j ≠ id) as Hne by (by intros ->). rewrite lookup_delete_ne by done. apply (ci_held _ _ Hi). apply held_count_pos. rewrite <-Hc by done. by apply held_count_pos.
  - apply (ci_disk _ _ Hi).
  - intros d. rewrite (class_ext m); [apply (ci_count _ _ Hi)|done|]. intros j b Hb. unfold class_of. cbn. rewrite lookup_delete_ne; [done|]. intros <-. by apply (Ht b).
  - apply (ci_ids _ _ Hi).
Qed.

Lemma inv_frames m held n : cache_inv m held → cache_inv (set_frames n m) held.
Proof. intros [H1 H2 H3 H4 H5 H6]. by split. Qed.

Lemma table_of_page m held b id p : cache_inv m held → page_cache_map m !! b = Some id → heap m !! id = Some p → pc_block_id p = b.
Proof. intros Hi Hb Hp. destruct (ci_table _ _ Hi b id Hb) as (p' & Hp' & <- & _). congruence. Qed.

Lemma view_forget m id b : page_cache_map m !! b ≠ Some id → view (set_heap (delete id (heap m)) m) b = view m b.
Proof. intros Hb. unfold view. cbn. destruct (page_cache_map m !! b) as [j|]; [|done]. rewrite lookup_delete_ne; [done|]. congruence. Qed.

(** Giving a reference back; a page that goes with it is discarded and writes nothing. *)
Lemma drop_ok m held id : cache_inv m (id :: held) → cache_inv (drop_page id m) held ∧ calm m (drop_page id m) ∧ page_cache_map (drop_page id m) = page_cache_map m.
Proof.
  intros Hi. unfold drop_page. destruct (ci_held _ _ Hi id) as [p Hp]; [apply elem_of_cons; by left|]. rewrite Hp.
  destruct (ci_heap _ _ Hi id p Hp) as (Hn & Hl & Hh & Hu & Ho). rewrite held_count_cons in Hh. destruct (decide (id = id)); [|done]. unfold in_table.
  assert (∀ j, held_count held j = held_count (id :: held) j ∨ j = id) as Hcount by (intros j; rewrite held_count_cons; destruct (decide (id = j)); [by right|left; lia]).
  assert (∀ j, j ∈ held → is_Some (heap m !! j)) as Hheld by (intros j Hj; apply (ci_held _ _ Hi); apply elem_of_cons; by right).
  assert (page_cache_map m !! pc_block_id p = Some id ∨ handles p ≠ 1 →
    cache_inv (on_page id (λ p, with_handles (handles p - 1) p) m) held ∧ calm m (on_page id (λ p, with_handles (handles p - 1) p) m)) as Hkeep.
  { intros Hor. apply (inv_keep m (id :: held)); [done|done|done|done|..]; intros q Hq; assert (q = p) as -> by congruence; cbn; [lia|]. intros Hb. destruct (Ho Hb), Hor; [done|lia]. }
  destruct (Z.eqb_spec (handles p) 1) as [H1|H1]; cbn [andb]; [destruct (bool_decide_reflect (page_cache_map m !! pc_block_id p = Some id)) as [Hb|Hb]; cbn [negb]|].
  - destruct Hkeep as [K1 K2]; [by left|done].
  - destruct (Ho Hb) as [_ Hdis]. assert (page_sync id m = m) as Hs by (unfold page_sync; rewrite Hp, Hdis; by destruct (block_device p)). unfold free_page. rewrite Hs.
    assert (∀ b, page_cache_map m !! b ≠ Some id) as Hno by (intros b Hb'; apply Hb; by rewrite (table_of_page _ _ b id p Hi Hb' Hp)). split; [|split; [|done]].
    + apply inv_frames, (inv_forget m (id :: held)); [done|done|rewrite <-held_count_pos; lia|]. intros j Hj. rewrite held_count_cons. destruct (decide (id = j)); [by subst|lia].
    + split_and!; [intros b; by apply (view_forget m id b)|by left|cbn; case_match; lia].
  - destruct Hkeep as [K1 K2]; [by right|done].
Qed.

(** ** Writing back *)

Lemma set_disk_eq m dev b x b' : disk (set_disk dev b x m) dev b' = if decide (b' = b) then x else disk m dev b'.
Proof. cbn. rewrite Z.eqb_refl. destruct (Z.eqb_spec b' b), (decide (b' = b)); done. Qed.

Lemma page_sync_ok m held id : cache_inv m held → cache_inv (page_sync id m) held ∧ calm m (page_sync id m) ∧ page_cache_map (page_sync id m) = page_cache_map m ∧
  (∀ b, page_cache_map m !! b = Some id → disk (page_sync id m) BLOCK_DEVICE b = view m b) ∧
  (∀ p, heap (page_sync id m) !! id = Some p → page_cache_map m !! pc_block_id p = Some id → dirty (inner p) = false).
Proof.
  intros Hi. unfold page_sync. destruct (heap m !! id) as [p|] eqn:Hp.
  2: { split_and!; [done|done|done| |congruence]. intros b Hb. destruct (ci_table _ _ Hi b id Hb) as (p & ? & _). congruence. }
  destruct (decide (page_cache_map m !! pc_block_id p = Some id)) as [Hin|Hin].
  2: { destruct (ci_heap _ _ Hi id p Hp) as (_ & _ & _ & _ & Ho). destruct (Ho Hin) as [_ ->]. cbn [orb]. assert (match block_device p with Some _ => m | None => m end = m) as -> by (by destruct (block_device p)). (split_and!; [done|done|done| |]); intros b Hb; try (by rewrite (table_of_page m held b id p Hi Hb Hp) in Hin); intros Hb2; by assert (b = p) as -> by congruence. }
  destruct (ci_table _ _ Hi _ _ Hin) as (p' & Hp' & _ & Hdev & Hdis & Hcl). assert (p' = p) as -> by congruence. rewrite Hdev, Hdis. set (b := pc_block_id p) in *. cbn [orb].
  assert (∀ c, page_cache_map m !! c = Some id → c = b) as Hone by (intros c Hc; unfold b; symmetry; by apply (table_of_page m held c id p)).
  destruct (dirty (inner p)) eqn:Hd; cbn [negb].
  2: { split_and!; [done|done|done| |intros q Hq _; by assert (q = p) as -> by congruence]. intros c Hc. rewrite (Hone c Hc). rewrite <-Hcl by done. symmetry. by apply (view_page m held b id p). }
  destruct (ci_heap _ _ Hi id p Hp) as (Hn & Hl & Hh & Hu & Ho). set (m1 := set_disk BLOCK_DEVICE b (frame (inner p)) m).
  assert (cache_inv m1 held) as Hi1.
  { split; try apply Hi.
    - intros c j Hc. destruct (ci_table _ _ Hi c j Hc) as (q & Hq & Hqb & Hqd & Hqdis & Hqcl). exists q. split_and!; try done. intros Hclean. unfold m1. rewrite set_disk_eq.
      destruct (decide (c = b)) as [->|]; [|by apply Hqcl]. assert (j = id) as -> by (cbn in Hc; congruence). congruence.
    - intros c. unfold m1. rewrite set_disk_eq. destruct (decide (c = b)); [done|apply (ci_disk _ _ Hi)]. }
  split_and!.
  - apply (inv_on_page m1 held); [done|done|by left|apply (ci_held _ _ Hi1)|]. intros q Hq. assert (q = p) as -> by (cbn in Hq; congruence). cbn [mark_clean with_inner inner frame discarded handles dirty].
    split_and!; [done|done| |done]. intros _. split; [done|]. intros _. unfold m1. rewrite set_disk_eq. fold b. by rewrite decide_True.
  - split_and!.
    + intros c. rewrite view_same_frame by done. unfold view. cbn [page_cache_map m1 set_disk heap]. destruct (page_cache_map m !! c) eqn:Hc; [done|]. unfold m1. rewrite set_disk_eq. destruct (decide (c = b)) as [->|]; [congruence|done].
    + intros c. change (disk (on_page id mark_clean m1) BLOCK_DEVICE c) with (disk m1 BLOCK_DEVICE c). unfold m1. rewrite set_disk_eq. destruct (decide (c = b)) as [->|]; [right; symmetry; by apply (view_page m held b id p)|by left].
    + done.
  - done.
  - intros c Hc. rewrite (Hone c Hc). change (disk (on_page id mark_clean m1) BLOCK_DEVICE b) with (disk m1 BLOCK_DEVICE b). unfold m1. rewrite set_disk_eq, decide_True by done. symmetry. by apply (view_page m held b id p).
  - intros q. rewrite on_page_lookup, decide_True by done. cbn [heap m1 set_disk]. rewrite Hp. intros [= <-] _. done.
Qed.

#[local] Opaque zeros.

(** ** Getting a page *)

Definition load_frame (m : Manager) (b : Z) (load : bool) : list Z := if load then disk m BLOCK_DEVICE b else zeros BLOCK_SZ.

(** The page [get_physical_page] makes of a block that has none. *)
Definition made_page (m : Manager) (b : Z) (data load : bool) : PageCache :=
  MkPage (MkInner (load_frame m b load) (negb load) (if load then Clean else Dirty) false) b (Some BLOCK_DEVICE) data 0 1 0.

Definition with_page (b : Z) (p : PageCache) (m : Manager) : Manager :=
  MkMgr (page_cache_id_map m) (<[b := next_page m]> (page_cache_map m)) (if is_data p then meta_count m else wrapping_add (meta_count m) 1) (if is_data p then wrapping_add (data_count m) 1 else data_count m)
    (meta_scan_cursor m) (data_scan_cursor m) (<[next_page m := p]> (heap m)) (S (next_page m)) (cache_stamp m) (free_frames m - 1) (disk m).

Lemma get_miss m b data load : page_cache_map m !! b = None → 0 < free_frames m →
  get_physical_page b BLOCK_DEVICE data load m = Some ((next_page m, true), touch (next_page m) (with_page b (made_page m b data load) m)).
Proof.
  destruct m as [ids pages mc dc mcur dcur hp n st fr dk]. cbn [page_cache_map free_frames]. intros Hb Hf. unfold get_physical_page, find_page. cbn [page_cache_map]. rewrite Hb. cbn [mbind option_bind].
  unfold new_loading. cbn -[zeros Z.leb publish_page load_page touch]. rewrite (proj2 (Z.leb_gt _ _)) by done. step_some. unfold publish_page, load_page, on_page. cbn -[zeros touch]. rewrite Hb, alter_insert_eq.
  do 2 f_equal. unfold touch, on_page. cbn -[zeros]. rewrite !alter_insert_eq. by destruct load, data.
Qed.

Lemma class_with_page m held b p d : cache_inv m held → page_cache_map m !! b = None →
  class_size d (with_page b p m) = class_size d m + (if Bool.eqb (is_data p) d then 1 else 0).
Proof.
  intros Hi Hb. unfold class_size. cbn [page_cache_map with_page]. set (n := next_page m).
  assert (∀ j c, page_cache_map m !! c = Some j → class_of (with_page b p m) j = class_of m j) as Hold.
  { intros j c Hc. unfold class_of. cbn [heap with_page]. destruct (ci_table _ _ Hi c j Hc) as (q & Hq & _). destruct (ci_heap _ _ Hi j q Hq) as (Hlt & _). rewrite lookup_insert_ne; [done|]. unfold n in *. lia. }
  assert (class_of (with_page b p m) n = is_data p) as Hnew by (unfold class_of; cbn [heap with_page]; fold n; by rewrite lookup_insert_eq).
  assert (filter (λ e, class_of (with_page b p m) e.2 = d) (page_cache_map m) = filter (λ e, class_of m e.2 = d) (page_cache_map m)) as Hsame by (apply map_filter_ext; intros c j Hc; cbn; by rewrite (Hold j c Hc)).
  destruct (Bool.eqb (is_data p) d) eqn:He.
  - apply eqb_prop in He. rewrite map_filter_insert_True by (cbn; congruence). rewrite Hsame, map_size_insert_None; [lia|]. apply map_lookup_filter_None. by left.
  - apply eqb_false_iff in He. rewrite map_filter_insert_False by (cbn; congruence). rewrite delete_id by done. rewrite Hsame. lia.
Qed.

Lemma inv_with_page m held b p : cache_inv m held → page_cache_map m !! b = None → pc_block_id p = b → block_device p = Some BLOCK_DEVICE → discarded (inner p) = false →
  (dirty (inner p) = false → frame (inner p) = disk m BLOCK_DEVICE b) → len (frame (inner p)) = BLOCK_SZ → handles p = 1 → frame_users p = 0 →
  cache_inv (with_page b p m) (next_page m :: held).
Proof.
  intros Hi Hb Hpb Hdev Hdis Hcl Hl Hh Hu. set (n := next_page m).
  assert (n ∉ held) as Hn by (intros Hin; destruct (ci_held _ _ Hi n Hin) as [q Hq]; destruct (ci_heap _ _ Hi n q Hq); unfold n in *; lia).
  assert (held_count held n = 0) as Hn0 by (pose proof (held_count_nonneg held n); rewrite <-held_count_pos in Hn; lia). split.
  - intros c j. cbn [page_cache_map with_page heap disk]. intros Hc. apply lookup_insert_Some in Hc as [[<- <-]|[Hne Hc]]; [exists p; by rewrite lookup_insert_eq|].
    destruct (ci_table _ _ Hi c j Hc) as (q & Hq & Hr). exists q. split; [|done]. destruct (ci_heap _ _ Hi j q Hq) as (Hlt & _). rewrite lookup_insert_ne; [done|]. lia.
  - intros j q. cbn [page_cache_map with_page heap disk next_page]. fold n. intros Hq. apply lookup_insert_Some in Hq as [[<- <-]|[Hne Hq]].
    + rewrite held_count_cons, decide_True by done. split_and!; [lia|done|lia|lia|]. intros Hno. exfalso. apply Hno. rewrite Hpb. apply lookup_insert_eq.
    + destruct (ci_heap _ _ Hi j q Hq) as (A1 & A2 & A3 & A4 & A5). rewrite held_count_cons, decide_False by done. split_and!; [unfold n; lia|done|lia|done|]. intros Hno. apply A5. intros Hyes. apply Hno. rewrite lookup_insert_ne; [done|]. congruence.
  - intros j Hj. cbn. fold n. destruct (decide (j = n)) as [->|]; [by rewrite lookup_insert_eq|]. rewrite lookup_insert_ne by done. apply elem_of_cons in Hj as [?|Hj]; [done|]. by apply (ci_held _ _ Hi).
  - apply (ci_disk _ _ Hi).
  - intros d. rewrite (class_with_page m held) by done. pose proof (ci_count _ _ Hi d) as Hc. cbn [data_count meta_count with_page]. destruct d, (is_data p); cbn [Bool.eqb]; rewrite ?Z.add_0_r; try done; rewrite Hc; unfold wrapping_add; by rewrite Z.add_mod_idemp_l.
  - apply (ci_ids _ _ Hi).
Qed.

Lemma get_page_ok m held b data : cache_inv m held → 0 < free_frames m →
  ∃ id c m', get_physical_page b BLOCK_DEVICE data true m = Some ((id, c), m') ∧ cache_inv m' (id :: held) ∧ page_cache_map m' !! b = Some id ∧
    (∀ c, view m' c = view m c) ∧ (∀ c, disk m' BLOCK_DEVICE c = disk m BLOCK_DEVICE c) ∧ free_frames m - 1 ≤ free_frames m'.
Proof.
  intros Hi Hf. destruct (page_cache_map m !! b) as [id|] eqn:Hb.
  - unfold get_physical_page, find_page. rewrite Hb. step_some. destruct (ci_table _ _ Hi b id Hb) as (p & Hp & _). destruct (clone_ok m held id Hi) as [Hi1 (V1 & _ & F1)]; [by eexists|].
    destruct (touch_ok (clone_page id m) (id :: held) id Hi1) as (Hi2 & (V2 & _ & F2) & Hm). eexists _, _, _. split; [done|]. split_and!; [done|by rewrite Hm|intros c; by rewrite V2|done|lia].
  - rewrite get_miss by done. eexists _, _, _. split; [done|]. set (p := made_page m b data true).
    assert (cache_inv (with_page b p m) (next_page m :: held)) as Hi1 by (apply inv_with_page; try done; apply (ci_disk _ _ Hi)).
    destruct (touch_ok _ _ (next_page m) Hi1) as (Hi2 & (V2 & _ & F2) & Hm). split_and!; [done|rewrite Hm; apply lookup_insert_eq| |done|done].
    intros c. rewrite V2. unfold view. cbn [page_cache_map with_page heap disk]. destruct (decide (b = c)) as [<-|Hne]; [rewrite !lookup_insert_eq, Hb; done|]. rewrite lookup_insert_ne by done.
    destruct (page_cache_map m !! c) as [j|] eqn:Hc; [|done]. destruct (ci_table _ _ Hi c j Hc) as (q & Hq & _). destruct (ci_heap _ _ Hi j q Hq) as (Hlt & _). rewrite lookup_insert_ne by lia. done.
Qed.

(** ** Taking a page out of the table *)

Lemma class_delete m held b id p d : cache_inv m held → page_cache_map m !! b = Some id → heap m !! id = Some p →
  Z.of_nat (base.size (filter (λ e, class_of m e.2 = d) (delete b (page_cache_map m)))) = class_size d m - (if Bool.eqb (is_data p) d then 1 else 0).
Proof.
  intros Hi Hb Hp. unfold class_size. assert (class_of m id = is_data p) as Hc by (unfold class_of; by rewrite Hp). rewrite map_filter_delete. destruct (Bool.eqb (is_data p) d) eqn:He.
  - apply eqb_prop in He. assert (filter (λ e, class_of m e.2 = d) (page_cache_map m) !! b = Some id) as Hf by (apply map_lookup_filter_Some; split; [done|cbn; congruence]).
    rewrite map_size_delete_Some by (by eexists). assert (base.size (filter (λ e, class_of m e.2 = d) (page_cache_map m)) ≠ 0%nat) as Hnz by (intros H0; apply map_size_empty_inv in H0; rewrite H0 in Hf; by apply lookup_empty_Some in Hf). lia.
  - apply eqb_false_iff in He. rewrite delete_id; [lia|]. apply map_lookup_filter_None. right. intros x Hx. assert (x = id) as -> by congruence. cbn. congruence.
Qed.

(** The page [id] of block [b] leaves the table, and the heap unless someone holds it. *)
Lemma inv_unlist m m' held held' b id p : cache_inv m held → page_cache_map m !! b = Some id → heap m !! id = Some p →
  page_cache_map m' = delete b (page_cache_map m) → page_cache_id_map m' = ids_remove_block (page_cache_id_map m) b → next_page m' = next_page m → disk m' = disk m →
  (∀ d : bool, (if d then data_count m' else meta_count m') = wrapping_add (if d then data_count m else meta_count m) (if Bool.eqb (is_data p) d then -1 else 0)) →
  (∀ j, j ≠ id → heap m' !! j = heap m !! j ∧ held_count held' j = held_count held j) →
  (heap m' !! id = None ∧ id ∉ held' ∨
   ∃ p', heap m' !! id = Some p' ∧ pc_block_id p' = b ∧ len (frame (inner p')) = BLOCK_SZ ∧ handles p' = held_count held' id ∧ 0 ≤ frame_users p' ∧ 0 < handles p' ∧ discarded (inner p') = true) →
  cache_inv m' held' ∧ (∀ c, view m' c = if decide (c = b) then disk m BLOCK_DEVICE b else view m c).
Proof.
  intros Hi Hb Hp Hmap Hids Hnext Hdisk Hcount Hheap Hid.
  assert (∀ c j, page_cache_map m' !! c = Some j → page_cache_map m !! c = Some j ∧ j ≠ id) as Hold.
  { intros c j. rewrite Hmap. intros Hc. apply lookup_delete_Some in Hc as [Hne Hc]. split; [done|]. intros ->. apply Hne. by rewrite <-(table_of_page m held c id p), <-(table_of_page m held b id p). }
  split; [split|].
  - intros c j Hc. destruct (Hold c j Hc) as [Hc0 Hne]. destruct (ci_table _ _ Hi c j Hc0) as (q & Hq & Hr). exists q. rewrite (proj1 (Hheap j Hne)), Hdisk. done.
  - intros j q Hq. rewrite Hnext. destruct (decide (j = id)) as [->|Hne].
    + destruct Hid as [[Hno _]|(p' & Hp' & A1 & A2 & A3 & A4 & A5 & A6)]; [congruence|]. assert (q = p') as -> by congruence. split_and!; try done. apply (ci_heap _ _ Hi id p Hp).
    + destruct (Hheap j Hne) as [E1 E2]. rewrite E1 in Hq. destruct (ci_heap _ _ Hi j q Hq) as (A1 & A2 & A3 & A4 & A5). rewrite E2. split_and!; try done. intros Hno. apply A5. intros Hyes. apply Hno. rewrite Hmap, lookup_delete_ne; [done|]. congruence.
  - intros j Hj. destruct (decide (j = id)) as [->|Hne]; [destruct Hid as [[_ ?]|(p' & -> & _)]; [done|by eexists]|]. destruct (Hheap j Hne) as [-> E2]. apply (ci_held _ _ Hi). apply held_count_pos. rewrite <-E2. by apply held_count_pos.
  - rewrite Hdisk. apply (ci_disk _ _ Hi).
  - intros d. rewrite Hcount, (ci_count _ _ Hi d). unfold class_size at 2. rewrite Hmap.
    assert (filter (λ e, class_of m' e.2 = d) (delete b (page_cache_map m)) = filter (λ e, class_of m e.2 = d) (delete b (page_cache_map m))) as ->; [apply map_filter_ext|].
    2: { rewrite (class_delete m held b id p) by done. unfold wrapping_add. rewrite Z.add_mod_idemp_l by lia. f_equal. destruct (Bool.eqb (is_data p) d); lia. }
    intros c j Hc. rewrite <-Hmap in Hc. destruct (Hold c j Hc) as [_ Hne]. unfold class_of. cbn. by rewrite (proj1 (Hheap j Hne)).
  - rewrite Hids. by apply ids_remove_block_ok, (ci_ids _ _ Hi).
  - intros c. unfold view. rewrite Hmap, Hdisk. destruct (decide (c = b)) as [->|Hne]; [by rewrite lookup_delete_eq|]. rewrite lookup_delete_ne by done. destruct (page_cache_map m !! c) as [j|] eqn:Hc; [|done].
    destruct (Hold c j) as [_ Hj]; [rewrite Hmap, lookup_delete_ne; done|]. by rewrite (proj1 (Hheap j Hj)).
Qed.

Lemma evict_ok m held b : cache_inv m held → cache_inv (try_evict b m).2 held ∧ calm m (try_evict b m).2.
Proof.
  intros Hi. unfold try_evict, evict_begin. destruct (page_cache_map m !! b) as [id|] eqn:Hb; [|done]. destruct (ci_table _ _ Hi b id Hb) as (p & Hp & Hpb & _). rewrite Hp.
  destruct (Z.eqb_spec (handles p) 0) as [H0|]; [|done]. cbn [negb]. destruct (clone_ok m held id Hi) as [Hi1 C1]; [by eexists|]. set (m1 := clone_page id m) in *.
  destruct (page_sync_ok m1 (id :: held) id Hi1) as (Hi2 & C2 & Hm2 & Hd2 & Hcl2). set (m2 := page_sync id m1) in *. destruct (ci_table _ _ Hi2 b id) as (p2 & Hp2 & Hpb2 & _); [by rewrite Hm2|]. rewrite Hp2.
  assert (calm m m2) as C12 by (by transitivity m1). destruct (negb (frame_users p2 =? 0)) eqn:Hu.
  { destruct (drop_ok m2 held id Hi2) as (Hi3 & C3 & _). split; [done|]. by transitivity m2. }
  unfold evict_remove. rewrite Hp2, Hm2. change (page_cache_map m1) with (page_cache_map m). rewrite bool_decide_true by done.
  destruct (ci_heap _ _ Hi id p Hp) as (_ & _ & Hh & _). destruct (ci_heap _ _ Hi2 id p2 Hp2) as (_ & _ & Hh2 & Hu2 & _). rewrite held_count_cons, decide_True in Hh2 by done. rewrite (proj2 (Z.eqb_eq _ _)) by lia. cbn [andb snd].
  set (m3 := set_ids _ _). assert (drop_page id m3 = set_frames (if frame_users p2 =? 0 then free_frames m2 + 1 else free_frames m2) (set_heap (delete id (heap m2)) m3)) as ->.
  { unfold drop_page. change (heap m3) with (heap m2). rewrite Hp2. rewrite (proj2 (Z.eqb_eq _ _)) by lia. unfold in_table. rewrite Hpb2. change (page_cache_map m3) with (delete b (page_cache_map m)). rewrite lookup_delete_eq. cbn [andb negb bool_decide].
    rewrite bool_decide_false by done. cbn [negb]. unfold free_page. assert (page_sync id m3 = m3) as -> by (unfold page_sync; change (heap m3) with (heap m2); rewrite Hp2, (Hcl2 p2 Hp2) by (by rewrite Hpb2); cbn; rewrite orb_true_r; by destruct (block_device p2)). done. }
  destruct (inv_unlist m2 (set_frames (if frame_users p2 =? 0 then free_frames m2 + 1 else free_frames m2) (set_heap (delete id (heap m2)) m3)) (id :: held) held b id p2) as [Hi4 Hv4]; try done; try (by rewrite Hm2).
  - intros d. cbn. destruct d, (is_data p2); cbn; unfold wrapping_add; rewrite ?Z.add_0_r; try done; pose proof (ci_count _ _ Hi2 true) as Hct; pose proof (ci_count _ _ Hi2 false) as Hcm; cbn in Hct, Hcm; rewrite ?Hct, ?Hcm, Z.mod_mod by lia; done.
  - intros j Hj. cbn. rewrite lookup_delete_ne, held_count_cons by done. destruct (decide (id = j)); [by subst|]. split; [done|lia].
  - left. cbn. rewrite lookup_delete_eq. split; [done|]. rewrite <-held_count_pos. lia.
  - split; [done|]. transitivity m2; [done|]. split_and!; [|by left|cbn; case_match; lia]. intros c. rewrite Hv4. destruct (decide (c = b)) as [->|]; [|done].
    rewrite (Hd2 b Hb). symmetry. apply C2.
Qed.

Lemma invalidate_ok m held b : cache_inv m held →
  cache_inv (invalidate_block b m) held ∧ (∀ c, view (invalidate_block b m) c = if decide (c = b) then disk m BLOCK_DEVICE b else view m c) ∧
  disk (invalidate_block b m) = disk m ∧ free_frames m ≤ free_frames (invalidate_block b m).
Proof.
  intros Hi. unfold invalidate_block. destruct (page_cache_map m !! b) as [id|] eqn:Hb.
  2: { split; [apply inv_ids; [done|]; by apply ids_remove_block_ok, (ci_ids _ _ Hi)|]. split_and!; [|done|done]. intros c. change (view (set_ids _ m) c) with (view m c).
    destruct (decide (c = b)) as [->|]; [|done]. unfold view. by rewrite Hb. }
  destruct (ci_table _ _ Hi b id Hb) as (p & Hp & Hpb & Hdev & Hdis & _). rewrite Hp. destruct (ci_heap _ _ Hi id p Hp) as (Hn & Hl & Hh & Hu & _).
  set (m1 := set_map _ _). assert (heap m1 = alter mark_discarded id (heap m)) as Hheap1 by done. assert (page_cache_map m1 = delete b (page_cache_map m)) as Hmap1 by done.
  assert (heap m1 !! id = Some (mark_discarded p)) as Hp1 by (by rewrite Hheap1, lookup_alter_eq, Hp).
  assert (∀ d : bool, (if d then data_count m1 else meta_count m1) = wrapping_add (if d then data_count m else meta_count m) (if Bool.eqb (is_data p) d then -1 else 0)) as Hcount.
  { intros d. pose proof (ci_count _ _ Hi true) as Hct. pose proof (ci_count _ _ Hi false) as Hcm. cbn in *. destruct d, (is_data p); cbn; unfold wrapping_add; rewrite ?Z.add_0_r; try done; by rewrite ?Hct, ?Hcm, Z.mod_mod by lia. }
  destruct (Z.eqb_spec (handles p) 0) as [H0|H0].
  - unfold free_page. assert (page_sync id m1 = m1) as -> by (unfold page_sync; rewrite Hp1; cbn; by destruct (block_device p)).
    set (m2 := set_ids _ _). assert (heap m2 = delete id (heap m1)) as Hheap2 by done.
    destruct (inv_unlist m m2 held held b id p) as [Hi2 Hv2]; try done.
    + intros j Hj. rewrite Hheap2, Hheap1, lookup_delete_ne, lookup_alter_ne by done. done.
    + left. rewrite Hheap2, lookup_delete_eq. split; [done|]. rewrite <-held_count_pos. lia.
    + split_and!; [done|done|done|]. cbn. case_match; lia.
  - set (m2 := set_ids _ _). destruct (inv_unlist m m2 held held b id p) as [Hi2 Hv2]; try done.
    + intros j Hj. change (heap m2) with (heap m1). rewrite Hheap1, lookup_alter_ne by done. done.
    + right. exists (mark_discarded p). pose proof (held_count_nonneg held id). split_and!; try done. cbn. lia.
Qed.

(** ** Changing a page *)

Lemma write_page_ok m held b id buf : cache_inv m held → page_cache_map m !! b = Some id → len buf ≤ BLOCK_SZ →
  ∃ m', write_page id buf m = Some m' ∧ cache_inv m' held ∧ page_cache_map m' = page_cache_map m ∧
    (∀ c, view m' c = if decide (c = b) then splice 0 buf (view m b) else view m c) ∧ disk m' = disk m ∧ free_frames m' = free_frames m.
Proof.
  intros Hi Hb Hbuf. destruct (ci_table _ _ Hi b id Hb) as (p & Hp & Hpb & Hdev & Hdis & _). destruct (ci_heap _ _ Hi id p Hp) as (Hn & Hl & Hh & Hu & Ho).
  unfold write_page. rewrite Hp. step_some. rewrite put_in by lia. step_some. eexists. split; [done|].
  assert (∀ c, page_cache_map m !! c = Some id → c = b) as Hone by (intros c Hc; by rewrite <-(table_of_page m held c id p), Hpb).
  split_and!; [|done| |done|done].
  - apply (inv_on_page m held); [done|done|by left|apply (ci_held _ _ Hi)|]. intros q Hq. assert (q = p) as -> by congruence. cbn. split_and!; [rewrite len_splice; lia|done|done|]. rewrite Hpb. done.
  - intros c. rewrite view_on_page. destruct (decide (c = b)) as [->|Hc].
    + rewrite Hb, Hp, decide_True by done. cbn. f_equal. symmetry. by apply (view_page m held b id p).
    + unfold view. destruct (page_cache_map m !! c) as [j|] eqn:Hj; [|done]. destruct (heap m !! j); [|done]. rewrite decide_False; [done|]. intros ->. by apply Hc, Hone.
Qed.

(** ** Making room *)

Lemma evict_first_ok cs : ∀ m held, cache_inv m held → cache_inv (evict_first cs m) held ∧ calm m (evict_first cs m).
Proof.
  induction cs as [|[s b] cs IH]; intros m held Hi; [done|]. cbn [evict_first]. destruct (evict_ok m held b Hi) as [Hi1 C1]. destruct (try_evict b m) as [r m1]. cbn in *. destruct r; [done|].
  destruct (IH m1 held Hi1) as [Hi2 C2]. split; [done|]. by transitivity m1.
Qed.

Lemma trim_cache_ok m held limit d : cache_inv m held → cache_inv (trim_cache limit d m) held ∧ calm m (trim_cache limit d m).
Proof.
  intros Hi. unfold trim_cache. destruct (_ <=? limit); [done|]. destruct (evict_first_ok (candidates (if d then data_scan_cursor m else meta_scan_cursor m) d m) _ held (inv_cursor m held d (wrapping_add (if d then data_scan_cursor m else meta_scan_cursor m) (Z.of_nat SCAN_LIMIT)) Hi)) as [H1 H2].
  split; [done|exact H2].
Qed.

Lemma free_data_pages_ok count : ∀ m held, cache_inv m held → cache_inv (free_data_pages count m).2 held ∧ calm m (free_data_pages count m).2.
Proof.
  induction count as [|count IH]; intros m held Hi; [done|]. cbn [free_data_pages]. destruct (oldest_data m) as [[s b]|]; [|done]. destruct (evict_ok m held b Hi) as [Hi1 C1]. destruct (try_evict b m) as [r m1]. cbn [snd] in *.
  destruct r; [|done]. destruct (IH m1 held Hi1) as [Hi2 C2]. destruct (free_data_pages count m1) as [k m2]. cbn [snd] in *. split; [done|]. by transitivity m1.
Qed.

(** ** Syncing everything *)

(** The blocks of a list of table entries are on the device after the syncs. *)
Lemma sync_list_ok es : ∀ m held, cache_inv m held → (∀ e, e ∈ es → page_cache_map m !! e.1 = Some e.2) →
  let m' := foldl (λ m e, page_sync e.2 m) m es in
  cache_inv m' held ∧ calm m m' ∧ page_cache_map m' = page_cache_map m ∧ ∀ b, (disk m BLOCK_DEVICE b = view m b ∨ b ∈ es.*1) → disk m' BLOCK_DEVICE b = view m b.
Proof.
  induction es as [|[b id] es IH]; intros m held Hi Hes; cbn [foldl].
  { split_and!; [done|done|done|]. intros b [Hb|Hb]; [done|]. by apply not_elem_of_nil in Hb. }
  destruct (page_sync_ok m held id Hi) as (Hi1 & C1 & Hm1 & Hd1 & _). destruct (IH (page_sync id m) held Hi1) as (Hi2 & C2 & Hm2 & Hd2).
  { intros e He. rewrite Hm1. apply Hes. apply elem_of_cons. by right. }
  cbn [snd]. split_and!; [done|by transitivity (page_sync id m)|by rewrite Hm2|]. intros c Hc. destruct C1 as (V1 & D1 & F1). rewrite Hd2; [apply V1|]. destruct Hc as [Hc|Hc].
  - left. rewrite V1. destruct (D1 c) as [->| ->]; done.
  - cbn in Hc. apply elem_of_cons in Hc as [->|Hc]; [|by right]. left. rewrite V1. apply Hd1. apply (Hes (b, id)). apply elem_of_cons. by left.
Qed.

Definition at_cursor (l : list (Z * nat)) (cursor : option Z) : Prop := cursor = fst <$> last l.

Lemma filter_keep {A} (P : A → Prop) `{!∀ x, Decision (P x)} (l : list A) : (∀ x, x ∈ l → P x) → filter P l = l.
Proof. induction l as [|x l IH]; intros Hl; [done|]. rewrite filter_cons_True by (apply Hl, elem_of_cons; by left). f_equal. apply IH. intros y Hy. apply Hl, elem_of_cons. by right. Qed.

Lemma filter_drop {A} (P : A → Prop) `{!∀ x, Decision (P x)} (l : list A) : (∀ x, x ∈ l → ¬ P x) → filter P l = [].
Proof. induction l as [|x l IH]; intros Hl; [done|]. rewrite filter_cons_False by (apply Hl, elem_of_cons; by left). apply IH. intros y Hy. apply Hl, elem_of_cons. by right. Qed.

Lemma after_cursor (es l rest : list (Z * nat)) cursor : ascending es → es = l ++ rest → at_cursor l cursor → filter (λ e, after cursor e.1) es = rest.
Proof.
  intros Hasc -> ->. rewrite filter_app. destruct (last l) as [[k x]|] eqn:Hl; cbn [fmap option_fmap option_map fst after].
  - apply last_Some in Hl as [l' ->]. rewrite <-app_assoc in Hasc. destruct (ascending_app l' rest (k, x) Hasc) as (_ & H1 & H2). rewrite filter_drop, filter_keep; [done|..].
    + intros e He. apply Is_true_true, Z.ltb_lt. exact (H2 e He).
    + intros e He. rewrite Is_true_true, Z.ltb_lt. apply elem_of_app in He as [He|He]; [specialize (H1 e He); cbn in H1; lia|]. apply list_elem_of_singleton in He as ->. cbn. lia.
  - apply last_None in Hl as ->. by apply filter_keep.
Qed.

(** The loop ends, and then everything is on the device. *)
Lemma sync_batches_ok fuel : ∀ m held l rest cursor, cache_inv m held → bt_entries (page_cache_map m) = l ++ rest → at_cursor l cursor → (length rest < fuel)%nat →
  (∀ b, b ∈ l.*1 → disk m BLOCK_DEVICE b = view m b) →
  ∃ m', sync_batches fuel cursor m = Some m' ∧ cache_inv m' held ∧ calm m m' ∧ ∀ b, disk m' BLOCK_DEVICE b = view m b.
Proof.
  induction fuel as [|fuel IH]; intros m held l rest cursor Hi He Hc Hf Hdone; [lia|]. cbn [sync_batches].
  rewrite (after_cursor _ l rest) by (done || apply bt_entries_ascending). destruct (last (take SYNC_BATCH rest)) as [[k x]|] eqn:Hl.
  - set (batch := take SYNC_BATCH rest) in *. assert (rest = batch ++ drop SYNC_BATCH rest) as Hrest by (unfold batch; by rewrite take_drop).
    destruct (sync_list_ok batch m held Hi) as (Hi1 & C1 & Hm1 & Hd1).
    { intros [b id] Hin. cbn. apply elem_of_entries. rewrite He. apply elem_of_app. right. rewrite Hrest. apply elem_of_app. by left. }
    set (m1 := foldl _ m batch) in *. destruct C1 as (V1 & D1 & F1). assert (0 < length batch)%nat as Hpos by (destruct batch; [done|cbn; lia]).
    destruct (IH m1 held (l ++ batch) (drop SYNC_BATCH rest) (Some k)) as (m' & Hs & Hi' & (V2 & D2 & F2) & Hall); try done.
    + rewrite Hm1, <-app_assoc, <-Hrest. done.
    + unfold at_cursor. by rewrite last_app, Hl.
    + rewrite Hrest, length_app in Hf. lia.
    + intros b Hb. rewrite V1. apply Hd1. rewrite fmap_app in Hb. apply elem_of_app in Hb as [Hb|Hb]; [left; by apply Hdone|by right].
    + exists m'. split; [done|]. split; [done|]. split; [|intros b; by rewrite Hall]. split; [intros b; by rewrite V2|]. split; [|lia]. intros b. right. by rewrite Hall.
  - exists m. split_and!; [done|done|done|]. apply last_None in Hl. assert (rest = []) as -> by (destruct rest; [done|discriminate Hl]). rewrite app_nil_r in He. intros b.
    destruct (page_cache_map m !! b) as [id|] eqn:Hb; [|unfold view; by rewrite Hb]. apply Hdone. rewrite <-He. apply list_elem_of_fmap. exists (b, id). split; [done|]. by apply elem_of_entries.
Qed.

Lemma sync_all_ok m held : cache_inv m held → ∃ m', sync_all m = Some m' ∧ cache_inv m' held ∧ calm m m' ∧ ∀ b, disk m' BLOCK_DEVICE b = view m b.
Proof.
  intros Hi. apply (sync_batches_ok _ m held [] (bt_entries (page_cache_map m)) None); try done; [|intros b Hb; by apply not_elem_of_nil in Hb].
  unfold sync_fuel. rewrite (Permutation_length (bt_entries_perm _)), length_map_to_list. lia.
Qed.

(** ** The methods of a device *)

Lemma inv_perm m held held' : cache_inv m held → held ≡ₚ held' → cache_inv m held'.
Proof.
  intros Hi Hp. assert (∀ id, held_count held' id = held_count held id) as Hc by (intros id; unfold held_count; by rewrite Hp). destruct Hi as [H1 H2 H3 H4 H5 H6]. split; try done.
  - intros id p Hq. rewrite Hc. by apply H2.
  - intros id Hin. apply H3. by rewrite Hp.
Qed.

Lemma read_through_ok m held b data n : cache_inv m held → 0 < free_frames m → 0 ≤ n ≤ BLOCK_SZ →
  ∃ m', ('((id, _), m) ← get_physical_page b BLOCK_DEVICE data true m; buf ← read_page id n m; Some (buf, drop_page id m)) = Some (seg 0 n (view m b), m') ∧
    cache_inv m' held ∧ (∀ c, view m' c = view m c) ∧ (∀ c, disk m' BLOCK_DEVICE c = disk m BLOCK_DEVICE c ∨ disk m' BLOCK_DEVICE c = view m c) ∧ free_frames m - 1 ≤ free_frames m'.
Proof.
  intros Hi Hf Hn. destruct (get_page_ok m held b data Hi Hf) as (id & c & m1 & -> & Hi1 & Hb & V1 & D1 & F1). step_some. destruct (ci_table _ _ Hi1 b id Hb) as (p & Hp & _).
  unfold read_page. rewrite Hp. step_some. destruct (ci_heap _ _ Hi1 id p Hp) as (_ & Hl & _). rewrite slice_ok by lia. step_some.
  destruct (drop_ok m1 held id Hi1) as (Hi2 & (V2 & D2 & F2) & _). eexists. split; [rewrite <-(V1 b), (view_page m1 (id :: held) b id p) by done; done|].
  split_and!; [done|intros d; by rewrite V2| |lia]. intros d. destruct (D2 d) as [->| ->]; [left; apply D1|right; apply V1].
Qed.

Lemma write_through_ok m held b data buf : cache_inv m held → 0 < free_frames m → len buf ≤ BLOCK_SZ →
  ∃ m', ('((id, _), m) ← get_physical_page b BLOCK_DEVICE data true m; m ← write_page id buf m; Some (drop_page id m)) = Some m' ∧
    cache_inv m' held ∧ (∀ c, view m' c = if decide (c = b) then splice 0 buf (view m b) else view m c) ∧
    (∀ c, disk m' BLOCK_DEVICE c = disk m BLOCK_DEVICE c ∨ disk m' BLOCK_DEVICE c = view m' c) ∧ free_frames m - 1 ≤ free_frames m'.
Proof.
  intros Hi Hf Hl. destruct (get_page_ok m held b data Hi Hf) as (id & c & m1 & -> & Hi1 & Hb & V1 & D1 & F1). step_some.
  destruct (write_page_ok m1 (id :: held) b id buf Hi1 Hb Hl) as (m2 & -> & Hi2 & Hm2 & V2 & D2 & F2). step_some. destruct (drop_ok m2 held id Hi2) as (Hi3 & (V3 & D3 & F3) & _). eexists. split; [done|].
  split_and!; [done| | |lia].
  - intros d. rewrite V3, V2. destruct (decide (d = b)); by rewrite V1.
  - intros d. destruct (D3 d) as [->| ->]; [left; by rewrite D2, D1|right; by rewrite V3].
Qed.

Lemma read_block_eq b n m : read_block b n m = ('((id, _), m) ← get_physical_page b BLOCK_DEVICE false true m; buf ← read_page id n m; Some (buf, drop_page id m)).
Proof. unfold read_block, get_block_cache. by destruct (get_physical_page b BLOCK_DEVICE false true m) as [[[id c] m1]|]. Qed.

Lemma read_data_block_eq b n m : read_data_block b n m = ('((id, _), m) ← get_physical_page b BLOCK_DEVICE true true m; buf ← read_page id n m; Some (buf, drop_page id m)).
Proof. unfold read_data_block, get_data_block_cache. by destruct (get_physical_page b BLOCK_DEVICE true true m) as [[[id c] m1]|]. Qed.

Lemma write_block_eq b buf m : write_block b buf m = ('((id, _), m) ← get_physical_page b BLOCK_DEVICE false true m; m ← write_page id buf m; Some (drop_page id m)).
Proof. unfold write_block, get_block_cache. by destruct (get_physical_page b BLOCK_DEVICE false true m) as [[[id c] m1]|]. Qed.

Lemma write_data_block_eq b buf m : write_data_block b buf m = ('((id, _), m) ← get_physical_page b BLOCK_DEVICE true true m; m ← write_page id buf m; Some (drop_page id m)).
Proof. unfold write_data_block, get_data_block_cache. by destruct (get_physical_page b BLOCK_DEVICE true true m) as [[[id c] m1]|]. Qed.

Module CacheProps.

(** ** The cache as an array of blocks *)

(** What clients and the kernel do: [Hold] keeps a page, [Release] gives the [i]-th one
    back. *)
Inductive cache_op :=
  | Read (data : bool) (b n : Z)
  | Write (data : bool) (b : Z) (buf : list Z)
  | Hold (data : bool) (b : Z)
  | Release (i : nat)
  | Trim
  | FreeUp (count : nat)
  | Discard (b : Z)
  | SyncAll.

Definition op_ok (op : cache_op) : Prop :=
  match op with
  | Read _ _ n => 0 ≤ n ≤ BLOCK_SZ
  | Write _ _ buf => len buf ≤ BLOCK_SZ
  | _ => True
  end.

Definition cache_run (m : Manager) (held : list nat) (op : cache_op) : option (option (list Z) * (Manager * list nat)) :=
  match op with
  | Read data b n => '(buf, m) ← (if data then read_data_block b n m else read_block b n m); Some (Some buf, (m, held))
  | Write data b buf => m ← (if data then write_data_block b buf m else write_block b buf m); Some (None, (m, held))
  | Hold data b => '(id, m) ← (if data then get_data_block_cache b BLOCK_DEVICE m else get_block_cache b BLOCK_DEVICE m); Some (None, (m, id :: held))
  | Release i => Some (None, match held !! i with Some id => (drop_page id m, delete i held) | None => (m, held) end)
  | Trim => Some (None, (trim_caches m, held))
  | FreeUp count => Some (None, ((free_data_pages count m).2, held))
  | Discard b => Some (None, (invalidate_block b m, held))
  | SyncAll => m ← sync_all m; Some (None, (m, held))
  end.

(** The array [V] that the kernel sees and the device [D].  A step may bring any block of
    the device up to date; a discarded block falls back to the device. *)
Definition cache_spec (V D : Z → list Z) (op : cache_op) (r : option (list Z)) (V' D' : Z → list Z) : Prop :=
  (∀ b, D' b = D b ∨ D' b = V' b) ∧
  match op with
  | Read _ b n => r = Some (seg 0 n (V b)) ∧ ∀ c, V' c = V c
  | Write _ b buf => ∀ c, V' c = if decide (c = b) then splice 0 buf (V b) else V c
  | Discard b => ∀ c, V' c = if decide (c = b) then D b else V c
  | SyncAll => ∀ c, V' c = V c ∧ D' c = V c
  | _ => ∀ c, V' c = V c
  end.

Inductive cache_trace : Manager → list nat → list cache_op → Prop :=
  | trace_nil m held : cache_inv m held → cache_trace m held []
  | trace_cons m held op ops r m' held' : cache_inv m held → cache_run m held op = Some (r, (m', held')) →
    cache_spec (view m) (disk m BLOCK_DEVICE) op r (view m') (disk m' BLOCK_DEVICE) → cache_trace m' held' ops → cache_trace m held (op :: ops).

Lemma calm_spec m m' op : calm m m' → match op with Hold _ _ | Release _ | Trim | FreeUp _ => True | _ => False end →
  cache_spec (view m) (disk m BLOCK_DEVICE) op None (view m') (disk m' BLOCK_DEVICE).
Proof. intros (V & D & _) Hop. split; [intros b; rewrite V; apply D|]. by destruct op. Qed.

Lemma cache_step m held op : cache_inv m held → op_ok op → 0 < free_frames m →
  ∃ r m' held', cache_run m held op = Some (r, (m', held')) ∧ cache_inv m' held' ∧ cache_spec (view m) (disk m BLOCK_DEVICE) op r (view m') (disk m' BLOCK_DEVICE) ∧ free_frames m - 1 ≤ free_frames m'.
Proof.
  intros Hi Hop Hf. destruct op as [data b n|data b buf|data b|i| |count|b|]; cbn [cache_run op_ok] in *.
  - destruct (read_through_ok m held b data n Hi Hf Hop) as (m' & Hr & Hi' & V & D & F). exists (Some (seg 0 n (view m b))), m', held. split; [|split; [done|split; [split; [intros c; rewrite V; apply D|done]|done]]].
    destruct data; rewrite ?read_data_block_eq, ?read_block_eq, Hr; done.
  - destruct (write_through_ok m held b data buf Hi Hf Hop) as (m' & Hr & Hi' & V & D & F). exists None, m', held. split; [|split; [done|split; [split; [apply D|apply V]|done]]]. destruct data; rewrite ?write_data_block_eq, ?write_block_eq, Hr; done.
  - destruct (get_page_ok m held b data Hi Hf) as (id & c & m' & Hg & Hi' & _ & V & D & F). exists None, m', (id :: held). split; [destruct data; unfold get_data_block_cache, get_block_cache; rewrite Hg; done|].
    split; [done|]. split; [|done]. split; [left; by rewrite D|done].
  - destruct (held !! i) as [id|] eqn:Hid; [|eexists _, m, held; split; [done|]; split; [done|]; split; [split; [by left|done]|lia]].
    pose proof (delete_Permutation held i id Hid) as Hp. destruct (drop_ok m (delete i held) id) as (Hi' & C & _); [by apply (inv_perm m held)|].
    eexists _, _, _. split; [done|]. split; [done|]. split; [by apply calm_spec|]. destruct C as (_ & _ & F). lia.
  - unfold trim_caches. destruct (trim_cache_ok m held DATA_CACHE_SIZE true Hi) as [Hi1 C1]. destruct (trim_cache_ok _ held META_CACHE_SIZE false Hi1) as [Hi2 C2]. assert (calm m (trim_cache META_CACHE_SIZE false (trim_cache DATA_CACHE_SIZE true m))) as C by (by etransitivity).
    eexists _, _, _. split; [done|]. split; [done|]. split; [by apply calm_spec|]. destruct C as (_ & _ & F). lia.
  - destruct (free_data_pages_ok count m held Hi) as [Hi1 C]. eexists _, _, _. split; [done|]. split; [done|]. split; [by apply calm_spec|]. destruct C as (_ & _ & F). lia.
  - destruct (invalidate_ok m held b Hi) as (Hi1 & V & D & F). eexists _, _, _. split; [done|]. split; [done|]. split; [|lia]. split; [left; by rewrite D|done].
  - destruct (sync_all_ok m held Hi) as (m' & -> & Hi1 & (V & D & F) & Hall). step_some. eexists _, _, _. split; [done|]. split; [done|]. split; [|lia]. split; [intros b; right; by rewrite Hall, V|]. intros c. by rewrite Hall, V.
Qed.

(** C6 The cache of blocks is transparent.  Every sequence of reads and writes through it,
    with pages held and given back, caches trimmed and data pages freed up in between,
    runs without a panic while there are frames, reads return what was written last, and
    a sync makes the device equal to what the kernel sees.  A discarded block falls back
    to the device.  In every state the table has one page per block, coherent with the
    device unless dirty, the counters count the pages, and a page outside the table is
    discarded and writes nothing back. *)
Theorem cache_is_transparent m held ops : cache_inv m held → Forall op_ok ops → len ops ≤ free_frames m → cache_trace m held ops.
Proof.
  intros Hi Hops. revert m held Hi. induction Hops as [|op ops Hop Hops IH]; intros m held Hi Hf; [by constructor|]. unfold len in *. cbn [length] in Hf.
  destruct (cache_step m held op Hi Hop) as (r & m' & held' & Hr & Hi' & Hs & F); [lia|]. econstructor; [done|done|done|]. apply IH; [done|lia].
Qed.

(** C18 Syncing everything ends: the loop over batches of 1024 pages needs at most one turn
    more than there are pages.  Afterwards the device has every block as the kernel sees
    it and the contents have not changed. *)
Theorem sync_all_completes m held : cache_inv m held →
  ∃ m', sync_batches (S (base.size (page_cache_map m))) None m = Some m' ∧ cache_inv m' held ∧ ∀ b, disk m' BLOCK_DEVICE b = view m b ∧ view m' b = view m b.
Proof. intros Hi. destruct (sync_all_ok m held Hi) as (m' & Hs & Hi' & (V & _) & Hd). exists m'. split_and!; [done|done|]. intros b. by rewrite Hd, V. Qed.

(** ** An empty cache over a device *)

Definition demo_disk (dev b : Z) : list Z := replicate (Z.to_nat BLOCK_SZ) (dev mod 256).
Definition demo_cache : Manager := MkMgr ids_new ∅ 0 0 0 0 ∅ 0 0 100 demo_disk.

Lemma demo_cache_inv : cache_inv demo_cache [].
Proof.
  unfold demo_cache. split; cbn [page_cache_map heap disk data_count meta_count page_cache_id_map].
  - intros b id Hb. by apply lookup_empty_Some in Hb.
  - intros id p Hp. by apply lookup_empty_Some in Hp.
  - intros id Hid. by apply not_elem_of_nil in Hid.
  - intros b. unfold demo_disk, len. rewrite length_replicate. done.
  - intros d. unfold class_size. cbn [page_cache_map]. rewrite map_filter_empty, map_size_empty. by destruct d.
  - apply ids_new_ok.
Qed.

Lemma cache_is_transparent_witness : cache_trace demo_cache [] [Write true 7 [1; 2]; Hold false 7; FreeUp 3; Read true 7 2; Release 0; FreeUp 3; Read false 7 4; SyncAll; Discard 7].
Proof. apply cache_is_transparent; [apply demo_cache_inv| |vm_compute; discriminate]. repeat (apply Forall_cons; split; [by repeat split|]). by apply Forall_nil. Defined.

Lemma sync_all_completes_witness : ∃ m', sync_batches (S (base.size (page_cache_map demo_cache))) None demo_cache = Some m' ∧ cache_inv m' [] ∧
  ∀ b, disk m' BLOCK_DEVICE b = view demo_cache b ∧ view m' b = view demo_cache b.
Proof. apply sync_all_completes, demo_cache_inv. Defined.

(** ** Races *)

(** One CPU evicts the page of block [b]; between its sync and its look at the table
    another one writes [buf] through the same page; a third one reads before the first one
    gives up its reference. *)
Definition evict_race (b : Z) (buf : list Z) (m : Manager) : option (list Z * Manager) :=
  match evict_begin b m with
  | (inr id, m) =>
    let m := page_sync id m in
    '(id2, m) ← find_page b m; m ← write_page id2 buf m; let m := drop_page id2 m in
    let '(r, m) := evict_remove b id m in
    if (r : bool) then '(out, m) ← read_data_block b (len buf) m; Some (out, drop_page id m) else None
  | _ => None
  end.

(** A write can be lost to an eviction.  [try_evict] syncs the page, then takes the lock
    of the table and removes the page when nobody else holds it, without looking whether
    it is dirty again.  A write in between is complete, and yet a read after it returns
    the old byte, and the cache keeps the old block although the device gets the new one
    when the page goes. *)
Theorem eviction_loses_write :
  (m ← snd <$> read_data_block 7 1 demo_cache; '(out, m) ← evict_race 7 [9] m; Some (out, seg 0 1 (view m 7), seg 0 1 (disk m BLOCK_DEVICE 7))) = Some ([0], [0], [9]).
Proof. vm_compute. reflexivity. Qed.

(** One CPU misses and loads the block from the device; before it publishes the page
    another one gets the block, writes, syncs and evicts it. *)
Definition load_race (b : Z) (buf : list Z) (m : Manager) : option Manager :=
  match find_page b m with
  | None =>
    '(id, m) ← new_loading b BLOCK_DEVICE true m;
    let m := load_page id b BLOCK_DEVICE true m in
    m ← write_data_block b buf m; let '(r, m) := try_evict b m in
    if (r : bool) then let '((id2, _), m) := publish_page id b true m in Some (drop_page id2 m) else None
  | Some _ => None
  end.

(** A stale page can be published.  [get_physical_page] loads the block without the lock
    of the table and only looks whether another page is there now.  A write that another
    CPU made and evicted meanwhile is on the device, and the cache has the old block,
    marked clean: reads are wrong and the next write back destroys the new data. *)
Theorem stale_page_published :
  (m ← load_race 7 [9] demo_cache; '(out, m) ← read_data_block 7 1 m; m ← write_data_block 7 [] m; m' ← sync_all m;
   Some (out, seg 0 1 (disk m BLOCK_DEVICE 7), seg 0 1 (disk m' BLOCK_DEVICE 7))) = Some ([0], [9], [0]).
Proof. vm_compute. reflexivity. Qed.

(** The table does not tell devices apart: a page is found by the number of its block
    alone, so a block of a second device is answered with the block of the first. *)
Theorem devices_share_blocks :
  (m ← snd <$> read_block 7 1 demo_cache; '(id, m) ← get_block_cache 7 1 m; out ← read_page id 1 m; Some (out, seg 0 1 (disk m 1 7))) = Some ([0], [1]).
Proof. vm_compute. reflexivity. Qed.

End CacheProps.
