(* ===== verification/Ext4Alloc.v ===== *)
(** * Allocation of blocks and inodes (os/src/ext4fs/ext4.rs)

    The bitmaps, descriptors and counters of the block groups: taking and giving back a
    block or an inode, building the bitmap of a group that was never initialized, and the
    counters of the groups and of the superblock.  Blocks are read and written through the
    cache, which is transparent, so the volume is an array of blocks.  The metadata lock is
    held over each of these functions, so each is one step.  An index out of range and an
    overflow are a panic. *)

From S2P Require Import Prelude Bytes Ext4Checksum Ext4Super.

Local Open Scope Z_scope.

Definition EXT4_BG_INODE_UNINIT : Z := 1.
Definition EXT4_BG_BLOCK_UNINIT : Z := 2.
Definition EXT4_SUPERBLOCK_OFFSET : Z := 1024.

Record Ext4FS := MkFs {
  block_groups : list Ext4Group;
  volume : Z → list Z;
}.

(** A block through the cache: [write_block] changes the first bytes of it. *)
Definition fs_read (fs : Ext4FS) (b : Z) : list Z := volume fs b.
Definition fs_write (b : Z) (buf : list Z) (fs : Ext4FS) : Ext4FS :=
  MkFs (block_groups fs) (λ c, if c =? b then splice 0 buf (volume fs b) else volume fs c).
Definition with_group (g : Z) (x : Ext4Group) (fs : Ext4FS) : Ext4FS := MkFs (<[Z.to_nat g := x]> (block_groups fs)) (volume fs).

(** [+], [*] and [-] on [u32]. *)
Definition add32 (a b : Z) : option Z := if a + b <? 2 ^ 32 then Some (a + b) else None.
Definition mul32 (a b : Z) : option Z := if a * b <? 2 ^ 32 then Some (a * b) else None.
Definition sub32 (a b : Z) : option Z := if b <=? a then Some (a - b) else None.

Section volume.
Context (sb : Ext4SuperBlock).

(** ** Descriptors and counters on the volume *)

Definition group_desc_pos (group_id : Z) : Z * Z :=
  let byte_offset := group_id * desc_size sb in
  (first_data_block sb + 1 + byte_offset / BLOCK_SZ, byte_offset mod BLOCK_SZ).

Definition update_group_desc (group_id : Z) (f : list Z → option (list Z)) (fs : Ext4FS) : option Ext4FS :=
  let '(block_id, offset) := group_desc_pos group_id in
  let bytes := fs_read fs block_id in
  desc ← slice bytes offset (offset + desc_size sb);
  desc ← f desc;
  desc ← (if has_metadata_csum sb then '(_, desc) ← set_group_desc_checksum (metadata_checksum_seed sb) group_id desc; Some desc else Some desc);
  bytes ← put bytes offset desc;
  Some (fs_write block_id bytes fs).

Definition adjust_u64 (raw : list Z) (lo_off hi_off delta : Z) : option (list Z) :=
  lo ← slice raw lo_off (lo_off + 4); hi ← slice raw hi_off (hi_off + 4);
  let value := Z.lor (of_le lo) (Z.shiftl (of_le hi) 32) in
  let value := if 0 <=? delta then saturating_add value delta else saturating_sub value (- delta) in
  raw ← put raw lo_off (le 4 value); put raw hi_off (le 4 (Z.shiftr value 32)).

Definition adjust_superblock_counts (free_blocks_delta free_inodes_delta : Z) (fs : Ext4FS) : option Ext4FS :=
  let bytes := fs_read fs 0 in
  raw ← slice bytes EXT4_SUPERBLOCK_OFFSET (EXT4_SUPERBLOCK_OFFSET + EXT4_SUPERBLOCK_SIZE);
  raw ← adjust_u64 raw 0x0c 0x158 free_blocks_delta;
  inodes ← slice raw 0x10 (0x10 + 4);
  let free_inodes := of_le inodes in
  let free_inodes := if 0 <=? free_inodes_delta then sat_add32 free_inodes free_inodes_delta else sat_sub32 free_inodes (- free_inodes_delta) in
  raw ← put raw 0x10 (le 4 free_inodes);
  raw ← (if has_metadata_csum sb then '(_, raw) ← set_superblock_checksum raw; Some raw else Some raw);
  bytes ← put bytes EXT4_SUPERBLOCK_OFFSET raw;
  Some (fs_write 0 bytes fs).

Definition group_inode_count (group_id : Z) : Z :=
  let first := sat_mul32 group_id (inodes_per_group sb) in
  Z.min (sat_sub32 (total_inodes sb) first) (inodes_per_group sb).

Definition group_block_count (group_id : Z) : Z :=
  let first := sat_add32 (first_data_block sb) (sat_mul32 group_id (blocks_per_group sb)) in
  Z.min (sat_sub32 (total_blocks sb) first) (blocks_per_group sb).

Definition bitmap_checksum_len (kind : BitmapKind) : option Z :=
  let bits := match kind with BlockBitmap => blocks_per_group sb | InodeBitmap => inodes_per_group sb end in
  let bytes := bits / 8 in
  if (bytes =? 0) || (BLOCK_SZ <? bytes) then None else Some bytes.

(** ** Bitmaps *)

Definition set_bitmap_bit (bitmap : list Z) (bit : Z) : bool * list Z :=
  match index bitmap (bit / 8) with
  | None => (false, bitmap)
  | Some value => (true, splice (bit / 8) [Z.lor value (Z.shiftl 1 (bit mod 8))] bitmap)
  end.

(** The bits of a range of the loop, up to the first one outside the bitmap. *)
Fixpoint set_bits (bits : list Z) (bitmap : list Z) : bool * list Z :=
  match bits with
  | [] => (true, bitmap)
  | bit :: bits => let '(ok, bitmap) := set_bitmap_bit bitmap bit in if (ok : bool) then set_bits bits bitmap else (false, bitmap)
  end.

Definition group_start (group_id : Z) : Z := sat_add32 (first_data_block sb) (sat_mul32 group_id (blocks_per_group sb)).

Definition reserve_physical_range_in_group_bitmap (group_id : Z) (bitmap : list Z) (physical_start count : Z) : bool * list Z :=
  let group_end := sat_add32 (group_start group_id) (group_block_count group_id) in
  let range_end := sat_add32 physical_start count in
  let start := Z.max (group_start group_id) physical_start in
  let stop := Z.min group_end range_end in
  set_bits ((λ physical, physical - group_start group_id) <$> seqZ start (stop - start)) bitmap.

Fixpoint is_power_loop (fuel : nat) (group_id factor : Z) : option Z :=
  match fuel with
  | O => None
  | S fuel => if group_id mod factor =? 0 then is_power_loop fuel (group_id / factor) factor else Some group_id
  end.

(** A [u32] is divided at most 32 times. *)
Definition is_power_of_group (group_id factor : Z) : option bool :=
  if group_id <? factor then Some false else r ← is_power_loop 33 group_id factor; Some (r =? 1).

Definition group_has_super_backup (group_id : Z) : option bool :=
  if group_id =? 0 then Some true
  else if negb (Z.land (compat_features sb) 0x0200 =? 0) then Some (bool_decide (group_id ∈ backup_bgs sb))
  else if Z.land (ro_compat_features sb) 0x0001 =? 0 then Some true
  else if group_id =? 1 then Some true
  else
    p3 ← is_power_of_group group_id 3; if (p3 : bool) then Some true
    else p5 ← is_power_of_group group_id 5; if (p5 : bool) then Some true else is_power_of_group group_id 7.

Definition bit_clear (bitmap : list Z) (bit : Z) : option bool :=
  value ← index bitmap (bit / 8); Some (Z.land value (Z.shiftl 1 (bit mod 8)) =? 0).

Definition count_free_bitmap_bits (bitmap : list Z) (bit_count : Z) : option Z :=
  foldr (λ bit free, free ← free; c ← bit_clear bitmap bit; Some (if (c : bool) then free + 1 else free)) (Some 0) (seqZ 0 bit_count).

(** The range loops over the metadata of all groups. *)
Fixpoint reserve_groups (groups : list Ext4Group) (group_id : Z) (bitmap : list Z) (inode_table_blocks : Z) : bool * list Z :=
  match groups with
  | [] => (true, bitmap)
  | group :: groups =>
    let '(ok, bitmap) := reserve_physical_range_in_group_bitmap group_id bitmap (block_bitmap_id group) 1 in
    if negb ok then (false, bitmap)
    else
      let '(ok, bitmap) := reserve_physical_range_in_group_bitmap group_id bitmap (inode_bitmap_id group) 1 in
      if negb ok then (false, bitmap)
      else
        let '(ok, bitmap) := reserve_physical_range_in_group_bitmap group_id bitmap (inode_table_id group) inode_table_blocks in
        if negb ok then (false, bitmap) else reserve_groups groups group_id bitmap inode_table_blocks
  end.

(** The copy of the superblock and the descriptors at the start of a group. *)
Definition reserve_backup (group_id : Z) (bitmap : list Z) : option (bool * list Z) :=
  backup ← group_has_super_backup group_id;
  if (backup : bool) then
    groups ← group_num sb;
    let gdt_blocks := (groups * desc_size sb + BLOCK_SZ - 1) / BLOCK_SZ in
    let backup_blocks := sat_add32 (sat_add32 1 (gdt_blocks mod 2 ^ 32)) (reserved_gdt_blocks sb) in
    Some (reserve_physical_range_in_group_bitmap group_id bitmap (group_start group_id) backup_blocks)
  else Some (true, bitmap).

Definition materialize_block_bitmap (group_id expected_free_blocks : Z) (bitmap : list Z) (fs : Ext4FS) : option (bool * list Z) :=
  if negb (Z.land (incompat_features sb) 0x0010 =? 0) then Some (false, bitmap)
  else
    match bitmap_checksum_len BlockBitmap with
    | None => Some (false, bitmap)
    | Some checksum_bytes =>
      let valid_bits := group_block_count group_id in
      if checksum_bytes * 8 <? valid_bits then Some (false, bitmap)
      else
        let '(ok, bitmap) := set_bits (seqZ valid_bits (checksum_bytes * 8 - valid_bits)) (zeros (len bitmap)) in
        if negb ok then Some (false, bitmap)
        else
          '(ok, bitmap) ← reserve_backup group_id bitmap;
          if negb ok then Some (false, bitmap)
          else if block_size sb =? 0 then None
          else
            let inode_table_blocks := (inodes_per_group sb * inode_size sb + block_size sb - 1) / block_size sb in
            if 2 ^ 32 - 1 <? inode_table_blocks then Some (false, bitmap)
            else
              let '(ok, bitmap) := reserve_groups (block_groups fs) group_id bitmap inode_table_blocks in
              if negb ok then Some (false, bitmap)
              else free ← count_free_bitmap_bits bitmap valid_bits; Some (free =? expected_free_blocks, bitmap)
    end.

Definition materialize_inode_bitmap (group_id expected_free_inodes : Z) (bitmap : list Z) : option (bool * list Z) :=
  match bitmap_checksum_len InodeBitmap with
  | None => Some (false, bitmap)
  | Some checksum_bytes =>
    let valid_bits := group_inode_count group_id in
    if checksum_bytes * 8 <? valid_bits then Some (false, bitmap)
    else
      let '(ok, bitmap) := set_bits (seqZ valid_bits (checksum_bytes * 8 - valid_bits)) (zeros (len bitmap)) in
      if negb ok then Some (false, bitmap)
      else
        let '(ok, bitmap) := if group_id =? 0 then set_bits (seqZ 0 (Z.min (sat_sub32 (first_ino sb) 1) valid_bits)) bitmap else (true, bitmap) in
        if negb ok then Some (false, bitmap)
        else free ← count_free_bitmap_bits bitmap valid_bits; Some (free =? expected_free_inodes, bitmap)
  end.

(** ** Counters of a group *)

Definition put_counts (g : Ext4Group) (bitmap : list Z) (kind : BitmapKind) (desc : list Z) : option (list Z) :=
  desc ← put desc 0x0c (le 2 (free_blocks_count g));
  desc ← put desc 0x0e (le 2 (free_inodes_count g));
  desc ← put desc 0x10 (le 2 (used_dirs_count g));
  desc ← put desc 0x12 (le 2 (g_flags g));
  desc ← put desc 0x1c (le 2 (itable_unused g));
  desc ← (if 64 <=? len desc then
            desc ← put desc 0x2c (le 2 (Z.shiftr (free_blocks_count g) 16));
            desc ← put desc 0x2e (le 2 (Z.shiftr (free_inodes_count g) 16));
            desc ← put desc 0x30 (le 2 (Z.shiftr (used_dirs_count g) 16));
            put desc 0x32 (le 2 (Z.shiftr (itable_unused g) 16))
          else Some desc);
  if has_metadata_csum sb then
    match bitmap_checksum_len kind with
    | Some checksum_bytes =>
      s ← slice bitmap 0 checksum_bytes;
      '(_, desc) ← set_bitmap_checksum (metadata_checksum_seed sb) s desc kind; Some desc
    | None => Some desc
    end
  else Some desc.

Definition update_group_counts (group_id : Z) (g : Ext4Group) (bitmap : list Z) (kind : BitmapKind) (fs : Ext4FS) : option Ext4FS :=
  update_group_desc group_id (put_counts g bitmap kind) fs.

Definition get_inode_pos (inode_id : Z) (fs : Ext4FS) : option (Z * Z) :=
  if inodes_per_group sb =? 0 then None
  else
    n ← sub32 inode_id 1;
    group ← block_groups fs !! Z.to_nat (n / inodes_per_group sb);
    byte_offset ← mul32 (n mod inodes_per_group sb) (inode_size sb);
    if block_size sb =? 0 then None
    else b ← add32 (inode_table_id group) (byte_offset / block_size sb); Some (b, byte_offset mod block_size sb).

(** ** Taking *)

(** The first clear bit, and the bitmap with it set. *)
Fixpoint take_bit (bits : list Z) (buf : list Z) : option (option Z * list Z) :=
  match bits with
  | [] => Some (None, buf)
  | bit :: bits =>
    c ← bit_clear buf bit;
    if (c : bool) then
      value ← index buf (bit / 8);
      Some (Some bit, splice (bit / 8) [Z.lor value (Z.shiftl 1 (bit mod 8))] buf)
    else take_bit bits buf
  end.

Definition set_free_blocks (n : Z) (g : Ext4Group) : Ext4Group :=
  MkGroup (group_id g) (block_bitmap_id g) (inode_bitmap_id g) (inode_table_id g) n (free_inodes_count g) (used_dirs_count g) (itable_unused g) (g_flags g).
Definition set_free_inodes (n : Z) (g : Ext4Group) : Ext4Group :=
  MkGroup (group_id g) (block_bitmap_id g) (inode_bitmap_id g) (inode_table_id g) (free_blocks_count g) n (used_dirs_count g) (itable_unused g) (g_flags g).
Definition set_used_dirs (n : Z) (g : Ext4Group) : Ext4Group :=
  MkGroup (group_id g) (block_bitmap_id g) (inode_bitmap_id g) (inode_table_id g) (free_blocks_count g) (free_inodes_count g) n (itable_unused g) (g_flags g).
Definition set_itable (n : Z) (g : Ext4Group) : Ext4Group :=
  MkGroup (group_id g) (block_bitmap_id g) (inode_bitmap_id g) (inode_table_id g) (free_blocks_count g) (free_inodes_count g) (used_dirs_count g) n (g_flags g).
Definition clear_flag (f : Z) (g : Ext4Group) : Ext4Group :=
  MkGroup (group_id g) (block_bitmap_id g) (inode_bitmap_id g) (inode_table_id g) (free_blocks_count g) (free_inodes_count g) (used_dirs_count g) (itable_unused g) (Z.ldiff (g_flags g) f).

(** The bitmap of a group, from the volume or from the layout; [None] inside: the group is
    passed over. *)
Definition block_bitmap_of (gid : Z) (g : Ext4Group) (fs : Ext4FS) : option (option (list Z)) :=
  if negb (Z.land (g_flags g) EXT4_BG_BLOCK_UNINIT =? 0) then
    '(ok, bitmap) ← materialize_block_bitmap gid (free_blocks_count g) (zeros BLOCK_SZ) fs;
    Some (if (ok : bool) then Some bitmap else None)
  else Some (Some (fs_read fs (block_bitmap_id g))).

Definition inode_bitmap_of (gid : Z) (g : Ext4Group) (fs : Ext4FS) : option (option (list Z)) :=
  if negb (Z.land (g_flags g) EXT4_BG_INODE_UNINIT =? 0) then
    '(ok, bitmap) ← materialize_inode_bitmap gid (free_inodes_count g) (zeros BLOCK_SZ);
    Some (if (ok : bool) then Some bitmap else None)
  else Some (Some (fs_read fs (inode_bitmap_id g))).

(** The commit of a found bit. *)
Definition commit_block (gid bit : Z) (g : Ext4Group) (buf : list Z) (fs : Ext4FS) : option (Z * Ext4FS) :=
  let fs := fs_write (block_bitmap_id g) buf fs in
  let g := set_free_blocks (free_blocks_count g - 1) g in
  let g := if negb (Z.land (g_flags g) EXT4_BG_BLOCK_UNINIT =? 0) then clear_flag EXT4_BG_BLOCK_UNINIT g else g in
  fs ← update_group_counts gid g buf BlockBitmap (with_group gid g fs);
  fs ← adjust_superblock_counts (-1) 0 fs;
  a ← mul32 gid (blocks_per_group sb); a ← add32 a bit; a ← add32 a (first_data_block sb);
  Some (a, fs).

Definition commit_inode (gid bit : Z) (g : Ext4Group) (buf : list Z) (fs : Ext4FS) : option (Z * Ext4FS) :=
  let valid_bits := group_inode_count gid in
  let fs := fs_write (inode_bitmap_id g) buf fs in
  let g := set_free_inodes (free_inodes_count g - 1) g in
  let used_before := sat_sub32 valid_bits (Z.min (itable_unused g) valid_bits) in
  let g := if used_before <=? bit then set_itable (sat_sub32 valid_bits (bit + 1)) g else g in
  let g := if negb (Z.land (g_flags g) EXT4_BG_INODE_UNINIT =? 0) then clear_flag EXT4_BG_INODE_UNINIT g else g in
  fs ← update_group_counts gid g buf InodeBitmap (with_group gid g fs);
  fs ← adjust_superblock_counts 0 (-1) fs;
  a ← mul32 gid (inodes_per_group sb); a ← add32 a bit; a ← add32 a 1;
  Some (a, fs).

Fixpoint alloc_block_in (groups : list Ext4Group) (gid : Z) (fs : Ext4FS) : option (option Z * Ext4FS) :=
  match groups with
  | [] => Some (None, fs)
  | g :: groups =>
    if free_blocks_count g =? 0 then alloc_block_in groups (gid + 1) fs
    else
      bitmap ← block_bitmap_of gid g fs;
      match bitmap with
      | None => alloc_block_in groups (gid + 1) fs
      | Some buf =>
        '(found, buf) ← take_bit (seqZ 0 (group_block_count gid)) buf;
        match found with
        | None => alloc_block_in groups (gid + 1) fs
        | Some bit => '(a, fs) ← commit_block gid bit g buf fs; Some (Some a, fs)
        end
      end
  end.

Definition alloc_block (fs : Ext4FS) : option (option Z * Ext4FS) := alloc_block_in (block_groups fs) 0 fs.

Fixpoint alloc_inode_in (groups : list Ext4Group) (gid : Z) (fs : Ext4FS) : option (option Z * Ext4FS) :=
  match groups with
  | [] => Some (None, fs)
  | g :: groups =>
    if free_inodes_count g =? 0 then alloc_inode_in groups (gid + 1) fs
    else
      bitmap ← inode_bitmap_of gid g fs;
      match bitmap with
      | None => alloc_inode_in groups (gid + 1) fs
      | Some buf =>
        '(found, buf) ← take_bit (seqZ 0 (group_inode_count gid)) buf;
        match found with
        | None => alloc_inode_in groups (gid + 1) fs
        | Some bit => '(a, fs) ← commit_inode gid bit g buf fs; Some (Some a, fs)
        end
      end
  end.

Definition alloc_inode (fs : Ext4FS) : option (option Z * Ext4FS) := alloc_inode_in (block_groups fs) 0 fs.

(** ** Giving back *)

(** The cache of the freed block is discarded afterwards. *)
Definition dealloc_block (block_id : Z) (fs : Ext4FS) : option Ext4FS :=
  if (block_id <? first_data_block sb) || (total_blocks sb <=? block_id) then Some fs
  else if blocks_per_group sb =? 0 then None
  else
    let relative := block_id - first_data_block sb in
    let gid := relative / blocks_per_group sb in
    let block_idx := relative mod blocks_per_group sb in
    g ← block_groups fs !! Z.to_nat gid;
    let buf := fs_read fs (block_bitmap_id g) in
    if group_block_count gid <=? block_idx then Some fs
    else
      value ← index buf (block_idx / 8);
      let bit := Z.shiftl 1 (block_idx mod 8) in
      if Z.land value bit =? 0 then Some fs
      else
        let buf := splice (block_idx / 8) [Z.ldiff value bit] buf in
        let fs := fs_write (block_bitmap_id g) buf fs in
        n ← add32 (free_blocks_count g) 1;
        let g := set_free_blocks n g in
        fs ← update_group_counts gid g buf BlockBitmap (with_group gid g fs);
        adjust_superblock_counts 1 0 fs.

Definition dealloc_inode (inode_id : Z) (fs : Ext4FS) : option Ext4FS :=
  if (inode_id =? 0) || (total_inodes sb <? inode_id) then Some fs
  else if inodes_per_group sb =? 0 then None
  else
    let gid := (inode_id - 1) / inodes_per_group sb in
    let inode_idx := (inode_id - 1) mod inodes_per_group sb in
    g ← block_groups fs !! Z.to_nat gid;
    let buf := fs_read fs (inode_bitmap_id g) in
    if group_inode_count gid <=? inode_idx then Some fs
    else
      value ← index buf (inode_idx / 8);
      let bit := Z.shiftl 1 (inode_idx mod 8) in
      if Z.land value bit =? 0 then Some fs
      else
        let buf := splice (inode_idx / 8) [Z.ldiff value bit] buf in
        let fs := fs_write (inode_bitmap_id g) buf fs in
        n ← add32 (free_inodes_count g) 1;
        let g := set_free_inodes n g in
        fs ← update_group_counts gid g buf InodeBitmap (with_group gid g fs);
        adjust_superblock_counts 0 1 fs.

Definition put_used_dirs (used_dirs : Z) (desc : list Z) : option (list Z) :=
  desc ← put desc 0x10 (le 2 used_dirs);
  if 64 <=? len desc then put desc 0x30 (le 2 (Z.shiftr used_dirs 16)) else Some desc.

Definition adjust_used_dirs (inode_id delta : Z) (fs : Ext4FS) : option Ext4FS :=
  if (inode_id =? 0) || (total_inodes sb <? inode_id) then Some fs
  else if inodes_per_group sb =? 0 then None
  else
    let gid := (inode_id - 1) / inodes_per_group sb in
    g ← block_groups fs !! Z.to_nat gid;
    let n := if 0 <=? delta then sat_add32 (used_dirs_count g) delta else sat_sub32 (used_dirs_count g) (- delta) in
    update_group_desc gid (put_used_dirs n) (with_group gid (set_used_dirs n g) fs).

End volume.
