(* ===== verification/Ext4AllocInv.v ===== *)
(** * Bitmaps, descriptors and counters of the allocator

    Bitmaps as sets of bits, group descriptors as groups, and what the functions of
    [Ext4Alloc] do to both. *)

From S2P Require Import Prelude Bytes Ext4Checksum Ext4Super Ext4Alloc.

Local Open Scope Z_scope.

#[local] Opaque crc32c.

(** ** Bits *)

Definition bitset (l : list Z) (i : Z) : bool := match index l (i / 8) with Some v => Z.testbit v (i mod 8) | None => false end.

Lemma bit_byte (l : list Z) i : 0 ≤ i < 8 * len l → ∃ v, index l (i / 8) = Some v ∧ l !! Z.to_nat (i / 8) = Some v.
Proof. intros Hi. apply index_Some. pose proof (Z.div_pos i 8). pose proof (Z.div_lt_upper_bound i 8 (len l)). lia. Qed.

Lemma land_bit v k : 0 ≤ k → (Z.land v (Z.shiftl 1 k) =? 0) = negb (Z.testbit v k).
Proof.
  intros Hk. rewrite Z.shiftl_1_l. destruct (Z.testbit v k) eqn:Hv; cbn [negb].
  - apply Z.eqb_neq. intros H0. assert (Z.testbit (Z.land v (2 ^ k)) k = true) as Ht by (rewrite Z.land_spec, Hv, Z.pow2_bits_true by done; done). by rewrite H0, Z.bits_0 in Ht.
  - apply Z.eqb_eq, Z.bits_inj'. intros j Hj. rewrite Z.land_spec, Z.bits_0. destruct (decide (k = j)) as [<-|]; [by rewrite Hv|]. rewrite Z.pow2_bits_false by done. apply andb_false_r.
Qed.

Lemma bit_clear_ok l i : 0 ≤ i < 8 * len l → bit_clear l i = Some (negb (bitset l i)).
Proof.
  intros Hi. destruct (bit_byte l i Hi) as (v & Hv & _). unfold bit_clear, bitset. rewrite Hv. step_some. f_equal. apply land_bit. apply Z.mod_pos_bound. lia.
Qed.

Lemma lookup_byte (l : list Z) a b w : 0 ≤ a < len l → 0 ≤ b → splice a [w] l !! Z.to_nat b = if decide (b = a) then Some w else l !! Z.to_nat b.
Proof.
  intros Ha Hb. rewrite lookup_splice by (change (len [w]) with 1; lia). change (len [w]) with 1. destruct (decide (b = a)) as [->|Hne].
  - rewrite decide_True by lia. by rewrite Nat.sub_diag.
  - rewrite decide_False by lia. done.
Qed.

(** The byte of a bit replaced by one that differs in that bit only. *)
Lemma bitset_splice l i w : 0 ≤ i < 8 * len l → (∀ v k, index l (i / 8) = Some v → 0 ≤ k < 8 → k ≠ i mod 8 → Z.testbit w k = Z.testbit v k) →
  ∀ j, 0 ≤ j → bitset (splice (i / 8) [w] l) j = if decide (j = i) then Z.testbit w (i mod 8) else bitset l j.
Proof.
  intros Hi Hw j Hj. destruct (bit_byte l i Hi) as (v & Hv & Hl). pose proof (Z.div_pos i 8). pose proof (Z.div_pos j 8). pose proof (Z.mod_pos_bound j 8).
  pose proof (Z.div_lt_upper_bound i 8 (len l)). unfold bitset, index. rewrite !(proj2 (Z.leb_le _ _)) by lia. rewrite lookup_byte by lia.
  destruct (decide (j / 8 = i / 8)) as [Hb|Hb]; [|destruct (decide (j = i)); [by subst|done]]. destruct (decide (j = i)) as [->|Hne]; [done|].
  rewrite Hb, Hl. apply Hw; [done|lia|]. intros Hm. apply Hne. rewrite (Z.div_mod j 8), (Z.div_mod i 8) by lia. lia.
Qed.

Lemma bit_range k : 0 ≤ k < 8 → is_byte (Z.shiftl 1 k).
Proof. intros Hk. rewrite Z.shiftl_1_l. pose proof (Z.pow_pos_nonneg 2 k). pose proof (Z.pow_lt_mono_r 2 k 8). lia. Qed.

Lemma byte_lor a b : is_byte a → is_byte b → is_byte (Z.lor a b).
Proof.
  intros Ha Hb. split; [apply Z.lor_nonneg; lia|]. rewrite <-(Z.mod_small a 256), <-(Z.mod_small b 256) by lia. change 256 with (2 ^ 8). rewrite <-!Z.land_ones by lia. rewrite <-Z.land_lor_distr_l, Z.land_ones by lia. apply Z.mod_pos_bound. lia.
Qed.

Lemma byte_ldiff a b : is_byte a → is_byte (Z.ldiff a b).
Proof.
  intros Ha. assert (Z.ldiff a b = Z.ldiff a b mod 2 ^ 8) as ->; [|apply Z.mod_pos_bound; lia]. apply Z.bits_inj'. intros i Hi. destruct (decide (i < 8)); [by rewrite Z.mod_pow2_bits_low|].
  rewrite Z.mod_pow2_bits_high by lia. rewrite Z.ldiff_spec. rewrite <-(Z.mod_small a (2 ^ 8)) by lia. by rewrite Z.mod_pow2_bits_high by lia.
Qed.

Definition set_bit (l : list Z) (i : Z) : list Z := splice (i / 8) [Z.lor (default 0 (index l (i / 8))) (Z.shiftl 1 (i mod 8))] l.
Definition clear_bit (l : list Z) (i : Z) : list Z := splice (i / 8) [Z.ldiff (default 0 (index l (i / 8))) (Z.shiftl 1 (i mod 8))] l.

Lemma len_byte (l : list Z) i w : 0 ≤ i < 8 * len l → len (splice (i / 8) [w] l) = len l.
Proof. intros Hi. pose proof (Z.div_pos i 8). pose proof (Z.div_lt_upper_bound i 8 (len l)). apply len_splice; change (len [w]) with 1; lia. Qed.

Lemma set_bit_ok l i : 0 ≤ i < 8 * len l → all_bytes l → len (set_bit l i) = len l ∧ all_bytes (set_bit l i) ∧ ∀ j, 0 ≤ j → bitset (set_bit l i) j = bool_decide (j = i) || bitset l j.
Proof.
  intros Hi Hb. destruct (bit_byte l i Hi) as (v & Hv & Hl). pose proof (Z.mod_pos_bound i 8). unfold set_bit. rewrite Hv. cbn [default from_option]. split_and!.
  - by apply len_byte.
  - apply Forall_splice; [|done]. apply Forall_singleton. apply byte_lor; [by apply (Forall_lookup_1 _ _ _ _ Hb Hl)|apply bit_range; lia].
  - intros j Hj. rewrite bitset_splice; [|done| |done].
    + destruct (decide (j = i)) as [->|Hne]; [rewrite bool_decide_true by done|rewrite bool_decide_false by done; done]. rewrite Z.lor_spec, Z.shiftl_1_l, Z.pow2_bits_true by lia. cbn. apply orb_true_r.
    + intros v' k Hv' Hk Hne. assert (v' = v) as -> by congruence. rewrite Z.lor_spec, Z.shiftl_1_l, Z.pow2_bits_false by done. apply orb_false_r.
Qed.

Lemma clear_bit_ok l i : 0 ≤ i < 8 * len l → all_bytes l → len (clear_bit l i) = len l ∧ all_bytes (clear_bit l i) ∧ ∀ j, 0 ≤ j → bitset (clear_bit l i) j = negb (bool_decide (j = i)) && bitset l j.
Proof.
  intros Hi Hb. destruct (bit_byte l i Hi) as (v & Hv & Hl). pose proof (Z.mod_pos_bound i 8). unfold clear_bit. rewrite Hv. cbn [default from_option]. split_and!.
  - by apply len_byte.
  - apply Forall_splice; [|done]. apply Forall_singleton. apply byte_ldiff. by apply (Forall_lookup_1 _ _ _ _ Hb Hl).
  - intros j Hj. rewrite bitset_splice; [|done| |done].
    + destruct (decide (j = i)) as [->|Hne]; [rewrite bool_decide_true by done|rewrite bool_decide_false by done; done]. rewrite Z.ldiff_spec, Z.shiftl_1_l, Z.pow2_bits_true by lia. cbn. apply andb_false_r.
    + intros v' k Hv' Hk Hne. assert (v' = v) as -> by congruence. rewrite Z.ldiff_spec, Z.shiftl_1_l, Z.pow2_bits_false by done. apply andb_true_r.
Qed.

(** ** Counting clear bits *)

Definition free_bits (l : list Z) (n : Z) : Z := Z.of_nat (length (filter (λ i, bitset l i = false) (seqZ 0 n))).

Lemma count_free_ok l n : n ≤ 8 * len l → count_free_bitmap_bits l n = Some (free_bits l n).
Proof.
  intros Hn. unfold count_free_bitmap_bits, free_bits. assert (∀ i, i ∈ seqZ 0 n → 0 ≤ i < 8 * len l) as Hin by (intros i Hi; apply elem_of_seqZ in Hi; lia). revert Hin.
  induction (seqZ 0 n) as [|i js IH]; intros Hin; [done|]. cbn [foldr]. rewrite IH by (intros j Hj; apply Hin, elem_of_cons; by right). step_some. rewrite bit_clear_ok by (apply Hin, elem_of_cons; by left). step_some. rewrite filter_cons.
  destruct (bitset l i) eqn:Hb; cbn [negb]; [rewrite decide_False by done|rewrite decide_True by done]; [done|]. cbn [length]. f_equal. lia.
Qed.

Lemma filter_flip (P Q : Z → Prop) `{!∀ x, Decision (P x), !∀ x, Decision (Q x)} (l : list Z) i : NoDup l → i ∈ l → P i → ¬ Q i → (∀ j, j ∈ l → j ≠ i → P j ↔ Q j) →
  length (filter P l) = S (length (filter Q l)).
Proof.
  intros Hnd Hi HP HQ Heq. induction Hnd as [|x l Hx Hnd IH]; [by apply not_elem_of_nil in Hi|]. rewrite !filter_cons. apply elem_of_cons in Hi as [->|Hi].
  - rewrite decide_True, decide_False by done. cbn. f_equal. assert (∀ j, j ∈ l → P j ↔ Q j) as Hall by (intros j Hj; apply Heq; [apply elem_of_cons; by right|congruence]). clear - Hall.
    induction l as [|y l IH]; [done|]. rewrite !filter_cons. assert (P y ↔ Q y) as Hy by (apply Hall, elem_of_cons; by left). rewrite (decide_ext _ _ _ _ Hy).
    assert (length (filter P l) = length (filter Q l)) as HL by (apply IH; intros j Hj; apply Hall, elem_of_cons; by right). destruct (decide (Q y)); cbn; lia.
  - assert (P x ↔ Q x) as Hx' by (apply Heq; [apply elem_of_cons; by left|congruence]). assert (length (filter P l) = S (length (filter Q l))) as HL by (apply IH; [done|]; intros j Hj; apply Heq, elem_of_cons; by right).
    rewrite (decide_ext _ _ _ _ Hx'). destruct (decide (Q x)); cbn; lia.
Qed.

Lemma free_bits_set l n i : 0 ≤ i < n → n ≤ 8 * len l → all_bytes l → bitset l i = false → free_bits (set_bit l i) n = free_bits l n - 1.
Proof.
  intros Hi Hn Hb Hc. destruct (set_bit_ok l i ltac:(lia) Hb) as (_ & _ & Hs). unfold free_bits.
  rewrite (filter_flip (λ j, bitset l j = false) (λ j, bitset (set_bit l i) j = false) (seqZ 0 n) i); [lia|apply NoDup_seqZ|apply elem_of_seqZ; lia|done|rewrite Hs by lia; rewrite bool_decide_true by done; done|].
  intros j Hj Hne. apply elem_of_seqZ in Hj. rewrite Hs, bool_decide_false by (done || lia). done.
Qed.

Lemma free_bits_clear l n i : 0 ≤ i < n → n ≤ 8 * len l → all_bytes l → bitset l i = true → free_bits (clear_bit l i) n = free_bits l n + 1.
Proof.
  intros Hi Hn Hb Hc. destruct (clear_bit_ok l i ltac:(lia) Hb) as (_ & _ & Hs). unfold free_bits.
  rewrite (filter_flip (λ j, bitset (clear_bit l i) j = false) (λ j, bitset l j = false) (seqZ 0 n) i); [lia|apply NoDup_seqZ|apply elem_of_seqZ; lia|rewrite Hs by lia; rewrite bool_decide_true by done; done|by rewrite Hc|].
  intros j Hj Hne. apply elem_of_seqZ in Hj. rewrite Hs, bool_decide_false by (done || lia). done.
Qed.

Lemma free_bits_bound l n : 0 ≤ n → 0 ≤ free_bits l n ≤ n.
Proof.
  intros Hn. unfold free_bits. split; [lia|]. etransitivity; [apply Nat2Z.inj_le, length_filter|]. rewrite length_seqZ. lia.
Qed.

(** ** The first clear bit *)

Lemma take_bit_in bits buf : (∀ i, i ∈ bits → 0 ≤ i < 8 * len buf) →
  (take_bit bits buf = Some (None, buf) ∧ ∀ i, i ∈ bits → bitset buf i = true) ∨
  ∃ i, take_bit bits buf = Some (Some i, set_bit buf i) ∧ i ∈ bits ∧ bitset buf i = false.
Proof.
  induction bits as [|i bits IH]; intros Hin; cbn [take_bit]; [left; split; [done|]; intros i Hi; by apply not_elem_of_nil in Hi|].
  assert (0 ≤ i < 8 * len buf) as Hi by (apply Hin, elem_of_cons; by left). rewrite bit_clear_ok by done. step_some. destruct (bitset buf i) eqn:Hb; cbn [negb].
  - destruct IH as [[IH1 IH2]|(j & IH1 & IH2 & IH3)]; [intros j Hj; apply Hin, elem_of_cons; by right|left|right].
    + split; [done|]. intros j Hj. apply elem_of_cons in Hj as [->|Hj]; [done|by apply IH2].
    + exists j. split_and!; [done|apply elem_of_cons; by right|done].
  - right. exists i. destruct (bit_byte buf i Hi) as (v & Hv & _). unfold set_bit. rewrite Hv. step_some. split_and!; [done|apply elem_of_cons; by left|done].
Qed.

(** ** Descriptors *)

(** The bytes of a descriptor a group is read from are the same. *)
Definition same_counts (d d' : list Z) : Prop :=
  len d' = len d ∧ seg 0 20 d' = seg 0 20 d ∧ seg 28 30 d' = seg 28 30 d ∧ (64 ≤ len d → seg 32 52 d' = seg 32 52 d).

Lemma same_counts_trans a b c : same_counts a b → same_counts b c → same_counts a c.
Proof. intros (A1 & A2 & A3 & A4) (B1 & B2 & B3 & B4). split_and!; [congruence..|]. intros H. rewrite B4 by lia. by apply A4. Qed.

Lemma seg_within (d d' : list Z) a b x y : seg a b d' = seg a b d → 0 ≤ a ≤ x → x ≤ y → y ≤ b → seg x y d' = seg x y d.
Proof.
  intros Hs Hx Hy Hb. replace x with (a + (x - a)) by lia. replace y with (a + (y - a)) by lia. rewrite <-!(seg_seg a b) by lia. by rewrite Hs.
Qed.

Lemma desc_count_ok d lo hi : 0 ≤ lo → 0 ≤ hi → lo + 2 ≤ len d →
  desc_count d lo hi = Some (Z.lor (of_le (seg lo (lo + 2) d)) (Z.shiftl (if hi + 2 <=? len d then of_le (seg hi (hi + 2) d) else 0) 16 mod 2 ^ 32)).
Proof.
  intros H1 H2 H3. unfold desc_count, desc_high. rewrite (u16_at_ok d lo) by lia. step_some. destruct (hi + 2 <=? len d) eqn:Hc; [apply Z.leb_le in Hc; rewrite u16_at_ok by lia|]; step_some; done.
Qed.

Definition wide_desc (d : list Z) : bool :=
  (64 <=? len d) && (negb (of_le (seg 32 36 d) =? 0) || negb (of_le (seg 36 40 d) =? 0) || negb (of_le (seg 40 44 d) =? 0)).

Definition desc_field (d : list Z) (lo hi : Z) : Z :=
  Z.lor (of_le (seg lo (lo + 2) d)) (Z.shiftl (if hi + 2 <=? len d then of_le (seg hi (hi + 2) d) else 0) 16 mod 2 ^ 32).

Lemma group_new_eq gid d : 32 ≤ len d → group_new gid d =
  if wide_desc d then None
  else Some (MkGroup gid (of_le (seg 0 4 d)) (of_le (seg 4 8 d)) (of_le (seg 8 12 d)) (desc_field d 12 44) (desc_field d 14 46) (desc_field d 16 48) (desc_field d 28 50) (of_le (seg 18 20 d))).
Proof.
  intros Hl. unfold group_new, wide_desc. decide_tests. destruct (64 <=? len d) eqn:H64.
  - apply Z.leb_le in H64. cbn [andb]. rewrite !u32_at_ok, !u16_at_ok by lia. rewrite !some_bind. cbv beta iota. change (32 + 4) with 36. change (36 + 4) with 40. change (40 + 4) with 44. destruct (_ || _); [done|].
    rewrite !desc_count_ok by lia. rewrite !some_bind. done.
  - cbn [andb]. step_some. rewrite !u32_at_ok, !u16_at_ok, !desc_count_ok by lia. rewrite !some_bind. done.
Qed.

Lemma group_new_same gid d d' : 32 ≤ len d → len d = 32 ∨ 64 ≤ len d → same_counts d d' → group_new gid d' = group_new gid d.
Proof.
  intros Hl Hsz (H1 & H2 & H3 & H4). rewrite !group_new_eq by lia. unfold wide_desc, desc_field. rewrite H1.
  assert (∀ x y, 0 ≤ x ≤ y → y ≤ 20 → seg x y d' = seg x y d) as Ha by (intros x y Hx Hy; apply (seg_within d d' 0 20); (done || lia)).
  change (28 + 2) with 30. rewrite H3. repeat match goal with |- context [seg ?x ?y d'] => rewrite (Ha x y) by lia end. destruct Hsz as [->|H64]; [done|].
  assert (∀ x y, 32 ≤ x ≤ y → y ≤ 52 → seg x y d' = seg x y d) as Hb by (intros x y Hx Hy; apply (seg_within d d' 32 52); auto; lia). by rewrite !Hb by lia.
Qed.

(** Bytes written over bytes are bytes. *)
Ltac bytes := try (intros ?); repeat (apply Forall_splice; [apply le_bytes|]); assumption.

(** The checksums of a bitmap and of the descriptor lie elsewhere. *)
Lemma bitmap_csum_same seed bm d kind : 32 ≤ len d → len d = 32 ∨ 64 ≤ len d → 
  ∃ r d', set_bitmap_checksum seed bm d kind = Some (r, d') ∧ same_counts d d' ∧ (all_bytes d → all_bytes d').
Proof.
  intros Hl Hsz. unfold set_bitmap_checksum. set (c := bitmap_checksum seed bm). clearbody c. assert (∀ x, len (le 2 x) = 2) as L2 by (intros; apply len_le).
  destruct kind; cbn [csum_offsets]; consts; decide_tests; rewrite put_in by lens; step_some; rewrite len_splice by lens.
  all: destruct Hsz as [H32|H64]; decide_tests; [step_some; eexists _, _; split; [done|]; split; [split_and!; [lens|by seg_splice|by seg_splice|lia]|bytes]|].
  all: rewrite put_in by lens; step_some; eexists _, _; split; [done|]; split; [split_and!; [lens|by seg_splice|by seg_splice|intros _; by seg_splice]|bytes].
Qed.

Lemma group_csum_same seed gid d : 32 ≤ len d → len d = 32 ∨ 64 ≤ len d → 
  ∃ r d', set_group_desc_checksum seed gid d = Some (r, d') ∧ same_counts d d' ∧ (all_bytes d → all_bytes d') ∧ group_desc_checksum seed gid d' = Some (Some (of_le (seg 30 32 d'))).
Proof.
  intros Hl Hsz. unfold set_group_desc_checksum. rewrite group_desc_checksum_covers by done. set (c := _ mod 2 ^ 16). bind. cbn iota. consts. rewrite put_in by lens. step_some.
  eexists _, _. split; [done|]. split; [split_and!; [lens|by seg_splice|by seg_splice|intros _; by seg_splice]|]. split; [bytes|].
  rewrite group_desc_checksum_covers, splice_over by lens. fold c. do 2 f_equal. rewrite (seg_splice_within 30 32) by lens. change (30 - 30) with 0. change (32 - 30) with 2. rewrite seg_all by apply len_le. symmetry. apply of_le_small. apply Z.mod_pos_bound. lia.
Qed.

Lemma join16 x : 0 ≤ x < 2 ^ 32 → Z.lor (of_le (le 2 x)) (Z.shiftl (of_le (le 2 (Z.shiftr x 16))) 16 mod 2 ^ 32) = x.
Proof.
  intros Hx. rewrite !of_le_le. change (8 * Z.of_nat 2) with 16. rewrite (Z.mod_small (Z.shiftr x 16)).
  - rewrite (Z.mod_small (Z.shiftl (Z.shiftr x 16) 16)).
    + rewrite <-Z.land_ones by lia. apply Z.bits_inj'. intros i Hi. rewrite Z.lor_spec, Z.land_spec, Z.shiftl_spec by lia. destruct (decide (i < 16)).
      * rewrite Z.ones_spec_low by lia. rewrite (Z.testbit_neg_r _ (i - 16)) by lia. by rewrite andb_true_r, orb_false_r.
      * rewrite (Z.ones_spec_high 16 i) by lia. rewrite (Z.shiftr_spec x 16 (i - 16)) by lia. rewrite andb_false_r. cbn [orb]. f_equal. lia.
    + rewrite Z.shiftl_mul_pow2, Z.shiftr_div_pow2 by lia. pose proof (Z.div_mod x (2 ^ 16)). pose proof (Z.mod_pos_bound x (2 ^ 16)). pose proof (Z.div_pos x (2 ^ 16)). lia.
  - rewrite Z.shiftr_div_pow2 by lia. split; [apply Z.div_pos; lia|]. apply Z.div_lt_upper_bound; lia.
Qed.

(** The counters fit into a descriptor. *)
Record counts_fit (ds : Z) (g : Ext4Group) : Prop := {
  cf_blocks : 0 ≤ free_blocks_count g < 2 ^ 32 ∧ (ds < 64 → free_blocks_count g < 2 ^ 16);
  cf_inodes : 0 ≤ free_inodes_count g < 2 ^ 32 ∧ (ds < 64 → free_inodes_count g < 2 ^ 16);
  cf_dirs : 0 ≤ used_dirs_count g < 2 ^ 32 ∧ (ds < 64 → used_dirs_count g < 2 ^ 16);
  cf_itable : 0 ≤ itable_unused g < 2 ^ 32 ∧ (ds < 64 → itable_unused g < 2 ^ 16);
  cf_flags : 0 ≤ g_flags g < 2 ^ 16;
}.

Definition same_place (g g' : Ext4Group) : Prop :=
  group_id g' = group_id g ∧ block_bitmap_id g' = block_bitmap_id g ∧ inode_bitmap_id g' = inode_bitmap_id g ∧ inode_table_id g' = inode_table_id g.

Lemma desc_field_new d lo hi x : lo + 2 ≤ len d → seg lo (lo + 2) d = le 2 x → (hi + 2 ≤ len d → seg hi (hi + 2) d = le 2 (Z.shiftr x 16)) → 0 ≤ x < 2 ^ 32 → (len d < hi + 2 → x < 2 ^ 16) → desc_field d lo hi = x.
Proof.
  intros Hl H1 H2 Hx Hs. unfold desc_field. rewrite H1. destruct (Z.leb_spec (hi + 2) (len d)) as [Hc|Hc]; [rewrite H2 by done; by apply join16|].
  cbn. rewrite Z.lor_0_r. apply of_le_small. specialize (Hs Hc). lia.
Qed.

(** What the counters of a group make of its descriptor. *)
Definition low_counts (g : Ext4Group) (d : list Z) : list Z :=
  splice 28 (le 2 (itable_unused g)) (splice 18 (le 2 (g_flags g)) (splice 16 (le 2 (used_dirs_count g)) (splice 14 (le 2 (free_inodes_count g)) (splice 12 (le 2 (free_blocks_count g)) d)))).
Definition high_counts (g : Ext4Group) (d : list Z) : list Z :=
  splice 50 (le 2 (Z.shiftr (itable_unused g) 16)) (splice 48 (le 2 (Z.shiftr (used_dirs_count g) 16)) (splice 46 (le 2 (Z.shiftr (free_inodes_count g) 16)) (splice 44 (le 2 (Z.shiftr (free_blocks_count g) 16)) d))).
Definition all_counts (g : Ext4Group) (d : list Z) : list Z := if 64 <=? len d then high_counts g (low_counts g d) else low_counts g d.

Lemma low_counts_seg g d : 32 ≤ len d →
  len (low_counts g d) = len d ∧ seg 0 12 (low_counts g d) = seg 0 12 d ∧ (∀ b, seg 32 b (low_counts g d) = seg 32 b d) ∧
  seg 12 14 (low_counts g d) = le 2 (free_blocks_count g) ∧ seg 14 16 (low_counts g d) = le 2 (free_inodes_count g) ∧ seg 16 18 (low_counts g d) = le 2 (used_dirs_count g) ∧
  seg 18 20 (low_counts g d) = le 2 (g_flags g) ∧ seg 28 30 (low_counts g d) = le 2 (itable_unused g).
Proof. intros Hl. unfold low_counts. split_and!; [lens|by seg_splice|intros b; by seg_splice|seg_splice..]; apply seg_all, len_le. Qed.

Lemma high_counts_seg g d : 64 ≤ len d →
  len (high_counts g d) = len d ∧ (∀ a b, 0 ≤ a → b ≤ 44 → seg a b (high_counts g d) = seg a b d) ∧
  seg 44 46 (high_counts g d) = le 2 (Z.shiftr (free_blocks_count g) 16) ∧ seg 46 48 (high_counts g d) = le 2 (Z.shiftr (free_inodes_count g) 16) ∧
  seg 48 50 (high_counts g d) = le 2 (Z.shiftr (used_dirs_count g) 16) ∧ seg 50 52 (high_counts g d) = le 2 (Z.shiftr (itable_unused g) 16).
Proof. intros Hl. unfold high_counts. split_and!; [lens|intros a b Ha Hb; by seg_splice|seg_splice..]; apply seg_all, len_le. Qed.

Lemma all_counts_seg g d : len d = 32 ∨ 64 ≤ len d →
  len (all_counts g d) = len d ∧ seg 0 12 (all_counts g d) = seg 0 12 d ∧ (64 ≤ len d → seg 32 44 (all_counts g d) = seg 32 44 d) ∧
  seg 18 20 (all_counts g d) = le 2 (g_flags g) ∧
  ∀ lo hi x, (lo, hi, x) ∈ [(12, 44, free_blocks_count g); (14, 46, free_inodes_count g); (16, 48, used_dirs_count g); (28, 50, itable_unused g)] →
    seg lo (lo + 2) (all_counts g d) = le 2 x ∧ (64 ≤ len d → seg hi (hi + 2) (all_counts g d) = le 2 (Z.shiftr x 16)).
Proof.
  intros Hsz. unfold all_counts. destruct (low_counts_seg g d ltac:(lia)) as (L0 & L1 & L2 & L3 & L4 & L5 & L6 & L7). destruct Hsz as [H32|H64]; decide_tests.
  - split_and!; [done|done|lia|done|]. intros lo hi x Hx. rewrite !elem_of_cons, elem_of_nil in Hx. destruct Hx as [[= -> -> ->]|[[= -> -> ->]|[[= -> -> ->]|[[= -> -> ->]|[]]]]]; (split; [done|lia]).
  - destruct (high_counts_seg g (low_counts g d) ltac:(lia)) as (K0 & K1 & K2 & K3 & K4 & K5).
    split_and!; [congruence|rewrite K1 by lia; done|intros _; rewrite K1 by lia; apply L2|rewrite K1 by lia; done|].
    intros lo hi x Hx. rewrite !elem_of_cons, elem_of_nil in Hx. destruct Hx as [[= -> -> ->]|[[= -> -> ->]|[[= -> -> ->]|[[= -> -> ->]|[]]]]]; (split; [rewrite K1 by lia; done|done]).
Qed.

Lemma all_counts_new gid g g' d : len d = 32 ∨ 64 ≤ len d → group_new gid d = Some g → same_place g g' → counts_fit (len d) g' → group_new gid (all_counts g' d) = Some g'.
Proof.
  intros Hsz Hg (P1 & P2 & P3 & P4) [F1 F2 F3 F4 F5]. destruct (all_counts_seg g' d Hsz) as (L0 & L1 & L2 & L3 & L4).
  rewrite group_new_eq in Hg by lia. rewrite group_new_eq by lia. destruct (wide_desc d) eqn:Hw; [done|]. injection Hg as <-. cbn in P1, P2, P3, P4.
  assert (wide_desc (all_counts g' d) = false) as ->.
  { rewrite <-Hw. unfold wide_desc. rewrite L0. destruct (64 <=? len d) eqn:H64; [|done]. apply Z.leb_le in H64. by rewrite !(seg_within d (all_counts g' d) 32 44) by (auto; lia). }
  assert (∀ lo hi x, (lo, hi, x) ∈ [(12, 44, free_blocks_count g'); (14, 46, free_inodes_count g'); (16, 48, used_dirs_count g'); (28, 50, itable_unused g')] → lo + 2 ≤ 32 → hi + 2 ≤ 52 → 32 < hi →
    0 ≤ x < 2 ^ 32 ∧ (len d < 64 → x < 2 ^ 16) → desc_field (all_counts g' d) lo hi = x) as Hd.
  { intros lo hi x Hin H1 H2 H3 [H4 H5]. destruct (L4 lo hi x Hin) as [A B]. apply desc_field_new; [lia|done|rewrite L0; intros; apply B; lia|done|rewrite L0; intros; apply H5; lia]. }
  rewrite (Hd 12 44 (free_blocks_count g')), (Hd 14 46 (free_inodes_count g')), (Hd 16 48 (used_dirs_count g')), (Hd 28 50 (itable_unused g')) by (done || lia || (rewrite !elem_of_cons; tauto)).
  rewrite !(seg_within d (all_counts g' d) 0 12) by (done || lia). rewrite L3, of_le_small by (change (8 * Z.of_nat 2) with 16; lia). destruct g'; cbn in *. by subst.
Qed.

(** ** Descriptors of a volume *)

Section volume.
Context (sb : Ext4SuperBlock).

Lemma put_counts_ok gid g g' bm kind d : len d = 32 ∨ 64 ≤ len d → all_bytes d → group_new gid d = Some g → same_place g g' → counts_fit (len d) g' →
  (∀ n, bitmap_checksum_len sb kind = Some n → 0 ≤ n ≤ len bm) → ∃ d', put_counts sb g' bm kind d = Some d' ∧ len d' = len d ∧ all_bytes d' ∧ group_new gid d' = Some g'.
Proof.
  intros Hsz Hb Hg Hp Hf Hn. pose proof (all_counts_new gid g g' d Hsz Hg Hp Hf) as Hnew. destruct (all_counts_seg g' d Hsz) as (L0 & _).
  assert (all_bytes (all_counts g' d)) as Hb' by (unfold all_counts; destruct (_ <=? _); unfold high_counts, low_counts; bytes).
  unfold put_counts. repeat (rewrite put_in by lens; step_some). fold (low_counts g' d).
  assert ((if 64 <=? len (low_counts g' d) then desc ← put (low_counts g' d) 44 (le 2 (Z.shiftr (free_blocks_count g') 16)); desc ← put desc 46 (le 2 (Z.shiftr (free_inodes_count g') 16));
      desc ← put desc 48 (le 2 (Z.shiftr (used_dirs_count g') 16)); put desc 50 (le 2 (Z.shiftr (itable_unused g') 16)) else Some (low_counts g' d)) = Some (all_counts g' d)) as ->.
  { destruct (low_counts_seg g' d ltac:(lia)) as (K0 & _). unfold all_counts. rewrite K0. destruct (64 <=? len d) eqn:H64; [|done]. apply Z.leb_le in H64. repeat (rewrite put_in by lens; try step_some). done. }
  step_some. destruct (has_metadata_csum sb); [|by eexists]. destruct (bitmap_checksum_len sb kind) as [n|]; [|by eexists]. specialize (Hn n eq_refl). rewrite slice_ok by lia. step_some.
  destruct (bitmap_csum_same (metadata_checksum_seed sb) (seg 0 n bm) (all_counts g' d) kind ltac:(lia) ltac:(lia)) as (r & d' & -> & Hs & Hbs). step_some. exists d'. split_and!; [done|destruct Hs as [-> _]; done|auto|].
  rewrite <-Hnew. apply group_new_same; (done || lia).
Qed.

(** What the mount checks of the descriptors' size. *)
Definition desc_ok : Prop := (desc_size sb = 32 ∨ 64 ≤ desc_size sb) ∧ BLOCK_SZ mod desc_size sb = 0.

Definition desc_block (i : Z) : Z := fst (group_desc_pos sb i).
Definition desc_off (i : Z) : Z := snd (group_desc_pos sb i).
Definition desc_of (fs : Ext4FS) (i : Z) : list Z := seg (desc_off i) (desc_off i + desc_size sb) (volume fs (desc_block i)).

(** Each block of the volume is a block of bytes. *)
Definition volume_bytes (fs : Ext4FS) : Prop := ∀ b, len (volume fs b) = BLOCK_SZ ∧ all_bytes (volume fs b).

Lemma write_full fs b v c : volume_bytes fs → len v = BLOCK_SZ → volume (fs_write b v fs) c = if c =? b then v else volume fs c.
Proof.
  intros Hv Hl. cbn [fs_write volume]. destruct (c =? b); [|done]. destruct (Hv b) as [Hb _]. rewrite splice_parts by lia. by rewrite Z.add_0_l, !seg_nil, app_nil_r by lia.
Qed.

Lemma write_bytes fs b v : volume_bytes fs → len v = BLOCK_SZ → all_bytes v → volume_bytes (fs_write b v fs).
Proof. intros Hv Hl Hb c. rewrite write_full by done. destruct (c =? b); [done|apply Hv]. Qed.

Lemma desc_off_ok i : desc_ok → 0 ≤ i → 0 ≤ desc_off i ∧ desc_off i + desc_size sb ≤ BLOCK_SZ.
Proof.
  intros [Hs Hd] Hi. unfold desc_off, group_desc_pos, BLOCK_SZ in *. cbn [snd]. pose proof (Z.mod_pos_bound (i * desc_size sb) 4096 ltac:(lia)). split; [lia|].
  apply Z.mod_divide in Hd as [k Hk]; [|lia]. pose proof (Z.div_mod (i * desc_size sb) 4096 ltac:(lia)). set (q := i * desc_size sb / 4096) in *. set (o := (i * desc_size sb) mod 4096) in *.
  assert (o = (i - k * q) * desc_size sb) by nia. assert (i - k * q < k) by nia. nia.
Qed.

Lemma desc_apart i j : desc_ok → i ≠ j → desc_block i = desc_block j → desc_off i + desc_size sb ≤ desc_off j ∨ desc_off j + desc_size sb ≤ desc_off i.
Proof.
  intros [Hs _] Hne Hb. unfold desc_block, desc_off, group_desc_pos, BLOCK_SZ in *. cbn [fst snd] in *. pose proof (Z.div_mod (i * desc_size sb) 4096 ltac:(lia)). pose proof (Z.div_mod (j * desc_size sb) 4096 ltac:(lia)).
  assert (i * desc_size sb / 4096 = j * desc_size sb / 4096) by lia. destruct (decide (i < j)); [left|right]; nia.
Qed.

Lemma update_group_desc_ok fs gid f d' g : desc_ok → volume_bytes fs → 0 ≤ gid → f (desc_of fs gid) = Some d' → len d' = desc_size sb → all_bytes d' → group_new gid d' = Some g →
  ∃ fs', update_group_desc sb gid f fs = Some fs' ∧ block_groups fs' = block_groups fs ∧ volume_bytes fs' ∧ (∀ c, c ≠ desc_block gid → volume fs' c = volume fs c) ∧
    (∀ i, 0 ≤ i → i ≠ gid → desc_of fs' i = desc_of fs i) ∧ group_new gid (desc_of fs' gid) = Some g.
Proof.
  intros Hd Hv Hg Hf Hl Hb Hn. destruct (desc_off_ok gid Hd Hg) as [Ho1 Ho2]. destruct (Hv (desc_block gid)) as [Hv1 Hv2]. unfold update_group_desc. destruct (group_desc_pos sb gid) as [blk o] eqn:Hp.
  assert (blk = desc_block gid) as -> by (unfold desc_block; by rewrite Hp). assert (o = desc_off gid) as -> by (unfold desc_off; by rewrite Hp). unfold fs_read. destruct Hd as [Hsz Hdiv]. rewrite slice_ok by lia. step_some. fold (desc_of fs gid). rewrite Hf. step_some.
  assert (∃ d'', (if has_metadata_csum sb then '(_, desc) ← set_group_desc_checksum (metadata_checksum_seed sb) gid d'; Some desc else Some d') = Some d'' ∧ len d'' = desc_size sb ∧ all_bytes d'' ∧ group_new gid d'' = Some g) as (d'' & -> & L & B & G).
  { destruct (has_metadata_csum sb); [|by eexists]. destruct (group_csum_same (metadata_checksum_seed sb) gid d' ltac:(lia) ltac:(lia)) as (r & d'' & -> & Hs & Hbs & _). step_some. exists d''. split_and!; [done|destruct Hs as [-> _]; done|auto|]. rewrite <-Hn. apply group_new_same; (done || lia). }
  step_some. rewrite put_in by lia. step_some. eexists. split; [done|]. set (v := splice (desc_off gid) d'' (volume fs (desc_block gid))). assert (len v = BLOCK_SZ) as Hlv by (unfold v; rewrite len_splice; lia).
  assert (all_bytes v) as Hbv by by apply Forall_splice. split_and!; [done|by apply write_bytes| | |].
  - intros c Hc. rewrite write_full by done. by rewrite (proj2 (Z.eqb_neq _ _) Hc).
  - intros i Hi Hne. unfold desc_of. rewrite write_full by done. destruct (desc_block i =? desc_block gid) eqn:Hc; [|done]. apply Z.eqb_eq in Hc. rewrite Hc. unfold v.
    destruct (desc_off_ok i (conj Hsz Hdiv) Hi). destruct (desc_apart i gid (conj Hsz Hdiv) Hne Hc); [apply seg_splice_left; lia|apply seg_splice_right; lia].
  - unfold desc_of. rewrite write_full by done. rewrite Z.eqb_refl. unfold v. rewrite <-L, seg_splice_same by lia. done.
Qed.

(** ** The counters of the superblock *)

Definition sb_raw (fs : Ext4FS) : list Z := seg 1024 2048 (volume fs 0).
Definition sb_free_blocks (fs : Ext4FS) : Z := Z.lor (of_le (seg 12 16 (sb_raw fs))) (Z.shiftl (of_le (seg 344 348 (sb_raw fs))) 32).
Definition sb_free_inodes (fs : Ext4FS) : Z := of_le (seg 16 20 (sb_raw fs)).
Definition adjusted64 (x delta : Z) : Z := if 0 <=? delta then saturating_add x delta else saturating_sub x (- delta).
Definition adjusted32 (x delta : Z) : Z := if 0 <=? delta then sat_add32 x delta else sat_sub32 x (- delta).

Lemma join32 x : 0 ≤ x < 2 ^ 64 → Z.lor (of_le (le 4 x)) (Z.shiftl (of_le (le 4 (Z.shiftr x 32))) 32) = x.
Proof.
  intros Hx. rewrite !of_le_le. change (8 * Z.of_nat 4) with 32. rewrite (Z.mod_small (Z.shiftr x 32)).
  - rewrite <-Z.land_ones by lia. apply Z.bits_inj'. intros i Hi. rewrite Z.lor_spec, Z.land_spec, Z.shiftl_spec by lia. destruct (decide (i < 32)).
    + rewrite Z.ones_spec_low by lia. rewrite (Z.testbit_neg_r _ (i - 32)) by lia. by rewrite andb_true_r, orb_false_r.
    + rewrite (Z.ones_spec_high 32 i) by lia. rewrite (Z.shiftr_spec x 32 (i - 32)) by lia. rewrite andb_false_r. cbn [orb]. f_equal. lia.
  - rewrite Z.shiftr_div_pow2 by lia. split; [apply Z.div_pos; lia|]. apply Z.div_lt_upper_bound; lia.
Qed.

Lemma sb_free_range fs : volume_bytes fs → 0 ≤ sb_free_blocks fs < 2 ^ 64 ∧ 0 ≤ sb_free_inodes fs < 2 ^ 32.
Proof.
  intros Hv. destruct (Hv 0) as [Hl Hb]. unfold BLOCK_SZ in Hl. assert (∀ a, 0 ≤ a → a + 4 ≤ 1024 → 0 ≤ of_le (seg a (a + 4) (sb_raw fs)) < 2 ^ 32) as Hr.
  { intros a Ha1 Ha2. unfold sb_raw. rewrite seg_seg by lia. pose proof (of_le_range (seg (1024 + a) (1024 + (a + 4)) (volume fs 0)) (Forall_seg _ _ _ _ Hb)) as R.
    assert (len (seg (1024 + a) (1024 + (a + 4)) (volume fs 0)) = 4) as L by lens. unfold len in L. replace (length _) with 4%nat in R by lia. exact R. }
  split; [|apply (Hr 16); lia]. pose proof (Hr 12 ltac:(lia) ltac:(lia)) as R1. pose proof (Hr 344 ltac:(lia) ltac:(lia)) as R2. unfold sb_free_blocks. change (12 + 4) with 16 in R1. change (344 + 4) with 348 in R2.
  revert R1 R2. generalize (of_le (seg 12 16 (sb_raw fs))) as a, (of_le (seg 344 348 (sb_raw fs))) as b. intros a b Ha Hb'. split; [apply Z.lor_nonneg; split; [lia|apply Z.shiftl_nonneg; lia]|].
  rewrite <-(Z.mod_small a (2 ^ 64)), <-(Z.mod_small (Z.shiftl b 32) (2 ^ 64)) by (rewrite ?Z.shiftl_mul_pow2 by lia; lia). rewrite <-!Z.land_ones by lia. rewrite <-Z.land_lor_distr_l, Z.land_ones by lia. apply Z.mod_pos_bound. lia.
Qed.

Lemma adjust_u64_ok raw delta : len raw = 1024 → all_bytes raw → 0 ≤ Z.lor (of_le (seg 12 16 raw)) (Z.shiftl (of_le (seg 344 348 raw)) 32) < 2 ^ 64 →
  let x := adjusted64 (Z.lor (of_le (seg 12 16 raw)) (Z.shiftl (of_le (seg 344 348 raw)) 32)) delta in
  adjust_u64 raw 12 344 delta = Some (splice 344 (le 4 (Z.shiftr x 32)) (splice 12 (le 4 x) raw)) ∧ 0 ≤ x < 2 ^ 64.
Proof.
  intros Hl Hb Hr x. split; [|unfold x, adjusted64, saturating_add, saturating_sub, U64_MAX; destruct (Z.leb_spec 0 delta); lia].
  unfold adjust_u64. rewrite !slice_ok by lens. step_some. step_some. fold (adjusted64 (Z.lor (of_le (seg 12 (12 + 4) raw)) (Z.shiftl (of_le (seg 344 (344 + 4) raw)) 32)) delta). change (12 + 4) with 16. change (344 + 4) with 348. fold x. rewrite put_in by lens. step_some. by rewrite put_in by lens.
Qed.

Lemma adjust_superblock_ok fs bd id : volume_bytes fs → 
  ∃ fs', adjust_superblock_counts sb bd id fs = Some fs' ∧ block_groups fs' = block_groups fs ∧ volume_bytes fs' ∧ (∀ c, c ≠ 0 → volume fs' c = volume fs c) ∧
    sb_free_blocks fs' = adjusted64 (sb_free_blocks fs) bd ∧ sb_free_inodes fs' = adjusted32 (sb_free_inodes fs) id.
Proof.
  intros Hv. destruct (sb_free_range fs Hv) as [R1 R2]. destruct (Hv 0) as [Hl Hb]. unfold adjust_superblock_counts, fs_read. change (EXT4_SUPERBLOCK_OFFSET) with 1024. change EXT4_SUPERBLOCK_SIZE with 1024. change (1024 + 1024) with 2048.
  assert (len (sb_raw fs) = 1024) as Hraw by (unfold sb_raw, BLOCK_SZ in *; lens). assert (all_bytes (sb_raw fs)) as Hrb by by apply Forall_seg.
  rewrite slice_ok by (unfold BLOCK_SZ in *; lia). step_some. fold (sb_raw fs). destruct (adjust_u64_ok (sb_raw fs) bd Hraw Hrb R1) as [H1 H2]. fold (sb_free_blocks fs) in H1, H2. set (x := adjusted64 (sb_free_blocks fs) bd) in *. rewrite H1. step_some.
  rewrite slice_ok by lens. step_some. change (16 + 4) with 20. seg_splice. fold (sb_free_inodes fs). fold (adjusted32 (sb_free_inodes fs) id). set (y := adjusted32 (sb_free_inodes fs) id).
  assert (0 ≤ y < 2 ^ 32) as Hy by (unfold y, adjusted32, sat_add32, sat_sub32; destruct (Z.leb_spec 0 id); lia). rewrite put_in by lens. step_some. set (raw := splice 16 (le 4 y) _).
  assert (len raw = 1024) as Hr1 by (unfold raw; lens). assert (all_bytes raw) as Hr2 by (unfold raw; bytes).
  assert (∃ raw', (if has_metadata_csum sb then '(_, raw) ← set_superblock_checksum raw; Some raw else Some raw) = Some raw' ∧ len raw' = 1024 ∧ all_bytes raw' ∧ seg 0 1020 raw' = seg 0 1020 raw) as (raw' & -> & L & B & S).
  { destruct (has_metadata_csum sb); [|by eexists]. unfold set_superblock_checksum. rewrite superblock_checksum_covers by lia. generalize (crc32c (2 ^ 32 - 1) (seg 0 1020 raw)) as c. intros c. step_some. consts. rewrite put_in by lens. step_some. step_some. eexists. split; [done|]. split_and!; [lens|bytes|by seg_splice]. }
  step_some. unfold BLOCK_SZ in Hl. rewrite put_in by lia. step_some. eexists. split; [done|].
  assert (len (splice 1024 raw' (volume fs 0)) = BLOCK_SZ) as Hlv by (rewrite len_splice by lia; done). assert (all_bytes (splice 1024 raw' (volume fs 0))) by by apply Forall_splice.
  assert (sb_raw (fs_write 0 (splice 1024 raw' (volume fs 0)) fs) = raw') as Hraw'. { unfold sb_raw. rewrite write_full by done. rewrite Z.eqb_refl. replace 2048 with (1024 + len raw') by lia. apply seg_splice_same; lia. }
  assert (∀ a b, 0 ≤ a ≤ b → b ≤ 1020 → seg a b raw' = seg a b raw) as Hseg by (intros a b Ha Hab; apply (seg_within raw raw' 0 1020); (done || lia)).
  split_and!; [done|by apply write_bytes|intros c Hc; rewrite write_full by done; by rewrite (proj2 (Z.eqb_neq _ _) Hc)| |].
  - unfold sb_free_blocks. rewrite Hraw', !Hseg by lia. unfold raw. seg_splice. rewrite !seg_all by apply len_le. by apply join32.
  - unfold sb_free_inodes. rewrite Hraw', !Hseg by lia. unfold raw. seg_splice. rewrite !seg_all by apply len_le. by apply of_le_small.
Qed.

End volume.
