(* ===== verification/Ext4AllocLayout.v ===== *)
(** * Bitmaps built from the layout of the volume

    What the file system keeps for itself: the copies of superblock and descriptors with
    their reserved blocks, the bitmaps, the inode tables and the reserved inodes.  The bitmap
    built for a group that was never initialized shows exactly that, and it is accepted just
    when its clear bits are as many as the group counts. *)

From S2P Require Import Prelude Bytes Ext4Checksum Ext4Super Ext4Alloc Ext4AllocInv.

Local Open Scope Z_scope.

Lemma bitset_zeros n j : bitset (zeros n) j = false.
Proof. unfold bitset, index. case_match eqn:E; [|done]. case_match; [|done]. unfold zeros in E. apply lookup_replicate in E as [-> _]. apply Z.testbit_0_l. Qed.

#[local] Opaque crc32c zeros.

Lemma set_bitmap_bit_ok bm i ok bm' : 0 ≤ i → all_bytes bm → set_bitmap_bit bm i = (ok, bm') →
  len bm' = len bm ∧ all_bytes bm' ∧ (ok = true → ∀ j, 0 ≤ j → bitset bm' j = bool_decide (j = i) || bitset bm j).
Proof.
  intros Hi Hb. unfold set_bitmap_bit. destruct (index bm (i / 8)) as [v|] eqn:Hv; intros [= <- <-]; [|done].
  assert (0 ≤ i < 8 * len bm) as Hr. { unfold index in Hv. destruct (0 <=? i / 8) eqn:H0; [|done]. apply lookup_lt_Some in Hv. apply Z.leb_le in H0. unfold len. pose proof (Z.div_mod i 8 ltac:(lia)). pose proof (Z.mod_pos_bound i 8 ltac:(lia)). lia. }
  destruct (set_bit_ok bm i Hr Hb) as (S1 & S2 & S3). unfold set_bit in *. rewrite Hv in *. done.
Qed.

Lemma set_bits_ok bits : ∀ bm ok bm', (∀ i, i ∈ bits → 0 ≤ i) → all_bytes bm → set_bits bits bm = (ok, bm') →
  len bm' = len bm ∧ all_bytes bm' ∧ (ok = true → ∀ j, 0 ≤ j → bitset bm' j = bool_decide (j ∈ bits) || bitset bm j).
Proof.
  induction bits as [|i bits IH]; intros bm ok bm' Hin Hb; cbn [set_bits]; [intros [= <- <-]; split_and!; [done..|]; intros _ j Hj; rewrite bool_decide_false by apply not_elem_of_nil; done|].
  destruct (set_bitmap_bit bm i) as [ok1 bm1] eqn:H1. destruct (set_bitmap_bit_ok bm i ok1 bm1 (Hin i ltac:(apply elem_of_cons; by left)) Hb H1) as (L1 & B1 & S1).
  destruct ok1; intros H2; [|injection H2 as <- <-; done]. destruct (IH bm1 ok bm' ltac:(intros j Hj; apply Hin, elem_of_cons; by right) B1 H2) as (L2 & B2 & S2). split_and!; [congruence|done|].
  intros Hok j Hj. rewrite S2, S1 by done. rewrite orb_assoc. f_equal. destruct (decide (j = i)) as [->|Hne]; [rewrite (bool_decide_true (i = i)), (bool_decide_true (i ∈ i :: bits)) by (done || (apply elem_of_cons; by left)); apply orb_true_r|].
  rewrite (bool_decide_false (j = i)), orb_false_r by done. apply bool_decide_ext. rewrite elem_of_cons. tauto.
Qed.

(** All bits of the range are inside the bitmap. *)
Lemma set_bits_in bits : ∀ bm, (∀ i, i ∈ bits → 0 ≤ i < 8 * len bm) → all_bytes bm →
  ∃ bm', set_bits bits bm = (true, bm') ∧ len bm' = len bm ∧ all_bytes bm' ∧ ∀ j, 0 ≤ j → bitset bm' j = bool_decide (j ∈ bits) || bitset bm j.
Proof.
  intros bm Hin Hb. destruct (set_bits bits bm) as [ok bm'] eqn:E. assert (ok = true) as ->.
  { revert bm Hin Hb E. induction bits as [|i bits IH]; intros bm Hin Hb; cbn [set_bits]; [by intros [= <- <-]|]. assert (0 ≤ i < 8 * len bm) as Hi by (apply Hin, elem_of_cons; by left).
    destruct (set_bitmap_bit bm i) as [ok1 bm1] eqn:E1. destruct (set_bitmap_bit_ok bm i ok1 bm1 ltac:(lia) Hb E1) as (L1 & B1 & _). destruct (bit_byte bm i Hi) as (v & Hv & _). unfold set_bitmap_bit in E1. rewrite Hv in E1. injection E1 as <- <-.
    apply IH; [|done]. intros j Hj. rewrite L1. apply Hin, elem_of_cons. by right. }
  destruct (set_bits_ok bits bm true bm') as (L & B & S); [intros i Hi; by apply Hin|done..|]. exists bm'. split_and!; auto.
Qed.

Section volume.
Context (sb : Ext4SuperBlock).

(** ** The layout *)

(** The groups with a copy of superblock and descriptors: the first one, and those the
    superblock lists; or all of them; or group 1 and the powers of 3, 5 and 7. *)
Definition power_of (f gid : Z) : Prop := ∃ e, 0 < e ∧ gid = f ^ e.

Definition backup_group (gid : Z) : Prop :=
  gid = 0 ∨
  if decide (Z.land (compat_features sb) 0x0200 ≠ 0) then gid ∈ backup_bgs sb
  else Z.land (ro_compat_features sb) 0x0001 = 0 ∨ gid = 1 ∨ power_of 3 gid ∨ power_of 5 gid ∨ power_of 7 gid.

(** The bitmaps and the inode table of a group. *)
Definition layout_block (table_blocks : Z) (g : Ext4Group) (b : Z) : Prop :=
  b = block_bitmap_id g ∨ b = inode_bitmap_id g ∨ inode_table_id g ≤ b < inode_table_id g + table_blocks.

Definition gdt_blocks (n : Z) : Z := (n * desc_size sb + BLOCK_SZ - 1) / BLOCK_SZ.
Definition table_blocks : Z := (inodes_per_group sb * inode_size sb + block_size sb - 1) / block_size sb.

(** A volume the kernel mounts: the geometry of the superblock, and the places of the groups.
    The descriptors lie behind the superblock of each copy ([META_BG] is not set). *)
Record layout_ok (gs : list Ext4Group) : Prop := {
  lo_desc : desc_ok sb;
  lo_block : block_size sb = BLOCK_SZ;
  lo_bpg : 0 < blocks_per_group sb ≤ 8 * BLOCK_SZ;
  lo_ipg : 0 < inodes_per_group sb ≤ 8 * BLOCK_SZ;
  lo_bytes : blocks_per_group sb mod 8 = 0 ∧ inodes_per_group sb mod 8 = 0;
  lo_fdb : 0 ≤ first_data_block sb;
  lo_blocks : total_blocks sb < 2 ^ 32;
  lo_inodes : total_inodes sb ≤ len gs * inodes_per_group sb < 2 ^ 32;
  lo_isize : 0 ≤ inode_size sb < 2 ^ 16;
  lo_resv : 0 ≤ reserved_gdt_blocks sb;
  lo_num : group_num sb = Some (len gs);
  lo_gdt : 1 + gdt_blocks (len gs) + reserved_gdt_blocks sb ≤ blocks_per_group sb;
  lo_meta_bg : Z.land (incompat_features sb) 0x0010 = 0;
  lo_ids : ∀ i g, gs !! i = Some g → group_id g = Z.of_nat i ∧ 0 ≤ inode_table_id g;
  lo_behind : ∀ g, g ∈ gs → first_data_block sb + gdt_blocks (len gs) < block_bitmap_id g ∧ first_data_block sb + gdt_blocks (len gs) < inode_bitmap_id g;
  lo_apart : NoDup ((block_bitmap_id <$> gs) ++ (inode_bitmap_id <$> gs));
}.

(** The blocks the file system keeps for itself: each copy of superblock and descriptors with
    the blocks reserved behind it, the bitmaps and the inode tables. *)
Definition metadata (gs : list Ext4Group) (b : Z) : Prop :=
  (∃ gid, 0 ≤ gid < len gs ∧ backup_group gid ∧
    first_data_block sb + gid * blocks_per_group sb ≤ b < first_data_block sb + gid * blocks_per_group sb + 1 + gdt_blocks (len gs) + reserved_gdt_blocks sb) ∨
  ∃ g, g ∈ gs ∧ layout_block table_blocks g b.

(** Block or inode [j] of group [gid] is never handed out: metadata, or one of the inodes
    below [first_ino]. *)
Definition kept (k : BitmapKind) (gs : list Ext4Group) (gid j : Z) : Prop :=
  match k with
  | BlockBitmap => metadata gs (first_data_block sb + gid * blocks_per_group sb + j)
  | InodeBitmap => gid = 0 ∧ j + 1 < first_ino sb
  end.

Definition group_ids_ok (g : Ext4Group) : Prop := 0 ≤ block_bitmap_id g ∧ 0 ≤ inode_bitmap_id g ∧ 0 ≤ inode_table_id g.

Lemma gdt_nonneg gs : layout_ok gs → 0 ≤ gdt_blocks (len gs).
Proof. intros Hl. apply Z.div_pos; [pose proof (lo_desc gs Hl) as [? _]; unfold BLOCK_SZ; pose proof (len_nonneg gs); nia|done]. Qed.

Lemma layout_ids gs : layout_ok gs → Forall group_ids_ok gs.
Proof.
  intros Hl. apply Forall_forall. intros g Hg. destruct (lo_behind gs Hl g Hg). pose proof (lo_fdb gs Hl). pose proof (gdt_nonneg gs Hl).
  apply list_elem_of_lookup in Hg as [i Hi]. destruct (lo_ids gs Hl i g Hi). split_and!; lia.
Qed.

(** A group with a block in it starts where the layout says. *)
Lemma group_start_eq gs gid j : layout_ok gs → 0 ≤ gid → 0 ≤ j < group_block_count sb gid →
  group_start sb gid = first_data_block sb + gid * blocks_per_group sb ∧ group_start sb gid + j < total_blocks sb ∧ group_block_count sb gid ≤ blocks_per_group sb.
Proof.
  intros Hl Hg Hj. pose proof (lo_fdb gs Hl). pose proof (lo_blocks gs Hl). pose proof (lo_bpg gs Hl). assert (0 ≤ gid * blocks_per_group sb) by nia. unfold group_block_count, group_start, sat_sub32, sat_add32, sat_mul32 in *. lia.
Qed.

(** ** The copies *)

Lemma power_loop_ok fuel : ∀ x f, 2 ≤ f → 0 < x < 2 ^ Z.of_nat fuel → ∃ r e, is_power_loop fuel x f = Some r ∧ 0 < r ∧ 0 ≤ e ∧ r mod f ≠ 0 ∧ x = r * f ^ e.
Proof.
  induction fuel as [|fuel IH]; intros x f Hf Hx; [cbn in Hx; lia|]. cbn [is_power_loop]. destruct (x mod f =? 0) eqn:Hm; [apply Z.eqb_eq in Hm|apply Z.eqb_neq in Hm; exists x, 0; split_and!; (done || lia)].
  pose proof (Z.div_mod x f ltac:(lia)) as Hd. rewrite Nat2Z.inj_succ, Z.pow_succ_r in Hx by lia. destruct (IH (x / f) f Hf) as (r & e & -> & Hr & He & Hmod & Heq); [split; [nia|]; apply Z.div_lt_upper_bound; [lia|]; nia|].
  exists r, (e + 1). split_and!; [done|done|lia|done|]. rewrite Z.pow_add_r, Z.pow_1_r by lia. rewrite Hm, Heq in Hd. lia.
Qed.

Lemma power_of_ok gid f : 2 ≤ f → 0 ≤ gid < 2 ^ 32 → ∃ r, is_power_of_group gid f = Some r ∧ (r = true ↔ power_of f gid).
Proof.
  intros Hf Hg. unfold is_power_of_group. destruct (Z.ltb_spec gid f) as [Hl|Hl].
  { exists false. split; [done|]. split; [done|]. intros (e & He & ->). replace e with (e - 1 + 1) in Hl by lia. rewrite Z.pow_add_r, Z.pow_1_r in Hl by lia. pose proof (Z.pow_pos_nonneg f (e - 1) ltac:(lia) ltac:(lia)). nia. }
  destruct (power_loop_ok 33 gid f Hf) as (r & e & -> & Hr & He & Hmod & Heq); [change (Z.of_nat 33) with 33; lia|]. step_some. eexists. split; [done|]. rewrite Z.eqb_eq. split.
  - intros ->. exists e. split; [|lia]. destruct (decide (e = 0)) as [->|]; lia.
  - intros (e' & He' & Hp). rewrite Hp in Heq. destruct (decide (e' ≤ e)) as [Hle|Hgt].
    + replace e with (e' + (e - e')) in Heq by lia. rewrite Z.pow_add_r in Heq by lia. pose proof (Z.pow_pos_nonneg f e' ltac:(lia) ltac:(lia)). pose proof (Z.pow_pos_nonneg f (e - e') ltac:(lia) ltac:(lia)). assert (r * f ^ (e - e') = 1) by nia. nia.
    + exfalso. apply Hmod. replace e' with (e + (e' - e - 1 + 1)) in Heq by lia. rewrite Z.pow_add_r, (Z.pow_add_r f (e' - e - 1) 1), Z.pow_1_r in Heq by lia. pose proof (Z.pow_pos_nonneg f e ltac:(lia) ltac:(lia)).
      assert (r = f ^ (e' - e - 1) * f) as -> by nia. apply Z.mod_mul. lia.
Qed.

Lemma backup_ok gid : 0 ≤ gid < 2 ^ 32 → ∃ r, group_has_super_backup sb gid = Some r ∧ (r = true ↔ backup_group gid).
Proof.
  intros Hg. unfold group_has_super_backup, backup_group. destruct (Z.eqb_spec gid 0) as [->|H0]; [exists true; tauto|]. destruct (Z.eqb_spec (Z.land (compat_features sb) 0x0200) 0) as [Hc|Hc]; cbn [negb]; [rewrite decide_False by tauto|rewrite decide_True by done].
  2: { eexists. split; [done|]. rewrite bool_decide_eq_true. tauto. }
  destruct (Z.eqb_spec (Z.land (ro_compat_features sb) 0x0001) 0) as [Hr|Hr]; [exists true; tauto|]. destruct (Z.eqb_spec gid 1) as [->|H1]; [exists true; tauto|].
  destruct (power_of_ok gid 3 ltac:(lia) Hg) as (r3 & -> & E3). step_some. destruct r3; [exists true; tauto|]. destruct (power_of_ok gid 5 ltac:(lia) Hg) as (r5 & -> & E5). step_some. destruct r5; [exists true; tauto|].
  destruct (power_of_ok gid 7 ltac:(lia) Hg) as (r7 & -> & E7). exists r7. split; [done|]. assert (¬ power_of 3 gid) by (by intros ?%E3). assert (¬ power_of 5 gid) by (by intros ?%E5). tauto.
Qed.

(** ** The bitmap of a group *)

Lemma reserve_ok gs gid bm start count : layout_ok gs → 0 ≤ gid → 0 ≤ start → all_bytes bm → group_block_count sb gid ≤ 8 * len bm →
  ∃ bm', reserve_physical_range_in_group_bitmap sb gid bm start count = (true, bm') ∧ len bm' = len bm ∧ all_bytes bm' ∧
    ∀ j, 0 ≤ j < group_block_count sb gid → bitset bm' j = true ↔ bitset bm j = true ∨ start ≤ group_start sb gid + j < start + count.
Proof.
  intros Hl Hg Hs Hb Hn. unfold reserve_physical_range_in_group_bitmap. set (bits := _ <$> _). destruct (set_bits_in bits bm) as (bm' & E & L & B & S).
  { intros i (p & -> & Hp)%list_elem_of_fmap. apply elem_of_seqZ in Hp. unfold sat_add32 in Hp. lia. }
  { done. }
  exists bm'. split_and!; [done..|]. intros j Hj. rewrite S, orb_true_iff, bool_decide_eq_true by lia. destruct (group_start_eq gs gid j Hl Hg Hj) as (_ & Hlt & _). pose proof (lo_blocks gs Hl).
  assert (j ∈ bits ↔ start ≤ group_start sb gid + j < start + count); [|tauto]. unfold bits. rewrite list_elem_of_fmap. split.
  - intros (p & -> & Hp). apply elem_of_seqZ in Hp. unfold sat_add32 in Hp. lia.
  - intros Hr. exists (group_start sb gid + j). split; [lia|]. apply elem_of_seqZ. unfold sat_add32. lia.
Qed.

Lemma reserve_groups_ok gs0 gid tb gs : layout_ok gs0 → 0 ≤ gid → Forall group_ids_ok gs → ∀ bm, all_bytes bm → group_block_count sb gid ≤ 8 * len bm →
  ∃ bm', reserve_groups sb gs gid bm tb = (true, bm') ∧ len bm' = len bm ∧ all_bytes bm' ∧
    ∀ j, 0 ≤ j < group_block_count sb gid → bitset bm' j = true ↔ bitset bm j = true ∨ ∃ g, g ∈ gs ∧ layout_block tb g (group_start sb gid + j).
Proof.
  intros Hl Hg. induction 1 as [|g gs (I1 & I2 & I3) Hgs IH]; intros bm Hb Hn; cbn [reserve_groups].
  { exists bm. split_and!; [done..|]. intros j _. setoid_rewrite elem_of_nil. naive_solver. }
  destruct (reserve_ok gs0 gid bm (block_bitmap_id g) 1 Hl Hg I1 Hb Hn) as (bm1 & -> & L1 & B1 & S1). cbn [negb]. destruct (reserve_ok gs0 gid bm1 (inode_bitmap_id g) 1 Hl Hg I2 B1 ltac:(lia)) as (bm2 & -> & L2 & B2 & S2). cbn [negb].
  destruct (reserve_ok gs0 gid bm2 (inode_table_id g) tb Hl Hg I3 B2 ltac:(lia)) as (bm3 & -> & L3 & B3 & S3). cbn [negb]. destruct (IH bm3 B3 ltac:(lia)) as (bm4 & -> & L4 & B4 & S4). exists bm4. split_and!; [done|congruence|done|].
  intros j Hj. rewrite S4, S3, S2, S1 by done. setoid_rewrite elem_of_cons. unfold layout_block. split.
  - intros [[[[?|?]|?]|?]|(g' & ? & ?)]; [by left|right; exists g..|right; exists g']; (split; [tauto|]); [left; lia|right; left; lia|tauto..].
  - intros [?|(g' & [->|Hin] & Hd)]; [tauto| |right; by exists g']. left. destruct Hd as [Hd|[Hd|Hd]]; [left; left; right; lia|left; right; lia|by right].
Qed.

Lemma reserve_backup_ok gs gid bm : layout_ok gs → 0 ≤ gid < 2 ^ 32 → all_bytes bm → group_block_count sb gid ≤ 8 * len bm →
  ∃ bm', reserve_backup sb gid bm = Some (true, bm') ∧ len bm' = len bm ∧ all_bytes bm' ∧
    ∀ j, 0 ≤ j < group_block_count sb gid → bitset bm' j = true ↔ bitset bm j = true ∨ backup_group gid ∧ j < 1 + gdt_blocks (len gs) + reserved_gdt_blocks sb.
Proof.
  intros Hl Hg Hb Hn. unfold reserve_backup. destruct (backup_ok gid Hg) as (r & -> & Hr). step_some. destruct r.
  - rewrite (lo_num gs Hl). step_some. fold (gdt_blocks (len gs)). pose proof (gdt_nonneg gs Hl). pose proof (lo_gdt gs Hl). pose proof (lo_resv gs Hl). pose proof (lo_bpg gs Hl). unfold BLOCK_SZ in *. pose proof (lo_fdb gs Hl).
    assert (sat_add32 (sat_add32 1 (gdt_blocks (len gs) mod 2 ^ 32)) (reserved_gdt_blocks sb) = 1 + gdt_blocks (len gs) + reserved_gdt_blocks sb) as -> by (rewrite (Z.mod_small (gdt_blocks (len gs)) (2 ^ 32)) by lia; unfold sat_add32; lia).
    destruct (reserve_ok gs gid bm (group_start sb gid) (1 + gdt_blocks (len gs) + reserved_gdt_blocks sb) Hl) as (bm' & -> & L & B & S); [lia|unfold group_start, sat_add32, sat_mul32; nia|done..|].
    exists bm'. split_and!; [done..|]. intros j Hj. rewrite S by done. split; intros [?|Hd]; [tauto| |tauto|]; right; [split; [by apply Hr|lia]|lia].
  - exists bm. split_and!; [done..|]. intros j Hj. split; [tauto|]. intros [?|[Hd _]]; [done|]. by apply Hr in Hd.
Qed.

(** A block of the group is in the copy at its start or in no copy at all. *)
Lemma metadata_in_group gs gid j : layout_ok gs → 0 ≤ gid < len gs → 0 ≤ j < group_block_count sb gid →
  kept BlockBitmap gs gid j ↔ backup_group gid ∧ j < 1 + gdt_blocks (len gs) + reserved_gdt_blocks sb ∨ ∃ g, g ∈ gs ∧ layout_block table_blocks g (group_start sb gid + j).
Proof.
  intros Hl Hg Hj. destruct (group_start_eq gs gid j Hl ltac:(lia) Hj) as (-> & _ & Hc). cbn [kept]. unfold metadata. f_equiv. pose proof (lo_gdt gs Hl). split.
  - intros (gid' & Hg' & Hbk & Hr). assert (gid' = gid) as -> by nia. split; [done|lia].
  - intros [Hbk Hr]. exists gid. split; [done|]. split; [done|lia].
Qed.

Lemma checksum_len_eq gs k : layout_ok gs → bitmap_checksum_len sb k = Some ((match k with BlockBitmap => blocks_per_group sb | InodeBitmap => inodes_per_group sb end) / 8) ∧
  8 * ((match k with BlockBitmap => blocks_per_group sb | InodeBitmap => inodes_per_group sb end) / 8) = match k with BlockBitmap => blocks_per_group sb | InodeBitmap => inodes_per_group sb end.
Proof.
  intros Hl. pose proof (lo_bpg gs Hl). pose proof (lo_ipg gs Hl). destruct (lo_bytes gs Hl). unfold bitmap_checksum_len. set (n := match k with BlockBitmap => _ | _ => _ end). assert (0 < n ≤ 8 * BLOCK_SZ ∧ n mod 8 = 0) as [Hn Hm] by by destruct k.
  pose proof (Z.div_mod n 8 ltac:(lia)) as Hd. unfold BLOCK_SZ in *. rewrite (proj2 (Z.eqb_neq (n / 8) 0)), (proj2 (Z.ltb_ge _ _)) by lia. split; [done|lia].
Qed.

(** The bits behind the last block or inode are set first. *)
Lemma padding_ok count bits : 0 ≤ count ≤ bits → bits ≤ 8 * BLOCK_SZ → ∃ bm, set_bits (seqZ count (bits - count)) (zeros BLOCK_SZ) = (true, bm) ∧ len bm = BLOCK_SZ ∧ all_bytes bm ∧ ∀ j, 0 ≤ j < count → bitset bm j = false.
Proof.
  intros Hc Hb. destruct (set_bits_in (seqZ count (bits - count)) (zeros BLOCK_SZ)) as (bm & E & L & B & S).
  { intros i Hi. apply elem_of_seqZ in Hi. rewrite len_zeros by done. lia. }
  { apply Forall_zeros. }
  rewrite len_zeros in L by done. exists bm. split_and!; [done..|]. intros j Hj. rewrite S by lia. rewrite bool_decide_false by (rewrite elem_of_seqZ; lia). cbn [orb]. apply bitset_zeros.
Qed.

(** The bitmap the allocator builds shows what is kept, no more and no less. *)
Lemma materialize_block_ok fs gid expected : layout_ok (block_groups fs) → 0 ≤ gid < len (block_groups fs) →
  ∃ bm, materialize_block_bitmap sb gid expected (zeros BLOCK_SZ) fs = Some (free_bits bm (group_block_count sb gid) =? expected, bm) ∧ len bm = BLOCK_SZ ∧ all_bytes bm ∧
    ∀ j, 0 ≤ j < group_block_count sb gid → bitset bm j = true ↔ kept BlockBitmap (block_groups fs) gid j.
Proof.
  intros Hl Hg. set (gs := block_groups fs) in *. unfold materialize_block_bitmap. rewrite (lo_meta_bg gs Hl). cbn [Z.eqb negb]. destruct (checksum_len_eq gs BlockBitmap Hl) as [-> H8]. pose proof (lo_bpg gs Hl) as Hp.
  assert (0 ≤ group_block_count sb gid ≤ blocks_per_group sb) as Hc by (unfold group_block_count, sat_sub32; lia). rewrite Z.mul_comm, H8, (proj2 (Z.ltb_ge _ _)) by lia. rewrite len_zeros by done.
  destruct (padding_ok (group_block_count sb gid) (blocks_per_group sb) Hc ltac:(lia)) as (bm1 & -> & L1 & B1 & S1). cbn [negb].
  assert (0 ≤ gid < 2 ^ 32) as Hg32 by (split; [lia|]; pose proof (lo_inodes gs Hl); pose proof (lo_ipg gs Hl); nia). destruct (reserve_backup_ok gs gid bm1 Hl Hg32 B1 ltac:(lia)) as (bm2 & -> & L2 & B2 & S2). step_some. cbn [negb].
  rewrite (proj2 (Z.eqb_neq (block_size sb) 0)) by (rewrite (lo_block gs Hl); done). fold table_blocks. assert (table_blocks ≤ 2 ^ 32 - 1) as Ht.
  { unfold table_blocks. rewrite (lo_block gs Hl). pose proof (lo_isize gs Hl). pose proof (lo_ipg gs Hl). unfold BLOCK_SZ in *. apply Z.div_le_upper_bound; [lia|]. nia. }
  rewrite (proj2 (Z.ltb_ge _ _)) by lia. destruct (reserve_groups_ok gs gid table_blocks gs Hl ltac:(lia) (layout_ids gs Hl) bm2 B2 ltac:(lia)) as (bm3 & E3 & L3 & B3 & S3). fold gs. rewrite E3. cbn [negb].
  rewrite count_free_ok by lia. step_some. exists bm3. split_and!; [done|congruence|done|]. intros j Hj. rewrite S3, S2, S1, metadata_in_group by (done || lia). naive_solver.
Qed.

Lemma materialize_inode_ok gs gid expected : layout_ok gs → 0 ≤ gid →
  ∃ bm, materialize_inode_bitmap sb gid expected (zeros BLOCK_SZ) = Some (free_bits bm (group_inode_count sb gid) =? expected, bm) ∧ len bm = BLOCK_SZ ∧ all_bytes bm ∧
    ∀ j, 0 ≤ j < group_inode_count sb gid → bitset bm j = true ↔ kept InodeBitmap gs gid j.
Proof.
  intros Hl Hg. unfold materialize_inode_bitmap. destruct (checksum_len_eq gs InodeBitmap Hl) as [-> H8]. pose proof (lo_ipg gs Hl) as Hp.
  assert (0 ≤ group_inode_count sb gid ≤ inodes_per_group sb) as Hc by (unfold group_inode_count, sat_sub32; lia). rewrite Z.mul_comm, H8, (proj2 (Z.ltb_ge _ _)) by lia. rewrite len_zeros by done.
  destruct (padding_ok (group_inode_count sb gid) (inodes_per_group sb) Hc ltac:(lia)) as (bm1 & -> & L1 & B1 & S1). cbn [negb]. cbn [kept]. destruct (Z.eqb_spec gid 0) as [->|H0].
  - destruct (set_bits_in (seqZ 0 (Z.min (sat_sub32 (first_ino sb) 1) (group_inode_count sb 0))) bm1) as (bm2 & -> & L2 & B2 & S2); [intros i Hi; apply elem_of_seqZ in Hi; lia|done|]. cbn [negb]. rewrite count_free_ok by lia. step_some.
    exists bm2. split_and!; [done|congruence|done|]. intros j Hj. rewrite S2, S1, orb_false_r, bool_decide_eq_true, elem_of_seqZ by lia. unfold sat_sub32. lia.
  - cbn [negb]. rewrite count_free_ok by lia. step_some. exists bm1. split_and!; [done..|]. intros j Hj. rewrite S1 by done. split; [done|]. intros [-> _]. done.
Qed.

End volume.
