(* ===== verification/Ext4AllocProps.v ===== *)
(** * Correctness of the allocator

    A block or inode is free when its bit is clear in the bitmap of its group on the volume
    or, for a group that was never initialized, when the layout does not keep it.  Allocation
    takes a free one and nothing else changes; giving back is its inverse; and the counters
    of descriptors and superblock keep counting the free ones. *)

From S2P Require Import Prelude Bytes Ext4Checksum Ext4Super Ext4Alloc Ext4AllocInv Ext4AllocLayout.

Local Open Scope Z_scope.

#[local] Opaque crc32c zeros.

(** ** Blocks and inodes alike *)

Definition uninit (k : BitmapKind) : Z := match k with BlockBitmap => EXT4_BG_BLOCK_UNINIT | InodeBitmap => EXT4_BG_INODE_UNINIT end.
Definition bitmap_id (k : BitmapKind) (g : Ext4Group) : Z := match k with BlockBitmap => block_bitmap_id g | InodeBitmap => inode_bitmap_id g end.
Definition free_count (k : BitmapKind) (g : Ext4Group) : Z := match k with BlockBitmap => free_blocks_count g | InodeBitmap => free_inodes_count g end.
Definition total_free (k : BitmapKind) (gs : list Ext4Group) : Z := foldr (λ g n, free_count k g + n) 0 gs.
Definition sb_free (k : BitmapKind) (fs : Ext4FS) : Z := match k with BlockBitmap => sb_free_blocks fs | InodeBitmap => sb_free_inodes fs end.

Lemma total_insert k (gs : list Ext4Group) i g g' : gs !! i = Some g → total_free k (<[i := g']> gs) = total_free k gs - free_count k g + free_count k g'.
Proof. revert i. induction gs as [|x gs IH]; intros [|i] Hi; cbn in Hi; simplify_eq; [change (<[0%nat := g']> (g :: gs)) with (g' :: gs)|change (<[S i := g']> (x :: gs)) with (x :: <[i := g']> gs); specialize (IH i Hi)]; unfold total_free in *; cbn [foldr]; lia. Qed.

Lemma total_bound k (gs : list Ext4Group) m : (∀ i g, gs !! i = Some g → 0 ≤ free_count k g ≤ m) → 0 ≤ total_free k gs ≤ len gs * m.
Proof.
  induction gs as [|x gs IH]; intros Hb; [unfold len; cbn; lia|]. pose proof (Hb 0%nat x eq_refl). assert (0 ≤ total_free k gs ≤ len gs * m) as H' by (apply IH; intros i; apply (Hb (S i))). unfold len in *. cbn [total_free foldr length]. fold (total_free k gs). lia.
Qed.

Lemma insert_len (gs : list Ext4Group) i g : len (<[i := g]> gs) = len gs.
Proof. unfold len. by rewrite length_insert. Qed.

Lemma land_ldiff a b c : Z.land (Z.ldiff a b) c = Z.land a (Z.ldiff c b).
Proof. apply Z.bits_inj'. intros i Hi. rewrite !Z.land_spec, !Z.ldiff_spec. destruct (Z.testbit a i), (Z.testbit b i), (Z.testbit c i); done. Qed.

Lemma ldiff_range a b n : 0 ≤ n → 0 ≤ a < 2 ^ n → 0 ≤ Z.ldiff a b < 2 ^ n.
Proof.
  intros Hn Ha. assert (Z.ldiff a b = Z.ldiff a b mod 2 ^ n) as ->; [|apply Z.mod_pos_bound; lia]. apply Z.bits_inj'. intros i Hi. destruct (decide (i < n)); [by rewrite Z.mod_pow2_bits_low|].
  rewrite Z.mod_pow2_bits_high by lia. rewrite Z.ldiff_spec. rewrite <-(Z.mod_small a (2 ^ n)) by lia. by rewrite Z.mod_pow2_bits_high by lia.
Qed.

(** The places of the groups are the same. *)
Definition same_places (gs gs' : list Ext4Group) : Prop := Forall2 same_place gs gs'.

Lemma same_place_refl g : same_place g g.
Proof. done. Qed.

Lemma places_insert gs i g g' : gs !! i = Some g → same_place g g' → same_places gs (<[i := g']> gs).
Proof.
  intros Hi Hp. apply Forall2_same_length_lookup. split; [by rewrite length_insert|]. intros j x y Hx Hy. destruct (decide (i = j)) as [<-|Hne].
  - rewrite list_lookup_insert_eq in Hy by (by eapply lookup_lt_Some). by simplify_eq.
  - rewrite list_lookup_insert_ne in Hy by done. by simplify_eq.
Qed.

Section volume.
Context (sb : Ext4SuperBlock).

Definition bit_count (k : BitmapKind) (gid : Z) : Z := match k with BlockBitmap => group_block_count sb gid | InodeBitmap => group_inode_count sb gid end.
Definition per_group (k : BitmapKind) : Z := match k with BlockBitmap => blocks_per_group sb | InodeBitmap => inodes_per_group sb end.
Definition base (k : BitmapKind) : Z := match k with BlockBitmap => first_data_block sb | InodeBitmap => 1 end.
Definition bitmap_of (k : BitmapKind) (gid : Z) (g : Ext4Group) (fs : Ext4FS) : option (option (list Z)) :=
  match k with BlockBitmap => block_bitmap_of sb gid g fs | InodeBitmap => inode_bitmap_of sb gid g fs end.

Lemma reserve_groups_places gs gs' : same_places gs gs' → ∀ gid bm tb, reserve_groups sb gs' gid bm tb = reserve_groups sb gs gid bm tb.
Proof.
  induction 1 as [|g g' gs gs' (_ & P1 & P2 & P3) Hf IH]; intros gid bm tb; [done|]. cbn [reserve_groups]. rewrite P1, P2, P3. repeat (case_match; [done|]). repeat case_match; (done || apply IH).
Qed.

Lemma materialize_places fs fs' gid n bm : same_places (block_groups fs) (block_groups fs') → materialize_block_bitmap sb gid n bm fs' = materialize_block_bitmap sb gid n bm fs.
Proof.
  intros Hp. unfold materialize_block_bitmap. case_match; [done|]. case_match; [|done]. case_match; [done|]. destruct (set_bits _ _) as [ok1 bm1]. case_match; [done|].
  destruct (reserve_backup sb gid bm1) as [[ok2 bm2]|]; [|done]. rewrite !some_bind. repeat (case_match; [done|]). by rewrite (reserve_groups_places _ _ Hp).
Qed.

(** ** The invariant *)

(** A free block or inode, bit [j] of group [i]: clear in the bitmap on the volume or, in a
    group that was never initialized, not kept by the layout. *)
Definition free_bit (k : BitmapKind) (fs : Ext4FS) (i : nat) (j : Z) : Prop :=
  ∃ g, block_groups fs !! i = Some g ∧ 0 ≤ j < bit_count k (Z.of_nat i) ∧
    if decide (Z.land (g_flags g) (uninit k) = 0) then bitset (volume fs (bitmap_id k g)) j = false else ¬ kept sb k (block_groups fs) (Z.of_nat i) j.

(** A consistent volume: the descriptors are those of the groups and count the free blocks and
    inodes, what the layout keeps is not free, no inode in use is behind the used part of its
    table, and the superblock has the sums. *)
Record alloc_inv (fs : Ext4FS) : Prop := {
  ai_layout : layout_ok sb (block_groups fs);
  ai_bytes : volume_bytes fs;
  ai_desc : ∀ i g, block_groups fs !! i = Some g → group_new (Z.of_nat i) (desc_of sb fs (Z.of_nat i)) = Some g ∧ counts_fit (desc_size sb) g;
  ai_counted : ∀ k i g, block_groups fs !! i = Some g → ∃ l, NoDup l ∧ (∀ j, j ∈ l ↔ free_bit k fs i j) ∧ free_count k g = len l;
  ai_kept : ∀ k i j, free_bit k fs i j → ¬ kept sb k (block_groups fs) (Z.of_nat i) j;
  ai_table : ∀ i g j, block_groups fs !! i = Some g → 0 ≤ j < bit_count InodeBitmap (Z.of_nat i) → ¬ free_bit InodeBitmap fs i j → j < bit_count InodeBitmap (Z.of_nat i) - itable_unused g;
  ai_total : ∀ k, sb_free k fs = total_free k (block_groups fs);
}.

Definition is_free (k : BitmapKind) (fs : Ext4FS) (n : Z) : Prop := ∃ i j, n = Z.of_nat i * per_group k + j + base k ∧ free_bit k fs i j.

(** ** One change of a bitmap *)

(** Bitmap, group and descriptor of group [i] are replaced; the rest of the volume is not,
    but for the counters of the superblock. *)
Record stepped (k : BitmapKind) (i : nat) (g g' : Ext4Group) (buf : list Z) (bd id : Z) (fs fs' : Ext4FS) : Prop := {
  st_groups : block_groups fs' = <[i := g']> (block_groups fs);
  st_bytes : volume_bytes fs';
  st_map : volume fs' (bitmap_id k g) = buf;
  st_rest : ∀ c, c ≠ bitmap_id k g → ¬ (0 ≤ c ≤ first_data_block sb + gdt_blocks sb (len (block_groups fs))) → volume fs' c = volume fs c;
  st_desc : group_new (Z.of_nat i) (desc_of sb fs' (Z.of_nat i)) = Some g';
  st_descs : ∀ j, 0 ≤ j < len (block_groups fs) → j ≠ Z.of_nat i → desc_of sb fs' j = desc_of sb fs j;
  st_sb : sb_free_blocks fs' = adjusted64 (sb_free_blocks fs) bd ∧ sb_free_inodes fs' = adjusted32 (sb_free_inodes fs) id;
}.

Lemma desc_block_range gs j : layout_ok sb gs → 0 ≤ j < len gs → 0 < desc_block sb j ≤ first_data_block sb + gdt_blocks sb (len gs).
Proof.
  intros Hl Hj. pose proof (lo_fdb sb gs Hl). pose proof (lo_desc sb gs Hl) as [Hs _]. unfold desc_block, group_desc_pos, gdt_blocks, BLOCK_SZ. cbn [fst]. pose proof (Z.div_pos (j * desc_size sb) 4096 ltac:(nia) ltac:(lia)). split; [lia|].
  assert (j * desc_size sb / 4096 + 1 ≤ (len gs * desc_size sb + 4096 - 1) / 4096); [|lia]. rewrite <-(Z.div_add (j * desc_size sb) 1 4096) by lia. apply Z.div_le_mono; [lia|]. nia.
Qed.

Lemma bitmap_behind gs k g : layout_ok sb gs → g ∈ gs → first_data_block sb + gdt_blocks sb (len gs) < bitmap_id k g.
Proof. intros Hl Hg. destruct (lo_behind sb gs Hl g Hg). by destruct k. Qed.

Lemma checksum_len_ok gs k n : layout_ok sb gs → bitmap_checksum_len sb k = Some n → 0 ≤ n ≤ BLOCK_SZ.
Proof.
  intros Hl. unfold bitmap_checksum_len. case_match eqn:E; [done|]. intros [= <-]. apply orb_false_elim in E as [_ E%Z.ltb_ge]. split; [|done]. pose proof (lo_bpg sb gs Hl). pose proof (lo_ipg sb gs Hl). destruct k; apply Z.div_pos; lia.
Qed.

Lemma commit_ok k (i : nat) g g' buf bd id fs : alloc_inv fs → block_groups fs !! i = Some g → same_place g g' → counts_fit (desc_size sb) g' → len buf = BLOCK_SZ → all_bytes buf →
  ∃ fs', (fs ← update_group_counts sb (Z.of_nat i) g' buf k (with_group (Z.of_nat i) g' (fs_write (bitmap_id k g) buf fs)); adjust_superblock_counts sb bd id fs) = Some fs' ∧ stepped k i g g' buf bd id fs fs'.
Proof.
  intros Hinv Hi Hp Hf Hl Hb. pose proof (ai_layout fs Hinv) as Hlay. pose proof (ai_bytes fs Hinv) as Hv. pose proof (lookup_lt_Some _ _ _ Hi) as Hlt. assert (0 ≤ Z.of_nat i < len (block_groups fs)) as Hi' by (unfold len; lia).
  assert (g ∈ block_groups fs) as Hin by by eapply list_elem_of_lookup_2. pose proof (bitmap_behind _ k g Hlay Hin) as Hbe.
  set (fs1 := with_group (Z.of_nat i) g' (fs_write (bitmap_id k g) buf fs)). assert (∀ c, volume fs1 c = if c =? bitmap_id k g then buf else volume fs c) as Hv1 by (intros c; unfold fs1; cbn [with_group volume]; by apply write_full).
  assert (volume_bytes fs1) as Hb1 by (intros c; rewrite Hv1; destruct (c =? _); [done|apply Hv]).
  assert (∀ j, 0 ≤ j < len (block_groups fs) → desc_of sb fs1 j = desc_of sb fs j) as Hd1. { intros j Hj. unfold desc_of. rewrite Hv1. pose proof (desc_block_range _ j Hlay Hj). by rewrite (proj2 (Z.eqb_neq _ _)) by lia. }
  destruct (ai_desc fs Hinv i g Hi) as [Hg _]. pose proof (lo_desc sb _ Hlay) as Hdo. destruct (desc_off_ok sb (Z.of_nat i) Hdo ltac:(lia)) as [Ho1 Ho2]. destruct (Hv (desc_block sb (Z.of_nat i))) as [Hv2 Hv3].
  assert (len (desc_of sb fs (Z.of_nat i)) = desc_size sb) as Hdl by (unfold desc_of; rewrite len_seg; destruct Hdo as [? _]; lia).
  destruct (put_counts_ok sb (Z.of_nat i) g g' buf k (desc_of sb fs (Z.of_nat i))) as (d' & Hd' & L & B & G); [rewrite Hdl; apply Hdo|by apply Forall_seg|done|done|by rewrite Hdl|intros n Hn; rewrite Hl; by eapply checksum_len_ok|].
  unfold update_group_counts. destruct (update_group_desc_ok sb fs1 (Z.of_nat i) (put_counts sb g' buf k) d' g' Hdo Hb1 ltac:(lia)) as (fs2 & E2 & G2 & B2 & R2 & D2 & N2); [by rewrite Hd1|congruence|done..|]. rewrite E2. step_some.
  destruct (adjust_superblock_ok sb fs2 bd id B2) as (fs3 & E3 & G3 & B3 & R3 & S3 & S4). exists fs3. split; [done|]. pose proof (desc_block_range _ _ Hlay Hi') as Hdb. pose proof (lo_fdb sb _ Hlay).
  assert (∀ j, 0 ≤ j < len (block_groups fs) → desc_of sb fs3 j = desc_of sb fs2 j) as Hd3 by (intros j Hj; unfold desc_of; pose proof (desc_block_range _ j Hlay Hj); by rewrite R3 by lia).
  assert (sb_raw fs2 = sb_raw fs) as Hraw by (unfold sb_raw; rewrite R2, Hv1 by lia; by rewrite (proj2 (Z.eqb_neq _ _)) by lia).
  split; [rewrite G3, G2; cbn; by rewrite Nat2Z.id|done| | | | |].
  - rewrite R3, R2, Hv1 by lia. by rewrite Z.eqb_refl.
  - intros c Hc1 Hc2. rewrite R3, R2, Hv1 by lia. by rewrite (proj2 (Z.eqb_neq _ _)) by done.
  - by rewrite Hd3.
  - intros j Hj Hne. rewrite Hd3, D2, Hd1 by (done || lia). done.
  - unfold sb_free_blocks, sb_free_inodes in *. by rewrite <-Hraw.
Qed.

Lemma bitmaps_apart gs k k' i i' g g' : layout_ok sb gs → gs !! i = Some g → gs !! i' = Some g' → (k, i) ≠ (k', i') → bitmap_id k g ≠ bitmap_id k' g'.
Proof.
  intros Hl Hi Hi' Hne Heq. pose proof (lo_apart sb gs Hl) as (N1 & N2 & N3)%NoDup_app. assert (∀ h : Ext4Group → Z, NoDup (h <$> gs) → h g = h g' → i = i') as Hsame.
  { intros h Hnd Hh. apply (NoDup_lookup _ i i' (h g) Hnd); rewrite list_lookup_fmap, ?Hi, ?Hi'; cbn; congruence. }
  destruct k, k'; cbn in Heq.
  - apply Hne. f_equal. by apply (Hsame block_bitmap_id).
  - apply (N2 (block_bitmap_id g)); [by apply list_elem_of_fmap_2, list_elem_of_lookup_2 with i|]. rewrite Heq. by apply list_elem_of_fmap_2, list_elem_of_lookup_2 with i'.
  - apply (N2 (block_bitmap_id g')); [by apply list_elem_of_fmap_2, list_elem_of_lookup_2 with i'|]. rewrite <-Heq. by apply list_elem_of_fmap_2, list_elem_of_lookup_2 with i.
  - apply Hne. f_equal. by apply (Hsame inode_bitmap_id).
Qed.

Lemma places_len gs gs' : same_places gs gs' → len gs' = len gs.
Proof. intros H. unfold len. by rewrite (Forall2_length _ _ _ H). Qed.

Lemma places_lookup gs gs' i g' : same_places gs gs' → gs' !! i = Some g' → ∃ g, gs !! i = Some g ∧ same_place g g'.
Proof. intros H Hi. destruct (Forall2_lookup_r _ _ _ _ _ H Hi) as (g & Hg & Hp). by exists g. Qed.

Lemma places_fmap gs gs' (h : Ext4Group → Z) : same_places gs gs' → (∀ g g', same_place g g' → h g' = h g) → h <$> gs' = h <$> gs.
Proof. intros H Hh. induction H as [|g g' gs gs' Hp Hf IH]; [done|]. cbn. by rewrite (Hh _ _ Hp), IH. Qed.

Lemma places_layout gs gs' : layout_ok sb gs → same_places gs gs' → layout_ok sb gs'.
Proof.
  intros Hl Hp. split; rewrite ?(places_len _ _ Hp); try apply Hl.
  - intros i g' Hi. destruct (places_lookup _ _ _ _ Hp Hi) as (g & Hg & -> & _ & _ & ->). by apply (lo_ids sb gs Hl).
  - intros g' [i Hi]%list_elem_of_lookup. destruct (places_lookup _ _ _ _ Hp Hi) as (g & Hg & _ & -> & -> & _). by eapply (lo_behind sb gs Hl), list_elem_of_lookup_2.
  - rewrite !(places_fmap gs gs') by (done || intros g g' (_ & ? & ? & _); congruence). apply (lo_apart sb gs Hl).
Qed.

Lemma places_sym gs gs' : same_places gs gs' → same_places gs' gs.
Proof. intros H. apply Forall2_flip. eapply Forall2_impl; [done|]. intros x y (?&?&?&?). by split_and!. Qed.

Lemma places_metadata gs gs' b : same_places gs gs' → metadata sb gs' b → metadata sb gs b.
Proof.
  intros Hp [Hb|(g' & [i Hi]%list_elem_of_lookup & Hb)]; [left; by rewrite <-(places_len _ _ Hp)|right]. destruct (places_lookup _ _ _ _ Hp Hi) as (g & Hg & _ & P1 & P2 & P3). exists g. split; [by eapply list_elem_of_lookup_2|].
  unfold layout_block in *. by rewrite <-P1, <-P2, <-P3.
Qed.

Lemma places_kept k gs gs' gid j : same_places gs gs' → kept sb k gs' gid j ↔ kept sb k gs gid j.
Proof. intros Hp. destruct k; [|done]. split; apply places_metadata; [done|by apply places_sym]. Qed.

Lemma bitmap_of_kept k gid g g' fs fs' : same_places (block_groups fs) (block_groups fs') → Z.land (g_flags g') (uninit k) = Z.land (g_flags g) (uninit k) → free_count k g' = free_count k g → bitmap_id k g' = bitmap_id k g →
  volume fs' (bitmap_id k g) = volume fs (bitmap_id k g) → bitmap_of k gid g' fs' = bitmap_of k gid g fs.
Proof.
  intros Hp Hf Hc Hi Hv. destruct k; cbn in *; unfold block_bitmap_of, inode_bitmap_of, fs_read; rewrite Hf, Hc, Hi, Hv; [|done]. by rewrite (materialize_places _ _ _ _ _ Hp).
Qed.

Lemma bitmap_of_set k gid g fs : Z.land (g_flags g) (uninit k) = 0 → bitmap_of k gid g fs = Some (Some (volume fs (bitmap_id k g))).
Proof. destruct k; cbn; unfold block_bitmap_of, inode_bitmap_of; intros ->; done. Qed.

(** The bitmap the code works on shows what is free; the one built for a group that was never
    initialized is accepted when it has as many clear bits as the group counts. *)
Lemma bitmap_shows k i g fs : layout_ok sb (block_groups fs) → volume_bytes fs → block_groups fs !! i = Some g →
  ∃ buf, bitmap_of k (Z.of_nat i) g fs = Some (if decide (Z.land (g_flags g) (uninit k) = 0 ∨ free_count k g = free_bits buf (bit_count k (Z.of_nat i))) then Some buf else None) ∧
    len buf = BLOCK_SZ ∧ all_bytes buf ∧ ∀ j, 0 ≤ j < bit_count k (Z.of_nat i) → bitset buf j = false ↔ free_bit k fs i j.
Proof.
  intros Hl Hv Hi. pose proof (lookup_lt_Some _ _ _ Hi). destruct (decide (Z.land (g_flags g) (uninit k) = 0)) as [Hf|Hf].
  { exists (volume fs (bitmap_id k g)). destruct (Hv (bitmap_id k g)). rewrite bitmap_of_set, decide_True by auto. split_and!; [done..|]. intros j Hj. unfold free_bit. split; [intros Hc; exists g; by rewrite decide_True|intros (g1 & Hg1 & _ & Hc)]. simplify_eq. by rewrite decide_True in Hc. }
  assert (∃ buf, bitmap_of k (Z.of_nat i) g fs = Some (if free_bits buf (bit_count k (Z.of_nat i)) =? free_count k g then Some buf else None) ∧ len buf = BLOCK_SZ ∧ all_bytes buf ∧ ∀ j, 0 ≤ j < bit_count k (Z.of_nat i) → bitset buf j = true ↔ kept sb k (block_groups fs) (Z.of_nat i) j) as (buf & Hbm & L & B & S).
  { destruct k; cbn [bitmap_of uninit bit_count free_count] in *; unfold block_bitmap_of, inode_bitmap_of; rewrite (proj2 (Z.eqb_neq _ _) Hf); cbn [negb].
    - destruct (materialize_block_ok sb fs (Z.of_nat i) (free_blocks_count g) Hl) as (bm & -> & H'); [unfold len; lia|]. by exists bm.
    - destruct (materialize_inode_ok sb _ (Z.of_nat i) (free_inodes_count g) Hl ltac:(lia)) as (bm & -> & H'). by exists bm. }
  exists buf. split; [|split_and!; [done..|]].
  - rewrite Hbm. destruct (Z.eqb_spec (free_bits buf (bit_count k (Z.of_nat i))) (free_count k g)); [rewrite decide_True by auto|rewrite decide_False by (intros [?|?]; congruence)]; done.
  - intros j Hj. specialize (S j Hj). unfold free_bit. split.
    + intros Hc. exists g. rewrite decide_False by done. split_and!; [done|lia..|]. intros Hk%S. congruence.
    + intros (g1 & Hg1 & _ & Hc). simplify_eq. rewrite decide_False in Hc by done. apply not_true_iff_false. tauto.
Qed.

Lemma counted_bits (P : Z → Prop) buf n l : (∀ j, P j → 0 ≤ j < n) → (∀ j, 0 ≤ j < n → bitset buf j = false ↔ P j) → NoDup l → (∀ j, j ∈ l ↔ P j) → len l = free_bits buf n.
Proof.
  intros Hr Hs Hnd Hl. unfold len, free_bits. f_equal. apply Permutation_length, NoDup_Permutation; [done|apply NoDup_filter, NoDup_seqZ|]. intros j. rewrite Hl, list_elem_of_filter, elem_of_seqZ. split; [intros Hp; pose proof (Hr j Hp); split; [by apply Hs|lia]|intros [Hb Hj]; apply Hs; [lia|done]].
Qed.

Lemma free_bit_range k fs i j : free_bit k fs i j → 0 ≤ j < bit_count k (Z.of_nat i).
Proof. by intros (g & _ & Hj & _). Qed.

(** The bits of group [gid] are as its counters and the layout say. *)
Record bits_ok (k : BitmapKind) (gs : list Ext4Group) (gid : Z) (g : Ext4Group) (buf : list Z) : Prop := {
  bo_count : free_count k g = free_bits buf (bit_count k gid);
  bo_kept : ∀ j, 0 ≤ j < bit_count k gid → kept sb k gs gid j → bitset buf j = true;
  bo_table : k = InodeBitmap → ∀ j, 0 ≤ j < bit_count k gid → bitset buf j = true → j < bit_count k gid - itable_unused g;
}.

(** The invariant in terms of the bitmaps the code works on. *)
Lemma bitmap_of_ok k i g fs : alloc_inv fs → block_groups fs !! i = Some g → ∃ buf, bitmap_of k (Z.of_nat i) g fs = Some (Some buf) ∧ len buf = BLOCK_SZ ∧ all_bytes buf ∧ bits_ok k (block_groups fs) (Z.of_nat i) g buf ∧
  ∀ j, 0 ≤ j < bit_count k (Z.of_nat i) → bitset buf j = false ↔ free_bit k fs i j.
Proof.
  intros Hinv Hi. destruct (bitmap_shows k i g fs (ai_layout fs Hinv) (ai_bytes fs Hinv) Hi) as (buf & Hbm & L & B & S). destruct (ai_counted fs Hinv k i g Hi) as (l & Hnd & Hin & Hc).
  assert (free_count k g = free_bits buf (bit_count k (Z.of_nat i))) as Hfc by (rewrite Hc; eapply counted_bits; [intros j; apply free_bit_range|done..]). rewrite decide_True in Hbm by auto. exists buf. split_and!; [done..| |done]. split; [done| |].
  - intros j Hj Hk. apply not_false_iff_true. intros Hf%S; [|done]. by apply (ai_kept fs Hinv k i j Hf).
  - intros -> j Hj Ht. apply (ai_table fs Hinv i g j Hi Hj). rewrite <-S by done. congruence.
Qed.

Lemma ai_bits fs : alloc_inv fs → ∀ k i g buf, block_groups fs !! i = Some g → bitmap_of k (Z.of_nat i) g fs = Some (Some buf) → bits_ok k (block_groups fs) (Z.of_nat i) g buf.
Proof. intros Hinv k i g buf Hi Hb. destruct (bitmap_of_ok k i g fs Hinv Hi) as (buf' & Hb' & _ & _ & Hok & _). by simplify_eq. Qed.

Lemma bit_count_nonneg k gid gs : layout_ok sb gs → 0 ≤ bit_count k gid.
Proof. intros Hl. pose proof (lo_bpg sb gs Hl). pose proof (lo_ipg sb gs Hl). destruct k; cbn; unfold group_block_count, group_inode_count, sat_sub32; lia. Qed.

Lemma ai_count fs : alloc_inv fs → ∀ k i g, block_groups fs !! i = Some g → free_count k g ≤ bit_count k (Z.of_nat i).
Proof. intros Hinv k i g Hi. destruct (bitmap_of_ok k i g fs Hinv Hi) as (buf & _ & _ & _ & [-> _ _] & _). apply free_bits_bound. eapply bit_count_nonneg, (ai_layout fs Hinv). Qed.

Lemma alloc_inv_intro fs : layout_ok sb (block_groups fs) → volume_bytes fs → (∀ i g, block_groups fs !! i = Some g → group_new (Z.of_nat i) (desc_of sb fs (Z.of_nat i)) = Some g ∧ counts_fit (desc_size sb) g) →
  (∀ k i g, block_groups fs !! i = Some g → ∃ buf, bitmap_of k (Z.of_nat i) g fs = Some (Some buf) ∧ bits_ok k (block_groups fs) (Z.of_nat i) g buf) → (∀ k, sb_free k fs = total_free k (block_groups fs)) → alloc_inv fs.
Proof.
  intros Hl Hv Hd Hb Ht. assert (∀ k i g, block_groups fs !! i = Some g → ∃ buf, bits_ok k (block_groups fs) (Z.of_nat i) g buf ∧ ∀ j, 0 ≤ j < bit_count k (Z.of_nat i) → bitset buf j = false ↔ free_bit k fs i j) as Hs.
  { intros k i g Hi. destruct (Hb k i g Hi) as (buf & Hbm & Hok). destruct (bitmap_shows k i g fs Hl Hv Hi) as (buf' & Hbm' & _ & _ & S). rewrite Hbm' in Hbm. case_decide; [|done]. simplify_eq. by exists buf. }
  split; [done..| | | |done].
  - intros k i g Hi. destruct (Hs k i g Hi) as (buf & [C _ _] & S). exists (filter (λ j, bitset buf j = false) (seqZ 0 (bit_count k (Z.of_nat i)))). split_and!; [apply NoDup_filter, NoDup_seqZ| |done]. intros j. rewrite list_elem_of_filter, elem_of_seqZ. split.
    + intros [Hc Hj]. apply S; [lia|done].
    + intros Hf. pose proof (free_bit_range _ _ _ _ Hf). split; [by apply S|lia].
  - intros k i j Hf Hk. pose proof (free_bit_range _ _ _ _ Hf) as Hj. destruct (id Hf) as (g & Hi & _). destruct (Hs k i g Hi) as (buf & [_ M _] & S). apply S in Hf; [|done]. specialize (M j Hj Hk). congruence.
  - intros i g j Hi Hj Hf. destruct (Hs InodeBitmap i g Hi) as (buf & [_ _ T] & S). apply (T eq_refl); [done|]. apply not_false_iff_true. by rewrite S.
Qed.

(** Free in terms of those bitmaps. *)
Lemma free_shown k fs i j : alloc_inv fs → free_bit k fs i j ↔ ∃ g buf, block_groups fs !! i = Some g ∧ bitmap_of k (Z.of_nat i) g fs = Some (Some buf) ∧ 0 ≤ j < bit_count k (Z.of_nat i) ∧ bitset buf j = false.
Proof.
  intros Hinv. split.
  - intros Hf. pose proof (free_bit_range _ _ _ _ Hf) as Hj. destruct (id Hf) as (g & Hi & _). destruct (bitmap_of_ok k i g fs Hinv Hi) as (buf & Hb & _ & _ & _ & S). exists g, buf. split_and!; [done..|lia|lia|by apply S].
  - intros (g & buf & Hi & Hb & Hj & Hc). destruct (bitmap_of_ok k i g fs Hinv Hi) as (buf' & Hb' & _ & _ & _ & S). simplify_eq. by apply S.
Qed.

(** What the new group and bitmap have to satisfy. *)
Record change_ok (k : BitmapKind) (i : nat) (g g' : Ext4Group) (buf : list Z) (fs : Ext4FS) : Prop := {
  co_place : same_place g g';
  co_fit : counts_fit (desc_size sb) g';
  co_len : len buf = BLOCK_SZ;
  co_all : all_bytes buf;
  co_init : Z.land (g_flags g') (uninit k) = 0;
  co_other : ∀ k', k' ≠ k → Z.land (g_flags g') (uninit k') = Z.land (g_flags g) (uninit k') ∧ free_count k' g' = free_count k' g ∧ (k' = InodeBitmap → itable_unused g' = itable_unused g);
  co_bits : bits_ok k (block_groups fs) (Z.of_nat i) g' buf;
}.

#[local] Instance kind_eq_dec : EqDecision BitmapKind.
Proof. solve_decision. Defined.

Lemma step_bitmaps k i g g' buf bd id fs fs' : alloc_inv fs → block_groups fs !! i = Some g → change_ok k i g g' buf fs → stepped k i g g' buf bd id fs fs' →
  same_places (block_groups fs) (block_groups fs') ∧ ∀ k' i' g1, block_groups fs !! i' = Some g1 →
    ∃ g2, block_groups fs' !! i' = Some g2 ∧ (i' ≠ i → g2 = g1) ∧ (i' = i → g2 = g') ∧
      bitmap_of k' (Z.of_nat i') g2 fs' = if decide (k' = k ∧ i' = i) then Some (Some buf) else bitmap_of k' (Z.of_nat i') g1 fs.
Proof.
  intros Hinv Hi [Hp _ _ _ Hc Ho _] [Hg _ Hm Hr _ _ _]. assert (same_places (block_groups fs) (block_groups fs')) as Hps by (rewrite Hg; by eapply places_insert). split; [done|].
  intros k' i' g1 Hi1. pose proof (lookup_lt_Some _ _ _ Hi) as Hlt. exists (if decide (i' = i) then g' else g1). assert (block_groups fs' !! i' = Some (if decide (i' = i) then g' else g1)) as Hlk.
  { rewrite Hg. destruct (decide (i' = i)) as [->|]; [by rewrite list_lookup_insert_eq|by rewrite list_lookup_insert_ne]. }
  split; [done|]. split; [intros; by rewrite decide_False|]. split; [intros; by rewrite decide_True|]. pose proof Hp as (_ & P1 & P2 & _).
  assert ((k', i') ≠ (k, i) → volume fs' (bitmap_id k' g1) = volume fs (bitmap_id k' g1)) as Hvol.
  { intros Hne. apply Hr; [by eapply bitmaps_apart; [apply (ai_layout fs Hinv)|..]|]. pose proof (bitmap_behind _ k' g1 (ai_layout fs Hinv) ltac:(by eapply list_elem_of_lookup_2)). lia. }
  destruct (decide (k' = k ∧ i' = i)) as [[-> ->]|Hne].
  - rewrite decide_True by done. rewrite bitmap_of_set by done. do 2 f_equal. rewrite <-Hm. f_equal. by destruct k.
  - destruct (decide (i' = i)) as [->|Hni].
    + assert (g1 = g) as -> by congruence. destruct (Ho k') as (O1 & O2 & _); [tauto|]. apply bitmap_of_kept; [done..| |apply Hvol; intros [=]; tauto]. by destruct k'.
    + apply bitmap_of_kept; [done..|apply Hvol; intros [=]; tauto].
Qed.

Lemma step_inv k i g g' buf bd id fs fs' : alloc_inv fs → block_groups fs !! i = Some g → change_ok k i g g' buf fs → stepped k i g g' buf bd id fs fs' →
  (∀ k', sb_free k' fs' = total_free k' (block_groups fs')) → alloc_inv fs'.
Proof.
  intros Hinv Hi Hch Hst Htot. destruct (step_bitmaps _ _ _ _ _ _ _ _ _ Hinv Hi Hch Hst) as [Hps Hbm]. destruct Hst as [Hg Hb Hm Hr Hd Hds _]. pose proof (lookup_lt_Some _ _ _ Hi) as Hlt.
  assert (∀ i' g2, block_groups fs' !! i' = Some g2 → ∃ g1, block_groups fs !! i' = Some g1 ∧ ((i' = i ∧ g2 = g') ∨ (i' ≠ i ∧ g2 = g1))) as Hback.
  { intros i' g2 H2. destruct (places_lookup _ _ _ _ Hps H2) as (g1 & H1 & _). exists g1. split; [done|]. destruct (Hbm k i' g1 H1) as (g2' & H2' & N & Y & _). simplify_eq. destruct (decide (i' = i)); [left|right]; auto. }
  apply alloc_inv_intro; [by eapply places_layout; [apply (ai_layout fs Hinv)|]|done| | |done].
  - intros i' g2 H2. destruct (Hback i' g2 H2) as (g1 & H1 & [[-> ->]|[Hne ->]]); [split; [done|apply Hch]|]. destruct (ai_desc fs Hinv i' g1 H1). pose proof (lookup_lt_Some _ _ _ H1). rewrite Hds by (unfold len; lia). done.
  - intros k' i' g2 H2. destruct (Hback i' g2 H2) as (g1 & H1 & Hcase). destruct (Hbm k' i' g1 H1) as (g2' & H2' & _ & _ & Heq). simplify_eq. rewrite Heq. case_decide as Hd2.
    + destruct Hd2 as [-> ->]. destruct Hcase as [[_ ->]|[? _]]; [|done]. eexists. split; [done|]. destruct (co_bits _ _ _ _ _ _ Hch) as [C M T]. split; [done| |done]. intros j Hj. by rewrite (places_kept _ _ _ _ _ Hps); auto.
    + destruct (bitmap_of_ok k' i' g1 fs Hinv H1) as (buf2 & Hb2 & _ & _ & [C M T] & _). exists buf2. split; [done|]. destruct Hcase as [[-> ->]|[Hne ->]].
      * assert (g1 = g) as -> by congruence. destruct (co_other _ _ _ _ _ _ Hch k') as (_ & O2 & O3); [tauto|]. split; [congruence|intros j Hj; rewrite (places_kept _ _ _ _ _ Hps); auto|intros Hk; rewrite O3 by done; by apply T].
      * split; [done|intros j Hj; rewrite (places_kept _ _ _ _ _ Hps); auto|done].
Qed.

Lemma step_free k i g g' buf bd id fs fs' : alloc_inv fs → alloc_inv fs' → block_groups fs !! i = Some g → change_ok k i g g' buf fs → stepped k i g g' buf bd id fs fs' →
  ∀ k' i' j, free_bit k' fs' i' j ↔ if decide (k' = k ∧ i' = i) then 0 ≤ j < bit_count k (Z.of_nat i) ∧ bitset buf j = false else free_bit k' fs i' j.
Proof.
  intros Hinv Hinv' Hi Hch Hst k' i' j. destruct (step_bitmaps _ _ _ _ _ _ _ _ _ Hinv Hi Hch Hst) as [Hps Hbm]. rewrite (free_shown k' fs' i' j Hinv'). split.
  - intros (g2 & b2 & H2 & Hb2 & Hj & Hs). destruct (places_lookup _ _ _ _ Hps H2) as (g1 & H1 & _). destruct (Hbm k' i' g1 H1) as (g2' & H2' & _ & _ & Heq). simplify_eq. rewrite Heq in Hb2. case_decide as Hd; [destruct Hd as [-> ->]; by injection Hb2 as <-|]. apply free_shown; [done|]. by exists g1, b2.
  - case_decide as Hd; [destruct Hd as [-> ->]; intros [Hj Hs]|intros (g1 & b1 & H1 & Hb1 & Hj & Hs)%free_shown; [|done]].
    + destruct (Hbm k i g Hi) as (g2' & H2' & _ & _ & Heq). rewrite decide_True in Heq by done. by exists g2', buf.
    + destruct (Hbm k' i' g1 H1) as (g2' & H2' & _ & _ & Heq). rewrite decide_False in Heq by done. exists g2', b1. by rewrite Heq.
Qed.

(** ** Taking a bit *)

(** The group after bit [j] of it is taken, and after one is given back. *)
Definition taken (k : BitmapKind) (gid j : Z) (g : Ext4Group) : Ext4Group :=
  match k with
  | BlockBitmap =>
    let g := set_free_blocks (free_blocks_count g - 1) g in
    if negb (Z.land (g_flags g) EXT4_BG_BLOCK_UNINIT =? 0) then clear_flag EXT4_BG_BLOCK_UNINIT g else g
  | InodeBitmap =>
    let valid_bits := group_inode_count sb gid in
    let g := set_free_inodes (free_inodes_count g - 1) g in
    let g := if sat_sub32 valid_bits (Z.min (itable_unused g) valid_bits) <=? j then set_itable (sat_sub32 valid_bits (j + 1)) g else g in
    if negb (Z.land (g_flags g) EXT4_BG_INODE_UNINIT =? 0) then clear_flag EXT4_BG_INODE_UNINIT g else g
  end.

Definition commit_unit (k : BitmapKind) (gid bit : Z) (g : Ext4Group) (buf : list Z) (fs : Ext4FS) : option (Z * Ext4FS) :=
  match k with BlockBitmap => commit_block sb gid bit g buf fs | InodeBitmap => commit_inode sb gid bit g buf fs end.

Lemma count_bound gs k gid : layout_ok sb gs → 0 ≤ bit_count k gid ≤ per_group k ∧ per_group k ≤ 8 * BLOCK_SZ.
Proof. intros Hl. pose proof (lo_bpg sb gs Hl). pose proof (lo_ipg sb gs Hl). destruct k; cbn; unfold group_block_count, group_inode_count, sat_sub32; lia. Qed.

Lemma number_ok gs k gid j : layout_ok sb gs → 0 ≤ gid → 0 ≤ j < bit_count k gid →
  0 ≤ gid * per_group k + j ∧ gid * per_group k + j + base k < 2 ^ 32 ∧ (k = BlockBitmap → gid * per_group k + j + base k < total_blocks sb ∧ group_start sb gid = gid * per_group k + base k).
Proof.
  intros Hl Hg Hj. pose proof (lo_fdb sb gs Hl). pose proof (lo_blocks sb gs Hl). pose proof (lo_inodes sb gs Hl). pose proof (count_bound gs k gid Hl). assert (0 ≤ gid * per_group k) by nia.
  destruct k; cbn [bit_count per_group base] in *; unfold group_block_count, group_inode_count, group_start, sat_sub32, sat_add32, sat_mul32 in *; split_and!; (lia || done || intros _; lia).
Qed.

Lemma commit_eq k gid j g buf fs : commit_unit k gid j g buf fs =
  (fs ← (fs ← update_group_counts sb gid (taken k gid j g) buf k (with_group gid (taken k gid j g) (fs_write (bitmap_id k g) buf fs)); adjust_superblock_counts sb (match k with BlockBitmap => -1 | InodeBitmap => 0 end) (match k with BlockBitmap => 0 | InodeBitmap => -1 end) fs);
   a ← mul32 gid (per_group k); a ← add32 a j; a ← add32 a (base k); Some (a, fs)).
Proof.
  destruct k; cbn [commit_unit taken per_group base bitmap_id]; unfold commit_block, commit_inode; destruct (update_group_counts _ _ _ _ _ _) as [fs1|]; try done; rewrite !some_bind; destruct (adjust_superblock_counts _ _ _ _); done.
Qed.

Lemma taken_ok k i j g buf fs : alloc_inv fs → block_groups fs !! i = Some g → bitmap_of k (Z.of_nat i) g fs = Some (Some buf) → len buf = BLOCK_SZ → all_bytes buf → 0 ≤ j < bit_count k (Z.of_nat i) → bitset buf j = false →
  change_ok k i g (taken k (Z.of_nat i) j g) (set_bit buf j) fs ∧ free_count k (taken k (Z.of_nat i) j g) = free_count k g - 1 ∧ 0 < free_count k g.
Proof.
  intros Hinv Hi Hbuf Hl Hb Hj Hc. pose proof (count_bound _ k (Z.of_nat i) (ai_layout fs Hinv)) as [Hcb1 Hcb2]. destruct (set_bit_ok buf j ltac:(lia) Hb) as (S1 & S2 & S3). destruct (ai_bits fs Hinv k i g buf Hi Hbuf) as [C M T].
  pose proof (free_bits_set buf (bit_count k (Z.of_nat i)) j Hj ltac:(lia) Hb Hc) as Hfs. pose proof (free_bits_bound (set_bit buf j) (bit_count k (Z.of_nat i)) ltac:(lia)). destruct (ai_desc fs Hinv i g Hi) as [_ [F1 F2 F3 F4 F5]]. unfold BLOCK_SZ in *.
  assert (free_count k (taken k (Z.of_nat i) j g) = free_count k g - 1) as Hfree by (destruct k; cbn; repeat case_match; done). split; [|split; [done|lia]]. split.
  - destruct k; cbn; repeat case_match; done.
  - assert (∀ f, 0 ≤ Z.ldiff (g_flags g) f < 2 ^ 16) by (intros; apply ldiff_range; lia). destruct k; cbn in *; repeat case_match; split; cbn; unfold sat_sub32; lia || done || auto.
  - unfold BLOCK_SZ. congruence.
  - done.
  - destruct k; cbn; repeat case_match; cbn in *; rewrite ?land_ldiff; try (by apply Z.land_0_r); by apply Z.eqb_eq, negb_false_iff.
  - intros k' Hk. destruct k, k'; try done; cbn; repeat case_match; cbn in *; rewrite ?land_ldiff; done.
  - split; [by rewrite Hfree, C, Hfs|intros j' Hj' Hk; rewrite S3 by lia; by rewrite (M j' Hj' Hk), orb_true_r|].
    intros -> j' Hj'. rewrite S3 by lia. cbn [taken bit_count] in *. destruct (bool_decide_reflect (j' = j)) as [->|Hne]; cbn [orb].
    + intros _. assert (0 ≤ itable_unused g) by lia. repeat case_match; cbn in *; unfold sat_sub32 in *; lia.
    + intros Hs. specialize (T eq_refl j' Hj' Hs). assert (0 ≤ itable_unused g) by lia. repeat case_match; cbn in *; unfold sat_sub32 in *; lia.
Qed.

Definition number (k : BitmapKind) (i : nat) (j : Z) : Z := Z.of_nat i * per_group k + j + base k.

Lemma number_inj gs k i i' j j' : layout_ok sb gs → 0 ≤ j < bit_count k (Z.of_nat i) → 0 ≤ j' < bit_count k (Z.of_nat i') → number k i j = number k i' j' → i = i' ∧ j = j'.
Proof.
  intros Hl Hj Hj' Heq. pose proof (count_bound gs k (Z.of_nat i) Hl). pose proof (count_bound gs k (Z.of_nat i') Hl). unfold number in Heq. assert (Z.of_nat i * per_group k + j = Z.of_nat i' * per_group k + j') as He by lia.
  assert (Z.of_nat i = Z.of_nat i'); [|nia]. apply (f_equal (λ x, x / per_group k)) in He. rewrite !Z.div_add_l, !(Z.div_small j), !(Z.div_small j') in He by lia. lia.
Qed.

(** A block or inode in use: its bit is set in the bitmap of an initialized group, and the
    layout does not keep it. *)
Definition owned_bit (k : BitmapKind) (fs : Ext4FS) (i : nat) (j : Z) : Prop :=
  ∃ g, block_groups fs !! i = Some g ∧ 0 ≤ j < bit_count k (Z.of_nat i) ∧ Z.land (g_flags g) (uninit k) = 0 ∧ bitset (volume fs (bitmap_id k g)) j = true.

Definition owned (k : BitmapKind) (fs : Ext4FS) (n : Z) : Prop :=
  ∃ i j, n = number k i j ∧ owned_bit k fs i j ∧ ¬ kept sb k (block_groups fs) (Z.of_nat i) j.

Lemma owned_not_free k fs n : alloc_inv fs → owned k fs n → ¬ is_free k fs n.
Proof.
  intros Hinv (i & j & -> & (g & Hg & Hj & Hf & Hs) & _) (i' & j' & Heq & (g' & buf & Hg' & Hb & Hj' & Hc)%free_shown); [|done]. apply (number_inj _ k i i' j j' (ai_layout fs Hinv) Hj Hj') in Heq as [<- <-]. simplify_eq. rewrite bitmap_of_set in Hb by done. injection Hb as <-. congruence.
Qed.

(** What a step of group [i] leaves in use. *)
Lemma step_owned k i g g' buf bd id fs fs' : alloc_inv fs → block_groups fs !! i = Some g → change_ok k i g g' buf fs → stepped k i g g' buf bd id fs fs' →
  ∀ k' i' j, owned_bit k' fs i' j → (k' = k → i' = i → bitset buf j = true) → owned_bit k' fs' i' j.
Proof.
  intros Hinv Hi Hch Hst k' i' j (g1 & H1 & Hj & Hf & Hs) Hbuf. destruct (step_bitmaps _ _ _ _ _ _ _ _ _ Hinv Hi Hch Hst) as [_ Hbm]. destruct (Hbm k' i' g1 H1) as (g2 & H2 & Hne & Heq & Hb2).
  assert (Z.land (g_flags g2) (uninit k') = 0) as Hf2. { destruct (decide (i' = i)) as [->|Hni]; [|by rewrite Hne]. rewrite Heq by done. destruct (decide (k' = k)) as [->|Hk]; [apply Hch|]. destruct (co_other _ _ _ _ _ _ Hch k' Hk) as (-> & _). congruence. }
  exists g2. split_and!; [done|lia..|done|]. rewrite bitmap_of_set in Hb2 by done. case_decide as Hd; [destruct Hd as [-> ->]; injection Hb2 as ->; auto|]. rewrite bitmap_of_set in Hb2 by done. injection Hb2 as ->. done.
Qed.

(** The specification of taking one. *)
Record takes (k : BitmapKind) (fs : Ext4FS) (n : Z) (fs' : Ext4FS) : Prop := {
  ta_inv : alloc_inv fs';
  ta_free : is_free k fs n;
  ta_own : owned k fs' n;
  ta_rest : ∀ m, is_free k fs' m ↔ is_free k fs m ∧ m ≠ n;
  ta_other : ∀ k' m, k' ≠ k → is_free k' fs' m ↔ is_free k' fs m;
  ta_kept : ∀ k' m, owned k' fs m → owned k' fs' m;
  ta_data : ∀ b, first_data_block sb ≤ b → ¬ metadata sb (block_groups fs) b → volume fs' b = volume fs b;
}.

Lemma step_data k i g g' buf bd id fs fs' b : alloc_inv fs → block_groups fs !! i = Some g → stepped k i g g' buf bd id fs fs' → first_data_block sb ≤ b → ¬ metadata sb (block_groups fs) b → volume fs' b = volume fs b.
Proof.
  intros Hinv Hi Hst Hb Hm. pose proof (lo_resv sb _ (ai_layout fs Hinv)). apply (st_rest _ _ _ _ _ _ _ _ _ Hst).
  - intros ->. apply Hm. right. exists g. split; [by eapply list_elem_of_lookup_2|]. destruct k; unfold layout_block; cbn; tauto.
  - intros Hr. apply Hm. left. exists 0. pose proof (lookup_lt_Some _ _ _ Hi). split; [unfold len; lia|]. split; [by left|lia].
Qed.

Lemma step_totals k i g g' buf bd id fs fs' d : alloc_inv fs → block_groups fs !! i = Some g → change_ok k i g g' buf fs → stepped k i g g' buf bd id fs fs' →
  free_count k g' = free_count k g + d → free_count k g' ≤ bit_count k (Z.of_nat i) → -1 ≤ d ≤ 1 → bd = match k with BlockBitmap => d | InodeBitmap => 0 end → id = match k with BlockBitmap => 0 | InodeBitmap => d end →
  ∀ k', sb_free k' fs' = total_free k' (block_groups fs').
Proof.
  intros Hinv Hi Hch Hst Hd Hle Hr Hbd Hid k'. destruct (st_sb _ _ _ _ _ _ _ _ _ Hst) as [S1 S2]. rewrite (st_groups _ _ _ _ _ _ _ _ _ Hst), (total_insert k' _ i g g' Hi). pose proof (ai_layout fs Hinv) as Hl.
  assert (∀ h, h ≠ k → free_count h g' = free_count h g) as Ho by (intros h Hh; by destruct (co_other _ _ _ _ _ _ Hch h Hh) as (_ & -> & _)).
  assert (∀ h, 0 ≤ total_free h (<[i := g']> (block_groups fs)) ≤ len (block_groups fs) * per_group h) as Hbound.
  { intros h. rewrite <-(insert_len (block_groups fs) i g'). apply total_bound. intros i' x Hx. destruct (decide (i = i')) as [<-|Hne].
    - rewrite list_lookup_insert_eq in Hx by (by eapply lookup_lt_Some). injection Hx as <-. split; [destruct (co_fit _ _ _ _ _ _ Hch); destruct h; cbn; lia|]. transitivity (bit_count h (Z.of_nat i)); [|by eapply count_bound].
      destruct (decide (h = k)) as [->|Hh]; [done|]. rewrite Ho by done. by apply (ai_count fs Hinv).
    - rewrite list_lookup_insert_ne in Hx by done. destruct (ai_desc fs Hinv i' x Hx) as [_ []]. split; [destruct h; cbn; lia|]. transitivity (bit_count h (Z.of_nat i')); [by apply (ai_count fs Hinv)|by eapply count_bound]. }
  specialize (Hbound k'). rewrite (total_insert k' _ i g g' Hi) in Hbound. pose proof (lo_inodes sb _ Hl). pose proof (lo_bpg sb _ Hl). pose proof (lo_ipg sb _ Hl). pose proof (ai_total fs Hinv k') as Ht.
  assert (len (block_groups fs) * per_group k' < 2 ^ 64 - 1 ∧ len (block_groups fs) * inodes_per_group sb < 2 ^ 32) as [Hb1 Hb2] by (unfold BLOCK_SZ in *; split; [destruct k'; cbn; nia|lia]).
  destruct (decide (k' = k)) as [->|Hk].
  - destruct k; cbn [sb_free per_group free_count] in *; subst; rewrite ?S1, ?S2, Ht; unfold adjusted64, adjusted32, saturating_add, saturating_sub, sat_add32, sat_sub32, U64_MAX; destruct (Z.leb_spec 0 d); lia.
  - rewrite (Ho k' Hk) in *. destruct k, k'; try done; cbn [sb_free per_group free_count] in *; subst; rewrite ?S1, ?S2, Ht; unfold adjusted64, adjusted32, saturating_add, sat_add32, U64_MAX; cbn [Z.leb Z.compare]; lia.
Qed.

Lemma step_takes k i g g' buf j bd id fs fs' : alloc_inv fs → block_groups fs !! i = Some g → bitmap_of k (Z.of_nat i) g fs = Some (Some buf) → len buf = BLOCK_SZ → all_bytes buf → 0 ≤ j < bit_count k (Z.of_nat i) → bitset buf j = false →
  change_ok k i g g' (set_bit buf j) fs → stepped k i g g' (set_bit buf j) bd id fs fs' → alloc_inv fs' → takes k fs (number k i j) fs'.
Proof.
  intros Hinv Hi Hbuf Hl Hb Hj Hc Hch Hst Hinv'. pose proof (ai_layout fs Hinv) as Hlay. pose proof (count_bound _ k (Z.of_nat i) Hlay) as [Hcb1 Hcb2]. destruct (set_bit_ok buf j ltac:(lia) Hb) as (_ & _ & S3).
  pose proof (step_free _ _ _ _ _ _ _ _ _ Hinv Hinv' Hi Hch Hst) as Hfree. pose proof (step_owned _ _ _ _ _ _ _ _ _ Hinv Hi Hch Hst) as Hown. destruct (step_bitmaps _ _ _ _ _ _ _ _ _ Hinv Hi Hch Hst) as [Hps Hbm].
  assert (free_bit k fs i j) as Hfb by (apply free_shown; [done|by exists g, buf]). split; [done|by exists i, j| | | | |intros; by eapply step_data].
  - exists i, j. split; [done|]. split; [|rewrite (places_kept _ _ _ _ _ Hps); by apply (ai_kept fs Hinv)]. destruct (Hbm k i g Hi) as (g2 & H2 & _ & Heq & _). exists g2. rewrite Heq in * by done. split_and!; [done|lia..|apply Hch|].
    assert (bitmap_id k g' = bitmap_id k g) as -> by (destruct (co_place _ _ _ _ _ _ Hch) as (_ & ? & ? & _); by destruct k). rewrite (st_map _ _ _ _ _ _ _ _ _ Hst), S3 by lia. by rewrite bool_decide_true.
  - intros m. split.
    + intros (i' & j' & -> & Hf). apply Hfree in Hf. case_decide as Hd; [destruct Hd as [_ ->], Hf as [Hj' Hs]; rewrite S3 in Hs by lia; apply orb_false_elim in Hs as [Hne%bool_decide_eq_false Hs]|].
      * split; [exists i, j'; split; [done|]; apply free_shown; [done|]; by exists g, buf|]. intros Heq. by apply (number_inj _ k i i j' j Hlay Hj' Hj) in Heq as [_ ->].
      * split; [by exists i', j'|]. intros Heq. pose proof (free_bit_range _ _ _ _ Hf) as Hj'. apply (number_inj _ k i' i j' j Hlay Hj' Hj) in Heq as [-> _]. tauto.
    + intros [(i' & j' & -> & Hf) Hne]. exists i', j'. split; [done|]. apply Hfree. case_decide as Hd; [|done]. destruct Hd as [_ ->]. apply free_shown in Hf as (g1 & b1 & H1 & Hb1 & Hj' & Hs); [|done]. simplify_eq. split; [done|]. rewrite S3 by lia. rewrite bool_decide_false; [done|]. by intros ->.
  - intros k' m Hk. unfold is_free. setoid_rewrite Hfree. split; intros (i' & j' & -> & Hf); exists i', j'; rewrite decide_False in * by tauto; done.
  - intros k' m (i' & j' & -> & Hob & Hm). exists i', j'. split; [done|]. split; [|by rewrite (places_kept _ _ _ _ _ Hps)]. apply Hown; [done|]. intros -> ->. destruct Hob as (g1 & H1 & Hj' & Hf1 & Hs). simplify_eq. rewrite bitmap_of_set in Hbuf by done. injection Hbuf as <-. rewrite S3 by lia. by rewrite Hs, orb_true_r.
Qed.

Lemma commit_takes k i g buf j fs : alloc_inv fs → block_groups fs !! i = Some g → bitmap_of k (Z.of_nat i) g fs = Some (Some buf) → len buf = BLOCK_SZ → all_bytes buf → 0 ≤ j < bit_count k (Z.of_nat i) → bitset buf j = false →
  ∃ fs', commit_unit k (Z.of_nat i) j g (set_bit buf j) fs = Some (number k i j, fs') ∧ takes k fs (number k i j) fs'.
Proof.
  intros Hinv Hi Hbuf Hl Hb Hj Hc. destruct (taken_ok k i j g buf fs Hinv Hi Hbuf Hl Hb Hj Hc) as (Hch & Hfree & Hpos). pose proof (ai_layout fs Hinv) as Hlay. rewrite commit_eq. set (g' := taken k (Z.of_nat i) j g) in *. destruct (id Hch) as [C1 C2 C3 C4 _ _ _].
  destruct (commit_ok k i g g' (set_bit buf j) (match k with BlockBitmap => -1 | InodeBitmap => 0 end) (match k with BlockBitmap => 0 | InodeBitmap => -1 end) fs Hinv Hi C1 C2 C3 C4) as (fs' & -> & Hst). step_some.
  destruct (number_ok _ k (Z.of_nat i) j Hlay ltac:(lia) Hj) as (N1 & N2 & N3). assert (0 ≤ base k) by (destruct k; cbn; [apply (lo_fdb sb _ Hlay)|lia]). unfold mul32, add32. rewrite (proj2 (Z.ltb_lt (Z.of_nat i * per_group k) _)) by lia. step_some.
  rewrite (proj2 (Z.ltb_lt (Z.of_nat i * per_group k + j) _)) by lia. step_some. rewrite (proj2 (Z.ltb_lt (Z.of_nat i * per_group k + j + base k) _)) by lia. step_some. fold (number k i j). exists fs'. split; [done|].
  assert (free_count k g' ≤ bit_count k (Z.of_nat i)) as Hle by (pose proof (ai_count fs Hinv k i g Hi); lia). eapply step_takes; [done..|]. eapply step_inv; [done..|]. eapply (step_totals k i g g' (set_bit buf j) _ _ fs fs' (-1)); [done..|lia|done|lia|by destruct k|by destruct k].
Qed.

(** ** The search over the groups *)

Lemma alloc_in_ok k fs : alloc_inv fs → ∀ gs i, gs = drop i (block_groups fs) → (∀ i' j, (i' < i)%nat → ¬ free_bit k fs i' j) →
  ∃ r fs', match k with BlockBitmap => alloc_block_in sb gs (Z.of_nat i) fs | InodeBitmap => alloc_inode_in sb gs (Z.of_nat i) fs end = Some (r, fs') ∧
    match r with Some n => takes k fs n fs' | None => fs' = fs ∧ ∀ m, ¬ is_free k fs m end.
Proof.
  intros Hinv gs. induction gs as [|g gs IH]; intros i Hgs Hbelow.
  - exists None, fs. split; [by destruct k|]. split; [done|]. intros m (i' & j & _ & Hf). apply (Hbelow i' j); [|done]. destruct Hf as (g & Hg & _). apply lookup_lt_Some in Hg. symmetry in Hgs. apply (f_equal length) in Hgs. rewrite length_drop in Hgs. cbn in Hgs. lia.
  - assert (block_groups fs !! i = Some g) as Hi by (rewrite <-(Nat.add_0_r i), <-lookup_drop, <-Hgs; done). assert (gs = drop (S i) (block_groups fs)) as Hgs' by (rewrite <-Nat.add_1_r, <-drop_drop, <-Hgs; done).
    assert ((∀ j, ¬ free_bit k fs i j) → ∃ r fs', match k with BlockBitmap => alloc_block_in sb gs (Z.of_nat i + 1) fs | InodeBitmap => alloc_inode_in sb gs (Z.of_nat i + 1) fs end = Some (r, fs') ∧ match r with Some n => takes k fs n fs' | None => fs' = fs ∧ ∀ m, ¬ is_free k fs m end) as Hnext.
    { intros Hnone. replace (Z.of_nat i + 1) with (Z.of_nat (S i)) by lia. apply IH; [done|]. intros i' j Hlt. destruct (decide (i' = i)) as [->|]; [apply Hnone|apply Hbelow; lia]. }
    assert (match k with BlockBitmap => alloc_block_in sb (g :: gs) (Z.of_nat i) fs | InodeBitmap => alloc_inode_in sb (g :: gs) (Z.of_nat i) fs end =
      if free_count k g =? 0 then match k with BlockBitmap => alloc_block_in sb gs (Z.of_nat i + 1) fs | InodeBitmap => alloc_inode_in sb gs (Z.of_nat i + 1) fs end
      else bitmap ← bitmap_of k (Z.of_nat i) g fs;
        match bitmap with
        | None => match k with BlockBitmap => alloc_block_in sb gs (Z.of_nat i + 1) fs | InodeBitmap => alloc_inode_in sb gs (Z.of_nat i + 1) fs end
        | Some buf => '(found, buf) ← take_bit (seqZ 0 (bit_count k (Z.of_nat i))) buf;
          match found with
          | None => match k with BlockBitmap => alloc_block_in sb gs (Z.of_nat i + 1) fs | InodeBitmap => alloc_inode_in sb gs (Z.of_nat i + 1) fs end
          | Some bit => '(a, fs) ← commit_unit k (Z.of_nat i) bit g buf fs; Some (Some a, fs)
          end
        end) as -> by by destruct k.
    destruct (bitmap_of_ok k i g fs Hinv Hi) as (buf & Hr & L & B & _ & Hbuf). destruct (free_count k g =? 0) eqn:H0.
    { apply Z.eqb_eq in H0. apply Hnext. intros j Hf. pose proof (free_bit_range _ _ _ _ Hf) as Hj. apply Hbuf in Hf; [|done]. destruct (taken_ok k i j g buf fs Hinv Hi Hr L B Hj Hf) as (_ & _ & Hp). lia. }
    rewrite Hr. step_some. pose proof (count_bound _ k (Z.of_nat i) (ai_layout fs Hinv)) as [Hcb1 Hcb2].
    destruct (take_bit_in (seqZ 0 (bit_count k (Z.of_nat i))) buf) as [[-> Hall]|(j & -> & Hj & Hs)]; [intros j Hj; apply elem_of_seqZ in Hj; lia| |]; step_some.
    + apply Hnext. intros j Hf. pose proof (free_bit_range _ _ _ _ Hf) as Hj. apply Hbuf in Hf; [|done]. assert (bitset buf j = true); [|congruence]. apply Hall, elem_of_seqZ. lia.
    + apply elem_of_seqZ in Hj. destruct (commit_takes k i g buf j fs Hinv Hi Hr L B ltac:(lia) Hs) as (fs' & -> & Ht). step_some. by exists (Some (number k i j)), fs'.
Qed.

(** ** Giving back *)

Definition given (k : BitmapKind) (g : Ext4Group) : Ext4Group :=
  match k with BlockBitmap => set_free_blocks (free_blocks_count g + 1) g | InodeBitmap => set_free_inodes (free_inodes_count g + 1) g end.

Definition dealloc (k : BitmapKind) (n : Z) (fs : Ext4FS) : option Ext4FS :=
  match k with BlockBitmap => dealloc_block sb n fs | InodeBitmap => dealloc_inode sb n fs end.

Record gives (k : BitmapKind) (fs : Ext4FS) (n : Z) (fs' : Ext4FS) : Prop := {
  gi_inv : alloc_inv fs';
  gi_rest : ∀ m, is_free k fs' m ↔ is_free k fs m ∨ m = n;
  gi_other : ∀ k' m, k' ≠ k → is_free k' fs' m ↔ is_free k' fs m;
  gi_kept : ∀ k' m, owned k' fs m → (k', m) ≠ (k, n) → owned k' fs' m;
  gi_data : ∀ b, first_data_block sb ≤ b → ¬ metadata sb (block_groups fs) b → volume fs' b = volume fs b;
}.

(** The bit of a number in range, found and tested. *)
Lemma dealloc_eq k i j g fs : alloc_inv fs → block_groups fs !! i = Some g → 0 ≤ j < bit_count k (Z.of_nat i) → 
  let buf := volume fs (bitmap_id k g) in
  dealloc k (number k i j) fs =
  if bitset buf j then
    update ← (if free_count k g + 1 <? 2 ^ 32 then Some tt else None);
    fs ← update_group_counts sb (Z.of_nat i) (given k g) (clear_bit buf j) k (with_group (Z.of_nat i) (given k g) (fs_write (bitmap_id k g) (clear_bit buf j) fs));
    adjust_superblock_counts sb (match k with BlockBitmap => 1 | InodeBitmap => 0 end) (match k with BlockBitmap => 0 | InodeBitmap => 1 end) fs
  else Some fs.
Proof.
  intros Hinv Hi Hj buf. pose proof (ai_layout fs Hinv) as Hlay. destruct (number_ok _ k (Z.of_nat i) j Hlay ltac:(lia) Hj) as (N1 & N2 & N3). pose proof (count_bound _ k (Z.of_nat i) Hlay) as [Hcb1 Hcb2]. pose proof (lo_bpg sb _ Hlay). pose proof (lo_ipg sb _ Hlay). pose proof (lo_fdb sb _ Hlay).
  destruct (ai_bytes fs Hinv (bitmap_id k g)) as [L B]. fold buf in L, B. destruct (bit_byte buf j ltac:(lia)) as (v & Hv & _). pose proof (Z.mod_pos_bound j 8 ltac:(lia)).
  assert ((Z.of_nat i * per_group k + j) / per_group k = Z.of_nat i) as Hdiv by (rewrite Z.div_add_l, Z.div_small by lia; lia). assert ((Z.of_nat i * per_group k + j) mod per_group k = j) as Hmod by (rewrite Z.add_comm, Z_mod_plus_full; apply Z.mod_small; lia).
  assert (bitset buf j = negb (Z.land v (Z.shiftl 1 (j mod 8)) =? 0)) as Hbs by (rewrite land_bit, negb_involutive by lia; unfold bitset; by rewrite Hv). rewrite Hbs. unfold clear_bit. rewrite Hv. cbn [default from_option].
  assert (dealloc k (number k i j) fs = if Z.land v (Z.shiftl 1 (j mod 8)) =? 0 then Some fs else
    (n ← add32 (free_count k g) 1; let g := (match k with BlockBitmap => set_free_blocks n g | InodeBitmap => set_free_inodes n g end) in
     fs ← update_group_counts sb (Z.of_nat i) g (splice (j / 8) [Z.ldiff v (Z.shiftl 1 (j mod 8))] buf) k (with_group (Z.of_nat i) g (fs_write (bitmap_id k g) (splice (j / 8) [Z.ldiff v (Z.shiftl 1 (j mod 8))] buf) fs));
     adjust_superblock_counts sb (match k with BlockBitmap => 1 | InodeBitmap => 0 end) (match k with BlockBitmap => 0 | InodeBitmap => 1 end) fs)) as ->.
  { destruct k; cbn [dealloc number per_group base bit_count bitmap_id free_count] in *.
    - destruct (N3 eq_refl) as [N4 N5]. unfold dealloc_block. rewrite (proj2 (Z.ltb_ge (number BlockBitmap i j) _)), (proj2 (Z.leb_gt _ _)) by (unfold number; cbn [per_group base]; lia). cbn [orb]. rewrite (proj2 (Z.eqb_neq _ _)) by lia. unfold number. cbn [per_group base]. rewrite Z.add_simpl_r, Hdiv, Hmod, Nat2Z.id, Hi.
      step_some. rewrite (proj2 (Z.leb_gt _ _)) by lia. unfold fs_read. fold buf. rewrite Hv. step_some. done.
    - unfold dealloc_inode. rewrite (proj2 (Z.eqb_neq (number InodeBitmap i j) 0)), (proj2 (Z.ltb_ge _ _)) by (unfold number, group_inode_count, sat_sub32, sat_mul32 in *; cbn [per_group base]; lia). cbn [orb]. rewrite (proj2 (Z.eqb_neq _ _)) by lia. unfold number. cbn [per_group base]. rewrite Z.add_simpl_r, Hdiv, Hmod, Nat2Z.id, Hi.
      step_some. rewrite (proj2 (Z.leb_gt _ _)) by lia. unfold fs_read. fold buf. rewrite Hv. step_some. done. }
  destruct (_ =? 0); cbn [negb]; [done|]. unfold add32. destruct (_ <? 2 ^ 32); [rewrite !some_bind|done]. by destruct k.
Qed.

Lemma given_ok k i j g fs : alloc_inv fs → block_groups fs !! i = Some g → 0 ≤ j < bit_count k (Z.of_nat i) → Z.land (g_flags g) (uninit k) = 0 → bitset (volume fs (bitmap_id k g)) j = true → ¬ kept sb k (block_groups fs) (Z.of_nat i) j →
  change_ok k i g (given k g) (clear_bit (volume fs (bitmap_id k g)) j) fs ∧ free_count k (given k g) = free_count k g + 1 ∧ free_count k (given k g) ≤ bit_count k (Z.of_nat i).
Proof.
  intros Hinv Hi Hj Hf Hs Hm. pose proof (ai_layout fs Hinv) as Hlay. pose proof (count_bound _ k (Z.of_nat i) Hlay) as [Hcb1 Hcb2]. destruct (ai_bytes fs Hinv (bitmap_id k g)) as [L B]. set (buf := volume fs (bitmap_id k g)) in *. destruct (clear_bit_ok buf j ltac:(lia) B) as (S1 & S2 & S3).
  destruct (ai_bits fs Hinv k i g buf Hi) as [C M T]; [by apply bitmap_of_set|]. pose proof (free_bits_clear buf (bit_count k (Z.of_nat i)) j Hj ltac:(lia) B Hs) as Hfs. pose proof (free_bits_bound (clear_bit buf j) (bit_count k (Z.of_nat i)) ltac:(lia)). destruct (ai_desc fs Hinv i g Hi) as [_ [F1 F2 F3 F4 F5]]. unfold BLOCK_SZ in *.
  assert (free_count k (given k g) = free_count k g + 1) as Hfree by by destruct k. split; [|split; [done|lia]]. split.
  - by destruct k.
  - destruct k; cbn in *; split; cbn; lia || done.
  - unfold BLOCK_SZ. congruence.
  - done.
  - by destruct k.
  - intros k' Hk. by destruct k, k'.
  - split; [by rewrite Hfree, C, Hfs| |].
    + intros j' Hj' Hk. rewrite S3 by lia. rewrite (M j' Hj' Hk), andb_true_r. apply negb_true_iff, bool_decide_eq_false. by intros ->.
    + intros Hk j' Hj'. rewrite S3 by lia. intros [_ Ht]%andb_true_iff. subst k. exact (T eq_refl j' Hj' Ht).
Qed.

Lemma dealloc_gives k n fs : alloc_inv fs → owned k fs n → ∃ fs', dealloc k n fs = Some fs' ∧ gives k fs n fs'.
Proof.
  intros Hinv (i & j & -> & (g & Hi & Hj & Hf & Hs) & Hm). pose proof (ai_layout fs Hinv) as Hlay. pose proof (count_bound _ k (Z.of_nat i) Hlay) as [Hcb1 Hcb2]. destruct (given_ok k i j g fs Hinv Hi Hj Hf Hs Hm) as (Hch & Hfree & Hle).
  rewrite (dealloc_eq k i j g fs Hinv Hi Hj). cbv zeta. rewrite Hs, (proj2 (Z.ltb_lt _ _)) by (unfold BLOCK_SZ in *; lia). rewrite some_bind. destruct (ai_bytes fs Hinv (bitmap_id k g)) as [L B]. set (buf := volume fs (bitmap_id k g)) in *. destruct (id Hch) as [C1 C2 C3 C4 _ _ _].
  destruct (commit_ok k i g (given k g) (clear_bit buf j) (match k with BlockBitmap => 1 | InodeBitmap => 0 end) (match k with BlockBitmap => 0 | InodeBitmap => 1 end) fs Hinv Hi C1 C2 C3 C4) as (fs' & -> & Hst). exists fs'. split; [done|].
  assert (alloc_inv fs') as Hinv' by (eapply step_inv; [done..|]; eapply (step_totals k i g (given k g) (clear_bit buf j) _ _ fs fs' 1); [done..|lia|by destruct k|by destruct k]).
  destruct (clear_bit_ok buf j ltac:(lia) B) as (_ & _ & S3). pose proof (step_free _ _ _ _ _ _ _ _ _ Hinv Hinv' Hi Hch Hst) as Hfr. pose proof (step_owned _ _ _ _ _ _ _ _ _ Hinv Hi Hch Hst) as Hown. destruct (step_bitmaps _ _ _ _ _ _ _ _ _ Hinv Hi Hch Hst) as [Hps _].
  assert (bitmap_of k (Z.of_nat i) g fs = Some (Some buf)) as Hbuf by by apply bitmap_of_set. split; [done| | | |intros; by eapply step_data].
  - intros m. split.
    + intros (i' & j' & -> & Hfb). apply Hfr in Hfb. case_decide as Hd; [|left; by exists i', j']. destruct Hd as [_ ->], Hfb as [Hj' Ht]. rewrite S3 in Ht by lia. destruct (decide (j' = j)) as [->|Hne]; [by right|left].
      rewrite bool_decide_false in Ht by done. exists i, j'. split; [done|]. apply free_shown; [done|]. by exists g, buf.
    + intros [(i' & j' & -> & Hfb)| ->]; [exists i', j'|exists i, j]; (split; [done|]); apply Hfr; [case_decide as Hd; [|done]|rewrite decide_True by done].
      * destruct Hd as [_ ->]. apply free_shown in Hfb as (g1 & b1 & H1 & Hb1 & Hj' & Ht); [|done]. simplify_eq. split; [done|]. rewrite S3, Ht by lia. apply andb_false_r.
      * split; [done|]. rewrite S3 by lia. by rewrite bool_decide_true.
  - intros k' m Hk. unfold is_free. setoid_rewrite Hfr. split; intros (i' & j' & -> & Hfb); exists i', j'; rewrite decide_False in * by tauto; done.
  - intros k' m (i' & j' & -> & Hob & Hmm) Hne. exists i', j'. split; [done|]. split; [|by rewrite (places_kept _ _ _ _ _ Hps)]. apply Hown; [done|]. intros -> ->. destruct Hob as (g1 & H1 & Hj' & Hf1 & Ht). simplify_eq. fold buf in Ht. rewrite S3, Ht, andb_true_r by lia. apply negb_true_iff, bool_decide_eq_false. by intros ->.
Qed.

(** A second free, or one of a number out of range, changes nothing. *)
Lemma dealloc_noop k i j g fs : alloc_inv fs → block_groups fs !! i = Some g → 0 ≤ j < bit_count k (Z.of_nat i) → bitset (volume fs (bitmap_id k g)) j = false → dealloc k (number k i j) fs = Some fs.
Proof. intros Hinv Hi Hj Hs. rewrite (dealloc_eq k i j g fs Hinv Hi Hj). cbv zeta. by rewrite Hs. Qed.

(** ** A client of the allocator *)

(** The client takes blocks and inodes, and gives back the ones it holds, each by its place
    in the list of those. *)
Inductive request := Take (k : BitmapKind) | Give (k : BitmapKind) (at_ : nat).

Record client := MkClient { c_fs : Ext4FS; c_held : BitmapKind → list Z }.

Definition hold (k : BitmapKind) (l : list Z) (h : BitmapKind → list Z) : BitmapKind → list Z := λ k', if decide (k' = k) then l else h k'.

Definition serve (r : request) (c : client) : option client :=
  match r with
  | Take k =>
    '(r, fs) ← (match k with BlockBitmap => alloc_block sb (c_fs c) | InodeBitmap => alloc_inode sb (c_fs c) end);
    Some (MkClient fs (match r with Some n => hold k (n :: c_held c k) (c_held c) | None => c_held c end))
  | Give k at_ =>
    match c_held c k !! at_ with
    | Some n => fs ← dealloc k n (c_fs c); Some (MkClient fs (hold k (delete at_ (c_held c k)) (c_held c)))
    | None => Some c
    end
  end.

Definition serve_all (rs : list request) (c : client) : option client := foldl (λ c r, c ← c; serve r c) (Some c) rs.

(** What was free is free or held, never both, and what is held is in use. *)
Record conserved (fs : Ext4FS) (c : client) : Prop := {
  cs_inv : alloc_inv (c_fs c);
  cs_nodup : ∀ k, NoDup (c_held c k);
  cs_owned : ∀ k n, n ∈ c_held c k → owned k (c_fs c) n;
  cs_free : ∀ k n, is_free k fs n ↔ is_free k (c_fs c) n ∨ n ∈ c_held c k;
}.

Lemma alloc_ok k fs : alloc_inv fs → ∃ r fs', (match k with BlockBitmap => alloc_block sb fs | InodeBitmap => alloc_inode sb fs end) = Some (r, fs') ∧
  match r with Some n => takes k fs n fs' | None => fs' = fs ∧ ∀ m, ¬ is_free k fs m end.
Proof. intros Hinv. destruct (alloc_in_ok k fs Hinv (block_groups fs) 0) as (r & fs' & Hr & H'); [by rewrite drop_0|lia|]. exists r, fs'. split; [|done]. by destruct k. Qed.

Lemma hold_same k l h : hold k l h k = l.
Proof. unfold hold. by rewrite decide_True. Qed.

Lemma hold_other k k' l h : k' ≠ k → hold k l h k' = h k'.
Proof. intros Hk. unfold hold. by rewrite decide_False. Qed.

Lemma serve_ok r fs c : conserved fs c → ∃ c', serve r c = Some c' ∧ conserved fs c'.
Proof.
  intros [Hinv Hnd Hown Hfree]. destruct r as [k|k at_]; cbn [serve].
  - destruct (alloc_ok k (c_fs c) Hinv) as (r & fs' & -> & Hr). step_some. eexists. split; [done|]. destruct r as [n|]; [|by destruct Hr as [-> _]]. destruct Hr as [T1 T2 T3 T4 T5 T6 _]. split; cbn [c_fs c_held]; [done|..].
    + intros k'. destruct (decide (k' = k)) as [->|Hk]; [rewrite hold_same|by rewrite hold_other]. apply NoDup_cons. split; [|done]. intros Hin. by apply (owned_not_free k (c_fs c) n Hinv (Hown k n Hin)).
    + intros k' m. destruct (decide (k' = k)) as [->|Hk]; [rewrite hold_same|rewrite hold_other by done; eauto]. intros [->|Hin]%elem_of_cons; [done|eauto].
    + intros k' m. rewrite Hfree. destruct (decide (k' = k)) as [->|Hk]; [rewrite hold_same|rewrite hold_other, T5 by done; done]. rewrite T4, elem_of_cons. destruct (decide (m = n)) as [->|]; [|tauto]. tauto.
  - destruct (c_held c k !! at_) as [n|] eqn:Hat; [|by eexists]. assert (n ∈ c_held c k) as Hin by by eapply list_elem_of_lookup_2. destruct (dealloc_gives k n (c_fs c) Hinv (Hown k n Hin)) as (fs' & -> & [G1 G2 G3 G4 _]). step_some. eexists. split; [done|].
    pose proof (delete_Permutation _ _ _ Hat) as Hperm. assert (NoDup (n :: delete at_ (c_held c k))) as [Hn Hnd']%NoDup_cons by by rewrite <-Hperm. split; cbn [c_fs c_held]; [done|..].
    + intros k'. destruct (decide (k' = k)) as [->|Hk]; [by rewrite hold_same|by rewrite hold_other].
    + intros k' m. destruct (decide (k' = k)) as [->|Hk]; [rewrite hold_same|rewrite hold_other by done; intros Hm; apply G4; [auto|congruence]]. intros Hm. apply G4; [apply Hown; assert (m ∈ n :: delete at_ (c_held c k)) as Hc by (apply elem_of_cons; by right); by rewrite <-Hperm in Hc|intros [= ->]; done].
    + intros k' m. rewrite Hfree. destruct (decide (k' = k)) as [->|Hk]; [rewrite hold_same|rewrite hold_other, G3 by done; done]. assert (m ∈ c_held c k ↔ m ∈ n :: delete at_ (c_held c k)) as Hm by by rewrite <-Hperm. rewrite G2, Hm, elem_of_cons. tauto.
Qed.

Lemma serve_all_ok fs rs : ∀ c, conserved fs c → ∃ c', serve_all rs c = Some c' ∧ conserved fs c'.
Proof.
  induction rs as [|r rs IH]; intros c Hc; [by eexists|]. destruct (serve_ok r fs c Hc) as (c1 & H1 & Hc1). destruct (IH c1 Hc1) as (c2 & H2 & Hc2). exists c2. split; [|done]. unfold serve_all in *. cbn [foldl]. by rewrite some_bind, H1.
Qed.

(** ** The count of directories *)

Lemma put_used_dirs_eq n d : len d = 32 ∨ 64 ≤ len d → put_used_dirs n d = Some (if 64 <=? len d then splice 48 (le 2 (Z.shiftr n 16)) (splice 16 (le 2 n) d) else splice 16 (le 2 n) d).
Proof.
  intros Hsz. unfold put_used_dirs. rewrite put_in by lens. step_some. rewrite len_splice by lens. destruct (64 <=? len d) eqn:H64; [|done]. apply Z.leb_le in H64. by rewrite put_in by lens.
Qed.

Ltac whole_le := repeat match goal with |- context [seg ?a ?b (le 2 ?x)] => change (seg a b (le 2 x)) with (seg 0 2 (le 2 x)); rewrite (seg_all 2 (le 2 x)) by apply len_le end.

Lemma put_used_dirs_new gid g n d : len d = 32 ∨ 64 ≤ len d → all_bytes d → group_new gid d = Some g → 0 ≤ n < 2 ^ 32 → (len d < 64 → n < 2 ^ 16) →
  ∃ d', put_used_dirs n d = Some d' ∧ len d' = len d ∧ all_bytes d' ∧ group_new gid d' = Some (set_used_dirs n g).
Proof.
  intros Hsz Hb Hg Hn Hs. rewrite put_used_dirs_eq by done. eexists. split; [done|]. rewrite group_new_eq in Hg by lia. destruct (wide_desc d) eqn:Hw; [done|]. injection Hg as <-. unfold wide_desc in Hw.
  destruct Hsz as [H32|H64]; decide_tests.
  - split; [lens|]. split; [bytes|]. rewrite group_new_eq by lens. unfold wide_desc. rewrite len_splice by lens. decide_tests. unfold desc_field, set_used_dirs. cbn [group_id block_bitmap_id inode_bitmap_id inode_table_id free_blocks_count free_inodes_count used_dirs_count itable_unused g_flags].
    rewrite len_splice by lens. decide_tests. seg_splice. whole_le. do 2 f_equal. rewrite Z.shiftl_0_l, Z.lor_0_r. apply of_le_small. change (8 * Z.of_nat 2) with 16. lia.
  - split; [lens|]. split; [bytes|]. rewrite group_new_eq by lens. rewrite (proj2 (Z.leb_le 64 (len d)) H64) in Hw. cbn [andb] in Hw. unfold wide_desc. rewrite !len_splice by lens. decide_tests. unfold desc_field, set_used_dirs. cbn [group_id block_bitmap_id inode_bitmap_id inode_table_id free_blocks_count free_inodes_count used_dirs_count itable_unused g_flags].
    rewrite !len_splice by lens. decide_tests. seg_splice. rewrite Hw. whole_le. do 2 f_equal. by apply join16.
Qed.

(** A group whose count of directories alone differs. *)
Lemma dirs_inv i g n fs fs' : alloc_inv fs → block_groups fs !! i = Some g → 0 ≤ n < 2 ^ 32 → (desc_size sb < 64 → n < 2 ^ 16) → block_groups fs' = <[i := set_used_dirs n g]> (block_groups fs) → volume_bytes fs' →
  (∀ c, c ≠ desc_block sb (Z.of_nat i) → volume fs' c = volume fs c) → (∀ j, 0 ≤ j → j ≠ Z.of_nat i → desc_of sb fs' j = desc_of sb fs j) → group_new (Z.of_nat i) (desc_of sb fs' (Z.of_nat i)) = Some (set_used_dirs n g) →
  alloc_inv fs' ∧ ∀ k m, is_free k fs' m ↔ is_free k fs m.
Proof.
  intros Hinv Hi Hn Hs Hg Hb Hr Hds Hd. pose proof (ai_layout fs Hinv) as Hlay. pose proof (lookup_lt_Some _ _ _ Hi) as Hlt. assert (same_places (block_groups fs) (block_groups fs')) as Hps by (rewrite Hg; by eapply places_insert).
  pose proof (desc_block_range _ (Z.of_nat i) Hlay ltac:(unfold len; lia)) as Hdb.
  assert (∀ i' g2, block_groups fs' !! i' = Some g2 → ∃ g1, block_groups fs !! i' = Some g1 ∧ (i' ≠ i → g2 = g1) ∧ (i' = i → g2 = set_used_dirs n g1) ∧ g_flags g2 = g_flags g1 ∧ itable_unused g2 = itable_unused g1 ∧ ∀ k, free_count k g2 = free_count k g1 ∧ bitmap_of k (Z.of_nat i') g2 fs' = bitmap_of k (Z.of_nat i') g1 fs) as Hback.
  { intros i' g2 H2. destruct (places_lookup _ _ _ _ Hps H2) as (g1 & H1 & Hp). exists g1. split; [done|]. assert ((i' ≠ i → g2 = g1) ∧ (i' = i → g2 = set_used_dirs n g1)) as [E1 E2].
    { rewrite Hg in H2. destruct (decide (i' = i)) as [->|Hne]; [rewrite list_lookup_insert_eq in H2 by done|rewrite list_lookup_insert_ne in H2 by done]; split; intros; congruence. }
    assert (g_flags g2 = g_flags g1 ∧ itable_unused g2 = itable_unused g1 ∧ ∀ k, free_count k g2 = free_count k g1) as (F1 & F2 & F3) by (destruct (decide (i' = i)) as [->|Hne]; [rewrite E2 by done|rewrite E1 by done]; split_and!; [done..|intros []; done]).
    split_and!; [done..|]. intros k. split; [done|]. apply bitmap_of_kept; [done|congruence|done|destruct Hp as (_ & ? & ? & _); by destruct k|]. apply Hr. pose proof (bitmap_behind _ k g1 Hlay ltac:(by eapply list_elem_of_lookup_2)). lia. }
  assert (alloc_inv fs') as Hinv'.
  { apply alloc_inv_intro; [by eapply places_layout|done|..].
    - intros i' g2 H2. destruct (Hback i' g2 H2) as (g1 & H1 & E1 & E2 & _). destruct (ai_desc fs Hinv i' g1 H1) as [A [F1 F2 F3 F4 F5]]. destruct (decide (i' = i)) as [->|Hne]; [rewrite E2 by done; assert (g1 = g) as -> by congruence; split; [done|]; by split|]. rewrite E1, Hds by (done || lia). done.
    - intros k i' g2 H2. destruct (Hback i' g2 H2) as (g1 & H1 & _ & _ & _ & E3 & E). destruct (E k) as [E4 E5]. destruct (bitmap_of_ok k i' g1 fs Hinv H1) as (buf & Hbuf & _ & _ & [C M T] & _). exists buf. rewrite E5. split; [done|]. split; [congruence|intros j Hj; rewrite (places_kept _ _ _ _ _ Hps); auto|intros Hk; rewrite E3; by apply T].
    - intros k. rewrite Hg, (total_insert k _ i g _ Hi). assert (sb_free k fs' = sb_free k fs) as -> by (assert (sb_raw fs' = sb_raw fs) as Hraw by (unfold sb_raw; by rewrite Hr by lia); destruct k; cbn; unfold sb_free_blocks, sb_free_inodes; by rewrite Hraw). rewrite (ai_total fs Hinv). destruct k; cbn; lia. }
  split; [done|]. intros k m. split; intros (i' & j & -> & Hf); exists i', j; (split; [done|]); apply free_shown; try done; apply free_shown in Hf as (x & buf & Hx & Hbuf & Hj & Hc); try done.
  - destruct (Hback i' x Hx) as (g1 & H1 & _ & _ & _ & _ & E). destruct (E k) as [_ E5]. rewrite E5 in Hbuf. by exists g1, buf.
  - assert (is_Some (block_groups fs' !! i')) as [g2 H2] by (apply lookup_lt_is_Some; rewrite Hg, length_insert; by eapply lookup_lt_Some). destruct (Hback i' g2 H2) as (g1 & H1 & _ & _ & _ & _ & E). destruct (E k) as [_ E5]. assert (g1 = x) as -> by congruence. exists g2, buf. by rewrite E5.
Qed.

Lemma adjust_used_dirs_ok i j delta fs g : alloc_inv fs → block_groups fs !! i = Some g → 0 ≤ j < inodes_per_group sb → number InodeBitmap i j ≤ total_inodes sb →
  let n := adjusted32 (used_dirs_count g) delta in (desc_size sb < 64 → n < 2 ^ 16) →
  ∃ fs', adjust_used_dirs sb (number InodeBitmap i j) delta fs = Some fs' ∧ block_groups fs' = <[i := set_used_dirs n g]> (block_groups fs) ∧ alloc_inv fs' ∧ (∀ k m, is_free k fs' m ↔ is_free k fs m).
Proof.
  intros Hinv Hi Hj Hle n Hn. pose proof (ai_layout fs Hinv) as Hlay. destruct (ai_desc fs Hinv i g Hi) as [Hg [_ _ F3 _ _]]. pose proof (lo_ipg sb _ Hlay). pose proof (lo_desc sb _ Hlay) as Hdo. pose proof (ai_bytes fs Hinv) as Hv.
  assert (0 ≤ n < 2 ^ 32) as Hn32 by (unfold n, adjusted32, sat_add32, sat_sub32; destruct (Z.leb_spec 0 delta); lia). unfold adjust_used_dirs. unfold number in *. cbn [per_group base] in *.
  rewrite (proj2 (Z.eqb_neq (_ + 1) 0)), (proj2 (Z.ltb_ge _ _)) by nia. cbn [orb]. rewrite (proj2 (Z.eqb_neq _ _)) by lia. rewrite Z.add_simpl_r, Z.div_add_l, Z.div_small, Z.add_0_r, Nat2Z.id, Hi by lia. step_some. fold (adjusted32 (used_dirs_count g) delta). fold n.
  destruct (desc_off_ok sb (Z.of_nat i) Hdo ltac:(lia)) as [Ho1 Ho2]. destruct (Hv (desc_block sb (Z.of_nat i))) as [Hv2 Hv3]. assert (len (desc_of sb fs (Z.of_nat i)) = desc_size sb) as Hdl by (unfold desc_of; rewrite len_seg; destruct Hdo as [? _]; lia).
  destruct (put_used_dirs_new (Z.of_nat i) g n (desc_of sb fs (Z.of_nat i))) as (d' & Hd' & L & B & G); [rewrite Hdl; apply Hdo|by apply Forall_seg|done|done|by rewrite Hdl|].
  destruct (update_group_desc_ok sb (with_group (Z.of_nat i) (set_used_dirs n g) fs) (Z.of_nat i) (put_used_dirs n) d' (set_used_dirs n g) Hdo Hv ltac:(lia) Hd') as (fs2 & -> & G2 & B2 & R2 & D2 & N2); [congruence|done..|].
  exists fs2. cbn [with_group block_groups] in G2. rewrite Nat2Z.id in G2. split; [done|]. split; [done|]. by eapply dirs_inv.
Qed.

End volume.

Module AllocProps.

(** C7 A client that takes blocks and inodes and gives back those it holds, in any order, on a
    consistent volume: no request panics and the volume stays consistent, so the counters of
    the descriptors and of the superblock keep counting what is free.  No block or inode is
    held twice; each held one is in use and none the layout keeps (a copy of the superblock
    and the descriptors in any group, a bitmap, an inode table, a reserved inode); what was
    free at first is free or held at every moment. *)
Theorem blocks_allocated_once sb fs rs : alloc_inv sb fs → ∃ c, serve_all sb rs (MkClient fs (λ _, [])) = Some c ∧ conserved sb fs c.
Proof.
  intros Hinv. apply serve_all_ok. split; cbn; [done|intros; apply NoDup_nil_2|intros k n Hn; by apply not_elem_of_nil in Hn|]. intros k n. rewrite elem_of_nil. tauto.
Qed.

(** C19 An allocation on a consistent volume takes a free block or inode in range that the layout
    does not keep, and it alone stops being free; the blocks that are no metadata keep their
    contents.  It is refused only when nothing is free: a group that was never initialized
    is not passed over when it has room. *)
Theorem allocation_exact sb fs : alloc_inv sb fs →
  (∃ r fs', alloc_block sb fs = Some (r, fs') ∧ match r with Some n => takes sb BlockBitmap fs n fs' ∧ first_data_block sb ≤ n < total_blocks sb | None => fs' = fs ∧ ∀ m, ¬ is_free sb BlockBitmap fs m end) ∧
  (∃ r fs', alloc_inode sb fs = Some (r, fs') ∧ match r with Some n => takes sb InodeBitmap fs n fs' ∧ 0 < n ≤ total_inodes sb | None => fs' = fs ∧ ∀ m, ¬ is_free sb InodeBitmap fs m end).
Proof.
  intros Hinv. pose proof (ai_layout sb fs Hinv) as Hlay. split.
  - destruct (alloc_ok sb BlockBitmap fs Hinv) as (r & fs' & Hr & H'). exists r, fs'. split; [done|]. destruct r as [n|]; [|done]. split; [done|]. destruct (ta_free _ _ _ _ _ H') as (i & j & -> & Hj%free_bit_range).
    destruct (number_ok sb _ BlockBitmap (Z.of_nat i) j Hlay ltac:(lia) Hj) as (N1 & _ & N3). destruct (N3 eq_refl) as [N4 _]. cbn [base] in *. lia.
  - destruct (alloc_ok sb InodeBitmap fs Hinv) as (r & fs' & Hr & H'). exists r, fs'. split; [done|]. destruct r as [n|]; [|done]. split; [done|]. destruct (ta_free _ _ _ _ _ H') as (i & j & -> & Hj%free_bit_range).
    destruct (number_ok sb _ InodeBitmap (Z.of_nat i) j Hlay ltac:(lia) Hj) as (N1 & N2 & _). cbn [base per_group bit_count] in *. unfold group_inode_count, sat_sub32, sat_mul32 in Hj. lia.
Qed.

(** A volume of two groups: the first holds the metadata and five free inodes, the second was
    never initialized and holds a backup of superblock and descriptors. *)
Definition demo_sb : Ext4SuperBlock := MkSuper 128 32 4096 256 64 16 0 0x42 0 0x401 1 [] 0 0 0 7 1 32 0 11 [0; 0] 64.
Definition demo_g0 : Ext4Group := MkGroup 0 2 4 6 56 5 2 5 0.
Definition demo_g1 : Ext4Group := MkGroup 1 3 5 7 62 16 0 16 3.

Definition demo_desc (g : Ext4Group) : list Z :=
  le 4 (block_bitmap_id g) ++ le 4 (inode_bitmap_id g) ++ le 4 (inode_table_id g) ++ le 2 (free_blocks_count g) ++ le 2 (free_inodes_count g) ++ le 2 (used_dirs_count g) ++ le 2 (g_flags g) ++ zeros 8 ++ le 2 (itable_unused g) ++ zeros 34.

Definition demo_volume (b : Z) : list Z :=
  if b =? 0 then zeros 1036 ++ le 4 118 ++ le 4 21 ++ zeros 3052
  else if b =? 1 then demo_desc demo_g0 ++ demo_desc demo_g1 ++ zeros 3968
  else if b =? 2 then [255] ++ zeros 4095
  else if b =? 4 then [255; 7] ++ zeros 4094
  else zeros 4096.

Definition demo_fs : Ext4FS := MkFs [demo_g0; demo_g1] demo_volume.

Lemma demo_bytes : volume_bytes demo_fs.
Proof.
  intros b. cbn [demo_fs volume]. unfold demo_volume. repeat case_match; (split; [vm_compute; reflexivity|]); repeat (apply Forall_app; split); try apply Forall_zeros; try apply le_bytes; repeat (constructor; [lia|]); constructor.
Qed.

Lemma demo_groups i g : [demo_g0; demo_g1] !! i = Some g → (i = 0%nat ∧ g = demo_g0) ∨ (i = 1%nat ∧ g = demo_g1).
Proof. destruct i as [|[|i]]; cbn; intros; simplify_eq; auto. Qed.

Lemma demo_layout : layout_ok demo_sb [demo_g0; demo_g1].
Proof.
  split; try (vm_compute; split; congruence); try (vm_compute; congruence); try reflexivity.
  - split; [right; vm_compute; congruence|reflexivity].
  - intros i g [[-> ->]|[-> ->]]%demo_groups; split; (reflexivity || vm_compute; congruence).
  - intros g [i [[-> ->]|[-> ->]]%demo_groups]%list_elem_of_lookup; split; reflexivity.
  - apply (bool_decide_unpack _). vm_compute. exact I.
Qed.

(** What the layout keeps, by computation. *)
Definition demo_kept (k : BitmapKind) (i j : Z) : bool :=
  match k with BlockBitmap => bool_decide (0 ≤ 64 * i + j < 8 ∨ 64 ≤ 64 * i + j < 66) | InodeBitmap => bool_decide (i = 0 ∧ j < 10) end.

Lemma demo_kept_ok k i j : kept demo_sb k [demo_g0; demo_g1] i j → demo_kept k i j = true.
Proof.
  assert (gdt_blocks demo_sb (len [demo_g0; demo_g1]) = 1 ∧ table_blocks demo_sb = 1) as [H1 H2] by done. destruct k; cbn [kept demo_kept]; intros Hk; apply bool_decide_eq_true; [|cbn in Hk; lia]. unfold metadata, layout_block in Hk. rewrite H1, H2 in Hk.
  destruct Hk as [(gid & Hg & _ & Hb)|(g & Hin & Hb)]; [unfold len in Hg; cbn in Hg, Hb; lia|]. apply list_elem_of_lookup in Hin as [n [[-> ->]|[-> ->]]%demo_groups]; cbn in Hb; lia.
Qed.

(** The bits of the four bitmaps. *)
Definition demo_bits (k : BitmapKind) (i : nat) (g : Ext4Group) : bool :=
  match bitmap_of demo_sb k (Z.of_nat i) g demo_fs with
  | Some (Some buf) =>
    bool_decide (free_count k g = free_bits buf (bit_count demo_sb k (Z.of_nat i))) &&
    forallb (λ j, (negb (demo_kept k (Z.of_nat i) j) || bitset buf j) && match k with BlockBitmap => true | InodeBitmap => negb (bitset buf j) || (j <? bit_count demo_sb k (Z.of_nat i) - itable_unused g) end)
      (seqZ 0 (bit_count demo_sb k (Z.of_nat i)))
  | _ => false
  end.

Lemma demo_bits_ok k i g : demo_bits k i g = true → ∃ buf, bitmap_of demo_sb k (Z.of_nat i) g demo_fs = Some (Some buf) ∧ bits_ok demo_sb k [demo_g0; demo_g1] (Z.of_nat i) g buf.
Proof.
  unfold demo_bits. destruct (bitmap_of demo_sb k (Z.of_nat i) g demo_fs) as [[buf|]|]; [|done..]. intros [Hc%bool_decide_eq_true Hall]%andb_true_iff. rewrite forallb_forall in Hall.
  assert (∀ j, 0 ≤ j < bit_count demo_sb k (Z.of_nat i) → In j (seqZ 0 (bit_count demo_sb k (Z.of_nat i)))) as Hin by (intros j Hj; apply list_elem_of_In, elem_of_seqZ; lia).
  exists buf. split; [done|]. split; [done|intros j Hj Hk%demo_kept_ok|intros -> j Hj Ht].
  - destruct (andb_prop _ _ (Hall j (Hin j Hj))) as [H1 _]. by rewrite Hk in H1.
  - destruct (andb_prop _ _ (Hall j (Hin j Hj))) as [_ H2]. rewrite Ht in H2. by apply Z.ltb_lt.
Qed.

Lemma demo_inv : alloc_inv demo_sb demo_fs.
Proof.
  apply alloc_inv_intro.
  - apply demo_layout.
  - apply demo_bytes.
  - intros i g [[-> ->]|[-> ->]]%demo_groups; (split; [vm_compute; reflexivity|split; cbn; lia]).
  - intros k i g [[-> ->]|[-> ->]]%demo_groups; apply demo_bits_ok; destruct k; vm_compute; reflexivity.
  - intros []; vm_compute; reflexivity.
Qed.

Lemma blocks_allocated_once_witness : ∃ c, serve_all demo_sb [Take BlockBitmap; Take InodeBitmap; Take BlockBitmap; Give BlockBitmap 1; Take BlockBitmap] (MkClient demo_fs (λ _, [])) = Some c ∧ conserved demo_sb demo_fs c.
Proof. apply (blocks_allocated_once demo_sb demo_fs). apply demo_inv. Defined.

Lemma allocation_exact_witness :
  (∃ r fs', alloc_block demo_sb demo_fs = Some (r, fs') ∧ match r with Some n => takes demo_sb BlockBitmap demo_fs n fs' ∧ first_data_block demo_sb ≤ n < total_blocks demo_sb | None => fs' = demo_fs ∧ ∀ m, ¬ is_free demo_sb BlockBitmap demo_fs m end) ∧
  (∃ r fs', alloc_inode demo_sb demo_fs = Some (r, fs') ∧ match r with Some n => takes demo_sb InodeBitmap demo_fs n fs' ∧ 0 < n ≤ total_inodes demo_sb | None => fs' = demo_fs ∧ ∀ m, ¬ is_free demo_sb InodeBitmap demo_fs m end).
Proof. apply (allocation_exact demo_sb demo_fs). apply demo_inv. Defined.

End AllocProps.
